(* ===== verification/_CoqProject ===== *)
-Q . S2P
Prelude.v
Clib.v
Lexer.v
Parser.v
Shell.v
Jobs.v
Control.v
Proc.v
Sched.v
System.v
Fair.v
Smp.v
Resolve.v
Copy.v
Redirect.v
Wiring.v
Stages.v
Release.v
Hop.v
Reveal.v
Snoop.v
Spy.v
Peek.v
Bytes.v
KString.v
Bio.v
Cache.v
Log.v
LogSpace.v
Fs.v
Inode.v
Dinode.v
Content.v
Itable.v
FileData.v
FileOps.v
Trunc.v
Dir.v
Pipe.v
Console.v
Kalloc.v
Vm.v
VmTree.v
VmMap.v
VmFree.v
VmSpace.v
VmCopy.v
VmFork.v
VmProc.v
VmLife.v
VmSpawn.v
File.v
Sysfile.v
Balance.v
Grep.v
Umalloc.v
Sh.v
Shrun.v
Exec.v
ExecVm.v
ExecLoad.v
ExecSpec.v
ExecRun.v
SysExec.v
SysExecRun.v
Mkfs.v
MkfsFile.v
MkfsDisk.v
MkfsSpec.v
Virtio.v
VirtioSpec.v
VirtioRun.v
Printf.v
Ulib.v
Utils.v
Spinlock.v
Trap.v
TrapSpec.v
Uart.v
UartSpec.v
