(* ===== verification/Prelude.v ===== *)
(** * RuSHELL: a verification library for the c-shell and xv6

    The repository holds two programs: a shell in C for Linux (c-shell/) and the
    xv6 operating system with schedulers of its own (xv6/): its kernel, its user
    library, shell and programs, and mkfs.  This library models them from the source,
    function by function, and proves what they are meant to do.

    ** Conventions

    - A C string is the list of its characters, without the NUL ([cstr]); a block
      of bytes is a list of [Z] below 256 ([Bytes]); an integer of w bits is a [Z]
      whose wrap-around is written where the code can reach it ([i32], [u32],
      [u64]); memory is a function from addresses to bytes.
    - Code with effects is in the monad [M] below: a state, a result or an error,
      and [NoFuel] for a loop that ran out of turns.  No theorem holds because of
      [NoFuel]: the theorems state the result that the code returns.
    - A kernel function that would sleep ends its turn with [Sleeps], and one that
      panics with [Panic]; the code between two sleeps runs under a lock and is one
      step.  [wp] states what a run ends with.
    - What the programs get from outside (the file system of the host, processes,
      ptrace, the clock, the devices) is an argument of the definitions; for a device it
      is a class with what its manual promises as laws, and an instance of it.
    - Code that several CPUs or a device run between ([Spinlock], [Smp], [Uart], [Virtio]) is a
      step relation, and its theorems are about every reachable state.

    ** The shell (c-shell/src)

    shell.c reads a line of at most 4095 bytes ([fgets] of [Clib]), [Lexer]
    (lexer.c) cuts it into tokens, [Parser] (parser.c) accepts or rejects the
    tokens, and [Shell] (shell.c) cuts them at [;] and [&] into segments and at [|]
    into stages, and calls a builtin or an executor.  What these do is the
    interface [World] of [Shell].
    - [Lexer]: [lex_line_grammar] (the tokens are those of a reference automaton),
      [lex_print_roundtrip].  [Parser]: [parse_validate_grammar] (accepted = printed
      from the abstract syntax [line]).  [Shell]: [run_command_line] (lines on the
      standard input that print abstract syntax within the limits of the shell are
      run as it says; [long_lines_are_cut] and [long_commands_are_cut] are what
      happens beyond these limits).
    - [Jobs] (jobs.c): the tables of jobs, groups and processes, SIGCHLD and the
      queue of messages, with [jobs_invariant] on every sequence of its calls;
      [Control]: the builtins resume (resume.c) and ping (ping.c).
    - [Resolve]: exec.c, locate.c, prompt.c.  [Copy], [Redirect], [Wiring], [Stages],
      [Release]: redirect.c, its copying helpers, its four executors on descriptor
      tables, what they leave open, who holds which pipe and reads and writes which
      files, and when a background command starts.  A [waitpid] returns when a
      process that it can report ends, or stops if it was asked for stops; when none
      ever does it blocks, and so does the executor ([executors_restore_descriptors]
      says when).
    - Builtins: [Hop] (hop.c), [Reveal] (reveal.c), [Peek] (peek.c), [Snoop]
      (snoop.c), [Spy] (spy.c).

    ** Processes and scheduling (xv6/kernel/proc.c, trap.c, sysproc.c)

    [Proc] is the process table and its operations, [Sched] the three schedulers and
    the timer interrupt, [System] the runs of a machine with one CPU as labelled
    steps with their invariant: a step is what runs with interrupts off, so that a
    tick can come in the middle of a fork; [nextpid] wraps as an [int] does, and what
    depends on it is claimed for runs in which it has not; an exit of init spins in
    [panic].  [Fair] is the bound on the waiting time after a boost,
    [Smp] the scheduler on several CPUs, with the visits under each lock interleaved
    in any order.  [Spinlock] (spinlock.c): [locks_exclude], the locks that all this rests
    on, with the interrupt flag that [push_off] and [pop_off] keep.

    ** Traps and system calls (xv6/kernel/trap.c, trampoline.S, kernelvec.S, syscall.c)

    [Trap] has the registers of a hart, the entry code as lists of instructions and the
    functions of trap.c on the same state; what they call (devices, page faults, system
    calls, the time in which others run) is the class [Traps], and [TrapsOk] what it
    promises.  [TrapSpec]: [user_traps_transparent] and [kernel_traps_transparent] (the code that
    is interrupted sees nothing of it), [bad_trap_kills].
    [SysExec] fetches the arguments of a call.

    ** Starting programs (xv6/kernel/exec.c, sysfile.c)

    [Exec] is kexec over the inode and page table operations, [ExecVm] and [ExecLoad] prove its steps
    and [ExecSpec] that it builds exactly the image that the ELF file and the arguments describe or
    leaves the process as it was ([exec_replaces]); [SysExec] is the system call around it.  [ExecRun] and
    [SysExecRun] run them on small files.

    ** The file system (xv6/kernel/bio.c, log.c, fs.c, file.c, pipe.c, sysfile.c)

    The layers are modelled separately and each is used through its promise:
    - [Bio] (bio.c, sleeplock.c) is the buffer cache over a disk; [Cache] is the
      abstract state it promises (the contents of each block seen and stored) and the
      refinement.
    - [Log] (log.c) runs on [Bio] and uses only [Cache]: a transaction is on the disk
      as a whole or not at all, at whatever write the machine stops.  [LogSpace]: the
      reservation of blocks keeps the log from overflowing.
    - [Fs], [Inode], [Dir] (fs.c): blocks, inodes, directories and paths, over the
      blocks as the cache shows them.  [Dinode], [Content], [FileData], [FileOps],
      [Trunc], [Itable] prove that a file is its bytes: reading, writing, extending,
      truncating, with the invariant that files share no block.
    - [Pipe] (pipe.c), [Console] (console.c), [File] (file.c), [Sysfile] (sysfile.c): pipes, the
      console as a line discipline ([console_lines]), open files and the system calls on them.  [Balance]: every path of every call gives back the
      buffers, sleep-locks and transactions it took.
    - [KString] (string.c).
    - [Mkfs], [MkfsFile], [MkfsDisk], [MkfsSpec] (mkfs/mkfs.c): the image that mkfs writes is a file system as
      the kernel reads it, with the files it was given ([mkfs_image]).

    ** Devices (xv6/kernel/virtio_disk.c, uart.c, printk.c)

    - [Virtio]: the disk driver's queue of requests, interleaved with the device and the
      interrupt handler, with the calls and returns as labels; [VirtioSpec]: [driver_refines_atomic_disk], as
      long as the disk reports no error every run looks like one of a disk whose transfers are single steps,
      one for each call, before it returns.  [VirtioRun] is a device to run it on, and what an error does.
    - [Uart]: the serial port with its interrupt handler; [UartSpec]: [uart_delivers], no byte to send and no
      wakeup is lost (a key that comes when 16 are unread is).
    - [Printf]: printk.c and user/printf.c, on a common description of what a format prints.

    ** The user's side (xv6/user)

    [Ulib] (ulib.c), [Umalloc] (umalloc.c: [allocator_run], blocks that are in use never overlap), [Grep] (grep.c: the matcher
    decides the language of its pattern), [Sh] (sh.c: the parser and its printer, where it stops) and [Shrun] (sh.c: runcmd on
    descriptor tables), [Utils] (wc.c, cat.c, ls.c).

    ** Memory (xv6/kernel/kalloc.c, vm.c)

    - [Kalloc]: the list of free pages through the pages themselves.
    - [Vm]: the page tables as words in that memory.  [VmTree] describes a table by
      two maps and the role of each page; [VmMap], [VmFree] and [VmSpace] prove the
      operations against it, [VmCopy] the copies between kernel and user, [VmFork]
      and [VmSpawn] the copy of a fork, [VmProc] and [VmLife] the life of an address
      space.  A process sees its memory as a function in which untouched pages are
      zeros ([umem]).

    ** Fuel

    A loop that is not structural has fuel computed from its arguments: the number
    of pages or blocks it can visit, the length of its input.  The theorems about it
    show that the fuel is enough.  [freewalk] has depth 3, the levels of a table.
    Where a loop waits for the outside (reading a pipe, tracing a process) its turns
    are the events it meets.

    ** Not modelled

    The boot code (start.c, main.c, entry.S) and the switch of stacks (swtch.S, a promise of
    [TrapsOk]); plic.c, four accesses to device registers; the hardware's translation of addresses and its
    cache of it, which the code uses and does not implement; weak memory: locks and fences
    order the accesses.  printk's lock and its flags, so output of printk that mixes with a
    program's.  procdump, which only prints.  Of the user's programs, those that make a few
    system calls each (init, echo, kill, ln, mkdir, rm, sync), the tests, stat of the user library; history.c of the
    shell, which nothing calls.  The layers are not linked into one machine: the layers above the log see blocks as
    already cached, [begin_op] and [end_op] are counted in [File] and modelled in [Log], and a
    component that calls another uses what is promised of it. *)

From stdpp Require Export base tactics list strings numbers sets.
From Stdlib Require Export Ascii.

(** ** Scopes *)
Declare Scope c_scope.
Delimit Scope c_scope with c.

(** ** C strings

    A NUL-terminated [char *] is the list of its bytes, the terminator left
    out.  [lit] writes a string literal of the source. *)
Abbreviation cstr := (list ascii).

Definition lit (s : string) : cstr := String.list_ascii_of_string s.

Definition NUL : ascii := "000"%char.
Definition TAB : ascii := "009"%char.
Definition NL : ascii := "010"%char.
Definition CR : ascii := "013"%char.
Definition SP : ascii := "032"%char.
Definition DQ : ascii := "034"%char.
Definition SQ : ascii := "039"%char.
Definition BSL : ascii := "092"%char.

(** [strcmp(a, b) == 0] *)
Definition streq (a b : cstr) : bool := bool_decide (a = b).

Infix "=c?" := Ascii.eqb (at level 70, no associativity) : c_scope.

(** ** Machine integers *)
Definition u32 (x : Z) : Z := (x mod 2 ^ 32)%Z.
Definition i32 (x : Z) : Z := ((x + 2 ^ 31) mod 2 ^ 32 - 2 ^ 31)%Z.

(** ** Effects

    Code that threads a state and may return an error code, or whose loop
    runs on fuel, is written in the monad [M]. *)
Inductive outcome (E A : Type) : Type :=
  | Ret (a : A)
  | Err (e : E)
  | NoFuel.
Arguments Ret {E A} _.
Arguments Err {E A} _.
Arguments NoFuel {E A}.

Definition M (S E A : Type) : Type := S → outcome E A * S.

#[export] Instance M_ret {S E} : MRet (M S E) := λ A a s, (Ret a, s).
#[export] Instance M_bind {S E} : MBind (M S E) := λ A B k m s,
  match m s with
  | (Ret a, s') => k a s'
  | (Err e, s') => (Err e, s')
  | (NoFuel, s') => (NoFuel, s')
  end.

(** Run [m]; go on with [k] on its result and with [h] on its error. *)
Definition handle {S E E' A B} (m : M S E A) (k : A → M S E' B)
    (h : E → M S E' B) : M S E' B := λ s,
  match m s with
  | (Ret a, s') => k a s'
  | (Err e, s') => h e s'
  | (NoFuel, s') => (NoFuel, s')
  end.

Definition throw {S E A} (e : E) : M S E A := λ s, (Err e, s).
Definition nofuel {S E A} : M S E A := λ s, (NoFuel, s).
Definition gets {S E A} (f : S → A) : M S E A := λ s, (Ret (f s), s).
Definition modify {S E} (f : S → S) : M S E () := λ s, (Ret (), f s).

(** ** Weakest preconditions

    [wp m Q R s]: started in [s], [m] ends (it never runs out of fuel) with a
    result satisfying [Q] or an error satisfying [R]. *)
Definition wp {S E A} (m : M S E A) (Q : A → S → Prop) (R : E → S → Prop)
    (s : S) : Prop :=
  match m s with
  | (Ret a, s') => Q a s'
  | (Err e, s') => R e s'
  | (NoFuel, _) => False
  end.

Section Wp.
Context {S E : Type}.
Implicit Types (s : S).

Lemma wp_ret {A} (a : A) Q (R : E → S → Prop) s : Q a s → wp (mret a) Q R s.
Proof. done. Qed.

Lemma wp_throw {A} e (Q : A → S → Prop) (R : E → S → Prop) s :
  R e s → wp (throw e) Q R s.
Proof. done. Qed.

Lemma wp_gets {A} (f : S → A) Q (R : E → S → Prop) s :
  Q (f s) s → wp (gets f) Q R s.
Proof. done. Qed.

Lemma wp_modify (f : S → S) Q (R : E → S → Prop) s :
  Q () (f s) → wp (modify f) Q R s.
Proof. done. Qed.

Lemma wp_bind {A B} (m : M S E A) (k : A → M S E B) Q R s :
  wp m (λ a, wp (k a) Q R) R s → wp (mbind k m) Q R s.
Proof. unfold wp, mbind, M_bind. by destruct (m s) as [[] ?]. Qed.

Lemma wp_handle {E' A B} (m : M S E A) (k : A → M S E' B) (h : E → M S E' B)
    Q R s :
  wp m (λ a, wp (k a) Q R) (λ e, wp (h e) Q R) s → wp (handle m k h) Q R s.
Proof. unfold wp, handle. by destruct (m s) as [[] ?]. Qed.

Lemma wp_mono {A} (m : M S E A) (Q Q' : A → S → Prop) (R R' : E → S → Prop) s :
  wp m Q R s → (∀ a s, Q a s → Q' a s) → (∀ e s, R e s → R' e s) →
  wp m Q' R' s.
Proof. unfold wp. destruct (m s) as [[] ?]; eauto. Qed.

Lemma wp_run {A} (m : M S E A) (P : A → S → Prop) s :
  wp m P (λ _ _, False) s → ∃ a s', m s = (Ret a, s') ∧ P a s'.
Proof. unfold wp. destruct (m s) as [[a|e|] s']; [eauto|done|done]. Qed.
End Wp.

(** ** Tactics *)

(** Turn boolean comparisons of characters into equations. *)
Ltac char_cases :=
  repeat match goal with
  | H : Ascii.eqb _ _ = true |- _ => apply Ascii.eqb_eq in H; subst
  | H : Ascii.eqb _ _ = false |- _ => apply Ascii.eqb_neq in H
  | H : (_ || _) = true |- _ => apply orb_true_iff in H
  | H : (_ || _) = false |- _ => apply orb_false_iff in H; destruct H
  end.

(** Split the conditionals of the goal on their boolean conditions. *)
Ltac case_if :=
  match goal with
  | |- context [if ?b then _ else _] => destruct b eqn:?
  end.

(** Unfold the monad of the effectful code. *)
Ltac munfold := unfold handle, mbind, M_bind, mret, M_ret, throw, nofuel, gets, modify.

(** Run the first action of a sequence. *)
Lemma bind_run {S E A B} (m : M S E A) (k : A → M S E B) s x s' :
  m s = (Ret x, s') → mbind k m s = k x s'.
Proof. intros H. unfold mbind, M_bind. by rewrite H. Qed.

(** The first action of a sequence that returned. *)
Lemma bind_ret_inv {S E A C} (m : M S E A) (k : A → M S E C) s y s2 :
  mbind k m s = (Ret y, s2) → ∃ x s1, m s = (Ret x, s1) ∧ k x s1 = (Ret y, s2).
Proof. unfold mbind, M_bind. destruct (m s) as [[x|e|] s1]; [eauto|done..]. Qed.

Ltac pure_step := erewrite bind_run; [|reflexivity]; cbv beta.

(** One step of the monad's evaluation, without unfolding the program. *)
Ltac msimpl :=
  cbv beta iota delta [handle mbind M_bind mret M_ret throw nofuel gets modify id].

(** ** Lists *)
Lemma drop_lookup_cons {A} (l : list A) i x :
  l !! i = Some x → drop i l = x :: drop (i + 1) l.
Proof. rewrite Nat.add_1_r. apply drop_S. Qed.

Lemma drop_lookup_nil {A} (l : list A) i : l !! i = None → drop i l = [].
Proof. intros H. apply drop_ge. by apply lookup_ge_None. Qed.

Lemma list_alter_insert {A} (f : A → A) (l : list A) i x :
  l !! i = Some x → alter f i l = <[i := f x]> l.
Proof.
  intros Hx. apply list_eq. intros j. pose proof (lookup_lt_Some _ _ _ Hx).
  destruct (decide (j = i)) as [->|Hne].
  - by rewrite list_lookup_alter_eq, Hx, list_lookup_insert_eq.
  - by rewrite list_lookup_alter_ne, list_lookup_insert_ne.
Qed.

Create HintDb shell discriminated.
#[export] Hint Resolve drop_lookup_cons drop_lookup_nil : shell.
#[export] Hint Resolve wp_ret wp_throw wp_gets wp_modify : shell.
