(* ===== verification/Clib.v ===== *)
(** * The C library functions that the shell calls

    Decimal printing and parsing ([%d], [strtol]), character classes and
    substring search, as the C standard specifies them in the C locale. *)

From S2P Require Import Prelude.

Open Scope Z_scope.

(** ** Printing numbers *)

(** The decimal digits printed by [%d] and [%ld], the last first. *)
Fixpoint digits_rev (fuel : nat) (n : Z) : cstr :=
  match fuel with
  | O => []
  | S fuel =>
      let d := ascii_of_nat (Z.to_nat (48 + n mod 10)) in
      if n <? 10 then [d] else d :: digits_rev fuel (n / 10)
  end.

Definition print_Z (n : Z) : cstr :=
  if n <? 0 then "-"%char :: rev (digits_rev 20 (- n)) else rev (digits_rev 20 n).

(** ** Parsing numbers *)
Definition is_digit (c : ascii) : bool :=
  ((48 <=? nat_of_ascii c) && (nat_of_ascii c <=? 57))%nat.

Definition digit_val (c : ascii) : Z := Z.of_nat (nat_of_ascii c) - 48.

(** [isspace]: space, \t, \n, \v, \f, \r. *)
Definition isspace (c : ascii) : bool :=
  Ascii.eqb c SP || ((9 <=? nat_of_ascii c) && (nat_of_ascii c <=? 13))%nat.

Fixpoint skip_space (s : cstr) : cstr :=
  match s with
  | c :: s' => if isspace c then skip_space s' else s
  | [] => []
  end.

(** The value of the digits at the head of [s], whether there was one, and
    what follows them. *)
Fixpoint take_digits (acc : Z) (any : bool) (s : cstr) : Z * bool * cstr :=
  match s with
  | c :: s' =>
      if is_digit c then take_digits (acc * 10 + digit_val c) true s' else (acc, any, s)
  | [] => (acc, any, [])
  end.

Definition LONG_MAX : Z := 2 ^ 63 - 1.
Definition LONG_MIN : Z := - 2 ^ 63.

Definition clamp_long (v : Z) : Z := Z.max LONG_MIN (Z.min LONG_MAX v).

Definition take_sign (s : cstr) : bool * cstr :=
  match s with
  | c :: s' =>
      if Ascii.eqb c "-" then (true, s')
      else if Ascii.eqb c "+" then (false, s') else (false, s)
  | [] => (false, [])
  end.

(** [strtol(s, &end, 10)]: the value, and the string at [end]. *)
Definition strtol (s : cstr) : Z * cstr :=
  let (neg, t) := take_sign (skip_space s) in
  match take_digits 0 false t with
  | (v, true, rest) => (clamp_long (if neg : bool then - v else v), rest)
  | (_, false, _) => (0, s)
  end.

(** ** Strings *)

(** [strstr(s, sub) != NULL] *)
Fixpoint strstr (s sub : cstr) : bool :=
  bool_decide (sub `prefix_of` s) ||
  match s with [] => false | _ :: s' => strstr s' sub end.

(** [strncpy(dst, src, n)] followed by [dst[n] = 0], and the truncation of
    [snprintf] into [n + 1] bytes. *)
Definition strncpy_z (n : nat) (src : cstr) : cstr := take n src.
Arguments strncpy_z : simpl never.

(** The tail of [l] from the last occurrence of [c]. *)
Fixpoint strrchr (c : ascii) (l : cstr) : option cstr :=
  match l with
  | [] => None
  | x :: l' =>
      match strrchr c l' with
      | Some r => Some r
      | None => if Ascii.eqb x c then Some l else None
      end
  end.

(** ** Lemmas *)
Lemma digits_rev_length fuel n k :
  0 ≤ n < 10 ^ Z.of_nat k → (0 < k)%nat → (length (digits_rev fuel n) ≤ k)%nat.
Proof.
  revert n k. induction fuel as [|fuel IH]; intros n k Hn Hk; simpl; [lia|].
  destruct (n <? 10) eqn:E; simpl; [lia|]. apply Z.ltb_ge in E.
  destruct k as [|[|k]]; [lia| |].
  { change (10 ^ Z.of_nat 1) with 10 in Hn. lia. }
  apply le_n_S, IH; [|lia]. rewrite Nat2Z.inj_succ, Z.pow_succ_r in Hn by lia.
  split; [apply Z.div_pos; lia|apply Z.div_lt_upper_bound; lia].
Qed.

Lemma print_Z_length n k :
  0 ≤ n < 10 ^ Z.of_nat k → (0 < k)%nat → (length (print_Z n) ≤ k)%nat.
Proof.
  intros Hn Hk. unfold print_Z. rewrite (proj2 (Z.ltb_ge n 0)) by lia.
  rewrite length_rev. by apply digits_rev_length.
Qed.

Lemma digit_char d :
  0 ≤ d < 10 →
  let c := ascii_of_nat (Z.to_nat (48 + d)) in is_digit c = true ∧ digit_val c = d.
Proof.
  intros Hd c. unfold is_digit, digit_val, c. rewrite nat_ascii_embedding by lia.
  rewrite andb_true_iff, !Nat.leb_le. lia.
Qed.

Lemma take_digits_rev fuel n any rest :
  0 ≤ n < 10 ^ Z.of_nat fuel → (0 < fuel)%nat →
  take_digits 0 any (rev (digits_rev fuel n) ++ rest) = take_digits n true rest.
Proof.
  revert n any rest. induction fuel as [|fuel IH]; intros n any rest Hn Hf; [lia|].
  cbn [digits_rev]. pose proof (Z.mod_pos_bound n 10 ltac:(lia)) as Hm.
  destruct (digit_char (n mod 10) Hm) as [Hd Hv].
  destruct (n <? 10) eqn:E.
  - apply Z.ltb_lt in E. cbn. rewrite Hd, Hv, Z.mod_small by lia. done.
  - apply Z.ltb_ge in E. cbn [rev]. rewrite <-app_assoc. cbn [app].
    destruct fuel as [|fuel]; [change (10 ^ Z.of_nat 1) with 10 in Hn; lia|].
    rewrite IH; [|rewrite Nat2Z.inj_succ, Z.pow_succ_r in Hn by lia;
      split; [apply Z.div_pos; lia|apply Z.div_lt_upper_bound; lia]|lia].
    cbn [take_digits]. rewrite Hd, Hv. f_equal. pose proof (Z.div_mod n 10). lia.
Qed.

(** The next byte, if any, is not a digit. *)
Definition no_digit (rest : cstr) : Prop :=
  match rest with c :: _ => is_digit c = false | [] => True end.

Lemma take_digits_stop n rest : no_digit rest → take_digits n true rest = (n, true, rest).
Proof. destruct rest as [|c rest]; [done|]. simpl. by intros ->. Qed.

Lemma digits_rev_digits fuel n c :
  0 ≤ n → c ∈ digits_rev fuel n → is_digit c = true.
Proof.
  revert n. induction fuel as [|fuel IH]; intros n Hn; simpl; [by intros ?%elem_of_nil|].
  pose proof (proj1 (digit_char (n mod 10) (Z.mod_pos_bound n 10 ltac:(lia)))).
  destruct (n <? 10); [by intros ->%list_elem_of_singleton|].
  intros [->|Hc]%elem_of_cons; [done|]. apply (IH (n / 10)); [|done].
  apply Z.div_pos; lia.
Qed.

Lemma print_Z_digits n c : 0 ≤ n → c ∈ print_Z n → is_digit c = true.
Proof.
  intros Hn. unfold print_Z. rewrite (proj2 (Z.ltb_ge n 0)) by lia.
  intros Hc. apply (digits_rev_digits 20 n); [done|].
  apply list_elem_of_In. apply list_elem_of_In in Hc. by apply in_rev.
Qed.

Lemma print_Z_nonempty n : 0 ≤ n → print_Z n ≠ [].
Proof.
  intros Hn. unfold print_Z. rewrite (proj2 (Z.ltb_ge n 0)) by lia.
  intros H. apply (f_equal length) in H. rewrite length_rev in H. simpl in H.
  destruct (n <? 10); discriminate H.
Qed.

Lemma digit_not_space c : is_digit c = true → isspace c = false.
Proof.
  destruct c as [[] [] [] [] [] [] [] []]; vm_compute; congruence.
Qed.

Lemma digit_not_sign c :
  is_digit c = true → Ascii.eqb c "-" = false ∧ Ascii.eqb c "+" = false.
Proof.
  destruct c as [[] [] [] [] [] [] [] []]; vm_compute; by try split.
Qed.

Lemma strtol_nonneg_shape c s :
  is_digit c = true →
  strtol (c :: s) = match take_digits 0 false (c :: s) with
                    | (v, true, rest) => (clamp_long v, rest)
                    | (_, false, _) => (0, c :: s)
                    end.
Proof.
  intros Hc. unfold strtol. simpl skip_space. rewrite (digit_not_space _ Hc).
  unfold take_sign. destruct (digit_not_sign _ Hc) as [-> ->]. done.
Qed.

Lemma strtol_print n rest :
  0 ≤ n ≤ LONG_MAX → no_digit rest → strtol (print_Z n ++ rest) = (n, rest).
Proof.
  intros Hn Hr. destruct (print_Z n) as [|c s] eqn:E.
  { exfalso. by apply (print_Z_nonempty n); [lia|]. }
  assert (Hc : is_digit c = true) by (apply (print_Z_digits n); [lia|rewrite E; by left]).
  cbn [app]. rewrite strtol_nonneg_shape by done.
  assert (c :: s ++ rest = rev (digits_rev 20 n) ++ rest) as ->.
  { change (c :: s ++ rest) with ((c :: s) ++ rest). rewrite <-E. unfold print_Z.
    by rewrite (proj2 (Z.ltb_ge n 0)) by lia. }
  unfold LONG_MAX in Hn. rewrite take_digits_rev; [|simpl; lia|lia].
  rewrite take_digits_stop by done. f_equal. unfold clamp_long, LONG_MAX, LONG_MIN. lia.
Qed.

Lemma strstr_spec s sub : strstr s sub = true ↔ ∃ a b, s = a ++ sub ++ b.
Proof.
  induction s as [|c s IH]; cbn [strstr]; rewrite orb_true_iff, bool_decide_eq_true.
  - split.
    + intros [[b Hb]|[=]]. by exists [], b.
    + intros (a & b & H). symmetry in H. apply app_eq_nil in H as [-> H]. left.
      apply app_eq_nil in H as [-> ->]. done.
  - rewrite IH. split.
    + intros [[b Hb]|(a & b & ->)]; [by exists [], b|by exists (c :: a), b].
    + intros ([|x a] & b & H); simplify_eq/=.
      * left. by exists b.
      * right. by exists a, b.
Qed.

(** ** Reading lines *)

(** [fgets] with a buffer of [n + 1] bytes; at the end of the file it returns
    NULL, here an empty line. *)
Fixpoint fgets (n : nat) (s : cstr) : cstr * cstr :=
  match n, s with
  | S n, c :: s =>
      if Ascii.eqb c NL then ([c], s) else let (l, r) := fgets n s in (c :: l, r)
  | _, _ => ([], s)
  end.

Lemma fgets_line n body rest :
  (length body < n)%nat → NL ∉ body → fgets n (body ++ NL :: rest) = (body ++ [NL], rest).
Proof.
  revert n. induction body as [|c body IH]; intros [|n] Hn Hb; simpl in *; try lia.
  - done.
  - apply not_elem_of_cons in Hb as [Hc Hb].
    rewrite (proj2 (Ascii.eqb_neq c NL)) by congruence. by rewrite IH by (done || lia).
Qed.

Lemma fgets_spec (n : nat) stdin line rest :
  fgets n stdin = (line, rest) →
  stdin = line ++ rest ∧ (length line ≤ n)%nat ∧
  (NL ∉ take (length line - 1) line) ∧
  ((length line < n)%nat → rest = [] ∨ last line = Some NL).
Proof.
  revert stdin line rest. induction n as [|n IH]; intros [|c stdin] line rest H;
    cbn [fgets] in H; simplify_eq.
  1-3: repeat split; cbn; auto; try lia; apply not_elem_of_nil.
  destruct (Ascii.eqb_spec c NL) as [->|Hc].
  { simplify_eq. repeat split; cbn; auto; try lia; apply not_elem_of_nil. }
  destruct (fgets n stdin) as [line' rest'] eqn:E. simplify_eq.
  apply IH in E as (-> & Hl & Hn & Hlast). repeat split; cbn [length]; [lia|..].
  - destruct line' as [|d line']; cbn; [apply not_elem_of_nil|].
    cbn [length] in Hn. replace (S (length line') - 1)%nat with (length line') in Hn by lia.
    by apply not_elem_of_cons.
  - intros Hlt. destruct (Hlast ltac:(lia)) as [?|Hl']; [by left|right].
    destruct line'; [done|]. done.
Qed.

(** A buffer that is full before the newline gets the first [n] bytes. *)
Lemma fgets_full (n : nat) s rest : NL ∉ s → length s = n → fgets n (s ++ rest) = (s, rest).
Proof.
  revert s. induction n as [|n IH]; intros [|c s] Hs Hl; cbn in Hl; try lia; [done|]. cbn.
  apply not_elem_of_cons in Hs as [Hc Hs].
  destruct (Ascii.eqb_spec c NL) as [->|_]; [done|]. by rewrite IH by (done || lia).
Qed.

(** The C string in a buffer: its bytes before the first NUL. *)
Fixpoint c_string (s : cstr) : cstr :=
  match s with
  | [] => []
  | c :: s => if Ascii.eqb c NUL then [] else c :: c_string s
  end.

Lemma c_string_id s : NUL ∉ s → c_string s = s.
Proof.
  induction s as [|c s IH]; intros Hs; [done|]. cbn.
  apply not_elem_of_cons in Hs as [Hc Hs].
  destruct (Ascii.eqb_spec c NUL) as [->|_]; [done|]. by rewrite IH.
Qed.
