(* ===== verification/Lexer.v ===== *)
(** * The lexer of the c-shell (c-shell/src/lexer.c)

    [lex_line] splits a command line into a token list.  The C heap enters as
    an oracle saying which calls of malloc and realloc succeed and a count of
    the live allocations; the word buffer keeps its real array, length and
    capacity, so the bounds of [buf_push] can be stated.  The reference lexer
    [ref_word]/[ref_lex] is a character-at-a-time automaton on the rest of
    the line; the theorems relate the index-based code to it. *)

From S2P Require Import Prelude.

Local Open Scope c_scope.

(** ** Data *)
Inductive TokenType :=
  | TOK_WORD
  | TOK_PIPE
  | TOK_AMP
  | TOK_SEMI
  | TOK_LT
  | TOK_GT
  | TOK_GTGT
  | TOK_EOF.

#[export] Instance TokenType_eq_dec : EqDecision TokenType.
Proof. solve_decision. Defined.

(** A token; [value] is NULL except in a [TOK_WORD]. *)
Record Token := { type : TokenType; value : option cstr }.

(** The singly linked list from [head] to [tail], with its [count]. *)
Record TokenList := { chain : list Token; count : nat }.

(** The allocator as the code sees it: how many calls were made and how many
    blocks are live. *)
Record Heap := { calls : nat; live : nat }.

(** The variable word buffer; a cell of [data] that was never written is
    [None]. *)
Record Buf := { data : option (list (option ascii)); len : nat; cap : nat }.

Inductive lex_error := invalid_syntax | out_of_memory.

(** ** Character classes *)
Definition is_special (c : ascii) : bool :=
  (c =c? "|"%char) || (c =c? "&"%char) || (c =c? ">"%char) || (c =c? "<"%char)
  || (c =c? ";"%char).

Definition is_space (c : ascii) : bool :=
  (c =c? SP) || (c =c? TAB) || (c =c? NL) || (c =c? CR).

Section Lexer.
(** Whether the [n]-th allocation of the run succeeds. *)
Context (malloc_ok : nat → bool).

(** malloc and a realloc that grows: [false] is the NULL return. *)
Definition malloc {E} : M Heap E bool := λ h,
  if malloc_ok (calls h)
  then (Ret true, {| calls := S (calls h); live := S (live h) |})
  else (Ret false, {| calls := S (calls h); live := live h |}).

Definition realloc {E} : M Heap E bool := λ h,
  (Ret (malloc_ok (calls h)), {| calls := S (calls h); live := live h |}).

Definition free {E} (n : nat) : M Heap E () :=
  modify (λ h, {| calls := calls h; live := live h - n |}).

(** ** Token lists *)
Definition tokenlist_init : TokenList := {| chain := []; count := 0 |}.

(** One block per token and one per word. *)
Definition token_blocks (t : Token) : nat :=
  match value t with Some _ => 2 | None => 1 end.

Definition tokenlist_free {E} (l : TokenList) : M Heap E TokenList :=
  free (sum_list_with token_blocks (chain l)) ;;
  mret {| chain := []; count := 0 |}.

(** 0 or -1, as the code: [None] is the -1. *)
Definition tokenlist_append {E} (l : TokenList) (ty : TokenType)
    (v : option cstr) : M Heap E (option TokenList) :=
  ok ← malloc;
  mret (if (ok : bool)
        then Some {| chain := chain l ++ [{| type := ty; value := v |}];
                     count := S (count l) |}
        else None).

(** ** The word buffer *)
Definition buf_init {E} : M Heap E Buf :=
  ok ← malloc;
  mret {| data := if (ok : bool)
                  then Some (<[0 := Some NUL]> (replicate 32 None))
                  else None;
          len := 0; cap := 32 |}.

(** Growing the array: [realloc] keeps the old cells. *)
Definition grow (d : list (option ascii)) (new_cap : nat) :=
  d ++ replicate (new_cap - length d) None.

(** [None] is the -1 return; the buffer is then unchanged. *)
Definition buf_push {E} (b : Buf) (c : ascii) : M Heap E (option Buf) :=
  match data b with
  | None => mret None
  | Some d =>
      let store d cap :=
        Some {| data := Some (<[S (len b) := Some NUL]> (<[len b := Some c]> d));
                len := S (len b); cap := cap |} in
      if cap b <=? len b + 1 then
        ok ← realloc;
        mret (if (ok : bool) then store (grow d (cap b * 2)) (cap b * 2) else None)
      else mret (store d (cap b))
  end.

(** [if (buf_push(...) != 0) return -1;] *)
Definition push_or_fail (b : Buf) (c : ascii) : M Heap () Buf :=
  r ← buf_push b c;
  match r with Some b' => mret b' | None => throw () end.

(** ** Reading a word

    [line] has [n] characters; the loops run on fuel and return the new
    index with the buffer. [throw ()] is the -1 return. *)
Section ReadWord.
Context (line : cstr).
Abbreviation n := (length line).

(** The text between double quotes. *)
Fixpoint dq_loop (fuel : nat) (i : nat) (buf : Buf) : M Heap () (nat * Buf) :=
  match fuel with
  | 0 => nofuel
  | S fuel =>
      match line !! i with
      | None => mret (i, buf)
      | Some c =>
          if c =c? DQ then mret (i, buf)
          else if c =c? BSL then
            match line !! (i + 1) with
            | None => throw ()
            | Some nc =>
                if (nc =c? DQ) || (nc =c? BSL) then
                  buf ← push_or_fail buf nc;
                  dq_loop fuel (i + 2) buf
                else
                  buf ← push_or_fail buf BSL;
                  buf ← push_or_fail buf nc;
                  dq_loop fuel (i + 2) buf
            end
          else
            buf ← push_or_fail buf c;
            dq_loop fuel (i + 1) buf
      end
  end.

(** The text between single quotes. *)
Fixpoint sq_loop (fuel : nat) (i : nat) (buf : Buf) : M Heap () (nat * Buf) :=
  match fuel with
  | 0 => nofuel
  | S fuel =>
      match line !! i with
      | None => mret (i, buf)
      | Some c =>
          if c =c? SQ then mret (i, buf)
          else
            buf ← push_or_fail buf c;
            sq_loop fuel (i + 1) buf
      end
  end.

Fixpoint read_word (fuel : nat) (i : nat) (buf : Buf) : M Heap () (nat * Buf) :=
  match fuel with
  | 0 => nofuel
  | S fuel =>
      match line !! i with
      | None => mret (i, buf)
      | Some c =>
          if is_space c || is_special c then mret (i, buf)
          else if c =c? BSL then
            if n - 1 <=? i then throw ()
            else
              match line !! (i + 1) with
              | None => throw ()
              | Some nc =>
                  buf ← push_or_fail buf nc;
                  read_word fuel (i + 2) buf
              end
          else if c =c? DQ then
            '(i, buf) ← dq_loop fuel (i + 1) buf;
            if n <=? i then throw () else read_word fuel (i + 1) buf
          else if c =c? SQ then
            '(i, buf) ← sq_loop fuel (i + 1) buf;
            if n <=? i then throw () else read_word fuel (i + 1) buf
          else
            buf ← push_or_fail buf c;
            read_word fuel (i + 1) buf
      end
  end.
End ReadWord.

(** The C string held by a buffer: its bytes up to the terminator. *)
Fixpoint cstring (d : list (option ascii)) : cstr :=
  match d with
  | Some c :: d => if c =c? NUL then [] else c :: cstring d
  | _ => []
  end.

Definition buf_string (b : Buf) : cstr :=
  match data b with Some d => cstring d | None => [] end.

(** [goto alloc_fail] *)
Definition alloc_fail {A} (out : TokenList) : M Heap lex_error A :=
  tokenlist_free out ;; throw out_of_memory.

Definition append_or_fail (out : TokenList) (ty : TokenType)
    : M Heap lex_error TokenList :=
  r ← tokenlist_append out ty None;
  match r with Some out' => mret out' | None => alloc_fail out end.

(** One word: the buffer is freed when the word is malformed or its token
    cannot be allocated. *)
Definition lex_word (line : cstr) (i : nat) (out : TokenList)
    : M Heap lex_error (nat * TokenList) :=
  buf ← buf_init;
  match data buf with
  | None => alloc_fail out
  | Some _ =>
      handle (read_word line (S (length line)) i buf)
        (λ '(i, buf),
           r ← tokenlist_append out TOK_WORD (Some (buf_string buf));
           match r with
           | Some out => mret (i, out)
           | None => free 1 ;; alloc_fail out
           end)
        (λ _, free 1 ;; tokenlist_free out ;; throw invalid_syntax)
  end.

Fixpoint lex_loop (line : cstr) (fuel : nat) (i : nat) (out : TokenList)
    : M Heap lex_error TokenList :=
  match fuel with
  | 0 => nofuel
  | S fuel =>
      match line !! i with
      | None => mret out
      | Some c =>
          if is_space c then lex_loop line fuel (i + 1) out
          else if c =c? "|"%char then
            out ← append_or_fail out TOK_PIPE; lex_loop line fuel (i + 1) out
          else if c =c? "&"%char then
            out ← append_or_fail out TOK_AMP; lex_loop line fuel (i + 1) out
          else if c =c? ";"%char then
            out ← append_or_fail out TOK_SEMI; lex_loop line fuel (i + 1) out
          else if c =c? "<"%char then
            out ← append_or_fail out TOK_LT; lex_loop line fuel (i + 1) out
          else if c =c? ">"%char then
            match line !! (i + 1) with
            | Some c' =>
                if c' =c? ">"%char then
                  out ← append_or_fail out TOK_GTGT; lex_loop line fuel (i + 2) out
                else
                  out ← append_or_fail out TOK_GT; lex_loop line fuel (i + 1) out
            | None =>
                out ← append_or_fail out TOK_GT; lex_loop line fuel (i + 1) out
            end
          else
            '(i, out) ← lex_word line i out;
            lex_loop line fuel i out
      end
  end.

Definition lex_line (line : cstr) : M Heap lex_error TokenList :=
  let out := tokenlist_init in
  out ← lex_loop line (S (length line)) 0 out;
  append_or_fail out TOK_EOF.
End Lexer.

Definition heap0 : Heap := {| calls := 0; live := 0 |}.

(** An allocator that never fails. *)
Definition always_ok : nat → bool := λ _, true.

Example lex_example :
  fst (lex_line always_ok (lit "echo 'a b'c>>out&") heap0)
  = Ret {| chain := [ {| type := TOK_WORD; value := Some (lit "echo") |};
                      {| type := TOK_WORD; value := Some (lit "a bc") |};
                      {| type := TOK_GTGT; value := None |};
                      {| type := TOK_WORD; value := Some (lit "out") |};
                      {| type := TOK_AMP; value := None |};
                      {| type := TOK_EOF; value := None |} ];
          count := 6 |}.
Proof. vm_compute. reflexivity. Qed.

(** ** The reference lexer

    The words of the command language: an unquoted character, an escaped
    character, a double-quoted or a single-quoted string; fragments that
    touch are joined. *)
Definition plain (c : ascii) : bool :=
  negb (is_space c || is_special c || (c =c? BSL) || (c =c? DQ) || (c =c? SQ)).

(** The text between double quotes and the characters it stands for. *)
Inductive dq_text : cstr → cstr → Prop :=
  | dq_nil : dq_text [] []
  | dq_char c s v : c ≠ DQ → c ≠ BSL → dq_text s v → dq_text (c :: s) (c :: v)
  | dq_esc c s v :
      c = DQ ∨ c = BSL → dq_text s v → dq_text (BSL :: c :: s) (c :: v)
  | dq_keep c s v :
      c ≠ DQ → c ≠ BSL → dq_text s v → dq_text (BSL :: c :: s) (BSL :: c :: v).

Inductive word_text : cstr → cstr → Prop :=
  | word_nil : word_text [] []
  | word_plain c s v : plain c = true → word_text s v → word_text (c :: s) (c :: v)
  | word_esc c s v : word_text s v → word_text (BSL :: c :: s) (c :: v)
  | word_dq q w s v :
      dq_text q w → word_text s v → word_text (DQ :: q ++ DQ :: s) (w ++ v)
  | word_sq q s v :
      SQ ∉ q → word_text s v → word_text (SQ :: q ++ SQ :: s) (q ++ v).

(** A word stops at white space, at an operator and at the end of the line. *)
Definition word_end (s : cstr) : Prop :=
  match s with [] => True | c :: _ => is_space c || is_special c = true end.

Definition op (ty : TokenType) : Token := {| type := ty; value := None |}.
Definition word (v : cstr) : Token := {| type := TOK_WORD; value := Some v |}.

Inductive lexes : cstr → list Token → Prop :=
  | lexes_eof : lexes [] [op TOK_EOF]
  | lexes_space c s ts : is_space c = true → lexes s ts → lexes (c :: s) ts
  | lexes_pipe s ts : lexes s ts → lexes ("|"%char :: s) (op TOK_PIPE :: ts)
  | lexes_amp s ts : lexes s ts → lexes ("&"%char :: s) (op TOK_AMP :: ts)
  | lexes_semi s ts : lexes s ts → lexes (";"%char :: s) (op TOK_SEMI :: ts)
  | lexes_lt s ts : lexes s ts → lexes ("<"%char :: s) (op TOK_LT :: ts)
  | lexes_gtgt s ts :
      lexes s ts → lexes (">"%char :: ">"%char :: s) (op TOK_GTGT :: ts)
  | lexes_gt s ts :
      head s ≠ Some ">"%char → lexes s ts → lexes (">"%char :: s) (op TOK_GT :: ts)
  | lexes_word r v s ts :
      r ≠ [] → word_text r v → word_end s → lexes s ts →
      lexes (r ++ s) (word v :: ts).

(** The same as an automaton that reads one character at a time; it returns
    the word and the rest of the line. *)
Inductive mode := Plain | Esc | InDQ | EscDQ | InSQ.

Definition emit (c : ascii) (r : option (cstr * cstr)) : option (cstr * cstr) :=
  '(v, rest) ← r; Some (c :: v, rest).

Fixpoint ref_word (m : mode) (s : cstr) : option (cstr * cstr) :=
  match m, s with
  | Plain, [] => Some ([], [])
  | Plain, c :: s' =>
      if is_space c || is_special c then Some ([], s)
      else if c =c? BSL then ref_word Esc s'
      else if c =c? DQ then ref_word InDQ s'
      else if c =c? SQ then ref_word InSQ s'
      else emit c (ref_word Plain s')
  | Esc, c :: s' => emit c (ref_word Plain s')
  | InDQ, c :: s' =>
      if c =c? DQ then ref_word Plain s'
      else if c =c? BSL then ref_word EscDQ s'
      else emit c (ref_word InDQ s')
  | EscDQ, c :: s' =>
      if (c =c? DQ) || (c =c? BSL) then emit c (ref_word InDQ s')
      else emit BSL (emit c (ref_word InDQ s'))
  | InSQ, c :: s' =>
      if c =c? SQ then ref_word Plain s' else emit c (ref_word InSQ s')
  | _, [] => None
  end.

(** ** The automaton and the grammar *)
Lemma not_space_special_plain c :
  is_space c || is_special c = false → c ≠ BSL → c ≠ DQ → c ≠ SQ → plain c = true.
Proof.
  intros H ???. unfold plain. rewrite H. simpl.
  by rewrite !(proj2 (Ascii.eqb_neq _ _)).
Qed.

Lemma plain_inv c :
  plain c = true →
  (is_space c || is_special c) = false ∧ (c =c? BSL) = false ∧
  (c =c? DQ) = false ∧ (c =c? SQ) = false.
Proof.
  unfold plain. rewrite negb_true_iff, !orb_false_iff. tauto.
Qed.

Lemma ref_word_dq q w s v rest :
  dq_text q w → ref_word Plain s = Some (v, rest) →
  ref_word InDQ (q ++ DQ :: s) = Some (w ++ v, rest).
Proof.
  induction 1 as [|c q w Hc Hc' _ IH|c q w [->| ->] _ IH|c q w Hc Hc' _ IH];
    intros Hs; simpl; try (by rewrite IH); try done.
  all: apply Ascii.eqb_neq in Hc, Hc'; rewrite Hc, Hc'; simpl; by rewrite IH.
Qed.

Lemma ref_word_sq q s v rest :
  SQ ∉ q → ref_word Plain s = Some (v, rest) →
  ref_word InSQ (q ++ SQ :: s) = Some (q ++ v, rest).
Proof.
  induction q as [|c q IH]; intros Hq Hs; simpl; [done|].
  apply not_elem_of_cons in Hq as [Hc Hq].
  rewrite (proj2 (Ascii.eqb_neq _ _)); [|done]. by rewrite IH.
Qed.

Lemma ref_word_sound r v s :
  word_text r v → word_end s → ref_word Plain (r ++ s) = Some (v, s).
Proof.
  intros Hr Hs.
  induction Hr as [|c r v Hc _ IH|c r v _ IH|q w r v Hq _ IH|q r v Hq _ IH].
  - destruct s as [|c s]; [done|]. cbn in *. by rewrite Hs.
  - apply plain_inv in Hc as (H1 & H2 & H3 & H4).
    simpl. by rewrite H1, H2, H3, H4, IH.
  - simpl. by rewrite IH.
  - simpl. rewrite <-app_assoc. simpl. by apply ref_word_dq.
  - simpl. rewrite <-app_assoc. simpl. by apply ref_word_sq.
Qed.

(** What was read of a word when the automaton is in a mode. *)
Definition mode_prefix (m : mode) : cstr :=
  match m with
  | Plain => []
  | Esc => [BSL]
  | InDQ => [DQ]
  | EscDQ => [DQ; BSL]
  | InSQ => [SQ]
  end.

Lemma word_text_dq_inv s v :
  word_text (DQ :: s) v →
  ∃ q w r v', s = q ++ DQ :: r ∧ v = w ++ v' ∧ dq_text q w ∧ word_text r v'.
Proof. inversion 1; simplify_eq; eauto 10; by vm_compute in H2. Qed.

Lemma word_text_sq_inv s v :
  word_text (SQ :: s) v →
  ∃ q r v', s = q ++ SQ :: r ∧ v = q ++ v' ∧ (SQ ∉ q) ∧ word_text r v'.
Proof. inversion 1; simplify_eq; eauto 10; by vm_compute in H2. Qed.

Ltac open_dq IH :=
  let r := fresh "r" in
  destruct IH as (r & Heq & Hw & Hend);
  destruct r as [|? r]; [simplify_eq/=; by vm_compute in Hend|];
  simpl in Heq; injection Heq as <- Heq;
  apply word_text_dq_inv in Hw as (q & w & r2 & v2 & -> & -> & Hq & Hr);
  rewrite <-app_assoc in Heq; simpl in Heq; subst.

Lemma ref_word_complete m s v rest :
  ref_word m s = Some (v, rest) →
  ∃ r, mode_prefix m ++ s = r ++ rest ∧ word_text r v ∧ word_end rest.
Proof.
  revert m v rest. induction s as [|c s IH]; intros m v rest H.
  { destruct m; simplify_eq/=. exists []. repeat constructor. }
  destruct m; simpl in H.
  - case_match eqn:Hd.
    { simplify_eq. exists []. repeat constructor. done. }
    case_match eqn:Hb; [char_cases; by apply IH in H|].
    case_match eqn:Hdq; [char_cases; by apply IH in H|].
    case_match eqn:Hsq; [char_cases; by apply IH in H|].
    destruct (ref_word Plain s) as [[v' rest']|] eqn:E; simplify_eq/=.
    apply IH in E as (r & Heq & Hw & Hend); simpl in Heq; subst. exists (c :: r).
    split_and!; [done| |done]. constructor; [|done].
    char_cases. apply not_space_special_plain; [by apply orb_false_iff|done..].
  - destruct (ref_word Plain s) as [[v' rest']|] eqn:E; simplify_eq/=.
    apply IH in E as (r & Heq & Hw & Hend); simpl in Heq; subst. exists (BSL :: c :: r).
    split_and!; [done|by constructor|done].
  - case_match eqn:Hdq.
    { char_cases. apply IH in H as (r & Heq & Hw & Hend); simpl in Heq; subst.
      exists (DQ :: [] ++ DQ :: r). split_and!; [done| |done].
      change v with ([] ++ v). by repeat constructor. }
    case_match eqn:Hb; [char_cases; by apply IH in H|].
    destruct (ref_word InDQ s) as [[v' rest']|] eqn:E; simplify_eq/=.
    apply IH in E. open_dq E. char_cases.
    exists (DQ :: (c :: q) ++ DQ :: r2). split_and!; [simpl; by rewrite <-app_assoc| |done].
    apply (word_dq (c :: q) (c :: w)); [by constructor|done].
  - case_match eqn:Hb.
    + destruct (ref_word InDQ s) as [[v' rest']|] eqn:E; simplify_eq/=.
      apply IH in E. open_dq E.
      exists (DQ :: (BSL :: c :: q) ++ DQ :: r2).
      split_and!; [simpl; by rewrite <-app_assoc| |done].
      apply (word_dq (BSL :: c :: q) (c :: w)); [|done].
      constructor; [|done]. char_cases. destruct Hb; char_cases; auto.
    + destruct (ref_word InDQ s) as [[v' rest']|] eqn:E; simplify_eq/=.
      apply IH in E. open_dq E. char_cases.
      exists (DQ :: (BSL :: c :: q) ++ DQ :: r2).
      split_and!; [simpl; by rewrite <-app_assoc| |done].
      apply (word_dq (BSL :: c :: q) (BSL :: c :: w)); [by apply dq_keep|done].
  - case_match eqn:Hsq.
    { char_cases. apply IH in H as (r & Heq & Hw & Hend); simpl in Heq; subst.
      exists (SQ :: [] ++ SQ :: r). split_and!; [done| |done].
      change v with ([] ++ v). constructor; [apply not_elem_of_nil|done]. }
    destruct (ref_word InSQ s) as [[v' rest']|] eqn:E; simplify_eq/=.
    apply IH in E as (r & Heq & Hw & Hend).
    destruct r as [|? r]; [simplify_eq/=; by vm_compute in Hend|].
    simpl in Heq; injection Heq as <- Heq.
    apply word_text_sq_inv in Hw as (q & r' & w' & -> & -> & Hq & Hr).
    rewrite <-app_assoc in Heq. simpl in Heq. subst. char_cases.
    exists (SQ :: (c :: q) ++ SQ :: r'). split_and!; [simpl; by rewrite <-app_assoc| |done].
    apply (word_sq (c :: q)); [by apply not_elem_of_cons|done].
Qed.

(** ** The code against the automaton *)
Lemma not_elem_of_drop {A} (x : A) i l : x ∉ l → x ∉ drop i l.
Proof. intros Hx Hd. apply Hx. rewrite <-(take_drop i l). apply elem_of_app. by right. Qed.

(** The buffer [b] holds the NUL-terminated string [v] inside its array. *)
Definition buf_rep (b : Buf) (v : cstr) : Prop :=
  ∃ d, data b = Some d ∧ length d = cap b ∧ len b = length v ∧ len b < cap b ∧
       take (S (len b)) d = (Some <$> v) ++ [Some NUL].

Lemma buf_store_rep d c cp v :
  length d = cp → S (length v) < cp →
  take (length v) d = Some <$> v →
  buf_rep {| data := Some (<[S (length v) := Some NUL]> (<[length v := Some c]> d));
             len := S (length v); cap := cp |} (v ++ [c]).
Proof.
  intros Hd Hlt Ht. eexists. split; [done|]. simpl.
  split_and!; [by rewrite !length_insert|rewrite length_app; simpl; lia|lia|].
  apply list_eq. intros i. rewrite fmap_app.
  destruct (decide (i < length v)) as [Hi|Hi].
  - rewrite lookup_take_lt, !list_lookup_insert_ne by lia.
    rewrite !lookup_app_l by (rewrite ?length_app, length_fmap; simpl; lia).
    by rewrite <-Ht, lookup_take_lt.
  - destruct (decide (i = length v)) as [->|Hi'].
    { rewrite lookup_take_lt, list_lookup_insert_ne, list_lookup_insert_eq by lia.
      rewrite <-app_assoc, lookup_app_r by (rewrite length_fmap; lia).
      by rewrite length_fmap, Nat.sub_diag. }
    destruct (decide (i = S (length v))) as [->|Hi2].
    { rewrite lookup_take_lt by lia.
      rewrite list_lookup_insert_eq by (rewrite length_insert; lia).
      rewrite lookup_app_r by (rewrite length_app, length_fmap; simpl; lia).
      rewrite length_app, length_fmap. simpl. by replace (_ - _) with 0 by lia. }
    rewrite lookup_take_ge by lia. symmetry. apply lookup_ge_None.
    rewrite !length_app, length_fmap. simpl. lia.
Qed.

Lemma buf_rep_take b v d :
  buf_rep b v → data b = Some d → take (length v) d = Some <$> v.
Proof.
  intros (d' & Hd & _ & Hl & _ & Ht) Hd'. simplify_eq. rewrite Hl in Ht.
  apply (f_equal (take (length v))) in Ht.
  rewrite take_take, Nat.min_l in Ht by lia. rewrite Ht.
  by rewrite take_app_length' by (by rewrite length_fmap).
Qed.

Lemma cstring_app v d :
  NUL ∉ v → cstring ((Some <$> v) ++ Some NUL :: d) = v.
Proof.
  induction v as [|c v IH]; intros Hv; [done|].
  apply not_elem_of_cons in Hv as [Hc Hv].
  change (cstring (Some c :: (Some <$> v) ++ Some NUL :: d) = c :: v).
  cbn [cstring]. rewrite (proj2 (Ascii.eqb_neq _ _)) by done. by rewrite IH.
Qed.

Lemma buf_rep_string b v : buf_rep b v → NUL ∉ v → buf_string b = v.
Proof.
  intros (d & Hd & _ & _ & _ & Ht) Hv. unfold buf_string. rewrite Hd.
  rewrite <-(take_drop (S (len b)) d), Ht, <-app_assoc. exact (cstring_app v _ Hv).
Qed.

(** The characters of a word come from the line or are backslashes. *)
Lemma ref_word_no_nul m s v rest : NUL ∉ s → ref_word m s = Some (v, rest) →
  (NUL ∉ v) ∧ (NUL ∉ rest).
Proof.
  revert m v rest. induction s as [|c s IH]; intros m v rest Hs H.
  { destruct m; simplify_eq/=. split; apply not_elem_of_nil. }
  assert (NUL ≠ BSL) by done.
  apply not_elem_of_cons in Hs as [Hc Hs]. assert (Hcs : NUL ∉ c :: s) by (by apply not_elem_of_cons).
  destruct m; simpl in H; repeat case_match; simplify_eq;
    try (by eapply IH; eauto); try (split; [apply not_elem_of_nil|done]);
    match type of H with context [ref_word ?m s] =>
      destruct (ref_word m s) as [[v' rest']|] eqn:E; simplify_eq/=;
      apply IH in E as [? ?]; [|done]; rewrite ?not_elem_of_cons; auto
    end.
Qed.

(** ** The grammar is deterministic *)
Lemma word_text_head c r v :
  word_text (c :: r) v → (is_space c || is_special c) = false.
Proof.
  inversion 1; simplify_eq; try done.
  match goal with H : plain _ = true |- _ => by apply plain_inv in H as (-> & _) end.
Qed.

Definition lexable (s : cstr) : Prop := ∃ ts, lexes s ts.

Ltac lexes_inv H :=
  inversion H; simplify_eq; eauto;
  match goal with
  | Hr : ?r ≠ [], Hw : word_text ?r _ |- _ =>
      destruct r; [done|]; simplify_eq/=; apply word_text_head in Hw
  | _ => idtac
  end; try by char_cases; try done.

Lemma lexes_space_inv c s ts : is_space c = true → lexes (c :: s) ts → lexes s ts.
Proof.
  intros Hc H. lexes_inv H. by rewrite Hc in *.
Qed.

Lemma lexes_pipe_inv s ts :
  lexes ("|"%char :: s) ts → ∃ ts', ts = op TOK_PIPE :: ts' ∧ lexes s ts'.
Proof. intros H. lexes_inv H. Qed.

Lemma lexes_amp_inv s ts :
  lexes ("&"%char :: s) ts → ∃ ts', ts = op TOK_AMP :: ts' ∧ lexes s ts'.
Proof. intros H. lexes_inv H. Qed.

Lemma lexes_semi_inv s ts :
  lexes (";"%char :: s) ts → ∃ ts', ts = op TOK_SEMI :: ts' ∧ lexes s ts'.
Proof. intros H. lexes_inv H. Qed.

Lemma lexes_lt_inv s ts :
  lexes ("<"%char :: s) ts → ∃ ts', ts = op TOK_LT :: ts' ∧ lexes s ts'.
Proof. intros H. lexes_inv H. Qed.

Lemma lexes_gtgt_inv s ts :
  lexes (">"%char :: ">"%char :: s) ts →
  ∃ ts', ts = op TOK_GTGT :: ts' ∧ lexes s ts'.
Proof. intros H. lexes_inv H. Qed.

Lemma lexes_gt_inv s ts :
  head s ≠ Some ">"%char → lexes (">"%char :: s) ts →
  ∃ ts', ts = op TOK_GT :: ts' ∧ lexes s ts'.
Proof. intros Hs H. lexes_inv H. Qed.

Lemma lexes_word_inv c s ts :
  (is_space c || is_special c) = false → lexes (c :: s) ts →
  ∃ v rest ts', ref_word Plain (c :: s) = Some (v, rest) ∧
                ts = word v :: ts' ∧ lexes rest ts'.
Proof.
  intros Hc H. inversion H as [|? ? ? Hsp| | | | | | |r v s' ts' Hr Hw He Hl Heq];
    subst; try done.
  - by rewrite Hsp in Hc.
  - exists v, s', ts'. split_and!; [by apply ref_word_sound|done..].
Qed.

Lemma emit_inv c r v rest :
  emit c r = Some (v, rest) → ∃ v', r = Some (v', rest) ∧ v = c :: v'.
Proof. destruct r as [[]|]; naive_solver. Qed.

Lemma ref_word_length m s v rest :
  ref_word m s = Some (v, rest) → length rest ≤ length s.
Proof.
  revert m v rest. induction s as [|c s IH]; intros m v rest H.
  { by destruct m; simplify_eq/=. }
  destruct m; simpl in H; repeat case_match; simplify_eq/=; try lia;
    repeat match goal with H : emit _ _ = _ |- _ =>
      apply emit_inv in H as (? & ? & ?) end; subst;
    match goal with H : ref_word _ _ = _ |- _ => apply IH in H; lia end.
Qed.

Lemma ref_word_progress c s v rest :
  (is_space c || is_special c) = false → ref_word Plain (c :: s) = Some (v, rest) →
  length rest < S (length s).
Proof.
  intros Hc H. simpl in H. rewrite Hc in H. repeat case_match;
    try (apply emit_inv in H as (? & H & ->)); apply ref_word_length in H; lia.
Qed.

Section LexerProofs.
Context (malloc_ok : nat → bool).

(** Some allocation of the run may fail. *)
Definition oom : Prop := ∃ k, malloc_ok k = false.

Lemma wp_malloc {E} Q (R : E → Heap → Prop) h :
  Q true {| calls := S (calls h); live := S (live h) |} →
  (oom → Q false {| calls := S (calls h); live := live h |}) →
  wp (malloc malloc_ok) Q R h.
Proof.
  unfold wp, malloc. destruct (malloc_ok (calls h)) eqn:E'; [done|].
  intros _ H. apply H. by eexists.
Qed.

Lemma wp_realloc {E} Q (R : E → Heap → Prop) h :
  (∀ ok c, (ok = false → oom) → Q ok {| calls := c; live := live h |}) →
  wp (realloc malloc_ok) Q R h.
Proof. unfold wp, realloc. intros H. apply H. intros. by eexists. Qed.

Lemma wp_buf_push {E} b v c Q (R : E → Heap → Prop) h :
  buf_rep b v →
  (∀ b' n, buf_rep b' (v ++ [c]) → Q (Some b') {| calls := n; live := live h |}) →
  (∀ n, oom → Q None {| calls := n; live := live h |}) →
  wp (buf_push malloc_ok b c) Q R h.
Proof.
  intros Hb HQ HN. pose proof Hb as (d & Hd & Hl & Hlen & Hlt & Ht).
  unfold buf_push. rewrite Hd. pose proof (buf_rep_take b v d Hb Hd) as Htk.
  rewrite Hlen in *.
  destruct (cap b <=? length v + 1) eqn:Hc.
  - apply Nat.leb_le in Hc. apply wp_bind, wp_realloc. intros [] n Hok; simpl.
    + apply wp_ret, HQ. apply buf_store_rep.
      * unfold grow. rewrite length_app, length_replicate. lia.
      * lia.
      * unfold grow. rewrite take_app_le by lia. done.
    + apply wp_ret, HN. auto.
  - apply Nat.leb_gt in Hc. apply wp_ret.
    destruct h as [n l]. apply HQ. apply buf_store_rep; [done|lia|done].
Qed.

Lemma wp_push_or_fail b v c Q (R : () → Heap → Prop) h :
  buf_rep b v →
  (∀ b' n, buf_rep b' (v ++ [c]) → Q b' {| calls := n; live := live h |}) →
  (∀ n, oom → R () {| calls := n; live := live h |}) →
  wp (push_or_fail malloc_ok b c) Q R h.
Proof.
  intros Hb HQ HN. unfold push_or_fail. apply wp_bind, (wp_buf_push _ v); [done|..].
  - intros b' n Hb'. by apply wp_ret, HQ.
  - intros n Ho. by apply wp_throw, HN.
Qed.

(** Characters read before the rest of the run. *)
Definition prepend (w : cstr) (r : option (cstr * cstr)) : option (cstr * cstr) :=
  '(v, rest) ← r; Some (w ++ v, rest).

Lemma prepend_nil r : prepend [] r = r.
Proof. by destruct r as [[]|]. Qed.

Lemma emit_prepend c w r : emit c (prepend w r) = prepend (c :: w) r.
Proof. by destruct r as [[]|]. Qed.

(** A loop inside quotes that started at [i] with [v] in the buffer stops at
    the closing quote [q], or at the end of the line. *)
Definition quote_post (line : cstr) (m : mode) (q : ascii) (i : nat) (v : cstr)
    (h : Heap) (r : nat * Buf) (h' : Heap) : Prop :=
  live h' = live h ∧ i ≤ fst r ≤ length line ∧
  (line !! fst r = None ∨ line !! fst r = Some q) ∧
  ∃ w, ref_word m (drop i line) = prepend w (ref_word m (drop (fst r) line)) ∧
       buf_rep (snd r) (v ++ w).

Definition word_fail (line : cstr) (m : mode) (i : nat) (h : Heap)
    (_ : ()) (h' : Heap) : Prop :=
  live h' = live h ∧ (ref_word m (drop i line) = None ∨ oom).

Lemma quote_post_step line m q i i' v w h n r h' :
  i ≤ i' →
  ref_word m (drop i line) = prepend w (ref_word m (drop i' line)) →
  quote_post line m q i' (v ++ w) {| calls := n; live := live h |} r h' →
  quote_post line m q i v h r h'.
Proof.
  intros Hi Hm (Hl & Hr & Hq & w' & Hw & Hb). split_and!; [done|lia|lia|done|].
  exists (w ++ w'). rewrite Hm, Hw, app_assoc. split; [|done].
  destruct (ref_word m (drop (fst r) line)) as [[]|]; [|done].
  simpl. by rewrite app_assoc.
Qed.

Lemma word_fail_step line m m' i i' w h n e h' :
  ref_word m (drop i line) = prepend w (ref_word m' (drop i' line)) →
  word_fail line m' i' {| calls := n; live := live h |} e h' →
  word_fail line m i h e h'.
Proof.
  intros Hm (Hl & [Hn|Ho]); split; auto. left. by rewrite Hm, Hn.
Qed.

Lemma wp_sq_loop line fuel i b v h :
  buf_rep b v → i ≤ length line → length line - i < fuel →
  wp (sq_loop malloc_ok line fuel i b)
    (quote_post line InSQ SQ i v h) (word_fail line InSQ i h) h.
Proof.
  revert i b v h. induction fuel as [|fuel IH]; intros i b v h Hb Hi Hf; [lia|].
  simpl. destruct (line !! i) as [c|] eqn:Hc.
  2: { apply wp_ret. unfold quote_post; simpl. split_and!; [done|lia|lia|auto|].
       exists []. by rewrite prepend_nil, app_nil_r. }
  pose proof (lookup_lt_Some _ _ _ Hc). pose proof (drop_lookup_cons _ _ _ Hc) as Hd.
  case_if.
  { char_cases. apply wp_ret. unfold quote_post; simpl. split_and!; [done|lia|lia|auto|].
    exists []. by rewrite prepend_nil, app_nil_r. }
  assert (Hm : ref_word InSQ (drop i line)
               = prepend [c] (ref_word InSQ (drop (i + 1) line))).
  { rewrite Hd. simpl. by rewrite Heqb0. }
  apply wp_bind, (wp_push_or_fail _ v); [done|..].
  - intros b' n Hb'. eapply wp_mono; [by apply (IH _ _ (v ++ [c])); [|lia..]|..].
    + intros r h' Hp. by eapply (quote_post_step _ _ _ i (i + 1)); [lia|..].
    + intros e h' Hp. by eapply word_fail_step.
  - intros n Ho. split; auto.
Qed.

Lemma wp_dq_loop line fuel i b v h :
  buf_rep b v → i ≤ length line → length line - i < fuel →
  wp (dq_loop malloc_ok line fuel i b)
    (quote_post line InDQ DQ i v h) (word_fail line InDQ i h) h.
Proof.
  revert i b v h. induction fuel as [|fuel IH]; intros i b v h Hb Hi Hf; [lia|].
  simpl. destruct (line !! i) as [c|] eqn:Hc.
  2: { apply wp_ret. unfold quote_post; simpl. split_and!; [done|lia|lia|auto|].
       exists []. by rewrite prepend_nil, app_nil_r. }
  pose proof (lookup_lt_Some _ _ _ Hc). pose proof (drop_lookup_cons _ _ _ Hc) as Hd.
  destruct (c =c? DQ) eqn:Hdq.
  { char_cases. apply wp_ret. unfold quote_post; simpl. split_and!; [done|lia|lia|auto|].
    exists []. by rewrite prepend_nil, app_nil_r. }
  destruct (c =c? BSL) eqn:Hbs.
  - destruct (line !! (i + 1)) as [nc|] eqn:Hnc.
    2: { apply wp_throw. split; [done|]. left. rewrite Hd, (drop_lookup_nil _ _ Hnc).
         simpl. by rewrite Hdq, Hbs. }
    pose proof (lookup_lt_Some _ _ _ Hnc).
    pose proof (drop_lookup_cons _ _ _ Hnc) as Hd'.
    replace (i + 1 + 1) with (i + 2) in Hd' by lia.
    destruct ((nc =c? DQ) || (nc =c? BSL)) eqn:He.
    + assert (Hm : ref_word InDQ (drop i line)
                   = prepend [nc] (ref_word InDQ (drop (i + 2) line))).
      { rewrite Hd, Hd'. simpl. by rewrite Hdq, Hbs, He. }
      apply wp_bind, (wp_push_or_fail _ v); [done|..]; [|by split; auto].
      intros b' n Hb'. eapply wp_mono; [by apply (IH _ _ (v ++ [nc])); [|lia..]|..].
      * intros r h' Hp. by eapply (quote_post_step _ _ _ i (i + 2)); [lia|..].
      * intros e h' Hp. by eapply word_fail_step.
    + assert (Hm : ref_word InDQ (drop i line)
                   = prepend [BSL; nc] (ref_word InDQ (drop (i + 2) line))).
      { rewrite Hd, Hd'. simpl. rewrite Hdq, Hbs, He.
        by destruct (ref_word _ _) as [[]|]. }
      apply wp_bind, (wp_push_or_fail _ v); [done|..]; [|by split; auto].
      intros b' n Hb'.
      apply wp_bind, (wp_push_or_fail _ (v ++ [BSL])); [done|..]; [|by split; auto].
      intros b2 n2 Hb2. rewrite <-app_assoc in Hb2.
      eapply wp_mono; [by apply (IH _ _ (v ++ [BSL; nc])); [|lia..]|..].
      * intros r h' Hp. by eapply (quote_post_step _ _ _ i (i + 2)); [lia|..].
      * intros e h' Hp. by eapply word_fail_step.
  - assert (Hm : ref_word InDQ (drop i line)
                 = prepend [c] (ref_word InDQ (drop (i + 1) line))).
    { rewrite Hd. simpl. by rewrite Hdq, Hbs. }
    apply wp_bind, (wp_push_or_fail _ v); [done|..]; [|by split; auto].
    intros b' n Hb'. eapply wp_mono; [by apply (IH _ _ (v ++ [c])); [|lia..]|..].
    + intros r h' Hp. by eapply (quote_post_step _ _ _ i (i + 1)); [lia|..].
    + intros e h' Hp. by eapply word_fail_step.
Qed.

(** A word that started at [i] with [v] in the buffer. *)
Definition word_post (line : cstr) (i : nat) (v : cstr) (h : Heap)
    (r : nat * Buf) (h' : Heap) : Prop :=
  live h' = live h ∧ i ≤ fst r ≤ length line ∧
  ∃ w, ref_word Plain (drop i line) = Some (w, drop (fst r) line) ∧
       buf_rep (snd r) (v ++ w).

Lemma word_post_step line i i' v w h n r h' :
  i ≤ i' →
  ref_word Plain (drop i line) = prepend w (ref_word Plain (drop i' line)) →
  word_post line i' (v ++ w) {| calls := n; live := live h |} r h' →
  word_post line i v h r h'.
Proof.
  intros Hi Hm (Hl & Hr & w' & Hw & Hb). split_and!; [done|lia|lia|].
  exists (w ++ w'). by rewrite Hm, Hw, app_assoc.
Qed.

(** The quoted part of a word: the loop, the test for the closing quote and
    the rest of the word. *)
Lemma wp_quoted line m q fuel i v h (loop : M Heap () (nat * Buf)) :
  (∀ s, ref_word m (q :: s) = ref_word Plain s) → ref_word m [] = None →
  ref_word Plain (drop i line) = ref_word m (drop (i + 1) line) →
  length line - i < S fuel →
  (∀ i b v h, buf_rep b v → i ≤ length line → length line - i < fuel →
     wp (read_word malloc_ok line fuel i b) (word_post line i v h)
       (word_fail line Plain i h) h) →
  wp loop (quote_post line m q (i + 1) v h) (word_fail line m (i + 1) h) h →
  wp ('(i, buf) ← loop;
      if length line <=? i then throw () else read_word malloc_ok line fuel (i + 1) buf)
    (word_post line i v h) (word_fail line Plain i h) h.
Proof.
  intros Hq Hnil Hm Hf IH Hloop. apply wp_bind.
  eapply wp_mono; [apply Hloop|..].
  - intros [i' b'] h' (Hl & Hr & Hend & w & Hw & Hb').
    cbn [fst snd] in Hr, Hend, Hw, Hb'.
    destruct (length line <=? i') eqn:Hle.
    + apply Nat.leb_le in Hle. split; [done|]. left.
      by rewrite Hm, Hw, (drop_ge line i'), Hnil.
    + apply Nat.leb_gt in Hle. destruct Hend as [Hend|Hend].
      { apply lookup_ge_None in Hend. lia. }
      rewrite (drop_lookup_cons _ _ _ Hend), Hq in Hw. destruct h' as [n l]. simpl in Hl.
      eapply wp_mono; [by apply (IH _ _ (v ++ w)); [|lia..]|..].
      * intros r h' Hp. eapply (word_post_step _ i (i' + 1) v w);
          [lia|by rewrite Hm|]. by rewrite <-Hl.
      * intros e h' Hp. eapply word_fail_step; [by rewrite Hm|]. by rewrite <-Hl.
  - intros e h' (Hl & [Hn|Ho]); split; auto. left. by rewrite Hm.
Qed.

Lemma wp_read_word line fuel i b v h :
  buf_rep b v → i ≤ length line → length line - i < fuel →
  wp (read_word malloc_ok line fuel i b) (word_post line i v h)
    (word_fail line Plain i h) h.
Proof.
  revert i b v h. induction fuel as [|fuel IH]; intros i b v h Hb Hi Hf; [lia|].
  cbn [read_word]. destruct (line !! i) as [c|] eqn:Hc.
  2: { apply wp_ret. unfold word_post; simpl. split_and!; [done|lia|lia|].
       exists []. by rewrite (drop_lookup_nil _ _ Hc), app_nil_r. }
  pose proof (lookup_lt_Some _ _ _ Hc). pose proof (drop_lookup_cons _ _ _ Hc) as Hd.
  destruct (is_space c || is_special c) eqn:Hend.
  { apply wp_ret. unfold word_post; simpl. split_and!; [done|lia|lia|].
    exists []. rewrite Hd, app_nil_r. simpl. by rewrite Hend. }
  destruct (c =c? BSL) eqn:Hbs.
  { destruct (length line - 1 <=? i) eqn:Hle.
    { apply Nat.leb_le in Hle. split; [done|]. left. rewrite Hd, (drop_ge line) by lia.
      simpl. by rewrite Hend, Hbs. }
    apply Nat.leb_gt in Hle.
    destruct (line !! (i + 1)) as [nc|] eqn:Hnc;
      [|apply lookup_ge_None in Hnc; lia].
    assert (Hm : ref_word Plain (drop i line)
                 = prepend [nc] (ref_word Plain (drop (i + 2) line))).
    { rewrite Hd, (drop_lookup_cons _ _ _ Hnc). simpl. rewrite Hend, Hbs.
      by replace (i + 1 + 1) with (i + 2) by lia. }
    apply wp_bind, (wp_push_or_fail _ v); [done|..]; [|by split; auto].
    intros b' n Hb'. eapply wp_mono; [by apply (IH _ _ (v ++ [nc])); [|lia..]|..].
    - intros r h' Hp. by eapply (word_post_step _ i (i + 2)); [lia|..].
    - intros e h' Hp. by eapply word_fail_step. }
  destruct (c =c? DQ) eqn:Hdq.
  { apply (wp_quoted line InDQ DQ); try done.
    - rewrite Hd. simpl. by rewrite Hend, Hbs, Hdq.
    - by apply wp_dq_loop; [|lia..]. }
  destruct (c =c? SQ) eqn:Hsq.
  { apply (wp_quoted line InSQ SQ); try done.
    - rewrite Hd. simpl. by rewrite Hend, Hbs, Hdq, Hsq.
    - by apply wp_sq_loop; [|lia..]. }
  assert (Hm : ref_word Plain (drop i line)
               = prepend [c] (ref_word Plain (drop (i + 1) line))).
  { rewrite Hd. simpl. by rewrite Hend, Hbs, Hdq, Hsq. }
  apply wp_bind, (wp_push_or_fail _ v); [done|..]; [|by split; auto].
  intros b' n Hb'. eapply wp_mono; [by apply (IH _ _ (v ++ [c])); [|lia..]|..].
  - intros r h' Hp. by eapply (word_post_step _ i (i + 1)); [lia|..].
  - intros e h' Hp. by eapply word_fail_step.
Qed.

Abbreviation blocks := (sum_list_with token_blocks).

(** [lex_loop] at [i] with the list [out]: the tokens of the rest of the line
    are appended, or everything allocated is given back. *)
Definition loop_post (s : cstr) (out : TokenList) (h : Heap)
    (out' : TokenList) (h' : Heap) : Prop :=
  ∃ ts, lexes s (ts ++ [op TOK_EOF]) ∧ chain out' = chain out ++ ts ∧
        count out' = count out + length ts ∧ live h' = live h + blocks ts.

Definition lex_fail (s : cstr) (out : TokenList) (h : Heap)
    (e : lex_error) (h' : Heap) : Prop :=
  live h' = live h - blocks (chain out) ∧
  match e with
  | invalid_syntax => ¬ lexable s ∨ oom
  | out_of_memory => oom
  end.

Lemma wp_alloc_fail {A} s out h n (Q : A → Heap → Prop) :
  oom → wp (alloc_fail out) Q (lex_fail s out h) {| calls := n; live := live h |}.
Proof. by split. Qed.

Lemma loop_post_step s s' t out h n m out' h' :
  (∀ ts, lexes s ts → lexes s' (t :: ts)) →
  loop_post s {| chain := chain out ++ [t]; count := S (count out) |}
    {| calls := n; live := m |} out' h' →
  m = live h + token_blocks t →
  loop_post s' out h out' h'.
Proof.
  intros Hs (ts & Hl & Hc & Hn & Hh) ->. exists (t :: ts). simpl in *.
  split_and!; [by apply Hs|by rewrite Hc, <-app_assoc|lia|lia].
Qed.

Lemma lex_fail_step s s' t out h n m e h' :
  (lexable s' → lexable s) →
  lex_fail s {| chain := chain out ++ [t]; count := S (count out) |}
    {| calls := n; live := m |} e h' →
  m = live h + token_blocks t → blocks (chain out) ≤ live h →
  lex_fail s' out h e h'.
Proof.
  intros Hs (Hl & He) -> Hb. split.
  - rewrite Hl. simpl. rewrite sum_list_with_app. simpl. lia.
  - destruct e; [|done]. destruct He as [He|Ho]; [left|by right]. by intros Hx%Hs.
Qed.

(** An operator token, then the rest of the line at [i']. *)
Lemma wp_operator line fuel i' ty s out h :
  (∀ i out h, i ≤ length line → length line - i < fuel →
     blocks (chain out) ≤ live h →
     wp (lex_loop malloc_ok line fuel i out) (loop_post (drop i line) out h)
       (lex_fail (drop i line) out h) h) →
  i' ≤ length line → length line - i' < fuel → blocks (chain out) ≤ live h →
  (∀ ts, lexes (drop i' line) ts → lexes s (op ty :: ts)) →
  (∀ ts, lexes s ts → ∃ ts', ts = op ty :: ts' ∧ lexes (drop i' line) ts') →
  wp (out ← append_or_fail malloc_ok out ty; lex_loop malloc_ok line fuel i' out)
    (loop_post s out h) (lex_fail s out h) h.
Proof.
  intros IH Hi Hf Hb Hs Hs'. unfold append_or_fail, tokenlist_append.
  apply wp_bind, wp_bind, wp_bind, wp_malloc.
  - apply wp_ret, wp_ret. eapply wp_mono; [apply IH; [done..|]|..].
    + simpl. rewrite sum_list_with_app. simpl. lia.
    + intros out' h' Hp. eapply loop_post_step; [apply Hs|done|cbn; lia].
    + intros e h' Hp. eapply lex_fail_step; [|done|cbn; lia|done].
      intros [ts Hts]. apply Hs' in Hts as (ts' & _ & ?). by exists ts'.
  - intros Ho. by apply wp_ret, wp_alloc_fail.
Qed.

Lemma wp_lex_word line i out h c :
  line !! i = Some c → (is_space c || is_special c) = false → NUL ∉ line →
  blocks (chain out) ≤ live h →
  wp (lex_word malloc_ok line i out)
    (λ '(i', out') h', i < i' ≤ length line ∧ ∃ v,
       ref_word Plain (drop i line) = Some (v, drop i' line) ∧
       out' = {| chain := chain out ++ [word v]; count := S (count out) |} ∧
       live h' = live h + 2)
    (lex_fail (drop i line) out h) h.
Proof.
  intros Hc Hcs Hnul Hb. unfold lex_word, buf_init.
  pose proof (lookup_lt_Some _ _ _ Hc).
  pose proof (drop_lookup_cons _ _ _ Hc) as Hd.
  assert (Hrep : buf_rep {| data := Some (<[0:=Some NUL]> (replicate 32 None));
                           len := 0; cap := 32 |} []).
  { eexists. repeat split; simpl; lia. }
  apply wp_bind, wp_bind, wp_malloc; [|intros Ho; by apply wp_ret, wp_alloc_fail].
  apply wp_ret, wp_handle. eapply wp_mono; [apply (wp_read_word _ _ i _ []); [done|lia..]|..].
  - intros [i' b] h' (Hl & Hi & w & Hw & Hbuf). cbn [fst snd] in *.
    destruct (ref_word_no_nul Plain (drop i line) w (drop i' line)) as [Hwn _];
      [by apply not_elem_of_drop|done|].
    rewrite (buf_rep_string _ w Hbuf) by done.
    simpl in Hl. destruct h' as [n l]; simpl in Hl; subst.
    unfold tokenlist_append. apply wp_bind, wp_bind, wp_malloc.
    + apply wp_ret, wp_ret. split.
      * split; [|lia]. destruct (decide (i' = i)) as [->|]; [|lia].
        rewrite Hd in Hw. apply ref_word_progress in Hw; [|done].
        simpl in Hw. lia.
      * exists w. split_and!; [done|done|cbn; lia].
    + intros Ho. split; simpl; [lia|done].
  - intros e h' (Hl & He). simpl in Hl. split; [simpl; lia|].
    destruct He as [He|Ho]; [|by right]. left. intros [ts Hts].
    rewrite Hd in Hts, He. apply lexes_word_inv in Hts as (v & rest & ts' & ? & _); [|done].
    congruence.
Qed.

Lemma wp_lex_loop line fuel i out h :
  NUL ∉ line → i ≤ length line → length line - i < fuel →
  blocks (chain out) ≤ live h →
  wp (lex_loop malloc_ok line fuel i out) (loop_post (drop i line) out h)
    (lex_fail (drop i line) out h) h.
Proof.
  intros Hnul. revert i out h.
  induction fuel as [|fuel IH]; intros i out h Hi Hf Hb; [lia|]. cbn [lex_loop].
  destruct (line !! i) as [c|] eqn:Hc.
  2: { apply wp_ret. exists []. rewrite (drop_lookup_nil _ _ Hc), app_nil_r.
       split_and!; [constructor|done|simpl; lia|simpl; lia]. }
  pose proof (lookup_lt_Some _ _ _ Hc).
  pose proof (drop_lookup_cons _ _ _ Hc) as Hd.
  destruct (is_space c) eqn:Hsp.
  { eapply wp_mono; [apply IH; [lia..|done]|..].
    - intros out' h' (ts & Hl & Hr). exists ts. split; [|done].
      rewrite Hd. by apply lexes_space.
    - intros e h' [Hl He]. split; [done|]. destruct e; [|done].
      destruct He as [He|Ho]; [left|by right]. intros [ts Hts]. apply He.
      rewrite Hd in Hts. exists ts. by apply lexes_space_inv in Hts. }
  rewrite Hd.
  destruct (c =c? "|"%char) eqn:E1.
  { char_cases. apply wp_operator; try done; [lia..| |].
    - apply lexes_pipe.
    - apply lexes_pipe_inv. }
  destruct (c =c? "&"%char) eqn:E2.
  { char_cases. apply wp_operator; try done; [lia..| |].
    - apply lexes_amp.
    - apply lexes_amp_inv. }
  destruct (c =c? ";"%char) eqn:E3.
  { char_cases. apply wp_operator; try done; [lia..| |].
    - apply lexes_semi.
    - apply lexes_semi_inv. }
  destruct (c =c? "<"%char) eqn:E4.
  { char_cases. apply wp_operator; try done; [lia..| |].
    - apply lexes_lt.
    - apply lexes_lt_inv. }
  destruct (c =c? ">"%char) eqn:E5.
  { char_cases. destruct (line !! (i + 1)) as [c'|] eqn:Hc'.
    - pose proof (lookup_lt_Some _ _ _ Hc').
      pose proof (drop_lookup_cons _ _ _ Hc') as Hd'.
      replace (i + 1 + 1) with (i + 2) in Hd' by lia.
      destruct (c' =c? ">"%char) eqn:E6; char_cases.
      + rewrite Hd'. apply wp_operator; try done; [lia..| |].
        * apply lexes_gtgt.
        * apply lexes_gtgt_inv.
      + apply wp_operator; try done; [lia..| |].
        * intros ts Hts. apply lexes_gt; [|done]. rewrite Hd'. simpl. congruence.
        * intros ts. apply lexes_gt_inv. rewrite Hd'. simpl. congruence.
    - rewrite (drop_lookup_nil _ _ Hc').
      apply wp_operator; try done; [lia..| |]; rewrite (drop_lookup_nil _ _ Hc').
      + intros ts. by apply lexes_gt.
      + intros ts. by apply lexes_gt_inv. }
  assert (Hcs : (is_space c || is_special c) = false).
  { rewrite Hsp. unfold is_special. by rewrite E1, E2, E3, E4, E5. }
  rewrite <-Hd. apply wp_bind. eapply wp_mono; [by eapply wp_lex_word|..].
  - intros [i' out'] h' (Hi' & v & Hw & -> & Hl).
    pose proof Hw as (r & Heq & Hr & Hend)%ref_word_complete. simpl in Heq.
    destruct h' as [n l]; simpl in Hl; subst l.
    eapply wp_mono; [apply IH|..].
    + lia.
    + lia.
    + simpl. rewrite sum_list_with_app. simpl. lia.
    + intros out' h' Hp. eapply loop_post_step; [|done|cbn; lia].
      intros ts Hts. rewrite Heq. apply lexes_word; try done.
      intros ->. simpl in Heq. apply (f_equal length) in Heq.
      rewrite !length_drop in Heq. lia.
    + intros e h' Hp. eapply lex_fail_step; [|done|cbn; lia|done].
      intros [ts Hts]. rewrite Hd in Hts.
      apply lexes_word_inv in Hts as (v' & rest & ts' & Hw' & _ & Hl); [|done].
      rewrite <-Hd, Hw in Hw'. simplify_eq. by exists ts'.
  - done.
Qed.

(** The whole of [lex_line], for any allocator. *)
Lemma wp_lex_line line h :
  NUL ∉ line →
  wp (lex_line malloc_ok line)
    (λ out h', lexes line (chain out) ∧ count out = length (chain out) ∧
               live h' = live h + blocks (chain out))
    (lex_fail line tokenlist_init h) h.
Proof.
  intros Hnul. unfold lex_line. apply wp_bind.
  eapply wp_mono; [apply (wp_lex_loop line _ 0); [done|lia|lia|simpl; lia]|..].
  - intros out h' (ts & Hl & Hc & Hn & Hh). rewrite drop_0 in Hl.
    unfold append_or_fail, tokenlist_append. apply wp_bind, wp_bind, wp_malloc.
    + apply wp_ret, wp_ret. cbn in *. rewrite Hc, length_app, sum_list_with_app.
      cbn. split_and!; [done|lia|lia].
    + intros Ho. apply wp_ret. split; cbn; [rewrite Hc; simpl in *; lia|done].
  - intros e h' He. by rewrite drop_0 in He.
Qed.
End LexerProofs.

Lemma lexes_functional s ts ts' : lexes s ts → lexes s ts' → ts = ts'.
Proof.
  intros H. revert ts'.
  induction H as [|c s ts Hc _ IH|s ts _ IH|s ts _ IH|s ts _ IH|s ts _ IH|s ts _ IH
    |s ts Hh _ IH|r v s ts Hr Hw Hend _ IH]; intros ts2 H2.
  - inversion H2; simplify_eq; [done|]. by destruct r.
  - apply IH. by eapply lexes_space_inv.
  - apply lexes_pipe_inv in H2 as (? & -> & ?). f_equal; auto.
  - apply lexes_amp_inv in H2 as (? & -> & ?). f_equal; auto.
  - apply lexes_semi_inv in H2 as (? & -> & ?). f_equal; auto.
  - apply lexes_lt_inv in H2 as (? & -> & ?). f_equal; auto.
  - apply lexes_gtgt_inv in H2 as (? & -> & ?). f_equal; auto.
  - apply lexes_gt_inv in H2 as (? & -> & ?); [|done]. f_equal; auto.
  - destruct r as [|c r]; [done|].
    pose proof (word_text_head _ _ _ Hw) as Hc.
    apply lexes_word_inv in H2 as (v' & rest & ts' & Hr' & -> & Hl); [|done].
    pose proof (ref_word_sound _ _ s Hw Hend) as Hs.
    pose proof (eq_trans (eq_sym Hr') Hs) as Heq. injection Heq as -> ->. by rewrite (IH _ Hl).
Qed.
(** ** Printing tokens

    [print_tokens] writes a token list as a line: an operator as its symbol,
    a word with a backslash before every character, and a bare pair of single
    quotes for the empty word. *)
Definition print_word (v : cstr) : cstr :=
  match v with [] => [SQ; SQ] | _ => v ≫= λ c, [BSL; c] end.

Definition print_token (t : Token) : cstr :=
  match type t, value t with
  | TOK_WORD, Some v => print_word v ++ [SP]
  | TOK_PIPE, _ => ["|"%char]
  | TOK_AMP, _ => ["&"%char]
  | TOK_SEMI, _ => [";"%char]
  | TOK_LT, _ => ["<"%char]
  | TOK_GT, _ => [">"%char; SP]
  | TOK_GTGT, _ => [">"%char; ">"%char]
  | _, _ => []
  end.

Definition print_tokens (ts : list Token) : cstr := ts ≫= print_token.

(** A token as the lexer builds it: a word has a value, an operator none. *)
Definition token_wf (t : Token) : Prop :=
  match type t with
  | TOK_WORD => ∃ v, value t = Some v ∧ NUL ∉ v
  | TOK_EOF => False
  | _ => value t = None
  end.

Lemma print_word_text v : word_text (print_word v) v.
Proof.
  destruct v as [|c v].
  { apply (word_sq []); [apply not_elem_of_nil|constructor]. }
  unfold print_word. generalize (c :: v). intros w.
  induction w as [|a w IH]; [constructor|]. cbn. by constructor.
Qed.

Lemma print_tokens_lexes ts :
  Forall token_wf ts → lexes (print_tokens ts) (ts ++ [op TOK_EOF]).
Proof.
  induction 1 as [|t ts Ht _ IH]; [constructor|].
  unfold print_tokens in *. cbn. destruct t as [ty v].
  assert (Hv : ty = TOK_WORD ∨ v = None) by (destruct ty; cbn in Ht; auto; done).
  destruct ty; unfold token_wf in Ht; simpl in Ht; try done; cbn;
    try (destruct Hv as [?| ->]; [done|]).
  - destruct Ht as (v' & -> & _). rewrite <-app_assoc.
    apply (lexes_word _ v'); [by destruct v'|apply print_word_text|done|].
    by apply lexes_space.
  - by apply lexes_pipe.
  - by apply lexes_amp.
  - by apply lexes_semi.
  - by apply lexes_lt.
  - apply lexes_gt; [done|]. by apply lexes_space.
  - by apply lexes_gtgt.
Qed.

(** Refute a membership in an explicit list. *)
Ltac not_in H :=
  repeat (apply elem_of_cons in H as [H|H]; [done|]);
  by apply elem_of_nil in H.

Lemma print_tokens_no_nul ts : Forall token_wf ts → NUL ∉ print_tokens ts.
Proof.
  intros Hts (t & Ht & Hin)%list_elem_of_bind. rewrite Forall_forall in Hts.
  apply Hts in Hin. destruct t as [ty v].
  destruct ty; unfold token_wf in Hin; simpl in Hin; cbn in Ht; try done;
    try (by not_in Ht).
  destruct Hin as (w & -> & Hw).
  apply elem_of_app in Ht as [Ht|Ht%list_elem_of_singleton]; [|done].
  destruct w as [|c w]; unfold print_word in Ht; [by not_in Ht|].
  apply list_elem_of_bind in Ht as (a & Ha & Hin).
  apply elem_of_cons in Ha as [Ha|Ha%list_elem_of_singleton]; [done|by subst].
Qed.

(** ** Properties of the lexer *)
Lemma always_ok_no_oom : ¬ oom always_ok.
Proof. by intros [k ?]. Qed.

(** C25: with memory available, [lex_line] succeeds exactly on the lines of
    the token grammar, with the one token list of the line and its length as
    count, and it answers "invalid syntax" exactly on the other lines. *)
Theorem lex_line_grammar (line : cstr) (ts : list Token) (h : Heap) :
  NUL ∉ line →
  (fst (lex_line always_ok line h) = Ret {| chain := ts; count := length ts |}
     ↔ lexes line ts) ∧
  (fst (lex_line always_ok line h) = Err invalid_syntax ↔ ¬ lexable line).
Proof.
  intros Hnul. pose proof (wp_lex_line always_ok line h Hnul) as H. unfold wp in H.
  destruct (lex_line always_ok line h) as [[out|e|] h']; simpl; [| |done].
  - destruct H as (Hl & Hc & _). split; split; try done.
    + intros H. by injection H as ->.
    + intros Hl'. destruct out as [c n]; simpl in *.
      by rewrite (lexes_functional _ _ _ Hl' Hl), Hc.
    + intros Hn. exfalso. apply Hn. by eexists.
  - destruct H as (_ & He). assert (e = invalid_syntax ∧ ¬ lexable line) as [-> Hn].
    { pose proof always_ok_no_oom. destruct e; [split; [done|]|]; tauto. }
    split; split; try done. intros Hl. exfalso. apply Hn. by exists ts.
Qed.

Lemma lex_line_grammar_witness :
  ∃ ts, lexes (lit "ls -a|wc") ts ∧
  fst (lex_line always_ok (lit "ls -a|wc") heap0)
  = Ret {| chain := ts; count := length ts |}.
Proof.
  exists [word (lit "ls"); word (lit "-a"); op TOK_PIPE; word (lit "wc"); op TOK_EOF].
  destruct (lex_line_grammar (lit "ls -a|wc")
    [word (lit "ls"); word (lit "-a"); op TOK_PIPE; word (lit "wc"); op TOK_EOF] heap0)
    as [H _].
  - apply (bool_decide_unpack _). vm_compute. exact I.
  - split; [apply H|]; vm_compute; reflexivity.
Defined.

(** The lexer on printed tokens. *)
Lemma lex_tokens ts h :
  Forall token_wf ts →
  fst (lex_line always_ok (print_tokens ts) h)
  = Ret {| chain := ts ++ [op TOK_EOF]; count := length (ts ++ [op TOK_EOF]) |}.
Proof.
  intros Hts.
  pose proof (wp_lex_line always_ok _ h (print_tokens_no_nul ts Hts)) as H.
  pose proof (print_tokens_lexes ts Hts) as Hl. unfold wp in H.
  destruct (lex_line always_ok (print_tokens ts) h) as [[[c n]|e|] h']; [| |done].
  - destruct H as (Hl' & Hn & _). simpl in *.
    by rewrite (lexes_functional _ _ _ Hl Hl'), Hn.
  - destruct H as (_ & He). exfalso. pose proof always_ok_no_oom.
    destruct e; [|done]. destruct He as [He|]; [|done]. apply He. by eexists.
Qed.

(** printing tokens and lexing the line gives the tokens back, for every
    list of operators and words (of any bytes but NUL, the empty word
    included). *)
Theorem lex_print_roundtrip (ts : list Token) (h : Heap) :
  Forall token_wf ts →
  fst (lex_line always_ok (print_tokens ts) h)
  = Ret {| chain := ts ++ [op TOK_EOF]; count := length (ts ++ [op TOK_EOF]) |}.
Proof. apply lex_tokens. Qed.

Lemma lex_print_roundtrip_witness :
  fst (lex_line always_ok (print_tokens [word (lit "a'b |"); op TOK_GT; word []]) heap0)
  = Ret {| chain := [word (lit "a'b |"); op TOK_GT; word []; op TOK_EOF]; count := 4 |}.
Proof.
  apply (lex_print_roundtrip [word (lit "a'b |"); op TOK_GT; word []]).
  repeat constructor.
  - exists (lit "a'b |"). split; [reflexivity|].
    apply (bool_decide_unpack _). vm_compute. exact I.
  - exists []. split; [reflexivity|]. apply not_elem_of_nil.
Defined.

(** whatever allocations fail, [lex_line] returns; when it fails it has
    given back everything it allocated, and when it succeeds the live blocks
    it added are those [tokenlist_free] frees. *)
Theorem lex_line_no_leak (malloc_ok : nat → bool) (line : cstr) (h : Heap) :
  NUL ∉ line →
  match lex_line malloc_ok line h with
  | (Ret out, h') =>
      live h' = live h + sum_list_with token_blocks (chain out) ∧
      live (snd (tokenlist_free (E:=()) out h')) = live h
  | (Err _, h') => live h' = live h
  | (NoFuel, _) => False
  end.
Proof.
  intros Hnul. pose proof (wp_lex_line malloc_ok line h Hnul) as H. unfold wp in H.
  destruct (lex_line malloc_ok line h) as [[out|e|] h']; [| |done].
  - destruct H as (_ & _ & Hl). split; [done|].
    change (live h' - sum_list_with token_blocks (chain out) = live h). lia.
  - destruct H as [Hl _]. simpl in Hl. lia.
Qed.

Lemma lex_line_no_leak_witness :
  live (snd (lex_line (λ k, bool_decide (k < 3)) (lit "a b") heap0)) = 0.
Proof.
  refine (lex_line_no_leak (λ k, bool_decide (k < 3)) (lit "a b") heap0 _).
  apply (bool_decide_unpack _). vm_compute. exact I.
Defined.

(** A word whose buffer cannot grow is reported as invalid syntax, not as
    out of memory: the two failures of [read_word] share the code -1. *)
Lemma lex_oom_misreported :
  lexable (replicate 40 "a"%char) ∧
  fst (lex_line (λ k, bool_decide (k < 1)) (replicate 40 "a"%char) heap0)
  = Err invalid_syntax.
Proof.
  split; [|vm_compute; reflexivity].
  exists ([word (replicate 40 "a"%char); op TOK_EOF]).
  apply (lexes_word (replicate 40 "a"%char) _ []); [done| |done|constructor].
  simpl. repeat (apply word_plain; [done|]). constructor.
Qed.
