(* ===== verification/Parser.v ===== *)
(** * The syntax check of the c-shell (c-shell/src/parser.c)

    [parse_validate] walks the token list once and answers whether the line
    is well formed.  The abstract syntax of command lines is [line]; the
    theorems say that the accepted token lists are the printed [line]s. *)

From S2P Require Import Prelude Lexer.

(** ** The code

    A [const Token *] is the list of the tokens from it on; NULL is [[]]. *)
Fixpoint validate_loop (curr : list Token) : bool :=
  match curr with
  | [] => true
  | t :: next =>
      match type t with
      | TOK_EOF => true
      | TOK_WORD => validate_loop next
      | TOK_LT | TOK_GT | TOK_GTGT =>
          match next with
          | [] => false
          | t' :: next' =>
              if decide (type t' = TOK_WORD) then validate_loop next' else false
          end
      | TOK_SEMI =>
          match next with
          | [] => false
          | t' :: next' =>
              if decide (type t' = TOK_EOF) then false
              else if decide (type t' = TOK_WORD) then validate_loop next' else false
          end
      | TOK_PIPE =>
          match next with
          | [] => false
          | t' :: next' =>
              if decide (type t' = TOK_WORD) then validate_loop next' else false
          end
      | TOK_AMP =>
          match next with
          | [] => true
          | t' :: next' =>
              if decide (type t' = TOK_EOF) then true
              else if decide (type t' = TOK_WORD) then validate_loop next' else false
          end
      end
  end.

Definition parse_validate (tokens : TokenList) : bool :=
  match chain tokens with
  | [] => true
  | t :: next =>
      if decide (type t = TOK_EOF) then true
      else if decide (type t = TOK_WORD) then validate_loop next
      else false
  end.

(** ** Abstract syntax *)
Inductive item :=
  | Arg (w : cstr)
  | In (f : cstr)
  | Out (f : cstr)
  | Append (f : cstr).

Record command := { name : cstr; items : list item }.

(** A nonempty sequence of commands joined by [|]. *)
Definition pipeline : Type := command * list command.

(** Pipelines ended by [;] or [&]; only the last needs no ending. *)
Inductive line :=
  | Last (p : pipeline) (bg : bool)
  | Seq (p : pipeline) (bg : bool) (l : line).

Definition item_tokens (i : item) : list Token :=
  match i with
  | Arg w => [word w]
  | In f => [op TOK_LT; word f]
  | Out f => [op TOK_GT; word f]
  | Append f => [op TOK_GTGT; word f]
  end.

Definition command_tokens (c : command) : list Token :=
  word (name c) :: (items c ≫= item_tokens).

Definition pipeline_tokens (p : pipeline) : list Token :=
  command_tokens (fst p) ++ (snd p ≫= λ c, op TOK_PIPE :: command_tokens c).

Fixpoint line_tokens (l : line) : list Token :=
  match l with
  | Last p bg => pipeline_tokens p ++ (if bg then [op TOK_AMP] else [])
  | Seq p bg l =>
      pipeline_tokens p ++ op (if bg then TOK_AMP else TOK_SEMI) :: line_tokens l
  end.

Definition terminated (ts : list Token) : TokenList :=
  {| chain := ts ++ [op TOK_EOF]; count := length (ts ++ [op TOK_EOF]) |}.

(** ** The printed lines are accepted *)
Lemma validate_items its s : validate_loop ((its ≫= item_tokens) ++ s) = validate_loop s.
Proof. induction its as [|[] its IH]; done. Qed.

Lemma validate_pipe cs s :
  validate_loop ((cs ≫= λ c, op TOK_PIPE :: command_tokens c) ++ s) = validate_loop s.
Proof.
  induction cs as [|c cs IH]; [done|]. cbn. rewrite <-app_assoc.
  by rewrite validate_items, IH.
Qed.

Lemma validate_pipeline p s : validate_loop (pipeline_tokens p ++ s) = validate_loop s.
Proof.
  unfold pipeline_tokens. rewrite <-app_assoc. cbn.
  by rewrite validate_items, validate_pipe.
Qed.

Lemma pipeline_tokens_head p : ∃ v s, pipeline_tokens p = word v :: s.
Proof. eexists _, _. reflexivity. Qed.

Lemma line_tokens_head l : ∃ v s, line_tokens l = word v :: s.
Proof. destruct l; eexists _, _; reflexivity. Qed.

Lemma validate_line l : validate_loop (line_tokens l ++ [op TOK_EOF]) = true.
Proof.
  induction l as [p bg|p bg l IH]; cbn [line_tokens].
  - rewrite <-app_assoc, validate_pipeline. by destruct bg.
  - rewrite <-app_assoc, validate_pipeline.
    destruct (line_tokens_head l) as (v & s & Hl). rewrite Hl in *.
    by destruct bg.
Qed.

(** ** The accepted lists are printed lines *)
Definition map_first_pipeline (f : pipeline → pipeline) (l : line) : line :=
  match l with
  | Last p bg => Last (f p) bg
  | Seq p bg l => Seq (f p) bg l
  end.

(** Put items before those of the first command, and rename it. *)
Definition add_items (v : cstr) (its : cstr → list item) (p : pipeline) : pipeline :=
  ({| name := v; items := its (name (fst p)) ++ items (fst p) |}, snd p).

Definition add_command (c : command) (p : pipeline) : pipeline :=
  (c, fst p :: snd p).

Lemma line_tokens_map f pre l v s :
  (∀ p, ∃ s', pipeline_tokens p = word (name (fst p)) :: s' ∧
              pipeline_tokens (f p) = pre (name (fst p)) ++ s') →
  line_tokens l = word v :: s →
  line_tokens (map_first_pipeline f l) = pre v ++ s.
Proof.
  intros Hf Hl. destruct l as [p bg|p bg l]; cbn [line_tokens map_first_pipeline] in *;
    destruct (Hf p) as (s' & Hp & ->); rewrite Hp in Hl;
    injection Hl as <- <-; by rewrite <-app_assoc.
Qed.

Lemma add_items_tokens v its p :
  ∃ s', pipeline_tokens p = word (name (fst p)) :: s' ∧
    pipeline_tokens (add_items v its p)
    = (word v :: (its (name (fst p)) ≫= item_tokens)) ++ s'.
Proof.
  eexists. split; [reflexivity|]. unfold pipeline_tokens, command_tokens. cbn.
  by rewrite bind_app, <-app_assoc.
Qed.

Lemma add_command_tokens c p :
  ∃ s', pipeline_tokens p = word (name (fst p)) :: s' ∧
    pipeline_tokens (add_command c p)
    = (command_tokens c ++ [op TOK_PIPE; word (name (fst p))]) ++ s'.
Proof.
  eexists. split; [reflexivity|]. unfold pipeline_tokens. cbn.
  by rewrite <-!app_assoc.
Qed.

(** The loop runs after the first word of a command: with that word put back,
    what it accepts is the tokens of a line. *)
Lemma validate_loop_line n ts :
  length ts < n → Forall token_wf ts → validate_loop (ts ++ [op TOK_EOF]) = true →
  ∀ v, ∃ l, line_tokens l = word v :: ts.
Proof.
  revert ts. induction n as [|n IH]; intros ts Hn Hwf Hv v; [lia|].
  destruct ts as [|[ty val] ts].
  { exists (Last ({| name := v; items := [] |}, []) false). reflexivity. }
  apply Forall_cons in Hwf as [Ht Hwf]. simpl in Hn.
  destruct ty; cbn in Ht; [destruct Ht as (w & -> & _)|subst val..|done].
  { (* an argument *)
    destruct (IH ts) with (v := w) as [l Hl]; [lia|done|done|].
    exists (map_first_pipeline (add_items v (λ w, [Arg w])) l).
    by apply (line_tokens_map _ (λ w, [word v; word w])); [apply add_items_tokens|]. }
  all: cbn in Hv; destruct ts as [|[ty' val'] ts]; cbn in Hv; try done.
  all: try (exists (Last ({| name := v; items := [] |}, []) true); reflexivity).
  all: apply Forall_cons in Hwf as [Ht' Hwf]; simpl in Hn.
  all: destruct ty'; cbn in Hv, Ht'; try done.
  all: destruct Ht' as (w & -> & _); destruct (IH ts) with (v := w) as [l Hl];
    [lia|done|done|].
  - exists (map_first_pipeline (add_command {| name := v; items := [] |}) l).
    by apply (line_tokens_map _ (λ w, [word v; op TOK_PIPE; word w]));
      [apply add_command_tokens|].
  - exists (Seq ({| name := v; items := [] |}, []) true l). simpl. by rewrite Hl.
  - exists (Seq ({| name := v; items := [] |}, []) false l). simpl. by rewrite Hl.
  - destruct (IH ts) with (v := v) as [l' Hl']; [lia|done|done|].
    exists (map_first_pipeline (add_items v (λ _, [In w])) l').
    by apply (line_tokens_map _ (λ _, [word v; op TOK_LT; word w]) _ v);
      [apply add_items_tokens|].
  - destruct (IH ts) with (v := v) as [l' Hl']; [lia|done|done|].
    exists (map_first_pipeline (add_items v (λ _, [Out w])) l').
    by apply (line_tokens_map _ (λ _, [word v; op TOK_GT; word w]) _ v);
      [apply add_items_tokens|].
  - destruct (IH ts) with (v := v) as [l' Hl']; [lia|done|done|].
    exists (map_first_pipeline (add_items v (λ _, [Append w])) l').
    by apply (line_tokens_map _ (λ _, [word v; op TOK_GTGT; word w]) _ v);
      [apply add_items_tokens|].
Qed.

Lemma parse_line l : parse_validate (terminated (line_tokens l)) = true.
Proof.
  destruct (line_tokens_head l) as (v & s & Hl). pose proof (validate_line l) as Hv.
  unfold parse_validate, terminated. cbn [chain]. rewrite Hl in *. exact Hv.
Qed.

(** ** Properties *)

(** [parse_validate] accepts an end-marked token list exactly when it is
    empty or prints some command line: commands of words and redirections,
    joined by [|] into pipelines, separated by [;] or [&] with an optional
    final [&]. *)
Theorem parse_validate_grammar (ts : list Token) :
  Forall token_wf ts →
  parse_validate (terminated ts) = true ↔ ts = [] ∨ ∃ l, line_tokens l = ts.
Proof.
  intros Hwf. split.
  - destruct ts as [|[ty val] ts]; [by left|]. right. cbn in H.
    apply Forall_cons in Hwf as [Ht Hwf].
    destruct ty; cbn in H, Ht; try done. destruct Ht as (v & -> & _).
    by eapply (validate_loop_line (S (length ts))); [lia|..].
  - intros [->|[l <-]]; [done|apply parse_line].
Qed.

Lemma parse_validate_grammar_witness :
  ∃ l, line_tokens l = [word (lit "wc"); op TOK_LT; word (lit "f"); op TOK_AMP].
Proof.
  destruct (parse_validate_grammar
    [word (lit "wc"); op TOK_LT; word (lit "f"); op TOK_AMP]) as [H _].
  - repeat constructor; (eexists; split; [reflexivity|]);
      apply (bool_decide_unpack _); vm_compute; exact I.
  - destruct H as [H|H]; [vm_compute; reflexivity|discriminate H|exact H].
Defined.
