(* ===== verification/Shell.v ===== *)
(** * The main loop of the c-shell (c-shell/src/shell.c)

    A validated token list is cut into segments at [;] and [&]; a segment is
    cut into stages at [|]; the stages go to a builtin, to the redirection
    code or to the pipeline code.  What those do is the interface
    [World].  The standard input is a stream of bytes, cut into lines by [fgets]. *)

From S2P Require Import Prelude Clib Lexer Parser.

Local Open Scope nat_scope.

Definition STRING_SIZE : nat := 4096.
Definition MAX_STAGES : nat := 64.
Definition MAX_ARGS : nat := 100.

(** ** The stages of a segment *)

(** [command_stage] of redirect.h; a count is the length of its list and
    [args] leaves the final NULL out. *)
Record command_stage := {
  args : list cstr;
  input_files : list cstr;
  output_files : list cstr;
  append_flags : list bool;
}.

Definition empty_stage : command_stage :=
  {| args := []; input_files := []; output_files := []; append_flags := [] |}.

Definition add_arg (st : command_stage) (w : cstr) : command_stage :=
  if length (args st) <? MAX_ARGS - 1 then
    {| args := args st ++ [w]; input_files := input_files st;
       output_files := output_files st; append_flags := append_flags st |}
  else st.

Definition add_input (st : command_stage) (f : cstr) : command_stage :=
  if length (input_files st) <? MAX_ARGS - 1 then
    {| args := args st; input_files := input_files st ++ [f];
       output_files := output_files st; append_flags := append_flags st |}
  else st.

Definition add_output (st : command_stage) (f : cstr) (append : bool) : command_stage :=
  if length (output_files st) <? MAX_ARGS - 1 then
    {| args := args st; input_files := input_files st;
       output_files := output_files st ++ [f];
       append_flags := append_flags st ++ [append] |}
  else st.

Inductive segment :=
  | Segment (stages : list command_stage) (cur : list Token)
  | SyntaxError
  | NullDeref.

(** After the loop: no stages when the last one has no word. *)
Definition end_segment (done : list command_stage) (st : command_stage)
    (cur : list Token) : segment :=
  Segment (if bool_decide (args st = []) then [] else done ++ [st]) cur.

(** The loop that fills the stage arrays; [done] are the stages before the
    current one, so [s] is its length. *)
Fixpoint segment_loop (cur : list Token) (done : list command_stage)
    (st : command_stage) : segment :=
  match cur with
  | [] => end_segment done st cur
  | t :: next =>
      match type t with
      | TOK_EOF | TOK_SEMI | TOK_AMP => end_segment done st cur
      | TOK_PIPE =>
          if bool_decide (args st = []) then SyntaxError
          else if MAX_STAGES <=? S (length done) then SyntaxError
          else segment_loop next (done ++ [st]) empty_stage
      | TOK_LT =>
          match next with
          | {| value := Some f |} :: next' => segment_loop next' done (add_input st f)
          | _ => NullDeref
          end
      | TOK_GT =>
          match next with
          | {| value := Some f |} :: next' =>
              segment_loop next' done (add_output st f false)
          | _ => NullDeref
          end
      | TOK_GTGT =>
          match next with
          | {| value := Some f |} :: next' =>
              segment_loop next' done (add_output st f true)
          | _ => NullDeref
          end
      | TOK_WORD =>
          match value t with
          | Some w => segment_loop next done (add_arg st w)
          | None => NullDeref
          end
      end
  end.

(** ** The rest of the shell, as the main loop sees it *)
Class World (W : Type) := {
  w_print : cstr → W → W;
  w_set_at_prompt : bool → W → W;
  w_set_fg_active : bool → W → W;
  w_flush_pending_bg_messages : W → W;
  w_has_stopped_jobs : W → bool;
  w_hangup_all_jobs : W → W;
  (** a builtin with its argument vector *)
  w_builtin : cstr → list cstr → W → W;
  (** the executors of redirect.c, with their status *)
  w_execute_with_redirection : command_stage → W → W * Z;
  w_execute_pipeline : list command_stage → W → W * Z;
  w_execute_background : list command_stage → W → W * Z;
}.

Definition builtins : list cstr :=
  [lit "hop"; lit "reveal"; lit "locate"; lit "peek"; lit "activities";
   lit "resume"; lit "ping"; lit "spy"; lit "snoop"].

Definition is_builtin (name : cstr) : bool := bool_decide (name ∈ builtins).

Definition arg0 (st : command_stage) : cstr := default [] (head (args st)).

Section Main.
Context {W : Type} `{!World W}.

(** The foreground path: its status is 0 for a builtin. *)
Definition run_foreground (stages : list command_stage) (w : W) : W * Z :=
  match stages with
  | [st] =>
      if is_builtin (arg0 st) then (w_builtin (arg0 st) (args st) w, 0%Z)
      else w_execute_with_redirection st w
  | _ => w_execute_pipeline stages w
  end.

(** One segment; [false] stops the rest of the line. *)
Definition run_segment (stages : list command_stage) (is_bg : bool) (w : W)
    : W * bool :=
  match stages with
  | [] => (w, true)
  | st :: rest =>
      if is_bg && negb (bool_decide (rest = []) && is_builtin (arg0 st)) then
        (fst (w_execute_background stages w), true)
      else
        let (w, exec_status) := run_foreground stages (w_set_fg_active true w) in
        let w := w_flush_pending_bg_messages (w_set_fg_active false w) in
        (w, negb (exec_status <? 0)%Z)
  end.

Definition is_type (ty : TokenType) (cur : list Token) : bool :=
  match cur with t :: _ => bool_decide (type t = ty) | [] => false end.

(** The loop over the segments of a line; the error is a NULL dereference. *)
Fixpoint line_loop (fuel : nat) (seg_start : list Token) : M W () () :=
  match fuel with
  | 0 => nofuel
  | S fuel =>
      if bool_decide (seg_start = []) || is_type TOK_EOF seg_start then mret ()
      else
        match segment_loop seg_start [] empty_stage with
        | NullDeref => throw ()
        | SyntaxError => modify (w_print (lit "cshell: invalid syntax" ++ [NL]))
        | Segment stages cur => λ w,
            let (w, go_on) := run_segment stages (is_type TOK_AMP cur) w in
            if go_on then
              if is_type TOK_SEMI cur || is_type TOK_AMP cur
              then line_loop fuel (tail cur) w
              else (Ret (), w)
            else (Ret (), w)
        end
  end.

(** ** Commands *)
Inductive input :=
  | GotLine (command : cstr)
  | Interrupted
  | Eof.

(** [fgets(command, STRING_SIZE, stdin)] on the bytes that the input still
    has, as the string in [command]. *)
Definition read_command (stdin : cstr) : input * cstr :=
  match fgets (STRING_SIZE - 1) stdin with
  | ([], rest) => (Eof, rest)
  | (line, rest) => (GotLine (c_string line), rest)
  end.

Inductive next := Continue | Exit.

Record main_state := { prev_ctrld : bool; world : W }.

Definition strip_newline (command : cstr) : cstr :=
  match last command with
  | Some c => if Ascii.eqb c NL then take (length command - 1) command else command
  | None => command
  end.

(** The body of the loop after a line was read. *)
Definition run_command (command : cstr) (w : W) : outcome () next * W :=
  let command := strip_newline command in
  if streq command (lit "exit()") then
    (Ret Exit, w_print (lit "Bye bye ..." ++ [NL]) (w_hangup_all_jobs w))
  else
    match fst (lex_line always_ok command heap0) with
    | Ret tokens =>
        if parse_validate tokens then
          if bool_decide (command = []) then (Ret Continue, w)
          else
            (line_loop (S (length (chain tokens))) (chain tokens) ;;
             mret Continue) w
        else (Ret Continue, w_print (lit "cshell: invalid syntax" ++ [NL]) w)
    | Err _ => (Ret Continue, w_print (lit "cshell: invalid syntax" ++ [NL]) w)
    | NoFuel => (NoFuel, w)
    end.

(** One turn of [while (1)] in [main], after the prompt was printed. *)
Definition main_step (i : input) (s : main_state) : outcome () next * main_state :=
  let w := w_set_at_prompt true (w_flush_pending_bg_messages (world s)) in
  match i with
  | Interrupted => (Ret Continue, {| prev_ctrld := prev_ctrld s; world := w |})
  | Eof =>
      let w := w_set_at_prompt false w in
      if w_has_stopped_jobs w && negb (prev_ctrld s) then
        (Ret Continue,
         {| prev_ctrld := true;
            world := w_print (NL :: lit "cshell: there are stopped jobs" ++ [NL]) w |})
      else
        (Ret Exit,
         {| prev_ctrld := prev_ctrld s;
            world := w_print [NL] (w_hangup_all_jobs w) |})
  | GotLine command =>
      let (r, w) := run_command command w in
      (r, {| prev_ctrld := false; world := w |})
  end.

(** The loop fed by a standard input, for at most [turns] turns. *)
Fixpoint main_stdin (turns : nat) (stdin : cstr) (s : main_state)
    : outcome () next * main_state * cstr :=
  match turns with
  | 0 => (Ret Continue, s, stdin)
  | S turns =>
      let (i, stdin) := read_command stdin in
      match main_step i s with
      | (Ret Continue, s) => main_stdin turns stdin s
      | (r, s) => (r, s, stdin)
      end
  end.

(** The loop over what [fgets] gives, interrupted calls included; [Continue]
    at the end means that the shell still waits for input. *)
Fixpoint main_loop (ins : list input) (s : main_state) : outcome () next * main_state :=
  match ins with
  | [] => (Ret Continue, s)
  | i :: ins =>
      match main_step i s with
      | (Ret Continue, s) => main_loop ins s
      | r => r
      end
  end.
End Main.

(** ** Bounds of the stage arrays *)
Definition stage_ok (st : command_stage) : Prop :=
  length (args st) ≤ MAX_ARGS - 1 ∧ length (input_files st) ≤ MAX_ARGS - 1 ∧
  length (output_files st) ≤ MAX_ARGS - 1 ∧
  length (append_flags st) = length (output_files st).

Definition segment_ok (r : segment) : Prop :=
  match r with
  | Segment stages _ =>
      length stages ≤ MAX_STAGES ∧
      Forall (λ st, stage_ok st ∧ args st ≠ []) stages
  | _ => True
  end.

Ltac stage_bound :=
  unfold stage_ok, MAX_ARGS; intros; case_if;
  rewrite ?Nat.ltb_lt, ?Nat.ltb_ge in *; simpl; rewrite ?length_app; simpl; lia.

Lemma add_arg_ok st w : stage_ok st → stage_ok (add_arg st w).
Proof. unfold add_arg. stage_bound. Qed.

Lemma add_input_ok st f : stage_ok st → stage_ok (add_input st f).
Proof. unfold add_input. stage_bound. Qed.

Lemma add_output_ok st f a : stage_ok st → stage_ok (add_output st f a).
Proof. unfold add_output. stage_bound. Qed.

Lemma empty_stage_ok : stage_ok empty_stage.
Proof. unfold stage_ok; simpl; lia. Qed.

#[export] Hint Resolve add_arg_ok add_input_ok add_output_ok empty_stage_ok : shell.

Lemma end_segment_ok done st cur :
  stage_ok st → length done < MAX_STAGES →
  Forall (λ st, stage_ok st ∧ args st ≠ []) done → segment_ok (end_segment done st cur).
Proof.
  intros Hst Hl Hd. unfold end_segment, segment_ok. case_bool_decide.
  - split; [simpl; lia|constructor].
  - rewrite length_app. split; [simpl; lia|]. apply Forall_app; auto.
Qed.

Lemma segment_loop_ok n cur done st :
  length cur < n → stage_ok st → length done < MAX_STAGES →
  Forall (λ st, stage_ok st ∧ args st ≠ []) done →
  segment_ok (segment_loop cur done st).
Proof.
  revert cur done st. induction n as [|n IH]; intros cur done st Hn Hst Hl Hd; [lia|].
  destruct cur as [|[ty v] next]; [by apply end_segment_ok|]. simpl in Hn.
  destruct ty; cbn [segment_loop type value]; try (by apply end_segment_ok).
  - destruct v; [|done]. apply IH; auto with shell; lia.
  - case_bool_decide; [done|]. destruct (MAX_STAGES <=? S (length done)) eqn:Hm; [done|].
    apply Nat.leb_gt in Hm.
    apply IH; [lia|auto with shell|rewrite length_app; simpl; lia|].
    apply Forall_app; auto.
  - destruct next as [|[ty2 [f|]] next]; try done. simpl in Hn. apply IH; auto with shell; lia.
  - destruct next as [|[ty2 [f|]] next]; try done. simpl in Hn. apply IH; auto with shell; lia.
  - destruct next as [|[ty2 [f|]] next]; try done. simpl in Hn. apply IH; auto with shell; lia.
Qed.

(** ** What a line means *)
Definition item_arg (i : item) : option cstr :=
  match i with Arg w => Some w | _ => None end.
Definition item_input (i : item) : option cstr :=
  match i with In f => Some f | _ => None end.
Definition item_output (i : item) : option (cstr * bool) :=
  match i with Out f => Some (f, false) | Append f => Some (f, true) | _ => None end.

(** The stage of a command: at most 99 words and files of each kind. *)
Definition command_stage_of (c : command) : command_stage :=
  let outs := take (MAX_ARGS - 1) (omap item_output (items c)) in
  {| args := take (MAX_ARGS - 1) (name c :: omap item_arg (items c));
     input_files := take (MAX_ARGS - 1) (omap item_input (items c));
     output_files := fst <$> outs; append_flags := snd <$> outs |}.

Definition add_item (st : command_stage) (i : item) : command_stage :=
  match i with
  | Arg w => add_arg st w
  | In f => add_input st f
  | Out f => add_output st f false
  | Append f => add_output st f true
  end.

Lemma segment_loop_items its cur done st :
  segment_loop ((its ≫= item_tokens) ++ cur) done st
  = segment_loop cur done (foldl add_item st its).
Proof. revert st. induction its as [|[] its IH]; intros st; [done|..]; apply IH. Qed.

(** A list that takes elements only while it is short. *)
Lemma take_push {A} n (l : list A) x :
  take n (l ++ [x]) = if length (take n l) <? n then take n l ++ [x] else take n l.
Proof.
  rewrite length_take. case_if.
  - apply Nat.ltb_lt in Heqb. rewrite !take_ge; [done|lia|rewrite length_app; simpl; lia].
  - apply Nat.ltb_ge in Heqb. by rewrite take_app_le by lia.
Qed.

Lemma omap_app' {A B} (f : A → option B) l k : omap f (l ++ k) = omap f l ++ omap f k.
Proof. induction l as [|x l IH]; [done|]. cbn. destruct (f x); [|done]. cbn. by rewrite IH. Qed.

Lemma command_stage_push nm its i :
  command_stage_of {| name := nm; items := its ++ [i] |}
  = add_item (command_stage_of {| name := nm; items := its |}) i.
Proof.
  unfold command_stage_of. cbn [items name]. rewrite !omap_app'.
  destruct i; cbn [omap list_omap item_arg item_input item_output add_item];
    rewrite ?app_nil_r; unfold add_arg, add_input, add_output;
    cbn [args input_files output_files append_flags];
    rewrite ?app_comm_cons, ?take_push, ?length_fmap;
    case_if; rewrite ?fmap_app; done.
Qed.

Lemma command_stage_foldl nm its :
  foldl add_item (add_arg empty_stage nm) its
  = command_stage_of {| name := nm; items := its |}.
Proof.
  induction its as [|i its IH] using rev_ind; [done|].
  by rewrite foldl_app, IH, command_stage_push.
Qed.

Lemma segment_loop_command c cur done :
  segment_loop (command_tokens c ++ cur) done empty_stage
  = segment_loop cur done (command_stage_of c).
Proof.
  destruct c as [nm its]. unfold command_tokens. cbn [name items app].
  rewrite <-command_stage_foldl, <-segment_loop_items. done.
Qed.

Definition pipeline_stages (p : pipeline) : list command_stage :=
  command_stage_of (fst p) :: (command_stage_of <$> snd p).

(** The end of a segment in the token list. *)
Definition segment_end (cur : list Token) : Prop :=
  match cur with
  | [] => True
  | t :: _ => type t = TOK_EOF ∨ type t = TOK_SEMI ∨ type t = TOK_AMP
  end.

Lemma segment_loop_pipeline cs cur done c :
  segment_end cur → length done < MAX_STAGES →
  segment_loop ((cs ≫= λ c, op TOK_PIPE :: command_tokens c) ++ cur) done
    (command_stage_of c)
  = if decide (length done + S (length cs) ≤ MAX_STAGES)
    then Segment (done ++ command_stage_of c :: (command_stage_of <$> cs)) cur
    else SyntaxError.
Proof.
  intros Hcur. revert done c. induction cs as [|c' cs IH]; intros done c Hd.
  - rewrite decide_True by (simpl; lia).
    destruct cur as [|[ty v] cur]; [done|]. simpl in Hcur. destruct ty; try done; by destruct Hcur as [?|[?|?]].
  - cbn [mbind list_bind]. rewrite <-app_assoc. cbn [app segment_loop type op].
    rewrite bool_decide_false by done.
    destruct (MAX_STAGES <=? S (length done)) eqn:Hm.
    + apply Nat.leb_le in Hm. rewrite decide_False by (simpl; lia). done.
    + apply Nat.leb_gt in Hm. rewrite segment_loop_command, IH by (rewrite length_app; simpl; lia).
      rewrite length_app. simpl. rewrite <-app_assoc. simpl.
      do 2 case_decide; try done; lia.
Qed.

Lemma segment_loop_line p cur :
  segment_end cur →
  segment_loop (pipeline_tokens p ++ cur) [] empty_stage
  = if decide (S (length (snd p)) ≤ MAX_STAGES)
    then Segment (pipeline_stages p) cur else SyntaxError.
Proof.
  intros Hcur. unfold pipeline_tokens. rewrite <-app_assoc, segment_loop_command.
  rewrite segment_loop_pipeline; [done|done|unfold MAX_STAGES; simpl; lia].
Qed.

Section Meaning.
Context {W : Type} `{!World W}.

(** A pipeline longer than the stage array is refused when its turn comes. *)
Definition eval_pipeline (p : pipeline) (bg : bool) (w : W) : W * bool :=
  if decide (S (length (snd p)) ≤ MAX_STAGES)
  then run_segment (pipeline_stages p) bg w
  else (w_print (lit "cshell: invalid syntax" ++ [NL]) w, false).

(** Pipelines run in order until one stops the line. *)
Fixpoint eval_line (l : line) (w : W) : W :=
  match l with
  | Last p bg => fst (eval_pipeline p bg w)
  | Seq p bg l =>
      let (w, go_on) := eval_pipeline p bg w in
      if go_on then eval_line l w else w
  end.

Lemma line_loop_eval l fuel w :
  length (line_tokens l) < fuel →
  line_loop fuel (line_tokens l ++ [op TOK_EOF]) w = (Ret (), eval_line l w).
Proof.
  revert fuel w. induction l as [p bg|p bg l IH]; intros fuel w Hf;
    (destruct fuel as [|fuel]; [lia|]); cbn [line_tokens eval_line] in *;
    rewrite <-app_assoc; cbn [line_loop];
    destruct (pipeline_tokens_head p) as (v & s & Hp).
  - rewrite bool_decide_false by (by rewrite Hp).
    replace (is_type TOK_EOF _) with false by (by rewrite Hp).
    rewrite segment_loop_line by (destruct bg; simpl; auto).
    unfold eval_pipeline. cbn [orb]. case_decide; [|done].
    replace (is_type TOK_AMP _) with bg by (by destruct bg).
    destruct (run_segment (pipeline_stages p) bg w) as [w' []]; [|done].
    destruct bg; [|done]. simpl.
    destruct fuel as [|fuel]; [|done].
    rewrite length_app in Hf. rewrite Hp in Hf. simpl in Hf. lia.
  - rewrite bool_decide_false by (by rewrite Hp).
    replace (is_type TOK_EOF _) with false by (by rewrite Hp).
    rewrite segment_loop_line by (destruct bg; simpl; auto).
    unfold eval_pipeline. cbn [orb]. case_decide; [|done].
    rewrite length_app in Hf; simpl in Hf.
    replace (is_type TOK_AMP _) with bg by (by destruct bg).
    destruct (run_segment (pipeline_stages p) bg w) as [w' []]; [|done].
    destruct bg; apply IH; lia.
Qed.

(** The printed form of a command line, as the user types it. *)
Definition line_text (l : line) : cstr := print_tokens (line_tokens l) ++ [NL].

(** A word that can be typed on one line. *)
Definition word_ok (v : cstr) : Prop := (NUL ∉ v) ∧ (NL ∉ v).
Definition item_word (i : item) : cstr :=
  match i with Arg w | In w | Out w | Append w => w end.
Definition command_wf (c : command) : Prop :=
  word_ok (name c) ∧ Forall (word_ok ∘ item_word) (items c).
Definition pipeline_wf (p : pipeline) : Prop :=
  command_wf (fst p) ∧ Forall command_wf (snd p).
Fixpoint line_wf (l : line) : Prop :=
  match l with
  | Last p _ => pipeline_wf p
  | Seq p _ l => pipeline_wf p ∧ line_wf l
  end.

(** A turn of the main loop that reads the line [l]: the messages of the
    background jobs, the prompt, and the meaning of the line. *)
Definition after_line (s : main_state (W := W)) (l : line) : main_state :=
  {| prev_ctrld := false;
     world := eval_line l (w_set_at_prompt true (w_flush_pending_bg_messages (world s))) |}.
End Meaning.

(** ** What the loop takes off the standard input *)
Lemma read_command_line s rest :
  NUL ∉ s → NL ∉ s → length (s ++ [NL]) < STRING_SIZE →
  read_command (s ++ [NL] ++ rest) = (GotLine (s ++ [NL]), rest).
Proof.
  intros H0 Hnl Hn. rewrite length_app in Hn. cbn [length] in Hn.
  unfold read_command. cbn [app]. rewrite fgets_line by (done || lia).
  destruct (s ++ [NL]) eqn:E; [by destruct s|]. rewrite <-E.
  rewrite c_string_id; [done|]. apply not_elem_of_app. split; [done|].
  by apply not_elem_of_cons; split; [|apply not_elem_of_nil].
Qed.

(** A line that does not fit is read as several: its first 4095 bytes are a
    command of their own. *)
Lemma long_lines_are_cut s rest :
  NUL ∉ s → NL ∉ s → length s = STRING_SIZE - 1 →
  read_command (s ++ rest) = (GotLine s, rest).
Proof.
  intros H0 Hnl Hn. unfold read_command. rewrite fgets_full by done.
  destruct s eqn:E; [discriminate|]. rewrite <-E in *. by rewrite c_string_id.
Qed.

Lemma word_wf v : word_ok v → token_wf (word v).
Proof. intros [H _]. by exists v. Qed.

Lemma command_tokens_wf c : command_wf c → Forall token_wf (command_tokens c).
Proof.
  intros [Hn Hi]. constructor; [by apply word_wf|].
  induction Hi as [|i its Hw _ IH]; [constructor|]. cbn. apply Forall_app. split; [|done].
  destruct i; repeat constructor; by apply word_wf.
Qed.

Lemma pipeline_tokens_wf p : pipeline_wf p → Forall token_wf (pipeline_tokens p).
Proof.
  intros [Hc Hcs]. apply Forall_app. split; [by apply command_tokens_wf|].
  induction Hcs as [|c cs Hw _ IH]; [constructor|]. cbn. constructor; [done|].
  apply (proj2 (Forall_app _ (command_tokens c) _)).
  split; [by apply command_tokens_wf|done].
Qed.

Lemma line_tokens_wf l : line_wf l → Forall token_wf (line_tokens l).
Proof.
  induction l as [p bg|p bg l IH]; cbn [line_tokens line_wf].
  - intros Hp. apply Forall_app. split; [by apply pipeline_tokens_wf|].
    destruct bg; repeat constructor.
  - intros [Hp Hl]. apply Forall_app. split; [by apply pipeline_tokens_wf|].
    constructor; [by destruct bg|auto].
Qed.

(** The printed line has no newline of its own. *)
Definition token_one_line (t : Token) : Prop :=
  match value t with Some v => NL ∉ v | None => True end.

Lemma item_tokens_one_line i :
  word_ok (item_word i) → Forall token_one_line (item_tokens i).
Proof. intros [_ H]. destruct i; repeat constructor; done. Qed.

Lemma command_tokens_one_line c :
  command_wf c → Forall token_one_line (command_tokens c).
Proof.
  intros [[_ Hn] Hi]. constructor; [done|].
  induction Hi as [|i its Hw _ IH]; [constructor|]. cbn. apply Forall_app.
  split; [by apply item_tokens_one_line|done].
Qed.

Lemma pipeline_tokens_one_line p :
  pipeline_wf p → Forall token_one_line (pipeline_tokens p).
Proof.
  intros [Hc Hcs]. apply Forall_app. split; [by apply command_tokens_one_line|].
  induction Hcs as [|c cs Hw _ IH]; [constructor|]. cbn. constructor; [done|].
  apply (proj2 (Forall_app _ (command_tokens c) _)).
  split; [by apply command_tokens_one_line|done].
Qed.

Lemma line_tokens_one_line l : line_wf l → Forall token_one_line (line_tokens l).
Proof.
  induction l as [p bg|p bg l IH]; cbn [line_tokens line_wf].
  - intros Hp. apply Forall_app. split; [by apply pipeline_tokens_one_line|].
    destruct bg; repeat constructor.
  - intros [Hp Hl]. apply Forall_app. split; [by apply pipeline_tokens_one_line|].
    constructor; [by destruct bg|auto].
Qed.

Lemma print_tokens_one_line ts : Forall token_one_line ts → NL ∉ print_tokens ts.
Proof.
  intros Hts (t & Ht & Hin)%list_elem_of_bind. rewrite Forall_forall in Hts.
  apply Hts in Hin. destruct t as [ty [v|]]; unfold token_one_line in Hin; cbn in Hin;
    destruct ty; cbn in Ht; try done; try (by not_in Ht).
  apply elem_of_app in Ht as [Ht|Ht%list_elem_of_singleton]; [|done].
  destruct v as [|c v]; unfold print_word in Ht; [by not_in Ht|].
  apply list_elem_of_bind in Ht as (a & Ha & Hv).
  apply elem_of_cons in Ha as [Ha|Ha%list_elem_of_singleton]; [done|by subst].
Qed.

Lemma read_line_text l rest :
  line_wf l → length (line_text l) < STRING_SIZE →
  read_command (line_text l ++ rest) = (GotLine (line_text l), rest).
Proof.
  intros Hwf Hl. unfold line_text in *. rewrite <-app_assoc. apply read_command_line; [..|done].
  - apply print_tokens_no_nul. by apply line_tokens_wf.
  - apply print_tokens_one_line. by apply line_tokens_one_line.
Qed.

Lemma strip_newline_snoc s : strip_newline (s ++ [NL]) = s.
Proof.
  unfold strip_newline. rewrite last_snoc, length_app. simpl.
  by rewrite Nat.add_sub, take_app_length.
Qed.

Lemma print_line_head l : ∃ s, print_tokens (line_tokens l) = SQ :: s ∨
  print_tokens (line_tokens l) = BSL :: s.
Proof.
  destruct (line_tokens_head l) as (v & s & ->).
  destruct v as [|c v]; eexists; [left|right]; reflexivity.
Qed.

(** ** Properties of the main loop *)

Lemma run_command_eval {W} `{!World W} (l : line) (w : W) :
  line_wf l → run_command (line_text l) w = (Ret Continue, eval_line l w).
Proof.
  intros Hwf. pose proof (line_tokens_wf l Hwf) as Hts.
  pose proof (print_line_head l) as [s Hhd].
  unfold run_command, line_text. rewrite strip_newline_snoc.
  unfold streq. rewrite bool_decide_false by (by destruct Hhd as [-> | ->]).
  rewrite lex_tokens by done.
  change {| chain := _; count := _ |} with (terminated (line_tokens l)).
  replace (parse_validate _) with true by (symmetry; apply parse_line).
  rewrite bool_decide_false by (by destruct Hhd as [-> | ->]).
  munfold. cbn [terminated chain]. rewrite line_loop_eval; [done|].
  rewrite length_app. simpl. lia.
Qed.


(** A world that records the calls it receives, in which a command named
    [false] fails. *)
Inductive event :=
  | EPrint (s : cstr)
  | EHangup
  | EBuiltin (n : cstr) (a : list cstr)
  | EExec (st : command_stage)
  | EPipeline (sts : list command_stage)
  | EBackground (sts : list command_stage).

#[local] Instance trace_world : World (list event) := {|
  w_print s w := w ++ [EPrint s];
  w_set_at_prompt _ w := w;
  w_set_fg_active _ w := w;
  w_flush_pending_bg_messages w := w;
  w_has_stopped_jobs w := true;
  w_hangup_all_jobs w := w ++ [EHangup];
  w_builtin n a w := w ++ [EBuiltin n a];
  w_execute_with_redirection st w :=
    (w ++ [EExec st], if streq (arg0 st) (lit "false") then (-1)%Z else 0%Z);
  w_execute_pipeline sts w := (w ++ [EPipeline sts], 0%Z);
  w_execute_background sts w := (w ++ [EBackground sts], 0%Z)
|}.

Definition cmd (n : string) (its : list item) : command :=
  {| name := lit n; items := its |}.

Definition sample_lines : list line :=
  [Seq (cmd "cat" [In (lit "f"); Arg (lit "-n")], []) false
     (Seq (cmd "hop" [Arg []; Out (lit "g")], []) true
        (Seq (cmd "false" [], []) false
           (Last (cmd "ls" [], []) false)));
   Last (cmd "ls" [Append (lit "g"); Out (lit "h")], [cmd "wc" []]) true].


(** every token list the syntax check accepts runs to its end: the loop
    over the segments never needs the fuel it has not got, and never
    dereferences a missing operand. *)
Theorem line_loop_total {W} `{!World W} (ts : list Token) (w : W) :
  Forall token_wf ts → parse_validate (terminated ts) = true →
  ∃ w', line_loop (S (length (chain (terminated ts)))) (chain (terminated ts)) w
        = (Ret (), w').
Proof.
  intros Hwf Hv. destruct ts as [|[ty val] ts]; [by eexists|].
  apply Forall_cons in Hwf as [Ht Hwf].
  destruct ty; cbn in Hv, Ht; try done. destruct Ht as (v & -> & _).
  destruct (validate_loop_line (S (length ts)) ts) with (v := v) as [l Hl];
    [lia|done|done|].
  exists (eval_line l w). unfold terminated, word in *. cbn [chain]. rewrite <-Hl.
  apply line_loop_eval. rewrite length_app. simpl. lia.
Qed.

Lemma line_loop_total_witness :
  parse_validate (terminated [word (lit "ls"); op TOK_AMP]) = true ∧
  ∃ w', line_loop (S (length (chain (terminated [word (lit "ls"); op TOK_AMP]))))
          (chain (terminated [word (lit "ls"); op TOK_AMP])) [] = (Ret (), w').
Proof.
  split; [vm_compute; reflexivity|].
  apply (line_loop_total [word (lit "ls"); op TOK_AMP]).
  - repeat constructor. exists (lit "ls"). split; [reflexivity|].
    apply (bool_decide_unpack _). vm_compute. exact I.
  - vm_compute. reflexivity.
Defined.

(** whatever the tokens, the stages of a segment fit their arrays: at most
    64 stages, each with at least one word, at most 99 words (room for the
    NULL) and 99 files of each kind, and one append flag per output file. *)
Theorem segment_in_bounds (cur : list Token) :
  match segment_loop cur [] empty_stage with
  | Segment stages _ =>
      length stages ≤ MAX_STAGES ∧
      Forall (λ st, stage_ok st ∧ args st ≠ []) stages
  | _ => True
  end.
Proof.
  apply (segment_loop_ok (S (length cur))); auto with shell; unfold MAX_STAGES;
    simpl; lia.
Qed.

(** the shell never exits without a hangup of its jobs, and a second
    end of input in a row always exits, stopped jobs or not. *)
Theorem exit_hangs_up {W} `{!World W} (s : main_state (W := W)) :
  (∀ i s', main_step i s = (Ret Exit, s') →
     ∃ msg w, world s' = w_print msg (w_hangup_all_jobs w)) ∧
  fst (main_loop [Eof; Eof] s) = Ret Exit.
Proof.
  split.
  - intros i s' H. destruct i as [command| |]; simpl in H; [| |].
    + unfold run_command in H. case_match eqn:Hr; simplify_eq/=.
      repeat case_match; simplify_eq/=; eauto; unfold mbind, M_bind in *;
        repeat case_match; simplify_eq/=.
    + done.
    + case_match; simplify_eq/=. eauto.
  - simpl. destruct (w_has_stopped_jobs _ && negb (prev_ctrld s)); [|done]. simpl.
    by rewrite andb_false_r.
Qed.

Lemma exit_hangs_up_witness :
  ∃ msg w, world (snd (main_step (GotLine (lit "exit()"))
                        {| prev_ctrld := false; world := [] |}))
           = w_print msg (w_hangup_all_jobs w).
Proof.
  destruct (exit_hangs_up {| prev_ctrld := false; world := [] : list event |}) as [H _].
  apply (H (GotLine (lit "exit()"))). vm_compute. reflexivity.
Defined.

(** Words after the 99th are dropped without a message. *)
Lemma long_commands_are_cut :
  args (command_stage_of (cmd "echo" (replicate 100 (Arg (lit "x")))))
  = lit "echo" :: replicate 98 (lit "x").
Proof. vm_compute. reflexivity. Qed.
