(* ===== verification/Jobs.v ===== *)
(** * Job control tables (c-shell/src/jobs.c)

    Three arrays with a fill count: background jobs, process groups and
    processes; a queue of messages about finished background jobs, filled by
    the SIGCHLD handler and emptied before a prompt.  Every operation but the
    flush blocks SIGCHLD, so it is one step of the state. *)

From S2P Require Import Prelude Clib.

Local Open Scope Z_scope.

Definition MAX_JOBS : Z := 4096.
Definition MAX_PENDING : Z := 256.
Definition MSG_LEN : Z := 256.
Definition MAX_PROCS : Z := 8192.

(** ** Data *)
Record bg_job := {
  bj_job_id : Z;
  bj_pid : Z;
  bj_cmd_name : cstr; (* char[256] *)
  bj_active : bool;
  bj_is_leader : bool;
}.

Record proc_group := {
  pg_pgid : Z;
  pg_job_id : Z;
  pg_cmd_name : cstr; (* char[256] *)
  pg_active : bool;
  pg_stopped : bool;
}.

Record proc_entry := {
  pe_pgid : Z;
  pe_pid : Z;
  pe_cmd_name : cstr; (* char[64] *)
  pe_active : bool;
}.

(** The static variables; an array is the list of its first [count] cells. *)
Record state := {
  jobs : list bg_job;
  next_job_number : Z;
  groups : list proc_group;
  procs : list proc_entry;
  fg_active : bool;
  at_prompt : bool;
  pending_msgs : list cstr;
  shell_pgid : Z;
  got_sigint : bool;
  (** the foreground process group of the terminal *)
  tty_pgrp : Z;
}.

Definition init_state : state := {|
  jobs := []; next_job_number := 1; groups := []; procs := [];
  fg_active := false; at_prompt := false; pending_msgs := []; shell_pgid := 0;
  got_sigint := false; tty_pgrp := 0 |}.

Definition set_jobs (s : state) (js : list bg_job) : state := {|
  jobs := js; next_job_number := next_job_number s; groups := groups s;
  procs := procs s; fg_active := fg_active s; at_prompt := at_prompt s;
  pending_msgs := pending_msgs s; shell_pgid := shell_pgid s;
  got_sigint := got_sigint s; tty_pgrp := tty_pgrp s |}.

Definition set_groups (s : state) (gs : list proc_group) (n : Z) : state := {|
  jobs := jobs s; next_job_number := n; groups := gs;
  procs := procs s; fg_active := fg_active s; at_prompt := at_prompt s;
  pending_msgs := pending_msgs s; shell_pgid := shell_pgid s;
  got_sigint := got_sigint s; tty_pgrp := tty_pgrp s |}.

Definition set_procs (s : state) (ps : list proc_entry) : state := {|
  jobs := jobs s; next_job_number := next_job_number s; groups := groups s;
  procs := ps; fg_active := fg_active s; at_prompt := at_prompt s;
  pending_msgs := pending_msgs s; shell_pgid := shell_pgid s;
  got_sigint := got_sigint s; tty_pgrp := tty_pgrp s |}.

Definition set_pending (s : state) (ms : list cstr) : state := {|
  jobs := jobs s; next_job_number := next_job_number s; groups := groups s;
  procs := procs s; fg_active := fg_active s; at_prompt := at_prompt s;
  pending_msgs := ms; shell_pgid := shell_pgid s;
  got_sigint := got_sigint s; tty_pgrp := tty_pgrp s |}.

Definition job_off (j : bg_job) : bg_job := {|
  bj_job_id := bj_job_id j; bj_pid := bj_pid j; bj_cmd_name := bj_cmd_name j;
  bj_active := false; bj_is_leader := bj_is_leader j |}.

Definition proc_off (p : proc_entry) : proc_entry := {|
  pe_pgid := pe_pgid p; pe_pid := pe_pid p; pe_cmd_name := pe_cmd_name p;
  pe_active := false |}.

Definition group_set (g : proc_group) (active stopped : bool) : proc_group := {|
  pg_pgid := pg_pgid g; pg_job_id := pg_job_id g; pg_cmd_name := pg_cmd_name g;
  pg_active := active; pg_stopped := stopped |}.

(** The first index whose cell satisfies a test. *)
Fixpoint find_index {A} (f : A → bool) (l : list A) : option nat :=
  match l with
  | [] => None
  | x :: l => if f x then Some 0%nat else S <$> find_index f l
  end.

(** Change the first cell that satisfies a test. *)
Definition update_first {A} (f : A → bool) (g : A → A) (l : list A) : list A :=
  match find_index f l with
  | Some i => alter g i l
  | None => l
  end.

(** ** Lookups and marks *)
Definition find_job_index_by_pid (s : state) (pid : Z) : option nat :=
  find_index (λ j, (bj_pid j =? pid) && bj_active j) (jobs s).

Definition mark_proc_exited (pid : Z) (s : state) : state :=
  set_procs s (update_first (λ p, (pe_pid p =? pid) && pe_active p) proc_off (procs s)).

(** ** The SIGCHLD handler *)
Inductive wait_status :=
  | Exited (code : Z)
  | Signaled (sig : Z)
  | Stopped (sig : Z).

Definition exit_message (cmd_name : cstr) (pid : Z) (status : wait_status)
    : option cstr :=
  match status with
  | Exited _ => Some (cmd_name ++ lit " with pid " ++ print_Z pid
                        ++ lit " exited normally" ++ [NL])
  | Signaled _ => Some (cmd_name ++ lit " with pid " ++ print_Z pid
                          ++ lit " exited abnormally" ++ [NL])
  | Stopped _ => None
  end.

(** The error of a copy of more bytes than the buffers have. *)
Inductive jobs_error := copy_overflow.

(** One child returned by waitpid. [snprintf] returns the length of the whole
    message, and [memcpy] copies that length and the terminator from and into
    arrays of [MSG_LEN] bytes. *)
Definition reap (pid : Z) (status : wait_status) : M state jobs_error () := λ s,
  let s := mark_proc_exited pid s in
  match find_job_index_by_pid s pid with
  | None => (Ret (), s)
  | Some idx =>
      let name := match jobs s !! idx with Some j => bj_cmd_name j | None => [] end in
      let s := set_jobs s (alter job_off idx (jobs s)) in
      match exit_message name pid status with
      | None => (Ret (), s)
      | Some msg =>
          if decide (Z.of_nat (length (pending_msgs s)) < MAX_PENDING) then
            if decide (Z.of_nat (length msg) + 1 <= MSG_LEN)
            then (Ret (), set_pending s (pending_msgs s ++ [msg]))
            else (Err copy_overflow, s)
          else (Ret (), s)
      end
  end.

(** The children the loop reaps, in order. *)
Fixpoint sigchld_handler (children : list (Z * wait_status)) : M state jobs_error () :=
  match children with
  | [] => mret ()
  | (pid, status) :: children => reap pid status ;; sigchld_handler children
  end.

(** ** Registration *)

(** The job id, or -1 when the table is full. *)
Definition job_add (pid : Z) (cmd_name : cstr) (s : state) : state * Z :=
  if decide (Z.of_nat (length (jobs s)) < MAX_JOBS) then
    (set_jobs s (jobs s ++ [{| bj_job_id := next_job_number s; bj_pid := pid;
       bj_cmd_name := strncpy_z 255 cmd_name; bj_active := true;
       bj_is_leader := true |}]),
     next_job_number s)
  else (s, -1).

Definition job_add_member_bg (job_id pid : Z) (s : state) : state :=
  if decide (Z.of_nat (length (jobs s)) < MAX_JOBS) then
    set_jobs s (jobs s ++ [{| bj_job_id := job_id; bj_pid := pid;
      bj_cmd_name := []; bj_active := true; bj_is_leader := false |}])
  else s.

Definition group_add (pgid : Z) (cmd_name : cstr) (s : state) : state :=
  if decide (Z.of_nat (length (groups s)) < MAX_JOBS) then
    set_groups s (groups s ++ [{| pg_pgid := pgid; pg_job_id := next_job_number s;
      pg_cmd_name := strncpy_z 255 cmd_name; pg_active := true;
      pg_stopped := false |}]) (next_job_number s + 1)
  else s.

Definition group_add_member (pgid pid : Z) (cmd_name : cstr) (s : state) : state :=
  if decide (Z.of_nat (length (procs s)) < MAX_PROCS) then
    set_procs s (procs s ++ [{| pe_pgid := pgid; pe_pid := pid;
      pe_cmd_name := strncpy_z 63 cmd_name; pe_active := true |}])
  else s.

Definition set_fg_active (active : bool) (s : state) : state := {|
  jobs := jobs s; next_job_number := next_job_number s; groups := groups s;
  procs := procs s; fg_active := active; at_prompt := at_prompt s;
  pending_msgs := pending_msgs s; shell_pgid := shell_pgid s;
  got_sigint := got_sigint s; tty_pgrp := tty_pgrp s |}.

Definition set_at_prompt (flag : bool) (s : state) : state := {|
  jobs := jobs s; next_job_number := next_job_number s; groups := groups s;
  procs := procs s; fg_active := fg_active s; at_prompt := flag;
  pending_msgs := pending_msgs s; shell_pgid := shell_pgid s;
  got_sigint := got_sigint s; tty_pgrp := tty_pgrp s |}.

(** What is written, and the emptied queue. *)
Definition flush_pending_bg_messages (s : state) : state * cstr :=
  match pending_msgs s with
  | [] => (s, [])
  | ms => (set_pending s [], NL :: concat ms)
  end.

(** ** Groups *)
Definition is_group (pgid : Z) (g : proc_group) : bool :=
  (pg_pgid g =? pgid) && pg_active g.

Definition mark_group_stopped (pgid : Z) (s : state) : state * Z :=
  match find_index (is_group pgid) (groups s) with
  | Some i =>
      (set_groups s (alter (λ g, group_set g (pg_active g) true) i (groups s))
         (next_job_number s),
       match groups s !! i with Some g => pg_job_id g | None => -1 end)
  | None => (s, -1)
  end.

Definition mark_group_running (pgid : Z) (s : state) : state :=
  set_groups s (update_first (is_group pgid) (λ g, group_set g (pg_active g) false)
                  (groups s)) (next_job_number s).

Definition has_stopped_jobs (s : state) : bool :=
  existsb (λ g, pg_active g && pg_stopped g) (groups s).

(** The process groups that are sent SIGHUP. *)
Definition hangup_all_jobs (s : state) : list Z :=
  pg_pgid <$> filter (λ g, pg_active g = true) (groups s).

(** [None] is the 0 return; the name is that of the first process ever
    registered with the group, cut to [cmd_name_len - 1] bytes. *)
Definition group_lookup (job_id : Z) (cmd_name_len : nat) (s : state)
    : option (Z * bool * cstr) :=
  match find_index (λ g, pg_active g && (pg_job_id g =? job_id)) (groups s) with
  | Some i =>
      match groups s !! i with
      | Some g =>
          let name :=
            match find_index (λ p, pe_pgid p =? pg_pgid g) (procs s) with
            | Some k => match procs s !! k with
                        | Some p => strncpy_z (cmd_name_len - 1) (pe_cmd_name p)
                        | None => []
                        end
            | None => []
            end in
          Some (pg_pgid g, pg_stopped g, name)
      | None => None
      end
  | None => None
  end.

Definition group_remove (pgid : Z) (s : state) : state :=
  let s := set_groups s
    (update_first (is_group pgid) (λ g, group_set g false (pg_stopped g)) (groups s))
    (next_job_number s) in
  set_procs s ((λ p, if pe_pgid p =? pgid then proc_off p else p) <$> procs s).

Definition pid_is_tracked (pid : Z) (s : state) : bool :=
  existsb (λ p, (pe_pid p =? pid) && pe_active p) (procs s).

(** ** The terminal *)
Definition set_tty (s : state) (shell pgrp : Z) (sigint : bool) : state := {|
  jobs := jobs s; next_job_number := next_job_number s; groups := groups s;
  procs := procs s; fg_active := fg_active s; at_prompt := at_prompt s;
  pending_msgs := pending_msgs s; shell_pgid := shell;
  got_sigint := sigint; tty_pgrp := pgrp |}.

(** The shell becomes the leader of its own group and takes the terminal. *)
Definition terminal_init (shell_pid : Z) (s : state) : state :=
  set_tty s shell_pid shell_pid (got_sigint s).

Definition give_terminal_to (pgid : Z) (s : state) : state :=
  set_tty s (shell_pgid s) pgid (got_sigint s).

Definition reclaim_terminal (s : state) : state :=
  set_tty s (shell_pgid s) (shell_pgid s) (got_sigint s).

Definition sigint_handler (s : state) : state * cstr :=
  (set_tty s (shell_pgid s) (tty_pgrp s) true, lit "^C" ++ [NL]).

Definition sigtstp_handler (s : state) : state * cstr := (s, lit "^Z" ++ [NL]).

(** ** The activities builtin *)
Section Activities.
(** The first line of [/proc/<pid>/stat], for the processes that exist while
    the command runs. *)
Context (read_stat : Z → option cstr).

(** The state letter; [NUL] for a process that is gone. *)
Definition proc_state (pid : Z) : ascii :=
  match read_stat pid with
  | None => NUL
  | Some line =>
      match strrchr ")" (take 511 line) with
      | Some (_ :: _ :: c :: _) => c
      | _ => NUL
      end
  end.

Definition proc_live (pid : Z) : bool :=
  negb (Ascii.eqb (proc_state pid) NUL) && negb (Ascii.eqb (proc_state pid) "Z").

(** The members of group [g]: the new table and what is printed. *)
Fixpoint print_members (g : proc_group) (ps : list proc_entry)
    : list proc_entry * cstr :=
  match ps with
  | [] => ([], [])
  | p :: ps =>
      let (ps', out) := print_members g ps in
      if negb (pe_pgid p =? pg_pgid g) || negb (pe_active p) then (p :: ps', out)
      else if negb (proc_live (pe_pid p)) then (proc_off p :: ps', out)
      else
        let state_str :=
          if Ascii.eqb (proc_state (pe_pid p)) "T" || pg_stopped g
          then lit "Stopped" else lit "Running" in
        (p :: ps',
         lit "  " ++ print_Z (pe_pid p) ++ [SP] ++ pe_cmd_name p ++ [SP]
           ++ state_str ++ [NL] ++ out)
  end.

Definition has_live (g : proc_group) (ps : list proc_entry) : bool :=
  existsb (λ p, (pe_pgid p =? pg_pgid g) && pe_active p && proc_live (pe_pid p)) ps.

Fixpoint print_groups (gs : list proc_group) (ps : list proc_entry)
    : list proc_group * list proc_entry * cstr :=
  match gs with
  | [] => ([], ps, [])
  | g :: gs =>
      if negb (pg_active g) then
        let '(gs', ps', out) := print_groups gs ps in (g :: gs', ps', out)
      else if negb (has_live g ps) then
        let '(gs', ps', out) := print_groups gs ps in
        (group_set g false (pg_stopped g) :: gs', ps', out)
      else
        let (ps, members) := print_members g ps in
        let '(gs', ps', out) := print_groups gs ps in
        (g :: gs', ps',
         lit "[" ++ print_Z (pg_job_id g) ++ lit "] pgid " ++ print_Z (pg_pgid g)
           ++ [NL] ++ members ++ out)
  end.

Definition activities_print (s : state) : state * cstr :=
  let '(gs, ps, out) := print_groups (groups s) (procs s) in
  (set_procs (set_groups s gs (next_job_number s)) ps, out).
End Activities.

(** ** Runs

    Any interleaving of the operations, from the initial state.  SIGCHLD is
    blocked inside an operation other than the flush, so the handler is an
    operation of its own; when it interrupts the flush, the messages it queues
    are lost in [FlushEnd].  A run stops at the first copy of a message that
    does not fit. *)
Inductive op :=
  | SigChld (children : list (Z * wait_status))
  | JobAdd (pid : Z) (cmd_name : cstr)
  | JobAddMemberBg (job_id pid : Z)
  | GroupAdd (pgid : Z) (cmd_name : cstr)
  | GroupAddMember (pgid pid : Z) (cmd_name : cstr)
  | SetFgActive (active : bool)
  | SetAtPrompt (flag : bool)
  | Flush
  | FlushEnd
  | MarkGroupStopped (pgid : Z)
  | MarkGroupRunning (pgid : Z)
  | GroupRemove (pgid : Z)
  | Activities (read_stat : Z → option cstr)
  | TerminalInit (shell_pid : Z)
  | GiveTerminalTo (pgid : Z)
  | ReclaimTerminal
  | SigInt.

(** The new tables of an operation that cannot fail. *)
Definition op_state (o : op) (s : state) : state :=
  match o with
  | SigChld _ => s
  | JobAdd pid n => fst (job_add pid n s)
  | JobAddMemberBg id pid => job_add_member_bg id pid s
  | GroupAdd pgid n => group_add pgid n s
  | GroupAddMember pgid pid n => group_add_member pgid pid n s
  | SetFgActive b => set_fg_active b s
  | SetAtPrompt b => set_at_prompt b s
  | Flush => fst (flush_pending_bg_messages s)
  | FlushEnd => set_pending s []
  | MarkGroupStopped pgid => fst (mark_group_stopped pgid s)
  | MarkGroupRunning pgid => mark_group_running pgid s
  | GroupRemove pgid => group_remove pgid s
  | Activities read => fst (activities_print read s)
  | TerminalInit pid => terminal_init pid s
  | GiveTerminalTo pgid => give_terminal_to pgid s
  | ReclaimTerminal => reclaim_terminal s
  | SigInt => fst (sigint_handler s)
  end.

Definition exec_op (o : op) : M state jobs_error () :=
  match o with
  | SigChld children => sigchld_handler children
  | _ => modify (op_state o)
  end.

Fixpoint exec_ops (ops : list op) : M state jobs_error () :=
  match ops with
  | [] => mret ()
  | o :: ops => exec_op o ;; exec_ops ops
  end.

Definition step (s s' : state) : Prop := ∃ o, exec_op o s = (Ret (), s').

Lemma step_sigchld children s s' : sigchld_handler children s = (Ret (), s') → step s s'.
Proof. intros H. by exists (SigChld children). Qed.

Lemma step_op o s : (∀ children, o ≠ SigChld children) → step s (op_state o s).
Proof. intros H. exists o. destruct o; try done. by destruct (H children). Qed.

Lemma step_set_fg_active b s : step s (set_fg_active b s).
Proof. by apply (step_op (SetFgActive b)). Qed.

Lemma step_set_at_prompt b s : step s (set_at_prompt b s).
Proof. by apply (step_op (SetAtPrompt b)). Qed.

Lemma step_flush s : step s (fst (flush_pending_bg_messages s)).
Proof. by apply (step_op Flush). Qed.

Lemma step_mark_group_stopped pgid s : step s (fst (mark_group_stopped pgid s)).
Proof. by apply (step_op (MarkGroupStopped pgid)). Qed.

Lemma step_mark_group_running pgid s : step s (mark_group_running pgid s).
Proof. by apply (step_op (MarkGroupRunning pgid)). Qed.

Lemma step_group_remove pgid s : step s (group_remove pgid s).
Proof. by apply (step_op (GroupRemove pgid)). Qed.

Lemma step_give_terminal_to pgid s : step s (give_terminal_to pgid s).
Proof. by apply (step_op (GiveTerminalTo pgid)). Qed.

Lemma step_reclaim_terminal s : step s (reclaim_terminal s).
Proof. by apply (step_op ReclaimTerminal). Qed.

Inductive reachable : state → Prop :=
  | reachable_init : reachable init_state
  | reachable_step s s' : reachable s → step s s' → reachable s'.

(** ** Table lemmas *)
Lemma fmap_alter_same {A B} (f : A → B) (g : A → A) (i : nat) (l : list A) :
  (∀ x, f (g x) = f x) → f <$> alter g i l = f <$> l.
Proof.
  intros Hf. revert i. induction l as [|x l IH]; intros [|i]; try done; cbn.
  - by rewrite Hf.
  - f_equal. apply IH.
Qed.

Lemma fmap_update_first_same {A B} (f : A → B) t (g : A → A) (l : list A) :
  (∀ x, f (g x) = f x) → f <$> update_first t g l = f <$> l.
Proof.
  intros Hf. unfold update_first. destruct (find_index t l); [|done].
  by apply fmap_alter_same.
Qed.

Lemma find_index_Some {A} (t : A → bool) (l : list A) i :
  find_index t l = Some i →
  (∃ x, l !! i = Some x ∧ t x = true) ∧ ∀ j y, (j < i)%nat → l !! j = Some y → t y = false.
Proof.
  revert i. induction l as [|x l IH]; intros i H; [done|]. simpl in H.
  destruct (t x) eqn:Ht.
  - simplify_eq. split; [by exists x|]. intros; lia.
  - destruct (find_index t l) as [k|]; [|done]. simplify_eq/=.
    destruct (IH k eq_refl) as [Hx Hy]. split; [done|].
    intros [|j] y Hj Hl; [by simplify_eq/=|]. eapply Hy; [|done]. lia.
Qed.

Lemma find_index_None {A} (t : A → bool) (l : list A) :
  find_index t l = None ↔ ∀ x, x ∈ l → t x = false.
Proof.
  induction l as [|x l IH]; simpl.
  { split; [by intros _ x ?%elem_of_nil|done]. }
  destruct (t x) eqn:Ht.
  - split; [done|]. intros H. rewrite H in Ht; [done|by left].
  - destruct (find_index t l) as [k|]; simpl.
    + split; [done|]. intros H. destruct IH as [_ IH]. exfalso.
      discriminate IH. intros y Hy. apply H. by right.
    + split; [|done]. intros _ y [->|Hy]%elem_of_cons; [done|]. by apply IH.
Qed.

(** ** The invariant of the tables *)
Definition job_names (s : state) : list cstr := bj_cmd_name <$> jobs s.
Definition group_names (s : state) : list cstr := pg_cmd_name <$> groups s.
Definition proc_names (s : state) : list cstr := pe_cmd_name <$> procs s.
Definition fits (n : nat) (l : list cstr) : Prop := Forall (λ c, (length c ≤ n)%nat) l.

Record inv (s : state) : Prop := {
  inv_jobs : Z.of_nat (length (job_names s)) ≤ MAX_JOBS;
  inv_groups : Z.of_nat (length (group_names s)) ≤ MAX_JOBS;
  inv_procs : Z.of_nat (length (proc_names s)) ≤ MAX_PROCS;
  inv_pending : Z.of_nat (length (pending_msgs s)) ≤ MAX_PENDING;
  inv_msgs : Forall (λ m, Z.of_nat (length m) + 1 ≤ MSG_LEN) (pending_msgs s);
  inv_job_names : fits 255 (job_names s);
  inv_group_names : fits 255 (group_names s);
  inv_proc_names : fits 63 (proc_names s);
  inv_ids : pg_job_id <$> groups s = seqZ 1 (Z.of_nat (length (groups s)));
  inv_next : next_job_number s = 1 + Z.of_nat (length (groups s));
}.

Lemma inv_ext s s' :
  inv s → job_names s' = job_names s → group_names s' = group_names s →
  proc_names s' = proc_names s → pending_msgs s' = pending_msgs s →
  pg_job_id <$> groups s' = pg_job_id <$> groups s →
  next_job_number s' = next_job_number s → inv s'.
Proof.
  intros [] Hj Hg Hp Hm Hi Hn.
  assert (Hl : length (groups s') = length (groups s))
    by (by rewrite <-(length_fmap pg_job_id (groups s')), Hi, length_fmap).
  split; rewrite ?Hj, ?Hg, ?Hp, ?Hm, ?Hi, ?Hn, ?Hl; done.
Qed.

Lemma fits_snoc n l c : fits n l → fits n (l ++ [take n c]).
Proof.
  intros H. apply Forall_app. split; [done|]. constructor; [|constructor].
  rewrite length_take. lia.
Qed.

Lemma mark_proc_exited_inv s pid : inv s → inv (mark_proc_exited pid s).
Proof.
  intros H. eapply inv_ext; try done. unfold proc_names, mark_proc_exited. simpl.
  by apply fmap_update_first_same.
Qed.

Lemma reap_inv pid status s : inv s → inv (snd (reap pid status s)).
Proof.
  intros H%(mark_proc_exited_inv _ pid). unfold reap.
  destruct (find_job_index_by_pid _ pid) as [idx|]; [|done].
  set (s1 := set_jobs _ _). assert (H1 : inv s1).
  { eapply inv_ext; try done. by apply fmap_alter_same. }
  destruct (exit_message _ pid status) as [msg|]; [|done].
  repeat case_decide; try done. cbn [snd].
  destruct H1. split; try done; simpl in *.
  - rewrite length_app. simpl. unfold MAX_PENDING in *. lia.
  - apply Forall_app. auto.
Qed.

Lemma sigchld_handler_inv children s : inv s → inv (snd (sigchld_handler children s)).
Proof.
  revert s. induction children as [|[pid status] children IH]; intros s H; [done|].
  apply (reap_inv pid status) in H. simpl. unfold mbind, M_bind.
  destruct (reap pid status s) as [[[]|e|] s1]; [by apply IH|done..].
Qed.

Lemma sigchld_never_waits children s s' : sigchld_handler children s ≠ (NoFuel, s').
Proof.
  revert s. induction children as [|[pid status] children IH]; intros s H; [done|].
  simpl in H. unfold mbind, M_bind in H.
  destruct (reap pid status s) as [[[]|e|] s1] eqn:E; try done; [by eapply IH|].
  unfold reap in E. repeat case_match; simplify_eq.
Qed.

Lemma print_members_same read g ps :
  pe_cmd_name <$> fst (print_members read g ps) = pe_cmd_name <$> ps.
Proof.
  induction ps as [|p ps IH]; [done|]. simpl.
  destruct (print_members read g ps) as [ps' out]. simpl in IH.
  repeat case_match; cbn [fst]; rewrite !fmap_cons, IH; done.
Qed.

Lemma print_groups_same read gs ps :
  let r := print_groups read gs ps in
  pg_cmd_name <$> fst (fst r) = pg_cmd_name <$> gs ∧
  pg_job_id <$> fst (fst r) = pg_job_id <$> gs ∧
  pe_cmd_name <$> snd (fst r) = pe_cmd_name <$> ps.
Proof.
  revert ps. induction gs as [|g gs IH]; intros ps; [done|]. simpl.
  destruct (print_members read g ps) as [ps1 out1] eqn:E.
  pose proof (print_members_same read g ps) as Hm. rewrite E in Hm. simpl in Hm.
  destruct (IH ps) as (H1 & H2 & H3). destruct (IH ps1) as (H4 & H5 & H6).
  destruct (print_groups read gs ps) as [[gs' ps'] out].
  destruct (print_groups read gs ps1) as [[gs2 ps2] out2]. simpl in *.
  repeat case_match; cbn [fst snd]; rewrite ?fmap_cons, ?H1, ?H2, ?H4, ?H5;
    split_and!; try done; by rewrite H6.
Qed.

Lemma exec_op_inv o s : inv s → inv (snd (exec_op o s)).
Proof.
  intros H. destruct o as [children|pid n|id pid|pgid n|pgid pid n| | | | |pgid
    |pgid|pgid|read| | | |]; cbn [exec_op op_state snd modify].
  - by apply sigchld_handler_inv.
  - unfold job_add. case_decide; [|done]. destruct H. split; try done; simpl in *;
      unfold job_names in *; simpl; rewrite fmap_app.
    + rewrite length_app, length_fmap. simpl. unfold MAX_JOBS in *. lia.
    + by apply fits_snoc.
  - unfold job_add_member_bg. case_decide; [|done]. destruct H. split; try done;
      unfold job_names in *; simpl in *; rewrite fmap_app.
    + rewrite length_app, length_fmap. simpl. unfold MAX_JOBS in *. lia.
    + by apply (fits_snoc 255 _ []).
  - unfold group_add. case_decide; [|done]. destruct H. split; try done;
      unfold group_names in *; simpl in *; rewrite ?fmap_app.
    + rewrite length_app, length_fmap. simpl. unfold MAX_JOBS in *. lia.
    + by apply fits_snoc.
    + rewrite inv_ids0, length_app. simpl. rewrite inv_next0, Nat2Z.inj_add.
      rewrite (seqZ_app 1 _ 1) by lia. done.
    + rewrite length_app. simpl. lia.
  - unfold group_add_member. case_decide; [|done]. destruct H. split; try done;
      unfold proc_names in *; simpl in *; rewrite fmap_app.
    + rewrite length_app, length_fmap. simpl. unfold MAX_PROCS in *. lia.
    + by apply fits_snoc.
  - by eapply inv_ext.
  - by eapply inv_ext.
  - unfold flush_pending_bg_messages. destruct (pending_msgs s) eqn:E; [done|].
    destruct H. split; try done.
  - destruct H. split; try done.
  - unfold mark_group_stopped. destruct (find_index _ _); [|done].
    eapply inv_ext; try done; by apply fmap_alter_same.
  - eapply inv_ext; try done; by apply fmap_update_first_same.
  - eapply inv_ext; try done; try (by apply fmap_update_first_same).
    unfold proc_names, group_remove. simpl. rewrite <-list_fmap_compose.
    apply list_fmap_ext. intros _ p _. simpl. by case_match.
  - unfold activities_print. pose proof (print_groups_same read (groups s) (procs s)) as Hp.
    destruct (print_groups read (groups s) (procs s)) as [[gs ps] out]. simpl in *.
    destruct Hp as (H1 & H2 & H3). by eapply inv_ext.
  - by eapply inv_ext.
  - by eapply inv_ext.
  - by eapply inv_ext.
  - by eapply inv_ext.
Qed.

Lemma init_inv : inv init_state.
Proof. split; try done; repeat constructor. Qed.

Lemma reachable_inv s : reachable s → inv s.
Proof.
  induction 1 as [|s s' _ IH [o Ho]]; [apply init_inv|].
  apply (exec_op_inv o) in IH. by rewrite Ho in IH.
Qed.

Lemma exec_ops_inv ops s : inv s → inv (snd (exec_ops ops s)).
Proof.
  revert s. induction ops as [|o ops IH]; intros s H; [done|].
  apply (exec_op_inv o) in H. simpl. unfold mbind, M_bind.
  destruct (exec_op o s) as [[[]|e|] s1]; [by apply IH|done..].
Qed.

(** ** What activities shows *)
Section ActivitiesSpec.
Context (read_stat : Z → option cstr).

(** The members of [g] that are listed. *)
Definition listed (g : proc_group) (p : proc_entry) : bool :=
  (pe_pgid p =? pg_pgid g) && pe_active p && proc_live read_stat (pe_pid p).

Definition member_line (g : proc_group) (p : proc_entry) : option cstr :=
  if listed g p then
    Some (lit "  " ++ print_Z (pe_pid p) ++ [SP] ++ pe_cmd_name p ++ [SP] ++
          (if Ascii.eqb (proc_state read_stat (pe_pid p)) "T" || pg_stopped g
           then lit "Stopped" else lit "Running") ++ [NL])
  else None.

Definition group_text (ps : list proc_entry) (g : proc_group) : cstr :=
  if pg_active g && existsb (listed g) ps then
    lit "[" ++ print_Z (pg_job_id g) ++ lit "] pgid " ++ print_Z (pg_pgid g)
      ++ [NL] ++ concat (omap (member_line g) ps)
  else [].

(** The tables afterwards: a group without a listed member is dropped, and
    so is a dead member of a group that was printed. *)
Definition group_after (ps : list proc_entry) (g : proc_group) : proc_group :=
  if pg_active g && negb (existsb (listed g) ps)
  then group_set g false (pg_stopped g) else g.

Definition dead_member (g : proc_group) (p : proc_entry) : bool :=
  (pe_pgid p =? pg_pgid g) && pe_active p && negb (proc_live read_stat (pe_pid p)).

Definition proc_after (g : proc_group) (p : proc_entry) : proc_entry :=
  if dead_member g p then proc_off p else p.

Lemma print_members_spec g ps :
  print_members read_stat g ps
  = (proc_after g <$> ps, concat (omap (member_line g) ps)).
Proof.
  induction ps as [|p ps IH]; [done|]. cbn [print_members]. rewrite IH.
  rewrite fmap_cons. cbn [omap list_omap].
  generalize (proc_after g <$> ps) (omap (member_line g) ps). intros ps' lines.
  unfold proc_after, dead_member, member_line, listed.
  destruct (pe_pgid p =? pg_pgid g), (pe_active p), (proc_live read_stat (pe_pid p));
    try done.
  cbn [negb orb andb concat fst]. by rewrite <-!app_assoc.
Qed.

Lemma listed_proc_after g g' p : listed g (proc_after g' p) = listed g p.
Proof.
  unfold proc_after. destruct (dead_member g' p) eqn:E; [|done].
  unfold dead_member, listed in *. destruct (proc_live read_stat (pe_pid p)) eqn:El; simpl in *.
  - by rewrite andb_false_r in E.
  - rewrite El. by rewrite !andb_false_r.
Qed.

Lemma existsb_proc_after g g' (ps : list proc_entry) :
  existsb (listed g) (proc_after g' <$> ps) = existsb (listed g) ps.
Proof. induction ps as [|p ps IH]; [done|]. cbn. by rewrite listed_proc_after, IH. Qed.

Lemma member_lines_proc_after g g' (ps : list proc_entry) :
  omap (member_line g) (proc_after g' <$> ps) = omap (member_line g) ps.
Proof.
  induction ps as [|p ps IH]; [done|]. cbn [fmap list_fmap omap list_omap].
  assert (member_line g (proc_after g' p) = member_line g p) as ->.
  { unfold member_line. rewrite listed_proc_after.
    unfold proc_after. by destruct (dead_member g' p). }
  by destruct (member_line g p); rewrite IH.
Qed.

Lemma group_text_proc_after ps g' g :
  group_text (proc_after g' <$> ps) g = group_text ps g.
Proof.
  unfold group_text. by rewrite existsb_proc_after, member_lines_proc_after.
Qed.

Lemma group_after_proc_after ps g' g :
  group_after (proc_after g' <$> ps) g = group_after ps g.
Proof. unfold group_after. by rewrite existsb_proc_after. Qed.

Lemma print_groups_spec gs ps :
  let r := print_groups read_stat gs ps in
  fst (fst r) = group_after ps <$> gs ∧
  snd (fst r) = foldl (λ ps g, if pg_active g && existsb (listed g) ps
                               then proc_after g <$> ps else ps) ps gs ∧
  snd r = concat (group_text ps <$> gs).
Proof.
  revert ps. induction gs as [|g gs IH]; intros ps; [done|].
  cbn [print_groups foldl]. rewrite !fmap_cons. unfold has_live.
  change (λ p, (pe_pgid p =? pg_pgid g) && pe_active p && proc_live read_stat (pe_pid p))
    with (listed g).
  unfold group_after at 1, group_text at 1.
  destruct (pg_active g); [destruct (existsb (listed g) ps)|];
    cbn [negb andb].
  - rewrite print_members_spec. destruct (IH (proc_after g <$> ps)) as (H1 & H2 & H3).
    destruct (print_groups read_stat gs (proc_after g <$> ps)) as [[gs' ps'] out].
    cbn [fst snd] in *. split_and!; [|done|].
    + rewrite H1. f_equal. apply list_fmap_ext. intros. apply group_after_proc_after.
    + rewrite H3. cbn [concat]. rewrite <-!app_assoc. do 6 f_equal. f_equal.
      apply list_fmap_ext. intros. apply group_text_proc_after.
  - destruct (IH ps) as (H1 & H2 & H3).
    destruct (print_groups read_stat gs ps) as [[gs' ps'] out]. cbn [fst snd] in *.
    by subst.
  - destruct (IH ps) as (H1 & H2 & H3).
    destruct (print_groups read_stat gs ps) as [[gs' ps'] out]. cbn [fst snd] in *.
    by subst.
Qed.
End ActivitiesSpec.

(** ** Lengths of the messages *)
Lemma exit_message_length name pid status msg :
  0 ≤ pid < 10000000 → exit_message name pid status = Some msg →
  (length msg ≤ length name + 36)%nat.
Proof.
  intros Hp H. pose proof (print_Z_length pid 7 ltac:(simpl; lia) ltac:(lia)).
  destruct status; simplify_eq/=; rewrite !length_app; simpl; rewrite !length_app; simpl; lia.
Qed.

Lemma reap_ok pid status s :
  0 ≤ pid < 10000000 → Forall (λ c, (length c ≤ 219)%nat) (job_names s) →
  ∃ s', reap pid status s = (Ret (), s') ∧ job_names s' = job_names s.
Proof.
  intros Hp Hn. unfold reap.
  destruct (find_job_index_by_pid _ pid) as [idx|]; [|by eexists].
  set (s1 := set_jobs _ _).
  assert (Hj : job_names s1 = job_names s) by (by apply fmap_alter_same).
  destruct (exit_message _ pid status) as [msg|] eqn:Hm; [|by eexists].
  case_decide; [|by eexists]. rewrite decide_True; [by eexists|].
  apply exit_message_length in Hm; [|done]. unfold MSG_LEN.
  assert (length match jobs (mark_proc_exited pid s) !! idx with
                 | Some j => bj_cmd_name j | None => [] end ≤ 219)%nat; [|lia].
  destruct (jobs (mark_proc_exited pid s) !! idx) as [j|] eqn:Ej; [|simpl; lia].
  rewrite Forall_forall in Hn. apply Hn. apply list_elem_of_fmap_2.
  by eapply list_elem_of_lookup_2.
Qed.

(** ** Launching a background command

    The registrations of [execute_background] (redirect.c) for one command. *)
Definition register_background (pid : Z) (cmdline : cstr) (s : state) : state * Z :=
  let (s, job_id) := job_add pid cmdline s in
  let s := group_add pid cmdline s in
  (group_add_member pid pid cmdline s, job_id).

Lemma find_index_snoc {A} (t : A → bool) (l : list A) x :
  (∀ y, y ∈ l → t y = false) → t x = true → find_index t (l ++ [x]) = Some (length l).
Proof.
  intros Hl Hx. induction l as [|y l IH]; simpl; [by rewrite Hx|].
  rewrite (Hl y) by (by left). rewrite IH; [done|]. intros z Hz. apply Hl. by right.
Qed.

Lemma inv_job_id_bound s g : inv s → g ∈ groups s → 1 ≤ pg_job_id g < next_job_number s.
Proof.
  intros H Hg. apply (list_elem_of_fmap_2 pg_job_id) in Hg.
  rewrite (inv_ids s H), elem_of_seqZ in Hg. rewrite (inv_next s H). lia.
Qed.

Lemma fresh_group_lookup s gs ps g p n :
  groups s = gs ++ [g] → procs s = ps ++ [p] →
  (∀ g', g' ∈ gs → pg_job_id g' ≠ pg_job_id g) → pg_active g = true →
  (∀ p', p' ∈ ps → pe_pgid p' ≠ pg_pgid g) → pe_pgid p = pg_pgid g →
  group_lookup (pg_job_id g) n s
  = Some (pg_pgid g, pg_stopped g, take (n - 1) (pe_cmd_name p)).
Proof.
  intros Hg Hp Hid Ha Hpg Hpp. unfold group_lookup. rewrite Hg, Hp.
  rewrite find_index_snoc.
  - rewrite list_lookup_middle by done. rewrite find_index_snoc.
    + by rewrite list_lookup_middle.
    + intros p' Hp'. apply Z.eqb_neq, Hpg, Hp'.
    + by apply Z.eqb_eq.
  - intros g' Hg'. apply Hid in Hg'. apply Z.eqb_neq in Hg'. by rewrite Hg', andb_false_r.
  - by rewrite Ha, Z.eqb_refl.
Qed.

Lemma alter_snoc {A} (f : A → A) (l : list A) x : alter f (length l) (l ++ [x]) = l ++ [f x].
Proof. induction l as [|y l IH]; [done|]. cbn. f_equal. apply IH. Qed.

(** What a registration writes, when the three tables have room. *)
Definition new_job (n pid : Z) (c : cstr) : bg_job :=
  {| bj_job_id := n; bj_pid := pid; bj_cmd_name := strncpy_z 255 c;
     bj_active := true; bj_is_leader := true |}.

Definition new_group (n pid : Z) (c : cstr) : proc_group :=
  {| pg_pgid := pid; pg_job_id := n; pg_cmd_name := strncpy_z 255 c;
     pg_active := true; pg_stopped := false |}.

Definition new_proc (pid : Z) (c : cstr) : proc_entry :=
  {| pe_pgid := pid; pe_pid := pid; pe_cmd_name := strncpy_z 63 c; pe_active := true |}.

Lemma register_background_eq (s : state) (pid : Z) (c : cstr) :
  Z.of_nat (length (jobs s)) < MAX_JOBS → Z.of_nat (length (groups s)) < MAX_JOBS →
  Z.of_nat (length (procs s)) < MAX_PROCS →
  register_background pid c s =
  (set_procs (set_groups (set_jobs s (jobs s ++ [new_job (next_job_number s) pid c]))
     (groups s ++ [new_group (next_job_number s) pid c]) (next_job_number s + 1))
     (procs s ++ [new_proc pid c]), next_job_number s).
Proof.
  intros Hj Hg Hp. unfold register_background, job_add. rewrite decide_True by done.
  unfold group_add. rewrite decide_True by done.
  unfold group_add_member. by rewrite decide_True by done.
Qed.

(** The operations after which the messages fit: names of at most 219 bytes for
    the background jobs, process ids below ten million. *)
Definition op_fits (o : op) : Prop :=
  match o with
  | JobAdd _ n => (length n ≤ 219)%nat
  | SigChld children => Forall (λ c, 0 ≤ fst c < 10000000) children
  | _ => True
  end.

Lemma handler_fits children s :
  Forall (λ c, 0 ≤ fst c < 10000000) children → fits 219 (job_names s) →
  ∃ s', sigchld_handler children s = (Ret (), s') ∧ job_names s' = job_names s.
Proof.
  intros Hc. revert s. induction Hc as [|[pid status] children Hp _ IH]; intros s Hn.
  { by exists s. }
  cbn [sigchld_handler]. destruct (reap_ok pid status s Hp Hn) as (s1 & Hr & Hj).
  unfold mbind, M_bind. rewrite Hr, <-Hj. apply IH. by rewrite Hj.
Qed.

Lemma exec_op_fits o s :
  op_fits o → fits 219 (job_names s) →
  ∃ s', exec_op o s = (Ret (), s') ∧ fits 219 (job_names s').
Proof.
  intros Ho Hn. assert (Hsame : ∀ s', job_names s' = job_names s → fits 219 (job_names s'))
    by (by intros s' ->).
  destruct o as [children|pid n|id pid|pgid n|pgid pid n| | | | |pgid|pgid|pgid|read| | | |];
    cbn [exec_op op_state op_fits] in *;
    try (eexists; split; [reflexivity|]; cbn [op_state]; try (by apply Hsame)).
  - destruct (handler_fits children s Ho Hn) as (s' & E & Hj). exists s'. by rewrite Hj.
  - unfold job_add. case_decide; [|done]. cbn [fst]. unfold job_names. cbn [jobs set_jobs].
    rewrite fmap_app. apply Forall_app. split; [done|]. apply Forall_singleton.
    cbn. unfold strncpy_z. rewrite length_take. lia.
  - unfold job_add_member_bg. case_decide; [|done]. unfold job_names. cbn [jobs set_jobs].
    rewrite fmap_app. apply Forall_app. split; [done|]. apply Forall_singleton. cbn. lia.
  - apply Hsame. unfold group_add. by case_decide.
  - apply Hsame. unfold group_add_member. by case_decide.
  - apply Hsame. unfold flush_pending_bg_messages. by destruct (pending_msgs s).
  - apply Hsame. unfold mark_group_stopped. by destruct (find_index _ _).
  - apply Hsame. unfold activities_print. by destruct (print_groups _ _ _) as [[]].
Qed.

Lemma exec_ops_fits ops s :
  Forall op_fits ops → fits 219 (job_names s) → fst (exec_ops ops s) = Ret ().
Proof.
  intros Ho. revert s. induction Ho as [|o ops Ho _ IH]; intros s Hn; [done|].
  destruct (exec_op_fits o s Ho Hn) as (s1 & E & Hn1). cbn. unfold mbind, M_bind. rewrite E.
  by apply IH.
Qed.

Lemma exec_ops_waits_not ops s s' : exec_ops ops s ≠ (NoFuel, s').
Proof.
  revert s. induction ops as [|o ops IH]; intros s H; [done|].
  cbn in H. unfold mbind, M_bind in H. destruct (exec_op o s) as [[[]|e|] s1] eqn:E; [by eapply IH|done|].
  destruct o; try done. by apply sigchld_never_waits in E.
Qed.

(** C23: whatever operations and signals interleave, the tables stay inside
    their arrays, the stored command names inside theirs, every message in the
    queue fits its 256 bytes, and the groups carry the job numbers 1, 2, 3, ...
    in order of creation.  A run can only be cut short by the copy of a message
    that does not fit (jobs.c:100), and is not when no background command has
    more than 219 bytes and process ids are below ten million; 220 bytes are
    too many ([message_of_220_overflows]). *)
Theorem jobs_invariant (ops : list op) :
  let r := exec_ops ops init_state in
  let s := snd r in
  (Z.of_nat (length (jobs s)) ≤ MAX_JOBS ∧ Z.of_nat (length (groups s)) ≤ MAX_JOBS ∧
   Z.of_nat (length (procs s)) ≤ MAX_PROCS ∧
   Z.of_nat (length (pending_msgs s)) ≤ MAX_PENDING) ∧
  (Forall (λ j, (length (bj_cmd_name j) < 256)%nat) (jobs s) ∧
   Forall (λ g, (length (pg_cmd_name g) < 256)%nat) (groups s) ∧
   Forall (λ p, (length (pe_cmd_name p) < 64)%nat) (procs s) ∧
   Forall (λ m, Z.of_nat (length m) < MSG_LEN) (pending_msgs s)) ∧
  pg_job_id <$> groups s = seqZ 1 (Z.of_nat (length (groups s))) ∧
  next_job_number s = 1 + Z.of_nat (length (groups s)) ∧
  (fst r = Ret () ∨ fst r = Err copy_overflow) ∧
  (Forall op_fits ops → fst r = Ret ()).
Proof.
  intros r s. pose proof (exec_ops_inv ops init_state init_inv) as [H1 H2 H3 H4 H5 H6 H7 H8 H9 H10].
  fold r in H1, H2, H3, H4, H5, H6, H7, H8, H9, H10.
  fold s in H1, H2, H3, H4, H5, H6, H7, H8, H9, H10.
  unfold fits, job_names, group_names, proc_names in *.
  rewrite ?length_fmap in *. rewrite !Forall_fmap in *.
  split_and!; try done;
    try (eapply Forall_impl; [eassumption|]; intros x Hx; simpl in *; lia).
  - destruct r as [[[]|[]|] s'] eqn:E; [by left|by right|].
    by apply exec_ops_waits_not in E.
  - intros Ho. apply exec_ops_fits; [done|]. constructor.
Qed.

Definition sample_ops : list op :=
  [JobAdd 42 (lit "sleep 100"); GroupAdd 42 (lit "sleep 100");
   GroupAddMember 42 42 (lit "sleep 100"); SigChld [(42, Signaled 9)]; Flush].

Lemma jobs_invariant_witness :
  fst (exec_ops sample_ops init_state) = Ret () ∧
  pg_job_id <$> groups (snd (exec_ops sample_ops init_state)) = [1].
Proof.
  destruct (jobs_invariant sample_ops) as (_ & _ & Hid & _ & _ & Hok).
  split; [apply Hok; repeat constructor; cbn; lia|exact Hid].
Defined.

Lemma message_of_220_overflows :
  fst (exec_ops [JobAdd 1000000 (replicate 220 "x"%char); SigChld [(1000000, Signaled 9)]]
         init_state) = Err copy_overflow.
Proof. vm_compute. reflexivity. Qed.

(** life of a background command: its registration returns the job number
    under which the group is then found, running, with the name of its leader;
    stopping it returns the same number and makes the shell refuse the first
    end of input; continuing makes it running again; removing it makes the
    number unknown. *)
Theorem job_lifecycle (s : state) (pid : Z) (cmdline : cstr) :
  reachable s →
  Z.of_nat (length (jobs s)) < MAX_JOBS → Z.of_nat (length (groups s)) < MAX_JOBS →
  Z.of_nat (length (procs s)) < MAX_PROCS →
  (∀ g, g ∈ groups s → is_group pid g = false) →
  (∀ p, p ∈ procs s → pe_pgid p ≠ pid) →
  let (s1, id) := register_background pid cmdline s in
  let (s2, id') := mark_group_stopped pid s1 in
  let name := take 63 cmdline in
  id = next_job_number s ∧ id' = id ∧
  group_lookup id 64 s1 = Some (pid, false, name) ∧
  group_lookup id 64 s2 = Some (pid, true, name) ∧ has_stopped_jobs s2 = true ∧
  group_lookup id 64 (mark_group_running pid s2) = Some (pid, false, name) ∧
  group_lookup id 64 (group_remove pid s2) = None.
Proof.
  intros Hr Hj Hg Hp Hfg Hfp. apply reachable_inv in Hr.
  assert (Hid : ∀ g, g ∈ groups s → pg_job_id g ≠ next_job_number s).
  { intros g Hin. pose proof (inv_job_id_bound s g Hr Hin). lia. }
  rewrite register_background_eq by done.
  set (g := new_group _ pid cmdline). set (p := new_proc pid cmdline).
  assert (Hgt : is_group pid g = true) by (unfold is_group; simpl; by rewrite Z.eqb_refl).
  unfold mark_group_stopped. cbn [groups set_jobs set_groups set_procs].
  rewrite find_index_snoc, alter_snoc, list_lookup_middle by done.
  assert (Hname : take (64 - 1) (pe_cmd_name p) = take 63 cmdline).
  { simpl. unfold strncpy_z. by rewrite take_take. }
  rewrite <-Hname. split_and!; try done.
  - by apply (fresh_group_lookup _ (groups s) (procs s) g p).
  - by apply (fresh_group_lookup _ (groups s) (procs s) (group_set g true true) p).
  - unfold has_stopped_jobs. simpl. rewrite existsb_app. simpl. by rewrite orb_true_r.
  - unfold mark_group_running, update_first. cbn [groups set_jobs set_groups set_procs].
    rewrite find_index_snoc by done. rewrite alter_snoc.
    by apply (fresh_group_lookup _ (groups s) (procs s) (group_set g true false) p).
  - unfold group_remove, update_first. cbn [groups procs set_jobs set_groups set_procs].
    rewrite find_index_snoc by done.
    rewrite alter_snoc. unfold group_lookup. cbn [groups set_procs set_groups].
    rewrite (proj2 (find_index_None _ _)); [done|].
    intros g' [Hin| ->%list_elem_of_singleton]%elem_of_app; [|done].
    apply Hid, Z.eqb_neq in Hin. by rewrite Hin, andb_false_r.
Qed.

Lemma job_lifecycle_witness :
  group_lookup 1 64 (fst (register_background 42 (lit "sleep 100") init_state))
  = Some (42, false, lit "sleep 100").
Proof.
  destruct (job_lifecycle init_state 42 (lit "sleep 100")) as (_ & _ & H & _).
  - apply reachable_init.
  - reflexivity.
  - reflexivity.
  - reflexivity.
  - intros g Hg. by apply elem_of_nil in Hg.
  - intros p Hp. by apply elem_of_nil in Hp.
  - exact H.
Defined.

(** the SIGCHLD handler reports a finished background process once: a
    tracked child adds one message, at the end of the queue, and is no longer
    tracked; an untracked child (a redirection helper, a foreground command)
    adds none. *)
Theorem sigchld_reports_once (s : state) (pid code : Z) :
  (∀ i j, jobs s !! i = Some j → bj_pid j = pid → bj_active j = true →
     find_job_index_by_pid s pid = Some i) →
  Z.of_nat (length (pending_msgs s)) < MAX_PENDING →
  0 ≤ pid < 10000000 → Forall (λ c, (length c ≤ 219)%nat) (job_names s) →
  let r := sigchld_handler [(pid, Exited code)] s in
  fst r = Ret () ∧ find_job_index_by_pid (snd r) pid = None ∧
  pending_msgs (snd r) = pending_msgs s ++
    match find_job_index_by_pid s pid ≫= λ i, jobs s !! i with
    | Some j => [bj_cmd_name j ++ lit " with pid " ++ print_Z pid
                   ++ lit " exited normally" ++ [NL]]
    | None => []
    end.
Proof.
  intros Huniq Hpend Hpid Hnames r. subst r. cbn [sigchld_handler].
  destruct (reap_ok pid (Exited code) s Hpid Hnames) as (s' & Hr & _).
  unfold mbind, M_bind. rewrite Hr. cbn [fst snd mret M_ret]. split; [done|].
  unfold reap in Hr.
  change (find_job_index_by_pid (mark_proc_exited pid s) pid)
    with (find_job_index_by_pid s pid) in Hr.
  destruct (find_job_index_by_pid s pid) as [i|] eqn:Hi.
  - pose proof Hi as [(j & Hj & Hja) _]%find_index_Some.
    apply andb_true_iff in Hja as [Hjp%Z.eqb_eq Hja].
    cbn [mark_proc_exited set_procs jobs] in Hr. rewrite Hj in Hr.
    cbn [exit_message pending_msgs set_jobs set_procs mark_proc_exited] in Hr.
    rewrite decide_True in Hr by done. case_decide; simplify_eq.
    cbn [mbind option_bind]. rewrite Hj. split; [|done].
    apply find_index_None. intros j' (k & Hk)%list_elem_of_lookup.
    cbn [jobs set_pending set_jobs] in Hk.
    destruct (decide (k = i)) as [->|Hne].
    + rewrite list_lookup_alter_eq, Hj in Hk. simplify_eq/=. by rewrite andb_false_r.
    + rewrite list_lookup_alter_ne in Hk by done.
      destruct (bj_pid j' =? bj_pid j) eqn:E1; [|done].
      destruct (bj_active j') eqn:E2; [|done]. apply Z.eqb_eq in E1.
      pose proof (Huniq k j' Hk E1 E2). congruence.
  - simplify_eq. cbn. by rewrite app_nil_r.
Qed.

Lemma sigchld_reports_once_witness :
  pending_msgs (snd (sigchld_handler [(42, Exited 0)]
    (fst (register_background 42 (lit "ls") init_state))))
  = [lit "ls with pid 42 exited normally" ++ [NL]].
Proof.
  destruct (sigchld_reports_once (fst (register_background 42 (lit "ls") init_state)) 42 0)
    as (_ & _ & H).
  - intros [|i] j Hj; [|by destruct i]. intros. reflexivity.
  - reflexivity.
  - lia.
  - repeat constructor.
  - etransitivity; [exact H|vm_compute; reflexivity].
Defined.

(** when the names of the tracked jobs have at most 219 bytes and the
    process ids fewer than eight digits, the handler never copies outside its
    message buffers, whatever children it reaps. *)
Theorem sigchld_no_overflow (children : list (Z * wait_status)) (s : state) :
  Forall (λ c, 0 ≤ fst c < 10000000) children →
  Forall (λ c, (length c ≤ 219)%nat) (job_names s) →
  ∃ s', sigchld_handler children s = (Ret (), s').
Proof.
  intros Hc Hn. destruct (handler_fits children s Hc Hn) as (s' & E & _). by exists s'.
Qed.

Lemma sigchld_no_overflow_witness :
  ∃ s', sigchld_handler [(42, Signaled 9); (7, Exited 0)]
          (fst (register_background 42 (lit "ls") init_state)) = (Ret (), s').
Proof.
  apply sigchld_no_overflow; repeat constructor; cbn; lia.
Defined.

(** A background command of 240 characters is enough: the message is longer
    than the 256 bytes of the buffer it is copied from and into. *)
Lemma sigchld_overflow :
  fst (sigchld_handler [(12345, Exited 0)]
         (fst (register_background 12345 (replicate 240 "x"%char) init_state)))
  = Err copy_overflow.
Proof. vm_compute. reflexivity. Qed.

(** The member registered first names the job: a foreground command with an
    input redirection is registered after its helper. *)
Lemma redirect_helper_names_the_job :
  let s := group_add_member 42 41 (lit "<redirect_in>") init_state in
  let s := group_add 42 (lit "cat") s in
  let s := group_add_member 42 42 (lit "cat") s in
  group_lookup 1 64 s = Some (42, false, lit "<redirect_in>").
Proof. vm_compute. reflexivity. Qed.

(** The flush does not block SIGCHLD: its loop, the handler and then its
    final reset lose a message. *)
Lemma flush_race_loses_message :
  let s := fst (register_background 42 (lit "ls") init_state) in
  let written := concat (pending_msgs s) in
  let s' := set_pending (snd (sigchld_handler [(42, Exited 0)] s)) [] in
  written = [] ∧ pending_msgs s' = [] ∧ find_job_index_by_pid s' 42 = None.
Proof. vm_compute. auto. Qed.

(** activities lists, oldest group first, exactly the groups that have a
    live process, each with its live processes and their states; it drops the
    other groups and keeps the order and the job numbers. *)
Theorem activities_spec (read_stat : Z → option cstr) (s : state) :
  snd (activities_print read_stat s)
  = concat (group_text read_stat (procs s) <$> groups s) ∧
  groups (fst (activities_print read_stat s))
  = group_after read_stat (procs s) <$> groups s.
Proof.
  unfold activities_print.
  pose proof (print_groups_spec read_stat (groups s) (procs s)) as (H1 & _ & H3).
  destruct (print_groups read_stat (groups s) (procs s)) as [[gs ps] out].
  simpl in *. by split.
Qed.
