(* ===== verification/Control.v ===== *)
(** * Job control builtins: [resume] (resume.c) and [ping] (ping.c)

    Both act on the job tables of [Jobs] and on processes, which are the
    outside of the model: what they print and signal is a trace of effects, and
    what [waitpid] and [kill] answer are arguments. *)

From S2P Require Import Prelude Clib Jobs.

Open Scope Z_scope.

(** ** Effects *)
Inductive effect :=
  | Printed (text : cstr)
  | Kill (pid sig : Z)
  | SetAlarm (seconds : Z).

Record world := { table : state; trace : list effect }.

Definition tell (e : effect) : M world jobs_error () :=
  modify (λ w, {| table := table w; trace := trace w ++ [e] |}).

Definition on_table (f : state → state) : M world jobs_error () :=
  modify (λ w, {| table := f (table w); trace := trace w |}).

(** The SIGCHLD handler, reaping [children]. *)
Definition on_sigchld (children : list (Z * wait_status)) : M world jobs_error () :=
  λ w, let (r, s) := sigchld_handler children (table w) in
       (r, {| table := s; trace := trace w |}).

Definition print (text : cstr) : M world jobs_error () := tell (Printed text).

(** [flush_pending_bg_messages] with what it writes. *)
Definition flush : M world jobs_error () := λ w,
  let (s, text) := flush_pending_bg_messages (table w) in
  (Ret (), {| table := s; trace := trace w ++ [Printed text] |}).

Definition SIGTERM : Z := 15.
Definition SIGCONT : Z := 18.

(** ** resume *)

(** [%<number>], or -1. *)
Definition parse_job_arg (s : cstr) : Z :=
  match s with
  | c :: num =>
      if Ascii.eqb c "%" then
        match num with
        | [] => -1
        | _ =>
            let (val, rest) := strtol num in
            if negb (bool_decide (rest = [])) || (val <=? 0) then -1 else i32 val
        end
      else -1
  | [] => -1
  end.

Record resume_args := { ra_job : Z; ra_fg : bool; ra_timeout : option Z }.

(** The checks on the arguments; [None] prints the syntax error. *)
Definition resume_parse (args : list cstr) : option resume_args :=
  match args with
  | _ :: a1 :: a2 :: more =>
      let job_id := parse_job_arg a1 in
      if job_id =? -1 then None
      else
        match (if streq a2 (lit "fg") then Some true
               else if streq a2 (lit "bg") then Some false else None) with
        | None => None
        | Some is_fg =>
            match more with
            | [] => Some {| ra_job := job_id; ra_fg := is_fg; ra_timeout := None |}
            | a3 :: more =>
                if negb is_fg then None
                else
                  match more with
                  | a4 :: more =>
                      if negb (streq a3 (lit "--timeout")) then None
                      else
                        let (val, rest) := strtol a4 in
                        if negb (bool_decide (rest = [])) || (val <=? 0) then None
                        else if bool_decide (more = []) then
                          Some {| ra_job := job_id; ra_fg := is_fg;
                                  ra_timeout := Some (i32 val) |}
                        else None
                  | [] => None
                  end
            end
        end
  | _ => None
  end.

(** One return of [waitpid(-pgid, &status, WUNTRACED)]: the children that the
    SIGCHLD handler reaped before it, whether SIGALRM was delivered by then,
    and the result. *)
Inductive wait_result :=
  | Child (status : wait_status)
  | Intr
  | NoChild.

Record wait_event := {
  we_reaped : list (Z * wait_status);
  we_alarm : bool;
  we_result : wait_result;
}.

Definition is_stopped (status : wait_status) : bool :=
  match status with Stopped _ => true | _ => false end.

(** The wait loop: whether a member stopped, the last status, [timed_out] and
    the events that are left.  It is still waiting when the events run out. *)
Fixpoint wait_loop (has_timeout : bool) (events : list wait_event)
    (status : wait_status) (timed_out : bool)
    : M world jobs_error (bool * wait_status * bool * list wait_event) :=
  match events with
  | [] => nofuel
  | e :: events =>
      on_sigchld (we_reaped e) ;;
      let timed_out := timed_out || we_alarm e in
      match we_result e with
      | Child status =>
          if is_stopped status then mret (true, status, timed_out, events)
          else wait_loop has_timeout events status timed_out
      | Intr =>
          if has_timeout && timed_out then mret (false, status, timed_out, events)
          else wait_loop has_timeout events status timed_out
      | NoChild => mret (false, status, timed_out, events)
      end
  end.

(** [while (waitpid(-pgid, &status, 0) > 0)] *)
Fixpoint drain (events : list wait_event) : M world jobs_error () :=
  match events with
  | [] => nofuel
  | e :: events =>
      on_sigchld (we_reaped e) ;;
      match we_result e with
      | Child _ => drain events
      | Intr | NoChild => mret ()
      end
  end.

(** After the wait loop. *)
Definition resume_end (pgid : Z) (cmd_name : cstr) (has_timeout : bool)
    (r : bool * wait_status * bool * list wait_event) : M world jobs_error () :=
  let '(any_stopped, status, timed_out, rest) := r in
  (if has_timeout && negb timed_out then tell (SetAlarm 0) else mret ()) ;;
  if has_timeout && timed_out then
    tell (Kill (- pgid) SIGTERM) ;;
    tell (Kill (- pgid) SIGCONT) ;;
    drain rest ;;
    print (lit "resume: job timed out" ++ [NL]) ;;
    on_table reclaim_terminal ;;
    on_table (set_fg_active false) ;;
    on_table (group_remove pgid) ;;
    flush
  else
    on_table reclaim_terminal ;;
    on_table (set_fg_active false) ;;
    (if any_stopped || is_stopped status then
       jid ← gets (λ w, snd (mark_group_stopped pgid (table w)));
       on_table (λ s, fst (mark_group_stopped pgid s)) ;;
       print (lit "[" ++ print_Z jid ++ lit "] + Stopped" ++ [TAB] ++ cmd_name ++ [NL])
     else on_table (group_remove pgid)) ;;
    flush.

(** The foreground part, from the printing of the command name. *)
Definition resume_fg (pgid : Z) (cmd_name : cstr) (timeout : option Z)
    (events : list wait_event) : M world jobs_error () :=
  print (cmd_name ++ [NL]) ;;
  on_table (set_fg_active true) ;;
  on_table (give_terminal_to pgid) ;;
  let has_timeout := bool_decide (timeout ≠ None) in
  match timeout with Some secs => tell (SetAlarm (u32 secs)) | None => mret () end ;;
  wait_loop has_timeout events (Exited 0) false ≫= resume_end pgid cmd_name has_timeout.

Definition resume_command (args : list cstr) (events : list wait_event)
    : M world jobs_error () :=
  match resume_parse args with
  | None => print (lit "resume: invalid syntax" ++ [NL])
  | Some ra =>
      found ← gets (λ w, group_lookup (ra_job ra) 64 (table w));
      match found with
      | None => print (lit "resume: no such job" ++ [NL])
      | Some (pgid, _, cmd_name) =>
          tell (Kill (- pgid) SIGCONT) ;;
          on_table (mark_group_running pgid) ;;
          if negb (ra_fg ra) then
            print (lit "[" ++ print_Z (ra_job ra) ++ lit "] + Running" ++ [TAB]
                     ++ cmd_name ++ [NL])
          else resume_fg pgid cmd_name (ra_timeout ra) events
      end
  end.

(** ** ping *)
Definition is_valid_nonneg_int (s : cstr) : bool :=
  negb (bool_decide (s = [])) && forallb is_digit s.

Section Ping.
(** [kill(pid, sig) == 0] *)
Context (kill_ok : Z → Z → bool).

Definition no_such_process : M world jobs_error () :=
  print (lit "ping: no such process found" ++ [NL]).

Definition kill (pid sig : Z) (sent : cstr) : M world jobs_error () :=
  tell (Kill pid sig) ;;
  if kill_ok pid sig then print sent else no_such_process.

Definition ping_command (args : list cstr) : M world jobs_error () :=
  match args with
  | [_; target; sig_str] =>
      if negb (is_valid_nonneg_int sig_str) then
        print (lit "ping: invalid syntax" ++ [NL])
      else
        let actual_sig := i32 (Z.rem (fst (strtol sig_str)) 64) in
        let is_job := match target with c :: _ => Ascii.eqb c "%" | [] => false end in
        let num_part := if is_job then tail target else target in
        let sent := lit "Sent signal " ++ sig_str ++ lit " to " ++ target ++ [NL] in
        if negb (is_valid_nonneg_int num_part) then
          print (lit "ping: invalid syntax" ++ [NL])
        else if is_job then
          let job_id := i32 (fst (strtol num_part)) in
          found ← gets (λ w, group_lookup job_id 64 (table w));
          match found with
          | None => no_such_process
          | Some (pgid, _, _) => kill (- pgid) actual_sig sent
          end
        else
          let pid := i32 (fst (strtol num_part)) in
          tracked ← gets (λ w, pid_is_tracked pid (table w));
          if negb tracked then no_such_process else kill pid actual_sig sent
  | _ => print (lit "ping: invalid syntax" ++ [NL])
  end.
End Ping.

(** ** What every run keeps *)
Section Keeps.
Context (I : world → Prop).

(** [m] preserves [I], also while it is still waiting. *)
Definition keeps {A} (m : M world jobs_error A) : Prop :=
  ∀ w, I w → let (r, w') := m w in
  match r with Err _ => True | Ret _ | NoFuel => I w' end.

Lemma keeps_ret {A} (a : A) : keeps (mret a).
Proof. by intros w H. Qed.

Lemma keeps_nofuel {A} : keeps (A:=A) nofuel.
Proof. by intros w H. Qed.

Lemma keeps_gets {A} (f : world → A) : keeps (gets f).
Proof. by intros w H. Qed.

Lemma keeps_bind {A B} (m : M world jobs_error A) (k : A → M world jobs_error B) :
  keeps m → (∀ a, keeps (k a)) → keeps (mbind k m).
Proof.
  intros Hm Hk w H. specialize (Hm w H). munfold.
  destruct (m w) as [[a|e|] w']; [|done|done]. by apply Hk.
Qed.
End Keeps.

Create HintDb keeps discriminated.
#[export] Hint Resolve keeps_ret keeps_nofuel keeps_gets keeps_bind : keeps.

(** Every operation of the two builtins keeps an invariant of the tables that
    the table operations keep. *)
Section TableInvariant.
Context (J : state → Prop) (J_step : ∀ s s', J s → step s s' → J s').

Let I (w : world) : Prop := J (table w).

Lemma keeps_tell e : keeps I (tell e).
Proof. by intros w H. Qed.

Lemma keeps_print t : keeps I (print t).
Proof. by intros w H. Qed.

Lemma keeps_on_table f : (∀ s, step s (f s)) → keeps I (on_table f).
Proof. intros Hf w H. simpl. unfold I in *. simpl. by eapply J_step. Qed.

Lemma keeps_on_sigchld cs : keeps I (on_sigchld cs).
Proof.
  intros w H. unfold on_sigchld.
  destruct (sigchld_handler cs (table w)) as [[[]|e|] s] eqn:E; try done.
  - unfold I in *. simpl. eapply J_step; [done|]. by eapply step_sigchld.
  - by apply sigchld_never_waits in E.
Qed.

Lemma keeps_flush : keeps I flush.
Proof.
  intros w H. unfold flush. pose proof (step_flush (table w)) as Hs.
  destruct (flush_pending_bg_messages (table w)) as [s t]. unfold I in *. simpl in *.
  by eapply J_step.
Qed.

Local Hint Resolve keeps_tell keeps_print keeps_on_table keeps_on_sigchld
  keeps_flush : keeps.
Local Hint Resolve step_mark_group_stopped step_mark_group_running step_group_remove
  step_give_terminal_to step_reclaim_terminal step_set_fg_active step_set_at_prompt : keeps.

Lemma keeps_wait_loop ht events status timed_out :
  keeps I (wait_loop ht events status timed_out).
Proof.
  revert status timed_out. induction events as [|e events IH]; intros; cbn [wait_loop].
  { auto with keeps. }
  apply keeps_bind; [auto with keeps|]. intros _.
  destruct (we_result e); [destruct (is_stopped _)|destruct (_ && _)|]; auto with keeps.
Qed.

Lemma keeps_drain events : keeps I (drain events).
Proof.
  induction events as [|e events IH]; cbn [drain]; [auto with keeps|].
  apply keeps_bind; [auto with keeps|]. intros _. destruct (we_result e); auto with keeps.
Qed.
Local Hint Resolve keeps_wait_loop keeps_drain : keeps.

Lemma keeps_resume args events : keeps I (resume_command args events).
Proof.
  unfold resume_command. destruct (resume_parse args) as [ra|]; [|auto with keeps].
  apply keeps_bind; [auto with keeps|]. intros [[[pgid st] name]|]; [|auto with keeps].
  repeat (apply keeps_bind; [by auto with keeps|]; intros _).
  destruct (ra_fg ra); cbn [negb]; [|auto with keeps]. unfold resume_fg.
  repeat (apply keeps_bind; [by auto with keeps|]; intros _).
  apply keeps_bind; [destruct (ra_timeout ra); auto with keeps|]. intros _.
  apply keeps_bind; [auto with keeps|]. intros [[[stopped status] timed_out] rest].
  unfold resume_end.
  apply keeps_bind; [case_if; auto with keeps|]. intros _.
  case_if; repeat (apply keeps_bind; [by auto with keeps|]; intros _);
    [auto with keeps|].
  apply keeps_bind; [case_if; auto 10 with keeps|]. auto with keeps.
Qed.

Lemma keeps_ping kill_ok args : keeps I (ping_command kill_ok args).
Proof.
  unfold ping_command, kill, no_such_process.
  repeat case_match; auto 10 with keeps;
    apply keeps_bind; auto with keeps; intros; repeat case_match; auto 10 with keeps;
    apply keeps_bind; auto with keeps; intros; repeat case_match; auto 10 with keeps.
Qed.
End TableInvariant.

(** ** A job among the groups *)

(** The only active group with number [id] or process group [pgid]. *)
Definition other (id pgid : Z) (g : proc_group) : Prop :=
  pg_active g = true → pg_pgid g ≠ pgid ∧ pg_job_id g ≠ id.

Definition has_job (s : state) (id pgid : Z) (stopped : bool) : Prop :=
  ∃ a g b, groups s = a ++ g :: b ∧ pg_active g = true ∧ pg_job_id g = id ∧
    pg_pgid g = pgid ∧ pg_stopped g = stopped ∧
    Forall (other id pgid) a ∧ Forall (other id pgid) b.

(** The name under which the job is printed. *)
Definition leader_name (s : state) (pgid : Z) : cstr :=
  match find_index (λ p, pe_pgid p =? pgid) (procs s) with
  | Some k => match procs s !! k with
              | Some p => strncpy_z 63 (pe_cmd_name p) | None => [] end
  | None => []
  end.

Definition distinct_pgids (s : state) : Prop :=
  ∀ i j g g', groups s !! i = Some g → groups s !! j = Some g' →
    pg_active g = true → pg_active g' = true → pg_pgid g = pg_pgid g' → i = j.

Lemma find_index_middle {A} (t : A → bool) (a : list A) x b :
  (∀ y, y ∈ a → t y = false) → t x = true → find_index t (a ++ x :: b) = Some (length a).
Proof.
  intros Ha Hx. induction a as [|y a IH]; simpl; [by rewrite Hx|].
  rewrite (Ha y) by (by left). rewrite IH; [done|]. intros z Hz. apply Ha. by right.
Qed.

Lemma alter_middle {A} (f : A → A) (a : list A) x b :
  alter f (length a) (a ++ x :: b) = a ++ f x :: b.
Proof. induction a as [|y a IH]; [done|]. cbn. f_equal. apply IH. Qed.

Lemma other_not_group id pgid (a : list proc_group) :
  Forall (other id pgid) a → ∀ y, y ∈ a → is_group pgid y = false.
Proof.
  rewrite Forall_forall. intros H y Hy. specialize (H y Hy). unfold is_group, other in *.
  destruct (pg_active y); [|by rewrite andb_false_r].
  destruct H as [H _]; [done|]. by rewrite (proj2 (Z.eqb_neq _ _) H).
Qed.

Lemma other_not_id id pgid (a : list proc_group) :
  Forall (other id pgid) a → ∀ y, y ∈ a → pg_active y && (pg_job_id y =? id) = false.
Proof.
  rewrite Forall_forall. intros H y Hy. specialize (H y Hy). unfold other in *.
  destruct (pg_active y); [|done]. destruct H as [_ H]; [done|].
  by rewrite (proj2 (Z.eqb_neq _ _) H).
Qed.

Section Job.
Context (s : state) (id pgid : Z) (stopped : bool).

Lemma has_job_lookup :
  has_job s id pgid stopped → group_lookup id 64 s = Some (pgid, stopped, leader_name s pgid).
Proof.
  intros (a & g & b & Hg & Ha & Hi & Hp & Hs & Hoa & _). unfold group_lookup. rewrite Hg.
  rewrite find_index_middle by (try (by eapply other_not_id); by rewrite Ha, Hi, Z.eqb_refl).
  rewrite list_lookup_middle by done. unfold leader_name. by subst.
Qed.

Lemma group_lookup_has_job name :
  reachable s → distinct_pgids s → group_lookup id 64 s = Some (pgid, stopped, name) →
  has_job s id pgid stopped ∧ name = leader_name s pgid.
Proof.
  intros Hr Hd. unfold group_lookup.
  destruct (find_index _ (groups s)) as [i|] eqn:Hi; [|done].
  destruct (find_index_Some _ _ _ Hi) as [(g & Hg & Hgi) _]. rewrite Hg.
  intros [= <- <- <-]. apply andb_true_iff in Hgi as [Hact Hid%Z.eqb_eq].
  split; [|done]. exists (take i (groups s)), g, (drop (S i) (groups s)).
  split_and!; try done; [by rewrite take_drop_middle|..];
    apply Forall_lookup_2; intros j g' Hj Ha';
    [apply lookup_take_Some in Hj as [Hj Hlt]
    |rewrite lookup_drop in Hj; set (k := (S i + j)%nat) in *;
     assert (i < k)%nat by lia];
    (split; [intros Heq; pose proof (Hd _ _ _ _ Hj Hg Ha' Hact Heq); lia|]);
    intros Heq; apply reachable_inv, inv_ids in Hr;
    pose proof (f_equal (lookup i) Hr) as H1;
    [pose proof (f_equal (lookup j) Hr) as H2|pose proof (f_equal (lookup k) Hr) as H2];
    rewrite list_lookup_fmap, Hg in H1; rewrite list_lookup_fmap, Hj in H2;
    simpl in H1, H2;
    symmetry in H1, H2; apply lookup_seqZ in H1, H2; lia.
Qed.

Lemma has_job_stop :
  has_job s id pgid stopped →
  has_job (fst (mark_group_stopped pgid s)) id pgid true ∧
  snd (mark_group_stopped pgid s) = id.
Proof.
  intros (a & g & b & Hg & Ha & Hi & Hp & Hs & Hoa & Hob). unfold mark_group_stopped.
  rewrite Hg, find_index_middle by
    (try (by eapply other_not_group); unfold is_group; by rewrite Ha, Hp, Z.eqb_refl).
  rewrite list_lookup_middle by done. split; [|done].
  exists a, (group_set g true true), b. cbn [fst groups set_groups].
  rewrite alter_middle, Ha. split_and!; done.
Qed.

Lemma has_job_run :
  has_job s id pgid stopped → has_job (mark_group_running pgid s) id pgid false.
Proof.
  intros (a & g & b & Hg & Ha & Hi & Hp & Hs & Hoa & Hob).
  unfold mark_group_running, update_first.
  rewrite Hg, find_index_middle by
    (try (by eapply other_not_group); unfold is_group; by rewrite Ha, Hp, Z.eqb_refl).
  exists a, (group_set g true false), b. cbn [groups set_groups].
  rewrite alter_middle, Ha. split_and!; done.
Qed.

Lemma has_job_remove n :
  has_job s id pgid stopped → group_lookup id n (group_remove pgid s) = None.
Proof.
  intros (a & g & b & Hg & Ha & Hi & Hp & Hs & Hoa & Hob).
  unfold group_remove, update_first.
  rewrite Hg, find_index_middle by
    (try (by eapply other_not_group); unfold is_group; by rewrite Ha, Hp, Z.eqb_refl).
  unfold group_lookup. cbn [groups set_groups set_procs]. rewrite alter_middle.
  rewrite (proj2 (find_index_None _ _)); [done|].
  intros y [Hy|[->|Hy]%elem_of_cons]%elem_of_app; [|done|].
  - by apply (other_not_id id pgid a).
  - by apply (other_not_id id pgid b).
Qed.
End Job.

(** ** Outcomes of resume *)

(** An event that leaves the wait loop waiting: no job control, no alarm, the
    signal handler reaps nothing. *)
Definition quiet (e : wait_event) : Prop :=
  we_reaped e = [] ∧ we_alarm e = false ∧
  match we_result e with Child st => is_stopped st = false | Intr => True | NoChild => False end.

Lemma on_sigchld_nil w : on_sigchld [] w = (Ret (), w).
Proof. by destruct w. Qed.

Lemma wait_loop_quiet ht pre events status w :
  Forall quiet pre → is_stopped status = false →
  ∃ status', is_stopped status' = false ∧
    wait_loop ht (pre ++ events) status false w = wait_loop ht events status' false w.
Proof.
  intros Hpre. revert status. induction Hpre as [|e pre (Hr & Ha & Hres) _ IH];
    intros status Hs; [by exists status|].
  cbn [app wait_loop]. rewrite Hr. munfold. rewrite on_sigchld_nil, Ha.
  destruct (we_result e) as [st| |]; [rewrite Hres| |done].
  - by apply IH.
  - rewrite andb_false_r. by apply IH.
Qed.

(** The effects before the wait, and those of an armed timeout that did not
    fire. *)
Definition fg_start (ra : resume_args) (pgid : Z) (name : cstr) : list effect :=
  [Kill (- pgid) SIGCONT; Printed (name ++ [NL])] ++
  match ra_timeout ra with Some t => [SetAlarm (u32 t)] | None => [] end.

Definition fg_disarm (ra : resume_args) : list effect :=
  match ra_timeout ra with Some _ => [SetAlarm 0] | None => [] end.

Definition flush_text (s : state) : effect :=
  Printed (snd (flush_pending_bg_messages s)).

Definition ev (alarm : bool) (r : wait_result) : wait_event :=
  {| we_reaped := []; we_alarm := alarm; we_result := r |}.

(** The job as the user sees it afterwards: known and running, known and
    stopped, or unknown. *)
Definition job_view (id : Z) (w : world) : option (Z * bool * cstr) :=
  group_lookup id 64 (table w).

Section ResumeRun.
Context (args : list cstr) (ra : resume_args) (pgid : Z) (st : bool) (w : world).
Context (Hargs : resume_parse args = Some ra).
Context (Hjob : has_job (table w) (ra_job ra) pgid st).
Let name := leader_name (table w) pgid.
Let started : state :=
  give_terminal_to pgid (set_fg_active true (mark_group_running pgid (table w))).

Lemma resume_bg_run events :
  ra_fg ra = false →
  resume_command args events w =
  (Ret (), {| table := mark_group_running pgid (table w);
              trace := (trace w ++ [Kill (- pgid) SIGCONT]) ++
                [Printed (lit "[" ++ print_Z (ra_job ra) ++ lit "] + Running" ++ [TAB]
                   ++ name ++ [NL])] |}).
Proof.
  intros Hfg. unfold resume_command. rewrite Hargs. munfold.
  rewrite (has_job_lookup _ _ _ _ Hjob). by rewrite Hfg.
Qed.

(** Up to the wait. *)
Lemma resume_fg_run pre events :
  ra_fg ra = true → Forall quiet pre →
  ∃ status, is_stopped status = false ∧
  resume_command args (pre ++ events) w =
  (wait_loop (bool_decide (ra_timeout ra ≠ None)) events status false
     ≫= resume_end pgid name (bool_decide (ra_timeout ra ≠ None)))
    {| table := started; trace := trace w ++ fg_start ra pgid name |}.
Proof.
  intros Hfg Hpre. set (w1 := {| table := started; trace := trace w ++ fg_start ra pgid name |}).
  destruct (wait_loop_quiet (bool_decide (ra_timeout ra ≠ None)) pre events (Exited 0) w1
              Hpre eq_refl) as (status & Hs & Hw).
  exists status. split; [done|].
  unfold resume_command. rewrite Hargs. unfold mbind at 1, M_bind at 1, gets at 1.
  rewrite (has_job_lookup _ _ _ _ Hjob), Hfg. cbn [negb].
  unfold resume_fg. fold name.
  transitivity ((wait_loop (bool_decide (ra_timeout ra ≠ None)) (pre ++ events) (Exited 0)
    false ≫= resume_end pgid name (bool_decide (ra_timeout ra ≠ None))) w1).
  - subst w1. unfold fg_start. munfold. unfold print, tell, on_table, modify. simpl.
    destruct (ra_timeout ra); cbn [table trace]; rewrite <-!app_assoc; reflexivity.
  - unfold mbind at 1, M_bind at 1. rewrite Hw. reflexivity.
Qed.
End ResumeRun.

(** Weakest preconditions of the operations. *)
Section WpOps.
Context (Q : () → world → Prop) (R : jobs_error → world → Prop).

Lemma wp_tell e w :
  Q () {| table := table w; trace := trace w ++ [e] |} → wp (tell e) Q R w.
Proof. done. Qed.

Lemma wp_on_table f w :
  Q () {| table := f (table w); trace := trace w |} → wp (on_table f) Q R w.
Proof. done. Qed.

Lemma wp_flush w :
  Q () {| table := fst (flush_pending_bg_messages (table w));
          trace := trace w ++ [flush_text (table w)] |} → wp flush Q R w.
Proof.
  unfold wp, flush, flush_text. by destruct (flush_pending_bg_messages (table w)).
Qed.
End WpOps.

Lemma wp_on_sigchld_nil (Q : () → world → Prop) R w : Q () w → wp (on_sigchld []) Q R w.
Proof. unfold wp. by rewrite on_sigchld_nil. Qed.

Lemma flush_tables s :
  groups (fst (flush_pending_bg_messages s)) = groups s ∧
  procs (fst (flush_pending_bg_messages s)) = procs s.
Proof. unfold flush_pending_bg_messages. by destruct (pending_msgs s). Qed.

Lemma stop_tables pgid s :
  procs (fst (mark_group_stopped pgid s)) = procs s ∧
  pending_msgs (fst (mark_group_stopped pgid s)) = pending_msgs s.
Proof. unfold mark_group_stopped. by destruct (find_index _ _). Qed.

Lemma group_lookup_ext id n s s' :
  groups s' = groups s → procs s' = procs s → group_lookup id n s' = group_lookup id n s.
Proof. intros Hg Hp. unfold group_lookup. by rewrite Hg, Hp. Qed.

Lemma leader_name_ext s s' pgid :
  procs s' = procs s → leader_name s' pgid = leader_name s pgid.
Proof. intros Hp. unfold leader_name. by rewrite Hp. Qed.

Lemma flush_text_ext s s' :
  pending_msgs s' = pending_msgs s → flush_text s' = flush_text s.
Proof.
  intros Hp. unfold flush_text, flush_pending_bg_messages. rewrite Hp.
  by destruct (pending_msgs s).
Qed.

(** Run an operation at the head of a bind. *)
Ltac wp_op :=
  lazymatch goal with
  | |- wp (tell _) _ _ _ => apply wp_tell
  | |- wp (print _) _ _ _ => apply wp_tell
  | |- wp (on_table _) _ _ _ => apply wp_on_table
  | |- wp flush _ _ _ => apply wp_flush
  | |- wp (on_sigchld []) _ _ _ => apply wp_on_sigchld_nil
  | |- wp (gets _) _ _ _ => apply wp_gets
  | |- wp (mret _) _ _ _ => apply wp_ret
  end; cbn [table trace].
Ltac wp_bind_op := lazymatch goal with |- wp (mbind _ _) _ _ _ => apply wp_bind end.
Ltac wp_ops := repeat (repeat wp_bind_op; wp_op).

Section ResumeEnd.
Context (s0 : state) (pgid : Z) (name : cstr) (ra : resume_args) (tr : list effect).
Context (st : bool) (Hjob : has_job s0 (ra_job ra) pgid st).
Let has_timeout := bool_decide (ra_timeout ra ≠ None).

Definition started : world :=
  {| table := give_terminal_to pgid (set_fg_active true s0); trace := tr |}.

Lemma resume_end_disarm (m : M world jobs_error ()) Q R :
  wp m Q R {| table := table started; trace := tr ++ fg_disarm ra |} →
  wp ((if has_timeout && true then tell (SetAlarm 0) else mret ()) ;; m) Q R started.
Proof.
  intros H. apply wp_bind. unfold has_timeout, fg_disarm in *.
  destruct (ra_timeout ra).
  - rewrite bool_decide_eq_true_2 by done. cbn [andb]. by wp_op.
  - rewrite app_nil_r in H. rewrite bool_decide_eq_false_2 by auto. cbn [andb]. by wp_op.
Qed.

Lemma resume_end_stopped sig rest (Q : () → world → Prop) R :
  (∀ w', group_lookup (ra_job ra) 64 (table w') = Some (pgid, true, leader_name s0 pgid) →
     trace w' = tr ++ fg_disarm ra ++
      [Printed (lit "[" ++ print_Z (ra_job ra) ++ lit "] + Stopped" ++ [TAB] ++ name ++ [NL]);
       flush_text s0] → Q () w') →
  wp (resume_end pgid name has_timeout (true, Stopped sig, false, rest)) Q R started.
Proof.
  intros HQ. unfold resume_end. apply resume_end_disarm.
  rewrite andb_false_r. cbn [orb].
  set (s1 := set_fg_active false (reclaim_terminal (table started))).
  assert (H1 : has_job s1 (ra_job ra) pgid st) by exact Hjob.
  destruct (has_job_stop _ _ _ _ H1) as [H2 Hid].
  wp_ops. fold s1. rewrite Hid.
  apply HQ; cbn [table trace].
  - destruct (flush_tables (fst (mark_group_stopped pgid s1))) as [Hg Hp].
    rewrite (group_lookup_ext _ _ _ _ Hg Hp), (has_job_lookup _ _ _ _ H2).
    by rewrite (leader_name_ext s0) by exact (proj1 (stop_tables pgid s1)).
  - rewrite (flush_text_ext s0) by exact (proj2 (stop_tables pgid s1)). by rewrite <-!app_assoc.
Qed.

Lemma resume_end_done status rest (Q : () → world → Prop) R :
  is_stopped status = false →
  (∀ w', group_lookup (ra_job ra) 64 (table w') = None →
     trace w' = tr ++ fg_disarm ra ++ [flush_text s0] → Q () w') →
  wp (resume_end pgid name has_timeout (false, status, false, rest)) Q R started.
Proof.
  intros Hs HQ. unfold resume_end. apply resume_end_disarm.
  rewrite andb_false_r, Hs. cbn [orb].
  set (s1 := set_fg_active false (reclaim_terminal (table started))).
  assert (H1 : has_job s1 (ra_job ra) pgid st) by exact Hjob.
  wp_ops. fold s1.
  apply HQ; cbn [table trace].
  - destruct (flush_tables (group_remove pgid s1)) as [Hg Hp].
    rewrite (group_lookup_ext _ _ _ _ Hg Hp). by eapply has_job_remove.
  - rewrite (flush_text_ext s0) by done. by rewrite <-!app_assoc.
Qed.

Lemma resume_end_timeout status rest (Q : () → world → Prop) R :
  (∀ w', group_lookup (ra_job ra) 64 (table w') = None →
     trace w' = tr ++ [Kill (- pgid) SIGTERM; Kill (- pgid) SIGCONT;
       Printed (lit "resume: job timed out" ++ [NL]); flush_text s0] → Q () w') →
  wp (resume_end pgid name true (false, status, true, ev false NoChild :: rest))
     Q R started.
Proof.
  intros HQ. unfold resume_end. cbn [andb negb drain ev we_reaped we_result].
  set (s1 := set_fg_active false (reclaim_terminal (table started))).
  assert (H1 : has_job s1 (ra_job ra) pgid st) by exact Hjob.
  wp_ops. fold s1.
  apply HQ; cbn [table trace].
  - destruct (flush_tables (group_remove pgid s1)) as [Hg Hp].
    rewrite (group_lookup_ext _ _ _ _ Hg Hp). by eapply has_job_remove.
  - rewrite (flush_text_ext s0) by done. by rewrite <-!app_assoc.
Qed.
End ResumeEnd.

(** C24: what resume does to the job it names.  [bg] continues it and returns.
    [fg] waits; when a member stops, the job is known as stopped again; when no
    member is left it is forgotten; when the timeout fires first it is
    terminated and forgotten.  In each case the effects are the listed ones. *)
Theorem resume_outcome (args : list cstr) (ra : resume_args) (pgid : Z) (st : bool)
    (name : cstr) (w : world) :
  reachable (table w) → distinct_pgids (table w) →
  resume_parse args = Some ra →
  job_view (ra_job ra) w = Some (pgid, st, name) →
  let id := ra_job ra in
  let messages := flush_text (table w) in
  let start := trace w ++ fg_start ra pgid name in
  if negb (ra_fg ra) then
    ∀ events, ∃ r w', resume_command args events w = (Ret r, w') ∧
      job_view id w' = Some (pgid, false, name) ∧
      trace w' = trace w ++ [Kill (- pgid) SIGCONT;
        Printed (lit "[" ++ print_Z id ++ lit "] + Running" ++ [TAB] ++ name ++ [NL])]
  else
    ∀ pre rest, Forall quiet pre →
    (∀ sig, ∃ r w',
      resume_command args (pre ++ ev false (Child (Stopped sig)) :: rest) w = (Ret r, w') ∧
      job_view id w' = Some (pgid, true, name) ∧
      trace w' = start ++ fg_disarm ra ++
        [Printed (lit "[" ++ print_Z id ++ lit "] + Stopped" ++ [TAB] ++ name ++ [NL]);
         messages]) ∧
    (∃ r w', resume_command args (pre ++ ev false NoChild :: rest) w = (Ret r, w') ∧
      job_view id w' = None ∧ trace w' = start ++ fg_disarm ra ++ [messages]) ∧
    (ra_timeout ra ≠ None → ∃ r w',
      resume_command args (pre ++ ev true Intr :: ev false NoChild :: rest) w = (Ret r, w') ∧
      job_view id w' = None ∧
      trace w' = start ++ [Kill (- pgid) SIGTERM; Kill (- pgid) SIGCONT;
        Printed (lit "resume: job timed out" ++ [NL]); messages]).
Proof.
  intros Hr Hd Hargs Hl id messages start.
  destruct (group_lookup_has_job _ _ _ _ _ Hr Hd Hl) as [Hjob ->].
  pose proof (has_job_run _ _ _ _ Hjob) as Hrun.
  destruct (ra_fg ra) eqn:Hfg; cbn [negb].
  - intros pre rest Hpre.
    pose proof (λ events, resume_fg_run args ra pgid st w Hargs Hjob pre events Hfg Hpre)
      as Hfgr.
    split_and!.
    + intros sig. destruct (Hfgr (ev false (Child (Stopped sig)) :: rest))
        as (status & Hs & ->).
      apply wp_run, wp_bind. cbn [wait_loop ev we_reaped we_result is_stopped]. wp_ops.
      eapply (resume_end_stopped (mark_group_running pgid (table w))); [exact Hrun|].
      intros w' Hv Ht. split; [exact Hv|]. by rewrite Ht, (flush_text_ext (table w)).
    + destruct (Hfgr (ev false NoChild :: rest)) as (status & Hs & ->).
      apply wp_run, wp_bind. cbn [wait_loop ev we_reaped we_result]. wp_ops.
      eapply (resume_end_done (mark_group_running pgid (table w))); [exact Hrun|done|].
      intros w' Hv Ht. split; [exact Hv|]. by rewrite Ht, (flush_text_ext (table w)).
    + intros Hto. destruct (Hfgr (ev true Intr :: ev false NoChild :: rest))
        as (status & Hs & ->).
      apply wp_run, wp_bind. cbn [wait_loop]. wp_ops. cbn [ev we_result we_alarm].
      rewrite bool_decide_eq_true_2 by done. cbn [orb andb]. wp_ops.
      eapply (resume_end_timeout (mark_group_running pgid (table w))); [exact Hrun|].
      intros w' Hv Ht. split; [exact Hv|]. by rewrite Ht, (flush_text_ext (table w)).
  - intros events. exists (), {| table := mark_group_running pgid (table w);
      trace := (trace w ++ [Kill (- pgid) SIGCONT]) ++
        [Printed (lit "[" ++ print_Z (ra_job ra) ++ lit "] + Running" ++ [TAB]
          ++ leader_name (table w) pgid ++ [NL])] |}.
    split; [by apply (resume_bg_run _ _ _ st)|]. split; [|by rewrite <-app_assoc].
    exact (has_job_lookup _ _ _ _ Hrun).
Qed.

Definition stopped_job : state :=
  fst (mark_group_stopped 42 (fst (register_background 42 (lit "vi") init_state))).

Lemma stopped_job_reachable : reachable stopped_job.
Proof.
  pose (s1 := fst (job_add 42 (lit "vi") init_state)).
  pose (s2 := group_add 42 (lit "vi") s1).
  apply (reachable_step (group_add_member 42 42 (lit "vi") s2));
    [|by exists (MarkGroupStopped 42)].
  apply (reachable_step s2); [|by exists (GroupAddMember 42 42 (lit "vi"))].
  apply (reachable_step s1); [|by exists (GroupAdd 42 (lit "vi"))].
  apply (reachable_step init_state); [apply reachable_init|by exists (JobAdd 42 (lit "vi"))].
Qed.

Lemma resume_outcome_witness :
  ∃ r w', resume_command [lit "resume"; lit "%1"; lit "fg"] [ev false Intr; ev false NoChild]
            {| table := stopped_job; trace := [] |} = (Ret r, w') ∧ job_view 1 w' = None.
Proof.
  destruct (resume_outcome [lit "resume"; lit "%1"; lit "fg"]
    {| ra_job := 1; ra_fg := true; ra_timeout := None |} 42 true (lit "vi")
    {| table := stopped_job; trace := [] |} stopped_job_reachable) with
    (pre := [ev false Intr]) (rest := @nil wait_event) as (_ & (r & w' & H & Hv & _) & _).
  - intros [|i] [|j] g g' Hi Hj; try done; by destruct i || by destruct j.
  - reflexivity.
  - reflexivity.
  - repeat constructor.
  - exists r, w'. split; [exact H|exact Hv].
Defined.

(** ** The terminal *)
Definition tty_home (s : state) : Prop := tty_pgrp s = shell_pgid s.

Lemma resume_end_home pgid name ht r w a w' :
  resume_end pgid name ht r w = (Ret a, w') → tty_home (table w').
Proof.
  assert (Hflush : ∀ s, tty_home s → tty_home (fst (flush_pending_bg_messages s))).
  { intros s Hs. unfold flush_pending_bg_messages. by destruct (pending_msgs s). }
  assert (Hstop : ∀ s, tty_home s → tty_home (fst (mark_group_stopped pgid s))).
  { intros s Hs. unfold mark_group_stopped. by destruct (find_index _ _). }
  destruct r as [[[stopped status] timed_out] rest]. unfold resume_end. munfold.
  destruct ((if ht && negb timed_out then tell (SetAlarm 0) else λ s, (Ret (), s)) w)
    as [[[]|e|] w1]; [|done|done].
  destruct (ht && timed_out).
  - unfold print, tell, on_table, modify, flush. destruct (drain _ _) as [[[]|e|] w2]; try done.
    intros H. pose proof (Hflush (group_remove pgid (set_fg_active false
      (reclaim_terminal (table w2)))) eq_refl) as Hf.
    cbn [table trace] in H. destruct (flush_pending_bg_messages _) as [s t].
    injection H as <- <-. exact Hf.
  - unfold print, tell, on_table, modify, flush. cbn [table trace].
    destruct (stopped || is_stopped status); intros H; cbn [table] in H.
    + pose proof (Hflush _ (Hstop (set_fg_active false (reclaim_terminal (table w1)))
        eq_refl)) as Hf.
      destruct (flush_pending_bg_messages _) as [s t]. injection H as <- <-. exact Hf.
    + pose proof (Hflush (group_remove pgid (set_fg_active false
        (reclaim_terminal (table w1)))) eq_refl) as Hf.
      destruct (flush_pending_bg_messages _) as [s t]. injection H as <- <-. exact Hf.
Qed.

(** whatever its arguments and whatever the children do, resume leaves
    well-formed tables behind, also while it is still waiting, and when it
    returns the shell has its terminal back. *)
Theorem resume_keeps_tables (args : list cstr) (events : list wait_event) (w : world) :
  reachable (table w) → tty_home (table w) →
  match resume_command args events w with
  | (Ret _, w') => reachable (table w') ∧ tty_home (table w')
  | (NoFuel, w') => reachable (table w')
  | (Err _, _) => True
  end.
Proof.
  intros Hr Ht. pose proof (keeps_resume reachable reachable_step args events w Hr) as Hk.
  destruct (resume_command args events w) as [[[]|e|] w'] eqn:E; try done.
  split; [done|]. revert E. unfold resume_command.
  destruct (resume_parse args) as [ra|]; [|by intros [= <-]].
  munfold. destruct (group_lookup _ _ _) as [[[pgid st] name]|]; [|by intros [= <-]].
  unfold tell, on_table, modify. cbn [table trace].
  destruct (ra_fg ra); cbn [negb]; [|by intros [= <-]].
  unfold resume_fg. munfold. unfold print, tell, on_table, modify. cbn [table trace].
  destruct (ra_timeout ra); destruct (wait_loop _ _ _ _ _) as [[r|e|] w1]; try done;
    apply resume_end_home.
Qed.

Lemma resume_keeps_tables_witness :
  reachable (table (snd (resume_command [lit "resume"; lit "%1"; lit "bg"] []
    {| table := stopped_job; trace := [] |}))).
Proof.
  pose proof (resume_keeps_tables [lit "resume"; lit "%1"; lit "bg"] []
    {| table := stopped_job; trace := [] |} stopped_job_reachable eq_refl) as H.
  exact (proj1 H).
Defined.

(** The entry of a background command that ends under [resume fg] stays
    active: resume itself reaps it, and the message of its end is never
    queued. *)
Lemma resumed_exit_is_not_reported :
  let w := snd (resume_command [lit "resume"; lit "%1"; lit "fg"]
             [ev false (Child (Exited 0)); ev false NoChild]
             {| table := stopped_job; trace := [] |}) in
  pending_msgs (table w) = [] ∧ bj_active <$> jobs (table w) = [true].
Proof. vm_compute. auto. Qed.

(** ** ping *)
Lemma strtol_digits s : is_valid_nonneg_int s = true → 0 ≤ fst (strtol s).
Proof.
  unfold is_valid_nonneg_int. destruct s as [|c s]; [done|]. intros H.
  apply andb_true_iff in H as [_ H]. cbn [forallb] in H. apply andb_true_iff in H as [Hc Hs].
  rewrite strtol_nonneg_shape by done.
  assert (Hpos : ∀ s acc any, 0 ≤ acc → 0 ≤ fst (fst (take_digits acc any s))).
  { clear. induction s as [|c s IH]; intros acc any Ha; [done|]. simpl.
    destruct (is_digit c) eqn:Hc; [|done]. apply IH.
    unfold is_digit, digit_val in *. apply andb_true_iff in Hc as [?%Nat.leb_le _]. lia. }
  specialize (Hpos (c :: s) 0 false ltac:(lia)).
  destruct (take_digits 0 false (c :: s)) as [[v []] rest]; simpl in *; [|lia].
  unfold clamp_long, LONG_MAX, LONG_MIN. lia.
Qed.

Lemma rem_64 v : 0 ≤ v → i32 (Z.rem v 64) = v mod 64 ∧ 0 ≤ v mod 64 < 64.
Proof.
  intros Hv. rewrite Z.rem_mod_nonneg by lia.
  pose proof (Z.mod_pos_bound v 64 ltac:(lia)). split; [|lia]. unfold i32.
  rewrite (Z.mod_small (_ + _)) by (change (2 ^ 31) with 2147483648;
    change (2 ^ 32) with 4294967296; lia). lia.
Qed.

(** The process or the group belongs to the shell. *)
Definition own_target (s : state) (pid : Z) : Prop :=
  pid_is_tracked pid s = true ∨
  ∃ g, g ∈ groups s ∧ pg_active g = true ∧ pid = - pg_pgid g.

Lemma group_lookup_own id n s pgid st name :
  group_lookup id n s = Some (pgid, st, name) → own_target s (- pgid).
Proof.
  unfold group_lookup. destruct (find_index _ (groups s)) as [i|] eqn:E; [|done].
  destruct (find_index_Some _ _ _ E) as [(g & Hg & Ha) _]. rewrite Hg. intros [= <- _ _].
  right. exists g. apply andb_true_iff in Ha as [Ha _].
  split_and!; [by eapply list_elem_of_lookup_2|done|done].
Qed.

(** ping never changes the tables, and the only signals it sends are
    numbers below 64 to a process that the shell tracks or to the process
    group of one of its active jobs. *)
Theorem ping_only_own_processes (kill_ok : Z → Z → bool) (args : list cstr) (w : world) :
  ∃ es, ping_command kill_ok args w
        = (Ret (), {| table := table w; trace := trace w ++ es |}) ∧
    ∀ pid sig, Kill pid sig ∈ es → 0 ≤ sig < 64 ∧ own_target (table w) pid.
Proof.
  assert (Hprint : ∀ t, ∃ es, print t w = (Ret (), {| table := table w; trace := trace w ++ es |}) ∧
    ∀ pid sig, Kill pid sig ∈ es → 0 ≤ sig < 64 ∧ own_target (table w) pid).
  { intros t. exists [Printed t]. split; [done|].
    by intros pid sig [=]%list_elem_of_singleton. }
  assert (Hkill : ∀ pid sig t, 0 ≤ sig < 64 → own_target (table w) pid →
    ∃ es, kill kill_ok pid sig t w = (Ret (), {| table := table w; trace := trace w ++ es |}) ∧
    ∀ pid sig, Kill pid sig ∈ es → 0 ≤ sig < 64 ∧ own_target (table w) pid).
  { intros pid sig t Hsig Hown.
    exists [Kill pid sig; Printed (if kill_ok pid sig then t
                                   else lit "ping: no such process found" ++ [NL])].
    split.
    - unfold kill, no_such_process, print, tell, modify. munfold. cbn [table trace].
      destruct (kill_ok pid sig); cbn [table trace]; by rewrite <-app_assoc.
    - intros pid' sig' [[= -> ->]|[=]%list_elem_of_singleton]%elem_of_cons. done. }
  unfold ping_command.
  destruct args as [|a0 [|target [|sig_str [|]]]]; try apply Hprint.
  destruct (is_valid_nonneg_int sig_str) eqn:Hs; [|apply Hprint].
  destruct (rem_64 _ (strtol_digits _ Hs)) as [-> Hsig]. cbn [negb].
  set (is_job := match target with c :: _ => _ | [] => _ end).
  set (num := if is_job then tail target else target).
  destruct (is_valid_nonneg_int num); [|apply Hprint]. cbn [negb].
  destruct is_job; munfold.
  - destruct (group_lookup (i32 _) 64 (table w)) as [[[pgid st] name]|] eqn:E;
      [|apply Hprint].
    apply Hkill; [done|]. by eapply group_lookup_own.
  - destruct (pid_is_tracked _ (table w)) eqn:E; [|apply Hprint].
    apply Hkill; [done|]. by left.
Qed.

(** [ping <pid> <n>] on a process the shell tracks sends it the signal
    [n mod 64] and reports the number as it was typed. *)
Theorem ping_pid (kill_ok : Z → Z → bool) (pid n : Z) (w : world) :
  0 ≤ pid < 2 ^ 31 → 0 ≤ n ≤ LONG_MAX → kill_ok pid (n mod 64) = true →
  snd (ping_command kill_ok [lit "ping"; print_Z pid; print_Z n] w)
  = {| table := table w; trace := trace w ++
         (if pid_is_tracked pid (table w) then
            [Kill pid (n mod 64); Printed (lit "Sent signal " ++ print_Z n ++ lit " to "
                                             ++ print_Z pid ++ [NL])]
          else [Printed (lit "ping: no such process found" ++ [NL])]) |}.
Proof.
  intros Hp Hn Hk.
  assert (Hvalid : ∀ v, 0 ≤ v → is_valid_nonneg_int (print_Z v) = true).
  { intros v Hv. unfold is_valid_nonneg_int.
    rewrite bool_decide_eq_false_2 by (by apply print_Z_nonempty).
    apply forallb_forall. intros c Hc%list_elem_of_In. by eapply print_Z_digits. }
  assert (Hstr : ∀ v, 0 ≤ v ≤ LONG_MAX → fst (strtol (print_Z v)) = v).
  { intros v Hv. rewrite <-(app_nil_r (print_Z v)). by rewrite strtol_print. }
  unfold ping_command. rewrite Hvalid by lia. cbn [negb].
  rewrite Hstr by lia. destruct (rem_64 n ltac:(lia)) as [-> _].
  assert (match print_Z pid with c :: _ => Ascii.eqb c "%" | [] => false end = false) as ->.
  { destruct (print_Z pid) as [|c s] eqn:E; [done|].
    assert (Hd : is_digit c = true) by (apply (print_Z_digits pid); [lia|rewrite E; by left]).
    destruct c as [[] [] [] [] [] [] [] []]; try done; by vm_compute in Hd. }
  rewrite Hvalid by lia. cbn [negb]. rewrite Hstr by (unfold LONG_MAX; lia).
  assert (i32 pid = pid) as ->.
  { unfold i32. rewrite Z.mod_small by lia. lia. }
  munfold. destruct (pid_is_tracked pid (table w)); [|done].
  cbn [negb]. unfold kill. munfold. rewrite Hk. unfold print, tell, modify. cbn.
  by rewrite <-app_assoc.
Qed.

Lemma ping_pid_witness :
  trace (snd (ping_command (λ _ _, true) [lit "ping"; print_Z 42; print_Z 73]
    {| table := stopped_job; trace := [] |}))
  = [Kill 42 9; Printed (lit "Sent signal 73 to 42" ++ [NL])].
Proof.
  rewrite (ping_pid (λ _ _, true) 42 73) by (unfold LONG_MAX; lia || done).
  vm_compute. reflexivity.
Defined.
