(* ===== verification/Proc.v ===== *)
(** * Processes of the xv6 kernel (kernel/proc.h, kernel/proc.c)

    The process table and the operations on it: allocation, fork, exit, wait,
    sleep and wakeup, kill.  A critical section under [p->lock] is one change
    of one entry of the table; a loop that takes the locks one after the other
    is the composition of these changes.  User memory, files and the trapframe
    page enter as the results of their allocation. *)

From S2P Require Import Prelude.

Open Scope Z_scope.

(** ** Data *)
Definition NPROC : nat := 64.
Definition NCPU : nat := 8.

Inductive procstate := UNUSED | USED | SLEEPING | RUNNABLE | RUNNING | ZOMBIE.

#[export] Instance procstate_eq_dec : EqDecision procstate.
Proof. solve_decision. Defined.

(** Which scheduler is compiled in: SCHED_MLFQ, SCHED_FIFO or SCHED_RR. *)
Inductive policy := MLFQ | FIFO | RR.

#[export] Instance policy_eq_dec : EqDecision policy.
Proof. solve_decision. Defined.

(** What a process sleeps on: the address of a process, of [ticks], or of any
    other object of the kernel. *)
Inductive chan_addr :=
  | ProcAddr (i : nat)
  | TicksAddr
  | OtherAddr (a : Z).

#[export] Instance chan_addr_eq_dec : EqDecision chan_addr.
Proof. solve_decision. Defined.

(** [None] is the null pointer of [chan] and [parent]. *)
Record proc := {
  state : procstate;
  chan : option chan_addr;
  killed_flag : bool;
  xstate : Z;
  pid : Z;
  parent : option nat;
  has_memory : bool;
  queue : Z;
  ticks_in_slice : Z;
  enter_time : Z;
  ctime : Z;
  ttime : Z;
  rtime : Z;
  wtime : Z;
  stime : Z;
  first_run_time : Z;
  has_run : bool;
}.

Record kernel := {
  procs : list proc;
  nextpid : Z;
  initproc : nat;
  ticks : Z;
}.

(** ** Field updates *)
Definition with_state (st : procstate) (p : proc) : proc := {|
  state := st; chan := chan p; killed_flag := killed_flag p; xstate := xstate p;
  pid := pid p; parent := parent p; has_memory := has_memory p; queue := queue p;
  ticks_in_slice := ticks_in_slice p; enter_time := enter_time p; ctime := ctime p;
  ttime := ttime p; rtime := rtime p; wtime := wtime p; stime := stime p;
  first_run_time := first_run_time p; has_run := has_run p |}.

Definition with_chan (c : option chan_addr) (p : proc) : proc := {|
  state := state p; chan := c; killed_flag := killed_flag p; xstate := xstate p;
  pid := pid p; parent := parent p; has_memory := has_memory p; queue := queue p;
  ticks_in_slice := ticks_in_slice p; enter_time := enter_time p; ctime := ctime p;
  ttime := ttime p; rtime := rtime p; wtime := wtime p; stime := stime p;
  first_run_time := first_run_time p; has_run := has_run p |}.

Definition with_killed (p : proc) : proc := {|
  state := state p; chan := chan p; killed_flag := true; xstate := xstate p;
  pid := pid p; parent := parent p; has_memory := has_memory p; queue := queue p;
  ticks_in_slice := ticks_in_slice p; enter_time := enter_time p; ctime := ctime p;
  ttime := ttime p; rtime := rtime p; wtime := wtime p; stime := stime p;
  first_run_time := first_run_time p; has_run := has_run p |}.

Definition with_parent (pp : option nat) (p : proc) : proc := {|
  state := state p; chan := chan p; killed_flag := killed_flag p; xstate := xstate p;
  pid := pid p; parent := pp; has_memory := has_memory p; queue := queue p;
  ticks_in_slice := ticks_in_slice p; enter_time := enter_time p; ctime := ctime p;
  ttime := ttime p; rtime := rtime p; wtime := wtime p; stime := stime p;
  first_run_time := first_run_time p; has_run := has_run p |}.

(** The fields of the scheduler. *)
Definition with_sched (q slice enter : Z) (p : proc) : proc := {|
  state := state p; chan := chan p; killed_flag := killed_flag p; xstate := xstate p;
  pid := pid p; parent := parent p; has_memory := has_memory p; queue := q;
  ticks_in_slice := slice; enter_time := enter; ctime := ctime p;
  ttime := ttime p; rtime := rtime p; wtime := wtime p; stime := stime p;
  first_run_time := first_run_time p; has_run := has_run p |}.

(** The fields of the accounting. *)
Definition with_times (r w s first : Z) (ran : bool) (p : proc) : proc := {|
  state := state p; chan := chan p; killed_flag := killed_flag p; xstate := xstate p;
  pid := pid p; parent := parent p; has_memory := has_memory p; queue := queue p;
  ticks_in_slice := ticks_in_slice p; enter_time := enter_time p; ctime := ctime p;
  ttime := ttime p; rtime := r; wtime := w; stime := s;
  first_run_time := first; has_run := ran |}.

Definition with_exit (st : procstate) (status time : Z) (p : proc) : proc := {|
  state := st; chan := chan p; killed_flag := killed_flag p; xstate := status;
  pid := pid p; parent := parent p; has_memory := has_memory p; queue := queue p;
  ticks_in_slice := ticks_in_slice p; enter_time := enter_time p; ctime := ctime p;
  ttime := time; rtime := rtime p; wtime := wtime p; stime := stime p;
  first_run_time := first_run_time p; has_run := has_run p |}.

Definition set_procs (k : kernel) (ps : list proc) : kernel :=
  {| procs := ps; nextpid := nextpid k; initproc := initproc k; ticks := ticks k |}.

(** Change entry [i] of the table. *)
Definition update (i : nat) (f : proc → proc) (k : kernel) : kernel :=
  set_procs k (alter f i (procs k)).

(** Zeroed memory: the table before [procinit]. *)
Definition zero_proc : proc := {|
  state := UNUSED; chan := None; killed_flag := false; xstate := 0; pid := 0;
  parent := None; has_memory := false; queue := 0; ticks_in_slice := 0;
  enter_time := 0; ctime := 0; ttime := 0; rtime := 0; wtime := 0; stime := 0;
  first_run_time := 0; has_run := false |}.

Definition procinit : kernel :=
  {| procs := replicate NPROC zero_proc; nextpid := 1; initproc := 0; ticks := 0 |}.

(** ** Allocation *)

(** [nextpid] is an [int]: it wraps. *)
Definition allocpid (k : kernel) : kernel * Z :=
  ({| procs := procs k; nextpid := i32 (nextpid k + 1); initproc := initproc k;
      ticks := ticks k |}, nextpid k).

(** The parent pointer is not reset here. *)
Definition freeproc (p : proc) : proc := {|
  state := UNUSED; chan := None; killed_flag := false; xstate := 0; pid := 0;
  parent := parent p; has_memory := false; queue := 0; ticks_in_slice := 0;
  enter_time := 0; ctime := 0; ttime := 0; rtime := 0; wtime := 0; stime := 0;
  first_run_time := 0; has_run := false |}.

(** An entry that was found UNUSED, when its trapframe page and its page table
    could be allocated.  [killed], [chan], [xstate] and [parent] are not
    initialised. *)
Definition alloc_entry (id now : Z) (p : proc) : proc := {|
  state := USED; chan := chan p; killed_flag := killed_flag p; xstate := xstate p;
  pid := id; parent := parent p; has_memory := true; queue := 0; ticks_in_slice := 0;
  enter_time := i32 now; ctime := now; ttime := 0; rtime := 0; wtime := 0; stime := 0;
  first_run_time := 0; has_run := false |}.

Fixpoint find_state (st : procstate) (ps : list proc) : option nat :=
  match ps with
  | [] => None
  | p :: ps => if decide (state p = st) then Some 0%nat else S <$> find_state st ps
  end.

(** The index of the new process; [memory] is whether the allocations of the
    trapframe and of the page table succeed. *)
Definition allocproc (memory : bool) (k : kernel) : kernel * option nat :=
  match find_state UNUSED (procs k) with
  | None => (k, None)
  | Some i =>
      let (k, id) := allocpid k in
      if memory then (update i (alloc_entry id (ticks k)) k, Some i)
      else (update i freeproc k, None)
  end.

Definition userinit (k : kernel) : kernel :=
  match allocproc true k with
  | (k, Some i) =>
      update i (with_state RUNNABLE)
        {| procs := procs k; nextpid := nextpid k; initproc := i; ticks := ticks k |}
  | (k, None) => k
  end.

(** [kfork] is three critical sections, with interrupts on in between: up to
    the release of [np->lock], with [copied] whether [uvmcopy] succeeds; *)
Definition fork_alloc (memory copied : bool) (k : kernel) : kernel * option nat :=
  match allocproc memory k with
  | (k, None) => (k, None)
  | (k, Some np) => if copied then (k, Some np) else (update np freeproc k, None)
  end.

(** under [wait_lock]; *)
Definition fork_parent (p np : nat) (k : kernel) : kernel :=
  update np (with_parent (Some p)) k.

(** and under [np->lock] again. *)
Definition fork_run (np : nat) (k : kernel) : kernel := update np (with_state RUNNABLE) k.

(** [p] forks without an interrupt: the pid of the child, or -1. *)
Definition kfork (p : nat) (memory copied : bool) (k : kernel) : kernel * Z :=
  match fork_alloc memory copied k with
  | (k, None) => (k, -1)
  | (k, Some np) =>
      let id := match procs k !! np with Some c => pid c | None => -1 end in
      (fork_run np (fork_parent p np k), id)
  end.

Section Policy.
Context (pol : policy).

(** [#ifdef SCHED_MLFQ] *)
Definition if_mlfq {A} (a b : A) : A := if decide (pol = MLFQ) then a else b.

(** ** Sleep and wakeup *)

(** Back to the tail of the current queue with a fresh slice. *)
Definition make_runnable (now : Z) (p : proc) : proc :=
  let p := with_state RUNNABLE p in
  if_mlfq (with_sched (queue p) 0 (i32 now) p) p.

(** The critical section of [wakeup] for one process. *)
Definition wake_proc (c : option chan_addr) (now : Z) (p : proc) : proc :=
  if decide (chan p = c) then
    let p := with_chan None p in
    if decide (state p = SLEEPING) then make_runnable now p else p
  else p.

Definition wakeup (c : option chan_addr) (k : kernel) : kernel :=
  set_procs k (wake_proc c (ticks k) <$> procs k).

(** A null channel panics. *)
Definition sleep_prepare (p : nat) (c : chan_addr) (k : kernel) : kernel :=
  update p (with_chan (Some c)) k.

(** The critical section of [sleep]: to sleep, unless the wakeup already
    happened.  [true] when the process gives up the CPU. *)
Definition sleep_proc (p : proc) : proc * bool :=
  match chan p with
  | Some _ =>
      let p := with_state SLEEPING p in
      (if_mlfq (with_sched (queue p) 0 (enter_time p) p) p, true)
  | None => (p, false)
  end.

Definition sleep (i : nat) (k : kernel) : kernel * bool :=
  match procs k !! i with
  | Some p => (update i (λ p, fst (sleep_proc p)) k, snd (sleep_proc p))
  | None => (k, false)
  end.

(** ** Kill *)
Definition kill_proc (now : Z) (p : proc) : proc :=
  let p := with_killed p in
  if decide (state p = SLEEPING) then make_runnable now p else p.

Fixpoint find_pid (id : Z) (ps : list proc) : option nat :=
  match ps with
  | [] => None
  | p :: ps => if pid p =? id then Some 0%nat else S <$> find_pid id ps
  end.

Definition kkill (id : Z) (k : kernel) : kernel * Z :=
  match find_pid id (procs k) with
  | Some i => (update i (kill_proc (ticks k)) k, 0)
  | None => (k, -1)
  end.

Definition setkilled (i : nat) (k : kernel) : kernel := update i with_killed k.

Definition killed (i : nat) (k : kernel) : bool :=
  match procs k !! i with Some p => killed_flag p | None => false end.

(** ** Exit *)

(** The children of [p] are given to init, which is woken for each of them. *)
Fixpoint reparent_from (p : nat) (n i : nat) (k : kernel) : kernel :=
  match n with
  | O => k
  | S n =>
      let k :=
        if decide ((procs k !! i) ≫= parent = Some p)
        then wakeup (Some (ProcAddr (initproc k)))
               (update i (with_parent (Some (initproc k))) k)
        else k in
      reparent_from p n (S i) k
  end.

Definition reparent (p : nat) (k : kernel) : kernel := reparent_from p NPROC 0 k.

(** [None] is the panic of an exiting init.  The files are closed before. *)
Definition kexit (p : nat) (status : Z) (k : kernel) : option kernel :=
  if decide (p = initproc k) then None
  else
    let k := reparent p k in
    let k := wakeup (ProcAddr <$> ((procs k !! p) ≫= parent)) k in
    Some (update p (with_exit ZOMBIE status (ticks k)) k).

(** ** Wait *)
Inductive scan_result :=
  | Zombie (i : nat)
  | NoZombie (havekids : bool).

(** The scan of the table for an exited child. *)
Fixpoint scan_children (p : nat) (i : nat) (havekids : bool) (ps : list proc)
    : scan_result :=
  match ps with
  | [] => NoZombie havekids
  | pp :: ps =>
      if decide (parent pp = Some p) then
        if decide (state pp = ZOMBIE) then Zombie i
        else scan_children p (S i) true ps
      else scan_children p (S i) havekids ps
  end.

Inductive wait_result :=
  | Returns (id : Z)
  | Sleeps.

Definition reap_child (i : nat) (k : kernel) : kernel :=
  update i freeproc (update i (with_parent None) k).

(** What the scan decides; [copied] is whether the copies to user memory of a
    zombie's fields succeed.  A waiting process has registered on its own
    address. *)
Definition wait_body (copied : proc → bool) (p : nat) (k : kernel)
    : kernel * wait_result :=
  match scan_children p 0 false (procs k) with
  | Zombie i =>
      match procs k !! i with
      | Some pp => if copied pp then (reap_child i k, Returns (pid pp)) else (k, Returns (-1))
      | None => (k, Returns (-1))
      end
  | NoZombie havekids =>
      if negb havekids || killed p k then (k, Returns (-1))
      else (sleep_prepare p (ProcAddr p) k, Sleeps)
  end.

(** One turn of the loop of [kwait]: [copyout] tells whether [xstate] could be
    stored at [addr]. *)
Definition kwait_turn (copyout : Z → Z → bool) (addr : Z) : nat → kernel → kernel * wait_result :=
  wait_body (λ pp, (addr =? 0) || copyout addr (xstate pp)).

Definition response_time (pp : proc) : Z :=
  if has_run pp && (ctime pp <=? first_run_time pp)
  then first_run_time pp - ctime pp else 0.

(** One turn of the loop of [kwaitx]. *)
Definition kwaitx_turn (copyout : Z → Z → bool) (addr wtime_addr rtime_addr resp_addr : Z)
    : nat → kernel → kernel * wait_result :=
  wait_body (λ pp,
    ((addr =? 0) || copyout addr (xstate pp)) &&
    ((wtime_addr =? 0) || copyout wtime_addr (wtime pp)) &&
    ((rtime_addr =? 0) || copyout rtime_addr (rtime pp)) &&
    ((resp_addr =? 0) || copyout resp_addr (i32 (response_time pp)))).
End Policy.
