(* ===== verification/Sched.v ===== *)
(** * Scheduling in the xv6 kernel (kernel/proc.c, kernel/trap.c)

    The three scheduling policies, the time accounting and the work of a timer
    interrupt: queue, slice, demotion, preemption and priority boost. *)

From S2P Require Import Prelude Proc.

Open Scope Z_scope.

(** [slice_limit], with the queue as an index. *)
Definition slice_limit (q : Z) : Z :=
  nth (Z.to_nat q) [1; 4; 8; 16] 0.

Definition BOOST : Z := 48.

Section Policy.
Context (pol : policy).

(** ** Accounting *)

(** The critical section of [update_proc_time] for one process. *)
Definition account (now : Z) (p : proc) : proc :=
  match state p with
  | RUNNING =>
      let p := with_times (u32 (rtime p + 1)) (wtime p) (stime p)
                 (if has_run p then first_run_time p else now) true p in
      if_mlfq pol (with_sched (queue p) (ticks_in_slice p + 1) (enter_time p) p) p
  | RUNNABLE =>
      with_times (rtime p) (u32 (wtime p + 1)) (stime p) (first_run_time p) (has_run p) p
  | SLEEPING =>
      with_times (rtime p) (wtime p) (u32 (stime p + 1)) (first_run_time p) (has_run p) p
  | _ => p
  end.

Definition update_proc_time (k : kernel) : kernel :=
  set_procs k (account (ticks k) <$> procs k).

(** ** Priorities *)
Definition boost_proc (now : Z) (p : proc) : proc :=
  if decide (state p = UNUSED) then p else with_sched 0 0 (i32 now) p.

Definition boost_priority (k : kernel) : kernel :=
  if_mlfq pol (set_procs k (boost_proc (ticks k) <$> procs k)) k.

Definition higher_priority_proc_runnable (current_queue : Z) (k : kernel) : bool :=
  if_mlfq pol
    (existsb (λ p, bool_decide (state p = RUNNABLE) && (queue p <? current_queue)) (procs k))
    false.

(** ** The timer interrupt *)

(** The work of [clockintr] on CPU 0. *)
Definition clockintr (k : kernel) : kernel :=
  let k := {| procs := procs k; nextpid := nextpid k; initproc := initproc k;
              ticks := u32 (ticks k + 1) |} in
  let k := wakeup pol (Some TicksAddr) k in
  let k := update_proc_time k in
  if_mlfq pol (if ticks k mod BOOST =? 0 then boost_priority k else k) k.

(** The critical section of [yield]: [RUNNING] to [RUNNABLE], at the tail of
    its queue. *)
Definition yield_proc (now : Z) (p : proc) : proc :=
  let p := with_state RUNNABLE p in
  if_mlfq pol (with_sched (queue p) (ticks_in_slice p) (i32 now) p) p.

Definition yield (i : nat) (k : kernel) : kernel := update i (yield_proc (ticks k)) k.

Definition demote_proc (now : Z) (p : proc) : proc :=
  with_sched (if queue p <? 3 then queue p + 1 else queue p) 0 (i32 now) p.

(** The end of [usertrap] and [kerneltrap] for a timer interrupt in process
    [i]; [true] when the process gives up the CPU. *)
Definition timer_preempt (i : nat) (k : kernel) : kernel * bool :=
  match procs k !! i with
  | None => (k, false)
  | Some p =>
      match pol with
      | MLFQ =>
          if decide (state p = RUNNING) then
            if slice_limit (queue p) <=? ticks_in_slice p then
              (yield i (update i (demote_proc (ticks k)) k), true)
            else if higher_priority_proc_runnable (queue p) k then
              (yield i (update i (λ p, with_sched (queue p) (ticks_in_slice p)
                                         (i32 (ticks k)) p) k), true)
            else (k, false)
          else (k, false)
      | FIFO => (k, false)
      | RR => (yield i k, true)
      end
  end.

(** ** The schedulers *)

(** What the scan of a scheduler does with one unlocked process: to keep the
    best so far, or to take the new one. *)
Definition mlfq_better (q : Z) (best : option proc) (p : proc) : bool :=
  bool_decide (state p = RUNNABLE) && (queue p =? q) &&
  match best with None => true | Some b => enter_time p <? enter_time b end.

Definition fifo_better (best : option proc) (p : proc) : bool :=
  bool_decide (state p = RUNNABLE) &&
  match best with None => true | Some b => ctime p <? ctime b end.

(** The scan of the table from index [i]. *)
Fixpoint scan (better : option proc → proc → bool) (i : nat)
    (best : option (nat * proc)) (ps : list proc) : option nat :=
  match ps with
  | [] => fst <$> best
  | p :: ps =>
      scan better (S i) (if better (snd <$> best) p then Some (i, p) else best) ps
  end.

Definition mlfq_scan (q : Z) (ps : list proc) : option nat :=
  scan (mlfq_better q) 0 None ps.

Definition fifo_scan (ps : list proc) : option nat := scan fifo_better 0 None ps.

(** Queues 0 to 3 in order, until one has a runnable process. *)
Fixpoint mlfq_queues (qs : list Z) (ps : list proc) : option nat :=
  match qs with
  | [] => None
  | q :: qs =>
      match mlfq_scan q ps with
      | Some i => Some i
      | None => mlfq_queues qs ps
      end
  end.

(** Round robin goes on after the process that ran last, up to the end of the
    table, and starts over. *)
Definition rr_scan (from : nat) (ps : list proc) : option nat :=
  match find_state RUNNABLE (drop from ps) with
  | Some j => Some (from + j)%nat
  | None => find_state RUNNABLE ps
  end.

(** The process that the scheduler switches to; [last] is where a round-robin
    scan goes on. *)
Definition pick (last : nat) (ps : list proc) : option nat :=
  match pol with
  | MLFQ => mlfq_queues [0; 1; 2; 3] ps
  | FIFO => fifo_scan ps
  | RR => rr_scan last ps
  end.

(** One turn of [scheduler]: nobody to run means waiting for an interrupt. *)
Definition schedule (last : nat) (k : kernel) : kernel * option nat :=
  match pick last (procs k) with
  | Some i => (update i (with_state RUNNING) k, Some i)
  | None => (k, None)
  end.
End Policy.

(** ** The scan finds the first minimum *)
Section Scan.
Context (elig : proc → bool) (key : proc → Z).

Definition key_better (best : option proc) (p : proc) : bool :=
  elig p && match best with None => true | Some b => key p <? key b end.

(** [i] is the first index of an eligible process with the least key. *)
Definition first_min (ps : list proc) (i : nat) : Prop :=
  ∃ p, ps !! i = Some p ∧ elig p = true ∧
    ∀ j p', ps !! j = Some p' → elig p' = true →
      key p < key p' ∨ key p = key p' ∧ (i ≤ j)%nat.

Lemma scan_invariant seen ps best :
  match best with
  | None => ∀ p, p ∈ seen → elig p = false
  | Some (b, p) => seen !! b = Some p ∧ first_min seen b
  end →
  match scan key_better (length seen) best ps with
  | Some i => first_min (seen ++ ps) i
  | None => ∀ p, p ∈ seen ++ ps → elig p = false
  end.
Proof.
  revert seen best. induction ps as [|p ps IH]; intros seen best Hb; cbn [scan].
  { rewrite app_nil_r. destruct best as [[b pb]|]; [|done]. apply Hb. }
  replace (S (length seen)) with (length (seen ++ [p])) by (rewrite length_app; simpl; lia).
  replace (seen ++ p :: ps) with ((seen ++ [p]) ++ ps) by (by rewrite <-app_assoc).
  apply IH. unfold key_better. destruct best as [[b pb]|]; cbn [fmap option_fmap option_map snd].
  - destruct Hb as [Hl (pb' & Hl' & He & Hmin)].
    assert (pb' = pb) as -> by congruence.
    assert (Hlt : (b < length seen)%nat) by by eapply lookup_lt_Some.
    destruct (elig p) eqn:Hp; [destruct (key p <? key pb) eqn:Hk|]; cbn [andb].
    + apply Z.ltb_lt in Hk. split; [by apply list_lookup_middle|].
      exists p. split_and!; [by apply list_lookup_middle|done|]. intros j p' Hj Hp'.
      apply lookup_app_Some in Hj as [Hj|[Hj Hj']].
      * destruct (Hmin j p' Hj Hp') as [?|[? ?]]; left; lia.
      * destruct (j - length seen)%nat eqn:E; simplify_eq/=. right. lia.
    + apply Z.ltb_ge in Hk. split; [by apply lookup_app_l_Some|]. exists pb.
      split_and!; [by apply lookup_app_l_Some|done|]. intros j p' Hj Hp'.
      apply lookup_app_Some in Hj as [Hj|[Hj Hj']]; [by apply Hmin|].
      destruct (j - length seen)%nat eqn:E; simplify_eq/=.
      destruct (decide (key pb = key p')); [right|left]; lia.
    + split; [by apply lookup_app_l_Some|]. exists pb.
      split_and!; [by apply lookup_app_l_Some|done|]. intros j p' Hj Hp'.
      apply lookup_app_Some in Hj as [Hj|[Hj Hj']]; [by apply Hmin|].
      destruct (j - length seen)%nat eqn:E; simplify_eq/=. congruence.
  - destruct (elig p) eqn:Hp; cbn [andb].
    + split; [by apply list_lookup_middle|]. exists p.
      split_and!; [by apply list_lookup_middle|done|]. intros j p' Hj Hp'.
      apply lookup_app_Some in Hj as [Hj|[Hj Hj']].
      * apply list_elem_of_lookup_2, Hb in Hj. congruence.
      * destruct (j - length seen)%nat eqn:E; simplify_eq/=. right. lia.
    + intros p' [Hp'| ->%list_elem_of_singleton]%elem_of_app; [by apply Hb|done].
Qed.

Lemma scan_first_min ps :
  match scan key_better 0 None ps with
  | Some i => first_min ps i
  | None => ∀ p, p ∈ ps → elig p = false
  end.
Proof. apply (scan_invariant [] ps None). by intros p ?%elem_of_nil. Qed.

Lemma first_min_unique ps i j : first_min ps i → first_min ps j → i = j.
Proof.
  intros (p & Hp & Ep & Hi) (p' & Hp' & Ep' & Hj).
  specialize (Hi j p' Hp' Ep'). specialize (Hj i p Hp Ep). lia.
Qed.
End Scan.

Lemma mlfq_scan_spec q ps :
  match mlfq_scan q ps with
  | Some i => first_min (λ p, bool_decide (state p = RUNNABLE) && (queue p =? q)) enter_time ps i
  | None => ∀ p, p ∈ ps → bool_decide (state p = RUNNABLE) && (queue p =? q) = false
  end.
Proof. apply scan_first_min. Qed.

Lemma fifo_scan_spec ps :
  match fifo_scan ps with
  | Some i => first_min (λ p, bool_decide (state p = RUNNABLE)) ctime ps i
  | None => ∀ p, p ∈ ps → bool_decide (state p = RUNNABLE) = false
  end.
Proof. apply scan_first_min. Qed.

(** The priority order of the MLFQ scheduler: queue, then arrival in it, then
    place in the table. *)
Definition before (i : nat) (p : proc) (j : nat) (p' : proc) : Prop :=
  queue p < queue p' ∨
  queue p = queue p' ∧ (enter_time p < enter_time p' ∨
    enter_time p = enter_time p' ∧ (i ≤ j)%nat).

Lemma mlfq_queues_first n lo ps :
  lo + Z.of_nat n = 4 →
  (∀ p, p ∈ ps → state p = RUNNABLE → lo ≤ queue p ≤ 3) →
  match mlfq_queues (seqZ lo (Z.of_nat n)) ps with
  | Some i => ∃ p, ps !! i = Some p ∧ state p = RUNNABLE ∧
      ∀ j p', ps !! j = Some p' → state p' = RUNNABLE → before i p j p'
  | None => ∀ p, p ∈ ps → state p ≠ RUNNABLE
  end.
Proof.
  revert lo. induction n as [|n IH]; intros lo Hn Hps.
  { intros p Hp Hr. specialize (Hps p Hp Hr). lia. }
  rewrite seqZ_cons by lia. replace (Z.of_nat (S n) - 1) with (Z.of_nat n) by lia.
  replace (Z.pred (Z.of_nat (S n))) with (Z.of_nat n) by lia.
  cbn [mlfq_queues]. pose proof (mlfq_scan_spec lo ps) as Hs.
  destruct (mlfq_scan lo ps) as [i|].
  - destruct Hs as (p & Hp & He & Hmin). apply andb_true_iff in He as [Hr%bool_decide_eq_true Hq%Z.eqb_eq].
    exists p. split_and!; [done|done|]. intros j p' Hj Hr'.
    assert (Hin : p' ∈ ps) by by eapply list_elem_of_lookup_2.
    destruct (decide (queue p' = lo)) as [Hq'|Hq'].
    + right. split; [lia|]. apply (Hmin j p' Hj).
      rewrite bool_decide_eq_true_2 by done. by apply Z.eqb_eq.
    + left. specialize (Hps p' Hin Hr'). lia.
  - apply IH; [lia|]. intros p Hp Hr. specialize (Hs p Hp). specialize (Hps p Hp Hr).
    rewrite bool_decide_eq_true_2 in Hs by done. apply Z.eqb_neq in Hs. lia.
Qed.

Lemma lookup_update_any i f k j :
  procs (update i f k) !! j = (if decide (j = i) then f else id) <$> procs k !! j.
Proof.
  unfold update. cbn. case_decide as Hj.
  - subst. by rewrite list_lookup_alter_eq.
  - rewrite list_lookup_alter_ne by done. by destruct (procs k !! j).
Qed.

Lemma mlfq_pick (last : nat) (ps : list proc) :
  Forall (λ p, 0 ≤ queue p ≤ 3) ps →
  match pick MLFQ last ps with
  | Some i => ∃ p, ps !! i = Some p ∧ state p = RUNNABLE ∧
      ∀ j p', ps !! j = Some p' → state p' = RUNNABLE → before i p j p'
  | None => ∀ p, p ∈ ps → state p ≠ RUNNABLE
  end.
Proof.
  intros Hq. apply (mlfq_queues_first 4 0); [done|].
  intros p Hp _. rewrite Forall_forall in Hq. by apply Hq.
Qed.

(** C36: the MLFQ scheduler switches to the runnable process that is first in
    the order of queue, arrival time in the queue and place in the table,
    changes nothing else, and stays idle only when no process is runnable. *)
Theorem mlfq_schedule (last : nat) (k : kernel) :
  Forall (λ p, 0 ≤ queue p ≤ 3) (procs k) →
  match schedule MLFQ last k with
  | (k', Some i) => ∃ p, procs k !! i = Some p ∧ state p = RUNNABLE ∧
      procs k' = <[i := with_state RUNNING p]> (procs k) ∧
      ∀ j p', procs k !! j = Some p' → state p' = RUNNABLE → before i p j p'
  | (k', None) => k' = k ∧ ∀ p, p ∈ procs k → state p ≠ RUNNABLE
  end.
Proof.
  intros Hq. unfold schedule. pose proof (mlfq_pick last (procs k) Hq) as H.
  destruct (pick MLFQ last (procs k)) as [i|]; [|done].
  destruct H as (p & Hp & Hr & Hmin). exists p. split_and!; [done..| |done].
  apply list_eq. intros j. rewrite lookup_update_any. case_decide as Hj.
  - subst. rewrite list_lookup_insert_eq, Hp; [done|by eapply lookup_lt_Some].
  - rewrite list_lookup_insert_ne by done. by destruct (procs k !! j).
Qed.

(** Three processes: a demoted one, two in queue 0 that arrived in the order
    opposite to their place. *)
Definition mk_proc (st : procstate) (id q enter : Z) : proc :=
  with_sched q 0 enter (with_state st (alloc_entry id 0 zero_proc)).

Definition three : kernel :=
  {| procs := [mk_proc RUNNABLE 1 2 0; mk_proc RUNNABLE 2 0 9; mk_proc RUNNABLE 3 0 7];
     nextpid := 4; initproc := 0; ticks := 9 |}.

Lemma mlfq_schedule_witness :
  snd (schedule MLFQ 0 three) = Some 2%nat ∧
  ∀ j p', procs three !! j = Some p' → state p' = RUNNABLE →
    before 2 (mk_proc RUNNABLE 3 0 7) j p'.
Proof.
  split; [reflexivity|].
  assert (H : Forall (λ p, 0 ≤ queue p ≤ 3) (procs three)).
  { repeat constructor; simpl; lia. }
  destruct (mlfq_schedule 0 three H) as (p & Hp & _ & _ & Hmin).
  injection Hp as <-. exact Hmin.
Defined.

Lemma find_state_spec st ps :
  match find_state st ps with
  | Some i => ∃ p, ps !! i = Some p ∧ state p = st ∧
      ∀ j p', (j < i)%nat → ps !! j = Some p' → state p' ≠ st
  | None => ∀ p, p ∈ ps → state p ≠ st
  end.
Proof.
  induction ps as [|p ps IH]; cbn [find_state]; [by intros p ?%elem_of_nil|].
  case_decide as Hp.
  { exists p. split_and!; try done. intros; lia. }
  destruct (find_state st ps) as [i|]; cbn.
  - destruct IH as (p' & Hl & Hs & Hmin). exists p'. split_and!; [done|done|].
    intros [|j] q Hj Hq; simplify_eq/=; [done|]. eapply Hmin; [|done]. lia.
  - intros q [->|Hq]%elem_of_cons; [done|]. by apply IH.
Qed.

(** the FIFO scheduler runs the runnable process that was created first;
    round robin runs the first runnable process after the last one, or the
    first of the table when there is none; both are idle only when no process
    is runnable. *)
Theorem fifo_rr_pick (last : nat) (ps : list proc) :
  match pick FIFO last ps with
  | Some i => ∃ p, ps !! i = Some p ∧ state p = RUNNABLE ∧
      ∀ j p', ps !! j = Some p' → state p' = RUNNABLE →
        ctime p < ctime p' ∨ ctime p = ctime p' ∧ (i ≤ j)%nat
  | None => ∀ p, p ∈ ps → state p ≠ RUNNABLE
  end ∧
  match pick RR last ps with
  | Some i => ∃ p, ps !! i = Some p ∧ state p = RUNNABLE ∧
      ∀ j p', ps !! j = Some p' → state p' = RUNNABLE →
        (last ≤ i ≤ j ∨ (i ≤ j < last) ∨ (j < last ≤ i))%nat
  | None => ∀ p, p ∈ ps → state p ≠ RUNNABLE
  end.
Proof.
  split.
  - pose proof (fifo_scan_spec ps) as H. cbn [pick]. destruct (fifo_scan ps) as [i|].
    + destruct H as (p & Hp & Hr%bool_decide_eq_true & Hmin). exists p.
      split_and!; [done|done|]. intros j p' Hj Hr'. apply (Hmin j p' Hj).
      by apply bool_decide_eq_true.
    + intros p Hp. specialize (H p Hp). by apply bool_decide_eq_false in H.
  - cbn [pick]. unfold rr_scan. pose proof (find_state_spec RUNNABLE (drop last ps)) as H1.
    destruct (find_state RUNNABLE (drop last ps)) as [i|].
    + destruct H1 as (p & Hp & Hr & Hmin). rewrite lookup_drop in Hp. exists p.
      split_and!; [done|done|]. intros j p' Hj Hr'.
      destruct (decide (j < last)%nat); [lia|]. left. split; [lia|].
      destruct (decide (j < last + i)%nat); [|lia]. exfalso.
      apply (Hmin (j - last)%nat p'); [lia| |done]. rewrite lookup_drop.
      by replace (last + (j - last))%nat with j by lia.
    + pose proof (find_state_spec RUNNABLE ps) as H2. destruct (find_state RUNNABLE ps) as [i|].
      * destruct H2 as (p & Hp & Hr & Hmin). exists p. split_and!; [done|done|].
        assert (Hlt : ∀ j p', ps !! j = Some p' → state p' = RUNNABLE → (j < last)%nat).
        { intros j p' Hj Hr'. destruct (decide (j < last)%nat); [done|]. exfalso.
          apply (H1 p'); [|done]. apply (list_elem_of_lookup_2 _ (j - last)).
          rewrite lookup_drop. by replace (last + (j - last))%nat with j by lia. }
        intros j p' Hj Hr'. specialize (Hlt j p' Hj Hr'). right. left. split; [|lia].
        destruct (decide (j < i)%nat); [|lia]. exfalso. by apply (Hmin j p').
      * done.
Qed.

(** ** Timer ticks *)

(** The tick of a running process on CPU 0: the interrupt and its end. *)
Definition tick (pol : policy) (i : nat) (k : kernel) : kernel * bool :=
  timer_preempt pol i (clockintr pol k).

Lemma wake_proc_sched pol c now p :
  state p ≠ SLEEPING → ∃ c', wake_proc pol c now p = with_chan c' p.
Proof.
  intros Hs. unfold wake_proc. case_decide.
  - rewrite decide_False by done. by eexists.
  - exists (chan p). by destruct p.
Qed.

(** What the interrupt does to a running process between two boosts. *)
Lemma clockintr_running i k p :
  procs k !! i = Some p → state p = RUNNING →
  u32 (ticks k + 1) mod BOOST ≠ 0 →
  ∃ p', procs (clockintr MLFQ k) !! i = Some p' ∧ state p' = RUNNING ∧
    queue p' = queue p ∧ ticks_in_slice p' = ticks_in_slice p + 1.
Proof.
  intros Hp Hr Hb. unfold clockintr, update_proc_time, wakeup, if_mlfq.
  rewrite decide_True by done. cbn [ticks set_procs procs].
  rewrite (proj2 (Z.eqb_neq _ _) Hb). cbn [procs set_procs].
  rewrite !list_lookup_fmap, Hp. cbn.
  destruct (wake_proc_sched MLFQ (Some TicksAddr) (u32 (ticks k + 1)) p) as [c' ->];
    [by rewrite Hr|].
  eexists. split; [done|]. unfold account. cbn [with_chan state]. rewrite Hr.
  unfold if_mlfq. by rewrite decide_True by done.
Qed.

Lemma lookup_update i f k p :
  procs k !! i = Some p → procs (update i f k) !! i = Some (f p).
Proof. intros H. unfold update. cbn. by rewrite list_lookup_alter_eq, H. Qed.

Lemma ticks_clockintr pol k : ticks (clockintr pol k) = u32 (ticks k + 1).
Proof. unfold clockintr, if_mlfq, boost_priority, if_mlfq. repeat case_decide; try done. by case_if. Qed.

(** time slices.  Between two boosts a process in queue [q] that is not
    preempted keeps the CPU until it has used [slice_limit q] ticks; at that
    tick it leaves the CPU for the tail of the next lower queue (queue 3
    keeps its processes) with a fresh slice. *)
Theorem mlfq_slice (i : nat) (k : kernel) (p : proc) :
  procs k !! i = Some p → state p = RUNNING → 0 ≤ queue p ≤ 3 →
  u32 (ticks k + 1) mod BOOST ≠ 0 →
  higher_priority_proc_runnable MLFQ (queue p) (clockintr MLFQ k) = false →
  let used := ticks_in_slice p + 1 in
  let (k', off) := tick MLFQ i k in
  ∃ p', procs k' !! i = Some p' ∧
    if used <? slice_limit (queue p) then
      off = false ∧ state p' = RUNNING ∧ queue p' = queue p ∧ ticks_in_slice p' = used
    else
      off = true ∧ state p' = RUNNABLE ∧ queue p' = Z.min 3 (queue p + 1) ∧
      ticks_in_slice p' = 0 ∧ enter_time p' = i32 (ticks k').
Proof.
  intros Hp Hr Hq Hb Hh used.
  destruct (clockintr_running i k p Hp Hr Hb) as (p1 & Hp1 & Hr1 & Hq1 & Ht1).
  unfold tick, timer_preempt. rewrite Hp1, decide_True, Hq1, Ht1, Hh by done. fold used.
  rewrite Z.ltb_antisym. destruct (slice_limit (queue p) <=? used); cbn [negb].
  - eexists. split; [unfold yield; by apply lookup_update, lookup_update|].
    unfold yield_proc, if_mlfq. rewrite decide_True by done. cbn. rewrite Hq1.
    split_and!; try done. destruct (queue p <? 3) eqn:E; lia.
  - by exists p1.
Qed.

Definition hog : kernel :=
  {| procs := mk_proc RUNNING 1 1 0 :: replicate 63 zero_proc; nextpid := 2;
     initproc := 0; ticks := 5 |}.

Lemma mlfq_slice_witness :
  let (k', off) := tick MLFQ 0 hog in
  off = false ∧ ∃ p', procs k' !! 0%nat = Some p' ∧ ticks_in_slice p' = 1.
Proof.
  pose proof (mlfq_slice 0 hog (mk_proc RUNNING 1 1 0) eq_refl eq_refl) as H.
  destruct (tick MLFQ 0 hog) as [k' off]. destruct H as (p' & Hp & H).
  - simpl. lia.
  - vm_compute. discriminate.
  - vm_compute. reflexivity.
  - cbn in H. destruct H as (Hoff & _ & _ & Ht). split; [exact Hoff|].
    exists p'. split; [exact Hp|exact Ht].
Defined.
