(* ===== verification/System.v ===== *)
(** * Runs of the xv6 kernel on one CPU

    The operations of [Proc] and [Sched] as the labelled steps of a machine
    with one CPU: system calls of the running process, wakeups, timer ticks.
    A step is a stretch of code that runs with interrupts off, so that a tick
    can come between any two; [kfork] is three of them.  After each step the
    scheduler gives a free CPU to a process. *)

From stdpp Require Import functions.
From S2P Require Import Prelude Proc Sched.

Open Scope Z_scope.

(** Where a process is in [kfork]: the child is allocated, or has its parent. *)
Inductive fork_stage :=
  | Allocated (np : nat)
  | Adopted (np : nat).

Definition forked (st : fork_stage) : nat :=
  match st with Allocated np | Adopted np => np end.

Record system := {
  kern : kernel;
  cpu : option nat;   (** the process that runs *)
  next_slot : nat;    (** where a round-robin scan goes on *)
  forking : nat → option fork_stage;
  panicked : bool;    (** init spins in [panic] *)
}.

Inductive op :=
  | Tick
  | SleepPrepare (c : chan_addr)
  | Sleep
  | Wakeup (c : chan_addr)
  | Kill (id : Z)
  | Fork (memory copied : bool)
  | ForkParent
  | ForkRun
  | Exit (status : Z)
  | Wait (copied : bool).

#[export] Instance op_eq_dec : EqDecision op.
Proof. solve_decision. Defined.

(** A fork that no interrupt comes into. *)
Definition spawn : list op := [Fork true true; ForkParent; ForkRun].

Section Policy.
Context (pol : policy).

(** The scheduler, when the CPU is free. *)
Definition dispatch (s : system) : system :=
  match cpu s with
  | Some _ => s
  | None =>
      match schedule pol (next_slot s) (kern s) with
      | (k, Some i) =>
          {| kern := k; cpu := Some i; next_slot := S i; forking := forking s;
             panicked := panicked s |}
      | (k, None) =>
          {| kern := k; cpu := None; next_slot := next_slot s; forking := forking s;
             panicked := panicked s |}
      end
  end.

Definition with_kern (s : system) (k : kernel) : system :=
  {| kern := k; cpu := cpu s; next_slot := next_slot s; forking := forking s;
     panicked := panicked s |}.

(** The running process leaves the CPU. *)
Definition off_cpu (s : system) (k : kernel) : system :=
  {| kern := k; cpu := None; next_slot := next_slot s; forking := forking s;
     panicked := panicked s |}.

(** Process [i] is at [st] in [kfork]. *)
Definition at_fork (i : nat) (st : option fork_stage) (s : system) : system :=
  {| kern := kern s; cpu := cpu s; next_slot := next_slot s;
     forking := <[i := st]> (forking s); panicked := panicked s |}.

(** [panic] never returns; interrupts stay on, so that ticks, and with them
    the other processes, go on. *)
Definition panics (s : system) : system :=
  {| kern := kern s; cpu := cpu s; next_slot := next_slot s; forking := forking s;
     panicked := true |}.

(** The next step of the running process [i]: a process in [kfork] goes on with
    it, one that spins in [panic] makes none. *)
Definition proc_op (o : op) (i : nat) (s : system) : system :=
  let k := kern s in
  if panicked s && bool_decide (i = initproc k) then s
  else
    match forking s i, o with
    | None, SleepPrepare c => with_kern s (sleep_prepare i c k)
    | None, Sleep =>
        let (k, off) := sleep pol i k in
        if off then off_cpu s k else with_kern s k
    | None, Fork memory copied =>
        match fork_alloc memory copied k with
        | (k, Some np) => at_fork i (Some (Allocated np)) (with_kern s k)
        | (k, None) => with_kern s k
        end
    | Some (Allocated np), ForkParent =>
        at_fork i (Some (Adopted np)) (with_kern s (fork_parent i np k))
    | Some (Adopted np), ForkRun => at_fork i None (with_kern s (fork_run np k))
    | None, Exit status =>
        match kexit pol i status k with
        | Some k => off_cpu s k
        | None => panics s
        end
    | None, Wait copied => with_kern s (fst (wait_body (λ _, copied) i k))
    | _, _ => s
    end.

Definition sys_op (o : op) (s : system) : system :=
  let k := kern s in
  match o with
  | Tick =>
      let k := clockintr pol k in
      match cpu s with
      | Some i =>
          let (k, off) := timer_preempt pol i k in
          if off then off_cpu s k else with_kern s k
      | None => with_kern s k
      end
  | Wakeup c => with_kern s (wakeup pol (Some c) k)
  | Kill id => with_kern s (fst (kkill pol id k))
  | _ => match cpu s with Some i => proc_op o i s | None => s end
  end.

Definition sys_step (o : op) (s : system) : system := dispatch (sys_op o s).

Definition run (ops : list op) (s : system) : system := foldl (λ s o, sys_step o s) s ops.

(** The machine after the creation of the first process. *)
Definition initial : system :=
  {| kern := userinit procinit; cpu := None; next_slot := 0; forking := λ _, None;
     panicked := false |}.

Definition boot : system := dispatch initial.
End Policy.

(** ** The invariant *)

(** [N] bounds the pid counter; nothing is said about the pids once it can
    have wrapped ([2^31 ≤ N]).  [fk] is where the processes are in [kfork]. *)
Section Invariant.
Context {N : Z}.

Record entry_ok (n : Z) (p : proc) : Prop := {
  ok_queue : 0 ≤ queue p ≤ 3;
  ok_slice : 0 ≤ ticks_in_slice p;
  ok_pid : N < 2 ^ 31 → 0 ≤ pid p < n;
  ok_unused : N < 2 ^ 31 → (pid p = 0 ↔ state p = UNUSED);
  ok_sleeping : state p = SLEEPING → chan p ≠ None;
}.

Context {fk : nat → option fork_stage}.

Record table_ok (k : kernel) (cur : option nat) : Prop := {
  ok_next : N < 2 ^ 31 → 0 < nextpid k ≤ N;
  ok_length : length (procs k) = NPROC;
  ok_entries : ∀ i p, procs k !! i = Some p → entry_ok (nextpid k) p;
  ok_pids : N < 2 ^ 31 → ∀ i j p q, procs k !! i = Some p → procs k !! j = Some q →
    pid p = pid q → pid p ≠ 0 → i = j;
  ok_running : ∀ i p, procs k !! i = Some p → (state p = RUNNING ↔ cur = Some i);
  ok_cpu : ∀ c, cur = Some c → (c < NPROC)%nat;
  (** the children whose creation is under way: different entries, USED *)
  ok_forks : ∀ i st, fk i = Some st →
    ∃ c, procs k !! forked st = Some c ∧ state c = USED;
  ok_forks_inj : ∀ i j st st', fk i = Some st → fk j = Some st' →
    forked st = forked st' → i = j;
}.
End Invariant.

Arguments entry_ok : clear implicits.
Arguments table_ok : clear implicits.

Lemma entry_ok_mono N N' n n' p :
  (N' < 2 ^ 31 → N ≤ N' ∧ n ≤ n') → entry_ok N n p → entry_ok N' n' p.
Proof.
  intros HN []. split; try done; intros Hlt; destruct (HN Hlt);
    [|by apply ok_unused0; lia].
  specialize (ok_pid0 ltac:(lia)). lia.
Qed.

Lemma table_ok_mono N N' fk k cur :
  (N' < 2 ^ 31 → N ≤ N') → table_ok N fk k cur → table_ok N' fk k cur.
Proof.
  intros HN []. split; try done.
  - intros Hlt. specialize (HN Hlt). specialize (ok_next0 ltac:(lia)). lia.
  - intros i p Hp. eapply entry_ok_mono; [|by eapply ok_entries0]. lia.
  - intros Hlt. specialize (HN Hlt). apply ok_pids0. lia.
Qed.

Lemma not_running N fk i p k cur :
  table_ok N fk k cur → procs k !! i = Some p → state p ≠ RUNNING → cur ≠ Some i.
Proof. intros H Hp Hs ->. by apply Hs, (ok_running _ _ H i p Hp). Qed.

Lemma not_forked N fk i p k cur :
  table_ok N fk k cur → procs k !! i = Some p → state p ≠ USED →
  ∀ j st, fk j = Some st → forked st ≠ i.
Proof. intros H Hp Hs j st Hj <-. destruct (ok_forks _ _ H j st Hj) as (c & ? & ?). congruence. Qed.

Lemma fn_insert_cases {A} (f : nat → A) i x j y :
  (<[i := x]> f) j = y → j = i ∧ x = y ∨ j ≠ i ∧ f j = y.
Proof.
  destruct (decide (j = i)) as [->|Hne]; [rewrite fn_lookup_insert|rewrite fn_lookup_insert_ne by done]; auto.
Qed.

Section Changes.
Context {N : Z} {fk : nat → option fork_stage}.

(** Changes of the entries that keep or clear the pids. *)
Lemma table_ok_pointwise g k k' cur cur' :
  table_ok N fk k cur → nextpid k' = nextpid k →
  (∀ c, cur' = Some c → cur = cur' ∨ is_Some (procs k !! c)) →
  (∀ i, procs k' !! i = g i <$> procs k !! i) →
  (∀ i p, procs k !! i = Some p → entry_ok N (nextpid k) p →
    entry_ok N (nextpid k) (g i p) ∧ (pid (g i p) = pid p ∨ pid (g i p) = 0) ∧
    (state (g i p) = RUNNING ↔ cur' = Some i) ∧
    (state p = USED → (∃ j st, fk j = Some st ∧ forked st = i) → state (g i p) = USED)) →
  table_ok N fk k' cur'.
Proof.
  intros [Hnx Hl He Hu Hr Hcpu Hf Hfi] Hn Hc' Hp Hg. split; [| | | | | | |done].
  - by rewrite Hn.
  - assert (Hlen : ∀ i, is_Some (procs k' !! i) ↔ is_Some (procs k !! i))
      by (intros i; rewrite Hp; apply fmap_is_Some).
    rewrite <-Hl. apply (anti_symm le); apply Nat.le_ngt; intros Hlt.
    + apply lookup_lt_is_Some_2, Hlen, lookup_lt_is_Some_1 in Hlt. lia.
    + apply lookup_lt_is_Some_2, Hlen, lookup_lt_is_Some_1 in Hlt. lia.
  - intros i p. rewrite Hp, Hn. intros (q & Hq & ->)%fmap_Some. apply Hg; [done|].
    by eapply He.
  - intros HN i j p q. rewrite !Hp. intros (p0 & Hp0 & ->)%fmap_Some (q0 & Hq0 & ->)%fmap_Some.
    destruct (Hg i p0 Hp0 (He _ _ Hp0)) as (_ & [->| ->] & _); [|done].
    destruct (Hg j q0 Hq0 (He _ _ Hq0)) as (_ & [->| ->] & _); [by apply Hu|].
    by intros ->.
  - intros i p. rewrite Hp. intros (q & Hq & ->)%fmap_Some. apply Hg; [done|].
    by eapply He.
  - intros c Hc. destruct (Hc' c Hc) as [->|[q Hq]]; [by apply Hcpu|].
    rewrite <-Hl. by eapply lookup_lt_Some.
  - intros i st Hi. destruct (Hf i st Hi) as (c & Hc & Hs). exists (g (forked st) c).
    rewrite Hp, Hc. split; [done|]. apply Hg; eauto.
Qed.

(** An entry keeps its pid, and whether it is running or being created. *)
Definition entry_keeps (f : proc → proc) : Prop := ∀ n p,
  entry_ok N n p → entry_ok N n (f p) ∧ pid (f p) = pid p ∧
  (state (f p) = RUNNING ↔ state p = RUNNING) ∧ (state p = USED → state (f p) = USED).

Lemma table_ok_update i f k cur :
  entry_keeps f → table_ok N fk k cur → table_ok N fk (update i f k) cur.
Proof.
  intros Hf H. eapply (table_ok_pointwise (λ j, if decide (j = i) then f else id)); [done|done|by auto| |].
  - intros j. apply lookup_update_any.
  - intros j p Hp Hok. rewrite <-(ok_running _ _ H j p Hp).
    case_decide; [|by auto]. destruct (Hf _ _ Hok) as (? & ? & ? & ?). auto.
Qed.

Lemma table_ok_all f k k' cur :
  entry_keeps f → nextpid k' = nextpid k → procs k' = f <$> procs k →
  table_ok N fk k cur → table_ok N fk k' cur.
Proof.
  intros Hf Hn Hp H. eapply (table_ok_pointwise (λ _, f)); [done|done|by auto| |].
  - intros j. by rewrite Hp, list_lookup_fmap.
  - intros j p Hj Hok. rewrite <-(ok_running _ _ H j p Hj). destruct (Hf _ _ Hok) as (? & ? & ? & ?). auto.
Qed.

(** ** The entry changes of the operations *)

(** Unfold an entry change and settle its cases. *)
Ltac entry_change :=
  intros ? ? [];
  repeat (case_decide || case_match || case_if);
  split_and!; try split; cbn in *; try done; try lia; try tauto;
  intuition (congruence || lia).

Section Entries.
Context (pol : policy).

Lemma keeps_wake_proc c now : entry_keeps (wake_proc pol c now).
Proof. unfold wake_proc, make_runnable, if_mlfq. entry_change. Qed.

Lemma keeps_account now : entry_keeps (account pol now).
Proof. unfold account, if_mlfq. entry_change. Qed.

Lemma keeps_boost_proc now : entry_keeps (boost_proc now).
Proof. unfold boost_proc. entry_change. Qed.

Lemma keeps_with_chan c : entry_keeps (with_chan (Some c)).
Proof. entry_change. Qed.

Lemma keeps_with_parent pp : entry_keeps (with_parent pp).
Proof. entry_change. Qed.

Lemma keeps_kill_proc now : entry_keeps (kill_proc pol now).
Proof. unfold kill_proc, make_runnable, if_mlfq. entry_change. Qed.

Lemma keeps_demote_proc now : entry_keeps (demote_proc now).
Proof. unfold demote_proc. entry_change. Qed.
End Entries.

(** ** The operations keep the invariant *)
Lemma table_ok_leave i f k :
  (∀ n p, entry_ok N n p → state p = RUNNING →
    entry_ok N n (f p) ∧ (pid (f p) = pid p ∨ pid (f p) = 0) ∧ state (f p) ≠ RUNNING) →
  table_ok N fk k (Some i) → table_ok N fk (update i f k) None.
Proof.
  intros Hf H. eapply (table_ok_pointwise (λ j, if decide (j = i) then f else id)); [done|done|by auto| |].
  - intros j. apply lookup_update_any.
  - intros j p Hp Hok. pose proof (ok_running _ _ H j p Hp) as Hr. case_decide as Hj.
    + subst j. assert (Hs : state p = RUNNING) by by apply Hr.
      destruct (Hf _ p Hok) as (? & ? & ?); [done|]. split_and!; try done. congruence.
    + cbn. split_and!; [done|by left| |done]. rewrite Hr. split; [|done]. intros [=]. congruence.
Qed.

Lemma table_ok_enter i k p :
  procs k !! i = Some p → state p = RUNNABLE → table_ok N fk k None →
  table_ok N fk (update i (with_state RUNNING) k) (Some i).
Proof.
  intros Hp Hs H.
  eapply (table_ok_pointwise (λ j, if decide (j = i) then with_state RUNNING else id));
    [done|done|intros c [= <-]; by eauto| |].
  - intros j. apply lookup_update_any.
  - intros j q Hq Hok. pose proof (ok_running _ _ H j q Hq) as Hr. case_decide as Hj.
    + subst j. simplify_eq. split_and!; [|by left|done|congruence].
      destruct Hok. split; cbn; try done. rewrite Hs in *. intuition congruence.
    + cbn. split_and!; [done|by left| |done]. rewrite Hr. split; [done|]. intros [=]. congruence.
Qed.

(** An entry is freed that is neither on the CPU nor being created. *)
Lemma table_ok_free i k cur :
  cur ≠ Some i → (∀ j st, fk j = Some st → forked st ≠ i) →
  table_ok N fk k cur → table_ok N fk (update i freeproc k) cur.
Proof.
  intros Hi Hfk H.
  eapply (table_ok_pointwise (λ j, if decide (j = i) then freeproc else id)); [done|done|by auto| |].
  - intros j. apply lookup_update_any.
  - intros j q Hq Hok. pose proof (ok_running _ _ H j q Hq) as Hr. case_decide as Hj.
    + subst j. split_and!; [|by right| |].
      * destruct Hok. split; cbn; try done; lia || (pose proof (ok_next _ _ H)); lia.
      * cbn. split; [done|]. intros ->. done.
      * intros _ (j & st & ? & <-). by destruct (Hfk j st).
    + cbn. split_and!; [done|by left|done..].
Qed.

Section Ops.
Context (pol : policy).

Lemma wakeup_ok c k cur : table_ok N fk k cur → table_ok N fk (wakeup pol c k) cur.
Proof. by apply (table_ok_all (wake_proc pol c (ticks k))); [apply keeps_wake_proc|..]. Qed.

Lemma clockintr_ok k cur : table_ok N fk k cur → table_ok N fk (clockintr pol k) cur.
Proof.
  intros H. unfold clockintr.
  set (k1 := {| procs := procs k; nextpid := nextpid k; initproc := initproc k;
                ticks := u32 (ticks k + 1) |}).
  assert (H1 : table_ok N fk k1 cur) by (by destruct H).
  apply (wakeup_ok (Some TicksAddr)) in H1.
  assert (H2 : table_ok N fk (update_proc_time pol (wakeup pol (Some TicksAddr) k1)) cur).
  { exact (table_ok_all _ (wakeup pol (Some TicksAddr) k1)
           (update_proc_time pol (wakeup pol (Some TicksAddr) k1)) cur
           (keeps_account pol (ticks k1)) eq_refl eq_refl H1). }
  unfold if_mlfq at 1. case_decide; [|done]. case_if; [|done].
  unfold boost_priority, if_mlfq. rewrite decide_True by done.
  by refine (table_ok_all _ _ _ cur (keeps_boost_proc (ticks k1)) _ _ H2).
Qed.

Lemma yield_ok i k : table_ok N fk k (Some i) → table_ok N fk (yield pol i k) None.
Proof.
  apply table_ok_leave. intros n p Hok Hr. unfold yield_proc, if_mlfq.
  case_decide; destruct Hok; split_and!; cbn; try done; try (by left);
    split; cbn; try done; rewrite Hr in *; intuition congruence.
Qed.

Lemma timer_preempt_ok i k :
  table_ok N fk k (Some i) →
  let (k', off) := timer_preempt pol i k in table_ok N fk k' (if off then None else Some i).
Proof.
  intros H. unfold timer_preempt. destruct (procs k !! i) as [p|]; [|done].
  destruct pol eqn:Hpol; [|done|rewrite <-Hpol; by apply yield_ok].
  case_decide; [|done]. case_if; [|case_if; [|done]]; rewrite <-Hpol; apply yield_ok;
    apply table_ok_update; try done; [apply keeps_demote_proc|entry_change].
Qed.

Lemma kkill_ok id k cur : table_ok N fk k cur → table_ok N fk (fst (kkill pol id k)) cur.
Proof.
  intros H. unfold kkill. destruct (find_pid id (procs k)); [|done].
  apply table_ok_update; [apply keeps_kill_proc|done].
Qed.

Lemma sleep_ok i k :
  table_ok N fk k (Some i) →
  let (k', off) := sleep pol i k in table_ok N fk k' (if off then None else Some i).
Proof.
  intros H. unfold sleep. destruct (procs k !! i) as [p|] eqn:Hp; [|done].
  destruct (chan p) as [c|] eqn:Hc.
  - replace (snd (sleep_proc pol p)) with true by (unfold sleep_proc; by rewrite Hc).
    eapply (table_ok_pointwise (λ j, if decide (j = i) then λ p, fst (sleep_proc pol p) else id));
      [exact H|done|by auto|intros j; apply lookup_update_any|].
    intros j q Hq Hok. pose proof (ok_running _ _ H j q Hq) as Hr. case_decide as Hj.
    + subst j. simplify_eq. unfold sleep_proc. rewrite Hc. cbn [fst].
      assert (Hrun : state p = RUNNING) by by apply Hr. unfold if_mlfq.
      case_decide; destruct Hok; split_and!; cbn; try done; try (by left); try congruence;
        split; cbn; try done; try (by rewrite Hc); intuition congruence.
    + cbn. split_and!; [done|by left| |done]. rewrite Hr. split; [|done]. intros [=]. congruence.
  - replace (snd (sleep_proc pol p)) with false by (unfold sleep_proc; by rewrite Hc).
    eapply (table_ok_pointwise (λ j, if decide (j = i) then λ p, fst (sleep_proc pol p) else id));
      [exact H|done|by auto|intros j; apply lookup_update_any|].
    intros j q Hq Hok. pose proof (ok_running _ _ H j q Hq) as Hr. case_decide as Hj.
    + subst j. simplify_eq. unfold sleep_proc. rewrite Hc. cbn [fst]. auto.
    + cbn. split_and!; [done|by left|done..].
Qed.

Lemma reparent_from_ok p n i k cur :
  table_ok N fk k cur → table_ok N fk (reparent_from pol p n i k) cur.
Proof.
  revert i k. induction n as [|n IH]; intros i k H; [done|]. cbn [reparent_from]. apply IH.
  case_decide; [|done]. by apply wakeup_ok, table_ok_update; [apply keeps_with_parent|].
Qed.

Lemma reparent_ok p k cur : table_ok N fk k cur → table_ok N fk (reparent pol p k) cur.
Proof. intros H. exact (reparent_from_ok p NPROC 0 k cur H). Qed.

#[local] Opaque reparent.

Lemma kexit_ok p status k k' :
  table_ok N fk k (Some p) → kexit pol p status k = Some k' → table_ok N fk k' None.
Proof.
  intros H. unfold kexit. case_decide; [done|]. intros E%(inj Some). subst k'.
  apply table_ok_leave.
  - intros n q Hok Hr. destruct Hok. split_and!; [split; cbn; try done|by left|done].
    rewrite Hr in *. intuition congruence.
  - apply wakeup_ok, reparent_ok, H.
Qed.

Lemma scan_children_zombie p n b ps i :
  scan_children p n b ps = Zombie i →
  ∃ j q, i = (n + j)%nat ∧ ps !! j = Some q ∧ parent q = Some p ∧ state q = ZOMBIE.
Proof.
  revert n b. induction ps as [|q ps IH]; intros n b; [done|]. cbn [scan_children].
  repeat case_decide.
  - intros [= <-]. exists 0%nat, q. split; [lia|done].
  - intros (j & q' & -> & Hj & ? & ?)%IH. exists (S j), q'. split; [lia|done].
  - intros (j & q' & -> & Hj & ? & ?)%IH. exists (S j), q'. split_and!; try done. lia.
Qed.

Lemma wait_body_ok copied p k cur :
  table_ok N fk k cur → table_ok N fk (fst (wait_body copied p k)) cur.
Proof.
  intros H. unfold wait_body.
  destruct (scan_children p 0 false (procs k)) as [i|hk] eqn:Hs.
  - apply scan_children_zombie in Hs as (j & q & -> & Hq & _ & Hz). cbn [Nat.add].
    rewrite Hq. destruct (copied q); [|done]. unfold reap_child. cbn [fst].
    apply table_ok_free.
    + eapply not_running; [done..|]. by rewrite Hz.
    + eapply not_forked; [done..|]. by rewrite Hz.
    + by apply table_ok_update; [apply keeps_with_parent|].
  - case_if; [done|]. by apply table_ok_update; [apply keeps_with_chan|].
Qed.
End Ops.
End Changes.

(** ** Fork *)
Lemma i32_small x : - 2 ^ 31 ≤ x < 2 ^ 31 → i32 x = x.
Proof. intros H. unfold i32. rewrite Z.mod_small by lia. lia. Qed.

Lemma allocpid_ok N fk k cur :
  table_ok N fk k cur → table_ok (N + 1) fk (fst (allocpid k)) cur.
Proof.
  intros []. assert (Hn : N + 1 < 2 ^ 31 → 0 < nextpid k ≤ N ∧ i32 (nextpid k + 1) = nextpid k + 1).
  { intros HN. specialize (ok_next0 ltac:(lia)). rewrite i32_small by lia. lia. }
  split; cbn [allocpid fst nextpid procs]; try done.
  - intros HN. destruct (Hn HN) as [? ->]. lia.
  - intros i p Hp. eapply entry_ok_mono; [|by eapply ok_entries0].
    intros HN. destruct (Hn HN) as [? ->]. lia.
  - intros HN. apply ok_pids0. lia.
Qed.

(** A fresh entry: its pid is not in use. *)
Lemma table_ok_alloc N fk i k cur p :
  table_ok N fk k cur → procs k !! i = Some p → state p = UNUSED →
  table_ok (N + 1) fk (update i (alloc_entry (nextpid k) (ticks k)) (fst (allocpid k))) cur.
Proof.
  intros H Hp Hs. pose proof (allocpid_ok N fk k cur H) as [Hnx Hl He Hu Hr Hc Hf Hfi].
  assert (Hfresh : N + 1 < 2 ^ 31 → 0 < nextpid k < nextpid (fst (allocpid k)) ∧
    ∀ j q, procs k !! j = Some q → pid q ≠ nextpid k).
  { intros HN. pose proof (ok_next _ _ H ltac:(lia)). split.
    - cbn. rewrite i32_small by lia. lia.
    - intros j q Hq. pose proof (ok_pid _ _ (ok_entries _ _ H j q Hq) ltac:(lia)). lia. }
  change (procs (fst (allocpid k))) with (procs k) in *.
  split; cbn [update set_procs procs nextpid]; try done.
  - by rewrite length_alter.
  - intros j q Hq'. change (procs (update i (alloc_entry (nextpid k) (ticks k)) k) !! j = Some q) in Hq'.
    revert Hq'. rewrite lookup_update_any. intros (q0 & Hq & ->)%fmap_Some. case_decide; [|by eapply He].
    split; cbn [state pid queue ticks_in_slice chan alloc_entry]; try done;
      intros HN; destruct (Hfresh HN); [lia|]. split; [lia|done].
  - intros HN j1 j2 q1 q2 H1 H2. destruct (Hfresh HN) as [? Hne]. revert H1 H2.
    change (alter _ i (procs (fst (allocpid k))))
      with (procs (update i (alloc_entry (nextpid k) (ticks k)) k)).
    rewrite !lookup_update_any. intros (p1 & Hp1 & ->)%fmap_Some (p2 & Hp2 & ->)%fmap_Some.
    pose proof (Hne _ _ Hp1). pose proof (Hne _ _ Hp2).
    repeat case_decide; cbn; subst; try done; try congruence. by apply Hu.
  - intros j q. change (alter _ i (procs (fst (allocpid k))))
      with (procs (update i (alloc_entry (nextpid k) (ticks k)) k)).
    rewrite lookup_update_any. intros (q0 & Hq & ->)%fmap_Some. rewrite <-(Hr j q0 Hq).
    case_decide; [|done]. subst. simplify_eq. by rewrite Hs.
  - intros j st Hj. destruct (Hf j st Hj) as (c & Hc' & Hu'). exists c.
    change (alter _ i (procs (fst (allocpid k))))
      with (procs (update i (alloc_entry (nextpid k) (ticks k)) k)).
    rewrite lookup_update_any, Hc'. case_decide; [|done]. congruence.
Qed.

Lemma allocproc_ok N fk memory k k' o cur :
  table_ok N fk k cur → allocproc memory k = (k', o) →
  table_ok (N + 1) fk k' cur ∧
  ∀ i, o = Some i → (∃ p, procs k' !! i = Some p ∧ state p = USED) ∧
    ∀ j st, fk j = Some st → forked st ≠ i.
Proof.
  intros H. unfold allocproc. pose proof (find_state_spec UNUSED (procs k)) as Hf.
  destruct (find_state UNUSED (procs k)) as [i|].
  2: { intros [= <- <-]. split; [|done]. eapply table_ok_mono; [|done]. lia. }
  destruct Hf as (p & Hp & Hs & _).
  assert (Hnf : ∀ j st, fk j = Some st → forked st ≠ i)
    by (eapply not_forked; [done..|]; by rewrite Hs).
  pose proof (table_ok_alloc N fk i k cur p H Hp Hs) as Hal.
  pose proof (allocpid_ok N fk k cur H) as Hpid. cbn [allocpid] in *.
  destruct memory; intros [= <- <-].
  - split; [exact Hal|]. intros j [= <-]. split; [|done].
    exists (alloc_entry (nextpid k) (ticks k) p). rewrite lookup_update_any.
    cbn [procs]. by rewrite decide_True, Hp by done.
  - split; [|done]. apply table_ok_free; [|done|exact Hpid].
    eapply (not_running _ _ _ p); [done..|]. by rewrite Hs.
Qed.

(** Where a process is in [kfork] changes. *)
Lemma table_ok_at_fork N fk i st k cur c :
  table_ok N fk k cur → procs k !! forked st = Some c → state c = USED →
  (∀ j st', j ≠ i → fk j = Some st' → forked st' ≠ forked st) →
  table_ok N (<[i := Some st]> fk) k cur.
Proof.
  intros [] Hc Hs Hne. split; try done.
  - intros j st' [[-> [= <-]]|[_ Hj]]%fn_insert_cases; [by exists c|by apply (ok_forks0 j)].
  - intros j j' st1 st2 [[-> [= <-]]|[Hj Hj1]]%fn_insert_cases
      [[-> [= <-]]|[Hj' Hj2]]%fn_insert_cases Heq; [done| | |by eapply ok_forks_inj0].
    + by destruct (Hne j' st2).
    + by destruct (Hne j st1).
Qed.

Lemma table_ok_end_fork N fk i k cur :
  table_ok N fk k cur → table_ok N (<[i := None]> fk) k cur.
Proof.
  intros []. split; try done.
  - intros j st [[_ [=]]|[_ Hj]]%fn_insert_cases. by apply (ok_forks0 j).
  - intros j j' st1 st2 [[_ [=]]|[_ Hj]]%fn_insert_cases [[_ [=]]|[_ Hj']]%fn_insert_cases.
    by eapply ok_forks_inj0.
Qed.

Lemma fork_alloc_ok N fk memory copied k cur i :
  table_ok N fk k cur →
  match fork_alloc memory copied k with
  | (k', Some np) => table_ok (N + 1) (<[i := Some (Allocated np)]> fk) k' cur
  | (k', None) => table_ok (N + 1) fk k' cur
  end.
Proof.
  intros H. unfold fork_alloc. destruct (allocproc memory k) as [k1 o] eqn:Ha.
  destruct (allocproc_ok _ _ _ _ _ _ _ H Ha) as [H1 Ho]. destruct o as [np|]; [|done].
  destruct (Ho np eq_refl) as ((c & Hc & Hs) & Hne). destruct copied.
  - eapply (table_ok_at_fork _ _ _ (Allocated np)); [done..|]. intros. by eapply Hne.
  - apply table_ok_free; [|done|done]. eapply (not_running _ _ _ c); [done..|]. by rewrite Hs.
Qed.

Lemma fork_parent_ok N fk k cur i np :
  table_ok N fk k cur → fk i = Some (Allocated np) →
  table_ok N (<[i := Some (Adopted np)]> fk) (fork_parent i np k) cur.
Proof.
  intros H Hi. assert (H1 : table_ok N fk (fork_parent i np k) cur)
    by (apply table_ok_update; [apply keeps_with_parent|done]).
  destruct (ok_forks _ _ H1 i _ Hi) as (c & Hc & Hs).
  eapply (table_ok_at_fork _ _ _ (Adopted np)); [done..|]. intros j st Hj Hst Heq.
  by apply Hj, (ok_forks_inj _ _ H1 j i st (Allocated np)).
Qed.

Lemma fork_run_ok N fk k cur i np :
  table_ok N fk k cur → fk i = Some (Adopted np) →
  table_ok N (<[i := None]> fk) (fork_run np k) cur.
Proof.
  intros H Hi. destruct (ok_forks _ _ H i _ Hi) as (c & Hc & Hs). cbn [forked] in Hc.
  pose proof (table_ok_end_fork N fk i k cur H) as H1.
  eapply (table_ok_pointwise (λ j, if decide (j = np) then with_state RUNNABLE else id));
    [exact H1|done|by auto|intros j; apply lookup_update_any|].
  intros j q Hq Hok. pose proof (ok_running _ _ H j q Hq) as Hr. case_decide as Hj.
  - subst j. simplify_eq. destruct Hok. split_and!; [split; cbn in *; try done|by left| |].
    + intros HN. rewrite (ok_unused0 HN), Hs. done.
    + cbn. split; [done|]. intros E. apply Hr in E. congruence.
    + intros _ (j & st & [[_ [=]]|[Hne Hj]]%fn_insert_cases & Heq).
      destruct Hne. by apply (ok_forks_inj _ _ H j i st (Adopted np)).
  - cbn. split_and!; [done|by left|done..].
Qed.

Section Runs.
Context (pol : policy).

(** [pick] returns a runnable process. *)
Lemma pick_runnable last ps i :
  pick pol last ps = Some i → ∃ p, ps !! i = Some p ∧ state p = RUNNABLE.
Proof.
  unfold pick, fifo_scan, rr_scan. destruct pol.
  - cbn [mlfq_queues]. intros H.
    assert (Hq : ∀ q i, mlfq_scan q ps = Some i → ∃ p, ps !! i = Some p ∧ state p = RUNNABLE).
    { intros q j Hj. pose proof (mlfq_scan_spec q ps) as Hs. rewrite Hj in Hs.
      destruct Hs as (p & Hp & Hs & _). exists p. split; [done|].
      by apply andb_true_iff in Hs as [?%bool_decide_eq_true _]. }
    destruct (mlfq_scan 0 ps) eqn:E; [injection H as <-; by apply (Hq 0)|].
    destruct (mlfq_scan 1 ps) eqn:E1; [injection H as <-; by apply (Hq 1)|].
    destruct (mlfq_scan 2 ps) eqn:E2; [injection H as <-; by apply (Hq 2)|].
    destruct (mlfq_scan 3 ps) eqn:E3; [injection H as <-; by apply (Hq 3)|done].
  - intros H. pose proof (fifo_scan_spec ps) as Hs. unfold fifo_scan in Hs. rewrite H in Hs.
    destruct Hs as (p & Hp & Hs%bool_decide_eq_true & _). eauto.
  - pose proof (find_state_spec RUNNABLE (drop last ps)) as H1.
    destruct (find_state RUNNABLE (drop last ps)) as [j|].
    + destruct H1 as (p & Hp & Hr & _). rewrite lookup_drop in Hp. intros [= <-]. eauto.
    + pose proof (find_state_spec RUNNABLE ps) as H2. intros H. rewrite H in H2.
      destruct H2 as (p & ? & ? & _). eauto.
Qed.

(** [N] bounds the pid counter. *)
Definition system_within (N : Z) (s : system) : Prop :=
  table_ok N (forking s) (kern s) (cpu s).

Lemma dispatch_within N s : system_within N s → system_within N (dispatch pol s).
Proof.
  unfold system_within, dispatch. intros H. destruct (cpu s) as [i|] eqn:Hc; [by rewrite Hc|].
  unfold schedule. destruct (pick pol _ _) as [i|] eqn:Hp; [|done]. cbn [kern cpu forking].
  destruct (pick_runnable _ _ _ Hp) as (p & Hl & Hs). by eapply table_ok_enter.
Qed.

(** How many pids an operation takes. *)
Definition forks (o : op) : Z := match o with Fork _ _ => 1 | _ => 0 end.

Fixpoint fork_count (ops : list op) : Z :=
  match ops with
  | [] => 0
  | o :: ops => forks o + fork_count ops
  end.

Lemma forks_nonneg o : 0 ≤ forks o.
Proof. by destruct o. Qed.

Lemma within_mono N N' s : (N' < 2 ^ 31 → N ≤ N') → system_within N s → system_within N' s.
Proof. apply table_ok_mono. Qed.

Lemma proc_op_within N o i s :
  cpu s = Some i → system_within N s → system_within (N + forks o) (proc_op pol o i s).
Proof.
  intros Hc H. assert (Hw : system_within (N + forks o) s)
    by (eapply within_mono; [|done]; pose proof (forks_nonneg o); lia).
  unfold proc_op. case_if; [done|]. unfold system_within in *. rewrite Hc in *.
  destruct (forking s i) as [[np|np]|] eqn:Hf, o; try (rewrite Hc; exact Hw); cbn [forks] in *;
    rewrite ?Z.add_0_r in *.
  - cbn. rewrite Hc. by apply fork_parent_ok.
  - cbn. rewrite Hc. by apply fork_run_ok.
  - cbn. rewrite Hc. by apply table_ok_update; [apply keeps_with_chan|].
  - pose proof (sleep_ok pol i _ H) as Hs.
    destruct (sleep pol i (kern s)) as [k' []]; cbn; by rewrite ?Hc.
  - pose proof (fork_alloc_ok _ _ memory copied _ _ i H) as Hk.
    destruct (fork_alloc memory copied (kern s)) as [k' [np|]]; cbn; by rewrite Hc.
  - destruct (kexit pol i status (kern s)) as [k'|] eqn:He; cbn; [|by rewrite Hc].
    by eapply kexit_ok.
  - cbn. rewrite Hc. by apply wait_body_ok.
Qed.

Lemma sys_op_within N o s :
  system_within N s → system_within (N + forks o) (sys_op pol o s).
Proof.
  intros H. assert (Hd : ∀ o, system_within (N + forks o)
    match cpu s with Some i => proc_op pol o i s | None => s end).
  { intros o'. destruct (cpu s) as [i|] eqn:Hc; [by apply proc_op_within|].
    eapply within_mono; [|done]. pose proof (forks_nonneg o'). lia. }
  destruct o; try apply Hd; cbn [sys_op forks]; rewrite Z.add_0_r; unfold system_within in *.
  - pose proof (clockintr_ok pol _ _ H) as Hk. destruct (cpu s) as [i|] eqn:Hc.
    + pose proof (timer_preempt_ok pol i _ Hk) as Ht.
      destruct (timer_preempt pol i (clockintr pol (kern s))) as [k' []]; cbn; by rewrite ?Hc.
    + cbn. by rewrite Hc.
  - by apply wakeup_ok.
  - by apply kkill_ok.
Qed.

Lemma boot_within : system_within 2 (boot pol).
Proof.
  apply dispatch_within. unfold system_within. cbn [kern cpu forking initial].
  assert (H : ∀ i p, procs (userinit procinit) !! i = Some p →
    p = zero_proc ∨ i = 0%nat ∧ p = with_state RUNNABLE (alloc_entry 1 0 zero_proc)).
  { intros [|i] p H; [injection H as <-; by right|].
    change (replicate 63 zero_proc !! i = Some p) in H.
    apply lookup_replicate_1 in H as [-> _]. by left. }
  split.
  - done.
  - done.
  - intros i p [->|[-> ->]]%H; split; cbn; (lia || done || idtac).
  - intros _ i j p q [->|[-> ->]]%H [->|[-> ->]]%H; done.
  - intros i p [->|[-> ->]]%H; done.
  - done.
  - done.
  - done.
Qed.

Lemma run_within N ops s :
  system_within N s → system_within (N + fork_count ops) (run pol ops s).
Proof.
  revert N s. induction ops as [|o ops IH]; intros N s H; cbn [fork_count].
  { by rewrite Z.add_0_r. }
  rewrite Z.add_assoc. apply IH. by apply dispatch_within, sys_op_within.
Qed.

(** What holds also when the pids have wrapped. *)
Definition system_ok (s : system) : Prop := system_within (2 ^ 31) s.

Lemma within_ok N s : system_within N s → system_ok s.
Proof. apply within_mono. lia. Qed.

Lemma dispatch_ok s : system_ok s → system_ok (dispatch pol s).
Proof. apply dispatch_within. Qed.

Lemma sys_op_ok o s : system_ok s → system_ok (sys_op pol o s).
Proof. intros H. by apply (within_ok (2 ^ 31 + forks o)), sys_op_within. Qed.

Lemma boot_ok : system_ok (boot pol).
Proof. apply (within_ok 2), boot_within. Qed.

Lemma run_ok ops s : system_ok s → system_ok (run pol ops s).
Proof. intros H. by apply (within_ok (2 ^ 31 + fork_count ops)), run_within. Qed.
End Runs.

(** Every state of a run comes from the scheduler. *)
Lemma dispatch_run pol ops : ∃ s, run pol ops (boot pol) = dispatch pol s.
Proof.
  destruct ops as [|o ops _] using rev_ind.
  - by eexists.
  - unfold run. rewrite foldl_app. by eexists.
Qed.

Lemma pick_idle pol last ps p : pick pol last ps = None → p ∈ ps → 0 ≤ queue p ≤ 3 → state p ≠ RUNNABLE.
Proof.
  destruct pol; cbn [pick].
  - cbn [mlfq_queues]. intros H Hp Hq Hr.
    assert (Hn : ∀ q, mlfq_scan q ps = None → queue p ≠ q).
    { intros q Hs <-. pose proof (mlfq_scan_spec (queue p) ps) as Hsp. rewrite Hs in Hsp.
      specialize (Hsp p Hp). rewrite Z.eqb_refl, bool_decide_eq_true_2 in Hsp; done. }
    destruct (mlfq_scan 0 ps) eqn:E; [done|]. destruct (mlfq_scan 1 ps) eqn:E1; [done|].
    destruct (mlfq_scan 2 ps) eqn:E2; [done|]. destruct (mlfq_scan 3 ps) eqn:E3; [done|].
    apply Hn in E, E1, E2, E3. lia.
  - intros H Hp _. pose proof (fifo_scan_spec ps) as Hs. rewrite H in Hs.
    specialize (Hs p Hp). by apply bool_decide_eq_false in Hs.
  - unfold rr_scan. intros H Hp _.
    destruct (find_state RUNNABLE (drop last ps)); [done|].
    pose proof (find_state_spec RUNNABLE ps) as Hs. rewrite H in Hs. by apply Hs.
Qed.

Lemma dispatch_idle pol s :
  system_ok (dispatch pol s) → cpu (dispatch pol s) = None →
  ∀ i p, procs (kern (dispatch pol s)) !! i = Some p → state p ≠ RUNNABLE.
Proof.
  unfold dispatch. destruct (cpu s) as [i|] eqn:Hc; [by rewrite Hc|]. unfold schedule.
  destruct (pick pol _ _) as [i|] eqn:Hp; [done|]. intros H _ i p Hl. cbn in Hl.
  eapply pick_idle; [done|by eapply list_elem_of_lookup_2|].
  eapply ok_queue, (ok_entries _ _ H). exact Hl.
Qed.

(** ** The run invariant *)
Fixpoint tick_count (ops : list op) : Z :=
  match ops with
  | [] => 0
  | Tick :: ops => tick_count ops + 1
  | _ :: ops => tick_count ops
  end.

(** C19: in every run from boot, whatever the policy and the system calls, the
    process table keeps its 64 entries, every queue number stays between 0 and
    3, the process on the CPU is the only running one, the CPU is idle only
    when no process is runnable; and as long as fewer than [2^31 - 2] forks
    were tried, so that the [int] that counts the pids has not wrapped, live
    processes have distinct pids, from 1 up to the next one. *)
Theorem kernel_invariant (pol : policy) (ops : list op) :
  let s := run pol ops (boot pol) in
  let k := kern s in
  length (procs k) = NPROC ∧
  (∀ i p, procs k !! i = Some p →
    0 ≤ queue p ≤ 3 ∧ (state p = RUNNING ↔ cpu s = Some i)) ∧
  (cpu s = None → ∀ i p, procs k !! i = Some p → state p ≠ RUNNABLE) ∧
  (fork_count ops < 2 ^ 31 - 2 →
    (∀ i p, procs k !! i = Some p →
      0 ≤ pid p < nextpid k ∧ (pid p = 0 ↔ state p = UNUSED)) ∧
    (∀ i j p q, procs k !! i = Some p → procs k !! j = Some q →
      pid p = pid q → pid p ≠ 0 → i = j)).
Proof.
  intros s k. pose proof (run_within pol 2 ops _ (boot_within pol)) as H. fold s in H.
  unfold system_within in H. split_and!.
  - apply H.
  - intros i p Hp. split; [apply (ok_entries _ _ H i p Hp)|apply (ok_running _ _ H i p Hp)].
  - intros Hidle. subst k s. destruct (dispatch_run pol ops) as [s0 Hs0].
    rewrite Hs0 in *. eapply dispatch_idle; [by eapply within_ok|done].
  - intros HN. split; [|apply (ok_pids _ _ H); lia]. intros i p Hp.
    pose proof (ok_entries _ _ H i p Hp) as []. split; [apply ok_pid0|apply ok_unused0]; lia.
Qed.

Lemma kernel_invariant_witness :
  let s := run RR spawn (boot RR) in
  ∃ p q, procs (kern s) !! 0%nat = Some p ∧ procs (kern s) !! 1%nat = Some q ∧ pid p ≠ pid q.
Proof.
  cbv zeta. destruct (kernel_invariant RR spawn) as (_ & _ & _ & H).
  destruct (H ltac:(vm_compute; reflexivity)) as [_ Hu].
  destruct (procs (kern (run RR spawn (boot RR))) !! 0%nat) as [p|] eqn:Hp;
    [|vm_compute in Hp; discriminate].
  destruct (procs (kern (run RR spawn (boot RR))) !! 1%nat) as [q|] eqn:Hq;
    [|vm_compute in Hq; discriminate].
  exists p, q. split; [reflexivity|]. split; [reflexivity|]. intros Heq.
  assert (Hn : pid p ≠ 0) by (vm_compute in Hp; injection Hp as <-; discriminate).
  specialize (Hu 0%nat 1%nat p q Hp Hq Heq Hn). discriminate.
Defined.

(** Then the pids go on at [-2^31]: the child of such a fork has a pid that its
    parent takes for a failure, and the pid 0 comes around again. *)
Definition worn (next : Z) : kernel :=
  {| procs := replicate NPROC zero_proc; nextpid := next; initproc := 0; ticks := 0 |}.

Lemma pids_wrap :
  snd (kfork 0 true true (fst (kfork 0 true true (worn (2 ^ 31 - 1))))) = - 2 ^ 31 ∧
  match procs (fst (kfork 0 true true (worn 0))) !! 0%nat with
  | Some p => state p = RUNNABLE ∧ pid p = 0
  | None => False
  end.
Proof. vm_compute. auto. Qed.

(** A step after which the process is still on the CPU. *)
Lemma sys_step_proc pol o i s s' :
  sys_op pol o s = proc_op pol o i s → proc_op pol o i s = s' → cpu s' = Some i →
  sys_step pol o s = s'.
Proof. unfold sys_step, dispatch. intros -> -> Hc. by rewrite Hc. Qed.

(** A fork that no tick interrupts is [kfork]. *)
Lemma spawn_kfork pol i s :
  cpu s = Some i → forking s i = None → panicked s = false →
  kern (run pol spawn s) = fst (kfork i true true (kern s)).
Proof.
  intros Hc Hf Hp. unfold run, spawn, kfork. cbn [foldl].
  assert (Hop : ∀ o t, cpu t = Some i → o ∈ spawn → sys_op pol o t = proc_op pol o i t).
  { unfold spawn. intros o t Ht Ho. rewrite !elem_of_cons, elem_of_nil in Ho.
    destruct Ho as [->|[->|[->|[]]]]; cbn [sys_op]; by rewrite Ht. }
  destruct (fork_alloc true true (kern s)) as [k [np|]] eqn:E.
  - set (s1 := at_fork i (Some (Allocated np)) (with_kern s k)).
    set (s2 := at_fork i (Some (Adopted np)) (with_kern s1 (fork_parent i np k))).
    set (s3 := at_fork i None (with_kern s2 (fork_run np (fork_parent i np k)))).
    assert (Hf1 : forking s1 i = Some (Allocated np)) by apply fn_lookup_insert.
    assert (Hf2 : forking s2 i = Some (Adopted np)) by apply fn_lookup_insert.
    rewrite (sys_step_proc pol (Fork true true) i s s1), (sys_step_proc pol ForkParent i s1 s2),
      (sys_step_proc pol ForkRun i s2 s3); try (apply Hop; [done|set_solver]); try exact Hc; try done;
      unfold proc_op; cbn [at_fork with_kern panicked]; rewrite ?Hf, ?Hf1, ?Hf2, ?E;
      cbn [s1 s2 at_fork with_kern panicked]; by rewrite Hp.
  - set (s1 := with_kern s k).
    rewrite (sys_step_proc pol (Fork true true) i s s1), (sys_step_proc pol ForkParent i s1 s1),
      (sys_step_proc pol ForkRun i s1 s1); try (apply Hop; [done|set_solver]); try exact Hc; try done;
      unfold proc_op; cbn [s1 with_kern panicked forking]; by rewrite Hp, ?Hf, ?E.
Qed.

(** ** Time accounting *)

(** The counters of a live process and the ticks it was still being created at
    add up to its age, those of a zombie to its turnaround time. *)
Definition times_ok (now lost : Z) (p : proc) : Prop :=
  0 ≤ rtime p ∧ 0 ≤ wtime p ∧ 0 ≤ stime p ∧ 0 ≤ ctime p ∧ 0 ≤ lost ∧ 0 ≤ now ∧
  match state p with
  | USED | RUNNABLE | RUNNING | SLEEPING =>
      rtime p + wtime p + stime p + lost = now - ctime p
  | ZOMBIE => rtime p + wtime p + stime p + lost = ttime p - ctime p
  | UNUSED => True
  end.

Definition keeps_times (f : proc → proc) : Prop :=
  ∀ now lost p, times_ok now lost p → times_ok now lost (f p).

Ltac times_change :=
  intros ? ? [st] H; unfold times_ok in *; destruct st; repeat (case_decide || case_match);
  cbn in *; simplify_eq; try done; try lia; try tauto.

Section Times.
Context (pol : policy) {lost : nat → Z}.

Definition all_times_ok (k : kernel) : Prop :=
  ∀ i p, procs k !! i = Some p → times_ok (ticks k) (lost i) p.

Lemma times_update i f k : keeps_times f → all_times_ok k → all_times_ok (update i f k).
Proof.
  intros Hf H j q. rewrite lookup_update_any. intros (p & Hp & ->)%fmap_Some.
  specialize (H j p Hp). case_decide; [by apply Hf|done].
Qed.

Lemma times_all f k k' :
  keeps_times f → procs k' = f <$> procs k → ticks k' = ticks k →
  all_times_ok k → all_times_ok k'.
Proof.
  intros Hf Hp Ht H i q. rewrite Hp, Ht, list_lookup_fmap.
  intros (p & Hl & ->)%fmap_Some. by apply Hf, (H i).
Qed.

Lemma times_wake_proc c now : keeps_times (wake_proc pol c now).
Proof. unfold wake_proc, make_runnable, if_mlfq. times_change. Qed.

Lemma times_wakeup c k : all_times_ok k → all_times_ok (wakeup pol c k).
Proof. by apply (times_all (wake_proc pol c (ticks k))); [apply times_wake_proc|..]. Qed.

Lemma times_boost_proc now : keeps_times (boost_proc now).
Proof. unfold boost_proc. times_change. Qed.

Lemma times_with_chan c : keeps_times (with_chan c).
Proof. times_change. Qed.

Lemma times_with_parent pp : keeps_times (with_parent pp).
Proof. times_change. Qed.

Lemma times_with_sched q t e : keeps_times (with_sched q t e).
Proof. times_change. Qed.

Lemma times_kill_proc now : keeps_times (kill_proc pol now).
Proof. unfold kill_proc, make_runnable, if_mlfq. times_change. Qed.

Lemma times_freeproc : keeps_times freeproc.
Proof. times_change. Qed.

(** The entry of a running process that leaves the CPU. *)
Lemma times_leave now l p st :
  state p = RUNNING → st = RUNNABLE ∨ st = SLEEPING →
  times_ok now l p → times_ok now l (with_state st p).
Proof. intros Hr Hst. unfold times_ok. rewrite Hr. by destruct Hst as [-> | ->]. Qed.

Lemma times_exit now l status p :
  state p = RUNNING → times_ok now l p → times_ok now l (with_exit ZOMBIE status now p).
Proof. intros Hr. unfold times_ok. by rewrite Hr. Qed.

(** A process becomes runnable at the end of its creation, and runs. *)
Lemma times_goes_on now l p st :
  state p = RUNNABLE ∧ st = RUNNING ∨ state p = USED ∧ st = RUNNABLE →
  times_ok now l p → times_ok now l (with_state st p).
Proof. unfold times_ok. by intros [[-> ->]|[-> ->]]. Qed.

Lemma times_alloc now id p : 0 ≤ now → times_ok now 0 (alloc_entry id now p).
Proof. intros H. unfold times_ok. cbn. lia. Qed.

(** Entry [i] changes by [f], from a state that satisfies [t]. *)
Lemma times_update_if (t : proc → Prop) i f k :
  (∀ p, t p → times_ok (ticks k) (lost i) p → times_ok (ticks k) (lost i) (f p)) →
  (∀ p, procs k !! i = Some p → t p) →
  all_times_ok k → all_times_ok (update i f k).
Proof.
  intros Hf Ht H j q. rewrite lookup_update_any. intros (p & Hp & ->)%fmap_Some.
  case_decide; [|by apply (H j)]. subst j. by apply Hf, (H i); [apply Ht|].
Qed.

Lemma timer_preempt_ticks i k k' off :
  timer_preempt pol i k = (k', off) → ticks k' = ticks k.
Proof. unfold timer_preempt. intros H. repeat case_match; simplify_eq; done. Qed.

Lemma times_yield_proc now l p :
  state p = RUNNING → times_ok now l p → times_ok now l (yield_proc pol now p).
Proof.
  intros Hr H. pose proof (times_leave now l p RUNNABLE Hr (or_introl eq_refl) H).
  unfold yield_proc, if_mlfq. case_decide; [by apply times_with_sched|done].
Qed.

Lemma times_sleep_proc now l p :
  state p = RUNNING → times_ok now l p → times_ok now l (fst (sleep_proc pol p)).
Proof.
  intros Hr H. unfold sleep_proc. destruct (chan p); [|done].
  pose proof (times_leave now l p SLEEPING Hr (or_intror eq_refl) H).
  unfold if_mlfq. cbn [fst]. case_decide; [by apply times_with_sched|done].
Qed.

Lemma times_timer_preempt i k k' off :
  (∀ p, procs k !! i = Some p → state p = RUNNING) →
  timer_preempt pol i k = (k', off) → all_times_ok k → all_times_ok k'.
Proof.
  intros Hr He H.
  assert (Hy : ∀ f, keeps_times f → (∀ p, state (f p) = state p) →
    all_times_ok (yield pol i (update i f k))).
  { intros f Hf Hst. apply (times_update_if (λ p, state p = RUNNING)).
    - intros p. apply times_yield_proc.
    - intros q. rewrite lookup_update_any, decide_True by done.
      intros (p & Hp & ->)%fmap_Some. rewrite Hst. by apply Hr.
    - by apply times_update. }
  unfold timer_preempt in He. destruct (procs k !! i) as [p|] eqn:Hp; [|by simplify_eq].
  rewrite <-Hp in Hr.
  destruct pol eqn:Hpol; [|by simplify_eq|].
  - case_decide; [|by simplify_eq]. rewrite <-Hpol in *.
    destruct (slice_limit _ <=? _); [|destruct (higher_priority_proc_runnable _ _ _);
      [|by simplify_eq]]; injection He as <- <-; apply Hy; try done.
    + intros now l q Hq. by apply times_with_sched.
    + intros now l q Hq. by apply times_with_sched.
  - rewrite <-Hpol in *. injection He as <- <-.
    by apply (times_update_if (λ p, state p = RUNNING)); [intros q; apply times_yield_proc|..].
Qed.

Lemma times_reparent_from p n i k :
  all_times_ok k → all_times_ok (reparent_from pol p n i k) ∧
  ticks (reparent_from pol p n i k) = ticks k.
Proof.
  revert i k. induction n as [|n IH]; intros i k H; [done|]. cbn [reparent_from].
  case_decide; [|by apply IH]. destruct (IH (S i) (wakeup pol (Some (ProcAddr (initproc k)))
    (update i (with_parent (Some (initproc k))) k))) as [H1 H2]; [|done].
  by apply times_wakeup, times_update; [apply times_with_parent|].
Qed.

Lemma times_reparent p k :
  all_times_ok k →
  all_times_ok (reparent pol p k) ∧ ticks (reparent pol p k) = ticks k.
Proof. intros H. exact (times_reparent_from p NPROC 0 k H). Qed.

Lemma times_kexit N fk p status k k' :
  table_ok N fk k (Some p) → kexit pol p status k = Some k' → all_times_ok k →
  all_times_ok k' ∧ ticks k' = ticks k.
Proof.
  intros Hk. unfold kexit. case_decide; [done|]. intros E%(inj Some) Hall. subst k'.
  pose proof (reparent_ok pol p k _ Hk) as Hk1.
  destruct (times_reparent p k Hall) as [H1 Ht1]. revert Hk1 H1 Ht1.
  generalize (reparent pol p k). intros k1 Hk1 H1 Ht1. set (c := ProcAddr <$> _).
  pose proof (wakeup_ok pol c k1 _ Hk1) as Hk2. split; [|exact Ht1].
  apply (times_update_if (λ q, state q = RUNNING)).
  - intros q. by apply times_exit.
  - intros q Hq. by apply (ok_running _ _ Hk2 p q Hq).
  - by apply times_wakeup.
Qed.

(** The first section of a fork: the clock of the child starts at 0. *)
Lemma times_fork_alloc memory copied k :
  0 ≤ ticks k → (∀ i p, procs k !! i = Some p → state p = UNUSED → lost i = 0) →
  all_times_ok k →
  all_times_ok (fst (fork_alloc memory copied k)) ∧
  ticks (fst (fork_alloc memory copied k)) = ticks k.
Proof.
  intros H0 Hz H. unfold fork_alloc, allocproc. pose proof (find_state_spec UNUSED (procs k)) as Hf.
  destruct (find_state UNUSED (procs k)) as [i|]; [|done]. destruct Hf as (p & Hp & Hs & _).
  cbn [allocpid]. set (k1 := {| procs := procs k; nextpid := i32 (nextpid k + 1);
    initproc := initproc k; ticks := ticks k |}).
  assert (H1 : all_times_ok k1) by exact H.
  assert (H2 : all_times_ok (update i (alloc_entry (nextpid k) (ticks k)) k1)).
  { apply (times_update_if (λ _, True)); [|done|done]. intros q _ _.
    rewrite (Hz i p Hp Hs). by apply times_alloc. }
  destruct memory, copied; cbn [fst]; (split; [|done]); try done;
    (apply times_update; [apply times_freeproc|done]).
Qed.

Lemma times_proc_op o i s :
  system_ok s → cpu s = Some i → 0 ≤ ticks (kern s) →
  (∀ i p, procs (kern s) !! i = Some p → state p = UNUSED → lost i = 0) →
  all_times_ok (kern s) →
  all_times_ok (kern (proc_op pol o i s)) ∧ ticks (kern (proc_op pol o i s)) = ticks (kern s).
Proof.
  unfold system_ok, system_within. intros Hs Hc H0 Hz H. rewrite Hc in Hs. unfold proc_op.
  case_if; [done|]. destruct (forking s i) as [[np|np]|] eqn:Hf, o; try done.
  - split; [|done]. by apply times_update; [apply times_with_parent|].
  - split; [|done]. destruct (ok_forks _ _ Hs i _ Hf) as (c & Hcp & Hu).
    apply (times_update_if (λ p, state p = USED)); [intros q Hq; apply times_goes_on; auto| |done].
    intros q Hq. cbn [forked with_kern kern] in *. congruence.
  - split; [|done]. by apply times_update; [apply times_with_chan|].
  - assert (Hk' : all_times_ok (fst (sleep pol i (kern s))) ∧
      ticks (fst (sleep pol i (kern s))) = ticks (kern s)).
    { unfold sleep. destruct (procs (kern s) !! i) as [p|] eqn:Hp; [|done]. split; [|done].
      apply (times_update_if (λ p, state p = RUNNING)).
      - intros q. by apply times_sleep_proc.
      - intros q Hq. by apply (ok_running _ _ Hs i q Hq).
      - done. }
    destruct (sleep pol i (kern s)) as [k' []]; exact Hk'.
  - pose proof (times_fork_alloc memory copied (kern s) H0 Hz H) as Hk'.
    destruct (fork_alloc memory copied (kern s)) as [k' [np|]]; exact Hk'.
  - destruct (kexit pol i status (kern s)) as [k'|] eqn:E; [|done].
    exact (times_kexit _ _ _ _ _ _ Hs E H).
  - cbn [kern with_kern]. unfold wait_body.
    destruct (scan_children i 0 false (procs (kern s))) as [j|hk].
    + destruct (procs (kern s) !! j); [|done]. destruct copied; cbn [fst]; [|done].
      split; [|done]. unfold reap_child. apply times_update; [apply times_freeproc|].
      by apply times_update; [apply times_with_parent|].
    + case_if; cbn [fst]; [done|]. split; [|done].
      by apply times_update; [apply times_with_chan|].
Qed.

(** An operation between two ticks. *)
Lemma times_sys_op o s :
  system_ok s → o ≠ Tick → 0 ≤ ticks (kern s) →
  (∀ i p, procs (kern s) !! i = Some p → state p = UNUSED → lost i = 0) →
  all_times_ok (kern s) →
  all_times_ok (kern (sys_op pol o s)) ∧ ticks (kern (sys_op pol o s)) = ticks (kern s).
Proof.
  intros Hs Ho H0 Hz H.
  assert (Hd : let s' := match cpu s with Some i => proc_op pol o i s | None => s end in
    all_times_ok (kern s') ∧ ticks (kern s') = ticks (kern s)).
  { destruct (cpu s) as [i|] eqn:Hc; [|done]. by apply times_proc_op. }
  destruct o; try done; cbn [sys_op].
  - split; [|done]. by apply times_wakeup.
  - unfold kkill. destruct (find_pid id (procs (kern s))); cbn; [|done].
    split; [|done]. by apply times_update; [apply times_kill_proc|].
Qed.

Lemma times_dispatch s :
  all_times_ok (kern s) →
  all_times_ok (kern (dispatch pol s)) ∧ ticks (kern (dispatch pol s)) = ticks (kern s).
Proof.
  intros H. unfold dispatch. destruct (cpu s); [done|]. unfold schedule.
  destruct (pick pol _ _) as [i|] eqn:Hp; [|done]. cbn [kern]. split; [|done].
  apply pick_runnable in Hp as (p & Hp & Hr).
  apply (times_update_if (λ p, state p = RUNNABLE)); [intros q Hq; apply times_goes_on; auto| |done].
  intros q Hq. congruence.
Qed.
End Times.

Arguments all_times_ok : clear implicits.

(** What an operation adds to the ticks that the process in entry [i] spent
    half created: a tick that finds it USED; a free entry has spent none. *)
Definition lost_after (o : op) (s : system) (lost : nat → Z) : nat → Z := λ i,
  match procs (kern s) !! i with
  | Some p =>
      match state p with
      | USED => lost i + tick_count [o]
      | UNUSED => 0
      | _ => lost i
      end
  | None => 0
  end.

Fixpoint lost_ticks (pol : policy) (ops : list op) (s : system) (lost : nat → Z) : nat → Z :=
  match ops with
  | [] => lost
  | o :: ops => lost_ticks pol ops (sys_step pol o s) (lost_after o s lost)
  end.

Lemma lost_unused o s lost i p :
  procs (kern s) !! i = Some p → state p = UNUSED → lost_after o s lost i = 0.
Proof. intros Hp Hs. unfold lost_after. by rewrite Hp, Hs. Qed.

Lemma times_lost o s lost :
  o ≠ Tick → all_times_ok lost (kern s) → all_times_ok (lost_after o s lost) (kern s).
Proof.
  intros Ho H i p Hp. specialize (H i p Hp). unfold lost_after. rewrite Hp.
  replace (tick_count [o]) with 0 by by destruct o. rewrite Z.add_0_r.
  unfold times_ok in *. destruct (state p); lia.
Qed.

(** An entry changes at a step of the clock. *)
Lemma times_account pol now lost p :
  now + 1 < 2 ^ 32 → times_ok now lost p →
  times_ok (now + 1) (match state p with USED => lost + 1 | UNUSED => 0 | _ => lost end)
    (account pol (now + 1) p).
Proof.
  intros Hn H. unfold account, if_mlfq. destruct p as [st]; unfold times_ok, u32 in *.
  destruct st; repeat case_decide; cbn in *; try done;
    rewrite ?(Z.mod_small (_ + 1)) by lia; lia.
Qed.

Lemma wake_proc_created pol c now p :
  (state (wake_proc pol c now p) = USED ↔ state p = USED) ∧
  (state (wake_proc pol c now p) = UNUSED ↔ state p = UNUSED).
Proof. unfold wake_proc, make_runnable, if_mlfq. destruct p as [[]]; repeat case_decide; cbn; done. Qed.

Lemma times_clockintr pol s lost :
  let k := kern s in
  0 ≤ ticks k → ticks k + 1 < 2 ^ 32 → all_times_ok lost k →
  all_times_ok (lost_after Tick s lost) (clockintr pol k) ∧ ticks (clockintr pol k) = ticks k + 1.
Proof.
  intros k H0 Hb H. rewrite ticks_clockintr. unfold u32. rewrite Z.mod_small by lia.
  split; [|done]. unfold clockintr, u32. rewrite (Z.mod_small (ticks k + 1)) by lia.
  set (k1 := {| procs := procs k; nextpid := nextpid k; initproc := initproc k;
                ticks := ticks k + 1 |}).
  assert (H2 : all_times_ok (lost_after Tick s lost)
    (update_proc_time pol (wakeup pol (Some TicksAddr) k1))).
  { intros i q. cbn. rewrite !list_lookup_fmap. intros (p & (p0 & Hp & ->)%fmap_Some & ->)%fmap_Some.
    pose proof (times_wake_proc pol (Some TicksAddr) (ticks k + 1) _ _ _ (H i p0 Hp)) as Hw.
    pose proof (times_account pol (ticks k) (lost i) _ Hb Hw) as Ha.
    destruct (wake_proc_created pol (Some TicksAddr) (ticks k + 1) p0) as [Hu Hun].
    unfold lost_after. subst k. rewrite Hp. cbn [tick_count Z.add]. revert Ha Hu Hun. cbn [k1 ticks].
    destruct (state (wake_proc _ _ _ p0)), (state p0); intuition congruence. }
  unfold if_mlfq at 1. case_decide; [|done]. case_if; [|done].
  unfold boost_priority, if_mlfq. rewrite decide_True by done.
  by refine (times_all _ _ _ (times_boost_proc (ticks k1)) _ _ H2).
Qed.

Lemma times_tick pol s lost :
  system_ok s → 0 ≤ ticks (kern s) → ticks (kern s) + 1 < 2 ^ 32 →
  all_times_ok lost (kern s) →
  all_times_ok (lost_after Tick s lost) (kern (sys_op pol Tick s)) ∧
  ticks (kern (sys_op pol Tick s)) = ticks (kern s) + 1.
Proof.
  unfold system_ok, system_within. intros Hs H0 Hb H. cbn [sys_op].
  destruct (times_clockintr pol s lost H0 Hb H) as [H1 Ht].
  destruct (cpu s) as [i|] eqn:Hc; [|done].
  destruct (timer_preempt pol i (clockintr pol (kern s))) as [k' off] eqn:E.
  assert (Hk' : all_times_ok (lost_after Tick s lost) k').
  { eapply (times_timer_preempt pol i); [|exact E|exact H1]. intros p Hp.
    by apply (ok_running _ _ (clockintr_ok pol _ _ Hs) i p Hp). }
  assert (ticks k' = ticks (clockintr pol (kern s))) by by eapply timer_preempt_ticks.
  destruct off; cbn; split; done || lia.
Qed.

Lemma tick_count_nonneg ops : 0 ≤ tick_count ops.
Proof. induction ops as [|[] ops IH]; cbn; lia. Qed.

Lemma tick_count_app o ops : tick_count (o :: ops) = tick_count [o] + tick_count ops.
Proof. destruct o; cbn; lia. Qed.

Lemma times_step pol o s lost :
  system_ok s → 0 ≤ ticks (kern s) → ticks (kern s) + tick_count [o] < 2 ^ 32 →
  all_times_ok lost (kern s) →
  all_times_ok (lost_after o s lost) (kern (sys_step pol o s)) ∧
  ticks (kern (sys_step pol o s)) = ticks (kern s) + tick_count [o].
Proof.
  intros Hs H0 Hb H. unfold sys_step.
  assert (H1 : all_times_ok (lost_after o s lost) (kern (sys_op pol o s)) ∧
    ticks (kern (sys_op pol o s)) = ticks (kern s) + tick_count [o]).
  { destruct (decide (o = Tick)) as [->|Ho]; [by apply times_tick|].
    replace (tick_count [o]) with 0 by by destruct o. rewrite Z.add_0_r.
    apply times_sys_op; try done; [intros i p; apply lost_unused|by apply times_lost]. }
  destruct H1 as [H1 Ht]. destruct (times_dispatch pol _ H1) as [H2 Ht2].
  split; [done|congruence].
Qed.

Lemma times_run pol ops s lost :
  system_ok s → 0 ≤ ticks (kern s) → ticks (kern s) + tick_count ops < 2 ^ 32 →
  all_times_ok lost (kern s) →
  all_times_ok (lost_ticks pol ops s lost) (kern (run pol ops s)) ∧
  ticks (kern (run pol ops s)) = ticks (kern s) + tick_count ops.
Proof.
  revert s lost. induction ops as [|o ops IH]; intros s lost Hs H0 Hb H; [split; [done|cbn; lia]|].
  rewrite tick_count_app in *.
  pose proof (tick_count_nonneg [o]) as Hn. pose proof (tick_count_nonneg ops) as Hn'.
  destruct (times_step pol o s lost Hs H0 ltac:(lia) H) as [H1 Ht1].
  destruct (IH (sys_step pol o s) (lost_after o s lost)) as [H2 Ht2]; try done; try lia.
  - by apply dispatch_ok, sys_op_ok.
  - split; [exact H2|]. cbn [run foldl]. fold (run pol ops (sys_step pol o s)). lia.
Qed.

Lemma boot_times pol :
  all_times_ok (λ _, 0) (kern (boot pol)) ∧ ticks (kern (boot pol)) = 0.
Proof.
  apply (times_dispatch pol initial).
  intros [|i] p H; [injection H as <-; vm_compute; intuition congruence|].
  change (replicate 63 zero_proc !! i = Some p) in H.
  apply lookup_replicate_1 in H as [-> _]. vm_compute. intuition congruence.
Qed.

(** C35: accounting.  In every run shorter than 2^32 ticks, run time, waiting
    time and sleep time of a live process, and the ticks that came while
    [kfork] was still creating it (USED), add up to the ticks since its
    allocation, and those of a zombie to its turnaround time. *)
Theorem time_accounting (pol : policy) (ops : list op) (i : nat) (p : proc) :
  tick_count ops < 2 ^ 32 →
  procs (kern (run pol ops (boot pol))) !! i = Some p → state p ≠ UNUSED →
  rtime p + wtime p + stime p + lost_ticks pol ops (boot pol) (λ _, 0) i =
    (if decide (state p = ZOMBIE) then ttime p else tick_count ops) - ctime p.
Proof.
  intros Hb Hp Hu.
  destruct (boot_times pol) as [H0 Ht0].
  destruct (times_run pol ops (boot pol) (λ _, 0) (boot_ok pol)) as [H Ht];
    [by rewrite Ht0|by rewrite Ht0|done|].
  specialize (H i p Hp). unfold times_ok in H. rewrite Ht, Ht0 in H.
  destruct (state p); try done; case_decide; try done; lia.
Qed.

(** A process forks, with a tick in the middle; the child sleeps once and
    exits; its parent had waited. *)
Definition demo_ops : list op :=
  [Tick; Fork true true; Tick; ForkParent; ForkRun; Wait false; Sleep; Tick; Tick;
   SleepPrepare TicksAddr; Sleep; Tick; Exit 7].

Lemma time_accounting_witness :
  ∃ p, procs (kern (run MLFQ demo_ops (boot MLFQ))) !! 1%nat = Some p ∧ state p = ZOMBIE ∧
    rtime p + wtime p + stime p + 1 = ttime p - ctime p.
Proof.
  destruct (procs (kern (run MLFQ demo_ops (boot MLFQ))) !! 1%nat) as [p|] eqn:E;
    [|vm_compute in E; discriminate].
  assert (Hz : state p = ZOMBIE) by (vm_compute in E; injection E as <-; reflexivity).
  exists p. split; [reflexivity|]. split; [exact Hz|].
  pose proof (time_accounting MLFQ demo_ops 1 p) as H.
  rewrite Hz, decide_True in H by reflexivity.
  assert (Hl : lost_ticks MLFQ demo_ops (boot MLFQ) (λ _, 0) 1 = 1) by (vm_compute; reflexivity).
  rewrite Hl in H. apply H; [vm_compute; reflexivity|exact E|discriminate].
Defined.

(** ** Exit and wait *)
Section ExitWait.
Context (pol : policy).

(** [reparent] changes parents, and wakes init. *)
Lemma wake_proc_parent c now p : parent (wake_proc pol c now p) = parent p.
Proof. unfold wake_proc, make_runnable, if_mlfq. by repeat case_decide. Qed.

Lemma wake_proc_pid c now p : pid (wake_proc pol c now p) = pid p.
Proof. unfold wake_proc, make_runnable, if_mlfq. by repeat case_decide. Qed.

Lemma wake_proc_xstate c now p : xstate (wake_proc pol c now p) = xstate p.
Proof. unfold wake_proc, make_runnable, if_mlfq. by repeat case_decide. Qed.

Lemma reparent_from_ticks p n i k : ticks (reparent_from pol p n i k) = ticks k.
Proof.
  revert i k. induction n as [|n IH]; intros i k; [done|]. cbn [reparent_from].
  rewrite IH. by case_decide.
Qed.

Lemma reparent_ticks p k : ticks (reparent pol p k) = ticks k.
Proof. exact (reparent_from_ticks p NPROC 0 k). Qed.

Definition reparented (p init : nat) (q : proc) : option nat :=
  if decide (parent q = Some p) then Some init else parent q.

(** What a wakeup of other channels leaves of an entry. *)
Definition woken (c : chan_addr) (q q' : proc) : Prop :=
  pid q' = pid q ∧ xstate q' = xstate q ∧
  (chan q' = chan q ∧ state q' = state q ∨
   chan q = Some c ∧ chan q' = None ∧
   state q' = (if decide (state q = SLEEPING) then RUNNABLE else state q)).

Lemma wake_proc_woken c now q : woken c q (wake_proc pol (Some c) now q).
Proof.
  unfold woken, wake_proc, make_runnable, if_mlfq. destruct q as [st].
  destruct st; repeat case_decide; cbn in *; split_and!; try done; auto.
Qed.

Lemma woken_refl c q : woken c q q.
Proof. split_and!; auto. Qed.

Lemma woken_trans c q1 q2 q3 : woken c q1 q2 → woken c q2 q3 → woken c q1 q3.
Proof.
  intros (? & ? & H) (? & ? & H'). split_and!; [congruence..|].
  destruct H as [[Hc Hs]|(? & ? & ?)], H' as [[? ?]|(? & ? & ?)].
  - left. split; congruence.
  - right. rewrite Hc, Hs in *. done.
  - right. split_and!; congruence.
  - congruence.
Qed.

Lemma reparent_from_spec p n i k j q :
  procs k !! j = Some q →
  initproc (reparent_from pol p n i k) = initproc k ∧
  ∃ q', procs (reparent_from pol p n i k) !! j = Some q' ∧
    parent q' = (if decide (i ≤ j < i + n)%nat then reparented p (initproc k) q else parent q) ∧
    woken (ProcAddr (initproc k)) q q'.
Proof.
  revert i k q. induction n as [|n IH]; intros i k q Hq; cbn [reparent_from].
  { split; [done|]. exists q. rewrite decide_False by lia. split; [done|]. split; [done|apply woken_refl]. }
  set (k1 := if decide _ then _ else k).
  assert (H1 : initproc k1 = initproc k ∧ ∃ q1, procs k1 !! j = Some q1 ∧
    parent q1 = (if decide (j = i) then reparented p (initproc k) q else parent q) ∧
    woken (ProcAddr (initproc k)) q q1).
  { unfold k1. case_decide as Hi.
    - split; [done|]. cbn [wakeup procs set_procs].
      change (alter _ i (procs k)) with (procs (update i (with_parent (Some (initproc k))) k)).
      eexists. rewrite list_lookup_fmap, lookup_update_any, Hq. split; [done|].
      rewrite wake_proc_parent. unfold reparented. case_decide as Hj.
      + subst j. rewrite Hq in Hi. cbn in Hi. rewrite decide_True by done. split; [done|].
        eapply woken_trans; [|apply wake_proc_woken]. split_and!; auto.
      + split; [done|]. apply wake_proc_woken.
    - split; [done|]. exists q. split; [done|]. split; [|apply woken_refl].
      unfold reparented. case_decide; [|done]. subst j. rewrite Hq in Hi. cbn in Hi.
      by rewrite decide_False. }
  destruct H1 as (Hinit & q1 & Hq1 & Hp1 & Hw1).
  destruct (IH (S i) k1 q1 Hq1) as (Hinit' & q' & Hq' & Hp' & Hw').
  split; [congruence|]. exists q'. split; [done|]. split.
  - rewrite Hp', Hinit. unfold reparented in *. rewrite Hp1.
    destruct (decide (j = i)), (decide (S i ≤ j < S i + n)%nat),
      (decide (i ≤ j < i + S n)%nat); done || lia.
  - rewrite Hinit in Hw'. by eapply woken_trans.
Qed.

Lemma reparent_spec p k j q :
  (j < NPROC)%nat → procs k !! j = Some q →
  initproc (reparent pol p k) = initproc k ∧
  ∃ q', procs (reparent pol p k) !! j = Some q' ∧
    parent q' = reparented p (initproc k) q ∧ woken (ProcAddr (initproc k)) q q'.
Proof.
  intros Hj Hq. destruct (reparent_from_spec p NPROC 0 k j q Hq) as (Hi & q' & Hq' & Hp & Hw).
  rewrite decide_True in Hp by lia.
  exact (conj Hi (ex_intro _ q' (conj Hq' (conj Hp Hw)))).
Qed.

#[local] Opaque reparent.

(** exit.  The exiting process becomes a zombie with its status and its
    time of termination; its children become children of init; and a parent
    that has registered to wait for a child is woken, whether it already sleeps
    or is still on its way to sleep. *)
Theorem kexit_spec (p : nat) (status : Z) (k k' : kernel) (me : proc) :
  length (procs k) = NPROC → procs k !! p = Some me → parent me ≠ Some p →
  initproc k ≠ p → kexit pol p status k = Some k' →
  (∃ me', procs k' !! p = Some me' ∧ state me' = ZOMBIE ∧ xstate me' = status ∧
     ttime me' = ticks k ∧ pid me' = pid me ∧ parent me' = parent me) ∧
  (∀ j q, j ≠ p → procs k !! j = Some q → ∃ q', procs k' !! j = Some q' ∧
     parent q' = (if decide (parent q = Some p) then Some (initproc k) else parent q) ∧
     pid q' = pid q ∧ xstate q' = xstate q ∧
     (parent me = Some j → chan q = Some (ProcAddr j) →
       chan q' = None ∧ state q' = (if decide (state q = SLEEPING) then RUNNABLE else state q))).
Proof.
  intros Hlen Hme Hself Hinit. unfold kexit. case_decide; [done|]. intros E%(inj Some). subst k'.
  assert (Hlt : ∀ j q, procs k !! j = Some q → (j < NPROC)%nat).
  { intros j q Hq. rewrite <-Hlen. by eapply lookup_lt_Some. }
  assert (Hspec : ∀ j q, procs k !! j = Some q → ∃ q1,
    procs (reparent pol p k) !! j = Some q1 ∧
    parent q1 = reparented p (initproc k) q ∧ woken (ProcAddr (initproc k)) q q1).
  { intros j q Hq. apply (reparent_spec p k j q (Hlt _ _ Hq) Hq). }
  pose proof (reparent_ticks p k) as Hticks. revert Hspec Hticks.
  generalize (reparent pol p k). intros k1 Hspec Hticks.
  destruct (Hspec p me Hme) as (me1 & Hme1 & Hpm & Hwm).
  unfold reparented in Hpm. rewrite decide_False in Hpm by done.
  rewrite Hme1. cbn [mbind option_bind]. rewrite Hpm. split.
  - eexists. rewrite lookup_update_any, decide_True by done.
    cbn [wakeup procs set_procs]. rewrite list_lookup_fmap, Hme1. split; [done|].
    cbn. rewrite wake_proc_parent, Hpm, wake_proc_pid. destruct Hwm as (-> & _ & _).
    by rewrite Hticks.
  - intros j q Hj Hq. destruct (Hspec j q Hq) as (q1 & Hq1 & Hp1 & Hw1).
    eexists. rewrite lookup_update_any, decide_False by done.
    cbn [wakeup procs set_procs]. rewrite list_lookup_fmap, Hq1. split; [done|].
    cbn. rewrite wake_proc_parent, Hp1, wake_proc_pid, wake_proc_xstate.
    destruct Hw1 as (Hpid & Hx & Hw). split_and!; [done|done|done|].
    intros Hpar Hch. rewrite Hpar. cbn. unfold wake_proc, make_runnable, if_mlfq.
    destruct Hw as [[Hc1 Hs1]|(Hc & Hc1 & Hs1)].
    + rewrite Hc1, Hch, decide_True by done. cbn. rewrite Hs1. by repeat case_decide.
    + rewrite Hc1, decide_False by done. auto.
Qed.
End ExitWait.

Lemma scan_children_spec p i b ps :
  match scan_children p i b ps with
  | Zombie n => ∃ j q, n = (i + j)%nat ∧ ps !! j = Some q ∧ parent q = Some p ∧
      state q = ZOMBIE ∧
      ∀ j' q', (j' < j)%nat → ps !! j' = Some q' → parent q' = Some p → state q' ≠ ZOMBIE
  | NoZombie b' => (∀ q, q ∈ ps → parent q = Some p → state q ≠ ZOMBIE) ∧
      (b' = true ↔ b = true ∨ ∃ q, q ∈ ps ∧ parent q = Some p)
  end.
Proof.
  revert i b. induction ps as [|q ps IH]; intros i b; cbn [scan_children].
  { split; [by intros q ?%elem_of_nil|]. split; [by left|].
    intros [?|(q & ?%elem_of_nil & _)]; done. }
  case_decide as Hp; [case_decide as Hz|].
  - exists 0%nat, q. split; [lia|]. split_and!; try done. intros; lia.
  - specialize (IH (S i) true). destruct (scan_children p (S i) true ps) as [n|b'].
    + destruct IH as (j & q' & -> & Hj & Hq' & Hz' & Hmin). exists (S j), q'.
      split; [lia|]. split_and!; try done. intros [|j'] q2 Hlt Hq2 Hp2; simplify_eq/=; [done|].
      eapply Hmin; try done. lia.
    + destruct IH as [Hno Hb]. split.
      * intros q' [->|Hq']%elem_of_cons; [done|]. by apply Hno.
      * split; [|intros _; apply Hb; by left]. intros _. right. exists q. split; [by left|done].
  - specialize (IH (S i) b). destruct (scan_children p (S i) b ps) as [n|b'].
    + destruct IH as (j & q' & -> & Hj & Hq' & Hz' & Hmin). exists (S j), q'.
      split; [lia|]. split_and!; try done. intros [|j'] q2 Hlt Hq2 Hp2; simplify_eq/=.
      eapply Hmin; try done. lia.
    + destruct IH as [Hno Hb]. split.
      * intros q' [->|Hq']%elem_of_cons; [done|]. by apply Hno.
      * rewrite Hb. split; (intros [?|(q' & Hq' & ?)]; [by left|right]).
        -- exists q'. split; [by right|done].
        -- apply elem_of_cons in Hq' as [->|Hq']; [done|]. by exists q'.
Qed.

Definition child (p : nat) (k : kernel) (q : proc) : Prop :=
  q ∈ procs k ∧ parent q = Some p.

(** wait.  A turn of [kwait] or [kwaitx] collects the first exited child of
    the table, returns its pid and clears its entry, unless a result cannot be
    stored, which changes nothing; without children, or when the caller was
    killed, it returns -1; otherwise the caller is registered to be woken by an
    exit. *)
Theorem kwait_spec (copied : proc → bool) (p : nat) (k : kernel) :
  match wait_body copied p k with
  | (k', Returns id) =>
      (∃ i q, procs k !! i = Some q ∧ parent q = Some p ∧ state q = ZOMBIE ∧
        (∀ j q', (j < i)%nat → procs k !! j = Some q' → parent q' = Some p →
           state q' ≠ ZOMBIE) ∧
        if copied q then
          id = pid q ∧ procs k' = <[i := freeproc (with_parent None q)]> (procs k)
        else id = -1 ∧ k' = k) ∨
      (∀ q, child p k q → state q ≠ ZOMBIE) ∧ id = -1 ∧ k' = k ∧
      ((∀ q, ¬ child p k q) ∨ killed p k = true)
  | (k', Sleeps) =>
      (∀ q, child p k q → state q ≠ ZOMBIE) ∧ (∃ q, child p k q) ∧ killed p k = false ∧
      k' = sleep_prepare p (ProcAddr p) k
  end.
Proof.
  unfold wait_body. pose proof (scan_children_spec p 0 false (procs k)) as H.
  destruct (scan_children p 0 false (procs k)) as [n|b].
  - destruct H as (i & q & -> & Hq & Hp & Hz & Hmin). cbn [Nat.add]. rewrite Hq.
    destruct (copied q) eqn:Hc; left; exists i, q; rewrite Hc; split_and!; try done.
    apply list_eq. intros j. unfold reap_child. rewrite !lookup_update_any.
    destruct (decide (j = i)) as [->|Hj].
    + rewrite Hq, list_lookup_insert_eq; [done|by eapply lookup_lt_Some].
    + rewrite list_lookup_insert_ne by done. by destruct (procs k !! j).
  - destruct H as [Hno Hb].
    assert (Hno' : ∀ q, child p k q → state q ≠ ZOMBIE) by (intros q [? ?]; by apply Hno).
    destruct b; cbn [negb orb].
    + destruct (proj1 Hb eq_refl) as [?|(q & ? & ?)]; [done|].
      destruct (killed p k) eqn:Hk; [right|]; split_and!; auto. by exists q.
    + right. split_and!; auto. left. intros q [Hin Hq].
      assert (false = true) by (apply Hb; right; by exists q). done.
Qed.

(** A child that exits while its parent is about to sleep in [kwait]. *)
Definition family : kernel :=
  kern (run RR (spawn ++ [Wait true; Tick]) (boot RR)).

Lemma kexit_spec_witness :
  match kexit RR 1 7 family with
  | Some k' => ∃ q', procs k' !! 0%nat = Some q' ∧ chan q' = None
  | None => False
  end.
Proof.
  destruct (kexit RR 1 7 family) as [k'|] eqn:E; [|vm_compute in E; discriminate].
  destruct (procs family !! 1%nat) as [me|] eqn:Hme; [|vm_compute in Hme; discriminate].
  destruct (procs family !! 0%nat) as [q|] eqn:Hq; [|vm_compute in Hq; discriminate].
  assert (H1 : parent me = Some 0%nat) by (vm_compute in Hme; injection Hme as <-; reflexivity).
  assert (H2 : chan q = Some (ProcAddr 0)) by (vm_compute in Hq; injection Hq as <-; reflexivity).
  destruct (kexit_spec RR 1 7 family k' me) as [_ H].
  - vm_compute. reflexivity.
  - exact Hme.
  - rewrite H1. discriminate.
  - vm_compute. discriminate.
  - exact E.
  - destruct (H 0%nat q ltac:(discriminate) Hq) as (q' & Hq' & _ & _ & _ & Hw).
    exists q'. split; [exact Hq'|exact (proj1 (Hw H1 H2))].
Defined.

(** [kill(0)] matches the unused entries: it succeeds, and the next process
    created in the entry is born killed. *)
Lemma kill_zero_poisons :
  let s := run RR (Kill 0 :: spawn) (boot RR) in
  snd (kkill RR 0 (kern (boot RR))) = 0 ∧
  match procs (kern s) !! 1%nat with
  | Some p => state p = RUNNABLE ∧ killed_flag p = true
  | None => False
  end.
Proof. vm_compute. auto. Qed.

(** A process that got the CPU, but ended before the next tick, counts as
    having never run: its response time is reported as 0 although it waited. *)
Lemma short_run_has_no_response :
  match procs (kern (run RR (spawn ++ [Tick; Exit 0]) (boot RR))) !! 1%nat with
  | Some p => state p = ZOMBIE ∧ wtime p = 1 ∧ response_time p = 0 ∧ has_run p = false
  | None => False
  end.
Proof. vm_compute. auto. Qed.
