(* ===== verification/Fair.v ===== *)
(** * Waiting times under the MLFQ scheduler

    After a priority boost a runnable process waits for at most the processes
    that come before it in the table: a bound that holds whatever the other
    processes do, and that no longer holds for the entries of the table that
    the interval between two boosts does not reach. *)

From S2P Require Import Prelude Proc Sched System.

Open Scope Z_scope.

(** Runnable, running, or about to be created. *)
Definition active (p : proc) : Prop :=
  state p = RUNNABLE ∨ state p = RUNNING ∨ state p = USED.

(** What an operation other than a tick may do to an entry: a process that
    becomes runnable enters its queue now, a runnable one keeps its place, and
    none is put on the CPU. *)
Definition tame (now : Z) (p p' : proc) : Prop :=
  (active p' → (active p ∧ queue p' = queue p ∧ enter_time p' = enter_time p) ∨
               enter_time p' = i32 now) ∧
  (state p = RUNNABLE →
   state p' = RUNNABLE ∧ queue p' = queue p ∧ enter_time p' = enter_time p) ∧
  (state p' = RUNNING →
   state p = RUNNING ∧ queue p' = queue p ∧ enter_time p' = enter_time p).

Definition tame_table (k k' : kernel) : Prop :=
  ticks k' = ticks k ∧ length (procs k') = length (procs k) ∧
  ∀ i p p', procs k !! i = Some p → procs k' !! i = Some p' → tame (ticks k) p p'.

Lemma tame_refl now p : tame now p p.
Proof. split_and!; auto. Qed.

Lemma tame_trans now p1 p2 p3 : tame now p1 p2 → tame now p2 p3 → tame now p1 p3.
Proof.
  intros (H1 & H1' & H1'') (H2 & H2' & H2''). split_and!.
  - intros Ha. destruct (H2 Ha) as [(Ha2 & -> & He)|He]; [|by right].
    destruct (H1 Ha2) as [(? & ? & ?)|?]; [left|right]; split_and?; congruence.
  - intros Hr. destruct (H1' Hr) as (Hr2 & ? & ?). destruct (H2' Hr2) as (? & ? & ?).
    split_and!; congruence.
  - intros Hr. destruct (H2'' Hr) as (Hr2 & ? & ?). destruct (H1'' Hr2) as (? & ? & ?).
    split_and!; congruence.
Qed.

Lemma tame_table_refl k : tame_table k k.
Proof. split_and!; try done. intros. simplify_eq. apply tame_refl. Qed.

Lemma tame_table_trans k1 k2 k3 : tame_table k1 k2 → tame_table k2 k3 → tame_table k1 k3.
Proof.
  intros (Ht & Hl & H) (Ht' & Hl' & H'). split_and!; [congruence..|].
  intros i p p' Hp Hp'. destruct (procs k2 !! i) as [p2|] eqn:E.
  - eapply tame_trans; [by eapply H|]. rewrite <-Ht. by eapply H'.
  - apply lookup_ge_None in E. apply lookup_lt_Some in Hp. lia.
Qed.

Lemma tame_update i f k :
  (∀ p, procs k !! i = Some p → tame (ticks k) p (f p)) → tame_table k (update i f k).
Proof.
  intros Hf. split_and!; [done|by cbn; rewrite length_alter|].
  intros j p p' Hp. rewrite lookup_update_any, Hp. intros [= <-].
  case_decide; [subst; by apply Hf|apply tame_refl].
Qed.

Lemma tame_all f k k' :
  (∀ p, tame (ticks k) p (f p)) → procs k' = f <$> procs k → ticks k' = ticks k →
  tame_table k k'.
Proof.
  intros Hf Hp Ht. split_and!; [done|by rewrite Hp, length_fmap|].
  intros j p p' Hj. rewrite Hp, list_lookup_fmap, Hj. by intros [= <-].
Qed.

Ltac tame_entry :=
  unfold tame, active; repeat (case_decide || case_match); cbn in *;
  split_and!; intros; try (by left); try (by right); try done; intuition congruence.

(** ** The operations are tame *)
Lemma tame_wakeup c k : tame_table k (wakeup MLFQ c k).
Proof.
  apply (tame_all (wake_proc MLFQ c (ticks k))); try done. intros p.
  unfold wake_proc, make_runnable, if_mlfq. tame_entry.
Qed.

Lemma tame_kkill id k : tame_table k (fst (kkill MLFQ id k)).
Proof.
  unfold kkill. destruct (find_pid id (procs k)); [|apply tame_table_refl].
  apply tame_update. intros p _. unfold kill_proc, make_runnable, if_mlfq. tame_entry.
Qed.

Lemma tame_sleep i k :
  (∀ p, procs k !! i = Some p → state p = RUNNING) → tame_table k (fst (sleep MLFQ i k)).
Proof.
  intros Hr. unfold sleep. destruct (procs k !! i) as [p|] eqn:E; [|apply tame_table_refl].
  apply tame_update. intros q Hq. assert (state q = RUNNING) by (apply Hr; congruence).
  unfold sleep_proc, if_mlfq. destruct (chan q); tame_entry.
Qed.

Lemma tame_sleep_prepare i c k : tame_table k (sleep_prepare i c k).
Proof. apply tame_update. intros p _. tame_entry. Qed.

Lemma tame_with_parent i pp k : tame_table k (update i (with_parent pp) k).
Proof. apply tame_update. intros p _. tame_entry. Qed.

Lemma tame_reparent_from p n i k : tame_table k (reparent_from MLFQ p n i k).
Proof.
  revert i k. induction n as [|n IH]; intros i k; [apply tame_table_refl|].
  cbn [reparent_from]. eapply tame_table_trans; [|apply IH].
  case_decide; [|apply tame_table_refl].
  eapply tame_table_trans; [apply tame_with_parent|apply tame_wakeup].
Qed.

Lemma tame_reparent p k : tame_table k (reparent MLFQ p k).
Proof. exact (tame_reparent_from p NPROC 0 k). Qed.

#[local] Opaque reparent.

Lemma tame_kexit N fk p status k k' :
  table_ok N fk k (Some p) → kexit MLFQ p status k = Some k' → tame_table k k'.
Proof.
  intros Hk. unfold kexit. case_decide; [done|]. intros E%(inj Some). subst k'.
  pose proof (reparent_ok MLFQ p k _ Hk) as Hk1. pose proof (tame_reparent p k) as Ht.
  revert Hk1 Ht. generalize (reparent MLFQ p k). intros k1 Hk1 Ht.
  set (c := ProcAddr <$> _). pose proof (wakeup_ok MLFQ c k1 _ Hk1) as Hk2.
  eapply tame_table_trans; [exact Ht|]. eapply tame_table_trans; [apply tame_wakeup|].
  apply tame_update. intros q Hq. pose proof (proj2 (ok_running _ _ Hk2 p q Hq) eq_refl).
  tame_entry.
Qed.

Lemma tame_fork_alloc memory copied k : tame_table k (fst (fork_alloc memory copied k)).
Proof.
  unfold fork_alloc, allocproc. pose proof (find_state_spec UNUSED (procs k)) as Hf.
  destruct (find_state UNUSED (procs k)) as [i|]; [|apply tame_table_refl].
  destruct Hf as (p0 & Hp0 & Hs & _). cbn [allocpid].
  destruct memory, copied; cbn [fst];
    (split_and!; [done|by cbn; rewrite ?length_alter|]);
    intros j q q' Hq; rewrite !lookup_update_any; cbn [procs]; rewrite Hq; intros [= <-];
    (case_decide; [subst j; simplify_eq|apply tame_refl]); tame_entry.
Qed.

Lemma tame_fork_run np k c :
  procs k !! np = Some c → state c = USED → tame_table k (fork_run np k).
Proof. intros Hc Hs. apply tame_update. intros p Hp. simplify_eq. tame_entry. Qed.

Lemma tame_wait_body copied p k : tame_table k (fst (wait_body copied p k)).
Proof.
  unfold wait_body. destruct (scan_children p 0 false (procs k)) as [i|hk] eqn:Hs.
  - apply scan_children_zombie in Hs as (j & q & -> & Hq & _ & Hz). cbn [Nat.add].
    rewrite Hq. destruct (copied q); [|apply tame_table_refl]. unfold reap_child. cbn [fst].
    eapply tame_table_trans; [apply tame_with_parent|]. apply tame_update.
    intros q'. rewrite lookup_update_any, decide_True, Hq by done. intros [= <-].
    tame_entry.
  - case_if; [apply tame_table_refl|apply tame_sleep_prepare].
Qed.

(** ** A waiting process *)
Section Waiting.
Context (B : Z) (i : nat) (HB : 0 ≤ B) (HB31 : B + BOOST < 2 ^ 31).

(** Process [i] waits since the boost at tick [B]. *)
Record waiting (k : kernel) : Prop := {
  w_proc : ∃ p, procs k !! i = Some p ∧ state p = RUNNABLE ∧ queue p = 0 ∧ enter_time p = B;
  w_enter : ∀ j q, procs k !! j = Some q → active q → queue q = 0 → B ≤ enter_time q;
  w_ticks : B ≤ ticks k < B + BOOST;
}.

(** Process [j] is scheduled before process [i]. *)
Definition ahead (k : kernel) (j : nat) : Prop :=
  (j < i)%nat ∧ ∃ q, procs k !! j = Some q ∧ active q ∧ queue q = 0 ∧ enter_time q = B.

Definition at_most_ahead (k : kernel) (n : nat) : Prop :=
  ∃ l : list nat, (length l ≤ n)%nat ∧ ∀ j, ahead k j → j ∈ l.

Lemma lookup_same_length {A} (l l' : list A) j x :
  length l' = length l → l' !! j = Some x → ∃ y, l !! j = Some y.
Proof.
  intros Hl Hx. apply lookup_lt_Some in Hx. rewrite Hl in Hx.
  by apply lookup_lt_is_Some_2 in Hx.
Qed.

Section Change.
Context (k k' : kernel).
Context (Hl : length (procs k') = length (procs k)).
Context (Ht : ∀ j p p', procs k !! j = Some p → procs k' !! j = Some p' → tame (ticks k') p p').
Context (Hnow : B ≤ ticks k' < B + BOOST).

Lemma waiting_tame : waiting k → waiting k'.
Proof.
  intros [(p & Hp & Hs & Hq & He) Hen _]. split; [| |done].
  - destruct (lookup_same_length (procs k') (procs k) i p ltac:(done) Hp) as (p' & Hp').
    destruct (Ht i p p' Hp Hp') as (_ & H & _). destruct (H Hs) as (? & ? & ?).
    exists p'. split_and!; congruence.
  - intros j q' Hq' Ha H0. destruct (lookup_same_length _ _ _ _ Hl Hq') as (q & Hj).
    destruct (Ht j q q' Hj Hq') as (H & _). unfold BOOST in *.
    destruct (H Ha) as [(Ha' & Hqq & ->)| ->].
    + apply (Hen j q); congruence.
    + rewrite i32_small by lia. lia.
Qed.

Lemma ahead_tame j : B < ticks k' → ahead k' j → ahead k j.
Proof.
  intros Hlt [Hj (q' & Hq' & Ha & H0 & He)]. split; [done|].
  destruct (lookup_same_length _ _ _ _ Hl Hq') as (q & Hqj).
  destruct (Ht j q q' Hqj Hq') as (H & _). unfold BOOST in *.
  destruct (H Ha) as [(Ha' & Hqq & Hee)|Hee].
  - exists q. split_and!; congruence.
  - rewrite i32_small in Hee by lia. lia.
Qed.

Lemma at_most_tame n : B < ticks k' → at_most_ahead k n → at_most_ahead k' n.
Proof.
  intros Hlt (l & Hlen & H). exists l. split; [done|]. intros j Hj. by apply H, ahead_tame.
Qed.
End Change.

Lemma at_most_remove k k' c n :
  (∀ j, ahead k' j → ahead k j) → ahead k c → ¬ ahead k' c →
  at_most_ahead k (S n) → at_most_ahead k' n.
Proof.
  intros Hsub Hc Hc' (l & Hlen & H). exists (filter (λ j, j ≠ c) l). split.
  - assert (Hlt : ∀ l : list nat, c ∈ l → (length (filter (λ j, j ≠ c) l) < length l)%nat).
    { clear. induction l as [|x l IH]; [by intros ?%elem_of_nil|]. intros Hin.
      rewrite filter_cons. case_decide as Hx.
      - apply elem_of_cons in Hin as [->|Hin]; [done|]. specialize (IH Hin). simpl. lia.
      - pose proof (length_filter (λ j, j ≠ c) l). simpl. lia. }
    specialize (Hlt l (H c Hc)). lia.
  - intros j Hj. apply list_elem_of_filter. split; [by intros ->|]. by apply H, Hsub.
Qed.

(** The scheduler: process [i], or one that is ahead of it. *)
Lemma dispatch_waiting s n :
  system_ok s → waiting (kern s) → at_most_ahead (kern s) n → cpu s = None →
  let s' := dispatch MLFQ s in
  cpu s' = Some i ∨
  ∃ c, cpu s' = Some c ∧ waiting (kern s') ∧ ahead (kern s') c ∧ at_most_ahead (kern s') n ∧
    ticks (kern s') = ticks (kern s).
Proof.
  intros Hok Hw Hn Hc. unfold dispatch. rewrite Hc. unfold schedule.
  destruct (w_proc _ Hw) as (p & Hp & Hs & Hq & He).
  assert (Hqs : Forall (λ p, 0 ≤ queue p ≤ 3) (procs (kern s))).
  { apply Forall_lookup_2. intros j q Hj. by eapply ok_queue, (ok_entries _ _ Hok). }
  pose proof (mlfq_pick (next_slot s) _ Hqs) as Hpick.
  destruct (pick MLFQ (next_slot s) (procs (kern s))) as [c|].
  - destruct Hpick as (q & Hcq & Hrq & Hbef). destruct (decide (c = i)) as [->|Hne]; [by left|].
    right. exists c. cbn [kern cpu]. set (k' := update c (with_state RUNNING) (kern s)).
    assert (Hact : ∀ j q', procs k' !! j = Some q' → ∃ q, procs (kern s) !! j = Some q ∧
      queue q' = queue q ∧ enter_time q' = enter_time q ∧ (active q' → active q)).
    { intros j q'. unfold k'. rewrite lookup_update_any. intros (q0 & Hq0 & ->)%fmap_Some.
      exists q0. case_decide; [|done]. subst j. simplify_eq. split_and!; try done. by left. }
    specialize (Hbef i p Hp Hs). unfold before in Hbef.
    assert (Hq0 : 0 ≤ queue q) by (eapply ok_queue, (ok_entries _ _ Hok); done).
    pose proof (w_enter _ Hw c q Hcq (or_introl Hrq) ltac:(lia)) as Hen.
    assert (Hsub : ∀ j, ahead k' j → ahead (kern s) j).
    { intros j [Hj (q' & Hq' & Ha & H0 & He')]. split; [done|].
      destruct (Hact j q' Hq') as (q1 & Hq1 & ? & ? & ?). exists q1.
      split_and!; [done|auto|congruence..]. }
    split_and!; [done| | | |done].
    + split; [|intros j q' Hq' Ha H0; destruct (Hact j q' Hq') as (q1 & Hq1 & Hqq & -> & Ha');
                 apply (w_enter _ Hw j q1); [done|auto|congruence]|apply (w_ticks _ Hw)].
      exists p. unfold k'. rewrite lookup_update_any, decide_False, Hp by done. done.
    + split; [lia|]. exists (with_state RUNNING q). unfold k'.
      rewrite lookup_update_any, decide_True, Hcq by done. cbn.
      split_and!; [done|right; by left|lia|lia].
    + destruct Hn as (l & Hlen & Hl). exists l. split; [done|]. auto.
  - exfalso. eapply Hpick; [by eapply list_elem_of_lookup_2|done].
Qed.

(** An operation other than a tick. *)
Lemma proc_op_tame o c s :
  system_ok s → cpu s = Some c →
  tame_table (kern s) (kern (proc_op MLFQ o c s)) ∧
  (cpu (proc_op MLFQ o c s) = cpu s ∨ cpu (proc_op MLFQ o c s) = None).
Proof.
  unfold system_ok, system_within. intros Hok Hc. rewrite Hc in Hok.
  assert (Hsame : tame_table (kern s) (kern s) ∧ (cpu s = cpu s ∨ cpu s = None))
    by (split; [apply tame_table_refl|by left]).
  unfold proc_op. case_if; [done|].
  destruct (forking s c) as [[np|np]|] eqn:Hf, o as [|ch| |ch|id|memory copied| | |status|copied];
    try exact Hsame.
  - split; [apply tame_with_parent|by left].
  - destruct (ok_forks _ _ Hok c _ Hf) as (p & Hp & Hs).
    split; [by eapply tame_fork_run|by left].
  - split; [apply tame_sleep_prepare|by left].
  - assert (Ht : tame_table (kern s) (fst (sleep MLFQ c (kern s)))).
    { apply tame_sleep. intros p Hp. by apply (ok_running _ _ Hok c p Hp). }
    destruct (sleep MLFQ c (kern s)) as [k' []]; cbn; auto.
  - pose proof (tame_fork_alloc memory copied (kern s)) as Ht.
    destruct (fork_alloc memory copied (kern s)) as [k' [np|]]; cbn; auto.
  - destruct (kexit MLFQ c status (kern s)) as [k'|] eqn:E; [|exact Hsame].
    cbn. split; [by eapply tame_kexit|by right].
  - split; [apply tame_wait_body|by left].
Qed.

Lemma sys_op_tame o s :
  system_ok s → o ≠ Tick →
  tame_table (kern s) (kern (sys_op MLFQ o s)) ∧
  (cpu (sys_op MLFQ o s) = cpu s ∨ cpu (sys_op MLFQ o s) = None).
Proof.
  intros Hok Ho.
  assert (Hd : let s' := match cpu s with Some i => proc_op MLFQ o i s | None => s end in
    tame_table (kern s) (kern s') ∧ (cpu s' = cpu s ∨ cpu s' = None)).
  { destruct (cpu s) as [c|] eqn:Hc; cbn.
    - rewrite <-Hc. by apply proc_op_tame.
    - split; [apply tame_table_refl|by left]. }
  destruct o; try done; cbn [sys_op].
  - split; [apply tame_wakeup|by left].
  - split; [apply tame_kkill|by left].
Qed.

(** The clock between two boosts. *)
Lemma clockintr_tame k :
  u32 (ticks k + 1) mod BOOST ≠ 0 →
  length (procs (clockintr MLFQ k)) = length (procs k) ∧
  ∀ j p p', procs k !! j = Some p → procs (clockintr MLFQ k) !! j = Some p' →
    tame (ticks (clockintr MLFQ k)) p p' ∧
    (state p = RUNNING → queue p' = queue p ∧ ticks_in_slice p' = ticks_in_slice p + 1).
Proof.
  intros Hb. rewrite ticks_clockintr. unfold clockintr, if_mlfq. rewrite decide_True by done.
  cbn [ticks procs set_procs update_proc_time wakeup]. rewrite (proj2 (Z.eqb_neq _ _) Hb).
  cbn [procs set_procs update_proc_time wakeup].
  split; [by rewrite !length_fmap|]. intros j p p' Hp. rewrite !list_lookup_fmap, Hp.
  intros [= <-]. generalize (u32 (ticks k + 1)). intros now. clear.
  unfold wake_proc, make_runnable, account, if_mlfq. destruct p as [st].
  destruct st; repeat case_decide; cbn in *; (split; [split_and!|]); unfold active; cbn; intros; try done;
    try (intuition congruence).
Qed.

(** A tick takes the CPU from whoever has it while process [i] waits. *)
Lemma tick_waiting s c :
  system_ok s → waiting (kern s) → cpu s = Some c →
  ticks (kern s) + 1 < B + BOOST → (ticks (kern s) + 1) mod BOOST ≠ 0 →
  let s' := sys_op MLFQ Tick s in
  cpu s' = None ∧ waiting (kern s') ∧ ticks (kern s') = ticks (kern s) + 1 ∧
  (∀ j, ahead (kern s') j → ahead (kern s) j) ∧ ¬ ahead (kern s') c.
Proof.
  intros Hok Hw Hc Hlt Hmod. pose proof (w_ticks _ Hw) as Hrange. unfold BOOST in Hrange, Hlt.
  unfold BOOST in HB31.
  assert (Hu : u32 (ticks (kern s) + 1) = ticks (kern s) + 1).
  { unfold u32. rewrite Z.mod_small by lia. done. }
  destruct (clockintr_tame (kern s)) as [Hl1 Ht1]; [by rewrite Hu|].
  pose proof (ticks_clockintr MLFQ (kern s)) as Hnow. rewrite Hu in Hnow.
  assert (Hok1 : table_ok (2 ^ 31) (forking s) (clockintr MLFQ (kern s)) (Some c))
    by (apply clockintr_ok; unfold system_ok, system_within in Hok; by rewrite Hc in Hok).
  unfold system_ok, system_within in Hok. rewrite Hc in Hok.
  assert (Hw1 : waiting (clockintr MLFQ (kern s))).
  { eapply (waiting_tame (kern s)); [done| |unfold BOOST; lia|done].
    intros j p p' Hp Hp'. by apply (Ht1 j). }
  cbn [sys_op]. rewrite Hc. set (k1 := clockintr MLFQ (kern s)) in *.
  (* the entry of the running process *)
  destruct (w_proc _ Hw) as (pi & Hpi & Hsi & Hqi & Hei).
  destruct (w_proc _ Hw1) as (pi1 & Hpi1 & Hsi1 & Hqi1 & Hei1).
  assert (Hci : c ≠ i).
  { intros ->. pose proof (proj2 (ok_running _ _ Hok i pi Hpi) eq_refl). congruence. }
  assert (∃ pc, procs (kern s) !! c = Some pc) as [pc Hpc].
  { apply lookup_lt_is_Some_2. rewrite (ok_length _ _ Hok). by apply (ok_cpu _ _ Hok). }
  destruct (lookup_same_length (procs k1) (procs (kern s)) c pc) as [pc1 Hpc1]; [done|done|].
  pose proof (proj2 (ok_running _ _ Hok c pc Hpc) eq_refl) as Hrc.
  pose proof (proj2 (ok_running _ _ Hok1 c pc1 Hpc1) eq_refl) as Hrc1.
  destruct (Ht1 c pc pc1 Hpc Hpc1) as [_ Hsl]. destruct (Hsl Hrc) as [Hqc Hsc].
  pose proof (ok_entries _ _ Hok c pc Hpc) as [Hq Hs0 _ _ _].
  unfold timer_preempt. rewrite Hpc1, decide_True by done.
  assert (Hhigh : queue pc1 ≠ 0 → higher_priority_proc_runnable MLFQ (queue pc1) k1 = true).
  { intros Hne. unfold higher_priority_proc_runnable, if_mlfq. rewrite decide_True by done.
    apply existsb_exists. exists pi1. split; [apply list_elem_of_In; by eapply list_elem_of_lookup_2|].
    rewrite bool_decide_eq_true_2, andb_true_l by done. apply Z.ltb_lt. lia. }
  assert (Hgoal : ∀ f, (∀ p, enter_time (f p) = enter_time p ∨ enter_time (f p) = i32 (ticks k1)) →
    let k2 := yield MLFQ c (update c f k1) in
    waiting k2 ∧ ticks k2 = ticks k1 ∧ (∀ j, ahead k2 j → ahead (kern s) j) ∧ ¬ ahead k2 c).
  { intros f Hf k2.
    assert (Htame : ∀ j p p', procs k1 !! j = Some p → procs k2 !! j = Some p' →
      tame (ticks k2) p p' ∧ (j = c → enter_time p' = ticks k1)).
    { intros j q q' Hqj. unfold k2, yield. rewrite !lookup_update_any, Hqj. intros [= <-].
      case_decide; [|split; [apply tame_refl|done]]. subst j. simplify_eq.
      unfold yield_proc, if_mlfq. rewrite decide_True by done. cbn.
      rewrite i32_small by lia. split; [|done].
      split_and!; [intros _; right; cbn; by rewrite i32_small by lia|intros Hr; congruence|done]. }
    assert (Hl2 : length (procs k2) = length (procs k1)) by (cbn; by rewrite !length_alter).
    split_and!; [|done| |].
    - eapply (waiting_tame k1); [done|intros; by apply (Htame j)|unfold BOOST; cbn; lia|done].
    - intros j Hj. eapply (ahead_tame (kern s) k1); [done|intros; by apply (Ht1 j0)
        |unfold BOOST; lia|lia|].
      eapply (ahead_tame k1 k2); [done|intros; by apply (Htame j0)|unfold BOOST; cbn; lia
        |cbn; lia|done].
    - intros [_ (q & Hqc2 & _ & _ & He)].
      destruct (Htame c pc1 q Hpc1 Hqc2) as [_ Hent]. specialize (Hent eq_refl). lia. }
  destruct (slice_limit (queue pc1) <=? ticks_in_slice pc1) eqn:Hslice.
  - destruct (Hgoal (demote_proc (ticks k1))) as (? & ? & ? & ?); [by right|].
    cbn. split_and!; done || lia.
  - destruct (decide (queue pc1 = 0)) as [H0|H0].
    + rewrite H0 in Hslice. apply Z.leb_gt in Hslice. change (slice_limit 0) with 1 in Hslice. lia.
    + rewrite (Hhigh H0).
      destruct (Hgoal (λ p, with_sched (queue p) (ticks_in_slice p) (i32 (ticks k1)) p))
        as (? & ? & ? & ?); [by right|]. cbn. split_and!; done || lia.
Qed.

(** Process [i] waits, and the CPU is with another one. *)
Definition waits (s : system) : Prop :=
  system_ok s ∧ waiting (kern s) ∧ ∃ c, cpu s = Some c.

(** The same after the first tick: the other one is ahead, and at most [n]
    are. *)
Definition waits_behind (n : nat) (s : system) : Prop :=
  system_ok s ∧ waiting (kern s) ∧ B < ticks (kern s) ∧
  (∃ c, cpu s = Some c ∧ ahead (kern s) c) ∧ at_most_ahead (kern s) n.

Lemma at_most_i k : at_most_ahead k i.
Proof.
  exists (seq 0 i). split; [by rewrite length_seq|]. intros j [Hj _].
  apply list_elem_of_In, in_seq. lia.
Qed.

Lemma sys_op_waiting o s :
  system_ok s → waiting (kern s) → o ≠ Tick →
  let s' := sys_op MLFQ o s in
  waiting (kern s') ∧ ticks (kern s') = ticks (kern s) ∧
  (∀ n, B < ticks (kern s) → at_most_ahead (kern s) n → at_most_ahead (kern s') n) ∧
  (cpu s' = None ∨ cpu s' = cpu s ∧
    ∀ c, cpu s = Some c → ahead (kern s) c → ahead (kern s') c).
Proof.
  intros Hok Hw Ho s'. destruct (sys_op_tame o s Hok Ho) as [(Ht & Hl & He) Hc].
  fold s' in Ht, Hl, He, Hc. pose proof (w_ticks _ Hw) as Hr. rewrite <-Ht in He, Hr.
  split_and!; [by eapply waiting_tame|done| |].
  - intros n Hlt. eapply at_most_tame; try done. lia.
  - destruct Hc as [Hc|Hc]; [right|by left]. split; [done|].
    intros c Hcs [Hci (q & Hq & _ & H0 & Hb)]. split; [done|].
    destruct (lookup_same_length (procs (kern s')) _ c q ltac:(done) Hq) as [q' Hq'].
    pose proof (sys_op_ok MLFQ o s Hok) as Hok'. fold s' in Hok'.
    assert (Hrun : state q' = RUNNING).
    { apply (ok_running _ _ Hok' c q' Hq'). congruence. }
    destruct (He c q q' Hq Hq') as (_ & _ & H). destruct (H Hrun) as (_ & ? & ?).
    exists q'. split_and!; [done|right; by left|congruence..].
Qed.

Lemma step_waits o s :
  waits s → o ≠ Tick →
  cpu (sys_step MLFQ o s) = Some i ∨
  waits (sys_step MLFQ o s) ∧ ticks (kern (sys_step MLFQ o s)) = ticks (kern s).
Proof.
  intros (Hok & Hw & c & Hc) Ho. destruct (sys_op_waiting o s Hok Hw Ho) as (Hw' & Ht & _ & Hcpu).
  pose proof (sys_op_ok MLFQ o s Hok) as Hok'. unfold sys_step.
  pose proof (dispatch_ok MLFQ _ Hok') as Hok''.
  destruct Hcpu as [Hn|[Hsame _]].
  - destruct (dispatch_waiting _ _ Hok' Hw' (at_most_i _) Hn) as [?|(c' & Hc' & ? & _ & _ & ?)];
      [by left|right]. split; [|congruence]. split_and!; eauto.
  - right. unfold dispatch in *. rewrite Hsame, Hc in *. split; [|done].
    split_and!; [done|done|]. exists c. congruence.
Qed.

Lemma step_waits_behind n o s :
  waits_behind n s → o ≠ Tick →
  cpu (sys_step MLFQ o s) = Some i ∨
  waits_behind n (sys_step MLFQ o s) ∧ ticks (kern (sys_step MLFQ o s)) = ticks (kern s).
Proof.
  intros (Hok & Hw & Hlt & (c & Hc & Ha) & Hn) Ho.
  destruct (sys_op_waiting o s Hok Hw Ho) as (Hw' & Ht & Hn' & Hcpu).
  pose proof (sys_op_ok MLFQ o s Hok) as Hok'. unfold sys_step.
  pose proof (dispatch_ok MLFQ _ Hok') as Hok''.
  destruct Hcpu as [Hnone|[Hsame Ha']].
  - destruct (dispatch_waiting _ n Hok' Hw' (Hn' n Hlt Hn) Hnone)
      as [?|(c' & Hc' & ? & ? & ? & ?)]; [by left|right].
    split; [|congruence]. split_and!; [done|done|lia|by exists c'|done].
  - right. unfold dispatch in *. rewrite Hsame, Hc in *. split; [|done].
    split_and!; [done|done|lia| |by apply Hn'].
    exists c. split; [congruence|by apply Ha'].
Qed.

Lemma tick_step n s c :
  system_ok s → waiting (kern s) → cpu s = Some c →
  ticks (kern s) + 1 < B + BOOST → (ticks (kern s) + 1) mod BOOST ≠ 0 →
  at_most_ahead (kern (sys_op MLFQ Tick s)) n →
  cpu (sys_step MLFQ Tick s) = Some i ∨
  waits_behind n (sys_step MLFQ Tick s) ∧
  ticks (kern (sys_step MLFQ Tick s)) = ticks (kern s) + 1.
Proof.
  intros Hok Hw Hc Hlt Hmod Hn.
  destruct (tick_waiting s c Hok Hw Hc Hlt Hmod) as (Hnone & Hw' & Ht & _).
  pose proof (sys_op_ok MLFQ Tick s Hok) as Hok'.
  pose proof (dispatch_ok MLFQ _ Hok') as Hok''. pose proof (w_ticks _ Hw).
  destruct (dispatch_waiting _ n Hok' Hw' Hn Hnone) as [?|(c' & Hc' & ? & ? & ? & ?)];
    [by left|right].
  split; [|unfold sys_step; congruence].
  split_and!; [done|done|unfold sys_step; lia|by exists c'|done].
Qed.

Lemma run_cons o ops s : run MLFQ (o :: ops) s = run MLFQ ops (sys_step MLFQ o s).
Proof. done. Qed.

(** Process [i] gets the CPU during the run. *)
Definition gets_cpu (ops : list op) (s : system) : Prop :=
  ∃ m, cpu (run MLFQ (take m ops) s) = Some i.

Lemma gets_cpu_cons o ops s :
  cpu (sys_step MLFQ o s) = Some i ∨ gets_cpu ops (sys_step MLFQ o s) → gets_cpu (o :: ops) s.
Proof. intros [H|[m H]]; [by exists 1%nat|by exists (S m)]. Qed.

Lemma tick_count_cons o ops : o ≠ Tick → tick_count (o :: ops) = tick_count ops.
Proof. by destruct o. Qed.

Lemma op_tick_dec (o : op) : o = Tick ∨ o ≠ Tick.
Proof. destruct o; first [by left | by right]. Qed.

Context (HBmod : B mod BOOST = 0).

Lemma no_boost t : B < t < B + BOOST → t mod BOOST ≠ 0.
Proof.
  unfold BOOST in *. intros Ht Hm. apply Z.mod_divide in Hm as [a Ha]; [|done].
  apply Z.mod_divide in HBmod as [b Hb]; [|done]. lia.
Qed.

Lemma behind_gets_cpu n ops s :
  waits_behind n s → Z.of_nat n ≤ tick_count ops → ticks (kern s) + Z.of_nat n < B + BOOST →
  gets_cpu ops s.
Proof.
  revert n s. induction ops as [|o ops IH]; intros n s Hs Hn Hlt.
  { destruct Hs as (_ & _ & _ & (c & _ & Ha) & l & Hl & Hin). simpl in Hn.
    destruct l; [|simpl in *; lia]. by apply Hin, elem_of_nil in Ha. }
  apply gets_cpu_cons. destruct (op_tick_dec o) as [->|Ho].
  - destruct Hs as (Hok & Hw & Hgt & (c & Hc & Ha) & Hat).
    destruct n as [|n].
    { destruct Hat as (l & Hl & Hin). destruct l; [|simpl in *; lia].
      by apply Hin, elem_of_nil in Ha. }
    assert (Hmod : (ticks (kern s) + 1) mod BOOST ≠ 0) by (apply no_boost; lia).
    destruct (tick_waiting s c Hok Hw Hc ltac:(lia) Hmod) as (_ & _ & _ & Hsub & Hnot).
    pose proof (at_most_remove _ _ c n Hsub Ha Hnot Hat) as Hat'.
    destruct (tick_step n s c Hok Hw Hc ltac:(lia) Hmod Hat') as [?|[Hs' Ht]]; [by left|right].
    apply (IH n); [done|cbn in Hn; lia|lia].
  - destruct (step_waits_behind n o s Hs Ho) as [?|[Hs' Ht]]; [by left|right].
    rewrite tick_count_cons in Hn by done. apply (IH n); [done|done|lia].
Qed.

Lemma waits_gets_cpu ops s :
  waits s → ticks (kern s) = B → Z.of_nat i + 1 ≤ tick_count ops → Z.of_nat i + 1 < BOOST →
  gets_cpu ops s.
Proof.
  revert s. induction ops as [|o ops IH]; intros s Hs Ht Hn Hlt; [simpl in Hn; lia|].
  apply gets_cpu_cons. destruct (op_tick_dec o) as [->|Ho].
  - destruct Hs as (Hok & Hw & c & Hc).
    assert (Hmod : (ticks (kern s) + 1) mod BOOST ≠ 0) by (apply no_boost; lia).
    destruct (tick_step i s c Hok Hw Hc ltac:(lia) Hmod (at_most_i _)) as [?|[Hs' Ht']];
      [by left|right].
    apply (behind_gets_cpu i); [done|cbn in Hn; lia|lia].
  - destruct (step_waits o s Hs Ho) as [?|[Hs' Ht']]; [by left|right].
    rewrite tick_count_cons in Hn by done. apply IH; [done|lia|done|done].
Qed.
End Waiting.

(** The state that a boost leaves. *)
Definition boosted (k : kernel) : Prop :=
  ticks k mod BOOST = 0 ∧
  ∀ j q, procs k !! j = Some q → state q ≠ UNUSED → queue q = 0 ∧ enter_time q = ticks k.

Lemma boosted_update k i f :
  (∀ p, procs k !! i = Some p → state (f p) ≠ UNUSED → state p ≠ UNUSED ∧ queue (f p) = queue p ∧
     enter_time (f p) = enter_time p) →
  boosted k → boosted (update i f k).
Proof.
  intros Hf [Hm H]. split; [done|]. intros j q. rewrite lookup_update_any.
  intros (p & Hp & ->)%fmap_Some. case_decide; [|by apply (H j)].
  subst j. intros Hu. destruct (Hf p Hp Hu) as (Hu' & -> & ->). by apply (H i).
Qed.

(** The tick of a boost: nobody is preempted by it. *)
Lemma tick_boosted s :
  system_ok s → 0 ≤ ticks (kern s) → ticks (kern s) + 1 < 2 ^ 31 →
  (ticks (kern s) + 1) mod BOOST = 0 →
  boosted (kern (sys_step MLFQ Tick s)) ∧
  ticks (kern (sys_step MLFQ Tick s)) = ticks (kern s) + 1.
Proof.
  intros Hok H0 Hlt Hm. set (k1 := clockintr MLFQ (kern s)).
  assert (Hu : u32 (ticks (kern s) + 1) = ticks (kern s) + 1).
  { unfold u32. rewrite Z.mod_small by lia. done. }
  assert (Ht1 : ticks k1 = ticks (kern s) + 1) by (unfold k1; rewrite ticks_clockintr; done).
  assert (Hb1 : boosted k1 ∧ ∀ j q, procs k1 !! j = Some q → state q = RUNNING → ticks_in_slice q = 0).
  { unfold k1, clockintr, if_mlfq. rewrite decide_True by done. cbn [ticks set_procs update_proc_time wakeup].
    rewrite Hu, Hm. cbn [Z.eqb]. unfold boost_priority, if_mlfq. rewrite decide_True by done.
    split.
    - split; [done|]. intros j q. cbn. rewrite list_lookup_fmap.
      intros (q0 & _ & ->)%fmap_Some. unfold boost_proc. case_decide; [done|].
      cbn. by rewrite i32_small by lia.
    - intros j q. cbn. rewrite list_lookup_fmap. intros (q0 & _ & ->)%fmap_Some.
      unfold boost_proc. case_decide; [congruence|done]. }
  destruct Hb1 as [Hb1 Hs1].
  assert (Hop : kern (sys_op MLFQ Tick s) = k1).
  { cbn [sys_op]. fold k1. destruct (cpu s) as [c|] eqn:Hc; [|done].
    unfold timer_preempt. destruct (procs k1 !! c) as [q|] eqn:Hq; [|done].
    case_decide as Hr; [|done]. destruct Hb1 as [_ Hb1].
    destruct (Hb1 c q Hq) as [Hq0 _]; [by rewrite Hr|]. rewrite Hq0, (Hs1 c q Hq Hr). cbn.
    replace (higher_priority_proc_runnable MLFQ 0 k1) with false; [done|].
    symmetry. unfold higher_priority_proc_runnable, if_mlfq. rewrite decide_True by done.
    apply not_true_is_false. intros (q' & Hin & [Hr' Hlt']%andb_true_iff)%existsb_exists.
    apply list_elem_of_In, list_elem_of_lookup in Hin as [j Hj].
    apply bool_decide_eq_true in Hr'. destruct (Hb1 j q' Hj) as [Hq' _]; [by rewrite Hr'|]. by rewrite Hq' in Hlt'. }
  unfold sys_step, dispatch. rewrite Hop. destruct (cpu (sys_op MLFQ Tick s)); [by rewrite Hop|].
  unfold schedule. destruct (pick MLFQ _ _) as [c|] eqn:Hp; [|done]. cbn [kern]. split; [|done].
  apply pick_runnable in Hp as (q & Hq & Hr). apply boosted_update; [|done].
  intros q' Hq' _. simplify_eq. by rewrite Hr.
Qed.

(** C17: bounded waiting.  Under MLFQ, when the tick of a boost leaves the
    process in entry [i] of the table runnable and [i + 1 < 48] (the next boost
    does not come before its turn), it gets the CPU before [i + 1] more ticks
    have passed, whatever the other processes and the system calls do, as long
    as the tick counter stays below [2^31] until the next boost.  Nothing is
    promised to the entries from 47 on: see [boost_starves_the_last]. *)
Theorem boost_bounds_waiting (ops : list op) (s : system) (i : nat) (p : proc) :
  let s1 := sys_step MLFQ Tick s in
  system_ok s → 0 ≤ ticks (kern s) → ticks (kern s) + 1 + BOOST < 2 ^ 31 →
  (ticks (kern s) + 1) mod BOOST = 0 →
  procs (kern s1) !! i = Some p → state p = RUNNABLE →
  Z.of_nat i + 1 < BOOST → Z.of_nat i + 1 ≤ tick_count ops →
  ∃ m, cpu (run MLFQ (take m ops) s1) = Some i.
Proof.
  intros s1 Hok H0 H31 Hmod Hp Hr Hi Hn.
  destruct (tick_boosted s Hok H0 ltac:(unfold BOOST in *; lia) Hmod) as [[Hm Hb] Ht].
  fold s1 in Hm, Hb, Ht.
  assert (Hok1 : system_ok s1) by by apply dispatch_ok, sys_op_ok.
  apply (waits_gets_cpu (ticks (kern s1)) i); try done; try lia.
  split_and!; [done| |].
  - destruct (Hb i p Hp) as [Hq He]; [by rewrite Hr|].
    split; [by exists p| |unfold BOOST; lia].
    intros j q Hj Ha _. destruct (Hb j q Hj) as [_ ->]; [|done]. by destruct Ha as [->|[->| ->]].
  - destruct (cpu s1) as [c|] eqn:Hc; [by exists c|]. exfalso.
    by apply (dispatch_idle MLFQ _ Hok1 Hc i p).
Qed.

(** Three processes that only compute. *)
Definition trio : system :=
  run MLFQ (spawn ++ spawn ++ replicate 47 Tick) (boot MLFQ).

Lemma boost_bounds_waiting_witness :
  ∃ m, cpu (run MLFQ (take m (replicate 3 Tick)) (sys_step MLFQ Tick trio)) = Some 2%nat.
Proof.
  assert (Hok : system_ok trio) by apply run_ok, boot_ok.
  destruct (procs (kern (sys_step MLFQ Tick trio)) !! 2%nat) as [p|] eqn:Hp;
    [|vm_compute in Hp; discriminate].
  apply (boost_bounds_waiting (replicate 3 Tick) trio 2 p);
    [exact Hok|vm_compute; discriminate|vm_compute; reflexivity|vm_compute; reflexivity
    |exact Hp| |vm_compute; reflexivity|vm_compute; discriminate].
  vm_compute in Hp. injection Hp as <-. reflexivity.
Defined.

(** The bound stops at the interval between two boosts: with 63 processes that
    only compute, the last one has not run once after 20 boosts. *)
Definition crowd : system :=
  run MLFQ (concat (replicate 62 spawn) ++ replicate 960 Tick) (boot MLFQ).

Lemma boost_starves_the_last :
  match procs (kern crowd) !! 62%nat with
  | Some p => state p = RUNNABLE ∧ has_run p = false ∧ rtime p = 0 ∧ wtime p = 960
  | None => False
  end.
Proof. vm_compute. auto. Qed.
