(* ===== verification/Smp.v ===== *)
(** * The MLFQ scheduler on several CPUs

    Every CPU runs [scheduler]: its scan of the table holds the lock of the
    best process so far while it takes the others one after the other.  The
    steps are the critical sections under a process lock, in any interleaving:
    the visits of the scans, the switches, and the operations of [Proc] and
    [Sched] on one entry. *)

From S2P Require Import Prelude Proc Sched System.

Open Scope Z_scope.

(** Where a CPU is: in its scheduler, scanning queue [q] at entry [i] with the
    lock of [best] held, or running a process. *)
Inductive cpu_state :=
  | Scan (q : Z) (i : nat) (best : option nat)
  | Run (i : nat).

Record smp := { smp_kern : kernel; cpus : list cpu_state }.

(** Another CPU's scan holds the lock of process [i]. *)
Definition locked (cs : list cpu_state) (i : nat) : Prop :=
  ∃ c q j, cs !! c = Some (Scan q j (Some i)).

(** The critical sections on one entry that do not move it on or off a CPU. *)
Inductive entry_step (k : kernel) : proc → proc → Prop :=
  | es_wake c p : entry_step k p (wake_proc MLFQ c (ticks k) p)
  | es_account p : entry_step k p (account MLFQ (ticks k) p)
  | es_boost p : entry_step k p (boost_proc (ticks k) p)
  | es_kill p : entry_step k p (kill_proc MLFQ (ticks k) p)
  | es_setkilled p : entry_step k p (with_killed p)
  | es_sleep_prepare c p : entry_step k p (with_chan (Some c) p)
  | es_alloc id p : state p = UNUSED → entry_step k p (alloc_entry id (ticks k) p)
  | es_fork p : state p = USED → entry_step k p (with_state RUNNABLE p)
  | es_fork_fail p : state p = UNUSED → entry_step k p (freeproc p)
  | es_reap p : state p = ZOMBIE → entry_step k p (freeproc (with_parent None p)).

(** The critical sections with which a process leaves its CPU. *)
Inductive leave_step (k : kernel) : proc → proc → Prop :=
  | ls_yield p : leave_step k p (yield_proc MLFQ (ticks k) p)
  | ls_sleep p : snd (sleep_proc MLFQ p) = true → leave_step k p (fst (sleep_proc MLFQ p))
  | ls_exit status p : leave_step k p (with_exit ZOMBIE status (ticks k) p).

Definition with_cpu (s : smp) (k : kernel) (c : nat) (st : cpu_state) : smp :=
  {| smp_kern := k; cpus := <[c := st]> (cpus s) |}.

Definition set_entry (i : nat) (p : proc) (k : kernel) : kernel :=
  set_procs k (<[i := p]> (procs k)).

(** What a visit decides about the candidate. *)
Definition visit (q : Z) (j : nat) (best : option nat) (ps : list proc) (p : proc) : option nat :=
  if mlfq_better q (best ≫= λ b, ps !! b) p then Some j else best.

Inductive smp_step (s : smp) : smp → Prop :=
  | smp_visit c q j best p :
      cpus s !! c = Some (Scan q j best) → procs (smp_kern s) !! j = Some p →
      ¬ locked (cpus s) j →
      smp_step s (with_cpu s (smp_kern s) c
                    (Scan q (S j) (visit q j best (procs (smp_kern s)) p)))
  | smp_next c q j :
      cpus s !! c = Some (Scan q j None) → procs (smp_kern s) !! j = None →
      smp_step s (with_cpu s (smp_kern s) c (Scan (if q <? 3 then q + 1 else 0) 0 None))
  | smp_switch c q j b p :
      cpus s !! c = Some (Scan q j (Some b)) → procs (smp_kern s) !! j = None →
      procs (smp_kern s) !! b = Some p →
      smp_step s (with_cpu s (set_entry b (with_state RUNNING p) (smp_kern s)) c (Run b))
  | smp_leave c i p p' :
      cpus s !! c = Some (Run i) → procs (smp_kern s) !! i = Some p →
      ¬ locked (cpus s) i → leave_step (smp_kern s) p p' →
      smp_step s (with_cpu s (set_entry i p' (smp_kern s)) c (Scan 0 0 None))
  | smp_entry i p p' :
      procs (smp_kern s) !! i = Some p → ¬ locked (cpus s) i →
      entry_step (smp_kern s) p p' →
      smp_step s {| smp_kern := set_entry i p' (smp_kern s); cpus := cpus s |}
  | smp_sched c i p qu t e :
      (** the queue and the slice of a process, changed without its lock by the
          timer interrupt of its own CPU *)
      cpus s !! c = Some (Run i) → procs (smp_kern s) !! i = Some p →
      smp_step s {| smp_kern := set_entry i (with_sched qu t e p) (smp_kern s);
                    cpus := cpus s |}
  | smp_parent i p pp :
      procs (smp_kern s) !! i = Some p →
      smp_step s {| smp_kern := set_entry i (with_parent pp p) (smp_kern s);
                    cpus := cpus s |}
  | smp_kernel k :
      (** the clock and the pid counter *)
      procs k = procs (smp_kern s) →
      smp_step s {| smp_kern := k; cpus := cpus s |}.

(** All CPUs start in their scheduler. *)
Definition smp_boot : smp :=
  {| smp_kern := userinit procinit; cpus := replicate NCPU (Scan 0 0 None) |}.

Inductive smp_reachable : smp → Prop :=
  | smp_reachable_boot : smp_reachable smp_boot
  | smp_reachable_step s s' : smp_reachable s → smp_step s s' → smp_reachable s'.

(** ** The invariant *)
Record smp_ok (s : smp) : Prop := {
  so_run : ∀ c i, cpus s !! c = Some (Run i) →
    ∃ p, procs (smp_kern s) !! i = Some p ∧ state p = RUNNING;
  so_running : ∀ i p, procs (smp_kern s) !! i = Some p → state p = RUNNING →
    ∃ c, cpus s !! c = Some (Run i);
  so_run_unique : ∀ c c' i, cpus s !! c = Some (Run i) → cpus s !! c' = Some (Run i) → c = c';
  so_best : ∀ c q j b, cpus s !! c = Some (Scan q j (Some b)) →
    (b < j)%nat ∧ ∃ p, procs (smp_kern s) !! b = Some p ∧ state p = RUNNABLE;
  so_best_unique : ∀ c c' q q' j j' b, cpus s !! c = Some (Scan q j (Some b)) →
    cpus s !! c' = Some (Scan q' j' (Some b)) → c = c';
}.

Lemma lookup_insert_cases {A} (l : list A) c st c' x :
  <[c := st]> l !! c' = Some x → c' = c ∧ x = st ∨ c' ≠ c ∧ l !! c' = Some x.
Proof. intros H. apply list_lookup_insert_Some in H as [(-> & <- & _)|[? ?]]; auto. Qed.

Lemma set_entry_lookup i p' k p j :
  procs k !! i = Some p →
  procs (set_entry i p' k) !! j = if decide (j = i) then Some p' else procs k !! j.
Proof.
  intros Hp. cbn. case_decide as Hj.
  - subst. apply list_lookup_insert_eq. by eapply lookup_lt_Some.
  - by apply list_lookup_insert_ne.
Qed.

(** Changes of an entry that no scan has locked, or that keep the state. *)
Lemma smp_ok_entry s i p p' :
  smp_ok s → procs (smp_kern s) !! i = Some p →
  (state p' = RUNNING ↔ state p = RUNNING) →
  ¬ locked (cpus s) i ∨ state p' = state p →
  smp_ok {| smp_kern := set_entry i p' (smp_kern s); cpus := cpus s |}.
Proof.
  intros [H1 H2 H3 H4 H5] Hp Hr Hl.
  split; cbn [smp_kern cpus]; try done.
  - intros c j Hc. destruct (H1 c j Hc) as (q & Hq & Hs).
    rewrite (set_entry_lookup i p' _ p) by done. case_decide; [|by exists q].
    subst j. simplify_eq. exists p'. split; [done|by apply Hr].
  - intros j q. rewrite (set_entry_lookup i p' _ p) by done. case_decide; [|by apply H2].
    intros [= <-] Hs. subst j. apply (H2 i p Hp). by apply Hr.
  - intros c q j b Hc. destruct (H4 c q j b Hc) as (Hb & pb & Hpb & Hs). split; [done|].
    rewrite (set_entry_lookup i p' _ p) by done. case_decide; [|by exists pb].
    subst b. simplify_eq. exists p'. split; [done|].
    destruct Hl as [Hl| ->]; [|done]. exfalso. apply Hl. by exists c, q, j.
Qed.

Lemma entry_step_running k p p' : entry_step k p p' → (state p' = RUNNING ↔ state p = RUNNING).
Proof.
  intros H. destruct H; try (cbn; congruence || tauto).
  - unfold wake_proc, make_runnable, if_mlfq. destruct p as [st]. repeat case_decide; cbn in *; subst; done.
  - unfold account, if_mlfq. destruct p as [st]. destruct st; repeat case_decide; cbn in *; done.
  - unfold boost_proc. by case_decide.
  - unfold kill_proc, make_runnable, if_mlfq. destruct p as [st]. repeat case_decide; cbn in *; subst; done.
  - cbn. rewrite H. done.
  - cbn. rewrite H. done.
  - cbn. rewrite H. done.
  - cbn. rewrite H. done.
Qed.

Lemma leave_step_state k p p' : leave_step k p p' → state p' ≠ RUNNING.
Proof.
  intros H. destruct H.
  - unfold yield_proc, if_mlfq. by case_decide.
  - unfold sleep_proc, if_mlfq in *. destruct (chan p); [|done]. by case_decide.
  - done.
Qed.

(** A CPU changes its scheduler state, the table stays. *)
Lemma smp_ok_scan s c q j best q' j' best' :
  smp_ok s → cpus s !! c = Some (Scan q j best) →
  (∀ b, best' = Some b → (b < j')%nat ∧
    (∃ p, procs (smp_kern s) !! b = Some p ∧ state p = RUNNABLE) ∧
    (best = Some b ∨ ¬ locked (cpus s) b)) →
  smp_ok (with_cpu s (smp_kern s) c (Scan q' j' best')).
Proof.
  intros [H1 H2 H3 H4 H5] Hc Hb. split; cbn [smp_kern cpus with_cpu].
  - intros c' i [[? [=]]|[_ Hc']]%lookup_insert_cases. by eapply H1.
  - intros i p Hp Hr. destruct (H2 i p Hp Hr) as [c' Hc']. exists c'.
    rewrite list_lookup_insert_ne; [done|]. intros <-. congruence.
  - intros c1 c2 i [[? [=]]|[_ Hc1]]%lookup_insert_cases [[? [=]]|[_ Hc2]]%lookup_insert_cases.
    by eapply H3.
  - intros c' q2 j2 b [[-> [= -> -> <-]]|[_ Hc']]%lookup_insert_cases; [|by eapply H4].
    destruct (Hb b eq_refl) as (? & ? & _). done.
  - intros c1 c2 q1 q2 j1 j2 b Hc1%lookup_insert_cases Hc2%lookup_insert_cases.
    destruct Hc1 as [[-> Heq1]|[Hn1 Hc1]], Hc2 as [[-> Heq2]|[Hn2 Hc2]]; [done| | |by eapply H5].
    + injection Heq1 as -> -> <-. destruct (Hb b eq_refl) as (_ & _ & [->|Hl]).
      * by eapply H5.
      * exfalso. apply Hl. by exists c2, q2, j2.
    + injection Heq2 as -> -> <-. destruct (Hb b eq_refl) as (_ & _ & [->|Hl]).
      * by eapply H5.
      * exfalso. apply Hl. by exists c1, q1, j1.
Qed.

Lemma mlfq_better_runnable q best p : mlfq_better q best p = true → state p = RUNNABLE.
Proof.
  unfold mlfq_better. rewrite !andb_true_iff. by intros [[?%bool_decide_eq_true _] _].
Qed.

Lemma smp_ok_switch s c q j b p :
  smp_ok s → cpus s !! c = Some (Scan q j (Some b)) → procs (smp_kern s) !! b = Some p →
  smp_ok (with_cpu s (set_entry b (with_state RUNNING p) (smp_kern s)) c (Run b)).
Proof.
  intros Hok Hc Hp. pose proof Hok as [H1 H2 H3 H4 H5].
  destruct (H4 c q j b Hc) as (_ & p0 & Hp0 & Hs). simplify_eq.
  assert (Hnot : ∀ c', cpus s !! c' ≠ Some (Run b)).
  { intros c' Hc'. destruct (H1 c' b Hc') as (p1 & ? & ?). congruence. }
  split; cbn [smp_kern cpus with_cpu].
  - intros c' i Hc'%lookup_insert_cases. rewrite (set_entry_lookup b _ _ p) by done.
    destruct Hc' as [[-> [= ->]]|[_ Hc']].
    + rewrite decide_True by done. by eexists.
    + case_decide; [by eexists|by eapply H1].
  - intros i p'. rewrite (set_entry_lookup b _ _ p) by done. case_decide.
    + intros [= <-] _. subst. exists c. apply list_lookup_insert_eq. by eapply lookup_lt_Some.
    + intros Hp' Hr. destruct (H2 i p' Hp' Hr) as [c' Hc']. exists c'.
      rewrite list_lookup_insert_ne; [done|]. intros <-. congruence.
  - intros c1 c2 i Hc1%lookup_insert_cases Hc2%lookup_insert_cases.
    destruct Hc1 as [[-> [= ->]]|[Hn1 Hc1]], Hc2 as [[-> Heq2]|[Hn2 Hc2]]; try done.
    + by apply Hnot in Hc2.
    + injection Heq2 as ->. by apply Hnot in Hc1.
    + by eapply H3.
  - intros c' q' j' b' [[? [=]]|[Hn Hc']]%lookup_insert_cases.
    destruct (H4 c' q' j' b' Hc') as (? & pb & Hpb & Hsb). split; [done|].
    rewrite (set_entry_lookup b _ _ p) by done. case_decide; [|by exists pb].
    subst b'. exfalso. apply Hn. by eapply H5.
  - intros c1 c2 q1 q2 j1 j2 b' [[? [=]]|[_ Hc1]]%lookup_insert_cases
      [[? [=]]|[_ Hc2]]%lookup_insert_cases. by eapply H5.
Qed.

Lemma smp_ok_leave s c i p p' :
  smp_ok s → cpus s !! c = Some (Run i) → procs (smp_kern s) !! i = Some p →
  ¬ locked (cpus s) i → state p' ≠ RUNNING →
  smp_ok (with_cpu s (set_entry i p' (smp_kern s)) c (Scan 0 0 None)).
Proof.
  intros [H1 H2 H3 H4 H5] Hc Hp Hl Hs'. split; cbn [smp_kern cpus with_cpu].
  - intros c' i' [[? [=]]|[Hn Hc']]%lookup_insert_cases.
    rewrite (set_entry_lookup i _ _ p) by done. case_decide; [|by eapply H1].
    subst i'. exfalso. apply Hn. by eapply H3.
  - intros i' q. rewrite (set_entry_lookup i _ _ p) by done. case_decide.
    { intros [= <-]. done. }
    intros Hq Hr. destruct (H2 i' q Hq Hr) as [c' Hc']. exists c'.
    rewrite list_lookup_insert_ne; [done|]. intros <-. congruence.
  - intros c1 c2 i' [[? [=]]|[_ Hc1]]%lookup_insert_cases
      [[? [=]]|[_ Hc2]]%lookup_insert_cases. by eapply H3.
  - intros c' q j b [[? [=]]|[_ Hc']]%lookup_insert_cases.
    destruct (H4 c' q j b Hc') as (? & pb & Hpb & Hsb). split; [done|].
    rewrite (set_entry_lookup i _ _ p) by done. case_decide; [|by exists pb].
    subst b. exfalso. apply Hl. by exists c', q, j.
  - intros c1 c2 q1 q2 j1 j2 b' [[? [=]]|[_ Hc1]]%lookup_insert_cases
      [[? [=]]|[_ Hc2]]%lookup_insert_cases. by eapply H5.
Qed.

Lemma smp_step_ok s s' : smp_ok s → smp_step s s' → smp_ok s'.
Proof.
  intros Hok Hstep. destruct Hstep as
    [c q j best p Hc Hp Hl|c q j Hc Hp|c q j b p Hc Hj Hp|c i p p' Hc Hp Hl Hs
    |i p p' Hp Hl Hs|c i p qu t e Hc Hp|i p pp Hp|k Hk].
  - eapply smp_ok_scan; [done..|]. intros b. unfold visit.
    destruct (mlfq_better q _ p) eqn:Hbet.
    + intros [= <-]. split; [lia|]. split; [|by right]. exists p.
      split; [done|]. by eapply mlfq_better_runnable.
    + intros ->. destruct (so_best _ Hok c q j b Hc) as (? & ? & ?).
      split; [lia|]. eauto.
  - by eapply smp_ok_scan.
  - by eapply smp_ok_switch.
  - eapply smp_ok_leave; try done. by eapply leave_step_state.
  - eapply smp_ok_entry; try done; [|by left]. by eapply entry_step_running.
  - eapply smp_ok_entry; try done. by right.
  - eapply smp_ok_entry; try done. by right.
  - destruct Hok as [H1 H2 H3 H4 H5]. split; cbn [smp_kern cpus]; rewrite ?Hk; done.
Qed.

Lemma smp_boot_ok : smp_ok smp_boot.
Proof.
  assert (Hc : ∀ c st, cpus smp_boot !! c = Some st → st = Scan 0 0 None).
  { intros c st H. by apply lookup_replicate in H as [-> _]. }
  split.
  - intros c i H%Hc. done.
  - intros [|i] p H Hr; [injection H as <-; done|].
    change (replicate 63 zero_proc !! i = Some p) in H.
    by apply lookup_replicate_1 in H as [-> _].
  - intros c c' i H%Hc. done.
  - intros c q j b H%Hc. done.
  - intros c c' q q' j j' b H%Hc. done.
Qed.

Lemma smp_reachable_ok s : smp_reachable s → smp_ok s.
Proof. induction 1; [apply smp_boot_ok|by eapply smp_step_ok]. Qed.

(** C18: mutual exclusion.  In any interleaving of the schedulers and of the
    operations, a process runs on at most one CPU, the running processes of the
    table are exactly those on a CPU, and the candidate of a scan stays
    runnable, and of this scan alone, until the switch. *)
Theorem smp_mutual_exclusion (s : smp) :
  smp_reachable s →
  (∀ c c' i, cpus s !! c = Some (Run i) → cpus s !! c' = Some (Run i) → c = c') ∧
  (∀ i p, procs (smp_kern s) !! i = Some p →
    (state p = RUNNING ↔ ∃ c, cpus s !! c = Some (Run i))) ∧
  (∀ c q j b, cpus s !! c = Some (Scan q j (Some b)) →
    (∃ p, procs (smp_kern s) !! b = Some p ∧ state p = RUNNABLE) ∧
    ∀ c' q' j', cpus s !! c' = Some (Scan q' j' (Some b)) → c' = c).
Proof.
  intros [H1 H2 H3 H4 H5]%smp_reachable_ok. split_and!.
  - exact H3.
  - intros i p Hp. split; [by apply H2|]. intros [c Hc].
    destruct (H1 c i Hc) as (p' & Hp' & Hr). congruence.
  - intros c q j b Hc. split; [apply (H4 c q j b Hc)|]. intros c' q' j' Hc'.
    by eapply H5.
Qed.

(** CPU 0 has scanned the first entry. *)
Definition after_one_visit : smp :=
  with_cpu smp_boot (smp_kern smp_boot) 0 (Scan 0 1 (Some 0%nat)).

Lemma after_one_visit_reachable : smp_reachable after_one_visit.
Proof.
  destruct (procs (smp_kern smp_boot) !! 0%nat) as [p|] eqn:Hp; [|vm_compute in Hp; discriminate].
  assert (Hv : visit 0 0 None (procs (smp_kern smp_boot)) p = Some 0%nat).
  { vm_compute in Hp. injection Hp as <-. reflexivity. }
  apply (smp_reachable_step smp_boot); [apply smp_reachable_boot|].
  unfold after_one_visit. rewrite <-Hv. apply smp_visit; [reflexivity|exact Hp|].
  intros (c & q & j & H). apply lookup_replicate in H as [H _]. discriminate.
Qed.

Lemma smp_mutual_exclusion_witness :
  ∃ p, procs (smp_kern after_one_visit) !! 0%nat = Some p ∧ state p = RUNNABLE.
Proof.
  destruct (smp_mutual_exclusion after_one_visit after_one_visit_reachable) as (_ & _ & H).
  destruct (H 0%nat 0 1%nat 0%nat eq_refl) as [H' _]. exact H'.
Defined.

(** ** Progress *)
Lemma locked_dec cs i : locked cs i ∨ ¬ locked cs i.
Proof.
  induction cs as [|st cs IH].
  { right. intros (c & q & j & H). done. }
  destruct IH as [(c & q & j & H)|H]; [left; by exists (S c), q, j|].
  assert (Hst : (∃ q j, st = Scan q j (Some i)) ∨ ¬ ∃ q j, st = Scan q j (Some i)).
  { destruct st as [q j [b|]|]; try (by right; intros (? & ? & [=])).
    destruct (decide (b = i)) as [->|Hb]; [left; by eexists _, _|].
    right. intros (? & ? & [=]). done. }
  destruct Hst as [(q & j & ->)|Hst]; [left; by exists 0%nat, q, j|].
  right. intros ([|c] & q & j & Hc); [injection Hc as ->; apply Hst; by eexists _, _|].
  apply H. by exists c, q, j.
Qed.

(** At the end of the table a scan takes no lock. *)
Lemma scan_end s c q j best :
  smp_ok s → cpus s !! c = Some (Scan q j best) → procs (smp_kern s) !! j = None →
  ∃ c' q' j' best' st s', cpus s !! c' = Some (Scan q' j' best') ∧
    smp_step s s' ∧ cpus s' = <[c' := st]> (cpus s) ∧ st ≠ Scan q' j' best'.
Proof.
  intros Hok Hc Hj. destruct best as [b|].
  - destruct (so_best _ Hok c q j b Hc) as (_ & p & Hp & _).
    eexists c, q, j, (Some b), _, _. split; [done|]. split; [by eapply smp_switch|]. done.
  - eexists c, q, j, None, _, _. split; [done|]. split; [by eapply smp_next|].
    split; [done|]. case_if; intros [= H]; lia.
Qed.

(** no deadlock.  A scan holds the lock of a process while it waits for the
    lock of a later one, so the waits never form a cycle: whenever some CPU is
    in its scheduler, one of the CPUs in their scheduler can go on. *)
Theorem smp_no_deadlock (s : smp) (c : nat) (q : Z) (j : nat) (best : option nat) :
  smp_reachable s → cpus s !! c = Some (Scan q j best) →
  ∃ c' q' j' best' st s', cpus s !! c' = Some (Scan q' j' best') ∧
    smp_step s s' ∧ cpus s' = <[c' := st]> (cpus s) ∧ st ≠ Scan q' j' best'.
Proof.
  intros Hok%smp_reachable_ok. revert c q j best.
  assert (Hind : ∀ n c q j best, (length (procs (smp_kern s)) - j ≤ n)%nat →
    cpus s !! c = Some (Scan q j best) →
    ∃ c' q' j' best' st s', cpus s !! c' = Some (Scan q' j' best') ∧
      smp_step s s' ∧ cpus s' = <[c' := st]> (cpus s) ∧ st ≠ Scan q' j' best');
    [|intros c q j best; by apply (Hind (length (procs (smp_kern s)) - j)%nat)].
  induction n as [|n IH]; intros c q j best Hn Hc.
  - assert (Hj : procs (smp_kern s) !! j = None) by (apply lookup_ge_None; lia).
    by apply (scan_end s c q j best Hok).
  - destruct (procs (smp_kern s) !! j) as [p|] eqn:Hj; [|by apply (scan_end s c q j best Hok)].
    destruct (locked_dec (cpus s) j) as [(c' & q' & j' & Hc')|Hl].
    + destruct (so_best _ Hok c' q' j' j Hc') as [Hlt _].
      apply (IH c' q' j' (Some j)); [|done]. apply lookup_lt_Some in Hj. lia.
    + eexists c, q, j, best, _, _. split; [done|]. split; [by eapply smp_visit|].
      split; [done|]. intros [= H]. lia.
Qed.

Lemma smp_no_deadlock_witness : ∃ s', smp_step smp_boot s'.
Proof.
  destruct (smp_no_deadlock smp_boot 0 0 0 None smp_reachable_boot eq_refl)
    as (c & q & j & best & st & s' & _ & H & _).
  exists s'. exact H.
Defined.
