(* ===== verification/Resolve.v ===== *)
(** * Finding programs: exec.c, locate.c and prompt.c

    [resolve_command] finds the file to execute (redirect.c has a copy of it),
    the [locate] builtin prints every place where a program is found, and
    [get_path] shortens the working directory for the prompt.  The file system
    and the environment are arguments. *)

From S2P Require Import Prelude Clib.

Section Resolve.
(** [stat] gives whether the path is a regular file; [access] whether it may be
    executed; [getcwd] fails when the path does not fit its buffer. *)
Context (stat : cstr → option bool) (access : cstr → bool).
Context (getcwd : option cstr) (path_env : option cstr).

(** ** exec.c *)
Definition is_exec (path : cstr) : bool :=
  match stat path with
  | None => false
  | Some regular => if negb regular then false else access path
  end.

Definition SLASH : ascii := "/"%char.
Definition COLON : ascii := ":"%char.

Definition has_slash (s : cstr) : bool := existsb (λ c, Ascii.eqb c SLASH) s.

(** The bytes before the first [:], and what follows it. *)
Fixpoint split_colon (s : cstr) : cstr * option cstr :=
  match s with
  | [] => ([], None)
  | c :: s => if Ascii.eqb c COLON then ([], Some s)
              else let (a, r) := split_colon s in (c :: a, r)
  end.

(** [strtok(s, ":")]: leading separators are skipped, and there is no empty
    token. *)
Fixpoint skip_colons (s : cstr) : cstr :=
  match s with
  | c :: s' => if Ascii.eqb c COLON then skip_colons s' else s
  | [] => []
  end.

Definition strtok (s : cstr) : option (cstr * cstr) :=
  match skip_colons s with
  | [] => None
  | s => let (a, r) := split_colon s in Some (a, default [] r)
  end.

(** [snprintf(full_path, sizeof(full_path), "%s/%s", dir, cmd)] *)
Definition join_path (size : nat) (dir cmd : cstr) : cstr :=
  take (size - 1) (dir ++ SLASH :: cmd).

Fixpoint search_path (fuel : nat) (rest : cstr) (cmd : cstr) : option cstr :=
  match fuel with
  | O => None
  | S fuel =>
      match strtok rest with
      | None => None
      | Some (dir, rest) =>
          let full_path := join_path 2048 dir cmd in
          if is_exec full_path then Some full_path else search_path fuel rest cmd
      end
  end.

Definition resolve_command (cmd : cstr) : option cstr :=
  if has_slash cmd then (if is_exec cmd then Some cmd else None)
  else
    let skip_cwd := match cmd with c :: _ => Ascii.eqb c "%" | [] => false end in
    let cmd := if skip_cwd then tail cmd else cmd in
    let in_path :=
      match path_env with
      | None => None
      | Some path_env => search_path (S (length path_env)) path_env cmd
      end in
    if skip_cwd then in_path
    else
      match getcwd with
      | Some cwd =>
          let full_path := join_path 2048 cwd cmd in
          if is_exec full_path then Some full_path else in_path
      | None => in_path
      end.

(** ** locate.c *)

(** The path tried for one element of PATH.  [cwd] is what the buffer of
    [getcwd] holds, [rest] the tail of PATH from this element on. *)
Definition locate_path (cwd dir filename : cstr) : cstr :=
  let full_path := match dir with
    | [] => cwd ++ SLASH :: filename
    | c :: _ =>
        if negb (Ascii.eqb c SLASH) then cwd ++ SLASH :: dir ++ SLASH :: filename
        else dir ++ SLASH :: filename
    end in
  take 4095 full_path.

Fixpoint locate_dirs (fuel : nat) (cwd p filename : cstr) : list cstr :=
  match fuel with
  | O => []
  | S fuel =>
      let (dir, colon) := split_colon p in
      let dir := take 1023 dir in
      let full_path := locate_path cwd dir filename in
      (if is_exec full_path then [full_path] else []) ++
      match colon with
      | Some p => locate_dirs fuel cwd p filename
      | None => []
      end
  end.

(** The places found for one argument. *)
Definition locate_one (uninit : cstr) (filename : cstr) : list cstr :=
  let in_cwd :=
    match getcwd with
    | Some cwd =>
        let full_path := join_path 2048 cwd filename in
        if is_exec full_path then [full_path] else []
    | None => []
    end in
  let path_env := default [] path_env in
  in_cwd ++ locate_dirs (S (length path_env)) (default uninit getcwd) path_env filename.

(** [uninit] is what the buffer [cwd] holds when [getcwd] failed. *)
Definition locate (uninit : cstr) (args : list cstr) : cstr :=
  match args with
  | [] | [_] => lit "locate: invalid syntax" ++ [NL]
  | _ :: filenames =>
      concat ((λ filename,
        match locate_one uninit filename with
        | [] => lit "locate: command not found (" ++ filename ++ lit ")" ++ [NL]
        | found => concat ((λ p, p ++ [NL]) <$> found)
        end) <$> filenames)
  end.

(** ** prompt.c *)
Definition get_path (curr home : cstr) : cstr :=
  let len2 := length home in
  if streq curr home then lit "~"
  else if streq (take len2 curr) home &&
          match curr !! len2 with Some c => Ascii.eqb c SLASH | None => false end
  then take 4095 ("~"%char :: drop len2 curr)
  else curr.

(** ** Search order *)

(** The non-empty elements of PATH, in order. *)
Fixpoint dirs_from (cur : cstr) (s : cstr) : list cstr :=
  match s with
  | [] => if bool_decide (cur = []) then [] else [cur]
  | c :: s =>
      if Ascii.eqb c COLON
      then (if bool_decide (cur = []) then [] else [cur]) ++ dirs_from [] s
      else dirs_from (cur ++ [c]) s
  end.

Definition path_dirs (s : cstr) : list cstr := dirs_from [] s.

Definition opt_list (o : option cstr) : list cstr :=
  match o with Some p => [p] | None => [] end.

(** The files tried for a command, in order. *)
Definition candidates (cmd : cstr) : list cstr :=
  if has_slash cmd then [cmd]
  else
    let from_path cmd :=
      match path_env with
      | Some p => (λ d, join_path 2048 d cmd) <$> path_dirs p
      | None => []
      end in
    match cmd with
    | c :: cmd' =>
        if Ascii.eqb c "%" then from_path cmd'
        else opt_list ((λ d, join_path 2048 d cmd) <$> getcwd) ++ from_path cmd
    | [] => opt_list ((λ d, join_path 2048 d cmd) <$> getcwd) ++ from_path cmd
    end.

Definition first_exec (l : list cstr) : option cstr := List.find is_exec l.

Lemma dirs_from_split cur s :
  cur ≠ [] → dirs_from cur s =
  let (a, r) := split_colon s in
  (cur ++ a) :: match r with Some r => dirs_from [] r | None => [] end.
Proof.
  revert cur. induction s as [|c s IH]; intros cur Hc; cbn [dirs_from split_colon].
  { rewrite bool_decide_eq_false_2 by done. by rewrite app_nil_r. }
  destruct (Ascii.eqb c COLON).
  - rewrite bool_decide_eq_false_2 by done. by rewrite app_nil_r.
  - rewrite IH by (by destruct cur). destruct (split_colon s) as [a r].
    by rewrite <-app_assoc.
Qed.

Lemma path_dirs_strtok s :
  path_dirs s = match strtok s with
                | Some (a, r) => a :: path_dirs r
                | None => []
                end.
Proof.
  unfold path_dirs, strtok. induction s as [|c s IH]; [done|].
  cbn [dirs_from skip_colons]. destruct (Ascii.eqb c COLON) eqn:Hc; [exact IH|].
  cbn [app]. rewrite dirs_from_split by done. cbn [split_colon]. rewrite Hc.
  destruct (split_colon s) as [a [r|]]; done.
Qed.

Lemma strtok_length s a r : strtok s = Some (a, r) → (length r < length s)%nat.
Proof.
  unfold strtok. assert (Hsk : (length (skip_colons s) ≤ length s)%nat).
  { induction s as [|c s IH]; [done|]. simpl. case_if; simpl; lia. }
  assert (Hsp : ∀ s, (length (default [] (snd (split_colon s))) ≤ length s)%nat).
  { clear. induction s as [|c s IH]; [done|]. simpl. case_if; simpl; [lia|].
    destruct (split_colon s); simpl in *. lia. }
  destruct (skip_colons s) as [|c t]; [done|].
  specialize (Hsp t). simpl in Hsk |- *. destruct (Ascii.eqb c COLON).
  { intros [= <- <-]. simpl. lia. }
  destruct (split_colon t) as [a' r']. intros [= <- <-]. simpl in *. lia.
Qed.

Lemma search_path_first fuel s cmd :
  (length s < fuel)%nat →
  search_path fuel s cmd = first_exec ((λ d, join_path 2048 d cmd) <$> path_dirs s).
Proof.
  revert s. induction fuel as [|fuel IH]; intros s Hf; [lia|]. cbn [search_path].
  rewrite path_dirs_strtok. destruct (strtok s) as [[a r]|] eqn:E; [|done].
  apply strtok_length in E. cbn. case_if; [done|]. apply IH. lia.
Qed.

Lemma resolve_first (cmd : cstr) : resolve_command cmd = first_exec (candidates cmd).
Proof.
  unfold resolve_command, candidates. destruct (has_slash cmd).
  { cbn. by destruct (is_exec cmd). }
  assert (Hp : ∀ cmd, match path_env with
    | None => None | Some p => search_path (S (length p)) p cmd end
    = first_exec (match path_env with
      | Some p => (λ d, join_path 2048 d cmd) <$> path_dirs p | None => [] end)).
  { intros c. destruct path_env; [|done]. apply search_path_first. lia. }
  destruct cmd as [|c cmd]; cbn [tail]; [|destruct (Ascii.eqb c "%")]; rewrite ?Hp; try done;
    destruct getcwd as [cwd|]; cbn [opt_list fmap option_fmap option_map app];
    try done; cbn; by case_if.
Qed.

(** ** What [locate] prints *)

(** Every element of PATH, the empty ones included. *)
Fixpoint path_elems (fuel : nat) (s : cstr) : list cstr :=
  match fuel with
  | O => []
  | S fuel =>
      let (a, r) := split_colon s in
      a :: match r with Some r => path_elems fuel r | None => [] end
  end.

(** An element for which both searches try the same file. *)
Definition plain_elem (cmd d : cstr) : Prop :=
  head d = Some SLASH ∧ (length d ≤ 1023)%nat ∧ (length d + length cmd ≤ 2046)%nat.

Lemma split_colon_length s a r : split_colon s = (a, Some r) → (length r < length s)%nat.
Proof.
  revert a. induction s as [|c s IH]; intros a; simpl; [done|]. case_if.
  { intros [= <- <-]. lia. }
  destruct (split_colon s) as [a' r'] eqn:E. intros [= <- ->]. specialize (IH a' eq_refl). lia.
Qed.

Lemma path_dirs_elems fuel s :
  (length s < fuel)%nat → Forall (λ d, d ≠ []) (path_elems fuel s) →
  path_dirs s = path_elems fuel s.
Proof.
  revert s. induction fuel as [|fuel IH]; intros s Hf; [lia|]. unfold path_dirs in *.
  destruct s as [|c s]; [intros H; by inversion H|]. cbn [path_elems dirs_from split_colon].
  destruct (Ascii.eqb c COLON); [intros H; by inversion H|]. cbn [app].
  rewrite dirs_from_split by done. destruct (split_colon s) as [a [r|]] eqn:E; [|done].
  intros [_ H]%Forall_cons. apply split_colon_length in E. simpl in Hf.
  by rewrite IH by (done || lia).
Qed.

Lemma first_exec_cons p l :
  first_exec (p :: l) = if is_exec p then Some p else first_exec l.
Proof. done. Qed.

Lemma head_if (b : bool) (p : cstr) l :
  head ((if b then [p] else []) ++ l) = if b then Some p else head l.
Proof. by destruct b. Qed.

Lemma locate_dirs_first fuel cwd s cmd :
  (length s < fuel)%nat → Forall (plain_elem cmd) (path_elems fuel s) →
  head (locate_dirs fuel cwd s cmd)
  = first_exec ((λ d, join_path 2048 d cmd) <$> path_elems fuel s).
Proof.
  revert s. induction fuel as [|fuel IH]; intros s Hf; [lia|]. cbn [path_elems locate_dirs].
  destruct (split_colon s) as [a r] eqn:E. intros [(Ha & Hl & Hc) Hr]%Forall_cons.
  assert (Hj : locate_path cwd (take 1023 a) cmd = join_path 2048 a cmd).
  { rewrite take_ge by lia. unfold locate_path, join_path. destruct a as [|c a]; [done|].
    injection Ha as ->. rewrite Ascii.eqb_refl. cbn [negb].
    rewrite !take_ge; rewrite ?length_app; simpl in *; lia || done. }
  rewrite Hj. cbn [fmap list_fmap first_exec List.find]. destruct (is_exec _); [done|].
  destruct r as [r|]; [|done]. apply split_colon_length in E. apply IH; [lia|done].
Qed.

(** the shell executes the first executable regular file among the
    candidates: the name itself when it has a slash; otherwise the working
    directory (skipped for %name) and then the non-empty elements of PATH, from
    left to right. *)
Theorem resolve_first_candidate (cmd : cstr) :
  resolve_command cmd = first_exec (candidates cmd).
Proof. apply resolve_first. Qed.

(** for a plain command name, when every element of PATH is an absolute
    directory name that fits the buffers, the first place that [locate] prints
    is the file that the shell executes, and [locate] reports the command as
    not found exactly when the shell does. *)
Theorem locate_first_is_executed (uninit cmd path : cstr) :
  has_slash cmd = false → head cmd ≠ Some "%"%char → path_env = Some path →
  Forall (plain_elem cmd) (path_elems (S (length path)) path) →
  head (locate_one uninit cmd) = resolve_command cmd.
Proof.
  intros Hs Hp Hpath Hf. rewrite resolve_first. unfold candidates, locate_one. rewrite Hs, Hpath.
  assert (Hne : Forall (λ d, d ≠ []) (path_elems (S (length path)) path)).
  { eapply Forall_impl; [exact Hf|]. intros d (Hd & _) ->. done. }
  rewrite (path_dirs_elems (S (length path))) by (done || lia). cbn [default].
  assert (Hlast : ∀ o, match cmd with
    | c :: cmd' => if Ascii.eqb c "%"
        then (λ d, join_path 2048 d cmd') <$> path_elems (S (length path)) path
        else opt_list o ++ ((λ d, join_path 2048 d cmd) <$> path_elems (S (length path)) path)
    | [] => opt_list o ++ ((λ d, join_path 2048 d cmd) <$> path_elems (S (length path)) path)
    end = opt_list o ++ ((λ d, join_path 2048 d cmd) <$> path_elems (S (length path)) path)).
  { intros o. destruct cmd as [|c cmd]; [done|]. destruct (Ascii.eqb c "%") eqn:E; [|done].
    char_cases. by destruct Hp. }
  rewrite Hlast. unfold default. destruct getcwd as [cwd|];
    cbn [opt_list fmap option_fmap option_map app].
  - cbn [opt_list]. cbn [app]. rewrite first_exec_cons.
    rewrite head_if, locate_dirs_first by (done || (cbn; lia)). done.
  - cbn [opt_list app]. apply locate_dirs_first; [cbn; lia|done].
Qed.
End Resolve.

(** A file system with one executable, /bin/ls. *)
Definition only_ls (p : cstr) : bool := streq p (lit "/bin/ls").

Lemma locate_first_is_executed_witness :
  head (locate_one (λ p, if only_ls p then Some true else None) (λ _, true)
          (Some (lit "/home")) (Some (lit "/usr/bin:/bin")) [] (lit "ls"))
  = resolve_command (λ p, if only_ls p then Some true else None) (λ _, true)
      (Some (lit "/home")) (Some (lit "/usr/bin:/bin")) (lit "ls")
  ∧ resolve_command (λ p, if only_ls p then Some true else None) (λ _, true)
      (Some (lit "/home")) (Some (lit "/usr/bin:/bin")) (lit "ls") = Some (lit "/bin/ls").
Proof.
  split; [|vm_compute; reflexivity].
  apply (locate_first_is_executed _ _ _ _ [] (lit "ls") (lit "/usr/bin:/bin"));
    [reflexivity|done|reflexivity|].
  vm_compute. repeat constructor; lia.
Defined.

