(* ===== verification/Copy.v ===== *)
(** * What the redirection helpers copy (redirect.c)

    [write_all] and the two loops that use it: one streams the input files into
    a pipe, the other copies a pipe into every output file. *)

From S2P Require Import Prelude Clib.

Local Open Scope nat_scope.
#[local] Set Warnings "-clear-no-such-hyp".

(** One return of [write]. *)
Inductive wres :=
  | Wrote (w : nat)
  | EIntr
  | WFail.

(** The result has the answers that are left; the error is the -1 return, and
    [NoFuel] means that it is still writing.  With it, the bytes written. *)
Fixpoint write_all (answers : list wres) (buf : cstr)
    : outcome (list wres) (list wres) * cstr :=
  match buf with
  | [] => (Ret answers, [])
  | _ =>
      match answers with
      | [] => (NoFuel, [])
      | EIntr :: answers => write_all answers buf
      | WFail :: answers => (Err answers, [])
      | Wrote w :: answers =>
          let (r, out) := write_all answers (drop w buf) in (r, take w buf ++ out)
      end
  end.

(** The chunks that [read] returns, written one after the other; the result of
    [write_all] is not looked at. *)
Fixpoint copy_chunks (answers : list wres) (chunks : list cstr)
    : outcome () (list wres) * cstr :=
  match chunks with
  | [] => (Ret answers, [])
  | c :: chunks =>
      match write_all answers c with
      | (NoFuel, out) => (NoFuel, out)
      | (Ret answers, out) | (Err answers, out) =>
          let (r, rest) := copy_chunks answers chunks in (r, out ++ rest)
      end
  end.

(** The input helper: [files] are the chunks read from each file, in order. *)
Fixpoint copy_input (answers : list wres) (files : list (list cstr))
    : outcome () (list wres) * cstr :=
  match files with
  | [] => (Ret answers, [])
  | f :: files =>
      match copy_chunks answers f with
      | (Ret answers, out) => let (r, rest) := copy_input answers files in (r, out ++ rest)
      | (r, out) => (r, out)
      end
  end.

(** One chunk into every output file: what was written, with the descriptor. *)
Fixpoint fan_out (answers : list wres) (buf : cstr) (out_fds : list nat)
    : outcome () (list wres) * list (nat * cstr) :=
  match out_fds with
  | [] => (Ret answers, [])
  | fd :: out_fds =>
      match write_all answers buf with
      | (NoFuel, out) => (NoFuel, [(fd, out)])
      | (Ret answers, out) | (Err answers, out) =>
          let (r, rest) := fan_out answers buf out_fds in (r, (fd, out) :: rest)
      end
  end.

Fixpoint copy_output (answers : list wres) (chunks : list cstr) (out_fds : list nat)
    : outcome () (list wres) * list (nat * cstr) :=
  match chunks with
  | [] => (Ret answers, [])
  | c :: chunks =>
      match fan_out answers c out_fds with
      | (Ret answers, out) =>
          let (r, rest) := copy_output answers chunks out_fds in (r, out ++ rest)
      | (r, out) => (r, out)
      end
  end.

(** What ends up in a file. *)
Fixpoint file_of (fd : nat) (log : list (nat * cstr)) : cstr :=
  match log with
  | [] => []
  | (fd', out) :: log => (if bool_decide (fd = fd') then out else []) ++ file_of fd log
  end.

Lemma file_of_app fd a b : file_of fd (a ++ b) = file_of fd a ++ file_of fd b.
Proof. induction a as [|[fd' o] a IH]; [done|]. simpl. by rewrite IH, app_assoc. Qed.

(** ** Without write errors *)
Abbreviation sound answers := (WFail ∉ answers).

Lemma write_all_spec answers buf :
  sound answers →
  match write_all answers buf with
  | (Ret rest, out) => out = buf ∧ sound rest
  | (Err _, _) => False
  | (NoFuel, out) => out `prefix_of` buf
  end.
Proof.
  revert buf. induction answers as [|a answers IH]; intros buf Hs.
  { destruct buf; [by split|]. by exists (a :: buf). }
  apply not_elem_of_cons in Hs as [Ha Hs].
  destruct buf as [|b buf]; simpl; [split; [done|]; by apply not_elem_of_cons|].
  destruct a as [w| |]; [|by apply IH|done].
  specialize (IH (drop w (b :: buf)) Hs).
  destruct (write_all answers _) as [[rest|e|] out]; [|done|].
  - destruct IH as [-> ?]. by rewrite take_drop.
  - destruct IH as [k Hk]. exists k. by rewrite <-app_assoc, <-Hk, take_drop.
Qed.

Lemma copy_chunks_spec answers chunks :
  sound answers →
  match copy_chunks answers chunks with
  | (Ret rest, out) => out = concat chunks ∧ sound rest
  | (Err _, _) => False
  | (NoFuel, out) => out `prefix_of` concat chunks
  end.
Proof.
  revert answers. induction chunks as [|c chunks IH]; intros answers Hs; simpl; [done|].
  pose proof (write_all_spec answers c Hs) as Hw.
  destruct (write_all answers c) as [[rest|e|] out]; [|done|by apply prefix_app_r].
  destruct Hw as [-> Hr]. specialize (IH rest Hr).
  destruct (copy_chunks rest chunks) as [[rest'|e|] out']; [|done|by apply prefix_app].
  destruct IH as [-> ?]. done.
Qed.

Lemma fan_out_spec answers buf out_fds :
  sound answers →
  match fan_out answers buf out_fds with
  | (Ret rest, log) => sound rest ∧ (NoDup out_fds → ∀ fd, file_of fd log
      = if bool_decide (fd ∈ out_fds) then buf else [])
  | (Err _, _) => False
  | (NoFuel, _) => True
  end.
Proof.
  revert answers. induction out_fds as [|fd out_fds IH]; intros answers Hs; simpl; [done|].
  pose proof (write_all_spec answers buf Hs) as Hw.
  destruct (write_all answers buf) as [[rest|e|] out]; [|done|done].
  destruct Hw as [-> Hr]. specialize (IH rest Hr).
  destruct (fan_out rest buf out_fds) as [[rest'|e|] log]; [|done|done].
  destruct IH as [Hr' IH]. split; [done|]. intros [Hfd Hnd]%NoDup_cons fd'. simpl.
  rewrite IH by done. destruct (decide (fd' = fd)) as [->|Hne].
  - rewrite (bool_decide_eq_true_2 (fd = fd)), (bool_decide_eq_false_2 (fd ∈ out_fds)),
      (bool_decide_eq_true_2 (fd ∈ fd :: out_fds)), app_nil_r by (done || set_solver +). done.
  - rewrite (bool_decide_eq_false_2 (fd' = fd)) by done. simpl.
    rewrite (bool_decide_ext (fd' ∈ fd :: out_fds) (fd' ∈ out_fds)); [done|].
    rewrite elem_of_cons. naive_solver.
Qed.

(** as long as no write fails, however writes are split up or interrupted,
    a command with several input files reads their contents one after the other,
    and each of its output files receives everything the command writes. *)
Theorem helpers_copy (answers : list wres) (files : list (list cstr)) (chunks : list cstr)
    (out_fds : list nat) :
  WFail ∉ answers → NoDup out_fds →
  match copy_input answers files with
  | (Ret _, out) => out = concat (concat files)
  | (Err _, _) => False
  | (NoFuel, out) => out `prefix_of` concat (concat files)
  end ∧
  match copy_output answers chunks out_fds with
  | (Ret _, log) => ∀ fd, fd ∈ out_fds → file_of fd log = concat chunks
  | (Err _, _) => False
  | (NoFuel, _) => True
  end.
Proof.
  intros Hs Hnd. split.
  - revert answers Hs. induction files as [|f files IH]; intros answers Hs; simpl; [done|].
    pose proof (copy_chunks_spec answers f Hs) as Hc. rewrite concat_app.
    destruct (copy_chunks answers f) as [[rest|e|] out]; [|done|by apply prefix_app_r].
    destruct Hc as [-> Hr]. specialize (IH rest Hr).
    destruct (copy_input rest files) as [[rest'|e|] out']; [by subst|done|by apply prefix_app].
  - revert answers Hs. induction chunks as [|c chunks IH]; intros answers Hs; simpl; [done|].
    pose proof (fan_out_spec answers c out_fds Hs) as Hf.
    destruct (fan_out answers c out_fds) as [[rest|e|] log]; [|done|done].
    destruct Hf as [Hr Hf]. specialize (IH rest Hr).
    destruct (copy_output rest chunks out_fds) as [[rest'|e|] log']; [|done|done].
    intros fd Hfd. by rewrite file_of_app, Hf, IH, bool_decide_eq_true_2.
Qed.

Lemma helpers_copy_witness :
  match copy_input [Wrote 2; EIntr; Wrote 1; Wrote 5] [[lit "abc"]; [lit "de"]] with
  | (Ret _, out) => out = lit "abcde"
  | (Err _, _) => False
  | (NoFuel, out) => out `prefix_of` lit "abcde"
  end ∧
  match copy_output [Wrote 2; EIntr; Wrote 1; Wrote 5] [lit "ab"] [3; 4] with
  | (Ret _, log) => ∀ fd, fd ∈ [3; 4] → file_of fd log = lit "ab"
  | (Err _, _) => False
  | (NoFuel, _) => True
  end.
Proof.
  apply (helpers_copy [Wrote 2; EIntr; Wrote 1; Wrote 5] [[lit "abc"]; [lit "de"]] [lit "ab"] [3; 4]).
  - intros H. repeat (apply elem_of_cons in H as [H|H]; [done|]). by apply not_elem_of_nil in H.
  - repeat constructor; set_solver.
Defined.
