(* ===== verification/Redirect.v ===== *)
(** * Running commands (c-shell/src/redirect.c)

    The four executors of the shell: one command with redirections, a
    foreground pipeline, one background command and a background pipeline.  The
    state is the shell's descriptor table, the processes it forked with the
    tables they have when they start their work, the job tables, and a trace of
    what is printed and waited for.  The error of the monad is a [waitpid] that
    never returns. *)

From stdpp Require Import gmap.
From S2P Require Import Prelude Clib Lexer Parser Shell Jobs.

Local Open Scope nat_scope.

(** ** Job names *)

(** [strncat(out, s, n)] *)
Definition strncat (out s : cstr) (n : nat) : cstr := out ++ take n s.

Fixpoint join_loop (first : bool) (args : list cstr) (out : cstr) (outsize : nat) : cstr :=
  match args with
  | [] => out
  | a :: args =>
      let out := if first then out else strncat out (lit " ") (outsize - length out - 1) in
      join_loop false args (strncat out a (outsize - length out - 1)) outsize
  end.

Definition join_args (args : list cstr) (outsize : nat) : cstr := join_loop true args [] outsize.

Fixpoint join_stages (first : bool) (stages : list command_stage) (out : cstr)
    (outsize : nat) : cstr :=
  match stages with
  | [] => out
  | st :: stages =>
      let out := if first then out else strncat out (lit " | ") (outsize - length out - 1) in
      let stage_str := join_args (args st) 256 in
      join_stages false stages (strncat out stage_str (outsize - length out - 1)) outsize
  end.

Definition join_pipeline (stages : list command_stage) (outsize : nat) : cstr :=
  join_stages true stages [] outsize.

(** ** Descriptors and processes *)
Inductive desc :=
  | Open (n : nat)             (* what the shell started with *)
  | PipeR (p : nat)
  | PipeW (p : nat)
  | InFile (name : cstr)
  | OutFile (name : cstr) (append : bool).

Abbreviation table := (gmap nat desc).

(** The body of a forked process. *)
Inductive role :=
  | InHelper (input_fds : list nat) (to : nat)
  | OutHelper (from : nat) (output_fds : list nat)
  | Command (stage : nat) (path : cstr) (argv : list cstr) (sync_fd : option nat).

(** [c_fds]: its descriptors when it starts to copy, to wait on [sync_fd], or
    to execute. *)
Record child := { c_pid : Z; c_role : role; c_fds : table }.

Inductive sh_effect :=
  | Say (text : cstr)
  | Perror (what : cstr)
  | Setpgid (pid pgid : Z)
  | Waitpid (pid : Z) (untraced : bool).   (* with WUNTRACED or without options *)

Record sh := {
  s_fds : table;
  s_npipes : nat;          (* pipes created so far *)
  s_calls : nat;           (* fallible calls made so far *)
  s_kids : list child;
  s_jobs : state;
  s_trace : list sh_effect;
}.

Definition set_fds (t : table) (s : sh) : sh := {|
  s_fds := t; s_npipes := s_npipes s; s_calls := s_calls s; s_kids := s_kids s;
  s_jobs := s_jobs s; s_trace := s_trace s |}.

Definition tell (e : sh_effect) : M sh () () := modify (λ s, {|
  s_fds := s_fds s; s_npipes := s_npipes s; s_calls := s_calls s; s_kids := s_kids s;
  s_jobs := s_jobs s; s_trace := s_trace s ++ [e] |}).

Definition on_jobs (f : state → state) : M sh () () := modify (λ s, {|
  s_fds := s_fds s; s_npipes := s_npipes s; s_calls := s_calls s; s_kids := s_kids s;
  s_jobs := f (s_jobs s); s_trace := s_trace s |}).

(** The lowest free descriptor. *)
Fixpoint fresh_from (fuel n : nat) (t : table) : nat :=
  match fuel with
  | O => n
  | S fuel => match t !! n with None => n | Some _ => fresh_from fuel (S n) t end
  end.

Definition fresh_fd (t : table) : nat := fresh_from (S (size t)) 0 t.

Definition dup2 (old new : nat) (t : table) : table :=
  match t !! old with Some d => <[new := d]> t | None => t end.

Definition close_all (fds : list nat) (t : table) : table :=
  foldl (λ t fd, delete fd t) t fds.

Section Executors.
(** The answers of the kernel: whether the n-th call of [pipe], [open] or
    [fork] succeeds, the id of the n-th process, what becomes of a process that
    is waited for (it ends, it is stopped for good, or neither: [None]), and
    [resolve_command]. *)
Context (sys_ok : nat → bool) (pid_of : nat → Z) (status_of : Z → option wait_status).
Context (resolve : cstr → option cstr).

Definition sys_call : M sh () bool := λ s,
  (Ret (sys_ok (s_calls s)), {|
    s_fds := s_fds s; s_npipes := s_npipes s; s_calls := S (s_calls s);
    s_kids := s_kids s; s_jobs := s_jobs s; s_trace := s_trace s |}).

Definition alloc (d : desc) : M sh () nat := λ s,
  let fd := fresh_fd (s_fds s) in (Ret fd, set_fds (<[fd := d]> (s_fds s)) s).

Definition close (fd : nat) : M sh () () := modify (λ s, set_fds (delete fd (s_fds s)) s).

Definition new_pipe : M sh () nat := λ s,
  (Ret (s_npipes s), {|
    s_fds := s_fds s; s_npipes := S (s_npipes s); s_calls := s_calls s;
    s_kids := s_kids s; s_jobs := s_jobs s; s_trace := s_trace s |}).

Definition pipe : M sh () (option (nat * nat)) :=
  ok ← sys_call;
  if (ok : bool) then
    p ← new_pipe; r ← alloc (PipeR p); w ← alloc (PipeW p); mret (Some (r, w))
  else mret None.

Definition open_fd (d : desc) : M sh () (option nat) :=
  ok ← sys_call;
  if (ok : bool) then fd ← alloc d; mret (Some fd) else mret None.

(** [fork]: the child's role and what it does to its table first. *)
Definition spawn (r : role) (f : table → table) : M sh () Z := λ s,
  let pid := pid_of (length (s_kids s)) in
  (Ret pid, {|
    s_fds := s_fds s; s_npipes := s_npipes s; s_calls := s_calls s;
    s_kids := s_kids s ++ [{| c_pid := pid; c_role := r; c_fds := f (s_fds s) |}];
    s_jobs := s_jobs s; s_trace := s_trace s |}).

Definition fork (r : role) (f : table → table) : M sh () Z :=
  ok ← sys_call;
  if (ok : bool) then spawn r f else mret (-1)%Z.

(** What [waitpid] reports of the process: a stop only with WUNTRACED. *)
Definition reported (pid : Z) (untraced : bool) : option wait_status :=
  match status_of pid with
  | Some (Stopped sig) => if untraced then Some (Stopped sig) else None
  | st => st
  end.

Definition waitpid (pid : Z) (untraced : bool) : M sh () wait_status :=
  tell (Waitpid pid untraced) ;;
  match reported pid untraced with
  | Some status => mret status
  | None => throw ()
  end.

(** [setpgid]: a negative group is refused; an error because the process has
    already executed or is gone is ignored. *)
Definition setpgid (pid pgid : Z) : M sh () () :=
  if (pgid <? 0)%Z then tell (Perror (lit "setpgid")) else tell (Setpgid pid pgid).

Fixpoint close_list (fds : list nat) : M sh () () :=
  match fds with
  | [] => mret ()
  | fd :: fds => close fd ;; close_list fds
  end.

Definition close_opt (fd : option nat) : M sh () () :=
  match fd with Some fd => close fd | None => mret () end.

Definition wait_opt (pid : Z) : M sh () () :=
  if (0 <? pid)%Z then waitpid pid false ;; mret () else mret ().

Definition print (text : cstr) : M sh () () := tell (Say (text ++ [NL])).

Definition pipe_ends (pipefds : list (nat * nat)) : list nat :=
  pipefds ≫= λ p, [fst p; snd p].

(** ** Redirections *)

(** The opened files; all of them are closed again when one fails. *)
Fixpoint open_files (ds : list desc) (message : cstr) (opened : list nat)
    : M sh () (option (list nat)) :=
  match ds with
  | [] => mret (Some opened)
  | d :: ds =>
      fd ← open_fd d;
      match fd with
      | Some fd => open_files ds message (opened ++ [fd])
      | None => print message ;; close_list opened ;; mret None
      end
  end.

Definition setup_input_redirection (files : list cstr) (pipefds : list (nat * nat))
    : M sh () (option nat * Z) :=
  pipefd ← pipe;
  match pipefd with
  | None => tell (Perror (lit "pipe")) ;; mret (None, (-1)%Z)
  | Some (r, w) =>
      fds ← open_files (InFile <$> files) (lit "cshell: no such file or directory") [];
      match fds with
      | None => close r ;; close w ;; mret (None, (-1)%Z)
      | Some fds =>
          pid ← fork (InHelper fds w) (close_all (r :: pipe_ends pipefds));
          close_list fds ;;
          close w ;;
          mret (Some r, pid)
      end
  end.

Definition open_output_files (files : list cstr) (append_flags : list bool)
    : M sh () (option (list nat)) :=
  open_files (zip_with OutFile files append_flags)
    (lit "cshell: unable to create file for writing") [].

Definition setup_output_redirection (files : list cstr) (append_flags : list bool)
    (pipefds : list (nat * nat)) : M sh () (option nat * Z) :=
  out_fds ← open_output_files files append_flags;
  match out_fds with
  | None => mret (None, (-1)%Z)
  | Some out_fds =>
      pipefd ← pipe;
      match pipefd with
      | None => tell (Perror (lit "pipe")) ;; close_list out_fds ;; mret (None, (-1)%Z)
      | Some (r, w) =>
          pid ← fork (OutHelper r out_fds) (close_all (w :: pipe_ends pipefds));
          close_list out_fds ;;
          close r ;;
          mret (Some w, pid)
      end
  end.

Definition has_input (st : command_stage) : bool := negb (bool_decide (input_files st = [])).
Definition has_output (st : command_stage) : bool := negb (bool_decide (output_files st = [])).

Definition strip_percent (name : cstr) : cstr :=
  match name with
  | c :: name' => if Ascii.eqb c "%" then name' else name
  | [] => []
  end.

Definition not_found (st : command_stage) : M sh () () :=
  print (lit "cshell: command not found (" ++ strip_percent (arg0 st) ++ lit ")").

(** The argument vector of [execv]. *)
Definition exec_argv (st : command_stage) : list cstr :=
  match args st with
  | a :: more => strip_percent a :: more
  | [] => []
  end.

Definition dup_end (fd : option nat) (new : nat) (t : table) : table :=
  match fd with Some fd => dup2 fd new t | None => t end.

Definition close_end (fd : option nat) (t : table) : table :=
  match fd with Some fd => delete fd t | None => t end.

(** What the child of a lone command does to its table. *)
Definition single_table (in_fd out_fd : option nat) (t : table) : table :=
  let t := close_end in_fd (dup_end in_fd 0 t) in
  close_end out_fd (dup_end out_fd 1 t).

(** ** One foreground command *)
Definition register_helpers (pgid writer_pid reader_pid : Z) : M sh () () :=
  (if (0 <? writer_pid)%Z then
     setpgid writer_pid pgid ;; on_jobs (group_add_member pgid writer_pid (lit "<redirect_in>"))
   else mret ()) ;;
  (if (0 <? reader_pid)%Z then
     setpgid reader_pid pgid ;; on_jobs (group_add_member pgid reader_pid (lit "<redirect_out>"))
   else mret ()).

(** The set-up of the input and of the output of a command; [None] when it has
    no such redirection. *)
Definition redirect_input (st : command_stage) (pipefds : list (nat * nat))
    : M sh () (option (option nat * Z)) :=
  if has_input st then
    r ← setup_input_redirection (input_files st) pipefds; mret (Some r)
  else mret None.

Definition redirect_output (st : command_stage) (pipefds : list (nat * nat))
    : M sh () (option (option nat * Z)) :=
  if has_output st then
    r ← setup_output_redirection (output_files st) (append_flags st) pipefds; mret (Some r)
  else mret None.

(** The redirections of a lone command: the descriptors and the helpers, or
    [None] after a failure. *)
Definition single_output (st : command_stage) (in_fd : option nat) (writer_pid : Z)
    : M sh () (option (option nat * Z * option nat * Z)) :=
  output ← redirect_output st [];
  match output with
  | Some (None, _) => close_opt in_fd ;; wait_opt writer_pid ;; mret None
  | _ => mret (Some (in_fd, writer_pid, output ≫= fst, default (-1)%Z (snd <$> output)))
  end.

Definition setup_single (st : command_stage)
    : M sh () (option (option nat * Z * option nat * Z)) :=
  input ← redirect_input st [];
  match input with
  | Some (None, _) => mret None
  | _ => single_output st (input ≫= fst) (default (-1)%Z (snd <$> input))
  end.

Definition execute_with_redirection (st : command_stage) : M sh () Z :=
  match resolve (arg0 st) with
  | None => not_found st ;; mret (-1)%Z
  | Some resolved =>
      fds ← setup_single st;
      match fds with
      | None => mret (-1)%Z
      | Some (in_fd, writer_pid, out_fd, reader_pid) =>
          pid ← fork (Command 0 resolved (exec_argv st) None)
                  (λ t, single_table in_fd out_fd t);
          if (0 <? pid)%Z then
            setpgid pid pid ;;
            register_helpers pid writer_pid reader_pid ;;
            let cmdline := join_args (args st) 256 in
            on_jobs (group_add pid cmdline) ;;
            on_jobs (group_add_member pid pid cmdline) ;;
            on_jobs (give_terminal_to pid) ;;
            close_opt in_fd ;;
            close_opt out_fd ;;
            status ← waitpid pid true;
            on_jobs reclaim_terminal ;;
            wait_opt writer_pid ;;
            wait_opt reader_pid ;;
            match status with
            | Stopped _ =>
                jid ← gets (λ s, snd (mark_group_stopped pid (s_jobs s)));
                on_jobs (λ s, fst (mark_group_stopped pid s)) ;;
                print (lit "[" ++ print_Z jid ++ lit "] + Stopped" ++ [TAB] ++ cmdline) ;;
                mret 0%Z
            | _ => on_jobs (group_remove pid) ;; mret 0%Z
            end
          else
            tell (Perror (lit "fork")) ;;
            close_opt in_fd ;;
            close_opt out_fd ;;
            wait_opt writer_pid ;;
            wait_opt reader_pid ;;
            mret (-1)%Z
      end
  end.

(** ** Pipelines *)
Definition close_all_pipes (pipefds : list (nat * nat)) : M sh () () :=
  close_list (pipe_ends pipefds).

(** The pipes between the stages; all of them are closed when one fails. *)
Fixpoint create_pipes (n : nat) (pipefds : list (nat * nat))
    : M sh () (option (list (nat * nat))) :=
  match n with
  | O => mret (Some pipefds)
  | S n =>
      p ← pipe;
      match p with
      | Some p => create_pipes n (pipefds ++ [p])
      | None => tell (Perror (lit "pipe")) ;; close_all_pipes pipefds ;; mret None
      end
  end.

(** One index of the arrays [resolved], [writer_pid], [reader_pid], [in_fd] and
    [out_fd]. *)
Record stage_io := {
  io_resolved : option cstr;
  io_writer : Z;
  io_reader : Z;
  io_in : option nat;
  io_out : option nat;
}.

Definition no_io : stage_io := {|
  io_resolved := None; io_writer := -1; io_reader := -1; io_in := None; io_out := None |}.

(** One turn of the loop that sets up the redirections and resolves the
    commands; [false] when it aborts. *)
Definition prepare_stage (st : command_stage) (pipefds : list (nat * nat))
    : M sh () (stage_io * bool) :=
  input ← redirect_input st pipefds;
  let in_fd := input ≫= fst in
  let writer := default (-1)%Z (snd <$> input) in
  match input with
  | Some (None, _) => mret (no_io, false)
  | _ =>
      output ← redirect_output st pipefds;
      let io resolved := {|
        io_resolved := resolved; io_writer := writer;
        io_reader := default (-1)%Z (snd <$> output);
        io_in := in_fd; io_out := output ≫= fst |} in
      match output with
      | Some (None, _) => mret (io None, false)
      | _ =>
          match resolve (arg0 st) with
          | None => not_found st ;; mret (io None, true)
          | Some path => mret (io (Some path), true)
          end
      end
  end.

Fixpoint prepare (stages : list command_stage) (pipefds : list (nat * nat))
    (ios : list stage_io) : M sh () (list stage_io * bool) :=
  match stages with
  | [] => mret (ios, true)
  | st :: stages =>
      r ← prepare_stage st pipefds;
      let (io, go_on) := (r : stage_io * bool) in
      if go_on then prepare stages pipefds (ios ++ [io]) else mret (ios ++ [io], false)
  end.

Fixpoint close_ios (ios : list stage_io) : M sh () () :=
  match ios with
  | [] => mret ()
  | io :: ios => close_opt (io_in io) ;; close_opt (io_out io) ;; close_ios ios
  end.

(** The clean-up after an abort. *)
Fixpoint abort_ios (ios : list stage_io) : M sh () () :=
  match ios with
  | [] => mret ()
  | io :: ios =>
      close_opt (io_in io) ;; close_opt (io_out io) ;;
      wait_opt (io_writer io) ;; wait_opt (io_reader io) ;;
      abort_ios ios
  end.

(** What the child of stage [i] does to its table before it executes:
    redirection, then the neighbouring pipes, then the inherited streams. *)
Definition stage_table (i : nat) (last : bool) (st : command_stage) (io : stage_io)
    (pipefds : list (nat * nat)) (t : table) : table :=
  let t :=
    if has_input st then dup_end (io_in io) 0 t
    else match i with
         | S i => dup_end (fst <$> pipefds !! i) 0 t
         | O => t
         end in
  let t :=
    if has_output st then dup_end (io_out io) 1 t
    else if last then t else dup_end (snd <$> pipefds !! i) 1 t in
  let t := close_all (pipe_ends pipefds) t in
  close_end (io_out io) (close_end (io_in io) t).

(** The loop that forks the stages; [leader] is [child_pid[0]] and the result
    the array [child_pid]. *)
Fixpoint fork_stages (i : nat) (stages : list (command_stage * stage_io))
    (pipefds : list (nat * nat)) (sync_fd : option nat) (leader : Z) (child_pid : list Z)
    : M sh () (list Z) :=
  match stages with
  | [] => mret child_pid
  | (st, io) :: stages =>
      match io_resolved io with
      | None => fork_stages (S i) stages pipefds sync_fd leader (child_pid ++ [(-1)%Z])
      | Some path =>
          let last := bool_decide (stages = []) in
          pid ← fork (Command i path (exec_argv st) sync_fd) (stage_table i last st io pipefds);
          let leader := if bool_decide (i = 0) then pid else leader in
          (if (0 <? pid)%Z then setpgid pid leader else tell (Perror (lit "fork"))) ;;
          fork_stages (S i) stages pipefds sync_fd leader (child_pid ++ [pid])
      end
  end.

(** Registration of the members of a pipeline; [job] is the background job the
    processes after the first one belong to. *)
Fixpoint register_stages (i : nat) (stages : list (command_stage * stage_io * Z))
    (leader : Z) (job : option Z) : M sh () () :=
  match stages with
  | [] => mret ()
  | (st, io, pid) :: stages =>
      (if (0 <? pid)%Z then
         match job with
         | Some job_id => if 0 <? i then on_jobs (job_add_member_bg job_id pid) else mret ()
         | None => mret ()
         end ;;
         on_jobs (group_add_member leader pid (join_args (args st) 256))
       else mret ()) ;;
      register_helpers leader (io_writer io) (io_reader io) ;;
      register_stages (S i) stages leader job
  end.

(** The foreground waits; the result is the status of the first stage. *)
Fixpoint wait_stages (i : nat) (stages : list (stage_io * Z)) (leader_status : wait_status)
    : M sh () wait_status :=
  match stages with
  | [] => mret leader_status
  | (io, pid) :: stages =>
      if (0 <? pid)%Z then
        status ← waitpid pid true;
        wait_opt (io_writer io) ;;
        wait_opt (io_reader io) ;;
        wait_stages (S i) stages (if bool_decide (i = 0) then status else leader_status)
      else wait_stages (S i) stages leader_status
  end.

(** Steps 1 and 2 of a pipeline: the pipes, the redirections and the resolved
    commands; [None] after a failure, with everything cleaned up. *)
Definition open_pipeline (stages : list command_stage)
    : M sh () (option (list (nat * nat) * list stage_io)) :=
  pipefds ← create_pipes (length stages - 1) [];
  match pipefds with
  | None => mret None
  | Some pipefds =>
      r ← prepare stages pipefds [];
      let (ios, go_on) := (r : list stage_io * bool) in
      if go_on then mret (Some (pipefds, ios))
      else abort_ios ios ;; close_all_pipes pipefds ;; mret None
  end.

Definition job_line (job_id pid : Z) : cstr :=
  lit "[" ++ print_Z job_id ++ lit "] " ++ print_Z pid.

Definition execute_pipeline (stages : list command_stage) : M sh () Z :=
  match stages with
  | [] => mret 0%Z
  | [st] => execute_with_redirection st
  | _ =>
      opened ← open_pipeline stages;
      match opened with
      | None => mret (-1)%Z
      | Some (pipefds, ios) =>
          child_pid ← fork_stages 0 (zip stages ios) pipefds None (-1) [];
          let leader := default (-1)%Z (head child_pid) in
          let full_cmdline := join_pipeline stages 256 in
          (if (0 <? leader)%Z then
             on_jobs (group_add leader full_cmdline) ;;
             register_stages 0 (zip (zip stages ios) child_pid) leader None
           else mret ()) ;;
          (if (0 <? leader)%Z then on_jobs (give_terminal_to leader) else mret ()) ;;
          close_all_pipes pipefds ;;
          close_ios ios ;;
          leader_status ← wait_stages 0 (zip ios child_pid) (Exited 0);
          (if (0 <? leader)%Z then on_jobs reclaim_terminal else mret ()) ;;
          match leader_status with
          | Stopped _ =>
              jid ← gets (λ s, snd (mark_group_stopped leader (s_jobs s)));
              on_jobs (λ s, fst (mark_group_stopped leader s)) ;;
              print (lit "[" ++ print_Z jid ++ lit "] + Stopped" ++ [TAB] ++ full_cmdline) ;;
              mret 0%Z
          | _ => (if (0 <? leader)%Z then on_jobs (group_remove leader) else mret ()) ;; mret 0%Z
          end
      end
  end.

(** ** Background *)

(** The fork of a background command with its redirections.  [sync]: the two
    ends of the pipe that holds the child back until it is registered. *)
Definition fork_background (st : command_stage) (resolved : cstr) (sync : option (nat * nat))
    (fds : option nat * Z * option nat * Z) : M sh () (option Z) :=
  let '(in_fd, writer_pid, out_fd, reader_pid) := fds in
  pid ← fork (Command 0 resolved (exec_argv st) (fst <$> sync))
          (λ t, single_table in_fd out_fd (close_end (snd <$> sync) t));
  if (0 <? pid)%Z then
    setpgid pid pid ;;
    register_helpers pid writer_pid reader_pid ;;
    close_opt in_fd ;;
    close_opt out_fd ;;
    mret (Some pid)
  else
    tell (Perror (lit "fork")) ;;
    close_opt in_fd ;;
    close_opt out_fd ;;
    wait_opt writer_pid ;;
    wait_opt reader_pid ;;
    mret None.

(** The result is the pid, or [None] for -1. *)
Definition execute_with_redirection_bg (st : command_stage) (sync : option (nat * nat))
    : M sh () (option Z) :=
  match resolve (arg0 st) with
  | None => not_found st ;; mret None
  | Some resolved =>
      fds ← setup_single st;
      match fds with
      | None => mret None
      | Some fds => fork_background st resolved sync fds
      end
  end.

Definition execute_background_one (st : command_stage) : M sh () Z :=
  sync ← pipe;
  rc ← execute_with_redirection_bg st sync;
  close_opt (fst <$> sync) ;;
  match rc with
  | None => close_opt (snd <$> sync) ;; mret (-1)%Z
  | Some pid =>
      let cmdline := join_args (args st) 256 in
      job_id ← gets (λ s, snd (job_add pid cmdline (s_jobs s)));
      on_jobs (λ s, fst (job_add pid cmdline s)) ;;
      on_jobs (group_add pid cmdline) ;;
      on_jobs (group_add_member pid pid cmdline) ;;
      print (job_line job_id pid) ;;
      close_opt (snd <$> sync) ;;
      mret 0%Z
  end.

Definition execute_background (stages : list command_stage) : M sh () Z :=
  match stages with
  | [] => mret 0%Z
  | [st] => execute_background_one st
  | _ =>
      opened ← open_pipeline stages;
      match opened with
      | None => mret (-1)%Z
      | Some (pipefds, ios) =>
          sync ← pipe;
          child_pid ← fork_stages 0 (zip stages ios) pipefds (fst <$> sync) (-1) [];
          close_all_pipes pipefds ;;
          close_ios ios ;;
          close_opt (fst <$> sync) ;;
          let leader := default (-1)%Z (head child_pid) in
          if (0 <? leader)%Z then
            let full_cmdline := join_pipeline stages 256 in
            job_id ← gets (λ s, snd (job_add leader full_cmdline (s_jobs s)));
            on_jobs (λ s, fst (job_add leader full_cmdline s)) ;;
            on_jobs (group_add leader full_cmdline) ;;
            register_stages 0 (zip (zip stages ios) child_pid) leader (Some job_id) ;;
            print (job_line job_id leader) ;;
            close_opt (snd <$> sync) ;;
            mret 0%Z
          else
            close_opt (snd <$> sync) ;; mret (-1)%Z
      end
  end.
End Executors.
