(* ===== verification/Wiring.v ===== *)
(** * Descriptors and pipes of the executors (redirect.c)

    What the executors of [Redirect] do to the shell's descriptor table: it is
    the same after a command as before it, unless the shell is caught in a
    [waitpid] that never returns. *)

From stdpp Require Import gmap.
From S2P Require Import Prelude Clib Lexer Parser Shell Jobs Redirect.

Local Open Scope nat_scope.
#[local] Set Warnings "-clear-no-such-hyp".
#[local] Set Default Proof Using "Type".

(** ** The lowest free descriptor *)
Lemma fresh_from_free fuel n (t : table) :
  (∃ k, n ≤ k < n + fuel ∧ t !! k = None) → t !! fresh_from fuel n t = None.
Proof.
  revert n. induction fuel as [|fuel IH]; intros n (k & Hk & Hn); [lia|]. simpl.
  destruct (t !! n) eqn:E; [|done]. apply IH. exists k. split; [|done].
  assert (k ≠ n) by congruence. lia.
Qed.

Lemma fresh_fd_free (t : table) : t !! fresh_fd t = None.
Proof.
  apply fresh_from_free.
  destruct (decide (set_seq 0 (S (size t)) ⊆ dom t)) as [Hs|Hs].
  { apply subseteq_size in Hs. rewrite size_set_seq, size_dom in Hs. lia. }
  assert (∃ k, k ∈ (set_seq 0 (S (size t)) : gset nat) ∧ k ∉ dom t) as (k & Hk & Hd).
  { apply dec_stable. intros Hne. apply Hs. intros k Hk. destruct (decide (k ∈ dom t)); [done|].
    exfalso. apply Hne. by exists k. }
  exists k. apply elem_of_set_seq in Hk. split; [lia|]. by apply not_elem_of_dom.
Qed.

(** ** The descriptors opened since some moment *)

(** A descriptor made after [np] pipes existed. *)
Definition new_desc (np : nat) (d : desc) : Prop :=
  match d with
  | Open _ => False
  | PipeR p | PipeW p => np ≤ p
  | InFile _ | OutFile _ _ => True
  end.

Definition is_helper (r : role) : Prop :=
  match r with Command _ _ _ _ => False | _ => True end.

(** The shell is in a [waitpid] that has nothing to report, ever. *)
Definition blocked (status_of : Z → option wait_status) (s : sh) : Prop :=
  ∃ pid untraced tr, s_trace s = tr ++ [Waitpid pid untraced] ∧
    reported status_of pid untraced = None.

Section Opened.
(** The table, the number of pipes and the processes at that moment, what holds
    of the processes forked since, and of the shell when it never returns. *)
Context (base : table) (np : nat) (kids0 : list child) (K : child → Prop).
Context {R : () → sh → Prop}.

(** The shell has opened at most the descriptors of [L] since. *)
Record opened (L : gset nat) (s : sh) : Prop := {
  op_eq fd : fd ∉ L → s_fds s !! fd = base !! fd;
  op_free fd : fd ∈ L → base !! fd = None;
  op_new fd d : fd ∈ L → s_fds s !! fd = Some d → new_desc np d;
  op_np : np ≤ s_npipes s;
  op_kids : ∃ kids, s_kids s = kids0 ++ kids ∧ Forall K kids;
}.

Abbreviation wp0 m Q := (wp m Q R).

Lemma opened_same L s s' :
  opened L s → s_fds s' = s_fds s → s_npipes s' = s_npipes s → s_kids s' = s_kids s →
  opened L s'.
Proof. intros [] E1 E2 E3. split; rewrite ?E1, ?E2, ?E3; auto. Qed.

Lemma opened_weaken L L' s :
  opened L s → L ⊆ L' → (∀ fd, fd ∈ L' → base !! fd = None) → opened L' s.
Proof.
  intros [H1 H2 H3 H4 H5] Hs Hf. split; auto.
  - intros fd d Hd Hl. destruct (decide (fd ∈ L)) as [Hi|Hi]; [by eapply H3|].
    rewrite H1, Hf in Hl by done. done.
Qed.

Lemma opened_eq L L' s : opened L s → L = L' → opened L' s.
Proof. by intros H <-. Qed.

(** [m] returns and leaves the descriptors, the pipes and the processes alone. *)
Definition stays {A} (m : M sh () A) : Prop :=
  ∀ s, ∃ a s', m s = (Ret a, s') ∧ s_fds s' = s_fds s ∧ s_npipes s' = s_npipes s ∧
    s_kids s' = s_kids s.

Lemma stays_ret {A} (a : A) : stays (mret a).
Proof. intros s. by exists a, s. Qed.

Lemma stays_gets {A} (f : sh → A) : stays (gets f).
Proof. intros s. by exists (f s), s. Qed.

Lemma stays_tell e : stays (tell e).
Proof. intros s. by eexists _, _. Qed.

Lemma stays_on_jobs f : stays (on_jobs f).
Proof. intros s. by eexists _, _. Qed.

Lemma stays_bind {A B} (m : M sh () A) (k : A → M sh () B) :
  stays m → (∀ a, stays (k a)) → stays (mbind k m).
Proof.
  intros Hm Hk s. destruct (Hm s) as (a & s1 & E & H1 & H2 & H3).
  destruct (Hk a s1) as (b & s2 & E' & H1' & H2' & H3').
  exists b, s2. unfold mbind, M_bind. rewrite E. by rewrite E', H1', H2', H3'.
Qed.

(** [m] leaves them alone and returns, or waits for ever. *)
Definition waits (status_of : Z → option wait_status) {A} (m : M sh () A) : Prop :=
  ∀ s, match m s with
  | (Ret _, s') => s_fds s' = s_fds s ∧ s_npipes s' = s_npipes s ∧ s_kids s' = s_kids s
  | (Err _, s') => s_kids s' = s_kids s ∧ blocked status_of s'
  | (NoFuel, _) => False
  end.

Lemma stays_waits status_of {A} (m : M sh () A) : stays m → waits status_of m.
Proof. intros H s. by destruct (H s) as (a & s' & -> & ?). Qed.

Lemma waits_bind status_of {A B} (m : M sh () A) (k : A → M sh () B) :
  waits status_of m → (∀ a, waits status_of (k a)) → waits status_of (mbind k m).
Proof.
  intros Hm Hk s. specialize (Hm s). unfold mbind, M_bind. destruct (m s) as [[a|e|] s1]; [|done..].
  destruct Hm as (E1 & E2 & E3). specialize (Hk a s1).
  destruct (k a s1) as [[b|e|] s2]; rewrite <-?E1, <-?E2, <-?E3; done.
Qed.

Lemma wp_stays {A} (m : M sh () A) L (Q : A → sh → Prop) s :
  stays m → opened L s →
  (∀ a s', opened L s' → s_fds s' = s_fds s → s_npipes s' = s_npipes s →
     s_kids s' = s_kids s → Q a s') → wp0 m Q s.
Proof.
  intros Hm Ho HQ. destruct (Hm s) as (a & s' & E & H1 & H2 & H3). unfold wp. rewrite E.
  apply HQ; try done. by eapply opened_same.
Qed.

(** ** The calls *)
Section Calls.
Context (sys_ok : nat → bool) (pid_of : nat → Z) (status_of : Z → option wait_status).
Context (resolve : cstr → option cstr).

Lemma waits_waitpid pid untraced : waits status_of (waitpid status_of pid untraced).
Proof.
  intros s. unfold waitpid, tell. munfold. destruct (reported status_of pid untraced) eqn:E; [done|].
  split; [done|]. by exists pid, untraced, (s_trace s).
Qed.

Lemma waits_wait_opt pid : waits status_of (wait_opt status_of pid).
Proof.
  unfold wait_opt. destruct (_ <? _)%Z; [|apply stays_waits, stays_ret].
  apply waits_bind; [apply waits_waitpid|]. intros _. apply stays_waits, stays_ret.
Qed.

Lemma stays_setpgid pid pgid : stays (setpgid pid pgid).
Proof. unfold setpgid. destruct (_ <? _)%Z; apply stays_tell. Qed.

Lemma stays_register_helpers g w r : stays (register_helpers g w r).
Proof.
  unfold register_helpers.
  destruct (0 <? w)%Z, (0 <? r)%Z;
    eauto 10 using stays_bind, stays_setpgid, stays_on_jobs, stays_ret.
Qed.

Lemma stays_register_stages i stages leader job : stays (register_stages i stages leader job).
Proof.
  revert i. induction stages as [|[[st io] pid] stages IH]; intros i; cbn [register_stages].
  { apply stays_ret. }
  apply stays_bind.
  { destruct (_ <? _)%Z; [|apply stays_ret]. apply stays_bind; [|intros; apply stays_on_jobs].
    destruct job; [destruct (_ <? _)|]; (apply stays_on_jobs || apply stays_ret). }
  intros _. apply stays_bind; [apply stays_register_helpers|]. intros _. apply IH.
Qed.

Lemma waits_wait_stages i stages status :
  waits status_of (wait_stages status_of i stages status).
Proof.
  revert i status. induction stages as [|[io pid] stages IH]; intros i status; cbn [wait_stages].
  { apply stays_waits, stays_ret. }
  destruct (_ <? _)%Z; [|apply IH].
  repeat (apply waits_bind; [apply waits_waitpid || apply waits_wait_opt|intros ?]). apply IH.
Qed.

(** What is to hold when the shell never returns. *)
Abbreviation stuck := (∀ s, (∃ kids, s_kids s = kids0 ++ kids ∧ Forall K kids) →
  blocked status_of s → R () s).

Lemma wp_waits {A} (m : M sh () A) L (Q : A → sh → Prop) s :
  stuck → waits status_of m → opened L s →
  (∀ a s', opened L s' → s_fds s' = s_fds s → s_npipes s' = s_npipes s →
     s_kids s' = s_kids s → Q a s') → wp0 m Q s.
Proof.
  intros HR Hm Ho HQ. specialize (Hm s). unfold wp. destruct (m s) as [[a|[]|] s'] eqn:E; [| |done].
  - destruct Hm as (H1 & H2 & H3). apply HQ; try done. by eapply opened_same.
  - destruct Hm as [E3 Hb]. apply HR; [|done]. rewrite E3. apply Ho.
Qed.

Lemma wp_sys_call L (Q : bool → sh → Prop) s :
  opened L s →
  (∀ b s', opened L s' → s_fds s' = s_fds s → s_npipes s' = s_npipes s →
     s_kids s' = s_kids s → Q b s') →
  wp0 (sys_call sys_ok) Q s.
Proof. intros Ho HQ. apply HQ; [by eapply opened_same|done..]. Qed.

Lemma wp_alloc d L (Q : nat → sh → Prop) s :
  opened L s → new_desc np d →
  (∀ fd s', opened ({[fd]} ∪ L) s' → Q fd s') → wp0 (alloc d) Q s.
Proof.
  intros [H1 H2 H3 H4 H5] Hd HQ. pose proof (fresh_fd_free (s_fds s)) as Hf.
  apply HQ. set (n := fresh_fd (s_fds s)) in *. split; simpl; [| | |done|done].
  - intros fd Hn. rewrite lookup_insert_ne by set_solver +Hn. apply H1. set_solver +Hn.
  - intros fd [->%elem_of_singleton|Hi]%elem_of_union; [|by apply H2].
    destruct (decide (n ∈ L)); [by apply H2|]. by rewrite <-H1.
  - intros fd d' Hi. destruct (decide (fd = n)) as [->|Hne].
    { rewrite lookup_insert_eq. by intros [= <-]. }
    rewrite lookup_insert_ne by done. apply H3. set_solver +Hi Hne.
Qed.

Definition ends (o : option (nat * nat)) : gset nat :=
  match o with Some (r, w) => {[r; w]} | None => ∅ end.

Definition opt_set (o : option nat) : gset nat :=
  match o with Some fd => {[fd]} | None => ∅ end.

Lemma wp_pipe L (Q : option (nat * nat) → sh → Prop) s :
  opened L s → (∀ o s', opened (ends o ∪ L) s' → Q o s') → wp0 (pipe sys_ok) Q s.
Proof.
  intros Ho HQ. unfold pipe. apply wp_bind, (wp_sys_call L); [done|].
  intros b s1 Ho1 _ _ _. destruct b; [|apply wp_ret, HQ; simpl; by rewrite union_empty_l_L].
  apply wp_bind. unfold wp, new_pipe at 1.
  match goal with |- context [mbind _ _ ?s] => set (s2 := s) end.
  assert (Hnp : np ≤ s_npipes s1) by apply Ho1.
  assert (Ho2 : opened L s2) by (destruct Ho1; split; simpl; auto).
  apply wp_bind, (wp_alloc _ L); [done|done|]. intros r s3 Ho3.
  apply wp_bind, (wp_alloc _ ({[r]} ∪ L)); [done|done|]. intros w s4 Ho4.
  apply wp_ret, HQ. simpl. replace ({[r; w]} ∪ L) with ({[w]} ∪ ({[r]} ∪ L)) by set_solver +. done.
Qed.

Lemma wp_open_fd d L (Q : option nat → sh → Prop) s :
  opened L s → new_desc np d → (∀ o s', opened (opt_set o ∪ L) s' → Q o s') →
  wp0 (open_fd sys_ok d) Q s.
Proof.
  intros Ho Hd HQ. unfold open_fd. apply wp_bind, (wp_sys_call L); [done|].
  intros b s1 Ho1 _ _ _. destruct b; [|apply wp_ret, HQ; simpl; by rewrite union_empty_l_L].
  apply wp_bind, (wp_alloc _ L); [done|done|]. intros fd s2 Ho2. by apply wp_ret, HQ.
Qed.

Lemma wp_close fd L (Q : () → sh → Prop) s :
  opened L s → base !! fd = None → (∀ s', opened (L ∖ {[fd]}) s' → Q () s') →
  wp0 (close fd) Q s.
Proof.
  intros [H1 H2 H3 H4 H5] Hb HQ. apply HQ. split; simpl; [| | |done|done].
  - intros fd' Hn. destruct (decide (fd' = fd)) as [->|Hne].
    { by rewrite lookup_delete_eq. }
    rewrite lookup_delete_ne by done. apply H1. set_solver +Hn Hne.
  - intros fd' Hi. apply H2. set_solver +Hi.
  - intros fd' d Hi. rewrite lookup_delete_ne by set_solver +Hi. apply H3. set_solver +Hi.
Qed.

Lemma wp_close_list fds L (Q : () → sh → Prop) s :
  opened L s → Forall (λ fd, base !! fd = None) fds →
  (∀ s', opened (L ∖ list_to_set fds) s' → Q () s') → wp0 (close_list fds) Q s.
Proof.
  intros Ho Hf. revert L s Ho. induction Hf as [|fd fds Hb Hf IH]; intros L s Ho HQ; simpl.
  { apply wp_ret, HQ. simpl. by rewrite difference_empty_L. }
  apply wp_bind, (wp_close _ L); [done|done|]. intros s1 Ho1. apply (IH _ _ Ho1).
  intros s2 Ho2. apply HQ. simpl.
  replace (L ∖ ({[fd]} ∪ list_to_set fds)) with (L ∖ {[fd]} ∖ list_to_set fds) by set_solver +.
  done.
Qed.

Lemma wp_close_opt o L (Q : () → sh → Prop) s :
  opened L s → (∀ fd, o = Some fd → base !! fd = None) →
  (∀ s', opened (L ∖ opt_set o) s' → Q () s') → wp0 (close_opt o) Q s.
Proof.
  intros Ho Hf HQ. destruct o as [fd|]; simpl in *.
  - apply (wp_close _ L); auto.
  - apply wp_ret, HQ. by rewrite difference_empty_L.
Qed.

Lemma wp_fork r f L (Q : Z → sh → Prop) s :
  opened L s → (∀ pid, K {| c_pid := pid; c_role := r; c_fds := f (s_fds s) |}) →
  (∀ pid s', opened L s' → s_fds s' = s_fds s → Q pid s') →
  wp0 (fork sys_ok pid_of r f) Q s.
Proof.
  intros Ho HK HQ. unfold fork. apply wp_bind, (wp_sys_call L); [done|].
  intros b s1 Ho1 E1 _ E3. destruct b; [|by apply wp_ret, HQ].
  unfold wp, spawn. apply HQ; [|done]. destruct Ho1 as [H1 H2 H3 H4 (kids & Hk & HF)].
  split; simpl; auto. eexists (kids ++ [_]). rewrite Hk, app_assoc. split; [done|].
  apply Forall_app. split; [done|]. repeat constructor. rewrite E1. apply HK.
Qed.

(** ** Redirections *)
Section Setup.
Context (pipefds : list (nat * nat)).
Context (HK : ∀ pid r x L s, is_helper r → opened L s → x ∈ L →
  K {| c_pid := pid; c_role := r;
       c_fds := close_all (x :: pipe_ends pipefds) (s_fds s) |}).

Lemma opened_free_list L s l :
  opened L s → list_to_set l ⊆ L → Forall (λ fd, base !! fd = None) l.
Proof.
  intros Ho Hl. apply Forall_forall. intros fd Hi. apply (op_free _ _ Ho). apply Hl.
  by apply elem_of_list_to_set.
Qed.

Lemma wp_open_files ds msg acc L (Q : option (list nat) → sh → Prop) s :
  opened (list_to_set acc ∪ L) s → Forall (new_desc np) ds →
  (∀ fds s', opened (list_to_set fds ∪ L) s' → Q (Some fds) s') →
  (∀ s', opened L s' → Q None s') →
  wp0 (open_files sys_ok ds msg acc) Q s.
Proof.
  intros Ho Hd HQ HN. revert acc s Ho. induction Hd as [|d ds Hd Hds IH]; intros acc s Ho.
  { by apply wp_ret, HQ. }
  cbn [open_files]. apply wp_bind, (wp_open_fd _ (list_to_set acc ∪ L)); [done|done|].
  intros [fd|] s1 Ho1; simpl in Ho1.
  - apply IH. rewrite list_to_set_app_L. simpl.
    by replace (list_to_set acc ∪ ({[fd]} ∪ ∅) ∪ L) with ({[fd]} ∪ (list_to_set acc ∪ L))
      by set_solver +.
  - rewrite union_empty_l_L in Ho1.
    apply wp_bind, (wp_stays _ (list_to_set acc ∪ L)); [apply stays_tell|done|].
    intros _ s2 Ho2 _ _ _. apply wp_bind, (wp_close_list _ (list_to_set acc ∪ L)); [done| |].
    { eapply opened_free_list; [done|]. set_solver +. }
    intros s3 Ho3. apply wp_ret, HN. eapply opened_weaken; [done|set_solver +|].
    intros fd Hi. apply (op_free _ _ Ho). set_solver +Hi.
Qed.

Lemma wp_setup_input files L (Q : option nat * Z → sh → Prop) s :
  opened L s → (∀ o pid s', opened (opt_set o ∪ L) s' → Q (o, pid) s') →
  wp0 (setup_input_redirection sys_ok pid_of files pipefds) Q s.
Proof using HK.
  intros Ho HQ. unfold setup_input_redirection.
  apply wp_bind, (wp_pipe L); [done|]. intros [[r w]|] s1 Ho1; simpl in Ho1.
  2: { rewrite union_empty_l_L in Ho1. apply wp_bind, (wp_stays _ L); [apply stays_tell|done|].
       intros _ s2 Ho2 _ _ _. apply wp_ret, HQ. simpl. by rewrite union_empty_l_L. }
  assert (Hf1 : ∀ fd, fd ∈ {[r; w]} ∪ L → base !! fd = None) by apply Ho1.
  apply wp_bind, (wp_open_files _ _ [] ({[r; w]} ∪ L)).
  - simpl. by rewrite union_empty_l_L.
  - apply Forall_fmap, Forall_forall. by intros x Hx.
  - intros fds s2 Ho2. apply wp_bind, (wp_fork _ _ (list_to_set fds ∪ ({[r; w]} ∪ L))); [done| |].
    { intros pid. eapply HK; [done|done|set_solver +]. }
    intros pid s3 Ho3 _. apply wp_bind, (wp_close_list _ (list_to_set fds ∪ ({[r; w]} ∪ L))); [done| |].
    { eapply opened_free_list; [done|]. set_solver +. }
    intros s4 Ho4. apply wp_bind. eapply wp_close; [done|apply Hf1; set_solver +|].
    intros s5 Ho5. apply wp_ret, HQ. simpl. eapply opened_weaken; [done|set_solver +|].
    intros fd Hi. apply Hf1. set_solver +Hi.
  - intros s2 Ho2. apply wp_bind, (wp_close _ ({[r; w]} ∪ L)); [done|apply Hf1; set_solver +|].
    intros s3 Ho3. apply wp_bind. eapply wp_close; [done|apply Hf1; set_solver +|].
    intros s4 Ho4. apply wp_ret, HQ. simpl. eapply opened_weaken; [done|set_solver +|].
    intros fd Hi. apply Hf1. set_solver +Hi.
Qed.

Lemma wp_setup_output files flags L (Q : option nat * Z → sh → Prop) s :
  opened L s → (∀ o pid s', opened (opt_set o ∪ L) s' → Q (o, pid) s') →
  wp0 (setup_output_redirection sys_ok pid_of files flags pipefds) Q s.
Proof using HK.
  intros Ho HQ. unfold setup_output_redirection, open_output_files.
  assert (Hf : ∀ fd, fd ∈ L → base !! fd = None) by apply Ho.
  apply wp_bind, (wp_open_files _ _ [] L).
  - simpl. by rewrite union_empty_l_L.
  - apply Forall_forall. intros d Hd.
    apply elem_of_zip_with in Hd as (? & ? & -> & _). done.
  - intros fds s1 Ho1. apply wp_bind, (wp_pipe (list_to_set fds ∪ L)); [done|].
    intros [[r w]|] s2 Ho2; simpl in Ho2.
    + assert (Hf1 : ∀ fd, fd ∈ {[r; w]} ∪ (list_to_set fds ∪ L) → base !! fd = None) by apply Ho2.
      apply wp_bind, (wp_fork _ _ ({[r; w]} ∪ (list_to_set fds ∪ L))); [done| |].
      { intros pid. eapply HK; [done|done|set_solver +]. }
      intros pid s3 Ho3 _.
      apply wp_bind, (wp_close_list _ ({[r; w]} ∪ (list_to_set fds ∪ L))); [done| |].
      { eapply opened_free_list; [done|]. set_solver +. }
      intros s4 Ho4. apply wp_bind. eapply wp_close; [done|apply Hf1; set_solver +|].
      intros s5 Ho5. apply wp_ret, HQ. simpl. eapply opened_weaken; [done|set_solver +|].
      intros fd Hi. apply Hf1. set_solver +Hi.
    + rewrite union_empty_l_L in Ho2.
      apply wp_bind, (wp_stays _ (list_to_set fds ∪ L)); [apply stays_tell|done|].
      intros _ s3 Ho3 _ _ _. apply wp_bind, (wp_close_list _ (list_to_set fds ∪ L)); [done| |].
      { eapply opened_free_list; [done|]. set_solver +. }
      intros s4 Ho4. apply wp_ret, HQ. simpl. eapply opened_weaken; [done|set_solver +|].
      intros fd Hi. apply Hf. set_solver +Hi.
  - intros s1 Ho1. apply wp_ret, HQ. simpl. by rewrite union_empty_l_L.
Qed.

Lemma wp_setup_single st L (Q : option (option nat * Z * option nat * Z) → sh → Prop) s :
  stuck → pipefds = [] → opened L s →
  (∀ i w o r s', opened (opt_set i ∪ opt_set o ∪ L) s' → Q (Some (i, w, o, r)) s') →
  (∀ s', opened L s' → Q None s') →
  wp0 (setup_single sys_ok pid_of status_of st) Q s.
Proof using HK.
  intros HR Hp Ho HQ HN. unfold setup_single, redirect_input, single_output, redirect_output. rewrite <-Hp.
  assert (Hout : ∀ i w s, opened (opt_set i ∪ L) s →
    wp0 (output ← (if has_output st then
           r ← setup_output_redirection sys_ok pid_of (output_files st) (append_flags st) pipefds;
           mret (Some r) else mret None);
         match output with
         | Some (None, _) => close_opt i ;; wait_opt status_of w ;; mret None
         | _ => mret (Some (i, w, output ≫= fst, default (-1)%Z (snd <$> output)))
         end) Q s).
  { clear s Ho. intros i w s Ho. apply wp_bind. destruct (has_output st).
    2: { apply wp_ret, wp_ret, HQ. simpl. by rewrite union_empty_r_L. }
    apply wp_bind, (wp_setup_output _ _ (opt_set i ∪ L)); [done|].
    intros o r s1 Ho1. apply wp_ret. destruct o as [o|].
    { apply wp_ret, HQ. simpl in *.
      by replace (opt_set i ∪ {[o]} ∪ L) with ({[o]} ∪ (opt_set i ∪ L)) by set_solver +. }
    simpl in Ho1. rewrite union_empty_l_L in Ho1. apply wp_bind, (wp_close_opt _ (opt_set i ∪ L)).
    - done.
    - intros fd ->. apply (op_free _ _ Ho). set_solver +.
    - intros s2 Ho2. apply wp_bind, (wp_waits _ _ _ _ HR (waits_wait_opt _) Ho2).
      intros _ s3 Ho3 _ _ _. apply wp_ret, HN. eapply opened_weaken; [done|set_solver +|].
      intros fd Hi. apply (op_free _ _ Ho). set_solver +Hi. }
  apply wp_bind. destruct (has_input st).
  2: { apply wp_ret. apply (Hout None). simpl. by rewrite union_empty_l_L. }
  apply wp_bind, (wp_setup_input _ L); [done|]. intros o pid s1 Ho1. apply wp_ret.
  destruct o as [o|]; [by apply (Hout (Some o))|]. apply wp_ret, HN. simpl in Ho1.
  by rewrite union_empty_l_L in Ho1.
Qed.

(** The descriptors of a stage. *)
Definition io_set (io : stage_io) : gset nat := opt_set (io_in io) ∪ opt_set (io_out io).

Fixpoint ios_set (ios : list stage_io) : gset nat :=
  match ios with [] => ∅ | io :: ios => io_set io ∪ ios_set ios end.

Lemma ios_set_app a b : ios_set (a ++ b) = ios_set a ∪ ios_set b.
Proof. induction a as [|x a IH]; simpl; [set_solver +|]. rewrite IH. set_solver +. Qed.

Lemma wp_prepare_stage st L (Q : stage_io * bool → sh → Prop) s :
  opened L s → (∀ io b s', opened (io_set io ∪ L) s' → Q (io, b) s') →
  wp0 (prepare_stage sys_ok pid_of resolve st pipefds) Q s.
Proof using HK.
  intros Ho HQ. unfold prepare_stage, redirect_input, redirect_output. apply wp_bind.
  assert (Hr : ∀ i w o r s, opened (opt_set i ∪ opt_set o ∪ L) s →
    wp0 match resolve (arg0 st) with
        | None => not_found st ;; mret ({| io_resolved := None; io_writer := w;
            io_reader := r; io_in := i; io_out := o |}, true)
        | Some path => mret ({| io_resolved := Some path; io_writer := w;
            io_reader := r; io_in := i; io_out := o |}, true)
        end Q s).
  { clear s Ho. intros i w o r s Ho. destruct (resolve _); [by apply wp_ret, HQ|].
    apply wp_bind, (wp_stays _ _ _ _ (stays_tell _) Ho). intros _ s1 Ho1 _ _ _.
    by apply wp_ret, HQ. }
  assert (Hout : ∀ i w s, opened (opt_set i ∪ L) s →
    wp0 (output ← (if has_output st then
           r ← setup_output_redirection sys_ok pid_of (output_files st) (append_flags st) pipefds;
           mret (Some r) else mret None);
         let io resolved := {| io_resolved := resolved; io_writer := w;
           io_reader := default (-1)%Z (snd <$> output); io_in := i; io_out := output ≫= fst |} in
         match output with
         | Some (None, _) => mret (io None, false)
         | _ => match resolve (arg0 st) with
                | None => not_found st ;; mret (io None, true)
                | Some path => mret (io (Some path), true)
                end
         end) Q s).
  { clear s Ho. intros i w s Ho. apply wp_bind. destruct (has_output st).
    2: { apply wp_ret, Hr. simpl. by rewrite union_empty_r_L. }
    apply wp_bind, (wp_setup_output _ _ (opt_set i ∪ L)); [done|].
    intros o r s1 Ho1. apply wp_ret.
    replace (opt_set o ∪ (opt_set i ∪ L)) with (opt_set i ∪ opt_set o ∪ L) in Ho1 by set_solver +.
    destruct o as [o|]; [by apply (Hr i _ (Some o))|]. by apply wp_ret, HQ. }
  destruct (has_input st).
  2: { apply wp_ret. apply (Hout None). simpl. by rewrite union_empty_l_L. }
  apply wp_bind, (wp_setup_input _ L); [done|]. intros o pid s1 Ho1. apply wp_ret.
  destruct o as [o|]; [by apply (Hout (Some o))|]. apply wp_ret, HQ. simpl in Ho1.
  unfold io_set. simpl. by replace (∅ ∪ ∅ ∪ L) with (∅ ∪ L) by set_solver +.
Qed.

Lemma wp_prepare stages ios L (Q : list stage_io * bool → sh → Prop) s :
  opened (ios_set ios ∪ L) s → (∀ ios b s', opened (ios_set ios ∪ L) s' → Q (ios, b) s') →
  wp0 (prepare sys_ok pid_of resolve stages pipefds ios) Q s.
Proof using HK.
  intros Ho HQ. revert ios s Ho. induction stages as [|st stages IH]; intros ios s Ho; cbn [prepare].
  { by apply wp_ret, HQ. }
  apply wp_bind, (wp_prepare_stage _ (ios_set ios ∪ L)); [done|]. intros io b s1 Ho1.
  assert (opened (ios_set (ios ++ [io]) ∪ L) s1).
  { rewrite ios_set_app. simpl.
    by replace (ios_set ios ∪ (io_set io ∪ ∅) ∪ L) with (io_set io ∪ (ios_set ios ∪ L))
      by set_solver +. }
  destruct b; [by apply IH|by apply wp_ret, HQ].
Qed.

(** The stages' children: [HKs] is what [K] has to accept. *)
Lemma wp_fork_stages i stages sync leader acc L (Q : list Z → sh → Prop) s :
  opened L s →
  (∀ k st io path pid, stages !! k = Some (st, io) → io_resolved io = Some path →
     K {| c_pid := pid; c_role := Command (i + k) path (exec_argv st) sync;
          c_fds := stage_table (i + k) (bool_decide (S k = length stages)) st io pipefds
                     (s_fds s) |}) →
  (∀ pids s', opened L s' → s_fds s' = s_fds s → Q pids s') →
  wp0 (fork_stages sys_ok pid_of i stages pipefds sync leader acc) Q s.
Proof.
  revert i leader acc s. induction stages as [|[st io] stages IH]; intros i leader acc s Ho HKs HQ;
    cbn [fork_stages].
  { by apply wp_ret, HQ. }
  assert (HKn : ∀ s', s_fds s' = s_fds s → ∀ k st' io' path pid, stages !! k = Some (st', io') →
    io_resolved io' = Some path →
    K {| c_pid := pid; c_role := Command (S i + k) path (exec_argv st') sync;
         c_fds := stage_table (S i + k) (bool_decide (S k = length stages)) st' io' pipefds
                    (s_fds s') |}).
  { intros s' -> k st' io' path pid Hk Hr. specialize (HKs (S k) st' io' path pid Hk Hr).
    rewrite Nat.add_succ_r in HKs. simpl in HKs |- *.
    by rewrite (bool_decide_ext (S k = length stages) (S (S k) = S (length stages))) by lia. }
  destruct (io_resolved io) as [path|] eqn:Hr; [|by apply IH; auto].
  apply wp_bind, (wp_fork _ _ L); [done| |].
  { intros pid. specialize (HKs 0 st io path pid eq_refl Hr). rewrite Nat.add_0_r in HKs.
    rewrite (bool_decide_ext (stages = []) (1 = length ((st, io) :: stages))); [done|].
    destruct stages; simpl; split; (done || lia). }
  intros pid s1 Ho1 E1. apply wp_bind.
  apply (wp_stays _ L); [|done|].
  { destruct (_ <? _)%Z; [apply stays_setpgid|apply stays_tell]. }
  intros _ s2 Ho2 E2 _ _. apply IH; [done|by apply HKn; rewrite E2|].
  intros pids s3 Ho3 E3. apply HQ; [done|]. by rewrite E3, E2.
Qed.
End Setup.

(** ** Closing everything *)
Lemma wp_close_ios ios L (Q : () → sh → Prop) s :
  opened L s → ios_set ios ⊆ L → (∀ s', opened (L ∖ ios_set ios) s' → Q () s') →
  wp0 (close_ios ios) Q s.
Proof.
  intros Ho Hi HQ. assert (Hf : ∀ fd, fd ∈ ios_set ios → base !! fd = None).
  { intros fd H. apply (op_free _ _ Ho). set_solver +H Hi. }
  clear Hi. revert L s Ho Hf HQ. induction ios as [|io ios IH]; intros L s Ho Hf HQ; simpl in *.
  { apply wp_ret, HQ. by rewrite difference_empty_L. }
  unfold io_set in *. apply wp_bind, (wp_close_opt _ L); [done| |].
  { intros fd E. apply Hf. rewrite E. set_solver +. }
  intros s1 Ho1. apply wp_bind, (wp_close_opt _ _ _ _ Ho1).
  { intros fd E. apply Hf. rewrite E. set_solver +. }
  intros s2 Ho2. apply (IH _ _ Ho2); [intros fd H; apply Hf; set_solver +H|].
  intros s3 Ho3. apply HQ. eapply opened_eq; [exact Ho3|set_solver +].
Qed.

Lemma wp_abort_ios ios L (Q : () → sh → Prop) s :
  stuck → opened L s → ios_set ios ⊆ L → (∀ s', opened (L ∖ ios_set ios) s' → Q () s') →
  wp0 (abort_ios status_of ios) Q s.
Proof.
  intros HR Ho Hi HQ. assert (Hf : ∀ fd, fd ∈ ios_set ios → base !! fd = None).
  { intros fd H. apply (op_free _ _ Ho). set_solver +H Hi. }
  clear Hi. revert L s Ho Hf HQ. induction ios as [|io ios IH]; intros L s Ho Hf HQ; simpl in *.
  { apply wp_ret, HQ. by rewrite difference_empty_L. }
  unfold io_set in *. apply wp_bind, (wp_close_opt _ L); [done| |].
  { intros fd E. apply Hf. rewrite E. set_solver +. }
  intros s1 Ho1. apply wp_bind, (wp_close_opt _ _ _ _ Ho1).
  { intros fd E. apply Hf. rewrite E. set_solver +. }
  intros s2 Ho2. apply wp_bind, (wp_waits _ _ _ _ HR (waits_wait_opt _) Ho2).
  intros _ s3 Ho3 _ _ _. apply wp_bind, (wp_waits _ _ _ _ HR (waits_wait_opt _) Ho3).
  intros _ s4 Ho4 _ _ _. apply (IH _ _ Ho4); [intros fd H; apply Hf; set_solver +H|].
  intros s5 Ho5. apply HQ. eapply opened_eq; [exact Ho5|set_solver +].
Qed.

Lemma wp_create_pipes n acc L (Q : option (list (nat * nat)) → sh → Prop) s :
  opened (list_to_set (pipe_ends acc) ∪ L) s →
  (∀ ps s', opened (list_to_set (pipe_ends ps) ∪ L) s' → Q (Some ps) s') →
  (∀ s', opened L s' → Q None s') →
  wp0 (create_pipes sys_ok n acc) Q s.
Proof.
  intros Ho HQ HN. revert acc s Ho. induction n as [|n IH]; intros acc s Ho; cbn [create_pipes].
  { by apply wp_ret, HQ. }
  apply wp_bind, (wp_pipe (list_to_set (pipe_ends acc) ∪ L)); [done|].
  intros [[r w]|] s1 Ho1; simpl in Ho1.
  - apply IH. unfold pipe_ends in *. rewrite bind_app, list_to_set_app_L. simpl.
    eapply opened_eq; [exact Ho1|set_solver +].
  - rewrite union_empty_l_L in Ho1. apply wp_bind, (wp_stays _ _ _ _ (stays_tell _) Ho1).
    intros _ s2 Ho2 _ _ _. apply wp_bind. eapply wp_close_list; [exact Ho2| |].
    { eapply opened_free_list; [exact Ho2|]. set_solver +. }
    intros s3 Ho3. apply wp_ret, HN. eapply opened_weaken; [done|set_solver +|].
    intros fd Hi. apply (op_free _ _ Ho). set_solver +Hi.
Qed.
End Calls.
End Opened.

(** ** The shell's descriptors after a command *)
Section Restored.
Context (sys_ok : nat → bool) (pid_of : nat → Z) (status_of : Z → option wait_status).
Context (resolve : cstr → option cstr) (s0 : sh).

Abbreviation base := (s_fds s0).
Abbreviation opened0 := (opened base (s_npipes s0) (s_kids s0) (λ _, True)).
Abbreviation hung := (λ (_ : ()) s, blocked status_of s).
Abbreviation restored m := (∀ s, opened0 ∅ s → wp m (λ _, opened0 ∅) hung s).

Lemma hung_stuck (s : sh) :
  (∃ kids, s_kids s = s_kids s0 ++ kids ∧ Forall (λ _, True) kids) →
  blocked status_of s → hung () s.
Proof. done. Qed.

Lemma any_child : ∀ pipefds pid r x L s, is_helper r → opened0 L s → x ∈ L →
  (λ _ : child, True) {| c_pid := pid; c_role := r;
    c_fds := close_all (x :: pipe_ends pipefds) (s_fds s) |}.
Proof. done. Qed.

Lemma opened0_start : opened0 ∅ s0.
Proof. split; [done|set_solver|set_solver|done|]. exists []. by rewrite app_nil_r. Qed.

Lemma opened0_eq s : opened0 ∅ s → s_fds s = base.
Proof. intros Ho. apply map_eq. intros fd. apply (op_eq _ _ _ _ _ _ Ho). set_solver. Qed.

Lemma opened0_free L s fd : opened0 L s → fd ∈ L → base !! fd = None.
Proof. intros Ho. apply Ho. Qed.

Lemma wp_close_two {A} i o L (k : M sh () A) (Q : A → sh → Prop) s :
  opened0 (opt_set i ∪ opt_set o ∪ L) s →
  (∀ s', opened0 L s' → wp k Q hung s') →
  wp (close_opt i ;; close_opt o ;; k) Q hung s.
Proof.
  intros Ho HQ. apply wp_bind. eapply wp_close_opt; [exact Ho| |].
  { intros fd ->. apply (opened0_free _ _ _ Ho). set_solver +. }
  intros s1 Ho1. apply wp_bind. eapply wp_close_opt; [exact Ho1| |].
  { intros fd ->. apply (opened0_free _ _ _ Ho). set_solver +. }
  intros s2 Ho2. apply HQ. eapply opened_weaken; [exact Ho2|set_solver +|].
  intros fd Hi. apply (opened0_free _ _ _ Ho). set_solver +Hi.
Qed.

Lemma ends_opt sync : ends sync = opt_set (fst <$> sync) ∪ opt_set (snd <$> sync).
Proof. destruct sync as [[r w]|]; simpl; set_solver +. Qed.

Ltac stay := eapply wp_bind, wp_stays;
  [ first [ apply stays_tell | apply stays_on_jobs | apply stays_gets | apply stays_setpgid
          | apply stays_register_helpers | apply stays_register_stages
          | case_if; first [apply stays_on_jobs | apply stays_ret] ]
  | eassumption | intros ? ? ? _ _ _ ].

Ltac wait := eapply wp_bind, wp_waits;
  [ apply hung_stuck
  | first [ apply waits_wait_opt | apply waits_wait_stages | apply waits_waitpid ]
  | eassumption | intros ? ? ? _ _ _ ].

Lemma restored_with_redirection st :
  restored (execute_with_redirection sys_ok pid_of status_of resolve st).
Proof.
  intros s Ho. unfold execute_with_redirection. destruct (resolve _).
  2: { stay. by apply wp_ret. }
  apply wp_bind, (wp_setup_single _ _ _ _ _ _ _ [] (any_child []) _ ∅ _ _ hung_stuck); [done|done| |].
  2: { intros s1 Ho1. by apply wp_ret. }
  intros i w o r s1 Ho1. apply wp_bind. eapply wp_fork; [exact Ho1|done|].
  intros pid s2 Ho2 _. destruct (0 <? pid)%Z.
  - do 5 stay. eapply wp_close_two; [eassumption|]. intros s3 Ho3.
    wait. stay. do 2 wait. destruct a4; repeat stay; by apply wp_ret.
  - stay. eapply wp_close_two; [eassumption|]. intros s3 Ho3.
    do 2 wait. by apply wp_ret.
Qed.

Lemma wp_bg_command st sync L (Q : option Z → sh → Prop) s :
  opened0 L s → (∀ o s', opened0 L s' → Q o s') →
  wp (execute_with_redirection_bg sys_ok pid_of status_of resolve st sync) Q hung s.
Proof.
  intros Ho HQ. unfold execute_with_redirection_bg. destruct (resolve _).
  2: { stay. by apply wp_ret, HQ. }
  apply wp_bind, (wp_setup_single _ _ _ _ _ _ _ [] (any_child []) _ L _ _ hung_stuck); [done|done| |].
  2: { intros s2 Ho2. by apply wp_ret, HQ. }
  intros i w o r s2 Ho2. unfold fork_background. apply wp_bind. eapply wp_fork; [exact Ho2|done|].
  intros pid s3 Ho3 _. destruct (0 <? pid)%Z.
  - do 2 stay. eapply wp_close_two; [eassumption|]. intros s4 Ho4. by apply wp_ret, HQ.
  - stay. eapply wp_close_two; [eassumption|]. intros s4 Ho4. do 2 wait. by apply wp_ret, HQ.
Qed.

Lemma restored_bg_one st :
  restored (execute_background_one sys_ok pid_of status_of resolve st).
Proof.
  intros s Ho. unfold execute_background_one. eapply wp_bind, wp_pipe; [exact Ho|].
  intros sync s1 Ho1. rewrite union_empty_r_L in Ho1.
  eapply wp_bind, wp_bg_command; [exact Ho1|]. intros rc s2 Ho2. rewrite ends_opt in Ho2.
  destruct rc as [pid|].
  2: { eapply wp_close_two; [by rewrite union_empty_r_L|]. intros s3 Ho3. by apply wp_ret. }
  apply wp_bind. eapply wp_close_opt; [exact Ho2| |].
  { intros fd E. apply (opened0_free _ _ _ Ho2). rewrite E. set_solver +. }
  intros s3 Ho3. do 5 stay. apply wp_bind. eapply wp_close_opt; [eassumption| |].
  { intros fd E. apply (opened0_free _ _ _ Ho2). rewrite E. set_solver +. }
  intros s4 Ho4. apply wp_ret. eapply opened_eq; [exact Ho4|set_solver +].
Qed.

(** The descriptors of an opened pipeline. *)
Definition opened_set (o : option (list (nat * nat) * list stage_io)) : gset nat :=
  match o with
  | Some (pipefds, ios) => list_to_set (pipe_ends pipefds) ∪ ios_set ios
  | None => ∅
  end.

Lemma wp_open_pipeline stages (Q : option (list (nat * nat) * list stage_io) → sh → Prop) s :
  opened0 ∅ s → (∀ o s', opened0 (opened_set o) s' → Q o s') →
  wp (open_pipeline sys_ok pid_of status_of resolve stages) Q hung s.
Proof.
  intros Ho HQ. unfold open_pipeline.
  eapply wp_bind, (wp_create_pipes _ _ _ _ _ _ _ ∅);
    [by eapply opened_eq; [exact Ho|set_solver +]| |].
  2: { intros s1 Ho1. by apply wp_ret, HQ. }
  intros pipefds s1 Ho1. apply wp_bind.
  eapply (wp_prepare _ _ _ _ _ _ _ pipefds (any_child pipefds) _ []).
  { eapply opened_eq; [exact Ho1|]. simpl. by rewrite union_empty_l_L. }
  intros ios b s2 Ho2. destruct b.
  { apply wp_ret, HQ. simpl. eapply opened_eq; [exact Ho2|set_solver +]. }
  apply wp_bind. eapply wp_abort_ios; [apply hung_stuck|exact Ho2|set_solver +|]. intros s3 Ho3.
  apply wp_bind. unfold close_all_pipes. eapply wp_close_list; [exact Ho3| |].
  { eapply opened_free_list; [exact Ho1|set_solver +]. }
  intros s4 Ho4. apply wp_ret, HQ. eapply opened_eq; [exact Ho4|set_solver +].
Qed.

(** Both executors close the pipes and the redirections together. *)
Lemma wp_close_pipeline {A} pipefds ios L (k : M sh () A) (Q : A → sh → Prop) s :
  opened0 (list_to_set (pipe_ends pipefds) ∪ ios_set ios ∪ L) s →
  (∀ s', opened0 L s' → wp k Q hung s') →
  wp (close_all_pipes pipefds ;; close_ios ios ;; k) Q hung s.
Proof.
  intros Ho HQ. apply wp_bind. unfold close_all_pipes. eapply wp_close_list; [exact Ho| |].
  { eapply opened_free_list; [exact Ho|set_solver +]. }
  intros s1 Ho1. assert (Hf : ∀ fd, fd ∈ ios_set ios ∪ L → base !! fd = None).
  { intros fd Hi. apply (opened0_free _ _ _ Ho). set_solver +Hi. }
  apply wp_bind. eapply (wp_close_ios _ _ _ _ _ (ios_set ios ∪ L)).
  - eapply opened_weaken; [exact Ho1|set_solver +|done].
  - set_solver +.
  - intros s2 Ho2. apply HQ. eapply opened_weaken; [exact Ho2|set_solver +|].
    intros fd Hi. apply Hf. set_solver +Hi.
Qed.

Lemma restored_pipeline stages :
  restored (execute_pipeline sys_ok pid_of status_of resolve stages).
Proof.
  intros s Ho. destruct stages as [|st [|st2 stages]]; [by apply wp_ret|by apply restored_with_redirection|].
  unfold execute_pipeline. apply wp_bind, wp_open_pipeline; [done|].
  intros [[pipefds ios]|] s1 Ho1; [|by apply wp_ret].
  eapply wp_bind, wp_fork_stages; [exact Ho1|done|]. intros child_pid s2 Ho2 _.
  set (leader := default (-1)%Z (head child_pid)). apply wp_bind.
  eapply wp_stays; [|exact Ho2|].
  { case_if; [apply stays_bind; [apply stays_on_jobs|]; intros _; apply stays_register_stages|apply stays_ret]. }
  intros _ s3 Ho3 _ _ _. stay. eapply (wp_close_pipeline _ _ ∅).
  { by rewrite union_empty_r_L. }
  intros s4 Ho4. wait. stay. destruct a0; repeat stay; by apply wp_ret.
Qed.

Lemma restored_background stages :
  restored (execute_background sys_ok pid_of status_of resolve stages).
Proof.
  intros s Ho. destruct stages as [|st [|st2 stages]]; [by apply wp_ret|by apply restored_bg_one|].
  unfold execute_background. apply wp_bind, wp_open_pipeline; [done|].
  intros [[pipefds ios]|] s1 Ho1; [|by apply wp_ret].
  eapply wp_bind, wp_pipe; [exact Ho1|]. intros sync s2 Ho2.
  eapply wp_bind, wp_fork_stages; [exact Ho2|done|]. intros child_pid s3 Ho3 _.
  set (leader := default (-1)%Z (head child_pid)).
  eapply (wp_close_pipeline _ _ (ends sync)).
  { eapply opened_eq; [exact Ho3|]. simpl. set_solver +. }
  intros s4 Ho4. rewrite ends_opt in Ho4. apply wp_bind. eapply wp_close_opt; [exact Ho4| |].
  { intros fd E. apply (opened0_free _ _ _ Ho4). rewrite E. set_solver +. }
  intros s5 Ho5.
  assert (Hend : ∀ (k : M sh () Z) s, opened0 ((opt_set (fst <$> sync) ∪ opt_set (snd <$> sync))
      ∖ opt_set (fst <$> sync)) s →
    (∀ s', opened0 ∅ s' → wp k (λ _, opened0 ∅) hung s') →
    wp (close_opt (snd <$> sync) ;; k) (λ _, opened0 ∅) hung s).
  { intros k s' Ho' Hk. apply wp_bind. eapply wp_close_opt; [exact Ho'| |].
    { intros fd E. apply (opened0_free _ _ _ Ho4). rewrite E. set_solver +. }
    intros s6 Ho6. apply Hk. eapply opened_eq; [exact Ho6|set_solver +]. }
  destruct (0 <? leader)%Z; [do 5 stay|]; (eapply Hend; [eassumption|]);
    intros s6 Ho6; by apply wp_ret.
Qed.
End Restored.

(** C3: whatever calls fail, whatever is found and whatever becomes of the
    processes, every executor either returns with the shell's descriptor table
    as it was (no descriptor is leaked and none of the shell's own is closed),
    or is caught for ever in a [waitpid]: of a process that neither ends nor is
    stopped, or, without WUNTRACED, of a redirection helper that is stopped
    (redirect.c:278, 462).  So it returns when every process that is waited for
    ends, or is stopped and waited for with WUNTRACED. *)
Theorem executors_restore_descriptors (sys_ok : nat → bool) (pid_of : nat → Z)
    (status_of : Z → option wait_status) (resolve : cstr → option cstr)
    (stages : list command_stage) (s : sh) :
  let restores (m : M sh () Z) :=
    match m s with
    | (Ret rc, s') => s_fds s' = s_fds s
    | (Err _, s') => ∃ pid untraced tr, s_trace s' = tr ++ [Waitpid pid untraced] ∧
        (status_of pid = None ∨ untraced = false ∧ ∃ sig, status_of pid = Some (Stopped sig))
    | (NoFuel, _) => False
    end in
  restores (execute_pipeline sys_ok pid_of status_of resolve stages) ∧
  restores (execute_background sys_ok pid_of status_of resolve stages).
Proof.
  assert (Hend : ∀ m : M sh () Z,
    wp m (λ _, opened (s_fds s) (s_npipes s) (s_kids s) (λ _, True) ∅)
      (λ _ s', blocked status_of s') s →
    match m s with
    | (Ret rc, s') => s_fds s' = s_fds s
    | (Err _, s') => ∃ pid untraced tr, s_trace s' = tr ++ [Waitpid pid untraced] ∧
        (status_of pid = None ∨ untraced = false ∧ ∃ sig, status_of pid = Some (Stopped sig))
    | (NoFuel, _) => False
    end).
  { intros m. unfold wp. destruct (m s) as [[rc|e|] s']; [by apply opened0_eq| |done].
    intros (pid & untraced & tr & E & Hr). exists pid, untraced, tr. split; [done|].
    unfold reported in Hr. destruct (status_of pid) as [[]|]; [done|done| |by left].
    right. destruct untraced; [done|]. eauto. }
  split; apply Hend; [apply restored_pipeline|apply restored_background]; apply opened0_start.
Qed.

(** [cat > f], stopped together with its helper: the shell never comes back.
    When only the command stops, it does. *)
Definition cat_to_file : command_stage :=
  {| args := [lit "cat"]; input_files := []; output_files := [lit "f"]; append_flags := [false] |}.

Definition stop_example (helper : wait_status) (pid : Z) : option wait_status :=
  if (pid =? 100)%Z then Some helper else Some (Stopped 20).

Definition example_shell : sh := {|
  s_fds := <[0 := Open 0]> (<[1 := Open 1]> (<[2 := Open 2]> ∅)); s_npipes := 0; s_calls := 0;
  s_kids := []; s_jobs := init_state; s_trace := [] |}.

Lemma stopped_helper_hangs_shell :
  let run helper := execute_pipeline (λ _, true) (λ k, 100 + Z.of_nat k)%Z
    (stop_example helper) Some [cat_to_file] example_shell in
  fst (run (Stopped 20)) = Err () ∧
  last (s_trace (snd (run (Stopped 20)))) = Some (Waitpid 100 false) ∧
  fst (run (Exited 0)) = Ret 0%Z.
Proof. vm_compute. done. Qed.
