(* ===== verification/Stages.v ===== *)
(** * The pipes between the stages of a pipeline (redirect.c)

    Which process holds which end of a pipeline's pipes and of the pipes of its
    redirections, for the foreground and the background executor, on the
    definitions of [Redirect]. *)

From stdpp Require Import gmap.
From S2P Require Import Prelude Clib Lexer Parser Shell Jobs Redirect Wiring.

Local Open Scope nat_scope.
#[local] Set Warnings "-clear-no-such-hyp".

(** ** Exact tables *)
Lemma wp_conseq {S E A} (m : M S E A) (P1 P2 Q : A → S → Prop) (R : E → S → Prop) s :
  wp m P1 R s → wp m P2 R s → (∀ a s', P1 a s' → P2 a s' → Q a s') → wp m Q R s.
Proof. unfold wp. destruct (m s) as [[]]; auto. Qed.

Lemma close_all_lookup l (t : table) fd :
  close_all l t !! fd = if bool_decide (fd ∈ l) then None else t !! fd.
Proof.
  unfold close_all. revert t. induction l as [|x l IH]; intros t; cbn [foldl]; [done|]. rewrite IH.
  destruct (decide (fd = x)) as [->|Hne].
  - rewrite lookup_delete_eq. rewrite (bool_decide_eq_true_2 (x ∈ x :: l)) by constructor.
    by case_if.
  - rewrite lookup_delete_ne by done.
    rewrite (bool_decide_ext (fd ∈ x :: l) (fd ∈ l)); [done|]. set_solver.
Qed.

(** [m] leaves the processes alone and returns, or waits for ever. *)
Definition calm (status_of : Z → option wait_status) {A} (m : M sh () A) : Prop :=
  ∀ s, match m s with
  | (Ret _, s') => s_kids s' = s_kids s
  | (Err _, s') => s_kids s' = s_kids s ∧ blocked status_of s'
  | (NoFuel, _) => False
  end.

Section Calm.
Context {status_of : Z → option wait_status}.

Lemma waits_calm {A} (m : M sh () A) : waits status_of m → calm status_of m.
Proof. intros H s. specialize (H s). by destruct (m s) as [[]]; [destruct H as (_ & _ & ?)|..]. Qed.

Lemma stays_calm {A} (m : M sh () A) : stays m → calm status_of m.
Proof. intros H. by apply waits_calm, stays_waits. Qed.

Lemma calm_bind {A B} (m : M sh () A) (k : A → M sh () B) :
  calm status_of m → (∀ a, calm status_of (k a)) → calm status_of (mbind k m).
Proof.
  intros Hm Hk s. specialize (Hm s). unfold mbind, M_bind. destruct (m s) as [[a|e|] s1]; [|done..].
  specialize (Hk a s1). destruct (k a s1) as [[b|e|] s2]; rewrite <-?Hm; done.
Qed.

Lemma calm_close fd : calm status_of (close fd).
Proof. by intros s. Qed.

Lemma calm_close_list l : calm status_of (close_list l).
Proof.
  induction l as [|fd l IH]; cbn [close_list]; [apply stays_calm, stays_ret|].
  apply calm_bind; [apply calm_close|done].
Qed.

Lemma calm_close_opt o : calm status_of (close_opt o).
Proof. destruct o; [apply calm_close|apply stays_calm, stays_ret]. Qed.

Lemma calm_close_ios ios : calm status_of (close_ios ios).
Proof.
  induction ios as [|io ios IH]; cbn [close_ios]; [apply stays_calm, stays_ret|].
  apply calm_bind; [apply calm_close_opt|]. intros _.
  apply calm_bind; [apply calm_close_opt|done].
Qed.

Lemma calm_abort_ios ios : calm status_of (abort_ios status_of ios).
Proof.
  induction ios as [|io ios IH]; cbn [abort_ios]; [apply stays_calm, stays_ret|].
  repeat (apply calm_bind; [apply calm_close_opt|]; intros _).
  repeat (apply calm_bind; [apply waits_calm, waits_wait_opt|]; intros _). done.
Qed.

Lemma wp_calm {A} (m : M sh () A) (Q : A → sh → Prop) (R : () → sh → Prop) s :
  calm status_of m → (∀ a s', s_kids s' = s_kids s → Q a s') →
  (∀ s', s_kids s' = s_kids s → blocked status_of s' → R () s') → wp m Q R s.
Proof.
  intros Hm HQ HR. specialize (Hm s). unfold wp.
  destruct (m s) as [[a|[]|] s']; [by apply HQ|by apply HR; destruct Hm|done].
Qed.
End Calm.

(** ** Redirections *)

(** The helper [h] copies the files to the pipe [p], or the pipe to the files. *)
Definition copies_in (files : list cstr) (p : nat) (h : child) : Prop :=
  match c_role h with
  | InHelper fds to => c_fds h !! to = Some (PipeW p) ∧
      Forall2 (λ fd f, c_fds h !! fd = Some (InFile f)) fds files
  | _ => False
  end.

Definition copies_out (files : list cstr) (flags : list bool) (p : nat) (h : child) : Prop :=
  match c_role h with
  | OutHelper from fds => c_fds h !! from = Some (PipeR p) ∧
      Forall2 (λ fd f, c_fds h !! fd = Some f) fds (zip_with OutFile files flags)
  | _ => False
  end.

(** [fds] were opened since [s0] on [ds], and nothing else has changed. *)
Record opened_list (s0 s : sh) (fds : list nat) (ds : list desc) : Prop := {
  ol_at : Forall2 (λ fd d, s_fds s !! fd = Some d) fds ds;
  ol_new : Forall (λ fd, s_fds s0 !! fd = None) fds;
  ol_rest fd : fd ∉ fds → s_fds s !! fd = s_fds s0 !! fd;
  ol_np : s_npipes s = s_npipes s0;
  ol_kids : s_kids s = s_kids s0;
}.

Lemma opened_list_close s0 s fds ds :
  opened_list s0 s fds ds → close_all fds (s_fds s) = s_fds s0.
Proof.
  intros [_ Hn Hr _ _]. apply map_eq. intros fd. rewrite close_all_lookup.
  case_bool_decide as Hi; [|by apply Hr]. rewrite Forall_forall in Hn. by rewrite Hn.
Qed.

(** What a helper keeps of the files when it closes [l]. *)
Lemma opened_list_kept (t0 t : table) l fds ds :
  Forall2 (λ fd d, t !! fd = Some d) fds ds → Forall (λ fd, t0 !! fd = None) fds →
  (∀ fd, fd ∈ l → is_Some (t0 !! fd)) →
  Forall2 (λ fd d, close_all l t !! fd = Some d) fds ds.
Proof.
  intros Ha Hn Hl. induction Ha as [|fd d fds ds Hd _ IH]; [constructor|].
  apply Forall_cons in Hn as [Hfd Hn]. constructor; [|by apply IH].
  rewrite close_all_lookup, bool_decide_eq_false_2; [done|].
  intros Hi%Hl. rewrite Hfd in Hi. by destruct Hi.
Qed.

Section Exact.
Context (sys_ok : nat → bool) (pid_of : nat → Z) {R : () → sh → Prop}.

Abbreviation wp0 m Q := (wp m Q R).

Lemma wp_pipe_exact (Q : option (nat * nat) → sh → Prop) s :
  (∀ r w s', s_fds s !! r = None → s_fds s !! w = None → r ≠ w →
     s_fds s' = <[w := PipeW (s_npipes s)]> (<[r := PipeR (s_npipes s)]> (s_fds s)) →
     s_npipes s' = S (s_npipes s) → s_kids s' = s_kids s → Q (Some (r, w)) s') →
  (∀ s', s_fds s' = s_fds s → s_npipes s' = s_npipes s → s_kids s' = s_kids s →
     (∃ m, sys_ok m = false) → Q None s') →
  wp0 (pipe sys_ok) Q s.
Proof.
  intros HQ HN. unfold pipe, sys_call, new_pipe, alloc, wp. munfold.
  destruct (sys_ok (s_calls s)) eqn:Eok; [|by apply HN; eauto]. simpl.
  set (r := fresh_fd (s_fds s)). set (t := <[r := PipeR (s_npipes s)]> (s_fds s)).
  pose proof (fresh_fd_free t) as Hw. pose proof (fresh_fd_free (s_fds s)) as Hr. fold r in Hr.
  generalize (fresh_fd t) Hw. subst t. intros w Hw'.
  assert (r ≠ w) by (intros ->; by rewrite lookup_insert_eq in Hw').
  rewrite lookup_insert_ne in Hw' by done. by apply HQ.
Qed.

Lemma wp_fork_exact r f (Q : Z → sh → Prop) s :
  (∀ pid s', s_fds s' = s_fds s → s_npipes s' = s_npipes s →
     s_kids s' = s_kids s ++ [{| c_pid := pid; c_role := r; c_fds := f (s_fds s) |}] → Q pid s') →
  (∀ s', s_fds s' = s_fds s → s_npipes s' = s_npipes s → s_kids s' = s_kids s →
     (∃ m, sys_ok m = false) → Q (-1)%Z s') →
  wp0 (fork sys_ok pid_of r f) Q s.
Proof.
  intros HQ HN. unfold fork, sys_call, wp. munfold.
  destruct (sys_ok (s_calls s)) eqn:Eok; [by apply HQ|by apply HN; eauto].
Qed.

Lemma wp_close_list_exact l (Q : () → sh → Prop) s :
  (∀ s', s_fds s' = close_all l (s_fds s) → s_npipes s' = s_npipes s → s_kids s' = s_kids s →
     Q () s') →
  wp0 (close_list l) Q s.
Proof.
  revert s. induction l as [|fd l IH]; intros s HQ; cbn [close_list]; [by apply wp_ret, HQ|].
  apply wp_bind, wp_modify, IH. intros s' E En Ek. apply HQ; [by rewrite E|done..].
Qed.

Lemma wp_open_fd_exact d (Q : option nat → sh → Prop) s :
  (∀ fd s', s_fds s !! fd = None → s_fds s' = <[fd := d]> (s_fds s) →
     s_npipes s' = s_npipes s → s_kids s' = s_kids s → Q (Some fd) s') →
  (∀ s', s_fds s' = s_fds s → s_npipes s' = s_npipes s → s_kids s' = s_kids s →
     (∃ m, sys_ok m = false) → Q None s') →
  wp0 (open_fd sys_ok d) Q s.
Proof.
  intros HQ HN. unfold open_fd, sys_call, alloc, wp. munfold.
  destruct (sys_ok (s_calls s)) eqn:Eok; [|by apply HN; eauto]. apply HQ; [apply fresh_fd_free|done..].
Qed.

Lemma wp_open_files_from s0 ds msg acc dacc (Q : option (list nat) → sh → Prop) s :
  opened_list s0 s acc dacc →
  (∀ fds s', opened_list s0 s' fds (dacc ++ ds) → Q (Some fds) s') →
  (∀ s', opened_list s0 s' [] [] → (∃ m, sys_ok m = false) → Q None s') →
  wp0 (open_files sys_ok ds msg acc) Q s.
Proof.
  intros Ho HQ HN. revert acc dacc s Ho HQ.
  induction ds as [|d ds IH]; intros acc dacc s Ho HQ; cbn [open_files].
  { apply wp_ret, HQ. by rewrite app_nil_r. }
  apply wp_bind, wp_open_fd_exact.
  - intros fd s1 Hf E En Ek.
    assert (Hnot : fd ∉ acc).
    { intros Hi. apply list_elem_of_lookup in Hi as [k Hk].
      destruct (Forall2_lookup_l _ _ _ _ _ (ol_at _ _ _ _ Ho) Hk) as (d' & _ & Hd'). congruence. }
    apply (IH _ (dacc ++ [d])); [|by intros fds s'; rewrite <-app_assoc; apply HQ].
    destruct Ho as [Ha Hn Hr Hnp Hk]. split; [| | |congruence..].
    + apply Forall2_app.
      * rewrite E. clear -Ha Hf. induction Ha; constructor; [|done].
        rewrite lookup_insert_ne; [done|]. intros ->. congruence.
      * repeat constructor. by rewrite E, lookup_insert_eq.
    + apply Forall_app. split; [done|]. repeat constructor. by rewrite <-Hr.
    + intros fd' Hn'. rewrite E, lookup_insert_ne; [apply Hr|]; set_solver.
  - intros s1 E En Ek Hm. apply wp_bind, wp_modify, wp_bind, wp_close_list_exact.
    intros s2 E2 En2 Ek2. simpl in E2, En2, Ek2. apply wp_ret, HN; [|done].
    pose proof (opened_list_close _ _ _ _ Ho) as Hc. destruct Ho as [_ _ _ Hnp Hk].
    split; try constructor; [|congruence..]. intros fd _. by rewrite E2, E, Hc.
Qed.

Lemma wp_open_files_exact ds msg (Q : option (list nat) → sh → Prop) s :
  (∀ fds s', opened_list s s' fds ds → Q (Some fds) s') →
  (∀ s', opened_list s s' [] [] → (∃ m, sys_ok m = false) → Q None s') →
  wp0 (open_files sys_ok ds msg []) Q s.
Proof. intros HQ HN. apply (wp_open_files_from s _ _ _ []); [|done..]. by repeat constructor. Qed.

(** The processes forked since the [k0]-th include one with [P], unless a
    system call has failed. *)
Context (k0 : nat).

Definition helped (P : child → Prop) (kids : list child) : Prop :=
  (∃ m, sys_ok m = false) ∨ ∃ j h, k0 ≤ j ∧ kids !! j = Some h ∧ P h.

Lemma helped_last (P : child → Prop) kids h : k0 ≤ length kids → P h → helped P (kids ++ [h]).
Proof.
  intros Hk HP. right. exists (length kids), h. split; [done|]. split; [|done].
  by rewrite lookup_app_r, Nat.sub_diag.
Qed.

Lemma helped_mono P kids kids' : kids `prefix_of` kids' → helped P kids → helped P kids'.
Proof.
  intros Hp [Hm|(j & h & Hj & Hl & HP)]; [by left|right]. exists j, h. split; [done|].
  split; [by eapply prefix_lookup_Some|done].
Qed.

(** A redirection that is set up leaves its end of the helper's pipe in a free
    descriptor and changes no other; [P] holds of the helper and the pipe. *)
Definition one_end (e : nat → desc) (P : nat → child → Prop) (s : sh) (o : option nat) (s' : sh)
    : Prop :=
  s_npipes s ≤ s_npipes s' ∧ s_kids s `prefix_of` s_kids s' ∧
  match o with
  | Some fd => s_fds s !! fd = None ∧ ∃ p, s_npipes s ≤ p < s_npipes s' ∧
      s_fds s' = <[fd := e p]> (s_fds s) ∧ helped (P p) (s_kids s')
  | None => s_fds s' = s_fds s ∧ ∃ m, sys_ok m = false
  end.

Section Setup.
Context (pipefds : list (nat * nat)) (s : sh) (Hk0 : k0 ≤ length (s_kids s)).
Context (Hpf : ∀ fd, fd ∈ pipe_ends pipefds → is_Some (s_fds s !! fd)).

Lemma free_not_end fd : s_fds s !! fd = None → fd ∉ pipe_ends pipefds.
Proof using Hpf. intros Hn Hi%Hpf. rewrite Hn in Hi. by destruct Hi. Qed.

Lemma wp_input_exact files (Q : option nat * Z → sh → Prop) :
  (∀ o pid s', one_end PipeR (copies_in files) s o s' → Q (o, pid) s') →
  wp0 (setup_input_redirection sys_ok pid_of files pipefds) Q s.
Proof using Hk0 Hpf.
  intros HQ. unfold setup_input_redirection. apply wp_bind, wp_pipe_exact.
  2: { intros s1 E En Ek Hm. apply wp_bind, wp_modify, wp_ret, HQ.
       split; [simpl; lia|]. by rewrite <-Ek. }
  intros r w s1 Hr Hw Hrw E1 En1 Ek1.
  assert (Hback : delete w (s_fds s1) = <[r := PipeR (s_npipes s)]> (s_fds s)).
  { rewrite E1. apply delete_insert_id. by rewrite lookup_insert_ne. }
  apply wp_bind, wp_open_files_exact.
  2: { intros s2 Ho Hm. pose proof (opened_list_close _ _ _ _ Ho) as Hc. simpl in Hc.
       destruct Ho as [_ _ _ Hnp Hk].
       apply wp_bind, wp_modify, wp_bind, wp_modify, wp_ret, HQ.
       split; [simpl; lia|]. simpl. split; [by rewrite Hk, Ek1|]. split; [|done].
       rewrite Hc, delete_delete, Hback. by apply delete_insert_id. }
  intros fds s2 Ho. pose proof (opened_list_close _ _ _ _ Ho) as Hc.
  destruct Ho as [Ha Hn Hrest Hnp Hk].
  assert (Hfw : w ∉ fds).
  { rewrite Forall_forall in Hn. intros Hi%Hn. by rewrite E1, lookup_insert_eq in Hi. }
  assert (Hend : ∀ pid s3, s_fds s3 = s_fds s2 → s_npipes s3 = s_npipes s2 →
    s_kids s `prefix_of` s_kids s3 → helped (copies_in files (s_npipes s)) (s_kids s3) →
    wp0 (close_list fds ;; close w ;; mret (Some r, pid)) Q s3).
  { intros pid s3 E3 En3 Hp Hh. apply wp_bind, wp_close_list_exact. intros s4 E4 En4 Ek4.
    apply wp_bind, wp_modify, wp_ret, HQ. split; [simpl; lia|]. simpl. rewrite Ek4.
    split; [done|]. split; [done|]. exists (s_npipes s). split; [lia|].
    by rewrite E4, E3, Hc, Hback. }
  apply wp_bind, wp_fork_exact.
  - intros pid s3 E3 En3 Ek3. apply Hend; [done|done|rewrite Ek3, Hk, Ek1; by eexists|].
    rewrite Ek3, Hk, Ek1. apply helped_last; [done|]. unfold copies_in. cbn [c_role c_fds]. split.
    + rewrite close_all_lookup, bool_decide_eq_false_2.
      * by rewrite Hrest, E1, lookup_insert_eq.
      * apply not_elem_of_cons. split; [done|]. by apply free_not_end.
    + apply Forall2_fmap_r in Ha. eapply Forall2_fmap_r in Ha.
      eapply (opened_list_kept (s_fds s1)) in Hn; [|exact Ha|]; [by apply Forall2_fmap_r in Hn|].
      intros fd [->|Hi]%elem_of_cons.
      * rewrite E1, lookup_insert_ne, lookup_insert_eq by done. by eexists.
      * destruct (Hpf fd Hi) as [d Hd]. exists d. rewrite E1, !lookup_insert_ne; congruence.
  - intros s3 E3 En3 Ek3 Hm. apply Hend; [done|done|by rewrite Ek3, Hk, Ek1|by left].
Qed.

Lemma wp_output_exact files flags (Q : option nat * Z → sh → Prop) :
  (∀ o pid s', one_end PipeW (copies_out files flags) s o s' → Q (o, pid) s') →
  wp0 (setup_output_redirection sys_ok pid_of files flags pipefds) Q s.
Proof using Hk0 Hpf.
  intros HQ. unfold setup_output_redirection, open_output_files.
  apply wp_bind, wp_open_files_exact.
  2: { intros s1 Ho Hm. pose proof (opened_list_close _ _ _ _ Ho) as Hc. simpl in Hc.
       destruct Ho as [_ _ _ Hnp Hk].
       apply wp_ret, HQ. split; [lia|]. by rewrite Hk, Hc. }
  intros fds s1 Ho. pose proof (opened_list_close _ _ _ _ Ho) as Hc.
  destruct Ho as [Ha Hn Hrest Hnp Hk].
  assert (Hold : ∀ fd, s_fds s1 !! fd = None → s_fds s !! fd = None ∧ fd ∉ fds).
  { intros fd Hf. assert (fd ∉ fds) as Hi.
    { intros Hi. apply list_elem_of_lookup in Hi as [k Hk'].
      destruct (Forall2_lookup_l _ _ _ _ _ Ha Hk') as (d' & _ & Hd'). congruence. }
    split; [by rewrite <-Hrest|done]. }
  apply wp_bind, wp_pipe_exact.
  2: { intros s2 E2 En2 Ek2 Hm. apply wp_bind, wp_modify, wp_bind, wp_close_list_exact.
       intros s3 E3 En3 Ek3. simpl in *. apply wp_ret, HQ. split; [lia|].
       by rewrite Ek3, Ek2, Hk, E3, E2, Hc. }
  intros r w s2 Hr Hw Hrw E2 En2 Ek2. destruct (Hold r Hr) as [Hr0 Hrf], (Hold w Hw) as [Hw0 Hwf].
  assert (Hend : ∀ pid s3, s_fds s3 = s_fds s2 → s_npipes s3 = s_npipes s2 →
    s_kids s `prefix_of` s_kids s3 → helped (copies_out files flags (s_npipes s)) (s_kids s3) →
    wp0 (close_list fds ;; close r ;; mret (Some w, pid)) Q s3).
  { intros pid s3 E3 En3 Hp Hh. apply wp_bind, wp_close_list_exact. intros s4 E4 En4 Ek4.
    apply wp_bind, wp_modify, wp_ret, HQ. split; [simpl; lia|]. simpl. rewrite Ek4.
    split; [done|]. split; [done|]. exists (s_npipes s). split; [lia|]. split; [|done].
    rewrite E4, E3, E2, Hnp. apply map_eq. intros fd.
    destruct (decide (fd = r)) as [->|Hfr].
    { by rewrite lookup_delete_eq, lookup_insert_ne. }
    rewrite lookup_delete_ne, close_all_lookup by done. destruct (decide (fd = w)) as [->|Hfw].
    { by rewrite !lookup_insert_eq, bool_decide_eq_false_2. }
    rewrite !lookup_insert_ne by done. rewrite <-Hc, close_all_lookup. done. }
  apply wp_bind, wp_fork_exact.
  - intros pid s3 E3 En3 Ek3. apply Hend; [done|done|rewrite Ek3, Ek2, Hk; by eexists|].
    rewrite Ek3, Ek2, Hk. apply helped_last; [done|]. unfold copies_out. cbn [c_role c_fds]. split.
    + rewrite close_all_lookup, bool_decide_eq_false_2.
      * by rewrite E2, lookup_insert_ne, lookup_insert_eq, Hnp.
      * apply not_elem_of_cons. split; [done|]. by apply free_not_end.
    + assert (Ha2 : Forall2 (λ fd d, s_fds s2 !! fd = Some d) fds (zip_with OutFile files flags)).
      { rewrite E2. clear -Ha Hr Hw. induction Ha; constructor; [|done].
        rewrite !lookup_insert_ne; [done|congruence..]. }
      eapply (opened_list_kept (<[w := PipeW 0]> (s_fds s))); [exact Ha2| |].
      * rewrite Forall_forall in *. intros fd Hi. rewrite lookup_insert_ne; [by apply Hn|].
        by intros ->.
      * intros fd [->|Hi]%elem_of_cons; [rewrite lookup_insert_eq; by eexists|].
        destruct (decide (fd = w)) as [->|]; [rewrite lookup_insert_eq; by eexists|].
        rewrite lookup_insert_ne by done. by apply Hpf.
  - intros s3 E3 En3 Ek3 Hm. apply Hend; [done|done|by rewrite Ek3, Ek2, Hk|by left].
Qed.
End Setup.

(** ** Preparation *)

(** The end [o] of a stage's own redirection, in the shell's table [t]: of the
    pipe [own], made when [lo] pipes existed and before the [hi]-th. *)
Definition own_end (e : nat → desc) (P : nat → child → Prop) (has : bool) (o own : option nat)
    (lo hi : nat) (t : table) (kids : list child) : Prop :=
  if has then ∃ fd p, o = Some fd ∧ own = Some p ∧ t !! fd = Some (e p) ∧ lo ≤ p < hi ∧
    helped (P p) kids
  else o = None ∧ own = None.

Context (resolve : cstr → option cstr).

Definition io_ok (lo hi : nat) (st : command_stage) (io : stage_io)
    (own : option nat * option nat) (t : table) (kids : list child) : Prop :=
  io_resolved io = resolve (arg0 st) ∧
  ∃ mid, lo ≤ mid ≤ hi ∧
    own_end PipeR (copies_in (input_files st)) (has_input st) (io_in io) own.1 lo mid t kids ∧
    own_end PipeW (copies_out (output_files st) (append_flags st)) (has_output st) (io_out io)
      own.2 mid hi t kids.

Fixpoint ios_ok (lo hi : nat) (stages : list command_stage) (ios : list stage_io)
    (owns : list (option nat * option nat)) (t : table) (kids : list child) : Prop :=
  match stages, ios, owns with
  | [], [], [] => lo ≤ hi
  | st :: stages, io :: ios, own :: owns =>
      ∃ mid, mid ≤ hi ∧ io_ok lo mid st io own t kids ∧ ios_ok mid hi stages ios owns t kids
  | _, _, _ => False
  end.

Lemma own_end_mono e P has o own lo hi hi' t t' kids kids' :
  hi ≤ hi' → t ⊆ t' → kids `prefix_of` kids' →
  own_end e P has o own lo hi t kids → own_end e P has o own lo hi' t' kids'.
Proof.
  unfold own_end. intros Hhi Ht Hk. destruct has; [|done]. intros (fd & p & -> & -> & Hl & Hp & Hh).
  exists fd, p. split; [done|]. split; [done|]. split; [by eapply lookup_weaken|].
  split; [lia|by eapply helped_mono].
Qed.

Lemma io_ok_mono lo hi st io own t t' kids kids' :
  t ⊆ t' → kids `prefix_of` kids' → io_ok lo hi st io own t kids → io_ok lo hi st io own t' kids'.
Proof.
  intros Ht Hk (Hr & mid & Hm & H1 & H2). split; [done|]. exists mid. split; [done|].
  split; by eapply own_end_mono.
Qed.

Lemma ios_ok_mono lo hi stages ios owns t t' kids kids' :
  t ⊆ t' → kids `prefix_of` kids' →
  ios_ok lo hi stages ios owns t kids → ios_ok lo hi stages ios owns t' kids'.
Proof.
  intros Ht Hk. revert lo ios owns. induction stages as [|st stages IH]; intros lo [|io ios] [|own owns];
    cbn [ios_ok]; try done. intros (mid & Hm & H1 & H2). exists mid.
  split; [done|]. split; [by eapply io_ok_mono|by apply IH].
Qed.

Lemma one_end_grows e P s o s' : one_end e P s o s' → s_fds s ⊆ s_fds s'.
Proof.
  intros (_ & _ & H). destruct o; [|by destruct H as [-> _]]. destruct H as (Hn & p & _ & -> & _).
  by apply insert_subseteq.
Qed.

Lemma one_end_own e P s fd s' :
  one_end e P s (Some fd) s' →
  ∃ p, own_end e P true (Some fd) (Some p) (s_npipes s) (s_npipes s') (s_fds s') (s_kids s').
Proof.
  intros (_ & _ & _ & p & Hp & -> & Hh). exists p, fd, p. by rewrite lookup_insert_eq.
Qed.

(** What the preparation of stages does to the shell. *)
Definition grows (s s' : sh) : Prop :=
  s_npipes s ≤ s_npipes s' ∧ s_fds s ⊆ s_fds s' ∧ s_kids s `prefix_of` s_kids s'.

Lemma grows_refl s : grows s s.
Proof. done. Qed.

Lemma grows_trans s1 s2 s3 : grows s1 s2 → grows s2 s3 → grows s1 s3.
Proof. intros (H1 & H2 & H3) (H1' & H2' & H3'). split; [lia|]. split; by etrans. Qed.

Lemma one_end_grow e P s o s' : one_end e P s o s' → grows s s'.
Proof.
  intros H. pose proof (one_end_grows _ _ _ _ _ H). by destruct H as (H1 & H2 & _).
Qed.

Definition room (pipefds : list (nat * nat)) (s : sh) : Prop :=
  k0 ≤ length (s_kids s) ∧ ∀ fd, fd ∈ pipe_ends pipefds → is_Some (s_fds s !! fd).

Lemma room_grows pipefds s s' : grows s s' → room pipefds s → room pipefds s'.
Proof.
  intros (_ & Ht & Hk) [H1 H2]. split; [apply prefix_length in Hk; lia|].
  intros fd Hi. destruct (H2 fd Hi) as [d Hd]. exists d. by eapply lookup_weaken.
Qed.

Lemma wp_prepare_stage_exact st pipefds (Q : stage_io * bool → sh → Prop) s :
  room pipefds s →
  (∀ (io : stage_io) (b : bool) s', grows s s' →
     (if b then ∃ own, io_ok (s_npipes s) (s_npipes s') st io own (s_fds s') (s_kids s')
      else ∃ m, sys_ok m = false) →
     Q (io, b) s') →
  wp0 (prepare_stage sys_ok pid_of resolve st pipefds) Q s.
Proof.
  intros Hroom HQ. unfold prepare_stage, redirect_input, redirect_output. apply wp_bind.
  set (ins := own_end PipeR (copies_in (input_files st)) (has_input st)).
  set (outs := own_end PipeW (copies_out (output_files st) (append_flags st)) (has_output st)).
  assert (Hr : ∀ i w o r mid oi oo s', grows s s' →
    s_npipes s ≤ mid ≤ s_npipes s' →
    ins i oi (s_npipes s) mid (s_fds s') (s_kids s') →
    outs o oo mid (s_npipes s') (s_fds s') (s_kids s') →
    wp0 match resolve (arg0 st) with
        | None => not_found st ;; mret ({| io_resolved := None; io_writer := w;
            io_reader := r; io_in := i; io_out := o |}, true)
        | Some path => mret ({| io_resolved := Some path; io_writer := w;
            io_reader := r; io_in := i; io_out := o |}, true)
        end Q s').
  { intros i w o r mid oi oo s' Hg Hm Hi Ho.
    destruct (resolve _) eqn:Er; [|apply wp_bind, wp_modify]; apply wp_ret, HQ; try done;
      exists (oi, oo); (split; [by rewrite Er|]); exists mid; done. }
  assert (Hout : ∀ i w oi s', grows s s' →
    ins i oi (s_npipes s) (s_npipes s') (s_fds s') (s_kids s') →
    wp0 (output ← (if has_output st then
           r ← setup_output_redirection sys_ok pid_of (output_files st) (append_flags st) pipefds;
           mret (Some r) else mret None);
         let io resolved := {| io_resolved := resolved; io_writer := w;
           io_reader := default (-1)%Z (snd <$> output); io_in := i; io_out := output ≫= fst |} in
         match output with
         | Some (None, _) => mret (io None, false)
         | _ => match resolve (arg0 st) with
                | None => not_found st ;; mret (io None, true)
                | Some path => mret (io (Some path), true)
                end
         end) Q s').
  { intros i w oi s' Hg Hi. apply wp_bind. pose proof (proj1 Hg).
    destruct (has_output st) eqn:Eo; subst outs.
    2: { apply wp_ret. eapply (Hr _ _ _ _ (s_npipes s') oi None); [done|lia|done|].
         unfold own_end. by rewrite ?Eo. }
    destruct (room_grows _ _ _ Hg Hroom) as [Hk Hpf].
    apply wp_bind, wp_output_exact; [done|done|]. intros o r s1 H1. apply wp_ret.
    pose proof (one_end_grow _ _ _ _ _ H1) as Hg1. pose proof (grows_trans _ _ _ Hg Hg1) as Hg2.
    destruct o as [o|]; [|by apply wp_ret, HQ; [|apply H1]].
    destruct (one_end_own _ _ _ _ _ H1) as [p Hp].
    eapply (Hr _ _ (Some o) _ (s_npipes s') oi (Some p)); [done|destruct Hg1; lia| |done].
    destruct Hg1 as (_ & Hs1 & Hk1). by eapply own_end_mono; [|exact Hs1|exact Hk1|exact Hi]. }
  destruct (has_input st) eqn:Ei; subst ins; rewrite ?Ei in Hout.
  2: { apply wp_ret, (Hout None _ None); [apply grows_refl|done]. }
  destruct Hroom as [Hk Hpf]. apply wp_bind, wp_input_exact; [done|done|].
  intros o pid s1 H1. apply wp_ret. pose proof (one_end_grow _ _ _ _ _ H1) as Hg1.
  destruct o as [o|]; [|by apply wp_ret, HQ; [|apply H1]].
  destruct (one_end_own _ _ _ _ _ H1) as [p Hp]. by eapply (Hout (Some o) _ (Some p)).
Qed.

Lemma wp_prepare_exact stages pipefds acc (Q : list stage_io * bool → sh → Prop) s :
  room pipefds s →
  (∀ (ios : list stage_io) (b : bool) s', grows s s' →
     (if b then ∃ ios' owns, ios = acc ++ ios' ∧
        ios_ok (s_npipes s) (s_npipes s') stages ios' owns (s_fds s') (s_kids s')
      else ∃ m, sys_ok m = false) →
     Q (ios, b) s') →
  wp0 (prepare sys_ok pid_of resolve stages pipefds acc) Q s.
Proof.
  revert acc s Q. induction stages as [|st stages IH]; intros acc s Q Hroom HQ; cbn [prepare].
  { apply wp_ret, HQ; [apply grows_refl|]. exists [], [].
    split; [by rewrite app_nil_r|simpl; lia]. }
  apply wp_bind, wp_prepare_stage_exact; [done|]. intros io b s1 Hg Hio.
  destruct b; [|by apply wp_ret, HQ]. destruct Hio as [own Hown].
  apply IH; [by eapply room_grows|]. intros ios b s2 Hg2 Hios.
  apply HQ; [by eapply grows_trans|]. destruct b; [|done]. destruct Hios as (ios' & owns & -> & Ho).
  exists (io :: ios'), (own :: owns). rewrite <-app_assoc. split; [done|].
  exists (s_npipes s1). destruct Hg2 as (? & Ht & Hk).
  split; [done|]. split; [by eapply io_ok_mono|done].
Qed.

(** The pipes of the redirections. *)
Definition own_list (owns : list (option nat * option nat)) : list nat :=
  owns ≫= λ own, option_list own.1 ++ option_list own.2.

Lemma own_end_range e P has o own lo hi t kids p :
  own_end e P has o own lo hi t kids → p ∈ option_list own → lo ≤ p < hi.
Proof.
  unfold own_end. destruct has.
  - intros (fd & p' & _ & -> & _ & Hp & _) Hi%list_elem_of_singleton. by subst.
  - intros [_ ->] Hi. by apply elem_of_nil in Hi.
Qed.

Lemma NoDup_option_list {A} (o : option A) : NoDup (option_list o).
Proof. destruct o; [apply NoDup_singleton|constructor]. Qed.

Lemma ios_ok_distinct lo hi stages ios owns t kids :
  ios_ok lo hi stages ios owns t kids →
  NoDup (own_list owns) ∧ ∀ p, p ∈ own_list owns → lo ≤ p < hi.
Proof.
  revert lo ios owns. induction stages as [|st stages IH]; intros lo [|io ios] [|own owns];
    cbn [ios_ok]; try done.
  { intros _. split; [constructor|]. intros p Hp. by apply elem_of_nil in Hp. }
  intros (hi1 & Hhi & (_ & mid & Hmid & Hi & Ho) & Hrest). apply IH in Hrest as [Hnd Hr].
  change (own_list (own :: owns)) with ((option_list own.1 ++ option_list own.2) ++ own_list owns).
  assert (H1 : ∀ p, p ∈ option_list own.1 → lo ≤ p < mid) by (intros; by eapply own_end_range).
  assert (H2 : ∀ p, p ∈ option_list own.2 → mid ≤ p < hi1) by (intros; by eapply own_end_range).
  split.
  - apply NoDup_app. split; [apply NoDup_app; split; [apply NoDup_option_list|]|].
    { split; [|apply NoDup_option_list]. intros p Hp1%H1 Hp2%H2. lia. }
    split; [|done]. intros p [Hp%H1|Hp%H2]%elem_of_app Hq%Hr; lia.
  - intros p [[Hp%H1|Hp%H2]%elem_of_app|Hp%Hr]%elem_of_app; lia.
Qed.

Lemma ios_ok_lookup lo hi stages ios owns t kids k st io :
  ios_ok lo hi stages ios owns t kids → stages !! k = Some st → ios !! k = Some io →
  ∃ own lo' hi', owns !! k = Some own ∧ lo ≤ lo' ∧ io_ok lo' hi' st io own t kids.
Proof.
  revert lo ios owns k. induction stages as [|st' stages IH]; intros lo [|io' ios] [|own owns] k;
    cbn [ios_ok]; try done. intros (mid & Hm & Hio & Hrest) Hst Hk.
  destruct k as [|k]; simpl in *.
  { simplify_eq. by exists own, lo, mid. }
  destruct (IH _ _ _ k Hrest Hst Hk) as (own' & lo' & hi' & ? & ? & ?).
  exists own', lo', hi'. split; [done|]. split; [|done]. destruct Hio as (_ & m & ? & _). lia.
Qed.

Lemma ios_ok_length lo hi stages ios owns t kids :
  ios_ok lo hi stages ios owns t kids → length ios = length stages ∧ length owns = length stages.
Proof.
  revert lo ios owns. induction stages as [|st stages IH]; intros lo [|io ios] [|own owns];
    cbn [ios_ok]; try done. intros (mid & _ & _ & Hrest). apply IH in Hrest as []. simpl. lia.
Qed.
(** Every resolved stage is forked. *)
Lemma wp_fork_stages_all i stages pipefds sync leader acc (Q : list Z → sh → Prop) s :
  k0 ≤ length (s_kids s) →
  (∀ pids s', s_kids s `prefix_of` s_kids s' →
     (∀ k st io path, stages !! k = Some (st, io) → io_resolved io = Some path →
        helped (λ c, c_role c = Command (i + k) path (exec_argv st) sync) (s_kids s')) →
     Q pids s') →
  wp0 (fork_stages sys_ok pid_of i stages pipefds sync leader acc) Q s.
Proof.
  revert i leader acc s. induction stages as [|[st io] stages IH]; intros i leader acc s Hk HQ;
    cbn [fork_stages].
  { by apply wp_ret, HQ. }
  assert (Hcons : ∀ s1 pids s', s_kids s `prefix_of` s_kids s1 → s_kids s1 `prefix_of` s_kids s' →
    (∀ path, io_resolved io = Some path →
       helped (λ c, c_role c = Command i path (exec_argv st) sync) (s_kids s1)) →
    (∀ k st io path, stages !! k = Some (st, io) → io_resolved io = Some path →
       helped (λ c, c_role c = Command (S i + k) path (exec_argv st) sync) (s_kids s')) →
    Q pids s').
  { intros s1 pids s' Hp1 Hp2 Hhd Htl. apply HQ; [by etrans|]. intros [|k] st' io' path Hl Hr.
    - simpl in Hl. simplify_eq. rewrite Nat.add_0_r. eapply helped_mono; [exact Hp2|]. by apply Hhd.
    - rewrite Nat.add_succ_r. by eapply Htl. }
  destruct (io_resolved io) as [path|] eqn:Hr.
  2: { apply IH; [done|]. intros pids s' Hp Htl. by eapply (Hcons s). }
  assert (Hrest : ∀ pid s1, s_kids s `prefix_of` s_kids s1 →
    helped (λ c, c_role c = Command i path (exec_argv st) sync) (s_kids s1) →
    wp0 (let leader := if bool_decide (i = 0) then pid else leader in
         (if (0 <? pid)%Z then setpgid pid leader else tell (Perror (lit "fork"))) ;;
         fork_stages sys_ok pid_of (S i) stages pipefds sync leader (acc ++ [pid])) Q s1).
  { intros pid s1 Hp1 Hh. cbv zeta.
    assert (Htell : ∀ e, wp0 (tell e) (λ _ s2, s_kids s2 = s_kids s1) s1) by done.
    apply wp_bind, (wp_mono _ (λ _ s2, s_kids s2 = s_kids s1) _ R R); [| |done].
    { destruct (0 <? pid)%Z; [|done]. unfold setpgid. by destruct (_ <? _)%Z. }
    intros [] s2 E2. apply IH; [rewrite E2; apply prefix_length in Hp1; lia|].
    intros pids s' Hp2 Htl. rewrite E2 in Hp2. apply (Hcons s1); [done|done| |done].
    intros path' [= <-]. done. }
  apply wp_bind, wp_fork_exact.
  - intros pid s1 _ _ Ek. apply Hrest; [rewrite Ek; by eexists|]. rewrite Ek. by apply helped_last.
  - intros s1 _ _ Ek Hm. apply Hrest; [by rewrite Ek|by left].
Qed.
End Exact.

(** ** The tables of the processes of a pipeline *)

(** The shell before the command: its standard streams are open and every pipe
    in its table exists already. *)
Definition standard (s : sh) : Prop :=
  is_Some (s_fds s !! 0) ∧ is_Some (s_fds s !! 1) ∧
  ∀ fd p, s_fds s !! fd = Some (PipeR p) ∨ s_fds s !! fd = Some (PipeW p) → p < s_npipes s.

(** What a stage has of a redirection: its end of the pipe [own]. *)
Definition good_end (e : nat → desc) (has : bool) (o own : option nat) (lo : nat) (t : table)
    : Prop :=
  if has then ∃ fd p, o = Some fd ∧ own = Some p ∧ t !! fd = Some (e p) ∧ lo ≤ p else o = None.

Definition io_good (lo : nat) (st : command_stage) (io : stage_io)
    (own : option nat * option nat) (t : table) : Prop :=
  good_end PipeR (has_input st) (io_in io) own.1 lo t ∧
  good_end PipeW (has_output st) (io_out io) own.2 lo t.

Lemma own_end_good sys_ok k0 e P has o own lo hi t kids lo' :
  lo' ≤ lo → own_end sys_ok k0 e P has o own lo hi t kids → good_end e has o own lo' t.
Proof.
  unfold own_end, good_end. intros Hlo. destruct has; [|by intros []].
  intros (fd & p & H1 & H2 & H3 & H4 & _). exists fd, p. repeat split; try done. lia.
Qed.

Lemma io_ok_good sys_ok k0 resolve lo hi st io own t kids lo' :
  lo' ≤ lo → io_ok sys_ok k0 resolve lo hi st io own t kids → io_good lo' st io own t.
Proof. intros Hlo (_ & mid & Hm & H1 & H2). split; (eapply own_end_good; [|done]); lia. Qed.

Section Wired.
(** [base], [np]: the shell's table and the number of pipes before the command,
    whose stages are [stages]; [owns]: the pipes of their input and output
    redirections. *)
Context (base : table) (np : nat) (resolve : cstr → option cstr).
Context (stages : list command_stage).
Context (owns : list (option nat * option nat)).
Abbreviation n := (length stages).

Definition is_stage (i : nat) (r : role) : Prop :=
  match r with Command k _ _ _ => k = i | _ => False end.

(** What the child of stage [i] has as input and output. *)
Definition stage_input (i : nat) (st : command_stage) (d : option desc) : Prop :=
  if has_input st then ∃ p, (owns !! i ≫= fst) = Some p ∧ d = Some (PipeR p)
  else d = match i with O => base !! 0 | S k => Some (PipeR (np + k)) end.

Definition stage_output (i : nat) (st : command_stage) (d : option desc) : Prop :=
  if has_output st then ∃ p, (owns !! i ≫= snd) = Some p ∧ d = Some (PipeW p)
  else d = if bool_decide (S i = n) then base !! 1 else Some (PipeW (np + i)).

(** The new processes include the helpers of the redirections, each with the
    files of its stage, in order (unless a system call failed), on pipes that are
    all different and made after those of the pipeline, and every stage whose
    command was found. *)
Record served (sys_ok : nat → bool) (new : list child) : Prop := {
  sv_distinct : NoDup (own_list owns);
  sv_after p : p ∈ own_list owns → np + (n - 1) ≤ p;
  sv_input i st p : stages !! i = Some st → (owns !! i ≫= fst) = Some p →
    (∃ m, sys_ok m = false) ∨ ∃ h, h ∈ new ∧ copies_in (input_files st) p h;
  sv_output i st p : stages !! i = Some st → (owns !! i ≫= snd) = Some p →
    (∃ m, sys_ok m = false) ∨
    ∃ h, h ∈ new ∧ copies_out (output_files st) (append_flags st) p h;
  sv_stages i st path : stages !! i = Some st → resolve (arg0 st) = Some path →
    (∃ m, sys_ok m = false) ∨
    ∃ c sync, c ∈ new ∧ c_role c = Command i path (exec_argv st) sync;
}.

(** The pipes of the pipeline are [np], ..., [np + n - 2]: pipe [np + k] can be
    written by stage [k] only, on its standard output, and read by stage [k + 1]
    only, on its standard input. *)
Definition wired (c : child) : Prop :=
  (∀ fd k, k < n - 1 → c_fds c !! fd = Some (PipeW (np + k)) → fd = 1 ∧ is_stage k (c_role c)) ∧
  (∀ fd k, k < n - 1 → c_fds c !! fd = Some (PipeR (np + k)) → fd = 0 ∧ is_stage (S k) (c_role c)) ∧
  match c_role c with
  | Command i path argv _ => ∃ st, stages !! i = Some st ∧
      resolve (arg0 st) = Some path ∧ argv = exec_argv st ∧
      stage_input i st (c_fds c !! 0) ∧ stage_output i st (c_fds c !! 1)
  | _ => True
  end.

(** The shell's table [t] holds the pipes [pipefds]. *)
Record plumbed (pipefds : list (nat * nat)) (t : table) : Prop := {
  pl_ends k r w : pipefds !! k = Some (r, w) →
    t !! r = Some (PipeR (np + k)) ∧ t !! w = Some (PipeW (np + k)) ∧
    base !! r = None ∧ base !! w = None;
  pl_rest fd : fd ∉ pipe_ends pipefds → t !! fd = base !! fd;
}.

Lemma pipe_ends_elem pipefds fd :
  fd ∈ pipe_ends pipefds → ∃ k r w, pipefds !! k = Some (r, w) ∧ (fd = r ∨ fd = w).
Proof.
  unfold pipe_ends. intros ([r w] & Hfd & Hin)%list_elem_of_bind.
  apply list_elem_of_lookup in Hin as [k Hk]. exists k, r, w. split; [done|].
  simpl in Hfd. set_solver.
Qed.

Lemma pipe_ends_lookup pipefds k r w :
  pipefds !! k = Some (r, w) → r ∈ pipe_ends pipefds ∧ w ∈ pipe_ends pipefds.
Proof.
  intros Hk%list_elem_of_lookup_2. unfold pipe_ends.
  split; apply list_elem_of_bind; exists (r, w); simpl; split; set_solver.
Qed.

Section Create.
Context (sys_ok : nat → bool) (kids0 : list child) {R : () → sh → Prop}.

Abbreviation wp0 m Q := (wp m Q R).

Lemma wp_create_exact m pipefds (Q : option (list (nat * nat)) → sh → Prop) s :
  plumbed pipefds (s_fds s) → s_npipes s = np + length pipefds → s_kids s = kids0 →
  (∀ pipefds' s', plumbed pipefds' (s_fds s') → length pipefds' = length pipefds + m →
     s_npipes s' = np + length pipefds' → s_kids s' = kids0 → Q (Some pipefds') s') →
  (∀ s', s_kids s' = kids0 → (∃ m, sys_ok m = false) → Q None s') →
  wp0 (create_pipes sys_ok m pipefds) Q s.
Proof.
  intros Hp Hn Hk HQ HN. revert pipefds s Hp Hn Hk HQ.
  induction m as [|m IH]; intros pipefds s Hp Hn Hk HQ; cbn [create_pipes].
  { apply wp_ret, HQ; auto. }
  apply wp_bind, wp_pipe_exact.
  2: { intros s1 _ _ E Hm. apply wp_bind, wp_modify, wp_bind, wp_close_list_exact.
       intros s2 _ _ E2. apply wp_ret, HN; [simpl in E2; congruence|done]. }
  intros r w s1 Hr Hw Hrw E1 En Ek. apply IH.
  - assert (Hfree : ∀ fd, s_fds s !! fd = None → fd ∉ pipe_ends pipefds).
    { intros fd Hf (k & r' & w' & Hk' & Hfd)%pipe_ends_elem.
      destruct (pl_ends _ _ Hp _ _ _ Hk') as (H1 & H2 & _). destruct Hfd; congruence. }
    assert (Hbase : ∀ fd, s_fds s !! fd = None → base !! fd = None).
    { intros fd Hf. rewrite <-Hf. symmetry. by apply (pl_rest _ _ Hp), Hfree. }
    split; rewrite E1.
    + intros k r' w' [Hk'|[Hlen Hk']]%lookup_app_Some.
      * destruct (pl_ends _ _ Hp _ _ _ Hk') as (H1 & H2 & H3).
        rewrite !lookup_insert_ne by congruence. done.
      * destruct (k - length pipefds) as [|?] eqn:Ek'; [|done].
        injection Hk' as <- <-. rewrite lookup_insert_eq, lookup_insert_ne, lookup_insert_eq by done.
        replace (np + k) with (s_npipes s) by lia. auto.
    + intros fd Hfd. unfold pipe_ends in Hfd. rewrite bind_app in Hfd. simpl in Hfd.
      rewrite !lookup_insert_ne by set_solver. apply (pl_rest _ _ Hp). unfold pipe_ends. set_solver.
  - rewrite length_app. simpl. lia.
  - congruence.
  - intros p' s' Hp' Hl. rewrite length_app in Hl. simpl in Hl. apply HQ; [done|lia].
Qed.
End Create.

(** ** The table of a stage *)
Lemma dup_end_ne o new t fd : fd ≠ new → dup_end o new t !! fd = t !! fd.
Proof.
  intros H. destruct o as [x|]; [|done]. unfold dup_end, dup2. destruct (t !! x); [|done].
  by apply lookup_insert_ne.
Qed.

Lemma dup_end_eq x new t d : t !! x = Some d → dup_end (Some x) new t !! new = Some d.
Proof. intros H. unfold dup_end, dup2. rewrite H. apply lookup_insert_eq. Qed.

Lemma close_end_lookup o t fd : Some fd ≠ o → close_end o t !! fd = t !! fd.
Proof. destruct o; [|done]. intros H. apply lookup_delete_ne. congruence. Qed.

Lemma close_end_some o t fd d : close_end o t !! fd = Some d → t !! fd = Some d.
Proof. destruct o; [|done]. simpl. rewrite lookup_delete_Some. by intros []. Qed.

(** The shell's table when it forks a stage. *)
Record ready (pipefds : list (nat * nat)) (t : table) : Prop := {
  rd_ends k r w : pipefds !! k = Some (r, w) →
    t !! r = Some (PipeR (np + k)) ∧ t !! w = Some (PipeW (np + k));
  rd_std fd : fd < 2 → t !! fd = base !! fd ∧ (fd ∉ pipe_ends pipefds) ∧
    ∀ p, np ≤ p → t !! fd ≠ Some (PipeR p) ∧ t !! fd ≠ Some (PipeW p);
  rd_inner fd k : k < n - 1 → t !! fd = Some (PipeR (np + k)) ∨ t !! fd = Some (PipeW (np + k)) →
    fd ∈ pipe_ends pipefds;
  rd_len : length pipefds = n - 1;
}.

Section Stage.
Context (pipefds : list (nat * nat)) (t : table) (Hready : ready pipefds t).
Context (i : nat) (st : command_stage) (io : stage_io).
Context (Hst : stages !! i = Some st) (own : option nat * option nat).
Context (Hown : owns !! i = Some own) (Hio : io_good (np + (n - 1)) st io own t).

Abbreviation last := (bool_decide (S i = n)).
Abbreviation result := (stage_table i last st io pipefds t).

Lemma own_end_not_std fd : fd < 2 → Some fd ≠ io_in io ∧ Some fd ≠ io_out io.
Proof.
  intros Hfd. destruct (rd_std _ _ Hready fd Hfd) as (_ & _ & Hn). destruct Hio as [Hi Ho].
  unfold good_end in *. split; intros E.
  - destruct (has_input st); [|congruence]. destruct Hi as (x & p & Hx & _ & Hl & Hp).
    assert (x = fd) by congruence. subst. destruct (Hn p ltac:(lia)); congruence.
  - destruct (has_output st); [|congruence]. destruct Ho as (x & p & Hx & _ & Hl & Hp).
    assert (x = fd) by congruence. subst. destruct (Hn p ltac:(lia)); congruence.
Qed.

Lemma result_std fd :
  fd < 2 → result !! fd =
  ((let t := if has_input st then dup_end (io_in io) 0 t
            else match i with S i => dup_end (fst <$> pipefds !! i) 0 t | O => t end in
   if has_output st then dup_end (io_out io) 1 t
   else if last then t else dup_end (snd <$> pipefds !! i) 1 t) !! fd).
Proof.
  intros Hfd. destruct (own_end_not_std fd Hfd) as [Hi Ho].
  unfold stage_table. rewrite !close_end_lookup by done. rewrite close_all_lookup.
  rewrite bool_decide_eq_false_2; [done|]. by apply (rd_std _ _ Hready).
Qed.

Lemma result_other fd d :
  2 ≤ fd → result !! fd = Some d → t !! fd = Some d ∧ fd ∉ pipe_ends pipefds.
Proof.
  intros Hfd Hl. unfold stage_table in Hl. apply close_end_some, close_end_some in Hl.
  rewrite close_all_lookup in Hl. case_bool_decide as Hin; [done|]. split; [|done].
  rewrite <-Hl. destruct (has_output st), (has_input st), last, i;
    rewrite ?dup_end_ne by lia; done.
Qed.

Lemma result_keep fd :
  2 ≤ fd → fd ∉ pipe_ends pipefds → Some fd ≠ io_in io → Some fd ≠ io_out io →
  result !! fd = t !! fd.
Proof using Type.
  clear Hready Hst Hio Hown own owns resolve. intros Hfd Hp Hi Ho. unfold stage_table. rewrite !close_end_lookup by done.
  rewrite close_all_lookup, bool_decide_eq_false_2 by done.
  destruct (has_output st), (has_input st), last, i; rewrite ?dup_end_ne by lia; done.
Qed.

Lemma stage_input_ok : stage_input i st (result !! 0).
Proof.
  rewrite result_std by lia. unfold stage_input. destruct Hio as [Hi _]. unfold good_end in Hi.
  destruct (rd_std _ _ Hready 0 ltac:(lia)) as [H0 _].
  destruct (has_input st).
  - destruct Hi as (x & p & -> & Hp & Hl & _). exists p. rewrite Hown. split; [done|].
    destruct (has_output st), last; rewrite ?dup_end_ne by lia; by apply dup_end_eq.
  - assert (Hk : (match i with S k => dup_end (fst <$> pipefds !! k) 0 t | 0 => t end) !! 0
      = match i with 0 => base !! 0 | S k => Some (PipeR (np + k)) end).
    { destruct i as [|k]; [done|]. apply lookup_lt_Some in Hst.
      destruct (lookup_lt_is_Some_2 pipefds k) as [[r w] Hk]; [rewrite (rd_len _ _ Hready); lia|].
      rewrite Hk. by apply dup_end_eq, (rd_ends _ _ Hready _ _ _ Hk). }
    destruct (has_output st), last; rewrite ?dup_end_ne by lia; exact Hk.
Qed.

Lemma stage_output_ok : stage_output i st (result !! 1).
Proof.
  rewrite result_std by lia. unfold stage_output. destruct Hio as [_ Ho]. unfold good_end in Ho.
  destruct (rd_std _ _ Hready 1 ltac:(lia)) as [H1 _]. cbv zeta.
  set (t1 := if has_input st then _ else _).
  assert (Ht1 : ∀ fd, fd ≠ 0 → t1 !! fd = t !! fd).
  { intros fd Hfd. unfold t1. destruct (has_input st), i; rewrite ?dup_end_ne by done; done. }
  destruct (has_output st).
  - destruct Ho as (x & p & Hx & Hp & Hl & _). exists p. rewrite Hown. split; [done|].
    rewrite Hx. apply dup_end_eq.
    rewrite Ht1; [done|]. intros ->. destruct (own_end_not_std 0 ltac:(lia)); congruence.
  - case_bool_decide as Hl; [by rewrite Ht1|]. apply lookup_lt_Some in Hst as Hlt.
    destruct (lookup_lt_is_Some_2 pipefds i) as [[r w] Hk]; [rewrite (rd_len _ _ Hready); lia|].
    rewrite Hk. apply dup_end_eq. destruct (rd_ends _ _ Hready _ _ _ Hk) as [_ Hw].
    rewrite Ht1; [done|]. simpl. intros ->. destruct (rd_std _ _ Hready 0 ltac:(lia)) as (_ & _ & Hn).
    destruct (Hn (np + i) ltac:(lia)); congruence.
Qed.

Lemma own_after p : own.1 = Some p ∧ has_input st = true ∨ own.2 = Some p ∧ has_output st = true →
  np + (n - 1) ≤ p.
Proof.
  destruct Hio as [Hi Ho]. unfold good_end in *. intros [[E Eh]|[E Eh]].
  - rewrite Eh in Hi. destruct Hi as (x & p' & _ & E' & _ & Hp). congruence.
  - rewrite Eh in Ho. destruct Ho as (x & p' & _ & E' & _ & Hp). congruence.
Qed.

(** A stage's child holds the pipes of the pipeline as its neighbours require. *)
Lemma stage_wired pid path sync :
  resolve (arg0 st) = Some path →
  wired {| c_pid := pid; c_role := Command i path (exec_argv st) sync; c_fds := result |}.
Proof.
  intros Hres. pose proof stage_input_ok as Hin. pose proof stage_output_ok as Hout.
  assert (Hbase : ∀ fd p, fd < 2 → np ≤ p → base !! fd ≠ Some (PipeR p) ∧ base !! fd ≠ Some (PipeW p)).
  { intros fd p Hfd Hp. destruct (rd_std _ _ Hready fd Hfd) as (<- & _ & Hn). by apply Hn. }
  assert (Hfar : ∀ fd k, k < n - 1 → 2 ≤ fd →
    result !! fd ≠ Some (PipeR (np + k)) ∧ result !! fd ≠ Some (PipeW (np + k))).
  { intros fd k Hk Hfd. split; intros [Hl Hn]%result_other; try done; apply Hn;
      eapply rd_inner; eauto. }
  split; [|split]; simpl.
  - intros fd k Hk Hl. destruct (decide (fd = 0)) as [->|H0].
    { unfold stage_input in Hin. rewrite Hl in Hin. destruct (has_input st).
      - destruct Hin as (p & _ & [=]).
      - destruct i; [|congruence]. destruct (Hbase 0 (np + k) ltac:(lia) ltac:(lia)); congruence. }
    destruct (decide (fd = 1)) as [->|H1]; [|destruct (Hfar fd k Hk ltac:(lia)); congruence].
    split; [done|]. unfold stage_output in Hout. rewrite Hl in Hout. destruct (has_output st) eqn:Eh.
    + destruct Hout as (p & Ep & [= Hp]). rewrite Hown in Ep.
      pose proof (own_after p (or_intror (conj Ep Eh))). lia.
    + case_bool_decide; [|injection Hout; lia].
      destruct (Hbase 1 (np + k) ltac:(lia) ltac:(lia)); congruence.
  - intros fd k Hk Hl. destruct (decide (fd = 1)) as [->|H1].
    { unfold stage_output in Hout. rewrite Hl in Hout. destruct (has_output st).
      - destruct Hout as (p & _ & [=]).
      - case_bool_decide; [|congruence]. destruct (Hbase 1 (np + k) ltac:(lia) ltac:(lia)); congruence. }
    destruct (decide (fd = 0)) as [->|H0]; [|destruct (Hfar fd k Hk ltac:(lia)); congruence].
    split; [done|]. unfold stage_input in Hin. rewrite Hl in Hin. destruct (has_input st) eqn:Eh.
    + destruct Hin as (p & Ep & [= Hp]). rewrite Hown in Ep.
      pose proof (own_after p (or_introl (conj Ep Eh))). lia.
    + destruct i as [|j]; [symmetry in Hin; by apply (Hbase 0 (np + k)) in Hin; [|lia..]|].
      injection Hin. lia.
  - by exists st.
Qed.
End Stage.
End Wired.


(** ** The executors *)
Section Runs.
Context (sys_ok : nat → bool) (pid_of : nat → Z) (status_of : Z → option wait_status).
Context (resolve : cstr → option cstr).
Context (stages : list command_stage) (s : sh) (Hs : standard s).

Abbreviation n := (length stages).
Abbreviation np := (s_npipes s).
Abbreviation wired_here := (wired (s_fds s) np resolve stages).
Abbreviation served_here owns new := (served np resolve stages owns sys_ok new).

(** What holds of the helpers, whatever the pipes of the redirections are. *)
Definition helper_ok (c : child) : Prop := is_helper (c_role c) ∧ wired_here [] c.

Lemma helper_ok_wired c owns : helper_ok c → wired_here owns c.
Proof.
  intros (Hh & H1 & H2 & H3). split; [done|]. split; [done|]. by destruct (c_role c).
Qed.

Abbreviation opened_after t := (opened t (np + (n - 1)) (s_kids s) helper_ok).

(** What is shown of the stages besides; it holds of the helpers. *)
Context (X : child → Prop) (HX : ∀ c, is_helper (c_role c) → X c).

(** The processes forked since the start are wired and served. *)
Definition all_new (s' : sh) : Prop :=
  ∃ owns new, s_kids s' = s_kids s ++ new ∧ served_here owns new ∧
    Forall (λ c, wired_here owns c ∧ X c) new.

Abbreviation wp_new m Q := (wp m Q (λ (_ : ()) s', all_new s' ∧ blocked status_of s')).

Lemma all_new_calm s1 s2 : all_new s1 → s_kids s2 = s_kids s1 → all_new s2.
Proof. intros (owns & new & H1 & H2) E. exists owns, new. by rewrite E. Qed.

Lemma wp_new_rest {A} (m : M sh () A) s1 :
  calm status_of m → all_new s1 → wp_new m (λ _, all_new) s1.
Proof.
  intros Hm Ha. apply (wp_calm (status_of := status_of)); [done| |];
    intros; try split; try done; by eapply all_new_calm.
Qed.

Lemma helpers_new s' new :
  (∃ m, sys_ok m = false) → s_kids s' = s_kids s ++ new → Forall helper_ok new → all_new s'.
Proof using HX.
  intros Hm Hk HF. exists [], new. split; [done|]. split.
  - split; [constructor|by intros p ?%elem_of_nil|by left..].
  - eapply Forall_impl; [exact HF|]. intros c Hc. split; [by apply helper_ok_wired|apply HX, Hc].
Qed.

Lemma ready_opened K pipefds t L kids1 s1 :
  plumbed (s_fds s) np pipefds t → length pipefds = n - 1 →
  opened t (np + (n - 1)) kids1 K L s1 →
  ready (s_fds s) np stages pipefds (s_fds s1).
Proof using Hs.
  intros Hp Hlen Ho. destruct Hs as (H0 & H1 & Hold).
  assert (Hin : ∀ fd, is_Some (t !! fd) → s_fds s1 !! fd = t !! fd).
  { intros fd [d Hd]. apply (op_eq _ _ _ _ _ _ Ho). intros Hi.
    rewrite (op_free _ _ _ _ _ _ Ho) in Hd by done. done. }
  assert (Hpe : ∀ fd, fd ∈ pipe_ends pipefds → s_fds s !! fd = None).
  { intros fd (k & r & w & Hk & Hfd)%pipe_ends_elem.
    destruct (pl_ends _ _ _ _ Hp _ _ _ Hk) as (_ & _ & Hr & Hw). by destruct Hfd; subst. }
  assert (Hstd : ∀ fd, fd < 2 → (fd ∉ pipe_ends pipefds) ∧ s_fds s1 !! fd = s_fds s !! fd).
  { intros fd Hfd. assert (is_Some (s_fds s !! fd)) as Hsome.
    { destruct fd as [|[|fd]]; [done|done|lia]. }
    assert (fd ∉ pipe_ends pipefds) as Hout.
    { intros Hi%Hpe. rewrite Hi in Hsome. by destruct Hsome. }
    split; [done|]. rewrite <-(pl_rest _ _ _ _ Hp fd Hout) in *. by apply Hin. }
  split; [| | |done].
  - intros k r w Hk. destruct (pl_ends _ _ _ _ Hp _ _ _ Hk) as (Hr & Hw & _).
    rewrite !Hin; rewrite ?Hr, ?Hw; (done || by eexists).
  - intros fd Hfd. destruct (Hstd fd Hfd) as [Hout E]. rewrite E. split; [done|]. split; [done|].
    intros p Hge. split; intros Hl; assert (p < np) by (apply (Hold fd); auto); lia.
  - intros fd k Hk Hl. destruct (decide (fd ∈ pipe_ends pipefds)) as [|Hout]; [done|]. exfalso.
    destruct (decide (fd ∈ L)) as [Hi|Hi].
    + destruct Hl as [Hl|Hl]; apply (op_new _ _ _ _ _ _ Ho) in Hl; simpl in Hl; (done || lia).
    + rewrite (op_eq _ _ _ _ _ _ Ho), (pl_rest _ _ _ _ Hp) in Hl by done.
      apply Hold in Hl. lia.
Qed.

Lemma helper_wired pipefds t pid r x L s1 :
  plumbed (s_fds s) np pipefds t → length pipefds = n - 1 →
  is_helper r → opened_after t L s1 → x ∈ L →
  helper_ok {| c_pid := pid; c_role := r;
    c_fds := close_all (x :: pipe_ends pipefds) (s_fds s1) |}.
Proof using Hs.
  intros Hp Hlen Hr Ho _. split; [done|]. pose proof (ready_opened _ _ _ _ _ _ Hp Hlen Ho) as Hrd.
  split; [|split]; simpl; [| |by destruct r].
  - intros fd k Hk Hl. rewrite close_all_lookup in Hl. case_bool_decide as Hin; [done|].
    apply lookup_delete_Some in Hl as [_ Hl]. destruct Hin. eapply rd_inner; eauto.
  - intros fd k Hk Hl. rewrite close_all_lookup in Hl. case_bool_decide as Hin; [done|].
    apply lookup_delete_Some in Hl as [_ Hl]. destruct Hin. eapply rd_inner; eauto.
Qed.

Abbreviation own_here hi ios owns t kids :=
  (ios_ok sys_ok (length (s_kids s)) resolve (np + (n - 1)) hi stages ios owns t kids).

Lemma wp_open_new (Q : option (list (nat * nat) * list stage_io) → sh → Prop) :
  (∀ pipefds ios owns hi t s', plumbed (s_fds s) np pipefds t → length pipefds = n - 1 →
     opened_after t (ios_set ios) s' → own_here hi ios owns (s_fds s') (s_kids s') →
     Q (Some (pipefds, ios)) s') →
  (∀ s', all_new s' → Q None s') →
  wp_new (open_pipeline sys_ok pid_of status_of resolve stages) Q s.
Proof using Hs HX.
  intros HQ HN. unfold open_pipeline.
  apply wp_bind, (wp_create_exact (s_fds s) np _ (s_kids s) _ []);
    [by split|simpl; lia|done| |].
  2: { intros s1 E Hm. apply wp_ret, HN, (helpers_new _ []); [done|by rewrite E, app_nil_r|constructor]. }
  intros pipefds s1 Hp Hlen Hn1 Hk1. simpl in Hlen. rewrite Hlen in Hn1.
  assert (Ho1 : opened_after (s_fds s1) ∅ s1).
  { split; [done|set_solver|set_solver|lia|]. exists []. by rewrite app_nil_r, Hk1. }
  assert (Hroom : room (length (s_kids s)) pipefds s1).
  { split; [by rewrite Hk1|]. intros fd (k & r & w & Hk & Hfd)%pipe_ends_elem.
    destruct (pl_ends _ _ _ _ Hp _ _ _ Hk) as (Hr & Hw & _). destruct Hfd as [-> | ->]; by eexists. }
  apply wp_bind, (wp_conseq _ (λ r s', opened_after (s_fds s1) (ios_set (fst r)) s')
    (λ (r : list stage_io * bool) s', if snd r then ∃ owns, own_here (s_npipes s') (fst r) owns (s_fds s') (s_kids s')
             else ∃ m, sys_ok m = false)).
  { eapply (wp_prepare _ _ _ _ _ _ _ pipefds
      (λ pid r x L s', helper_wired pipefds (s_fds s1) pid r x L s' Hp Hlen) _ [] ∅).
    - eapply opened_eq; [exact Ho1|set_solver +].
    - intros ios b s2 Ho2. eapply opened_eq; [exact Ho2|simpl; set_solver +]. }
  { eapply (wp_prepare_exact _ _ (length (s_kids s))); [exact Hroom|].
    intros ios [] s2 _ Hios; [|done]. destruct Hios as (ios' & owns & -> & Ho).
    exists owns. by rewrite <-Hn1. }
  intros [ios b] s2 Ho2 Hok. simpl in *. destruct b.
  { destruct Hok as [owns Ho]. eapply wp_ret, HQ; eauto. }
  assert (Ha : all_new s2).
  { destruct (op_kids _ _ _ _ _ _ Ho2) as (new & Hk & HF). by eapply helpers_new. }
  apply wp_bind, (wp_calm (status_of := status_of)); [apply calm_abort_ios| |].
  2: { intros s3 E3 Hb. split; [by eapply all_new_calm|done]. }
  intros _ s3 E3. apply wp_bind, wp_close_list_exact. intros s4 _ _ E4.
  apply wp_ret, HN. eapply all_new_calm; [exact Ha|]. by rewrite E4.
Qed.

(** The helpers of the redirections are among the processes. *)
Lemma served_opened hi ios owns t kids new more sync :
  kids = s_kids s ++ new → own_here hi ios owns t kids →
  (∀ k st io path, zip stages ios !! k = Some (st, io) → io_resolved io = Some path →
     helped sys_ok (length (s_kids s)) (λ c, c_role c = Command k path (exec_argv st) sync)
       (s_kids s ++ new ++ more)) →
  served_here owns (new ++ more).
Proof.
  intros Hk Ho Hall. destruct (ios_ok_distinct _ _ _ _ _ _ _ _ _ _ Ho) as [Hnd Hr].
  destruct (ios_ok_length _ _ _ _ _ _ _ _ _ _ Ho) as [Hl1 Hl2].
  assert (Hhelp : ∀ P, helped sys_ok (length (s_kids s)) P kids →
    (∃ m, sys_ok m = false) ∨ ∃ h, h ∈ new ++ more ∧ P h).
  { intros P [Hm|(j & h & Hj & Hl & HP)]; [by left|right]. exists h. split; [|done].
    rewrite Hk, lookup_app_r in Hl by done. apply elem_of_app. left. by eapply list_elem_of_lookup_2. }
  assert (Hlook : ∀ i st, stages !! i = Some st → ∃ io own lo' hi', ios !! i = Some io ∧ owns !! i = Some own ∧
    io_ok sys_ok (length (s_kids s)) resolve lo' hi' st io own t kids).
  { intros i st Hi. destruct (lookup_lt_is_Some_2 ios i) as [io Hio].
    { rewrite Hl1. by eapply lookup_lt_Some. }
    destruct (ios_ok_lookup _ _ _ _ _ _ _ _ _ _ _ _ _ Ho Hi Hio) as (own & lo' & hi' & ? & _ & ?).
    by exists io, own, lo', hi'. }
  split; [done|intros p Hp; by apply Hr|..].
  - intros i st p Hi Hp. destruct (Hlook i st Hi) as (io & own & lo' & hi' & _ & E & _ & mid & _ & Hown & _).
    rewrite E in Hp. simpl in Hp. unfold own_end in Hown. destruct (has_input st).
    + destruct Hown as (fd & p' & _ & Ep & _ & _ & Hh). apply Hhelp. congruence.
    + destruct Hown. congruence.
  - intros i st p Hi Hp. destruct (Hlook i st Hi) as (io & own & lo' & hi' & _ & E & _ & mid & _ & _ & Hown).
    rewrite E in Hp. simpl in Hp. unfold own_end in Hown. destruct (has_output st).
    + destruct Hown as (fd & p' & _ & Ep & _ & _ & Hh). apply Hhelp. congruence.
    + destruct Hown. congruence.
  - intros i st path Hi Hp. destruct (Hlook i st Hi) as (io & own & lo' & hi' & Hio & _ & Er & _).
    rewrite Hp in Er. destruct (Hall i st io path) as [Hm|(j & c & Hj & Hl & Hc)]; [|done|by left|].
    { rewrite lookup_zip_with, Hi. simpl. by rewrite Hio. }
    right. exists c, sync. split; [|done]. rewrite lookup_app_r in Hl by done.
    by eapply list_elem_of_lookup_2.
Qed.

(** The children of the stages, in the state in which they are all forked. *)
Lemma wp_fork_new pipefds ios owns hi t sync L (Q : list Z → sh → Prop) s1 :
  plumbed (s_fds s) np pipefds t → length pipefds = n - 1 → opened_after t L s1 →
  own_here hi ios owns (s_fds s1) (s_kids s1) →
  (∀ k st io own path pid, stages !! k = Some st → ios !! k = Some io →
     io_good (np + (n - 1)) st io own (s_fds s1) →
     X {| c_pid := pid; c_role := Command k path (exec_argv st) sync;
          c_fds := stage_table k (bool_decide (S k = n)) st io pipefds (s_fds s1) |}) →
  (∀ pids s', all_new s' → Q pids s') →
  wp_new (fork_stages sys_ok pid_of 0 (zip stages ios) pipefds sync (-1) []) Q s1.
Proof using Hs HX.
  intros Hp Hlen Ho Hok HXc HQ. destruct (op_kids _ _ _ _ _ _ Ho) as (new1 & Hk1 & HF1).
  pose proof (ready_opened _ _ _ _ _ _ Hp Hlen Ho) as Hrd.
  destruct (ios_ok_length _ _ _ _ _ _ _ _ _ _ Hok) as [Hl1 _].
  assert (Ho' : opened t (np + (n - 1)) (s_kids s1) (λ c, wired_here owns c ∧ X c) L s1).
  { destruct Ho. split; try done. exists []. by rewrite app_nil_r. }
  eapply (wp_conseq _ (λ _ s', opened t (np + (n - 1)) (s_kids s1)
    (λ c, wired_here owns c ∧ X c) L s')).
  2: { apply (wp_fork_stages_all _ _ (length (s_kids s))); [rewrite Hk1, length_app; lia|].
       intros pids s2 Hpre Hall. exact (conj Hpre Hall). }
  1: eapply wp_fork_stages; [exact Ho'| |by auto].
  - intros k st io path pid Hk Hr. simpl. rewrite length_zip_with, Hl1, Nat.min_id.
    apply lookup_zip_Some in Hk as [Hst Hio].
    destruct (ios_ok_lookup _ _ _ _ _ _ _ _ _ _ _ _ _ Hok Hst Hio) as (own & lo' & hi' & Hown & Hlo & Hg).
    pose proof (io_ok_good _ _ _ _ _ _ _ _ _ _ _ Hlo Hg) as Hgood.
    split; [|by eapply HXc]. eapply stage_wired; try done. destruct Hg as [<- _]. done.
  - intros pids s2 Ho2 [_ Hall]. apply HQ. destruct (op_kids _ _ _ _ _ _ Ho2) as (new2 & Hk2 & HF2).
    exists owns, (new1 ++ new2). rewrite Hk2, Hk1, app_assoc. split; [done|].
    split; [eapply served_opened; [exact Hk1|exact Hok|]; by rewrite app_assoc, <-Hk1, <-Hk2|]. apply Forall_app. split; [|done].
    eapply Forall_impl; [exact HF1|]. intros c Hc. split; [by apply helper_ok_wired|apply HX, Hc].
Qed.
End Runs.

Ltac calm_step :=
  lazymatch goal with
  | |- calm _ (mbind _ _) => apply calm_bind; [|intros ?]
  | |- calm _ (close_all_pipes _) => apply calm_close_list
  | |- calm _ (close_ios _) => apply calm_close_ios
  | |- calm _ (close_opt _) => apply calm_close_opt
  | |- calm _ (if ?b then _ else _) => destruct b
  | |- calm _ (match ?x with Exited _ => _ | _ => _ end) => destruct x
  | |- calm _ (mret _) => apply stays_calm, stays_ret
  | |- calm _ (gets _) => apply stays_calm, stays_gets
  | |- calm _ (on_jobs _) => apply stays_calm, stays_on_jobs
  | |- calm _ (print _) => apply stays_calm, stays_tell
  | |- calm _ (register_stages _ _ _ _) => apply stays_calm, stays_register_stages
  | |- calm _ (wait_stages _ _ _ _) => apply waits_calm, waits_wait_stages
  end.

Section Both.
Context (sys_ok : nat → bool) (pid_of : nat → Z) (status_of : Z → option wait_status).
Context (resolve : cstr → option cstr).
Context (stages : list command_stage) (s : sh) (Hs : standard s) (Hn : 2 ≤ length stages).

(** The child waits on the read end of a pipe whose write end it holds. *)
Definition waits_on_itself (c : child) : Prop :=
  match c_role c with
  | Command _ _ _ (Some r) => ∃ q w, c_fds c !! r = Some (PipeR q) ∧ c_fds c !! w = Some (PipeW q)
  | Command _ _ _ None => ∃ m, sys_ok m = false
  | _ => True
  end.

Lemma helper_waits_not c : is_helper (c_role c) → waits_on_itself c.
Proof. unfold waits_on_itself. by destruct (c_role c). Qed.

Abbreviation all_new_here X := (all_new sys_ok resolve stages s X).
Abbreviation wp_here X m Q := (wp m Q (λ (_ : ()) s', all_new_here X s' ∧ blocked status_of s')).

Lemma pipeline_wired :
  wp_here (λ _, True) (execute_pipeline sys_ok pid_of status_of resolve stages)
    (λ _, all_new_here (λ _, True)) s.
Proof using Hs Hn.
  unfold execute_pipeline. destruct stages as [|st [|st2 more]] eqn:E; [simpl in Hn; lia..|].
  rewrite <-E in *. apply wp_bind, (wp_open_new _ _ _ _ _ _ Hs (λ _, True)); [done| |].
  2: { intros s1 Ha. by apply wp_ret. }
  intros pipefds ios owns hi t s1 Hp Hlen Ho Hok.
  eapply wp_bind, wp_fork_new; [exact Hs|done|exact Hp|done|exact Ho|exact Hok|done|].
  intros pids s2 Ha. apply wp_new_rest; [|done]. cbv zeta. repeat calm_step.
Qed.

Lemma io_good_open np own t st io fd :
  io_good np st io own t → Some fd = io_in io ∨ Some fd = io_out io → is_Some (t !! fd).
Proof.
  intros [Hi Ho] Hfd. unfold good_end in *.
  destruct Hfd as [E|E]; [destruct (has_input st)|destruct (has_output st)]; try congruence.
  - destruct Hi as (x & p & Hx & _ & Hl & _). exists (PipeR p). congruence.
  - destruct Ho as (x & p & Hx & _ & Hl & _). exists (PipeW p). congruence.
Qed.

(** A stage's table keeps the ends of a pipe opened after the redirections. *)
Lemma stage_keeps_sync pipefds t1 t k st io own fd d :
  ready (s_fds s) (s_npipes s) stages pipefds t1 →
  io_good (s_npipes s + (length stages - 1)) st io own t1 →
  t1 !! fd = None → t !! fd = Some d →
  stage_table k (bool_decide (S k = length stages)) st io pipefds t !! fd = Some d.
Proof using Hs.
  clear Hn.
  intros Hr Hio Hf Hl. rewrite <-Hl. apply result_keep.
  - destruct fd as [|[|fd]]; [| |lia]; destruct Hs as (H0 & H1 & _).
    + destruct (rd_std _ _ _ _ _ Hr 0 ltac:(lia)) as [E _]. rewrite <-E, Hf in H0. by destruct H0.
    + destruct (rd_std _ _ _ _ _ Hr 1 ltac:(lia)) as [E _]. rewrite <-E, Hf in H1. by destruct H1.
  - intros (k' & r & w & Hk & Hfd)%pipe_ends_elem.
    destruct (rd_ends _ _ _ _ _ Hr _ _ _ Hk). destruct Hfd; congruence.
  - intros E. destruct (io_good_open _ _ _ _ _ fd Hio); [by left|congruence].
  - intros E. destruct (io_good_open _ _ _ _ _ fd Hio); [by right|congruence].
Qed.

Lemma pipe_grows {R : () → sh → Prop} s1 :
  wp (pipe sys_ok) (λ o s', s_fds s1 ⊆ s_fds s' ∧ s_kids s' = s_kids s1 ∧ match o with
    | Some (r, w) => ∃ q, s_fds s1 !! r = None ∧ s_fds s1 !! w = None ∧
        s_fds s' !! r = Some (PipeR q) ∧ s_fds s' !! w = Some (PipeW q)
    | None => ∃ m, sys_ok m = false end) R s1.
Proof.
  apply wp_pipe_exact; [|intros s' E _ Ek Hm; by rewrite E].
  intros r w s' Hr Hw Hrw E _ Ek. rewrite E. split; [|split; [done|]].
  - etrans; [by apply (insert_subseteq _ r)|].
    apply (insert_subseteq _ w). by rewrite lookup_insert_ne.
  - exists (s_npipes s1). by rewrite lookup_insert_eq, lookup_insert_ne, lookup_insert_eq.
Qed.

Lemma background_new :
  wp_here waits_on_itself (execute_background sys_ok pid_of status_of resolve stages)
    (λ _, all_new_here waits_on_itself) s.
Proof using Hs Hn.
  unfold execute_background. destruct stages as [|st [|st2 more]] eqn:E; [simpl in Hn; lia..|].
  rewrite <-E in *.
  apply wp_bind, (wp_open_new _ _ _ _ _ _ Hs waits_on_itself helper_waits_not).
  2: { intros s1 Ha. by apply wp_ret. }
  intros pipefds ios owns hi t s1 Hp Hlen Ho Hok.
  pose proof (ready_opened _ _ Hs _ _ _ _ _ _ Hp Hlen Ho) as Hrd1.
  apply wp_bind, (wp_conseq _ (λ o, opened t (s_npipes s + (length stages - 1)) (s_kids s)
      (helper_ok resolve stages s) (ends o ∪ ios_set ios))
    (λ o s', s_fds s1 ⊆ s_fds s' ∧ s_kids s' = s_kids s1 ∧ match o with
      | Some (r, w) => ∃ q, s_fds s1 !! r = None ∧ s_fds s1 !! w = None ∧
          s_fds s' !! r = Some (PipeR q) ∧ s_fds s' !! w = Some (PipeW q)
      | None => ∃ m, sys_ok m = false end)).
  - by eapply wp_pipe.
  - apply pipe_grows.
  - intros sync s2 Ho2 (Hsub & Hk2 & Hsync).
    eapply wp_bind, wp_fork_new;
      [exact Hs|apply helper_waits_not|exact Hp|done|exact Ho2| | |].
    { eapply ios_ok_mono; [exact Hsub| |exact Hok]. by rewrite Hk2. }
    { intros k st' io own path pid Hst Hk _. unfold waits_on_itself. simpl.
      destruct sync as [[r w]|]; [|done]. destruct Hsync as (q & Hr & Hw' & Hlr & Hlw).
      destruct (ios_ok_lookup _ _ _ _ _ _ _ _ _ _ _ _ _ Hok Hst Hk) as (own' & lo' & hi' & _ & Hlo & Hg).
      pose proof (io_ok_good _ _ _ _ _ _ _ _ _ _ _ Hlo Hg) as Hgood.
      exists q, w. split; by eapply stage_keeps_sync. }
    intros pids s3 Ha. apply wp_new_rest; [|done]. cbv zeta. repeat calm_step.
Qed.
End Both.


(** A shell with three streams, and the pipeline [a < f | b | c > g]. *)
Definition new_shell : sh := {|
  s_fds := <[0 := Open 0]> (<[1 := Open 1]> (<[2 := Open 2]> ∅)); s_npipes := 0; s_calls := 0;
  s_kids := []; s_jobs := init_state; s_trace := [] |}.

Definition three_stages : list command_stage := [
  {| args := [lit "a"]; input_files := [lit "f"]; output_files := []; append_flags := [] |};
  {| args := [lit "b"]; input_files := []; output_files := []; append_flags := [] |};
  {| args := [lit "c"]; input_files := []; output_files := [lit "g"]; append_flags := [false] |}].

Lemma new_shell_standard : standard new_shell.
Proof.
  split; [by eexists|]. split; [by eexists|]. intros fd p H. simpl in H.
  destruct H as [H|H]; repeat (apply lookup_insert_Some in H as [[_ [=]]|[_ H]]); done.
Qed.

Definition all_ok (_ : nat) : bool := true.
Definition pids (k : nat) : Z := 100 + Z.of_nat k.
Definition all_end (_ : Z) : option wait_status := Some (Exited 0).

