(* ===== verification/Release.v ===== *)
(** * The release of background commands (redirect.c)

    A background child waits for the end of file on a pipe before it executes,
    so that the shell can register it first.  Here the processes that
    [execute_background] leaves behind run on: a waiting child starts when
    nobody can write its pipe any more, and a helper that copies the output ends
    when nobody can write to it. *)

From stdpp Require Import gmap.
From S2P Require Import Prelude Clib Lexer Parser Shell Jobs Redirect Wiring Stages.

Local Open Scope nat_scope.
#[local] Set Warnings "-clear-no-such-hyp".

Inductive phase :=
  | Waiting    (* in the [read] of [sync_fd] *)
  | Running    (* the program runs, or the helper copies *)
  | Gone.

Abbreviation processes := (list (child * phase)).

Definition start_phase (c : child) : phase :=
  match c_role c with Command _ _ _ (Some _) => Waiting | _ => Running end.

Definition start (kids : list child) : processes := (λ c, (c, start_phase c)) <$> kids.

Definition writes (q : nat) (t : table) : Prop := ∃ fd, t !! fd = Some (PipeW q).

Section Release.
Context (shell : table).

(** Somebody can still write the pipe [q]. *)
Definition written (q : nat) (ps : processes) : Prop :=
  writes q shell ∨ ∃ j c ph, ps !! j = Some (c, ph) ∧ ph ≠ Gone ∧ writes q (c_fds c).

(** The pipe whose end of file the process waits for. *)
Inductive waits_for (q : nat) : child * phase → Prop :=
  | waits_sync c k path argv r :
      c_role c = Command k path argv (Some r) → c_fds c !! r = Some (PipeR q) →
      waits_for q (c, Waiting)
  | waits_copy c from fds :
      c_role c = OutHelper from fds → c_fds c !! from = Some (PipeR q) →
      waits_for q (c, Running).

(** Processes end by themselves; signals are left out. *)
Inductive release : processes → processes → Prop :=
  | release_start ps i c q :
      ps !! i = Some (c, Waiting) → waits_for q (c, Waiting) → ¬ written q ps →
      release ps (<[i := (c, Running)]> ps)
  | release_end ps i c :
      ps !! i = Some (c, Running) → (∀ q, waits_for q (c, Running) → ¬ written q ps) →
      release ps (<[i := (c, Gone)]> ps).

(** Processes each of which waits for a pipe that one of them holds stay as
    they are. *)
Lemma deadlock (D : nat → Prop) (ps0 ps : processes) :
  (∀ i, D i → ∃ q p j c ph, ps0 !! i = Some p ∧ waits_for q p ∧ p.2 ≠ Gone ∧
     D j ∧ ps0 !! j = Some (c, ph) ∧ ph ≠ Gone ∧ writes q (c_fds c)) →
  rtc release ps0 ps → ∀ i, D i → ps !! i = ps0 !! i.
Proof.
  intros HD Hr. induction Hr as [|ps0 ps1 ps Hstep _ IH]; [done|].
  assert (Hsame : ∀ i, D i → ps1 !! i = ps0 !! i).
  { intros i Hi. destruct (HD i Hi) as (q & [c0 ph0] & j & c & ph & Hl & Hw & _ & Hj & Hlj & Hph & Hq).
    assert (Hwr : written q ps0) by (right; by exists j, c, ph).
    destruct Hstep as [ps0 i' c' q' Hl' Hw' Hn|ps0 i' c' Hl' Hn];
      (destruct (decide (i' = i)) as [->|Hne]; [|by rewrite list_lookup_insert_ne]); exfalso.
    - assert (q' = q) as ->; [|done]. assert (c0 = c' ∧ ph0 = Waiting) as [-> ->] by naive_solver.
      inversion Hw; inversion Hw'; congruence.
    - assert (c0 = c' ∧ ph0 = Running) as [-> ->] by naive_solver. by apply (Hn q). }
  intros i Hi. rewrite (IH) by (try done; intros k Hk; destruct (HD k Hk) as
    (q & p & j & c & ph & Hl & ?& ? & Hj & Hlj & ?);
    exists q, p, j, c, ph; rewrite !Hsame by done; done).
  by apply Hsame.
Qed.
End Release.

Lemma wp_ends {status_of} {A} (m : M sh () A) (P : sh → Prop) s :
  wp m (λ _, P) (λ (_ : ()) s', P s' ∧ blocked status_of s') s →
  ∃ r s', m s = (r, s') ∧
    match r with Ret _ => True | Err _ => blocked status_of s' | NoFuel => False end ∧ P s'.
Proof. unfold wp. destruct (m s) as [[a|e|] s']; [intros H|intros [H Hb]|done]; by eexists _, _. Qed.

(** ** Background pipelines *)

(** when every call succeeds, the stages of a background pipeline never
    start: each child holds the write end of the very pipe whose end of file
    it waits for, so that however the other processes go on, it stays in its
    [read]. *)
Theorem background_pipeline_never_starts (sys_ok : nat → bool) (pid_of : nat → Z)
    (status_of : Z → option wait_status) (resolve : cstr → option cstr)
    (stages : list command_stage) (s : sh) :
  standard s → 2 ≤ length stages → (∀ m, sys_ok m = true) →
  ∃ r s' new, execute_background sys_ok pid_of status_of resolve stages s = (r, s') ∧
    match r with Ret _ => True | Err _ => blocked status_of s' | NoFuel => False end ∧
    s_kids s' = s_kids s ++ new ∧
    ∀ ps i c k path argv sync, rtc (release (s_fds s')) (start new) ps →
      new !! i = Some c → c_role c = Command k path argv sync → ps !! i = Some (c, Waiting).
Proof.
  intros Hs Hn Hok.
  destruct (wp_ends _ _ _ (background_new sys_ok pid_of status_of resolve stages s Hs Hn))
    as (rc & s' & E & Hend & owns & new & Hk & _ & HF).
  exists rc, s', new. split; [done|]. split; [done|]. split; [done|].
  intros ps i c k path argv sync Hr Hi Hrole.
  set (D i := ∃ c k path argv sync, new !! i = Some c ∧ c_role c = Command k path argv sync).
  assert (Hself : ∀ i c k path argv sync, new !! i = Some c → c_role c = Command k path argv sync →
    ∃ q w, start new !! i = Some (c, Waiting) ∧ waits_for q (c, Waiting) ∧
      c_fds c !! w = Some (PipeW q)).
  { intros i' c' k' path' argv' sync' Hi' Hr'.
    eapply Forall_lookup_1 in HF as [_ Hw]; [|exact Hi']. unfold waits_on_itself in Hw.
    rewrite Hr' in Hw. destruct sync' as [r|]; [|destruct Hw as [m Hm]; by rewrite Hok in Hm].
    destruct Hw as (q & w & Hlr & Hlw). exists q, w. unfold start, start_phase.
    rewrite list_lookup_fmap, Hi'. simpl. rewrite Hr'. split; [done|]. split; [|done].
    by econstructor. }
  rewrite (deadlock (s_fds s') D (start new) ps); [| |exact Hr|by exists c, k, path, argv, sync].
  - by destruct (Hself i c k path argv sync Hi Hrole) as (q & w & -> & _).
  - intros i' (c' & k' & path' & argv' & sync' & Hi' & Hr').
    destruct (Hself i' c' k' path' argv' sync' Hi' Hr') as (q & w & Hl & Hw & Hlw).
    exists q, (c', Waiting), i', c', Waiting. repeat split; try done.
    + by exists c', k', path', argv', sync'.
    + by exists w.
Qed.

Lemma background_pipeline_never_starts_witness :
  (∃ r s' new,
    execute_background all_ok pids all_end Some three_stages new_shell = (r, s') ∧
    match r with Ret _ => True | Err _ => blocked all_end s' | NoFuel => False end ∧
    s_kids s' = s_kids new_shell ++ new ∧
    ∀ ps i c k path argv sync, rtc (release (s_fds s')) (start new) ps →
      new !! i = Some c → c_role c = Command k path argv sync → ps !! i = Some (c, Waiting)) ∧
  (* the three stages are forked, after the two helpers *)
  (λ c, match c_role c with Command k _ _ _ => Some k | _ => None end) <$>
    s_kids (snd (execute_background all_ok pids all_end Some three_stages new_shell))
  = [None; None; Some 0; Some 1; Some 2].
Proof.
  split; [|vm_compute; reflexivity].
  apply (background_pipeline_never_starts all_ok pids all_end Some three_stages new_shell);
    [apply new_shell_standard|vm_compute; lia|done].
Defined.

(** ** One background command *)
Section Single.
Context (sys_ok : nat → bool) (pid_of : nat → Z) (status_of : Z → option wait_status).
Context (resolve : cstr → option cstr) (Hok : ∀ m, sys_ok m = true).

Abbreviation helpers := (Forall (λ c : child, is_helper (c_role c))).

Section Calls.
Context {R : () → sh → Prop}.

Abbreviation wp0 m Q := (wp m Q R).

Lemma wp_fork_ok r f (Q : Z → sh → Prop) s :
  (∀ pid s', pid = pid_of (length (s_kids s)) → s_fds s' = s_fds s →
     s_kids s' = s_kids s ++ [{| c_pid := pid; c_role := r; c_fds := f (s_fds s) |}] → Q pid s') →
  wp0 (fork sys_ok pid_of r f) Q s.
Proof using Hok.
  intros HQ. unfold fork, sys_call, wp. munfold. rewrite Hok. by apply HQ.
Qed.

Lemma wp_pipe_ok (Q : option (nat * nat) → sh → Prop) s :
  (∀ r w s', s_fds s !! r = None → s_fds s !! w = None → r ≠ w →
     s_fds s' = <[w := PipeW (s_npipes s)]> (<[r := PipeR (s_npipes s)]> (s_fds s)) →
     s_npipes s' = S (s_npipes s) → s_kids s' = s_kids s → Q (Some (r, w)) s') →
  wp0 (pipe sys_ok) Q s.
Proof.
  intros HQ. apply wp_pipe_exact; [by eauto|]. intros s' _ _ _ [m Hm]. by rewrite Hok in Hm.
Qed.

(** The helper that copies the output keeps every descriptor of the shell and
    reads the pipe of which the shell keeps the write end. *)
Lemma wp_output_helper files flags (Q : option nat * Z → sh → Prop) s :
  (∀ fd pid s' c from fds p, s_kids s' = s_kids s ++ [c] → c_role c = OutHelper from fds →
     c_fds c !! from = Some (PipeR p) → s_fds s !! fd = None → s_fds s' !! fd = Some (PipeW p) →
     (∀ x d, s_fds s !! x = Some d → c_fds c !! x = Some d ∧ s_fds s' !! x = Some d) →
     Q (Some fd, pid) s') →
  wp0 (setup_output_redirection sys_ok pid_of files flags []) Q s.
Proof.
  intros HQ. unfold setup_output_redirection, open_output_files.
  apply wp_bind, (wp_open_files_exact sys_ok pid_of).
  2: { intros s1 _ [m0 Hm]. by rewrite Hok in Hm. }
  intros fds s1 Ho1. pose proof (opened_list_close _ _ _ _ Ho1) as Hclose.
  destruct Ho1 as [Hat Hnew Hrest _ Hk1].
  apply wp_bind, wp_pipe_ok. intros r w s2 Hr Hw Hrw E2 _ Hk2.
  assert (Hnot : ∀ fd, s_fds s1 !! fd = None → fd ∉ fds).
  { intros fd Hn Hi. apply list_elem_of_lookup in Hi as [k Hk].
    destruct (Forall2_lookup_l _ _ _ _ _ Hat Hk) as (d & _ & Hd). congruence. }
  assert (Hold : ∀ x d, s_fds s !! x = Some d → s_fds s1 !! x = Some d ∧ x ∉ fds).
  { intros x d Hd. assert (x ∉ fds) as Hx.
    { rewrite Forall_forall in Hnew. intros Hi%Hnew. congruence. }
    by rewrite Hrest. }
  assert (Hsw : s_fds s !! w = None).
  { destruct (s_fds s !! w) eqn:Hl; [|done]. apply Hold in Hl as [Hl _]. congruence. }
  apply wp_bind, wp_fork_ok. intros pid s3 _ E3 Hk3.
  apply wp_bind, wp_close_list_exact. intros s4 E4 _ Hk4. apply wp_bind, wp_modify, wp_ret.
  eapply (HQ w pid _ _ r fds (s_npipes s1)); [by simpl; rewrite Hk4, Hk3, Hk2, Hk1|done| | | |].
  - simpl. rewrite E2, lookup_delete_ne, lookup_insert_ne by done. apply lookup_insert_eq.
  - done.
  - simpl. rewrite lookup_delete_ne, E4, close_all_lookup, bool_decide_eq_false_2 by auto.
    by rewrite E3, E2, lookup_insert_eq.
  - intros x d Hd. destruct (Hold x d Hd) as [Hd1 Hx].
    assert (x ≠ w ∧ x ≠ r) as [Hxw Hxr] by (split; congruence).
    simpl. rewrite E2, E4, E3, E2, lookup_delete_ne, lookup_insert_ne, lookup_insert_ne by done.
    split; [done|]. rewrite lookup_delete_ne, close_all_lookup, bool_decide_eq_false_2 by done.
    by rewrite !lookup_insert_ne.
Qed.


(** The input redirection forks helpers only and closes nothing of the shell. *)
Lemma wp_input_helper st (Q : option (option nat * Z) → sh → Prop) s :
  (∀ o s' new, s_kids s' = s_kids s ++ new → helpers new →
     (∀ fd d, s_fds s !! fd = Some d → s_fds s' !! fd = Some d) →
     (∀ fd, o ≫= fst = Some fd → is_Some (s_fds s' !! fd) ∧ s_fds s !! fd = None) →
     Q o s') →
  wp0 (redirect_input sys_ok pid_of st []) Q s.
Proof.
  intros HQ. unfold redirect_input. destruct (has_input st).
  2: { apply wp_ret, (HQ _ _ []); [by rewrite app_nil_r|constructor|done|done]. }
  apply wp_bind, (wp_conseq _ (λ _ s', ∃ new, s_kids s' = s_kids s ++ new ∧ helpers new)
    (λ r s', one_end sys_ok 0 PipeR (copies_in (input_files st)) s (fst r) s')).
  - eapply (wp_setup_input (s_fds s) (s_npipes s) (s_kids s) (λ c, is_helper (c_role c)) _ _ []
      (λ pid r x L s Hr _ _, Hr) _ ∅).
    + split; [done|set_solver|set_solver|done|]. exists []. by rewrite app_nil_r.
    + intros o pid s2 Ho2. apply (op_kids _ _ _ _ _ _ Ho2).
  - apply (wp_input_exact sys_ok pid_of 0); [lia|by intros fd ?%elem_of_nil|done].
  - intros [o pid] s2 (new & Hk & HF) H2. apply wp_ret, (HQ _ _ new); [done|done| |].
    + intros fd d Hl. eapply lookup_weaken; [exact Hl|exact (one_end_grows sys_ok 0 _ _ _ _ _ H2)].
    + simpl. intros fd ->. destruct H2 as (_ & _ & Hn & p & _ & -> & _). rewrite lookup_insert_eq.
      split; [by eexists|done].
Qed.
End Calls.

(** The processes a background command leaves: when there is a command, it
    waits on [q], which the helper before it can write, and that helper waits
    on a pipe the command can write. *)
Definition entangled (new : list child) : Prop :=
  Forall (λ c, is_helper (c_role c)) new ∨
  ∃ pre c cmd k path argv r q w from fds p x,
    new = pre ++ [c; cmd] ∧ Forall (λ c, is_helper (c_role c)) pre ∧
    c_role cmd = Command k path argv (Some r) ∧ c_fds cmd !! r = Some (PipeR q) ∧
    c_fds c !! w = Some (PipeW q) ∧
    c_role c = OutHelper from fds ∧ c_fds c !! from = Some (PipeR p) ∧
    c_fds cmd !! x = Some (PipeW p).

Definition entangled_since (s s' : sh) : Prop :=
  ∃ new, s_kids s' = s_kids s ++ new ∧ entangled new.

Abbreviation wp_tangled s m Q :=
  (wp m Q (λ (_ : ()) s', entangled_since s s' ∧ blocked status_of s')).

Lemma wp_entangled_rest {A} (m : M sh () A) s s1 :
  calm status_of m → entangled_since s s1 → wp_tangled s m (λ _, entangled_since s) s1.
Proof.
  intros Hm (new & Hk & He). assert (Hsame : ∀ s2, s_kids s2 = s_kids s1 → entangled_since s s2).
  { intros s2 E. exists new. by rewrite E. }
  apply (wp_calm (status_of := status_of)); auto.
Qed.

(** The command's own table. *)
Lemma single_table_lookups (t : table) i o w r q p :
  t !! r = Some (PipeR q) → t !! o = Some (PipeW p) →
  (∀ fd, i = Some fd → is_Some (t !! fd) ∧ fd ≠ o ∧ fd ≠ r) →
  1 < r → 1 < o → r ≠ o → r ≠ w → o ≠ w → (∀ fd, i = Some fd → 1 < fd) →
  single_table i (Some o) (close_end (Some w) t) !! r = Some (PipeR q) ∧
  single_table i (Some o) (close_end (Some w) t) !! 1 = Some (PipeW p).
Proof.
  intros Hr Ho Hi Hr1 Ho1 Hro Hrw How Hi1. unfold single_table.
  set (t1 := close_end i _). assert (Ht1 : ∀ x, x ≠ 0 → (∀ fd, i = Some fd → x ≠ fd) →
    x ≠ w → t1 !! x = t !! x).
  { intros x H0 Hx Hw. unfold t1. rewrite close_end_lookup by naive_solver.
    rewrite dup_end_ne by done. by apply lookup_delete_ne. }
  rewrite !close_end_lookup by (intros [=]; lia). split.
  - rewrite dup_end_ne by lia. rewrite Ht1; [done|lia| |done].
    intros fd E. by destruct (Hi fd E) as (_ & _ & ?).
  - apply dup_end_eq. rewrite Ht1; [done|lia| |done].
    intros fd E. by destruct (Hi fd E) as (_ & ? & _).
Qed.

Section Locked.
(** The shell [s] before the command, its ends [r] and [w] of the pipe [q] that
    holds the child back, and its state [s1] with them. *)
Context (s s1 : sh) (r w q : nat).
Context (Hstd : ∀ fd, s_fds s1 !! fd = None → 1 < fd) (Hr1 : 1 < r) (Hrw : r ≠ w).
Context (Hr : s_fds s1 !! r = Some (PipeR q)) (Hw : s_fds s1 !! w = Some (PipeW q)).
Context (Hk1 : s_kids s1 = s_kids s).

Lemma locked_helpers s2 new : s_kids s2 = s_kids s1 ++ new → helpers new → entangled_since s s2.
Proof. intros Hk HF. exists new. rewrite Hk, Hk1. split; [done|]. by left. Qed.

Lemma wp_locked_rest st path i wpid s2 new :
  has_output st = true →
  s_kids s2 = s_kids s1 ++ new → helpers new →
  (∀ fd d, s_fds s1 !! fd = Some d → s_fds s2 !! fd = Some d) →
  (∀ fd, i = Some fd → is_Some (s_fds s2 !! fd) ∧ s_fds s1 !! fd = None) →
  wp_tangled s (single_output sys_ok pid_of status_of st i wpid) (λ fds, wp_tangled s
       match fds with
       | None => mret None
       | Some fds => fork_background sys_ok pid_of status_of st path (Some (r, w)) fds
       end (λ _, entangled_since s)) s2.
Proof.
  intros Hout Hk2 HF Hsub Hi. unfold single_output, redirect_output. rewrite Hout.
  apply wp_bind, wp_bind, wp_output_helper.
  intros o rpid s3 c from fds p Hk3 Hrole Hfrom Ho Ho3 Hkeep.
  apply wp_ret, wp_ret. cbn [option_bind mbind fst snd default fmap option_fmap option_map].
  unfold fork_background. apply wp_bind, wp_fork_ok. intros pid s4 _ _ Hk4.
  apply wp_entangled_rest.
  { destruct (0 <? pid)%Z; repeat first [calm_step | apply waits_calm, waits_wait_opt | apply stays_calm; first
      [apply stays_setpgid | apply stays_register_helpers | apply stays_tell]]. }
  eexists (new ++ [c; _]). split; [by rewrite Hk4, Hk3, Hk2, Hk1, <-!app_assoc|].
  right. eexists new, c, _, 0, path, (exec_argv st), r, q, w, from, fds, p, 1.
  assert (Hr3 : s_fds s3 !! r = Some (PipeR q)) by (by apply Hkeep, Hsub).
  assert (How : o ≠ w) by (intros ->; by rewrite (Hsub _ _ Hw) in Ho).
  assert (Hro : r ≠ o) by (intros ->; by rewrite (Hsub _ _ Hr) in Ho).
  assert (Ho1 : 1 < o).
  { apply Hstd. destruct (s_fds s1 !! o) eqn:E; [|done]. apply Hsub in E. congruence. }
  destruct (single_table_lookups (s_fds s3) i o w r q p) as [Hlr Hl1]; try done.
  { intros fd E. destruct (Hi fd E) as [[d Hd] Hn]. split; [|split; congruence].
    exists d. by apply Hkeep. }
  { intros fd E. by apply Hstd, Hi. }
  repeat split; try done. apply Hkeep, Hsub, Hw.
Qed.
End Locked.

Lemma background_one_entangled st s :
  standard s → has_output st = true →
  wp_tangled s (execute_background_one sys_ok pid_of status_of resolve st)
    (λ _, entangled_since s) s.
Proof.
  intros Hs Hout. unfold execute_background_one.
  apply wp_bind, wp_pipe_ok. intros r w s1 Hr Hw Hrw E1 _ Hk1.
  assert (Hr1 : s_fds s1 !! r = Some (PipeR (s_npipes s))) by
    (by rewrite E1, lookup_insert_ne, lookup_insert_eq).
  assert (Hw1 : s_fds s1 !! w = Some (PipeW (s_npipes s))) by (by rewrite E1, lookup_insert_eq).
  assert (Hstd : ∀ fd, s_fds s !! fd = None → 1 < fd).
  { intros fd Hf. destruct Hs as ([d0 H0] & [d1 H1] & _). destruct fd as [|[|fd]]; [congruence..|lia]. }
  assert (Hstd1 : ∀ fd, s_fds s1 !! fd = None → 1 < fd).
  { intros fd Hf. apply Hstd. rewrite E1 in Hf. by apply lookup_insert_None in Hf as [[Hf _]%lookup_insert_None _]. }
  assert (Hcmd : wp_tangled s (execute_with_redirection_bg sys_ok pid_of status_of resolve st (Some (r, w)))
    (λ _, entangled_since s) s1).
  2: { apply wp_bind. eapply wp_mono; [exact Hcmd| |done].
       intros rc s2 He. destruct rc; (apply wp_entangled_rest; [|exact He]); cbv zeta;
         repeat calm_step. }
  unfold execute_with_redirection_bg. destruct (resolve _) as [path|].
  2: { apply wp_bind, wp_modify, wp_ret, (locked_helpers s s1 Hk1 _ []); [by rewrite app_nil_r|constructor]. }
  unfold setup_single. apply wp_bind, wp_bind, wp_input_helper.
  intros o s2 new Hk2 HF2 Hsub2 Ho2.
  destruct o as [[[i|] wpid]|].
  - by eapply (wp_locked_rest s s1 r w (s_npipes s) Hstd1 (Hstd _ Hr) Hrw Hr1 Hw1 Hk1).
  - apply wp_ret, wp_ret. by eapply (locked_helpers s s1).
  - by eapply (wp_locked_rest s s1 r w (s_npipes s) Hstd1 (Hstd _ Hr) Hrw Hr1 Hw1 Hk1).
Qed.
End Single.

(** a background command whose output goes to files never starts either,
    when every call succeeds: the helper that copies the output was forked with
    the write end of the pipe the command waits on, and itself waits until the
    command closes its output. *)
Theorem background_output_never_starts (sys_ok : nat → bool) (pid_of : nat → Z)
    (status_of : Z → option wait_status) (resolve : cstr → option cstr)
    (st : command_stage) (s : sh) :
  standard s → has_output st = true → (∀ m, sys_ok m = true) →
  ∃ rc s' new, execute_background sys_ok pid_of status_of resolve [st] s = (rc, s') ∧
    match rc with Ret _ => True | Err _ => blocked status_of s' | NoFuel => False end ∧
    s_kids s' = s_kids s ++ new ∧
    ∀ ps i c k path argv sync, rtc (release (s_fds s')) (start new) ps →
      new !! i = Some c → c_role c = Command k path argv sync → ps !! i = Some (c, Waiting).
Proof.
  intros Hs Hout Hok.
  destruct (wp_ends _ _ _ (background_one_entangled sys_ok pid_of status_of resolve Hok st s Hs Hout))
    as (rc & s' & E & Hend & new & Hk & He).
  exists rc, s', new. split; [done|]. split; [done|]. split; [done|]. intros ps i c k path argv sync Hr Hi Hrole.
  destruct He as [HF|(pre & h & cmd & k' & path' & argv' & r & q & w & from & fds & p & x & -> & HF
    & Hcmd & Hlr & Hw & Hh & Hfrom & Hx)].
  { eapply Forall_lookup_1 in HF; [|exact Hi]. by rewrite Hrole in HF. }
  set (j := length pre).
  assert (Hj : start (pre ++ [h; cmd]) !! j = Some (h, Running)).
  { unfold start. rewrite list_lookup_fmap, lookup_app_r, Nat.sub_diag by done. simpl.
    unfold start_phase. by rewrite Hh. }
  assert (Hj1 : start (pre ++ [h; cmd]) !! S j = Some (cmd, Waiting)).
  { unfold start. rewrite list_lookup_fmap, lookup_app_r, Nat.sub_succ_l, Nat.sub_diag by (unfold j; lia).
    simpl. unfold start_phase. by rewrite Hcmd. }
  assert (i = S j ∧ c = cmd) as [-> ->].
  { apply lookup_app_Some in Hi as [Hi|[Hge Hi]].
    { eapply Forall_lookup_1 in HF; [|exact Hi]. by rewrite Hrole in HF. }
    unfold j. destruct (i - length pre) as [|[|m]] eqn:Em; simpl in Hi; [|split; [lia|congruence]|done].
    injection Hi as ->. congruence. }
  rewrite (deadlock (s_fds s') (λ i, i = j ∨ i = S j) (start (pre ++ [h; cmd])) ps);
    [exact Hj1| |exact Hr|by right].
  intros i' [->| ->].
  - exists p, (h, Running), (S j), cmd, Waiting. split; [done|]. split; [by econstructor|].
    split; [done|]. split; [by right|]. split; [done|]. split; [done|]. by exists x.
  - exists q, (cmd, Waiting), j, h, Running. split; [done|]. split; [by econstructor|].
    split; [done|]. split; [by left|]. split; [done|]. split; [done|]. by exists w.
Qed.

(** [echo hi > out] *)
Definition echo_out : command_stage :=
  {| args := [lit "echo"; lit "hi"]; input_files := []; output_files := [lit "out"];
     append_flags := [false] |}.

Lemma background_output_never_starts_witness :
  (∃ rc s' new,
    execute_background all_ok pids all_end Some [echo_out] new_shell = (rc, s') ∧
    match rc with Ret _ => True | Err _ => blocked all_end s' | NoFuel => False end ∧
    s_kids s' = s_kids new_shell ++ new ∧
    ∀ ps i c k path argv sync, rtc (release (s_fds s')) (start new) ps →
      new !! i = Some c → c_role c = Command k path argv sync → ps !! i = Some (c, Waiting)) ∧
  (λ c, match c_role c with Command k _ _ _ => Some k | _ => None end) <$>
    s_kids (snd (execute_background all_ok pids all_end Some [echo_out] new_shell))
  = [None; Some 0].
Proof.
  split; [|vm_compute; reflexivity].
  apply (background_output_never_starts all_ok pids all_end Some echo_out new_shell);
    [apply new_shell_standard|reflexivity|done].
Defined.

(** a background command without redirections is one process, and once the
    shell has returned to its prompt it can start at once: nobody can write the
    pipe it waits on any more. *)
Theorem background_command_starts (sys_ok : nat → bool) (pid_of : nat → Z)
    (status_of : Z → option wait_status) (resolve : cstr → option cstr)
    (st : command_stage) (path : cstr) (s : sh) :
  standard s → has_input st = false → has_output st = false → resolve (arg0 st) = Some path →
  (∀ m, sys_ok m = true) →
  (∀ k, 0 < pid_of k)%Z →
  ∃ rc s' c, execute_background sys_ok pid_of status_of resolve [st] s = (Ret rc, s') ∧
    s_kids s' = s_kids s ++ [c] ∧ (∃ sync, c_role c = Command 0 path (exec_argv st) sync) ∧
    release (s_fds s') (start [c]) [(c, Running)].
Proof.
  intros Hs Hin Hout Hres Hok Hpid.
  set (good (s' : sh) := ∃ c r w q, s_kids s' = s_kids s ++ [c] ∧
    c_role c = Command 0 path (exec_argv st) (Some r) ∧
    c_fds c = delete w (<[w := PipeW q]> (<[r := PipeR q]> (s_fds s))) ∧ r ≠ w ∧ q = s_npipes s).
  assert (Hrun : wp (execute_background sys_ok pid_of status_of resolve [st])
    (λ _ s', good s') (λ _ _, False) s).
  { simpl. unfold execute_background_one. apply wp_bind, (wp_pipe_ok sys_ok Hok).
    intros r w s1 Hr Hw Hrw E1 _ Hk1. unfold execute_with_redirection_bg. rewrite Hres.
    unfold setup_single, redirect_input, single_output, redirect_output. rewrite Hin, Hout.
    apply wp_bind, wp_bind, wp_bind, wp_ret, wp_bind, wp_ret, wp_ret. unfold fork_background.
    simpl. apply wp_bind, (wp_fork_ok _ _ Hok). intros pid s2 Ep _ Hk2.
    rewrite (proj2 (Z.ltb_lt 0 pid)) by (rewrite Ep; apply Hpid).
    assert (Hg : good s2).
    { eexists _, r, w, (s_npipes s). rewrite Hk2, Hk1. split; [done|]. simpl.
      split; [done|]. split; [by rewrite E1|done]. }
    assert (Hcalm : ∀ A (m : M sh () A) s2, calm all_end m → good s2 →
      wp m (λ _ s', good s') (λ _ _, False) s2).
    { intros A m s3 Hm (c & H). apply (wp_calm (status_of := all_end)); [done| |].
      - intros a s4 E4. exists c. by rewrite E4.
      - by intros s4 _ (pid' & u & tr & _ & Hb). }
    eapply wp_mono; [apply Hcalm; [|exact Hg]| |done].
    - repeat first [calm_step | apply stays_calm; first
        [apply stays_setpgid | apply stays_register_helpers]].
    - intros rc s3 Hg3. apply wp_bind. eapply wp_mono; [apply Hcalm; [apply calm_close|exact Hg3]| |done].
      intros ? s4 Hg4. destruct rc; (apply Hcalm; [|exact Hg4]); cbv zeta; repeat calm_step;
        apply calm_close. }
  destruct (wp_run _ _ _ Hrun) as (rc & s' & E & c & r & w & q & Hk & Hrole & Ht & Hrw & Hq).
  pose proof (restored_background sys_ok pid_of status_of resolve s [st] s (opened0_start s)) as Hf.
  unfold wp in Hf. rewrite E in Hf. apply opened0_eq in Hf.
  exists rc, s', c. split; [done|]. split; [done|]. split; [by exists (Some r)|].
  assert (Hstart : start [c] = [(c, Waiting)]) by (unfold start, start_phase; simpl; by rewrite Hrole).
  rewrite Hstart. destruct Hs as (_ & _ & Hold). clear Hrun.
  assert (Hno : ¬ writes q (s_fds s)) by (intros [fd Hfd]; assert (q < s_npipes s) by eauto; lia).
  apply (release_start _ [(c, Waiting)] 0 c q); [done| |].
  - econstructor; [done|]. by rewrite Ht, lookup_delete_ne, lookup_insert_ne, lookup_insert_eq.
  - rewrite Hf. intros [Hw|([|j] & c' & ph & Hl & _ & fd & Hw)]; [done| |done].
    injection Hl as <- <-. rewrite Ht in Hw. apply lookup_delete_Some in Hw as [Hne Hw].
    rewrite lookup_insert_ne in Hw by done. apply lookup_insert_Some in Hw as [[_ [=]]|[_ Hw]].
    apply Hno. by exists fd.
Qed.

Definition plain_echo : command_stage :=
  {| args := [lit "echo"]; input_files := []; output_files := []; append_flags := [] |}.

Lemma background_command_starts_witness :
  ∃ rc s' c, execute_background all_ok pids all_end Some [plain_echo] new_shell = (Ret rc, s') ∧
    s_kids s' = s_kids new_shell ++ [c] ∧ (∃ sync, c_role c = Command 0 (lit "echo") (exec_argv plain_echo) sync) ∧
    release (s_fds s') (start [c]) [(c, Running)].
Proof.
  apply (background_command_starts all_ok pids all_end Some plain_echo (lit "echo") new_shell);
    [apply new_shell_standard|reflexivity..|done|unfold pids; lia].
Defined.
