(* ===== verification/Hop.v ===== *)
(** * The [hop] builtin (c-shell/src/hop.c)

    [hop] changes the directory and keeps the directories it has visited, with
    their frequency, in a list that it writes to a file of the home directory
    and reads back when the shell starts. *)

From S2P Require Import Prelude Clib.

Open Scope Z_scope.

Definition STRING_SIZE : nat := 4096.

(** ** The history file *)
Record HopNode := { path : cstr; freq : Z; last_visit : Z }.

Definition history_line (n : HopNode) : cstr :=
  path n ++ TAB :: print_Z (freq n) ++ TAB :: print_Z (last_visit n) ++ [NL].

Definition print_history (hopps : list HopNode) : cstr := concat (history_line <$> hopps).

(** [%4095[^\t]] *)
Fixpoint scan_field (n : nat) (s : cstr) : cstr * cstr :=
  match n, s with
  | S n, c :: s' =>
      if Ascii.eqb c TAB then ([], s) else let (l, r) := scan_field n s' in (c :: l, r)
  | _, _ => ([], s)
  end.

(** [%d] and [%ld] before their conversion to the type of the argument. *)
Definition scan_number (s : cstr) : option (Z * cstr) :=
  let (neg, t) := take_sign (skip_space s) in
  match take_digits 0 false t with
  | (v, true, rest) => Some (clamp_long (if neg : bool then - v else v), rest)
  | (_, false, _) => None
  end.

(** [sscanf(line, "%4095[^\t]\t%d\t%ld", ...) == 3] *)
Definition parse_line (line : cstr) : option HopNode :=
  let (p, rest) := scan_field 4095 line in
  match p with
  | [] => None
  | _ =>
      '(f, rest) ← scan_number (skip_space rest);
      '(t, _) ← scan_number (skip_space rest);
      Some {| path := strncpy_z (STRING_SIZE - 1) p; freq := i32 f; last_visit := t |}
  end.

Section Load.
(** Whether the n-th [malloc] succeeds. *)
Context (malloc_ok : nat → bool).

Fixpoint load_lines (fuel calls : nat) (s : cstr) (hopps : list HopNode) : list HopNode * nat :=
  match fuel with
  | O => (hopps, calls)
  | S fuel =>
      match fgets (STRING_SIZE - 1) s with
      | ([], _) => (hopps, calls)
      | (line, s) =>
          match parse_line line with
          | None => load_lines fuel calls s hopps
          | Some node =>
              if malloc_ok calls then load_lines fuel (S calls) s (node :: hopps)
              else (hopps, S calls)
          end
      end
  end.
End Load.

(** ** State *)
Record hop_state := {
  hopps : list HopNode;
  previous_dir : cstr;
  is_initialized : bool;
  cwd : cstr;
  files : cstr → option cstr;
  calls : nat;            (* of [malloc] and [time] *)
  out : cstr;
}.

Definition set_hopps (l : list HopNode) (n : nat) (s : hop_state) : hop_state := {|
  hopps := l; previous_dir := previous_dir s; is_initialized := is_initialized s;
  cwd := cwd s; files := files s; calls := n; out := out s |}.

Definition set_cwd (d prev : cstr) (s : hop_state) : hop_state := {|
  hopps := hopps s; previous_dir := prev; is_initialized := is_initialized s;
  cwd := d; files := files s; calls := calls s; out := out s |}.

Definition set_files (f : cstr → option cstr) (s : hop_state) : hop_state := {|
  hopps := hopps s; previous_dir := previous_dir s; is_initialized := is_initialized s;
  cwd := cwd s; files := f; calls := calls s; out := out s |}.

Definition say (text : cstr) (s : hop_state) : hop_state := {|
  hopps := hopps s; previous_dir := previous_dir s; is_initialized := is_initialized s;
  cwd := cwd s; files := files s; calls := calls s; out := out s ++ text ++ [NL] |}.

Definition initialized (s : hop_state) : hop_state := {|
  hopps := hopps s; previous_dir := previous_dir s; is_initialized := true;
  cwd := cwd s; files := files s; calls := calls s; out := out s |}.

Section Hop.
(** The home directory; [chdir] from a directory; [directory_exists] seen from
    a directory; the clock; which allocations succeed and which files can be
    opened for writing. *)
Context (home_directory : cstr) (chdir : cstr → cstr → option cstr).
Context (directory_exists : cstr → cstr → bool).
Context (time : nat → Z) (malloc_ok : nat → bool) (can_write : cstr → bool).

Definition history_path : cstr := take (STRING_SIZE - 1) (home_directory ++ lit "/hop_history.txt").
Definition prev_path : cstr := take (STRING_SIZE - 1) (home_directory ++ lit "/prev_dir.txt").

Definition write_file (name text : cstr) (s : hop_state) : hop_state :=
  if can_write name then set_files (λ f, if streq f name then Some text else files s f) s else s.

Definition load_history (s : hop_state) : hop_state :=
  match files s history_path with
  | None => s
  | Some text =>
      let (l, n) := load_lines malloc_ok (S (length text)) (calls s) text (hopps s) in
      set_hopps l n s
  end.

Definition save_history (s : hop_state) : hop_state :=
  write_file history_path (print_history (hopps s)) s.

Definition find_node (p : cstr) (l : list HopNode) : option HopNode :=
  List.find (λ n, streq (path n) p) l.

(** The first node of the path, changed in place. *)
Fixpoint update_node (p : cstr) (now : Z) (l : list HopNode) : list HopNode :=
  match l with
  | [] => []
  | n :: l =>
      if streq (path n) p
      then {| path := path n; freq := i32 (freq n + 1); last_visit := now |} :: l
      else n :: update_node p now l
  end.

Definition record_visit (p : cstr) (s : hop_state) : hop_state :=
  match find_node p (hopps s) with
  | Some _ => set_hopps (update_node p (time (calls s)) (hopps s)) (S (calls s)) s
  | None =>
      if malloc_ok (calls s) then
        let node := {| path := strncpy_z (STRING_SIZE - 1) p; freq := 1;
                       last_visit := time (S (calls s)) |} in
        set_hopps (node :: hopps s) (S (S (calls s))) s
      else set_hopps (hopps s) (S (calls s)) s
  end.

(** [getcwd] fails when the path does not fit. *)
Definition getcwd (s : hop_state) : option cstr :=
  if (length (cwd s) <? STRING_SIZE)%nat then Some (cwd s) else None.

Definition change_directory (target : cstr) (s : hop_state) : hop_state * bool :=
  match getcwd s with
  | None => (s, false)
  | Some current_dir =>
      match chdir (cwd s) target with
      | None => (s, false)
      | Some d =>
          let s := set_cwd d current_dir s in
          let s := write_file prev_path (previous_dir s ++ [NL]) s in
          match getcwd s with
          | Some new_dir => (save_history (record_visit new_dir s), true)
          | None => (s, true)
          end
      end
  end.

Definition score (n : HopNode) : Z := freq n * 1000000000 + last_visit n.

Fixpoint best_loop (from name : cstr) (l : list HopNode) (best : option HopNode) (best_score : Z)
    : option HopNode :=
  match l with
  | [] => best
  | n :: l =>
      if strstr (path n) name then
        if negb (directory_exists from (path n)) then best_loop from name l best best_score
        else if best_score <? score n then best_loop from name l (Some n) (score n)
        else best_loop from name l best best_score
      else best_loop from name l best best_score
  end.

Definition find_best_match (name : cstr) (s : hop_state) : option HopNode :=
  best_loop (cwd s) name (hopps s) None (-1).

Definition no_such_directory (s : hop_state) : hop_state := say (lit "hop: no such directory") s.

(** One argument; [false] stops the loop. *)
Definition hop_one (argument : cstr) (s : hop_state) : hop_state * bool :=
  let go target :=
    let (s, ok) := change_directory target s in
    if ok : bool then (s, true) else (no_such_directory s, false) in
  if streq argument (lit "~") then go home_directory
  else if streq argument (lit ".") then (s, true)
  else if streq argument (lit "..") then go (lit "..")
  else if streq argument (lit "-") then
    match previous_dir s with [] => (s, true) | _ => go (previous_dir s) end
  else
    let (s, ok) := change_directory argument s in
    if ok : bool then (s, true)
    else
      match find_best_match argument s with
      | Some n =>
          let (s, ok) := change_directory (path n) s in
          if ok : bool then (s, true) else (no_such_directory s, false)
      | None => (no_such_directory s, false)
      end.

Fixpoint hop_loop (args : list cstr) (s : hop_state) : hop_state :=
  match args with
  | [] => s
  | a :: args => let (s, go_on) := hop_one a s in if go_on : bool then hop_loop args s else s
  end.

(** [args]: the arguments after the name of the command. *)
Definition hop (args : list cstr) (s : hop_state) : hop_state :=
  let s := if is_initialized s then s else initialized (load_history s) in
  match args with
  | [] => let (s, ok) := change_directory home_directory s in
          if ok : bool then s else no_such_directory s
  | _ => hop_loop args s
  end.
End Hop.

(** ** Reading the history back *)

(** A node whose line fits a read of [load_history] and has no separator in
    its path. *)
Definition node_ok (n : HopNode) : Prop :=
  path n ≠ [] ∧ (TAB ∉ path n) ∧ (NL ∉ path n) ∧ (length (path n) ≤ 4000)%nat ∧
  0 ≤ freq n < 2 ^ 31 ∧ 0 ≤ last_visit n ≤ LONG_MAX.

Lemma print_Z_head n : 0 ≤ n → ∃ c t, print_Z n = c :: t ∧ is_digit c = true.
Proof.
  intros Hn. destruct (print_Z n) as [|c t] eqn:E; [by apply print_Z_nonempty in E|].
  exists c, t. split; [done|]. apply (print_Z_digits n); [done|]. rewrite E. by left.
Qed.

Lemma scan_number_print n rest :
  0 ≤ n ≤ LONG_MAX → no_digit rest → scan_number (skip_space (print_Z n ++ rest)) = Some (n, rest).
Proof.
  intros Hn Hr. destruct (print_Z_head n ltac:(lia)) as (c & t & E & Hc).
  assert (Hs : skip_space (print_Z n ++ rest) = print_Z n ++ rest).
  { rewrite E. simpl. by rewrite (digit_not_space _ Hc). }
  unfold scan_number. rewrite Hs, Hs.
  assert (Ht : take_sign (print_Z n ++ rest) = (false, print_Z n ++ rest)).
  { rewrite E. simpl. by destruct (digit_not_sign _ Hc) as [-> ->]. }
  rewrite Ht. unfold print_Z. rewrite (proj2 (Z.ltb_ge n 0)) by lia.
  rewrite take_digits_rev; [|unfold LONG_MAX in Hn; simpl; lia|lia].
  rewrite take_digits_stop by done. repeat f_equal. unfold clamp_long, LONG_MAX, LONG_MIN in *. lia.
Qed.

Lemma scan_field_stop n p rest :
  (length p < n)%nat → TAB ∉ p → scan_field n (p ++ TAB :: rest) = (p, TAB :: rest).
Proof.
  revert n. induction p as [|c p IH]; intros [|n] Hn Hp; simpl in *; try lia.
  - done.
  - apply not_elem_of_cons in Hp as [Hc Hp].
    rewrite (proj2 (Ascii.eqb_neq c TAB)) by congruence. by rewrite IH by (done || lia).
Qed.

Lemma parse_history_line n : node_ok n → parse_line (history_line n) = Some n.
Proof.
  intros (Hne & Htab & Hnl & Hlen & Hf & Ht). unfold parse_line, history_line.
  rewrite scan_field_stop by (done || lia).
  destruct (path n) as [|c p] eqn:E; [done|]. cbn [skip_space].
  change (isspace TAB) with true. cbv iota.
  rewrite scan_number_print by (done || (unfold LONG_MAX; lia)). cbn [mbind option_bind skip_space].
  change (isspace TAB) with true. cbv iota.
  rewrite scan_number_print by done. cbn [mbind option_bind]. rewrite <-E.
  unfold strncpy_z. rewrite take_ge by (rewrite E; unfold STRING_SIZE; simpl in *; lia).
  unfold i32. rewrite Z.mod_small by lia. destruct n. simpl. f_equal. f_equal. lia.
Qed.

Lemma history_line_shape n :
  node_ok n → ∃ body, history_line n = body ++ [NL] ∧ (NL ∉ body) ∧ (length body < 4095)%nat.
Proof.
  intros (Hne & Htab & Hnl & Hlen & Hf & Ht).
  exists (path n ++ TAB :: print_Z (freq n) ++ TAB :: print_Z (last_visit n)).
  split; [unfold history_line; rewrite <-app_assoc; cbn [app]; by rewrite <-app_assoc|].
  assert (Hnum : ∀ k, 0 ≤ k → NL ∉ print_Z k).
  { intros k Hk Hin. by apply print_Z_digits in Hin. }
  split.
  - rewrite !not_elem_of_app, !not_elem_of_cons, not_elem_of_app, not_elem_of_cons.
    repeat split; try done; apply Hnum; lia.
  - rewrite length_app. simpl. rewrite length_app. simpl.
    pose proof (print_Z_length (freq n) 10 ltac:(lia) ltac:(lia)).
    pose proof (print_Z_length (last_visit n) 19 ltac:(unfold LONG_MAX in Ht; lia) ltac:(lia)). lia.
Qed.

Lemma load_print malloc_ok fuel c l acc :
  (∀ k, malloc_ok k = true) → Forall node_ok l → (length (print_history l) < fuel)%nat →
  load_lines malloc_ok fuel c (print_history l) acc = (rev l ++ acc, (c + length l)%nat).
Proof.
  intros Hm Hl. revert fuel c acc. induction Hl as [|n l Hn Hl IH]; intros fuel c acc Hf;
    (destruct fuel as [|fuel]; [simpl in Hf; lia|]); cbn [load_lines].
  { simpl. by rewrite Nat.add_0_r. }
  destruct (history_line_shape n Hn) as (body & Hb & Hnl & Hlen).
  assert (Hp : print_history (n :: l) = body ++ NL :: print_history l).
  { unfold print_history. cbn [fmap list_fmap concat]. rewrite Hb. by rewrite <-app_assoc. }
  rewrite Hp, fgets_line by (done || (unfold STRING_SIZE; lia)). rewrite <-Hb.
  rewrite parse_history_line, Hm by done.
  assert (Hne : history_line n ≠ []) by (rewrite Hb; by destruct body).
  destruct (history_line n) as [|x t]; [done|]. rewrite IH.
  - cbn [rev length]. rewrite <-app_assoc. f_equal. lia.
  - rewrite Hp, length_app in Hf. simpl in Hf. lia.
Qed.

(** the history that a session saves is the history the next session
    starts with, every frequency and time included; only its order is
    reversed. *)
Theorem history_roundtrip (home : cstr) (malloc_ok : nat → bool) (can_write : cstr → bool)
    (s s' : hop_state) :
  (∀ k, malloc_ok k = true) → can_write (history_path home) = true →
  Forall node_ok (hopps s) → hopps s' = [] → files s' = files (save_history home can_write s) →
  hopps (load_history home malloc_ok s') = rev (hopps s).
Proof.
  intros Hm Hw Hok Hnew Hfiles. unfold load_history. rewrite Hfiles.
  unfold save_history, write_file. rewrite Hw. cbn [files set_files]. unfold streq.
  rewrite bool_decide_eq_true_2 by done. cbv iota.
  rewrite load_print by (done || lia). cbn [hopps set_hopps]. by rewrite Hnew, app_nil_r.
Qed.

Definition fresh_hop (files : cstr → option cstr) : hop_state := {|
  hopps := []; previous_dir := []; is_initialized := false; cwd := lit "/home"; files := files;
  calls := 0; out := [] |}.

Definition two_nodes : list HopNode :=
  [{| path := lit "/usr/share"; freq := 12; last_visit := 1700000000 |};
   {| path := lit "/tmp"; freq := 1; last_visit := 0 |}].

Definition hop_session : hop_state := set_hopps two_nodes 5 (fresh_hop (λ _, None)).

Lemma history_roundtrip_witness :
  hopps (load_history (lit "/home") (λ _, true)
    (fresh_hop (files (save_history (lit "/home") (λ _, true) hop_session)))) = rev two_nodes.
Proof.
  apply (history_roundtrip (lit "/home") (λ _, true) (λ _, true) hop_session);
    [done|done| |done|done].
  assert (Hno : ∀ c l, bool_decide (c ∈ (l : cstr)) = false → c ∉ l)
    by (intros c l; apply bool_decide_eq_false_1).
  repeat constructor; try (apply Hno; vm_compute; reflexivity); vm_compute; (discriminate || lia).
Defined.

(** ** The best match *)
Section Best.
Context (directory_exists : cstr → cstr → bool) (from name : cstr).

Definition matches (n : HopNode) : bool :=
  strstr (path n) name && directory_exists from (path n).

Lemma best_loop_step n l best bs :
  best_loop directory_exists from name (n :: l) best bs
  = if matches n && (bs <? score n)
    then best_loop directory_exists from name l (Some n) (score n)
    else best_loop directory_exists from name l best bs.
Proof.
  cbn [best_loop]. unfold matches.
  by destruct (strstr _ _), (directory_exists _ _), (bs <? score n).
Qed.

(** [b] is the first of the matching nodes of [l] with the greatest score. *)
Definition first_best (l : list HopNode) (b : HopNode) : Prop :=
  ∃ before after, l = before ++ b :: after ∧ matches b = true ∧
    (∀ n, n ∈ before → matches n = true → score n < score b) ∧
    (∀ n, n ∈ after → matches n = true → score n ≤ score b).

Lemma best_loop_spec l best bs :
  (best_loop directory_exists from name l best bs = best ∧
     ∀ n, n ∈ l → matches n = true → score n ≤ bs) ∨
  ∃ b, best_loop directory_exists from name l best bs = Some b ∧ first_best l b ∧ bs < score b.
Proof.
  revert best bs. induction l as [|n l IH]; intros best bs.
  { left. split; [done|]. by intros n ?%elem_of_nil. }
  rewrite best_loop_step. destruct (matches n && (bs <? score n)) eqn:E.
  - apply andb_true_iff in E as [Hm Hs%Z.ltb_lt].
    destruct (IH (Some n) (score n)) as [[-> Hall]|(b & -> & (bf & af & -> & Hb & Hbf & Haf) & Hlt)].
    + right. exists n. split; [done|]. split; [|done]. exists [], l. split; [done|]. split; [done|].
      split; [by intros k ?%elem_of_nil|done].
    + right. exists b. split; [done|]. split; [|lia]. exists (n :: bf), af.
      split; [done|]. split; [done|]. split; [|done].
      intros k [->|Hk]%elem_of_cons Hmk; [done|by apply Hbf].
  - assert (Hn : matches n = true → score n ≤ bs).
    { intros Hm. rewrite Hm in E. apply Z.ltb_ge in E. done. }
    destruct (IH best bs) as [[-> Hall]|(b & -> & (bf & af & -> & Hb & Hbf & Haf) & Hlt)].
    + left. split; [done|]. intros k [->|Hk]%elem_of_cons Hmk; [by apply Hn|by apply Hall].
    + right. exists b. split; [done|]. split; [|done]. exists (n :: bf), af.
      split; [done|]. split; [done|]. split; [|done].
      intros k [->|Hk]%elem_of_cons Hmk; [specialize (Hn Hmk); lia|by apply Hbf].
Qed.
End Best.

(** among the recorded directories that contain the argument and still
    exist, [hop] takes the one with the highest frequency, then the latest
    visit; of several equal ones the first of the list; and none only when no
    recorded directory matches (a negative score, which only an edited history
    file can hold, never wins). *)
Theorem best_match_spec (directory_exists : cstr → cstr → bool) (name : cstr) (s : hop_state) :
  match find_best_match directory_exists name s with
  | Some b => first_best directory_exists (cwd s) name (hopps s) b ∧ 0 ≤ score b
  | None => ∀ n, n ∈ hopps s → matches directory_exists (cwd s) name n = true → score n < 0
  end.
Proof.
  unfold find_best_match.
  destruct (best_loop_spec directory_exists (cwd s) name (hopps s) None (-1))
    as [[-> Hall]|(b & -> & Hb & Hs)].
  - intros n Hn Hm. specialize (Hall n Hn Hm). lia.
  - split; [done|lia].
Qed.

(** ** The files of a session *)
Section Session.
Context (home : cstr) (chdir : cstr → cstr → option cstr).
Context (directory_exists : cstr → cstr → bool).
Context (time : nat → Z) (malloc_ok : nat → bool) (can_write : cstr → bool).

(** Once a directory has been left, the two files hold what the shell has in
    memory. *)
Definition files_agree (s : hop_state) : Prop :=
  previous_dir s ≠ [] →
  files s (prev_path home) = Some (previous_dir s ++ [NL]) ∧
  ((length (cwd s) < STRING_SIZE)%nat → files s (history_path home) = Some (print_history (hopps s))).

Context (Hwrite : ∀ f, can_write f = true) (Hpaths : prev_path home ≠ history_path home).

Lemma change_directory_agrees target s :
  files_agree s →
  files_agree (fst (change_directory home chdir time malloc_ok can_write target s)).
Proof.
  intros Hs. unfold change_directory. destruct (getcwd s) as [current|]; [|done].
  destruct (chdir (cwd s) target) as [d|]; [|done]. unfold write_file. rewrite Hwrite.
  destruct (getcwd _) as [new|] eqn:Eg; unfold files_agree; simpl.
  - intros _. unfold save_history, write_file. rewrite Hwrite. unfold record_visit, streq.
    split; [|intros _];
      destruct (find_node _ _); [|destruct (malloc_ok _)| |destruct (malloc_ok _)]; simpl;
      rewrite ?(bool_decide_eq_false_2 (prev_path home = history_path home)) by done;
      by rewrite !bool_decide_eq_true_2 by done.
  - intros _. unfold streq. rewrite bool_decide_eq_true_2 by done. split; [done|].
    intros Hlen. unfold getcwd in Eg. simpl in Eg. apply Nat.ltb_lt in Hlen.
    by rewrite Hlen in Eg.
Qed.

Lemma change_directory_init target s :
  is_initialized (fst (change_directory home chdir time malloc_ok can_write target s))
  = is_initialized s.
Proof.
  unfold change_directory. destruct (getcwd s); [|done]. destruct (chdir _ _); [|done].
  unfold write_file. destruct (can_write _); destruct (getcwd _); try done;
    unfold save_history, write_file, record_visit;
    destruct (find_node _ _); try destruct (malloc_ok _); destruct (can_write _); done.
Qed.

Abbreviation one := (hop_one home chdir directory_exists time malloc_ok can_write).

Lemma hop_one_agrees a s : files_agree s → files_agree (fst (one a s)).
Proof.
  intros Hs. pose proof (λ t, change_directory_agrees t s Hs) as Hc. unfold hop_one.
  assert (Hgo : ∀ t s, files_agree s →
    files_agree (fst (let (s, ok) := change_directory home chdir time malloc_ok can_write t s in
      if ok : bool then (s, true) else (no_such_directory s, false)))).
  { clear Hs Hc. intros t s' Hs. pose proof (change_directory_agrees t s' Hs) as Hc.
    destruct (change_directory _ _ _ _ _ t s') as [s1 []]; exact Hc. }
  case_if; [by apply Hgo|]. case_if; [exact Hs|]. case_if; [by apply Hgo|]. case_if.
  - destruct (previous_dir s) as [|c p]; [exact Hs|]. by apply Hgo.
  - specialize (Hc a). destruct (change_directory _ _ _ _ _ a s) as [s1 []]; [exact Hc|].
    destruct (find_best_match _ _ _); [by apply Hgo|exact Hc].
Qed.

Lemma hop_agrees args s :
  (is_initialized s = true ∨ previous_dir s = []) → files_agree s →
  files_agree (hop home chdir directory_exists time malloc_ok can_write args s).
Proof.
  intros Hi Hs. unfold hop. set (s1 := if is_initialized s then s else _).
  assert (Hs1 : files_agree s1).
  { unfold s1. destruct (is_initialized s); [done|]. destruct Hi as [[=]|Hp]. unfold files_agree.
    simpl. unfold load_history. destruct (files s _); [|by rewrite Hp].
    destruct (load_lines _ _ _ _ _). simpl. by rewrite Hp. }
  clearbody s1. destruct args as [|a args].
  { pose proof (change_directory_agrees home s1 Hs1) as Hc.
    destruct (change_directory _ _ _ _ _ home s1) as [s2 []]; exact Hc. }
  revert s1 Hs1. generalize (a :: args). clear -Hwrite Hpaths. intros l.
  induction l as [|a l IH]; intros s Hs; cbn [hop_loop]; [done|].
  pose proof (hop_one_agrees a s Hs) as H1. destruct (one a s) as [s1 []]; [by apply IH|exact H1].
Qed.

Lemma hop_one_init a s : is_initialized (fst (one a s)) = is_initialized s.
Proof.
  assert (Hgo : ∀ t s, is_initialized (fst (
      let (s, ok) := change_directory home chdir time malloc_ok can_write t s in
      if ok : bool then (s, true) else (no_such_directory s, false))) = is_initialized s).
  { intros t s'. pose proof (change_directory_init t s') as Hc.
    destruct (change_directory _ _ _ _ _ t s') as [s1 []]; exact Hc. }
  unfold hop_one. case_if; [by apply Hgo|]. case_if; [done|]. case_if; [by apply Hgo|]. case_if.
  - destruct (previous_dir s); [done|]. by apply Hgo.
  - pose proof (change_directory_init a s) as Hc.
    destruct (change_directory _ _ _ _ _ a s) as [s1 []]; [exact Hc|].
    destruct (find_best_match _ _ _); [|exact Hc]. rewrite Hgo. exact Hc.
Qed.

Lemma hop_init args s :
  is_initialized (hop home chdir directory_exists time malloc_ok can_write args s) = true.
Proof.
  unfold hop. set (s1 := if is_initialized s then s else _).
  assert (Hs1 : is_initialized s1 = true) by (unfold s1; by destruct (is_initialized s) eqn:?).
  clearbody s1. destruct args as [|a args].
  { pose proof (change_directory_init home s1) as Hc. rewrite Hs1 in Hc.
    destruct (change_directory _ _ _ _ _ home s1) as [s2 []]; exact Hc. }
  revert s1 Hs1. generalize (a :: args). clear. intros l.
  induction l as [|a l IH]; intros s Hs; cbn [hop_loop]; [done|].
  pose proof (hop_one_init a s) as H1. rewrite Hs in H1.
  destruct (one a s) as [s1 []]; [by apply IH|exact H1].
Qed.
End Session.

(** A run of the shell: the [hop] commands of its lines. *)
Definition run_hops (home : cstr) (chdir : cstr → cstr → option cstr)
    (directory_exists : cstr → cstr → bool) (time : nat → Z) (malloc_ok : nat → bool)
    (can_write : cstr → bool) (lines : list (list cstr)) (s : hop_state) : hop_state :=
  foldl (λ s args, hop home chdir directory_exists time malloc_ok can_write args s) s lines.

Lemma run_hops_agree home chdir directory_exists time malloc_ok can_write lines s :
  (∀ f, can_write f = true) → prev_path home ≠ history_path home → previous_dir s = [] →
  files_agree home (run_hops home chdir directory_exists time malloc_ok can_write lines s).
Proof.
  intros Hw Hp Hs. unfold run_hops.
  assert (Hstart : (is_initialized s = true ∨ previous_dir s = []) ∧ files_agree home s).
  { split; [by right|]. intros H. by rewrite Hs in H. }
  clear Hs. revert s Hstart. induction lines as [|args lines IH]; intros s [Hi Ha]; cbn [foldl]; [done|].
  apply IH. split; [left; apply hop_init|]. by apply hop_agrees.
Qed.

Lemma paths_differ home : (length home ≤ 4000)%nat → prev_path home ≠ history_path home.
Proof.
  intros Hl. unfold prev_path, history_path, STRING_SIZE.
  rewrite !take_ge by (rewrite length_app; simpl; lia). by intros [=]%(app_inv_head home).
Qed.
