(* ===== verification/Reveal.v ===== *)
(** * The [reveal] builtin (c-shell/src/reveal.c)

    [reveal] prints the sorted contents of a directory, with -t its whole tree.
    The file system is given by what [readdir] and [stat] answer. *)

From stdpp Require Import sorting.
From S2P Require Import Prelude Clib Hop.

Local Open Scope nat_scope.
#[local] Set Warnings "-register-all".

Definition MAX_PATH : nat := 4096.
Definition BIGGER_BUFFER : nat := MAX_PATH * 2.
Definition MAX_ENTRIES : nat := 4096.

(** ** Sorting *)

(** [strcmp(a, b) <= 0] *)
Fixpoint str_le (a b : cstr) : bool :=
  match a, b with
  | [], _ => true
  | _ :: _, [] => false
  | x :: a, y :: b =>
      if nat_of_ascii x <? nat_of_ascii y then true
      else if nat_of_ascii y <? nat_of_ascii x then false else str_le a b
  end.

Definition le_str (a b : cstr) : Prop := str_le a b = true.
#[export] Instance le_str_dec : RelDecision le_str := λ a b, bool_eq_dec (str_le a b) true.

(** [qsort(names, count, sizeof(char * ), cmp)] *)
Definition sort_names (names : list cstr) : list cstr := merge_sort le_str names.

(** ** prev_dir.txt *)
Definition trim_right (s : cstr) : cstr := rev (skip_space (rev s)).

Definition read_prev_dir (files : cstr → option cstr) (home_dir : cstr) (out_size : nat)
    : option cstr :=
  text ← files (take (BIGGER_BUFFER - 1) (home_dir ++ lit "/prev_dir.txt"));
  match fgets (BIGGER_BUFFER - 1) text with
  | ([], _) => None
  | (line, _) =>
      match trim_right line with
      | [] => None
      | line => Some (take (out_size - 1) line)
      end
  end.

Section Reveal.
(** [opendir] with the names [readdir] returns; whether [stat] finds a
    directory; the files the shell can read; [getcwd]. *)
Context (readdir : cstr → option (list cstr)) (is_dir : cstr → bool).
Context (files : cstr → option cstr) (getcwd : option cstr).

(** ** Listing *)
Definition join (p name : cstr) : cstr := p ++ "/"%char :: name.

Definition DOT : ascii := "."%char.

Definition hidden (name : cstr) : bool :=
  match name with c :: _ => Ascii.eqb c DOT | [] => false end.

Definition wanted (show_all : bool) (name : cstr) : bool :=
  negb (streq name (lit ".") || streq name (lit "..")) && (show_all || negb (hidden name)).

Fixpoint collect (show_all : bool) (count : nat) (entries : list cstr) : list cstr :=
  match entries with
  | [] => []
  | e :: entries =>
      if wanted show_all e
      then e :: (if MAX_ENTRIES <=? S count then [] else collect show_all (S count) entries)
      else collect show_all count entries
  end.

Definition with_prefix (display_prefix name : cstr) : cstr :=
  match display_prefix with [] => name | _ => join display_prefix name end.

Definition entry_line (path display_prefix : cstr) (recursive : bool) (name : cstr) : cstr :=
  let is_dir := is_dir (take (MAX_PATH - 1) (join path name)) in
  with_prefix display_prefix name ++ (if is_dir && recursive then lit "/" else []) ++ [NL].

(** The lines printed; [None] when the fuel runs out. *)
Fixpoint reveal_list_dir (fuel : nat) (path display_prefix : cstr) (show_all recursive : bool)
    : option (list cstr) :=
  match fuel with
  | O => None
  | S fuel =>
      match readdir path with
      | None => Some []
      | Some entries =>
          let names := sort_names (collect show_all 0 entries) in
          let lines := entry_line path display_prefix recursive <$> names in
          if recursive then
            below ← mapM (λ name,
              let fullpath := take (MAX_PATH - 1) (join path name) in
              if is_dir fullpath then
                let new_prefix := take (MAX_PATH - 1) (with_prefix display_prefix name) in
                reveal_list_dir fuel fullpath new_prefix show_all recursive
              else Some []) names;
            Some (lines ++ concat below)
          else Some lines
      end
  end.

(** ** The argument *)
Definition dirname (p : cstr) : cstr :=
  match strrchr "/" p with
  | None => p
  | Some tail =>
      let i := length p - length tail in
      if i =? 0 then take 1 p else take i p
  end.

Definition resolve_reveal_path (arg : option cstr) (home_dir : cstr) : option cstr :=
  let fit := take (BIGGER_BUFFER - 1) in
  cwd ← getcwd;
  resolved ←
    match arg with
    | None => Some (fit cwd)
    | Some arg =>
        if streq arg (lit ".") then Some (fit cwd)
        else if streq arg (lit "~") then Some (fit home_dir)
        else if streq arg (lit "..") then Some (dirname (fit cwd))
        else if streq arg (lit "-") then fit <$> read_prev_dir files home_dir BIGGER_BUFFER
        else
          match arg with
          | "/"%char :: _ => Some (fit arg)
          | "~"%char :: "/"%char :: rest => Some (fit (join home_dir rest))
          | _ => Some (fit (join cwd arg))
          end
    end;
  if is_dir resolved then Some resolved else None.

Definition reveal_is_flag_arg (arg : cstr) : bool :=
  match arg with
  | "-"%char :: (_ :: _ as flags) =>
      forallb (λ p, Ascii.eqb p "a" || Ascii.eqb p "t") flags
  | _ => false
  end.

Record reveal_args := {
  reveal_all : bool;
  recursive_flag : bool;
  path_arg : option cstr;
  path_arg_count : nat;
  syntax_error : bool;
}.

(** [seen_path_arg] is set when [path_arg] is. *)
Definition parse_arg (r : reveal_args) (arg : cstr) : reveal_args :=
  if reveal_is_flag_arg arg then
    match path_arg r with
    | Some _ => {|
        reveal_all := reveal_all r; recursive_flag := recursive_flag r; path_arg := path_arg r;
        path_arg_count := path_arg_count r; syntax_error := true |}
    | None => {|
        reveal_all := reveal_all r || existsb (Ascii.eqb "a") (tail arg);
        recursive_flag := recursive_flag r || existsb (Ascii.eqb "t") (tail arg);
        path_arg := path_arg r; path_arg_count := path_arg_count r;
        syntax_error := syntax_error r |}
    end
  else {|
    reveal_all := reveal_all r; recursive_flag := recursive_flag r; path_arg := Some arg;
    path_arg_count := S (path_arg_count r); syntax_error := syntax_error r |}.

(** [args]: the arguments after the name of the command. *)
Definition reveal_command (fuel : nat) (args : list cstr) (home_dir : cstr)
    : option (list cstr) :=
  let r := foldl parse_arg {| reveal_all := false; recursive_flag := false; path_arg := None;
                              path_arg_count := 0; syntax_error := false |} args in
  if syntax_error r || (1 <? path_arg_count r) then Some [lit "reveal: invalid syntax" ++ [NL]]
  else
    match resolve_reveal_path (path_arg r) home_dir with
    | None => Some [lit "reveal: no such directory" ++ [NL]]
    | Some resolved => reveal_list_dir fuel resolved [] (reveal_all r) (recursive_flag r)
    end.
End Reveal.

(** ** The order of names *)
#[export] Instance le_str_total : Total le_str.
Proof.
  intros a. induction a as [|x a IH]; intros [|y b]; unfold le_str; simpl; try by (left + right).
  destruct (Nat.ltb_spec (nat_of_ascii x) (nat_of_ascii y)); [by left|].
  destruct (Nat.ltb_spec (nat_of_ascii y) (nat_of_ascii x)); [by right|]. apply IH.
Qed.

#[export] Instance le_str_trans : Transitive le_str.
Proof.
  intros a. induction a as [|x a IH]; intros [|y b] [|z c]; unfold le_str in *; simpl; try done.
  destruct (Nat.ltb_spec (nat_of_ascii x) (nat_of_ascii y)),
    (Nat.ltb_spec (nat_of_ascii y) (nat_of_ascii x)),
    (Nat.ltb_spec (nat_of_ascii y) (nat_of_ascii z)),
    (Nat.ltb_spec (nat_of_ascii z) (nat_of_ascii y)),
    (Nat.ltb_spec (nat_of_ascii x) (nat_of_ascii z)),
    (Nat.ltb_spec (nat_of_ascii z) (nat_of_ascii x)); try done; try lia.
  apply IH.
Qed.

#[export] Instance le_str_antisymm : AntiSymm (=) le_str.
Proof.
  intros a. induction a as [|x a IH]; intros [|y b]; unfold le_str in *; simpl; try done.
  destruct (Nat.ltb_spec (nat_of_ascii x) (nat_of_ascii y)),
    (Nat.ltb_spec (nat_of_ascii y) (nat_of_ascii x)); try done; try lia.
  intros H1 H2. f_equal; [|by apply IH].
  rewrite <-(ascii_nat_embedding x), <-(ascii_nat_embedding y). f_equal. lia.
Qed.

Lemma sort_names_unique names l : Sorted le_str l → l ≡ₚ names → sort_names names = l.
Proof.
  intros Hs Hp. unfold sort_names. apply (Sorted_unique le_str); [apply Sorted_merge_sort, _|done|].
  by rewrite (merge_sort_Permutation le_str), Hp.
Qed.

(** ** Trees *)
Inductive tree :=
  | File
  | Dir (entries : list (cstr * tree)).

Fixpoint depth (t : tree) : nat :=
  match t with
  | File => 0
  | Dir es => S ((fix go es := match es with [] => 0 | (_, t) :: es => depth t `max` go es end) es)
  end.

Section Spec.
Context (readdir : cstr → option (list cstr)) (is_dir : cstr → bool) (show_all : bool).

(** What [reveal -t] is to print for the entries of a directory, which are
    listed in order: all of them, then the contents of each directory. *)
Fixpoint tree_lines (prefix : cstr) (t : tree) : list cstr :=
  match t with
  | File => []
  | Dir es =>
      (fix names es := match es with
        | [] => []
        | (n, t) :: es =>
            (if wanted show_all n
             then [with_prefix prefix n ++ match t with Dir _ => lit "/" | File => [] end ++ [NL]]
             else []) ++ names es
        end) es ++
      (fix below es := match es with
        | [] => []
        | (n, t) :: es =>
            (if wanted show_all n then tree_lines (with_prefix prefix n) t else []) ++ below es
        end) es
  end.

(** The file system holds the tree at the path [p], printed with [prefix]. *)
Fixpoint present (p prefix : cstr) (t : tree) : Prop :=
  match t with
  | File => is_dir p = false
  | Dir es =>
      is_dir p = true ∧ Sorted le_str es.*1 ∧ length es < MAX_ENTRIES ∧
      (∃ l, readdir p = Some l ∧ filter (λ n, wanted show_all n = true) l
              ≡ₚ filter (λ n, wanted show_all n = true) es.*1) ∧
      (fix all es := match es with
        | [] => True
        | (n, t) :: es =>
            length (join p n) < MAX_PATH ∧ length (with_prefix prefix n) < MAX_PATH ∧
            present (join p n) (with_prefix prefix n) t ∧ all es
        end) es
  end.

Lemma collect_filter count l :
  count + length (filter (λ n, wanted show_all n = true) l) < MAX_ENTRIES →
  collect show_all count l = filter (λ n, wanted show_all n = true) l.
Proof.
  revert count. induction l as [|n l IH]; intros count Hc; cbn [collect]; [done|].
  rewrite filter_cons in *. destruct (wanted show_all n) eqn:E.
  - rewrite decide_True in * by done. cbn [length] in Hc.
    rewrite (proj2 (Nat.leb_gt MAX_ENTRIES (S count))) by lia. by rewrite IH by lia.
  - rewrite decide_False in * by done. by apply IH.
Qed.

Lemma sorted_filter l (P : cstr → Prop) `{∀ x, Decision (P x)} :
  Sorted le_str l → Sorted le_str (filter P l).
Proof.
  intros Hs. apply StronglySorted_Sorted. apply Sorted_StronglySorted in Hs; [|apply _].
  induction Hs as [|x l Hs IH Hx]; [constructor|]. rewrite filter_cons. case_decide; [|done].
  constructor; [done|]. rewrite Forall_forall in *. intros y Hy. apply Hx.
  by apply list_elem_of_filter in Hy as [_ Hy].
Qed.

Lemma reveal_tree fuel p prefix es :
  depth (Dir es) ≤ fuel → present p prefix (Dir es) →
  reveal_list_dir readdir is_dir fuel p prefix show_all true = Some (tree_lines prefix (Dir es)).
Proof.
  revert p prefix es. induction fuel as [|fuel IH]; intros p prefix es Hf Hp; [simpl in Hf; lia|].
  destruct Hp as (Hd & Hs & Hn & (l & Hl & Hperm) & Hall). cbn [reveal_list_dir]. rewrite Hl.
  assert (Hlen : length (filter (λ n, wanted show_all n = true) l) < MAX_ENTRIES).
  { rewrite Hperm. pose proof (length_filter (λ n, wanted show_all n = true) es.*1) as Hle.
    rewrite length_fmap in Hle. lia. }
  rewrite collect_filter by (simpl; lia).
  rewrite (sort_names_unique _ (filter (λ n, wanted show_all n = true) es.*1));
    [|by apply sorted_filter|by symmetry].
  cbn [depth] in Hf. apply le_S_n in Hf. clear Hd Hs Hn Hl Hperm Hlen l.
  cbn [tree_lines].
  match goal with |- context [mapM ?f _] => set (rec := f) end.
  match goal with |- _ = Some (?N ++ ?B) => enough (∃ ls,
    mapM rec (filter (λ n, wanted show_all n = true) es.*1) = Some ls ∧ concat ls = B ∧
    entry_line is_dir p prefix true <$> filter (λ n, wanted show_all n = true) es.*1 = N)
  end.
  { destruct H as (ls & Hm & Hc & Hn). rewrite Hm. cbn [mbind option_bind]. by rewrite Hc, Hn. }
  induction es as [|[n t] es IHes]; [by exists []|].
  destruct Hall as (Hl1 & Hl2 & Ht & Hall).
  destruct IHes as (ls & Hm & Hc & Hn); [lia|done|]. cbn [fmap list_fmap fst].
  rewrite filter_cons. destruct (wanted show_all n).
  2: { rewrite decide_False by done. exists ls. done. }
  rewrite decide_True by done. cbn [fmap list_fmap].
  assert (Hj : take (MAX_PATH - 1) (join p n) = join p n) by (apply take_ge; lia).
  assert (Hw : take (MAX_PATH - 1) (with_prefix prefix n) = with_prefix prefix n)
    by (apply take_ge; lia).
  assert (rec n = Some (tree_lines (with_prefix prefix n) t) ∧
    is_dir (join p n) = match t with Dir _ => true | File => false end) as [Hrec Hdir].
  { unfold rec. rewrite Hj, Hw. destruct t as [|es'].
    - cbn [present] in Ht. by rewrite Ht.
    - pose proof Ht as [Hd _]. rewrite Hd. split; [|done]. apply IH; [lia|done]. }
  exists (tree_lines (with_prefix prefix n) t :: ls). cbn [mapM]. rewrite Hrec, Hm.
  split; [done|]. split; [cbn [concat]; by rewrite Hc|].
  rewrite Hn. cbn [app]. f_equal. unfold entry_line. rewrite Hj, Hdir. by destruct t.
Qed.
End Spec.

(** C40: [reveal -t] prints a directory tree completely and in order, when
    every directory has fewer than 4096 entries and every path is shorter than
    4096 bytes ([present]; a larger directory is cut, lemma [large_directory_cut],
    a longer path is truncated): the names of a directory, bare, sorted as strcmp sorts them, directories with a slash, then
    the contents of each of its directories, recursively, hidden names only
    with -a; recursion as deep as the tree is enough (each level takes about
    45 KB of the stack, which is not bounded here). *)
Theorem reveal_lists_tree (readdir : cstr → option (list cstr)) (is_dir : cstr → bool)
    (show_all : bool) (fuel : nat) (p : cstr) (es : list (cstr * tree)) :
  present readdir is_dir show_all p [] (Dir es) → depth (Dir es) ≤ fuel →
  reveal_list_dir readdir is_dir fuel p [] show_all true = Some (tree_lines show_all [] (Dir es)).
Proof. intros Hp Hf. by apply reveal_tree. Qed.

(** A directory shows no more than 4096 names, whatever it holds. *)
Lemma large_directory_cut show_all count l :
  count < MAX_ENTRIES → length (collect show_all count l) ≤ MAX_ENTRIES - count.
Proof.
  revert count. induction l as [|n l IH]; intros count Hc; cbn [collect]; [simpl; lia|].
  destruct (wanted show_all n); [|by apply IH]. cbn [length].
  destruct (Nat.leb_spec MAX_ENTRIES (S count)); [simpl; lia|].
  pose proof (IH (S count) ltac:(done)). lia.
Qed.

(** A name with a blank is printed as it is. *)
Lemma blank_names_bare (is_dir : cstr → bool) :
  is_dir (lit "/d/a b") = false →
  entry_line is_dir (lit "/d") [] true (lit "a b") = lit "a b" ++ [NL].
Proof. intros H. unfold entry_line. change (take _ _) with (lit "/d/a b"). by rewrite H. Qed.

(** /d with the file b, the hidden file .h and the directory a, which has c. *)
Definition small_tree : list (cstr * tree) :=
  [(lit ".h", File); (lit "a", Dir [(lit "c", File)]); (lit "b", File)].

Definition small_readdir (p : cstr) : option (list cstr) :=
  if streq p (lit "/d") then Some [lit "b"; lit "."; lit "a"; lit ".."; lit ".h"]
  else if streq p (lit "/d/a") then Some [lit ".."; lit "c"; lit "."] else None.

Definition small_is_dir (p : cstr) : bool := streq p (lit "/d") || streq p (lit "/d/a").

Lemma reveal_lists_tree_witness :
  reveal_list_dir small_readdir small_is_dir 2 (lit "/d") [] false true
    = Some (tree_lines false [] (Dir small_tree)) ∧
  tree_lines false [] (Dir small_tree)
    = [lit "a/" ++ [NL]; lit "b" ++ [NL]; lit "a/c" ++ [NL]].
Proof.
  split; [|reflexivity].
  apply (reveal_lists_tree small_readdir small_is_dir false 2 (lit "/d") small_tree); [|simpl; lia].
  cbn. split; [reflexivity|]. split; [repeat constructor|]. split; [unfold MAX_ENTRIES; lia|].
  split; [exists [lit "b"; lit "."; lit "a"; lit ".."; lit ".h"]; split; [reflexivity|];
    vm_compute; constructor|].
  unfold MAX_PATH. split; [simpl; lia|]. split; [simpl; lia|]. split; [reflexivity|].
  split; [simpl; lia|]. split; [simpl; lia|]. split.
  { split; [reflexivity|]. split; [repeat constructor|]. split; [unfold MAX_ENTRIES; lia|].
    split; [exists [lit ".."; lit "c"; lit "."]; split; [reflexivity|]; reflexivity|].
    split; [simpl; lia|]. split; [simpl; lia|]. split; [reflexivity|done]. }
  split; [simpl; lia|]. split; [simpl; lia|]. split; [reflexivity|done].
Defined.

Lemma trim_right_line s :
  NL ∉ s → match last s with Some c => isspace c = false | None => False end →
  trim_right (s ++ [NL]) = s.
Proof.
  intros Hn Hl. unfold trim_right. rewrite rev_unit. cbn [skip_space].
  change (isspace NL) with true. cbv iota.
  destruct s as [|c s _] using rev_ind; [done|]. rewrite last_snoc in Hl. rewrite rev_unit.
  cbn [skip_space]. rewrite Hl. rewrite <-rev_unit. apply rev_involutive.
Qed.

(** [hop -] and [reveal -] mean the same directory: whatever [hop] commands
    a session has run, the file that [reveal] reads holds the directory that
    [hop] remembers, when that directory is readable as one line. *)
Theorem reveal_dash_is_hop_dash (home : cstr) (chdir : cstr → cstr → option cstr)
    (directory_exists : cstr → cstr → bool) (time : nat → Z) (malloc_ok : nat → bool)
    (can_write : cstr → bool) (lines : list (list cstr)) (s : hop_state) :
  let s' := run_hops home chdir directory_exists time malloc_ok can_write lines s in
  previous_dir s = [] → (∀ f, can_write f = true) → length home ≤ 4000 →
  NL ∉ previous_dir s' → length (previous_dir s') < MAX_PATH →
  match last (previous_dir s') with Some c => isspace c = false | None => False end →
  read_prev_dir (files s') home BIGGER_BUFFER = Some (previous_dir s').
Proof.
  intros s' Hs Hw Hh Hnl Hlen Hlast.
  destruct (run_hops_agree home chdir directory_exists time malloc_ok can_write lines s Hw
    (paths_differ home Hh) Hs) as [Hf _].
  { intros H. fold s' in H. by rewrite H in Hlast. }
  fold s' in Hf. unfold read_prev_dir.
  replace (take (BIGGER_BUFFER - 1) (home ++ lit "/prev_dir.txt")) with (prev_path home).
  2: { unfold prev_path, STRING_SIZE, BIGGER_BUFFER, MAX_PATH.
       by rewrite !take_ge by (rewrite length_app; simpl; lia). }
  rewrite Hf. cbn [mbind option_bind]. rewrite fgets_line; [|unfold BIGGER_BUFFER, MAX_PATH in *; lia|done].
  pose proof (trim_right_line (previous_dir s') Hnl Hlast) as Ht.
  destruct (previous_dir s' ++ [NL]) as [|c l] eqn:E; [by destruct (previous_dir s')|].
  rewrite Ht. destruct (previous_dir s') as [|x p] eqn:Ep; [done|].
  f_equal. apply take_ge. unfold BIGGER_BUFFER, MAX_PATH in *. lia.
Qed.

(** Every directory exists; [hop /tmp] and [hop ~] from /home. *)
Definition absolute_chdir (cwd target : cstr) : option cstr := Some target.

Lemma reveal_dash_is_hop_dash_witness :
  read_prev_dir (files (run_hops (lit "/home") absolute_chdir (λ _ _, true) Z.of_nat (λ _, true)
      (λ _, true) [[lit "/tmp"]; [lit "~"]] (fresh_hop (λ _, None)))) (lit "/home") BIGGER_BUFFER
  = Some (previous_dir (run_hops (lit "/home") absolute_chdir (λ _ _, true) Z.of_nat (λ _, true)
      (λ _, true) [[lit "/tmp"]; [lit "~"]] (fresh_hop (λ _, None)))).
Proof.
  apply (reveal_dash_is_hop_dash (lit "/home") absolute_chdir (λ _ _, true) Z.of_nat (λ _, true)
      (λ _, true) [[lit "/tmp"]; [lit "~"]] (fresh_hop (λ _, None))).
  - reflexivity.
  - done.
  - simpl. lia.
  - apply (bool_decide_eq_false_1 (NL ∈ _)). vm_compute. reflexivity.
  - vm_compute. lia.
  - vm_compute. reflexivity.
Defined.
