(* ===== verification/Snoop.v ===== *)
(** * The [snoop] builtin (c-shell/src/snoop.c)

    [snoop] follows a process with ptrace and counts its system calls.  What
    [ptrace], [waitpid] and the clock answer, turn after turn, is a list of
    events; times are whole nanoseconds, and [show_time] is what [printf] makes of
    a time with "%.3f". *)

From stdpp Require Import sorting.
From S2P Require Import Prelude Clib.

#[local] Set Warnings "-clear-no-such-hyp".
#[local] Set Default Proof Using "Type".
Local Open Scope Z_scope.

Definition MAX_SYSCALLS : nat := 512.

Record syscall_stat := { sys_no : Z; calls : Z; total_time : Z; first_order : Z }.

Definition syscall_names : list (Z * string) :=
  [(0, "read"); (1, "write"); (2, "open"); (3, "close"); (4, "stat"); (5, "fstat"); (6, "lstat"); (8, "lseek");
   (9, "mmap"); (10, "mprotect"); (11, "munmap"); (12, "brk"); (13, "rt_sigaction"); (14, "rt_sigprocmask");
   (21, "access"); (22, "pipe"); (32, "dup"); (33, "dup2"); (39, "getpid"); (41, "socket"); (56, "clone");
   (57, "fork"); (59, "execve"); (60, "exit"); (61, "wait4"); (62, "kill"); (78, "getdents"); (79, "getcwd");
   (89, "readlink"); (97, "getrlimit"); (102, "getuid"); (158, "arch_prctl"); (186, "gettid");
   (218, "set_tid_address"); (231, "exit_group"); (232, "epoll_wait"); (257, "openat"); (262, "newfstatat");
   (273, "set_robust_list"); (302, "prlimit64"); (318, "getrandom"); (35, "nanosleep"); (230, "clock_nanosleep");
   (217, "getdents64"); (334, "rseq"); (17, "pread64"); (16, "ioctl"); (63, "uname")]%string.

Definition syscall_name (num : Z) : option cstr :=
  '(_, (_, name)) ← list_find (λ x, x.1 = num) syscall_names; Some (lit name).

(** [stats], [stat_count] and [order_counter] *)
Record tally := { stats : list syscall_stat; order_counter : Z }.

(** The index of the slot. *)
Definition get_stat_slot (no : Z) (t : tally) : option nat * tally :=
  match list_find (λ s, sys_no s = no) (stats t) with
  | Some (i, _) => (Some i, t)
  | None =>
      if (MAX_SYSCALLS <=? length (stats t))%nat then (None, t)
      else
        (Some (length (stats t)),
         {| stats := stats t ++ [{| sys_no := no; calls := 0; total_time := 0; first_order := order_counter t |}];
            order_counter := order_counter t + 1 |})
  end.

Definition count_call (dt : Z) (s : syscall_stat) : syscall_stat :=
  {| sys_no := sys_no s; calls := calls s + 1; total_time := total_time s + dt; first_order := first_order s |}.

(** ** Tracing *)

(** What a turn of the loop meets: a failing call, the end of the process, a stop at a system call with
    its number ([None]: PTRACE_GETREGS fails) and the time, a plain SIGTRAP, another signal, or a status
    that is none of these. *)
Inductive event :=
  | Fails
  | Ended
  | SyscallStop (rax : option Z) (now : Z)
  | TrapStop
  | SignalStop (sig : Z)
  | OtherStatus.

Record tracer := { in_syscall : bool; cur_sys_no : Z; entry_time : Z; tally_of : tally }.

(** A stop at a system call. *)
Definition syscall_stop (no now : Z) (t : tracer) : tracer :=
  if in_syscall t then
    let (slot, ta) := get_stat_slot (cur_sys_no t) (tally_of t) in
    {| in_syscall := false; cur_sys_no := cur_sys_no t; entry_time := entry_time t;
       tally_of :=
         match slot with
         | Some i => {| stats := alter (count_call (now - entry_time t)) i (stats ta); order_counter := order_counter ta |}
         | None => ta
         end |}
  else {| in_syscall := true; cur_sys_no := no; entry_time := now; tally_of := tally_of t |}.

(** The tracer at the end and the signals passed on to the process with PTRACE_SYSCALL. *)
Fixpoint trace_loop (sig : Z) (evs : list event) (t : tracer) : tracer * list Z :=
  match evs with
  | [] => (t, [sig])
  | ev :: evs =>
      let go sig' t := let (t', sigs) := trace_loop sig' evs t in (t', sig :: sigs) in
      match ev with
      | Fails | Ended => (t, [sig])
      | SyscallStop None _ => (t, [sig])
      | SyscallStop (Some no) now => go 0 (syscall_stop no now t)
      | TrapStop => go 0 t
      | SignalStop s => go s t
      | OtherStatus => go 0 t
      end
  end.

(** ** The summary *)
Definition compare_stats (a b : syscall_stat) : Z :=
  if calls a =? calls b then first_order a - first_order b else i32 (calls b - calls a).

(** [qsort]: the order is total on different entries, so every sort gives this list. *)
Fixpoint insert_stat (x : syscall_stat) (l : list syscall_stat) : list syscall_stat :=
  match l with
  | [] => [x]
  | y :: l' => if compare_stats x y <=? 0 then x :: l else y :: insert_stat x l'
  end.
Definition sort_stats (l : list syscall_stat) : list syscall_stat := foldr insert_stat [] l.

(** "%-ns" *)
Definition pad (n : nat) (s : cstr) : cstr := s ++ replicate (n - length s) SP.

Section Output.
Context (show_time : Z → cstr).

Definition summary_row (s : syscall_stat) : cstr :=
  let name := default (take 63 (lit "syscall_" ++ print_Z (sys_no s))) (syscall_name (sys_no s)) in
  pad 12 name ++ lit "  " ++ pad 6 (print_Z (calls s)) ++ lit "  " ++ show_time (total_time s) ++ lit "s" ++ [NL].

Definition print_summary (l : list syscall_stat) : cstr :=
  lit "syscall       calls   time" ++ NL :: concat (summary_row <$> sort_stats l).

(** ** The command *)
Definition is_valid_pid_str (s : cstr) : bool :=
  match s with [] => false | _ => forallb is_digit s end.

Definition atoi (s : cstr) : Z := i32 (fst (strtol s)).

Inductive attach_result := Attached | NotPermitted | NotAttached.

(** What the system answers: [stat] of a path of /proc, PTRACE_ATTACH, [fork] and the first status of
    the child ([None]: no child, [Some true]: it ended before it could be traced), and the events. *)
Record snoop_env := {
  proc_exists : cstr → bool;
  attach : Z → attach_result;
  child : option bool;
  events : list event
}.

Definition empty_tracer : tracer :=
  {| in_syscall := false; cur_sys_no := -1; entry_time := 0; tally_of := {| stats := []; order_counter := 0 |} |}.

Definition message (s : string) : cstr := lit "snoop: " ++ lit s ++ [NL].

Definition trace_and_print (env : snoop_env) : cstr :=
  print_summary (stats (tally_of (fst (trace_loop 0 (events env) empty_tracer)))).

(** The output. *)
Definition snoop_command (env : snoop_env) (args : list cstr) : cstr :=
  match args with
  | _ :: flag :: arg :: _ =>
      if streq flag (lit "-p") then
        if negb (is_valid_pid_str arg) then message "no such process"
        else
          let pid := atoi arg in
          if negb (proc_exists env (take 63 (lit "/proc/" ++ print_Z pid))) then message "no such process"
          else
            match attach env pid with
            | NotPermitted => message "permission denied"
            | NotAttached => message "no such process"
            | Attached => trace_and_print env
            end
      else
        match child env with
        | Some false => trace_and_print env
        | _ => message "command not found"
        end
  | _ :: _ :: _ =>
      match child env with
      | Some false => trace_and_print env
      | _ => message "command not found"
      end
  | _ => message "command not found"
  end.
End Output.

(** ** What is counted *)

(** The stops at system calls that the loop sees. *)
Fixpoint stops (evs : list event) : list (Z * Z) :=
  match evs with
  | [] => []
  | Fails :: _ | Ended :: _ | SyscallStop None _ :: _ => []
  | SyscallStop (Some no) now :: evs => (no, now) :: stops evs
  | _ :: evs => stops evs
  end.

(** The calls that returned, with their durations: each entry with the exit that follows. *)
Fixpoint returned (l : list (Z * Z)) : list (Z * Z) :=
  match l with
  | (no, t1) :: (_, t2) :: l => (no, t2 - t1) :: returned l
  | _ => []
  end.

Definition add_new (ns : list Z) (n : Z) : list Z := if decide (n ∈ ns) then ns else ns ++ [n].

(** The numbers in the order of their first calls. *)
Definition numbers (l : list (Z * Z)) : list Z := foldl add_new [] (fst <$> l).

Definition count_of (n : Z) (l : list (Z * Z)) : Z := Z.of_nat (length (filter (λ x, x.1 = n) l)).
Definition time_of (n : Z) (l : list (Z * Z)) : Z := foldr Z.add 0 (snd <$> filter (λ x, x.1 = n) l).

Definition stat_of (l : list (Z * Z)) (k : nat) (n : Z) : syscall_stat :=
  {| sys_no := n; calls := count_of n l; total_time := time_of n l; first_order := Z.of_nat k |}.

Definition tally_spec (l : list (Z * Z)) : tally :=
  {| stats := imap (stat_of l) (numbers l); order_counter := Z.of_nat (length (numbers l)) |}.

Lemma numbers_snoc l n dt : numbers (l ++ [(n, dt)]) = add_new (numbers l) n.
Proof. unfold numbers. by rewrite fmap_app, foldl_app. Qed.

Lemma numbers_elem l n : n ∈ numbers l ↔ n ∈ fst <$> l.
Proof.
  induction l as [|[m dt] l IH] using rev_ind; [done|]. rewrite numbers_snoc, fmap_app, elem_of_app.
  unfold add_new. case_decide as H.
  - rewrite IH. split; [by left|]. intros [?|?%list_elem_of_singleton]; [done|]. cbn in *. subst. by apply IH.
  - rewrite elem_of_app, IH. done.
Qed.

Lemma numbers_nodup l : NoDup (numbers l).
Proof.
  induction l as [|[m dt] l IH] using rev_ind; [constructor|]. rewrite numbers_snoc. unfold add_new.
  case_decide; [done|]. apply NoDup_app. split; [done|]. split; [|apply NoDup_singleton].
  intros x Hx ->%list_elem_of_singleton. done.
Qed.

Lemma numbers_mono l x : (length (numbers l) ≤ length (numbers (l ++ [x])))%nat.
Proof. destruct x as [n dt]. rewrite numbers_snoc. unfold add_new. case_decide; rewrite ?length_app; lia. Qed.

Lemma count_snoc n m dt l : count_of n (l ++ [(m, dt)]) = count_of n l + if decide (m = n) then 1 else 0.
Proof.
  unfold count_of. rewrite filter_app, length_app. rewrite filter_cons. cbn [fst filter list_filter].
  destruct (decide (m = n)) as [H|H]; cbn [length]; lia.
Qed.

Lemma sum_app l1 l2 : foldr Z.add 0 (l1 ++ l2) = foldr Z.add 0 l1 + foldr Z.add 0 l2.
Proof. induction l1 as [|x l1 IH]; cbn; lia. Qed.

Lemma time_snoc n m dt l : time_of n (l ++ [(m, dt)]) = time_of n l + if decide (m = n) then dt else 0.
Proof.
  unfold time_of. rewrite filter_app, fmap_app, sum_app. f_equal. rewrite filter_cons. cbn [fst].
  destruct (decide (m = n)); cbn; lia.
Qed.

(** One more call. *)
Lemma slot_spec l n dt :
  (length (numbers (l ++ [(n, dt)])) ≤ MAX_SYSCALLS)%nat →
  let (slot, ta) := get_stat_slot n (tally_spec l) in
  ∃ i, slot = Some i ∧
    {| stats := alter (count_call dt) i (stats ta); order_counter := order_counter ta |} = tally_spec (l ++ [(n, dt)]).
Proof.
  intros Hlen. pose proof (numbers_nodup l) as Hnd. rewrite numbers_snoc in Hlen. unfold get_stat_slot.
  cbn [stats tally_spec]. unfold add_new in Hlen. destruct (decide (n ∈ numbers l)) as [Hin|Hnin].
  - apply list_elem_of_lookup in Hin as [i Hi].
    assert (Hf : list_find (λ s, sys_no s = n) (imap (stat_of l) (numbers l)) = Some (i, stat_of l i n)).
    { apply list_find_Some. split; [by rewrite list_lookup_imap, Hi|]. split; [done|].
      intros j y Hj Hlt Hy. rewrite list_lookup_imap in Hj. destruct (numbers l !! j) as [m|] eqn:Ej; [|done].
      cbn in Hj. injection Hj as <-. cbn in Hy. subst m. assert (i = j); [|lia]. by eapply NoDup_lookup. }
    rewrite Hf. exists i. split; [done|]. unfold tally_spec. rewrite numbers_snoc. unfold add_new.
    rewrite decide_True by (by eapply list_elem_of_lookup_2). f_equal. cbn [stats]. apply list_eq. intros j.
    rewrite list_lookup_imap. destruct (decide (j = i)) as [->|Hne].
    + rewrite list_lookup_alter_eq, list_lookup_imap, Hi. cbn. f_equal. unfold count_call, stat_of. cbn.
      by rewrite count_snoc, time_snoc, !decide_True.
    + rewrite list_lookup_alter_ne, list_lookup_imap by done. destruct (numbers l !! j) as [m|] eqn:Ej; [|done].
      cbn. f_equal. assert (n ≠ m) by (intros ->; apply Hne; by eapply NoDup_lookup).
      unfold stat_of. by rewrite count_snoc, time_snoc, !decide_False, !Z.add_0_r.
  - rewrite length_app in Hlen. cbn [length] in Hlen.
    assert (Hf : list_find (λ s, sys_no s = n) (imap (stat_of l) (numbers l)) = None).
    { apply list_find_None. apply Forall_forall. intros y Hy. apply elem_of_lookup_imap in Hy as (j & m & -> & Hm).
      cbn. intros ->. apply Hnin. by eapply list_elem_of_lookup_2. }
    rewrite Hf. rewrite length_imap. rewrite (proj2 (Nat.leb_gt _ _)) by lia. eexists. split; [done|].
    unfold tally_spec. cbn [order_counter stats]. rewrite numbers_snoc. unfold add_new. rewrite decide_False by done.
    rewrite length_app. cbn [length]. f_equal; [|lia]. apply list_eq. intros j. rewrite list_lookup_imap.
    assert (Hc0 : count_of n l = 0 ∧ time_of n l = 0).
    { unfold count_of, time_of. destruct (filter (λ x, x.1 = n) l) as [|x r] eqn:E; [done|]. exfalso.
      assert (Hx : x ∈ filter (λ x, x.1 = n) l) by (rewrite E; by left).
      apply list_elem_of_filter in Hx as [Ex Hx]. apply Hnin, numbers_elem, list_elem_of_fmap. by exists x. }
    destruct (decide (j = length (numbers l))) as [->|Hne].
    + rewrite list_lookup_alter_eq. rewrite !lookup_app_r by (rewrite ?length_imap; lia).
      rewrite length_imap, Nat.sub_diag. cbn. f_equal. unfold count_call, stat_of. cbn.
      rewrite count_snoc, time_snoc, !decide_True by done. destruct Hc0 as [-> ->]. done.
    + rewrite list_lookup_alter_ne by done. destruct (decide (j < length (numbers l))%nat) as [Hj|Hj].
      * rewrite !lookup_app_l by (rewrite ?length_imap; lia). rewrite list_lookup_imap.
        destruct (numbers l !! j) as [m|] eqn:Ej; [|done]. cbn. f_equal.
        assert (n ≠ m) by (intros ->; apply Hnin; by eapply list_elem_of_lookup_2).
        unfold stat_of. by rewrite count_snoc, time_snoc, !decide_False, !Z.add_0_r.
      * rewrite !lookup_ge_None_2; [done|rewrite length_app; cbn; lia|rewrite length_app, length_imap; cbn; lia].
Qed.

Lemma numbers_app_le l l' : (length (numbers l) ≤ length (numbers (l ++ l')))%nat.
Proof.
  induction l' as [|x l' IH] using rev_ind; [by rewrite app_nil_r|]. rewrite app_assoc.
  pose proof (numbers_mono (l ++ l') x). lia.
Qed.

(** The entry waiting for its exit. *)
Definition pending (t : tracer) (p : option (Z * Z)) : Prop :=
  match p with
  | None => in_syscall t = false
  | Some (no, t1) => in_syscall t = true ∧ cur_sys_no t = no ∧ entry_time t = t1
  end.

Definition with_pending (p : option (Z * Z)) (l : list (Z * Z)) : list (Z * Z) :=
  match p with None => l | Some x => x :: l end.

Lemma trace_loop_spec sig evs t l p :
  tally_of t = tally_spec l → pending t p →
  (length (numbers (l ++ returned (with_pending p (stops evs)))) ≤ MAX_SYSCALLS)%nat →
  tally_of (fst (trace_loop sig evs t)) = tally_spec (l ++ returned (with_pending p (stops evs))).
Proof.
  revert sig t l p. induction evs as [|ev evs IH]; intros sig t l p Ht Hp Hlen.
  { cbn. rewrite Ht. by destruct p as [[]|]; rewrite app_nil_r. }
  assert (Hend : stops (ev :: evs) = [] → fst (trace_loop sig (ev :: evs) t) = t →
    tally_of (fst (trace_loop sig (ev :: evs) t)) = tally_spec (l ++ returned (with_pending p (stops (ev :: evs))))).
  { intros -> ->. rewrite Ht. by destruct p as [[]|]; rewrite app_nil_r. }
  destruct ev as [| |[no|] now| |s|]; try (by apply Hend); cbn [trace_loop stops] in *.
  2: { specialize (IH 0 t l p Ht Hp Hlen). destruct (trace_loop 0 evs t) as [t' sigs]. exact IH. }
  2: { specialize (IH s t l p Ht Hp Hlen). destruct (trace_loop s evs t) as [t' sigs]. exact IH. }
  2: { specialize (IH 0 t l p Ht Hp Hlen). destruct (trace_loop 0 evs t) as [t' sigs]. exact IH. }
  destruct p as [[n1 t1]|]; cbn [with_pending returned pending] in *.
  - destruct Hp as (H1 & H2 & H3).
    assert (Hl1 : (length (numbers (l ++ [(n1, (now - t1)%Z)])) ≤ MAX_SYSCALLS)%nat).
    { pose proof (numbers_app_le (l ++ [(n1, now - t1)]) (returned (stops evs))) as H. rewrite <-app_assoc in H. cbn in H. lia. }
    pose proof (slot_spec l n1 (now - t1) Hl1) as Hs. specialize (IH 0 (syscall_stop no now t) (l ++ [(n1, now - t1)]) None).
    unfold syscall_stop in *. rewrite H1, H2, H3, Ht in *.
    destruct (get_stat_slot n1 (tally_spec l)) as [slot ta]. destruct Hs as (k & -> & Hs).
    cbn [with_pending tally_of] in IH. rewrite <-app_assoc in IH. specialize (IH Hs eq_refl Hlen).
    destruct (trace_loop 0 evs _) as [t' sigs]. exact IH.
  - specialize (IH 0 (syscall_stop no now t) l (Some (no, now))). unfold syscall_stop in *. rewrite Hp in *.
    specialize (IH Ht ltac:(done) Hlen). destruct (trace_loop 0 evs _) as [t' sigs]. exact IH.
Qed.

(** *** The order of the rows *)
Definition row_before (a b : syscall_stat) : Prop :=
  calls b < calls a ∨ (calls a = calls b ∧ first_order a < first_order b).

Lemma compare_before a b :
  0 ≤ calls a < 2 ^ 31 → 0 ≤ calls b < 2 ^ 31 → first_order a ≠ first_order b →
  if compare_stats a b <=? 0 then row_before a b else row_before b a.
Proof.
  intros Ha Hb Hf. unfold compare_stats, row_before. destruct (calls a =? calls b) eqn:E.
  - destruct (first_order a - first_order b <=? 0) eqn:E2; lia.
  - assert (Ei : i32 (calls b - calls a) = calls b - calls a) by (unfold i32; rewrite Z.mod_small; lia).
    rewrite Ei. destruct (calls b - calls a <=? 0) eqn:E2; lia.
Qed.

Lemma insert_stat_perm x l : insert_stat x l ≡ₚ x :: l.
Proof.
  induction l as [|y l IH]; [done|]. cbn [insert_stat]. case_match; [done|]. rewrite IH. by rewrite Permutation_swap.
Qed.

Lemma sort_stats_perm l : sort_stats l ≡ₚ l.
Proof. induction l as [|x l IH]; [done|]. cbn. by rewrite insert_stat_perm, IH. Qed.

Lemma row_before_trans a b c : row_before a b → row_before b c → row_before a c.
Proof. unfold row_before. lia. Qed.

Lemma insert_stat_sorted x l :
  0 ≤ calls x < 2 ^ 31 → Forall (λ y, 0 ≤ calls y < 2 ^ 31 ∧ first_order x ≠ first_order y) l →
  StronglySorted row_before l → StronglySorted row_before (insert_stat x l).
Proof.
  intros Hx Hl Hs. induction Hs as [|y l Hs IH Hy]; cbn [insert_stat]; [by repeat constructor|].
  apply Forall_cons in Hl as [[Hc Hf] Hl]. pose proof (compare_before x y Hx Hc Hf) as Hb.
  destruct (compare_stats x y <=? 0).
  - constructor; [by constructor|]. constructor; [done|]. eapply Forall_impl; [exact Hy|]. intros z Hz.
    by eapply row_before_trans.
  - constructor; [by apply IH|]. rewrite insert_stat_perm. by constructor.
Qed.

Lemma sort_stats_sorted l :
  Forall (λ y, 0 ≤ calls y < 2 ^ 31) l → NoDup (first_order <$> l) → StronglySorted row_before (sort_stats l).
Proof.
  induction l as [|x l IH]; [constructor|]. intros [Hx Hl]%Forall_cons Hn. cbn in Hn. apply NoDup_cons in Hn as [Hn1 Hn2].
  cbn. apply insert_stat_sorted; [done| |by apply IH]. rewrite sort_stats_perm. apply Forall_forall. intros y Hy.
  rewrite Forall_forall in Hl. split; [by apply Hl|]. intros E. apply Hn1. rewrite E. by apply list_elem_of_fmap_2.
Qed.

(** for a process that makes at most 512 different system calls, [snoop] prints one row for each number of
    which a call returned before the process ended, with how many returned and the sum of their durations, from
    the most called down, the first called first among equals. *)
Theorem snoop_summary show_time evs :
  let l := returned (stops evs) in
  (length (numbers l) ≤ MAX_SYSCALLS)%nat → Z.of_nat (length l) < 2 ^ 31 →
  ∃ rows,
    print_summary show_time (stats (tally_of (fst (trace_loop 0 evs empty_tracer))))
    = lit "syscall       calls   time" ++ NL :: concat (summary_row show_time <$> rows) ∧
    rows ≡ₚ imap (stat_of l) (numbers l) ∧ StronglySorted row_before rows.
Proof.
  intros l Hn Hl. pose proof (trace_loop_spec 0 evs empty_tracer [] None eq_refl eq_refl Hn) as Ht.
  cbn [app with_pending] in Ht. fold l in Ht. rewrite Ht. eexists. split; [reflexivity|]. cbn [stats tally_spec].
  split; [apply sort_stats_perm|]. apply sort_stats_sorted.
  - apply Forall_forall. intros y Hy. apply elem_of_lookup_imap in Hy as (j & m & -> & Hm). cbn. unfold count_of.
    pose proof (length_filter (λ x, x.1 = m) l). lia.
  - assert (E : first_order <$> imap (stat_of l) (numbers l) = Z.of_nat <$> seq 0 (length (numbers l))).
    { apply list_eq. intros j. rewrite !list_lookup_fmap, list_lookup_imap. destruct (numbers l !! j) as [m|] eqn:Ej.
      - rewrite lookup_seq_lt by (by eapply lookup_lt_Some). done.
      - rewrite lookup_seq_ge by (by apply lookup_ge_None). done. }
    rewrite E. apply NoDup_fmap_2; [apply _|apply NoDup_seq].
Qed.

Theorem snoop_summary_witness :
  ∃ rows, rows ≡ₚ imap (stat_of [(1, 5); (0, 2); (1, 1)]) [1; 0] ∧ StronglySorted row_before rows.
Proof.
  destruct (snoop_summary print_Z [SyscallStop (Some 1) 0; SyscallStop (Some 1) 5; TrapStop; SyscallStop (Some 0) 6;
    SyscallStop (Some 0) 8; SignalStop 10; SyscallStop (Some 1) 9; SyscallStop (Some 1) 10; SyscallStop (Some 231) 11; Ended])
    as (rows & _ & H1 & H2); [apply Nat.leb_le; reflexivity|reflexivity|]. exists rows. split; [exact H1|exact H2].
Defined.
