(* ===== verification/Spy.v ===== *)
(** * The [spy] builtin (c-shell/src/spy.c)

    [spy] lists the files a process has open, from what [readlink], [stat],
    [fopen] and [readdir] answer about /proc. *)

From stdpp Require Import sorting.
From S2P Require Import Prelude Clib Hop.

#[local] Set Warnings "-clear-no-such-hyp".
#[local] Set Default Proof Using "Type".
Local Open Scope nat_scope.

(** ** Types of files *)
Definition S_IFMT : Z := 0xF000.

Definition type_from_mode (mode : Z) : cstr :=
  let t := Z.land mode S_IFMT in
  if (t =? 0x8000)%Z then lit "REG" else if (t =? 0x4000)%Z then lit "DIR"
  else if (t =? 0x2000)%Z then lit "CHR" else if (t =? 0x6000)%Z then lit "BLK"
  else if (t =? 0x1000)%Z then lit "FIFO" else if (t =? 0xA000)%Z then lit "LINK"
  else if (t =? 0xC000)%Z then lit "SOCK" else lit "unknown".

Definition is_dir_mode (mode : Z) : bool := (Z.land mode S_IFMT =? 0x4000)%Z.

(** [strncmp(s, p, strlen(p)) == 0] *)
Definition starts (p s : cstr) : bool := bool_decide (p `prefix_of` s).

(** The tail from the first [c]. *)
Fixpoint strchr (c : ascii) (s : cstr) : option cstr :=
  match s with
  | [] => None
  | x :: s' => if Ascii.eqb x c then Some s else strchr c s'
  end.

Fixpoint skip_eol (s : cstr) : cstr :=
  match s with
  | x :: s' => if Ascii.eqb x NL || Ascii.eqb x CR then skip_eol s' else s
  | [] => []
  end.

Definition strip_eol (s : cstr) : cstr := rev (skip_eol (rev s)).

Definition is_valid_pid_str (s : cstr) : bool :=
  match s with [] => false | _ => forallb is_digit s end.

Definition atoi (s : cstr) : Z := i32 (fst (strtol s)).

(** ** Sorting the descriptors

    One turn of the outer loop: the element at [i] is exchanged with each later one that is smaller. *)
Fixpoint exchange (x : cstr) (l : list cstr) : cstr * list cstr :=
  match l with
  | [] => (x, [])
  | y :: l =>
      if (atoi y <? atoi x)%Z then let (m, l) := exchange y l in (m, x :: l)
      else let (m, l) := exchange x l in (m, y :: l)
  end.

Fixpoint sort_from (n : nat) (l : list cstr) : list cstr :=
  match n, l with
  | S n, x :: l => let (m, l) := exchange x l in m :: sort_from n l
  | _, _ => l
  end.

Definition sort_fds (l : list cstr) : list cstr := sort_from (length l) l.

Section Spy.
(** The modes [stat] finds, the links, the text files and the directories; the shell's pid. *)
Context (stat : cstr → option Z) (readlink files : cstr → option cstr) (readdir : cstr → option (list cstr)).
Context (getpid : Z).

Definition resolve_link (linkpath : cstr) (outsize : nat) : option cstr :=
  n ← readlink linkpath; Some (take (outsize - 1) n).

Definition entry_type (path : cstr) (linkpath : option cstr) : cstr :=
  match linkpath ≫= stat with
  | Some mode => type_from_mode mode
  | None =>
      match stat path with
      | Some mode => type_from_mode mode
      | None =>
          if starts (lit "pipe:") path then lit "FIFO"
          else if starts (lit "socket:") path then lit "SOCK"
          else if strstr path (lit "(deleted)") then lit "REG" else lit "unknown"
      end
  end.

Definition print_entry (pid_str fd_label path : cstr) (linkpath : option cstr) : cstr :=
  pid_str ++ lit "    " ++ fd_label ++ replicate (3 - length fd_label) SP ++ lit "  " ++
  entry_type path linkpath ++ lit "    " ++ path ++ [NL].

Definition pid_exists (pid_str : cstr) : bool :=
  match stat (take 63 (lit "/proc/" ++ pid_str)) with Some mode => is_dir_mode mode | None => false end.

(** A row for a link of /proc, if it can be read. *)
Definition link_row (pid_str label linkpath : cstr) : cstr :=
  match resolve_link linkpath 1024 with
  | Some path => print_entry pid_str label path (Some linkpath)
  | None => []
  end.

(** The rows of the mapped files; [seen] has the paths printed. *)
Fixpoint mem_rows (fuel : nat) (pid_str text : cstr) (seen : list cstr) : cstr :=
  match fuel with
  | O => []
  | S fuel =>
      match fgets 1023 text with
      | ([], _) => []
      | (line, text) =>
          match strchr "/" line with
          | None => mem_rows fuel pid_str text seen
          | Some path_part =>
              match strip_eol path_part with
              | [] => mem_rows fuel pid_str text seen
              | path =>
                  if decide (path ∈ seen) then mem_rows fuel pid_str text seen
                  else print_entry pid_str (lit "mem") path None ++ mem_rows fuel pid_str text (seen ++ [path])
              end
          end
      end
  end.

Definition wanted_fd (name : cstr) : bool :=
  match name with
  | c :: _ => negb (Ascii.eqb c ".") && is_valid_pid_str name
  | [] => false
  end.

Definition collect_fds (names : list cstr) : list cstr := take 15 <$> take 4096 (filter (λ n, wanted_fd n) names).

Definition spy_command (args : list cstr) : cstr :=
  match args with
  | _ :: _ :: _ :: _ => lit "spy: invalid syntax" ++ [NL]
  | _ =>
      let pid_str :=
        match args with
        | [_; arg] => if is_valid_pid_str arg then Some (take 31 arg) else None
        | _ => Some (print_Z getpid)
        end in
      match pid_str with
      | None => lit "spy: invalid syntax" ++ [NL]
      | Some pid_str =>
          if negb (pid_exists pid_str) then lit "spy: no such process" ++ [NL]
          else
            let procdir := take 63 (lit "/proc/" ++ pid_str) in
            let file name := take 255 (procdir ++ name) in
            lit "PID    FD    TYPE   PATH" ++ NL ::
            link_row pid_str (lit "cwd") (file (lit "/cwd")) ++
            link_row pid_str (lit "txt") (file (lit "/exe")) ++
            match files (file (lit "/maps")) with
            | Some text => mem_rows (S (length text)) pid_str text []
            | None => []
            end ++
            match readdir (file (lit "/fd")) with
            | Some names =>
                concat ((λ fd, link_row pid_str fd (file (lit "/fd/" ++ fd))) <$> sort_fds (collect_fds names))
            | None => []
            end
      end
  end.

(** ** Lemmas *)
Lemma exchange_spec x l :
  let (m, l') := exchange x l in
  m :: l' ≡ₚ x :: l ∧ Forall (λ y, (atoi m ≤ atoi y)%Z) l' ∧ length l' = length l ∧ (atoi m ≤ atoi x)%Z.
Proof using Type.
  revert x. induction l as [|y l IH]; intros x; cbn [exchange].
  { split; [done|]. split; [constructor|]. split; [done|lia]. }
  destruct (atoi y <? atoi x)%Z eqn:E.
  - specialize (IH y). destruct (exchange y l) as [m l']. destruct IH as (H1 & H2 & H3 & H4). split; [|split; [|split]].
    + etransitivity; [apply Permutation_swap|]. by apply perm_skip.
    + constructor; [lia|done].
    + cbn. by rewrite H3.
    + lia.
  - specialize (IH x). destruct (exchange x l) as [m l']. destruct IH as (H1 & H2 & H3 & H4). split; [|split; [|split]].
    + etransitivity; [apply Permutation_swap|]. etransitivity; [apply perm_skip, H1|]. apply Permutation_swap.
    + constructor; [lia|done].
    + cbn. by rewrite H3.
    + done.
Qed.

Definition fd_le (a b : cstr) : Prop := (atoi a ≤ atoi b)%Z.

Lemma sort_from_spec n l : length l = n → sort_from n l ≡ₚ l ∧ StronglySorted fd_le (sort_from n l).
Proof using Type.
  revert l. induction n as [|n IH]; intros [|x l] Hn; try done; [repeat constructor|].
  cbn [sort_from]. pose proof (exchange_spec x l) as H. destruct (exchange x l) as [m l'].
  destruct H as (H1 & H2 & H3 & _). destruct (IH l') as [I1 I2]; [cbn in Hn; lia|]. split.
  - by rewrite I1.
  - constructor; [done|]. by rewrite I1.
Qed.

(** The paths of the lines of a map file. *)
Fixpoint map_paths (fuel : nat) (text : cstr) : list cstr :=
  match fuel with
  | O => []
  | S fuel =>
      match fgets 1023 text with
      | ([], _) => []
      | (line, text) =>
          match strchr "/" line with
          | None => map_paths fuel text
          | Some path_part =>
              match strip_eol path_part with [] => map_paths fuel text | path => path :: map_paths fuel text end
          end
      end
  end.

Lemma mem_rows_spec fuel pid_str text seen :
  ∃ ms, mem_rows fuel pid_str text seen = concat ((λ p, print_entry pid_str (lit "mem") p None) <$> ms) ∧
    NoDup ms ∧ (∀ p, p ∈ ms ↔ p ∈ map_paths fuel text ∧ p ∉ seen).
Proof using All.
  assert (Hnil : ∀ l : list cstr, ∃ ms : list cstr, [] = concat ((λ p, print_entry pid_str (lit "mem") p None) <$> ms) ∧
    NoDup ms ∧ (∀ p, p ∈ ms ↔ p ∈ ([] : list cstr) ∧ p ∉ l)).
  { intros l. exists []. split; [done|]. split; [constructor|]. intros p. split; [by intros ?%not_elem_of_nil|].
    by intros [?%not_elem_of_nil _]. }
  revert text seen. induction fuel as [|fuel IH]; intros text seen; cbn [mem_rows map_paths]; [apply Hnil|].
  destruct (fgets 1023 text) as [[|c line] rest]; [apply Hnil|].
  destruct (strchr "/" (c :: line)) as [part|]; [|apply IH].
  destruct (strip_eol part) as [|d path]; [apply IH|]. case_decide as Hin.
  - destruct (IH rest seen) as (ms & H1 & H2 & H3). exists ms. split; [done|]. split; [done|].
    intros p. rewrite H3, elem_of_cons. naive_solver.
  - destruct (IH rest (seen ++ [d :: path])) as (ms & H1 & H2 & H3). exists ((d :: path) :: ms).
    cbn [fmap list_fmap concat]. rewrite H1. split; [done|].
    assert (Hn : d :: path ∉ ms).
    { rewrite H3. intros [_ H]. apply H, elem_of_app. right. by apply list_elem_of_singleton. }
    split; [by constructor|]. intros p. rewrite !elem_of_cons, H3, elem_of_app, list_elem_of_singleton.
    destruct (decide (p = d :: path)) as [->|Hne]; naive_solver.
Qed.

(** for a process that exists, [spy] prints its working directory and its program, each mapped file once
    however many mappings it has, and the open descriptors in numerical order, one row each. *)
Theorem spy_rows arg names text :
  let pid_str := take 31 arg in
  let file name := take 255 (take 63 (lit "/proc/" ++ pid_str) ++ name) in
  is_valid_pid_str arg = true → pid_exists pid_str = true →
  files (file (lit "/maps")) = Some text → readdir (file (lit "/fd")) = Some names →
  ∃ ms fds,
    spy_command [lit "spy"; arg]
    = lit "PID    FD    TYPE   PATH" ++ NL :: link_row pid_str (lit "cwd") (file (lit "/cwd")) ++
      link_row pid_str (lit "txt") (file (lit "/exe")) ++
      concat ((λ p, print_entry pid_str (lit "mem") p None) <$> ms) ++
      concat ((λ fd, link_row pid_str fd (file (lit "/fd/" ++ fd))) <$> fds) ∧
    NoDup ms ∧ (∀ p, p ∈ ms ↔ p ∈ map_paths (S (length text)) text) ∧
    fds ≡ₚ collect_fds names ∧ StronglySorted fd_le fds.
Proof using All.
  intros pid_str file Hv Hp Hm Hd.
  destruct (mem_rows_spec (S (length text)) pid_str text []) as (ms & H1 & H2 & H3).
  destruct (sort_from_spec (length (collect_fds names)) (collect_fds names) eq_refl) as [S1 S2].
  exists ms, (sort_fds (collect_fds names)). split; [|split; [done|split; [|done]]].
  - unfold spy_command. rewrite Hv. cbv zeta. fold pid_str. rewrite Hp. cbn [negb].
    fold (file (lit "/maps")) (file (lit "/fd")) (file (lit "/cwd")) (file (lit "/exe")). by rewrite Hm, Hd, H1.
  - intros p. rewrite H3. split; [by intros [? _]|]. intros ?. split; [done|]. apply not_elem_of_nil.
Qed.
End Spy.

Theorem spy_rows_witness :
  ∃ ms fds : list cstr, NoDup ms ∧ fds ≡ₚ [lit "10"; lit "2"] ∧ StronglySorted fd_le fds.
Proof.
  destruct (spy_rows (λ _, Some 0x4000%Z) (λ _, None) (λ _, Some (lit "0-1 r /a")) (λ _, Some [lit "."; lit "10"; lit "2"])
    7 (lit "7") [lit "."; lit "10"; lit "2"] (lit "0-1 r /a")) as (ms & fds & _ & H1 & _ & H2 & H3); [reflexivity..|].
  exists ms, fds. split; [exact H1|]. split; [exact H2|exact H3].
Defined.
