(* ===== verification/Peek.v ===== *)
(** * The [peek] builtin (c-shell/src/peek.c)

    [peek] prints files, with -n numbering their non-empty lines and with -r
    from the last line to the first.  A seekable file is reversed by reading it
    backwards in chunks, anything else by storing all its lines. *)

From S2P Require Import Prelude Clib.

#[local] Set Warnings "-clear-no-such-hyp".
Local Open Scope nat_scope.

Definition CHUNK_SIZE : nat := 4096.

(** ** Data *)
Record PeekLine := { data : cstr; orig_number : Z }.
Record PeekOptions := { numbered : bool; reversed : bool }.

(** ** Arguments *)
Definition peek_is_flag_arg (arg : cstr) : bool :=
  match arg with
  | "-"%char :: (_ :: _ as flags) =>
      forallb (λ p, Ascii.eqb p "n" || Ascii.eqb p "r") flags
  | _ => false
  end.

(** The options and the file names, or the -1 of a wrong flag. *)
Fixpoint peek_parse_args (args : list cstr) (ops : PeekOptions) (filenames : list cstr)
    : option (PeekOptions * list cstr) :=
  match args with
  | [] => Some (ops, filenames)
  | arg :: args =>
      if peek_is_flag_arg arg then
        peek_parse_args args
          {| numbered := numbered ops || existsb (Ascii.eqb "n") (tail arg);
             reversed := reversed ops || existsb (Ascii.eqb "r") (tail arg) |} filenames
      else
        match arg with
        | "-"%char :: _ :: _ => None
        | _ => peek_parse_args args ops (filenames ++ [arg])
        end
  end.

(** ** Lines *)
Definition peek_line_is_nonempty (l : cstr) : bool :=
  match l with
  | [] => false
  | [c] => negb (Ascii.eqb c NL)
  | _ => true
  end.

Definition peek_linelist_push (ll : list PeekLine) (l : cstr) : list PeekLine :=
  ll ++ [{| data := l; orig_number := 0 |}].

Fixpoint assign_forward (ll : list PeekLine) (running_no : Z) : list PeekLine * Z :=
  match ll with
  | [] => ([], running_no)
  | l :: ll =>
      if peek_line_is_nonempty (data l) then
        let (ll, n) := assign_forward ll (running_no + 1) in
        ({| data := data l; orig_number := (running_no + 1)%Z |} :: ll, n)
      else let (ll, n) := assign_forward ll running_no in (l :: ll, n)
  end.

(** The loop over the indices, upwards or downwards. *)
Definition peek_linelist_assign_numbers (ll : list PeekLine) (stored_in_forward_order : bool)
    (running_no : Z) : list PeekLine * Z :=
  if stored_in_forward_order then assign_forward ll running_no
  else let (ll, n) := assign_forward (rev ll) running_no in (rev ll, n).

Definition peek_print_line (ops : PeekOptions) (l : PeekLine) : cstr :=
  (if numbered ops && (0 <? orig_number l)%Z then print_Z (orig_number l) ++ [SP] else [])
    ++ data l.

Definition print_and_maybe_number (ops : PeekOptions) (l : cstr) (running_no : Z) : cstr * Z :=
  let n := if numbered ops && peek_line_is_nonempty l then (running_no + 1)%Z else running_no in
  let num := if numbered ops && peek_line_is_nonempty l then n else 0%Z in
  ((if numbered ops && (0 <? num)%Z then print_Z num ++ [SP] else []) ++ l, n).

(** ** Forward *)

(** One return of [read]; the end of the list is the end of the file. *)
Inductive read_result (A : Type) :=
  | Got (a : A)
  | Intr
  | Fail.
Arguments Got {A} _.
Arguments Intr {A}.
Arguments Fail {A}.

Record forward_state := { pending : cstr; f_running : Z; printed : cstr }.

Definition print_segment (ops : PeekOptions) (l : cstr) (s : forward_state) : forward_state :=
  let (text, n) := print_and_maybe_number ops l (f_running s) in
  {| pending := []; f_running := n; printed := printed s ++ text |}.

(** The loop over the bytes of a chunk; [seg] is what follows [start]. *)
Fixpoint forward_bytes (ops : PeekOptions) (seg buf : cstr) (s : forward_state) : forward_state :=
  match buf with
  | [] => {| pending := pending s ++ seg; f_running := f_running s; printed := printed s |}
  | c :: buf =>
      if Ascii.eqb c NL
      then forward_bytes ops [] buf (print_segment ops (pending s ++ seg ++ [c]) s)
      else forward_bytes ops (seg ++ [c]) buf s
  end.

(** The flag is the -1 return, which prints nothing of the unfinished line. *)
Fixpoint peek_forward_fd (ops : PeekOptions) (reads : list (read_result cstr)) (s : forward_state)
    : forward_state * bool :=
  match reads with
  | [] => (match pending s with [] => s | p => print_segment ops p s end, true)
  | Got buf :: reads => peek_forward_fd ops reads (forward_bytes ops [] buf s)
  | Intr :: reads => peek_forward_fd ops reads s
  | Fail :: _ => (s, false)
  end.

(** ** Backward, from the stored lines *)

(** [read_line_fd]: the line, [got_any] and the bytes that are left.  After an
    error the line is NULL, here empty. *)
Fixpoint read_line_fd (buf : cstr) (got_any : bool) (bytes : list (read_result ascii))
    : cstr * bool * list (read_result ascii) :=
  match bytes with
  | [] => (buf, got_any, [])
  | Got c :: bytes =>
      if Ascii.eqb c NL then (buf ++ [c], true, bytes) else read_line_fd (buf ++ [c]) true bytes
  | Intr :: bytes => read_line_fd buf got_any bytes
  | Fail :: bytes => ([], got_any, bytes)
  end.

Fixpoint read_lines (fuel : nat) (bytes : list (read_result ascii)) (ll : list PeekLine)
    : option (list PeekLine) :=
  match fuel with
  | O => None
  | S fuel =>
      let '(line, got_any, bytes) := read_line_fd [] false bytes in
      if got_any then read_lines fuel bytes (peek_linelist_push ll line) else Some ll
  end.

Definition peek_reverse_buffered_fd (bytes : list (read_result ascii)) (running_no : Z)
    : option (list PeekLine * Z) :=
  ll ← read_lines (S (length bytes)) bytes [];
  Some (peek_linelist_assign_numbers ll true running_no).

(** ** Backward, by chunks *)

(** The loop from [i - 1] down to 0. *)
Fixpoint scan_back (combined : cstr) (i seg_end : nat) (ll : list PeekLine)
    : list PeekLine * nat :=
  match i with
  | O => (ll, seg_end)
  | S i =>
      match combined !! i with
      | Some c =>
          if Ascii.eqb c NL then
            let seg := take (seg_end - (i + 1)) (drop (i + 1) combined) in
            scan_back combined i (i + 1)
              match seg with [] => ll | _ => peek_linelist_push ll seg end
          else scan_back combined i seg_end ll
      | None => scan_back combined i seg_end ll
      end
  end.

Section Seek.
(** Whether the chunk that starts at an offset can be read. *)
Context (io_ok : nat → bool) (file : cstr).

(** [None]: -1 is returned; the lines are those stored so far. *)
Fixpoint seek_loop (fuel pos : nat) (tail : cstr) (ll : list PeekLine)
    : outcome () () * list PeekLine :=
  match fuel with
  | O => (NoFuel, ll)
  | S fuel =>
      if pos =? 0 then (Ret (), ll)
      else
        let to_read := if CHUNK_SIZE <=? pos then CHUNK_SIZE else pos in
        let pos := pos - to_read in
        if negb (io_ok pos) then (Err (), ll)
        else
          let combined := take to_read (drop pos file) ++ tail in
          let (ll, seg_end) := scan_back combined (length combined) (length combined) ll in
          if pos =? 0 then
            (Ret (), if 0 <? seg_end then peek_linelist_push ll (take seg_end combined) else ll)
          else seek_loop fuel pos (take seg_end combined) ll
  end.

(** The lines, the last one first, the next number, and whether it succeeded;
    after an error the lines have no number. *)
Definition peek_reverse_seek_fd (running_no : Z) : option (list PeekLine * Z * bool) :=
  match seek_loop (S (length file)) (length file) [] [] with
  | (Ret _, ll) =>
      match file with
      | [] => Some ([], running_no, true)
      | _ => let (ll, n) := peek_linelist_assign_numbers ll false running_no in Some (ll, n, true)
      end
  | (Err _, ll) => Some (ll, running_no, false)
  | (NoFuel, _) => None
  end.
End Seek.

(** ** The command *)
Inductive peek_effect :=
  | Stdout (text : cstr)
  | Stderr (text : cstr).

Section Command.
(** What [stat] says of a name, whether it is a directory; whether [open]
    succeeds; and for the i-th source: whether [lseek] works, what the reads
    return, by chunks or by bytes, the contents seen by seeking reads and which
    of those succeed. *)
Context (stat : cstr → option bool) (open_ok : cstr → bool).
Context (seekable : nat → bool) (chunks : nat → list (read_result cstr)).
Context (bytes : nat → list (read_result ascii)).
Context (content : nat → cstr) (io_ok : nat → nat → bool).

Definition error_line (text : string) : peek_effect := Stderr (lit "peek: " ++ lit text ++ [NL]).

(** [None]: the name of stdin.  The result is the effects, the next number and
    whether 0 is returned. *)
Definition peek_process_source (i : nat) (name : option cstr) (ops : PeekOptions) (running_no : Z)
    : option (list peek_effect * Z * bool) :=
  let opened :=
    match name with
    | None => None
    | Some name =>
        match stat name with
        | None => Some "no such file or directory"%string
        | Some true => Some "is a directory"%string
        | Some false => if open_ok name then None else Some "no such file or directory"%string
        end
    end in
  match opened with
  | Some error => Some ([error_line error], running_no, false)
  | None =>
      if reversed ops then
        let seek := match name with None => false | Some _ => seekable i end in
        if seek then
          '(ll, n, ok) ← peek_reverse_seek_fd (io_ok i) (content i) running_no;
          Some ([Stdout (concat (peek_print_line ops <$> ll))], n, ok)
        else
          '(ll, n) ← peek_reverse_buffered_fd (bytes i) running_no;
          Some ([Stdout (concat (peek_print_line ops <$> rev ll))], n, true)
      else
        let (s, ok) := peek_forward_fd ops (chunks i)
          {| pending := []; f_running := running_no; printed := [] |} in
        Some ([Stdout (printed s)], f_running s, ok)
  end.

Fixpoint peek_sources (i : nat) (filenames : list cstr) (ops : PeekOptions) (running_no : Z)
    (any_error : bool) : option (list peek_effect * bool) :=
  match filenames with
  | [] => Some ([], any_error)
  | name :: filenames =>
      let source := if streq name (lit "-") then None else Some name in
      '(out, n, ok) ← peek_process_source i source ops running_no;
      '(rest, err) ← peek_sources (S i) filenames ops n (any_error || negb ok);
      Some (out ++ rest, err)
  end.

(** The effects and whether 1 is returned. *)
Definition peek_command (args : list cstr) : option (list peek_effect * bool) :=
  match peek_parse_args args {| numbered := false; reversed := false |} [] with
  | None => Some ([Stdout (lit "peek: invalid syntax" ++ [NL])], true)
  | Some (ops, []) =>
      '(out, _, ok) ← peek_process_source 0 None ops 0; Some (out, negb ok)
  | Some (ops, filenames) => peek_sources 0 filenames ops 0 false
  end.
End Command.

(** ** Lines of a file *)

(** The lines, each with its newline; the last one may have none. *)
Fixpoint lines_from (cur s : cstr) : list cstr :=
  match s with
  | [] => match cur with [] => [] | _ => [cur] end
  | c :: s => if Ascii.eqb c NL then (cur ++ [c]) :: lines_from [] s else lines_from (cur ++ [c]) s
  end.

Definition lines (s : cstr) : list cstr := lines_from [] s.

Definition unnumbered (l : cstr) : PeekLine := {| data := l; orig_number := 0 |}.

(** Empty, or up to a newline: what follows starts a new line. *)
Definition closed (s : cstr) : Prop := s = [] ∨ ∃ t, s = t ++ [NL].

Lemma lines_from_app cur s rest :
  closed s → (s = [] → cur = []) → lines_from cur (s ++ rest) = lines_from cur s ++ lines rest.
Proof.
  revert cur. induction s as [|c s IH]; intros cur Hs Hcur; cbn [app lines_from].
  { by rewrite Hcur. }
  destruct Hs as [[=]|[t Ht]].
  assert (Hs' : closed s).
  { destruct t as [|x t]; injection Ht as -> ->; [by left|]. right. by exists t. }
  destruct (Ascii.eqb c NL) eqn:E; [by rewrite IH|]. apply IH; [done|].
  intros ->. destruct t as [|x t]; [|by destruct t]. injection Ht as ->. by rewrite Ascii.eqb_refl in E.
Qed.

Lemma lines_app s rest : closed s → lines (s ++ rest) = lines s ++ lines rest.
Proof. intros H. unfold lines. by apply lines_from_app. Qed.

Lemma lines_from_no_nl cur s :
  NL ∉ s → lines_from cur s = match cur ++ s with [] => [] | l => [l] end.
Proof.
  revert cur. induction s as [|c s IH]; intros cur Hs; cbn [lines_from]; [rewrite app_nil_r; by destruct cur|].
  apply not_elem_of_cons in Hs as [Hc Hs].
  rewrite (proj2 (Ascii.eqb_neq c NL)) by congruence. rewrite IH by done. by rewrite <-app_assoc.
Qed.

Lemma lines_from_nl cur s rest :
  NL ∉ s → lines_from cur (s ++ NL :: rest) = (cur ++ s ++ [NL]) :: lines rest.
Proof.
  revert cur. induction s as [|c s IH]; intros cur Hs; cbn [app lines_from]; [done|].
  apply not_elem_of_cons in Hs as [Hc Hs].
  rewrite (proj2 (Ascii.eqb_neq c NL)) by congruence. rewrite IH by done. by rewrite <-app_assoc.
Qed.

(** One segment: no newline but at the end, where only the last may lack it. *)
Definition one_line (l : cstr) : Prop := ∃ t, (NL ∉ t) ∧ (l = t ∨ l = t ++ [NL]).

Lemma lines_one l rest :
  one_line l → (closed l ∨ rest = []) →
  lines (l ++ rest) = match l with [] => lines rest | _ => l :: lines rest end.
Proof.
  intros (t & Ht & [-> | ->]) Hc.
  - destruct Hc as [[-> | [u ->]]| ->]; [done|exfalso; apply Ht, elem_of_app; right; constructor|].
    rewrite app_nil_r. unfold lines. rewrite lines_from_no_nl by done. simpl. by destruct t.
  - unfold lines. rewrite <-app_assoc. cbn [app]. rewrite lines_from_nl by done. by destruct t.
Qed.

(** ** The backward scan *)
Lemma slice_no_nl (s : cstr) a k :
  (∀ j, a ≤ j < a + k → s !! j ≠ Some NL) → NL ∉ take k (drop a s).
Proof.
  intros H [j Hj]%list_elem_of_lookup. apply lookup_take_Some in Hj as [Hj Hk].
  rewrite lookup_drop in Hj. by apply (H (a + j)); [lia|].
Qed.

Lemma slice_snoc (s : cstr) a k :
  a + S k ≤ length s → ∃ c, s !! (a + k) = Some c ∧
  take (S k) (drop a s) = take k (drop a s) ++ [c].
Proof.
  intros H. destruct (lookup_lt_is_Some_2 s (a + k)) as [c Hc]; [lia|]. exists c. split; [done|].
  apply take_S_r. by rewrite lookup_drop.
Qed.

Lemma slice_one_line (s : cstr) a b :
  a ≤ b ≤ length s → (∀ j, a ≤ j < b - 1 → s !! j ≠ Some NL) → one_line (take (b - a) (drop a s)).
Proof.
  intros Hab Hj. destruct (b - a) as [|k] eqn:E; [exists []; split; [by intros ?%elem_of_nil|by left]|].
  destruct (slice_snoc s a k) as (c & Hc & Hs); [lia|]. rewrite Hs.
  assert (Ht : NL ∉ take k (drop a s)) by (apply slice_no_nl; intros j H; apply Hj; lia).
  destruct (decide (c = NL)) as [->|Hne]; [by exists (take k (drop a s)); split; [|right]|].
  exists (take k (drop a s) ++ [c]). split; [|by left].
  rewrite elem_of_app. intros [?|?%list_elem_of_singleton]; [done|congruence].
Qed.

Definition ends_nl (s : cstr) : Prop := ∃ t, s = t ++ [NL].

Lemma scan_back_spec (s : cstr) i se ll ll' a :
  scan_back s i se ll = (ll', a) → i ≤ se ≤ length s →
  (∀ j, i ≤ j < se - 1 → s !! j ≠ Some NL) → (ends_nl (take se s) ∨ se = length s) →
  a ≤ se ∧ (0 < se → 0 < a) ∧ (∀ j, j < a - 1 → s !! j ≠ Some NL) ∧
  (a = se ∨ ends_nl (take a s)) ∧
  ll' = ll ++ (unnumbered <$> rev (lines (take (se - a) (drop a s)))).
Proof.
  revert se ll. induction i as [|i IH]; intros se ll Hrun Hi Hj Hse; cbn [scan_back] in Hrun.
  { injection Hrun as <- <-. split; [lia|]. split; [lia|]. split; [intros j H; apply Hj; lia|].
    split; [by left|]. rewrite Nat.sub_diag. simpl. by rewrite app_nil_r. }
  destruct (lookup_lt_is_Some_2 s i) as [c Hc]; [lia|]. rewrite Hc in Hrun.
  destruct (Ascii.eqb c NL) eqn:E; char_cases.
  2: { apply IH in Hrun; [done|lia| |done]. intros j H. destruct (decide (j = i)) as [->|]; [congruence|].
       apply Hj. lia. }
  rewrite Nat.add_1_r in Hrun. apply IH in Hrun; [|lia|intros j H; lia|].
  2: { left. exists (take i s). by apply take_S_r. }
  destruct Hrun as (Ha & Ha0 & Hno & Hend & ->). split; [lia|]. split; [lia|]. split; [done|].
  split.
  { right. destruct Hend as [->|?]; [|done]. exists (take i s). by apply take_S_r. }
  set (seg := take (se - S i) (drop (S i) s)).
  assert (Hone : one_line seg) by (apply slice_one_line; [lia|intros j H; apply Hj; lia]).
  set (M := take (S i - a) (drop a s)).
  assert (HM : closed M).
  { unfold M. destruct (S i - a) as [|k] eqn:Ek; [by left|]. right.
    destruct (slice_snoc s a k) as (c & Hc' & ->); [lia|].
    replace (a + k) with i in Hc' by lia. exists (take k (drop a s)). congruence. }
  assert (Hsplit : take (se - a) (drop a s) = M ++ seg).
  { unfold M, seg. replace (se - a) with ((S i - a) + (se - S i)) by lia.
    rewrite <-take_take_drop, drop_drop. do 3 f_equal. lia. }
  rewrite Hsplit, lines_app by done.
  assert (Hl : lines seg = match seg with [] => [] | _ => [seg] end).
  { pose proof (lines_one seg [] Hone (or_intror eq_refl)) as H. rewrite app_nil_r in H. exact H. }
  rewrite Hl, rev_app_distr. destruct seg as [|x seg]; [done|]. unfold peek_linelist_push.
  rewrite <-app_assoc. done.
Qed.

(** ** Reading backwards in chunks *)
Lemma ends_nl_suffix a b : ends_nl (a ++ b) → b ≠ [] → ends_nl b.
Proof.
  intros [t Ht] Hb. destruct b as [|c b _] using rev_ind; [done|].
  rewrite app_assoc in Ht. apply app_inj_tail in Ht as [_ ->]. by exists b.
Qed.

Lemma seek_loop_spec file fuel pos tail rest ll :
  pos < fuel → pos ≤ length file → (ends_nl tail ∨ rest = []) → (pos = 0 → False) →
  file = take pos file ++ tail ++ rest → ll = unnumbered <$> rev (lines rest) →
  seek_loop (λ _, true) file fuel pos tail ll = (Ret (), unnumbered <$> rev (lines file)).
Proof.
  revert pos tail rest ll. induction fuel as [|fuel IH]; intros pos tail rest ll Hf Hlen Hend H0 Hfile Hll;
    [lia|]. cbn [seek_loop]. rewrite (proj2 (Nat.eqb_neq pos 0)) by (intros ->; by apply H0).
  set (k := if CHUNK_SIZE <=? pos then CHUNK_SIZE else pos).
  assert (Hk : 0 < k ≤ pos).
  { unfold k. destruct (Nat.leb_spec CHUNK_SIZE pos); unfold CHUNK_SIZE in *; lia. }
  cbn [negb]. set (combined := take k (drop (pos - k) file) ++ tail).
  assert (Hc : take pos file ++ tail = take (pos - k) file ++ combined).
  { unfold combined. rewrite app_assoc. f_equal. rewrite take_take_drop. f_equal. lia. }
  assert (Hclen : 0 < length combined).
  { unfold combined. rewrite length_app, length_take, length_drop. lia. }
  assert (Hcend : ends_nl combined ∨ rest = []).
  { destruct Hend as [[t ->]|?]; [left|by right]. exists (take k (drop (pos - k) file) ++ t).
    unfold combined. by rewrite app_assoc. }
  destruct (scan_back combined (length combined) (length combined) ll) as [ll' a] eqn:Escan.
  apply scan_back_spec in Escan; [|lia|intros j H; lia|by right].
  destruct Escan as (Ha & Ha0 & Hno & Haend & ->). specialize (Ha0 Hclen).
  set (A := take a combined). set (B := take (length combined - a) (drop a combined)).
  assert (HAB : combined = A ++ B).
  { unfold A, B. rewrite (take_ge (drop a combined)) by (rewrite length_drop; lia).
    by rewrite take_drop. }
  assert (HB : closed B ∨ rest = []).
  { destruct Hcend as [Ht|?]; [left|by right]. rewrite HAB in Ht.
    destruct (decide (B = [])); [by left|]. right. by eapply ends_nl_suffix. }
  assert (HAend : ends_nl A ∨ B ++ rest = []).
  { destruct Haend as [->|?]; [|by left]. unfold A, B. rewrite Nat.sub_diag. simpl.
    rewrite take_ge by lia. done. }
  assert (HBrest : lines (B ++ rest) = lines B ++ lines rest).
  { destruct HB as [HB| ->]; [by apply lines_app|]. unfold lines at 3. simpl. by rewrite !app_nil_r. }
  assert (Hll2 : ll ++ (unnumbered <$> rev (lines B)) = unnumbered <$> rev (lines (B ++ rest))).
  { rewrite HBrest, rev_app_distr, fmap_app. by rewrite Hll. }
  rewrite Hll2. destruct (pos - k =? 0) eqn:Epos.
  - apply Nat.eqb_eq in Epos. rewrite (proj2 (Nat.ltb_lt 0 a)) by done. fold A.
    assert (HA : one_line A).
    { replace A with (take (a - 0) (drop 0 combined)) by (unfold A; by rewrite Nat.sub_0_r).
      apply slice_one_line; [lia|]. intros j H. apply Hno. lia. }
    rewrite Hfile, app_assoc, Hc, Epos, HAB. rewrite <-!app_assoc. change (take 0 file) with ([] : cstr). cbn [app].
    rewrite (lines_one A (B ++ rest)); [|done|destruct HAend as [H|H]; [left; by right|by right]].
    assert (HAne : A ≠ []) by (intros E; apply (f_equal length) in E; unfold A in E;
      rewrite length_take in E; simpl in E; lia).
    destruct A as [|x A']; [done|]. cbn [rev]. rewrite fmap_app. done.
  - apply Nat.eqb_neq in Epos. apply (IH _ _ (B ++ rest)); [lia|lia|done|done| |done].
    fold A. rewrite (app_assoc A), <-HAB, app_assoc, <-Hc, <-app_assoc. exact Hfile.
Qed.

(** ** Reads without errors *)
Definition got {A} (reads : list (read_result A)) : list A :=
  omap (λ r, match r with Got a => Some a | _ => None end) reads.

Definition clean {A} (reads : list (read_result A)) : Prop := Fail ∉ reads.

Lemma clean_cons {A} (r : read_result A) reads : clean (r :: reads) → r ≠ Fail ∧ clean reads.
Proof. intros [H1 H2]%not_elem_of_cons. split; [congruence|done]. Qed.

Lemma read_line_fd_spec buf any bytes line g rest :
  read_line_fd buf any bytes = (line, g, rest) → clean bytes → NL ∉ buf →
  any = bool_decide (buf ≠ []) →
  clean rest ∧ length rest ≤ length bytes ∧
  ((g = false ∧ buf = [] ∧ got bytes = []) ∨
   (g = true ∧ (buf = [] → length rest < length bytes) ∧
    lines_from buf (got bytes) = line :: lines (got rest))).
Proof.
  revert buf any. induction bytes as [|r bytes IH]; intros buf any Hrun Hcl Hbuf Hany;
    cbn [read_line_fd] in Hrun.
  { injection Hrun as <- <- <-. split; [done|]. split; [done|]. rewrite Hany. destruct buf as [|c buf].
    - left. by rewrite bool_decide_eq_false_2 by auto.
    - right. rewrite bool_decide_eq_true_2 by done. split; [done|]. split; [done|]. done. }
  apply clean_cons in Hcl as [Hr Hcl]. destruct r as [c| |]; [| |done].
  - destruct (Ascii.eqb c NL) eqn:E.
    + injection Hrun as <- <- <-. split; [done|]. split; [simpl; lia|]. right. split; [done|].
      split; [simpl; lia|]. unfold got. cbn [omap list_omap lines_from]. by rewrite E.
    + apply IH in Hrun as (H1 & H2 & H3); [|done| |].
      * split; [done|]. split; [simpl; lia|]. right. destruct H3 as [(_ & H3 & _)|(-> & _ & H3)].
        { by destruct buf. }
        split; [done|]. split; [simpl; lia|]. unfold got. cbn [omap list_omap lines_from]. by rewrite E.
      * char_cases. rewrite elem_of_app. intros [?|?%list_elem_of_singleton]; [done|congruence].
      * symmetry. apply bool_decide_eq_true_2. by destruct buf.
  - apply IH in Hrun as (H1 & H2 & H3); [|done..]. split; [done|]. split; [simpl; lia|].
    destruct H3 as [H3|(-> & H3 & H4)]; [by left|right]. split; [done|]. split; [|done].
    intros Hb. simpl. specialize (H3 Hb). lia.
Qed.

Lemma read_lines_spec fuel bytes ll :
  length bytes < fuel → clean bytes →
  read_lines fuel bytes ll = Some (ll ++ (unnumbered <$> lines (got bytes))).
Proof.
  revert bytes ll. induction fuel as [|fuel IH]; intros bytes ll Hf Hcl; [lia|]. cbn [read_lines].
  destruct (read_line_fd [] false bytes) as [[line g] rest] eqn:E.
  apply read_line_fd_spec in E as (Hr & Hlen & H); [|done|by intros ?%elem_of_nil|done].
  destruct H as [(-> & _ & ->)|(-> & Hlt & Hl)]; [by rewrite app_nil_r|].
  rewrite IH by (done || (specialize (Hlt eq_refl); lia)). unfold lines at 2. rewrite Hl.
  unfold peek_linelist_push. by rewrite <-app_assoc.
Qed.

(** ** Numbering *)

Definition nonempty_lines (ls : list cstr) : nat := length (filter peek_line_is_nonempty ls).

(** The lines as they are shown, numbered from [n + 1], and their text. *)
Fixpoint shown_lines (ops : PeekOptions) (n : Z) (ls : list cstr) : list cstr :=
  match ls with
  | [] => []
  | l :: ls =>
      ((if numbered ops && peek_line_is_nonempty l then print_Z (n + 1) ++ [SP] else []) ++ l) ::
      shown_lines ops (if peek_line_is_nonempty l then n + 1 else n)%Z ls
  end.

Definition numbered_text (ops : PeekOptions) (n : Z) (ls : list cstr) : cstr :=
  concat (shown_lines ops n ls).

Lemma numbered_text_cons ops n l ls :
  numbered_text ops n (l :: ls)
  = (if numbered ops && peek_line_is_nonempty l then print_Z (n + 1) ++ [SP] else []) ++ l ++
    numbered_text ops (if peek_line_is_nonempty l then n + 1 else n)%Z ls.
Proof. unfold numbered_text. cbn [shown_lines concat]. by rewrite <-app_assoc. Qed.

Definition number_lines (ls : list cstr) (n : Z) : list PeekLine * Z :=
  assign_forward (unnumbered <$> ls) n.

Lemma number_lines_shown ops ls n :
  (0 ≤ n)%Z → peek_print_line ops <$> fst (number_lines ls n) = shown_lines ops n ls.
Proof.
  unfold number_lines. revert n.
  induction ls as [|l ls IH]; intros n Hn; cbn [fmap list_fmap assign_forward shown_lines]; [done|].
  change (data (unnumbered l)) with l. unfold peek_print_line at 1. destruct (peek_line_is_nonempty l).
  - specialize (IH (n + 1)%Z ltac:(lia)). destruct (assign_forward _ _) as [ll m]. cbn [fst] in *.
    cbn [fmap list_fmap]. rewrite <-IH. simpl. rewrite (proj2 (Z.ltb_lt 0 (n + 1))) by lia.
    by rewrite !andb_true_r.
  - specialize (IH n Hn). destruct (assign_forward _ _) as [ll m]. cbn [fst] in *.
    cbn [fmap list_fmap]. rewrite <-IH. simpl. by rewrite !andb_false_r.
Qed.

Lemma number_lines_next ls n : snd (number_lines ls n) = (n + Z.of_nat (nonempty_lines ls))%Z.
Proof.
  unfold number_lines, nonempty_lines. revert n.
  induction ls as [|l ls IH]; intros n; cbn [fmap list_fmap assign_forward]; [simpl; lia|].
  change (data (unnumbered l)) with l. rewrite filter_cons. destruct (peek_line_is_nonempty l) eqn:E.
  - specialize (IH (n + 1)%Z). destruct (assign_forward _ _) as [ll m]. simpl in *. lia.
  - specialize (IH n). destruct (assign_forward _ _) as [ll m]. simpl in *. lia.
Qed.

Lemma numbered_text_plain ops n m ls :
  numbered ops = false → numbered_text ops n ls = numbered_text ops m ls.
Proof.
  intros Ho. revert n m. induction ls as [|l ls IH]; intros n m; [done|]. rewrite !numbered_text_cons.
  rewrite Ho. simpl. f_equal. apply IH.
Qed.

(** ** Forward *)

(** What is printed in the end when [rest] is still to be read, and the last
    number then. *)
Definition final_text (ops : PeekOptions) (s : forward_state) (rest : cstr) : cstr :=
  printed s ++ numbered_text ops (f_running s) (lines_from (pending s) rest).

Definition next_number (ops : PeekOptions) (n : Z) (ls : list cstr) : Z :=
  if numbered ops then (n + Z.of_nat (nonempty_lines ls))%Z else n.

Lemma next_number_nil ops n : next_number ops n [] = n.
Proof. unfold next_number, nonempty_lines. simpl. destruct (numbered ops); [apply Z.add_0_r|done]. Qed.

Lemma next_number_cons ops n l ls :
  next_number ops n (l :: ls)
  = next_number ops (if numbered ops && peek_line_is_nonempty l then n + 1 else n)%Z ls.
Proof.
  unfold next_number, nonempty_lines. destruct (numbered ops); [|done].
  cbn [andb]. rewrite filter_cons. destruct (peek_line_is_nonempty l); simpl; lia.
Qed.

Definition final_number (ops : PeekOptions) (s : forward_state) (rest : cstr) : Z :=
  next_number ops (f_running s) (lines_from (pending s) rest).

Lemma print_segment_number ops l s rest :
  final_number ops (print_segment ops l s) rest = next_number ops (f_running s) (l :: lines rest).
Proof. by rewrite next_number_cons. Qed.

Lemma print_segment_text ops l s rest :
  l ≠ [] → (0 ≤ f_running s)%Z →
  final_text ops (print_segment ops l s) rest
  = printed s ++ numbered_text ops (f_running s) (l :: lines rest) ∧
  (0 ≤ f_running (print_segment ops l s))%Z.
Proof.
  intros Hl Hn. rewrite numbered_text_cons. unfold final_text, print_segment, print_and_maybe_number. simpl.
  destruct (numbered ops) eqn:Eo; simpl.
  - destruct (peek_line_is_nonempty l); simpl; [|split; [by rewrite <-app_assoc|done]].
    rewrite (proj2 (Z.ltb_lt 0 (f_running s + 1))) by lia. split; [|lia].
    by rewrite <-!app_assoc.
  - split; [|done]. rewrite <-app_assoc. do 2 f_equal. by apply numbered_text_plain.
Qed.

Lemma forward_bytes_text ops seg buf s rest :
  NL ∉ pending s ++ seg → (0 ≤ f_running s)%Z →
  let s' := forward_bytes ops seg buf s in
  (NL ∉ pending s') ∧ (0 ≤ f_running s')%Z ∧
  final_text ops s' rest
  = printed s ++ numbered_text ops (f_running s) (lines_from (pending s ++ seg) (buf ++ rest)) ∧
  final_number ops s' rest
  = next_number ops (f_running s) (lines_from (pending s ++ seg) (buf ++ rest)).
Proof.
  revert seg s. induction buf as [|c buf IH]; intros seg s Hnl Hn; cbn [forward_bytes]; [done|].
  destruct (Ascii.eqb c NL) eqn:E.
  - assert (Hne : pending s ++ seg ++ [c] ≠ []) by (intros [_ [_ [=]]%app_eq_nil]%app_eq_nil).
    destruct (print_segment_text ops (pending s ++ seg ++ [c]) s (buf ++ rest) Hne Hn) as [Ht Hn'].
    destruct (IH [] (print_segment ops (pending s ++ seg ++ [c]) s)) as (H1 & H2 & H3 & H4).
    { unfold print_segment. destruct (print_and_maybe_number _ _ _). by intros ?%elem_of_nil. }
    { done. }
    split; [done|]. split; [done|]. rewrite H3, H4. cbn [app lines_from]. rewrite E, <-app_assoc.
    change (lines_from [] (buf ++ rest)) with (lines (buf ++ rest)). rewrite <-Ht, <-print_segment_number.
    unfold final_text, final_number. by rewrite app_nil_r.
  - destruct (IH (seg ++ [c]) s) as (H1 & H2 & H3 & H4); [|done|].
    { char_cases. rewrite app_assoc, elem_of_app.
      intros [?|?%list_elem_of_singleton]; [done|congruence]. }
    split; [done|]. split; [done|]. rewrite H3, H4. cbn [app lines_from]. by rewrite E, app_assoc.
Qed.

Lemma forward_text ops reads s :
  clean reads → NL ∉ pending s → (0 ≤ f_running s)%Z →
  ∃ s', peek_forward_fd ops reads s = (s', true) ∧
    printed s' = final_text ops s (concat (got reads)) ∧
    f_running s' = final_number ops s (concat (got reads)).
Proof.
  revert s. induction reads as [|r reads IH]; intros s Hcl Hp Hn; cbn [peek_forward_fd].
  { eexists. split; [done|]. unfold final_text, final_number. simpl.
    destruct (pending s) as [|c p].
    { rewrite app_nil_r. split; [done|]. by rewrite next_number_nil. }
    destruct (print_segment_text ops (c :: p) s [] ltac:(done) Hn) as [Ht _].
    cbn [concat got omap list_omap lines_from]. change [c :: p] with ((c :: p) :: lines []).
    rewrite <-Ht, <-print_segment_number. unfold final_text, final_number, print_segment.
    destruct (print_and_maybe_number _ _ _). simpl. rewrite app_nil_r. split; [done|].
    by rewrite next_number_nil. }
  apply clean_cons in Hcl as [Hr Hcl]. destruct r as [buf| |]; [| |done].
  - destruct (forward_bytes_text ops [] buf s (concat (got reads))) as (H1 & H2 & H3 & H4);
      [by rewrite app_nil_r|done|].
    destruct (IH (forward_bytes ops [] buf s) Hcl H1 H2) as (s' & E & Hp' & Hn').
    exists s'. split; [done|]. rewrite Hp', Hn', H3, H4, app_nil_r. done.
  - by apply IH.
Qed.

(** ** Backward *)
Lemma fmap_rev {A B} (f : A → B) l : f <$> rev l = rev (f <$> l).
Proof. induction l as [|x l IH]; simpl; [done|]. by rewrite fmap_app, IH. Qed.

Lemma peek_reverse_seek_spec io_ok file n :
  (∀ p, io_ok p = true) →
  peek_reverse_seek_fd io_ok file n
  = let (ll, m) := number_lines (lines file) n in Some (rev ll, m, true).
Proof.
  intros Hio. unfold peek_reverse_seek_fd. destruct file as [|c file]; [done|].
  assert (Hrun : seek_loop io_ok (c :: file) (S (length (c :: file))) (length (c :: file)) [] []
                 = (Ret (), unnumbered <$> rev (lines (c :: file)))).
  { set (f := c :: file). transitivity (seek_loop (λ _, true) f (S (length f)) (length f) [] []).
    - generalize (S (length f)) as fuel. generalize (length f) as pos, ([] : cstr) as tl.
      generalize ([] : list PeekLine) as ll.
      intros ll pos tl fuel. revert ll pos tl. induction fuel as [|fuel IH]; intros ll pos tl; [done|].
      cbn [seek_loop]. rewrite Hio. destruct (pos =? 0); [done|]. cbn [negb].
      destruct (scan_back _ _ _ _). by rewrite IH.
    - apply (seek_loop_spec f _ _ _ []); [lia|lia|by right|done| |done].
      by rewrite take_ge, !app_nil_r by lia. }
  rewrite Hrun. unfold peek_linelist_assign_numbers, number_lines.
  rewrite <-fmap_rev, rev_involutive. by destruct (assign_forward _ _).
Qed.

Lemma peek_reverse_buffered_spec bytes n :
  clean bytes →
  peek_reverse_buffered_fd bytes n = Some (number_lines (lines (got bytes)) n).
Proof.
  intros Hc. unfold peek_reverse_buffered_fd. rewrite read_lines_spec by (done || lia). done.
Qed.

Lemma number_lines_data ls n : data <$> fst (number_lines ls n) = ls.
Proof.
  unfold number_lines. revert n.
  induction ls as [|l ls IH]; intros n; cbn [fmap list_fmap assign_forward]; [done|].
  change (data (unnumbered l)) with l.
  destruct (peek_line_is_nonempty l); [specialize (IH (n + 1)%Z)|specialize (IH n)];
    destruct (assign_forward _ _) as [ll m]; simpl in *; by f_equal.
Qed.

Lemma concat_lines_from cur s : concat (lines_from cur s) = cur ++ s.
Proof.
  revert cur. induction s as [|c s IH]; intros cur; cbn [lines_from].
  { rewrite app_nil_r. destruct cur; simpl; by rewrite ?app_nil_r. }
  destruct (Ascii.eqb c NL); simpl; rewrite IH; by rewrite <-app_assoc.
Qed.

Lemma concat_lines s : concat (lines s) = s.
Proof. apply concat_lines_from. Qed.

(** ** What [peek] shows *)
Definition peek_shown (ops : PeekOptions) (n : Z) (file : cstr) : cstr :=
  let ls := shown_lines ops n (lines file) in concat (if reversed ops then rev ls else ls).

Lemma peek_shown_plain ops n m file :
  numbered ops = false → peek_shown ops n file = peek_shown ops m file.
Proof.
  intros Ho. unfold peek_shown. replace (shown_lines ops n (lines file))
    with (shown_lines ops m (lines file)); [done|].
  generalize (lines file) as ls. intros ls. revert n m.
  induction ls as [|l ls IH]; intros n m; [done|]. cbn [shown_lines]. rewrite Ho. simpl. f_equal. apply IH.
Qed.

Lemma number_lines_reversed ops n file :
  reversed ops = true → (0 ≤ n)%Z →
  concat (peek_print_line ops <$> rev (fst (number_lines (lines file) n))) = peek_shown ops n file.
Proof.
  intros Hr Hn. unfold peek_shown. rewrite Hr, <-number_lines_shown by done. by rewrite fmap_rev.
Qed.

Section Specification.
Context (stat : cstr → option bool) (open_ok : cstr → bool).
Context (seekable : nat → bool) (chunks : nat → list (read_result cstr)).
Context (bytes : nat → list (read_result ascii)).
Context (content : nat → cstr) (io_ok : nat → nat → bool).

(** No read of source [i] fails, and all ways to read it give its contents. *)
Record readable (i : nat) : Prop := {
  chunks_clean : clean (chunks i);
  chunks_content : concat (got (chunks i)) = content i;
  bytes_clean : clean (bytes i);
  bytes_content : got (bytes i) = content i;
  seeks_ok : ∀ p, io_ok i p = true
}.

Definition source_problem (name : cstr) : option string :=
  if streq name (lit "-") then None
  else match stat name with
       | None => Some "no such file or directory"%string
       | Some true => Some "is a directory"%string
       | Some false => if open_ok name then None else Some "no such file or directory"%string
       end.

(** Every source in turn: a message when it cannot be opened, else its lines,
    with the numbers going on from one source to the next. *)
Fixpoint peek_spec (ops : PeekOptions) (i : nat) (n : Z) (names : list cstr)
    : list peek_effect * bool :=
  match names with
  | [] => ([], false)
  | name :: names =>
      match source_problem name with
      | Some e => (error_line e :: fst (peek_spec ops (S i) n names), true)
      | None =>
          let (out, err) :=
            peek_spec ops (S i) (n + Z.of_nat (nonempty_lines (lines (content i)))) names in
          (Stdout (peek_shown ops n (content i)) :: out, err)
      end
  end.

Lemma peek_process_source_spec i name ops n :
  readable i → (0 ≤ n)%Z → name ≠ Some (lit "-") →
  peek_process_source stat open_ok seekable chunks bytes content io_ok i name ops n =
  match source_problem (default (lit "-") name) with
  | Some e => Some ([error_line e], n, false)
  | None =>
      Some ([Stdout (peek_shown ops n (content i))],
            if reversed ops then (n + Z.of_nat (nonempty_lines (lines (content i))))%Z
            else next_number ops n (lines (content i)), true)
  end.
Proof.
  intros [Hc Hcc Hb Hbc Hio] Hn Hname. unfold peek_process_source, source_problem.
  assert (Hrun : (if reversed ops then
      if match name with None => false | Some _ => seekable i end then
        '(ll, m, ok) ← peek_reverse_seek_fd (io_ok i) (content i) n;
        Some ([Stdout (concat (peek_print_line ops <$> ll))], m, ok)
      else
        '(ll, m) ← peek_reverse_buffered_fd (bytes i) n;
        Some ([Stdout (concat (peek_print_line ops <$> rev ll))], m, true)
    else
      let (s, ok) := peek_forward_fd ops (chunks i)
        {| pending := []; f_running := n; printed := [] |} in
      Some ([Stdout (printed s)], f_running s, ok))
    = Some ([Stdout (peek_shown ops n (content i))],
            if reversed ops then (n + Z.of_nat (nonempty_lines (lines (content i))))%Z
            else next_number ops n (lines (content i)), true)).
  { destruct (reversed ops) eqn:Er.
    - rewrite (peek_reverse_seek_spec _ _ _ Hio), (peek_reverse_buffered_spec _ _ Hb), Hbc.
      rewrite <-(number_lines_reversed ops n (content i) Er Hn), <-number_lines_next.
      destruct (number_lines _ _) as [ll m]. by destruct name; [destruct (seekable i)|].
    - destruct (forward_text ops (chunks i) {| pending := []; f_running := n; printed := [] |} Hc)
        as (s' & -> & -> & ->); [by intros ?%elem_of_nil|done|].
      rewrite Hcc. unfold final_text, final_number, peek_shown. by rewrite Er. }
  destruct name as [name|]; [|exact Hrun].
  change (default (lit "-") (Some name)) with name.
  unfold streq. rewrite bool_decide_eq_false_2 by (intros E; by apply Hname; f_equal).
  destruct (stat name) as [[]|]; [done| |done]. destruct (open_ok name); [exact Hrun|done].
Qed.

Lemma peek_sources_spec ops names :
  (∀ i, readable i) → ∀ i n m any_error, (0 ≤ n)%Z → (0 ≤ m)%Z → (numbered ops = true → n = m) →
  peek_sources stat open_ok seekable chunks bytes content io_ok i names ops n any_error
  = let (out, err) := peek_spec ops i m names in Some (out, any_error || err).
Proof.
  intros Hr. induction names as [|name names IH]; intros i n m any_error Hn Hm Hnm;
    cbn [peek_sources peek_spec]; [by rewrite orb_false_r|].
  assert (Hdef : default (lit "-") (if streq name (lit "-") then None else Some name) = name).
  { unfold streq. by case_bool_decide. }
  rewrite peek_process_source_spec; [|done|done|].
  2: { unfold streq. case_bool_decide as E; [done|]. intros H. injection H as H. by apply E. }
  rewrite Hdef. destruct (source_problem name) as [e|]; simpl.
  - rewrite (IH _ _ m) by done. destruct (peek_spec _ _ _ _). simpl. by rewrite orb_true_r.
  - rewrite (IH _ _ (m + Z.of_nat (nonempty_lines (lines (content i))))%Z).
    + destruct (peek_spec _ _ _ _). simpl. rewrite orb_false_r. do 4 f_equal.
      destruct (numbered ops) eqn:En; [by rewrite Hnm|by apply peek_shown_plain].
    + unfold next_number. destruct (reversed ops), (numbered ops); lia.
    + lia.
    + intros En. unfold next_number. rewrite En, (Hnm En). by destruct (reversed ops).
Qed.

(** ** The properties *)

(** [peek -r] on a file that can be sought, read backwards in chunks of
    4096 bytes, and on one that cannot, read byte by byte, stores the same lines with
    the same numbers, in opposite orders, and goes on with the same number; the
    lines are those of the file, numbered from the top. *)
Theorem peek_reverse_agree i n :
  readable i →
  ∃ ll m, peek_reverse_buffered_fd (bytes i) n = Some (ll, m) ∧
    peek_reverse_seek_fd (io_ok i) (content i) n = Some (rev ll, m, true) ∧
    data <$> ll = lines (content i) ∧ concat (data <$> ll) = content i.
Proof.
  intros [_ _ Hb Hbc Hio]. rewrite (peek_reverse_seek_spec _ _ _ Hio), (peek_reverse_buffered_spec _ _ Hb), Hbc.
  pose proof (number_lines_data (lines (content i)) n) as Hd.
  destruct (number_lines _ _) as [ll m]. exists ll, m. simpl in Hd. rewrite Hd.
  do 3 (split; [done|]). apply concat_lines.
Qed.

(** With valid options [peek] shows its sources in the order they are
    named, stdin when there is none: each that is missing, a directory or cannot be
    opened gives one message on stderr and no output, each other one its lines,
    forwards or backwards, with -n numbered through all the sources skipping the
    empty lines, whatever the chunks the reads return and whether or not they are interrupted; and it returns 1
    exactly when there was a message. *)
Theorem peek_command_spec args ops names :
  (∀ i, readable i) →
  peek_parse_args args {| numbered := false; reversed := false |} [] = Some (ops, names) →
  peek_command stat open_ok seekable chunks bytes content io_ok args
  = Some (peek_spec ops 0 0 (match names with [] => [lit "-"] | _ => names end)).
Proof.
  intros Hr Hargs. unfold peek_command. rewrite Hargs. destruct names as [|name names].
  - by rewrite peek_process_source_spec.
  - rewrite (peek_sources_spec _ _ Hr 0 0 0) by done. by destruct (peek_spec _ _ _ _).
Qed.
End Specification.

(** ** Witnesses *)
Definition ex_file : cstr := lit "one" ++ [NL; NL] ++ lit "two".
Definition ex_stat (name : cstr) : option bool := if streq name (lit "f") then Some false else None.

Lemma ex_readable i :
  readable (λ _, [Intr; Got (lit "one" ++ [NL]); Got (NL :: lit "t"); Got (lit "wo")])
    (λ _, Got <$> ex_file) (λ _, ex_file) (λ _ _, true) i.
Proof.
  split; [|vm_compute; reflexivity| |vm_compute; reflexivity|done].
  - unfold clean. set_solver.
  - unfold clean. intros (x & [=] & _)%list_elem_of_fmap_1.
Qed.

Lemma peek_reverse_agree_witness :
  ∃ ll m, peek_reverse_buffered_fd (Got <$> ex_file) 4 = Some (ll, m) ∧
    peek_reverse_seek_fd (λ _, true) ex_file 4 = Some (rev ll, m, true) ∧
    data <$> ll = lines ex_file ∧ concat (data <$> ll) = ex_file.
Proof.
  exact (peek_reverse_agree (λ _, [Intr; Got (lit "one" ++ [NL]); Got (NL :: lit "t"); Got (lit "wo")])
    (λ _, Got <$> ex_file) (λ _, ex_file) (λ _ _, true) 0 4 (ex_readable 0)).
Defined.

Lemma peek_command_spec_witness :
  peek_command ex_stat (λ _, true) (λ _, true)
    (λ _, [Intr; Got (lit "one" ++ [NL]); Got (NL :: lit "t"); Got (lit "wo")])
    (λ _, Got <$> ex_file) (λ _, ex_file) (λ _ _, true) [lit "f"; lit "-nr"; lit "g"; lit "f"]
  = Some ([Stdout (lit "2 two" ++ [NL] ++ lit "1 one" ++ [NL]);
           error_line "no such file or directory";
           Stdout (lit "4 two" ++ [NL] ++ lit "3 one" ++ [NL])], true).
Proof.
  rewrite (peek_command_spec ex_stat (λ _, true) (λ _, true) _ _ _ _ _
    {| numbered := true; reversed := true |} [lit "f"; lit "g"; lit "f"] ex_readable);
    vm_compute; reflexivity.
Defined.
