(* ===== verification/Bytes.v ===== *)
(** * Blocks of bytes and little-endian words

    A disk block and a C object in memory are lists of bytes, each a [Z] below
    256.  [splice] is a [memmove] into a larger object, [slice] one out of it,
    and [le_get]/[le_put] are the loads and stores of an [n]-byte integer on the
    little-endian machine. *)

From S2P Require Import Prelude.

Local Open Scope nat_scope.

Definition slice {A} (off n : nat) (bs : list A) : list A := take n (drop off bs).
Definition splice {A} (off : nat) (new bs : list A) : list A :=
  take off bs ++ new ++ drop (off + length new) bs.

Fixpoint le_bytes (n : nat) (v : Z) : list Z :=
  match n with
  | O => []
  | S n => (v mod 256)%Z :: le_bytes n (v / 256)
  end.

Fixpoint le_value (bs : list Z) : Z :=
  match bs with
  | [] => 0
  | b :: bs => (b + 256 * le_value bs)%Z
  end.

Definition le_get (n off : nat) (bs : list Z) : Z := le_value (slice off n bs).
Definition le_put (n off : nat) (v : Z) (bs : list Z) : list Z := splice off (le_bytes n v) bs.

(** ** Slices *)
Section Slices.
Context {A : Type}.
Implicit Types (bs new : list A).

Lemma length_slice off n bs : off + n ≤ length bs → length (slice off n bs) = n.
Proof. intros H. unfold slice. rewrite length_take, length_drop. lia. Qed.

Lemma length_splice off new bs :
  off + length new ≤ length bs → length (splice off new bs) = length bs.
Proof. intros H. unfold splice. rewrite !length_app, length_take, length_drop. lia. Qed.

Lemma splice_lookup_in off new bs i :
  off + length new ≤ length bs → off ≤ i < off + length new →
  splice off new bs !! i = new !! (i - off).
Proof.
  intros H Hi. unfold splice. rewrite lookup_app_r; rewrite length_take; [|lia].
  rewrite lookup_app_l by lia. f_equal. lia.
Qed.

Lemma splice_lookup_out off new bs i :
  off + length new ≤ length bs → i < off ∨ off + length new ≤ i →
  splice off new bs !! i = bs !! i.
Proof.
  intros H Hi. unfold splice. destruct (decide (i < off)).
  - rewrite lookup_app_l by (rewrite length_take; lia). by rewrite lookup_take_lt.
  - rewrite lookup_app_r; rewrite length_take; [|lia]. rewrite lookup_app_r by lia.
    rewrite lookup_drop. f_equal. lia.
Qed.

Lemma slice_lookup off n bs i : i < n → slice off n bs !! i = bs !! (off + i).
Proof. intros H. unfold slice. by rewrite lookup_take_lt, lookup_drop. Qed.

Lemma slice_splice_eq off new bs :
  off + length new ≤ length bs → slice off (length new) (splice off new bs) = new.
Proof.
  intros H. unfold slice, splice. rewrite drop_app_length' by (rewrite length_take; lia).
  by rewrite take_app_length.
Qed.

Lemma slice_splice_ne off n off' new bs :
  off' + length new ≤ length bs → off + n ≤ off' ∨ off' + length new ≤ off →
  slice off n (splice off' new bs) = slice off n bs.
Proof.
  intros H Hd. apply list_eq. intros i. destruct (decide (i < n)) as [Hi|Hi].
  - rewrite !slice_lookup by done. apply splice_lookup_out; lia.
  - unfold slice. by rewrite !lookup_take_ge by lia.
Qed.

Lemma splice_all new bs : length new = length bs → splice 0 new bs = new.
Proof. intros H. unfold splice. rewrite drop_ge by lia. simpl. by rewrite app_nil_r. Qed.

Lemma slice_all bs n : length bs = n → slice 0 n bs = bs.
Proof. intros <-. unfold slice. by rewrite drop_0, take_ge. Qed.

Lemma splice_app off new1 new2 bs :
  off + length new1 + length new2 ≤ length bs →
  splice (off + length new1) new2 (splice off new1 bs) = splice off (new1 ++ new2) bs.
Proof.
  intros H. apply list_eq. intros i.
  destruct (decide (off ≤ i < off + length new1)).
  { rewrite splice_lookup_out by (rewrite ?length_splice; lia).
    rewrite !splice_lookup_in by (rewrite ?length_app; lia). rewrite lookup_app_l by lia. done. }
  destruct (decide (off + length new1 ≤ i < off + length new1 + length new2)).
  { rewrite !splice_lookup_in by (rewrite ?length_splice, ?length_app; lia).
    rewrite lookup_app_r by lia. f_equal. lia. }
  by rewrite !splice_lookup_out by (rewrite ?length_splice, ?length_app; lia).
Qed.
End Slices.

(** ** Words *)
Lemma length_le_bytes n v : length (le_bytes n v) = n.
Proof. revert v. induction n as [|n IH]; intros v; simpl; by rewrite ?IH. Qed.

Lemma le_value_bytes n v : (0 ≤ v < 256 ^ Z.of_nat n)%Z → le_value (le_bytes n v) = v.
Proof.
  revert v. induction n as [|n IH]; intros v Hv; [simpl in *; lia|]. cbn [le_bytes le_value].
  rewrite Nat2Z.inj_succ, Z.pow_succ_r in Hv by lia. rewrite IH.
  - pose proof (Z.div_mod v 256). lia.
  - split; [apply Z.div_pos; lia|apply Z.div_lt_upper_bound; lia].
Qed.

Definition is_byte (b : Z) : Prop := (0 ≤ b < 256)%Z.

Lemma le_bytes_range n v : Forall is_byte (le_bytes n v).
Proof.
  revert v. induction n as [|n IH]; intros v; constructor; [|done].
  unfold is_byte. apply Z.mod_pos_bound. lia.
Qed.

Lemma le_value_range bs :
  Forall is_byte bs → (0 ≤ le_value bs < 256 ^ Z.of_nat (length bs))%Z.
Proof.
  induction 1 as [|b bs Hb _ IH]; [simpl; lia|]. cbn [le_value length].
  rewrite Nat2Z.inj_succ, Z.pow_succ_r by lia. unfold is_byte in Hb. nia.
Qed.

Lemma le_bytes_value bs : Forall is_byte bs → le_bytes (length bs) (le_value bs) = bs.
Proof.
  induction 1 as [|b bs Hb _ IH]; [done|]. cbn [le_value length le_bytes]. unfold is_byte in Hb.
  rewrite (Z.mul_comm 256), Z.mod_add, Z.mod_small by lia. f_equal.
  by rewrite Z.div_add, Z.div_small, Z.add_0_l by lia.
Qed.

Lemma le_get_put_eq n off v bs :
  off + n ≤ length bs → (0 ≤ v < 256 ^ Z.of_nat n)%Z → le_get n off (le_put n off v bs) = v.
Proof.
  intros H Hv. unfold le_get, le_put. rewrite <-(length_le_bytes n v) at 1.
  rewrite slice_splice_eq by (by rewrite length_le_bytes). by apply le_value_bytes.
Qed.

Lemma le_get_splice_ne n off off' new bs :
  off' + length new ≤ length bs → off + n ≤ off' ∨ off' + length new ≤ off →
  le_get n off (splice off' new bs) = le_get n off bs.
Proof. intros. unfold le_get. by rewrite slice_splice_ne. Qed.

Lemma le_get_put_ne n off n' off' v bs :
  off' + n' ≤ length bs → off + n ≤ off' ∨ off' + n' ≤ off →
  le_get n off (le_put n' off' v bs) = le_get n off bs.
Proof. intros. unfold le_put. by rewrite le_get_splice_ne by (by rewrite length_le_bytes). Qed.

Lemma length_le_put n off v bs :
  off + n ≤ length bs → length (le_put n off v bs) = length bs.
Proof. intros. unfold le_put. by rewrite length_splice by (by rewrite length_le_bytes). Qed.

Create Rewrite HintDb bytes.
#[export] Hint Rewrite @length_splice @length_slice @length_le_put length_le_bytes
  using lia : bytes.
