(* ===== verification/KString.v ===== *)
(** * Strings and memory (xv6/kernel/string.c)

    Memory is a function from addresses to bytes; pointers are addresses, and
    the sums of a pointer and a length do not wrap.  [char] is unsigned on the
    machine.  The functions that only fill an object return its bytes. *)

From stdpp Require Import functions.
From S2P Require Export Prelude Bytes.

#[local] Set Default Proof Using "Type".
Local Open Scope Z_scope.

Abbreviation mem := (Z → Z).

(** [for (i = 0; i < n; i++) cdst[i] = c] *)
Fixpoint memset_loop (m : mem) (dst c : Z) (n : nat) : mem :=
  match n with
  | O => m
  | S n => memset_loop (<[dst := c mod 256]> m) (dst + 1) c n
  end.

Definition memset (m : mem) (dst c : Z) (n : nat) : mem := memset_loop m dst c n.

Fixpoint memcmp (m : mem) (s1 s2 : Z) (n : nat) : Z :=
  match n with
  | O => 0
  | S n => if m s1 =? m s2 then memcmp m (s1 + 1) (s2 + 1) n else m s1 - m s2
  end.

(** [while (n-- > 0) *--d = *--s] *)
Fixpoint move_back (m : mem) (d s : Z) (n : nat) : mem :=
  match n with
  | O => m
  | S n => move_back (<[d - 1 := m (s - 1)]> m) (d - 1) (s - 1) n
  end.

(** [while (n-- > 0) *d++ = *s++] *)
Fixpoint move_fwd (m : mem) (d s : Z) (n : nat) : mem :=
  match n with
  | O => m
  | S n => move_fwd (<[d := m s]> m) (d + 1) (s + 1) n
  end.

Definition memmove (m : mem) (dst src : Z) (n : nat) : mem :=
  if (n =? 0)%nat then m
  else if (src <? dst) && (dst <? src + Z.of_nat n) then
    move_back m (dst + Z.of_nat n) (src + Z.of_nat n) n
  else move_fwd m dst src n.

Definition memcpy (m : mem) (dst src : Z) (n : nat) : mem := memmove m dst src n.

(** *** Strings

    [p] and [q] give the bytes from the pointers on. *)
Abbreviation cptr := (nat → Z).
Definition incp (p : cptr) : cptr := λ k, p (S k).

Fixpoint strncmp (p q : cptr) (n : nat) : Z :=
  match n with
  | O => 0
  | S k =>
      if negb (p 0%nat =? 0) && (p 0%nat =? q 0%nat) then strncmp (incp p) (incp q) k
      else p 0%nat - q 0%nat
  end.

(** The [n] bytes stored. *)
Fixpoint strncpy (t : cptr) (n : nat) : list Z :=
  match n with
  | O => []
  | S n => t 0%nat :: if t 0%nat =? 0 then replicate n 0 else strncpy (incp t) n
  end.

(** The bytes stored by the loop of [safestrcpy], which counts [n] down first, and the last 0. *)
Fixpoint safestrcpy_loop (t : cptr) (n : nat) : list Z :=
  match n with
  | O => [0]
  | S n => t 0%nat :: if t 0%nat =? 0 then [0] else safestrcpy_loop (incp t) n
  end.

Definition safestrcpy (t : cptr) (n : Z) : list Z :=
  if n <=? 0 then [] else safestrcpy_loop t (Z.to_nat n - 1).

(** [None]: no NUL in the first [fuel] bytes. *)
Fixpoint strlen_from (s : cptr) (n fuel : nat) : option nat :=
  if s n =? 0 then Some n
  else match fuel with O => None | S fuel => strlen_from s (S n) fuel end.

Definition strlen (s : cptr) (fuel : nat) : option nat := strlen_from s 0 fuel.

(** ** Lemmas *)

(** [memset] sets the bytes of its object and no other. *)
Lemma memset_spec m dst c n x :
  memset m dst c n x = if decide (dst ≤ x < dst + Z.of_nat n) then c mod 256 else m x.
Proof.
  unfold memset. revert m dst. induction n as [|n IH]; intros m dst; cbn [memset_loop].
  - by rewrite decide_False by lia.
  - rewrite IH. destruct (decide (dst = x)) as [->|Hne].
    + rewrite decide_False by lia. rewrite decide_True by lia. apply fn_lookup_insert.
    + destruct (decide (dst + 1 ≤ x < dst + 1 + Z.of_nat n)).
      * by rewrite decide_True by lia.
      * rewrite decide_False by lia. by apply fn_lookup_insert_ne.
Qed.

Lemma move_fwd_spec m d s n x :
  d ≤ s ∨ s + Z.of_nat n ≤ d →
  move_fwd m d s n x = if decide (d ≤ x < d + Z.of_nat n) then m (s + (x - d)) else m x.
Proof.
  revert m d s. induction n as [|n IH]; intros m d s Hov; cbn [move_fwd].
  - by rewrite decide_False by lia.
  - rewrite IH by lia. destruct (decide (x = d)) as [->|Hne].
    + rewrite decide_False by lia. rewrite decide_True by lia. rewrite fn_lookup_insert. f_equal. lia.
    + destruct (decide (d + 1 ≤ x < d + 1 + Z.of_nat n)).
      * rewrite decide_True by lia. rewrite fn_lookup_insert_ne by lia. f_equal. lia.
      * rewrite decide_False by lia. by rewrite fn_lookup_insert_ne by lia.
Qed.

Lemma move_back_spec m d s n x :
  s ≤ d →
  move_back m d s n x = if decide (d - Z.of_nat n ≤ x < d) then m (s - (d - x)) else m x.
Proof.
  revert m d s. induction n as [|n IH]; intros m d s Hov; cbn [move_back].
  - by rewrite decide_False by lia.
  - rewrite IH by lia. destruct (decide (x = d - 1)) as [->|Hne].
    + rewrite decide_False by lia. rewrite decide_True by lia. rewrite fn_lookup_insert. f_equal. lia.
    + destruct (decide (d - 1 - Z.of_nat n ≤ x < d - 1)).
      * rewrite decide_True by lia. rewrite fn_lookup_insert_ne by lia. f_equal. lia.
      * rewrite decide_False by lia. by rewrite fn_lookup_insert_ne by lia.
Qed.

(** [memmove] copies the source as it was before the call, however the two objects overlap, and
    changes no other byte. *)
Theorem memmove_spec m dst src n x :
  memmove m dst src n x
  = if decide (dst ≤ x < dst + Z.of_nat n) then m (src + (x - dst)) else m x.
Proof.
  unfold memmove. destruct (n =? 0)%nat eqn:E0.
  { apply Nat.eqb_eq in E0. subst. by rewrite decide_False by lia. }
  destruct ((src <? dst) && (dst <? src + Z.of_nat n)) eqn:E.
  - apply andb_true_iff in E as [E1%Z.ltb_lt E2%Z.ltb_lt]. rewrite move_back_spec by lia.
    destruct (decide (dst ≤ x < dst + Z.of_nat n)).
    + rewrite decide_True by lia. f_equal. lia.
    + by rewrite decide_False by lia.
  - apply andb_false_iff in E. rewrite move_fwd_spec; [done|]. destruct E as [E%Z.ltb_ge|E%Z.ltb_ge]; lia.
Qed.

(** [memcmp] is 0 exactly on equal objects. *)
Lemma memcmp_zero m s1 s2 n :
  memcmp m s1 s2 n = 0 ↔ ∀ k, 0 ≤ k < Z.of_nat n → m (s1 + k) = m (s2 + k).
Proof.
  revert s1 s2. induction n as [|n IH]; intros s1 s2; cbn [memcmp]; [split; [lia|done]|].
  destruct (m s1 =? m s2) eqn:E.
  - apply Z.eqb_eq in E. rewrite IH. split; intros H k Hk.
    + destruct (decide (k = 0)) as [->|]; [by rewrite !Z.add_0_r|].
      specialize (H (k - 1) ltac:(lia)). by replace (s1 + 1 + (k - 1)) with (s1 + k) in H by lia;
        replace (s2 + 1 + (k - 1)) with (s2 + k) in H by lia.
    + rewrite <-!Z.add_assoc. apply H. lia.
  - apply Z.eqb_neq in E. split; [lia|]. intros H. specialize (H 0 ltac:(lia)). rewrite !Z.add_0_r in H. lia.
Qed.

(** Two strings are the same up to [n] bytes: equal until one ends. *)
Lemma strncmp_zero p q n :
  strncmp p q n = 0 ↔ ∀ k, (k < n)%nat → (∀ j, (j < k)%nat → p j ≠ 0) → p k = q k.
Proof.
  revert p q. induction n as [|n IH]; intros p q; cbn [strncmp]; [split; [lia|done]|].
  destruct (p 0%nat =? 0) eqn:E0; cbn [negb andb].
  - apply Z.eqb_eq in E0. split.
    + intros H [|k] Hk Hj; [lia|]. by specialize (Hj 0%nat ltac:(lia)).
    + intros H. specialize (H 0%nat ltac:(lia) ltac:(lia)). lia.
  - apply Z.eqb_neq in E0. destruct (p 0%nat =? q 0%nat) eqn:E1.
    + apply Z.eqb_eq in E1. rewrite IH. unfold incp. split; intros H.
      * intros [|k] Hk Hj; [done|]. apply H; [lia|]. intros j Hjk. apply Hj. lia.
      * intros k Hk Hj. apply H; [lia|]. intros [|j] Hjk; [done|]. apply Hj. lia.
    + apply Z.eqb_neq in E1. split; [lia|]. intros H. specialize (H 0%nat ltac:(lia) ltac:(lia)). lia.
Qed.

Lemma strncmp_sym p q n : strncmp p q n = 0 → strncmp q p n = 0.
Proof.
  rewrite !strncmp_zero. intros H k. induction k as [k IH] using lt_wf_ind. intros Hk Hj. symmetry.
  apply H; [done|]. intros j Hjk. rewrite H; [by apply Hj|lia|]. intros l Hl.
  assert (E : q l = p l); [|rewrite <-E; apply Hj; lia]. apply IH; [lia|lia|]. intros l' Hl'. apply Hj. lia.
Qed.

Lemma strncmp_trans p q r n : strncmp p q n = 0 → strncmp q r n = 0 → strncmp p r n = 0.
Proof.
  rewrite !strncmp_zero. intros H1 H2 k Hk Hj. rewrite H1 by done. apply H2; [done|]. intros j Hjk.
  rewrite <-H1; [by apply Hj|lia|]. intros l Hl. apply Hj. lia.
Qed.

Lemma length_strncpy t n : length (strncpy t n) = n.
Proof.
  revert t. induction n as [|n IH]; intros t; [done|]. cbn [strncpy length]. case_match; [by rewrite length_replicate|].
  by rewrite IH.
Qed.

(** The bytes of an object. *)
Definition ptr (l : list Z) : cptr := λ k, default 0 (l !! k).

Lemma strncpy_lookup t n k :
  (k < n)%nat → (∀ j, (j < k)%nat → t j ≠ 0) → ptr (strncpy t n) k = t k.
Proof.
  revert t n. induction k as [|k IH]; intros t n Hk Hj; (destruct n as [|n]; [lia|]); [done|].
  cbn [strncpy]. rewrite (proj2 (Z.eqb_neq _ _)) by (apply Hj; lia).
  change (ptr (strncpy (incp t) n) k = incp t k). apply IH; [lia|]. intros j Hjk. apply (Hj (S j)). lia.
Qed.

(** A copied string compares equal to the original. *)
Lemma strncmp_strncpy t n : strncmp t (ptr (strncpy t n)) n = 0.
Proof. apply strncmp_zero. intros k Hk Hj. by rewrite strncpy_lookup. Qed.

(** [safestrcpy] stores at most [n] bytes, the last of them 0. *)
Lemma safestrcpy_bounds t n :
  0 < n → Z.of_nat (length (safestrcpy t n)) ≤ n ∧ last (safestrcpy t n) = Some 0.
Proof.
  intros Hn. unfold safestrcpy. rewrite (proj2 (Z.leb_gt _ _)) by lia.
  assert (H : ∀ k t, (length (safestrcpy_loop t k) ≤ S k)%nat ∧ last (safestrcpy_loop t k) = Some 0).
  { induction k as [|k IH]; intros t'; [done|]. cbn [safestrcpy_loop]. case_match; [cbn; split; [lia|done]|].
    destruct (IH (incp t')) as [H1 H2]. split; [cbn; lia|].
    destruct (safestrcpy_loop (incp t') k) as [|x l]; [done|]. by rewrite last_cons_cons. }
  destruct (H (Z.to_nat n - 1)%nat t) as [H1 H2]. split; [lia|done].
Qed.

Lemma strlen_spec s n fuel :
  s n = 0 → (∀ k, (k < n)%nat → s k ≠ 0) → (n ≤ fuel)%nat → strlen s fuel = Some n.
Proof.
  intros Hn Hk Hf. unfold strlen.
  assert (H : ∀ fuel k, (k ≤ n)%nat → (n - k ≤ fuel)%nat → strlen_from s k fuel = Some n).
  { clear fuel Hf. induction fuel as [|fuel IH]; intros k Hkn Hf; cbn [strlen_from].
    - assert (k = n) as -> by lia. by rewrite Hn.
    - destruct (decide (k = n)) as [->|]; [by rewrite Hn|]. rewrite (proj2 (Z.eqb_neq _ _)) by (apply Hk; lia).
      apply IH; lia. }
  apply H; lia.
Qed.
