(* ===== verification/Bio.v ===== *)
(** * The buffer cache (xv6/kernel/bio.c, sleeplock.c)

    The array [bcache.buf], the list of its buffers by how recently they were
    used, and the disk below.  A buffer is named by its index in the array.
    Each function runs alone, as the locks of the source make it do between
    two sleeps; a process that has to wait for a sleep-lock is [Sleeps].

    [disk] is what the virtio disk stores: [virtio_disk_rw] transfers one
    block, whatever the device number, and [writes] records the blocks written
    in order, so that a crash between two writes can be expressed. *)

From stdpp Require Export functions.
From S2P Require Export Prelude Bytes.

#[local] Set Warnings "-clear-no-such-hyp".
#[local] Set Default Proof Using "Type".
Local Open Scope nat_scope.

Definition BSIZE : nat := 1024.
Definition NBUF : nat := 30.
Definition ROOTDEV : Z := 1.

Abbreviation block := (list Z).

(** How a kernel function can fail to return. *)
Inductive stop :=
  | Panic (msg : string)
  | Sleeps.

(** ** Sleep-locks *)
Record sleeplock := { locked : bool; lk_pid : Z }.

Definition initsleeplock : sleeplock := {| locked := false; lk_pid := 0 |}.

(** [None]: the caller sleeps. *)
Definition acquiresleep (me : Z) (lk : sleeplock) : option sleeplock :=
  if locked lk then None else Some {| locked := true; lk_pid := me |}.

Definition releasesleep (lk : sleeplock) : sleeplock := {| locked := false; lk_pid := 0 |}.

Definition holdingsleep (me : Z) (lk : sleeplock) : bool := locked lk && (lk_pid lk =? me)%Z.

(** ** Data *)
Record buf := {
  b_valid : bool;
  b_dev : Z;
  b_blockno : Z;
  b_lock : sleeplock;
  b_refcnt : Z;
  b_data : block
}.

Definition with_lock (lk : sleeplock) (b : buf) : buf :=
  {| b_valid := b_valid b; b_dev := b_dev b; b_blockno := b_blockno b; b_lock := lk;
     b_refcnt := b_refcnt b; b_data := b_data b |}.
Definition with_refcnt (n : Z) (b : buf) : buf :=
  {| b_valid := b_valid b; b_dev := b_dev b; b_blockno := b_blockno b; b_lock := b_lock b;
     b_refcnt := u32 n; b_data := b_data b |}.
Definition with_data (d : block) (b : buf) : buf :=
  {| b_valid := b_valid b; b_dev := b_dev b; b_blockno := b_blockno b; b_lock := b_lock b;
     b_refcnt := b_refcnt b; b_data := d |}.
Definition with_valid (v : bool) (b : buf) : buf :=
  {| b_valid := v; b_dev := b_dev b; b_blockno := b_blockno b; b_lock := b_lock b;
     b_refcnt := b_refcnt b; b_data := b_data b |}.

(** [lru] is the list from [head.next] to [head.prev]. *)
Record bcache := { bufs : list buf; lru : list nat; disk : Z → block; writes : list (Z * block) }.

Definition upd_bufs (f : list buf → list buf) (s : bcache) : bcache :=
  {| bufs := f (bufs s); lru := lru s; disk := disk s; writes := writes s |}.
Definition upd_buf (i : nat) (f : buf → buf) : bcache → bcache := upd_bufs (alter f i).
Definition upd_lru (f : list nat → list nat) (s : bcache) : bcache :=
  {| bufs := bufs s; lru := f (lru s); disk := disk s; writes := writes s |}.
Definition write_disk (bn : Z) (d : block) (s : bcache) : bcache :=
  {| bufs := bufs s; lru := lru s; disk := <[bn := d]> (disk s); writes := writes s ++ [(bn, d)] |}.

Abbreviation B A := (M bcache stop A).

Definition zero_buf : buf :=
  {| b_valid := false; b_dev := 0; b_blockno := 0; b_lock := initsleeplock; b_refcnt := 0;
     b_data := replicate BSIZE 0%Z |}.

(** ** Operations *)

(** Every buffer is put at the head in turn. *)
Definition binit (d : Z → block) : bcache :=
  {| bufs := replicate NBUF zero_buf; lru := rev (seq 0 NBUF); disk := d; writes := [] |}.

Definition get_buf (i : nat) : B buf := λ s,
  match bufs s !! i with Some b => (Ret b, s) | None => (Err (Panic "wild pointer"), s) end.

(** The first index of [order] whose buffer satisfies [f]. *)
Fixpoint scan (f : buf → bool) (bs : list buf) (order : list nat) : option nat :=
  match order with
  | [] => None
  | i :: order =>
      match bs !! i with
      | Some b => if f b then Some i else scan f bs order
      | None => scan f bs order
      end
  end.

Definition lock_buf (me : Z) (i : nat) : B () :=
  b ← get_buf i;
  match acquiresleep me (b_lock b) with
  | Some lk => modify (upd_buf i (with_lock lk))
  | None => throw Sleeps
  end.

Definition bget (me dev blockno : Z) : B nat :=
  s ← gets id;
  match scan (λ b, (b_dev b =? dev)%Z && (b_blockno b =? blockno)%Z) (bufs s) (lru s) with
  | Some i =>
      modify (upd_buf i (λ b, with_refcnt (b_refcnt b + 1) b));;
      lock_buf me i;;
      mret i
  | None =>
      match scan (λ b, (b_refcnt b =? 0)%Z) (bufs s) (rev (lru s)) with
      | Some i =>
          modify (upd_buf i (λ b,
            {| b_valid := false; b_dev := dev; b_blockno := blockno; b_lock := b_lock b;
               b_refcnt := 1; b_data := b_data b |}));;
          lock_buf me i;;
          mret i
      | None => throw (Panic "bget: no buffers")
      end
  end.

Definition bread (me dev blockno : Z) : B nat :=
  i ← bget me dev blockno;
  b ← get_buf i;
  (if b_valid b then mret ()
   else
     s ← gets id;
     modify (upd_buf i (with_data (disk s (b_blockno b))));;
     modify (upd_buf i (with_valid true)));;
  mret i.

Definition bwrite (me : Z) (i : nat) : B () :=
  b ← get_buf i;
  if negb (holdingsleep me (b_lock b)) then throw (Panic "bwrite")
  else modify (write_disk (b_blockno b) (b_data b)).

Definition brelse (me : Z) (i : nat) : B () :=
  b ← get_buf i;
  if negb (holdingsleep me (b_lock b)) then throw (Panic "brelse")
  else
    modify (upd_buf i (with_lock (releasesleep (b_lock b))));;
    modify (upd_buf i (λ b, with_refcnt (b_refcnt b - 1) b));;
    b ← get_buf i;
    if (b_refcnt b =? 0)%Z then modify (upd_lru (λ l, i :: filter (λ j, j ≠ i) l))
    else mret ().

Definition bpin (i : nat) : B () := modify (upd_buf i (λ b, with_refcnt (b_refcnt b + 1) b)).

Definition bunpin (i : nat) : B () := modify (upd_buf i (λ b, with_refcnt (b_refcnt b - 1) b)).

(** [b->data] is loaded and stored by the holder of the buffer. *)
Definition bdata (i : nat) : B block := b ← get_buf i; mret (b_data b).
Definition set_bdata (i : nat) (d : block) : B () := modify (upd_buf i (with_data d)).

(** ** What a block holds, cached or not *)
Definition holds (s : bcache) (bn : Z) (i : nat) (b : buf) : Prop :=
  bufs s !! i = Some b ∧ b_dev b = ROOTDEV ∧ b_blockno b = bn.

Definition is_block (bn : Z) (b : buf) : bool := (b_dev b =? ROOTDEV)%Z && (b_blockno b =? bn)%Z.

Definition cached (s : bcache) (bn : Z) : option nat := scan (is_block bn) (bufs s) (lru s).

Definition view (s : bcache) (bn : Z) : block :=
  match cached s bn ≫= λ i, bufs s !! i with
  | Some b => if b_valid b then b_data b else disk s bn
  | None => disk s bn
  end.

Definition some_free (s : bcache) : Prop := ∃ i b, bufs s !! i = Some b ∧ b_refcnt b = 0%Z.

(** Each block of the root device has one buffer at most, an unreferenced
    buffer agrees with the disk, and is not locked. *)
Record bcache_ok (s : bcache) : Prop := {
  ok_len : length (bufs s) = NBUF;
  ok_lru : lru s ≡ₚ seq 0 NBUF;
  ok_unique : ∀ bn i j b b', holds s bn i b → holds s bn j b' → i = j;
  ok_free : ∀ i b, bufs s !! i = Some b → b_refcnt b = 0%Z →
    locked (b_lock b) = false ∧ (b_valid b = true → b_data b = disk s (b_blockno b));
  ok_dev : ∀ i b, bufs s !! i = Some b → b_valid b = true → b_dev b = ROOTDEV;
  ok_refcnt : ∀ i b, bufs s !! i = Some b → (0 ≤ b_refcnt b)%Z
}.

(** ** Lemmas *)
Lemma scan_Some f bs order i :
  scan f bs order = Some i → i ∈ order ∧ ∃ b, bs !! i = Some b ∧ f b = true.
Proof.
  induction order as [|j order IH]; simpl; [done|].
  destruct (bs !! j) as [b|] eqn:Hj; [destruct (f b) eqn:Hf|].
  - intros [= <-]. split; [by left|eauto].
  - intros [? ?]%IH. split; [by right|done].
  - intros [? ?]%IH. split; [by right|done].
Qed.

Lemma scan_None f bs order i b :
  scan f bs order = None → i ∈ order → bs !! i = Some b → f b = false.
Proof.
  intros H Hi Hb. revert H. induction order as [|j order IH]; simpl; [by apply elem_of_nil in Hi|].
  apply elem_of_cons in Hi as [->|Hi].
  - rewrite Hb. by destruct (f b).
  - destruct (bs !! j) as [b'|]; [destruct (f b'); [done|]|]; eauto.
Qed.

Lemma is_block_true bn b : is_block bn b = true ↔ b_dev b = ROOTDEV ∧ b_blockno b = bn.
Proof. unfold is_block. by rewrite andb_true_iff, !Z.eqb_eq. Qed.

Lemma u32_id x : (0 ≤ x < 2 ^ 32)%Z → u32 x = x.
Proof. intros. unfold u32. by apply Z.mod_small. Qed.

Section Facts.
Context (s : bcache) (Hok : bcache_ok s).

Lemma in_lru i b : bufs s !! i = Some b → i ∈ lru s.
Proof using Hok.
  intros Hb%lookup_lt_Some. rewrite (ok_lru s Hok). rewrite (ok_len s Hok) in Hb.
  apply elem_of_seq. lia.
Qed.

Lemma cached_Some bn i : cached s bn = Some i → ∃ b, holds s bn i b.
Proof using Type.
  intros (_ & b & Hb & [Hd Hn]%is_block_true)%scan_Some. by exists b.
Qed.

Lemma cached_holds bn i b : holds s bn i b → cached s bn = Some i.
Proof using Hok.
  intros Hh. destruct (cached s bn) as [j|] eqn:E.
  - apply cached_Some in E as [b' Hb']. f_equal. by eapply (ok_unique s Hok).
  - exfalso. destruct Hh as (Hb & Hd). eapply scan_None in E; [|by eapply in_lru|done].
    rewrite <-not_true_iff_false in E. by apply E, is_block_true.
Qed.

Lemma cached_None bn : cached s bn = None ↔ ∀ i b, ¬ holds s bn i b.
Proof using Hok.
  split.
  - intros H i b Hh. by rewrite (cached_holds _ _ _ Hh) in H.
  - intros H. destruct (cached s bn) as [i|] eqn:E; [|done].
    apply cached_Some in E as [b Hb]. by destruct (H i b).
Qed.

Lemma view_holds bn i b :
  holds s bn i b → view s bn = if b_valid b then b_data b else disk s bn.
Proof using Hok.
  intros Hh. unfold view. rewrite (cached_holds _ _ _ Hh). simpl. by rewrite (proj1 Hh).
Qed.

Lemma view_uncached bn : (∀ i b, ¬ holds s bn i b) → view s bn = disk s bn.
Proof using Hok. intros H%cached_None. unfold view. by rewrite H. Qed.

Lemma holders bn : (∃ i b, holds s bn i b) ∨ (∀ i b, ¬ holds s bn i b).
Proof using Hok.
  destruct (cached s bn) as [i|] eqn:E; [left|right].
  - apply cached_Some in E as [b Hb]. eauto.
  - by apply cached_None.
Qed.

(** An unreferenced buffer shows the disk. *)
Lemma view_unreferenced bn :
  (∀ i b, holds s bn i b → b_refcnt b = 0%Z) → view s bn = disk s bn.
Proof using Hok.
  intros H. destruct (holders bn) as [(i & b & Hh)|Hn]; [|by apply view_uncached].
  rewrite (view_holds _ _ _ Hh). destruct (b_valid b) eqn:Ev; [|done].
  destruct Hh as (Hb & Hd & Hn). rewrite <-Hn.
  apply (ok_free s Hok i b Hb); [by apply (H i)|done].
Qed.

End Facts.

(** *** Replacing one buffer *)
Definition put (i : nat) (b : buf) : bcache → bcache := upd_bufs <[i := b]>.

Lemma put_lookup i b s j :
  i < length (bufs s) → bufs (put i b s) !! j = if decide (j = i) then Some b else bufs s !! j.
Proof.
  intros Hi. unfold put. simpl. destruct (decide (j = i)) as [->|Hne].
  - by apply list_lookup_insert_eq.
  - by apply list_lookup_insert_ne.
Qed.

Lemma put_put i b b' s : put i b (put i b' s) = put i b s.
Proof. unfold put, upd_bufs. simpl. by rewrite list_insert_insert_eq. Qed.

Lemma upd_buf_put i f b s : bufs s !! i = Some b → upd_buf i f s = put i (f b) s.
Proof. intros Hb. unfold upd_buf, put, upd_bufs. f_equal. by apply list_alter_insert. Qed.

Lemma upd_put i f b s : i < length (bufs s) → upd_buf i f (put i b s) = put i (f b) s.
Proof.
  intros Hi. rewrite (upd_buf_put _ _ b); [by rewrite put_put|]. by rewrite put_lookup, decide_True.
Qed.

Section Put.
Context (s : bcache) (i : nat) (b b' : buf) (Hok : bcache_ok s) (Hb : bufs s !! i = Some b).

Lemma put_holds bn j c :
  holds (put i b' s) bn j c ↔
  (j = i ∧ c = b' ∧ b_dev b' = ROOTDEV ∧ b_blockno b' = bn) ∨ (j ≠ i ∧ holds s bn j c).
Proof using Hb.
  unfold holds. rewrite put_lookup by (by eapply lookup_lt_Some). destruct (decide (j = i)) as [->|Hne].
  - split; [intros ([= <-] & ? & ?); by left|]. intros [(_ & -> & ? & ?)|[? _]]; done.
  - split; [intros H; by right|]. intros [[? _]|[_ ?]]; done.
Qed.

Lemma put_ok :
  (b_dev b' = b_dev b ∧ b_blockno b' = b_blockno b ∨
   ∀ j c, ¬ holds s (b_blockno b') j c) →
  (b_refcnt b' = 0%Z → locked (b_lock b') = false ∧
    (b_valid b' = true → b_data b' = disk s (b_blockno b'))) →
  (b_valid b' = true → b_dev b' = ROOTDEV) → (0 ≤ b_refcnt b')%Z →
  bcache_ok (put i b' s).
Proof using Hok Hb.
  intros Hkey Hfree Hdev Href. destruct Hok as [H1 H2 H3 H4 H5 H6]. split.
  - unfold put. simpl. by rewrite length_insert.
  - exact H2.
  - assert (Hi : ∀ bn j c, holds s bn j c → b_dev b' = ROOTDEV → b_blockno b' = bn → j = i).
    { intros bn j c Hj Hd' Hn'. destruct Hkey as [[Hd Hn]|Hno].
      - eapply H3; [exact Hj|]. split; [exact Hb|]. by rewrite <-Hd, <-Hn.
      - rewrite Hn' in Hno. by destruct (Hno j c). }
    intros bn j k c c' [(-> & -> & Hd & Hn)|[Hj Hc]]%put_holds [(-> & -> & Hd' & Hn')|[Hk Hc']]%put_holds;
      [done|by symmetry; eapply Hi|by eapply Hi|by eapply H3].
  - intros j c Hc. rewrite put_lookup in Hc by (by eapply lookup_lt_Some).
    destruct (decide (j = i)); [by injection Hc as <-|by apply (H4 j)].
  - intros j c Hc. rewrite put_lookup in Hc by (by eapply lookup_lt_Some).
    destruct (decide (j = i)); [by injection Hc as <-|by apply (H5 j)].
  - intros j c Hc. rewrite put_lookup in Hc by (by eapply lookup_lt_Some).
    destruct (decide (j = i)); [by injection Hc as <-|by apply (H6 j)].
Qed.

Context (Hok' : bcache_ok (put i b' s)).

Lemma view_put_eq bn :
  b_dev b' = ROOTDEV → b_blockno b' = bn →
  view (put i b' s) bn = if b_valid b' then b_data b' else disk s bn.
Proof using Hb Hok'.
  intros Hd Hn. rewrite (view_holds _ Hok' bn i b'); [done|]. apply put_holds. by left.
Qed.

Lemma view_put_ne bn :
  ¬ (b_dev b = ROOTDEV ∧ b_blockno b = bn) → ¬ (b_dev b' = ROOTDEV ∧ b_blockno b' = bn) →
  view (put i b' s) bn = view s bn.
Proof using Hb Hok Hok'.
  intros Hnb Hnb'. destruct (holders s Hok bn) as [(j & c & Hh)|Hno].
  - rewrite (view_holds _ Hok bn j c Hh), (view_holds _ Hok' bn j c); [done|].
    apply put_holds. right. split; [|done]. intros ->. destruct Hh as [Hc Hh]. by simplify_eq.
  - rewrite (view_uncached _ Hok bn Hno), (view_uncached _ Hok' bn); [done|].
    intros j c [(_ & _ & ? & ?)|[_ Hc]]%put_holds; [naive_solver|by eapply Hno].
Qed.

Lemma view_put_gone bn :
  b_dev b = ROOTDEV → b_blockno b = bn → ¬ (b_dev b' = ROOTDEV ∧ b_blockno b' = bn) →
  view (put i b' s) bn = disk s bn.
Proof using Hb Hok Hok'.
  intros Hd Hn Hnb'. rewrite (view_uncached _ Hok' bn); [done|].
  intros j c [(_ & _ & ? & ?)|[Hj Hc]]%put_holds; [naive_solver|].
  apply Hj. eapply (ok_unique s Hok); [exact Hc|]. by split.
Qed.

(** A buffer that keeps its block and its contents leaves every view alone. *)
Lemma view_put_keep bn :
  b_dev b' = b_dev b → b_blockno b' = b_blockno b →
  (if b_valid b' then b_data b' else disk s (b_blockno b))
  = (if b_valid b then b_data b else disk s (b_blockno b)) →
  view (put i b' s) bn = view s bn.
Proof using Hb Hok Hok'.
  intros Hd Hn Hc. destruct (decide (b_dev b = ROOTDEV ∧ b_blockno b = bn)) as [[Hr <-]|Hne].
  - rewrite view_put_eq by congruence. rewrite (view_holds _ Hok _ i b); [done|by split].
  - apply view_put_ne; [done|]. by rewrite Hd, Hn.
Qed.
End Put.

(** *** The operations *)
Arguments upd_buf : simpl never.
Arguments put : simpl never.

Definition unlocked (b : buf) : Prop := locked (b_lock b) = false.

(** The block can get a buffer: it has one that is not locked, or one is free. *)
Definition can_get (s : bcache) (bn : Z) : Prop :=
  (∃ i b, holds s bn i b ∧ unlocked b ∧ (b_refcnt b < 2 ^ 32 - 1)%Z) ∨
  ((∀ i b, ¬ holds s bn i b) ∧ some_free s).

(** What [bread] returns: a locked buffer with the contents of the block. *)
Record bread_post (me bn : Z) (s s' : bcache) (i : nat) (old b : buf) : Prop := {
  br_put : s' = put i b s;
  br_lookup : bufs s !! i = Some old;
  br_unlocked : unlocked old;
  br_key : (holds s bn i old ∧ b_refcnt b = (b_refcnt old + 1)%Z) ∨
           ((∀ j c, ¬ holds s bn j c) ∧ b_refcnt old = 0%Z ∧ b_refcnt b = 1%Z);
  br_valid : b_valid b = true;
  br_dev : b_dev b = ROOTDEV;
  br_blockno : b_blockno b = bn;
  br_lock : b_lock b = {| locked := true; lk_pid := me |};
  br_data : b_data b = view s bn;
  br_ok : bcache_ok s';
  br_view : ∀ bn', view s' bn' = view s bn'
}.

Lemma bget_hit me s bn i b :
  bcache_ok s → holds s bn i b → unlocked b → (b_refcnt b < 2 ^ 32 - 1)%Z →
  bget me ROOTDEV bn s =
  (Ret i, put i (with_lock {| locked := true; lk_pid := me |} (with_refcnt (b_refcnt b + 1) b)) s).
Proof.
  intros Hok Hh Hl Hr. pose proof (proj1 Hh) as Hb. pose proof (lookup_lt_Some _ _ _ Hb) as Hlt.
  assert (E := cached_holds s Hok bn i b Hh). unfold cached in E.
  unfold bget, lock_buf, get_buf. msimpl. unfold is_block in E. rewrite E.
  rewrite (upd_buf_put _ _ b) by done. rewrite put_lookup, decide_True by done.
  unfold acquiresleep. cbn [b_lock with_refcnt]. rewrite Hl.
  by rewrite upd_put.
Qed.

Lemma bget_miss me s bn :
  bcache_ok s → (∀ i b, ¬ holds s bn i b) → some_free s →
  ∃ i b, bufs s !! i = Some b ∧ b_refcnt b = 0%Z ∧
    scan (λ b, (b_refcnt b =? 0)%Z) (bufs s) (rev (lru s)) = Some i ∧
    bget me ROOTDEV bn s =
    (Ret i, put i {| b_valid := false; b_dev := ROOTDEV; b_blockno := bn;
      b_lock := {| locked := true; lk_pid := me |}; b_refcnt := 1; b_data := b_data b |} s).
Proof.
  intros Hok Hno Hfree. assert (E := proj2 (cached_None s Hok bn) Hno).
  unfold cached, is_block in E.
  destruct (scan (λ b, (b_refcnt b =? 0)%Z) (bufs s) (rev (lru s))) as [i|] eqn:Es.
  - pose proof Es as Es'. apply scan_Some in Es' as (_ & b & Hb & Hr%Z.eqb_eq). exists i, b.
    pose proof (lookup_lt_Some _ _ _ Hb) as Hlt. do 2 (split; [done|]). split; [done|].
    unfold bget, lock_buf, get_buf. msimpl. rewrite E, Es.
    rewrite (upd_buf_put _ _ b) by done. rewrite put_lookup, decide_True by done.
    unfold acquiresleep. cbn [b_lock with_refcnt]. rewrite (proj1 (ok_free s Hok i b Hb Hr)).
    by rewrite upd_put.
  - exfalso. destruct Hfree as (i & b & Hb & Hr).
    apply (scan_None _ _ _ i b) in Es; [simpl in Es; by rewrite Hr in Es| |done].
    pose proof (in_lru s Hok i b Hb). rewrite list_elem_of_In, <-in_rev. by apply list_elem_of_In.
Qed.

Lemma bread_spec me s bn :
  bcache_ok s → can_get s bn → ∃ i s' old b, bread me ROOTDEV bn s = (Ret i, s') ∧ bread_post me bn s s' i old b.
Proof.
  intros Hok [(i & b & Hh & Hl & Hr)|[Hno Hfree]].
  - pose proof (proj1 Hh) as Hb. pose proof (lookup_lt_Some _ _ _ Hb) as Hlt.
    assert (Hr0 := ok_refcnt s Hok i b Hb). pose proof Hh as (_ & Hd & Hn).
    set (b1 := with_lock {| locked := true; lk_pid := me |} (with_refcnt (b_refcnt b + 1) b)).
    set (b2 := with_valid true (with_data (view s bn) b1)).
    assert (Hrun : bread me ROOTDEV bn s = (Ret i, put i b2 s)).
    { unfold bread, get_buf. msimpl. rewrite (bget_hit me s bn i b) by done. fold b1.
      rewrite put_lookup, decide_True by done. subst b2.
      pose proof (view_holds s Hok bn i b ltac:(done)) as Hv.
      change (b_valid b1) with (b_valid b). destruct (b_valid b) eqn:Ev.
      - do 2 f_equal. rewrite Hv. destruct b. simpl in *. by subst.
      - change (b_blockno b1) with (b_blockno b). change (disk (put i ?b s)) with (disk s).
        rewrite upd_put by done.
        rewrite upd_put by done.
        by rewrite Hv, Hn. }
    assert (Hok' : bcache_ok (put i b2 s)).
    { eapply put_ok; [done|exact Hb| | | |]; simpl; rewrite ?u32_id by lia; [by left|lia|done|lia]. }
    exists i, (put i b2 s), b, b2. split; [done|]. split; try done.
    { left. split; [done|]. simpl. apply u32_id. lia. }
    intros bn'. apply (view_put_keep s i b); [done|done|done|done|done|]. simpl.
    rewrite Hn. by rewrite (view_holds s Hok bn i b).
  - destruct (bget_miss me s bn Hok Hno Hfree) as (i & b & Hb & Hr & _ & Hg).
    pose proof (lookup_lt_Some _ _ _ Hb) as Hlt.
    set (b2 := {| b_valid := true; b_dev := ROOTDEV; b_blockno := bn;
      b_lock := {| locked := true; lk_pid := me |}; b_refcnt := 1; b_data := disk s bn |}).
    assert (Hrun : bread me ROOTDEV bn s = (Ret i, put i b2 s)).
    { unfold bread, get_buf. msimpl. rewrite Hg, put_lookup, decide_True by done. cbn [b_valid].
      change (disk (put i ?b s)) with (disk s).
      rewrite upd_put by done.
      rewrite upd_put by done. done. }
    assert (Hok' : bcache_ok (put i b2 s)).
    { eapply put_ok; [done|exact Hb| | | |]; simpl; [by right|lia|done|lia]. }
    exists i, (put i b2 s), b, b2. split; [done|]. split; try done.
    { by apply (ok_free s Hok i b). }
    { by right. }
    { simpl. by rewrite view_uncached. }
    intros bn'. destruct (decide (bn' = bn)) as [->|Hne].
    { rewrite (view_put_eq s i b b2 Hb Hok') by done. simpl. by rewrite view_uncached. }
    destruct (decide (b_dev b = ROOTDEV ∧ b_blockno b = bn')) as [[Hd Hn]|Hnb].
    { rewrite (view_put_gone s i b b2 Hok Hb Hok') by (done || (simpl; intros [_ ?]; congruence)).
      symmetry. apply view_unreferenced; [done|]. intros j c Hc.
      assert (j = i) as -> by (eapply (ok_unique s Hok); [exact Hc|by split]).
      destruct Hc as [Hc _]. by simplify_eq. }
    apply (view_put_ne s i b); [done|done|done|done|]. simpl. intros [_ ?]. congruence.
Qed.

(** Only the buffers count: the order of the list changes no view. *)
Lemma view_ext s s' bn :
  bcache_ok s → bcache_ok s' → bufs s = bufs s' → disk s bn = disk s' bn → view s bn = view s' bn.
Proof.
  intros H1 H2 Hb Hd. destruct (holders s H1 bn) as [(i & b & Hh)|Hno].
  - rewrite (view_holds s H1 bn i b Hh), (view_holds s' H2 bn i b), Hd; [done|].
    unfold holds in *. by rewrite <-Hb.
  - rewrite (view_uncached s H1 bn Hno), (view_uncached s' H2 bn), Hd; [done|].
    intros i b. unfold holds. rewrite <-Hb. apply Hno.
Qed.

Lemma move_front_perm (l : list nat) i : NoDup l → i ∈ l → i :: filter (λ j, j ≠ i) l ≡ₚ l.
Proof.
  intros Hnd Hi. apply NoDup_Permutation.
  - constructor; [rewrite list_elem_of_filter; naive_solver|by apply NoDup_filter].
  - done.
  - intros j. rewrite elem_of_cons, list_elem_of_filter.
    destruct (decide (j = i)) as [->|]; naive_solver.
Qed.

Definition held (me : Z) (b : buf) : Prop := b_lock b = {| locked := true; lk_pid := me |}.

Lemma held_holding me b : held me b → holdingsleep me (b_lock b) = true.
Proof. intros ->. unfold holdingsleep. simpl. apply Z.eqb_refl. Qed.

Lemma brelse_spec me s i b :
  bcache_ok s → bufs s !! i = Some b → held me b → (0 < b_refcnt b < 2 ^ 32)%Z →
  (b_refcnt b = 1%Z → b_valid b = true → b_data b = disk s (b_blockno b)) →
  let b' := with_refcnt (b_refcnt b - 1) (with_lock initsleeplock b) in
  ∃ s', brelse me i s = (Ret (), s') ∧ bufs s' = <[i := b']> (bufs s) ∧ disk s' = disk s ∧
    writes s' = writes s ∧ bcache_ok s' ∧ (∀ bn, view s' bn = view s bn) ∧
    (b_refcnt b = 1%Z → ∃ l, lru s' = i :: l).
Proof.
  intros Hok Hb Hl Hr Hclean b'. pose proof (lookup_lt_Some _ _ _ Hb) as Hlt.
  assert (Hok' : bcache_ok (put i b' s)).
  { eapply put_ok; [done|exact Hb| | | |]; unfold b'; simpl; rewrite ?u32_id by lia;
      [by left| |apply (ok_dev s Hok i b Hb)|lia]. intros Hr0. split; [done|]. apply Hclean. lia. }
  assert (Hv : ∀ bn, view (put i b' s) bn = view s bn) by (intros bn; by apply (view_put_keep s i b)).
  assert (Hrun : brelse me i s
    = (if (b_refcnt b' =? 0)%Z then modify (upd_lru (λ l, i :: filter (λ j, j ≠ i) l)) else mret ())
        (put i b' s)).
  { unfold brelse, get_buf. msimpl. rewrite Hb, (held_holding _ _ Hl). cbn [negb].
    rewrite (upd_buf_put i _ b s) by done. rewrite upd_put by done.
    rewrite put_lookup, decide_True by done. done. }
  rewrite Hrun. destruct (b_refcnt b' =? 0)%Z eqn:E.
  - eexists. split; [done|]. do 3 (split; [done|]). msimpl.
    assert (Hp : i :: filter (λ j, j ≠ i) (lru (put i b' s)) ≡ₚ lru (put i b' s)).
    { change (lru (put i b' s)) with (lru s).
      apply move_front_perm; [|by apply (in_lru s Hok i b)]. rewrite (ok_lru s Hok). apply NoDup_seq. }
    assert (Hok2 : bcache_ok (upd_lru (λ l, i :: filter (λ j, j ≠ i) l) (put i b' s))).
    { destruct Hok'. split; try done. cbn [lru upd_lru]. by rewrite Hp. }
    split; [done|]. split; [|by eexists]. intros bn. rewrite <-Hv. by apply view_ext.
  - eexists. split; [done|]. do 3 (split; [done|]). split; [done|]. split; [done|].
    intros Hr1. unfold b' in E. simpl in E. rewrite Hr1 in E. done.
Qed.

Lemma bwrite_spec me s i b :
  bcache_ok s → bufs s !! i = Some b → held me b → b_valid b = true →
  bwrite me i s = (Ret (), write_disk (b_blockno b) (b_data b) s) ∧
  bcache_ok (write_disk (b_blockno b) (b_data b) s) ∧
  (∀ bn, view (write_disk (b_blockno b) (b_data b) s) bn = view s bn).
Proof.
  intros Hok Hb Hl Hv. assert (Hd := ok_dev s Hok i b Hb Hv).
  assert (Hh : holds s (b_blockno b) i b) by done.
  assert (Hok' : bcache_ok (write_disk (b_blockno b) (b_data b) s)).
  { destruct Hok as [H1 H2 H3 H4 H5 H6]. split; try done. intros j c Hc Hr. change (bufs s !! j = Some c) in Hc.
    destruct (H4 j c Hc Hr) as [? H]. split; [done|]. intros Hvc.
    change (b_data c = (<[b_blockno b := b_data b]> (disk s)) (b_blockno c)).
    destruct (decide (b_blockno c = b_blockno b)) as [E|Hne].
    - assert (j = i) as -> by (apply (H3 (b_blockno b) j i c b); [|done]; split; [done|];
        split; [by apply (H5 j c)|done]). simplify_eq. by rewrite fn_lookup_insert.
    - rewrite fn_lookup_insert_ne by done. by apply H. }
  split; [|split; [done|]].
  { unfold bwrite, get_buf. msimpl. rewrite Hb, (held_holding _ _ Hl). done. }
  intros bn. destruct (decide (bn = b_blockno b)) as [->|Hne].
  - by rewrite (view_holds s Hok _ i b Hh), (view_holds _ Hok' _ i b Hh), Hv.
  - apply view_ext; [done|done|done|]. cbn [disk write_disk]. by rewrite fn_lookup_insert_ne.
Qed.

Lemma set_bdata_spec s i b d :
  bcache_ok s → bufs s !! i = Some b → b_refcnt b ≠ 0%Z → b_valid b = true →
  set_bdata i d s = (Ret (), put i (with_data d b) s) ∧ bcache_ok (put i (with_data d b) s) ∧
  (∀ bn, view (put i (with_data d b) s) bn = if decide (bn = b_blockno b) then d else view s bn).
Proof.
  intros Hok Hb Hr Hv. assert (Hd := ok_dev s Hok i b Hb Hv).
  assert (Hok' : bcache_ok (put i (with_data d b) s)).
  { eapply put_ok; [done|exact Hb| | | |]; simpl; [by left|done|done|by apply (ok_refcnt s Hok i)]. }
  split; [|split; [done|]].
  { unfold set_bdata. msimpl. by rewrite (upd_buf_put _ _ b). }
  intros bn. case_decide as E.
  - rewrite (view_put_eq s i b) by done. simpl. by rewrite Hv.
  - apply (view_put_ne s i b); [done|done|done|naive_solver|simpl; naive_solver].
Qed.

Lemma refcnt_spec s i f b n :
  bcache_ok s → bufs s !! i = Some b → f b = with_refcnt n b → (0 < n < 2 ^ 32)%Z →
  upd_buf i f s = put i (with_refcnt n b) s ∧ bcache_ok (put i (with_refcnt n b) s) ∧
  (∀ bn, view (put i (with_refcnt n b) s) bn = view s bn).
Proof.
  intros Hok Hb Hf Hn.
  assert (Hok' : bcache_ok (put i (with_refcnt n b) s)).
  { eapply put_ok; [done|exact Hb| | | |]; simpl; rewrite ?u32_id by lia;
      [by left|lia|by apply (ok_dev s Hok i)|lia]. }
  split; [by rewrite (upd_buf_put _ _ b), Hf|]. split; [done|]. intros bn. by apply (view_put_keep s i b).
Qed.
