(* ===== verification/Cache.v ===== *)
(** * The promise of the buffer cache

    What a client of bio.c may rely on, without buffers, reference counts or
    the order of the list: the contents of every block as the kernel sees it
    and as the disk stores it, the pinned blocks, the blocks the client holds
    and the writes so far.  [refines] relates a state of [Bio] to it, and each
    function of bio.c takes related states to related states; the only
    condition on a [bread] is that fewer than NBUF blocks are pinned or held. *)

From S2P Require Export Bio.

#[local] Set Warnings "-clear-no-such-hyp".
#[local] Set Default Proof Using "Type".
Local Open Scope nat_scope.

Record cache := {
  cv : Z → block;
  cd : Z → block;
  cpin : list Z;
  cheld : list (nat * Z);
  cwrites : list (Z * block)
}.

(** ** The operations promised *)
Definition hold (i : nat) (bn : Z) (a : cache) : cache :=
  {| cv := cv a; cd := cd a; cpin := cpin a; cheld := (i, bn) :: cheld a; cwrites := cwrites a |}.
Definition release (i : nat) (bn : Z) (a : cache) : cache :=
  {| cv := cv a; cd := cd a; cpin := cpin a; cheld := filter (λ h, h ≠ (i, bn)) (cheld a);
     cwrites := cwrites a |}.
Definition store (bn : Z) (d : block) (a : cache) : cache :=
  {| cv := <[bn := d]> (cv a); cd := cd a; cpin := cpin a; cheld := cheld a; cwrites := cwrites a |}.
Definition write_back (bn : Z) (a : cache) : cache :=
  {| cv := cv a; cd := <[bn := cv a bn]> (cd a); cpin := cpin a; cheld := cheld a;
     cwrites := cwrites a ++ [(bn, cv a bn)] |}.
Definition pin (bn : Z) (a : cache) : cache :=
  {| cv := cv a; cd := cd a; cpin := bn :: cpin a; cheld := cheld a; cwrites := cwrites a |}.
Definition unpin (bn : Z) (a : cache) : cache :=
  {| cv := cv a; cd := cd a; cpin := filter (λ x, x ≠ bn) (cpin a); cheld := cheld a;
     cwrites := cwrites a |}.

(** ** The relation *)
Definition is_held (a : cache) (i : nat) (b : buf) : Prop :=
  b_dev b = ROOTDEV ∧ (i, b_blockno b) ∈ cheld a.
Definition is_pinned (a : cache) (b : buf) : Prop := b_dev b = ROOTDEV ∧ b_blockno b ∈ cpin a.

#[global] Instance is_held_dec a i b : Decision (is_held a i b).
Proof. unfold is_held. apply _. Defined.
#[global] Instance is_pinned_dec a b : Decision (is_pinned a b).
Proof. unfold is_pinned. apply _. Defined.

Definition refs (a : cache) (i : nat) (b : buf) : Z :=
  ((if decide (is_held a i b) then 1 else 0) + (if decide (is_pinned a b) then 1 else 0))%Z.

Record buf_ok (me : Z) (a : cache) (i : nat) (b : buf) : Prop := {
  bo_refs : b_refcnt b = refs a i b;
  bo_held : is_held a i b → held me b;
  bo_free : ¬ is_held a i b → unlocked b;
  bo_valid : is_held a i b ∨ is_pinned a b → b_valid b = true
}.

Record refines (me : Z) (c : bcache) (a : cache) : Prop := {
  rf_ok : bcache_ok c;
  rf_view : ∀ bn, view c bn = cv a bn;
  rf_disk : ∀ bn, disk c bn = cd a bn;
  rf_writes : writes c = cwrites a;
  rf_pins : NoDup (cpin a);
  rf_blocks : NoDup (snd <$> cheld a);
  rf_held : ∀ i bn, (i, bn) ∈ cheld a → ∃ b, holds c bn i b;
  rf_pinned : ∀ bn, bn ∈ cpin a → ∃ i b, holds c bn i b;
  rf_buf : ∀ i b, bufs c !! i = Some b → buf_ok me a i b
}.

(** The clean state: nothing pinned, nothing held. *)
Definition booted (d : Z → block) : cache :=
  {| cv := d; cd := d; cpin := []; cheld := []; cwrites := [] |}.

Section Refines.
Context (me : Z) (c : bcache) (a : cache) (Hrf : refines me c a).

(** A block that is neither pinned nor held is the same on the disk. *)
Lemma clean_block bn :
  bn ∉ cpin a → bn ∉ snd <$> cheld a → cv a bn = cd a bn.
Proof using Hrf.
  intros Hp Hh. rewrite <-(rf_view _ _ _ Hrf), <-(rf_disk _ _ _ Hrf).
  apply view_unreferenced; [by destruct Hrf|]. intros i b (Hb & Hd & Hn).
  rewrite (bo_refs _ _ _ _ (rf_buf _ _ _ Hrf i b Hb)). unfold refs.
  rewrite !decide_False; [done| |].
  - intros [_ H]. by rewrite Hn in H.
  - intros [_ H]. rewrite Hn in H. apply Hh, list_elem_of_fmap. by exists (i, bn).
Qed.

Lemma held_buf i bn :
  (i, bn) ∈ cheld a → ∃ b, holds c bn i b ∧ held me b ∧ b_valid b = true ∧
    b_refcnt b = (1 + if decide (bn ∈ cpin a) then 1 else 0)%Z ∧ b_data b = cv a bn.
Proof using Hrf.
  intros Hin. destruct (rf_held _ _ _ Hrf i bn Hin) as [b Hh]. exists b. split; [done|].
  pose proof (view_holds c (rf_ok _ _ _ Hrf) bn i b Hh) as Hv.
  destruct Hh as (Hb & Hd & Hn). pose proof (rf_buf _ _ _ Hrf i b Hb) as [H1 H2 _ H4].
  assert (Hih : is_held a i b) by (by rewrite <-Hn in Hin).
  split; [by apply H2|]. assert (Hval : b_valid b = true) by (apply H4; by left).
  split; [done|]. split.
  - rewrite H1. unfold refs. rewrite decide_True by done. f_equal. apply decide_ext.
    unfold is_pinned. rewrite Hn. naive_solver.
  - rewrite Hval in Hv. by rewrite <-Hv, (rf_view _ _ _ Hrf).
Qed.

(** Fewer than NBUF blocks in use leave a buffer to recycle. *)
Lemma room : length (cpin a) + length (cheld a) < NBUF → some_free c.
Proof using Hrf.
  intros Hlen. pose proof (rf_ok _ _ _ Hrf) as Hok.
  destruct (decide (Exists (λ b, b_refcnt b = 0%Z) (bufs c))) as [He|Hne].
  { apply Exists_exists in He as (b & [i Hi]%list_elem_of_lookup & Hr). by exists i, b. }
  exfalso. set (bns := b_blockno <$> bufs c).
  assert (Hused : ∀ i b, bufs c !! i = Some b → is_held a i b ∨ is_pinned a b).
  { intros i b Hb. pose proof (bo_refs _ _ _ _ (rf_buf _ _ _ Hrf i b Hb)) as Hr. unfold refs in Hr.
    destruct (decide (is_held a i b)); [by left|]. destruct (decide (is_pinned a b)); [by right|].
    exfalso. apply Hne, Exists_exists. exists b. split; [by eapply list_elem_of_lookup_2|done]. }
  assert (Hroot : ∀ i b, bufs c !! i = Some b → b_dev b = ROOTDEV)
    by (intros i b Hb; by destruct (Hused i b Hb) as [[? _]|[? _]]).
  assert (Hsub : bns ⊆+ cpin a ++ (snd <$> cheld a)).
  { apply NoDup_submseteq.
    - apply NoDup_alt. intros i j bn Hi Hj. unfold bns in Hi, Hj.
      rewrite list_lookup_fmap in Hi, Hj. apply fmap_Some in Hi as (b & Hi & ->).
      apply fmap_Some in Hj as (b' & Hj & Heq).
      apply (ok_unique c Hok (b_blockno b) i j b b'); (split; [done|]; split; [by eapply Hroot|done]).
    - intros bn (b & -> & [i Hi]%list_elem_of_lookup)%list_elem_of_fmap. apply elem_of_app.
      destruct (Hused i b Hi) as [[_ H]|[_ H]]; [right|by left].
      apply list_elem_of_fmap. by exists (i, b_blockno b). }
  apply submseteq_length in Hsub. unfold bns in Hsub.
  rewrite length_app, !length_fmap, (ok_len c Hok) in Hsub. lia.
Qed.
End Refines.

(** ** Each function of bio.c keeps the promise *)
Lemma refines_put me c a a' i b b' :
  refines me c a → bufs c !! i = Some b → holds (put i b' c) (b_blockno b') i b' →
  bcache_ok (put i b' c) → (∀ bn, view (put i b' c) bn = cv a' bn) →
  (∀ bn, disk c bn = cd a' bn) → writes c = cwrites a' →
  NoDup (cpin a') → NoDup (snd <$> cheld a') →
  (∀ j bn, (j, bn) ∈ cheld a' → (j = i ∧ bn = b_blockno b') ∨ (j ≠ i ∧ (j, bn) ∈ cheld a)) →
  (∀ j bn, j ≠ i → (j, bn) ∈ cheld a → (j, bn) ∈ cheld a') →
  (∀ bn, bn ∈ cpin a' → bn = b_blockno b' ∨ (bn ∈ cpin a)) →
  (∀ bn, bn ≠ b_blockno b' → bn ∈ cpin a → bn ∈ cpin a') →
  (is_pinned a b → holds c (b_blockno b') i b) →
  buf_ok me a' i b' → refines me (put i b' c) a'.
Proof.
  intros Hrf Hb Hh Hok Hv Hd Hw Hnp Hnh Hh1 Hh2 Hp1 Hp2 Hkeep Hbo.
  pose proof (lookup_lt_Some _ _ _ Hb) as Hlt. destruct Hrf as [R1 R2 R3 R4 R5 R6 R7 R8 R9].
  assert (Hother : ∀ j c', j ≠ i → bufs c !! j = Some c' → b_dev c' = ROOTDEV → b_blockno c' ≠ b_blockno b').
  { intros j c' Hj Hc Hroot E. apply Hj. apply (ok_unique _ Hok (b_blockno b') j i c' b'); [|done].
    split; [by rewrite put_lookup, decide_False|done]. }
  split; try done.
  - intros j bn [[-> ->]|[Hj Hin]]%Hh1; [by exists b'|]. destruct (R7 j bn Hin) as (b2 & Hb2 & Hr).
    exists b2. split; [by rewrite put_lookup, decide_False|done].
  - intros bn Hbn. destruct (decide (bn = b_blockno b')) as [->|Hne]; [by exists i, b'|].
    destruct (Hp1 bn Hbn) as [?|Hold]; [done|]. destruct (R8 bn Hold) as (j & b2 & Hb2).
    destruct (decide (j = i)) as [->|Hj].
    + exfalso. apply Hne. destruct Hb2 as (Hb2 & Hr2 & <-). simplify_eq.
      by destruct (Hkeep (conj Hr2 Hold)) as (_ & _ & ->).
    + exists j, b2. destruct Hb2 as (? & ? & ?). split; [by rewrite put_lookup, decide_False|done].
  - intros j b2 Hb2. rewrite put_lookup in Hb2 by done.
    destruct (decide (j = i)) as [->|Hj]; [by injection Hb2 as <-|].
    assert (Eh : is_held a' j b2 ↔ is_held a j b2).
    { unfold is_held. split; intros [? Hin]; (split; [done|]); [|by apply Hh2].
      destruct (Hh1 _ _ Hin) as [[? _]|[_ ?]]; done. }
    assert (Ep : is_pinned a' b2 ↔ is_pinned a b2).
    { unfold is_pinned. split; intros [? Hin]; (split; [done|]).
      - destruct (Hp1 _ Hin) as [E|?]; [|done]. by destruct (Hother j b2 Hj Hb2).
      - apply Hp2; [|done]. by apply (Hother j). }
    destruct (R9 j b2 Hb2) as [B1 B2 B3 B4]. split.
    + rewrite B1. unfold refs. f_equal; by apply decide_ext.
    + by rewrite Eh.
    + by rewrite Eh.
    + by rewrite Eh, Ep.
Qed.

Lemma bread_refines me c a bn :
  refines me c a → bn ∉ snd <$> cheld a →
  bn ∈ cpin a ∨ length (cpin a) + length (cheld a) < NBUF →
  ∃ i c', bread me ROOTDEV bn c = (Ret i, c') ∧ refines me c' (hold i bn a).
Proof.
  intros Hrf Hnh Hroom. pose proof (rf_ok _ _ _ Hrf) as Hok.
  assert (Hnot : ∀ i b, holds c bn i b → ¬ is_held a i b).
  { intros i b (_ & _ & Hn) [_ Hin]. rewrite Hn in Hin. apply Hnh, list_elem_of_fmap. by exists (i, bn). }
  assert (Hget : can_get c bn).
  { destruct (holders c Hok bn) as [(i & b & Hh)|Hno].
    - left. exists i, b. split; [done|]. destruct (rf_buf _ _ _ Hrf i b (proj1 Hh)) as [B1 _ B3 _].
      split; [apply B3; by eapply Hnot|]. rewrite B1. unfold refs. repeat case_decide; lia.
    - right. split; [done|]. destruct Hroom as [Hp|Hl]; [|by eapply room].
      destruct (rf_pinned _ _ _ Hrf bn Hp) as (i & b & Hh). by destruct (Hno i b). }
  destruct (bread_spec me c bn Hok Hget) as (i & c' & old & b & Hrun & Hpost).
  exists i, c'. split; [done|]. destruct Hpost as [-> Hold Hunl Hkey Hval Hdev Hbn Hlk Hdata Hok' Hv].
  pose proof (lookup_lt_Some _ _ _ Hold) as Hlt.
  eapply refines_put; [done|exact Hold| |done|..].
  - split; [by rewrite put_lookup, decide_True|done].
  - intros bn'. rewrite Hv. apply (rf_view _ _ _ Hrf).
  - apply (rf_disk _ _ _ Hrf).
  - apply (rf_writes _ _ _ Hrf).
  - apply (rf_pins _ _ _ Hrf).
  - simpl. constructor; [done|apply (rf_blocks _ _ _ Hrf)].
  - intros j bn' [[= -> ->]|Hin]%elem_of_cons; [by left; rewrite Hbn|]. right. split; [|done].
    intros ->. destruct (rf_held _ _ _ Hrf i bn' Hin) as (b2 & Hb2).
    destruct Hb2 as (Hb2 & Hd2 & Hn2). simplify_eq.
    pose proof (bo_held _ _ _ _ (rf_buf _ _ _ Hrf i old Hold) (conj Hd2 Hin)) as Hl.
    unfold unlocked in Hunl. by rewrite Hl in Hunl.
  - intros j bn' _ Hin. simpl. by right.
  - intros bn' Hp. by right.
  - done.
  - intros [Hr Hp]. destruct Hkey as [[Hh _]|(_ & Hr0 & _)]; [by rewrite Hbn|].
    exfalso. pose proof (bo_refs _ _ _ _ (rf_buf _ _ _ Hrf i old Hold)) as B1. unfold refs in B1.
    rewrite (decide_True (P := is_pinned a old)) in B1 by done. case_decide; lia.
  - assert (Hih : is_held (hold i bn a) i b).
    { split; [done|]. rewrite Hbn. simpl. by left. }
    split; [|done|done|done]. unfold refs. rewrite (decide_True (P := is_held _ _ _)) by done.
    assert (Ep : is_pinned (hold i bn a) b ↔ bn ∈ cpin a) by (unfold is_pinned; rewrite Hbn; naive_solver).
    destruct Hkey as [[Hh ->]|(Hno & _ & ->)].
    + pose proof (bo_refs _ _ _ _ (rf_buf _ _ _ Hrf i old Hold)) as ->. unfold refs.
      rewrite (decide_False (P := is_held a i old)) by (by apply Hnot).
      rewrite Z.add_0_l, Z.add_comm. f_equal. apply decide_ext. rewrite Ep. unfold is_pinned.
      destruct Hh as (_ & ? & ->). naive_solver.
    + rewrite (decide_False (P := is_pinned _ b)); [done|]. rewrite Ep. intros Hp.
      destruct (rf_pinned _ _ _ Hrf bn Hp) as (j & b2 & Hb2). by destruct (Hno j b2).
Qed.

Lemma filter_held_NoDup (h : list (nat * Z)) (P : nat * Z → Prop) `{∀ x, Decision (P x)} :
  NoDup (snd <$> h) → NoDup (snd <$> filter P h).
Proof.
  induction h as [|x h IH]; cbn [fmap list_fmap]; [done|]. intros [Hx Hh]%NoDup_cons.
  rewrite filter_cons. case_decide; cbn [fmap list_fmap]; [|by apply IH].
  constructor; [|by apply IH]. intros (y & Hy & Hin)%list_elem_of_fmap. apply Hx.
  apply list_elem_of_filter in Hin as [_ Hin]. apply list_elem_of_fmap. by exists y.
Qed.

Lemma held_unique me c a i j bn bn' :
  refines me c a → (i, bn) ∈ cheld a → (j, bn') ∈ cheld a → (i = j ↔ bn = bn').
Proof.
  intros Hrf Hi Hj. destruct (rf_held _ _ _ Hrf _ _ Hi) as (b & Hb).
  destruct (rf_held _ _ _ Hrf _ _ Hj) as (b' & Hb'). split.
  - intros ->. destruct Hb as (? & ? & <-), Hb' as (? & ? & <-). by simplify_eq.
  - intros ->. by eapply (ok_unique c (rf_ok _ _ _ Hrf)).
Qed.

(** Contents and disk change, the buffers of the client do not. *)
Lemma refines_data me c a c' a' :
  refines me c a → bcache_ok c' → cpin a' = cpin a → cheld a' = cheld a →
  (∀ bn, view c' bn = cv a' bn) → (∀ bn, disk c' bn = cd a' bn) → writes c' = cwrites a' →
  (∀ i b, bufs c' !! i = Some b → ∃ d, bufs c !! i = Some (with_data d b)) →
  (∀ i b, bufs c !! i = Some b → ∃ d, bufs c' !! i = Some (with_data d b)) →
  refines me c' a'.
Proof.
  intros Hrf Hok Hp Hh Hv Hd Hw Hb Hb'. destruct Hrf as [R1 R2 R3 R4 R5 R6 R7 R8 R9].
  split; rewrite ?Hp, ?Hh; try done.
  - intros i bn (b & Hl & Hr)%R7. destruct (Hb' i b Hl) as [d Hl']. by exists (with_data d b).
  - intros bn (i & b & Hl & Hr)%R8. destruct (Hb' i b Hl) as [d Hl']. by exists i, (with_data d b).
  - intros i b Hl. destruct (Hb i b Hl) as [d Hl']. destruct (R9 i _ Hl') as [B1 B2 B3 B4].
    assert (Eh : is_held a' i b ↔ is_held a i (with_data d b)) by (unfold is_held; by rewrite Hh).
    assert (Ep : is_pinned a' b ↔ is_pinned a (with_data d b)) by (unfold is_pinned; by rewrite Hp).
    split; rewrite ?Eh, ?Ep; try done. change (b_refcnt (with_data d b) = refs a' i b).
    rewrite B1. unfold refs. f_equal; by apply decide_ext.
Qed.

Lemma bdata_refines me c a i bn :
  refines me c a → (i, bn) ∈ cheld a → bdata i c = (Ret (cv a bn), c).
Proof.
  intros Hrf Hin. destruct (held_buf _ _ _ Hrf _ _ Hin) as (b & (Hb & _) & _ & _ & _ & Hd).
  unfold bdata, get_buf. msimpl. by rewrite Hb, Hd.
Qed.

Lemma set_bdata_refines me c a i bn d :
  refines me c a → (i, bn) ∈ cheld a →
  ∃ c', set_bdata i d c = (Ret (), c') ∧ refines me c' (store bn d a).
Proof.
  intros Hrf Hin. destruct (held_buf _ _ _ Hrf _ _ Hin) as (b & (Hb & Hr & Hn) & _ & Hval & Href & _).
  pose proof (lookup_lt_Some _ _ _ Hb) as Hlt.
  destruct (set_bdata_spec c i b d (rf_ok _ _ _ Hrf) Hb) as (Hrun & Hok' & Hv);
    [rewrite Href; case_decide; lia|done|].
  eexists. split; [exact Hrun|]. eapply refines_data; [exact Hrf|done|done|done| | | | |].
  - intros bn'. rewrite Hv, Hn. cbn [cv store]. destruct (decide (bn' = bn)) as [->|Hne].
    + by rewrite fn_lookup_insert.
    + rewrite fn_lookup_insert_ne by done. apply (rf_view _ _ _ Hrf).
  - apply (rf_disk _ _ _ Hrf).
  - apply (rf_writes _ _ _ Hrf).
  - intros j b2. rewrite put_lookup by done.
    destruct (decide (j = i)) as [->|]; [intros [= <-]; exists (b_data b); rewrite Hb; by destruct b|].
    intros Hj. exists (b_data b2). rewrite Hj. by destruct b2.
  - intros j b2 Hj. rewrite put_lookup by done.
    destruct (decide (j = i)) as [->|]; [exists d; congruence|].
    exists (b_data b2). rewrite Hj. by destruct b2.
Qed.

Lemma bwrite_refines me c a i bn :
  refines me c a → (i, bn) ∈ cheld a →
  ∃ c', bwrite me i c = (Ret (), c') ∧ refines me c' (write_back bn a).
Proof.
  intros Hrf Hin. destruct (held_buf _ _ _ Hrf _ _ Hin) as (b & (Hb & Hr & Hn) & Hl & Hval & _ & Hdata).
  destruct (bwrite_spec me c i b (rf_ok _ _ _ Hrf) Hb Hl Hval) as (Hrun & Hok' & Hv).
  eexists. split; [exact Hrun|]. rewrite Hn, Hdata in *.
  eapply refines_data; [exact Hrf|done|done|done| | | | |].
  - intros bn'. rewrite Hv. apply (rf_view _ _ _ Hrf).
  - intros bn'. cbn [cd write_back disk write_disk]. destruct (decide (bn' = bn)) as [->|Hne].
    + by rewrite !fn_lookup_insert.
    + rewrite !fn_lookup_insert_ne by done. apply (rf_disk _ _ _ Hrf).
  - cbn [writes write_disk cwrites write_back]. by rewrite (rf_writes _ _ _ Hrf).
  - intros j b2 Hj. exists (b_data b2). destruct b2. exact Hj.
  - intros j b2 Hj. exists (b_data b2). destruct b2. exact Hj.
Qed.

Lemma brelse_refines me c a i bn :
  refines me c a → (i, bn) ∈ cheld a → bn ∈ cpin a ∨ cv a bn = cd a bn →
  ∃ c', brelse me i c = (Ret (), c') ∧ refines me c' (release i bn a).
Proof.
  intros Hrf Hin Hclean.
  destruct (held_buf _ _ _ Hrf _ _ Hin) as (b & Hh & Hl & Hval & Href & Hdata).
  pose proof Hh as (Hb & Hr & Hn). pose proof (lookup_lt_Some _ _ _ Hb) as Hlt.
  destruct (brelse_spec me c i b (rf_ok _ _ _ Hrf) Hb Hl) as (c' & Hrun & Hbufs & Hd & Hw & Hok' & Hv & _).
  { rewrite Href. case_decide; lia. }
  { intros H1 _. rewrite Href in H1. rewrite Hdata, Hn, (rf_disk _ _ _ Hrf).
    destruct Hclean as [Hp|?]; [|done]. rewrite decide_True in H1 by done. lia. }
  exists c'. split; [done|].
  set (b' := with_refcnt (b_refcnt b - 1) (with_lock initsleeplock b)) in *.
  assert (Hb2 : ∀ j b2, bufs c' !! j = Some b2 →
            (j = i ∧ b2 = b') ∨ (j ≠ i ∧ bufs c !! j = Some b2)).
  { intros j b2. rewrite Hbufs. destruct (decide (j = i)) as [->|Hj].
    - rewrite list_lookup_insert_eq by done. intros [= <-]. by left.
    - rewrite list_lookup_insert_ne by done. by right. }
  assert (Hb3 : ∀ j b2 bn', holds c bn' j b2 → ∃ b3, holds c' bn' j b3).
  { intros j b2 bn' (H1 & H2 & H3). unfold holds. rewrite Hbufs. destruct (decide (j = i)) as [->|Hj].
    - exists b'. rewrite list_lookup_insert_eq by done. by simplify_eq.
    - exists b2. by rewrite list_lookup_insert_ne. }
  destruct Hrf as [R1 R2 R3 R4 R5 R6 R7 R8 R9] eqn:Erf. split; cbn [release cv cd cpin cheld cwrites].
  - done.
  - intros bn'. by rewrite Hv.
  - intros bn'. by rewrite Hd.
  - by rewrite Hw.
  - done.
  - by apply filter_held_NoDup.
  - intros j bn' [_ Hj]%list_elem_of_filter. destruct (R7 _ _ Hj) as (b2 & H2). by eapply Hb3.
  - intros bn' Hp. destruct (R8 bn' Hp) as (j & b2 & H2). destruct (Hb3 _ _ _ H2) as (b3 & ?).
    by exists j, b3.
  - intros j b2 [[-> ->]|[Hj Hb4]]%Hb2.
    + assert (Hno : ¬ is_held (release i bn a) i b').
      { unfold is_held. simpl. rewrite Hn, list_elem_of_filter. naive_solver. }
      split; [|done|done|intros [?|_]; [done|exact Hval]]. unfold refs.
      rewrite (decide_False (P := is_held _ _ _)) by done.
      cbn [b' b_refcnt with_refcnt]. rewrite u32_id by (rewrite Href; case_decide; lia).
      rewrite Href, Z.add_0_l, Z.add_simpl_l. apply decide_ext. unfold is_pinned. simpl. rewrite Hn.
      naive_solver.
    + assert (Eh : is_held (release i bn a) j b2 ↔ is_held a j b2).
      { unfold is_held. simpl. rewrite list_elem_of_filter. naive_solver. }
      destruct (R9 j b2 Hb4) as [B1 B2 B3 B4]. split; rewrite ?Eh; try done.
      rewrite B1. unfold refs. f_equal; by apply decide_ext.
Qed.

Lemma bpin_refines me c a i bn :
  refines me c a → (i, bn) ∈ cheld a → bn ∉ cpin a →
  ∃ c', bpin i c = (Ret (), c') ∧ refines me c' (pin bn a).
Proof.
  intros Hrf Hin Hnp.
  destruct (held_buf _ _ _ Hrf _ _ Hin) as (b & Hh & Hl & Hval & Href & Hdata).
  pose proof Hh as (Hb & Hr & Hn). pose proof (lookup_lt_Some _ _ _ Hb) as Hlt.
  rewrite decide_False in Href by done.
  destruct (refcnt_spec c i (λ b, with_refcnt (b_refcnt b + 1) b) b 2 (rf_ok _ _ _ Hrf) Hb)
    as (Hrun & Hok' & Hv); [by rewrite Href|lia|].
  exists (put i (with_refcnt 2 b) c). split; [unfold bpin; msimpl; by rewrite Hrun|].
  eapply refines_put; [exact Hrf|exact Hb| |done| | | | | | | | | | |].
  - split; [by rewrite put_lookup, decide_True|done].
  - intros bn'. rewrite Hv. apply (rf_view _ _ _ Hrf).
  - apply (rf_disk _ _ _ Hrf).
  - apply (rf_writes _ _ _ Hrf).
  - simpl. constructor; [done|apply (rf_pins _ _ _ Hrf)].
  - apply (rf_blocks _ _ _ Hrf).
  - intros j bn' Hj. cbn [pin cheld] in Hj. destruct (decide (j = i)) as [->|]; [left|by right].
    split; [done|]. simpl. rewrite Hn. symmetry. by apply (held_unique _ _ _ _ _ _ _ Hrf Hin Hj).
  - done.
  - intros bn' [->|?]%elem_of_cons; [by left; simpl|by right].
  - intros bn' _ ?. simpl. by right.
  - intros _. simpl. by rewrite Hn.
  - assert (Hih : is_held (pin bn a) i (with_refcnt 2 b)) by (split; [done|]; simpl; by rewrite Hn).
    split; [|done|done|done]. unfold refs. rewrite !decide_True; [done| |done].
    split; [done|]. simpl. rewrite Hn. by left.
Qed.

Lemma bunpin_refines me c a i bn :
  refines me c a → (i, bn) ∈ cheld a → bn ∈ cpin a →
  ∃ c', bunpin i c = (Ret (), c') ∧ refines me c' (unpin bn a).
Proof.
  intros Hrf Hin Hp.
  destruct (held_buf _ _ _ Hrf _ _ Hin) as (b & Hh & Hl & Hval & Href & Hdata).
  pose proof Hh as (Hb & Hr & Hn). pose proof (lookup_lt_Some _ _ _ Hb) as Hlt.
  rewrite decide_True in Href by done.
  destruct (refcnt_spec c i (λ b, with_refcnt (b_refcnt b - 1) b) b 1 (rf_ok _ _ _ Hrf) Hb)
    as (Hrun & Hok' & Hv); [by rewrite Href|lia|].
  exists (put i (with_refcnt 1 b) c). split; [unfold bunpin; msimpl; by rewrite Hrun|].
  eapply refines_put; [exact Hrf|exact Hb| |done| | | | | | | | | | |].
  - split; [by rewrite put_lookup, decide_True|done].
  - intros bn'. rewrite Hv. apply (rf_view _ _ _ Hrf).
  - apply (rf_disk _ _ _ Hrf).
  - apply (rf_writes _ _ _ Hrf).
  - simpl. apply NoDup_filter, (rf_pins _ _ _ Hrf).
  - apply (rf_blocks _ _ _ Hrf).
  - intros j bn' Hj. cbn [unpin cheld] in Hj. destruct (decide (j = i)) as [->|]; [left|by right].
    split; [done|]. simpl. rewrite Hn. symmetry. by apply (held_unique _ _ _ _ _ _ _ Hrf Hin Hj).
  - done.
  - intros bn' [_ ?]%list_elem_of_filter. by right.
  - intros bn' Hne ?. simpl in *. rewrite Hn in Hne. by apply list_elem_of_filter.
  - intros _. simpl. by rewrite Hn.
  - assert (Hih : is_held (unpin bn a) i (with_refcnt 1 b)) by (split; [done|]; simpl; by rewrite Hn).
    split; [|done|done|done]. unfold refs.
    rewrite decide_True, decide_False; [done| |done].
    intros [_ H]. simpl in H. rewrite Hn in H. apply list_elem_of_filter in H as [? _]. done.
Qed.

Lemma binit_refines me d : refines me (binit d) (booted d).
Proof.
  assert (Hz : ∀ i b, bufs (binit d) !! i = Some b → b = zero_buf).
  { intros i b [-> _]%lookup_replicate_1. done. }
  assert (Hno : ∀ bn i b, ¬ holds (binit d) bn i b).
  { intros bn i b (->%Hz & [=] & _). }
  assert (Hok : bcache_ok (binit d)).
  { split.
    - done.
    - cbn [binit lru]. symmetry. apply Permutation_rev.
    - intros bn i j b b' H. by destruct (Hno _ _ _ H).
    - intros i b ->%Hz _. by split.
    - by intros i b ->%Hz.
    - by intros i b ->%Hz. }
  split; [done| |done|done|constructor|constructor| | |].
  - intros bn. by apply view_uncached.
  - by intros i bn ?%elem_of_nil.
  - by intros bn ?%elem_of_nil.
  - intros i b ->%Hz. split; [done|by intros [_ ?%elem_of_nil]|done|].
    intros [[_ ?%elem_of_nil]|[_ ?%elem_of_nil]]; done.
Qed.

(** ** Clients

    What a client does with blocks; it keeps the buffer of each block it has
    read. *)
Inductive cmd :=
  | CRead (bn : Z)
  | CStore (bn : Z) (d : block)
  | CWrite (bn : Z)
  | CPin (bn : Z)
  | CUnpin (bn : Z)
  | CRelease (bn : Z).

Definition handle_of (hs : list (nat * Z)) (bn : Z) : option nat :=
  fst <$> head (filter (λ h, h.2 = bn) hs).

Definition on_handle (hs : list (nat * Z)) (bn : Z) (k : nat → B (list (nat * Z)))
    : B (list (nat * Z)) :=
  match handle_of hs bn with Some i => k i | None => throw (Panic "not held") end.

Definition exec (me : Z) (c : cmd) (hs : list (nat * Z)) : B (list (nat * Z)) :=
  match c with
  | CRead bn => i ← bread me ROOTDEV bn; mret ((i, bn) :: hs)
  | CStore bn d => on_handle hs bn (λ i, set_bdata i d;; mret hs)
  | CWrite bn => on_handle hs bn (λ i, bwrite me i;; mret hs)
  | CPin bn => on_handle hs bn (λ i, bpin i;; mret hs)
  | CUnpin bn => on_handle hs bn (λ i, bunpin i;; mret hs)
  | CRelease bn => on_handle hs bn (λ i, brelse me i;; mret (filter (λ h, h ≠ (i, bn)) hs))
  end.

Fixpoint run (me : Z) (cs : list cmd) (hs : list (nat * Z)) : B (list (nat * Z)) :=
  match cs with
  | [] => mret hs
  | c :: cs => hs ← exec me c hs; run me cs hs
  end.

(** The same on the contents alone: what each block holds, what the disk holds,
    what is pinned, held and written. *)
Record client := {
  l_view : Z → block; l_disk : Z → block; l_pin : list Z; l_held : list Z; l_writes : list (Z * block)
}.

Definition spec_step (c : cmd) (l : client) : client :=
  match c with
  | CRead bn => {| l_view := l_view l; l_disk := l_disk l; l_pin := l_pin l; l_held := bn :: l_held l;
                   l_writes := l_writes l |}
  | CStore bn d => {| l_view := <[bn := d]> (l_view l); l_disk := l_disk l; l_pin := l_pin l;
                      l_held := l_held l; l_writes := l_writes l |}
  | CWrite bn => {| l_view := l_view l; l_disk := <[bn := l_view l bn]> (l_disk l); l_pin := l_pin l;
                    l_held := l_held l; l_writes := l_writes l ++ [(bn, l_view l bn)] |}
  | CPin bn => {| l_view := l_view l; l_disk := l_disk l; l_pin := bn :: l_pin l; l_held := l_held l;
                  l_writes := l_writes l |}
  | CUnpin bn => {| l_view := l_view l; l_disk := l_disk l; l_pin := filter (λ x, x ≠ bn) (l_pin l);
                    l_held := l_held l; l_writes := l_writes l |}
  | CRelease bn => {| l_view := l_view l; l_disk := l_disk l; l_pin := l_pin l;
                      l_held := filter (λ x, x ≠ bn) (l_held l); l_writes := l_writes l |}
  end.

(** The discipline: a block is read before it is used and not twice, it is
    pinned once, a block released while not pinned has been written, and less than NBUF
    blocks are in use. *)
Definition allowed (c : cmd) (l : client) : Prop :=
  match c with
  | CRead bn => (bn ∉ l_held l) ∧ (bn ∈ l_pin l ∨ length (l_pin l) + length (l_held l) < NBUF)
  | CStore bn _ | CWrite bn => bn ∈ l_held l
  | CPin bn => bn ∈ l_held l ∧ (bn ∉ l_pin l)
  | CUnpin bn => bn ∈ l_held l ∧ bn ∈ l_pin l
  | CRelease bn => bn ∈ l_held l ∧ (bn ∈ l_pin l ∨ l_view l bn = l_disk l bn)
  end.

Fixpoint all_allowed (cs : list cmd) (l : client) : Prop :=
  match cs with
  | [] => True
  | c :: cs => allowed c l ∧ all_allowed cs (spec_step c l)
  end.

Definition client_of (a : cache) : client :=
  {| l_view := cv a; l_disk := cd a; l_pin := cpin a; l_held := snd <$> cheld a;
     l_writes := cwrites a |}.

Lemma handle_of_held me c a bn :
  refines me c a → bn ∈ snd <$> cheld a → ∃ i, handle_of (cheld a) bn = Some i ∧ (i, bn) ∈ cheld a.
Proof.
  intros Hrf ([i x] & Hx & Hin)%list_elem_of_fmap. simpl in Hx. subst x. unfold handle_of.
  destruct (filter (λ h, h.2 = bn) (cheld a)) as [|[j y] l] eqn:E.
  - assert (H : (i, bn) ∈ filter (λ h, h.2 = bn) (cheld a)) by (by apply list_elem_of_filter).
    rewrite E in H. by apply elem_of_nil in H.
  - assert (H : (j, y) ∈ filter (λ h, h.2 = bn) (cheld a)) by (rewrite E; left).
    apply list_elem_of_filter in H as [Hy Hj]. simpl in Hy. subst y. by exists j.
Qed.

Lemma release_held me c a i bn :
  refines me c a → (i, bn) ∈ cheld a →
  snd <$> filter (λ h, h ≠ (i, bn)) (cheld a) = filter (λ x, x ≠ bn) (snd <$> cheld a).
Proof.
  intros Hrf Hin. assert (Hall : ∀ j x, (j, x) ∈ cheld a → (x = bn ↔ (j, x) = (i, bn))).
  { intros j x Hj. split; [|naive_solver]. intros ->. f_equal.
    by apply (held_unique _ _ _ _ _ _ _ Hrf Hj Hin). }
  clear Hin. induction (cheld a) as [|[j x] h IH]; [done|]. cbn [fmap list_fmap snd].
  rewrite !filter_cons. specialize (IH (λ j x H, Hall j x (list_elem_of_further _ _ _ H))).
  pose proof (Hall j x (list_elem_of_here _ _)) as Hx.
  destruct (decide (x = bn)) as [->|Hne].
  - rewrite decide_False by naive_solver. rewrite decide_False by naive_solver. done.
  - rewrite decide_True by naive_solver. rewrite decide_True by done. cbn [fmap list_fmap]. by rewrite IH.
Qed.

Lemma exec_spec me c a cmd :
  refines me c a → allowed cmd (client_of a) →
  ∃ c' a', exec me cmd (cheld a) c = (Ret (cheld a'), c') ∧ refines me c' a' ∧
    client_of a' = spec_step cmd (client_of a).
Proof.
  intros Hrf Hal. destruct cmd as [bn|bn d|bn|bn|bn|bn]; unfold exec, on_handle; simpl in Hal.
  - destruct Hal as [Hh Hr]. rewrite length_fmap in Hr.
    destruct (bread_refines me c a bn Hrf Hh Hr) as (i & c' & E & Hrf').
    exists c', (hold i bn a). msimpl. by rewrite E.
  - destruct (handle_of_held _ _ _ _ Hrf Hal) as (i & -> & Hin).
    destruct (set_bdata_refines me c a i bn d Hrf Hin) as (c' & E & Hrf').
    exists c', (store bn d a). msimpl. by rewrite E.
  - destruct (handle_of_held _ _ _ _ Hrf Hal) as (i & -> & Hin).
    destruct (bwrite_refines me c a i bn Hrf Hin) as (c' & E & Hrf').
    exists c', (write_back bn a). msimpl. by rewrite E.
  - destruct Hal as [Hal Hp]. destruct (handle_of_held _ _ _ _ Hrf Hal) as (i & -> & Hin).
    destruct (bpin_refines me c a i bn Hrf Hin Hp) as (c' & E & Hrf').
    exists c', (pin bn a). msimpl. by rewrite E.
  - destruct Hal as [Hal Hp]. destruct (handle_of_held _ _ _ _ Hrf Hal) as (i & -> & Hin).
    destruct (bunpin_refines me c a i bn Hrf Hin Hp) as (c' & E & Hrf').
    exists c', (unpin bn a). msimpl. by rewrite E.
  - destruct Hal as [Hal Hp]. destruct (handle_of_held _ _ _ _ Hrf Hal) as (i & -> & Hin).
    destruct (brelse_refines me c a i bn Hrf Hin Hp) as (c' & E & Hrf').
    exists c', (release i bn a). msimpl. rewrite E. split; [done|]. split; [done|].
    unfold client_of, spec_step. cbn [release cv cd cpin cheld cwrites l_held].
    by rewrite (release_held _ _ _ _ _ Hrf Hin).
Qed.

Lemma run_spec me cs c a :
  refines me c a → all_allowed cs (client_of a) →
  ∃ c' a', run me cs (cheld a) c = (Ret (cheld a'), c') ∧ refines me c' a' ∧
    client_of a' = fold_left (λ l c, spec_step c l) cs (client_of a).
Proof.
  revert c a. induction cs as [|cmd cs IH]; intros c a Hrf Hal; [by exists c, a|].
  destruct Hal as [Hal Hals]. destruct (exec_spec me c a cmd Hrf Hal) as (c1 & a1 & E1 & Hrf1 & Hc1).
  rewrite <-Hc1 in Hals. destruct (IH c1 a1 Hrf1 Hals) as (c2 & a2 & E2 & Hrf2 & Hc2).
  exists c2, a2. cbn [run fold_left]. msimpl. rewrite E1. split; [done|]. split; [done|]. by rewrite <-Hc1.
Qed.

(** C26: The buffer cache is what its client sees of it: from the empty cache of
    [binit], every sequence of reads, stores, writes, pins and releases that keeps
    the discipline runs without a panic and without waiting, each block then
    reads as it was last stored or else as it was on the disk, whatever was
    recycled in between, and the disk has received exactly the blocks written,
    in order. *)
Theorem cache_refinement me d cs :
  all_allowed cs (client_of (booted d)) →
  ∃ hs c, run me cs [] (binit d) = (Ret hs, c) ∧ bcache_ok c ∧
    let l := fold_left (λ l c, spec_step c l) cs (client_of (booted d)) in
    (∀ bn, view c bn = l_view l bn) ∧ (∀ bn, disk c bn = l_disk l bn) ∧ writes c = l_writes l ∧
    snd <$> hs = l_held l.
Proof.
  intros Hal. destruct (run_spec me cs (binit d) (booted d) (binit_refines me d) Hal)
    as (c & a & E & Hrf & Hc).
  exists (cheld a), c. split; [exact E|]. split; [apply (rf_ok _ _ _ Hrf)|]. cbv zeta.
  rewrite <-Hc. split; [apply (rf_view _ _ _ Hrf)|]. split; [apply (rf_disk _ _ _ Hrf)|].
  split; [apply (rf_writes _ _ _ Hrf)|done].
Qed.

Definition ex_cmds : list cmd :=
  [CRead 5; CStore 5 (replicate BSIZE 7%Z); CRead 40; CWrite 5; CRelease 5; CRelease 40; CRead 5].

Lemma cache_refinement_witness :
  ∃ hs c, run 3 ex_cmds [] (binit (λ _, replicate BSIZE 0%Z)) = (Ret hs, c) ∧ bcache_ok c ∧
    let l := fold_left (λ l c, spec_step c l) ex_cmds (client_of (booted (λ _, replicate BSIZE 0%Z))) in
    (∀ bn, view c bn = l_view l bn) ∧ (∀ bn, disk c bn = l_disk l bn) ∧ writes c = l_writes l ∧
    snd <$> hs = l_held l.
Proof.
  apply (cache_refinement 3 (λ _, replicate BSIZE 0%Z) ex_cmds). unfold ex_cmds. simpl.
  repeat split; try (right; unfold NBUF; lia); try (right; vm_compute; reflexivity); set_solver.
Defined.

Lemma bread_panics me c bn :
  bcache_ok c → (∀ i b, ¬ holds c bn i b) → ¬ some_free c →
  bread me ROOTDEV bn c = (Err (Panic "bget: no buffers"), c).
Proof.
  intros Hok Hno Hnf. pose proof (proj2 (cached_None c Hok bn) Hno) as Ec. unfold cached, is_block in Ec.
  unfold bread, bget, get_buf. msimpl. rewrite Ec.
  destruct (scan (λ b, (b_refcnt b =? 0)%Z) (bufs c) (rev (lru c))) as [i|] eqn:Es; [|done].
  apply scan_Some in Es as (_ & b & Hb & Hr%Z.eqb_eq). exfalso. apply Hnf. by exists i, b.
Qed.

(** [bread] panics exactly when the block is not cached and every buffer is
    referenced, and goes to sleep exactly when the buffer of the block is locked;
    otherwise it returns. *)
Theorem bread_outcome me bn c :
  bcache_ok c → (∀ i b, holds c bn i b → b_refcnt b < 2 ^ 32 - 1)%Z →
  match fst (bread me ROOTDEV bn c) with
  | Ret i => ∃ b, holds (snd (bread me ROOTDEV bn c)) bn i b ∧ held me b ∧ b_data b = view c bn
  | Err (Panic _) => (∀ i b, ¬ holds c bn i b) ∧ ¬ some_free c
  | Err Sleeps => ∃ i b, holds c bn i b ∧ locked (b_lock b) = true
  | NoFuel => False
  end.
Proof.
  intros Hok Hsm.
  assert (Hret : can_get c bn → match fst (bread me ROOTDEV bn c) with
    | Ret i => ∃ b, holds (snd (bread me ROOTDEV bn c)) bn i b ∧ held me b ∧ b_data b = view c bn
    | _ => False end).
  { intros Hget. destruct (bread_spec me c bn Hok Hget) as (i & c' & old & b & -> & Hp).
    destruct Hp as [-> Hold _ _ _ Hd Hn Hl Hdata _ _]. exists b. split; [|done].
    split; [|done]. cbn [snd]. rewrite put_lookup, decide_True by (done || by eapply lookup_lt_Some). done. }
  destruct (holders c Hok bn) as [(i & b & Hh)|Hno].
  - destruct (locked (b_lock b)) eqn:El.
    + assert (E : fst (bread me ROOTDEV bn c) = Err Sleeps); [|rewrite E; by exists i, b].
      pose proof (cached_holds c Hok bn i b Hh) as Ec. unfold cached, is_block in Ec.
      destruct Hh as (Hb & _). pose proof (lookup_lt_Some _ _ _ Hb) as Hlt.
      unfold bread, bget, lock_buf, get_buf. msimpl. rewrite Ec.
      rewrite (upd_buf_put _ _ b) by done. rewrite put_lookup, decide_True by done.
      unfold acquiresleep. cbn [b_lock with_refcnt]. by rewrite El.
    + specialize (Hret (or_introl (ex_intro _ i (ex_intro _ b (conj Hh (conj El (Hsm i b Hh))))))).
      by destruct (fst (bread me ROOTDEV bn c)) as [|[]|].
  - destruct (decide (Exists (λ b, b_refcnt b = 0%Z) (bufs c))) as [He|Hne].
    + apply Exists_exists in He as (b & [i Hi]%list_elem_of_lookup & Hr).
      specialize (Hret (or_intror (conj Hno (ex_intro _ i (ex_intro _ b (conj Hi Hr)))))).
      by destruct (fst (bread me ROOTDEV bn c)) as [|[]|].
    + assert (Hnf : ¬ some_free c).
      { intros (i & b & Hi & Hr). apply Hne, Exists_exists. exists b.
        split; [by eapply list_elem_of_lookup_2|done]. }
      by rewrite (bread_panics me c bn Hok Hno Hnf).
Qed.

Lemma bread_outcome_witness :
  let c := binit (λ _, replicate BSIZE 7%Z) in
  fst (bread 3 ROOTDEV 5 c) = Ret 0 ∧
  ∃ b, holds (snd (bread 3 ROOTDEV 5 c)) 5 0 b ∧ held 3 b ∧ b_data b = view c 5.
Proof.
  intros c. assert (E : fst (bread 3 ROOTDEV 5 c) = Ret 0) by (vm_compute; reflexivity).
  split; [exact E|]. pose proof (bread_outcome 3 5 c (rf_ok _ _ _ (binit_refines 3 _))) as H.
  rewrite E in H. apply H. intros i b (Hb%lookup_replicate_1 & Hd & _). destruct Hb as [-> _]. discriminate Hd.
Defined.
