(* ===== verification/Log.v ===== *)
(** * The log (xv6/kernel/log.c)

    A transaction is written to the log area of the disk, then its header, and
    only then to the home locations; recovery copies what a header announces.
    The log runs on the buffer cache of [Bio] and its theorems use only the
    promise of [Cache].

    [begin_op] and [sys_sync] wait in a loop around [sleep]: here one turn of
    the loop is run, and [Sleeps] is the decision to wait; the process tries again
    when it is woken. *)

From S2P Require Export Cache.

#[local] Set Warnings "-clear-no-such-hyp".
#[local] Set Default Proof Using "Type".
Local Open Scope Z_scope.

Definition MAXOPBLOCKS : Z := 10.
Definition LOGBLOCKS : Z := MAXOPBLOCKS * 3.

(** ** State *)
Record log := {
  bc : bcache;
  start : Z;
  outstanding : Z;
  committing : bool;
  dev : Z;
  ncommit : Z;
  lh_n : Z;
  lh_block : list Z
}.

Definition set_bc (c : bcache) (s : log) : log :=
  {| bc := c; start := start s; outstanding := outstanding s; committing := committing s;
     dev := dev s; ncommit := ncommit s; lh_n := lh_n s; lh_block := lh_block s |}.
Definition set_outstanding (n : Z) (s : log) : log :=
  {| bc := bc s; start := start s; outstanding := n; committing := committing s;
     dev := dev s; ncommit := ncommit s; lh_n := lh_n s; lh_block := lh_block s |}.
Definition set_committing (b : bool) (s : log) : log :=
  {| bc := bc s; start := start s; outstanding := outstanding s; committing := b;
     dev := dev s; ncommit := ncommit s; lh_n := lh_n s; lh_block := lh_block s |}.
Definition set_ncommit (n : Z) (s : log) : log :=
  {| bc := bc s; start := start s; outstanding := outstanding s; committing := committing s;
     dev := dev s; ncommit := n; lh_n := lh_n s; lh_block := lh_block s |}.
Definition set_lh_n (n : Z) (s : log) : log :=
  {| bc := bc s; start := start s; outstanding := outstanding s; committing := committing s;
     dev := dev s; ncommit := ncommit s; lh_n := n; lh_block := lh_block s |}.
Definition set_lh_block (l : list Z) (s : log) : log :=
  {| bc := bc s; start := start s; outstanding := outstanding s; committing := committing s;
     dev := dev s; ncommit := ncommit s; lh_n := lh_n s; lh_block := l |}.

Abbreviation L A := (M log stop A).

Definition lift {A} (m : B A) : L A := λ s, let (r, c) := m (bc s) in (r, set_bc c s).

(** [for (i = k; i < k + n; i++)] *)
Fixpoint for_up {S E} (k n : nat) (f : nat → M S E ()) : M S E () :=
  match n with
  | O => mret ()
  | Datatypes.S n => f k;; for_up (Datatypes.S k) n f
  end.

(** [log.lh.block[i]], within the array. *)
Definition lh_at (i : nat) : L Z :=
  s ← gets id;
  match lh_block s !! i with Some b => mret b | None => throw (Panic "array bounds") end.
Definition set_lh_at (i : nat) (b : Z) : L () :=
  s ← gets id;
  if (i <? length (lh_block s))%nat then modify (set_lh_block (<[i := b]> (lh_block s)))
  else throw (Panic "array bounds").

Definition header_offset (i : nat) : nat := 4 + 4 * i.

Section Log.
Context (me : Z).

(** ** Commit and recovery *)
Definition install_block (recovering : bool) (tail : nat) : L () :=
  s ← gets id;
  lbuf ← lift (bread me (dev s) (start s + Z.of_nat tail + 1));
  home ← lh_at tail;
  dbuf ← lift (bread me (dev s) home);
  data ← lift (bdata lbuf);
  lift (set_bdata dbuf data);;
  lift (bwrite me dbuf);;
  (if recovering then mret () else lift (bunpin dbuf));;
  lift (brelse me lbuf);;
  lift (brelse me dbuf).

Definition install_trans (recovering : bool) : L () :=
  n ← gets lh_n; for_up 0 (Z.to_nat n) (install_block recovering).

Definition read_head : L () :=
  s ← gets id;
  buf ← lift (bread me (dev s) (start s));
  lh ← lift (bdata buf);
  modify (set_lh_n (i32 (le_get 4 0 lh)));;
  for_up 0 (Z.to_nat (i32 (le_get 4 0 lh))) (λ i,
    set_lh_at i (i32 (le_get 4 (header_offset i) lh)));;
  lift (brelse me buf).

Definition write_head : L () :=
  s ← gets id;
  buf ← lift (bread me (dev s) (start s));
  hb ← lift (bdata buf);
  lift (set_bdata buf (le_put 4 0 (u32 (lh_n s)) hb));;
  for_up 0 (Z.to_nat (lh_n s)) (λ i,
    b ← lh_at i;
    hb ← lift (bdata buf);
    lift (set_bdata buf (le_put 4 (header_offset i) (u32 b) hb)));;
  lift (bwrite me buf);;
  lift (brelse me buf).

Definition recover_from_log : L () :=
  read_head;;
  install_trans true;;
  modify (set_lh_n 0);;
  write_head.

(** [sb_logstart] is read from the super block. *)
Definition initlog (rootdev sb_logstart : Z) : L () :=
  if (BSIZE <=? header_offset (Z.to_nat LOGBLOCKS))%nat
  then throw (Panic "initlog: too big logheader")
  else
  modify (λ s, {| bc := bc s; start := sb_logstart; outstanding := outstanding s;
                  committing := committing s; dev := rootdev; ncommit := ncommit s;
                  lh_n := lh_n s; lh_block := lh_block s |});;
  recover_from_log.

Definition write_log_block (tail : nat) : L () :=
  s ← gets id;
  to ← lift (bread me (dev s) (start s + Z.of_nat tail + 1));
  home ← lh_at tail;
  from ← lift (bread me (dev s) home);
  data ← lift (bdata from);
  lift (set_bdata to data);;
  lift (bwrite me to);;
  lift (brelse me from);;
  lift (brelse me to).

Definition write_log : L () := n ← gets lh_n; for_up 0 (Z.to_nat n) write_log_block.

Definition commit : L () :=
  n ← gets lh_n;
  if 0 <? n then
    write_log;;
    write_head;;
    install_trans false;;
    modify (set_lh_n 0);;
    write_head
  else mret ().

(** ** Transactions *)
Definition begin_op : L () :=
  s ← gets id;
  if committing s then throw Sleeps
  else if LOGBLOCKS <? lh_n s + (outstanding s + 1) * MAXOPBLOCKS then throw Sleeps
  else modify (set_outstanding (outstanding s + 1)).

Definition end_op : L () :=
  s ← gets id;
  modify (set_outstanding (outstanding s - 1));;
  if committing s then throw (Panic "log.committing")
  else if outstanding s - 1 =? 0 then
    modify (set_committing true);;
    commit;;
    modify (set_committing false);;
    modify (λ s, set_ncommit (ncommit s + 1) s)
  else mret ().

(** The index of [bn] among the first [n] blocks, or [n]. *)
Fixpoint find_block (bn : Z) (l : list Z) (i n : nat) : nat :=
  match n, l with
  | Datatypes.S n, x :: l => if x =? bn then i else find_block bn l (Datatypes.S i) n
  | _, _ => i
  end.

Definition log_write (b : nat) : L () :=
  s ← gets id;
  if LOGBLOCKS <=? lh_n s then throw (Panic "too big a transaction")
  else if outstanding s <? 1 then throw (Panic "log_write outside of trans")
  else
    buf ← lift (get_buf b);
    let i := find_block (b_blockno buf) (lh_block s) 0 (Z.to_nat (lh_n s)) in
    set_lh_at i (b_blockno buf);;
    if Z.of_nat i =? lh_n s then
      lift (bpin b);;
      modify (set_lh_n (lh_n s + 1))
    else mret ().

(** [None]: nothing to wait for; else the commit to wait for. *)
Definition sys_sync (s : log) : option Z :=
  if committing s || (0 <? outstanding s) then Some (ncommit s + 1) else None.
Definition sync_done (n : Z) (s : log) : bool := negb (ncommit s <? n).
End Log.

(** The kernel starts with a zeroed [log] and an empty cache over the disk. *)
Definition boot (d : Z → block) : log :=
  {| bc := binit d; start := 0; outstanding := 0; committing := false; dev := 0; ncommit := 0;
     lh_n := 0; lh_block := replicate (Z.to_nat LOGBLOCKS) 0 |}.

(** ** Copies of blocks

    What the loops do to the cache: each copy writes one block to the disk. *)
Definition copy (src dst : Z) (a : cache) : cache := write_back dst (store dst (cv a src) a).

Fixpoint copies (ps : list (Z * Z)) (a : cache) : cache :=
  match ps with
  | [] => a
  | (src, dst) :: ps => copies ps (copy src dst a)
  end.

Fixpoint installs (ps : list (Z * Z)) (a : cache) : cache :=
  match ps with
  | [] => a
  | (src, dst) :: ps => installs ps (unpin dst (copy src dst a))
  end.

(** The blocks of a transaction and where the log has them, from [b + 1]. *)
Fixpoint log_pairs (b : Z) (l : list Z) : list (Z * Z) :=
  match l with
  | [] => []
  | x :: l => (x, b + 1) :: log_pairs (b + 1) l
  end.

Definition swap (ps : list (Z * Z)) : list (Z * Z) := (λ p, (p.2, p.1)) <$> ps.

Lemma lift_run {A} (m : B A) s x c : m (bc s) = (Ret x, c) → lift m s = (Ret x, set_bc c s).
Proof. intros H. unfold lift. by rewrite H. Qed.

Lemma set_bc_bc s : set_bc (bc s) s = s.
Proof. by destruct s. Qed.

(** Run the next action of a sequence on the cache. *)
Ltac lift_step H := erewrite bind_run; [|apply lift_run; exact H].

Section Runs.
Context (me : Z).

Lemma lh_at_run s i x : lh_block s !! i = Some x → lh_at i s = (Ret x, s).
Proof. intros H. unfold lh_at. msimpl. by rewrite H. Qed.

Lemma write_log_body s a tail x :
  dev s = ROOTDEV → refines me (bc s) a → cheld a = [] → x ∈ cpin a →
  start s + Z.of_nat tail + 1 ∉ cpin a → (length (cpin a) < NBUF)%nat → lh_block s !! tail = Some x →
  ∃ c', write_log_block me tail s = (Ret (), set_bc c' s) ∧
    refines me c' (copy x (start s + Z.of_nat tail + 1) a).
Proof.
  intros Hdev Hr Hh Hx Hd Hroom Hl. set (dst := start s + Z.of_nat tail + 1) in *.
  assert (Hne : x ≠ dst) by congruence. unfold write_log_block. pure_step. change (id s) with s. rewrite Hdev. fold dst.
  destruct (bread_refines me _ a dst Hr) as (i & c1 & E1 & Hr1);
    [rewrite Hh; apply not_elem_of_nil|right; rewrite Hh; simpl; lia|].
  lift_step E1. rewrite (bind_run _ _ _ x (set_bc c1 s)) by (by apply lh_at_run).
  destruct (bread_refines me c1 _ x Hr1) as (j & c2 & E2 & Hr2); [|by left|].
  { simpl. rewrite Hh. simpl. by rewrite list_elem_of_singleton. }
  lift_step E2.
  assert (Hi : (i, dst) ∈ cheld (hold j x (hold i dst a))) by (simpl; right; left).
  assert (Hj : (j, x) ∈ cheld (hold j x (hold i dst a))) by (simpl; left).
  lift_step (bdata_refines me c2 _ _ _ Hr2 Hj).
  destruct (set_bdata_refines me c2 _ i dst (cv a x) Hr2 Hi) as (c3 & E3 & Hr3). lift_step E3.
  destruct (bwrite_refines me c3 _ i dst Hr3 Hi) as (c4 & E4 & Hr4). lift_step E4.
  destruct (brelse_refines me c4 _ j x Hr4 Hj) as (c5 & E5 & Hr5); [by left|]. lift_step E5.
  destruct (brelse_refines me c5 _ i dst Hr5) as (c6 & E6 & Hr6).
  { simpl. rewrite list_elem_of_filter. split; [congruence|exact Hi]. }
  { right. simpl. by rewrite !fn_lookup_insert. }
  exists c6. split; [by erewrite lift_run; [|exact E6]|].
  replace (copy x dst a) with (release i dst (release j x (write_back dst (store dst (cv a x) (hold j x (hold i dst a))))));
    [done|].
  unfold release, copy, write_back, store, hold. simpl. rewrite Hh. f_equal.
  repeat (rewrite filter_cons; case_decide); naive_solver.
Qed.

Lemma install_body s a tail x (recovering : bool) :
  dev s = ROOTDEV → refines me (bc s) a → cheld a = [] →
  (recovering = false → x ∈ cpin a) → start s + Z.of_nat tail + 1 ∉ cpin a →
  x ≠ start s + Z.of_nat tail + 1 →
  (S (length (cpin a) - (if recovering then 0 else 1)) < NBUF)%nat → lh_block s !! tail = Some x →
  cv a (start s + Z.of_nat tail + 1) = cd a (start s + Z.of_nat tail + 1) →
  let a' := copy (start s + Z.of_nat tail + 1) x a in
  ∃ c', install_block me recovering tail s = (Ret (), set_bc c' s) ∧
    refines me c' (if recovering then a' else unpin x a').
Proof.
  intros Hdev Hr Hh Hx Hd Hne Hroom Hl Hclean a'.
  set (src := start s + Z.of_nat tail + 1) in *. unfold install_block.
  pure_step. change (id s) with s. rewrite Hdev. fold src.
  destruct (bread_refines me _ a src Hr) as (i & c1 & E1 & Hr1);
    [rewrite Hh; apply not_elem_of_nil|right; rewrite Hh; simpl; destruct recovering; lia|].
  lift_step E1. rewrite (bind_run _ _ _ x (set_bc c1 s)) by (by apply lh_at_run).
  destruct (bread_refines me c1 _ x Hr1) as (j & c2 & E2 & Hr2).
  { simpl. rewrite Hh. simpl. by rewrite list_elem_of_singleton. }
  { simpl. rewrite Hh. simpl. destruct recovering; [right; lia|left; by apply Hx]. }
  lift_step E2.
  assert (Hi : (i, src) ∈ cheld (hold j x (hold i src a))) by (simpl; right; left).
  assert (Hj : (j, x) ∈ cheld (hold j x (hold i src a))) by (simpl; left).
  lift_step (bdata_refines me c2 _ _ _ Hr2 Hi).
  destruct (set_bdata_refines me c2 _ j x (cv a src) Hr2 Hj) as (c3 & E3 & Hr3). lift_step E3.
  destruct (bwrite_refines me c3 _ j x Hr3 Hj) as (c4 & E4 & Hr4). lift_step E4.
  set (a4 := write_back x (store x (cv a src) (hold j x (hold i src a)))) in *.
  assert (exists c5, (if recovering then mret () else lift (bunpin j)) (set_bc c4 s) = (Ret (), set_bc c5 s)
    ∧ refines me c5 (if recovering then a4 else unpin x a4)) as (c5 & E5 & Hr5).
  { destruct recovering; [by exists c4|].
    destruct (bunpin_refines me c4 a4 j x Hr4 Hj (Hx eq_refl)) as (c5 & E5 & Hr5).
    exists c5. split; [by erewrite lift_run; [|exact E5]|done]. }
  erewrite bind_run; [|exact E5].
  destruct (brelse_refines me c5 _ i src Hr5) as (c6 & E6 & Hr6).
  { by destruct recovering. }
  { right. destruct recovering; simpl; by rewrite !fn_lookup_insert_ne. }
  lift_step E6.
  destruct (brelse_refines me c6 _ j x Hr6) as (c7 & E7 & Hr7).
  { destruct recovering; simpl; rewrite list_elem_of_filter; (split; [congruence|exact Hj]). }
  { right. destruct recovering; simpl; by rewrite !fn_lookup_insert. }
  exists c7. split; [by erewrite lift_run; [|exact E7]|].
  replace (if recovering then a' else unpin x a')
    with (release j x (release i src (if recovering then a4 else unpin x a4))); [done|].
  destruct recovering; unfold a', a4, release, unpin, copy, write_back, store, hold; simpl; rewrite Hh;
    f_equal; repeat (rewrite filter_cons; case_decide); naive_solver.
Qed.

(** No block of [l] is one of the [n] after [b]. *)
Definition apart (b : Z) (n : nat) (l : list Z) : Prop :=
  ∀ x, x ∈ l → ¬ (b < x ≤ b + Z.of_nat n).

Lemma write_log_loop l k s a :
  dev s = ROOTDEV → refines me (bc s) a → cheld a = [] → (length (cpin a) < NBUF)%nat →
  (∀ x, x ∈ l → x ∈ cpin a) → apart (start s + Z.of_nat k) (length l) (cpin a) →
  (∀ j x, l !! j = Some x → lh_block s !! (k + j)%nat = Some x) →
  ∃ c', for_up k (length l) (write_log_block me) s = (Ret (), set_bc c' s) ∧
    refines me c' (copies (log_pairs (start s + Z.of_nat k) l) a).
Proof.
  revert k s a. induction l as [|x l IH]; intros k s a Hdev Hr Hh Hroom Hin Hap Hl.
  { exists (bc s). split; [by rewrite set_bc_bc|done]. }
  cbn [for_up length log_pairs copies].
  destruct (write_log_body s a k x) as (c1 & E1 & Hr1); try done.
  { apply Hin. left. }
  { intros Hx. apply (Hap _ Hx). simpl. lia. }
  { rewrite <-(Nat.add_0_r k). by apply Hl. }
  rewrite (bind_run _ _ _ _ _ E1).
  destruct (IH (S k) (set_bc c1 s) _ Hdev Hr1 Hh Hroom) as (c2 & E2 & Hr2).
  { intros y Hy. apply Hin. by right. }
  { intros y Hy. simpl in *. specialize (Hap y Hy). simpl in Hap. lia. }
  { intros j y Hy. replace (S k + j)%nat with (k + S j)%nat by lia. by apply (Hl (S j)). }
  exists c2. split; [done|]. by rewrite Nat2Z.inj_succ, <-Z.add_1_r, Z.add_assoc in Hr2.
Qed.

Lemma recover_loop l k s a :
  dev s = ROOTDEV → refines me (bc s) a → cheld a = [] → cpin a = [] →
  apart (start s + Z.of_nat k) (length l) l →
  (∀ j x, l !! j = Some x → lh_block s !! (k + j)%nat = Some x) →
  (∀ b, start s + Z.of_nat k < b ≤ start s + Z.of_nat k + Z.of_nat (length l) → cv a b = cd a b) →
  ∃ c', for_up k (length l) (install_block me true) s = (Ret (), set_bc c' s) ∧
    refines me c' (copies (swap (log_pairs (start s + Z.of_nat k) l)) a).
Proof.
  revert k s a. induction l as [|x l IH]; intros k s a Hdev Hr Hh Hp Hap Hl Hc.
  { exists (bc s). split; [by rewrite set_bc_bc|done]. }
  cbn [for_up length log_pairs swap fmap list_fmap copies fst snd].
  assert (Hx : x ≠ start s + Z.of_nat k + 1) by (intros ->; eapply Hap; [left|simpl; lia]).
  destruct (install_body s a k x true) as (c1 & E1 & Hr1); try done.
  { rewrite Hp. apply not_elem_of_nil. }
  { rewrite Hp. unfold NBUF. simpl. lia. }
  { rewrite <-(Nat.add_0_r k). by apply Hl. }
  { apply Hc. simpl. lia. }
  rewrite (bind_run _ _ _ _ _ E1).
  destruct (IH (S k) (set_bc c1 s) _ Hdev Hr1 Hh Hp) as (c2 & E2 & Hr2).
  { intros y Hy. simpl. specialize (Hap y (list_elem_of_further _ _ _ Hy)). simpl in Hap. lia. }
  { intros j y Hy. replace (S k + j)%nat with (k + S j)%nat by lia. by apply (Hl (S j)). }
  { intros b Hb. simpl in Hb |- *.
    assert (b ≠ x) by (intros ->; eapply Hap; [left|simpl; lia]).
    rewrite !fn_lookup_insert_ne by done. apply Hc. simpl. lia. }
  exists c2. split; [done|]. by rewrite Nat2Z.inj_succ, <-Z.add_1_r, Z.add_assoc in Hr2.
Qed.

Lemma install_loop l k s a :
  dev s = ROOTDEV → refines me (bc s) a → cheld a = [] → (length (cpin a) < NBUF)%nat →
  NoDup l → (∀ x, x ∈ l → x ∈ cpin a) → apart (start s + Z.of_nat k) (length l) (cpin a) →
  (∀ j x, l !! j = Some x → lh_block s !! (k + j)%nat = Some x) →
  (∀ b, start s + Z.of_nat k < b ≤ start s + Z.of_nat k + Z.of_nat (length l) → cv a b = cd a b) →
  ∃ c', for_up k (length l) (install_block me false) s = (Ret (), set_bc c' s) ∧
    refines me c' (installs (swap (log_pairs (start s + Z.of_nat k) l)) a).
Proof.
  revert k s a. induction l as [|x l IH]; intros k s a Hdev Hr Hh Hroom Hnd Hin Hap Hl Hc.
  { exists (bc s). split; [by rewrite set_bc_bc|done]. }
  apply NoDup_cons in Hnd as [Hxl Hnd].
  cbn [for_up length log_pairs swap fmap list_fmap installs fst snd].
  assert (Hxp : x ∈ cpin a) by (apply Hin; left).
  assert (Hx : x ≠ start s + Z.of_nat k + 1) by (intros ->; eapply Hap; [done|simpl; lia]).
  destruct (install_body s a k x false) as (c1 & E1 & Hr1); try done.
  { intros Hy. apply (Hap _ Hy). simpl. lia. }
  { unfold NBUF in *. lia. }
  { rewrite <-(Nat.add_0_r k). by apply Hl. }
  { apply Hc. simpl. lia. }
  rewrite (bind_run _ _ _ _ _ E1).
  destruct (IH (S k) (set_bc c1 s) _ Hdev Hr1 Hh) as (c2 & E2 & Hr2).
  { simpl. eapply Nat.le_lt_trans; [apply length_filter|done]. }
  { done. }
  { intros y Hy. simpl. apply list_elem_of_filter. split; [by intros ->|]. apply Hin. by right. }
  { intros y Hy. simpl in *. apply list_elem_of_filter in Hy as [_ Hy]. specialize (Hap y Hy). simpl in Hap. lia. }
  { intros j y Hy. replace (S k + j)%nat with (k + S j)%nat by lia. by apply (Hl (S j)). }
  { intros b Hb. simpl in Hb |- *.
    assert (b ≠ x) by (intros ->; eapply Hap; [done|simpl; lia]).
    rewrite !fn_lookup_insert_ne by done. apply Hc. simpl. lia. }
  exists c2. split; [done|]. by rewrite Nat2Z.inj_succ, <-Z.add_1_r, Z.add_assoc in Hr2.
Qed.
End Runs.

(** ** What copies do *)
Lemma log_pairs_elem b l x y :
  (x, y) ∈ log_pairs b l ↔ ∃ j, l !! j = Some x ∧ y = b + Z.of_nat j + 1.
Proof.
  revert b. induction l as [|z l IH]; intros b; cbn [log_pairs].
  { split; [by intros ?%elem_of_nil|]. by intros (j & ? & _). }
  rewrite elem_of_cons, IH. split.
  - intros [[= -> ->]|(j & Hj & ->)]; [exists 0%nat; simpl; split; [done|lia]|].
    exists (S j). split; [done|lia].
  - intros ([|j] & Hj & ->); [left; injection Hj as ->; f_equal; simpl; lia|].
    right. exists j. split; [done|lia].
Qed.

Lemma log_pairs_range b l y : y ∈ snd <$> log_pairs b l → b < y ≤ b + Z.of_nat (length l).
Proof.
  intros ([x z] & -> & (j & Hj & ->)%log_pairs_elem)%list_elem_of_fmap.
  apply lookup_lt_Some in Hj. simpl. lia.
Qed.

Lemma log_pairs_NoDup b l : NoDup (snd <$> log_pairs b l).
Proof.
  revert b. induction l as [|z l IH]; intros b; [constructor|].
  cbn [log_pairs fmap list_fmap snd]. constructor; [|apply IH]. intros H%log_pairs_range. lia.
Qed.

Lemma log_pairs_fst b l : fst <$> log_pairs b l = l.
Proof. revert b. induction l as [|z l IH]; intros b; [done|]. cbn. f_equal. apply IH. Qed.

Lemma copies_same ps a bn :
  bn ∉ snd <$> ps → cv (copies ps a) bn = cv a bn ∧ cd (copies ps a) bn = cd a bn.
Proof.
  revert a. induction ps as [|[x y] ps IH]; intros a; [done|].
  cbn [fmap list_fmap snd copies]. intros [Hy Hps]%not_elem_of_cons.
  destruct (IH (copy x y a) Hps) as [-> ->]. simpl. by rewrite !fn_lookup_insert_ne.
Qed.

Lemma copies_keep ps a : cpin (copies ps a) = cpin a ∧ cheld (copies ps a) = cheld a.
Proof. revert a. induction ps as [|[x y] ps IH]; intros a; [done|]. cbn [copies]. by destruct (IH (copy x y a)) as [-> ->]. Qed.

(** Sources and destinations apart: every copy is of the original. *)
Lemma copies_copied ps a :
  NoDup (snd <$> ps) → (∀ x, x ∈ fst <$> ps → x ∉ snd <$> ps) →
  (∀ x y, (x, y) ∈ ps → cv (copies ps a) y = cv a x ∧ cd (copies ps a) y = cv a x) ∧
  cwrites (copies ps a) = cwrites a ++ ((λ p, (p.2, cv a p.1)) <$> ps).
Proof.
  revert a. induction ps as [|[x y] ps IH]; intros a.
  { intros _ _. simpl. rewrite app_nil_r. split; [by intros x y ?%elem_of_nil|done]. }
  cbn [fmap list_fmap fst snd copies]. intros [Hy Hnd]%NoDup_cons Hap.
  assert (Hap' : ∀ z, z ∈ fst <$> ps → z ≠ y ∧ z ∉ snd <$> ps).
  { intros z Hz. specialize (Hap z). rewrite not_elem_of_cons in Hap. apply Hap. by right. }
  destruct (IH (copy x y a) Hnd) as [Hc Hw]; [intros z Hz; by apply Hap'|].
  assert (Hsame : ∀ z, z ∈ fst <$> ps → cv (copy x y a) z = cv a z).
  { intros z Hz. simpl. destruct (Hap' z Hz). by rewrite fn_lookup_insert_ne. }
  split.
  - intros z w [[= -> ->]|Hin]%elem_of_cons.
    + destruct (copies_same ps (copy x y a) y Hy) as [-> ->]. simpl. by rewrite !fn_lookup_insert.
    + destruct (Hc z w Hin) as [-> ->]. rewrite Hsame; [done|]. apply list_elem_of_fmap. by exists (z, w).
  - rewrite Hw. simpl. rewrite fn_lookup_insert, <-app_assoc. cbn [app]. do 2 f_equal.
    apply list_fmap_ext. intros i [z w] Hi. simpl. f_equal. apply (Hsame z).
    apply list_elem_of_fmap. exists (z, w). split; [done|]. by eapply list_elem_of_lookup_2.
Qed.

Fixpoint unpins (l : list Z) (a : cache) : cache :=
  match l with [] => a | x :: l => unpins l (unpin x a) end.

Lemma copies_unpin ps x a : copies ps (unpin x a) = unpin x (copies ps a).
Proof. revert a. induction ps as [|[y z] ps IH]; intros a; [done|]. cbn [copies]. apply (IH (copy y z a)). Qed.

Lemma installs_copies ps a : installs ps a = unpins (snd <$> ps) (copies ps a).
Proof.
  revert a. induction ps as [|[x y] ps IH]; intros a; [done|]. cbn [installs fmap list_fmap snd copies unpins].
  by rewrite IH, copies_unpin.
Qed.

Lemma unpins_fields l a :
  cv (unpins l a) = cv a ∧ cd (unpins l a) = cd a ∧ cheld (unpins l a) = cheld a ∧
  cwrites (unpins l a) = cwrites a ∧ cpin (unpins l a) = filter (λ x, x ∉ l) (cpin a).
Proof.
  revert a. induction l as [|y l IH]; intros a; cbn [unpins].
  { do 4 (split; [done|]). induction (cpin a) as [|x p IHp]; [done|]. rewrite filter_cons.
    rewrite decide_True by apply not_elem_of_nil. by rewrite <-IHp at 1. }
  destruct (IH (unpin y a)) as (-> & -> & -> & -> & ->). do 4 (split; [done|]). simpl.
  rewrite list_filter_filter. apply list_filter_iff. intros x. rewrite not_elem_of_cons. naive_solver.
Qed.

Lemma refines_ext me c a a' :
  refines me c a → (∀ bn, cv a bn = cv a' bn) → (∀ bn, cd a bn = cd a' bn) →
  cpin a = cpin a' → cheld a = cheld a' → cwrites a = cwrites a' → refines me c a'.
Proof.
  intros [R1 R2 R3 R4 R5 R6 R7 R8 R9] Hv Hd Hp Hh Hw.
  assert (E : ∀ i b, buf_ok me a i b → buf_ok me a' i b).
  { intros i b [B1 B2 B3 B4]. split; unfold refs, is_held, is_pinned in *; rewrite <-?Hh, <-?Hp; try done.
    rewrite B1. f_equal; apply decide_ext; unfold is_held, is_pinned; by rewrite ?Hh, ?Hp. }
  split; rewrite <-?Hp, <-?Hh, <-?Hw; try done.
  - intros bn. by rewrite R2.
  - intros bn. by rewrite R3.
  - intros i b Hb. by apply E, R9.
Qed.

(** ** The header block *)
Fixpoint put_blocks (i : nat) (l : list Z) (hb : block) : block :=
  match l with
  | [] => hb
  | b :: l => put_blocks (S i) l (le_put 4 (header_offset i) (u32 b) hb)
  end.

(** The header of a transaction on [l], written over [hb]. *)
Definition header (l : list Z) (hb : block) : block :=
  put_blocks 0 l (le_put 4 0 (u32 (Z.of_nat (length l))) hb).

(** The transaction a header announces. *)
Definition header_list (hd : block) : list Z :=
  (λ i, i32 (le_get 4 (header_offset i) hd)) <$> seq 0 (Z.to_nat (i32 (le_get 4 0 hd))).

Definition is_blockno (x : Z) : Prop := 0 ≤ x < 2 ^ 31.

Lemma i32_u32 x : is_blockno x → i32 (u32 x) = x.
Proof. intros H. unfold is_blockno in H. unfold i32, u32.
  rewrite (Z.mod_small x) by lia. rewrite Z.mod_small by lia. lia.
Qed.

Lemma u32_range x : 0 ≤ u32 x < 256 ^ Z.of_nat 4.
Proof. unfold u32. apply Z.mod_pos_bound. lia. Qed.

Definition header_fits (i : nat) (hb : block) : Prop := (header_offset i ≤ length hb)%nat.

Lemma put_blocks_spec l i hb :
  header_fits (i + length l) hb →
  length (put_blocks i l hb) = length hb ∧
  (∀ off, (off + 4 ≤ header_offset i)%nat → le_get 4 off (put_blocks i l hb) = le_get 4 off hb) ∧
  (∀ j x, l !! j = Some x → le_get 4 (header_offset (i + j)) (put_blocks i l hb) = u32 x).
Proof.
  unfold header_fits, header_offset. revert i hb. induction l as [|b l IH]; intros i hb Hlen; [done|].
  cbn [put_blocks length] in *. unfold header_offset.
  assert (Hlen1 : length (le_put 4 (4 + 4 * i) (u32 b) hb) = length hb) by (apply length_le_put; lia).
  destruct (IH (S i) (le_put 4 (4 + 4 * i) (u32 b) hb)) as (H1 & H2 & H3); [rewrite Hlen1; lia|].
  split; [by rewrite H1|]. split.
  - intros off Hoff. rewrite H2 by lia. apply le_get_put_ne; lia.
  - intros [|j] x Hx; cbn [lookup list_lookup] in Hx.
    + injection Hx as ->. rewrite Nat.add_0_r, H2 by lia. apply le_get_put_eq; [lia|apply u32_range].
    + replace (i + S j)%nat with (S i + j)%nat by lia. by apply H3.
Qed.

Lemma header_roundtrip l hb :
  length hb = BSIZE → (length l ≤ Z.to_nat LOGBLOCKS)%nat → Forall is_blockno l →
  length (header l hb) = BSIZE ∧ header_list (header l hb) = l ∧
  i32 (le_get 4 0 (header l hb)) = Z.of_nat (length l).
Proof.
  intros Hhb Hl Hb. unfold header.
  assert (Hlen : length (le_put 4 0 (u32 (Z.of_nat (length l))) hb) = BSIZE)
    by (rewrite length_le_put; [done|rewrite Hhb; unfold BSIZE; lia]).
  destruct (put_blocks_spec l 0 (le_put 4 0 (u32 (Z.of_nat (length l))) hb)) as (H1 & H2 & H3).
  { unfold header_fits, header_offset. rewrite Hlen. unfold BSIZE, LOGBLOCKS, MAXOPBLOCKS in *. lia. }
  split; [by rewrite H1|]. unfold header_list. rewrite H2 by (unfold header_offset; lia).
  rewrite le_get_put_eq by (try apply u32_range; rewrite Hhb; unfold BSIZE; lia).
  rewrite i32_u32 by (unfold is_blockno, LOGBLOCKS, MAXOPBLOCKS in *; lia). split; [|done].
  rewrite Nat2Z.id. apply list_eq. intros j. rewrite list_lookup_fmap. destruct (l !! j) as [x|] eqn:Ej.
  - rewrite lookup_seq_lt by (by eapply lookup_lt_Some). cbn [fmap option_fmap option_map].
    rewrite (H3 j x Ej), i32_u32; [done|].
    by eapply Forall_lookup_1.
  - rewrite lookup_seq_ge; [done|]. by apply lookup_ge_None.
Qed.

Section Header.
Context (me : Z).

Lemma write_head_loop l k s a j st :
  refines me (bc s) a → (j, st) ∈ cheld a → (∀ i x, l !! i = Some x → lh_block s !! (k + i)%nat = Some x) →
  ∃ c', for_up k (length l) (λ i,
      b ← lh_at i; hb ← lift (bdata j);
      lift (set_bdata j (le_put 4 (header_offset i) (u32 b) hb))) s = (Ret (), set_bc c' s) ∧
    refines me c' (store st (put_blocks k l (cv a st)) a).
Proof.
  revert k s a. induction l as [|x l IH]; intros k s a Hr Hj Hl.
  { exists (bc s). split; [by rewrite set_bc_bc|]. eapply refines_ext; [exact Hr| |done..].
    intros bn. simpl. destruct (decide (bn = st)) as [->|]; by rewrite ?fn_lookup_insert, ?fn_lookup_insert_ne. }
  cbn [for_up length put_blocks].
  assert (Hx : lh_block s !! k = Some x) by (rewrite <-(Nat.add_0_r k); by apply Hl).
  destruct (set_bdata_refines me _ _ j st (le_put 4 (header_offset k) (u32 x) (cv a st)) Hr Hj) as (c1 & E1 & Hr1).
  destruct (IH (S k) (set_bc c1 s) _ Hr1 Hj) as (c2 & E2 & Hr2).
  { intros i y Hi. replace (S k + i)%nat with (k + S i)%nat by lia. by apply (Hl (S i)). }
  exists c2. split.
  - erewrite bind_run.
    2: { rewrite (bind_run _ _ _ x s) by (by apply lh_at_run).
         lift_step (bdata_refines me _ _ _ _ Hr Hj). apply lift_run. exact E1. }
    exact E2.
  - eapply refines_ext; [exact Hr2| |done..]. intros bn. simpl. rewrite fn_lookup_insert.
    destruct (decide (bn = st)) as [->|]; by rewrite ?fn_lookup_insert, ?fn_lookup_insert_ne.
Qed.

Lemma write_head_run l s a :
  dev s = ROOTDEV → refines me (bc s) a → cheld a = [] → start s ∉ cpin a →
  (length (cpin a) < NBUF)%nat → lh_n s = Z.of_nat (length l) → l `prefix_of` lh_block s →
  ∃ c', write_head me s = (Ret (), set_bc c' s) ∧
    refines me c' (write_back (start s) (store (start s) (header l (cv a (start s))) a)).
Proof.
  intros Hdev Hr Hh Hst Hroom Hn Hpre. unfold write_head. pure_step. change (id s) with s. rewrite Hdev.
  destruct (bread_refines me _ a (start s) Hr) as (j & c1 & E1 & Hr1);
    [rewrite Hh; apply not_elem_of_nil|right; rewrite Hh; simpl; lia|].
  assert (Hj : (j, start s) ∈ cheld (hold j (start s) a)) by left.
  lift_step E1. lift_step (bdata_refines me _ _ _ _ Hr1 Hj).
  destruct (set_bdata_refines me _ _ j (start s) (le_put 4 0 (u32 (lh_n s)) (cv a (start s))) Hr1 Hj)
    as (c2 & E2 & Hr2). lift_step E2.
  destruct (write_head_loop l 0 (set_bc c2 s) _ j (start s) Hr2 Hj) as (c3 & E3 & Hr3).
  { intros i x Hi. simpl. by eapply prefix_lookup_Some. }
  replace (Z.to_nat (lh_n s)) with (length l) by (rewrite Hn; lia).
  erewrite bind_run; [|exact E3].
  destruct (bwrite_refines me c3 _ j (start s) Hr3 Hj) as (c4 & E4 & Hr4). lift_step E4.
  destruct (brelse_refines me c4 _ j (start s) Hr4 Hj) as (c5 & E5 & Hr5).
  { right. simpl. by rewrite !fn_lookup_insert. }
  exists c5. split; [by erewrite lift_run; [|exact E5]|].
  eapply refines_ext; [exact Hr5| | | | |]; simpl.
  - intros bn. rewrite fn_lookup_insert. unfold header. rewrite <-Hn.
    destruct (decide (bn = start s)) as [->|]; by rewrite ?fn_lookup_insert, ?fn_lookup_insert_ne.
  - intros bn. rewrite !fn_lookup_insert. unfold header. by rewrite <-Hn.
  - done.
  - rewrite Hh, filter_cons, decide_False by naive_solver. done.
  - rewrite !fn_lookup_insert. unfold header. by rewrite <-Hn.
Qed.

Lemma read_head_loop hd l k s :
  (∀ i x, l !! i = Some x → x = i32 (le_get 4 (header_offset (k + i)) hd)) →
  (k + length l ≤ length (lh_block s))%nat →
  for_up k (length l) (λ i, set_lh_at i (i32 (le_get 4 (header_offset i) hd))) s
  = (Ret (), set_lh_block (splice k l (lh_block s)) s).
Proof.
  revert k s. induction l as [|x l IH]; intros k s Hl Hlen; simpl in Hlen.
  { cbn [for_up length]. unfold splice. rewrite Nat.add_0_r. simpl. rewrite take_drop. by destruct s. }
  cbn [for_up length]. rewrite <-(Nat.add_0_r k) at 2. rewrite <-(Hl 0%nat x) by done.
  erewrite bind_run.
  2: { unfold set_lh_at. msimpl. rewrite (proj2 (Nat.ltb_lt _ _)) by lia. reflexivity. }
  rewrite IH; cbn [lh_block set_lh_block].
  - unfold set_lh_block. cbn. do 2 f_equal.
    replace (<[k:=x]> (lh_block s)) with (splice k [x] (lh_block s)).
    + replace (S k) with (k + length [x])%nat by (simpl; lia). rewrite splice_app; [done|simpl; lia].
    + unfold splice. simpl. rewrite insert_take_drop by lia. by rewrite Nat.add_1_r.
  - intros i y Hi. replace (S k + i)%nat with (k + S i)%nat by lia. by apply Hl.
  - rewrite length_insert. lia.
Qed.

Lemma read_head_run s a :
  dev s = ROOTDEV → refines me (bc s) a → cheld a = [] → (length (cpin a) < NBUF)%nat →
  cv a (start s) = cd a (start s) →
  let l := header_list (cd a (start s)) in
  0 ≤ i32 (le_get 4 0 (cd a (start s))) → (length l ≤ length (lh_block s))%nat →
  ∃ c', read_head me s
    = (Ret (), set_lh_block (splice 0 l (lh_block s)) (set_lh_n (Z.of_nat (length l)) (set_bc c' s))) ∧
    refines me c' a.
Proof.
  intros Hdev Hr Hh Hroom Hc l Hn Hlen. unfold read_head. pure_step. change (id s) with s. rewrite Hdev.
  destruct (bread_refines me _ a (start s) Hr) as (j & c1 & E1 & Hr1);
    [rewrite Hh; apply not_elem_of_nil|right; rewrite Hh; simpl; lia|].
  assert (Hj : (j, start s) ∈ cheld (hold j (start s) a)) by left.
  lift_step E1. lift_step (bdata_refines me _ _ _ _ Hr1 Hj). pure_step. simpl (cv _ _). rewrite Hc.
  assert (Hl : length l = Z.to_nat (i32 (le_get 4 0 (cd a (start s)))))
    by (unfold l, header_list; by rewrite length_fmap, length_seq).
  rewrite <-Hl. erewrite bind_run; [|apply read_head_loop; [|simpl; lia]].
  2: { intros i x Hi. unfold l, header_list in Hi. rewrite list_lookup_fmap in Hi.
       apply fmap_Some in Hi as (m & Hm & ->). apply lookup_seq in Hm as [-> _]. done. }
  destruct (brelse_refines me c1 _ j (start s) Hr1 Hj) as (c2 & E2 & Hr2); [by right|].
  exists c2. split.
  - erewrite lift_run; [|exact E2]. do 2 f_equal. rewrite Hl, Z2Nat.id by done. done.
  - eapply refines_ext; [exact Hr2|done..| |done]. simpl.
    rewrite Hh, filter_cons, decide_False by naive_solver. done.
Qed.
End Header.

(** ** Recovery *)

(** The home of a block is outside the log area. *)
Definition home_ok (st x : Z) : Prop := ¬ (st ≤ x ≤ st + LOGBLOCKS) ∧ is_blockno x.

(** What is on the disk [d] after recovery. *)
Definition recovered (st : Z) (d : Z → block) (bn : Z) : block :=
  cd (copies (swap (log_pairs st (header_list (d st)))) (booted d)) bn.

Section Recovery.
Context (me : Z).

Lemma swap_fst ps : fst <$> swap ps = snd <$> ps.
Proof. unfold swap. rewrite <-list_fmap_compose. done. Qed.
Lemma swap_snd ps : snd <$> swap ps = fst <$> ps.
Proof. unfold swap. rewrite <-list_fmap_compose. done. Qed.

Lemma recover_run st d :
  let l := header_list (d st) in
  0 ≤ i32 (le_get 4 0 (d st)) → (length l ≤ Z.to_nat LOGBLOCKS)%nat → Forall (home_ok st) l →
  ∃ s', initlog me ROOTDEV st (boot d) = (Ret (), s') ∧
    let a := copies (swap (log_pairs st l)) (booted d) in
    refines me (bc s') (write_back st (store st (header [] (cv a st)) a)) ∧
    start s' = st ∧ dev s' = ROOTDEV ∧ lh_n s' = 0 ∧ length (lh_block s') = Z.to_nat LOGBLOCKS ∧
    outstanding s' = 0 ∧ committing s' = false.
Proof.
  intros l Hn Hl Hhome. unfold initlog.
  set (s0 := {| bc := binit d; start := st; outstanding := 0; committing := false; dev := ROOTDEV;
    ncommit := 0; lh_n := 0; lh_block := replicate (Z.to_nat LOGBLOCKS) 0 |}).
  change ((if (BSIZE <=? header_offset (Z.to_nat LOGBLOCKS))%nat then _ else ?m) ?b) with (m b).
  rewrite (bind_run _ _ (boot d) () s0) by reflexivity. unfold recover_from_log.
  destruct (read_head_run me s0 (booted d)) as (c1 & E1 & Hr1); try done;
    [apply binit_refines|simpl; unfold NBUF; lia|].
  rewrite (bind_run _ _ _ _ _ E1). change (cd (booted d) (start s0)) with (d st). fold l.
  set (s1 := set_lh_block _ _). 
  destruct (recover_loop me l 0 s1 (booted d)) as (c2 & E2 & Hr2); try done.
  { intros x Hx Hr. rewrite Forall_forall in Hhome. destruct (Hhome x Hx) as [Hno _].
    apply Hno. simpl in Hr. lia. }
  { intros j x Hj. unfold s1. cbn [lh_block set_lh_block]. rewrite splice_lookup_in.
    - simpl. by rewrite Nat.sub_0_r.
    - done.
    - apply lookup_lt_Some in Hj. lia. }
  unfold install_trans. erewrite bind_run.
  2: { pure_step. change (lh_n s1) with (Z.of_nat (length l)). rewrite Nat2Z.id. exact E2. }
  pure_step. set (s2 := set_lh_n 0 (set_bc c2 s1)).
  replace (start s1 + Z.of_nat 0) with st in Hr2 by (simpl; lia).
  set (a := copies (swap (log_pairs st l)) (booted d)) in *.
  destruct (copies_keep (swap (log_pairs st l)) (booted d)) as [Hp Hh]. fold a in Hp, Hh.
  destruct (write_head_run me [] s2 a) as (c3 & E3 & Hr3); try done.
  { rewrite Hp. apply not_elem_of_nil. }
  { rewrite Hp. simpl. unfold NBUF. lia. }
  { apply prefix_nil. }
  exists (set_bc c3 s2). split; [exact E3|]. split; [exact Hr3|]. do 3 (split; [done|]).
  split; [|done]. cbn [lh_block set_bc s2 set_lh_n s1 set_lh_block].
  rewrite length_splice; [done|done].
Qed.
End Recovery.

(** ** The invariant *)
Definition logged (s : log) : list Z := take (Z.to_nat (lh_n s)) (lh_block s).

(** The logged blocks are pinned and have their home outside the log; the log on
    the disk is empty. *)
Record log_ok (me : Z) (s : log) (a : cache) : Prop := {
  lo_ref : refines me (bc s) a;
  lo_dev : dev s = ROOTDEV;
  lo_n : 0 ≤ lh_n s ≤ LOGBLOCKS;
  lo_len : length (lh_block s) = Z.to_nat LOGBLOCKS;
  lo_pins : cpin a ≡ₚ logged s;
  lo_home : Forall (home_ok (start s)) (logged s);
  lo_held : ∀ i bn, (i, bn) ∈ cheld a → home_ok (start s) bn;
  lo_size : ∀ bn, length (cv a bn) = BSIZE;
  lo_header : i32 (le_get 4 0 (cd a (start s))) = 0;
  lo_start : 0 ≤ start s
}.

Lemma logged_length s :
  0 ≤ lh_n s ≤ LOGBLOCKS → length (lh_block s) = Z.to_nat LOGBLOCKS →
  Z.of_nat (length (logged s)) = lh_n s.
Proof. intros H1 H2. unfold logged. rewrite length_take, H2. lia. Qed.

Lemma logged_prefix s : logged s `prefix_of` lh_block s.
Proof. unfold logged. exists (drop (Z.to_nat (lh_n s)) (lh_block s)). by rewrite take_drop. Qed.

Lemma home_apart st l : Forall (home_ok st) l → (length l ≤ Z.to_nat LOGBLOCKS)%nat → apart st (length l) l.
Proof.
  intros H Hl x Hx Hr. rewrite Forall_forall in H. destruct (H x Hx) as [Hno _]. apply Hno. lia.
Qed.

(** The writes of a commit. *)
Definition commit_writes (st : Z) (l : list Z) (V : Z → block) : list (Z * block) :=
  ((λ p, (p.2, V p.1)) <$> log_pairs st l) ++
  [(st, header l (V st))] ++
  ((λ x, (x, V x)) <$> l) ++
  [(st, header [] (header l (V st)))].

Section Commit.
Context (me : Z) (s : log) (a : cache) (Hok : log_ok me s a) (Hidle : cheld a = []).
Let l := logged s.
Let st := start s.

Lemma lo_facts :
  Z.of_nat (length l) = lh_n s ∧ (length l ≤ Z.to_nat LOGBLOCKS)%nat ∧ NoDup l ∧
  (∀ x, x ∈ l ↔ x ∈ cpin a) ∧ length (cpin a) = length l ∧ apart st (length l) (cpin a) ∧
  (st ∉ cpin a) ∧ (∀ x, x ∈ l → x ≠ st) ∧ Forall is_blockno l.
Proof using Hok.
  destruct Hok as [R D N Ln P Ho He Sz Hd Hs]. pose proof (logged_length s N Ln) as Hlen.
  assert (Hin : ∀ x, x ∈ l ↔ x ∈ cpin a) by (intros x; by rewrite P).
  assert (Hl : (length l ≤ Z.to_nat LOGBLOCKS)%nat) by (unfold l; lia).
  rewrite Forall_forall in Ho.
  split; [done|]. split; [done|]. split; [|split; [done|split; [by rewrite P|split; [|split; [|split]]]]].
  - pose proof (rf_pins _ _ _ R) as Hnd. by rewrite P in Hnd.
  - intros x Hx%Hin Hr. destruct (Ho x Hx) as [Hno _]. apply Hno. unfold st in Hr. lia.
  - rewrite <-Hin. intros Hx. destruct (Ho st Hx) as [Hno _]. apply Hno. unfold st, LOGBLOCKS, MAXOPBLOCKS. lia.
  - intros x Hx ->. destruct (Ho st Hx) as [Hno _]. apply Hno. unfold st, LOGBLOCKS, MAXOPBLOCKS. lia.
  - apply Forall_forall. intros x Hx. by destruct (Ho x Hx).
Qed.

Definition sized (a : cache) : Prop := ∀ bn, length (cv a bn) = BSIZE.

Lemma store_sized bn d a' : sized a' → length d = BSIZE → sized (write_back bn (store bn d a')).
Proof using Type.
  intros Hs Hd x. cbn [cv write_back store]. destruct (decide (x = bn)) as [->|];
    by rewrite ?fn_lookup_insert, ?fn_lookup_insert_ne.
Qed.

Lemma copies_sized ps a' : sized a' → sized (copies ps a').
Proof using Type.
  revert a'. induction ps as [|[x y] ps IH]; intros a' Hs; [done|]. cbn [copies].
  apply IH. by apply store_sized.
Qed.

(** The abstract commit. *)
Let a1 := copies (log_pairs st l) a.
Let a2 := write_back st (store st (header l (cv a1 st)) a1).
Let a3 := installs (swap (log_pairs st l)) a2.
Let a4 := write_back st (store st (header [] (cv a3 st)) a3).

Lemma commit_views bn :
  (bn ∈ l → cv a4 bn = cv a bn ∧ cd a4 bn = cv a bn) ∧
  (bn ∉ l → ¬ (st ≤ bn ≤ st + Z.of_nat (length l)) → cv a4 bn = cv a bn ∧ cd a4 bn = cd a bn).
Proof using Hok.
  destruct lo_facts as (Hlen & Hl & Hnd & Hin & Hpl & Hap & Hst & Hnst & Hbn).
  assert (Hlogst : st ∉ snd <$> log_pairs st l) by (intros H%log_pairs_range; lia).
  assert (Hld : ∀ x, x ∈ l → x ∉ snd <$> log_pairs st l).
  { intros x Hx%Hin Hr%log_pairs_range. by apply (Hap x Hx). }
  destruct (copies_copied (log_pairs st l) a (log_pairs_NoDup st l)) as [Hc1 _].
  { intros x. rewrite log_pairs_fst. apply Hld. }
  fold a1 in Hc1.
  unfold a4, a3. rewrite installs_copies. destruct (unpins_fields (snd <$> swap (log_pairs st l))
    (copies (swap (log_pairs st l)) a2)) as (Ev & Ed & _). cbn [cv cd write_back store]. rewrite Ev, Ed.
  split.
  - intros Hx. assert (bn ≠ st) by (by apply Hnst). rewrite !fn_lookup_insert_ne by done.
    apply list_elem_of_lookup in Hx as [j Hj].
    destruct (copies_copied (swap (log_pairs st l)) a2) as [Hc2 _].
    { by rewrite swap_snd, log_pairs_fst. }
    { intros x. rewrite swap_fst, swap_snd, log_pairs_fst. intros Hx Hx2. by apply (Hld x). }
    destruct (Hc2 (st + Z.of_nat j + 1) bn) as [-> ->].
    { unfold swap. apply list_elem_of_fmap. exists (bn, st + Z.of_nat j + 1). split; [done|].
      apply log_pairs_elem. by exists j. }
    cbn [a2 cv write_back store]. rewrite fn_lookup_insert_ne by lia.
    destruct (Hc1 bn (st + Z.of_nat j + 1)) as [-> _]; [apply log_pairs_elem; by exists j|done].
  - intros Hx Hr. assert (bn ≠ st) by lia. rewrite !fn_lookup_insert_ne by done.
    destruct (copies_same (swap (log_pairs st l)) a2 bn) as [-> ->]; [by rewrite swap_snd, log_pairs_fst|].
    cbn [a2 cv cd write_back store]. rewrite !fn_lookup_insert_ne by done.
    apply copies_same. intros Hy%log_pairs_range. lia.
Qed.

Lemma commit_header : cv a3 st = header l (cv a st).
Proof using Hok.
  destruct lo_facts as (Hlen & Hl & Hnd & Hin & Hpl & Hap & Hst & Hnst & Hbn).
  unfold a3. rewrite installs_copies. destruct (unpins_fields (snd <$> swap (log_pairs st l))
    (copies (swap (log_pairs st l)) a2)) as (-> & _ & _).
  destruct (copies_same (swap (log_pairs st l)) a2 st) as [-> _].
  { rewrite swap_snd, log_pairs_fst. intros Hx. by apply (Hnst st). }
  cbn [a2 cv write_back store]. rewrite fn_lookup_insert. f_equal.
  apply copies_same. intros H%log_pairs_range. lia.
Qed.

Lemma commit_writes_spec : cwrites a4 = cwrites a ++ commit_writes st l (cv a).
Proof using Hok.
  destruct lo_facts as (Hlen & Hl & Hnd & Hin & Hpl & Hap & Hst & Hnst & Hbn).
  assert (Hld : ∀ x, x ∈ l → x ∉ snd <$> log_pairs st l).
  { intros x Hx%Hin Hr%log_pairs_range. by apply (Hap x Hx). }
  destruct (copies_copied (log_pairs st l) a (log_pairs_NoDup st l)) as [Hc1 Hw1].
  { intros x. rewrite log_pairs_fst. apply Hld. }
  fold a1 in Hc1.
  destruct (copies_copied (swap (log_pairs st l)) a2) as [_ Hw2].
  { by rewrite swap_snd, log_pairs_fst. }
  { intros x. rewrite swap_fst, swap_snd, log_pairs_fst. intros Hx Hx2. by apply (Hld x). }
  assert (Hst1 : cv a1 st = cv a st) by (apply copies_same; intros H%log_pairs_range; lia).
  unfold a4, commit_writes. cbn [cwrites write_back store cv]. rewrite fn_lookup_insert, commit_header.
  rewrite !app_assoc. f_equal. unfold a3. rewrite installs_copies.
  destruct (unpins_fields (snd <$> swap (log_pairs st l)) (copies (swap (log_pairs st l)) a2))
    as (_ & _ & _ & -> & _).
  rewrite Hw2. cbn [a2 cwrites write_back store cv]. rewrite fn_lookup_insert, Hst1. fold a1 in Hw1.
  rewrite Hw1. f_equal. unfold swap. rewrite <-list_fmap_compose.
  transitivity ((λ x, (x, cv a x)) <$> (fst <$> log_pairs st l)); [|by rewrite log_pairs_fst].
  rewrite <-list_fmap_compose.
  apply list_fmap_ext. intros i [x y] Hi. cbn [compose fst snd]. f_equal.
  assert (Hy : (x, y) ∈ log_pairs st l) by (by eapply list_elem_of_lookup_2).
  change (cv a2 y) with ((<[st := header l (cv a1 st)]> (cv a1)) y).
  rewrite fn_lookup_insert_ne; [by apply Hc1|].
  apply log_pairs_elem in Hy as (j & _ & ->). lia.
Qed.

Lemma commit_rest :
  cpin a4 = [] ∧ cheld a4 = [] ∧ sized a4 ∧ i32 (le_get 4 0 (cd a4 st)) = 0.
Proof using Hok Hidle.
  destruct lo_facts as (Hlen & Hl & Hnd & Hin & Hpl & Hap & Hst & Hnst & Hbn).
  assert (H1 : sized a1) by (apply copies_sized; exact (lo_size _ _ _ Hok)).
  assert (Hh : length (header l (cv a1 st)) = BSIZE) by (by apply header_roundtrip).
  assert (H2 : sized a2) by (by apply store_sized).
  assert (H3 : sized a3).
  { intros bn. unfold a3. rewrite installs_copies.
    destruct (unpins_fields (snd <$> swap (log_pairs st l)) (copies (swap (log_pairs st l)) a2)) as (-> & _).
    by apply copies_sized. }
  destruct (header_roundtrip [] (cv a3 st) (H3 st)) as (Hlen0 & _ & H0); [simpl; lia|done|].
  split; [|split; [|split]].
  - cbn [a4 cpin write_back store]. unfold a3. rewrite installs_copies.
    destruct (unpins_fields (snd <$> swap (log_pairs st l)) (copies (swap (log_pairs st l)) a2))
      as (_ & _ & _ & _ & ->).
    rewrite swap_snd, log_pairs_fst.
    destruct (copies_keep (swap (log_pairs st l)) a2) as [-> _].
    cbn [a2 cpin write_back store]. destruct (copies_keep (log_pairs st l) a) as [E _]. fold a1 in E. rewrite E.
    destruct (filter _ (cpin a)) as [|x p] eqn:Ef; [done|].
    assert (Hx : x ∈ filter (λ x, x ∉ l) (cpin a)) by (rewrite Ef; left).
    apply list_elem_of_filter in Hx as [Hx Hx2]. by destruct Hx; apply Hin.
  - cbn [a4 cheld write_back store]. unfold a3. rewrite installs_copies.
    destruct (unpins_fields (snd <$> swap (log_pairs st l)) (copies (swap (log_pairs st l)) a2))
      as (_ & _ & -> & _).
    destruct (copies_keep (swap (log_pairs st l)) a2) as [_ ->].
    cbn [a2 cheld write_back store]. destruct (copies_keep (log_pairs st l) a) as [_ E]. fold a1 in E. by rewrite E.
  - by apply store_sized.
  - cbn [a4 cd write_back store cv]. by rewrite !fn_lookup_insert.
Qed.

Lemma commit_run :
  0 < lh_n s < Z.of_nat NBUF →
  ∃ c', commit me s = (Ret (), set_lh_n 0 (set_bc c' s)) ∧ refines me c' a4 ∧
    log_ok me (set_lh_n 0 (set_bc c' s)) a4.
Proof using Hok Hidle.
  intros Hn. destruct lo_facts as (Hlen & Hl & Hnd & Hin & Hpl & Hap & Hst & Hnst & Hbn).
  assert (Hroom : (length (cpin a) < NBUF)%nat) by lia.
  assert (Hget : ∀ c j x, l !! j = Some x → lh_block (set_bc c s) !! j = Some x).
  { intros c j x Hj. simpl. by eapply prefix_lookup_Some; [|apply logged_prefix]. }
  assert (Hnl : Z.to_nat (lh_n s) = length l) by lia.
  pose proof (lo_dev _ _ _ Hok) as Hdev.
  unfold commit. pure_step. rewrite (proj2 (Z.ltb_lt 0 (lh_n s))) by lia.
  (* write_log *)
  destruct (write_log_loop me l 0 s a) as (c1 & E1 & Hr1); try done.
  { apply Hok. }
  { intros x. by rewrite Hin. }
  { by rewrite Z.add_0_r. }
  { apply (Hget (bc s)). }
  erewrite bind_run; [|unfold write_log; pure_step; rewrite Hnl; exact E1].
  replace (start s + Z.of_nat 0) with st in Hr1 by (unfold st; lia). fold a1 in Hr1.
  destruct (copies_keep (log_pairs st l) a) as [Hp1 Hh1]. fold a1 in Hp1, Hh1.
  (* write_head *)
  destruct (write_head_run me l (set_bc c1 s) a1) as (c2 & E2 & Hr2); try done.
  { by rewrite Hh1. }
  { by rewrite Hp1. }
  { by rewrite Hp1. }
  { apply logged_prefix. }
  erewrite bind_run; [|exact E2]. change (start (set_bc c1 s)) with st in Hr2. fold a2 in Hr2.
  (* install_trans *)
  destruct (install_loop me l 0 (set_bc c2 s) a2) as (c3 & E3 & Hr3); try done.
  { simpl. by rewrite Hh1. }
  { simpl. by rewrite Hp1. }
  { intros x Hx. simpl. rewrite Hp1. by apply Hin. }
  { simpl. rewrite Hp1. by rewrite Z.add_0_r. }
  { apply Hget. }
  { intros b Hb. simpl in Hb. cbn [a2 cv cd write_back store].
    rewrite !fn_lookup_insert_ne by (unfold st; lia).
    assert (Hbp : b ∉ cpin a1) by (rewrite Hp1; intros Hx; apply (Hap b Hx); unfold st; lia).
    apply (clean_block me c1 a1 Hr1); [done|]. rewrite Hh1, Hidle. apply not_elem_of_nil. }
  erewrite bind_run.
  2: { unfold install_trans. pure_step. change (lh_n (set_bc c2 (set_bc c1 s))) with (lh_n s).
       rewrite Hnl. exact E3. }
  replace (start (set_bc c2 s) + Z.of_nat 0) with st in Hr3 by (unfold st; simpl; lia). fold a3 in Hr3.
  pure_step. destruct commit_rest as (Hp4 & Hh4 & Hsz & Hhd).
  (* write_head *)
  assert (Hp3 : cpin a3 = []) by exact Hp4. assert (Hh3 : cheld a3 = []) by exact Hh4.
  destruct (write_head_run me [] (set_lh_n 0 (set_bc c3 s)) a3) as (c4 & E4 & Hr4); try done.
  { rewrite Hp3. apply not_elem_of_nil. }
  { rewrite Hp3. simpl. lia. }
  { apply prefix_nil. }
  exists c4. split; [exact E4|]. change (refines me c4 a4) in Hr4. split; [done|].
  split; try done; try (by apply Hok).
  - rewrite Hp4. done.
  - intros i bn. rewrite Hh4. by intros ?%elem_of_nil.
Qed.
End Commit.

(** ** Crashes

    The disk after some writes; a crash in a commit leaves the disk after some
    first part of its writes, each of one block as a whole. *)
Definition disk_after (ws : list (Z * block)) (d : Z → block) : Z → block :=
  fold_left (λ d w, <[w.1 := w.2]> d) ws d.

Lemma disk_after_app ws ws' d : disk_after (ws ++ ws') d = disk_after ws' (disk_after ws d).
Proof. apply fold_left_app. Qed.

Lemma disk_after_out ws d bn : bn ∉ fst <$> ws → disk_after ws d bn = d bn.
Proof.
  revert d. induction ws as [|[x v] ws IH]; intros d; [done|].
  cbn [fmap list_fmap fst disk_after fold_left]. intros [Hx Hws]%not_elem_of_cons.
  fold (disk_after ws (<[x:=v]> d)). rewrite IH by done. by rewrite fn_lookup_insert_ne.
Qed.

Lemma disk_after_in ws d bn v :
  NoDup (fst <$> ws) → (bn, v) ∈ ws → disk_after ws d bn = v.
Proof.
  revert d. induction ws as [|[x w] ws IH]; intros d; [by intros _ ?%elem_of_nil|].
  cbn [fmap list_fmap fst disk_after fold_left]. fold (disk_after ws (<[x:=w]> d)).
  intros [Hx Hnd]%NoDup_cons [[= -> ->]|Hin]%elem_of_cons; [|by apply IH].
  rewrite disk_after_out by done. by rewrite fn_lookup_insert.
Qed.

(** Outside the log area. *)
Definition outside_log (st bn : Z) : Prop := ¬ (st ≤ bn ≤ st + LOGBLOCKS).

Section Crash.
Context (me : Z) (s : log) (a : cache) (Hok : log_ok me s a) (Hidle : cheld a = []).
Context (d0 : Z → block) (Hd0 : ∀ bn, d0 bn = cd a bn).
Let l := logged s.
Let st := start s.

(** The writes to the log area, and those to the homes. *)
Let w1 := (λ p, (p.2, cv a p.1)) <$> log_pairs st l.
Let w2 := (λ x, (x, cv a x)) <$> l.

Lemma w1_range bn : bn ∈ fst <$> w1 → st < bn ≤ st + Z.of_nat (length l).
Proof using Type.
  unfold w1. rewrite <-list_fmap_compose. change (fst ∘ _) with (@snd Z Z). apply log_pairs_range.
Qed.

Lemma w2_fst : fst <$> w2 = l.
Proof using Type. unfold w2. rewrite <-list_fmap_compose. apply list_fmap_id. Qed.

(** A disk whose homes are [V] and whose header is empty recovers to [V]. *)
Lemma recover_clean d :
  i32 (le_get 4 0 (d st)) = 0 → length (d st) = BSIZE →
  ∃ s', initlog me ROOTDEV st (boot d) = (Ret (), s') ∧
    (∀ bn, bn ≠ st → view (bc s') bn = d bn ∧ disk (bc s') bn = d bn).
Proof using Type.
  intros Hn Hlen. destruct (recover_run me st d) as (s' & E & Hr & _).
  { lia. }
  { unfold header_list. rewrite Hn. simpl. lia. }
  { unfold header_list. rewrite Hn. constructor. }
  exists s'. split; [done|]. intros bn Hne.
  rewrite (rf_view _ _ _ Hr), (rf_disk _ _ _ Hr). cbn [cv cd write_back store].
  rewrite !fn_lookup_insert_ne by done. unfold header_list. rewrite Hn. done.
Qed.

(** Before the header is written the homes are untouched and the log is empty. *)
Lemma crash_before k bn :
  outside_log st bn ∨ bn = st → disk_after (take k w1) d0 bn = d0 bn.
Proof using Hok.
  destruct (lo_facts me s a Hok) as (_ & Hl & _). intros Hb. apply disk_after_out.
  intros (x & -> & Hx%list_elem_of_lookup)%list_elem_of_fmap.
  destruct Hx as [i [Hi _]%lookup_take_Some]. apply list_elem_of_lookup_2 in Hi.
  assert (Hr : st < x.1 ≤ st + Z.of_nat (length l)) by (apply w1_range, list_elem_of_fmap; by exists x).
  unfold outside_log, l in *. destruct Hb as [Hb|Hb]; lia.
Qed.

(** After the header is written, whatever part of the installation is done, the
    log holds the transaction. *)
Lemma crash_after k bn :
  let d := disk_after (take k w2) (disk_after (w1 ++ [(st, header l (cv a st))]) d0) in
  d st = header l (cv a st) ∧
  (∀ j x, l !! j = Some x → d (st + Z.of_nat j + 1) = cv a x) ∧
  (bn ∉ l → outside_log st bn → d bn = d0 bn).
Proof using Hok.
  destruct (lo_facts me s a Hok) as (Hlen & Hl & Hnd & Hin & Hpl & Hap & Hst & Hnst & Hbn).
  fold l in Hl, Hnd, Hin, Hap, Hnst. fold st in Hap, Hst, Hnst.
  assert (Hout : ∀ x d, x ∉ l → disk_after (take k w2) d x = d x).
  { intros x d Hx. apply disk_after_out.
    intros (y & -> & Hy%list_elem_of_lookup)%list_elem_of_fmap.
    destruct Hy as [i [Hi _]%lookup_take_Some]. apply list_elem_of_lookup_2 in Hi.
    apply Hx. rewrite <-w2_fst. apply list_elem_of_fmap. by exists y. }
  cbv zeta. split; [|split].
  - rewrite Hout by (intros Hx; by apply (Hnst st)). rewrite disk_after_app. simpl.
    by rewrite fn_lookup_insert.
  - intros j x Hj. pose proof (lookup_lt_Some _ _ _ Hj) as Hjl.
    rewrite Hout by (intros Hx%Hin; apply (Hap _ Hx); lia).
    rewrite disk_after_app. simpl. rewrite fn_lookup_insert_ne by lia. apply disk_after_in.
    + unfold w1. rewrite <-list_fmap_compose. change (fst ∘ _) with (@snd Z Z). apply log_pairs_NoDup.
    + apply list_elem_of_fmap. exists (x, st + Z.of_nat j + 1). split; [done|].
      apply log_pairs_elem. by exists j.
  - intros Hx Ho. rewrite Hout by done. rewrite disk_after_app. simpl.
    unfold outside_log, LOGBLOCKS, MAXOPBLOCKS in *. rewrite fn_lookup_insert_ne by lia.
    apply disk_after_out. intros Hr%w1_range. lia.
Qed.

Lemma view_clean bn : bn ∉ l → cv a bn = d0 bn.
Proof using Hok Hidle Hd0.
  intros Hx. rewrite Hd0.
  apply (clean_block me (bc s) a (lo_ref _ _ _ Hok)).
  - destruct (lo_facts me s a Hok) as (_ & _ & _ & Hin & _). by rewrite <-Hin.
  - rewrite Hidle. apply not_elem_of_nil.
Qed.

Lemma recover_new d :
  d st = header l (cv a st) → (∀ j x, l !! j = Some x → d (st + Z.of_nat j + 1) = cv a x) →
  (∀ bn, bn ∉ l → outside_log st bn → d bn = d0 bn) →
  ∃ s', initlog me ROOTDEV st (boot d) = (Ret (), s') ∧
    (∀ bn, outside_log st bn → view (bc s') bn = cv a bn ∧ disk (bc s') bn = cv a bn).
Proof using Hok Hidle Hd0.
  intros Hd Hlog Hout. destruct (lo_facts me s a Hok) as (Hlen & Hl & Hnd & Hin & Hpl & Hap & Hst & Hnst & Hbn).
  fold l in Hl, Hnd, Hin, Hap, Hnst, Hbn. fold st in Hap, Hst, Hnst.
  destruct (header_roundtrip l (cv a st) (lo_size _ _ _ Hok st) Hl Hbn) as (_ & Hhl & Hhn).
  destruct (recover_run me st d) as (s' & E & Hr & _).
  { rewrite Hd, Hhn. lia. }
  { by rewrite Hd, Hhl. }
  { rewrite Hd, Hhl. apply Hok. }
  exists s'. split; [done|]. intros bn Ho. rewrite Hd, Hhl in Hr.
  assert (Hne : bn ≠ st) by (unfold outside_log, LOGBLOCKS, MAXOPBLOCKS in Ho; lia).
  rewrite (rf_view _ _ _ Hr), (rf_disk _ _ _ Hr). cbn [cv cd write_back store].
  rewrite !fn_lookup_insert_ne by done. destruct (decide (bn ∈ l)) as [Hx|Hx].
  - apply list_elem_of_lookup in Hx as [j Hj].
    destruct (copies_copied (swap (log_pairs st l)) (booted d)) as [Hc _].
    { by rewrite swap_snd, log_pairs_fst. }
    { intros x. rewrite swap_fst, swap_snd, log_pairs_fst. intros Hx%log_pairs_range Hx2%Hin. by apply (Hap x). }
    destruct (Hc (st + Z.of_nat j + 1) bn) as [-> ->];
      [|change (cv (booted d)) with d; by rewrite (Hlog j bn)].
    unfold swap. apply list_elem_of_fmap. exists (bn, st + Z.of_nat j + 1). split; [done|].
    apply log_pairs_elem. by exists j.
  - destruct (copies_same (swap (log_pairs st l)) (booted d) bn) as [-> ->]; [by rewrite swap_snd, log_pairs_fst|].
    cbn [cv cd booted]. rewrite (Hout bn Hx Ho), (view_clean bn Hx). done.
Qed.

Lemma header_clean : i32 (le_get 4 0 (d0 st)) = 0.
Proof using Hok Hd0. rewrite Hd0. apply (lo_header _ _ _ Hok). Qed.

Lemma take_commit k :
  let h := (st, header l (cv a st)) in let h0 := (st, header [] (header l (cv a st))) in
  let ws := commit_writes st l (cv a) in
  ((k < length ws)%nat ∧ take k ws = take k w1) ∨
  (∃ j, (k < length ws)%nat ∧ take k ws = (w1 ++ [h]) ++ take j w2) ∨
  take k ws = (w1 ++ [h]) ++ w2 ++ [h0].
Proof using Type.
  cbv zeta. unfold commit_writes. fold w1. fold w2.
  destruct (decide (k ≤ length w1)%nat) as [Hk|Hk].
  { left. rewrite take_app_le by done. split; [|done]. rewrite length_app. simpl. lia. }
  right. rewrite take_app. rewrite (take_ge w1) by lia. rewrite length_app. cbn [app length].
  rewrite length_app. simpl (length [_]). destruct (k - length w1)%nat as [|k2] eqn:E; [lia|].
  destruct (decide (k2 ≤ length w2)%nat) as [Hk1|Hk1]; [left|right].
  - exists k2. split; [lia|]. cbn [app take]. rewrite take_app_le by lia. by rewrite <-app_assoc.
  - rewrite take_ge by (simpl; rewrite length_app; simpl; lia). by rewrite <-app_assoc.
Qed.

Lemma crash_end :
  let ws := (w1 ++ [(st, header l (cv a st))]) ++ w2 ++ [(st, header [] (header l (cv a st)))] in
  i32 (le_get 4 0 (disk_after ws d0 st)) = 0 ∧ length (disk_after ws d0 st) = BSIZE ∧
  ∀ bn, outside_log st bn → disk_after ws d0 bn = cv a bn.
Proof using Hok Hidle Hd0.
  destruct (lo_facts me s a Hok) as (_ & Hl & Hnd & _ & _ & _ & _ & Hnst & Hbn). fold l in Hl, Hnd, Hnst, Hbn.
  destruct (header_roundtrip l (cv a st) (lo_size _ _ _ Hok st) Hl Hbn) as (Hlen & _ & _).
  destruct (header_roundtrip [] (header l (cv a st)) Hlen) as (Hlen0 & _ & Hn0); [simpl; lia|done|].
  cbv zeta. rewrite (disk_after_app (w1 ++ _)), (disk_after_app w2). cbn [disk_after fold_left fst snd].
  rewrite !fn_lookup_insert. split; [done|]. split; [done|]. intros bn Ho.
  fold (disk_after w2 (disk_after (w1 ++ [(st, header l (cv a st))]) d0)).
  rewrite fn_lookup_insert_ne by (unfold outside_log, LOGBLOCKS, MAXOPBLOCKS in Ho; lia).
  destruct (decide (bn ∈ l)) as [Hx|Hx].
  - apply disk_after_in; [by rewrite w2_fst|]. apply list_elem_of_fmap. by exists bn.
  - destruct (crash_after (length w2) bn) as (_ & _ & Hc). rewrite take_ge in Hc by lia.
    rewrite Hc by done. by rewrite view_clean.
Qed.

Lemma commit_recovers k :
  let ws := if 0 <? lh_n s then commit_writes st l (cv a) else [] in
  ∃ s2, initlog me ROOTDEV st (boot (disk_after (take k ws) d0)) = (Ret (), s2) ∧
    ((∀ bn, outside_log st bn → view (bc s2) bn = d0 bn) ∨
     (∀ bn, outside_log st bn → view (bc s2) bn = cv a bn)) ∧
    ((length ws ≤ k)%nat → ∀ bn, outside_log st bn → view (bc s2) bn = cv a bn).
Proof using Hok Hidle Hd0.
  assert (Hst : ∀ bn, outside_log st bn → bn ≠ st)
    by (unfold outside_log, LOGBLOCKS, MAXOPBLOCKS; intros bn H; lia).
  assert (Hsz : length (d0 st) = BSIZE).
  { destruct (lo_facts me s a Hok) as (_ & _ & _ & _ & _ & _ & _ & Hnst & _).
    rewrite <-view_clean; [apply (lo_size _ _ _ Hok)|]. intros Hx. by apply (Hnst st). }
  destruct (lo_facts me s a Hok) as (Hlen & _). fold l in Hlen.
  cbv zeta. destruct (0 <? lh_n s) eqn:En.
  2: { apply Z.ltb_ge in En. assert (Hl0 : l = []) by (destruct l; [done|simpl in Hlen; lia]).
       rewrite take_nil. destruct (recover_clean d0 header_clean Hsz) as (s2 & E & Hv).
       exists s2. split; [done|].
       assert (Hvc : ∀ bn, outside_log st bn → view (bc s2) bn = cv a bn).
       { intros bn Ho. rewrite (proj1 (Hv bn (Hst bn Ho))). symmetry. apply view_clean. rewrite Hl0.
         apply not_elem_of_nil. }
       split; [by right|by intros _]. }
  destruct (take_commit k) as [[Hk ->]|[(j & Hk & ->)| ->]].
  - destruct (recover_clean (disk_after (take k w1) d0)) as (s2 & E & Hv).
    { rewrite crash_before by (by right). apply header_clean. }
    { by rewrite crash_before by (by right). }
    exists s2. split; [done|]. split; [left|lia]. intros bn Ho.
    rewrite (proj1 (Hv bn (Hst bn Ho))). apply crash_before. by left.
  - destruct (crash_after j st) as (H1 & H2 & _).
    destruct (recover_new (disk_after (take j w2) (disk_after (w1 ++ [(st, header l (cv a st))]) d0)) H1 H2)
      as (s2 & E & Hv).
    { intros bn Hx Ho. by apply (crash_after j bn). }
    rewrite disk_after_app. exists s2. split; [done|]. split; [right|lia]. intros bn Ho. by apply Hv.
  - destruct crash_end as (H1 & H2 & H3). destruct (recover_clean _ H1 H2) as (s2 & E & Hv).
    exists s2. split; [exact E|].
    assert (Hvc : ∀ bn, outside_log st bn → view (bc s2) bn = cv a bn).
    { intros bn Ho. rewrite (proj1 (Hv bn (Hst bn Ho))). by apply H3. }
    split; [by right|by intros _].
Qed.
End Crash.

Lemma commit_summary me s a :
  log_ok me s a → cheld a = [] → lh_n s < Z.of_nat NBUF →
  ∃ s' a', commit me s = (Ret (), s') ∧ log_ok me s' a' ∧ cheld a' = [] ∧ lh_n s' = 0 ∧
    (start s' = start s ∧ outstanding s' = outstanding s ∧ committing s' = committing s ∧
     ncommit s' = ncommit s) ∧
    cwrites a' = cwrites a ++ (if 0 <? lh_n s then commit_writes (start s) (logged s) (cv a) else []) ∧
    (∀ bn, outside_log (start s) bn → cv a' bn = cv a bn ∧ cd a' bn = cv a bn).
Proof.
  intros Hok Hidle Hn. destruct (0 <? lh_n s) eqn:En.
  - apply Z.ltb_lt in En. destruct (commit_run me s a Hok Hidle (conj En Hn)) as (c & E & Hr & Hok').
    eexists _, _. split; [exact E|]. split; [exact Hok'|].
    split; [apply (commit_rest me s a Hok Hidle)|]. do 2 (split; [done|]).
    split; [apply (commit_writes_spec me s a Hok)|]. intros bn Ho.
    destruct (commit_views me s a Hok bn) as [H1 H2]. destruct (decide (bn ∈ logged s)) as [Hx|Hx]; [by apply H1|].
    assert (Hlen := logged_length s (lo_n _ _ _ Hok) (lo_len _ _ _ Hok)).
    pose proof (lo_n _ _ _ Hok) as Hn0. unfold outside_log in Ho. destruct (H2 Hx) as [-> ->]; [lia|].
    split; [done|]. symmetry. by apply (view_clean me s a Hok Hidle (cd a)).
  - apply Z.ltb_ge in En. pose proof (lo_n _ _ _ Hok) as Hn0. assert (E0 : lh_n s = 0) by lia.
    exists s, a. split; [unfold commit; msimpl; rewrite E0; done|]. do 4 (split; [done|]).
    rewrite app_nil_r. split; [done|]. intros bn Ho. split; [done|]. symmetry.
    apply (view_clean me s a Hok Hidle (cd a)); [done|].
    unfold logged. rewrite E0. apply not_elem_of_nil.
Qed.

(** The log between two system calls: no block is held. *)
Definition log_idle (me : Z) (s : log) : Prop := ∃ a, log_ok me s a ∧ cheld a = [].

(** A transaction is atomic and durable. From a state in which at most 29
    blocks are logged, [commit] returns, and if the machine crashes in the course of
    it, with any first part of its writes on the disk, then [initlog] on
    the next boot leaves either every block outside the log as it was on the disk
    before the commit, or every block as the transaction has it; once all is
    written, the latter. *)
Theorem commit_crash_atomic me s :
  log_idle me s → lh_n s < Z.of_nat NBUF →
  ∃ s' ws, commit me s = (Ret (), s') ∧ log_idle me s' ∧ lh_n s' = 0 ∧
    writes (bc s') = writes (bc s) ++ ws ∧
    (∀ bn, outside_log (start s) bn → view (bc s') bn = view (bc s) bn ∧
      disk (bc s') bn = view (bc s) bn) ∧
    ∀ k, ∃ s2, initlog me ROOTDEV (start s) (boot (disk_after (take k ws) (disk (bc s)))) = (Ret (), s2) ∧
      ((∀ bn, outside_log (start s) bn → view (bc s2) bn = disk (bc s) bn) ∨
       (∀ bn, outside_log (start s) bn → view (bc s2) bn = view (bc s) bn)) ∧
      ((length ws ≤ k)%nat → ∀ bn, outside_log (start s) bn → view (bc s2) bn = view (bc s) bn).
Proof.
  intros (a & Hok & Hidle) Hn. pose proof (rf_view _ _ _ (lo_ref _ _ _ Hok)) as Hrv.
  pose proof (rf_writes _ _ _ (lo_ref _ _ _ Hok)) as Hrw.
  destruct (commit_summary me s a Hok Hidle Hn) as (s' & a' & E & Hok' & Hidle' & Hn' & _ & Hw & Hv).
  pose proof (lo_ref _ _ _ Hok') as Hr'.
  eexists s', _. split; [done|]. split; [by exists a'|]. split; [done|].
  split; [by rewrite (rf_writes _ _ _ Hr'), Hw, Hrw|]. split.
  { intros bn Ho. rewrite (rf_view _ _ _ Hr'), (rf_disk _ _ _ Hr'), Hrv. by apply Hv. }
  intros k. destruct (commit_recovers me s a Hok Hidle (disk (bc s)) (rf_disk _ _ _ (lo_ref _ _ _ Hok)) k)
    as (s2 & E2 & Hor & Hend).
  exists s2. split; [done|]. split.
  - destruct Hor as [?|Hor]; [by left|right]. intros bn Ho. rewrite Hrv. by apply Hor.
  - intros Hk bn Ho. rewrite Hrv. by apply Hend.
Qed.

(** ** Transactions *)
Lemma find_block_spec bn l n :
  (n ≤ length l)%nat → ∀ i,
  (bn ∈ take n l → ∃ j, find_block bn l i n = (i + j)%nat ∧ (j < n)%nat ∧ l !! j = Some bn) ∧
  (bn ∉ take n l → find_block bn l i n = (i + n)%nat).
Proof.
  revert n. induction l as [|x l IH]; intros n Hn i; [simpl in Hn; destruct n; [|lia]|destruct n as [|n]].
  - split; [by intros ?%elem_of_nil|]. intros _. simpl. lia.
  - split; [by intros ?%elem_of_nil|]. intros _. simpl. lia.
  - cbn [take find_block]. simpl in Hn. destruct (x =? bn) eqn:E.
    + apply Z.eqb_eq in E as ->. split; [|intros H; destruct H; left].
      intros _. exists 0%nat. split; [lia|]. split; [lia|done].
    + apply Z.eqb_neq in E. destruct (IH n ltac:(lia) (S i)) as [H1 H2]. split.
      * intros [->|Hin]%elem_of_cons; [done|]. destruct (H1 Hin) as (j & -> & Hj & Hl).
        exists (S j). split; [lia|]. split; [lia|done].
      * intros [_ Hin]%not_elem_of_cons. rewrite (H2 Hin). lia.
Qed.

Definition same_control (s s' : log) : Prop :=
  start s' = start s ∧ outstanding s' = outstanding s ∧ committing s' = committing s ∧
  ncommit s' = ncommit s.

Lemma log_write_spec me s a i bn :
  log_ok me s a → (i, bn) ∈ cheld a → 1 ≤ outstanding s → lh_n s < LOGBLOCKS →
  ∃ s' a', log_write i s = (Ret (), s') ∧ log_ok me s' a' ∧ cv a' = cv a ∧ cd a' = cd a ∧
    cheld a' = cheld a ∧ cwrites a' = cwrites a ∧ same_control s s' ∧ bn ∈ cpin a' ∧
    logged s' = (if decide (bn ∈ logged s) then logged s else logged s ++ [bn]) ∧
    (∀ x, x ∈ cpin a → x ∈ cpin a').
Proof.
  intros Hok Hin Ho Hn. destruct (held_buf me _ _ (lo_ref _ _ _ Hok) i bn Hin) as (b & (Hb & Hd & Hbn) & _).
  pose proof (lo_n _ _ _ Hok) as Hn0. pose proof (lo_len _ _ _ Hok) as Hlen.
  pose proof (lo_pins _ _ _ Hok) as Hpins.
  destruct (find_block_spec bn (lh_block s) (Z.to_nat (lh_n s)) ltac:(lia) 0) as [Hf1 Hf2].
  assert (Hrun : log_write i s =
    (let k := find_block bn (lh_block s) 0 (Z.to_nat (lh_n s)) in
     set_lh_at k bn;;
     if Z.of_nat k =? lh_n s then lift (bpin i);; modify (set_lh_n (lh_n s + 1)) else mret ()) s).
  { unfold log_write. pure_step. change (id s) with s. rewrite (proj2 (Z.leb_gt _ _)) by done.
    rewrite (proj2 (Z.ltb_ge _ _)) by lia.
    erewrite bind_run; [|apply lift_run; unfold get_buf; rewrite Hb; reflexivity].
    rewrite Hbn, set_bc_bc. done. }
  rewrite Hrun. cbv zeta. case_decide as Hl.
  - destruct (Hf1 Hl) as (j & -> & Hj & Hlj). rewrite Nat.add_0_l. exists s, a.
    assert (Hsame : <[j := bn]> (lh_block s) = lh_block s) by (by apply list_insert_id).
    split.
    { erewrite bind_run.
      2: { unfold set_lh_at. msimpl. rewrite (proj2 (Nat.ltb_lt _ _)) by lia. rewrite Hsame. reflexivity. }
      rewrite (proj2 (Z.eqb_neq _ _)) by lia. by destruct s. }
    do 5 (split; [done|]). split; [done|]. split; [by rewrite Hpins|done].
  - rewrite (Hf2 Hl). rewrite Nat.add_0_l. set (k := Z.to_nat (lh_n s)) in *.
    assert (Hp : bn ∉ cpin a) by (by rewrite Hpins).
    set (s1 := set_lh_block (<[k := bn]> (lh_block s)) s).
    destruct (bpin_refines me (bc s1) a i bn (lo_ref _ _ _ Hok) Hin Hp) as (c' & E & Hr).
    set (s' := set_lh_n (lh_n s + 1) (set_bc c' s1)). exists s', (pin bn a).
    assert (Hlog : logged s' = logged s ++ [bn]).
    { unfold logged. cbn [s' lh_n lh_block set_lh_n set_bc s1 set_lh_block].
      replace (Z.to_nat (lh_n s + 1)) with (S k) by lia.
      rewrite (take_S_r _ _ bn) by (apply list_lookup_insert_eq; lia). f_equal.
      by rewrite take_insert_ge by lia. }
    split.
    { erewrite bind_run.
      2: { unfold set_lh_at. msimpl. rewrite (proj2 (Nat.ltb_lt _ _)) by lia. reflexivity. }
      fold s1. rewrite (proj2 (Z.eqb_eq _ _)) by lia. lift_step E. done. }
    split.
    { destruct Hok as [L1 L2 L3 L4 L5 L6 L7 L8 L9 L10]. split; try done.
      - cbn. unfold LOGBLOCKS, MAXOPBLOCKS in *. lia.
      - cbn. by rewrite length_insert.
      - rewrite Hlog. cbn [pin cpin]. rewrite L5. rewrite Permutation_app_comm. done.
      - rewrite Hlog. apply Forall_app. split; [done|]. constructor; [by apply (L7 i)|constructor]. }
    do 4 (split; [done|]). split; [done|]. split; [left|]. split; [done|]. intros x Hx. by right.
Qed.

(** What a file system function does to a block: [bread], change the data,
    [log_write], [brelse]. *)
Definition log_update (me : Z) (bn : Z) (f : block → block) : L () :=
  b ← lift (bread me ROOTDEV bn);
  d ← lift (bdata b);
  lift (set_bdata b (f d));;
  log_write b;;
  lift (brelse me b).

Lemma log_update_spec me s a bn f :
  log_ok me s a → cheld a = [] → 1 ≤ outstanding s → lh_n s < LOGBLOCKS → home_ok (start s) bn →
  (length (f (cv a bn)) = BSIZE) → (lh_n s < Z.of_nat NBUF) →
  ∃ s' a', log_update me bn f s = (Ret (), s') ∧ log_ok me s' a' ∧ cheld a' = [] ∧
    cv a' = <[bn := f (cv a bn)]> (cv a) ∧ cd a' = cd a ∧ cwrites a' = cwrites a ∧ same_control s s' ∧
    lh_n s ≤ lh_n s' ≤ lh_n s + 1.
Proof.
  intros Hok Hh Ho Hn Hhome Hf Hroom.
  pose proof (logged_length s (lo_n _ _ _ Hok) (lo_len _ _ _ Hok)) as Hll.
  assert (Hpl : Z.of_nat (length (cpin a)) = lh_n s) by (by rewrite (lo_pins _ _ _ Hok)).
  destruct (bread_refines me _ a bn (lo_ref _ _ _ Hok)) as (i & c1 & E1 & Hr1);
    [rewrite Hh; apply not_elem_of_nil|right; rewrite Hh; simpl; lia|].
  assert (Hi : (i, bn) ∈ cheld (hold i bn a)) by left.
  destruct (set_bdata_refines me c1 _ i bn (f (cv a bn)) Hr1 Hi) as (c2 & E2 & Hr2).
  set (a2 := store bn (f (cv a bn)) (hold i bn a)) in *.
  assert (Hok2 : log_ok me (set_bc c2 s) a2).
  { destruct Hok as [L1 L2 L3 L4 L5 L6 L7 L8 L9 L10]. split; try done.
    - intros j x. cbn [a2 cheld store hold]. rewrite Hh. by intros [= -> ->]%list_elem_of_singleton.
    - intros x. cbn [a2 cv store hold]. destruct (decide (x = bn)) as [->|];
        by rewrite ?fn_lookup_insert, ?fn_lookup_insert_ne. }
  destruct (log_write_spec me _ a2 i bn Hok2 Hi Ho Hn) as (s3 & a3 & E3 & Hok3 & Hv3 & Hd3 & Hh3 & Hw3 & Hc3 & Hp3 & Hl3 & _).
  destruct (brelse_refines me _ a3 i bn (lo_ref _ _ _ Hok3)) as (c4 & E4 & Hr4); [by rewrite Hh3|by left|].
  exists (set_bc c4 s3), (release i bn a3).
  assert (Hheld : cheld (release i bn a3) = []).
  { cbn [release cheld]. rewrite Hh3. cbn [a2 cheld store hold]. rewrite Hh, filter_cons, decide_False by naive_solver. done. }
  split.
  { unfold log_update. lift_step E1. lift_step (bdata_refines me _ _ _ _ Hr1 Hi). lift_step E2.
    erewrite bind_run; [|exact E3]. apply lift_run. exact E4. }
  split.
  { destruct Hok3 as [L1 L2 L3 L4 L5 L6 L7 L8 L9 L10]. split; try done.
    intros j x. rewrite Hheld. by intros ?%elem_of_nil. }
  split; [done|]. split; [exact Hv3|]. split; [exact Hd3|]. split; [exact Hw3|]. split; [exact Hc3|].
  pose proof (logged_length s3 (lo_n _ _ _ Hok3) (lo_len _ _ _ Hok3)) as Hll3.
  cbn [lh_n set_bc]. rewrite <-Hll3, Hl3. change (logged (set_bc c2 s)) with (logged s).
  destruct (decide (bn ∈ logged s)); rewrite ?length_app; simpl; lia.
Qed.

Fixpoint log_updates (me : Z) (us : list (Z * (block → block))) : L () :=
  match us with
  | [] => mret ()
  | (bn, f) :: us => log_update me bn f;; log_updates me us
  end.

(** A file system call that changes the blocks [us]. *)
Definition fs_op (me : Z) (us : list (Z * (block → block))) : L () :=
  begin_op;; log_updates me us;; end_op me.

(** What it makes of the contents. *)
Definition updated (us : list (Z * (block → block))) (V : Z → block) : Z → block :=
  fold_left (λ V u, <[u.1 := u.2 (V u.1)]> V) us V.

Lemma log_updates_spec me us s a :
  log_ok me s a → cheld a = [] → 1 ≤ outstanding s →
  lh_n s + Z.of_nat (length us) ≤ LOGBLOCKS → lh_n s + Z.of_nat (length us) ≤ Z.of_nat NBUF →
  Forall (λ u, home_ok (start s) u.1 ∧ ∀ d, length d = BSIZE → length (u.2 d) = BSIZE) us →
  ∃ s' a', log_updates me us s = (Ret (), s') ∧ log_ok me s' a' ∧ cheld a' = [] ∧
    cv a' = updated us (cv a) ∧ cd a' = cd a ∧ cwrites a' = cwrites a ∧ same_control s s' ∧
    lh_n s' ≤ lh_n s + Z.of_nat (length us).
Proof.
  revert s a. induction us as [|[bn f] us IH]; intros s a Hok Hh Ho Hn Hb Hus.
  { exists s, a. do 6 (split; [done|]). split; [done|simpl; lia]. }
  apply Forall_cons in Hus as [[Hhome Hf] Hus]. cbn [length fst snd] in *.
  destruct (log_update_spec me s a bn f Hok Hh Ho) as (s1 & a1 & E1 & Hok1 & Hh1 & Hv1 & Hd1 & Hw1 & Hc1 & Hn1);
    [lia|done|apply Hf, (lo_size _ _ _ Hok)|lia|].
  destruct Hc1 as (C1 & C2 & C3 & C4).
  destruct (IH s1 a1 Hok1 Hh1) as (s2 & a2 & E2 & Hok2 & Hh2 & Hv2 & Hd2 & Hw2 & Hc2 & Hn2);
    [by rewrite C2|lia|lia|by rewrite C1|].
  destruct Hc2 as (D1 & D2 & D3 & D4). exists s2, a2.
  split; [cbn [log_updates]; erewrite bind_run; [exact E2|exact E1]|]. do 2 (split; [done|]).
  split; [by rewrite Hv2, Hv1|]. split; [by rewrite Hd2|]. split; [by rewrite Hw2|].
  split; [|lia]. repeat split; congruence.
Qed.

(** The counters of the operations do not matter to the invariant. *)
Lemma log_ok_ext me s s' a :
  log_ok me s a → bc s' = bc s → dev s' = dev s → start s' = start s → lh_n s' = lh_n s →
  lh_block s' = lh_block s → log_ok me s' a.
Proof.
  intros [L1 L2 L3 L4 L5 L6 L7 L8 L9 L10] Hb Hd Hs Hn Hl.
  assert (E : logged s' = logged s) by (unfold logged; by rewrite Hn, Hl).
  split; rewrite ?Hb, ?Hd, ?Hs, ?Hn, ?Hl, ?E; done.
Qed.

(** The log is quiet: no transaction is open and nothing is logged. *)
Record quiet (me : Z) (s : log) : Prop := {
  q_idle : log_idle me s;
  q_n : lh_n s = 0;
  q_out : outstanding s = 0;
  q_commit : committing s = false
}.


(** ** Boot *)
Lemma initlog_quiet me st d :
  0 ≤ st → (∀ bn, length (d bn) = BSIZE) → 0 ≤ i32 (le_get 4 0 (d st)) →
  (length (header_list (d st)) ≤ Z.to_nat LOGBLOCKS)%nat → Forall (home_ok st) (header_list (d st)) →
  ∃ s', initlog me ROOTDEV st (boot d) = (Ret (), s') ∧ quiet me s' ∧ start s' = st.
Proof.
  intros Hst Hsz Hn Hl Hh. destruct (recover_run me st d Hn Hl Hh) as (s' & E & Hr & H1 & H2 & H3 & H4 & H5 & H6).
  exists s'. split; [done|]. split; [|done].
  set (a := copies (swap (log_pairs st (header_list (d st)))) (booted d)) in *.
  assert (Ha : sized a) by (by apply copies_sized).
  destruct (copies_keep (swap (log_pairs st (header_list (d st)))) (booted d)) as [Hp Hheld]. fold a in Hp, Hheld.
  destruct (header_roundtrip [] (cv a st) (Ha st)) as (Hlen0 & _ & H0); [simpl; lia|done|].
  split; [|done|done|done].
  exists (write_back st (store st (header [] (cv a st)) a)). split; [|exact Hheld]. split; try done.
  - rewrite H3. unfold LOGBLOCKS, MAXOPBLOCKS. lia.
  - cbn [cpin write_back store]. rewrite Hp. unfold logged. by rewrite H3.
  - unfold logged. rewrite H3. constructor.
  - cbn [cheld write_back store]. rewrite Hheld. by intros i bn ?%elem_of_nil.
  - by apply store_sized.
  - rewrite H1. cbn [cd write_back store cv]. by rewrite !fn_lookup_insert.
  - by rewrite H1.
Qed.

Definition ex_disk : Z → block := λ _, replicate BSIZE 0.
Definition ex_quiet : log := snd (initlog 1 ROOTDEV 2 (boot ex_disk)).
Definition ex_updates : list (Z * (block → block)) :=
  [(50, λ _, replicate BSIZE 7); (60, splice 3 [9]); (50, splice 0 [8])].

Lemma ex_quiet_ok : quiet 1 ex_quiet ∧ start ex_quiet = 2.
Proof.
  assert (H0 : i32 (le_get 4 0 (ex_disk 2)) = 0) by (vm_compute; reflexivity).
  assert (Hl : header_list (ex_disk 2) = []) by (unfold header_list; by rewrite H0).
  destruct (initlog_quiet 1 2 ex_disk) as (s' & E & Hq & Hs).
  - done.
  - intros bn. unfold ex_disk. by rewrite length_replicate.
  - by rewrite H0.
  - rewrite Hl. simpl. lia.
  - rewrite Hl. constructor.
  - unfold ex_quiet. by rewrite E.
Qed.

Lemma ex_updates_ok st :
  st = 2 → Forall (λ u, home_ok st u.1 ∧ ∀ d, length d = BSIZE → length (u.2 d) = BSIZE) ex_updates.
Proof.
  intros ->. unfold ex_updates, home_ok, is_blockno, LOGBLOCKS, MAXOPBLOCKS.
  repeat constructor; try (simpl; lia); intros d Hd; cbn [snd].
  - rewrite length_splice; [done|]. rewrite Hd. simpl. unfold BSIZE. lia.
  - rewrite length_splice; [done|]. rewrite Hd. simpl. unfold BSIZE. lia.
Qed.


Lemma commit_crash_atomic_witness :
  let s := snd (log_updates 1 ex_updates (snd (begin_op ex_quiet))) in
  ∃ s' ws, commit 1 s = (Ret (), s') ∧ lh_n s' = 0 ∧ writes (bc s') = writes (bc s) ++ ws ∧
    ∃ s2, initlog 1 ROOTDEV (start s) (boot (disk_after (take 4 ws) (disk (bc s)))) = (Ret (), s2).
Proof.
  destruct ex_quiet_ok as [[(a & Hok & Hh) Hn Ho Hc] Hs].
  assert (E1 : begin_op ex_quiet = (Ret (), set_outstanding 1 ex_quiet))
    by (unfold begin_op; msimpl; rewrite Hc, Hn, Ho; done).
  assert (Hok1 : log_ok 1 (set_outstanding 1 ex_quiet) a) by (by eapply log_ok_ext; [exact Hok|..]).
  destruct (log_updates_spec 1 ex_updates _ a Hok1 Hh) as (s2 & a2 & E2 & Hok2 & Hh2 & _ & _ & _ & _ & Hn2).
  { cbn. lia. }
  { cbn [lh_n set_outstanding]. rewrite Hn. vm_compute. congruence. }
  { cbn [lh_n set_outstanding]. rewrite Hn. vm_compute. congruence. }
  { by apply ex_updates_ok. }
  rewrite E1. cbn [snd]. rewrite E2. cbn [snd].
  destruct (commit_crash_atomic 1 s2) as (s' & ws & E & _ & Hn' & Hw & _ & Hcr).
  - exists a2. split; [exact Hok2|exact Hh2].
  - cbn [lh_n set_outstanding] in Hn2. rewrite Hn in Hn2.
    eapply Z.le_lt_trans; [exact Hn2|]. vm_compute. reflexivity.
  - exists s', ws. split; [exact E|]. split; [exact Hn'|]. split; [exact Hw|].
    destruct (Hcr 4%nat) as (s3 & E3 & _). by exists s3.
Defined.
