(* ===== verification/LogSpace.v ===== *)
(** * Space in the log (xv6/kernel/log.c, param.h)

    Several file system calls share one transaction.  [begin_op] reserves
    MAXOPBLOCKS blocks for each, so that none of them can overflow the log;
    and what happens when the log does fill up. *)

From stdpp Require Import relations.
From S2P Require Import Log.

#[local] Set Warnings "-clear-no-such-hyp".
#[local] Set Default Proof Using "Type".
Local Open Scope Z_scope.

(** ** The counters outside of the header are kept *)
Definition same_header (s s' : log) : Prop :=
  outstanding s' = outstanding s ∧ lh_n s' = lh_n s ∧ committing s' = committing s.

Definition keeps {A} (m : L A) : Prop := ∀ s, same_header s (snd (m s)).

Lemma same_header_trans s1 s2 s3 : same_header s1 s2 → same_header s2 s3 → same_header s1 s3.
Proof. unfold same_header. intros (?&?&?) (?&?&?). repeat split; congruence. Qed.

Lemma keeps_lift {A} (m : B A) : keeps (lift m).
Proof. intros s. unfold lift. by destruct (m (bc s)). Qed.
Lemma hkeeps_gets {A} (f : log → A) : keeps (gets f).
Proof. by intros s. Qed.
Lemma hkeeps_ret {A} (x : A) : keeps (mret x).
Proof. by intros s. Qed.
Lemma keeps_throw {A} e : keeps (throw e : L A).
Proof. by intros s. Qed.
Lemma hkeeps_bind {A C} (m : L A) (k : A → L C) : keeps m → (∀ x, keeps (k x)) → keeps (mbind k m).
Proof.
  intros Hm Hk s. unfold mbind, M_bind. specialize (Hm s). destruct (m s) as [[x|e|] s1]; simpl in *; [|done..].
  eapply same_header_trans; [exact Hm|apply Hk].
Qed.
Lemma keeps_for k n f : (∀ i, keeps (f i)) → keeps (for_up k n f).
Proof.
  intros Hf. revert k. induction n as [|n IH]; intros k; [apply hkeeps_ret|].
  apply hkeeps_bind; [apply Hf|intros _; apply IH].
Qed.
Lemma keeps_lh_at i : keeps (lh_at i).
Proof. intros s. unfold lh_at. msimpl. by destruct (lh_block s !! i). Qed.

Create HintDb keeps discriminated.
#[export] Hint Resolve keeps_lift hkeeps_gets hkeeps_ret keeps_throw keeps_lh_at : keeps.
#[export] Hint Extern 1 (keeps (mbind _ _)) => apply hkeeps_bind; [|intros ?] : keeps.
#[export] Hint Extern 1 (keeps (for_up _ _ _)) => apply keeps_for; intros ? : keeps.
#[export] Hint Extern 1 (keeps (if ?b then _ else _)) => destruct b : keeps.

Lemma keeps_write_log me : keeps (write_log me).
Proof. unfold write_log, write_log_block. auto 20 with keeps. Qed.
Lemma keeps_write_head me : keeps (write_head me).
Proof. unfold write_head. auto 20 with keeps. Qed.
Lemma keeps_install me b : keeps (install_trans me b).
Proof. unfold install_trans, install_block. auto 20 with keeps. Qed.

Lemma keeps_run {A} (m : L A) s x s1 : keeps m → m s = (Ret x, s1) → same_header s s1.
Proof. intros Hm E. specialize (Hm s). by rewrite E in Hm. Qed.

Lemma commit_same_header me s s' :
  commit me s = (Ret (), s') →
  lh_n s' = (if 0 <? lh_n s then 0 else lh_n s) ∧ outstanding s' = outstanding s ∧
  committing s' = committing s.
Proof.
  unfold commit. intros (n & s0 & [= <- <-] & E)%bind_ret_inv. destruct (0 <? lh_n s); [|by injection E as <-].
  apply bind_ret_inv in E as ([] & s1 & E1 & E). apply bind_ret_inv in E as ([] & s2 & E2 & E).
  apply bind_ret_inv in E as ([] & s3 & E3 & E). apply bind_ret_inv in E as ([] & s4 & [= <-] & E).
  apply keeps_run in E1 as (?&?&?); [|apply keeps_write_log].
  apply keeps_run in E2 as (?&?&?); [|apply keeps_write_head].
  apply keeps_run in E3 as (?&?&?); [|apply keeps_install].
  apply keeps_run in E as (?&?&?); [|apply keeps_write_head]. simpl in *. repeat split; congruence.
Qed.

(** ** Calls sharing the log

    [ops] has, for each call between its [begin_op] and its [end_op], how many
    blocks it has added to the log. *)
Inductive step (me : Z) : log * list Z → log * list Z → Prop :=
  | step_begin s s' ops :
      begin_op s = (Ret (), s') → step me (s, ops) (s', 0 :: ops)
  | step_write s s' i l c r :
      c < MAXOPBLOCKS → log_write i s = (Ret (), s') →
      step me (s, l ++ c :: r) (s', l ++ (c + (lh_n s' - lh_n s)) :: r)
  | step_cache s c ops : step me (s, ops) (set_bc c s, ops)
  | step_end s s' l c r :
      end_op me s = (Ret (), s') → step me (s, l ++ c :: r) (s', l ++ r).

Definition room_left (ops : list Z) : Z := foldr (λ c n, MAXOPBLOCKS - c + n) 0 ops.

Record space_ok (s : log) (ops : list Z) : Prop := {
  sp_out : outstanding s = Z.of_nat (length ops);
  sp_room : lh_n s + room_left ops ≤ LOGBLOCKS;
  sp_ops : Forall (λ c, 0 ≤ c ≤ MAXOPBLOCKS) ops;
  sp_n : 0 ≤ lh_n s;
  sp_commit : committing s = false;
  sp_max : outstanding s * MAXOPBLOCKS ≤ LOGBLOCKS
}.

Lemma room_left_app l r : room_left (l ++ r) = room_left l + room_left r.
Proof. induction l as [|c l IH]; simpl; [done|]. rewrite IH. lia. Qed.

Lemma room_left_nonneg ops : Forall (λ c, 0 ≤ c ≤ MAXOPBLOCKS) ops → 0 ≤ room_left ops.
Proof. induction 1; simpl; lia. Qed.

Lemma room_left_le ops : Forall (λ c, 0 ≤ c ≤ MAXOPBLOCKS) ops →
  room_left ops ≤ Z.of_nat (length ops) * MAXOPBLOCKS.
Proof. induction 1; simpl length; cbn [room_left foldr]; [lia|]. unfold room_left in *. lia. Qed.

Lemma log_write_header i s s' :
  log_write i s = (Ret (), s') →
  lh_n s < LOGBLOCKS ∧ 1 ≤ outstanding s ∧ lh_n s ≤ lh_n s' ≤ lh_n s + 1 ∧
  outstanding s' = outstanding s ∧ committing s' = committing s.
Proof.
  unfold log_write. intros (s0 & s1 & [= <- <-] & E)%bind_ret_inv. change (id s) with s in E.
  destruct (LOGBLOCKS <=? lh_n s) eqn:E1; [done|]. apply Z.leb_gt in E1.
  destruct (outstanding s <? 1) eqn:E2; [done|]. apply Z.ltb_ge in E2.
  apply bind_ret_inv in E as (b & s1 & Eb & E). apply keeps_run in Eb as (H1 & H2 & H3); [|auto with keeps].
  cbv zeta in E. apply bind_ret_inv in E as ([] & s2 & Es & E).
  assert (Hs2 : same_header s1 s2).
  { unfold set_lh_at in Es. apply bind_ret_inv in Es as (s1' & s1'' & [= <- <-] & Es).
    destruct (_ <? _)%nat; [|done]. by injection Es as <-. }
  destruct Hs2 as (H4 & H5 & H6). destruct (_ =? lh_n s).
  - apply bind_ret_inv in E as ([] & s3 & Ep & E). apply keeps_run in Ep as (H7 & H8 & H9); [|auto with keeps].
    injection E as <-. cbn. split; [done|]. split; [done|]. split; [lia|]. split; congruence.
  - injection E as <-. split; [done|]. split; [done|]. split; [lia|]. split; congruence.
Qed.

Lemma step_space me s ops s' ops' : step me (s, ops) (s', ops') → space_ok s ops → space_ok s' ops'.
Proof.
  intros Hstep [Ho Hr Hops Hn Hc Hm]. inversion Hstep; subst.
  - unfold begin_op in H0. apply bind_ret_inv in H0 as (s0 & s1 & [= <- <-] & E). change (id s) with s in E.
    rewrite Hc in E. destruct (LOGBLOCKS <? _) eqn:El; [done|]. apply Z.ltb_ge in El. injection E as <-.
    pose proof (room_left_le ops Hops). split; cbn [outstanding lh_n committing set_outstanding]; try done.
    + rewrite Ho. simpl. lia.
    + cbn [room_left foldr]. fold (room_left ops). lia.
    + constructor; [unfold MAXOPBLOCKS; lia|done].
    + lia.
  - apply log_write_header in H4 as (G1 & G2 & G3 & G4 & G5).
    apply Forall_app in Hops as [Hl Hcr]. apply Forall_cons in Hcr as [Hcc Hr2].
    rewrite room_left_app in Hr. cbn [room_left foldr] in Hr. fold (room_left r) in Hr.
    split; [by rewrite G4, Ho, !length_app| | |lia|congruence|by rewrite G4].
    + rewrite room_left_app. cbn [room_left foldr]. fold (room_left r). lia.
    + apply Forall_app. split; [done|]. constructor; [lia|done].
  - by split.
  - apply Forall_app in Hops as [Hl Hcr]. apply Forall_cons in Hcr as [Hcc Hr2].
    rewrite room_left_app in Hr. cbn [room_left foldr] in Hr. fold (room_left r) in Hr.
    rewrite length_app in Ho. simpl in Ho.
    unfold end_op in H0. apply bind_ret_inv in H0 as (s0 & s1 & [= <- <-] & E). change (id s) with s in E.
    apply bind_ret_inv in E as ([] & s1 & [= <-] & E). rewrite Hc in E.
    destruct (outstanding s - 1 =? 0) eqn:El.
    + apply Z.eqb_eq in El. apply bind_ret_inv in E as ([] & s1 & [= <-] & E).
      apply bind_ret_inv in E as ([] & s1 & Ec & E). apply commit_same_header in Ec as (G1 & G2 & G3).
      apply bind_ret_inv in E as ([] & s2 & [= <-] & E). injection E as <-.
      assert (l = []) as -> by (destruct l; [done|simpl in Ho; lia]).
      assert (r = []) as -> by (destruct r; [done|simpl in Ho; lia]).
      cbn in G1, G2. split; cbn; [lia| | | |done|].
      * rewrite G1. destruct (Z.ltb_spec 0 (lh_n s)); unfold LOGBLOCKS, MAXOPBLOCKS in *; lia.
      * constructor.
      * rewrite G1. destruct (Z.ltb_spec 0 (lh_n s)); lia.
      * rewrite G2, El. unfold LOGBLOCKS, MAXOPBLOCKS. lia.
    + injection E as <-. split; cbn; [rewrite length_app; lia| | |done|done|lia].
      * rewrite room_left_app. lia.
      * by apply Forall_app.
Qed.

(** However the calls interleave, the log has room for every one of them: as
    long as a call has added fewer than MAXOPBLOCKS blocks, its next [log_write]
    finds less than LOGBLOCKS blocks logged and an open transaction, so neither
    of its panics is reached; and no more than LOGBLOCKS / MAXOPBLOCKS calls are
    admitted at a time. *)
Theorem log_never_overflows me s0 s ops :
  rtc (step me) (s0, []) (s, ops) →
  outstanding s0 = 0 → lh_n s0 = 0 → committing s0 = false →
  lh_n s ≤ LOGBLOCKS ∧ outstanding s = Z.of_nat (length ops) ∧
  (∀ l c r, ops = l ++ c :: r → c < MAXOPBLOCKS →
     lh_n s < LOGBLOCKS ∧ 1 ≤ outstanding s) ∧
  outstanding s * MAXOPBLOCKS ≤ LOGBLOCKS.
Proof.
  intros Hsteps Ho Hn Hc.
  assert (Hok : space_ok s ops).
  { assert (H0 : space_ok s0 []) by (split; [done|rewrite Hn; cbn; unfold LOGBLOCKS, MAXOPBLOCKS; lia|constructor|lia|done|
      rewrite Ho; unfold LOGBLOCKS, MAXOPBLOCKS; lia]).
    remember (s0, []) as x eqn:Ex. remember (s, ops) as y eqn:Ey.
    assert (Hx : space_ok x.1 x.2) by (by subst). clear H0 Ex Ho Hn Hc.
    revert Ey. induction Hsteps as [x|[x1 x2] [y1 y2] z Hs _ IH]; intros Ey; [by subst|].
    apply IH; [|done]. by eapply step_space. }
  destruct Hok as [H1 H2 H3 H4 H5 H6]. pose proof (room_left_nonneg _ H3) as H7.
  split; [lia|]. split; [done|]. split; [|done].
  intros l c r -> Hlt. apply Forall_app in H3 as [Hl Hcr]. apply Forall_cons in Hcr as [Hcc Hr].
  apply room_left_nonneg in Hl, Hr. rewrite room_left_app in H2. cbn [room_left foldr] in H2.
  fold (room_left r) in H2. rewrite length_app in H1. simpl in H1. lia.
Qed.

(** ** A full log *)

(** When every buffer is pinned none can be recycled. *)
Lemma all_pinned me c a :
  refines me c a → length (cpin a) = NBUF → cheld a = [] →
  ¬ some_free c ∧ ∀ bn, bn ∉ cpin a → ∀ i b, ¬ holds c bn i b.
Proof.
  intros Hrf Hlen Hh.
  assert (Hall : ∀ i b, bufs c !! i = Some b → is_pinned a b).
  { intros i b Hb. destruct (decide (is_pinned a b)) as [|Hnp]; [done|exfalso].
    assert (Hlt : (length (filter (is_pinned a) (bufs c)) < length (bufs c))%nat).
    { eapply length_filter_lt; [by eapply list_elem_of_lookup_2|done]. }
    rewrite (ok_len c (rf_ok _ _ _ Hrf)) in Hlt.
    assert (Hsub : cpin a ⊆+ (b_blockno <$> filter (is_pinned a) (bufs c))).
    { apply NoDup_submseteq; [apply (rf_pins _ _ _ Hrf)|]. intros bn Hbn.
      destruct (rf_pinned _ _ _ Hrf bn Hbn) as (j & b' & Hb' & Hd & <-). apply list_elem_of_fmap.
      exists b'. split; [done|]. apply list_elem_of_filter. split; [done|]. by eapply list_elem_of_lookup_2. }
    apply submseteq_length in Hsub. rewrite length_fmap, Hlen in Hsub. lia. }
  split.
  - intros (i & b & Hb & Hr). rewrite (bo_refs _ _ _ _ (rf_buf _ _ _ Hrf i b Hb)) in Hr. unfold refs in Hr.
    rewrite (decide_True (P := is_pinned a b)) in Hr by (by eapply Hall).
    destruct (decide (is_held a i b)); lia.
  - intros bn Hbn i b (Hb & Hd & <-). by destruct (Hall i b Hb).
Qed.

(** LOGBLOCKS is NBUF: three calls that each add MAXOPBLOCKS blocks, which
    [begin_op] admits, pin every buffer of the cache, and [commit] then panics in
    [bget] when it reads the first log block. *)
Theorem full_log_panics me s :
  log_idle me s → lh_n s = LOGBLOCKS →
  fst (commit me s) = Err (Panic "bget: no buffers").
Proof.
  intros (a & Hok & Hh) Hn. pose proof (lo_ref _ _ _ Hok) as Hr.
  pose proof (logged_length s (lo_n _ _ _ Hok) (lo_len _ _ _ Hok)) as Hlen.
  assert (Hp : length (cpin a) = NBUF).
  { rewrite (lo_pins _ _ _ Hok). rewrite Hn in Hlen. unfold NBUF, LOGBLOCKS, MAXOPBLOCKS in *. lia. }
  destruct (all_pinned me _ a Hr Hp Hh) as [Hnf Hno].
  assert (Hb : bread me ROOTDEV (start s + 1) (bc s) = (Err (Panic "bget: no buffers"), bc s)).
  { apply bread_panics; [apply (rf_ok _ _ _ Hr)| |done]. apply Hno.
    destruct (lo_facts me s a Hok) as (_ & _ & _ & _ & _ & Hap & _). intros Hx.
    apply (Hap _ Hx). rewrite Hlen, Hn. unfold LOGBLOCKS, MAXOPBLOCKS. lia. }
  unfold commit. pure_step. rewrite (proj2 (Z.ltb_lt _ _)) by (rewrite Hn; unfold LOGBLOCKS, MAXOPBLOCKS; lia).
  unfold write_log. msimpl. replace (Z.to_nat (lh_n s)) with (S (Z.to_nat (lh_n s) - 1))
    by (rewrite Hn; unfold LOGBLOCKS, MAXOPBLOCKS; lia).
  cbn [for_up]. unfold write_log_block. msimpl. rewrite (lo_dev _ _ _ Hok), Z.add_0_r.
  unfold lift. by rewrite Hb.
Qed.

(** ** Witnesses *)
Definition ex_three : log :=
  snd (begin_op (snd (begin_op (snd (begin_op ex_quiet))))).
Definition ex_thirty : list (Z * (block → block)) :=
  (λ i, (100 + Z.of_nat i, id)) <$> seq 0 30.
Definition ex_full : log := snd (log_updates 1 ex_thirty ex_three).

Lemma begin_ok s :
  committing s = false → lh_n s = 0 → (outstanding s + 1) * MAXOPBLOCKS ≤ LOGBLOCKS →
  begin_op s = (Ret (), set_outstanding (outstanding s + 1) s).
Proof.
  intros Hc Hn Ho. unfold begin_op. msimpl. rewrite Hc, Hn. by rewrite (proj2 (Z.ltb_ge _ _)) by lia.
Qed.

Lemma ex_begin k : 0 ≤ k ≤ 2 →
  begin_op (set_outstanding k ex_quiet) = (Ret (), set_outstanding (k + 1) ex_quiet).
Proof.
  intros Hk. destruct ex_quiet_ok as [[_ Hn _ Hc] _].
  by rewrite begin_ok by (done || (cbn; unfold LOGBLOCKS, MAXOPBLOCKS; lia)).
Qed.

Lemma ex_quiet_0 : ex_quiet = set_outstanding 0 ex_quiet.
Proof. destruct ex_quiet_ok as [[_ _ Ho _] _]. rewrite <-Ho. by destruct ex_quiet. Qed.

Lemma ex_three_run : ex_three = set_outstanding 3 ex_quiet.
Proof. unfold ex_three. rewrite ex_quiet_0 at 1. by rewrite !ex_begin by lia. Qed.

Lemma ex_full_idle : log_idle 1 ex_full.
Proof.
  destruct ex_quiet_ok as [[(a & Hok & Hh) Hn Ho Hc] Hs].
  assert (Hok1 : log_ok 1 (set_outstanding 3 ex_quiet) a) by (by eapply log_ok_ext; [exact Hok|..]).
  destruct (log_updates_spec 1 ex_thirty _ a Hok1 Hh) as (s2 & a2 & E2 & Hok2 & Hh2 & _).
  - cbn. lia.
  - cbn [lh_n set_outstanding]. rewrite Hn. vm_compute. congruence.
  - cbn [lh_n set_outstanding]. rewrite Hn. vm_compute. congruence.
  - cbn [start set_outstanding]. rewrite Hs. unfold ex_thirty. apply Forall_fmap, Forall_forall.
    intros i Hi%elem_of_seq. cbn [compose fst snd]. split; [|done].
    unfold home_ok, is_blockno, LOGBLOCKS, MAXOPBLOCKS. lia.
  - unfold ex_full. rewrite ex_three_run, E2. exists a2. split; [exact Hok2|exact Hh2].
Qed.

Lemma full_log_panics_witness :
  lh_n ex_full = 30 ∧ fst (commit 1 ex_full) = Err (Panic "bget: no buffers").
Proof.
  assert (Hn : lh_n ex_full = 30) by (vm_compute; reflexivity).
  split; [exact Hn|]. apply (full_log_panics 1 ex_full ex_full_idle). exact Hn.
Defined.

Lemma log_never_overflows_witness :
  lh_n ex_three < LOGBLOCKS ∧ outstanding ex_three = 3.
Proof.
  destruct ex_quiet_ok as [[_ Hn Ho Hc] _].
  destruct (log_never_overflows 1 ex_quiet ex_three [0; 0; 0]) as (_ & H1 & H2 & _).
  - rewrite ex_three_run, ex_quiet_0 at 1.
    eapply rtc_l; [apply (step_begin 1 _ (set_outstanding 1 ex_quiet)), ex_begin; lia|].
    eapply rtc_l; [apply (step_begin 1 _ (set_outstanding 2 ex_quiet)), ex_begin; lia|].
    eapply rtc_l; [apply (step_begin 1 _ (set_outstanding 3 ex_quiet)), ex_begin; lia|apply rtc_refl].
  - exact Ho.
  - exact Hn.
  - exact Hc.
  - split; [|exact H1]. apply (H2 [] 0 [0; 0]); [reflexivity|reflexivity].
Defined.
