(* ===== verification/Fs.v ===== *)
(** * The file system: blocks (xv6/kernel/fs.c)

    The state of the file system: the blocks as the log and the buffer cache
    show them ([Log], [Cache]), the super block and the table of inodes.  A
    buffer is named by its block, since the cache has one buffer for a block;
    [held] has the blocks whose buffers are held, and reading one of them again
    would wait for ever.  [log_write] records a block in the transaction and changes nothing here: a
    store to [bp->data] is seen by the next reader.  There is one disk, so the
    device number chooses nothing but table entries.

    This file has the allocator of blocks: [bzero], [balloc], [bfree]. *)

From stdpp Require Export functions.
From S2P Require Export Prelude Bytes Bio.

#[local] Set Warnings "-clear-no-such-hyp".
#[local] Set Default Proof Using "Type".
Local Open Scope Z_scope.

(** ** The on-disk format *)
Record superblock := {
  sb_magic : Z; sb_size : Z; sb_nblocks : Z; sb_ninodes : Z; sb_nlog : Z; sb_logstart : Z;
  sb_inodestart : Z; sb_bmapstart : Z
}.

Definition FSMAGIC : Z := 0x10203040.
Definition BSIZEz : Z := 1024.
Definition NDIRECT : nat := 12.
Definition NINDIRECT : nat := 256.
Definition MAXFILE : Z := Z.of_nat (NDIRECT + NINDIRECT).
Definition IPB : Z := 16.
Definition DINODE_SIZE : nat := 64.
Definition IBLOCK (i : Z) (sb : superblock) : Z := i / IPB + sb_inodestart sb.
Definition BPB : Z := 8192.
Definition BBLOCK (b : Z) (sb : superblock) : Z := b / BPB + sb_bmapstart sb.

(** ** State *)
Record inode := {
  i_dev : Z; i_inum : Z; i_ref : Z; i_lock : sleeplock; i_valid : bool;
  i_type : Z; i_major : Z; i_minor : Z; i_nlink : Z; i_size : Z; i_addrs : list Z
}.

Record fs := { blocks : Z → block; held : list Z; sb : superblock; itable : list inode }.

Definition set_blocks (b : Z → block) (s : fs) : fs :=
  {| blocks := b; held := held s; sb := sb s; itable := itable s |}.
Definition set_held (h : list Z) (s : fs) : fs :=
  {| blocks := blocks s; held := h; sb := sb s; itable := itable s |}.
Definition set_sb (b : superblock) (s : fs) : fs :=
  {| blocks := blocks s; held := held s; sb := b; itable := itable s |}.
Definition set_itable (t : list inode) (s : fs) : fs :=
  {| blocks := blocks s; held := held s; sb := sb s; itable := t |}.

Abbreviation F A := (M fs stop A).

(** ** Buffers of the current system call *)
Definition bp_read (bn : Z) : F () :=
  s ← gets id;
  if decide (bn ∈ held s) then throw Sleeps else modify (λ s, set_held (bn :: held s) s).
Definition bp_data (bn : Z) : F block := gets (λ s, blocks s bn).
Definition bp_store (bn : Z) (f : block → block) : F () :=
  modify (λ s, set_blocks (<[bn := f (blocks s bn)]> (blocks s)) s).
Definition bp_relse (bn : Z) : F () := modify (λ s, set_held (filter (λ x, x ≠ bn) (held s)) s).

(** ** The super block *)
Definition readsb : F () :=
  bp_read 1;;
  d ← bp_data 1;
  let w i := le_get 4 (4 * i) d in
  modify (set_sb {| sb_magic := w 0%nat; sb_size := w 1%nat; sb_nblocks := w 2%nat;
    sb_ninodes := w 3%nat; sb_nlog := w 4%nat; sb_logstart := w 5%nat; sb_inodestart := w 6%nat;
    sb_bmapstart := w 7%nat |});;
  bp_relse 1.

(** ** Blocks *)
Definition zero_block : block := replicate BSIZE 0.

Definition bzero (bno : Z) : F () :=
  bp_read bno;;
  bp_store bno (λ _, zero_block);;
  bp_relse bno.

Definition byte_at (data : block) (i : Z) : Z := default 0 (data !! Z.to_nat i).
Definition bit_mask (bi : Z) : Z := Z.shiftl 1 (bi mod 8).

(** The first free bit from [bi] on, in the bitmap block of the blocks from [b]. *)
Fixpoint free_bit (data : block) (b size bi : Z) (n : nat) : option Z :=
  match n with
  | O => None
  | S n =>
      if b + bi <? size then
        if Z.land (byte_at data (bi / 8)) (bit_mask bi) =? 0 then Some bi
        else free_bit data b size (bi + 1) n
      else None
  end.

Definition mark_bit (bi : Z) (data : block) : block :=
  <[Z.to_nat (bi / 8) := Z.lor (byte_at data (bi / 8)) (bit_mask bi)]> data.
Definition clear_bit (bi : Z) (data : block) : block :=
  <[Z.to_nat (bi / 8) := Z.land (byte_at data (bi / 8)) (Z.lnot (bit_mask bi))]> data.

(** 0: out of blocks. *)
Fixpoint balloc_loop (n : nat) (b : Z) : F Z :=
  match n with
  | O => mret 0
  | S n =>
      s ← gets id;
      if b <? sb_size (sb s) then
        let bb := BBLOCK b (sb s) in
        bp_read bb;;
        data ← bp_data bb;
        match free_bit data b (sb_size (sb s)) 0 (Z.to_nat BPB) with
        | Some bi =>
            bp_store bb (mark_bit bi);;
            bp_relse bb;;
            bzero (b + bi);;
            mret (b + bi)
        | None => bp_relse bb;; balloc_loop n (b + BPB)
        end
      else mret 0
  end.

Definition balloc : F Z :=
  s ← gets id; balloc_loop (Z.to_nat (sb_size (sb s) / BPB + 1)) 0.

Definition bfree (b : Z) : F () :=
  s ← gets id;
  let bb := BBLOCK b (sb s) in
  bp_read bb;;
  data ← bp_data bb;
  let bi := b mod BPB in
  if Z.land (byte_at data (bi / 8)) (bit_mask bi) =? 0 then throw (Panic "freeing free block")
  else bp_store bb (clear_bit bi);; bp_relse bb.

(** ** The bitmap *)
Definition bit_of (data : block) (bi : Z) : bool := Z.testbit (byte_at data (bi / 8)) (bi mod 8).

(** Block [b] is in use. *)
Definition used (s : fs) (b : Z) : bool := bit_of (blocks s (BBLOCK b (sb s))) (b mod BPB).

Definition is_bitmap (s : fs) (x : Z) : Prop :=
  sb_bmapstart (sb s) ≤ x ≤ BBLOCK (sb_size (sb s) - 1) (sb s).

(** The disk is laid out as mkfs does: everything before the data blocks, the
    bitmap included, is marked in use, and the blocks have their size. *)
Record layout_ok (s : fs) : Prop := {
  lay_size : 0 < sb_size (sb s) < 2 ^ 31;
  lay_meta : BBLOCK (sb_size (sb s) - 1) (sb s) < sb_size (sb s);
  lay_start : 0 < sb_bmapstart (sb s);
  lay_used : ∀ b, 0 ≤ b ≤ BBLOCK (sb_size (sb s) - 1) (sb s) → used s b = true;
  lay_len : ∀ b, length (blocks s b) = BSIZE
}.

(** Data blocks lie after the bitmap. *)
Definition is_data (s : fs) (b : Z) : Prop := BBLOCK (sb_size (sb s) - 1) (sb s) < b < sb_size (sb s).

(** ** Lemmas *)
Lemma land_bit x k : 0 ≤ k → (Z.land x (Z.shiftl 1 k) =? 0) = negb (Z.testbit x k).
Proof.
  intros Hk. rewrite Z.shiftl_1_l. destruct (Z.testbit x k) eqn:E; simpl.
  - apply Z.eqb_neq. intros H. apply (f_equal (λ z, Z.testbit z k)) in H.
    by rewrite Z.land_spec, E, Z.pow2_bits_true, Z.bits_0 in H.
  - apply Z.eqb_eq. apply Z.bits_inj'. intros n Hn. rewrite Z.land_spec, Z.bits_0.
    destruct (decide (n = k)) as [->|Hne]; [by rewrite E|].
    rewrite Z.pow2_bits_false by done. apply andb_false_r.
Qed.

Lemma mask_test x bi : (Z.land (byte_at x (bi / 8)) (bit_mask bi) =? 0) = negb (bit_of x bi).
Proof. unfold bit_mask, bit_of. apply land_bit. apply Z.mod_pos_bound. lia. Qed.

Lemma length_mark_bit bi d : length (mark_bit bi d) = length d.
Proof. apply length_insert. Qed.
Lemma length_clear_bit bi d : length (clear_bit bi d) = length d.
Proof. apply length_insert. Qed.

Lemma bit_split bi bi' : 0 ≤ bi → 0 ≤ bi' → bi / 8 = bi' / 8 → bi mod 8 = bi' mod 8 → bi = bi'.
Proof. intros. rewrite (Z.div_mod bi 8), (Z.div_mod bi' 8) by lia. congruence. Qed.

Section Bits.
Context (d : block) (bi : Z) (Hlen : length d = BSIZE) (Hbi : 0 ≤ bi < BPB).

Lemma byte_insert v i :
  0 ≤ i < 1024 →
  byte_at (<[Z.to_nat (bi / 8) := v]> d) i = if decide (i = bi / 8) then v else byte_at d i.
Proof using Hlen Hbi.
  intros Hi. assert (0 ≤ bi / 8 < 1024)
    by (unfold BPB in Hbi; split; [apply Z.div_pos; lia|apply Z.div_lt_upper_bound; lia]).
  unfold byte_at. case_decide as E.
  - subst i. rewrite list_lookup_insert_eq; [done|]. rewrite Hlen. unfold BSIZE. lia.
  - rewrite list_lookup_insert_ne by lia. done.
Qed.

Lemma bit_of_update (f : Z → Z) (v : bool) bi' :
  (∀ x k, 0 ≤ k → Z.testbit (f x) k = if decide (k = bi mod 8) then v else Z.testbit x k) →
  0 ≤ bi' < BPB →
  bit_of (<[Z.to_nat (bi / 8) := f (byte_at d (bi / 8))]> d) bi'
  = if decide (bi' = bi) then v else bit_of d bi'.
Proof using Hlen Hbi.
  intros Hf Hbi'. unfold bit_of.
  assert (0 ≤ bi' / 8 < 1024)
    by (unfold BPB in Hbi'; split; [apply Z.div_pos; lia|apply Z.div_lt_upper_bound; lia]).
  assert (Hm := Z.mod_pos_bound bi' 8 ltac:(lia)).
  rewrite byte_insert by done. destruct (decide (bi' = bi)) as [->|Hne].
  - rewrite decide_True by done. rewrite Hf by lia. by rewrite decide_True.
  - case_decide as E; [|done]. rewrite Hf by lia. rewrite decide_False; [by rewrite E|].
    intros Em. by apply Hne, bit_split; [lia|lia| |].
Qed.

Lemma bit_of_mark bi' :
  0 ≤ bi' < BPB → bit_of (mark_bit bi d) bi' = if decide (bi' = bi) then true else bit_of d bi'.
Proof using Hlen Hbi.
  intros H. unfold mark_bit. rewrite (bit_of_update (λ x, Z.lor x (bit_mask bi)) true); [done| |done].
  intros x k Hk. unfold bit_mask. rewrite Z.shiftl_1_l, Z.lor_spec.
  pose proof (Z.mod_pos_bound bi 8 ltac:(lia)). case_decide as E.
  - subst k. rewrite Z.pow2_bits_true by lia. apply orb_true_r.
  - rewrite Z.pow2_bits_false by lia. apply orb_false_r.
Qed.

Lemma bit_of_clear bi' :
  0 ≤ bi' < BPB → bit_of (clear_bit bi d) bi' = if decide (bi' = bi) then false else bit_of d bi'.
Proof using Hlen Hbi.
  intros H. unfold clear_bit. rewrite (bit_of_update (λ x, Z.land x (Z.lnot (bit_mask bi))) false); [done| |done].
  intros x k Hk. unfold bit_mask. rewrite Z.shiftl_1_l, Z.land_spec, Z.lnot_spec by done.
  pose proof (Z.mod_pos_bound bi 8 ltac:(lia)). case_decide as E.
  - subst k. rewrite Z.pow2_bits_true by lia. apply andb_false_r.
  - rewrite Z.pow2_bits_false by lia. apply andb_true_r.
Qed.
End Bits.

Lemma free_bit_Some d b size bi n x :
  free_bit d b size bi n = Some x →
  bi ≤ x < bi + Z.of_nat n ∧ b + x < size ∧ bit_of d x = false ∧ ∀ y, bi ≤ y < x → bit_of d y = true.
Proof.
  revert bi. induction n as [|n IH]; intros bi; [done|]. cbn [free_bit].
  destruct (b + bi <? size) eqn:E; [|done]. apply Z.ltb_lt in E. rewrite mask_test.
  destruct (bit_of d bi) eqn:Eb; simpl.
  - intros (H1 & H2 & H3 & H4)%IH. split; [lia|]. split; [done|]. split; [done|].
    intros y Hy. destruct (decide (y = bi)) as [->|]; [done|]. apply H4. lia.
  - intros [= <-]. split; [lia|]. split; [done|]. split; [done|]. lia.
Qed.

Lemma free_bit_None d b size bi n y :
  free_bit d b size bi n = None → bi ≤ y < bi + Z.of_nat n → b + y < size → bit_of d y = true.
Proof.
  revert bi. induction n as [|n IH]; intros bi; [lia|]. cbn [free_bit].
  destruct (b + bi <? size) eqn:E; [|apply Z.ltb_ge in E; lia]. rewrite mask_test.
  destruct (bit_of d bi) eqn:Eb; simpl; [|done]. intros H Hy Hs.
  destruct (decide (y = bi)) as [->|]; [done|]. apply (IH _ H); lia.
Qed.

(** *** Buffers *)
Lemma bp_read_run bn s :
  bn ∉ held s → bp_read bn s = (Ret (), set_held (bn :: held s) s).
Proof. intros H. unfold bp_read. msimpl. by rewrite decide_False. Qed.

Lemma release_cons (bn : Z) h : bn ∉ h → filter (λ x, x ≠ bn) (bn :: h) = h.
Proof.
  intros H. rewrite filter_cons, decide_False by naive_solver.
  induction h as [|y h IH]; [done|]. apply not_elem_of_cons in H as [Hy H].
  rewrite filter_cons, decide_True by done. by rewrite IH.
Qed.

(** [bread], change the data, [log_write], [brelse]. *)
Lemma bp_update_run bn f s :
  bn ∉ held s →
  (bp_read bn;; bp_store bn f;; bp_relse bn) s
  = (Ret (), set_blocks (<[bn := f (blocks s bn)]> (blocks s)) s).
Proof.
  intros H. rewrite (bind_run _ _ _ _ _ (bp_read_run bn s H)). unfold bp_store, bp_relse. msimpl.
  unfold set_held, set_blocks.
  cbn [held blocks sb itable]. by rewrite release_cons.
Qed.

Lemma bzero_run bno s :
  bno ∉ held s → bzero bno s = (Ret (), set_blocks (<[bno := zero_block]> (blocks s)) s).
Proof. apply bp_update_run. Qed.

(** The buffers held are of blocks in use, outside the bitmap. *)
Definition held_ok (s : fs) : Prop :=
  NoDup (held s) ∧ ∀ x, x ∈ held s → 0 ≤ x < sb_size (sb s) ∧ used s x = true ∧ ¬ is_bitmap s x.

Lemma bblock_bitmap s b : 0 ≤ b < sb_size (sb s) → is_bitmap s (BBLOCK b (sb s)).
Proof.
  intros H. unfold is_bitmap, BBLOCK. pose proof (Z.div_pos b BPB ltac:(lia) ltac:(unfold BPB; lia)).
  pose proof (Z.div_le_mono b (sb_size (sb s) - 1) BPB ltac:(unfold BPB; lia) ltac:(lia)). lia.
Qed.

Lemma bitmap_not_data s x : is_data s x → ¬ is_bitmap s x.
Proof. unfold is_data, is_bitmap. lia. Qed.

Lemma unused_data s a : layout_ok s → 0 ≤ a < sb_size (sb s) → used s a = false → is_data s a.
Proof.
  intros Hl Ha Hu. unfold is_data. split; [|lia].
  destruct (decide (BBLOCK (sb_size (sb s) - 1) (sb s) < a)); [done|exfalso].
  rewrite (lay_used s Hl) in Hu by lia. done.
Qed.

(** *** Setting and clearing the bit of a block *)
Section SetBit.
Context (s : fs) (a : Z) (Hl : layout_ok s) (Ha : is_data s a).
Let bb := BBLOCK a (sb s).

Lemma used_store (g : block → block) (v : bool) x :
  (∀ bi', 0 ≤ bi' < BPB →
    bit_of (g (blocks s bb)) bi' = if decide (bi' = a mod BPB) then v else bit_of (blocks s bb) bi') →
  0 ≤ x →
  used (set_blocks (<[bb := g (blocks s bb)]> (blocks s)) s) x = if decide (x = a) then v else used s x.
Proof using Type.
  intros Hg Hx. unfold used. cbn [sb set_blocks blocks].
  destruct (decide (BBLOCK x (sb s) = bb)) as [E|Hne].
  - rewrite E, fn_lookup_insert, Hg by (apply Z.mod_pos_bound; unfold BPB; lia).
    unfold bb, BBLOCK in E. destruct (decide (x = a)) as [->|Hxa]; [by rewrite decide_True|].
    rewrite decide_False; [done|]. intros Em. apply Hxa.
    rewrite (Z.div_mod x BPB), (Z.div_mod a BPB), Em by (unfold BPB; lia).
    replace (x / BPB) with (a / BPB) by lia. done.
  - rewrite fn_lookup_insert_ne by done. by rewrite decide_False by (intros ->; done).
Qed.
End SetBit.

(** What allocating and freeing a block do. *)
Record allocated (s : fs) (a : Z) (s' : fs) : Prop := {
  al_free : used s a = false;
  al_data : is_data s a;
  al_used : ∀ x, 0 ≤ x < sb_size (sb s) → used s' x = if decide (x = a) then true else used s x;
  al_zero : blocks s' a = zero_block;
  al_same : ∀ x, x ≠ a → ¬ is_bitmap s x → blocks s' x = blocks s x;
  al_held : held s' = held s;
  al_sb : sb s' = sb s;
  al_itable : itable s' = itable s;
  al_layout : layout_ok s'
}.

Record freed (s : fs) (a : Z) (s' : fs) : Prop := {
  fr_used : ∀ x, 0 ≤ x < sb_size (sb s) → used s' x = if decide (x = a) then false else used s x;
  fr_same : ∀ x, ¬ is_bitmap s x → blocks s' x = blocks s x;
  fr_held : held s' = held s;
  fr_sb : sb s' = sb s;
  fr_itable : itable s' = itable s;
  fr_layout : layout_ok s'
}.

Lemma layout_store s bn (f : block → block) :
  layout_ok s → (∀ x, 0 ≤ x ≤ BBLOCK (sb_size (sb s) - 1) (sb s) →
    used (set_blocks (<[bn := f (blocks s bn)]> (blocks s)) s) x = true) →
  length (f (blocks s bn)) = BSIZE →
  layout_ok (set_blocks (<[bn := f (blocks s bn)]> (blocks s)) s).
Proof.
  intros [H1 H2 H3 H4 H5] Hu Hf. split; try done.
  intros b. cbn. destruct (decide (b = bn)) as [->|]; by rewrite ?fn_lookup_insert, ?fn_lookup_insert_ne.
Qed.

(** A store outside the bitmap changes no bit. *)
Lemma used_other s bn (f : block → block) x :
  ¬ is_bitmap s bn → 0 ≤ x < sb_size (sb s) →
  used (set_blocks (<[bn := f (blocks s bn)]> (blocks s)) s) x = used s x.
Proof.
  intros Hb Hx. unfold used. cbn [sb set_blocks blocks]. rewrite fn_lookup_insert_ne; [done|].
  intros ->. by apply Hb, bblock_bitmap.
Qed.

Lemma is_bitmap_sb s s' x : sb s' = sb s → is_bitmap s' x ↔ is_bitmap s x.
Proof. unfold is_bitmap. by intros ->. Qed.

Lemma mod_range a : 0 ≤ a mod BPB < BPB.
Proof. apply Z.mod_pos_bound. unfold BPB. lia. Qed.

Lemma bbyte_range a : (Z.to_nat (a mod BPB / 8) < BSIZE)%nat.
Proof.
  pose proof (mod_range a) as H. unfold BPB, BSIZE in *.
  assert (a mod 8192 / 8 < 1024) by (apply Z.div_lt_upper_bound; lia). lia.
Qed.

(** Used blocks are below the size, apart from the bits after the last block. *)
Lemma balloc_found s a :
  layout_ok s → held_ok s → 0 ≤ a < sb_size (sb s) → used s a = false →
  let bb := BBLOCK a (sb s) in
  let s1 := set_blocks (<[bb := mark_bit (a mod BPB) (blocks s bb)]> (blocks s)) s in
  let s2 := set_blocks (<[a := zero_block]> (blocks s1)) s1 in
  allocated s a s2 ∧ (bb ∉ held s) ∧ (a ∉ held s).
Proof.
  intros Hl [Hnd Hh] Ha Hu bb s1 s2. pose proof (unused_data s a Hl Ha Hu) as Hd.
  assert (Hbb : is_bitmap s bb) by (by apply bblock_bitmap).
  assert (Hab : ¬ is_bitmap s a) by (by apply bitmap_not_data).
  assert (Hu1 : ∀ x, 0 ≤ x → used s1 x = if decide (x = a) then true else used s x).
  { intros x Hx. apply used_store; [|done]. intros bi' Hbi'. apply bit_of_mark; [apply Hl| |done].
    apply mod_range. }
  assert (Hl1 : layout_ok s1).
  { apply layout_store; [done| |].
    - intros x Hx. fold bb s1. rewrite Hu1 by lia. case_decide; [done|]. by apply Hl.
    - rewrite length_mark_bit. apply Hl. }
  split; [|split].
  2: { intros Hin. by destruct (Hh _ Hin) as (_ & _ & []). }
  2: { intros Hin. destruct (Hh _ Hin) as (_ & Hc & _). congruence. }
  assert (Hu2 : ∀ x, 0 ≤ x < sb_size (sb s) → used s2 x = used s1 x).
  { intros x Hx. by apply (used_other s1 a (λ _, zero_block)). }
  split; try done.
  - intros x Hx. rewrite Hu2 by done. apply Hu1. lia.
  - cbn [s2 blocks set_blocks]. by rewrite fn_lookup_insert.
  - intros x Hxa Hxb. cbn [s2 s1 blocks set_blocks]. rewrite !fn_lookup_insert_ne; [done| |done].
    by intros ->.
  - apply (layout_store s1 a (λ _, zero_block)); [done| |by apply length_replicate].
    intros x Hx. cbn [sb s1 set_blocks] in Hx. pose proof (lay_meta s Hl).
    rewrite (used_other s1 a (λ _, zero_block)) by (done || (cbn; lia)). apply Hl1. done.
Qed.

Lemma balloc_loop_spec n k s :
  layout_ok s → held_ok s → sb_size (sb s) ≤ (k + Z.of_nat n) * BPB → 0 ≤ k →
  (∀ x, 0 ≤ x < k * BPB → x < sb_size (sb s) → used s x = true) →
  (∃ a s', balloc_loop n (k * BPB) s = (Ret a, s') ∧ allocated s a s') ∨
  (balloc_loop n (k * BPB) s = (Ret 0, s) ∧ ∀ x, 0 ≤ x < sb_size (sb s) → used s x = true).
Proof.
  intros Hl Hh. revert k. induction n as [|n IH]; intros k Hsz Hk Hused; cbn [balloc_loop].
  { right. split; [done|]. intros x Hx. apply Hused; [|lia]. nia. }
  msimpl. destruct (k * BPB <? sb_size (sb s)) eqn:E.
  2: { apply Z.ltb_ge in E. right. split; [done|]. intros x Hx. apply Hused; lia. }
  apply Z.ltb_lt in E. assert (Hb0 : 0 ≤ k * BPB) by (unfold BPB; lia).
  set (bb := BBLOCK (k * BPB) (sb s)).
  assert (Ebb : ∀ bi, 0 ≤ bi < BPB → BBLOCK (k * BPB + bi) (sb s) = bb ∧ (k * BPB + bi) mod BPB = bi).
  { intros bi Hbi. unfold bb, BBLOCK. rewrite (Z.add_comm (k * BPB) bi).
    rewrite Z.div_add, Z.div_mul, Z.mod_add, Z.div_small, Z.mod_small by (unfold BPB in *; lia). done. }
  assert (Hbbh : bb ∉ held s).
  { intros Hin. destruct Hh as [_ Hh]. destruct (Hh _ Hin) as (_ & _ & Hnb). apply Hnb.
    apply bblock_bitmap. lia. }
  rewrite (bp_read_run bb s Hbbh). unfold bp_data. msimpl.
  cbn [blocks set_held]. destruct (free_bit _ _ _ _ _) as [bi|] eqn:Ef.
  - left. apply free_bit_Some in Ef as (Hbi & Hsize & Hbit & _).
    assert (Hbi' : 0 ≤ bi < BPB) by (unfold BPB in *; lia).
    set (a := k * BPB + bi) in *. destruct (Ebb bi Hbi') as [Ea1 Ea2]. fold a in Ea1, Ea2.
    assert (Hu : used s a = false) by (unfold used; by rewrite Ea1, Ea2).
    destruct (balloc_found s a Hl Hh ltac:(lia) Hu) as (Hal & _ & Hah). rewrite Ea1, Ea2 in Hal.
    exists a. eexists. split; [|exact Hal].
    unfold bp_store, bp_relse. msimpl. unfold set_held, set_blocks. cbn [held blocks sb itable].
    rewrite release_cons by done.
    rewrite bzero_run by done. unfold set_blocks. cbn [blocks held sb itable].
    done.
  - unfold bp_relse. msimpl. unfold set_held. cbn [held blocks sb itable]. rewrite release_cons by done.
    replace {| blocks := blocks s; held := held s; sb := sb s; itable := itable s |} with s by (by destruct s).
    replace (k * BPB + BPB) with ((k + 1) * BPB) by lia. apply IH; [lia|lia|].
    intros x Hx Hxs. destruct (decide (x < k * BPB)); [apply Hused; lia|].
    destruct (Ebb (x - k * BPB)) as [E1 E2]; [lia|].
    replace (k * BPB + (x - k * BPB)) with x in E1, E2 by lia. unfold used. rewrite E1, E2.
    eapply free_bit_None; [exact Ef| |lia]. unfold BPB in *. lia.
Qed.

(** [balloc] finds a free block whenever there is one. *)
Lemma balloc_spec s :
  layout_ok s → held_ok s →
  (∃ a s', balloc s = (Ret a, s') ∧ allocated s a s') ∨
  (balloc s = (Ret 0, s) ∧ ∀ x, 0 ≤ x < sb_size (sb s) → used s x = true).
Proof.
  intros Hl Hh. unfold balloc. msimpl. pose proof (lay_size s Hl) as Hs.
  apply (balloc_loop_spec _ 0 s); [done|done| |lia|lia].
  pose proof (Z.div_pos (sb_size (sb s)) BPB ltac:(lia) ltac:(unfold BPB; lia)).
  rewrite Z2Nat.id by lia. pose proof (Z.mod_pos_bound (sb_size (sb s)) BPB ltac:(unfold BPB; lia)).
  pose proof (Z.div_mod (sb_size (sb s)) BPB ltac:(unfold BPB; lia)). lia.
Qed.

Lemma bfree_spec s a :
  layout_ok s → held_ok s → is_data s a → used s a = true →
  ∃ s', bfree a s = (Ret (), s') ∧ freed s a s'.
Proof.
  intros Hl [Hnd Hh] Hd Hu. set (bb := BBLOCK a (sb s)).
  pose proof (lay_start s Hl) as Hst.
  assert (Ha : 0 ≤ a < sb_size (sb s)).
  { unfold is_data in Hd. pose proof (lay_size s Hl). assert (0 ≤ BBLOCK (sb_size (sb s) - 1) (sb s)); [|lia].
    unfold BBLOCK. pose proof (Z.div_pos (sb_size (sb s) - 1) BPB ltac:(lia) ltac:(unfold BPB; lia)). lia. }
  assert (Hbb : is_bitmap s bb) by (by apply bblock_bitmap).
  assert (Hbbh : bb ∉ held s) by (intros Hin; by destruct (Hh _ Hin) as (_ & _ & [])).
  set (s' := set_blocks (<[bb := clear_bit (a mod BPB) (blocks s bb)]> (blocks s)) s).
  assert (Hu1 : ∀ x, 0 ≤ x → used s' x = if decide (x = a) then false else used s x).
  { intros x Hx. apply used_store; [|done]. intros bi' Hbi'. apply bit_of_clear; [apply Hl| |done].
    apply mod_range. }
  exists s'. split.
  - unfold bfree. msimpl. fold bb. rewrite (bp_read_run bb s Hbbh). unfold bp_data. msimpl.
    rewrite mask_test. cbn [blocks set_held]. unfold used in Hu. fold bb in Hu. rewrite Hu. cbn [negb].
    unfold bp_store, bp_relse. msimpl. unfold set_held, set_blocks. cbn [held blocks sb itable].
    by rewrite release_cons.
  - split; try done.
    + intros x Hx. apply Hu1. lia.
    + intros x Hx. cbn. rewrite fn_lookup_insert_ne; [done|]. by intros ->.
    + apply layout_store; [done| |].
      * intros x Hx. fold bb. fold s'. rewrite Hu1 by lia. unfold is_data in Hd.
        rewrite decide_False by lia. by apply Hl.
      * rewrite length_clear_bit. apply Hl.
Qed.
