(* ===== verification/Inode.v ===== *)
(** * The file system: inodes (xv6/kernel/fs.c)

    The inode table, the copies of inodes on the disk, and the contents of a
    file through [bmap].  An inode in memory is named by its index in the
    table. *)

From S2P Require Export Fs.

#[local] Set Warnings "-clear-no-such-hyp".
#[local] Set Default Proof Using "Type".
Local Open Scope Z_scope.

Definition NINODE : nat := 50.
Definition T_DIR : Z := 1.

(** ** Inodes on the disk *)
Definition i16 (x : Z) : Z := (x + 2 ^ 15) mod 2 ^ 16 - 2 ^ 15.
Definition u16 (x : Z) : Z := x mod 2 ^ 16.

Record dinode := {
  d_type : Z; d_major : Z; d_minor : Z; d_nlink : Z; d_size : Z; d_addrs : list Z
}.

(** Where inode [inum] is in its block. *)
Definition dinode_offset (inum : Z) : nat := (Z.to_nat (inum mod IPB) * DINODE_SIZE)%nat.

Definition get_dinode (inum : Z) (b : block) : dinode :=
  let o := dinode_offset inum in
  {| d_type := i16 (le_get 2 o b); d_major := i16 (le_get 2 (o + 2) b);
     d_minor := i16 (le_get 2 (o + 4) b); d_nlink := i16 (le_get 2 (o + 6) b);
     d_size := le_get 4 (o + 8) b;
     d_addrs := (λ i, le_get 4 (o + 12 + 4 * i) b) <$> seq 0 (S NDIRECT) |}.

Definition dinode_bytes (d : dinode) : list Z :=
  le_bytes 2 (u16 (d_type d)) ++ le_bytes 2 (u16 (d_major d)) ++ le_bytes 2 (u16 (d_minor d)) ++
  le_bytes 2 (u16 (d_nlink d)) ++ le_bytes 4 (u32 (d_size d)) ++
  concat ((λ a, le_bytes 4 (u32 a)) <$> d_addrs d).

Definition put_dinode (inum : Z) (d : dinode) (b : block) : block :=
  splice (dinode_offset inum) (dinode_bytes d) b.

(** ** The table *)
Definition get_ip (ip : nat) : F inode := λ s,
  match itable s !! ip with Some i => (Ret i, s) | None => (Err (Panic "wild pointer"), s) end.
Definition set_ip (ip : nat) (f : inode → inode) : F () :=
  modify (λ s, set_itable (alter f ip (itable s)) s).

Definition with_ref (n : Z) (i : inode) : inode :=
  {| i_dev := i_dev i; i_inum := i_inum i; i_ref := n; i_lock := i_lock i; i_valid := i_valid i;
     i_type := i_type i; i_major := i_major i; i_minor := i_minor i; i_nlink := i_nlink i;
     i_size := i_size i; i_addrs := i_addrs i |}.
Definition with_ilock (lk : sleeplock) (i : inode) : inode :=
  {| i_dev := i_dev i; i_inum := i_inum i; i_ref := i_ref i; i_lock := lk; i_valid := i_valid i;
     i_type := i_type i; i_major := i_major i; i_minor := i_minor i; i_nlink := i_nlink i;
     i_size := i_size i; i_addrs := i_addrs i |}.
Definition with_ivalid (v : bool) (i : inode) : inode :=
  {| i_dev := i_dev i; i_inum := i_inum i; i_ref := i_ref i; i_lock := i_lock i; i_valid := v;
     i_type := i_type i; i_major := i_major i; i_minor := i_minor i; i_nlink := i_nlink i;
     i_size := i_size i; i_addrs := i_addrs i |}.
Definition with_nlink (n : Z) (i : inode) : inode :=
  {| i_dev := i_dev i; i_inum := i_inum i; i_ref := i_ref i; i_lock := i_lock i; i_valid := i_valid i;
     i_type := i_type i; i_major := i_major i; i_minor := i_minor i; i_nlink := n;
     i_size := i_size i; i_addrs := i_addrs i |}.
Definition with_size (n : Z) (i : inode) : inode :=
  {| i_dev := i_dev i; i_inum := i_inum i; i_ref := i_ref i; i_lock := i_lock i; i_valid := i_valid i;
     i_type := i_type i; i_major := i_major i; i_minor := i_minor i; i_nlink := i_nlink i;
     i_size := n; i_addrs := i_addrs i |}.
Definition with_addrs (l : list Z) (i : inode) : inode :=
  {| i_dev := i_dev i; i_inum := i_inum i; i_ref := i_ref i; i_lock := i_lock i; i_valid := i_valid i;
     i_type := i_type i; i_major := i_major i; i_minor := i_minor i; i_nlink := i_nlink i;
     i_size := i_size i; i_addrs := l |}.
Definition with_dinode (d : dinode) (i : inode) : inode :=
  {| i_dev := i_dev i; i_inum := i_inum i; i_ref := i_ref i; i_lock := i_lock i; i_valid := i_valid i;
     i_type := d_type d; i_major := d_major d; i_minor := d_minor d; i_nlink := d_nlink d;
     i_size := d_size d; i_addrs := d_addrs d |}.
Definition dinode_of (i : inode) : dinode :=
  {| d_type := i_type i; d_major := i_major i; d_minor := i_minor i; d_nlink := i_nlink i;
     d_size := i_size i; d_addrs := i_addrs i |}.

Definition zero_inode : inode :=
  {| i_dev := 0; i_inum := 0; i_ref := 0; i_lock := initsleeplock; i_valid := false; i_type := 0;
     i_major := 0; i_minor := 0; i_nlink := 0; i_size := 0; i_addrs := replicate (S NDIRECT) 0 |}.

Definition iinit : F () := modify (set_itable (replicate NINODE zero_inode)).

Definition iupdate (ip : nat) : F () :=
  s ← gets id;
  i ← get_ip ip;
  let bn := IBLOCK (i_inum i) (sb s) in
  bp_read bn;;
  bp_store bn (put_dinode (i_inum i) (dinode_of i));;
  bp_relse bn.

(** The entry of the inode, or the first free entry. *)
Fixpoint iget_scan (dev inum : Z) (t : list inode) (k : nat) (empty : option nat)
    : nat + option nat :=
  match t with
  | [] => inr empty
  | i :: t =>
      if (0 <? i_ref i) && (i_dev i =? dev) && (i_inum i =? inum) then inl k
      else
        iget_scan dev inum t (S k)
          match empty with
          | None => if i_ref i =? 0 then Some k else None
          | Some e => Some e
          end
  end.

Definition iget (dev inum : Z) : F nat :=
  s ← gets id;
  match iget_scan dev inum (itable s) 0 None with
  | inl ip => set_ip ip (λ i, with_ref (i_ref i + 1) i);; mret ip
  | inr None => throw (Panic "iget: no inodes")
  | inr (Some ip) =>
      set_ip ip (λ i,
        {| i_dev := dev; i_inum := inum; i_ref := 1; i_lock := i_lock i; i_valid := false;
           i_type := i_type i; i_major := i_major i; i_minor := i_minor i; i_nlink := i_nlink i;
           i_size := i_size i; i_addrs := i_addrs i |});;
      mret ip
  end.

Definition idup (ip : nat) : F nat := set_ip ip (λ i, with_ref (i_ref i + 1) i);; mret ip.

(** [None]: NULL, no free inode. *)
Fixpoint ialloc_loop (n : nat) (dev type inum : Z) : F (option nat) :=
  match n with
  | O => mret None
  | S n =>
      s ← gets id;
      if inum <? sb_ninodes (sb s) then
        let bn := IBLOCK inum (sb s) in
        bp_read bn;;
        data ← bp_data bn;
        if d_type (get_dinode inum data) =? 0 then
          bp_store bn (splice (dinode_offset inum) (replicate DINODE_SIZE 0));;
          bp_store bn (le_put 2 (dinode_offset inum) (u16 type));;
          bp_relse bn;;
          ip ← iget dev inum;
          mret (Some ip)
        else bp_relse bn;; ialloc_loop n dev type (inum + 1)
      else mret None
  end.

Definition ialloc (dev type : Z) : F (option nat) :=
  s ← gets id; ialloc_loop (Z.to_nat (sb_ninodes (sb s))) dev type 1.

Definition ifree (inum : Z) : F () :=
  s ← gets id;
  let bn := IBLOCK inum (sb s) in
  bp_read bn;;
  bp_store bn (le_put 2 (dinode_offset inum) 0);;
  bp_relse bn.

Section Locking.
Context (me : Z).

(** [None]: a null pointer. *)
Definition ilock (ip : option nat) : F () :=
  match ip with
  | None => throw (Panic "ilock")
  | Some ip =>
      s ← gets id;
      i ← get_ip ip;
      if i_ref i <? 1 then throw (Panic "ilock")
      else
        match acquiresleep me (i_lock i) with
        | None => throw Sleeps
        | Some lk =>
            set_ip ip (with_ilock lk);;
            if i_valid i then mret ()
            else
              let bn := IBLOCK (i_inum i) (sb s) in
              bp_read bn;;
              data ← bp_data bn;
              set_ip ip (with_dinode (get_dinode (i_inum i) data));;
              bp_relse bn;;
              set_ip ip (with_ivalid true);;
              i ← get_ip ip;
              if i_type i =? 0 then throw (Panic "ilock: no type") else mret ()
        end
  end.

Definition iunlock (ip : option nat) : F () :=
  match ip with
  | None => throw (Panic "iunlock")
  | Some ip =>
      i ← get_ip ip;
      if negb (holdingsleep me (i_lock i)) || (i_ref i <? 1) then throw (Panic "iunlock")
      else set_ip ip (λ i, with_ilock (releasesleep (i_lock i)) i)
  end.
End Locking.

(** ** The contents of a file *)
Definition addr_at (a : list Z) (k : nat) : Z := default 0 (a !! k).

(** The n-th entry of an indirect block. *)
Definition indirect_at (data : block) (n : nat) : Z := le_get 4 (4 * n) data.

(** The address of the indirect block, allocated if there is none. *)
Definition bmap_indirect (ip : nat) (i : inode) : F Z :=
  let addr := addr_at (i_addrs i) NDIRECT in
  if addr =? 0 then
    addr ← balloc;
    if addr =? 0 then mret 0
    else set_ip ip (λ i, with_addrs (<[NDIRECT := addr]> (i_addrs i)) i);; mret addr
  else mret addr.

(** Entry [k] of the indirect block, allocated if there is none. *)
Definition bmap_entry (ind : Z) (k : nat) : F Z :=
  bp_read ind;;
  a ← bp_data ind;
  let addr := indirect_at a k in
  addr ← (if addr =? 0 then
            addr ← balloc;
            (if addr =? 0 then mret () else bp_store ind (le_put 4 (4 * k) addr));;
            mret addr
          else mret addr);
  bp_relse ind;;
  mret addr.

Definition bmap (ip : nat) (bn : Z) : F Z :=
  i ← get_ip ip;
  if bn <? Z.of_nat NDIRECT then
    let addr := addr_at (i_addrs i) (Z.to_nat bn) in
    if addr =? 0 then
      addr ← balloc;
      if addr =? 0 then mret 0
      else set_ip ip (λ i, with_addrs (<[Z.to_nat bn := addr]> (i_addrs i)) i);; mret addr
    else mret addr
  else
    let bn := bn - Z.of_nat NDIRECT in
    if bn <? Z.of_nat NINDIRECT then
      ind ← bmap_indirect ip i;
      if ind =? 0 then mret 0 else bmap_entry ind (Z.to_nat bn)
    else throw (Panic "bmap: out of range").

(** [for (i = k; i < k + n; i++)] *)
Fixpoint ffor (k n : nat) (f : nat → F ()) : F () :=
  match n with
  | O => mret ()
  | S n => f k;; ffor (S k) n f
  end.

Definition itrunc (ip : nat) : F () :=
  ffor 0 NDIRECT (λ k,
    i ← get_ip ip;
    let addr := addr_at (i_addrs i) k in
    if addr =? 0 then mret ()
    else bfree addr;; set_ip ip (λ i, with_addrs (<[k := 0]> (i_addrs i)) i));;
  i ← get_ip ip;
  let ind := addr_at (i_addrs i) NDIRECT in
  (if ind =? 0 then mret ()
   else
     bp_read ind;;
     ffor 0 NINDIRECT (λ j,
       a ← bp_data ind;
       if indirect_at a j =? 0 then mret () else bfree (indirect_at a j));;
     bp_relse ind;;
     bfree ind;;
     set_ip ip (λ i, with_addrs (<[NDIRECT := 0]> (i_addrs i)) i));;
  set_ip ip (with_size 0);;
  iupdate ip.

Record stat := { st_dev : Z; st_ino : Z; st_type : Z; st_nlink : Z; st_size : Z }.

Definition stati (i : inode) : stat :=
  {| st_dev := i_dev i; st_ino := i_inum i; st_type := i_type i; st_nlink := i_nlink i;
     st_size := i_size i |}.

(** *** Reading

    [copyout tot m] says whether [either_copyout] can store [m] bytes at
    [dst + tot]; the bytes stored so far come with the result. *)
Fixpoint readi_loop (copyout : Z → Z → bool) (fuel : nat) (ip : nat) (off tot n : Z) (dst : list Z)
    : F (Z * list Z) :=
  if n <=? tot then mret (tot, dst)
  else
    match fuel with
    | O => nofuel
    | S fuel =>
        addr ← bmap ip (off / BSIZEz);
        if addr =? 0 then mret (tot, dst)
        else
          bp_read addr;;
          data ← bp_data addr;
          let m := Z.min (n - tot) (BSIZEz - off mod BSIZEz) in
          if copyout tot m then
            bp_relse addr;;
            readi_loop copyout fuel ip (off + m) (tot + m) n
              (dst ++ slice (Z.to_nat (off mod BSIZEz)) (Z.to_nat m) data)
          else bp_relse addr;; mret (-1, dst)
    end.

Definition readi (copyout : Z → Z → bool) (ip : nat) (off n : Z) : F (Z * list Z) :=
  i ← get_ip ip;
  if (i_size i <? off) || (u32 (off + n) <? off) then mret (0, [])
  else
    let n := if i_size i <? u32 (off + n) then i_size i - off else n in
    readi_loop copyout (S (Z.to_nat n)) ip off 0 n [].

(** *** Writing

    [copyin tot m] is what [either_copyin] stores of the [m] bytes at [src + tot]
    and whether it returns 0. *)
Fixpoint writei_loop (copyin : Z → Z → list Z * bool) (fuel : nat) (ip : nat) (off tot n : Z)
    : F (Z * Z) :=
  if n <=? tot then mret (off, tot)
  else
    match fuel with
    | O => nofuel
    | S fuel =>
        addr ← bmap ip (off / BSIZEz);
        if addr =? 0 then mret (off, tot)
        else
          bp_read addr;;
          let m := Z.min (n - tot) (BSIZEz - off mod BSIZEz) in
          let (bytes, ok) := copyin tot m in
          bp_store addr (splice (Z.to_nat (off mod BSIZEz)) bytes);;
          bp_relse addr;;
          if ok : bool then writei_loop copyin fuel ip (off + m) (tot + m) n
          else mret (off, tot)
    end.

(** -1, or the number of bytes written. *)
Definition writei (copyin : Z → Z → list Z * bool) (ip : nat) (off n : Z) : F Z :=
  i ← get_ip ip;
  if (i_size i <? off) || (u32 (off + n) <? off) then mret (-1)
  else if MAXFILE * BSIZEz <? u32 (off + n) then mret (-1)
  else
    '(off, tot) ← writei_loop copyin (S (Z.to_nat n)) ip off 0 n;
    i ← get_ip ip;
    (if i_size i <? off then set_ip ip (with_size off) else mret ());;
    iupdate ip;;
    mret tot.

(** ** Dropping an inode *)
Section Dropping.
Context (me : Z).

Definition iput (ip : nat) : F () :=
  i ← get_ip ip;
  let last := (i_ref i =? 1) && i_valid i && (i_nlink i =? 0) in
  (if last then
     match acquiresleep me (i_lock i) with
     | None => throw Sleeps
     | Some lk =>
         set_ip ip (with_ilock lk);;
         itrunc ip;;
         set_ip ip (with_ivalid false);;
         set_ip ip (λ i, with_ilock (releasesleep (i_lock i)) i)
     end
   else mret ());;
  set_ip ip (λ i, with_ref (i_ref i - 1) i);;
  if last then ifree (i_inum i) else mret ().

Definition iunlockput (ip : nat) : F () := iunlock me (Some ip);; iput ip.

Fixpoint ireclaim_loop (n : nat) (dev inum : Z) : F () :=
  match n with
  | O => mret ()
  | S n =>
      s ← gets id;
      if inum <? sb_ninodes (sb s) then
        let bn := IBLOCK inum (sb s) in
        bp_read bn;;
        data ← bp_data bn;
        let d := get_dinode inum data in
        ip ← (if negb (d_type d =? 0) && (d_nlink d =? 0) then ip ← iget dev inum; mret (Some ip)
              else mret None);
        bp_relse bn;;
        match ip with
        | Some ip => ilock me (Some ip);; iunlock me (Some ip);; iput ip
        | None => mret ()
        end;;
        ireclaim_loop n dev (inum + 1)
      else mret ()
  end.

Definition ireclaim (dev : Z) : F () :=
  s ← gets id; ireclaim_loop (Z.to_nat (sb_ninodes (sb s))) dev 1.

(** [initlog] is the recovery of [Log], which changes the blocks. *)
Definition fsinit (initlog : F ()) (dev : Z) : F () :=
  readsb;;
  s ← gets id;
  if negb (sb_magic (sb s) =? FSMAGIC) then throw (Panic "invalid file system")
  else initlog;; ireclaim dev.
End Dropping.
