(* ===== verification/Dinode.v ===== *)
(** * The copies of inodes on the disk (xv6/kernel/fs.c, fs.h)

    A [struct dinode] is 64 bytes of an inode block: what [iupdate] stores is
    what [ilock] loads, and the other inodes of the block stay. *)

From S2P Require Export Inode.

#[local] Set Warnings "-clear-no-such-hyp".
#[local] Set Default Proof Using "Type".
Local Open Scope Z_scope.

(** ** Words in a sequence of bytes *)
Lemma le_get_app_r n off l1 l2 :
  (length l1 ≤ off)%nat → le_get n off (l1 ++ l2) = le_get n (off - length l1) l2.
Proof. intros H. unfold le_get, slice. by rewrite drop_app_ge. Qed.

Lemma le_get_app_l n off l1 l2 :
  (off + n ≤ length l1)%nat → le_get n off (l1 ++ l2) = le_get n off l1.
Proof.
  intros H. unfold le_get, slice. rewrite drop_app_le by lia. by rewrite take_app_le by (rewrite length_drop; lia).
Qed.

Lemma le_get_bytes n v : 0 ≤ v < 256 ^ Z.of_nat n → le_get n 0 (le_bytes n v) = v.
Proof. intros H. unfold le_get. rewrite slice_all by apply length_le_bytes. by apply le_value_bytes. Qed.

Lemma le_get_splice n off o new bs :
  (o + length new ≤ length bs)%nat → (off + n ≤ length new)%nat →
  le_get n (o + off) (splice o new bs) = le_get n off new.
Proof.
  intros H1 H2. unfold le_get. f_equal. apply list_eq. intros j. destruct (decide (j < n)%nat).
  - rewrite !slice_lookup by done. rewrite splice_lookup_in by lia. f_equal. lia.
  - unfold slice. by rewrite !lookup_take_ge by lia.
Qed.

Lemma length_words (l : list Z) : length (concat ((λ v, le_bytes 4 (u32 v)) <$> l)) = (4 * length l)%nat.
Proof. induction l as [|v l IH]; [done|]. cbn [fmap list_fmap concat length]. rewrite length_app, length_le_bytes, IH. lia. Qed.

Lemma le_get_words l k v :
  l !! k = Some v → 0 ≤ v < 2 ^ 32 → le_get 4 (4 * k) (concat ((λ v, le_bytes 4 (u32 v)) <$> l)) = v.
Proof.
  revert k. induction l as [|w l IH]; intros k Hk Hv; [done|]. cbn [fmap list_fmap concat].
  destruct k as [|k].
  - injection Hk as ->. rewrite le_get_app_l by (rewrite length_le_bytes; lia).
    replace (u32 v) with v by (symmetry; by apply Z.mod_small). by apply le_get_bytes.
  - rewrite le_get_app_r; rewrite length_le_bytes; [|lia].
    replace (4 * S k - 4)%nat with (4 * k)%nat by lia. by apply IH.
Qed.

Lemma i16_u16 x : - 2 ^ 15 ≤ x < 2 ^ 15 → i16 (u16 x) = x.
Proof.
  intros H. unfold i16, u16. rewrite Z.add_mod_idemp_l by done.
  rewrite Z.mod_small; lia.
Qed.

(** ** The round trip *)
Record dinode_ok (d : dinode) : Prop := {
  dk_type : - 2 ^ 15 ≤ d_type d < 2 ^ 15;
  dk_major : - 2 ^ 15 ≤ d_major d < 2 ^ 15;
  dk_minor : - 2 ^ 15 ≤ d_minor d < 2 ^ 15;
  dk_nlink : - 2 ^ 15 ≤ d_nlink d < 2 ^ 15;
  dk_size : 0 ≤ d_size d < 2 ^ 32;
  dk_len : length (d_addrs d) = S NDIRECT;
  dk_addrs : Forall (λ v, 0 ≤ v < 2 ^ 32) (d_addrs d)
}.

Lemma length_dinode_bytes d : length (d_addrs d) = S NDIRECT → length (dinode_bytes d) = DINODE_SIZE.
Proof.
  intros H. unfold dinode_bytes. rewrite !length_app, !length_le_bytes, length_words, H. done.
Qed.

Lemma dinode_offset_bound inum : (dinode_offset inum + DINODE_SIZE ≤ BSIZE)%nat.
Proof.
  unfold dinode_offset, DINODE_SIZE, BSIZE, IPB. pose proof (Z.mod_pos_bound inum 16 ltac:(done)). lia.
Qed.

Ltac skip_word := rewrite le_get_app_r; rewrite !length_le_bytes; [|lia].
Ltac take_word := rewrite le_get_app_l by (rewrite length_le_bytes; lia).

Lemma word16 x : - 2 ^ 15 ≤ x < 2 ^ 15 → i16 (le_get 2 0 (le_bytes 2 (u16 x))) = x.
Proof.
  intros H. rewrite le_get_bytes; [by apply i16_u16|]. unfold u16. apply (Z.mod_pos_bound x (2 ^ 16)). done.
Qed.

Lemma get_put_dinode inum d b :
  length b = BSIZE → dinode_ok d → get_dinode inum (put_dinode inum d b) = d.
Proof.
  intros Hb [H1 H2 H3 H4 H5 H6 H7]. pose proof (length_dinode_bytes d H6) as HL.
  pose proof (dinode_offset_bound inum) as Ho. unfold get_dinode, put_dinode.
  set (o := dinode_offset inum) in *. rewrite <-(Nat.add_0_r o) at 1.
  rewrite !(le_get_splice _ _ o) by (rewrite ?HL, ?Hb; unfold DINODE_SIZE in *; lia).
  unfold dinode_bytes in HL |- *. destruct d as [ty ma mi nl sz ad]. cbn [d_type d_major d_minor d_nlink d_size d_addrs] in *.
  f_equal.
  - take_word. by apply word16.
  - skip_word. take_word. by apply word16.
  - do 2 skip_word. take_word. by apply word16.
  - do 3 skip_word. take_word. by apply word16.
  - do 4 skip_word. take_word. replace (u32 sz) with sz by (symmetry; by apply Z.mod_small).
    by apply le_get_bytes.
  - apply list_eq. intros k. rewrite list_lookup_fmap. destruct (decide (k < S NDIRECT)%nat) as [Hk|Hk].
    + rewrite lookup_seq_lt by done. cbn [fmap option_fmap option_map]. rewrite Nat.add_0_l.
      destruct (lookup_lt_is_Some_2 ad k) as [v Hv]; [lia|]. rewrite Hv. f_equal.
      unfold NDIRECT in *. rewrite <-!Nat.add_assoc.
      rewrite (le_get_splice _ _ o) by (rewrite ?HL, ?Hb; unfold DINODE_SIZE in *; lia).
      do 5 skip_word. replace (12 + 4 * k - 2 - 2 - 2 - 2 - 4)%nat with (4 * k)%nat by lia.
      apply le_get_words; [done|]. rewrite Forall_lookup in H7. by apply (H7 k).
    + rewrite !lookup_ge_None_2; [done|lia|]. rewrite length_seq. lia.
Qed.

(** The other inodes of the block. *)
Lemma get_put_dinode_ne inum inum' d b :
  length b = BSIZE → length (d_addrs d) = S NDIRECT → inum mod IPB ≠ inum' mod IPB →
  get_dinode inum' (put_dinode inum d b) = get_dinode inum' b.
Proof.
  intros Hb Hd Hne. pose proof (length_dinode_bytes d Hd) as HL. pose proof (dinode_offset_bound inum) as Ho.
  assert (Hdis : (dinode_offset inum' + DINODE_SIZE ≤ dinode_offset inum ∨
                  dinode_offset inum + DINODE_SIZE ≤ dinode_offset inum')%nat).
  { unfold dinode_offset, DINODE_SIZE, IPB in *. pose proof (Z.mod_pos_bound inum 16 ltac:(done)).
    pose proof (Z.mod_pos_bound inum' 16 ltac:(done)). lia. }
  unfold get_dinode, put_dinode, DINODE_SIZE in *.
  f_equal; try (f_equal; apply le_get_splice_ne; lia).
  - apply le_get_splice_ne; lia.
  - apply list_eq. intros k. rewrite !list_lookup_fmap. destruct (decide (k < S NDIRECT)%nat) as [Hk|Hk].
    + rewrite lookup_seq_lt by done. cbn [fmap option_fmap option_map]. f_equal. unfold NDIRECT in Hk.
      apply le_get_splice_ne; lia.
    + by rewrite !lookup_ge_None_2 by (rewrite length_seq; lia).
Qed.

Lemma length_put_dinode inum d b :
  length b = BSIZE → length (d_addrs d) = S NDIRECT → length (put_dinode inum d b) = BSIZE.
Proof.
  intros Hb Hd. unfold put_dinode. rewrite length_splice; [done|]. rewrite (length_dinode_bytes d Hd), Hb.
  apply dinode_offset_bound.
Qed.
