(* ===== verification/Content.v ===== *)
(** * The contents of files (xv6/kernel/fs.c)

    What [bmap], [readi], [writei] and [itrunc] do to a file whose blocks are
    its own: [file_ok].  The address of the n-th block is [addr_of]. *)

From S2P Require Export Inode.

#[local] Set Warnings "-clear-no-such-hyp".
#[local] Set Default Proof Using "Type".
Local Open Scope Z_scope.

Definition NFILE_BLOCKS : nat := NDIRECT + NINDIRECT.

(** The address of block [n] of a file, 0 when it has none. *)
Definition addr_of (B : Z → block) (a : list Z) (n : nat) : Z :=
  if (n <? NDIRECT)%nat then addr_at a n
  else
    let ind := addr_at a NDIRECT in
    if ind =? 0 then 0 else indirect_at (B ind) (n - NDIRECT).

(** A block that belongs to a file. *)
Record owned (s : fs) (x : Z) : Prop := {
  ow_data : is_data s x;
  ow_used : used s x = true;
  ow_held : x ∉ held s
}.

Record file_ok (s : fs) (a : list Z) : Prop := {
  fo_len : length a = S NDIRECT;
  fo_addr : ∀ n, (n < NFILE_BLOCKS)%nat → addr_of (blocks s) a n ≠ 0 → owned s (addr_of (blocks s) a n);
  fo_ind : addr_at a NDIRECT ≠ 0 → owned s (addr_at a NDIRECT);
  fo_inj : ∀ n m, (n < NFILE_BLOCKS)%nat → (m < NFILE_BLOCKS)%nat → addr_of (blocks s) a n ≠ 0 →
    addr_of (blocks s) a n = addr_of (blocks s) a m → n = m;
  fo_ne : ∀ n, (n < NFILE_BLOCKS)%nat → addr_of (blocks s) a n ≠ 0 →
    addr_of (blocks s) a n ≠ addr_at a NDIRECT
}.

Lemma owned_pos s x : layout_ok s → owned s x → 0 < x < sb_size (sb s).
Proof.
  intros Hl [[H1 H2] _ _]. pose proof (lay_start s Hl). pose proof (lay_size s Hl). split; [|done].
  assert (0 ≤ BBLOCK (sb_size (sb s) - 1) (sb s)); [|lia].
  unfold BBLOCK. pose proof (Z.div_pos (sb_size (sb s) - 1) BPB ltac:(lia) ltac:(unfold BPB; lia)). lia.
Qed.

Lemma data_pos s x : layout_ok s → is_data s x → 0 < x < sb_size (sb s).
Proof.
  intros Hl [H1 H2]. pose proof (lay_start s Hl). pose proof (lay_size s Hl). split; [|done].
  assert (0 ≤ BBLOCK (sb_size (sb s) - 1) (sb s)); [|lia].
  unfold BBLOCK. pose proof (Z.div_pos (sb_size (sb s) - 1) BPB ltac:(lia) ltac:(unfold BPB; lia)). lia.
Qed.

Lemma addr_of_ext B B' a a' n :
  (∀ k, addr_at a k = addr_at a' k) → (addr_at a NDIRECT ≠ 0 → B (addr_at a NDIRECT) = B' (addr_at a NDIRECT)) →
  addr_of B a n = addr_of B' a' n.
Proof.
  intros Ha HB. unfold addr_of. rewrite <-!Ha. destruct (n <? NDIRECT)%nat; [done|].
  destruct (addr_at a NDIRECT =? 0) eqn:E; [done|]. apply Z.eqb_neq in E. by rewrite HB.
Qed.

Lemma addr_at_insert a k v j :
  (k < length a)%nat → addr_at (<[k := v]> a) j = if decide (j = k) then v else addr_at a j.
Proof.
  intros Hk. unfold addr_at. case_decide as E.
  - subst. by rewrite list_lookup_insert_eq.
  - by rewrite list_lookup_insert_ne.
Qed.

Lemma indirect_zero n : (n < NINDIRECT)%nat → indirect_at zero_block n = 0.
Proof.
  intros Hn. unfold indirect_at, le_get, slice, zero_block, BSIZE. rewrite drop_replicate, take_replicate.
  assert (E : ∀ k, le_value (replicate k 0) = 0) by (induction k as [|k IH]; [done|]; simpl; lia). apply E.
Qed.

Lemma indirect_put d n v m :
  length d = BSIZE → (n < NINDIRECT)%nat → (m < NINDIRECT)%nat → 0 ≤ v < 2 ^ 32 →
  indirect_at (le_put 4 (4 * n) v d) m = if decide (m = n) then v else indirect_at d m.
Proof.
  intros Hd Hn Hm Hv. unfold indirect_at, NINDIRECT, BSIZE in *. case_decide as E.
  - subst. apply le_get_put_eq; [lia|]. done.
  - apply le_get_put_ne; lia.
Qed.

Lemma owned_allocated s b s' x : allocated s b s' → layout_ok s → owned s x → owned s' x ∧ x ≠ b.
Proof.
  intros Hal Hl [H1 H2 H3]. split.
  - split.
    + unfold is_data in *. by rewrite (al_sb _ _ _ Hal).
    + pose proof (data_pos s x Hl H1). rewrite (al_used _ _ _ Hal) by lia. by case_decide.
    + by rewrite (al_held _ _ _ Hal).
  - intros ->. by rewrite (al_free _ _ _ Hal) in H2.
Qed.

Lemma blocks_allocated s b s' x : allocated s b s' → layout_ok s → owned s x → blocks s' x = blocks s x.
Proof.
  intros Hal Hl Ho. destruct (owned_allocated _ _ _ _ Hal Hl Ho) as [_ Hne].
  apply (al_same _ _ _ Hal); [done|]. apply bitmap_not_data, Ho.
Qed.

Lemma addr_allocated s b s' a n :
  allocated s b s' → layout_ok s → file_ok s a → addr_of (blocks s') a n = addr_of (blocks s) a n.
Proof.
  intros Hal Hl Hf. apply addr_of_ext; [done|]. intros Hi. eapply blocks_allocated; [done..|].
  by apply (fo_ind _ _ Hf).
Qed.

Lemma file_allocated s b s' a :
  allocated s b s' → layout_ok s → file_ok s a → file_ok s' a.
Proof.
  intros Hal Hl Hf. destruct Hf as [H1 H2 H3 H4 H5] eqn:E. pose proof (addr_allocated s b s' a) as Ha.
  split; [done| | | |].
  - intros n Hn. rewrite Ha by done. intros H0. eapply owned_allocated; [done..|by apply H2].
  - intros H0. eapply owned_allocated; [done..|by apply H3].
  - intros n m Hn Hm. rewrite !Ha by done. by apply H4.
  - intros n Hn. rewrite Ha by done. by apply H5.
Qed.

(** The block just allocated, when its buffer is not held. *)
Lemma owned_new s b s' : allocated s b s' → held_ok s → layout_ok s → owned s' b.
Proof.
  intros Hal [_ Hh] Hl. pose proof (al_data _ _ _ Hal) as Hd. split.
  - unfold is_data in *. by rewrite (al_sb _ _ _ Hal).
  - pose proof (data_pos s b Hl Hd). rewrite (al_used _ _ _ Hal) by lia. by rewrite decide_True.
  - rewrite (al_held _ _ _ Hal). intros Hin. destruct (Hh _ Hin) as (_ & Hu & _).
    by rewrite (al_free _ _ _ Hal) in Hu.
Qed.

Lemma held_allocated s b s' : allocated s b s' → held_ok s → held_ok s'.
Proof.
  intros Hal [Hnd Hh]. split; rewrite (al_held _ _ _ Hal); [done|]. intros x Hx.
  destruct (Hh x Hx) as (H1 & H2 & H3). rewrite (al_sb _ _ _ Hal). split; [done|]. split.
  - rewrite (al_used _ _ _ Hal) by done. by case_decide.
  - by rewrite (is_bitmap_sb s s' x (al_sb _ _ _ Hal)).
Qed.

(** Adding a new block to the addresses. *)
Lemma file_add s a s' a' n b :
  file_ok s a → length a' = S NDIRECT → (n < NFILE_BLOCKS)%nat → 
  (∀ m, (m < NFILE_BLOCKS)%nat → addr_of (blocks s') a' m = if decide (m = n) then b else addr_of (blocks s) a m) →
  addr_at a' NDIRECT = addr_at a NDIRECT →
  (∀ x, owned s x → owned s' x ∧ x ≠ b) → owned s' b → file_ok s' a'.
Proof.
  intros Hf Hlen Hn Hm Hi Hown Hb. destruct Hf as [H1 H2 H3 H4 H5]. split; [done| | | |].
  - intros k Hk. rewrite Hm by done. case_decide; [done|]. intros H0. by apply Hown, H2.
  - rewrite Hi. intros H0. by apply Hown, H3.
  - intros k m Hk Hkm. rewrite !Hm by done. repeat case_decide; subst; try done.
    + intros Hz E. destruct (Hown b); [|done]. rewrite E. apply H2; [done|congruence].
    + intros Hz E. destruct (Hown b); [|done]. rewrite <-E. by apply H2.
    + by apply H4.
  - intros k Hk. rewrite Hm, Hi by done. case_decide; [|by apply H5]. intros H0 E.
    destruct (Hown b); [|done]. rewrite E. apply H3. congruence.
Qed.

(** Only the table changes. *)
Lemma owned_table s t x : owned (set_itable t s) x ↔ owned s x.
Proof. by split; intros [H1 H2 H3]. Qed.

Lemma file_ok_table s t a : file_ok (set_itable t s) a ↔ file_ok s a.
Proof.
  split; intros [H1 H2 H3 H4 H5]; (split; [done| | |done|done]).
  - intros n Hn Hz. apply (owned_table s t). by apply H2.
  - intros Hz. apply (owned_table s t). by apply H3.
  - intros n Hn Hz. apply (owned_table s t). by apply H2.
  - intros Hz. apply (owned_table s t). by apply H3.
Qed.

Lemma layout_table s t : layout_ok s → layout_ok (set_itable t s).
Proof. by intros [H1 H2 H3 H4 H5]. Qed.

Lemma held_ok_table s t : held_ok s → held_ok (set_itable t s).
Proof. done. Qed.

Lemma get_ip_run ip i s : itable s !! ip = Some i → get_ip ip s = (Ret i, s).
Proof. intros H. unfold get_ip. by rewrite H. Qed.

Lemma set_ip_run ip f i s :
  itable s !! ip = Some i → set_ip ip f s = (Ret (), set_itable (<[ip := f i]> (itable s)) s).
Proof. intros H. unfold set_ip. msimpl. by rewrite (list_alter_insert f _ _ i H). Qed.

(** What [bmap] leaves. *)
Record mapped (s : fs) (ip : nat) (i : inode) (n : nat) (r : Z) (s' : fs) (a' : list Z) : Prop := {
  mp_itable : itable s' = <[ip := with_addrs a' i]> (itable s);
  mp_held : held s' = held s;
  mp_sb : sb s' = sb s;
  mp_layout : layout_ok s';
  mp_heldok : held_ok s';
  mp_file : file_ok s' a';
  mp_result : r = addr_of (blocks s') a' n;
  mp_other : ∀ m, (m < NFILE_BLOCKS)%nat → m ≠ n →
    addr_of (blocks s') a' m = addr_of (blocks s) (i_addrs i) m;
  mp_old : addr_of (blocks s) (i_addrs i) n ≠ 0 →
    r = addr_of (blocks s) (i_addrs i) n ∧ ∀ x, blocks s' x = blocks s x;
  mp_new : addr_of (blocks s) (i_addrs i) n = 0 → r ≠ 0 → blocks s' r = zero_block ∧ used s r = false;
  mp_frame : ∀ x, owned s x → x ≠ addr_at (i_addrs i) NDIRECT → blocks s' x = blocks s x;
  mp_ind : ∀ x, owned s x → x ≠ addr_at (i_addrs i) NDIRECT → x ≠ addr_at a' NDIRECT;
  mp_meta : ∀ x, x < sb_bmapstart (sb s) → blocks s' x = blocks s x;
  mp_used : ∀ x, 0 ≤ x < sb_size (sb s) → used s x = true → used s' x = true;
  mp_grow : ∀ x, 0 ≤ x < sb_size (sb s) → used s' x = true →
    used s x = true ∨ x = r ∨ x = addr_at a' NDIRECT;
  mp_full : r = 0 → ∀ x, 0 ≤ x < sb_size (sb s) → used s' x = true
}.

Lemma insert_same_addrs (s : fs) ip i :
  itable s !! ip = Some i → <[ip := with_addrs (i_addrs i) i]> (itable s) = itable s.
Proof. intros H. apply list_insert_id. rewrite H. by destruct i. Qed.

(** Nothing happens. *)
Lemma mapped_same s ip i n r :
  itable s !! ip = Some i → layout_ok s → held_ok s → file_ok s (i_addrs i) →
  r = addr_of (blocks s) (i_addrs i) n → (r = 0 → ∀ x, 0 ≤ x < sb_size (sb s) → used s x = true) →
  mapped s ip i n r s (i_addrs i).
Proof.
  intros Hi Hl Hh Hf Hr Hfull. split; try done.
  - by rewrite insert_same_addrs.
  - by intros Hz Hr0; rewrite Hr in Hr0.
  - by left.
Qed.

Lemma meta_same s b s' x :
  allocated s b s' → layout_ok s → x < sb_bmapstart (sb s) → blocks s' x = blocks s x.
Proof.
  intros Hal Hl Hx. pose proof (lay_start s Hl). pose proof (lay_size s Hl) as Hsz.
  assert (Hb : sb_bmapstart (sb s) ≤ BBLOCK (sb_size (sb s) - 1) (sb s)).
  { unfold BBLOCK. pose proof (Z.div_pos (sb_size (sb s) - 1) BPB ltac:(lia) ltac:(unfold BPB; lia)). lia. }
  apply (al_same _ _ _ Hal).
  - intros ->. pose proof (al_data _ _ _ Hal) as [Hd _]. lia.
  - unfold is_bitmap. lia.
Qed.

Section Bmap.
Context (s : fs) (ip : nat) (i : inode) (n : nat).
Context (Hi : itable s !! ip = Some i) (Hl : layout_ok s) (Hh : held_ok s) (Hf : file_ok s (i_addrs i)).
Let a := i_addrs i.

Lemma bmap_direct :
  (n < NDIRECT)%nat → ∃ r s' a', bmap ip (Z.of_nat n) s = (Ret r, s') ∧ mapped s ip i n r s' a'.
Proof using Hi Hl Hh Hf.
  intros Hn. unfold bmap. rewrite (bind_run _ _ _ _ _ (get_ip_run ip i s Hi)).
  rewrite (proj2 (Z.ltb_lt _ _)) by lia. rewrite Nat2Z.id. cbv zeta.
  assert (Ea : addr_of (blocks s) a n = addr_at a n)
    by (unfold addr_of; by rewrite (proj2 (Nat.ltb_lt n NDIRECT))).
  fold a. destruct (addr_at a n =? 0) eqn:E.
  2: { apply Z.eqb_neq in E. exists (addr_at a n), s, a. split; [done|]. by apply mapped_same. }
  apply Z.eqb_eq in E. destruct (balloc_spec s Hl Hh) as [(b & s1 & Erun & Hal)|[Erun Hfull]].
  2: { rewrite (bind_run _ _ _ _ _ Erun). exists 0, s, a. split; [done|].
       apply mapped_same; try done. fold a. by rewrite Ea. }
  rewrite (bind_run _ _ _ _ _ Erun). pose proof (data_pos s b Hl (al_data _ _ _ Hal)) as Hb.
  rewrite (proj2 (Z.eqb_neq b 0)) by lia.
  assert (Hi1 : itable s1 !! ip = Some i) by (by rewrite (al_itable _ _ _ Hal)).
  rewrite (bind_run _ _ _ _ _ (set_ip_run ip _ i s1 Hi1)).
  set (a' := <[n := b]> a). set (s' := set_itable (<[ip := with_addrs a' i]> (itable s1)) s1).
  pose proof (fo_len _ _ Hf) as Hlen. fold a in Hlen.
  assert (Haddr : ∀ k, addr_at a' k = if decide (k = n) then b else addr_at a k)
    by (intros k; apply addr_at_insert; lia).
  assert (Hmap : ∀ m, addr_of (blocks s') a' m = if decide (m = n) then b else addr_of (blocks s) a m).
  { intros m. rewrite <-(addr_allocated s b s1 a m Hal Hl Hf). unfold addr_of. rewrite !Haddr.
    rewrite (decide_False (P := NDIRECT = n)) by lia.
    destruct (m <? NDIRECT)%nat eqn:Em; [done|]. apply Nat.ltb_ge in Em. by rewrite decide_False by lia. }
  exists b, s', a'. split; [done|].
  assert (Hno : b ≠ 0) by lia.
  split; try done.
  - cbn. by rewrite (al_itable _ _ _ Hal).
  - apply (al_held _ _ _ Hal).
  - apply (al_sb _ _ _ Hal).
  - apply layout_table, (al_layout _ _ _ Hal).
  - apply held_ok_table. by eapply held_allocated.
  - apply file_ok_table. eapply (file_add s a s1 a' n b); [done| |unfold NFILE_BLOCKS; lia| | | |].
    + unfold a'. by rewrite length_insert.
    + intros m _. apply Hmap.
    + rewrite Haddr. by rewrite decide_False by lia.
    + intros x Hx. by eapply owned_allocated.
    + by eapply owned_new.
  - rewrite Hmap. by rewrite decide_True.
  - intros m _ Hm. rewrite Hmap. by rewrite decide_False.
  - fold a. rewrite Ea, E. done.
  - intros _ _. split; [apply (al_zero _ _ _ Hal)|apply (al_free _ _ _ Hal)].
  - intros x Hx _. change (blocks s1 x = blocks s x). by apply (blocks_allocated s b s1).
  - intros x _ Hx. rewrite Haddr. by rewrite decide_False by lia.
  - intros x Hx. change (blocks s1 x = blocks s x). by apply (meta_same s b s1).
  - intros x Hx Hu. change (used s1 x = true). rewrite (al_used _ _ _ Hal) by done. by case_decide.
  - intros x Hx. change (used s1 x = true → used s x = true ∨ x = b ∨ x = addr_at a' NDIRECT).
    rewrite (al_used _ _ _ Hal) by done. case_decide; [by right; left|by left].
Qed.

(** The indirect block is there; the mapping is the same. *)
Record ind_loaded (r : Z) (s1 : fs) (a1 : list Z) : Prop := {
  il_itable : itable s1 = <[ip := with_addrs a1 i]> (itable s);
  il_held : held s1 = held s;
  il_sb : sb s1 = sb s;
  il_layout : layout_ok s1;
  il_heldok : held_ok s1;
  il_file : file_ok s1 a1;
  il_result : r = addr_at a1 NDIRECT;
  il_addr : ∀ m, (m < NFILE_BLOCKS)%nat → addr_of (blocks s1) a1 m = addr_of (blocks s) a m;
  il_old : addr_at a NDIRECT ≠ 0 → r = addr_at a NDIRECT ∧ s1 = s;
  il_new : addr_at a NDIRECT = 0 → ∀ x, owned s x → x ≠ r;
  il_owned : ∀ x, owned s x → owned s1 x;
  il_frame : ∀ x, owned s x → blocks s1 x = blocks s x;
  il_meta : ∀ x, x < sb_bmapstart (sb s) → blocks s1 x = blocks s x;
  il_used : ∀ x, 0 ≤ x < sb_size (sb s) → used s x = true → used s1 x = true;
  il_grow : ∀ x, 0 ≤ x < sb_size (sb s) → used s1 x = true → used s x = true ∨ x = addr_at a1 NDIRECT;
  il_full : r = 0 → ∀ x, 0 ≤ x < sb_size (sb s) → used s1 x = true
}.

Lemma ind_loaded_same r :
  r = addr_at a NDIRECT → (r = 0 → ∀ x, 0 ≤ x < sb_size (sb s) → used s x = true) → ind_loaded r s a.
Proof using Hi Hl Hh Hf.
  intros Hr Hfull. split; try done.
  - unfold a. by rewrite insert_same_addrs.
  - intros Hz x Hx ->. rewrite Hr, Hz in Hx. pose proof (owned_pos s 0 Hl Hx). lia.
  - by left.
Qed.

Lemma bmap_indirect_spec : ∃ r s1 a1, bmap_indirect ip i s = (Ret r, s1) ∧ ind_loaded r s1 a1.
Proof using Hi Hl Hh Hf.
  unfold bmap_indirect. cbv zeta. fold a. destruct (addr_at a NDIRECT =? 0) eqn:E.
  2: { apply Z.eqb_neq in E. eexists _, s, a. split; [done|]. by apply ind_loaded_same. }
  apply Z.eqb_eq in E. destruct (balloc_spec s Hl Hh) as [(b & s1 & Erun & Hal)|[Erun Hfull]].
  2: { rewrite (bind_run _ _ _ _ _ Erun). exists 0, s, a. split; [done|]. by apply ind_loaded_same. }
  rewrite (bind_run _ _ _ _ _ Erun). pose proof (data_pos s b Hl (al_data _ _ _ Hal)) as Hb.
  rewrite (proj2 (Z.eqb_neq b 0)) by lia.
  assert (Hi1 : itable s1 !! ip = Some i) by (by rewrite (al_itable _ _ _ Hal)).
  rewrite (bind_run _ _ _ _ _ (set_ip_run ip _ i s1 Hi1)). fold a.
  set (a' := <[NDIRECT := b]> a). set (s' := set_itable (<[ip := with_addrs a' i]> (itable s1)) s1).
  pose proof (fo_len _ _ Hf) as Hlen. fold a in Hlen.
  assert (Haddr : ∀ k, addr_at a' k = if decide (k = NDIRECT) then b else addr_at a k)
    by (intros k; apply addr_at_insert; lia).
  assert (Hmap : ∀ m, (m < NFILE_BLOCKS)%nat → addr_of (blocks s') a' m = addr_of (blocks s) a m).
  { intros m Hm. unfold addr_of. rewrite !Haddr, E. destruct (m <? NDIRECT)%nat eqn:Em.
    - apply Nat.ltb_lt in Em. by rewrite decide_False by lia.
    - apply Nat.ltb_ge in Em. rewrite decide_True by done. rewrite (proj2 (Z.eqb_neq b 0)) by lia.
      change (blocks s' b) with (blocks s1 b). rewrite (al_zero _ _ _ Hal). simpl.
      apply indirect_zero. unfold NFILE_BLOCKS in Hm. lia. }
  assert (Hown : ∀ x, owned s x → owned s1 x ∧ x ≠ b) by (intros x Hx; by eapply owned_allocated).
  exists b, s', a'. split; [done|]. split; try done.
  - cbn. by rewrite (al_itable _ _ _ Hal).
  - apply (al_held _ _ _ Hal).
  - apply (al_sb _ _ _ Hal).
  - apply layout_table, (al_layout _ _ _ Hal).
  - apply held_ok_table. by eapply held_allocated.
  - destruct Hf as [F1 F2 F3 F4 F5]. fold a in F1, F2, F3, F4, F5. split.
    + unfold a'. by rewrite length_insert.
    + intros m Hm. rewrite Hmap by done. intros Hz. apply owned_table, Hown, F2; done.
    + rewrite Haddr, decide_True by done. intros _. apply owned_table. by eapply owned_new.
    + intros m k Hm Hk. rewrite !Hmap by done. by apply F4.
    + intros m Hm. rewrite Hmap by done. intros Hz. rewrite Haddr, decide_True by done.
      by apply Hown, F2.
  - intros _ x Hx. by apply Hown.
  - intros x Hx. by apply owned_table, Hown.
  - intros x Hx. change (blocks s1 x = blocks s x). by apply (blocks_allocated s b s1).
  - intros x Hx. change (blocks s1 x = blocks s x). by apply (meta_same s b s1).
  - intros x Hx Hu. change (used s1 x = true). rewrite (al_used _ _ _ Hal) by done. by case_decide.
  - intros x Hx. change (used s1 x = true → used s x = true ∨ x = addr_at a' NDIRECT).
    rewrite (al_used _ _ _ Hal), Haddr by done. rewrite (decide_True (P := NDIRECT = NDIRECT)) by done.
    case_decide; [by right|by left].
  - lia.
Qed.

(** An entry of an indirect block. *)
Lemma bmap_entry_spec ind :
  ind = addr_at a NDIRECT → ind ≠ 0 → (NDIRECT ≤ n < NFILE_BLOCKS)%nat →
  ∃ r s', bmap_entry ind (n - NDIRECT) s = (Ret r, s') ∧ mapped s ip i n r s' a.
Proof using Hi Hl Hh Hf.
  intros -> Hind Hn. set (ind := addr_at a NDIRECT) in *.
  pose proof (fo_ind _ _ Hf Hind) as Ho. fold a in Ho. fold ind in Ho. destruct Ho as [Hd Hu Hheld] eqn:Eo.
  assert (Ea : addr_of (blocks s) a n = indirect_at (blocks s ind) (n - NDIRECT)).
  { unfold addr_of. rewrite (proj2 (Nat.ltb_ge _ _)) by lia. fold ind. by rewrite (proj2 (Z.eqb_neq ind 0)). }
  unfold bmap_entry. rewrite (bind_run _ _ _ _ _ (bp_read_run ind s Hheld)).
  rewrite (bind_run _ _ _ (blocks s ind) (set_held (ind :: held s) s)) by done. cbv zeta.
  destruct (indirect_at (blocks s ind) (n - NDIRECT) =? 0) eqn:E.
  2: { apply Z.eqb_neq in E. pure_step. unfold bp_relse. pure_step.
       eexists _, s. split.
       { unfold set_held. cbn [blocks held sb itable]. rewrite release_cons by done. by destruct s. }
       apply mapped_same; done. }
  apply Z.eqb_eq in E. set (s1 := set_held (ind :: held s) s).
  assert (Hh1 : held_ok s1).
  { destruct Hh as [H1 H2]. split; [by constructor|]. intros x [->|Hx]%elem_of_cons; [|by apply H2].
    pose proof (data_pos s ind Hl Hd). split; [cbn; lia|]. split; [done|]. by apply bitmap_not_data. }
  assert (Hl1 : layout_ok s1) by (destruct Hl; done).
  destruct (balloc_spec s1 Hl1 Hh1) as [(b & s2 & Erun & Hal)|[Erun Hfull]].
  2: { eexists 0, s. split.
       { erewrite bind_run; [|rewrite (bind_run _ _ _ _ _ Erun); reflexivity].
         unfold bp_relse. pure_step. unfold s1, set_held. cbn [blocks held sb itable].
         rewrite release_cons by done. by destruct s. }
       apply mapped_same; try done. fold a. by rewrite Ea. }
  pose proof (data_pos s1 b Hl1 (al_data _ _ _ Hal)) as Hb. cbn [sb s1 set_held] in Hb.
  pose proof (lay_size s Hl) as Hsz.
  set (f := le_put 4 (4 * (n - NDIRECT)) b).
  set (s3 := set_blocks (<[ind := f (blocks s2 ind)]> (blocks s2)) s2).
  set (s' := set_held (held s) s3).
  assert (Hbind : ind ≠ b).
  { intros ->. pose proof (al_free _ _ _ Hal) as Hfr. change (used s b = false) in Hfr. congruence. }
  assert (Hs2ind : blocks s2 ind = blocks s ind).
  { apply (al_same _ _ _ Hal); [done|]. by apply bitmap_not_data. }
  assert (Hnb : ¬ is_bitmap s2 ind).
  { rewrite (is_bitmap_sb s1 s2 ind (al_sb _ _ _ Hal)). by apply bitmap_not_data. }
  assert (Hused : ∀ x, 0 ≤ x < sb_size (sb s) → used s' x = if decide (x = b) then true else used s x).
  { intros x Hx. change (used s' x) with (used s3 x). unfold s3.
    rewrite used_other by (done || by rewrite (al_sb _ _ _ Hal)). by apply (al_used _ _ _ Hal). }
  assert (Hblk : ∀ x, x ≠ ind → x ≠ b → ¬ is_bitmap s x → blocks s' x = blocks s x).
  { intros x H1 H2 H3. cbn [s' s3 blocks set_held set_blocks]. rewrite fn_lookup_insert_ne by done.
    by apply (al_same _ _ _ Hal). }
  assert (Hlen2 : length (blocks s2 ind) = BSIZE) by (apply (al_layout _ _ _ Hal)).
  assert (Hmap : ∀ m, (m < NFILE_BLOCKS)%nat →
    addr_of (blocks s') a m = if decide (m = n) then b else addr_of (blocks s) a m).
  { intros m Hm. unfold addr_of. destruct (m <? NDIRECT)%nat eqn:Em.
    - apply Nat.ltb_lt in Em. by rewrite decide_False by lia.
    - apply Nat.ltb_ge in Em. fold ind. rewrite (proj2 (Z.eqb_neq ind 0)) by done.
      cbn [s' s3 blocks set_held set_blocks]. rewrite fn_lookup_insert. unfold f, NFILE_BLOCKS in *.
      rewrite indirect_put by (done || lia). rewrite Hs2ind.
      destruct (decide (m = n)) as [->|]; [by rewrite decide_True|]. by rewrite decide_False by lia. }
  assert (Hownb : owned s' b).
  { split.
    - pose proof (al_data _ _ _ Hal) as Hdb. unfold is_data in *. cbn [s' s3 sb set_held set_blocks].
      by rewrite (al_sb _ _ _ Hal).
    - rewrite Hused by lia. by rewrite decide_True.
    - intros Hin. destruct Hh as [_ Hh2]. destruct (Hh2 b Hin) as (_ & Hub & _).
      pose proof (al_free _ _ _ Hal) as Hfr. change (used s b = false) in Hfr. congruence. }
  assert (Hown : ∀ x, owned s x → owned s' x ∧ x ≠ b).
  { intros x Hx. destruct Hx as [X1 X2 X3]. split; [split|].
    - unfold is_data in *. cbn [s' s3 sb set_held set_blocks]. by rewrite (al_sb _ _ _ Hal).
    - pose proof (data_pos s x Hl X1). rewrite Hused by lia. by case_decide.
    - done.
    - intros ->. pose proof (al_free _ _ _ Hal) as Hfr. change (used s b = false) in Hfr. congruence. }
  assert (Hl3 : layout_ok s3).
  { pose proof (al_layout _ _ _ Hal) as Hl2. apply layout_store; [done| |].
    - intros x Hx. rewrite used_other; [by apply Hl2|done|]. pose proof (lay_meta _ Hl2). lia.
    - unfold f. rewrite length_le_put; [done|]. rewrite Hlen2. unfold BSIZE, NFILE_BLOCKS, NDIRECT, NINDIRECT in *. lia. }
  exists b, s'. split.
  { erewrite bind_run.
    2: { rewrite (bind_run _ _ _ _ _ Erun). rewrite (proj2 (Z.eqb_neq b 0)) by lia. reflexivity. }
    unfold bp_relse. pure_step. fold f. unfold s', s3, set_held, set_blocks. cbn [blocks held sb itable].
    rewrite (al_held _ _ _ Hal). unfold s1. cbn [held set_held]. rewrite release_cons by done. done. }
  split; try done.
  - cbn [s' s3 itable set_held set_blocks]. rewrite (al_itable _ _ _ Hal). exact (eq_sym (insert_same_addrs s ip i Hi)).
  - cbn [s' s3 sb set_held set_blocks]. apply (al_sb _ _ _ Hal).
  - destruct Hl3; done.
  - destruct Hh as [H1 H2]. split; [done|]. intros x Hx. destruct (H2 x Hx) as (X1 & X2 & X3).
    cbn [s' s3 sb set_held set_blocks]. rewrite (al_sb _ _ _ Hal). split; [done|]. split.
    + rewrite Hused by done. by case_decide.
    + by rewrite (is_bitmap_sb s s' x (al_sb _ _ _ Hal)).
  - eapply (file_add s a s' a n b); [done|apply (fo_len _ _ Hf)|lia|done|done|done|done].
  - rewrite Hmap by lia. by rewrite decide_True.
  - intros m Hm Hmn. rewrite Hmap by done. by rewrite decide_False.
  - fold a. rewrite Ea, E. done.
  - intros _ _. split; [|exact (al_free _ _ _ Hal)].
    cbn [s' s3 blocks set_held set_blocks]. rewrite fn_lookup_insert_ne by done. apply (al_zero _ _ _ Hal).
  - intros x Hx Hxi. apply Hblk; [done|by apply Hown|apply bitmap_not_data, Hx].
  - intros x Hx. assert (Hdx : ∀ y, is_data s y → x ≠ y).
    { intros y [Hy _] ->. unfold BBLOCK in Hy.
      pose proof (Z.div_pos (sb_size (sb s) - 1) BPB ltac:(lia) ltac:(unfold BPB; lia)). lia. }
    apply Hblk; [by apply Hdx|by apply Hdx, (al_data _ _ _ Hal)|unfold is_bitmap; lia].
  - intros x Hx Hux. rewrite Hused by done. by case_decide.
  - intros x Hx. rewrite Hused by done. case_decide; [by right; left|by left].
  - intros Hz. lia.
Qed.
End Bmap.

Lemma with_addrs_twice a1 a2 i : with_addrs a1 (with_addrs a2 i) = with_addrs a1 i.
Proof. done. Qed.

(** The indirect block first, then its entry. *)
Lemma mapped_indirect s ip i n ind s1 a1 r s' :
  itable s !! ip = Some i → (NDIRECT ≤ n < NFILE_BLOCKS)%nat →
  ind_loaded s ip i ind s1 a1 → ind ≠ 0 → mapped s1 ip (with_addrs a1 i) n r s' a1 →
  mapped s ip i n r s' a1.
Proof.
  intros Hi Hn Hind Hnz Hm. split.
  - rewrite (mp_itable _ _ _ _ _ _ _ Hm), (il_itable _ _ _ _ _ _ Hind). by rewrite list_insert_insert_eq.
  - by rewrite (mp_held _ _ _ _ _ _ _ Hm), (il_held _ _ _ _ _ _ Hind).
  - by rewrite (mp_sb _ _ _ _ _ _ _ Hm), (il_sb _ _ _ _ _ _ Hind).
  - apply Hm.
  - apply Hm.
  - apply Hm.
  - apply Hm.
  - intros m H1 H2. rewrite (mp_other _ _ _ _ _ _ _ Hm) by done. by apply (il_addr _ _ _ _ _ _ Hind).
  - intros Hz. rewrite <-(il_addr _ _ _ _ _ _ Hind) in Hz |- * by lia.
    destruct (mp_old _ _ _ _ _ _ _ Hm Hz) as [H1 H2]. split; [done|]. intros x. rewrite H2.
    destruct (il_old _ _ _ _ _ _ Hind) as [_ ->]; [|done]. intros E.
    rewrite (il_addr _ _ _ _ _ _ Hind) in Hz by lia. unfold addr_of in Hz. rewrite E in Hz.
    by rewrite (proj2 (Nat.ltb_ge _ _)) in Hz by lia.
  - intros Hz Hr. rewrite <-(il_addr _ _ _ _ _ _ Hind) in Hz by lia.
    destruct (mp_new _ _ _ _ _ _ _ Hm Hz Hr) as [H1 H2]. split; [done|].
    destruct (used s r) eqn:E; [|done]. rewrite (il_used _ _ _ _ _ _ Hind) in H2; [done| |done].
    assert (Ho : owned s' r).
    { pose proof (mp_file _ _ _ _ _ _ _ Hm) as Hf'. rewrite (mp_result _ _ _ _ _ _ _ Hm) in Hr |- *.
      apply (fo_addr _ _ Hf'); [lia|done]. }
    pose proof (owned_pos s' r (mp_layout _ _ _ _ _ _ _ Hm) Ho) as Hp.
    rewrite (mp_sb _ _ _ _ _ _ _ Hm), (il_sb _ _ _ _ _ _ Hind) in Hp. lia.
  - intros x Hx Hne. rewrite (mp_frame _ _ _ _ _ _ _ Hm).
    + by apply (il_frame _ _ _ _ _ _ Hind).
    + by apply (il_owned _ _ _ _ _ _ Hind).
    + cbn. rewrite <-(il_result _ _ _ _ _ _ Hind). destruct (decide (addr_at (i_addrs i) NDIRECT = 0)) as [E|E].
      * by apply (il_new _ _ _ _ _ _ Hind).
      * by destruct (il_old _ _ _ _ _ _ Hind E) as [-> _].
  - intros x Hx Hne. rewrite <-(il_result _ _ _ _ _ _ Hind).
    destruct (decide (addr_at (i_addrs i) NDIRECT = 0)) as [E|E].
    + by apply (il_new _ _ _ _ _ _ Hind).
    + by destruct (il_old _ _ _ _ _ _ Hind E) as [-> _].
  - intros x Hx. rewrite (mp_meta _ _ _ _ _ _ _ Hm), (il_meta _ _ _ _ _ _ Hind); [done|done|].
    by rewrite (il_sb _ _ _ _ _ _ Hind).
  - intros x Hx Hu. apply (mp_used _ _ _ _ _ _ _ Hm); [by rewrite (il_sb _ _ _ _ _ _ Hind)|].
    by apply (il_used _ _ _ _ _ _ Hind).
  - intros x Hx Hu. destruct (mp_grow _ _ _ _ _ _ _ Hm x) as [H1|H1]; [by rewrite (il_sb _ _ _ _ _ _ Hind)|done| |by right].
    destruct (il_grow _ _ _ _ _ _ Hind x Hx H1); [by left|by right; right].
  - intros Hr x Hx. apply (mp_full _ _ _ _ _ _ _ Hm Hr). by rewrite (il_sb _ _ _ _ _ _ Hind).
Qed.

(** No indirect block: there is no room for one. *)
Lemma mapped_no_indirect s ip i n s1 a1 :
  itable s !! ip = Some i → (NDIRECT ≤ n < NFILE_BLOCKS)%nat →
  ind_loaded s ip i 0 s1 a1 → mapped s ip i n 0 s1 a1.
Proof.
  intros Hi Hn Hind.
  assert (E : addr_at (i_addrs i) NDIRECT = 0).
  { destruct (decide (addr_at (i_addrs i) NDIRECT = 0)) as [E|E]; [done|].
    by destruct (il_old _ _ _ _ _ _ Hind E) as [E' _]. }
  assert (E' : addr_of (blocks s) (i_addrs i) n = 0).
  { unfold addr_of. rewrite E. by rewrite (proj2 (Nat.ltb_ge _ _)) by lia. }
  destruct Hind. split; try done.
  - by rewrite il_addr0 by lia.
  - intros m Hm _. by apply il_addr0.
  - intros x Hx _. by apply il_frame0.
  - intros x Hx _. rewrite <-il_result0. by apply il_new0.
  - intros x Hx Hu. destruct (il_grow0 x Hx Hu); [by left|by right; right].
Qed.

(** *** [bmap]

    It gives the address of the block, which it allocates and zeroes if there
    was none; it gives 0 when the disk is full, and changes no block of another file. *)
Lemma bmap_spec s ip i n :
  itable s !! ip = Some i → layout_ok s → held_ok s → file_ok s (i_addrs i) → (n < NFILE_BLOCKS)%nat →
  ∃ r s' a', bmap ip (Z.of_nat n) s = (Ret r, s') ∧ mapped s ip i n r s' a'.
Proof.
  intros Hi Hl Hh Hf Hn. destruct (decide (n < NDIRECT)%nat); [by apply bmap_direct|].
  unfold bmap. rewrite (bind_run _ _ _ _ _ (get_ip_run ip i s Hi)). unfold NFILE_BLOCKS in *.
  rewrite (proj2 (Z.ltb_ge _ _)) by lia. cbv zeta. rewrite (proj2 (Z.ltb_lt _ _)) by lia.
  destruct (bmap_indirect_spec s ip i Hi Hl Hh Hf) as (ind & s1 & a1 & Erun & Hind).
  rewrite (bind_run _ _ _ _ _ Erun). destruct (ind =? 0) eqn:E.
  { apply Z.eqb_eq in E. subst. exists 0, s1, a1. split; [done|].
    apply mapped_no_indirect; [done|unfold NFILE_BLOCKS; lia|done]. }
  apply Z.eqb_neq in E. replace (Z.to_nat _) with (n - NDIRECT)%nat by lia.
  assert (Hi1 : itable s1 !! ip = Some (with_addrs a1 i)).
  { rewrite (il_itable _ _ _ _ _ _ Hind). apply list_lookup_insert_eq. by eapply lookup_lt_Some. }
  destruct (bmap_entry_spec s1 ip (with_addrs a1 i) n Hi1 (il_layout _ _ _ _ _ _ Hind)
    (il_heldok _ _ _ _ _ _ Hind) (il_file _ _ _ _ _ _ Hind) ind) as (r & s' & Er & Hm).
  - apply (il_result _ _ _ _ _ _ Hind).
  - done.
  - unfold NFILE_BLOCKS. lia.
  - exists r, s', a1. split; [done|].
    apply (mapped_indirect s ip i n ind s1 a1 r s'); [done|unfold NFILE_BLOCKS; lia|done..].
Qed.
