(* ===== verification/Itable.v ===== *)
(** * The table of inodes (xv6/kernel/fs.c)

    [iget] keeps one entry for an inode in use and counts its references. *)

From S2P Require Export Inode Content.

#[local] Set Warnings "-clear-no-such-hyp".
#[local] Set Default Proof Using "Type".
Local Open Scope Z_scope.

(** References are counted from 0 and no inode has two entries in use. *)
Record table_ok (t : list inode) : Prop := {
  to_ref : ∀ p i, t !! p = Some i → 0 ≤ i_ref i;
  to_one : ∀ p q i j, t !! p = Some i → t !! q = Some j → 0 < i_ref i → 0 < i_ref j →
    i_dev i = i_dev j → i_inum i = i_inum j → p = q
}.

Definition is_inode (dev inum : Z) (i : inode) : Prop := 0 < i_ref i ∧ i_dev i = dev ∧ i_inum i = inum.

Lemma iget_test dev inum i :
  reflect (is_inode dev inum i) ((0 <? i_ref i) && (i_dev i =? dev) && (i_inum i =? inum)).
Proof.
  unfold is_inode. destruct (0 <? i_ref i) eqn:E1; destruct (i_dev i =? dev) eqn:E2; destruct (i_inum i =? inum) eqn:E3;
    constructor; lia.
Qed.

Lemma iget_scan_spec dev inum t k empty :
  match iget_scan dev inum t k empty with
  | inl p => ∃ i, (k ≤ p)%nat ∧ t !! (p - k)%nat = Some i ∧ is_inode dev inum i
  | inr e =>
      (∀ p i, t !! p = Some i → ¬ is_inode dev inum i) ∧
      match e with
      | None => empty = None ∧ ∀ p i, t !! p = Some i → i_ref i ≠ 0
      | Some q => empty = Some q ∨ (∃ i, (k ≤ q)%nat ∧ t !! (q - k)%nat = Some i ∧ i_ref i = 0)
      end
  end.
Proof.
  revert k empty. induction t as [|i t IH]; intros k empty; cbn [iget_scan].
  { split; [done|]. destruct empty; [by left|done]. }
  destruct (iget_test dev inum i) as [H|H].
  { exists i. split; [lia|]. by rewrite Nat.sub_diag. }
  specialize (IH (S k) match empty with None => if i_ref i =? 0 then Some k else None | Some e => Some e end).
  destruct (iget_scan _ _ _ _ _) as [p|e].
  - destruct IH as (j & H1 & H2 & H3). exists j. split; [lia|].
    by replace (p - k)%nat with (S (p - S k)) by lia.
  - destruct IH as [H1 H2]. split.
    { intros [|p] j; [by intros [= <-]|]. apply H1. }
    destruct e as [q|].
    + destruct H2 as [H2|(j & H2 & H3 & H4)].
      * destruct empty; [by left|]. destruct (i_ref i =? 0) eqn:E; [|done]. injection H2 as <-.
        right. exists i. rewrite Nat.sub_diag. split; [lia|]. split; [done|lia].
      * right. exists j. split; [lia|]. by replace (q - k)%nat with (S (q - S k)) by lia.
    + destruct H2 as [H2 H3]. destruct empty; [done|]. destruct (i_ref i =? 0) eqn:E; [done|].
      apply Z.eqb_neq in E. split; [done|]. intros [|p] j; [by intros [= <-]|]. apply H3.
Qed.

Lemma table_ok_insert t p i i' :
  table_ok t → t !! p = Some i → 0 ≤ i_ref i' →
  (∀ q j, q ≠ p → t !! q = Some j → 0 < i_ref j → ¬ (i_dev j = i_dev i' ∧ i_inum j = i_inum i')) →
  table_ok (<[p := i']> t).
Proof.
  intros [T1 T2] Hp Hr Ho. pose proof (lookup_lt_Some _ _ _ Hp) as Hlt. split.
  - intros q j Hq. apply list_lookup_insert_Some in Hq as [(-> & <- & _)|[_ Hq]]; [done|by eapply T1].
  - intros q r j k Hq Hk Hj Hk0 Hd Hn.
    apply list_lookup_insert_Some in Hq as [(-> & <- & _)|[Hne Hq]];
      apply list_lookup_insert_Some in Hk as [(-> & <- & _)|[Hne' Hk]]; [done| | |by eapply T2].
    + exfalso. by apply (Ho r k).
    + exfalso. by apply (Ho q j).
Qed.

(** [iget] gives the entry of the inode with one more reference; a new entry, when there was
    none, starts with one reference and nothing loaded; it panics only when no entry is free. An inode
    never gets two entries, so that two processes that use it share its lock and its size. *)
Theorem iget_one_entry dev inum s :
  table_ok (itable s) →
  (∃ p i i', iget dev inum s = (Ret p, set_itable (<[p := i']> (itable s)) s) ∧
     itable s !! p = Some i ∧ i_dev i' = dev ∧ i_inum i' = inum ∧ i_ref i' = i_ref i + 1 ∧
     (0 < i_ref i → i' = with_ref (i_ref i + 1) i) ∧ (i_ref i = 0 → i_valid i' = false) ∧
     table_ok (<[p := i']> (itable s))) ∨
  (iget dev inum s = (Err (Panic "iget: no inodes"), s) ∧ ∀ p i, itable s !! p = Some i → i_ref i ≠ 0).
Proof.
  intros Ht. unfold iget. pure_step. pose proof (iget_scan_spec dev inum (itable s) 0 None) as Hs.
  unfold id. destruct (iget_scan _ _ _ _ _) as [p|[p|]].
  - destruct Hs as (i & _ & Hp & H1 & H2 & H3). rewrite Nat.sub_0_r in Hp. left.
    exists p, i, (with_ref (i_ref i + 1) i). split; [by rewrite (bind_run _ _ _ _ _ (set_ip_run p _ i s Hp))|].
    do 4 (split; [done|]). split; [done|]. split; [lia|].
    apply (table_ok_insert _ _ i); [done|done|cbn; lia|]. intros q j Hne Hq Hj [E1 E2]. apply Hne.
    by eapply (to_one _ Ht q p j i).
  - destruct Hs as [Hno [Hs|(i & _ & Hp & Hr)]]; [done|]. rewrite Nat.sub_0_r in Hp. left.
    exists p, i. eexists. split; [by rewrite (bind_run _ _ _ _ _ (set_ip_run p _ i s Hp))|].
    split; [done|]. do 2 (split; [done|]). split; [cbn; lia|]. split; [lia|]. split; [done|].
    apply (table_ok_insert _ _ i); [done|done|cbn; lia|]. intros q j Hne Hq Hj [E1 E2].
    by apply (Hno q j).
  - destruct Hs as [_ [_ Hs]]. right. done.
Qed.

Theorem iget_one_entry_witness : ∃ p s', iget 1 1 {| blocks := λ _, []; held := []; sb :=
    {| sb_magic := 0; sb_size := 0; sb_nblocks := 0; sb_ninodes := 0; sb_nlog := 0; sb_logstart := 0;
       sb_inodestart := 0; sb_bmapstart := 0 |}; itable := replicate 2 zero_inode |} = (Ret p, s').
Proof.
  match goal with |- ∃ p s', iget _ _ ?s = _ => destruct (iget_one_entry 1 1 s) as [(p & i & i' & H & _)|[_ H]] end.
  - split.
    + intros p i [-> _]%lookup_replicate_1. cbn. lia.
    + intros p q i j [-> _]%lookup_replicate_1 [-> _]%lookup_replicate_1. cbn. lia.
  - eexists _, _. exact H.
  - exfalso. by apply (H 0%nat zero_inode).
Defined.
