(* ===== verification/FileData.v ===== *)
(** * Reading and writing files (xv6/kernel/fs.c)

    The contents of a file are the bytes [byte_of]; [readi] returns a part of
    them, [writei] replaces and extends them, and neither touches a block of
    another file.  [itrunc] gives the blocks back. *)

From S2P Require Export Content.

#[local] Set Warnings "-clear-no-such-hyp".
#[local] Set Default Proof Using "Type".
Local Open Scope Z_scope.

(** ** Contents *)
Definition byte_of (B : Z → block) (a : list Z) (o : nat) : Z :=
  default 0 (B (addr_of B a (o / BSIZE)) !! (o mod BSIZE)%nat).

Definition bytes_of (B : Z → block) (a : list Z) (off n : nat) : list Z :=
  byte_of B a <$> seq off n.

(** The first [size] bytes have their blocks. *)
Definition filled (B : Z → block) (a : list Z) (size : nat) : Prop :=
  ∀ n, (n * BSIZE < size)%nat → addr_of B a n ≠ 0.

(** A block in use that is not of this file. *)
Definition other (s : fs) (a : list Z) (x : Z) : Prop :=
  owned s x ∧ x ≠ addr_at a NDIRECT ∧ ∀ n, (n < NFILE_BLOCKS)%nat → x ≠ addr_of (blocks s) a n.

(** File [ip] went from [i] in [s] to the addresses [a'] in [s']. *)
Record grown (s : fs) (ip : nat) (i : inode) (s' : fs) (a' : list Z) : Prop := {
  gr_itable : itable s' = <[ip := with_addrs a' i]> (itable s);
  gr_held : held s' = held s;
  gr_sb : sb s' = sb s;
  gr_layout : layout_ok s';
  gr_heldok : held_ok s';
  gr_file : file_ok s' a';
  gr_other : ∀ x, other s (i_addrs i) x → other s' a' x ∧ blocks s' x = blocks s x;
  gr_meta : ∀ x, x < sb_bmapstart (sb s) → blocks s' x = blocks s x;
  gr_used : ∀ x, 0 ≤ x < sb_size (sb s) → used s x = true → used s' x = true
}.

Lemma grown_refl s ip i :
  itable s !! ip = Some i → layout_ok s → held_ok s → file_ok s (i_addrs i) →
  grown s ip i s (i_addrs i).
Proof. intros Hi Hl Hh Hf. split; try done. by rewrite insert_same_addrs. Qed.

Lemma grown_trans s ip i s1 a1 s2 a2 :
  grown s ip i s1 a1 → grown s1 ip (with_addrs a1 i) s2 a2 → grown s ip i s2 a2.
Proof.
  intros [A1 A2 A3 A4 A5 A6 A7 A8 A9] [B1 B2 B3 B4 B5 B6 B7 B8 B9]. split; try done.
  - rewrite B1, A1. by rewrite list_insert_insert_eq.
  - congruence.
  - congruence.
  - intros x Hx. destruct (A7 x Hx) as [H1 H2]. destruct (B7 x H1) as [H3 H4]. split; [done|congruence].
  - intros x Hx. rewrite B8, A8; [done|done|congruence].
  - intros x Hx Hu. apply B9; [congruence|]. by apply A9.
Qed.

Lemma owned_mono s s' x :
  owned s x → layout_ok s → held s' = held s → sb s' = sb s →
  (∀ x, 0 ≤ x < sb_size (sb s) → used s x = true → used s' x = true) → owned s' x.
Proof.
  intros [H1 H2 H3] Hl Hh Hs Hu. pose proof (data_pos s x Hl H1). split.
  - unfold is_data in *. by rewrite Hs.
  - apply Hu; [lia|done].
  - by rewrite Hh.
Qed.

Section Mapped.
Context (s : fs) (ip : nat) (i : inode) (n : nat) (r : Z) (s' : fs) (a' : list Z).
Context (Hl : layout_ok s) (Hm : mapped s ip i n r s' a') (Hn : (n < NFILE_BLOCKS)%nat).

Lemma mapped_owned x : owned s x → owned s' x.
Proof using Hl Hm.
  intros Ho. eapply owned_mono; [done|done|apply Hm|apply Hm|]. apply (mp_used _ _ _ _ _ _ _ Hm).
Qed.

Lemma mapped_fresh x : owned s x → addr_of (blocks s) (i_addrs i) n = 0 → r ≠ 0 → x ≠ r.
Proof using Hm.
  intros [_ Hu _] Hz Hr ->. destruct (mp_new _ _ _ _ _ _ _ Hm Hz Hr). congruence.
Qed.

Lemma mapped_other x : other s (i_addrs i) x → other s' a' x ∧ blocks s' x = blocks s x.
Proof using Hl Hm Hn.
  intros (Ho & Hi & Ha). split; [|by apply (mp_frame _ _ _ _ _ _ _ Hm)]. split; [by apply mapped_owned|].
  split; [by apply (mp_ind _ _ _ _ _ _ _ Hm)|]. intros m Hmm. destruct (decide (m = n)) as [->|Hne].
  2: { rewrite (mp_other _ _ _ _ _ _ _ Hm) by done. by apply Ha. }
  rewrite <-(mp_result _ _ _ _ _ _ _ Hm). destruct (decide (addr_of (blocks s) (i_addrs i) n = 0)) as [E|E].
  - destruct (decide (r = 0)) as [->|Hr]; [|by apply mapped_fresh]. intros ->.
    pose proof (owned_pos s 0 Hl Ho). lia.
  - destruct (mp_old _ _ _ _ _ _ _ Hm E) as [-> _]. by apply Ha.
Qed.

Lemma mapped_grown : grown s ip i s' a'.
Proof using Hl Hm Hn.
  split; try apply Hm. apply mapped_other.
Qed.

(** Every byte that was there is there. *)
Lemma mapped_byte o :
  file_ok s (i_addrs i) → (o / BSIZE < NFILE_BLOCKS)%nat → addr_of (blocks s) (i_addrs i) (o / BSIZE) ≠ 0 →
  byte_of (blocks s') a' o = byte_of (blocks s) (i_addrs i) o.
Proof using Hl Hm Hn.
  intros Hf Ho Hz. unfold byte_of. destruct (decide ((o / BSIZE)%nat = n)) as [E|E].
  - rewrite E in *. destruct (mp_old _ _ _ _ _ _ _ Hm Hz) as [Hr Hb].
    rewrite <-(mp_result _ _ _ _ _ _ _ Hm), Hr. by rewrite Hb.
  - rewrite (mp_other _ _ _ _ _ _ _ Hm) by done. rewrite (mp_frame _ _ _ _ _ _ _ Hm); [done| |].
    + by apply Hf.
    + by apply (fo_ne _ _ Hf).
Qed.

Lemma mapped_filled k : filled (blocks s) (i_addrs i) k → (k ≤ NFILE_BLOCKS * BSIZE)%nat →
  filled (blocks s') a' k.
Proof using Hl Hm Hn.
  intros Hk Hle m Hmk. assert (m < NFILE_BLOCKS)%nat by (unfold BSIZE in *; lia).
  destruct (decide (m = n)) as [->|Hne].
  - rewrite <-(mp_result _ _ _ _ _ _ _ Hm). specialize (Hk _ Hmk).
    by destruct (mp_old _ _ _ _ _ _ _ Hm Hk) as [-> _].
  - rewrite (mp_other _ _ _ _ _ _ _ Hm) by done. by apply Hk.
Qed.
End Mapped.

(** The bytes of one block. *)
Lemma slice_bytes B a n k m :
  length (B (addr_of B a n)) = BSIZE → (k + m ≤ BSIZE)%nat →
  slice k m (B (addr_of B a n)) = bytes_of B a (n * BSIZE + k) m.
Proof.
  intros Hlen Hk. apply list_eq. intros j. destruct (decide (j < m)%nat) as [Hj|Hj].
  - rewrite slice_lookup by done. unfold bytes_of. rewrite list_lookup_fmap, lookup_seq_lt by done. cbn.
    unfold byte_of. replace (n * BSIZE + k + j)%nat with (k + j + n * BSIZE)%nat by lia.
    rewrite Nat.div_add, Nat.Div0.mod_add, Nat.div_small, Nat.mod_small by (unfold BSIZE in *; lia).
    destruct (lookup_lt_is_Some_2 (B (addr_of B a n)) (k + j)) as [v Hv]; [lia|].
    rewrite Nat.add_0_l. by rewrite Hv.
  - rewrite !lookup_ge_None_2; [done|..].
    + unfold bytes_of. rewrite length_fmap, length_seq. lia.
    + rewrite length_slice by lia. lia.
Qed.

Lemma bytes_app B a off m n : bytes_of B a off (m + n) = bytes_of B a off m ++ bytes_of B a (off + m) n.
Proof. unfold bytes_of. by rewrite seq_app, fmap_app. Qed.

Lemma length_bytes_of B a off n : length (bytes_of B a off n) = n.
Proof. unfold bytes_of. by rewrite length_fmap, length_seq. Qed.

(** ** [readi] *)
Section Readi.
Context (s : fs) (ip : nat) (i : inode) (copyout : Z → Z → bool).
Context (Hi : itable s !! ip = Some i) (Hl : layout_ok s) (Hh : held_ok s) (Hf : file_ok s (i_addrs i)).
Context (Hsize : 0 ≤ i_size i ≤ MAXFILE * BSIZEz) (Hfill : filled (blocks s) (i_addrs i) (Z.to_nat (i_size i))).
Context (Hout : ∀ t m, copyout t m = true).

(** A block that is there. *)
Lemma bmap_there n :
  (n * BSIZE < Z.to_nat (i_size i))%nat →
  bmap ip (Z.of_nat n) s = (Ret (addr_of (blocks s) (i_addrs i) n), s) ∧
  addr_of (blocks s) (i_addrs i) n ≠ 0 ∧ owned s (addr_of (blocks s) (i_addrs i) n).
Proof using Hi Hl Hh Hf Hsize Hfill.
  intros Hn. pose proof (Hfill n Hn) as Hz.
  assert (Hnf : (n < NFILE_BLOCKS)%nat).
  { unfold MAXFILE, BSIZEz, NFILE_BLOCKS, BSIZE, NDIRECT, NINDIRECT in *. lia. }
  split; [|split; [done|by apply Hf]].
  unfold bmap. rewrite (bind_run _ _ _ _ _ (get_ip_run ip i s Hi)). unfold addr_of in Hz |- *.
  rewrite Nat2Z.id. destruct (n <? NDIRECT)%nat eqn:E.
  - apply Nat.ltb_lt in E. rewrite (proj2 (Z.ltb_lt _ _)) by lia. cbv zeta.
    by rewrite (proj2 (Z.eqb_neq _ _) Hz).
  - apply Nat.ltb_ge in E. rewrite (proj2 (Z.ltb_ge _ _)) by lia. cbv zeta.
    unfold NFILE_BLOCKS in Hnf. rewrite (proj2 (Z.ltb_lt _ _)) by lia.
    destruct (addr_at (i_addrs i) NDIRECT =? 0) eqn:E0; [done|]. unfold bmap_indirect. cbv zeta.
    rewrite E0. pure_step. rewrite E0. apply Z.eqb_neq in E0.
    replace (Z.to_nat _) with (n - NDIRECT)%nat by lia. unfold bmap_entry.
    pose proof (ow_held _ _ (fo_ind _ _ Hf E0)) as Hheld.
    rewrite (bind_run _ _ _ _ _ (bp_read_run _ s Hheld)). unfold bp_data. pure_step. cbv zeta.
    cbn [blocks set_held]. rewrite (proj2 (Z.eqb_neq _ _) Hz). pure_step. unfold bp_relse. pure_step.
    msimpl. unfold set_held. cbn [blocks held sb itable]. rewrite release_cons by done. by destruct s.
Qed.

Lemma readi_loop_spec fuel off tot n dst :
  0 ≤ off → tot ≤ n → off + (n - tot) ≤ i_size i → n - tot < Z.of_nat fuel →
  readi_loop copyout fuel ip off tot n dst s
  = (Ret (n, dst ++ bytes_of (blocks s) (i_addrs i) (Z.to_nat off) (Z.to_nat (n - tot))), s).
Proof using All.
  revert off tot dst. induction fuel as [|fuel IH]; intros off tot dst Hoff Htot Hsz Hfuel; [lia|].
  cbn [readi_loop]. destruct (n <=? tot) eqn:E.
  { apply Z.leb_le in E. assert (tot = n) as -> by lia. rewrite Z.sub_diag. cbn. by rewrite app_nil_r. }
  apply Z.leb_gt in E. set (k := Z.to_nat (off / BSIZEz)).
  pose proof (Z.mod_pos_bound off BSIZEz ltac:(unfold BSIZEz; lia)) as Hmod.
  pose proof (Z.div_mod off BSIZEz ltac:(unfold BSIZEz; lia)) as Hdm.
  pose proof (Z.div_pos off BSIZEz ltac:(lia) ltac:(unfold BSIZEz; lia)) as Hdp.
  assert (Ek : off / BSIZEz = Z.of_nat k) by (unfold k; lia).
  destruct (bmap_there k) as (Hrun & Hz & Ho).
  { unfold BSIZE, BSIZEz in *. lia. }
  rewrite Ek. rewrite (bind_run _ _ _ _ _ Hrun). rewrite (proj2 (Z.eqb_neq _ _) Hz).
  rewrite (bind_run _ _ _ _ _ (bp_read_run _ s (ow_held _ _ Ho))). unfold bp_data. pure_step. cbv zeta.
  rewrite Hout. unfold bp_relse. pure_step. unfold set_held. cbn [blocks held sb itable].
  rewrite release_cons by apply Ho.
  replace {| blocks := blocks s; held := held s; sb := sb s; itable := itable s |} with s by (by destruct s).
  set (m := Z.min (n - tot) (BSIZEz - off mod BSIZEz)).
  assert (Hm : 0 < m ≤ n - tot ∧ off mod BSIZEz + m ≤ BSIZEz) by lia.
  rewrite IH by lia. f_equal. f_equal. f_equal. rewrite <-app_assoc. f_equal.
  rewrite slice_bytes; [|apply Hl|unfold BSIZE, BSIZEz in *; lia].
  replace (k * BSIZE + Z.to_nat (off mod BSIZEz))%nat with (Z.to_nat off) by (unfold BSIZE, BSIZEz in *; lia).
  replace (Z.to_nat (off + m)) with (Z.to_nat off + Z.to_nat m)%nat by lia. rewrite <-bytes_app.
  f_equal. lia.
Qed.

(** How many bytes there are to read. *)
Definition read_len (size off n : Z) : Z :=
  if (size <? off) || (2 ^ 32 <=? off + n) then 0 else Z.min n (size - off).

Lemma readi_run off n :
  0 ≤ off < 2 ^ 32 → 0 ≤ n < 2 ^ 32 →
  readi copyout ip off n s
  = (Ret (read_len (i_size i) off n,
          bytes_of (blocks s) (i_addrs i) (Z.to_nat off) (Z.to_nat (read_len (i_size i) off n))), s).
Proof using All.
  intros Hoff Hn. unfold readi, read_len. rewrite (bind_run _ _ _ _ _ (get_ip_run ip i s Hi)).
  destruct (i_size i <? off) eqn:E1; [done|]. apply Z.ltb_ge in E1. cbn [orb].
  assert (Hs : i_size i < 2 ^ 32) by (unfold MAXFILE, BSIZEz, NDIRECT, NINDIRECT in *; lia).
  destruct (2 ^ 32 <=? off + n) eqn:E2.
  - apply Z.leb_le in E2. assert (Eu : u32 (off + n) = off + n - 2 ^ 32).
    { unfold u32. symmetry. apply (Z.mod_unique _ _ 1); lia. }
    rewrite Eu. rewrite (proj2 (Z.ltb_lt _ off)) by lia. done.
  - apply Z.leb_gt in E2. assert (Eu : u32 (off + n) = off + n) by (apply Z.mod_small; lia).
    rewrite Eu. rewrite (proj2 (Z.ltb_ge _ off)) by lia. cbv zeta.
    assert (En : (if i_size i <? off + n then i_size i - off else n) = Z.min n (i_size i - off))
      by (case_match eqn:E; lia).
    rewrite En. rewrite readi_loop_spec by lia. by rewrite Z.sub_0_r.
Qed.
End Readi.

(** ** Storing to a block of the file *)
Lemma data_not_meta s x y : layout_ok s → x < sb_bmapstart (sb s) → is_data s y → x ≠ y.
Proof.
  intros Hl Hx [Hy _] ->. unfold BBLOCK in Hy. pose proof (lay_size s Hl).
  pose proof (Z.div_pos (sb_size (sb s) - 1) BPB ltac:(lia) ltac:(unfold BPB; lia)). lia.
Qed.

Section Store.
Context (s : fs) (a : list Z) (n : nat) (f : block → block).
Let r := addr_of (blocks s) a n.
Let s2 := set_blocks (<[r := f (blocks s r)]> (blocks s)) s.
Context (Hl : layout_ok s) (Hh : held_ok s) (Hf : file_ok s a) (Hn : (n < NFILE_BLOCKS)%nat) (Hr : r ≠ 0).
Context (Hlen : length (f (blocks s r)) = BSIZE).

Lemma store_owned_r : owned s r.
Proof using All. by apply (fo_addr _ _ Hf). Qed.

Lemma store_used x : 0 ≤ x < sb_size (sb s) → used s2 x = used s x.
Proof using All. intros Hx. apply used_other; [|done]. apply bitmap_not_data, store_owned_r. Qed.

Lemma store_owned x : owned s2 x ↔ owned s x.
Proof using All.
  split; intros [H1 H2 H3]; (split; [done| |done]); pose proof (data_pos s x Hl H1).
  - rewrite store_used in H2 by lia. done.
  - rewrite store_used by lia. done.
Qed.

Lemma store_addr m : addr_of (blocks s2) a m = addr_of (blocks s) a m.
Proof using All.
  apply addr_of_ext; [done|]. intros Hz. cbn [s2 blocks set_blocks]. rewrite fn_lookup_insert_ne; [done|].
  by apply (fo_ne _ _ Hf).
Qed.

Lemma store_file : file_ok s2 a.
Proof using All.
  destruct Hf as [H1 H2 H3 H4 H5]. split; [done| | | |].
  - intros m Hm. rewrite store_addr. intros Hz. by apply store_owned, H2.
  - intros Hz. by apply store_owned, H3.
  - intros m k Hm Hk. rewrite !store_addr. by apply H4.
  - intros m Hm. rewrite store_addr. by apply H5.
Qed.

Lemma store_layout : layout_ok s2.
Proof using All.
  apply layout_store; [done| |done]. intros x Hx. fold s2. pose proof (lay_meta s Hl).
  rewrite store_used by lia. by apply Hl.
Qed.

Lemma store_held : held_ok s2.
Proof using All.
  destruct Hh as [H1 H2]. split; [done|]. intros x Hx. destruct (H2 x Hx) as (X1 & X2 & X3).
  split; [done|]. split; [by rewrite store_used|done].
Qed.

Lemma store_other x : other s a x → other s2 a x ∧ blocks s2 x = blocks s x.
Proof using All.
  intros (H1 & H2 & H3). split; [split; [by apply store_owned|split; [done|]]|].
  - intros m Hm. rewrite store_addr. by apply H3.
  - cbn [s2 blocks set_blocks]. rewrite fn_lookup_insert_ne; [done|]. intros E. by apply (H3 n).
Qed.

Lemma store_grown ip i : itable s !! ip = Some i → i_addrs i = a → grown s ip i s2 a.
Proof using All.
  intros Hi Ha. split; try done.
  - rewrite <-Ha. by rewrite insert_same_addrs.
  - apply store_layout.
  - apply store_held.
  - apply store_file.
  - rewrite Ha. apply store_other.
  - intros x Hx. cbn [s2 blocks set_blocks]. rewrite fn_lookup_insert_ne; [done|].
    intros E. apply (data_not_meta s x r Hl Hx); [|done]. apply store_owned_r.
  - intros x Hx Hu. by rewrite store_used.
Qed.

Lemma store_byte o :
  (o / BSIZE < NFILE_BLOCKS)%nat →
  byte_of (blocks s2) a o
  = if decide ((o / BSIZE)%nat = n) then default 0 (f (blocks s r) !! (o mod BSIZE)%nat)
    else byte_of (blocks s) a o.
Proof using All.
  intros Ho. unfold byte_of. rewrite store_addr. case_decide as E.
  - rewrite E. cbn [s2 blocks set_blocks]. fold r. by rewrite fn_lookup_insert.
  - cbn [s2 blocks set_blocks]. rewrite fn_lookup_insert_ne; [done|]. intros Er. apply E.
    symmetry. by apply (fo_inj _ _ Hf).
Qed.
End Store.

Lemma div_mod_eq o n k : (o / BSIZE = n → o mod BSIZE = k → o = n * BSIZE + k)%nat.
Proof. intros <- <-. rewrite (Nat.div_mod_eq o BSIZE) at 1. lia. Qed.

Lemma div_inside o n k : (o = n * BSIZE + k → k < BSIZE → o / BSIZE = n ∧ o mod BSIZE = k)%nat.
Proof.
  intros -> Hk. rewrite (Nat.add_comm (n * BSIZE) k).
  rewrite Nat.div_add, Nat.Div0.mod_add, Nat.div_small, Nat.mod_small by (unfold BSIZE in *; lia). lia.
Qed.

(** ** Writing within one block *)
Section WriteStep.
Context (s : fs) (ip : nat) (i : inode) (n k : nat) (bytes : list Z) (sz : nat).
Context (Hi : itable s !! ip = Some i) (Hl : layout_ok s) (Hh : held_ok s) (Hf : file_ok s (i_addrs i)).
Context (Hn : (n < NFILE_BLOCKS)%nat) (Hk : (k + length bytes ≤ BSIZE)%nat).
Context (Hsz : (sz ≤ NFILE_BLOCKS * BSIZE)%nat) (Hfill : filled (blocks s) (i_addrs i) sz).
Context (Hoff : (n * BSIZE + k ≤ sz)%nat).
Let o1 := (n * BSIZE + k)%nat.
Let o2 := (n * BSIZE + k + length bytes)%nat.

Lemma write_step r s1 a1 :
  mapped s ip i n r s1 a1 → r ≠ 0 →
  let s2 := set_blocks (<[r := splice k bytes (blocks s1 r)]> (blocks s1)) s1 in
  grown s ip i s2 a1 ∧ filled (blocks s2) a1 (Nat.max sz o2) ∧
  ∀ o, (o < Nat.max sz o2)%nat →
    byte_of (blocks s2) a1 o
    = if decide (o1 ≤ o < o2)%nat then default 0 (bytes !! (o - o1)%nat)
      else byte_of (blocks s) (i_addrs i) o.
Proof using All.
  intros Hm Hr s2. pose proof (mp_result _ _ _ _ _ _ _ Hm) as Er.
  assert (Hlen : length (splice k bytes (blocks s1 r)) = BSIZE).
  { pose proof (lay_len _ (mp_layout _ _ _ _ _ _ _ Hm) r) as HL. rewrite length_splice; [done|]. by rewrite HL. }
  assert (Hi1 : itable s1 !! ip = Some (with_addrs a1 i)).
  { rewrite (mp_itable _ _ _ _ _ _ _ Hm). apply list_lookup_insert_eq. by eapply lookup_lt_Some. }
  assert (Hr' : addr_of (blocks s1) a1 n ≠ 0) by congruence.
  assert (Es2 : s2 = set_blocks (<[addr_of (blocks s1) a1 n := splice k bytes (blocks s1 (addr_of (blocks s1) a1 n))]>
                       (blocks s1)) s1) by (by rewrite <-Er).
  rewrite Er in Hlen. pose proof (mp_layout _ _ _ _ _ _ _ Hm). pose proof (mp_heldok _ _ _ _ _ _ _ Hm).
  pose proof (mp_file _ _ _ _ _ _ _ Hm). split; [|split].
  - eapply grown_trans; [by eapply mapped_grown|]. rewrite Es2.
    by apply (store_grown s1 a1 n (λ d, splice k bytes d)).
  - intros m Hmo. rewrite Es2, (store_addr s1 a1 n (λ d, splice k bytes d)) by done.
    destruct (decide (m = n)) as [->|Hne]; [done|].
    pose proof (mapped_filled s ip i n r s1 a1 Hl Hm Hn sz Hfill Hsz) as Hfl. apply Hfl.
    unfold o2 in Hmo. unfold BSIZE in *. lia.
  - intros o Ho. assert (Hob : (o / BSIZE < NFILE_BLOCKS)%nat).
    { apply Nat.Div0.div_lt_upper_bound. unfold o2, BSIZE in *. lia. }
    rewrite Es2. rewrite (store_byte s1 a1 n (λ d, splice k bytes d)) by done.
    assert (Hold : ¬ (o1 ≤ o < o2)%nat → (o < sz)%nat ∧ addr_of (blocks s) (i_addrs i) (o / BSIZE) ≠ 0).
    { intros Hout. assert (Hs : (o < sz)%nat) by (unfold o1, o2 in *; lia). split; [done|]. apply Hfill.
      pose proof (Nat.div_mod_eq o BSIZE). pose proof (Nat.mod_upper_bound o BSIZE ltac:(done)). lia. }
    case_decide as E.
    + pose proof (Nat.mod_upper_bound o BSIZE ltac:(done)) as Hmb.
      pose proof (div_mod_eq o n _ E eq_refl) as Eo.
      assert (HL1 : length (blocks s1 (addr_of (blocks s1) a1 n)) = BSIZE) by apply (mp_layout _ _ _ _ _ _ _ Hm).
      case_decide as E2.
      * rewrite splice_lookup_in by (rewrite ?HL1; unfold o1, o2 in *; lia). f_equal. f_equal.
        unfold o1, o2 in *. lia.
      * rewrite splice_lookup_out by (rewrite ?HL1; unfold o1, o2 in *; lia).
        destruct (Hold E2) as [_ Hz]. rewrite <-E.
        apply (mapped_byte s ip i n r s1 a1 Hl Hm Hn o Hf Hob Hz).
    + rewrite decide_False.
      * apply (mapped_byte s ip i n r s1 a1 Hl Hm Hn o Hf Hob). apply Hold.
        intros Hin. apply E. apply (div_inside o n (o - n * BSIZE)); unfold o1, o2, BSIZE in *; lia.
      * intros Hin. apply E. apply (div_inside o n (o - n * BSIZE)); unfold o1, o2, BSIZE in *; lia.
Qed.
End WriteStep.

(** ** Several writes in a row *)
Record wrote (s : fs) (ip : nat) (i : inode) (off : nat) (bs : list Z) (sz : nat) (s' : fs) (a' : list Z)
    : Prop := {
  wr_grown : grown s ip i s' a';
  wr_filled : filled (blocks s') a' (Nat.max sz (off + length bs));
  wr_bytes : ∀ o, (o < Nat.max sz (off + length bs))%nat →
    byte_of (blocks s') a' o
    = if decide (off ≤ o < off + length bs)%nat then default 0 (bs !! (o - off)%nat)
      else byte_of (blocks s) (i_addrs i) o
}.

Lemma wrote_nil s ip i off sz s' a' :
  grown s ip i s' a' → (off ≤ sz)%nat → filled (blocks s') a' sz →
  (∀ o, (o < sz)%nat → byte_of (blocks s') a' o = byte_of (blocks s) (i_addrs i) o) →
  wrote s ip i off [] sz s' a'.
Proof.
  intros Hg Hoff Hfill Hb. split; [done| |]; cbn [length]; rewrite Nat.add_0_r, Nat.max_l by done; [done|].
  intros o Ho. rewrite decide_False by lia. by apply Hb.
Qed.

Lemma wrote_app s ip i off b1 b2 sz s1 a1 s2 a2 :
  wrote s ip i off b1 sz s1 a1 →
  wrote s1 ip (with_addrs a1 i) (off + length b1) b2 (Nat.max sz (off + length b1)) s2 a2 →
  wrote s ip i off (b1 ++ b2) sz s2 a2.
Proof.
  intros [G1 F1 B1] [G2 F2 B2].
  assert (Em : Nat.max (Nat.max sz (off + length b1)) (off + length b1 + length b2)
               = Nat.max sz (off + length (b1 ++ b2))) by (rewrite length_app; lia).
  rewrite Em in F2, B2. split; [by eapply grown_trans|done|]. intros o Ho. rewrite B2 by done.
  rewrite length_app in *. cbn [i_addrs with_addrs]. case_decide as D1.
  - rewrite decide_True by lia. rewrite lookup_app_r by lia. f_equal. f_equal. lia.
  - rewrite B1 by lia. case_decide as D2.
    + rewrite decide_True by lia. by rewrite lookup_app_l by lia.
    + by rewrite decide_False by lia.
Qed.

Lemma slice_split {A} (l : list A) o m1 m2 : slice o m1 l ++ slice (o + m1) m2 l = slice o (m1 + m2) l.
Proof. unfold slice. rewrite <-drop_drop. generalize (drop o l). intros l'. by rewrite take_take_drop. Qed.

(** The disk has no free block left. *)
Definition disk_full (s : fs) : Prop := ∀ x, 0 ≤ x < sb_size (sb s) → used s x = true.

Section Writei.
Context (copyin : Z → Z → list Z * bool) (src : list Z) (N : Z) (ip : nat).
Context (HN : N = Z.of_nat (length src)).
Context (Hin : ∀ t m, 0 ≤ t → 0 ≤ m → t + m ≤ N → copyin t m = (slice (Z.to_nat t) (Z.to_nat m) src, true)).

Lemma writei_loop_spec fuel s i off tot sz :
  itable s !! ip = Some i → layout_ok s → held_ok s → file_ok s (i_addrs i) →
  filled (blocks s) (i_addrs i) sz → (off ≤ sz)%nat → (sz ≤ NFILE_BLOCKS * BSIZE)%nat →
  Z.of_nat off + (N - tot) ≤ Z.of_nat (NFILE_BLOCKS * BSIZE) → 0 ≤ tot ≤ N → N - tot < Z.of_nat fuel →
  ∃ m s' a', writei_loop copyin fuel ip (Z.of_nat off) tot N s
             = (Ret (Z.of_nat (off + m), tot + Z.of_nat m), s') ∧
    Z.of_nat m ≤ N - tot ∧ wrote s ip i off (slice (Z.to_nat tot) m src) sz s' a' ∧
    (Z.of_nat m < N - tot → disk_full s').
Proof using HN Hin.
  revert s i off tot sz. induction fuel as [|fuel IH];
    intros s i off tot sz Hi Hl Hh Hf Hfill Hoff Hsz Hlim Htot Hfuel; [lia|].
  cbn [writei_loop]. destruct (N <=? tot) eqn:E.
  { apply Z.leb_le in E. exists 0%nat, s, (i_addrs i). rewrite Nat.add_0_r, Z.add_0_r.
    split; [done|]. split; [lia|]. split; [|lia]. unfold slice. rewrite take_0.
    apply wrote_nil; [by apply grown_refl|done|done|done]. }
  apply Z.leb_gt in E. set (n := (off / BSIZE)%nat). set (k := (off mod BSIZE)%nat).
  pose proof (Nat.div_mod_eq off BSIZE) as Edm. fold n k in Edm.
  pose proof (Nat.mod_upper_bound off BSIZE ltac:(done)) as Hk. fold k in Hk.
  assert (En : Z.of_nat off / BSIZEz = Z.of_nat n) by (symmetry; apply (Nat2Z.inj_div off BSIZE)).
  assert (Ek : Z.of_nat off mod BSIZEz = Z.of_nat k) by (symmetry; apply (Nat2Z.inj_mod off BSIZE)).
  rewrite En, Ek. assert (Hn : (n < NFILE_BLOCKS)%nat) by (unfold BSIZE in *; lia).
  destruct (bmap_spec s ip i n Hi Hl Hh Hf Hn) as (r & s1 & a1 & Erun & Hm).
  rewrite (bind_run _ _ _ _ _ Erun). destruct (r =? 0) eqn:E0.
  { apply Z.eqb_eq in E0. subst r. exists 0%nat, s1, a1. rewrite Nat.add_0_r, Z.add_0_r.
    split; [done|]. split; [lia|]. split.
    - unfold slice. rewrite take_0. apply wrote_nil; [by eapply mapped_grown|done| |].
      + by apply (mapped_filled s ip i n 0 s1 a1 Hl Hm Hn).
      + intros o Ho. pose proof (Nat.div_mod_eq o BSIZE). pose proof (Nat.mod_upper_bound o BSIZE ltac:(done)).
        apply (mapped_byte s ip i n 0 s1 a1 Hl Hm Hn); [done| |apply Hfill; lia].
        unfold BSIZE in *. lia.
    - intros _ x Hx. apply (mp_full _ _ _ _ _ _ _ Hm eq_refl). by rewrite <-(mp_sb _ _ _ _ _ _ _ Hm). }
  apply Z.eqb_neq in E0. assert (Hor : owned s1 r).
  { pose proof (mp_result _ _ _ _ _ _ _ Hm) as Er. rewrite Er in E0 |- *.
    apply (fo_addr _ _ (mp_file _ _ _ _ _ _ _ Hm)); done. }
  rewrite (bind_run _ _ _ _ _ (bp_read_run r s1 (ow_held _ _ Hor))). cbv zeta.
  set (m := Z.min (N - tot) (BSIZEz - Z.of_nat k)).
  assert (Hmr : 0 < m ≤ N - tot ∧ Z.of_nat k + m ≤ BSIZEz) by (unfold BSIZE, BSIZEz in *; lia).
  rewrite Hin by lia. cbv beta iota. unfold bp_store. pure_step. unfold bp_relse. pure_step.
  unfold set_held, set_blocks. cbn [blocks held sb itable]. rewrite release_cons by apply Hor.
  set (bs := slice (Z.to_nat tot) (Z.to_nat m) src). rewrite Nat2Z.id.
  assert (Hbs : length bs = Z.to_nat m) by (apply length_slice; lia).
  set (s2 := {| blocks := <[r := splice k bs (blocks s1 r)]> (blocks s1); held := held s1; sb := sb s1;
                itable := itable s1 |}).
  destruct (write_step s ip i n k bs sz Hi Hl Hh Hf Hn ltac:(unfold BSIZE, BSIZEz in *; lia) Hsz Hfill
    ltac:(unfold BSIZE in *; lia) r s1 a1 Hm E0) as (Hg & Hfl & Hby).
  replace (n * BSIZE + k)%nat with off in Hfl, Hby by lia.
  fold (set_blocks (<[r := splice k bs (blocks s1 r)]> (blocks s1)) s1) in s2.
  assert (Hw : wrote s ip i off bs sz s2 a1) by by split. pose proof (wr_grown _ _ _ _ _ _ _ _ Hw) as Hg2.
  destruct (IH s2 (with_addrs a1 i) (off + length bs)%nat (tot + m) (Nat.max sz (off + length bs)))
    as (m' & s' & a' & Er' & Hm' & Hw' & Hfull); [| | | |apply Hfl|lia| | |lia|lia|].
  - rewrite (gr_itable _ _ _ _ _ Hg2). apply list_lookup_insert_eq. by eapply lookup_lt_Some.
  - apply Hg2.
  - apply Hg2.
  - apply Hg2.
  - rewrite Hbs. lia.
  - rewrite Hbs. lia.
  - exists (length bs + m')%nat, s', a'. split; [|split; [|split]].
    + replace (Z.of_nat off + m) with (Z.of_nat (off + length bs)) by lia. rewrite Er'. f_equal. f_equal.
      f_equal; lia.
    + lia.
    + rewrite <-slice_split. rewrite Hbs. fold bs. eapply wrote_app; [exact Hw|].
      replace (Z.to_nat tot + Z.to_nat m)%nat with (Z.to_nat (tot + m)) by lia. exact Hw'.
    + intros Hlt. apply Hfull. lia.
Qed.
End Writei.
