(* ===== verification/FileOps.v ===== *)
(** * The operations on a file (xv6/kernel/fs.c)

    [readi] and [writei] as a whole, with the inode's copy on the disk, and the
    invariant of the file system they keep: the files are well formed and share
    no block. *)

From S2P Require Export Dinode FileData.

#[local] Set Warnings "-clear-no-such-hyp".
#[local] Set Default Proof Using "Type".
Local Open Scope Z_scope.

(** ** Stores before the bitmap: inode blocks *)
Section MetaStore.
Context (s : fs) (bn : Z) (f : block → block).
Let s2 := set_blocks (<[bn := f (blocks s bn)]> (blocks s)) s.
Context (Hl : layout_ok s) (Hbn : bn < sb_bmapstart (sb s)) (Hlen : length (f (blocks s bn)) = BSIZE).

Lemma meta_not_bitmap : ¬ is_bitmap s bn.
Proof using All. unfold is_bitmap. lia. Qed.

Lemma meta_used x : 0 ≤ x < sb_size (sb s) → used s2 x = used s x.
Proof using All. intros Hx. apply used_other; [|done]. apply meta_not_bitmap. Qed.

Lemma meta_data x : is_data s x → blocks s2 x = blocks s x.
Proof using All.
  intros Hx. cbn [s2 blocks set_blocks]. rewrite fn_lookup_insert_ne; [done|].
  intros E. by apply (data_not_meta s bn x Hl Hbn Hx).
Qed.

Lemma meta_layout : layout_ok s2.
Proof using All.
  apply layout_store; [done| |done]. intros x Hx. fold s2. pose proof (lay_meta s Hl).
  rewrite meta_used by lia. by apply Hl.
Qed.

Lemma meta_held : held_ok s → held_ok s2.
Proof using All.
  intros [H1 H2]. split; [done|]. intros x Hx. destruct (H2 x Hx) as (X1 & X2 & X3).
  split; [done|]. split; [by rewrite meta_used|done].
Qed.

Lemma meta_owned x : owned s x → owned s2 x.
Proof using All.
  intros [H1 H2 H3]. split; [done| |done]. pose proof (data_pos s x Hl H1).
  by rewrite meta_used by lia.
Qed.

Lemma meta_addr a n : file_ok s a → addr_of (blocks s2) a n = addr_of (blocks s) a n.
Proof using All.
  intros Hf. apply addr_of_ext; [done|]. intros Hz. apply meta_data. by apply (fo_ind _ _ Hf).
Qed.

Lemma meta_file a : file_ok s a → file_ok s2 a.
Proof using All.
  intros Hf. pose proof (λ n, meta_addr a n Hf) as Ha. destruct Hf as [H1 H2 H3 H4 H5]. split; [done| | | |].
  - intros n Hn. rewrite Ha. intros Hz. by apply meta_owned, H2.
  - intros Hz. by apply meta_owned, H3.
  - intros n m Hn Hm. rewrite !Ha. by apply H4.
  - intros n Hn. rewrite Ha. by apply H5.
Qed.

Lemma meta_other a x : file_ok s a → other s a x → other s2 a x.
Proof using All.
  intros Hf (H1 & H2 & H3). split; [by apply meta_owned|]. split; [done|]. intros n Hn.
  rewrite meta_addr by done. by apply H3.
Qed.

Lemma meta_byte a o :
  file_ok s a → (o / BSIZE < NFILE_BLOCKS)%nat → addr_of (blocks s) a (o / BSIZE) ≠ 0 →
  byte_of (blocks s2) a o = byte_of (blocks s) a o.
Proof using All.
  intros Hf Ho Hz. unfold byte_of. rewrite meta_addr by done. rewrite meta_data; [done|].
  by apply (fo_addr _ _ Hf).
Qed.

Lemma meta_filled a k : file_ok s a → filled (blocks s) a k → filled (blocks s2) a k.
Proof using All. intros Hf Hk n Hn. rewrite meta_addr by done. by apply Hk. Qed.
End MetaStore.

(** ** Well-formed inodes *)
Record inode_wf (s : fs) (i : inode) : Prop := {
  iw_file : file_ok s (i_addrs i);
  iw_size : 0 ≤ i_size i ≤ MAXFILE * BSIZEz;
  iw_filled : filled (blocks s) (i_addrs i) (Z.to_nat (i_size i));
  iw_dinode : dinode_ok (dinode_of i);
  iw_block : IBLOCK (i_inum i) (sb s) < sb_bmapstart (sb s)
}.

Definition file_block (s : fs) (a : list Z) (x : Z) : Prop :=
  x ≠ 0 ∧ (x = addr_at a NDIRECT ∨ ∃ n, (n < NFILE_BLOCKS)%nat ∧ x = addr_of (blocks s) a n).

(** The loaded inodes are well formed and no block is in two files. *)
Record fs_wf (s : fs) : Prop := {
  wf_layout : layout_ok s;
  wf_held : held_ok s;
  wf_inode : ∀ ip i, itable s !! ip = Some i → i_valid i = true → inode_wf s i;
  wf_disjoint : ∀ ip jp i j x, ip ≠ jp → itable s !! ip = Some i → itable s !! jp = Some j →
    i_valid i = true → i_valid j = true → file_block s (i_addrs i) x → ¬ file_block s (i_addrs j) x
}.

Lemma file_block_owned s a x : file_ok s a → file_block s a x → owned s x.
Proof.
  intros Hf [Hx [->|(n & Hn & ->)]]; [by apply (fo_ind _ _ Hf)|by apply (fo_addr _ _ Hf)].
Qed.

Lemma other_not_block s a x : layout_ok s → other s a x ↔ owned s x ∧ ¬ file_block s a x.
Proof.
  intros Hl. split.
  - intros (H1 & H2 & H3). split; [done|]. intros [_ [->|(n & Hn & ->)]]; [done|]. by apply (H3 n).
  - intros [H1 H2]. pose proof (owned_pos s x Hl H1). split; [done|]. split.
    + intros E. apply H2. split; [lia|by left].
    + intros n Hn E. apply H2. split; [lia|right; by exists n].
Qed.

(** An operation on one file that leaves the blocks of the others alone keeps the invariant. *)
Section WfUpdate.
Context (s : fs) (ip : nat) (i : inode) (s' : fs) (i' : inode).
Context (Hwf : fs_wf s) (Hi : itable s !! ip = Some i) (Hv : i_valid i = true).
Context (Ht : itable s' = <[ip := i']> (itable s)) (Hl : layout_ok s') (Hh : held_ok s') (Hsb : sb s' = sb s).
Context (Hi' : inode_wf s' i').
Context (Hother : ∀ x, other s (i_addrs i) x → other s' (i_addrs i') x ∧ blocks s' x = blocks s x).

Lemma wf_others jp j x :
  jp ≠ ip → itable s !! jp = Some j → i_valid j = true → file_block s (i_addrs j) x →
  other s (i_addrs i) x.
Proof using Hwf Hi Hv.
  intros Hne Hj Hvj Hx. apply other_not_block; [apply Hwf|]. split.
  - eapply file_block_owned; [|done]. by apply (wf_inode s Hwf jp).
  - intros Hx'. by eapply (wf_disjoint s Hwf ip jp).
Qed.

Lemma wf_other_addr jp j n :
  jp ≠ ip → itable s !! jp = Some j → i_valid j = true →
  addr_of (blocks s') (i_addrs j) n = addr_of (blocks s) (i_addrs j) n.
Proof using All.
  intros Hne Hj Hvj. apply addr_of_ext; [done|]. intros Hz.
  apply Hother. apply (wf_others jp j); try done. split; [done|by left].
Qed.

Lemma wf_other_inode jp j :
  jp ≠ ip → itable s !! jp = Some j → i_valid j = true → inode_wf s' j.
Proof using All.
  intros Hne Hj Hvj. pose proof (λ n, wf_other_addr jp j n Hne Hj Hvj) as Ha.
  pose proof (λ x, wf_others jp j x Hne Hj Hvj) as Ho.
  destruct (wf_inode s Hwf jp j Hj Hvj) as [[F1 F2 F3 F4 F5] W2 W3 W4 W5].
  split; [split|done| |done|by rewrite Hsb].
  - done.
  - intros n Hn. rewrite Ha. intros Hz. apply Hother, Ho. split; [done|right; by exists n].
  - intros Hz. apply Hother, Ho. split; [done|by left].
  - intros n m Hn Hm. rewrite !Ha. by apply F4.
  - intros n Hn. rewrite Ha. by apply F5.
  - intros n Hn. rewrite Ha. by apply W3.
Qed.

Lemma wf_other_block jp j x :
  jp ≠ ip → itable s !! jp = Some j → i_valid j = true →
  file_block s' (i_addrs j) x ↔ file_block s (i_addrs j) x.
Proof using All.
  intros Hne Hj Hvj. unfold file_block. by setoid_rewrite (λ n, wf_other_addr jp j n Hne Hj Hvj).
Qed.

Lemma wf_update : fs_wf s'.
Proof using All.
  assert (Hlk : ∀ jp j, itable s' !! jp = Some j → (jp = ip ∧ j = i') ∨ (jp ≠ ip ∧ itable s !! jp = Some j)).
  { intros jp j. rewrite Ht. destruct (decide (jp = ip)) as [->|Hne].
    - rewrite list_lookup_insert_eq by (by eapply lookup_lt_Some). intros [=]. by left.
    - rewrite list_lookup_insert_ne by done. by right. }
  assert (Hdis : ∀ jp j x, jp ≠ ip → itable s !! jp = Some j → i_valid j = true →
            file_block s' (i_addrs j) x → ¬ file_block s' (i_addrs i') x).
  { intros jp j x Hne Hj Hvj Hx. rewrite wf_other_block in Hx by done.
    apply (wf_others jp j x) in Hx; try done. apply Hother in Hx as [Hx _].
    by apply (other_not_block s' _ x Hl) in Hx as [_ ?]. }
  split; [done|done| |].
  - intros jp j Hj Hvj. apply Hlk in Hj as [[-> ->]|[Hne Hj]]; [done|]. by apply (wf_other_inode jp).
  - intros jp kp j k x Hne Hj Hk Hvj Hvk Hx.
    apply Hlk in Hj as [[-> ->]|[Hnj Hj]]; apply Hlk in Hk as [[-> ->]|[Hnk Hk]]; try done.
    + intros Hx'. by apply (Hdis kp k x).
    + by apply (Hdis jp j x).
    + rewrite (wf_other_block jp j) in Hx by done. rewrite (wf_other_block kp k) by done.
      by apply (wf_disjoint s Hwf jp kp j k).
Qed.
End WfUpdate.

(** ** [iupdate] *)
Lemma iupdate_run s ip i :
  itable s !! ip = Some i → IBLOCK (i_inum i) (sb s) ∉ held s →
  let bn := IBLOCK (i_inum i) (sb s) in
  iupdate ip s = (Ret (), set_blocks (<[bn := put_dinode (i_inum i) (dinode_of i) (blocks s bn)]> (blocks s)) s).
Proof.
  intros Hi Hbn bn. unfold iupdate. pure_step. rewrite (bind_run _ _ _ _ _ (get_ip_run ip i s Hi)). cbv zeta.
  by apply bp_update_run.
Qed.

Lemma with_size_id i : with_size (i_size i) i = i.
Proof. by destruct i. Qed.

Lemma addr_range s a n : layout_ok s → file_ok s a → (n < S NDIRECT)%nat → 0 ≤ addr_at a n < 2 ^ 32.
Proof.
  intros Hl Hf Hn. pose proof (lay_size s Hl) as Hs.
  destruct (decide (addr_at a n = 0)) as [->|Hz]; [lia|].
  assert (Ho : owned s (addr_at a n)).
  { destruct (decide (n = NDIRECT)) as [->|Hne]; [by apply (fo_ind _ _ Hf)|].
    assert (E : addr_of (blocks s) a n = addr_at a n)
      by (unfold addr_of; by rewrite (proj2 (Nat.ltb_lt n NDIRECT)) by lia).
    rewrite <-E in Hz |- *. apply (fo_addr _ _ Hf); [|done]. unfold NFILE_BLOCKS. lia. }
  pose proof (owned_pos s _ Hl Ho). lia.
Qed.

Lemma file_addrs_range s a : layout_ok s → file_ok s a → Forall (λ v, 0 ≤ v < 2 ^ 32) a.
Proof.
  intros Hl Hf. apply Forall_lookup. intros n v Hv. pose proof (lookup_lt_Some _ _ _ Hv) as Hn.
  rewrite (fo_len _ _ Hf) in Hn. pose proof (addr_range s a n Hl Hf Hn) as H. unfold addr_at in H.
  by rewrite Hv in H.
Qed.

Lemma max_bytes : MAXFILE * BSIZEz = Z.of_nat (NFILE_BLOCKS * BSIZE).
Proof. rewrite Nat2Z.inj_mul. reflexivity. Qed.

Lemma max_bytes_u32 : Z.of_nat (NFILE_BLOCKS * BSIZE) < 2 ^ 32.
Proof. rewrite <-max_bytes. reflexivity. Qed.

(** ** [writei] *)
Record written (s : fs) (ip : nat) (i : inode) (off n : nat) (src : list Z) (tot : nat) (s' : fs)
    (i' : inode) : Prop := {
  wn_tot : (tot ≤ n)%nat;
  wn_full : (tot < n)%nat → disk_full s';
  wn_inode : i' = with_size (Z.max (i_size i) (Z.of_nat (off + tot))) (with_addrs (i_addrs i') i);
  wn_itable : itable s' = <[ip := i']> (itable s);
  wn_held : held s' = held s;
  wn_sb : sb s' = sb s;
  wn_layout : layout_ok s';
  wn_heldok : held_ok s';
  wn_wf : inode_wf s' i';
  wn_bytes : ∀ o, Z.of_nat o < i_size i' →
    byte_of (blocks s') (i_addrs i') o
    = if decide (off ≤ o < off + tot)%nat then default 0 (src !! (o - off)%nat)
      else byte_of (blocks s) (i_addrs i) o;
  wn_disk : get_dinode (i_inum i) (blocks s' (IBLOCK (i_inum i) (sb s))) = dinode_of i';
  wn_other : ∀ x, other s (i_addrs i) x → other s' (i_addrs i') x ∧ blocks s' x = blocks s x
}.

Section WriteiSpec.
Context (copyin : Z → Z → list Z * bool) (src : list Z).
Let n := length src.
Context (Hin : ∀ t m, 0 ≤ t → 0 ≤ m → t + m ≤ Z.of_nat n → copyin t m = (slice (Z.to_nat t) (Z.to_nat m) src, true)).
Context (s : fs) (ip : nat) (i : inode) (off : nat).
Context (Hi : itable s !! ip = Some i) (Hl : layout_ok s) (Hh : held_ok s) (Hw : inode_wf s i).
Context (Hblk : IBLOCK (i_inum i) (sb s) ∉ held s).
Context (Hoff : Z.of_nat off ≤ i_size i) (Hmax : (off + n ≤ NFILE_BLOCKS * BSIZE)%nat).
Let bn := IBLOCK (i_inum i) (sb s).

(** The end of [writei]: the new size and the copy of the inode on the disk. *)
Lemma writei_end tot s1 a1 :
  (tot ≤ n)%nat → ((tot < n)%nat → disk_full s1) →
  wrote s ip i off (take tot src) (Z.to_nat (i_size i)) s1 a1 →
  let i' := with_size (Z.max (i_size i) (Z.of_nat (off + tot))) (with_addrs a1 i) in
  let s2 := set_itable (<[ip := i']> (itable s1)) s1 in
  written s ip i off n src tot
    (set_blocks (<[bn := put_dinode (i_inum i) (dinode_of i') (blocks s1 bn)]> (blocks s2)) s2) i'.
Proof using Hi Hl Hw Hmax Hoff.
  intros Htot Hfull [Hg Hfl Hby] i' s2. rewrite length_take_le in Hfl, Hby by done.
  destruct Hw as [W1 W2 W3 W4 W5].
  assert (Hl2 : layout_ok s2) by apply layout_table, Hg.
  assert (Hf2 : file_ok s2 a1) by apply file_ok_table, Hg.
  assert (Hsb : sb s1 = sb s) by apply Hg.
  assert (Hbn : bn < sb_bmapstart (sb s2)) by (cbn [s2 sb set_itable]; by rewrite Hsb).
  assert (Hmx : i_size i ≤ Z.of_nat (NFILE_BLOCKS * BSIZE)).
  { rewrite max_bytes in W2. lia. }
  assert (Hd : dinode_ok (dinode_of i')).
  { destruct W4 as [D1 D2 D3 D4 D5 D6 D7]. split; try done.
    - cbn [d_size dinode_of i' i_size with_size]. pose proof max_bytes_u32. lia.
    - apply (fo_len _ _ Hf2).
    - by apply (file_addrs_range s2). }
  set (f := put_dinode (i_inum i) (dinode_of i')).
  assert (Hlen : length (f (blocks s2 bn)) = BSIZE) by (apply length_put_dinode; [apply Hl2|apply Hd]).
  set (s3 := set_blocks (<[bn := f (blocks s2 bn)]> (blocks s2)) s2).
  assert (Hmx' : i_size i' = Z.max (i_size i) (Z.of_nat (off + tot))) by done.
  split; try done.
  - intros Hlt x Hx. change (used s3 x = true). unfold s3. rewrite (meta_used s2 bn f) by done.
    by apply (Hfull Hlt x).
  - cbn. rewrite (gr_itable _ _ _ _ _ Hg). by rewrite list_insert_insert_eq.
  - apply Hg.
  - by apply (meta_layout s2 bn f).
  - apply (meta_held s2 bn f); try done. apply held_ok_table, Hg.
  - split.
    + by apply (meta_file s2 bn f).
    + rewrite Hmx'. rewrite max_bytes. lia.
    + apply (meta_filled s2 bn f); try done. intros m Hm. apply Hfl. rewrite Hmx' in Hm. lia.
    + done.
    + cbn [sb set_blocks s2 set_itable]. by rewrite Hsb.
  - intros o Ho. rewrite Hmx' in Ho.
    assert (Hob : (o / BSIZE < NFILE_BLOCKS)%nat) by (apply Nat.Div0.div_lt_upper_bound; unfold BSIZE in *; lia).
    change (byte_of (blocks s3) a1 o = if decide (off ≤ o < off + tot)%nat
      then default 0 (src !! (o - off)%nat) else byte_of (blocks s) (i_addrs i) o).
    unfold s3. rewrite (meta_byte s2 bn f) by (try done; apply Hfl;
      pose proof (Nat.div_mod_eq o BSIZE); pose proof (Nat.mod_upper_bound o BSIZE ltac:(done)); lia).
    change (blocks s2) with (blocks s1). rewrite Hby by lia. case_decide as D; [|done].
    by rewrite lookup_take_lt by lia.
  - cbn [blocks set_blocks]. fold bn. rewrite fn_lookup_insert. apply get_put_dinode; [apply Hl2|done].
  - intros x Hx. destruct (gr_other _ _ _ _ _ Hg x Hx) as [H1 H2].
    assert (Ho2 : other s2 a1 x).
    { destruct H1 as (X1 & X2 & X3). split; [by apply owned_table|by split]. }
    split; [by apply (meta_other s2 bn f)|]. change (blocks s3 x = blocks s x). unfold s3.
    rewrite (meta_data s2 bn f) by (done || apply Ho2). done.
Qed.

Lemma writei_run :
  ∃ tot s' i', writei copyin ip (Z.of_nat off) (Z.of_nat n) s = (Ret (Z.of_nat tot), s') ∧
    written s ip i off n src tot s' i'.
Proof using All.
  unfold writei. rewrite (bind_run _ _ _ _ _ (get_ip_run ip i s Hi)).
  assert (E1 : (i_size i <? Z.of_nat off) = false) by (apply Z.ltb_ge; lia).
  pose proof max_bytes as HM.
  pose proof max_bytes_u32 as HM'.
  assert (Eu : u32 (Z.of_nat off + Z.of_nat n) = Z.of_nat off + Z.of_nat n) by (apply Z.mod_small; lia).
  rewrite E1, Eu. rewrite (proj2 (Z.ltb_ge _ _)) by lia. cbn [orb]. rewrite (proj2 (Z.ltb_ge _ _)) by lia.
  pose proof Hw as [W1 W2 W3 W4 W5].
  destruct (writei_loop_spec copyin src (Z.of_nat n) ip eq_refl Hin (S (Z.to_nat (Z.of_nat n))) s i off 0
    (Z.to_nat (i_size i)) Hi Hl Hh W1 W3) as (tot & s1 & a1 & Er & Htot & Hwr & Hfull); [lia..|].
  rewrite (bind_run _ _ _ _ _ Er). cbv beta iota.
  change (slice (Z.to_nat 0) tot src) with (take tot src) in Hwr.
  pose proof (wr_grown _ _ _ _ _ _ _ _ Hwr) as Hg.
  assert (Hi1 : itable s1 !! ip = Some (with_addrs a1 i)).
  { rewrite (gr_itable _ _ _ _ _ Hg). apply list_lookup_insert_eq. by eapply lookup_lt_Some. }
  rewrite (bind_run _ _ _ _ _ (get_ip_run ip _ s1 Hi1)).
  set (i' := with_size (Z.max (i_size i) (Z.of_nat (off + tot))) (with_addrs a1 i)).
  set (s2 := set_itable (<[ip := i']> (itable s1)) s1).
  rewrite (bind_run _ _ s1 () s2).
  2: { cbn [i_size with_addrs]. destruct (i_size i <? Z.of_nat (off + tot)) eqn:E.
       - apply Z.ltb_lt in E. rewrite (set_ip_run ip _ _ s1 Hi1). unfold s2, i'.
         by rewrite Z.max_r by lia.
       - apply Z.ltb_ge in E. unfold s2, i'. rewrite Z.max_l by lia.
         change (with_size (i_size i) (with_addrs a1 i)) with (with_size (i_size (with_addrs a1 i)) (with_addrs a1 i)).
         rewrite with_size_id, list_insert_id by done. by destruct s1. }
  assert (Hi2 : itable s2 !! ip = Some i').
  { cbn. apply list_lookup_insert_eq. by eapply lookup_lt_Some. }
  assert (Ebn : IBLOCK (i_inum i') (sb s2) = bn) by (cbn [s2 sb set_itable]; by rewrite (gr_sb _ _ _ _ _ Hg)).
  assert (Hbn2 : IBLOCK (i_inum i') (sb s2) ∉ held s2).
  { rewrite Ebn. cbn [s2 held set_itable]. by rewrite (gr_held _ _ _ _ _ Hg). }
  rewrite (bind_run _ _ _ _ _ (iupdate_run s2 ip i' Hi2 Hbn2)). rewrite Ebn.
  exists tot. eexists _, i'. split; [reflexivity|]. apply (writei_end tot s1 a1); [lia| |done].
  intros Hlt. apply Hfull. lia.
Qed.
End WriteiSpec.

(** ** The theorems *)
Definition contents (s : fs) (i : inode) : list Z :=
  bytes_of (blocks s) (i_addrs i) 0 (Z.to_nat (i_size i)).

Lemma length_contents s i : length (contents s i) = Z.to_nat (i_size i).
Proof. apply length_bytes_of. Qed.

Lemma contents_lookup s i o :
  (o < Z.to_nat (i_size i))%nat → contents s i !! o = Some (byte_of (blocks s) (i_addrs i) o).
Proof. intros Ho. unfold contents, bytes_of. by rewrite list_lookup_fmap, lookup_seq_lt by done. Qed.

Lemma slice_contents s i off m :
  (off + m ≤ Z.to_nat (i_size i))%nat → slice off m (contents s i) = bytes_of (blocks s) (i_addrs i) off m.
Proof.
  intros H. apply list_eq. intros j. destruct (decide (j < m)%nat).
  - rewrite slice_lookup, contents_lookup by lia. unfold bytes_of.
    by rewrite list_lookup_fmap, lookup_seq_lt by done.
  - rewrite !lookup_ge_None_2; [done|rewrite length_bytes_of; lia|].
    rewrite length_slice; [lia|rewrite length_contents; lia].
Qed.

Lemma written_contents s ip i off src tot s' i' :
  inode_wf s i → Z.of_nat off ≤ i_size i → written s ip i off (length src) src tot s' i' →
  contents s' i' = splice off (take tot src) (contents s i).
Proof.
  intros Hw Hoff Hwn. pose proof (wn_tot _ _ _ _ _ _ _ _ _ Hwn) as Ht.
  assert (Hsz : i_size i' = Z.max (i_size i) (Z.of_nat (off + tot)))
    by (by rewrite (wn_inode _ _ _ _ _ _ _ _ _ Hwn)).
  pose proof (length_contents s i) as HL. pose proof (iw_size _ _ Hw) as Hs.
  assert (Hlt : length (take tot src) = tot) by (by apply length_take_le).
  apply list_eq. intros o. destruct (decide (o < Z.to_nat (i_size i'))%nat) as [Ho|Ho].
  2: { rewrite !lookup_ge_None_2; [done| |rewrite length_contents; lia].
       unfold splice. rewrite !length_app, length_take, length_drop, HL, Hlt. lia. }
  rewrite contents_lookup by done. rewrite (wn_bytes _ _ _ _ _ _ _ _ _ Hwn) by lia. unfold splice.
  case_decide as D.
  - rewrite lookup_app_r by (rewrite length_take; lia). rewrite lookup_app_l by (rewrite Hlt, length_take; lia).
    rewrite length_take. replace (o - off `min` length (contents s i))%nat with (o - off)%nat by lia.
    rewrite lookup_take_lt by lia. destruct (lookup_lt_is_Some_2 src (o - off)%nat) as [v Hv]; [lia|].
    by rewrite Hv.
  - destruct (decide (o < off)%nat).
    + rewrite lookup_app_l by (rewrite length_take; lia). rewrite lookup_take_lt by lia.
      by rewrite contents_lookup by lia.
    + rewrite lookup_app_r by (rewrite length_take; lia). rewrite lookup_app_r by (rewrite Hlt, length_take; lia).
      rewrite lookup_drop, contents_lookup by (rewrite Hlt, length_take; lia). f_equal. f_equal.
      rewrite Hlt, length_take. lia.
Qed.

(** The files whose blocks are left alone keep their contents. *)
Lemma contents_other s ip i s' a' jp j :
  fs_wf s → itable s !! ip = Some i → i_valid i = true →
  (∀ x, other s (i_addrs i) x → other s' a' x ∧ blocks s' x = blocks s x) →
  jp ≠ ip → itable s !! jp = Some j → i_valid j = true → contents s' j = contents s j.
Proof.
  intros Hwf Hi Hv Ho Hne Hj Hvj. pose proof (wf_inode s Hwf jp j Hj Hvj) as Hw.
  assert (Hb : ∀ x, file_block s (i_addrs j) x → blocks s' x = blocks s x)
    by (intros x Hx; by eapply Ho, wf_others).
  unfold contents, bytes_of. apply list_fmap_ext. intros k o Hk. apply lookup_seq in Hk as [-> Hk]. cbn.
  assert (Hob : (k / BSIZE * BSIZE < Z.to_nat (i_size j))%nat).
  { pose proof (Nat.div_mod_eq k BSIZE). pose proof (Nat.mod_upper_bound k BSIZE ltac:(done)). lia. }
  assert (Hkb : (k / BSIZE < NFILE_BLOCKS)%nat).
  { pose proof (iw_size _ _ Hw) as Hs. rewrite max_bytes in Hs.
    apply Nat.Div0.div_lt_upper_bound. unfold BSIZE in *. lia. }
  pose proof (iw_filled _ _ Hw _ Hob) as Hz. unfold byte_of.
  assert (Ea : addr_of (blocks s') (i_addrs j) (k / BSIZE) = addr_of (blocks s) (i_addrs j) (k / BSIZE)).
  { apply addr_of_ext; [done|]. intros Hi0. apply Hb. split; [done|by left]. }
  rewrite Ea, Hb; [done|]. split; [done|right; by eexists].
Qed.

Section Theorems.
Context (s : fs) (ip : nat) (i : inode) (off : nat) (src : list Z).
Context (copyin : Z → Z → list Z * bool) (copyout : Z → Z → bool).

Lemma writei_wf_run tot s' i' :
  fs_wf s → itable s !! ip = Some i → i_valid i = true →
  written s ip i off (length src) src tot s' i' → fs_wf s'.
Proof.
  intros Hwf Hi Hv Hw. apply (wf_update s ip i s' i'); try done; apply Hw.
Qed.



(** what [writei] reports written, [readi] gives back at the same offset. *)
Theorem writei_readi :
  (∀ t m, 0 ≤ t → 0 ≤ m → t + m ≤ Z.of_nat (length src) →
    copyin t m = (slice (Z.to_nat t) (Z.to_nat m) src, true)) →
  (∀ t m, copyout t m = true) →
  fs_wf s → itable s !! ip = Some i → i_valid i = true → IBLOCK (i_inum i) (sb s) ∉ held s →
  Z.of_nat off ≤ i_size i → (off + length src ≤ NFILE_BLOCKS * BSIZE)%nat →
  ∃ tot s', writei copyin ip (Z.of_nat off) (Z.of_nat (length src)) s = (Ret tot, s') ∧
    (tot < Z.of_nat (length src) → disk_full s') ∧
    readi copyout ip (Z.of_nat off) tot s' = (Ret (tot, take (Z.to_nat tot) src), s').
Proof.
  intros Hin Hout Hwf Hi Hv Hb Hoff Hmax. pose proof (wf_inode s Hwf ip i Hi Hv) as Hw.
  destruct (writei_run copyin src Hin s ip i off Hi (wf_layout s Hwf) (wf_held s Hwf) Hw Hb Hoff Hmax)
    as (tot & s' & i' & Hrun & Hwn).
  exists (Z.of_nat tot), s'. split; [done|]. split; [intros Hlt; apply Hwn; lia|].
  destruct (wn_wf _ _ _ _ _ _ _ _ _ Hwn) as [W1 W2 W3 W4 W5].
  assert (Hi' : itable s' !! ip = Some i').
  { rewrite (wn_itable _ _ _ _ _ _ _ _ _ Hwn). apply list_lookup_insert_eq. by eapply lookup_lt_Some. }
  pose proof max_bytes_u32. pose proof max_bytes as HM. pose proof (wn_tot _ _ _ _ _ _ _ _ _ Hwn) as Ht.
  rewrite (readi_run s' ip i' copyout Hi' (wn_layout _ _ _ _ _ _ _ _ _ Hwn) (wn_heldok _ _ _ _ _ _ _ _ _ Hwn)
    W1 W2 W3 Hout) by lia.
  assert (Hsz : i_size i' = Z.max (i_size i) (Z.of_nat (off + tot)))
    by (by rewrite (wn_inode _ _ _ _ _ _ _ _ _ Hwn)).
  assert (El : read_len (i_size i') (Z.of_nat off) (Z.of_nat tot) = Z.of_nat tot).
  { unfold read_len. rewrite (proj2 (Z.ltb_ge _ _)) by lia. rewrite (proj2 (Z.leb_gt _ _)) by lia. cbn [orb]. lia. }
  rewrite El, !Nat2Z.id. f_equal. f_equal. f_equal.
  rewrite <-slice_contents by lia. rewrite (written_contents s ip i off src tot s' i') by done.
  assert (Hlt : length (take tot src) = tot) by (by apply length_take_le).
  assert (HL : length (take off (contents s i)) = off)
    by (rewrite length_take, length_contents; pose proof (iw_size _ _ Hw); lia).
  unfold slice, splice. rewrite drop_app_ge by lia. rewrite HL, Nat.sub_diag, drop_0.
  rewrite take_app_le by lia. by rewrite take_ge by lia.
Qed.

(** a write that starts after the end of the file, or that would take it past the largest size, returns -1
    and changes nothing; so does a sum of offset and length that overflows 32 bits. *)
Theorem writei_rejects o n :
  itable s !! ip = Some i → 0 ≤ i_size i < 2 ^ 32 → 0 ≤ o < 2 ^ 32 → 0 ≤ n < 2 ^ 32 →
  i_size i < o ∨ MAXFILE * BSIZEz < o + n →
  writei copyin ip o n s = (Ret (-1), s).
Proof.
  intros Hi Hs Ho Hn Hbad. unfold writei. rewrite (bind_run _ _ _ _ _ (get_ip_run ip i s Hi)).
  destruct (i_size i <? o) eqn:E1; [done|]. apply Z.ltb_ge in E1. cbn [orb].
  destruct (decide (2 ^ 32 ≤ o + n)).
  - assert (Eu : u32 (o + n) = o + n - 2 ^ 32) by (unfold u32; symmetry; apply (Z.mod_unique _ _ 1); lia).
    rewrite Eu. by rewrite (proj2 (Z.ltb_lt _ o)) by lia.
  - assert (Eu : u32 (o + n) = o + n) by (apply Z.mod_small; lia). rewrite Eu.
    rewrite (proj2 (Z.ltb_ge _ o)) by lia. by rewrite (proj2 (Z.ltb_lt _ _)) by lia.
Qed.
End Theorems.

(** ** A small disk with one empty file in use *)
Definition small_sb : superblock :=
  {| sb_magic := FSMAGIC; sb_size := 20; sb_nblocks := 16; sb_ninodes := 16; sb_nlog := 0; sb_logstart := 2;
     sb_inodestart := 2; sb_bmapstart := 3 |}.

Definition small_blocks (b : Z) : block := if b =? 3 then 15 :: replicate 1023 0 else replicate BSIZE 0.

Definition empty_file : inode :=
  {| i_dev := 1; i_inum := 1; i_ref := 1; i_lock := initsleeplock; i_valid := true; i_type := 2;
     i_major := 0; i_minor := 0; i_nlink := 1; i_size := 0; i_addrs := replicate (S NDIRECT) 0 |}.

Definition small_fs_of (i : inode) : fs :=
  {| blocks := small_blocks; held := []; sb := small_sb; itable := [i] |}.
Definition small_fs : fs := small_fs_of empty_file.

Definition copy_from (src : list Z) (t m : Z) : list Z * bool := (slice (Z.to_nat t) (Z.to_nat m) src, true).

Lemma small_layout i : layout_ok (small_fs_of i).
Proof.
  split.
  - done.
  - done.
  - done.
  - intros b Hb. change (0 ≤ b ≤ 3) in Hb.
    assert (b = 0 ∨ b = 1 ∨ b = 2 ∨ b = 3) as [-> |[-> |[-> | ->]]] by lia; done.
  - intros b. cbn [blocks small_fs_of]. unfold small_blocks. case_match; cbn [length]; by rewrite ?length_replicate.
Qed.

Lemma empty_addrs B n : addr_of B (replicate (S NDIRECT) 0) n = 0.
Proof.
  assert (E : ∀ k, addr_at (replicate (S NDIRECT) 0) k = 0).
  { intros k. unfold addr_at. destruct (replicate (S NDIRECT) 0 !! k) eqn:Ek; [|done].
    by apply lookup_replicate_1 in Ek as [-> _]. }
  unfold addr_of. rewrite !E. by destruct (n <? NDIRECT)%nat.
Qed.

Lemma empty_file_ok s : file_ok s (replicate (S NDIRECT) 0).
Proof.
  split.
  - done.
  - intros n _. by rewrite empty_addrs.
  - done.
  - intros n m _ _. by rewrite empty_addrs.
  - intros n _. by rewrite empty_addrs.
Qed.

Lemma small_wf_of i :
  i_addrs i = replicate (S NDIRECT) 0 → i_size i = 0 → dinode_ok (dinode_of i) → i_inum i = 1 →
  fs_wf (small_fs_of i).
Proof.
  intros Ha Hs Hd Hn. split.
  - apply small_layout.
  - split; [constructor|]. intros x Hx. by apply not_elem_of_nil in Hx.
  - intros [|[|ip]] j [=<-] _. split; [rewrite Ha; apply empty_file_ok|by rewrite Hs| |done|].
    + intros n H0. rewrite Hs in H0. cbn in H0. lia.
    + by rewrite Hn.
  - intros [|[|ip]] [|[|jp]] j k x; done.
Qed.

Lemma empty_dinode_ok ty : - 2 ^ 15 ≤ ty < 2 ^ 15 →
  dinode_ok {| d_type := ty; d_major := 0; d_minor := 0; d_nlink := 1; d_size := 0;
               d_addrs := replicate (S NDIRECT) 0 |}.
Proof. intros H. split; try done. cbn. repeat constructor; lia. Qed.

Lemma small_wf : fs_wf small_fs.
Proof. apply small_wf_of; try done. by apply empty_dinode_ok. Qed.

Lemma copy_from_ok src t m : copy_from src t m = (slice (Z.to_nat t) (Z.to_nat m) src, true).
Proof. done. Qed.



Theorem writei_readi_witness : ∃ tot s', writei (copy_from [7; 8; 9]) 0 0 3 small_fs = (Ret tot, s') ∧
  readi (λ _ _, true) 0 0 tot s' = (Ret (tot, take (Z.to_nat tot) [7; 8; 9]), s').
Proof.
  destruct (writei_readi small_fs 0 empty_file 0 [7; 8; 9] (copy_from [7; 8; 9]) (λ _ _, true))
    as (tot & s' & H1 & _ & H2).
  - intros. apply copy_from_ok.
  - done.
  - exact small_wf.
  - reflexivity.
  - reflexivity.
  - apply not_elem_of_nil.
  - cbn. lia.
  - cbn [length]. apply Nat2Z.inj_le. rewrite <-max_bytes. done.
  - exists tot, s'. split; [exact H1|exact H2].
Defined.

Theorem writei_rejects_witness : writei (copy_from [7]) 0 1 1 small_fs = (Ret (-1), small_fs).
Proof.
  apply (writei_rejects small_fs 0 empty_file); [reflexivity|cbn; lia|lia|lia|]. left. cbn. lia.
Defined.
