(* ===== verification/Trunc.v ===== *)
(** * Truncating a file (xv6/kernel/fs.c)

    [itrunc] frees every block of the file, once each, and no other. *)

From S2P Require Export FileOps.

#[local] Set Warnings "-clear-no-such-hyp".
#[local] Set Default Proof Using "Type".
Local Open Scope Z_scope.

(** A loop keeps its invariant. *)
Lemma ffor_inv (I : nat → fs → Prop) (f : nat → F ()) k n s :
  (∀ j s, (k ≤ j < k + n)%nat → I j s → ∃ s', f j s = (Ret (), s') ∧ I (S j) s') →
  I k s → ∃ s', ffor k n f s = (Ret (), s') ∧ I (k + n)%nat s'.
Proof.
  revert k s. induction n as [|n IH]; intros k s Hf Hk.
  { exists s. by rewrite Nat.add_0_r. }
  destruct (Hf k s ltac:(lia) Hk) as (s1 & Hr & H1).
  destruct (IH (S k) s1) as (s' & Hr' & H2); [|done|].
  - intros j s2 Hj. apply Hf. lia.
  - exists s'. cbn [ffor]. rewrite (bind_run _ _ _ _ _ Hr). split; [done|].
    by replace (k + S n)%nat with (S k + n)%nat by lia.
Qed.

(** The state when the blocks [dead] have been freed. *)
Record freeing (s0 : fs) (ip : nat) (i : inode) (h : list Z) (dead a : list Z) (s : fs) : Prop := {
  fg_itable : itable s = <[ip := with_addrs a i]> (itable s0);
  fg_held : held s = h;
  fg_sb : sb s = sb s0;
  fg_layout : layout_ok s;
  fg_heldok : held_ok s;
  fg_used : ∀ x, 0 ≤ x < sb_size (sb s0) → used s x = if decide (x ∈ dead) then false else used s0 x;
  fg_same : ∀ x, ¬ is_bitmap s0 x → blocks s x = blocks s0 x
}.

Lemma free_step s0 ip i h dead a s b :
  layout_ok s0 → freeing s0 ip i h dead a s → is_data s0 b → used s0 b = true → b ∉ dead → b ∉ h →
  ∃ s', bfree b s = (Ret (), s') ∧ freeing s0 ip i h (dead ++ [b]) a s'.
Proof.
  intros Hl0 [F1 F2 F3 F4 F5 F6 F7] Hd Hu Hdead Hh. pose proof (data_pos s0 b Hl0 Hd) as Hb.
  assert (Hd' : is_data s b) by (unfold is_data in *; by rewrite F3).
  assert (Hu' : used s b = true) by (rewrite F6 by lia; by rewrite decide_False).
  destruct (bfree_spec s b F4 F5 Hd' Hu') as (s' & Hr & [R1 R2 R3 R4 R5 R6]). exists s'. split; [done|].
  assert (HU : ∀ x, 0 ≤ x < sb_size (sb s0) → used s' x = if decide (x = b) then false else used s x)
    by (intros x Hx; apply R1; by rewrite F3).
  split; [congruence|congruence|congruence|done| | |].
  - destruct F5 as [K1 K2]. split; rewrite R3; [done|]. intros x Hx. destruct (K2 x Hx) as (X1 & X2 & X3).
    rewrite R4. split; [done|]. split; [|by rewrite (is_bitmap_sb s s' x R4)].
    rewrite R1 by done. rewrite decide_False; [done|]. intros ->. apply Hh. by rewrite <-F2.
  - intros x Hx. rewrite HU, F6 by done. destruct (decide (x = b)) as [->|Hne].
    + rewrite decide_True; [done|]. apply elem_of_app. right. by apply list_elem_of_singleton.
    + destruct (decide (x ∈ dead)) as [Hin|Hin].
      * rewrite decide_True; [done|]. apply elem_of_app. by left.
      * rewrite decide_False; [done|]. by intros [?|?%list_elem_of_singleton]%elem_of_app.
  - intros x Hx. rewrite R2; [by apply F7|]. by rewrite (is_bitmap_sb s0 s x F3).
Qed.

(** The table entry gets new addresses. *)
Lemma freeing_addrs s0 ip i h dead a s k :
  itable s0 !! ip = Some i → freeing s0 ip i h dead a s →
  ∃ s', set_ip ip (λ i, with_addrs (<[k := 0]> (i_addrs i)) i) s = (Ret (), s') ∧
    freeing s0 ip i h dead (<[k := 0]> a) s'.
Proof.
  intros Hi [F1 F2 F3 F4 F5 F6 F7]. pose proof (lookup_lt_Some _ _ _ Hi) as Hlt.
  assert (Hip : itable s !! ip = Some (with_addrs a i)) by (rewrite F1; by apply list_lookup_insert_eq).
  eexists. split; [by apply set_ip_run|]. split; try done.
  - cbn. rewrite F1. by rewrite list_insert_insert_eq.
  - by apply layout_table.
Qed.

Lemma freeing_get s0 ip i h dead a s :
  itable s0 !! ip = Some i → freeing s0 ip i h dead a s → get_ip ip s = (Ret (with_addrs a i), s).
Proof.
  intros Hi Hf. apply get_ip_run. rewrite (fg_itable _ _ _ _ _ _ _ Hf). apply list_lookup_insert_eq.
  by eapply lookup_lt_Some.
Qed.

(** The addresses that are set. *)
Definition live (l : list Z) : list Z := filter (λ x, x ≠ 0) l.

Lemma live_app l1 l2 : live (l1 ++ l2) = live l1 ++ live l2.
Proof. apply filter_app. Qed.

Lemma elem_of_live x l : x ∈ live l ↔ x ≠ 0 ∧ x ∈ l.
Proof. unfold live. by rewrite list_elem_of_filter. Qed.

Lemma live_one x : live [x] = if decide (x = 0) then [] else [x].
Proof.
  unfold live. destruct (decide (x = 0)) as [->|H]; [done|]. by rewrite filter_cons, decide_True.
Qed.

(** A loop that frees the addresses of a list in turn. *)
Section FreeAll.
Context (s0 : fs) (ip : nat) (i : inode) (h dead : list Z) (l : list Z).
Context (Hl0 : layout_ok s0).
Context (Hown : ∀ k, (k < length l)%nat → addr_at l k ≠ 0 → is_data s0 (addr_at l k) ∧ used s0 (addr_at l k) = true).
Context (Hinj : ∀ j k, (j < length l)%nat → (k < length l)%nat → addr_at l j ≠ 0 → addr_at l j = addr_at l k → j = k).
Context (Hdead : ∀ k, (k < length l)%nat → addr_at l k ≠ 0 → (addr_at l k ∉ dead) ∧ (addr_at l k ∉ h)).

Lemma free_nth k a s :
  (k < length l)%nat → freeing s0 ip i h (dead ++ live (take k l)) a s → addr_at l k ≠ 0 →
  ∃ s', bfree (addr_at l k) s = (Ret (), s') ∧ freeing s0 ip i h (dead ++ live (take (S k) l)) a s'.
Proof using All.
  intros Hk Hf Hz. destruct (Hown k Hk Hz) as [Hd Hu]. destruct (Hdead k Hk Hz) as [Hnd Hnh].
  destruct (free_step s0 ip i h _ a s (addr_at l k) Hl0 Hf Hd Hu) as (s' & Hr & Hf'); [|done|].
  - intros [?|[_ Hin]%elem_of_live]%elem_of_app; [done|].
    apply list_elem_of_lookup in Hin as [j Hj]. pose proof (lookup_lt_Some _ _ _ Hj) as Hlt.
    rewrite length_take in Hlt. rewrite lookup_take_lt in Hj by lia.
    assert (Ej : addr_at l j = addr_at l k) by (unfold addr_at at 1; by rewrite Hj).
    assert (j = k); [|lia]. apply Hinj; [lia|done|congruence|done].
  - exists s'. split; [done|]. rewrite <-app_assoc in Hf'.
    assert (E : take (S k) l = take k l ++ [addr_at l k]).
    { destruct (lookup_lt_is_Some_2 l k Hk) as [v Hv]. rewrite (take_S_r l k v Hv). unfold addr_at. by rewrite Hv. }
    rewrite E, live_app, live_one, decide_False by done. done.
Qed.

Lemma free_none k a s :
  (k < length l)%nat → freeing s0 ip i h (dead ++ live (take k l)) a s → addr_at l k = 0 →
  freeing s0 ip i h (dead ++ live (take (S k) l)) a s.
Proof using Type.
  intros Hk Hf Hz.
  assert (E : take (S k) l = take k l ++ [addr_at l k]).
  { destruct (lookup_lt_is_Some_2 l k Hk) as [v Hv]. rewrite (take_S_r l k v Hv). unfold addr_at. by rewrite Hv. }
  by rewrite E, live_app, live_one, decide_True, app_nil_r.
Qed.
End FreeAll.

(** ** [itrunc] *)
Lemma zero_addrs (l : list Z) : length l = S NDIRECT → (∀ k, addr_at l k = 0) → l = replicate (S NDIRECT) 0.
Proof.
  intros Hlen Hz. apply list_eq. intros k. destruct (decide (k < S NDIRECT)%nat) as [Hk|Hk].
  - rewrite lookup_replicate_2 by done. destruct (lookup_lt_is_Some_2 l k) as [v Hv]; [lia|].
    specialize (Hz k). unfold addr_at in Hz. rewrite Hv in Hz. cbn in Hz. by rewrite Hv, Hz.
  - rewrite !lookup_ge_None_2; [done|rewrite length_replicate; lia|lia].
Qed.

Section Itrunc.
Context (s0 : fs) (ip : nat) (i : inode).
Context (Hi : itable s0 !! ip = Some i) (Hl : layout_ok s0) (Hh : held_ok s0) (Hf : file_ok s0 (i_addrs i)).
Let a := i_addrs i.
Let h := held s0.
Let direct := take NDIRECT a.
Let ind := addr_at a NDIRECT.
Let entries := indirect_at (blocks s0 ind) <$> seq 0 NINDIRECT.

Lemma freeing_refl : freeing s0 ip i h [] a s0.
Proof using Hi Hl Hh. split; try done. exact (eq_sym (insert_same_addrs s0 ip i Hi)). Qed.

Lemma direct_at k : (k < NDIRECT)%nat → addr_at direct k = addr_of (blocks s0) a k.
Proof using Type.
  intros Hk. unfold direct, addr_of. rewrite (proj2 (Nat.ltb_lt k NDIRECT) Hk). unfold addr_at.
  by rewrite lookup_take_lt.
Qed.

Lemma length_direct : length direct = NDIRECT.
Proof using Hf. unfold direct. rewrite length_take_le; [done|]. unfold a. rewrite (fo_len _ _ Hf). lia. Qed.

Lemma entries_at k : ind ≠ 0 → (k < NINDIRECT)%nat → addr_at entries k = addr_of (blocks s0) a (NDIRECT + k).
Proof using Type.
  intros Hz Hk. unfold addr_of. rewrite (proj2 (Nat.ltb_ge _ _)) by lia. fold ind.
  rewrite (proj2 (Z.eqb_neq ind 0) Hz). replace (NDIRECT + k - NDIRECT)%nat with k by lia.
  unfold addr_at, entries. by rewrite list_lookup_fmap, lookup_seq_lt.
Qed.

Lemma length_entries : length entries = NINDIRECT.
Proof using Type. unfold entries. by rewrite length_fmap, length_seq. Qed.

Lemma file_owned n : (n < NFILE_BLOCKS)%nat → addr_of (blocks s0) a n ≠ 0 →
  is_data s0 (addr_of (blocks s0) a n) ∧ used s0 (addr_of (blocks s0) a n) = true ∧ addr_of (blocks s0) a n ∉ h.
Proof using Hf. intros Hn Hz. by destruct (fo_addr _ _ Hf n Hn Hz). Qed.

Lemma trunc_direct :
  ∃ s1 a1, ffor 0 NDIRECT (λ k,
    i ← get_ip ip;
    let addr := addr_at (i_addrs i) k in
    if addr =? 0 then mret ()
    else bfree addr;; set_ip ip (λ i, with_addrs (<[k := 0]> (i_addrs i)) i)) s0 = (Ret (), s1) ∧
    length a1 = S NDIRECT ∧ (∀ j, addr_at a1 j = if decide (j < NDIRECT)%nat then 0 else addr_at a j) ∧
    freeing s0 ip i h (live direct) a1 s1.
Proof using Hi Hl Hh Hf.
  pose proof length_direct as HL.
  destruct (ffor_inv (λ k s, ∃ ak, length ak = S NDIRECT ∧
      (∀ j, addr_at ak j = if decide (j < k)%nat then 0 else addr_at a j) ∧
      freeing s0 ip i h (live (take k direct)) ak s) (λ k,
    i ← get_ip ip;
    let addr := addr_at (i_addrs i) k in
    if addr =? 0 then mret ()
    else bfree addr;; set_ip ip (λ i, with_addrs (<[k := 0]> (i_addrs i)) i)) 0 NDIRECT s0)
    as (s1 & Hr & a1 & H1 & H2 & H3).
  - intros k s Hk (ak & A1 & A2 & A3). rewrite (bind_run _ _ _ _ _ (freeing_get _ _ _ _ _ _ _ Hi A3)).
    cbv zeta. cbn [i_addrs with_addrs]. assert (Ek : addr_at ak k = addr_at direct k).
    { rewrite A2, decide_False by lia. rewrite direct_at by lia. unfold addr_of.
      by rewrite (proj2 (Nat.ltb_lt k NDIRECT)) by lia. }
    rewrite Ek. assert (Hkl : (k < length direct)%nat) by lia.
    destruct (addr_at direct k =? 0) eqn:E.
    + apply Z.eqb_eq in E. exists s. split; [done|]. exists ak. split; [done|]. split.
      * intros j. rewrite A2. destruct (decide (j < k)%nat).
        { by rewrite decide_True by lia. }
        destruct (decide (j = k)) as [->|]; [|by rewrite decide_False by lia].
        rewrite decide_True by lia. rewrite <-E, <-Ek, A2. by rewrite decide_False by lia.
      * by apply (free_none s0 ip i h [] direct k ak s).
    + apply Z.eqb_neq in E.
      destruct (free_nth s0 ip i h [] direct Hl) with (k := k) (a := ak) (s := s) as (s' & Hr' & Hf'); try done.
      * intros j Hj. rewrite direct_at by lia. intros Hz.
        destruct (file_owned j) as (? & ? & _); [unfold NFILE_BLOCKS; lia|done|done].
      * intros j m Hj Hm. rewrite !direct_at by lia. apply (fo_inj _ _ Hf); unfold NFILE_BLOCKS; lia.
      * intros j Hj. rewrite direct_at by lia. intros Hz. split; [apply not_elem_of_nil|].
        apply file_owned; [unfold NFILE_BLOCKS; lia|done].
      * rewrite (bind_run _ _ _ _ _ Hr').
        destruct (freeing_addrs s0 ip i h _ ak s' k Hi Hf') as (s2 & Hr2 & Hf2).
        exists s2. split; [done|]. eexists. split; [by rewrite length_insert|]. split; [|done].
        intros j. rewrite addr_at_insert by lia. destruct (decide (j = k)) as [->|]; [by rewrite decide_True by lia|].
        rewrite A2. destruct (decide (j < k)%nat); [by rewrite decide_True by lia|by rewrite decide_False by lia].
  - exists a. split; [apply (fo_len _ _ Hf)|]. split; [done|]. exact freeing_refl.
  - exists s1, a1. split; [done|]. split; [done|]. split; [done|]. rewrite Nat.add_0_l, take_ge in H3 by lia. done.
Qed.

(** Buffers held and released while blocks are freed. *)
Lemma freeing_hold dead a1 s : freeing s0 ip i h dead a1 s → ind ≠ 0 → ind ∉ dead →
  freeing s0 ip i (ind :: h) dead a1 (set_held (ind :: h) s).
Proof using Hl Hf.
  intros [F1 F2 F3 F4 F5 F6 F7] Hz Hd. pose proof (fo_ind _ _ Hf Hz) as [O1 O2 O3].
  pose proof (data_pos s0 ind Hl O1) as Hb. split; try done.
  - destruct F4; done.
  - destruct F5 as [K1 K2]. rewrite F2 in K1, K2. split; [by constructor|].
    intros x [->|Hx]%elem_of_cons; [|by apply K2].
    cbn [sb set_held]. rewrite F3. split; [lia|]. split.
    + change (used s ind = true). rewrite F6 by lia. by rewrite decide_False.
    + rewrite (is_bitmap_sb s0 _ ind F3). by apply bitmap_not_data.
Qed.

Lemma freeing_release dead a1 s : freeing s0 ip i (ind :: h) dead a1 s → ind ∉ h →
  freeing s0 ip i h dead a1 (set_held h s).
Proof using Type.
  intros [F1 F2 F3 F4 F5 F6 F7] Hn. split; try done.
  - destruct F4; done.
  - destruct F5 as [K1 K2]. rewrite F2 in K1, K2. apply NoDup_cons in K1 as [_ K1]. split; [done|].
    intros x Hx. apply K2. by right.
Qed.

Lemma ind_not_direct : ind ≠ 0 → ind ∉ live direct.
Proof using Hf.
  intros Hz [_ Hin]%elem_of_live. apply list_elem_of_lookup in Hin as [k Hk].
  pose proof (lookup_lt_Some _ _ _ Hk) as Hlt. rewrite length_direct in Hlt.
  assert (E : addr_of (blocks s0) a k = ind).
  { rewrite <-direct_at by done. unfold addr_at. by rewrite Hk. }
  apply (fo_ne _ _ Hf k); [unfold NFILE_BLOCKS; lia|by fold a; rewrite E|done].
Qed.

Lemma ind_not_entry : ind ≠ 0 → ind ∉ live entries.
Proof using Hf.
  intros Hz [_ Hin]%elem_of_live. apply list_elem_of_lookup in Hin as [k Hk].
  pose proof (lookup_lt_Some _ _ _ Hk) as Hlt. rewrite length_entries in Hlt.
  assert (E : addr_of (blocks s0) a (NDIRECT + k) = ind).
  { rewrite <-entries_at by done. unfold addr_at. by rewrite Hk. }
  apply (fo_ne _ _ Hf (NDIRECT + k)); [unfold NFILE_BLOCKS; lia|by fold a; rewrite E|done].
Qed.

Lemma trunc_entries a1 s1 :
  ind ≠ 0 → freeing s0 ip i (ind :: h) (live direct) a1 s1 →
  ∃ s2, ffor 0 NINDIRECT (λ j,
       d ← bp_data ind;
       if indirect_at d j =? 0 then mret () else bfree (indirect_at d j)) s1 = (Ret (), s2) ∧
    freeing s0 ip i (ind :: h) (live direct ++ live entries) a1 s2.
Proof using Hi Hl Hh Hf.
  intros Hz Hf1. pose proof length_entries as HL. pose proof length_direct as HLd.
  pose proof (fo_ind _ _ Hf Hz) as [O1 O2 O3].
  destruct (ffor_inv (λ k s, freeing s0 ip i (ind :: h) (live direct ++ live (take k entries)) a1 s) (λ j,
       d ← bp_data ind;
       if indirect_at d j =? 0 then mret () else bfree (indirect_at d j)) 0 NINDIRECT s1)
    as (s2 & Hr & Hf2).
  - intros k s Hk Hs. unfold bp_data. pure_step.
    rewrite (fg_same _ _ _ _ _ _ _ Hs) by by apply bitmap_not_data.
    assert (Ek : indirect_at (blocks s0 ind) k = addr_at entries k).
    { unfold addr_at, entries. by rewrite list_lookup_fmap, lookup_seq_lt by lia. }
    rewrite Ek. destruct (addr_at entries k =? 0) eqn:E.
    + apply Z.eqb_eq in E. exists s. split; [done|]. by apply (free_none s0 ip i _ _ entries k a1 s); [lia|..].
    + apply Z.eqb_neq in E. apply free_nth; try done; [| | |lia].
      * intros j Hj. rewrite entries_at by lia. intros Hzj.
        destruct (file_owned (NDIRECT + j)) as (? & ? & _); [unfold NFILE_BLOCKS; lia|done|done].
      * intros j m Hj Hm. rewrite !entries_at by lia. intros H1 H2.
        assert (NDIRECT + j = NDIRECT + m)%nat; [|lia]. apply (fo_inj _ _ Hf); unfold NFILE_BLOCKS; lia || done.
      * intros j Hj. rewrite entries_at by lia. intros Hzj. split.
        -- intros [_ Hin]%elem_of_live. apply list_elem_of_lookup in Hin as [m Hm].
           pose proof (lookup_lt_Some _ _ _ Hm) as Hlt. rewrite HLd in Hlt.
           assert (Em : addr_of (blocks s0) a m = addr_of (blocks s0) a (NDIRECT + j)).
           { rewrite <-direct_at by done. unfold addr_at at 1. by rewrite Hm. }
           assert (m = NDIRECT + j)%nat; [|lia].
           apply (fo_inj _ _ Hf); unfold NFILE_BLOCKS; try lia; try done. fold a. by rewrite Em.
        -- intros [Hin|Hin]%elem_of_cons.
           ++ apply (fo_ne _ _ Hf (NDIRECT + j)); [unfold NFILE_BLOCKS; lia|done|done].
           ++ revert Hin. apply file_owned; [unfold NFILE_BLOCKS; lia|done].
  - unfold live at 2. rewrite take_0. cbn [filter list_filter]. by rewrite app_nil_r.
  - exists s2. split; [done|]. by rewrite Nat.add_0_l, take_ge in Hf2 by lia.
Qed.

(** The blocks of the file. *)
Definition file_list : list Z :=
  live direct ++ (if ind =? 0 then [] else live entries ++ [ind]).

Lemma elem_of_file_list x : x ∈ file_list ↔ file_block s0 a x.
Proof using Hi Hl Hh Hf.
  pose proof length_entries as HL. pose proof length_direct as HLd. unfold file_list. rewrite elem_of_app, elem_of_live. split.
  - intros [[Hx Hin]|Hin].
    + split; [done|right]. apply list_elem_of_lookup in Hin as [k Hk]. pose proof (lookup_lt_Some _ _ _ Hk) as Hlt.
      exists k. split; [unfold NFILE_BLOCKS; lia|]. rewrite <-direct_at by lia. unfold addr_at. by rewrite Hk.
    + destruct (ind =? 0) eqn:E; [by apply not_elem_of_nil in Hin|]. apply Z.eqb_neq in E.
      apply elem_of_app in Hin as [[Hx Hin]%elem_of_live|Hin%list_elem_of_singleton]; [|subst x; split; [done|by left]].
      split; [done|right]. apply list_elem_of_lookup in Hin as [k Hk]. pose proof (lookup_lt_Some _ _ _ Hk) as Hlt.
      exists (NDIRECT + k)%nat. split; [unfold NFILE_BLOCKS; lia|]. rewrite <-entries_at by (done || lia).
      unfold addr_at. by rewrite Hk.
  - intros [Hx [E|(n & Hn & ->)]].
    + right. fold ind in E. rewrite <-E. rewrite (proj2 (Z.eqb_neq x 0) Hx). apply elem_of_app. right.
      by apply list_elem_of_singleton.
    + destruct (decide (n < NDIRECT)%nat) as [Hd|Hd].
      * left. split; [done|]. rewrite <-direct_at by done. unfold addr_at.
        destruct (lookup_lt_is_Some_2 direct n) as [v Hv]; [lia|]. rewrite Hv. by eapply list_elem_of_lookup_2.
      * right. assert (Hz : ind ≠ 0).
        { intros E. apply Hx. unfold addr_of. rewrite (proj2 (Nat.ltb_ge _ _)) by lia. fold ind. by rewrite E. }
        rewrite (proj2 (Z.eqb_neq ind 0) Hz). apply elem_of_app. left. apply elem_of_live. split; [done|].
        replace n with (NDIRECT + (n - NDIRECT))%nat by lia.
        rewrite <-entries_at by (done || unfold NFILE_BLOCKS in Hn; lia). unfold addr_at.
        destruct (lookup_lt_is_Some_2 entries (n - NDIRECT)) as [v Hv]; [unfold NFILE_BLOCKS in Hn; lia|].
        rewrite Hv. by eapply list_elem_of_lookup_2.
Qed.

Lemma trunc_blocks :
  ∃ s2, (ffor 0 NDIRECT (λ k,
    i ← get_ip ip;
    let addr := addr_at (i_addrs i) k in
    if addr =? 0 then mret ()
    else bfree addr;; set_ip ip (λ i, with_addrs (<[k := 0]> (i_addrs i)) i));;
  i ← get_ip ip;
  let ind := addr_at (i_addrs i) NDIRECT in
  (if ind =? 0 then mret ()
   else
     bp_read ind;;
     ffor 0 NINDIRECT (λ j,
       a ← bp_data ind;
       if indirect_at a j =? 0 then mret () else bfree (indirect_at a j));;
     bp_relse ind;;
     bfree ind;;
     set_ip ip (λ i, with_addrs (<[NDIRECT := 0]> (i_addrs i)) i))) s0 = (Ret (), s2) ∧
    freeing s0 ip i h file_list (replicate (S NDIRECT) 0) s2.
Proof using Hi Hl Hh Hf.
  destruct trunc_direct as (s1 & a1 & Hr1 & Hlen & Ha1 & Hf1).
  erewrite bind_run; [|exact Hr1]. cbv beta.
  rewrite (bind_run _ _ _ _ _ (freeing_get _ _ _ _ _ _ _ Hi Hf1)). cbv zeta. cbn [i_addrs with_addrs].
  rewrite Ha1, decide_False by lia. fold ind. unfold file_list. destruct (ind =? 0) eqn:E.
  { exists s1. split; [done|]. apply Z.eqb_eq in E. rewrite app_nil_r. rewrite <-(zero_addrs a1 Hlen); [done|].
    intros k. rewrite Ha1. destruct (decide (k < NDIRECT)%nat); [done|].
    destruct (decide (k = NDIRECT)) as [->|]; [done|]. unfold addr_at. rewrite lookup_ge_None_2; [done|].
    pose proof (fo_len _ _ Hf) as Hla. fold a in Hla. lia. }
  apply Z.eqb_neq in E. pose proof (fo_ind _ _ Hf E) as [O1 O2 O3]. fold a ind h in O1, O2, O3.
  assert (Hn : ind ∉ held s1) by (by rewrite (fg_held _ _ _ _ _ _ _ Hf1)).
  rewrite (bind_run _ _ _ _ _ (bp_read_run ind s1 Hn)). rewrite (fg_held _ _ _ _ _ _ _ Hf1).
  destruct (trunc_entries a1 _ E (freeing_hold _ _ _ Hf1 E (ind_not_direct E))) as (s2 & Hr2 & Hf2).
  erewrite bind_run; [|exact Hr2]. cbv beta. unfold bp_relse. pure_step.
  rewrite (fg_held _ _ _ _ _ _ _ Hf2), release_cons by done.
  pose proof (freeing_release _ _ _ Hf2 O3) as Hf3.
  destruct (free_step s0 ip i h _ a1 _ ind Hl Hf3 O1 O2) as (s4 & Hr4 & Hf4); [|done|].
  { intros [Hin|Hin]%elem_of_app; [by apply ind_not_direct|by apply ind_not_entry]. }
  rewrite (bind_run _ _ _ _ _ Hr4). destruct (freeing_addrs _ _ _ _ _ _ _ NDIRECT Hi Hf4) as (s5 & Hr5 & Hf5).
  exists s5. split; [exact Hr5|]. rewrite <-app_assoc in Hf5. rewrite <-(zero_addrs (<[NDIRECT := 0]> a1)); [done| |].
  - by rewrite length_insert.
  - intros k. rewrite addr_at_insert by lia. destruct (decide (k = NDIRECT)); [done|]. rewrite Ha1.
    destruct (decide (k < NDIRECT)%nat); [done|]. unfold addr_at. rewrite lookup_ge_None_2; [done|].
    pose proof (fo_len _ _ Hf) as Hla. fold a in Hla. lia.
Qed.
End Itrunc.

Section ItruncSpec.
Context (s : fs) (ip : nat) (i : inode).
Let i' := with_size 0 (with_addrs (replicate (S NDIRECT) 0) i).
Let bn := IBLOCK (i_inum i) (sb s).

Record truncated (s' : fs) : Prop := {
  tr_itable : itable s' = <[ip := i']> (itable s);
  tr_held : held s' = held s;
  tr_sb : sb s' = sb s;
  tr_layout : layout_ok s';
  tr_heldok : held_ok s';
  tr_wf : inode_wf s' i';
  tr_freed : ∀ x, 0 ≤ x < sb_size (sb s) → file_block s (i_addrs i) x → used s' x = false;
  tr_kept : ∀ x, 0 ≤ x < sb_size (sb s) → ¬ file_block s (i_addrs i) x → used s' x = used s x;
  tr_disk : get_dinode (i_inum i) (blocks s' bn) = dinode_of i';
  tr_data : ∀ x, is_data s x → blocks s' x = blocks s x;
  tr_other : ∀ x, other s (i_addrs i) x → other s' (i_addrs i') x ∧ blocks s' x = blocks s x
}.

Context (Hi : itable s !! ip = Some i) (Hl : layout_ok s) (Hh : held_ok s) (Hw : inode_wf s i).
Context (Hblk : bn ∉ held s).

Lemma itrunc_end s1 :
  freeing s ip i (held s) (file_list s i) (replicate (S NDIRECT) 0) s1 →
  let s2 := set_itable (<[ip := i']> (itable s1)) s1 in
  truncated (set_blocks (<[bn := put_dinode (i_inum i) (dinode_of i') (blocks s2 bn)]> (blocks s2)) s2).
Proof using Hi Hl Hh Hw.
  intros [F1 F2 F3 F4 F5 F6 F7] s2. destruct Hw as [W1 W2 W3 W4 W5].
  assert (Hl2 : layout_ok s2) by by apply layout_table.
  assert (Hbn : bn < sb_bmapstart (sb s2)) by (cbn [s2 sb set_itable]; by rewrite F3).
  assert (Hd : dinode_ok (dinode_of i')).
  { destruct W4 as [D1 D2 D3 D4 D5 D6 D7]. split; try done. cbn. repeat constructor; lia. }
  set (f := put_dinode (i_inum i) (dinode_of i')).
  assert (Hlen : length (f (blocks s2 bn)) = BSIZE) by (apply length_put_dinode; [apply Hl2|apply Hd]).
  set (s3 := set_blocks (<[bn := f (blocks s2 bn)]> (blocks s2)) s2).
  assert (Hused : ∀ x, 0 ≤ x < sb_size (sb s) →
            used s3 x = if decide (x ∈ file_list s i) then false else used s x).
  { intros x Hx. unfold s3. rewrite (meta_used s2 bn f) by (try done; cbn [s2 sb set_itable]; by rewrite F3).
    by apply F6. }
  assert (Hdata : ∀ x, is_data s x → blocks s3 x = blocks s x).
  { intros x Hx. unfold s3. rewrite (meta_data s2 bn f) by (try done; unfold is_data in *; cbn [s2 sb set_itable]; by rewrite F3).
    apply F7. by apply bitmap_not_data. }
  pose proof (elem_of_file_list s ip i Hi Hl Hh W1) as Hfl.
  split; try done.
  - cbn. rewrite F1. by rewrite list_insert_insert_eq.
  - by apply (meta_layout s2 bn f).
  - by apply (meta_held s2 bn f).
  - split; [apply empty_file_ok|done| |done|].
    + intros n Hn. change (n * BSIZE < 0)%nat in Hn. lia.
    + change (IBLOCK (i_inum i) (sb s1) < sb_bmapstart (sb s1)). by rewrite F3.
  - intros x Hx Hb. change (used s3 x = false). rewrite Hused by done. by rewrite decide_True by by apply Hfl.
  - intros x Hx Hb. change (used s3 x = used s x). rewrite Hused by done.
    by rewrite decide_False by by rewrite Hfl.
  - unfold s3. cbn [blocks set_blocks]. rewrite fn_lookup_insert. apply get_put_dinode; [apply Hl2|done].
  - intros x Hx. apply (other_not_block s _ x Hl) in Hx as [[O1 O2 O3] Hnb]. split; [|by apply Hdata].
    pose proof (data_pos s x Hl O1) as Hx. split; [|split].
    + assert (Es : sb s3 = sb s) by done. assert (Eh : held s3 = held s) by done.
      split; [unfold is_data in *; by rewrite Es| |by rewrite Eh].
      change (used s3 x = true). rewrite Hused by lia. by rewrite decide_False by by rewrite Hfl.
    + change (x ≠ 0). lia.
    + intros n _. cbn [i_addrs i' with_size with_addrs]. rewrite empty_addrs. lia.
Qed.

Lemma itrunc_run : ∃ s', itrunc ip s = (Ret (), s') ∧ truncated s'.
Proof using Hi Hl Hh Hw Hblk.
  destruct (trunc_blocks s ip i Hi Hl Hh (iw_file _ _ Hw)) as (s1 & Hr & Hf).
  apply bind_ret_inv in Hr as (u & sa & Hr1 & Hr). apply bind_ret_inv in Hr as (ia & sb' & Hr2 & Hr3).
  unfold itrunc. rewrite (bind_run _ _ _ _ _ Hr1). cbv beta. rewrite (bind_run _ _ _ _ _ Hr2). cbv beta zeta.
  erewrite bind_run; [|exact Hr3]. cbv beta.
  assert (Hi1 : itable s1 !! ip = Some (with_addrs (replicate (S NDIRECT) 0) i)).
  { rewrite (fg_itable _ _ _ _ _ _ _ Hf). apply list_lookup_insert_eq. by eapply lookup_lt_Some. }
  rewrite (bind_run _ _ _ _ _ (set_ip_run ip _ _ s1 Hi1)). fold i'.
  set (s2 := set_itable (<[ip := i']> (itable s1)) s1).
  assert (Hi2 : itable s2 !! ip = Some i') by (apply list_lookup_insert_eq; by eapply lookup_lt_Some).
  assert (Ebn : IBLOCK (i_inum i') (sb s2) = bn) by (cbn [s2 sb set_itable]; by rewrite (fg_sb _ _ _ _ _ _ _ Hf)).
  rewrite (iupdate_run s2 ip i' Hi2).
  2: { rewrite Ebn. cbn [s2 held set_itable]. by rewrite (fg_held _ _ _ _ _ _ _ Hf). }
  rewrite Ebn. eexists. split; [reflexivity|]. by apply itrunc_end.
Qed.
End ItruncSpec.

(** C28: [itrunc] never panics on a well-formed file system: it frees the blocks of its file, the indirect
    block and the blocks it names included, each once, and no other block; the file is empty, in memory
    and on the disk; the other files keep their contents and the invariant holds again. *)
Theorem itrunc_frees s ip i :
  fs_wf s → itable s !! ip = Some i → i_valid i = true → IBLOCK (i_inum i) (sb s) ∉ held s →
  ∃ s' i', itrunc ip s = (Ret (), s') ∧ fs_wf s' ∧
    itable s' = <[ip := i']> (itable s) ∧ contents s' i' = [] ∧
    (∀ x, 0 ≤ x < sb_size (sb s) → (file_block s (i_addrs i) x → used s' x = false) ∧
                                   (¬ file_block s (i_addrs i) x → used s' x = used s x)) ∧
    (∀ jp j, jp ≠ ip → itable s !! jp = Some j → i_valid j = true → contents s' j = contents s j) ∧
    get_dinode (i_inum i) (blocks s' (IBLOCK (i_inum i) (sb s))) = dinode_of i'.
Proof.
  intros Hwf Hi Hv Hb. pose proof (wf_inode s Hwf ip i Hi Hv) as Hw.
  destruct (itrunc_run s ip i Hi (wf_layout s Hwf) (wf_held s Hwf) Hw Hb) as (s' & Hrun & Ht).
  exists s'. eexists. split; [done|]. split; [|split; [apply Ht|]].
  - eapply (wf_update s ip i s'); try done; apply Ht.
  - split; [done|]. split; [|split; [|apply Ht]].
    + intros x Hx. split; by apply Ht.
    + intros jp j Hne Hj Hvj. by apply (contents_other s ip i s' _ jp j Hwf Hi Hv (tr_other _ _ _ _ Ht)).
Qed.

Theorem itrunc_frees_witness : ∃ s', itrunc 0 small_fs = (Ret (), s') ∧ fs_wf s'.
Proof.
  destruct (itrunc_frees small_fs 0 empty_file) as (s' & i' & H1 & H2 & _).
  - exact small_wf.
  - reflexivity.
  - reflexivity.
  - apply not_elem_of_nil.
  - exists s'. split; [exact H1|exact H2].
Defined.
