(* ===== verification/Dir.v ===== *)
(** * Directories and paths (xv6/kernel/fs.c, fs.h)

    A directory is a file of 16-byte entries.  [dirlookup] reads them one after
    the other with [readi], [dirlink] writes one with [writei], and [namex]
    walks a path, a list of bytes without its NUL. *)

From S2P Require Export KString Trunc.

#[local] Set Warnings "-clear-no-such-hyp".
#[local] Set Default Proof Using "Type".
Local Open Scope Z_scope.

Definition DIRSIZ : nat := 14.
(** [sizeof(struct dirent)] *)
Definition DESIZE : Z := 16.
Definition ROOTDEV : Z := 1.
Definition ROOTINO : Z := 1.

Definition namecmp (s t : cptr) : Z := strncmp s t DIRSIZ.

(** [struct dirent] as its bytes *)
Definition de_inum (de : list Z) : Z := le_get 2 0 de.
Definition de_name (de : list Z) : list Z := slice 2 DIRSIZ de.
Definition mk_dirent (inum : Z) (name : list Z) : list Z := le_bytes 2 (u16 inum) ++ name.

(** A destination in the kernel: [either_copyout] is a [memmove]. *)
Definition to_kernel (t m : Z) : bool := true.

(** [None]: 0, no such entry. *)
Fixpoint dirlookup_loop (fuel : nat) (dp : nat) (name : cptr) (off : Z) : F (option (nat * Z)) :=
  i ← get_ip dp;
  if off <? i_size i then
    match fuel with
    | O => nofuel
    | S fuel =>
        '(r, de) ← readi to_kernel dp off DESIZE;
        if negb (r =? DESIZE) then throw (Panic "dirlookup read")
        else if de_inum de =? 0 then dirlookup_loop fuel dp name (u32 (off + DESIZE))
        else if namecmp name (ptr (de_name de)) =? 0 then
          ip ← iget (i_dev i) (de_inum de);
          mret (Some (ip, off))
        else dirlookup_loop fuel dp name (u32 (off + DESIZE))
    end
  else mret None.

Definition dirlookup (dp : nat) (name : cptr) : F (option (nat * Z)) :=
  i ← get_ip dp;
  if negb (i_type i =? T_DIR) then throw (Panic "dirlookup not DIR")
  else dirlookup_loop (S (Z.to_nat (i_size i))) dp name 0.

(** The offset of the first empty entry, or of the end. *)
Fixpoint dirlink_scan (fuel : nat) (dp : nat) (off : Z) : F Z :=
  i ← get_ip dp;
  if off <? i_size i then
    match fuel with
    | O => nofuel
    | S fuel =>
        '(r, de) ← readi to_kernel dp off DESIZE;
        if negb (r =? DESIZE) then throw (Panic "dirlink read")
        else if de_inum de =? 0 then mret off
        else dirlink_scan fuel dp (off + DESIZE)
    end
  else mret off.

Section Me.
Context (me : Z).

Definition dirlink (dp : nat) (name : cptr) (inum : Z) : F Z :=
  r ← dirlookup dp name;
  match r with
  | Some (ip, _) => iput me ip;; mret (-1)
  | None =>
      i ← get_ip dp;
      off ← dirlink_scan (S (Z.to_nat (i_size i))) dp 0;
      tot ← writei (copy_from (mk_dirent inum (strncpy name DIRSIZ))) dp off DESIZE;
      if tot =? DESIZE then mret 0 else mret (-1)
  end.
End Me.

(** ** Paths *)
Definition SLASH : Z := 47.

Fixpoint skip_slashes (path : list Z) : list Z :=
  match path with
  | c :: path' => if c =? SLASH then skip_slashes path' else path
  | [] => []
  end.

(** The element at the front and the rest. *)
Fixpoint span_elem (path : list Z) : list Z * list Z :=
  match path with
  | c :: path' =>
      if c =? SLASH then ([], path) else let (e, r) := span_elem path' in (c :: e, r)
  | [] => ([], [])
  end.

(** The rest of the path and the new contents of [name]. *)
Definition skipelem (path name : list Z) : option (list Z * list Z) :=
  match skip_slashes path with
  | [] => None
  | path =>
      let (s, path) := span_elem path in
      let name :=
        if (DIRSIZ <=? length s)%nat then splice 0 (take DIRSIZ s) name
        else splice 0 (s ++ [0]) name in
      Some (skip_slashes path, name)
  end.

Section Paths.
Context (me : Z) (cwd : nat).

(** The inode and the contents of [name]; [None]: 0. *)
Fixpoint namex_loop (fuel : nat) (path : list Z) (parent : bool) (name : list Z) (ip : nat)
    : F (option nat * list Z) :=
  match skipelem path name with
  | None => if parent then iput me ip;; mret (None, name) else mret (Some ip, name)
  | Some (path, name) =>
      match fuel with
      | O => nofuel
      | S fuel =>
          ilock me (Some ip);;
          i ← get_ip ip;
          if negb (i_type i =? T_DIR) then iunlockput me ip;; mret (None, name)
          else if i_nlink i =? 0 then iunlockput me ip;; mret (None, name)
          else if parent && bool_decide (path = []) then iunlock me (Some ip);; mret (Some ip, name)
          else
            r ← dirlookup ip (ptr name);
            match r with
            | None => iunlockput me ip;; mret (None, name)
            | Some (next, _) => iunlockput me ip;; namex_loop fuel path parent name next
            end
      end
  end.

Definition namex (path : list Z) (parent : bool) (name : list Z) : F (option nat * list Z) :=
  ip ← (match path with
        | c :: _ => if c =? SLASH then iget ROOTDEV ROOTINO else idup cwd
        | [] => idup cwd
        end);
  namex_loop (S (length path)) path parent name ip.

(** [name]: what the local array held before. *)
Definition namei (name : list Z) (path : list Z) : F (option nat) :=
  '(ip, _) ← namex path false name; mret ip.

Definition nameiparent (path name : list Z) : F (option nat * list Z) := namex path true name.
End Paths.

(** ** The entries of a directory *)
Definition entry := (Z * list Z)%type.

Definition entry_at (c : list Z) (k : nat) : entry :=
  (de_inum (slice (16 * k) 16 c), de_name (slice (16 * k) 16 c)).

Definition entries (c : list Z) : list entry := entry_at c <$> seq 0 (length c / 16).

(** The first entry in use with this name: its index and its inode number. *)
Fixpoint dir_find (name : cptr) (es : list entry) (k : nat) : option (nat * Z) :=
  match es with
  | [] => None
  | (inum, nm) :: es =>
      if negb (inum =? 0) && (namecmp name (ptr nm) =? 0) then Some (k, inum)
      else dir_find name es (S k)
  end.

Record dir_ok (s : fs) (dp : nat) (i : inode) : Prop := {
  do_wf : fs_wf s;
  do_entry : itable s !! dp = Some i;
  do_valid : i_valid i = true;
  do_type : i_type i = T_DIR;
  do_size : (16 | i_size i)
}.

Lemma max_bytes_val : MAXFILE * BSIZEz = 274432.
Proof. reflexivity. Qed.

Section Lookup.
Context (s : fs) (dp : nat) (i : inode) (Hd : dir_ok s dp i).

Lemma dir_wf : inode_wf s i.
Proof using Hd. destruct Hd. by eapply wf_inode. Qed.

Lemma dir_readi k :
  (16 * k < Z.to_nat (i_size i))%nat →
  readi to_kernel dp (Z.of_nat (16 * k)) DESIZE s = (Ret (DESIZE, slice (16 * k) 16 (contents s i)), s).
Proof using Hd.
  intros Hk. pose proof dir_wf as [W1 W2 W3 W4 W5]. destruct Hd as [D1 D2 D3 D4 [z D5]].
  pose proof max_bytes_u32. pose proof max_bytes as HM.
  rewrite (readi_run s dp i to_kernel D2 (wf_layout s D1) (wf_held s D1) W1 W2 W3 (λ _ _, eq_refl)) by (unfold DESIZE; lia).
  assert (E : read_len (i_size i) (Z.of_nat (16 * k)) DESIZE = DESIZE).
  { unfold read_len, DESIZE. rewrite (proj2 (Z.ltb_ge _ _)) by lia. rewrite (proj2 (Z.leb_gt _ _)) by lia.
    cbn [orb]. lia. }
  rewrite E, Nat2Z.id. by rewrite slice_contents by lia.
Qed.

Lemma entries_lookup k :
  (16 * k < Z.to_nat (i_size i))%nat → entries (contents s i) !! k = Some (entry_at (contents s i) k).
Proof using Hd.
  intros Hk. unfold entries. rewrite list_lookup_fmap, lookup_seq_lt; [done|].
  rewrite length_contents. destruct (do_size _ _ _ Hd) as [z Hz]. rewrite Hz in *.
  apply Nat.div_le_lower_bound; lia.
Qed.

Lemma length_entries_dir : length (entries (contents s i)) = (Z.to_nat (i_size i) / 16)%nat.
Proof using Type. unfold entries. by rewrite length_fmap, length_seq, length_contents. Qed.

Lemma entries_end k : (Z.to_nat (i_size i) ≤ 16 * k)%nat → drop k (entries (contents s i)) = [].
Proof using Type.
  intros Hk. apply drop_ge. rewrite length_entries_dir. apply Nat.Div0.div_le_upper_bound. lia.
Qed.

(** The loop is the search. *)
Lemma dirlookup_loop_spec name fuel k :
  (Z.to_nat (i_size i) < 16 * k + 16 * fuel)%nat →
  dirlookup_loop fuel dp name (Z.of_nat (16 * k)) s
  = match dir_find name (drop k (entries (contents s i))) k with
    | None => (Ret None, s)
    | Some (j, inum) =>
        (ip ← iget (i_dev i) inum; mret (Some (ip, Z.of_nat (16 * j)))) s
    end.
Proof using Hd.
  pose proof dir_wf as W. pose proof (iw_size _ _ W) as Hs. rewrite max_bytes_val in Hs.
  revert k. induction fuel as [|fuel IH]; intros k Hf; cbn [dirlookup_loop];
    rewrite (bind_run _ _ _ _ _ (get_ip_run dp i s (do_entry _ _ _ Hd)));
    destruct (Z.of_nat (16 * k) <? i_size i) eqn:E.
  - apply Z.ltb_lt in E. lia.
  - apply Z.ltb_ge in E. by rewrite entries_end by lia.
  - apply Z.ltb_lt in E. rewrite (bind_run _ _ _ _ _ (dir_readi k ltac:(lia))). cbv beta iota.
    rewrite Z.eqb_refl. cbn [negb]. rewrite (drop_S _ _ _ (entries_lookup k ltac:(lia))).
    unfold entry_at at 1. cbn [dir_find].
    assert (Eu : u32 (Z.of_nat (16 * k) + DESIZE) = Z.of_nat (16 * S k)).
    { unfold u32, DESIZE. rewrite Z.mod_small by lia. lia. }
    rewrite Eu. destruct (de_inum _ =? 0); cbn [negb andb]; [by rewrite IH by lia|].
    destruct (namecmp _ _ =? 0); [done|]. by rewrite IH by lia.
  - apply Z.ltb_ge in E. by rewrite entries_end by lia.
Qed.

Lemma dirlookup_run name :
  dirlookup dp name s
  = match dir_find name (entries (contents s i)) 0 with
    | None => (Ret None, s)
    | Some (j, inum) => (ip ← iget (i_dev i) inum; mret (Some (ip, Z.of_nat (16 * j)))) s
    end.
Proof using Hd.
  unfold dirlookup. rewrite (bind_run _ _ _ _ _ (get_ip_run dp i s (do_entry _ _ _ Hd))).
  rewrite (do_type _ _ _ Hd). cbn [negb Z.eqb T_DIR Pos.eqb].
  rewrite (dirlookup_loop_spec name _ 0) by lia. by rewrite drop_0.
Qed.

(** The first empty entry from [k] on. *)
Fixpoint first_empty (es : list entry) (k : nat) : nat :=
  match es with
  | [] => k
  | (inum, _) :: es => if inum =? 0 then k else first_empty es (S k)
  end.

Lemma dirlink_scan_spec fuel k :
  (Z.to_nat (i_size i) < 16 * k + 16 * fuel)%nat → (16 * k ≤ Z.to_nat (i_size i))%nat →
  dirlink_scan fuel dp (Z.of_nat (16 * k)) s
  = (Ret (Z.of_nat (16 * first_empty (drop k (entries (contents s i))) k)), s).
Proof using Hd.
  destruct (do_size _ _ _ Hd) as [z Hz]. pose proof (iw_size _ _ dir_wf) as Hs.
  revert k. induction fuel as [|fuel IH]; intros k Hf Hk; cbn [dirlink_scan];
    rewrite (bind_run _ _ _ _ _ (get_ip_run dp i s (do_entry _ _ _ Hd)));
    destruct (Z.of_nat (16 * k) <? i_size i) eqn:E.
  - apply Z.ltb_lt in E. lia.
  - apply Z.ltb_ge in E. by rewrite entries_end by lia.
  - apply Z.ltb_lt in E. rewrite (bind_run _ _ _ _ _ (dir_readi k ltac:(lia))). cbv beta iota.
    rewrite Z.eqb_refl. cbn [negb]. rewrite (drop_S _ _ _ (entries_lookup k ltac:(lia))).
    unfold entry_at at 1. cbn [first_empty]. destruct (de_inum _ =? 0); [done|].
    replace (Z.of_nat (16 * k) + DESIZE) with (Z.of_nat (16 * S k)) by (unfold DESIZE; lia).
    apply IH; lia.
  - apply Z.ltb_ge in E. by rewrite entries_end by lia.
Qed.
End Lookup.

(** ** The search in a changed directory *)
Lemma dir_find_app name l1 l2 n :
  dir_find name (l1 ++ l2) n
  = match dir_find name l1 n with Some r => Some r | None => dir_find name l2 (n + length l1) end.
Proof.
  revert n. induction l1 as [|[inum nm] l1 IH]; intros n; cbn [app dir_find length]; [by rewrite Nat.add_0_r|].
  case_match; [done|]. rewrite IH. by rewrite Nat.add_succ_comm.
Qed.

Lemma first_empty_split es n :
  ∃ l1 l2, es = l1 ++ l2 ∧ first_empty es n = (n + length l1)%nat ∧
    match l2 with [] => True | (inum, _) :: _ => inum = 0 end.
Proof.
  revert n. induction es as [|[inum nm] es IH]; intros n; cbn [first_empty].
  - exists [], []. split; [done|]. split; [cbn; lia|done].
  - destruct (inum =? 0) eqn:E.
    + apply Z.eqb_eq in E. exists [], ((inum, nm) :: es). split; [done|]. split; [cbn; lia|done].
    + destruct (IH (S n)) as (l1 & l2 & -> & H2 & H3). exists ((inum, nm) :: l1), l2.
      split; [done|]. split; [cbn; lia|done].
Qed.

(** Filling the first empty place of a directory in which the name is not found. *)
Lemma dir_find_insert name nm inum es :
  dir_find name es 0 = None → inum ≠ 0 → namecmp name (ptr nm) = 0 →
  let k := first_empty es 0 in
  let es' := take k es ++ (inum, nm) :: drop (S k) es in
  dir_find name es' 0 = Some (k, inum) ∧
  ∀ other, namecmp name other ≠ 0 → dir_find other es' 0 = dir_find other es 0.
Proof.
  intros Hnone Hz Hnm k es'. destruct (first_empty_split es 0) as (l1 & l2 & -> & Hk & Hl2).
  rewrite Nat.add_0_l in Hk. unfold es', k. rewrite Hk. rewrite take_app_length.
  rewrite dir_find_app in Hnone. destruct (dir_find name l1 0) eqn:E1; [done|]. split.
  - rewrite dir_find_app, E1. cbn [dir_find]. rewrite (proj2 (Z.eqb_neq inum 0) Hz), (proj2 (Z.eqb_eq _ 0) Hnm).
    done.
  - intros other Hne. rewrite !dir_find_app. destruct (dir_find other l1 0); [done|]. cbn [dir_find].
    assert (Eo : (namecmp other (ptr nm) =? 0) = false).
    { apply Z.eqb_neq. intros E. apply Hne. eapply strncmp_trans; [done|]. by apply strncmp_sym. }
    rewrite Eo, andb_false_r. rewrite drop_app_ge by lia. replace (S (length l1) - length l1)%nat with 1%nat by lia.
    destruct l2 as [|[inum2 nm2] l2]; [done|]. subst inum2. done.
Qed.

Lemma slice_splice_chunk k j (de c : list Z) :
  length de = 16%nat → (16 * k ≤ length c)%nat → j ≠ k → (j < k ∨ 16 * k + 16 ≤ length c)%nat →
  slice (16 * j) 16 (splice (16 * k) de c) = slice (16 * j) 16 c.
Proof.
  intros Hde Hk Hj Hlt. apply list_eq. intros m. destruct (decide (m < 16)%nat) as [Hm|Hm].
  2: { unfold slice. by rewrite !lookup_take_ge by lia. }
  rewrite !slice_lookup by done. unfold splice. destruct (decide (j < k)%nat).
  - rewrite lookup_app_l by (rewrite length_take; lia). by rewrite lookup_take_lt by lia.
  - rewrite lookup_app_r by (rewrite length_take; lia). rewrite length_take.
    rewrite lookup_app_r by (rewrite Hde; lia). rewrite lookup_drop, Hde. f_equal. lia.
Qed.

Lemma slice_splice_here k (de c : list Z) :
  length de = 16%nat → (16 * k ≤ length c)%nat → slice (16 * k) 16 (splice (16 * k) de c) = de.
Proof.
  intros Hde Hk. unfold slice, splice. rewrite drop_app_length' by (rewrite length_take; lia).
  by rewrite take_app_length'.
Qed.

(** One entry written: at [k], or after the last. *)
Lemma entries_splice k de c :
  length de = 16%nat → (16 | length c)%nat → (16 * k ≤ length c)%nat →
  entries (splice (16 * k) de c)
  = take k (entries c) ++ (de_inum de, de_name de) :: drop (S k) (entries c).
Proof.
  intros Hde [n Hn] Hk. assert (Hkn : (k ≤ n)%nat) by lia.
  assert (HE : length (entries c) = n).
  { unfold entries. rewrite length_fmap, length_seq, Hn. apply Nat.div_mul. done. }
  assert (HL : length (splice (16 * k) de c) = (16 * Nat.max n (S k))%nat).
  { unfold splice. rewrite !length_app, length_take, length_drop, Hde, Hn. lia. }
  assert (HE' : length (entries (splice (16 * k) de c)) = Nat.max n (S k)).
  { unfold entries. rewrite length_fmap, length_seq, HL, Nat.mul_comm. apply Nat.div_mul. done. }
  assert (Hlk : ∀ c j, (j < length (entries c))%nat → entries c !! j = Some (entry_at c j)).
  { intros c' j Hj. unfold entries in *. rewrite length_fmap, length_seq in Hj.
    by rewrite list_lookup_fmap, lookup_seq_lt. }
  apply list_eq. intros j. destruct (decide (j < Nat.max n (S k))%nat) as [Hj|Hj].
  2: { rewrite !lookup_ge_None_2; [done| |lia]. rewrite length_app, length_take. cbn [length].
       rewrite length_drop, HE. lia. }
  rewrite Hlk by lia. destruct (decide (j < k)%nat).
  - rewrite lookup_app_l by (rewrite length_take; lia). rewrite lookup_take_lt by done. rewrite Hlk by lia.
    unfold entry_at. by rewrite slice_splice_chunk by lia.
  - rewrite lookup_app_r by (rewrite length_take; lia). rewrite length_take, HE, Nat.min_l by done.
    destruct (decide (j = k)) as [->|Hne].
    + rewrite Nat.sub_diag. cbn [lookup list_lookup]. unfold entry_at. by rewrite slice_splice_here by lia.
    + destruct (j - k)%nat as [|m] eqn:Em; [lia|]. rewrite lookup_cons_ne_0 by lia. rewrite lookup_drop. cbn [pred].
      replace (S k + m)%nat with j by lia. rewrite Hlk by lia. unfold entry_at.
      by rewrite slice_splice_chunk by lia.
Qed.

Lemma dirent_parts inum name :
  0 ≤ inum < 2 ^ 16 → length name = DIRSIZ →
  length (mk_dirent inum name) = 16%nat ∧ de_inum (mk_dirent inum name) = inum ∧
  de_name (mk_dirent inum name) = name.
Proof.
  intros Hi Hn. unfold mk_dirent, de_inum, de_name. rewrite length_app, length_le_bytes, Hn. split; [done|]. split.
  - rewrite le_get_app_l by by rewrite length_le_bytes. replace (u16 inum) with inum
      by (symmetry; by apply Z.mod_small). by apply le_get_bytes.
  - unfold slice. rewrite drop_app_length' by by rewrite length_le_bytes. by rewrite take_ge by lia.
Qed.

(** ** The theorems *)
Section DirTheorems.
Context (me : Z) (s : fs) (dp : nat) (i : inode) (name : cptr).

(** [dirlookup] finds the first entry in use whose name is equal to the one asked for, up to 14 bytes, and
    gets its inode; it returns 0, and the directory is as it was, when there is no such entry; it never
    panics on a directory of whole entries. *)
Theorem dirlookup_spec :
  dir_ok s dp i →
  dirlookup dp name s
  = match dir_find name (entries (contents s i)) 0 with
    | None => (Ret None, s)
    | Some (j, inum) => (ip ← iget (i_dev i) inum; mret (Some (ip, Z.of_nat (16 * j)))) s
    end.
Proof. intros Hd. by apply dirlookup_run. Qed.

Lemma dirlink_absent inum :
  dir_ok s dp i → dir_find name (entries (contents s i)) 0 = None → 0 < inum < 2 ^ 16 →
  IBLOCK (i_inum i) (sb s) ∉ held s → i_size i + 16 ≤ MAXFILE * BSIZEz →
  let k := first_empty (entries (contents s i)) 0 in
  ∃ tot s' i', dirlink me dp name inum s = (Ret (if decide (tot = 16%nat) then 0 else -1), s') ∧
    written s dp i (16 * k) 16 (mk_dirent inum (strncpy name DIRSIZ)) tot s' i' ∧ fs_wf s' ∧
    Z.of_nat (16 * k) ≤ i_size i.
Proof.
  intros Hd Hnone Hin Hblk Hmax k. pose proof Hd as [D1 D2 D3 D4 D5].
  pose proof (dir_wf s dp i Hd) as Hw. pose proof (iw_size _ _ Hw) as Hs. rewrite max_bytes_val in Hs, Hmax.
  set (de := mk_dirent inum (strncpy name DIRSIZ)).
  assert (Hlen : length de = 16%nat) by (apply dirent_parts; [lia|apply length_strncpy]).
  assert (Hk : Z.of_nat (16 * k) ≤ i_size i).
  { unfold k. destruct (first_empty_split (entries (contents s i)) 0) as (l1 & l2 & E & -> & _).
    apply (f_equal length) in E. rewrite length_entries_dir, length_app in E. rewrite Nat.add_0_l.
    assert (length l1 ≤ Z.to_nat (i_size i) / 16)%nat as H16 by lia.
    pose proof (Nat.div_mod_eq (Z.to_nat (i_size i)) 16). lia. }
  unfold dirlink. rewrite (bind_run _ _ s None s) by (rewrite (dirlookup_run s dp i Hd), Hnone; reflexivity).
  rewrite (bind_run _ _ _ _ _ (get_ip_run dp i s D2)).
  rewrite (bind_run _ _ _ _ _ (dirlink_scan_spec s dp i Hd (S (Z.to_nat (i_size i))) 0 ltac:(lia) ltac:(lia))).
  rewrite drop_0. fold k. fold de.
  assert (ED : DESIZE = Z.of_nat (length de)) by (by rewrite Hlen). rewrite ED.
  assert (Hfit : (16 * k + length de ≤ NFILE_BLOCKS * BSIZE)%nat).
  { apply Nat2Z.inj_le. rewrite <-max_bytes, max_bytes_val. lia. }
  destruct (writei_run (copy_from de) de (λ t m _ _ _, copy_from_ok de t m) s dp i (16 * k) D2 (wf_layout s D1)
    (wf_held s D1) Hw Hblk Hk Hfit) as (tot & s' & i' & Hrun & Hwn).
  pose proof Hwn as Hwn16. rewrite Hlen in Hwn16.
  exists tot, s', i'. rewrite (bind_run _ _ _ _ _ Hrun). split; [|split; [exact Hwn16|split; [|exact Hk]]].
  - rewrite Hlen. destruct (decide (tot = 16%nat)) as [->|Hne]; [done|].
    by rewrite (proj2 (Z.eqb_neq _ _)) by lia.
  - by apply (writei_wf_run s dp i (16 * k) de tot s' i').
Qed.

(** C29: after [dirlink] of a name that was not there returned 0, [dirlookup] of the name finds the
    inode number linked, and of any other name what it found before; when it returned -1 no block was
    free on the disk. *)
Theorem dirlink_dirlookup inum :
  dir_ok s dp i → dir_find name (entries (contents s i)) 0 = None → 0 < inum < 2 ^ 16 →
  IBLOCK (i_inum i) (sb s) ∉ held s → i_size i + 16 ≤ MAXFILE * BSIZEz →
  ∃ r s', dirlink me dp name inum s = (Ret r, s') ∧ fs_wf s' ∧
    ((r = -1 ∧ disk_full s') ∨
     (r = 0 ∧ ∃ off,
        dirlookup dp name s' = (ip ← iget (i_dev i) inum; mret (Some (ip, off))) s' ∧
        ∀ other, namecmp name other ≠ 0 →
          match dir_find other (entries (contents s i)) 0 with
          | None => dirlookup dp other s' = (Ret None, s')
          | Some (j, n) =>
              dirlookup dp other s' = (ip ← iget (i_dev i) n; mret (Some (ip, Z.of_nat (16 * j)))) s'
          end)).
Proof.
  intros Hd Hnone Hin Hblk Hmax. pose proof (dir_wf s dp i Hd) as Hw.
  destruct (dirlink_absent inum Hd Hnone Hin Hblk Hmax) as (tot & s' & i' & Hrun & Hwn & Hwf' & Hk).
  eexists _, s'. split; [done|]. split; [done|]. destruct (decide (tot = 16%nat)) as [->|Hne].
  2: { left. split; [done|]. apply Hwn. pose proof (wn_tot _ _ _ _ _ _ _ _ _ Hwn). lia. }
  right. split; [done|]. set (es := entries (contents s i)) in *. set (k := first_empty es 0) in *.
  destruct (dirent_parts inum (strncpy name DIRSIZ) ltac:(lia) (length_strncpy _ _)) as (Hlen & Ei & En).
  set (de := mk_dirent inum (strncpy name DIRSIZ)) in *.
  pose proof (do_size _ _ _ Hd) as Hdiv. pose proof (iw_size _ _ Hw) as Hs.
  assert (Hc : entries (contents s' i') = take k es ++ (inum, strncpy name DIRSIZ) :: drop (S k) es).
  { rewrite (written_contents s dp i (16 * k) de 16 s' i' Hw Hk) by (by rewrite Hlen).
    rewrite take_ge by lia. rewrite entries_splice; [by rewrite Ei, En|done| |].
    - rewrite length_contents. destruct Hdiv as [z ->]. exists (Z.to_nat z). lia.
    - rewrite length_contents. lia. }
  assert (Hd' : dir_ok s' dp i').
  { pose proof (wn_inode _ _ _ _ _ _ _ _ _ Hwn) as Ei'. split; [done| | | |].
    - rewrite (wn_itable _ _ _ _ _ _ _ _ _ Hwn). apply list_lookup_insert_eq.
      eapply lookup_lt_Some, (do_entry _ _ _ Hd).
    - rewrite Ei'. apply (do_valid _ _ _ Hd).
    - rewrite Ei'. apply (do_type _ _ _ Hd).
    - rewrite Ei'. cbn [i_size with_size]. destruct Hdiv as [z Hz].
      destruct (Z.max_spec (i_size i) (Z.of_nat (16 * k + 16))) as [[_ ->]|[_ ->]]; [|by exists z].
      exists (Z.of_nat (k + 1)). lia. }
  assert (Edev : i_dev i' = i_dev i) by (by rewrite (wn_inode _ _ _ _ _ _ _ _ _ Hwn)).
  destruct (dir_find_insert name (strncpy name DIRSIZ) inum es Hnone ltac:(lia) (strncmp_strncpy name DIRSIZ)) as [F1 F2].
  fold k in F1, F2. rewrite <-Hc in F1, F2.
  exists (Z.of_nat (16 * k)). split.
  - rewrite (dirlookup_run s' dp i' Hd'), F1. by rewrite Edev.
  - intros other Hne. rewrite <-(F2 other Hne). rewrite (dirlookup_run s' dp i' Hd' other).
    destruct (dir_find other _ 0) as [[j n]|]; [by rewrite Edev|done].
Qed.
End DirTheorems.

(** ** [skipelem] *)
Definition no_slash (l : list Z) : Prop := SLASH ∉ l.

Lemma skip_slashes_app n l :
  skip_slashes (replicate n SLASH ++ l) = skip_slashes l.
Proof. induction n as [|n IH]; [done|]. cbn [replicate app skip_slashes]. by rewrite Z.eqb_refl. Qed.

Lemma skip_slashes_none l : head l ≠ Some SLASH → skip_slashes l = l.
Proof.
  destruct l as [|c l]; [done|]. cbn. intros H. rewrite (proj2 (Z.eqb_neq c SLASH)); [done|congruence].
Qed.

Lemma span_elem_app e r :
  no_slash e → r = [] ∨ head r = Some SLASH → span_elem (e ++ r) = (e, r).
Proof.
  intros He Hr. induction e as [|c e IH]; cbn [app span_elem].
  - destruct r as [|c r]; [done|]. destruct Hr as [?|[= ->]]; [done|]. cbn [span_elem]. by rewrite Z.eqb_refl.
  - apply not_elem_of_cons in He as [Hc He]. rewrite (proj2 (Z.eqb_neq c SLASH)) by done. by rewrite IH.
Qed.

(** [skipelem] takes the first element off a path: leading and following slashes are dropped, the
    element is put in [name] with a NUL after it when it has fewer than 14 bytes, and cut at 14 bytes
    otherwise; a path of slashes only has no element. *)
Theorem skipelem_spec n m elem rest name :
  elem ≠ [] → no_slash elem → head rest ≠ Some SLASH → m ≠ 0%nat ∨ rest = [] →
  skipelem (replicate n SLASH ++ elem ++ replicate m SLASH ++ rest) name
  = Some (rest, if decide (DIRSIZ ≤ length elem)%nat then splice 0 (take DIRSIZ elem) name
                else splice 0 (elem ++ [0]) name) ∧
  skipelem (replicate n SLASH) name = None.
Proof.
  intros He Hs Hr Hm. split.
  - unfold skipelem. rewrite skip_slashes_app.
    assert (Hh : head (elem ++ replicate m SLASH ++ rest) ≠ Some SLASH).
    { destruct elem as [|c elem]; [done|]. apply not_elem_of_cons in Hs as [Hc _]. cbn. congruence. }
    rewrite skip_slashes_none by done. destruct elem as [|c elem]; [done|]. cbn [app].
    change (c :: elem ++ replicate m SLASH ++ rest) with ((c :: elem) ++ replicate m SLASH ++ rest).
    rewrite span_elem_app; [|done|].
    + rewrite skip_slashes_app, skip_slashes_none by done. f_equal. f_equal.
      destruct (decide (DIRSIZ ≤ length (c :: elem))%nat) as [H|H].
      * by rewrite (proj2 (Nat.leb_le _ _) H).
      * by rewrite (proj2 (Nat.leb_gt _ _)) by lia.
    + destruct m as [|m]; [left|by right]. destruct Hm as [?| ->]; done.
  - unfold skipelem. rewrite <-(app_nil_r (replicate n SLASH)). by rewrite skip_slashes_app.
Qed.

(** "//a/bb" *)
Theorem skipelem_spec_witness :
  skipelem ([47; 47] ++ [97] ++ [47] ++ [98; 98]) (replicate 14 1)
  = Some ([98; 98], [97; 0] ++ replicate 12 1).
Proof. apply (skipelem_spec 2 1 [97] [98; 98] (replicate 14 1)); [done|by intros ?%list_elem_of_singleton|done|by left]. Defined.

(** ** An empty directory *)
Definition empty_dir : inode :=
  {| i_dev := 1; i_inum := 1; i_ref := 1; i_lock := initsleeplock; i_valid := true; i_type := T_DIR;
     i_major := 0; i_minor := 0; i_nlink := 1; i_size := 0; i_addrs := replicate (S NDIRECT) 0 |}.
Definition dir_fs : fs := small_fs_of empty_dir.

Lemma dir_fs_ok : dir_ok dir_fs 0 empty_dir.
Proof.
  split; try done.
  - apply small_wf_of; try done. by apply empty_dinode_ok.
  - by exists 0.
Qed.

Theorem dirlookup_spec_witness : dirlookup 0 (ptr [97]) dir_fs = (Ret None, dir_fs).
Proof. exact (dirlookup_spec dir_fs 0 empty_dir (ptr [97]) dir_fs_ok). Defined.

Theorem dirlink_dirlookup_witness : ∃ r s', dirlink 1 0 (ptr [97]) 2 dir_fs = (Ret r, s') ∧
  (r = -1 ∨ (r = 0 ∧ ∃ off, dirlookup 0 (ptr [97]) s' = (ip ← iget 1 2; mret (Some (ip, off))) s')).
Proof.
  destruct (dirlink_dirlookup 1 dir_fs 0 empty_dir (ptr [97]) 2 dir_fs_ok) as (r & s' & H1 & _ & H2).
  - reflexivity.
  - lia.
  - apply not_elem_of_nil.
  - rewrite max_bytes_val. cbn. lia.
  - exists r, s'. split; [exact H1|]. destruct H2 as [[H2 _]|(H2 & off & H3 & _)]; [by left|right].
    split; [exact H2|]. exists off. exact H3.
Defined.
