(* ===== verification/Pipe.v ===== *)
(** * Pipes of the kernel (xv6/kernel/pipe.c)

    A pipe is a ring of 512 bytes with two counters of 32 bits that only grow,
    and wrap.  [pipewrite] and [piperead] hold the pipe's lock from one sleep to
    the next: one such turn is a function here, and calls interleave between
    turns.  [copyin i] is the user's byte at [addr + i], [None] when it cannot be
    read; [copyout i] says whether a byte can be stored at [addr + i]; [killed i]
    is what [killed] says when the loop is at [i].  The wakeups of a turn are
    part of its result. *)

From S2P Require Export Prelude.

#[local] Set Warnings "-clear-no-such-hyp".
#[local] Set Default Proof Using "Type".
Local Open Scope Z_scope.

Definition PIPESIZE : Z := 512.

Record pipe := { pi_data : list Z; nread : Z; nwrite : Z; readopen : bool; writeopen : bool }.

(** [&pi->nread], [&pi->nwrite] *)
Inductive pchan := Cread | Cwrite.

(** How a turn ends: asleep, or returning a value. *)
Inductive turn := Asleep | Returns (r : Z).

Definition set_readopen (b : bool) (pi : pipe) : pipe :=
  {| pi_data := pi_data pi; nread := nread pi; nwrite := nwrite pi; readopen := b; writeopen := writeopen pi |}.
Definition set_writeopen (b : bool) (pi : pipe) : pipe :=
  {| pi_data := pi_data pi; nread := nread pi; nwrite := nwrite pi; readopen := readopen pi; writeopen := b |}.

(** The pipe [pipealloc] makes in a page that holds [junk]. *)
Definition new_pipe (junk : list Z) : pipe :=
  {| pi_data := junk; nread := 0; nwrite := 0; readopen := true; writeopen := true |}.

(** The pipe, the sleepers woken, and whether its page is freed. *)
Definition pipeclose (writable : bool) (pi : pipe) : pipe * pchan * bool :=
  let (pi, c) := if writable then (set_writeopen false pi, Cread) else (set_readopen false pi, Cwrite) in
  (pi, c, negb (readopen pi) && negb (writeopen pi)).

(** [pi->data[pi->nwrite++ % PIPESIZE] = ch] *)
Definition put_byte (ch : Z) (pi : pipe) : pipe :=
  {| pi_data := <[Z.to_nat (nwrite pi mod PIPESIZE) := ch]> (pi_data pi); nread := nread pi;
     nwrite := u32 (nwrite pi + 1); readopen := readopen pi; writeopen := writeopen pi |}.

Definition next_byte (pi : pipe) : Z := default 0 (pi_data pi !! Z.to_nat (nread pi mod PIPESIZE)).
Definition drop_byte (pi : pipe) : pipe :=
  {| pi_data := pi_data pi; nread := u32 (nread pi + 1); nwrite := nwrite pi; readopen := readopen pi;
     writeopen := writeopen pi |}.

(** A turn of [pipewrite] from [i] on, [k] bytes from the end: how it ends, the value of [i], the
    sleepers woken. *)
Fixpoint write_turn (killed : nat → bool) (copyin : nat → option Z) (k i : nat) (pi : pipe)
    : turn * nat * list pchan * pipe :=
  match k with
  | O => (Returns (Z.of_nat i), i, [Cread], pi)
  | S k =>
      if negb (readopen pi) || killed i then (Returns (-1), i, [], pi)
      else if nwrite pi =? u32 (nread pi + PIPESIZE) then (Asleep, i, [Cread], pi)
      else
        match copyin i with
        | None => (Returns (if (i =? 0)%nat then -1 else Z.of_nat i), i, [Cread], pi)
        | Some ch => write_turn killed copyin k (S i) (put_byte ch pi)
        end
  end.

Definition pipewrite (killed : nat → bool) (copyin : nat → option Z) (n i : nat) (pi : pipe)
    : turn * nat * list pchan * pipe := write_turn killed copyin (n - i) i pi.

(** The copying of [piperead]: the result and the bytes stored. *)
Fixpoint read_copy (copyout : nat → bool) (k i : nat) (pi : pipe) : Z * list Z * pipe :=
  match k with
  | O => (Z.of_nat i, [], pi)
  | S k =>
      if nread pi =? nwrite pi then (Z.of_nat i, [], pi)
      else
        let ch := next_byte pi in
        if copyout i then
          let '(r, bs, pi) := read_copy copyout k (S i) (drop_byte pi) in (r, ch :: bs, pi)
        else ((if (i =? 0)%nat then -1 else Z.of_nat i), [], pi)
  end.

(** A turn of [piperead]. *)
Definition piperead (killed : bool) (copyout : nat → bool) (n : nat) (pi : pipe)
    : turn * list Z * list pchan * pipe :=
  if (nread pi =? nwrite pi) && writeopen pi then
    if killed then (Returns (-1), [], [], pi) else (Asleep, [], [], pi)
  else
    let '(r, bs, pi) := read_copy copyout n 0 pi in (Returns r, bs, [Cwrite], pi).

(** ** The queue of a pipe *)
Record pipe_rep (pi : pipe) (q : list Z) : Prop := {
  pr_data : length (pi_data pi) = 512%nat;
  pr_nread : 0 ≤ nread pi < 2 ^ 32;
  pr_nwrite : nwrite pi = u32 (nread pi + Z.of_nat (length q));
  pr_size : (length q ≤ 512)%nat;
  pr_bytes : ∀ k, (k < length q)%nat → pi_data pi !! Z.to_nat ((nread pi + Z.of_nat k) mod PIPESIZE) = q !! k
}.

(** The counters wrap without disturbing the ring: its size divides [2 ^ 32]. *)
Lemma ring_wrap x : u32 x mod PIPESIZE = x mod PIPESIZE.
Proof.
  unfold u32, PIPESIZE. symmetry. rewrite (Z.div_mod x (2 ^ 32)) at 1 by done.
  replace (2 ^ 32 * (x / 2 ^ 32) + x mod 2 ^ 32) with (x mod 2 ^ 32 + (8388608 * (x / 2 ^ 32)) * 512) by lia.
  by rewrite Z.mod_add.
Qed.

Lemma ring_index_lt x : (Z.to_nat (x mod PIPESIZE) < 512)%nat.
Proof. pose proof (Z.mod_pos_bound x PIPESIZE ltac:(done)). unfold PIPESIZE in *. lia. Qed.

Lemma ring_index_inj x y :
  0 ≤ y - x < 512 → Z.to_nat (x mod PIPESIZE) = Z.to_nat (y mod PIPESIZE) → x = y.
Proof.
  intros H E. pose proof (Z.mod_pos_bound x PIPESIZE ltac:(done)). pose proof (Z.mod_pos_bound y PIPESIZE ltac:(done)).
  pose proof (Z.div_mod x PIPESIZE ltac:(done)). pose proof (Z.div_mod y PIPESIZE ltac:(done)).
  unfold PIPESIZE in *. lia.
Qed.

Lemma u32_sum a b : 0 ≤ a < 2 ^ 32 → 0 ≤ b < 2 ^ 32 →
  (u32 (a + b) = a + b ∧ a + b < 2 ^ 32) ∨ (u32 (a + b) = a + b - 2 ^ 32 ∧ 2 ^ 32 ≤ a + b).
Proof.
  intros Ha Hb. unfold u32. destruct (decide (a + b < 2 ^ 32)).
  - left. split; [apply Z.mod_small|]; lia.
  - right. split; [|lia]. symmetry. apply (Z.mod_unique _ _ 1); lia.
Qed.

Lemma rep_empty pi q : pipe_rep pi q → (nread pi =? nwrite pi) = bool_decide (q = []).
Proof.
  intros [H1 H2 H3 H4 H5]. pose proof (u32_sum (nread pi) (Z.of_nat (length q)) ltac:(lia) ltac:(lia)).
  rewrite H3. destruct q as [|x q]; cbn [length] in *; case_bool_decide; try done; lia.
Qed.

Lemma rep_full pi q : pipe_rep pi q → (nwrite pi =? u32 (nread pi + PIPESIZE)) = bool_decide (length q = 512%nat).
Proof.
  intros [H1 H2 H3 H4 H5]. unfold PIPESIZE.
  pose proof (u32_sum (nread pi) (Z.of_nat (length q)) ltac:(lia) ltac:(lia)).
  pose proof (u32_sum (nread pi) 512 ltac:(lia) ltac:(lia)). rewrite H3. case_bool_decide; lia.
Qed.

Lemma rep_put ch pi q : pipe_rep pi q → (length q < 512)%nat → pipe_rep (put_byte ch pi) (q ++ [ch]).
Proof.
  intros [H1 H2 H3 H4 H5] Hq. split; cbn [put_byte pi_data nread nwrite].
  - by rewrite length_insert.
  - done.
  - rewrite H3, length_app. cbn [length]. unfold u32. rewrite Z.add_mod_idemp_l by done. f_equal. lia.
  - rewrite length_app. cbn. lia.
  - intros k Hk. rewrite length_app in Hk. cbn [length] in Hk.
    rewrite H3, ring_wrap. destruct (decide (k = length q)) as [->|Hne].
    + rewrite list_lookup_insert_eq by (rewrite H1; apply ring_index_lt).
      rewrite lookup_app_r by lia. by rewrite Nat.sub_diag.
    + rewrite list_lookup_insert_ne.
      * rewrite lookup_app_l by lia. apply H5. lia.
      * intros E. symmetry in E. apply ring_index_inj in E; lia.
Qed.

Lemma rep_drop pi x q : pipe_rep pi (x :: q) → next_byte pi = x ∧ pipe_rep (drop_byte pi) q.
Proof.
  intros [H1 H2 H3 H4 H5]. split.
  - unfold next_byte. specialize (H5 0%nat ltac:(cbn; lia)). rewrite Z.add_0_r in H5. by rewrite H5.
  - split; cbn [drop_byte pi_data nread nwrite].
    + done.
    + apply Z.mod_pos_bound. done.
    + rewrite H3. cbn [length]. unfold u32. rewrite Z.add_mod_idemp_l by done. f_equal. lia.
    + cbn [length] in H4. lia.
    + intros k Hk. specialize (H5 (S k) ltac:(cbn; lia)). change ((x :: q) !! S k) with (q !! k) in H5.
      rewrite <-H5. do 2 f_equal.
      rewrite <-(ring_wrap (u32 (nread pi + 1) + Z.of_nat k)), <-(ring_wrap (nread pi + Z.of_nat (S k))).
      f_equal. unfold u32. rewrite Z.add_mod_idemp_l by done. f_equal. lia.
Qed.

(** The bytes a turn of [pipewrite] takes from the user. *)
Definition taken (copyin : nat → option Z) (i m : nat) : list Z := (λ j, default 0 (copyin j)) <$> seq i m.

Local Ltac five := do 5 (split; [done || (cbn; lia)|]).

Lemma write_turn_spec killed copyin k i pi q :
  pipe_rep pi q →
  let '(r, i', w, pi') := write_turn killed copyin k i pi in
  ∃ m, i' = (i + m)%nat ∧ (m ≤ k)%nat ∧ pipe_rep pi' (q ++ taken copyin i m) ∧
    readopen pi' = readopen pi ∧ writeopen pi' = writeopen pi ∧
    match r with
    | Asleep => length (q ++ taken copyin i m) = 512%nat ∧ readopen pi = true ∧ w = [Cread] ∧ (m < k)%nat
    | Returns v => v = Z.of_nat (i + k) ∧ m = k ∨ (v = -1 ∧ (readopen pi = false ∨ killed i' = true)) ∨
                   (copyin i' = None ∧ v = if (i' =? 0)%nat then -1 else Z.of_nat i')
    end.
Proof.
  revert i pi q. induction k as [|k IH]; intros i pi q Hr; cbn [write_turn].
  { exists 0%nat. cbn [taken]. unfold taken. cbn. rewrite app_nil_r, !Nat.add_0_r. five. by left. }
  destruct (negb (readopen pi) || killed i) eqn:E.
  { exists 0%nat. unfold taken. cbn [seq fmap list_fmap]. rewrite app_nil_r, Nat.add_0_r.
    five. right. left. split; [done|].
    apply orb_true_iff in E as [E|E]; [left; by destruct (readopen pi)|by right]. }
  apply orb_false_iff in E as [Ero _]. apply negb_false_iff in Ero.
  rewrite (rep_full pi q Hr). case_bool_decide as Hfull.
  { exists 0%nat. unfold taken. cbn [seq fmap list_fmap]. rewrite app_nil_r, Nat.add_0_r. five. repeat split; done || lia. }
  destruct (copyin i) as [ch|] eqn:Ec.
  2: { exists 0%nat. unfold taken. cbn [seq fmap list_fmap]. rewrite app_nil_r, Nat.add_0_r.
       five. by right; right. }
  pose proof (pr_size _ _ Hr) as Hs.
  specialize (IH (S i) (put_byte ch pi) (q ++ [ch]) (rep_put ch pi q Hr ltac:(lia))).
  destruct (write_turn _ _ _ _ _) as [[[r i'] w] pi']. destruct IH as (m & -> & Hm & Hr' & H1 & H2 & H3).
  assert (Et : (q ++ [ch]) ++ taken copyin (S i) m = q ++ taken copyin i (S m)).
  { rewrite <-app_assoc. unfold taken. cbn [seq fmap list_fmap]. by rewrite Ec. }
  rewrite Et in Hr', H3. exists (S m). five.
  destruct r as [|v].
  - destruct H3 as (X1 & X2 & X3 & X4). repeat split; try done. lia.
  - destruct H3 as [[-> ->]|H3]; [left; lia|by right].
Qed.

Lemma read_copy_spec copyout k i pi q :
  pipe_rep pi q →
  let '(r, bs, pi') := read_copy copyout k i pi in
  ∃ q', q = bs ++ q' ∧ (length bs ≤ k)%nat ∧ pipe_rep pi' q' ∧
    readopen pi' = readopen pi ∧ writeopen pi' = writeopen pi ∧
    (r = Z.of_nat (i + length bs) ∧ (length bs = k ∨ q' = [] ∨ copyout (i + length bs)%nat = false) ∨
     (r = -1 ∧ bs = [] ∧ i = 0%nat ∧ copyout 0%nat = false)).
Proof.
  revert i pi q. induction k as [|k IH]; intros i pi q Hr; cbn [read_copy].
  { exists q. cbn. rewrite Nat.add_0_r. five. left. split; [done|by left]. }
  rewrite (rep_empty pi q Hr). case_bool_decide as He.
  { subst q. exists []. cbn. rewrite Nat.add_0_r. five. left. split; [done|by right; left]. }
  destruct q as [|x q]; [done|]. destruct (rep_drop pi x q Hr) as [Ex Hr1]. cbv zeta. rewrite Ex.
  destruct (copyout i) eqn:Eo.
  - specialize (IH (S i) (drop_byte pi) q Hr1). destruct (read_copy _ _ _ _) as [[r bs] pi'].
    destruct IH as (q' & -> & Hk & Hr' & H1 & H2 & H3). exists q'. cbn [app length].
    five. rewrite Nat.add_succ_r. destruct H3 as [[H3 H4]|(_ & _ & ? & _)]; [|done].
    left. split; [done|]. destruct H4 as [H4|H4]; [left; lia|by right].
  - exists (x :: q). cbn [app length]. rewrite Nat.add_0_r. five.
    destruct (i =? 0)%nat eqn:E0; [apply Nat.eqb_eq in E0; subst; by right|]. left. split; [done|by right; right].
Qed.

(** ** A pipe in use *)
Inductive pipe_op :=
  | WriteTurn (killed : nat → bool) (copyin : nat → option Z) (n i : nat)
  | ReadTurn (killed : bool) (copyout : nat → bool) (n : nat)
  | Close (writable : bool).

(** The bytes taken from the writer and the bytes given to the reader by a turn. *)
Definition pipe_step (op : pipe_op) (pi : pipe) : list Z * list Z * pipe :=
  match op with
  | WriteTurn killed copyin n i =>
      let '(_, i', _, pi) := pipewrite killed copyin n i pi in (taken copyin i (i' - i), [], pi)
  | ReadTurn killed copyout n =>
      let '(_, bs, _, pi) := piperead killed copyout n pi in ([], bs, pi)
  | Close writable => let '(pi, _, _) := pipeclose writable pi in ([], [], pi)
  end.

Fixpoint pipe_run (ops : list pipe_op) (pi : pipe) : list Z * list Z * pipe :=
  match ops with
  | [] => ([], [], pi)
  | op :: ops =>
      let '(w1, r1, pi) := pipe_step op pi in
      let '(w2, r2, pi) := pipe_run ops pi in (w1 ++ w2, r1 ++ r2, pi)
  end.

Lemma piperead_spec killed copyout n pi q :
  pipe_rep pi q →
  let '(r, bs, w, pi') := piperead killed copyout n pi in
  ∃ q', q = bs ++ q' ∧ (length bs ≤ n)%nat ∧ pipe_rep pi' q' ∧
    readopen pi' = readopen pi ∧ writeopen pi' = writeopen pi.
Proof.
  intros Hr. unfold piperead. destruct (_ && _).
  { destruct killed; exists q; (split; [done|split; [cbn; lia|done]]). }
  pose proof (read_copy_spec copyout n 0 pi q Hr) as H0. destruct (read_copy _ _ _ _) as [[r bs] pi'].
  destruct H0 as (q' & H1 & H2 & H3 & H4 & H5 & _). by exists q'.
Qed.

Lemma rep_ext pi pi' q :
  pi_data pi' = pi_data pi → nread pi' = nread pi → nwrite pi' = nwrite pi → pipe_rep pi q → pipe_rep pi' q.
Proof. intros E1 E2 E3 [H1 H2 H3 H4 H5]. split; rewrite ?E1, ?E2, ?E3; done. Qed.

Lemma pipe_step_spec op pi q :
  pipe_rep pi q →
  let '(w, r, pi') := pipe_step op pi in ∃ q', q ++ w = r ++ q' ∧ pipe_rep pi' q'.
Proof.
  intros Hr. destruct op as [killed copyin n i|killed copyout n|writable]; cbn [pipe_step].
  - unfold pipewrite. pose proof (write_turn_spec killed copyin (n - i) i pi q Hr) as H.
    destruct (write_turn _ _ _ _ _) as [[[r i'] w] pi']. destruct H as (m & -> & _ & H & _).
    replace (i + m - i)%nat with m by lia. by eexists.
  - pose proof (piperead_spec killed copyout n pi q Hr) as H.
    destruct (piperead _ _ _ _) as [[[r bs] w] pi']. destruct H as (q' & -> & _ & H & _).
    exists q'. by rewrite app_nil_r.
  - destruct writable; cbn [pipeclose]; exists q; rewrite app_nil_r; (split; [done|]); by apply (rep_ext pi).
Qed.

Lemma new_pipe_rep junk : length junk = 512%nat → pipe_rep (new_pipe junk) [].
Proof. intros H. split; cbn; try done; lia. Qed.

Lemma pipe_run_spec ops pi q :
  pipe_rep pi q →
  let '(w, r, pi') := pipe_run ops pi in ∃ q', q ++ w = r ++ q' ∧ pipe_rep pi' q'.
Proof.
  revert pi q. induction ops as [|op ops IH]; intros pi q Hr; cbn [pipe_run].
  { exists q. by rewrite app_nil_r. }
  pose proof (pipe_step_spec op pi q Hr) as H. destruct (pipe_step op pi) as [[w1 r1] pi1].
  destruct H as (q1 & E1 & Hr1). specialize (IH pi1 q1 Hr1). destruct (pipe_run ops pi1) as [[w2 r2] pi2].
  destruct IH as (q2 & E2 & Hr2). exists q2. split; [|done]. by rewrite app_assoc, E1, <-!app_assoc, E2.
Qed.

(** C30: a pipe is a bounded queue: however the turns of readers and writers and the closings interleave, for
    however long (the counters wrap), the bytes read are, in order, the bytes written but for the last ones,
    at most 512, which are in the pipe. *)
Theorem pipe_fifo junk ops :
  length junk = 512%nat →
  let '(w, r, pi) := pipe_run ops (new_pipe junk) in
  ∃ q, w = r ++ q ∧ (length q ≤ 512)%nat ∧ pipe_rep pi q.
Proof.
  intros Hj. pose proof (pipe_run_spec ops (new_pipe junk) [] (new_pipe_rep junk Hj)) as H.
  destruct (pipe_run ops (new_pipe junk)) as [[w r] pi]. destruct H as (q & E & Hr). exists q.
  split; [done|]. split; [apply Hr|done].
Qed.

Theorem pipe_fifo_witness :
  let '(w, r, pi) := pipe_run [WriteTurn (λ _, false) (λ i, Some (Z.of_nat i)) 3 0;
    ReadTurn false (λ _, true) 2] (new_pipe (replicate 512 0)) in
  ∃ q, w = r ++ q ∧ (length q ≤ 512)%nat ∧ pipe_rep pi q.
Proof.
  exact (pipe_fifo (replicate 512 0) [WriteTurn (λ _, false) (λ i, Some (Z.of_nat i)) 3 0;
    ReadTurn false (λ _, true) 2] (length_replicate 512 0)).
Defined.

(** a reader that goes to sleep left an empty pipe with its write end open, a writer that goes to sleep left
    a full one with its read end open and woke the readers; so the next turn of the other side does not
    sleep: it moves at least a byte, or returns. A reader gets 0, the end of the file, exactly from an
    empty pipe whose write end is closed (or asks for nothing). *)
Theorem pipe_blocking pi q killed copyin n i copyout m :
  pipe_rep pi q → (i < n)%nat → (0 < m)%nat →
  (fst (fst (fst (piperead false copyout m pi))) = Asleep ↔ q = [] ∧ writeopen pi = true) ∧
  (copyout 0%nat = true →
     (fst (fst (fst (piperead false copyout m pi))) = Returns 0 ↔ q = [] ∧ writeopen pi = false)) ∧
  (let '(t, _, w, pi') := pipewrite killed copyin n i pi in
   t = Asleep → w = [Cread] ∧ readopen pi' = true ∧
     ∃ q', pipe_rep pi' q' ∧ length q' = 512%nat ∧ fst (fst (fst (piperead false copyout m pi'))) ≠ Asleep).
Proof.
  intros Hr Hi Hm.
  assert (Hsleep : ∀ pi q, pipe_rep pi q →
    (fst (fst (fst (piperead false copyout m pi))) = Asleep ↔ q = [] ∧ writeopen pi = true)).
  { clear pi q Hr. intros pi q Hr. unfold piperead. rewrite (rep_empty pi q Hr).
    case_bool_decide; destruct (writeopen pi); cbn [andb]; [done|..];
      destruct (read_copy _ _ _ _) as [[r bs] pi']; cbn; split; [done|by intros []|done|by intros []|done|by intros []]. }
  split; [by apply Hsleep|]. split.
  - intros Ho. unfold piperead. rewrite (rep_empty pi q Hr). pose proof (read_copy_spec copyout m 0 pi q Hr) as H0.
    case_bool_decide as He; destruct (writeopen pi); cbn [andb]; [cbn; split; [done|by intros []]|..];
      destruct (read_copy _ _ _ _) as [[r bs] pi']; cbn; destruct H0 as (q' & E & H1 & _ & _ & _ & H2).
    + split; [done|]. intros _. rewrite He in E. symmetry in E. apply app_nil in E as [-> ->].
      destruct H2 as [[-> _]|(_ & _ & _ & H2)]; [done|congruence].
    + split; [|by intros []]. intros [= ->]. destruct H2 as [[H2 H3]|(H2 & _)]; [|lia].
      assert (bs = []) as -> by (apply length_zero_iff_nil; lia). cbn in E, H3. subst q'.
      destruct H3 as [H3|[H3|H3]]; [lia|done|congruence].
    + split; [|by intros []]. intros [= ->]. destruct H2 as [[H2 H3]|(H2 & _)]; [|lia].
      assert (bs = []) as -> by (apply length_zero_iff_nil; lia). cbn in E, H3. subst q'.
      destruct H3 as [H3|[H3|H3]]; [lia|done|congruence].
  - unfold pipewrite. pose proof (write_turn_spec killed copyin (n - i) i pi q Hr) as H.
    destruct (write_turn _ _ _ _ _) as [[[t i'] w] pi']. destruct H as (k & -> & Hk & Hr' & H1 & H2 & H3).
    intros ->. destruct H3 as (X1 & X2 & X3 & _). split; [done|]. split; [congruence|]. eexists.
    split; [done|]. split; [done|]. rewrite (Hsleep _ _ Hr'). intros [E _]. by rewrite E in X1.
Qed.

Theorem pipe_blocking_witness :
  fst (fst (fst (piperead false (λ _, true) 1 (new_pipe (replicate 512 0))))) = Asleep.
Proof.
  apply (pipe_blocking (new_pipe (replicate 512 0)) [] (λ _, false) (λ _, None) 1 0 (λ _, true) 1);
    [by apply new_pipe_rep|lia|lia|done].
Defined.
