(* ===== verification/Console.v ===== *)
(** * The console (xv6/kernel/console.c)

    Input is a ring of 128 bytes with three counters of 32 bits: what is between
    [r] and [w] can be read, what is between [w] and [e] is the line being typed.
    [consoleintr] takes a key; a turn of [consoleread] is what it does from one
    sleep to the next, so keys and turns of any number of readers interleave.
    The specification is a queue of bytes and a line; the listing of processes
    that control-P prints is left out. *)

From S2P Require Export Prelude.

#[local] Set Warnings "-clear-no-such-hyp".
#[local] Set Default Proof Using "Type".
#[local] Arguments Z.mul : simpl never.
#[local] Arguments Z.add : simpl never.
#[local] Arguments Z.sub : simpl never.
Local Open Scope Z_scope.

Definition INPUT_BUF_SIZE : Z := 128.
Definition BACKSPACE : Z := 0x100.
Definition NEWLINE : Z := 10.
Definition RETURN : Z := 13.
Definition DELETE : Z := 127.

(** Control-x, for the code of the capital letter. *)
Definition C (x : Z) : Z := x - 64.
Definition CTRL_D : Z := C 68.
Definition CTRL_H : Z := C 72.
Definition CTRL_P : Z := C 80.
Definition CTRL_U : Z := C 85.

Record cons := { buf : list Z; r : Z; w : Z; e : Z }.

Definition set_r (x : Z) (s : cons) : cons := {| buf := buf s; r := x; w := w s; e := e s |}.
Definition set_w (x : Z) (s : cons) : cons := {| buf := buf s; r := r s; w := x; e := e s |}.
Definition set_e (x : Z) (s : cons) : cons := {| buf := buf s; r := r s; w := w s; e := x |}.

Definition slot (i : Z) : nat := Z.to_nat (i mod INPUT_BUF_SIZE).
Definition byte_at (i : Z) (s : cons) : Z := default 0 (buf s !! slot i).
Definition put_byte (i c : Z) (s : cons) : cons := {| buf := <[slot i := c mod 256]> (buf s); r := r s; w := w s; e := e s |}.

(** The bytes sent to the terminal. *)
Definition consputc (c : Z) : list Z := if c =? BACKSPACE then [8; 32; 8] else [c mod 256].

(** The loop of control-U. *)
Fixpoint kill_line (fuel : nat) (s : cons) : cons * list Z :=
  match fuel with
  | O => (s, [])
  | S fuel =>
      if negb (e s =? w s) && negb (byte_at (u32 (e s - 1)) s =? NEWLINE) then
        let (s', out) := kill_line fuel (set_e (u32 (e s - 1)) s) in (s', consputc BACKSPACE ++ out)
      else (s, [])
  end.

(** The new state, the echo, and whether the readers are woken. *)
Definition consoleintr (c : Z) (s : cons) : cons * list Z * bool :=
  if c =? CTRL_P then (s, [], false)
  else if c =? CTRL_U then let (s', out) := kill_line (Z.to_nat (u32 (e s - w s))) s in (s', out, false)
  else if (c =? CTRL_H) || (c =? DELETE) then
    if negb (e s =? w s) then (set_e (u32 (e s - 1)) s, consputc BACKSPACE, false) else (s, [], false)
  else if negb (c =? 0) && (u32 (e s - r s) <? INPUT_BUF_SIZE) then
    let c := if c =? RETURN then NEWLINE else c in
    let s' := set_e (u32 (e s + 1)) (put_byte (e s) c s) in
    if (c =? NEWLINE) || (c =? CTRL_D) || (u32 (e s' - r s') =? INPUT_BUF_SIZE) then (set_w (e s') s', consputc c, true)
    else (s', consputc c, false)
  else (s, [], false).

(** How a turn ends: asleep with so many bytes to go, or returning. *)
Inductive turn := Asleep (n : nat) | Returns (v : Z).

(** A turn of [consoleread] of [target] bytes with [n] to go; [copyout i] says whether the user's byte [i] can be
    stored.  The result: how it ends and the bytes stored. *)
Fixpoint consoleread (killed : bool) (copyout : nat → bool) (target n : nat) (s : cons) : turn * list Z * cons :=
  match n with
  | O => (Returns (Z.of_nat target), [], s)
  | S n' =>
      if r s =? w s then ((if killed then Returns (-1) else Asleep n), [], s)
      else
        let c := byte_at (r s) s in
        let s' := set_r (u32 (r s + 1)) s in
        let res := Z.of_nat (target - n) in
        if c =? CTRL_D then (Returns res, [], if (n <? target)%nat then set_r (u32 (r s' - 1)) s' else s')
        else if negb (copyout (target - n)%nat) then (Returns res, [], s')
        else if c =? NEWLINE then (Returns (res + 1), [c], s')
        else let '(t, bs, s) := consoleread killed copyout target n' s' in (t, c :: bs, s)
  end.

(** [consolewrite] copies batches of 32 bytes: what is sent, of the [n] bytes from the user, and the result.
    [copyin i k] gives the [k] bytes at [src + i]. *)
Fixpoint consolewrite (fuel : nat) (copyin : nat → nat → option (list Z)) (n i : nat) : nat * list Z :=
  match fuel with
  | O => (i, [])
  | S fuel =>
      if (i <? n)%nat then
        let nn := Nat.min 32 (n - i) in
        match copyin i nn with
        | None => (i, [])
        | Some bs => let (k, out) := consolewrite fuel copyin n (i + nn) in (k, bs ++ out)
        end
      else (i, [])
  end.

(** ** What a terminal promises *)
Record tty := { ready : list Z; line : list Z }.

Definition room (t : tty) : bool := (length (ready t) + length (line t) <? 128)%nat.

Definition tty_char (c : Z) (t : tty) : tty :=
  let l := line t ++ [c] in
  if (c =? NEWLINE) || (c =? CTRL_D) || (length (ready t) + length l =? 128)%nat then {| ready := ready t ++ l; line := [] |}
  else {| ready := ready t; line := l |}.

Definition tty_key (c : Z) (t : tty) : tty :=
  if c =? CTRL_P then t
  else if c =? CTRL_U then {| ready := ready t; line := [] |}
  else if (c =? CTRL_H) || (c =? DELETE) then {| ready := ready t; line := removelast (line t) |}
  else if negb (c =? 0) && room t then tty_char (if c =? RETURN then NEWLINE else c) t
  else t.

(** A read takes up to [n] bytes, to the end of a line; an end of file is taken only by a read that has no byte. *)
Fixpoint tty_read (killed : bool) (copyout : nat → bool) (target n : nat) (q : list Z) : turn * list Z * list Z :=
  match n with
  | O => (Returns (Z.of_nat target), [], q)
  | S n' =>
      match q with
      | [] => ((if killed then Returns (-1) else Asleep n), [], [])
      | c :: q' =>
          let res := Z.of_nat (target - n) in
          if c =? CTRL_D then (Returns res, [], if (n <? target)%nat then q else q')
          else if negb (copyout (target - n)%nat) then (Returns res, [], q')
          else if c =? NEWLINE then (Returns (res + 1), [c], q')
          else let '(t, bs, q) := tty_read killed copyout target n' q' in (t, c :: bs, q)
      end
  end.

(** ** The ring

    [p] counts all bytes ever read, without wrapping. *)
Definition ring (data : list Z) (p : Z) (q : list Z) : Prop :=
  length data = 128%nat ∧ ∀ k, (k < length q)%nat → data !! slot (p + Z.of_nat k) = q !! k.

Lemma slot_wrap x : slot (u32 x) = slot x.
Proof.
  unfold slot, u32, INPUT_BUF_SIZE. f_equal. rewrite (Z.div_mod x (2 ^ 32)) at 2 by done.
  replace (2 ^ 32 * (x / 2 ^ 32) + x mod 2 ^ 32) with (x mod 2 ^ 32 + (33554432 * (x / 2 ^ 32)) * 128) by lia.
  by rewrite Z.mod_add.
Qed.

Lemma slot_lt x : (slot x < 128)%nat.
Proof. unfold slot, INPUT_BUF_SIZE. pose proof (Z.mod_pos_bound x 128 ltac:(done)). lia. Qed.

Lemma cons_slot_inj x y : 0 ≤ y - x < 128 → slot x = slot y → x = y.
Proof.
  unfold slot, INPUT_BUF_SIZE. intros H E. pose proof (Z.mod_pos_bound x 128 ltac:(done)). pose proof (Z.mod_pos_bound y 128 ltac:(done)).
  pose proof (Z.div_mod x 128 ltac:(done)). pose proof (Z.div_mod y 128 ltac:(done)). lia.
Qed.

Lemma ring_put data p q c :
  ring data p q → (length q < 128)%nat → ring (<[slot (p + Z.of_nat (length q)) := c]> data) p (q ++ [c]).
Proof.
  intros [Hl Hq] Hlt. split; [by rewrite length_insert|]. intros k Hk. rewrite length_app in Hk. cbn in Hk.
  destruct (decide (k = length q)) as [->|Hne].
  - rewrite list_lookup_insert_eq by (rewrite Hl; apply slot_lt). by rewrite lookup_app_r, Nat.sub_diag by lia.
  - rewrite list_lookup_insert_ne by (intros E; symmetry in E; apply cons_slot_inj in E; lia). rewrite lookup_app_l by lia. apply Hq. lia.
Qed.

Lemma cons_ring_prefix data p q q' : ring data p (q ++ q') → ring data p q.
Proof.
  intros [Hl Hq]. split; [done|]. intros k Hk. rewrite Hq by (rewrite length_app; lia). by apply lookup_app_l.
Qed.

Lemma ring_drop data p c q : ring data p (c :: q) → ring data (p + 1) q.
Proof.
  intros [Hl Hq]. split; [done|]. intros k Hk. change (q !! k) with ((c :: q) !! S k).
  rewrite <-(Hq (S k)) by (cbn; lia). do 2 f_equal. lia.
Qed.

(** The console [s] holds the terminal [t]. *)
Record rep (s : cons) (t : tty) (p : Z) : Prop := {
  rp_ring : ring (buf s) p (ready t ++ line t);
  rp_r : r s = u32 p;
  rp_w : w s = u32 (p + Z.of_nat (length (ready t)));
  rp_e : e s = u32 (p + Z.of_nat (length (ready t) + length (line t)));
  rp_size : (length (ready t) + length (line t) ≤ 128)%nat;
  rp_line : Forall (λ c, c ≠ NEWLINE) (line t)
}.

Lemma u32_diff p a b : 0 ≤ b - a < 2 ^ 32 → u32 (u32 (p + b) - u32 (p + a)) = b - a.
Proof.
  intros H. unfold u32. rewrite <-Zminus_mod. replace (p + b - (p + a)) with (b - a) by lia. by apply Z.mod_small.
Qed.

Lemma u32_eq_small p a b : 0 ≤ b - a < 2 ^ 32 → (u32 (p + a) =? u32 (p + b)) = (a =? b).
Proof.
  intros H. pose proof (u32_diff p a b H) as Hd. destruct (a =? b) eqn:E.
  - apply Z.eqb_eq in E. subst. by rewrite Z.eqb_refl.
  - apply Z.eqb_neq in E. apply Z.eqb_neq. intros Eq. rewrite Eq, Z.sub_diag in Hd. change (u32 0) with 0 in Hd. lia.
Qed.

Lemma u32_step p a d : u32 (u32 (p + a) + d) = u32 (p + (a + d)).
Proof. unfold u32. rewrite Z.add_mod_idemp_l by done. f_equal. lia. Qed.
Lemma u32_back p a d : u32 (u32 (p + a) - d) = u32 (p + (a - d)).
Proof. unfold u32. rewrite Zminus_mod_idemp_l. f_equal. lia. Qed.

(** *** Keys *)
Lemma rep_last s t p l x :
  rep s t p → line t = l ++ [x] → byte_at (u32 (e s - 1)) s = x ∧ rep (set_e (u32 (e s - 1)) s) {| ready := ready t; line := l |} p.
Proof.
  intros [H1 H2 H3 H4 H5 H6] El. rewrite El in *. rewrite length_app in H4, H5. cbn in H4, H5.
  assert (Ee : u32 (e s - 1) = u32 (p + Z.of_nat (length (ready t) + length l))) by (rewrite H4, u32_back; f_equal; lia).
  rewrite Ee. split.
  - unfold byte_at. rewrite slot_wrap. destruct H1 as [_ H1]. rewrite app_assoc in H1.
    specialize (H1 (length (ready t) + length l)%nat). rewrite !length_app in H1. cbn in H1.
    rewrite H1 by lia. rewrite lookup_app_r by (rewrite length_app; lia). by rewrite length_app, Nat.sub_diag.
  - rewrite app_assoc in H1. apply cons_ring_prefix in H1. apply Forall_app in H6 as [H6 _]. split; try done. cbn. lia.
Qed.

Lemma rep_e_w s t p : rep s t p → (e s =? w s) = bool_decide (line t = []).
Proof.
  intros [_ _ H3 H4 H5 _]. rewrite H3, H4, Z.eqb_sym. rewrite u32_eq_small by lia.
  destruct (line t); cbn [length].
  - rewrite bool_decide_true by done. apply Z.eqb_eq. lia.
  - rewrite bool_decide_false by done. apply Z.eqb_neq. lia.
Qed.

Lemma kill_line_spec fuel : ∀ s t p,
  rep s t p → (length (line t) ≤ fuel)%nat →
  ∃ s' out, kill_line fuel s = (s', out) ∧ rep s' {| ready := ready t; line := [] |} p ∧ out = concat (replicate (length (line t)) [8; 32; 8]).
Proof.
  induction fuel as [|fuel IH]; intros s t p Hr Hf; cbn [kill_line].
  - destruct t as [q l]. cbn in *. destruct l; [|cbn in Hf; lia]. by exists s, [].
  - rewrite (rep_e_w s t p Hr). case_bool_decide as He; cbn [negb andb].
    { destruct t as [q l]. cbn in *. subst. by exists s, []. }
    destruct (exists_last He) as (l & x & El). destruct (rep_last s t p l x Hr El) as [Hx Hr'].
    pose proof (rp_line _ _ _ Hr) as Hl. rewrite El in Hl. apply Forall_app in Hl as [_ Hl]. apply Forall_cons in Hl as [Hl _].
    rewrite Hx, (proj2 (Z.eqb_neq x NEWLINE)) by exact Hl. cbn [negb]. rewrite El, length_app in *. cbn in Hf.
    destruct (IH _ _ p Hr') as (s' & out & E & Hr2 & ->); [cbn; lia|]. rewrite E. eexists s', _. split; [done|]. split; [done|].
    cbn [line]. replace (length l + length [x])%nat with (S (length l)) by (cbn; lia). done.
Qed.

Lemma rep_room s t p : rep s t p → (u32 (e s - r s) <? INPUT_BUF_SIZE) = room t.
Proof.
  intros [_ H2 _ H4 H5 _]. rewrite H2, H4. rewrite <-(Z.add_0_r p) at 2. rewrite u32_diff by lia. unfold room, INPUT_BUF_SIZE.
  destruct (Nat.ltb_spec (length (ready t) + length (line t)) 128); [apply Z.ltb_lt|apply Z.ltb_ge]; lia.
Qed.

Lemma rep_char s t p c :
  rep s t p → room t = true → 0 ≤ c < 256 →
  let s' := set_e (u32 (e s + 1)) (put_byte (e s) c s) in
  let stop := (c =? NEWLINE) || (c =? CTRL_D) || (u32 (e s' - r s') =? INPUT_BUF_SIZE) in
  rep (if stop then set_w (e s') s' else s') (tty_char c t) p.
Proof.
  intros [H1 H2 H3 H4 H5 H6] Hroom Hc s' stop. unfold room in Hroom. apply Nat.ltb_lt in Hroom.
  assert (Ee : e s' = u32 (p + Z.of_nat (length (ready t) + length (line t ++ [c])))).
  { unfold s'. cbn [e set_e]. rewrite H4, u32_step, length_app. f_equal. cbn. lia. }
  assert (Eb : ring (buf s') p (ready t ++ line t ++ [c])).
  { unfold s'. cbn [buf set_e put_byte]. rewrite H4, slot_wrap, Z.mod_small, app_assoc by done. rewrite <-length_app.
    apply ring_put; [done|]. rewrite length_app. lia. }
  assert (Estop : (u32 (e s' - r s') =? INPUT_BUF_SIZE) = (length (ready t) + length (line t ++ [c]) =? 128)%nat).
  { rewrite Ee. unfold s'. cbn [r set_e put_byte]. rewrite H2. rewrite <-(Z.add_0_r p) at 2. rewrite length_app in *. cbn in *.
    rewrite u32_diff by lia. unfold INPUT_BUF_SIZE.
    destruct (Nat.eqb_spec (length (ready t) + (length (line t) + 1)) 128); [apply Z.eqb_eq|apply Z.eqb_neq]; lia. }
  unfold tty_char. rewrite <-Estop. fold stop. rewrite length_app in Ee. cbn in Ee. destruct stop eqn:E.
  - split; cbn [ready line length buf r w e set_w set_e put_byte s']; try done.
    + by rewrite app_nil_r.
    + unfold s' in Ee. cbn [e set_e] in Ee. rewrite Ee, !length_app. f_equal; cbn; lia.
    + unfold s' in Ee. cbn [e set_e] in Ee. rewrite Ee, !length_app. f_equal; cbn; lia.
    + rewrite !length_app. cbn. lia.
  - split; cbn [ready line]; try done.
    + etrans; [exact Ee|]. rewrite length_app. f_equal; cbn; lia.
    + rewrite length_app. cbn. lia.
    + apply Forall_app. split; [done|]. constructor; [|done]. unfold stop in E. by destruct (Z.eqb_spec c NEWLINE).
Qed.

(** A key does to the console what it does to the terminal, and wakes the readers when there is more to read. *)
Lemma consoleintr_spec c s t p :
  rep s t p → 0 ≤ c < 256 →
  let '(s', out, wake) := consoleintr c s in rep s' (tty_key c t) p ∧ (wake = false → ready (tty_key c t) = ready t).
Proof.
  intros Hr Hc. unfold consoleintr, tty_key. destruct (c =? CTRL_P); [done|]. destruct (c =? CTRL_U).
  { pose proof Hr as [_ _ H3 H4 H5 _]. rewrite H3, H4, u32_diff by lia.
    destruct (kill_line_spec (Z.to_nat (Z.of_nat (length (ready t) + length (line t)) - Z.of_nat (length (ready t)))) s t p Hr ltac:(lia))
      as (s' & out & -> & Hr' & _). by split. }
  destruct ((c =? CTRL_H) || (c =? DELETE)).
  { rewrite (rep_e_w s t p Hr). case_bool_decide as He; cbn [negb].
    - rewrite He. split; [|done]. destruct t as [q l]. cbn in He. by subst.
    - destruct (exists_last He) as (l & x & El). rewrite El, removelast_last. split; [|done]. by apply (rep_last s t p l x). }
  rewrite (rep_room s t p Hr). destruct (negb (c =? 0) && room t) eqn:E; [|done]. apply andb_true_iff in E as [_ E].
  set (c' := if c =? RETURN then NEWLINE else c).
  pose proof (rep_char s t p c' Hr E ltac:(unfold c'; destruct (c =? RETURN); [done|lia])) as H. cbv zeta in H.
  destruct ((c' =? NEWLINE) || (c' =? CTRL_D) || _) eqn:Es; [by split|]. split; [done|]. intros _.
  unfold tty_char. apply orb_false_iff in Es as [-> Es]. cbn [orb].
  destruct (length (ready t) + length (line t ++ [c']) =? 128)%nat eqn:E1; [|done]. exfalso.
  apply Nat.eqb_eq in E1. apply Z.eqb_neq in Es. apply Es. cbn [e r set_e put_byte]. destruct Hr as [_ H2 _ H4 H5 _].
  rewrite H4, H2, u32_step. rewrite <-(Z.add_0_r p) at 2. rewrite length_app in E1. cbn in E1. rewrite u32_diff by lia.
  unfold INPUT_BUF_SIZE. lia.
Qed.

(** *** Reads *)
Lemma rep_r_w s t p : rep s t p → (r s =? w s) = bool_decide (ready t = []).
Proof.
  intros [_ H2 H3 _ H5 _]. rewrite H2, H3. rewrite <-(Z.add_0_r p) at 1. rewrite u32_eq_small by lia.
  destruct (ready t); cbn [length].
  - rewrite bool_decide_true by done. done.
  - rewrite bool_decide_false by done. apply Z.eqb_neq. lia.
Qed.

Lemma rep_next s p c q l :
  rep s {| ready := c :: q; line := l |} p →
  byte_at (r s) s = c ∧ rep (set_r (u32 (r s + 1)) s) {| ready := q; line := l |} (p + 1).
Proof.
  intros [H1 H2 H3 H4 H5 H6]. cbn [ready line length] in *. split.
  - unfold byte_at. rewrite H2, slot_wrap. destruct H1 as [_ H1]. specialize (H1 0%nat ltac:(cbn; lia)).
    rewrite Z.add_0_r in H1. by rewrite H1.
  - split; cbn [ready line set_r buf r w e]; try done.
    + by apply (ring_drop _ _ c).
    + rewrite H2. rewrite <-(Z.add_0_r p) at 1. rewrite u32_step. f_equal; lia.
    + rewrite H3. f_equal. lia.
    + rewrite H4. f_equal. lia.
    + lia.
Qed.

Lemma consoleread_spec killed copyout target n : ∀ s q l p,
  rep s {| ready := q; line := l |} p →
  let '(tn, bs, s') := consoleread killed copyout target n s in
  let '(tn', bs', q') := tty_read killed copyout target n q in
  tn = tn' ∧ bs = bs' ∧ ∃ p', rep s' {| ready := q'; line := l |} p'.
Proof.
  induction n as [|n IH]; intros s q l p Hr; cbn [consoleread tty_read]; [by eauto|].
  rewrite (rep_r_w s _ p Hr). cbn [ready]. destruct q as [|c q]; [rewrite bool_decide_true by done; by eauto|].
  rewrite bool_decide_false by done. destruct (rep_next s p c q l Hr) as [Hc Hr']. cbv zeta. rewrite Hc.
  destruct (c =? CTRL_D).
  { split; [done|]. split; [done|]. destruct (S n <? target)%nat; [|by eauto]. exists p. destruct Hr as [H1 H2 H3 H4 H5 H6].
    split; cbn [set_r buf r w e]; try done. rewrite H2. rewrite <-(Z.add_0_r p) at 1. rewrite u32_step, u32_back. f_equal. lia. }
  destruct (negb (copyout _)); [by eauto|]. destruct (c =? NEWLINE); [by eauto|].
  specialize (IH _ _ _ _ Hr'). destruct (consoleread killed copyout target n _) as [[tn bs] s'].
  destruct (tty_read killed copyout target n q) as [[tn' bs'] q']. destruct IH as (-> & -> & p' & Hr2). by eauto.
Qed.

(** ** A console in use *)
Inductive console_op :=
  | Key (c : Z)
  | ReadTurn (killed : bool) (copyout : nat → bool) (target n : nat).

Definition op_ok (op : console_op) : Prop := match op with Key c => 0 ≤ c < 256 | ReadTurn _ _ _ _ => True end.

(** The bytes stored for the readers. *)
Definition console_step (op : console_op) (s : cons) : list Z * cons :=
  match op with
  | Key c => ([], (consoleintr c s).1.1)
  | ReadTurn killed copyout target n => let '(_, bs, s) := consoleread killed copyout target n s in (bs, s)
  end.

Fixpoint console_run (ops : list console_op) (s : cons) : list Z * cons :=
  match ops with
  | [] => ([], s)
  | op :: ops => let (b1, s) := console_step op s in let (b2, s) := console_run ops s in (b1 ++ b2, s)
  end.

Definition tty_step (op : console_op) (t : tty) : list Z * tty :=
  match op with
  | Key c => ([], tty_key c t)
  | ReadTurn killed copyout target n =>
      let '(_, bs, q) := tty_read killed copyout target n (ready t) in (bs, {| ready := q; line := line t |})
  end.

Fixpoint tty_run (ops : list console_op) (t : tty) : list Z * tty :=
  match ops with
  | [] => ([], t)
  | op :: ops => let (b1, t) := tty_step op t in let (b2, t) := tty_run ops t in (b1 ++ b2, t)
  end.

Definition new_console (junk : list Z) : cons := {| buf := junk; r := 0; w := 0; e := 0 |}.
Definition new_tty : tty := {| ready := []; line := [] |}.

Lemma new_rep junk : length junk = 128%nat → rep (new_console junk) new_tty 0.
Proof. intros H. split; cbn; try done; [split; [done|]; intros k Hk; cbn in Hk; lia|lia]. Qed.

Lemma console_run_spec ops : ∀ s t p,
  rep s t p → Forall op_ok ops →
  let '(bs, s') := console_run ops s in let '(bs', t') := tty_run ops t in bs = bs' ∧ ∃ p', rep s' t' p'.
Proof.
  induction ops as [|op ops IH]; intros s t p Hr Hok; cbn [console_run tty_run]; [by eauto|].
  apply Forall_cons in Hok as [Hop Hok].
  assert (H1 : let '(bs, s') := console_step op s in let '(bs', t') := tty_step op t in bs = bs' ∧ ∃ p', rep s' t' p').
  { destruct op as [c|killed copyout target n]; cbn [console_step tty_step].
    - pose proof (consoleintr_spec c s t p Hr Hop) as H. destruct (consoleintr c s) as [[s' out] wake]. destruct H as [H _]. by eauto.
    - destruct t as [q l]. pose proof (consoleread_spec killed copyout target n s q l p Hr) as H. cbn [ready line].
      destruct (consoleread killed copyout target n s) as [[tn bs] s']. destruct (tty_read killed copyout target n q) as [[tn' bs'] q'].
      destruct H as (_ & -> & H). by split. }
  destruct (console_step op s) as [b1 s1]. destruct (tty_step op t) as [b1' t1]. destruct H1 as (-> & p1 & Hr1).
  specialize (IH s1 t1 p1 Hr1 Hok). destruct (console_run ops s1) as [b2 s2]. destruct (tty_run ops t1) as [b2' t2].
  destruct IH as (-> & H). by split.
Qed.

(** *** All that was typed

    Without the bound on the buffer, and before anything is read. *)
Definition cook_key (t : tty) (c : Z) : tty :=
  if c =? CTRL_P then t
  else if c =? CTRL_U then {| ready := ready t; line := [] |}
  else if (c =? CTRL_H) || (c =? DELETE) then {| ready := ready t; line := removelast (line t) |}
  else if c =? 0 then t
  else
    let c := if c =? RETURN then NEWLINE else c in
    if (c =? NEWLINE) || (c =? CTRL_D) then {| ready := ready t ++ line t ++ [c]; line := [] |}
    else {| ready := ready t; line := line t ++ [c] |}.

Definition keys (ops : list console_op) : list Z := omap (λ op, match op with Key c => Some c | _ => None end) ops.

(** The readers keep up, and can store what they read. *)
Fixpoint keeps_up (ops : list console_op) (t : tty) : Prop :=
  match ops with
  | [] => True
  | op :: ops =>
      match op with
      | Key _ => (length (ready t) + length (line t) < 127)%nat
      | ReadTurn _ copyout _ _ => ∀ i, copyout i = true
      end ∧ keeps_up ops (tty_step op t).2
  end.

Definition not_eof (c : Z) : bool := negb (c =? CTRL_D).

Lemma tty_read_taken killed copyout target n : ∀ q,
  (∀ i, copyout i = true) →
  let '(_, bs, q') := tty_read killed copyout target n q in ∃ taken, q = taken ++ q' ∧ bs = filter (λ c, Is_true (not_eof c)) taken.
Proof.
  induction n as [|n IH]; intros q Hc; cbn [tty_read]; [by exists []|]. destruct q as [|c q]; [by exists []|].
  unfold not_eof in *. destruct (c =? CTRL_D) eqn:Ed.
  { destruct (S n <? target)%nat; [by exists []|]. exists [c]. split; [done|]. rewrite filter_cons, Ed. done. }
  rewrite Hc. cbn [negb]. destruct (c =? NEWLINE) eqn:En.
  { exists [c]. split; [done|]. rewrite filter_cons, Ed. done. }
  specialize (IH q Hc). destruct (tty_read killed copyout target n q) as [[tn bs] q']. destruct IH as (taken & -> & ->).
  exists (c :: taken). split; [done|]. rewrite filter_cons, Ed. done.
Qed.

Lemma tty_run_cooked ops : ∀ t T,
  keeps_up ops t → line T = line t →
  let '(bs, t') := tty_run ops t in let T' := foldl cook_key T (keys ops) in
  line T' = line t' ∧
  ∀ before, ready T = before ++ ready t → ∃ taken, ready T' = before ++ taken ++ ready t' ∧ bs = filter (λ c, Is_true (not_eof c)) taken.
Proof.
  induction ops as [|op ops IH]; intros t T Hk Hl; cbn [tty_run keys omap list_omap foldl].
  { split; [done|]. intros before Hb. by exists []. }
  destruct Hk as [H1 Hk]. destruct op as [c|killed copyout target n]; cbn [tty_step foldl] in *.
  - specialize (IH (tty_key c t) (cook_key T c) Hk). destruct (tty_run ops (tty_key c t)) as [b2 t2]. cbn [app].
    assert (E : line (cook_key T c) = line (tty_key c t) ∧
      ∀ before, ready T = before ++ ready t → ready (cook_key T c) = before ++ ready (tty_key c t)).
    { unfold cook_key, tty_key, room. destruct (c =? CTRL_P); [done|]. destruct (c =? CTRL_U); [done|].
      destruct ((c =? CTRL_H) || (c =? DELETE)); [by rewrite Hl|]. destruct (c =? 0); cbn [negb andb]; [done|].
      rewrite (proj2 (Nat.ltb_lt _ _)) by lia. set (c' := if c =? RETURN then NEWLINE else c). unfold tty_char.
      rewrite (proj2 (Nat.eqb_neq _ 128)) by (rewrite length_app; cbn; lia). rewrite orb_false_r.
      destruct ((c' =? NEWLINE) || (c' =? CTRL_D)); cbn [ready line]; rewrite Hl; (split; [done|]); intros before ->; [by rewrite <-app_assoc|done]. }
    destruct E as [E1 E2]. destruct (IH E1) as [H2 H3]. split; [done|]. intros before Hb. by apply H3, E2.
  - destruct t as [q l]. cbn [ready line] in *. pose proof (tty_read_taken killed copyout target n q H1) as Ht.
    destruct (tty_read killed copyout target n q) as [[tn bs] q']. destruct Ht as (taken & -> & ->).
    specialize (IH {| ready := q'; line := l |} T Hk Hl). destruct (tty_run ops _) as [b2 t2]. destruct IH as [H2 H3].
    split; [done|]. intros before Hb. cbn [ready line] in *. destruct (H3 (before ++ taken)) as (taken2 & E & ->); [by rewrite Hb, <-app_assoc|].
    exists (taken ++ taken2). split; [etrans; [exact E|]; by rewrite <-!app_assoc|]. by rewrite filter_app.
Qed.

(** C31: the console as a queue of lines: however keys and the turns of readers interleave, and however often the counters
    wrap, if the readers keep up then the bytes read are, in order, the text of the lines as edited with backspace and
    control-U, ends of file removed, but for what was not read yet; and what was typed since the last line is in the
    editor. *)
Theorem console_lines junk ops :
  length junk = 128%nat → Forall op_ok ops → keeps_up ops new_tty →
  let '(bs, s) := console_run ops (new_console junk) in
  let typed := foldl cook_key new_tty (keys ops) in
  ∃ p taken unread, rep s {| ready := unread; line := line typed |} p ∧
    ready typed = taken ++ unread ∧ bs = filter (λ c, Is_true (not_eof c)) taken.
Proof.
  intros Hj Hok Hk. pose proof (console_run_spec ops (new_console junk) new_tty 0 (new_rep junk Hj) Hok) as H.
  destruct (console_run ops (new_console junk)) as [bs s]. pose proof (tty_run_cooked ops new_tty new_tty Hk eq_refl) as H2.
  destruct (tty_run ops new_tty) as [bs' t']. destruct H as (-> & p & Hr). destruct H2 as [Hl H2]. cbv zeta in *.
  destruct (H2 [] eq_refl) as (taken & E & ->). exists p, taken, (ready t'). rewrite Hl. split; [by destruct t'|]. by split.
Qed.

(** "ab", backspace, "c", enter, then a read of ten bytes. *)
Definition some_keys : list console_op :=
  [Key 97; Key 98; Key DELETE; Key 99; Key RETURN; ReadTurn false (λ _, true) 10 10; Key 120].

Lemma some_keys_ok : Forall op_ok some_keys.
Proof. repeat (constructor; [first [exact I | by split]|]). constructor. Qed.
Lemma some_keys_keep_up : keeps_up some_keys new_tty.
Proof. vm_compute. repeat split; lia. Qed.

Theorem console_lines_witness :
  let '(bs, s) := console_run some_keys (new_console (replicate 128 0)) in bs = [97; 99; 10] ∧
  ∃ p taken unread, rep s {| ready := unread; line := [120] |} p ∧ [97; 99; 10] = taken ++ unread.
Proof.
  pose proof (console_lines (replicate 128 0) some_keys eq_refl some_keys_ok some_keys_keep_up) as H.
  change (foldl cook_key new_tty (keys some_keys)) with {| ready := [97; 99; 10]; line := [120] |} in H. cbn [ready line] in H.
  assert (E : (console_run some_keys (new_console (replicate 128 0))).1 = [97; 99; 10]) by (vm_compute; reflexivity).
  destruct (console_run some_keys (new_console (replicate 128 0))) as [bs s]. cbn [fst] in E. split; [exact E|].
  destruct H as (p & taken & unread & H1 & H2 & _). exists p, taken, unread. split; [exact H1|exact H2].
Defined.

(** ** Output *)

(** [consolewrite] sends the user's bytes up to the first batch that cannot be read. *)
Lemma consolewrite_spec copyin src n : ∀ fuel i,
  (n ≤ i + 32 * fuel)%nat → (i ≤ n)%nat → n = length src →
  (∀ i k, copyin i k = Some (take k (drop i src)) ∨ copyin i k = None) →
  let '(k, out) := consolewrite fuel copyin n i in
  (i ≤ k ≤ n)%nat ∧ out = take (k - i) (drop i src) ∧ (k = n ∨ copyin k (Nat.min 32 (n - k)) = None).
Proof.
  intros fuel. induction fuel as [|fuel IH]; intros i Hf Hi Hn Hc; cbn [consolewrite].
  { split; [lia|]. rewrite Nat.sub_diag. split; [done|]. left. lia. }
  destruct (i <? n)%nat eqn:E.
  2: { apply Nat.ltb_ge in E. split; [lia|]. rewrite Nat.sub_diag. split; [done|]. left. lia. }
  apply Nat.ltb_lt in E. cbv zeta. set (m := Nat.min 32 (n - i)). destruct (Hc i m) as [Ec|Ec]; rewrite Ec.
  2: { split; [lia|]. rewrite Nat.sub_diag. split; [done|]. by right. }
  specialize (IH (i + m)%nat ltac:(lia) ltac:(lia) Hn Hc). destruct (consolewrite fuel copyin n (i + m)) as [k out].
  destruct IH as (H1 & -> & H3). split; [lia|]. split; [|done].
  replace (k - i)%nat with (m + (k - (i + m)))%nat by lia. by rewrite <-(take_take_drop (drop i src) m (k - (i + m))), drop_drop.
Qed.
