(* ===== verification/Kalloc.v ===== *)
(** * The allocator of pages (xv6/kernel/kalloc.c)

    The free pages are a linked list through the pages themselves: [freelist] is
    the address of the first, and the first eight bytes of a free page are the
    address of the next, 0 in the last.  The kernel's end, [kend], comes from the
    linker script. *)

From S2P Require Export KString.

#[local] Set Warnings "-clear-no-such-hyp".
#[local] Set Default Proof Using "Type".
Local Open Scope Z_scope.

Definition PGSIZE : Z := 4096.
Definition KERNBASE : Z := 0x80000000.
Definition PHYSTOP : Z := KERNBASE + 128 * 1024 * 1024.
Definition PGROUNDUP (sz : Z) : Z := Z.land (sz + PGSIZE - 1) (Z.lnot (PGSIZE - 1)).

Record kmem := { freelist : Z; phys : mem }.

(** The pointer at an address. *)
Definition load64 (m : mem) (a : Z) : Z := le_value ((λ k, m (a + Z.of_nat k)) <$> seq 0 8).
Definition store64 (m : mem) (a v : Z) : mem := λ x,
  if decide (a ≤ x < a + 8) then default 0 (le_bytes 8 v !! Z.to_nat (x - a)) else m x.

(** [memset] of a page, as a function from addresses: [memset_page_memset]. *)
Definition memset_page (m : mem) (a c : Z) : mem := λ x, if decide (a ≤ x < a + PGSIZE) then c mod 256 else m x.

Lemma memset_page_memset m a c x : memset_page m a c x = memset m a c (Z.to_nat PGSIZE) x.
Proof. by rewrite memset_spec. Qed.

Lemma memset_page_spec m a c x :
  memset_page m a c x = if decide (a ≤ x < a + Z.of_nat (Z.to_nat PGSIZE)) then c mod 256 else m x.
Proof. done. Qed.

Section Kernel.
Context (kend : Z).

(** [None]: panic. *)
Definition kfree (pa : Z) (k : kmem) : option kmem :=
  if negb (pa mod PGSIZE =? 0) || (pa <? kend) || (PHYSTOP <=? pa) then None
  else
    let m := memset_page (phys k) pa 1 in
    Some {| freelist := pa; phys := store64 m pa (freelist k) |}.

(** 0: no memory. *)
Definition kalloc (k : kmem) : Z * kmem :=
  let r := freelist k in
  if r =? 0 then (0, k)
  else
    let k := {| freelist := load64 (phys k) r; phys := phys k |} in
    (r, {| freelist := freelist k; phys := memset_page (phys k) r 5 |}).

Fixpoint freerange_loop (fuel : nat) (p pa_end : Z) (k : kmem) : option kmem :=
  if p + PGSIZE <=? pa_end then
    match fuel with
    | O => None
    | S fuel => match kfree p k with Some k => freerange_loop fuel (p + PGSIZE) pa_end k | None => None end
    end
  else Some k.

Definition freerange (pa_start pa_end : Z) (k : kmem) : option kmem :=
  freerange_loop (Z.to_nat ((pa_end - pa_start) / PGSIZE + 1)) (PGROUNDUP pa_start) pa_end k.

Definition kinit (m : mem) : option kmem := freerange kend PHYSTOP {| freelist := 0; phys := m |}.

(** ** The list of free pages *)
Definition page (p : Z) : Prop := p mod PGSIZE = 0 ∧ kend ≤ p < PHYSTOP.

Fixpoint chain (m : mem) (head : Z) (l : list Z) : Prop :=
  match l with
  | [] => head = 0
  | p :: l => head = p ∧ chain m (load64 m p) l
  end.

Record free_pages (k : kmem) (l : list Z) : Prop := {
  fp_chain : chain (phys k) (freelist k) l;
  fp_page : Forall page l;
  fp_nodup : NoDup l
}.

Context (Hend : 0 < kend < PHYSTOP).

Lemma load_store m a v : 0 ≤ v < 2 ^ 64 → load64 (store64 m a v) a = v.
Proof using Type.
  intros Hv. unfold load64. transitivity (le_value (le_bytes 8 v)); [|by apply le_value_bytes]. f_equal.
  apply list_eq. intros k. rewrite list_lookup_fmap. destruct (decide (k < 8)%nat) as [Hk|Hk].
  - rewrite lookup_seq_lt by done. cbn [fmap option_fmap option_map]. unfold store64.
    rewrite decide_True by lia. replace (Z.to_nat (a + Z.of_nat (0 + k) - a)) with k by lia.
    destruct (lookup_lt_is_Some_2 (le_bytes 8 v) k) as [w Hw]; [by rewrite length_le_bytes|]. by rewrite Hw.
  - rewrite !lookup_ge_None_2; [done|rewrite length_le_bytes; lia|rewrite length_seq; lia].
Qed.

Lemma load_ext m m' a : (∀ x, a ≤ x < a + 8 → m x = m' x) → load64 m a = load64 m' a.
Proof using Type.
  intros H. unfold load64. f_equal. apply list_fmap_ext. intros k x Hk. apply lookup_seq in Hk as [-> Hk].
  apply H. lia.
Qed.

Lemma pages_apart p q x : page p → page q → p ≠ q → p ≤ x < p + PGSIZE → ¬ (q ≤ x < q + PGSIZE).
Proof using Type.
  intros [Hp _] [Hq _] Hne H1 H2. apply Z.mod_divide in Hp as [i Hi]; [|done].
  apply Z.mod_divide in Hq as [j Hj]; [|done]. subst p q. unfold PGSIZE in *. assert (i ≠ j) by congruence. lia.
Qed.

Lemma chain_ext m m' head l :
  (∀ p x, p ∈ l → p ≤ x < p + 8 → m x = m' x) → chain m head l → chain m' head l.
Proof using Type.
  revert head. induction l as [|p l IH]; intros head Hm; [done|]. intros [-> Hc]. split; [done|].
  rewrite <-(load_ext m m' p) by (intros x Hx; apply (Hm p); [by left|done]).
  apply IH; [|done]. intros q x Hq. apply Hm. by right.
Qed.

Lemma page_range p : page p → 0 < p < 2 ^ 64.
Proof using Hend. intros [_ H]. unfold PHYSTOP, KERNBASE in *. lia. Qed.

(** *** Freeing and allocating *)
Lemma kfree_spec pa k l :
  free_pages k l → page pa → pa ∉ l →
  ∃ k', kfree pa k = Some k' ∧ free_pages k' (pa :: l) ∧
    ∀ x, ¬ (pa ≤ x < pa + PGSIZE) → phys k' x = phys k x.
Proof using Hend.
  intros [H1 H2 H3] Hpa Hn. unfold kfree. destruct Hpa as [P1 P2] eqn:E. rewrite P1.
  rewrite (proj2 (Z.ltb_ge _ _)) by lia. rewrite (proj2 (Z.leb_gt _ _)) by lia. cbn [negb Z.eqb orb].
  eexists. split; [done|]. rewrite Forall_forall in H2.
  assert (Hout : ∀ x, ¬ (pa ≤ x < pa + PGSIZE) →
    store64 (memset_page (phys k) pa 1) pa (freelist k) x = phys k x).
  { intros x Hx. unfold store64. rewrite decide_False by (unfold PGSIZE in *; lia). rewrite memset_page_spec.
    rewrite decide_False; [done|]. unfold PGSIZE in *. lia. }
  split; [|exact Hout]. split; cbn [freelist phys].
  - split; [done|]. rewrite load_store.
    + eapply chain_ext; [|exact H1]. intros q x Hq Hx. symmetry. apply Hout.
      apply (pages_apart q pa x); [by apply H2|done|by intros ->|unfold PGSIZE; lia].
    + destruct l as [|q l]; [by rewrite H1|]. destruct H1 as [-> _].
      pose proof (page_range q (H2 q ltac:(by left))). lia.
  - constructor; [done|by apply Forall_forall].
  - by constructor.
Qed.

Lemma kfree_panics pa k : ¬ page pa → kfree pa k = None.
Proof using Type.
  intros Hn. unfold kfree. destruct (negb _ || _ || _) eqn:E; [done|]. exfalso. apply Hn.
  apply orb_false_iff in E as [E E3]. apply orb_false_iff in E as [E1 E2]. unfold page.
  apply negb_false_iff, Z.eqb_eq in E1. lia.
Qed.

Lemma kalloc_spec k l :
  free_pages k l →
  match l with
  | [] => kalloc k = (0, k)
  | p :: l => ∃ k', kalloc k = (p, k') ∧ free_pages k' l ∧ (∀ x, p ≤ x < p + PGSIZE → phys k' x = 5) ∧
      ∀ x, ¬ (p ≤ x < p + PGSIZE) → phys k' x = phys k x
  end.
Proof using Hend.
  intros [H1 H2 H3]. unfold kalloc. destruct l as [|p l]; [by rewrite H1|]. destruct H1 as [E H1].
  apply Forall_cons in H2 as [Hp H2]. apply NoDup_cons in H3 as [Hn H3]. rewrite E.
  rewrite (proj2 (Z.eqb_neq p 0)) by (pose proof (page_range p Hp); lia). cbn [freelist phys].
  eexists. split; [done|]. split; [|split]; cbn [freelist phys].
  - split; cbn [freelist phys]; [|done|done]. eapply chain_ext; [|exact H1]. intros q x Hq Hx. symmetry.
    rewrite memset_page_spec, decide_False; [done|]. rewrite Z2Nat.id by done.
    rewrite Forall_forall in H2. apply (pages_apart q p x); [by apply H2|done|by intros ->|unfold PGSIZE; lia].
  - intros x Hx. rewrite memset_page_spec. by rewrite decide_True.
  - intros x Hx. rewrite memset_page_spec. by rewrite decide_False.
Qed.

(** *** The pages at boot *)
Definition pages_from (p : Z) (n : nat) : list Z := (λ i, p + Z.of_nat i * PGSIZE) <$> seq 0 n.

Lemma pages_from_S p n : pages_from p (S n) = p :: pages_from (p + PGSIZE) n.
Proof using Type.
  unfold pages_from. cbn [seq fmap list_fmap]. f_equal; [lia|]. rewrite <-fmap_S_seq, <-list_fmap_compose.
  apply list_fmap_ext. intros i x _. unfold compose. lia.
Qed.

Lemma freerange_loop_spec fuel p k l :
  (Z.to_nat ((PHYSTOP - p) / PGSIZE) ≤ fuel)%nat → p mod PGSIZE = 0 → kend ≤ p ≤ PHYSTOP →
  free_pages k l → (∀ q, q ∈ l → q < p) →
  ∃ k', freerange_loop fuel p PHYSTOP k = Some k' ∧
    free_pages k' (rev (pages_from p (Z.to_nat ((PHYSTOP - p) / PGSIZE))) ++ l).
Proof using Hend.
  revert p k l. induction fuel as [|fuel IH]; intros p k l Hf Hp Hr Hk Hlt; cbn [freerange_loop];
    destruct (p + PGSIZE <=? PHYSTOP) eqn:E.
  - apply Z.leb_le in E. assert (1 ≤ (PHYSTOP - p) / PGSIZE) by (apply Z.div_le_lower_bound; unfold PGSIZE in *; lia). lia.
  - apply Z.leb_gt in E. exists k. split; [done|].
    assert (Hz : (PHYSTOP - p) / PGSIZE = 0) by (apply Z.div_small; lia). by rewrite Hz.
  - apply Z.leb_le in E. destruct (kfree_spec p k l Hk) as (k1 & Er & Hk1 & _).
    + split; [done|]. unfold PGSIZE in *. lia.
    + intros Hin. specialize (Hlt p Hin). lia.
    + rewrite Er. assert (Ed : (PHYSTOP - p) / PGSIZE = (PHYSTOP - (p + PGSIZE)) / PGSIZE + 1).
      { replace (PHYSTOP - p) with (PHYSTOP - (p + PGSIZE) + 1 * PGSIZE) by lia. by rewrite Z.div_add. }
      assert (0 ≤ (PHYSTOP - (p + PGSIZE)) / PGSIZE) by (apply Z.div_pos; [lia|done]).
      destruct (IH (p + PGSIZE) k1 (p :: l)) as (k' & Er' & Hk').
      * lia.
      * replace (p + PGSIZE) with (p + 1 * PGSIZE) by lia. by rewrite Z.mod_add.
      * unfold PGSIZE in *. lia.
      * done.
      * intros q [->|Hq]%elem_of_cons; [|specialize (Hlt q Hq)]; unfold PGSIZE; lia.
      * exists k'. split; [done|]. rewrite Ed.
        replace (Z.to_nat ((PHYSTOP - (p + PGSIZE)) / PGSIZE + 1))
          with (S (Z.to_nat ((PHYSTOP - (p + PGSIZE)) / PGSIZE))) by lia.
        rewrite pages_from_S. cbn [rev]. by rewrite <-app_assoc.
  - apply Z.leb_gt in E. exists k. split; [done|].
    assert (Hz : (PHYSTOP - p) / PGSIZE = 0) by (apply Z.div_small; lia). by rewrite Hz.
Qed.

Lemma pgroundup_spec sz : PGROUNDUP sz mod PGSIZE = 0 ∧ sz ≤ PGROUNDUP sz < sz + PGSIZE.
Proof using Type.
  unfold PGROUNDUP. change (PGSIZE - 1) with (Z.ones 12). rewrite <-Z.ldiff_land, Z.ldiff_ones_r by done.
  rewrite Z.shiftr_div_pow2, Z.shiftl_mul_pow2 by done. change (2 ^ 12) with PGSIZE.
  pose proof (Z.div_mod (sz + PGSIZE - 1) PGSIZE ltac:(done)).
  pose proof (Z.mod_pos_bound (sz + PGSIZE - 1) PGSIZE ltac:(done)).
  split; [by rewrite Z.mod_mul|]. unfold PGSIZE in *. lia.
Qed.

Definition all_pages : list Z :=
  rev (pages_from (PGROUNDUP kend) (Z.to_nat ((PHYSTOP - PGROUNDUP kend) / PGSIZE))).

Lemma kinit_spec m : PGROUNDUP kend ≤ PHYSTOP → ∃ k, kinit m = Some k ∧ free_pages k all_pages.
Proof using Hend.
  intros Hle. destruct (pgroundup_spec kend) as [H1 H2]. unfold kinit, freerange, all_pages.
  destruct (freerange_loop_spec (Z.to_nat ((PHYSTOP - kend) / PGSIZE + 1)) (PGROUNDUP kend)
    {| freelist := 0; phys := m |} []) as (k & Er & Hk).
  - assert ((PHYSTOP - PGROUNDUP kend) / PGSIZE ≤ (PHYSTOP - kend) / PGSIZE) by (apply Z.div_le_mono; [done|lia]). lia.
  - done.
  - lia.
  - split; cbn; constructor.
  - intros q Hq. by apply not_elem_of_nil in Hq.
  - exists k. split; [done|]. by rewrite app_nil_r in Hk.
Qed.

(** ** The pages in the kernel's hands *)
Inductive page_op := Alloc | Free (i : nat).

(** [Free i] gives back the i-th page held. [None]: panic. *)
Definition page_step (op : page_op) (st : list Z * kmem) : option (list Z * kmem) :=
  let (held, k) := st in
  match op with
  | Alloc => let (p, k) := kalloc k in Some (if p =? 0 then held else p :: held, k)
  | Free i =>
      match held !! i with
      | Some p => k ← kfree p k; Some (delete i held, k)
      | None => Some (held, k)
      end
  end.

Fixpoint page_run (ops : list page_op) (st : list Z * kmem) : option (list Z * kmem) :=
  match ops with
  | [] => Some st
  | op :: ops => st ← page_step op st; page_run ops st
  end.

Definition pages_ok (pages : list Z) (st : list Z * kmem) : Prop :=
  ∃ l, free_pages st.2 l ∧ st.1 ++ l ≡ₚ pages.

Lemma page_step_ok pages op st :
  NoDup pages → Forall page pages → pages_ok pages st →
  ∃ st', page_step op st = Some st' ∧ pages_ok pages st' ∧
    (op = Alloc → st'.1 = st.1 → length st.1 = length pages) ∧
    ∀ p x, p ∈ st.1 → p ∈ st'.1 → p ≤ x < p + PGSIZE → phys st'.2 x = phys st.2 x.
Proof using Hend.
  intros Hnd Hpg [l [Hk Hp]]. destruct st as [held k]. cbn [fst snd] in *.
  rewrite <-Hp in Hnd. rewrite <-Hp in Hpg. apply NoDup_app in Hnd as (N1 & N2 & N3).
  apply Forall_app in Hpg as [P1 P2]. rewrite Forall_forall in P1. destruct op as [|i]; cbn [page_step].
  - pose proof (kalloc_spec k l Hk) as H. destruct l as [|p l].
    + rewrite H. eexists. split; [done|]. split; [exists []; split; [done|by cbn]|]. cbn. split; [|done].
      intros _ _. rewrite <-Hp. by rewrite app_nil_r.
    + destruct H as (k' & -> & Hk' & H5 & Hsame). apply Forall_cons in P2 as [Pp P2].
      rewrite (proj2 (Z.eqb_neq p 0)) by (pose proof (page_range p Pp); lia). eexists. split; [done|].
      split; [exists l; split; [done|]|]; cbn [fst snd].
      * rewrite <-Hp. cbn. by rewrite Permutation_middle.
      * split; [intros _ E; apply (f_equal length) in E; cbn in E; lia|]. intros q x Hq _ Hx. apply Hsame.
        apply (pages_apart q p x); [by apply P1|done| |done]. intros ->. apply (N2 p Hq). by left.
  - destruct (held !! i) as [p|] eqn:Ei.
    2: { eexists. split; [done|]. split; [by exists l|]. split; [done|]. done. }
    assert (Hin : p ∈ held) by (by eapply list_elem_of_lookup_2).
    destruct (kfree_spec p k l Hk (P1 p Hin) (N2 p Hin)) as (k' & Er & Hk' & Hsame).
    rewrite Er. cbn [mbind option_bind]. eexists. split; [done|]. cbn [fst snd].
    assert (Hd : p :: delete i held ≡ₚ held) by (symmetry; by apply delete_Permutation).
    split; [exists (p :: l); split; [done|]|]; cbn [fst snd].
    + rewrite <-Hp. rewrite <-Permutation_middle. rewrite <-Hd at 2. done.
    + split; [done|]. intros q x Hq Hq' Hx. apply Hsame. apply (pages_apart q p x); [by apply P1|by apply P1| |done].
      intros ->. rewrite <-Hd in N1. by apply NoDup_cons in N1 as [N1 _].
Qed.

Lemma page_run_ok pages ops st :
  NoDup pages → Forall page pages → pages_ok pages st → ∃ st', page_run ops st = Some st' ∧ pages_ok pages st'.
Proof using Hend.
  intros Hnd Hpg. revert st. induction ops as [|op ops IH]; intros st Hst; cbn [page_run]; [by exists st|].
  destruct (page_step_ok pages op st Hnd Hpg Hst) as (st1 & -> & H1 & _). cbn [mbind option_bind]. by apply IH.
Qed.

(** from boot on, whatever the kernel allocates and gives back, [kfree] does not panic and every page of
    memory between the kernel and the end of RAM is in one place: handed out once, or free; an allocation
    fails only when every page is handed out. *)
Theorem pages_conserved m ops :
  PGROUNDUP kend ≤ PHYSTOP →
  ∃ k0 held k, kinit m = Some k0 ∧ page_run ops ([], k0) = Some (held, k) ∧
    (∃ l, free_pages k l ∧ held ++ l ≡ₚ all_pages ∧ NoDup (held ++ l)) ∧
    (fst (kalloc k) = 0 ↔ length held = length all_pages).
Proof using Hend.
  intros Hle. destruct (kinit_spec m Hle) as (k0 & Ek & Hk0). pose proof (fp_nodup _ _ Hk0) as Hnd.
  destruct (page_run_ok all_pages ops ([], k0) Hnd (fp_page _ _ Hk0)) as ([held k] & Er & l & Hl & Hp);
    [by exists all_pages|]. cbn [fst snd] in *. exists k0, held, k. split; [done|]. split; [done|]. split.
  - exists l. split; [done|]. split; [done|]. by rewrite Hp.
  - pose proof (kalloc_spec k l Hl) as Ha. rewrite <-Hp, length_app. destruct l as [|p l].
    + rewrite Ha. cbn. lia.
    + destruct Ha as (k' & -> & _). pose proof (fp_page _ _ Hl) as Hpg. apply Forall_cons in Hpg as [Hpp _].
      pose proof (page_range p Hpp). cbn. lia.
Qed.
End Kernel.

Theorem pages_conserved_witness :
  ∃ k0 held k, kinit 0x80021000 (λ _, 0) = Some k0 ∧
    page_run 0x80021000 [Alloc; Alloc; Free 0; Alloc] ([], k0) = Some (held, k) ∧
    ∃ l, free_pages 0x80021000 k l ∧ held ++ l ≡ₚ all_pages 0x80021000.
Proof.
  destruct (pages_conserved 0x80021000 ltac:(done) (λ _, 0) [Alloc; Alloc; Free 0; Alloc])
    as (k0 & held & k & H1 & H2 & (l & H3 & H4 & _) & _); [done|].
  exists k0, held, k. split; [exact H1|]. split; [exact H2|]. exists l. split; [exact H3|exact H4].
Defined.
