(* ===== verification/Vm.v ===== *)
(** * Page tables and user memory (xv6/kernel/vm.c)

    Physical memory and the free pages are the allocator's ([Kalloc]); a page
    table is a page of 512 little-endian words in that memory, at the address the
    code calls [pagetable].  Addresses and entries are 64-bit words; a null
    pointer is 0.  An error [Err s] is [panic(s)].  The kernel's buffers that
    [copyin] and [copyout] use are lists of bytes. *)

From S2P Require Export Kalloc.

#[local] Set Default Proof Using "Type".
Local Open Scope Z_scope.

Definition u64 (x : Z) : Z := x mod 2 ^ 64.

Definition PTE_V : Z := 1.
Definition PTE_R : Z := 2.
Definition PTE_W : Z := 4.
Definition PTE_X : Z := 8.
Definition PTE_U : Z := 16.

Definition PA2PTE (pa : Z) : Z := u64 (Z.shiftl (Z.shiftr pa 12) 10).
Definition PTE2PA (pte : Z) : Z := u64 (Z.shiftl (Z.shiftr pte 10) 12).
Definition PTE_FLAGS (pte : Z) : Z := Z.land pte 0x3FF.

Definition PGROUNDDOWN (a : Z) : Z := Z.land a (Z.lnot (PGSIZE - 1)).

Definition PXSHIFT (level : nat) : Z := 12 + 9 * Z.of_nat level.
Definition PX (level : nat) (va : Z) : Z := Z.land (Z.shiftr va (PXSHIFT level)) 0x1FF.

Definition MAXVA : Z := Z.shiftl 1 (9 + 9 + 9 + 12 - 1).
Definition TRAMPOLINE : Z := MAXVA - PGSIZE.
Definition TRAPFRAME : Z := TRAMPOLINE - PGSIZE.
Definition KSTACK (p : Z) : Z := TRAMPOLINE - (p + 1) * 2 * PGSIZE.

Definition UART0 : Z := 0x10000000.
Definition VIRTIO0 : Z := 0x10001000.
Definition PLIC : Z := 0x0c000000.
Definition NPROC : nat := 64.

(** [e & flag], for a flag of one bit *)
Definition has (e flag : Z) : bool := negb (Z.land e flag =? 0).

(** ** Memory *)
Abbreviation V A := (M kmem string A).

Definition get64 (a : Z) : V Z := gets (λ k, load64 (phys k) a).
Definition put64 (a v : Z) : V () := modify (λ k, {| freelist := freelist k; phys := store64 (phys k) a v |}).
Definition set_bytes (a c : Z) : V () :=
  modify (λ k, {| freelist := freelist k; phys := memset_page (phys k) a c |}).

(** [memmove] from the kernel's buffer, and to it. *)
Definition store_bytes (a : Z) (bs : list Z) : V () :=
  modify (λ k, {| freelist := freelist k;
                  phys := λ x, if decide (a ≤ x < a + Z.of_nat (length bs)) then default (phys k x) (bs !! Z.to_nat (x - a)) else phys k x |}).
Definition load_bytes (a : Z) (n : nat) : V (list Z) := gets (λ k, (λ i, phys k (a + Z.of_nat i)) <$> seq 0 n).

Section Kernel.
Context (kend : Z).

Definition alloc_page : V Z := λ k, let (p, k) := kalloc k in (Ret p, k).
Definition free_page (pa : Z) : V () := λ k,
  match kfree kend pa k with Some k => (Ret (), k) | None => (Err "kfree"%string, k) end.

(** ** Walking a page table *)

(** The turns of the loop from [level] down. *)
Fixpoint walk_levels (level : nat) (pagetable va : Z) (alloc : bool) : V Z :=
  match level with
  | O => mret (pagetable + 8 * PX 0 va)
  | S below =>
      let pte := pagetable + 8 * PX level va in
      e ← get64 pte;
      if has e PTE_V then walk_levels below (PTE2PA e) va alloc
      else if negb alloc then mret 0
      else
        pagetable ← alloc_page;
        if pagetable =? 0 then mret 0
        else
          set_bytes pagetable 0;;
          put64 pte (Z.lor (PA2PTE pagetable) PTE_V);;
          walk_levels below pagetable va alloc
  end.

Definition walk (pagetable va : Z) (alloc : bool) : V Z :=
  if MAXVA <=? va then throw "walk"%string else walk_levels 2 pagetable va alloc.

Definition walkaddr (pagetable va : Z) : V Z :=
  if MAXVA <=? va then mret 0
  else
    pte ← walk pagetable va false;
    if pte =? 0 then mret 0
    else
      e ← get64 pte;
      if negb (has e PTE_V) then mret 0
      else if negb (has e PTE_U) then mret 0
      else mret (PTE2PA e).

Fixpoint mappages_loop (fuel : nat) (pagetable a last pa perm : Z) : V Z :=
  match fuel with
  | O => nofuel
  | S fuel =>
      pte ← walk pagetable a true;
      if pte =? 0 then mret (-1)
      else
        e ← get64 pte;
        if has e PTE_V then throw "mappages: remap"%string
        else
          put64 pte (Z.lor (Z.lor (PA2PTE pa) perm) PTE_V);;
          if a =? last then mret 0
          else mappages_loop fuel pagetable (u64 (a + PGSIZE)) last (u64 (pa + PGSIZE)) perm
  end.

Definition mappages (pagetable va size pa perm : Z) : V Z :=
  if negb (va mod PGSIZE =? 0) then throw "mappages: va not aligned"%string
  else if negb (size mod PGSIZE =? 0) then throw "mappages: size not aligned"%string
  else if size =? 0 then throw "mappages: size"%string
  else mappages_loop (Z.to_nat (size / PGSIZE)) pagetable va (u64 (va + size - PGSIZE)) pa perm.

Definition ismapped (pagetable va : Z) : V bool :=
  pte ← walk pagetable va false;
  if pte =? 0 then mret false
  else e ← get64 pte; mret (has e PTE_V).

(** ** User page tables *)
Definition uvmcreate : V Z :=
  pagetable ← alloc_page;
  if pagetable =? 0 then mret 0 else set_bytes pagetable 0;; mret pagetable.

Fixpoint uvmunmap_loop (fuel : nat) (pagetable a aend : Z) (do_free : bool) : V () :=
  if a <? aend then
    match fuel with
    | O => nofuel
    | S fuel =>
        pte ← walk pagetable a false;
        (if pte =? 0 then mret ()
         else
           e ← get64 pte;
           if negb (has e PTE_V) then mret ()
           else (if do_free then free_page (PTE2PA e) else mret ());; put64 pte 0);;
        uvmunmap_loop fuel pagetable (u64 (a + PGSIZE)) aend do_free
    end
  else mret ().

Definition uvmunmap (pagetable va npages : Z) (do_free : bool) : V () :=
  if negb (va mod PGSIZE =? 0) then throw "uvmunmap: not aligned"%string
  else uvmunmap_loop (Z.to_nat npages) pagetable va (u64 (va + npages * PGSIZE)) do_free.

Definition uvmdealloc (pagetable oldsz newsz : Z) : V Z :=
  if oldsz <=? newsz then mret oldsz
  else
    (if u64 (PGROUNDUP newsz) <? u64 (PGROUNDUP oldsz) then
       let npages := i32 ((u64 (PGROUNDUP oldsz) - u64 (PGROUNDUP newsz)) / PGSIZE) in
       uvmunmap pagetable (u64 (PGROUNDUP newsz)) (u64 npages) true
     else mret ());;
    mret newsz.

Fixpoint uvmalloc_loop (fuel : nat) (pagetable oldsz a newsz xperm : Z) : V Z :=
  if a <? newsz then
    match fuel with
    | O => nofuel
    | S fuel =>
        mem ← alloc_page;
        if mem =? 0 then uvmdealloc pagetable a oldsz;; mret 0
        else
          set_bytes mem 0;;
          r ← mappages pagetable a PGSIZE mem (Z.lor (Z.lor PTE_R PTE_U) xperm);
          if negb (r =? 0) then free_page mem;; uvmdealloc pagetable a oldsz;; mret 0
          else uvmalloc_loop fuel pagetable oldsz (u64 (a + PGSIZE)) newsz xperm
    end
  else mret newsz.

Definition uvmalloc (pagetable oldsz newsz xperm : Z) : V Z :=
  if newsz <? oldsz then mret oldsz
  else
    let oldsz := u64 (PGROUNDUP oldsz) in
    uvmalloc_loop (Z.to_nat ((newsz - oldsz) / PGSIZE + 1)) pagetable oldsz oldsz newsz xperm.

(** The entries [idx] of a page of the table; [child] is the recursive call. *)
Fixpoint freewalk_loop (child : Z → V ()) (pagetable : Z) (idx : list nat) : V () :=
  match idx with
  | [] => mret ()
  | i :: idx =>
      let a := pagetable + 8 * Z.of_nat i in
      pte ← get64 a;
      (if has pte PTE_V && (Z.land pte (Z.lor (Z.lor PTE_R PTE_W) PTE_X) =? 0) then
         child (PTE2PA pte);; put64 a 0
       else if has pte PTE_V then throw "freewalk: leaf"%string
       else mret ());;
      freewalk_loop child pagetable idx
  end.

Fixpoint freewalk (depth : nat) (pagetable : Z) : V () :=
  match depth with
  | O => nofuel
  | S depth => freewalk_loop (freewalk depth) pagetable (seq 0 512);; free_page pagetable
  end.

(** Tables have three levels. *)
Definition uvmfree (pagetable sz : Z) : V () :=
  (if 0 <? sz then uvmunmap pagetable 0 (u64 (PGROUNDUP sz) / PGSIZE) true else mret ());;
  freewalk 3 pagetable.

(** The turns from [i] on: [None], or the [i] at which the copy failed. *)
Fixpoint uvmcopy_loop (fuel : nat) (old new i sz : Z) : V (option Z) :=
  if i <? sz then
    match fuel with
    | O => nofuel
    | S fuel =>
        let next := uvmcopy_loop fuel old new (u64 (i + PGSIZE)) sz in
        pte ← walk old i false;
        if pte =? 0 then next
        else
          e ← get64 pte;
          if negb (has e PTE_V) then next
          else
            mem ← alloc_page;
            if mem =? 0 then mret (Some i)
            else
              modify (λ k, {| freelist := freelist k; phys := memmove (phys k) mem (PTE2PA e) (Z.to_nat PGSIZE) |});;
              r ← mappages new i PGSIZE mem (PTE_FLAGS e);
              if negb (r =? 0) then free_page mem;; mret (Some i) else next
    end
  else mret None.

Definition uvmcopy (old new sz : Z) : V Z :=
  r ← uvmcopy_loop (Z.to_nat (sz / PGSIZE + 1)) old new 0 sz;
  match r with
  | None => mret 0
  | Some i => uvmunmap new 0 (i / PGSIZE) true;; mret (-1)
  end.

Definition uvmclear (pagetable va : Z) : V () :=
  pte ← walk pagetable va false;
  if pte =? 0 then throw "uvmclear"%string
  else e ← get64 pte; put64 pte (Z.land e (u64 (Z.lnot PTE_U))).

(** ** Faults and copies *)
Definition vmfault (pagetable psz va : Z) : V Z :=
  if psz <=? va then mret 0
  else
    let va := PGROUNDDOWN va in
    b ← ismapped pagetable va;
    if (b : bool) then mret 0
    else
      mem ← alloc_page;
      if mem =? 0 then mret 0
      else
        set_bytes mem 0;;
        r ← mappages pagetable va PGSIZE mem (Z.lor (Z.lor PTE_W PTE_U) PTE_R);
        if negb (r =? 0) then free_page mem;; mret 0 else mret mem.

(** The physical page of a user page, brought in if need be; 0: none. *)
Definition user_page (pagetable psz va0 : Z) : V Z :=
  pa0 ← walkaddr pagetable va0;
  if pa0 =? 0 then vmfault pagetable psz va0 else mret pa0.

Fixpoint copyout_loop (fuel : nat) (pagetable psz dstva : Z) (src : list Z) : V Z :=
  match src with
  | [] => mret 0
  | _ =>
      match fuel with
      | O => nofuel
      | S fuel =>
          let va0 := PGROUNDDOWN dstva in
          if MAXVA <=? va0 then mret (-1)
          else
            pa0 ← user_page pagetable psz va0;
            if pa0 =? 0 then mret (-1)
            else
              pte ← walk pagetable va0 false;
              e ← get64 pte;
              if negb (has e PTE_W) then mret (-1)
              else
                let n := Nat.min (Z.to_nat (PGSIZE - (dstva - va0))) (length src) in
                store_bytes (pa0 + (dstva - va0)) (take n src);;
                copyout_loop fuel pagetable psz (u64 (va0 + PGSIZE)) (drop n src)
      end
  end.

Definition copyout (pagetable psz dstva : Z) (src : list Z) : V Z :=
  copyout_loop (Z.to_nat (Z.of_nat (length src) / PGSIZE + 2)) pagetable psz dstva src.

(** The result and the bytes stored at [dst]. *)
Fixpoint copyin_loop (fuel : nat) (pagetable psz srcva : Z) (len : nat) : V (Z * list Z) :=
  match len with
  | O => mret (0, [])
  | _ =>
      match fuel with
      | O => nofuel
      | S fuel =>
          let va0 := PGROUNDDOWN srcva in
          pa0 ← user_page pagetable psz va0;
          if pa0 =? 0 then mret (-1, [])
          else
            let n := Nat.min (Z.to_nat (PGSIZE - (srcva - va0))) len in
            bs ← load_bytes (pa0 + (srcva - va0)) n;
            r ← copyin_loop fuel pagetable psz (u64 (va0 + PGSIZE)) (len - n);
            mret (fst r, bs ++ snd r)
      end
  end.

Definition copyin (pagetable psz srcva : Z) (len : nat) : V (Z * list Z) :=
  copyin_loop (Z.to_nat (Z.of_nat len / PGSIZE + 2)) pagetable psz srcva len.

(** The bytes up to the first 0, which is kept, and whether there is one. *)
Fixpoint upto_nul (bs : list Z) : bool * list Z :=
  match bs with
  | [] => (false, [])
  | b :: bs => if b =? 0 then (true, [0]) else let (f, l) := upto_nul bs in (f, b :: l)
  end.

Fixpoint copyinstr_loop (fuel : nat) (pagetable psz srcva : Z) (max : nat) : V (Z * list Z) :=
  match max with
  | O => mret (-1, [])
  | _ =>
      match fuel with
      | O => nofuel
      | S fuel =>
          let va0 := PGROUNDDOWN srcva in
          pa0 ← user_page pagetable psz va0;
          if pa0 =? 0 then mret (-1, [])
          else
            let n := Nat.min (Z.to_nat (PGSIZE - (srcva - va0))) max in
            bs ← load_bytes (pa0 + (srcva - va0)) n;
            match upto_nul bs with
            | (true, s) => mret (0, s)
            | (false, s) =>
                r ← copyinstr_loop fuel pagetable psz (u64 (va0 + PGSIZE)) (max - n);
                mret (fst r, s ++ snd r)
            end
      end
  end.

Definition copyinstr (pagetable psz srcva : Z) (max : nat) : V (Z * list Z) :=
  copyinstr_loop (Z.to_nat (Z.of_nat max / PGSIZE + 2)) pagetable psz srcva max.

(** ** The kernel's page table *)
Context (etext trampoline : Z).

Definition kvmmap (kpgtbl va pa sz perm : Z) : V () :=
  r ← mappages kpgtbl va sz pa perm;
  if negb (r =? 0) then throw "kvmmap"%string else mret ().

(** The stacks of the processes [ps]. *)
Fixpoint proc_mapstacks_loop (kpgtbl : Z) (ps : list nat) : V () :=
  match ps with
  | [] => mret ()
  | p :: ps =>
      pa ← alloc_page;
      if pa =? 0 then throw "kalloc"%string
      else
        kvmmap kpgtbl (KSTACK (Z.of_nat p)) pa PGSIZE (Z.lor PTE_R PTE_W);;
        proc_mapstacks_loop kpgtbl ps
  end.

Definition proc_mapstacks (kpgtbl : Z) : V () := proc_mapstacks_loop kpgtbl (seq 0 NPROC).

Definition kvmmake : V Z :=
  kpgtbl ← alloc_page;
  set_bytes kpgtbl 0;;
  kvmmap kpgtbl UART0 UART0 PGSIZE (Z.lor PTE_R PTE_W);;
  kvmmap kpgtbl VIRTIO0 VIRTIO0 PGSIZE (Z.lor PTE_R PTE_W);;
  kvmmap kpgtbl PLIC PLIC 0x4000000 (Z.lor PTE_R PTE_W);;
  kvmmap kpgtbl KERNBASE KERNBASE (etext - KERNBASE) (Z.lor PTE_R PTE_X);;
  kvmmap kpgtbl etext etext (PHYSTOP - etext) (Z.lor PTE_R PTE_W);;
  kvmmap kpgtbl TRAMPOLINE trampoline PGSIZE (Z.lor PTE_R PTE_X);;
  proc_mapstacks kpgtbl;;
  mret kpgtbl.

(** ** The page table of a process (proc.c, sysproc.c) *)

(** [trapframe] is [p->trapframe]. *)
Definition proc_pagetable (trapframe : Z) : V Z :=
  pagetable ← uvmcreate;
  if pagetable =? 0 then mret 0
  else
    r ← mappages pagetable TRAMPOLINE PGSIZE trampoline (Z.lor PTE_R PTE_X);
    if r <? 0 then uvmfree pagetable 0;; mret 0
    else
      r ← mappages pagetable TRAPFRAME PGSIZE trapframe (Z.lor PTE_R PTE_W);
      if r <? 0 then uvmunmap pagetable TRAMPOLINE 1 false;; uvmfree pagetable 0;; mret 0
      else mret pagetable.

Definition proc_freepagetable (pagetable sz : Z) : V () :=
  uvmunmap pagetable TRAMPOLINE 1 false;;
  uvmunmap pagetable TRAPFRAME 1 false;;
  uvmfree pagetable sz.

(** The result and [p->sz]. *)
Definition growproc (pagetable sz n : Z) : V (Z * Z) :=
  if 0 <? n then
    if TRAPFRAME <? u64 (sz + n) then mret (-1, sz)
    else
      sz' ← uvmalloc pagetable sz (u64 (sz + n)) PTE_W;
      if sz' =? 0 then mret (-1, sz) else mret (0, sz')
  else if n <? 0 then
    sz' ← uvmdealloc pagetable sz (u64 (sz + n)); mret (0, sz')
  else mret (0, sz).

Definition SBRK_EAGER : Z := 1.

Definition sys_sbrk (pagetable sz n t : Z) : V (Z * Z) :=
  if (t =? SBRK_EAGER) || (n <? 0) then
    '(r, sz') ← growproc pagetable sz n;
    mret (if r <? 0 then -1 else sz, sz')
  else if u64 (sz + n) <? sz then mret (-1, sz)
  else if TRAPFRAME <? u64 (sz + n) then mret (-1, sz)
  else mret (sz, u64 (sz + n)).
End Kernel.
