(* ===== verification/VmTree.v ===== *)
(** * The tree of a page table

    What the pages of a table hold, as two maps: [dir] names the page of each
    node, [leaf] the valid entries of the last level; [own] says what each page
    of the table and of the user is for.  [walk] is a lookup in these maps. *)

From stdpp Require Import gmap.
From S2P Require Export Vm.

#[local] Set Warnings "-clear-no-such-hyp".
#[local] Set Default Proof Using "Type".
Local Open Scope Z_scope.

(** ** Words *)
Lemma has_bit e n : 0 ≤ n → has e (2 ^ n) = Z.testbit e n.
Proof.
  intros Hn. unfold has. assert (E : Z.land e (2 ^ n) = if Z.testbit e n then 2 ^ n else 0).
  { apply Z.bits_inj'. intros i Hi. rewrite Z.land_spec, Z.pow2_bits_eqb by done.
    destruct (Z.eqb_spec n i) as [->|Hne].
    - destruct (Z.testbit e i); [by rewrite Z.pow2_bits_true|by rewrite Z.bits_0].
    - rewrite andb_false_r. destruct (Z.testbit e n); [|by rewrite Z.bits_0]. symmetry. apply Z.pow2_bits_false. done. }
  rewrite E. destruct (Z.testbit e n); [|done]. apply negb_true_iff, Z.eqb_neq, Z.pow_nonzero; lia.
Qed.

Lemma u64_small x : 0 ≤ x < 2 ^ 64 → u64 x = x.
Proof. apply Z.mod_small. Qed.

(** A physical page. *)
Definition aligned (pa : Z) : Prop := pa mod PGSIZE = 0 ∧ 0 ≤ pa < 2 ^ 52.

Definition pte_of (pa perm : Z) : Z := Z.lor (Z.lor (PA2PTE pa) perm) PTE_V.

Lemma shift_bounds pa : aligned pa → Z.shiftl (Z.shiftr pa 12) 12 = pa ∧ 0 ≤ Z.shiftr pa 12 < 2 ^ 40.
Proof.
  intros [H1 H2]. rewrite Z.shiftl_mul_pow2, Z.shiftr_div_pow2 by done. change (2 ^ 12) with PGSIZE.
  pose proof (Z.div_mod pa PGSIZE ltac:(done)). split; [lia|]. unfold PGSIZE in *. lia.
Qed.

Lemma pte_pa pa perm : aligned pa → 0 ≤ perm < 1024 → PTE2PA (pte_of pa perm) = pa.
Proof.
  intros Ha Hp. destruct (shift_bounds pa Ha) as [H1 H2]. destruct Ha as [_ Ha]. unfold PTE2PA, pte_of, PA2PTE.
  rewrite (u64_small (Z.shiftl _ 10)) by (rewrite Z.shiftl_mul_pow2 by done; lia).
  rewrite !Z.shiftr_lor, Z.shiftr_shiftl_l by done. cbn [Z.sub Z.add Z.opp Z.pos_sub].
  rewrite (Z.shiftr_div_pow2 perm), (Z.div_small perm) by lia. rewrite Z.lor_0_r.
  replace (Z.shiftr PTE_V 10) with 0 by done. rewrite Z.lor_0_r, Z.shiftl_0_r, H1. apply u64_small. lia.
Qed.

Lemma pte_bit pa perm n : 0 ≤ n < 10 → Z.testbit (pte_of pa perm) n = Z.testbit perm n || (n =? 0).
Proof.
  intros Hn. unfold pte_of, PA2PTE, u64. rewrite !Z.lor_spec, Z.mod_pow2_bits_low, Z.shiftl_spec_low by lia.
  rewrite orb_false_l. change PTE_V with (2 ^ 0). rewrite Z.pow2_bits_eqb by done. by rewrite (Z.eqb_sym 0).
Qed.

Lemma pte_range pa perm : 0 ≤ perm < 1024 → 0 ≤ pte_of pa perm < 2 ^ 64.
Proof.
  intros Hp. assert (H : pte_of pa perm = u64 (pte_of pa perm)).
  { apply Z.bits_inj'. intros i Hi. unfold u64 at 1. destruct (decide (i < 64)) as [Hl|Hl].
    - by rewrite Z.mod_pow2_bits_low.
    - rewrite Z.mod_pow2_bits_high by lia. unfold pte_of, PA2PTE, u64. rewrite !Z.lor_spec, Z.mod_pow2_bits_high by lia.
      replace perm with (perm mod 2 ^ 10) by (apply Z.mod_small; lia). rewrite Z.mod_pow2_bits_high by lia.
      change PTE_V with (2 ^ 0). rewrite Z.pow2_bits_eqb by done. apply Z.eqb_neq. lia. }
  rewrite H. apply Z.mod_pos_bound. done.
Qed.

Lemma pte_valid pa perm : Z.testbit (pte_of pa perm) 0 = true.
Proof. rewrite pte_bit by done. by rewrite orb_true_r. Qed.

(** *** Stores of words *)
Lemma load_store_ne m a b v : b + 8 ≤ a ∨ a + 8 ≤ b → load64 (store64 m a v) b = load64 m b.
Proof. intros H. apply load_ext. intros x Hx. unfold store64. rewrite decide_False; [done|lia]. Qed.

Lemma store_out m a v x : ¬ (a ≤ x < a + 8) → store64 m a v x = m x.
Proof. intros H. unfold store64. by rewrite decide_False. Qed.

Lemma load_zero m a : (∀ x, a ≤ x < a + 8 → m x = 0) → load64 m a = 0.
Proof.
  intros H. transitivity (load64 (λ _, 0) a); [|done]. apply load_ext. intros x Hx. by apply H.
Qed.

(** ** Indices *)

(** The entries of level [l] are numbered through the whole table: the entry of [va] has number [vkey l va]. *)
Definition vkey (l : nat) (va : Z) : Z := va / 2 ^ (12 + 9 * Z.of_nat l).

Lemma px_range l va : 0 ≤ PX l va < 512.
Proof. unfold PX. change 0x1FF with (Z.ones 9). rewrite Z.land_ones by done. by apply Z.mod_pos_bound. Qed.

Lemma vkey_S l va : vkey (S l) va = vkey l va / 512.
Proof.
  unfold vkey. change 512 with (2 ^ 9). rewrite Z.div_div by (try apply Z.pow_nonzero; lia).
  rewrite <-Z.pow_add_r by lia. f_equal. f_equal. lia.
Qed.

Lemma vkey_px l va : vkey l va = vkey (S l) va * 512 + PX l va.
Proof.
  rewrite vkey_S. unfold PX, PXSHIFT. change 0x1FF with (Z.ones 9). rewrite Z.land_ones, Z.shiftr_div_pow2 by lia.
  fold (vkey l va). change (2 ^ 9) with 512. pose proof (Z.div_mod (vkey l va) 512 ltac:(done)). lia.
Qed.

Lemma vkey_0 va : vkey 0 va = va / PGSIZE.
Proof. done. Qed.

Lemma vkey_top va : 0 ≤ va < MAXVA → vkey 3 va = 0.
Proof. intros H. unfold vkey. apply Z.div_small. change MAXVA with (2 ^ 38) in H. cbn. lia. Qed.

Lemma vkey_nonneg l va : 0 ≤ va → 0 ≤ vkey l va.
Proof. intros H. apply Z.div_pos; [done|]. apply Z.pow_pos_nonneg; lia. Qed.

(** ** The maps *)
Inductive role := Node (n : nat * Z) | User (v : Z).

(** [fr] has the free pages, [hand] those a function has taken and not used yet. *)
Record ghost := { dir : gmap (nat * Z) Z; leaf : gmap Z Z; own : gmap Z role; fr : list Z; hand : list Z }.

(** What the entry [j] of level [l] holds. *)
Definition entry (g : ghost) (l : nat) (j : Z) : Z :=
  match l with
  | O => default 0 (leaf g !! j)
  | S l => match dir g !! (l, j) with Some q => pte_of q 0 | None => 0 end
  end.

(** The entry of [va] in memory, 0 if the table has no page for it. *)
Definition slot (g : ghost) (va : Z) : Z :=
  match dir g !! (0%nat, vkey 1 va) with Some q => q + 8 * PX 0 va | None => 0 end.

Section Tree.
(** The pages mapped below [uvpn] belong to the table; the others are mapped but belong to others. *)
Context (kend uvpn : Z) (Hend : 0 < kend < PHYSTOP).

Definition add_node (n : nat * Z) (p : Z) (g : ghost) : ghost :=
  {| dir := <[n := p]> (dir g); leaf := leaf g; own := <[p := Node n]> (own g); fr := fr g; hand := hand g |}.
Definition add_leaf (v e pa : Z) (g : ghost) : ghost :=
  {| dir := dir g; leaf := <[v := e]> (leaf g);
     own := if decide (v < uvpn) then <[pa := User v]> (own g) else own g; fr := fr g; hand := hand g |}.
Definition del_leaf (v e : Z) (g : ghost) : ghost :=
  {| dir := dir g; leaf := delete v (leaf g);
     own := if decide (v < uvpn) then delete (PTE2PA e) (own g) else own g; fr := fr g; hand := hand g |}.
Definition set_pages (l h : list Z) (g : ghost) : ghost :=
  {| dir := dir g; leaf := leaf g; own := own g; fr := l; hand := h |}.

Record tables (m : mem) (root : Z) (g : ghost) : Prop := {
  t_root : dir g !! (2%nat, 0) = Some root;
  t_dir n p : dir g !! n = Some p ↔ own g !! p = Some (Node n);
  t_user v p : (∃ e, leaf g !! v = Some e ∧ v < uvpn ∧ PTE2PA e = p) ↔ own g !! p = Some (User v);
  t_page p : is_Some (own g !! p) → page kend p;
  t_range l j : is_Some (dir g !! (l, j)) → (l < 2)%nat ∧ is_Some (dir g !! (S l, j / 512)) ∨ l = 2%nat ∧ j = 0;
  t_entry l j p i : dir g !! (l, j) = Some p → 0 ≤ i < 512 → load64 m (p + 8 * i) = entry g l (j * 512 + i);
  t_leaf v e : leaf g !! v = Some e →
    Z.testbit e 0 = true ∧ is_Some (dir g !! (0%nat, v / 512)) ∧ (Z.testbit e 4 = true → v < uvpn)
}.

Record vm_ok (k : kmem) (root : Z) (g : ghost) : Prop := {
  v_tables : tables (phys k) root g;
  v_free : free_pages kend k (fr g);
  v_hand : Forall (page kend) (hand g);
  v_nodup : NoDup (hand g ++ fr g);
  v_apart p : p ∈ hand g ++ fr g → own g !! p = None
}.

Lemma page_aligned p : page kend p → aligned p.
Proof using Hend. intros [H1 H2]. split; [done|]. unfold PHYSTOP, KERNBASE in *. lia. Qed.

Lemma node_page m root g n p : tables m root g → dir g !! n = Some p → page kend p.
Proof using Type. intros Ht Hn. apply (t_page _ _ _ Ht). apply (t_dir _ _ _ Ht) in Hn. by rewrite Hn. Qed.

Lemma node_inj m root g n n' p : tables m root g → dir g !! n = Some p → dir g !! n' = Some p → n = n'.
Proof using Type. intros Ht H1 H2. apply (t_dir _ _ _ Ht) in H1, H2. congruence. Qed.

(** *** Reading *)
Lemma node_up m root g va l :
  tables m root g → is_Some (dir g !! (l, vkey (S l) va)) → (l < 2)%nat → is_Some (dir g !! (S l, vkey (S (S l)) va)).
Proof using Type. intros Ht H Hl. destruct (t_range _ _ _ Ht _ _ H) as [[_ H']|[? _]]; [by rewrite vkey_S|lia]. Qed.

Lemma read_entry m root g va l p :
  tables m root g → dir g !! (l, vkey (S l) va) = Some p → load64 m (p + 8 * PX l va) = entry g l (vkey l va).
Proof using Type.
  intros Ht Hp. rewrite (t_entry _ _ _ Ht _ _ _ _ Hp (px_range _ _)). by rewrite <-vkey_px.
Qed.

Lemma has_entry g l va :
  has (entry g (S l) (vkey (S l) va)) PTE_V = bool_decide (is_Some (dir g !! (l, vkey (S l) va))).
Proof using Type.
  cbn [entry]. change PTE_V with (2 ^ 0). rewrite has_bit by done.
  destruct (dir g !! (l, vkey (S l) va)); [by rewrite pte_valid|done].
Qed.

Lemma slot_none m root g va l :
  tables m root g → dir g !! (l, vkey (S l) va) = None → (l < 2)%nat → slot g va = 0.
Proof using Type.
  intros Ht Hn Hl. unfold slot. destruct (dir g !! (0%nat, vkey 1 va)) as [q|] eqn:E; [exfalso|done].
  destruct l as [|[|l]]; [congruence| |lia]. destruct (node_up m root g va 0 Ht) as [x Hx]; [by rewrite E|lia|congruence].
Qed.

Lemma walk_levels_get k root g va l p :
  tables (phys k) root g → (l ≤ 2)%nat → dir g !! (l, vkey (S l) va) = Some p →
  walk_levels l p va false k = (Ret (slot g va), k).
Proof using Hend.
  intros Ht. revert p. induction l as [|l IH]; intros p Hl Hp; cbn [walk_levels].
  - unfold slot. by rewrite Hp.
  - unfold mbind, M_bind, get64, gets. rewrite (read_entry _ _ _ _ _ _ Ht Hp), has_entry.
    cbn [entry]. destruct (dir g !! (l, vkey (S l) va)) as [q|] eqn:Eq.
    + rewrite bool_decide_true by done. rewrite pte_pa by (try done; apply page_aligned; by eapply node_page).
      apply IH; [lia|done].
    + rewrite bool_decide_false by (by intros [? ?]). cbn [negb]. by rewrite (slot_none _ _ _ _ _ Ht Eq) by lia.
Qed.

Lemma walk_get k root g va :
  tables (phys k) root g → 0 ≤ va < MAXVA → walk root va false k = (Ret (slot g va), k).
Proof using Hend.
  intros Ht Hva. unfold walk. rewrite (proj2 (Z.leb_gt _ _)) by lia.
  eapply walk_levels_get; [exact Ht|lia|]. rewrite vkey_top by done. apply (t_root _ _ _ Ht).
Qed.

Lemma slot_pos m root g va q : tables m root g → dir g !! (0%nat, vkey 1 va) = Some q → slot g va = q + 8 * PX 0 va ∧ slot g va ≠ 0.
Proof using Hend.
  intros Ht Hq. unfold slot. rewrite Hq. split; [done|]. pose proof (page_range _ Hend _ (node_page _ _ _ _ _ Ht Hq)).
  pose proof (px_range 0 va). lia.
Qed.

Lemma slot_read m root g va :
  tables m root g → slot g va ≠ 0 → load64 m (slot g va) = default 0 (leaf g !! vkey 0 va).
Proof using Hend.
  intros Ht Hs. unfold slot in *. destruct (dir g !! (0%nat, vkey 1 va)) as [q|] eqn:Eq; [|done].
  by rewrite (read_entry _ _ _ _ 0 _ Ht Eq).
Qed.

Lemma slot_leaf m root g va e : tables m root g → leaf g !! vkey 0 va = Some e → slot g va ≠ 0.
Proof using Hend.
  intros Ht He. destruct (t_leaf _ _ _ Ht _ _ He) as (_ & [q Hq] & _). rewrite <-vkey_S in Hq.
  by destruct (slot_pos m root g va q Ht Hq).
Qed.

Lemma leaf_valid m root g v : tables m root g →
  has (default 0 (leaf g !! v)) PTE_V = bool_decide (is_Some (leaf g !! v)).
Proof using Type.
  intros Ht. change PTE_V with (2 ^ 0). rewrite has_bit by done. destruct (leaf g !! v) as [e|] eqn:E; [|done].
  destruct (t_leaf _ _ _ Ht _ _ E) as [H _]. by rewrite bool_decide_true.
Qed.

(** *** Writing *)
Lemma tables_ext m m' root g :
  (∀ n p x, dir g !! n = Some p → p ≤ x < p + PGSIZE → m' x = m x) → tables m root g → tables m' root g.
Proof using Type.
  intros He [H1 H2 H3 H4 H5 H6 H7]. split; try done. intros l j p i Hp Hi. rewrite <-(H6 l j p i Hp Hi).
  apply load_ext. intros x Hx. apply (He (l, j) p); [done|]. unfold PGSIZE. lia.
Qed.

Lemma entries_apart p p' i i' :
  page kend p → page kend p' → 0 ≤ i < 512 → 0 ≤ i' < 512 → (p, i) ≠ (p', i') →
  p + 8 * i + 8 ≤ p' + 8 * i' ∨ p' + 8 * i' + 8 ≤ p + 8 * i.
Proof using Type.
  intros [H1 _] [H2 _] Hi Hi' Hne. apply Z.mod_divide in H1 as [a ->]; [|done]. apply Z.mod_divide in H2 as [b ->]; [|done].
  unfold PGSIZE in *. destruct (decide (a = b)) as [->|]; [|lia]. assert (i ≠ i') by congruence. lia.
Qed.

Lemma read_store m root g l0 j0 p0 i0 w l j p i :
  tables m root g → dir g !! (l0, j0) = Some p0 → 0 ≤ i0 < 512 → 0 ≤ w < 2 ^ 64 →
  dir g !! (l, j) = Some p → 0 ≤ i < 512 →
  load64 (store64 m (p0 + 8 * i0) w) (p + 8 * i)
  = if decide ((l, j * 512 + i) = (l0, j0 * 512 + i0)) then w else entry g l (j * 512 + i).
Proof using Type.
  intros Ht H0 Hi0 Hw Hp Hi. case_decide as Hd.
  - injection Hd as -> Hj. assert (j = j0) as -> by lia. assert (i = i0) as -> by lia.
    rewrite H0 in Hp. injection Hp as ->. by rewrite load_store.
  - rewrite load_store_ne; [by apply (t_entry _ _ _ Ht)|].
    apply entries_apart; [by eapply node_page|by eapply node_page|done|done|]. intros E. injection E as -> ->.
    apply Hd. by injection (node_inj _ _ _ _ _ _ Ht H0 Hp) as -> ->.
Qed.

Lemma tables_grow m root g l va p q :
  tables m root g → 0 ≤ va → page kend p → own g !! p = None →
  dir g !! (S l, vkey (S (S l)) va) = Some q → dir g !! (l, vkey (S l) va) = None →
  (∀ x, p ≤ x < p + PGSIZE → m x = 0) →
  tables (store64 m (q + 8 * PX (S l) va) (pte_of p 0)) root (add_node (l, vkey (S l) va) p g).
Proof using Hend.
  intros Ht Hva Hp Hown Hq Hn Hz. pose proof (px_range (S l) va) as Hi.
  pose proof (pte_range p 0 ltac:(lia)) as Hw.
  assert (Hl : (l < 2)%nat) by (destruct (t_range _ _ _ Ht _ _ (ex_intro _ _ Hq)); lia).
  split; cbn [dir leaf own add_node].
  - rewrite lookup_insert_ne; [apply (t_root _ _ _ Ht)|intros E; injection E; lia].
  - intros n p'. pose proof (t_dir _ _ _ Ht n p') as Hd.
    destruct (decide (n = (l, vkey (S l) va))) as [->|Hne], (decide (p' = p)) as [->|Hne'];
      rewrite ?lookup_insert_eq, ?lookup_insert_ne by done; [done| | |done].
    + rewrite <-Hd, Hn. split; [by intros [=]|done].
    + rewrite Hd, Hown. split; [done|by intros [=]].
  - intros v p'. rewrite (t_user _ _ _ Ht v p'). destruct (decide (p' = p)) as [->|Hne'].
    + by rewrite Hown, lookup_insert_eq.
    + by rewrite lookup_insert_ne.
  - intros p'. destruct (decide (p' = p)) as [->|Hne']; [done|]. rewrite lookup_insert_ne by done. apply (t_page _ _ _ Ht).
  - intros l' j' Hs. destruct (decide ((l', j') = (l, vkey (S l) va))) as [E|Hne].
    + injection E as -> ->. left. split; [done|]. rewrite <-vkey_S, lookup_insert_ne by (intros E; injection E; lia). by rewrite Hq.
    + rewrite lookup_insert_ne in Hs by done. destruct (t_range _ _ _ Ht _ _ Hs) as [[Hl' Hs']|]; [left|by right].
      split; [done|]. by apply lookup_insert_is_Some'; right.
  - intros l' j' p' i' Hp' Hi'. destruct (decide ((l', j') = (l, vkey (S l) va))) as [E|Hne].
    + injection E as -> ->. rewrite lookup_insert_eq in Hp'. injection Hp' as <-.
      rewrite load_store_ne.
      2: { apply entries_apart; [done|by eapply node_page|done|done|]. intros E. injection E as -> _.
           apply (t_dir _ _ _ Ht) in Hq. congruence. }
      rewrite load_zero by (intros x Hx; apply Hz; unfold PGSIZE; lia).
      unfold entry; cbn [dir leaf own add_node]. destruct l as [|l].
      * destruct (leaf g !! (vkey 1 va * 512 + i')) as [e|] eqn:E; [exfalso|done].
        destruct (t_leaf _ _ _ Ht _ _ E) as (_ & Hs & _). rewrite Z.div_add_l, Z.div_small, Z.add_0_r in Hs by lia.
        rewrite Hn in Hs. by destruct Hs.
      * rewrite lookup_insert_ne by (intros E; injection E; lia).
        destruct (dir g !! (l, vkey (S (S l)) va * 512 + i')) as [e|] eqn:E; [exfalso|done].
        destruct (t_range _ _ _ Ht _ _ (ex_intro _ _ E)) as [[_ Hs]|[? _]]; [|lia].
        rewrite Z.div_add_l, Z.div_small, Z.add_0_r in Hs by lia. rewrite Hn in Hs. by destruct Hs.
    + rewrite lookup_insert_ne in Hp' by done. rewrite (read_store _ _ _ _ _ _ _ _ _ _ _ _ Ht Hq Hi Hw Hp' Hi').
      rewrite <-vkey_px. case_decide as Hd.
      * injection Hd as -> ->. unfold entry; cbn [dir add_node]. by rewrite lookup_insert_eq.
      * unfold entry; cbn [dir leaf add_node]. destruct l' as [|l']; [done|]. rewrite lookup_insert_ne; [done|].
        intros E. injection E as -> E. apply Hd. by rewrite E.
  - intros v e He. destruct (t_leaf _ _ _ Ht _ _ He) as (H1 & H2 & H3). split; [done|]. split; [|done].
    by apply lookup_insert_is_Some'; right.
Qed.

Lemma user_inj m root g v v' e e' :
  tables m root g → leaf g !! v = Some e → leaf g !! v' = Some e' → v < uvpn → v' < uvpn →
  PTE2PA e = PTE2PA e' → v = v'.
Proof using Type.
  intros Ht H1 H2 L1 L2 E. pose proof (proj1 (t_user _ _ _ Ht v (PTE2PA e)) ltac:(by exists e)) as O1.
  pose proof (proj1 (t_user _ _ _ Ht v' (PTE2PA e)) ltac:(by exists e')) as O2. congruence.
Qed.

(** The entries of the last level after a store in it; [leaf'] is what it holds now. *)
Lemma entry_leaf m root g va q w leaf' own' :
  tables m root g → dir g !! (0%nat, vkey 1 va) = Some q → 0 ≤ w < 2 ^ 64 →
  (∀ v, default 0 (leaf' !! v) = if decide (v = vkey 0 va) then w else default 0 (leaf g !! v)) →
  let g' := {| dir := dir g; leaf := leaf'; own := own'; fr := fr g; hand := hand g |} in
  ∀ l j p i, dir g !! (l, j) = Some p → 0 ≤ i < 512 →
    load64 (store64 m (slot g va) w) (p + 8 * i) = entry g' l (j * 512 + i).
Proof using Type.
  intros Ht Hq Hw Hl g' l j p i Hp Hi. unfold slot. rewrite Hq.
  rewrite (read_store _ _ _ _ _ _ _ _ _ _ _ _ Ht Hq (px_range 0 va) Hw Hp Hi). rewrite <-vkey_px.
  destruct l as [|l]; unfold entry; cbn [dir leaf g'].
  - rewrite Hl. destruct (decide (j * 512 + i = vkey 0 va)) as [E|E].
    + by rewrite E, decide_True.
    + rewrite decide_False; [done|]. congruence.
  - by rewrite decide_False.
Qed.

Lemma tables_map m root g va pa perm :
  tables m root g → slot g va ≠ 0 → leaf g !! vkey 0 va = None → 0 ≤ perm < 1024 → aligned pa →
  (vkey 0 va < uvpn → page kend pa ∧ own g !! pa = None) → (Z.testbit perm 4 = true → vkey 0 va < uvpn) →
  tables (store64 m (slot g va) (pte_of pa perm)) root (add_leaf (vkey 0 va) (pte_of pa perm) pa g).
Proof using Hend.
  intros Ht Hs Hn Hperm Hpa Hu Hf. pose proof (pte_pa pa perm Hpa Hperm) as Epa. unfold slot in Hs.
  destruct (dir g !! (0%nat, vkey 1 va)) as [q|] eqn:Hq; [|done]. clear Hs.
  split; cbn [dir leaf own add_leaf].
  - apply (t_root _ _ _ Ht).
  - intros n p. rewrite (t_dir _ _ _ Ht n p). case_decide as Hv; [|done]. destruct (Hu Hv) as [_ Ho].
    destruct (decide (p = pa)) as [->|Hne]; [by rewrite Ho, lookup_insert_eq|by rewrite lookup_insert_ne].
  - intros v p. pose proof (t_user _ _ _ Ht v p) as Hvp. destruct (decide (v = vkey 0 va)) as [->|Hne].
    + rewrite lookup_insert_eq. rewrite Hn in Hvp. case_decide as Hv.
      * destruct (decide (p = pa)) as [->|Hp]; [rewrite lookup_insert_eq|rewrite lookup_insert_ne by done]; split; try done.
        -- intros _. by exists (pte_of pa perm).
        -- intros (e & [= <-] & _ & E). congruence.
        -- intros H. apply Hvp in H as (e & [=] & _).
      * split; [by intros (e & _ & ? & _)|]. intros H. apply Hvp in H as (e & [=] & _).
    + rewrite lookup_insert_ne by done. rewrite Hvp. case_decide as Hv; [|done]. destruct (Hu Hv) as [_ Ho].
      destruct (decide (p = pa)) as [->|Hp]; [rewrite lookup_insert_eq|by rewrite lookup_insert_ne].
      rewrite Ho. split; [done|]. intros [=]. congruence.
  - intros p H. case_decide as Hv; [|by apply (t_page _ _ _ Ht)]. destruct (Hu Hv) as [Hp _].
    destruct (decide (p = pa)) as [->|Hne]; [done|]. rewrite lookup_insert_ne in H by done. by apply (t_page _ _ _ Ht).
  - apply (t_range _ _ _ Ht).
  - apply (entry_leaf _ _ _ _ _ _ _ _ Ht Hq (pte_range pa perm Hperm)). intros v. case_decide as Hv.
    + by rewrite Hv, lookup_insert_eq.
    + by rewrite lookup_insert_ne.
  - intros v e. destruct (decide (v = vkey 0 va)) as [->|Hne].
    + rewrite lookup_insert_eq. intros [= <-]. split; [apply pte_valid|]. split.
      * rewrite <-vkey_S. by rewrite Hq.
      * rewrite pte_bit by done. by rewrite orb_false_r.
    + rewrite lookup_insert_ne by done. apply (t_leaf _ _ _ Ht).
Qed.

Lemma tables_unmap m root g va e :
  tables m root g → leaf g !! vkey 0 va = Some e →
  tables (store64 m (slot g va) 0) root (del_leaf (vkey 0 va) e g).
Proof using Hend.
  intros Ht He. pose proof (slot_leaf _ _ _ _ _ Ht He) as Hs. unfold slot in Hs.
  destruct (dir g !! (0%nat, vkey 1 va)) as [q|] eqn:Hq; [|done]. clear Hs.
  split; cbn [dir leaf own del_leaf].
  - apply (t_root _ _ _ Ht).
  - intros n p. rewrite (t_dir _ _ _ Ht n p). case_decide as Hv; [|done].
    destruct (decide (p = PTE2PA e)) as [->|Hne]; [|by rewrite lookup_delete_ne]. rewrite lookup_delete_eq.
    pose proof (proj1 (t_user _ _ _ Ht (vkey 0 va) (PTE2PA e)) ltac:(by exists e)) as Ho. by rewrite Ho.
  - intros v p. pose proof (t_user _ _ _ Ht v p) as Hvp. destruct (decide (v = vkey 0 va)) as [->|Hne].
    + rewrite lookup_delete_eq. split; [by intros (? & [=] & _)|]. case_decide as Hv.
      * destruct (decide (p = PTE2PA e)) as [->|Hp]; [by rewrite lookup_delete_eq|]. rewrite lookup_delete_ne by done.
        intros H. apply Hvp in H as (e' & E' & _ & E''). congruence.
      * intros H. by apply Hvp in H as (? & _ & ? & _).
    + rewrite lookup_delete_ne by done. rewrite Hvp. case_decide as Hv; [|done].
      destruct (decide (p = PTE2PA e)) as [->|Hp]; [rewrite lookup_delete_eq|by rewrite lookup_delete_ne].
      split; [|done]. intros H. exfalso. apply Hne.
      pose proof (proj1 (t_user _ _ _ Ht (vkey 0 va) (PTE2PA e)) ltac:(by exists e)) as Ho. congruence.
  - intros p H. case_decide as Hv; [|by apply (t_page _ _ _ Ht)]. apply (t_page _ _ _ Ht).
    destruct (decide (p = PTE2PA e)) as [->|Hne]; [by rewrite lookup_delete_eq in H; destruct H|].
    by rewrite lookup_delete_ne in H.
  - apply (t_range _ _ _ Ht).
  - apply (entry_leaf _ _ _ _ _ 0 _ _ Ht Hq ltac:(lia)). intros v. case_decide as Hv.
    + by rewrite Hv, lookup_delete_eq.
    + by rewrite lookup_delete_ne.
  - intros v e' Hv. apply lookup_delete_Some in Hv as [_ Hv]. by apply (t_leaf _ _ _ Ht).
Qed.
End Tree.
