(* ===== verification/VmMap.v ===== *)
(** * Mapping and unmapping

    The operations on a page table keep the pages they work on in one place each:
    a page is a node of the table, a user page, free, or in the hands of the
    function at work ([pool]); they change no other memory ([evolves]). *)

From stdpp Require Import gmap.
From S2P Require Export VmTree.

#[local] Set Warnings "-clear-no-such-hyp".
#[local] Set Default Proof Using "Type".
Local Open Scope Z_scope.

Definition in_page (p x : Z) : Prop := p ≤ x < p + PGSIZE.
Definition pool (g : ghost) (p : Z) : Prop := is_Some (own g !! p) ∨ p ∈ hand g ++ fr g.

Section Map.
Context (kend uvpn : Z) (Hend : 0 < kend < PHYSTOP).

Abbreviation ok := (vm_ok kend uvpn).

(** The memory of the pages numbered in [K] stays, and so does all that is not in the pool. *)
Record evolves (K : Z → Prop) (k : kmem) (g : ghost) (k' : kmem) (g' : ghost) : Prop := {
  ev_pool p : pool g' p ↔ pool g p;
  ev_frame x : (∀ p, pool g p → ¬ in_page p x) → phys k' x = phys k x;
  ev_keep v e : K v → leaf g !! v = Some e →
    leaf g' !! v = Some e ∧ (v < uvpn → ∀ x, in_page (PTE2PA e) x → phys k' x = phys k x)
}.

Abbreviation all := (λ _ : Z, True).

Lemma evolves_refl K k g : evolves K k g k g.
Proof using Type. split; done. Qed.

(** Only the pages that were mapped count. *)
Lemma evolves_seq (K1 K2 K : Z → Prop) k1 g1 k2 g2 k3 g3 :
  evolves K1 k1 g1 k2 g2 → evolves K2 k2 g2 k3 g3 →
  (∀ v, K v → is_Some (leaf g1 !! v) → K1 v ∧ K2 v) → evolves K k1 g1 k3 g3.
Proof using Type.
  intros [A1 A2 A3] [B1 B2 B3] HK. split.
  - intros p. by rewrite B1.
  - intros x Hx. rewrite B2; [by apply A2|]. intros p Hp. apply Hx. by apply A1.
  - intros v e Hv He. destruct (HK v Hv (ex_intro _ _ He)) as [V1 V2].
    destruct (A3 v e V1 He) as [He2 H2]. destruct (B3 v e V2 He2) as [He3 H3]. split; [done|].
    intros Hu x Hx. by rewrite H3, H2.
Qed.

Lemma evolves_trans K k1 g1 k2 g2 k3 g3 :
  evolves K k1 g1 k2 g2 → evolves K k2 g2 k3 g3 → evolves K k1 g1 k3 g3.
Proof using Type. intros H1 H2. by eapply evolves_seq. Qed.

Lemma evolves_mono (K K' : Z → Prop) k g k' g' : (∀ v, K' v → K v) → evolves K k g k' g' → evolves K' k g k' g'.
Proof using Type. intros H [A1 A2 A3]. split; [done|done|]. intros v e Hv. apply A3. by apply H. Qed.

(** A change of one page, which is not one of [K]. *)
Lemma evolves_page (K : Z → Prop) k g k' g' root q :
  ok k root g → pool g q → page kend q → (∀ v, K v → own g !! q ≠ Some (User v)) →
  (∀ x, ¬ in_page q x → phys k' x = phys k x) → (∀ p, pool g' p ↔ pool g p) →
  (∀ v e, K v → leaf g !! v = Some e → leaf g' !! v = Some e) →
  evolves K k g k' g'.
Proof using Type.
  intros Hok Hq Hpq Hk Hm Hp Hl. split; [done| |].
  - intros x Hx. apply Hm. by apply Hx.
  - intros v e Hv He. split; [by apply Hl|]. intros Hu x Hx. apply Hm. pose proof (v_tables _ _ _ _ _ Hok) as Ht.
    assert (Ho : own g !! PTE2PA e = Some (User v)) by (apply (t_user _ _ _ _ _ Ht); by exists e).
    apply (pages_apart kend (PTE2PA e) q x); [apply (t_page _ _ _ _ _ Ht); by rewrite Ho|done| |done].
    intros <-. by apply (Hk v).
Qed.

Lemma free_pages_ext k k' l :
  freelist k' = freelist k → (∀ p x, p ∈ l → in_page p x → phys k' x = phys k x) →
  free_pages kend k l → free_pages kend k' l.
Proof using Type.
  intros Ef He [H1 H2 H3]. split; [|done|done]. rewrite Ef. eapply chain_ext; [|exact H1].
  intros p x Hp Hx. symmetry. apply (He p); [done|]. unfold in_page, PGSIZE. lia.
Qed.

Lemma in_hand_page k root g p : ok k root g → p ∈ hand g → page kend p.
Proof using Type. intros Hok Hp. pose proof (v_hand _ _ _ _ _ Hok) as H. rewrite Forall_forall in H. by apply H. Qed.

Lemma fr_page k root g p : ok k root g → p ∈ fr g → page kend p.
Proof using Type.
  intros Hok Hp. pose proof (fp_page _ _ _ (v_free _ _ _ _ _ Hok)) as H. rewrite Forall_forall in H. by apply H.
Qed.

Lemma pool_page k root g p : ok k root g → pool g p → page kend p.
Proof using Type.
  intros Hok [H|[H|H]%elem_of_app]; [by apply (t_page _ _ _ _ _ (v_tables _ _ _ _ _ Hok))|by eapply in_hand_page|by eapply fr_page].
Qed.

(** A page in hand and a user page can be written. *)
Lemma touch_ok k root g p m :
  ok k root g → p ∈ hand g ∨ (∃ v, own g !! p = Some (User v)) → (∀ x, ¬ in_page p x → m x = phys k x) →
  let k' := {| freelist := freelist k; phys := m |} in
  ok k' root g ∧ evolves (λ v, own g !! p ≠ Some (User v)) k g k' g.
Proof using Type.
  intros Hok Hp Hm k'. pose proof (v_tables _ _ _ _ _ Hok) as Ht. assert (Hpool : pool g p).
  { destruct Hp as [Hp|[v Hp]]; [right; apply elem_of_app; by left|left; by rewrite Hp]. }
  pose proof (pool_page _ _ _ _ Hok Hpool) as Hpage. split; [|by eapply evolves_page].
  destruct Hok as [H1 H2 H3 H4 H5]. split; try done.
  - eapply tables_ext; [|exact H1]. intros n q x Hq Hx. apply Hm.
    apply (pages_apart kend q p x); [by eapply node_page|done| |done]. intros ->.
    apply (t_dir _ _ _ _ _ Ht) in Hq. destruct Hp as [Hp|[v Hp]]; [|congruence].
    rewrite H5 in Hq; [done|]. apply elem_of_app. by left.
  - apply (free_pages_ext k); [done| |exact H2]. intros q x Hq Hx. apply Hm.
    apply (pages_apart kend q p x); [|done| |done].
    + destruct H2 as [_ H2 _]. rewrite Forall_forall in H2. by apply H2.
    + intros ->. destruct Hp as [Hp|[v Hp]].
      * apply NoDup_app in H4 as (_ & H4 & _). by apply (H4 p).
      * rewrite H5 in Hp; [done|]. apply elem_of_app. by right.
Qed.

(** The pages in hand keep their contents. *)
Definition hand_kept (g : ghost) (k k' : kmem) : Prop := ∀ p x, p ∈ hand g → in_page p x → phys k' x = phys k x.

Lemma hand_kept_page k root g k' q :
  ok k root g → pool g q → q ∉ hand g → (∀ x, ¬ in_page q x → phys k' x = phys k x) → hand_kept g k k'.
Proof using Type.
  intros Hok Hq Hn Hm p x Hp Hx. apply Hm.
  apply (pages_apart kend p q x); [by eapply in_hand_page|by eapply pool_page|by intros ->|done].
Qed.

(** *** Taking and giving pages *)
Lemma alloc_ok k root g p l :
  ok k root g → fr g = p :: l →
  let g' := set_pages l (p :: hand g) g in
  ∃ k', alloc_page k = (Ret p, k') ∧ ok k' root g' ∧ evolves all k g k' g' ∧ p ≠ 0 ∧ hand_kept g k k' ∧ p ∉ hand g.
Proof using Hend.
  intros Hok Hl g'. pose proof (v_free _ _ _ _ _ Hok) as Hf. rewrite Hl in Hf.
  destruct (kalloc_spec kend Hend k _ Hf) as (k' & Ea & Hf' & _ & Hm). exists k'. unfold alloc_page. rewrite Ea.
  assert (Hin : p ∈ fr g) by (rewrite Hl; by left). pose proof (fr_page _ _ _ _ Hok Hin) as Hp.
  assert (Hpool : ∀ q, pool g' q ↔ pool g q).
  { intros q. unfold pool; cbn [own hand fr set_pages g']. rewrite Hl. f_equiv.
    cbn [app]. by rewrite Permutation_middle. }
  assert (Hev : evolves all k g k' g').
  { eapply (evolves_page _ _ _ _ _ _ p); [done|right; apply elem_of_app; by right|done| |exact Hm|done|done].
    intros v _. rewrite (v_apart _ _ _ _ _ Hok); [done|]. apply elem_of_app. by right. }
  split; [done|]. split; [|split; [done|]].
  2: { split; [pose proof (page_range _ Hend p Hp); lia|]. pose proof (v_nodup _ _ _ _ _ Hok) as H.
       apply NoDup_app in H as (_ & H & _). assert (Hnh : p ∉ hand g) by (intros Hh; by apply (H p)). split; [|done].
       eapply hand_kept_page; [done|right; apply elem_of_app; by right|done|exact Hm]. }
  destruct Hok as [H1 H2 H3 H4 H5]. rewrite Hl in H4, H5. split; cbn [hand fr set_pages g'].
  - assert (Ht : tables kend uvpn (phys k') root g); [|by destruct Ht; split].
    eapply tables_ext; [|exact H1]. intros n q x Hq Hx. apply Hm.
    apply (pages_apart kend q p x); [by eapply node_page|done| |done]. intros ->.
    apply (t_dir _ _ _ _ _ H1) in Hq. rewrite H5 in Hq; [done|]. apply elem_of_app. right. by left.
  - done.
  - by constructor.
  - cbn [app]. by rewrite Permutation_middle.
  - intros q Hq. apply H5. cbn [app] in Hq. by rewrite Permutation_middle in Hq.
Qed.

Lemma alloc_none k root g : ok k root g → fr g = [] → alloc_page k = (Ret 0, k).
Proof using Hend.
  intros Hok Hl. pose proof (kalloc_spec kend Hend k _ (v_free _ _ _ _ _ Hok)) as H. rewrite Hl in H.
  unfold alloc_page. by rewrite H.
Qed.

Lemma free_ok k root g p h :
  ok k root g → hand g = p :: h →
  let g' := set_pages (p :: fr g) h g in
  ∃ k', free_page kend p k = (Ret (), k') ∧ ok k' root g' ∧ evolves all k g k' g' ∧
    ∀ x, ¬ in_page p x → phys k' x = phys k x.
Proof using Hend.
  intros Hok Hh g'. pose proof (v_free _ _ _ _ _ Hok) as Hf.
  assert (Hin : p ∈ hand g) by (rewrite Hh; by left). pose proof (in_hand_page _ _ _ _ Hok Hin) as Hp.
  pose proof (v_nodup _ _ _ _ _ Hok) as Hnd. rewrite Hh in Hnd.
  destruct (kfree_spec kend Hend p k _ Hf Hp) as (k' & Ea & Hf' & Hm).
  { intros Hp'. apply NoDup_cons in Hnd as [Hnd _]. apply Hnd, elem_of_app. by right. }
  exists k'. unfold free_page. rewrite Ea.
  assert (Hpool : ∀ q, pool g' q ↔ pool g q).
  { intros q. unfold pool; cbn [own hand fr set_pages g']. rewrite Hh. f_equiv.
    by rewrite <-Permutation_middle. }
  split; [done|]. split; [|split; [|done]].
  2: { eapply (evolves_page _ _ _ _ _ _ p); [done|right; apply elem_of_app; by left|done| |exact Hm|done|done].
       intros v _. rewrite (v_apart _ _ _ _ _ Hok); [done|]. apply elem_of_app. by left. }
  destruct Hok as [H1 H2 H3 H4 H5]. rewrite Hh in H3, H4, H5. split; cbn [hand fr set_pages g'].
  - assert (Ht : tables kend uvpn (phys k') root g); [|by destruct Ht; split].
    eapply tables_ext; [|exact H1]. intros n q x Hq Hx. apply Hm.
    apply (pages_apart kend q p x); [by eapply node_page|done| |done]. intros ->.
    apply (t_dir _ _ _ _ _ H1) in Hq. rewrite H5 in Hq; [done|]. by left.
  - done.
  - by apply Forall_cons in H3 as [_ H3].
  - by rewrite <-Permutation_middle.
  - intros q Hq. apply H5. rewrite <-Permutation_middle in Hq. done.
Qed.

(** *** Writing an entry *)
Lemma store_ok (K : Z → Prop) k root g g' n q i w :
  ok k root g → dir g !! n = Some q → 0 ≤ i < 512 →
  tables kend uvpn (store64 (phys k) (q + 8 * i) w) root g' →
  fr g' = fr g → Forall (page kend) (hand g') → NoDup (hand g' ++ fr g') →
  (∀ p, p ∈ hand g' ++ fr g' → own g' !! p = None) → (∀ p, pool g' p ↔ pool g p) →
  (∀ v e, K v → leaf g !! v = Some e → leaf g' !! v = Some e) →
  ∃ k', put64 (q + 8 * i) w k = (Ret (), k') ∧ ok k' root g' ∧ evolves K k g k' g' ∧ hand_kept g k k'.
Proof using Type.
  intros Hok Hq Hi Ht Hfr Hpg Hnd Hap Hpool Hl.
  exists {| freelist := freelist k; phys := store64 (phys k) (q + 8 * i) w |}.
  pose proof (v_tables _ _ _ _ _ Hok) as Ht0. pose proof (node_page _ _ _ _ _ _ _ Ht0 Hq) as Hqp.
  apply (t_dir _ _ _ _ _ Ht0) in Hq.
  assert (Hm : ∀ x, ¬ in_page q x → store64 (phys k) (q + 8 * i) w x = phys k x).
  { intros x Hx. apply store_out. unfold in_page, PGSIZE in Hx. lia. }
  assert (Hpq : pool g q) by (left; by rewrite Hq).
  assert (Hqh : q ∉ hand g).
  { intros H. rewrite (v_apart _ _ _ _ _ Hok) in Hq; [done|]. apply elem_of_app. by left. }
  split; [done|]. split; [|split; [|by eapply hand_kept_page]].
  - split; [done| |done|done|done]. rewrite Hfr. apply (free_pages_ext k); [done| |apply (v_free _ _ _ _ _ Hok)].
    intros p x Hp Hx. apply Hm. apply (pages_apart kend p q x); [by eapply fr_page|done| |done]. intros ->.
    rewrite (v_apart _ _ _ _ _ Hok) in Hq; [done|]. apply elem_of_app. by right.
  - eapply (evolves_page _ _ _ _ _ _ q); [done|left; by rewrite Hq|done|congruence|done|done|done].
Qed.

Lemma zero_ok k root g p h :
  ok k root g → hand g = p :: h →
  ∃ k', set_bytes p 0 k = (Ret (), k') ∧ ok k' root g ∧ evolves all k g k' g ∧ (∀ x, in_page p x → phys k' x = 0) ∧
    ∀ x, ¬ in_page p x → phys k' x = phys k x.
Proof using Type.
  intros Hok Hh. assert (Hin : p ∈ hand g) by (rewrite Hh; by left).
  assert (Ho : own g !! p = None) by (apply (v_apart _ _ _ _ _ Hok), elem_of_app; by left).
  destruct (touch_ok k root g p (memset_page (phys k) p 0) Hok) as [H1 H2].
  - by left.
  - intros x Hx. rewrite memset_page_spec. by rewrite decide_False.
  - eexists. split; [reflexivity|]. split; [exact H1|]. split.
    + eapply evolves_mono; [|exact H2]. cbn. intros v _. by rewrite Ho.
    + split; intros x Hx; cbn; rewrite memset_page_spec; [by rewrite decide_True|by rewrite decide_False].
Qed.

(** A page in hand becomes a node. *)
Lemma grow_ok k root g l va p q h :
  ok k root g → 0 ≤ va → hand g = p :: h → dir g !! (S l, vkey (S (S l)) va) = Some q →
  dir g !! (l, vkey (S l) va) = None → (∀ x, in_page p x → phys k x = 0) →
  let g' := set_pages (fr g) h (add_node (l, vkey (S l) va) p g) in
  ∃ k', put64 (q + 8 * PX (S l) va) (Z.lor (PA2PTE p) PTE_V) k = (Ret (), k') ∧ ok k' root g' ∧ evolves all k g k' g' ∧
    hand_kept g k k'.
Proof using Hend.
  intros Hok Hva Hh Hq Hn Hz g'. assert (Hin : p ∈ hand g) by (rewrite Hh; by left).
  assert (Ho : own g !! p = None) by (apply (v_apart _ _ _ _ _ Hok), elem_of_app; by left).
  replace (Z.lor (PA2PTE p) PTE_V) with (pte_of p 0) by (unfold pte_of; by rewrite Z.lor_0_r).
  pose proof (v_nodup _ _ _ _ _ Hok) as Hnd. rewrite Hh in Hnd. apply NoDup_cons in Hnd as [Hp Hnd].
  destruct (store_ok all k root g g' _ q (PX (S l) va) (pte_of p 0) Hok Hq) as (k' & E & H1 & H2 & H3).
  - apply px_range.
  - assert (Ht : tables kend uvpn (store64 (phys k) (q + 8 * PX (S l) va) (pte_of p 0)) root
      (add_node (l, vkey (S l) va) p g)); [|by destruct Ht; split].
    apply tables_grow; [done|apply (v_tables _ _ _ _ _ Hok)|done|by eapply in_hand_page|done|done|done|exact Hz].
  - done.
  - pose proof (v_hand _ _ _ _ _ Hok) as H. rewrite Hh in H. by apply Forall_cons in H as [_ H].
  - done.
  - cbn [hand fr own g' set_pages add_node]. intros r Hr. rewrite lookup_insert_ne by (intros ->; done).
    apply (v_apart _ _ _ _ _ Hok). rewrite Hh. cbn [app]. by right.
  - intros r. unfold pool. cbn [hand fr own g' set_pages add_node]. rewrite Hh. cbn [app].
    rewrite elem_of_cons. destruct (decide (r = p)) as [->|Hne].
    + rewrite lookup_insert_eq. split; [|by left]. intros _. right. by left.
    + rewrite lookup_insert_ne by done. naive_solver.
  - done.
  - by exists k'.
Qed.

Lemma walk_levels_ok k root g l p va :
  ok k root g → 0 ≤ va → dir g !! (l, vkey (S l) va) = Some p →
  ∃ a k' g', walk_levels l p va true k = (Ret a, k') ∧ ok k' root g' ∧ evolves all k g k' g' ∧
    leaf g' = leaf g ∧ hand g' = hand g ∧ hand_kept g k k' ∧ (a = 0 ∧ fr g' = [] ∨ a = slot g' va ∧ a ≠ 0).
Proof using Hend.
  revert k g p. induction l as [|l IH]; intros k g p Hok Hva Hp; cbn [walk_levels];
    pose proof (v_tables _ _ _ _ _ Hok) as Ht.
  { exists (p + 8 * PX 0 va), k, g. do 6 (split; [done || apply evolves_refl|]). right.
    by destruct (slot_pos _ _ Hend _ _ _ _ _ Ht Hp) as [<- ?]. }
  unfold mbind at 1, M_bind at 1, get64 at 1, gets at 1. rewrite (read_entry _ _ _ _ _ _ _ _ Ht Hp), has_entry.
  unfold entry at 1. destruct (dir g !! (l, vkey (S l) va)) as [q|] eqn:Eq.
  { rewrite bool_decide_true by done. rewrite pte_pa by (try done; apply (page_aligned kend Hend); by eapply node_page).
    by apply IH. }
  rewrite bool_decide_false by (by intros [? ?]). cbn [negb].
  unfold mbind at 1, M_bind at 1. destruct (fr g) as [|r f] eqn:Ef.
  { rewrite (alloc_none _ _ _ Hok Ef). exists 0, k, g. do 6 (split; [done || apply evolves_refl|]). by left. }
  destruct (alloc_ok _ _ _ _ _ Hok Ef) as (k1 & -> & Hok1 & Hev1 & Hr & Hk1 & Hrh).
  rewrite (proj2 (Z.eqb_neq r 0)) by done.
  destruct (zero_ok _ _ _ r (hand g) Hok1 eq_refl) as (k2 & E2 & Hok2 & Hev2 & Hz & Hm2).
  unfold mbind at 1, M_bind at 1. rewrite E2.
  destruct (grow_ok _ _ _ l va r p (hand g) Hok2 Hva eq_refl Hp Eq Hz) as (k3 & E3 & Hok3 & Hev3 & Hk3).
  unfold mbind at 1, M_bind at 1. rewrite E3.
  destruct (IH _ _ r Hok3 Hva) as (a & k4 & g4 & E4 & Hok4 & Hev4 & Hl4 & Hh4 & Hk4 & Ha).
  { cbn. by rewrite lookup_insert_eq. }
  exists a, k4, g4. split; [done|]. split; [done|]. split; [|split; [done|split; [done|split; [|done]]]].
  2: { intros p' x Hp' Hx. transitivity (phys k3 x); [by apply (Hk4 p' x)|].
       transitivity (phys k2 x); [apply (Hk3 p' x); [by right|done]|]. transitivity (phys k1 x); [|by apply (Hk1 p' x)]. apply Hm2.
       apply (pages_apart kend p' r x); [by apply (in_hand_page _ _ _ _ Hok)| |by intros ->|done].
       eapply fr_page; [exact Hok|]. rewrite Ef. by left. }
  eapply evolves_trans; [exact Hev1|]. eapply evolves_trans; [exact Hev2|]. by eapply evolves_trans.
Qed.

Lemma walk_ok k root g va :
  ok k root g → 0 ≤ va < MAXVA →
  ∃ a k' g', walk root va true k = (Ret a, k') ∧ ok k' root g' ∧ evolves all k g k' g' ∧
    leaf g' = leaf g ∧ hand g' = hand g ∧ hand_kept g k k' ∧ (a = 0 ∧ fr g' = [] ∨ a = slot g' va ∧ a ≠ 0).
Proof using Hend.
  intros Hok Hva. unfold walk. rewrite (proj2 (Z.leb_gt _ _)) by lia.
  apply walk_levels_ok; [done|lia|]. rewrite vkey_top by done. apply (t_root _ _ _ _ _ (v_tables _ _ _ _ _ Hok)).
Qed.

(** ** Mapping *)

(** The pages in hand after [pa] was mapped at [va]. *)
Definition mapped (v pa : Z) (h h' : list Z) : Prop := h = if decide (v < uvpn) then pa :: h' else h'.

Lemma map_ok k root g va pa perm h :
  ok k root g → slot g va ≠ 0 → leaf g !! vkey 0 va = None → 0 ≤ perm < 1024 → aligned pa →
  (Z.testbit perm 4 = true → vkey 0 va < uvpn) → mapped (vkey 0 va) pa (hand g) h →
  let g' := set_pages (fr g) h (add_leaf uvpn (vkey 0 va) (pte_of pa perm) pa g) in
  ∃ k', put64 (slot g va) (pte_of pa perm) k = (Ret (), k') ∧ ok k' root g' ∧ evolves all k g k' g' ∧ hand_kept g k k'.
Proof using Hend.
  intros Hok Hs Hn Hperm Hpa Hu Hh g'. unfold mapped in Hh. pose proof (v_tables _ _ _ _ _ Hok) as Ht.
  assert (Hq : ∃ q, dir g !! (0%nat, vkey 1 va) = Some q ∧ slot g va = q + 8 * PX 0 va).
  { unfold slot in *. destruct (dir g !! (0%nat, vkey 1 va)) as [q|]; [by exists q|done]. }
  destruct Hq as (q & Hq & Es). rewrite Es.
  assert (Hp : vkey 0 va < uvpn → pa ∈ hand g) by (intros Hv; rewrite Hh, decide_True by done; by left).
  assert (Hp' : vkey 0 va < uvpn → page kend pa ∧ own g !! pa = None).
  { intros Hv. specialize (Hp Hv). split; [by eapply in_hand_page|]. apply (v_apart _ _ _ _ _ Hok), elem_of_app. by left. }
  pose proof (v_nodup _ _ _ _ _ Hok) as Hnd. pose proof (v_apart _ _ _ _ _ Hok) as Hap. rewrite Hh in Hnd, Hap.
  destruct (store_ok all k root g g' _ q (PX 0 va) (pte_of pa perm) Hok Hq) as (k' & E & H1 & H2 & H3).
  - apply px_range.
  - assert (H : tables kend uvpn (store64 (phys k) (slot g va) (pte_of pa perm)) root
      (add_leaf uvpn (vkey 0 va) (pte_of pa perm) pa g)) by by apply tables_map.
    rewrite <-Es. by destruct H; split.
  - done.
  - pose proof (v_hand _ _ _ _ _ Hok) as H. rewrite Hh in H. cbn [hand set_pages g'].
    case_decide; [by apply Forall_cons in H as [_ H]|done].
  - cbn [hand fr set_pages g' add_leaf]. case_decide; [by apply NoDup_cons in Hnd as [_ Hnd]|done].
  - cbn [hand fr own set_pages g' add_leaf]. intros r Hr. case_decide as Hv; [|by apply Hap].
    apply NoDup_cons in Hnd as [Hnp _]. rewrite lookup_insert_ne by (intros ->; done). apply Hap. cbn [app]. by right.
  - intros r. unfold pool. cbn [hand fr own g' set_pages add_leaf]. rewrite Hh. case_decide as Hv; [|done]. cbn [app].
    rewrite elem_of_cons. destruct (decide (r = pa)) as [->|Hne].
    + rewrite lookup_insert_eq. split; [|by left]. intros _. right. by left.
    + rewrite lookup_insert_ne by done. naive_solver.
  - intros v e _ Hv. cbn [leaf g' set_pages add_leaf]. rewrite lookup_insert_ne; [done|]. intros <-. congruence.
  - by exists k'.
Qed.

Lemma mappages_step fuel k root g a last pa perm h :
  ok k root g → 0 ≤ a < MAXVA → leaf g !! vkey 0 a = None → 0 ≤ perm < 1024 → aligned pa →
  (Z.testbit perm 4 = true → vkey 0 a < uvpn) → mapped (vkey 0 a) pa (hand g) h →
  ∃ (done : bool) k' g',
    mappages_loop (S fuel) root a last pa perm k
    = (if done then
         (if a =? last then mret 0 else mappages_loop fuel root (u64 (a + PGSIZE)) last (u64 (pa + PGSIZE)) perm) k'
       else (Ret (-1), k')) ∧
    ok k' root g' ∧ evolves all k g k' g' ∧ hand_kept g k k' ∧
    (if done then leaf g' = <[vkey 0 a := pte_of pa perm]> (leaf g) ∧ hand g' = h
     else leaf g' = leaf g ∧ hand g' = hand g ∧ fr g' = []).
Proof using Hend.
  intros Hok Ha Hn Hperm Hpa Hu Hh. cbn [mappages_loop].
  destruct (walk_ok k root g a Hok Ha) as (s & k1 & g1 & E1 & Hok1 & Hev1 & Hl1 & Hh1 & Hk1 & Hs); rewrite (bind_run _ _ _ _ _ E1).
  destruct Hs as [[-> Hf]|[-> Hs]].
  { by exists false, k1, g1. }
  rewrite (proj2 (Z.eqb_neq _ 0)) by done.
  assert (Er : get64 (slot g1 a) k1 = (Ret 0, k1)).
  { unfold get64, gets. by rewrite (slot_read _ _ Hend _ _ _ _ (v_tables _ _ _ _ _ Hok1) Hs), Hl1, Hn. }
  rewrite (bind_run _ _ _ _ _ Er). change (has 0 PTE_V) with false. cbv iota.
  destruct (map_ok k1 root g1 a pa perm h Hok1 Hs) as (k2 & E2 & Hok2 & Hev2 & Hk2); [by rewrite Hl1|done|done|done|by rewrite Hh1|].
  fold (pte_of pa perm). rewrite (bind_run _ _ _ _ _ E2). eexists true, k2, _. split; [done|]. split; [exact Hok2|].
  split; [by eapply evolves_trans|]. split; [|cbn; by rewrite Hl1].
  intros p x Hp Hx. rewrite (Hk2 p x), (Hk1 p x); [done|done|done|by rewrite Hh1|done].
Qed.

Lemma mappages_page k root g va pa perm h :
  ok k root g → 0 ≤ va < MAXVA → va mod PGSIZE = 0 → leaf g !! vkey 0 va = None → 0 ≤ perm < 1024 → aligned pa →
  (Z.testbit perm 4 = true → vkey 0 va < uvpn) → mapped (vkey 0 va) pa (hand g) h →
  ∃ r k' g', mappages root va PGSIZE pa perm k = (Ret r, k') ∧ ok k' root g' ∧ evolves all k g k' g' ∧ hand_kept g k k' ∧
    (r = -1 ∧ leaf g' = leaf g ∧ hand g' = hand g ∧ fr g' = [] ∨
     r = 0 ∧ leaf g' = <[vkey 0 va := pte_of pa perm]> (leaf g) ∧ hand g' = h).
Proof using Hend.
  intros Hok Ha Hal Hn Hperm Hpa Hu Hh. unfold mappages. rewrite Hal. cbn [Z.eqb negb].
  change (PGSIZE mod PGSIZE =? 0) with true. change (PGSIZE =? 0) with false. cbn [negb].
  change (Z.to_nat (PGSIZE / PGSIZE)) with 1%nat.
  replace (u64 (va + PGSIZE - PGSIZE)) with va
    by (rewrite u64_small; [lia|change MAXVA with (2 ^ 38) in Ha; lia]).
  destruct (mappages_step 0 k root g va va pa perm h Hok Ha Hn Hperm Hpa Hu Hh)
    as ([] & k' & g' & E & Hok' & Hev & Hk & H); rewrite E.
  - rewrite Z.eqb_refl. exists 0, k', g'. do 4 (split; [done|]). by right.
  - exists (-1), k', g'. do 4 (split; [done|]). by left.
Qed.

(** ** Unmapping *)
Lemma leaf_page k root g v e : ok k root g → leaf g !! v = Some e → v < uvpn → own g !! PTE2PA e = Some (User v) ∧ page kend (PTE2PA e).
Proof using Type.
  intros Hok He Hv. pose proof (v_tables _ _ _ _ _ Hok) as Ht.
  assert (Ho : own g !! PTE2PA e = Some (User v)) by (apply (t_user _ _ _ _ _ Ht); by exists e).
  split; [done|]. apply (t_page _ _ _ _ _ Ht). by rewrite Ho.
Qed.

(** An entry of a page that is not the table's own is dropped; the page stays where it is. *)
Lemma drop_ok k root g va e :
  ok k root g → leaf g !! vkey 0 va = Some e → uvpn ≤ vkey 0 va →
  ∃ k', put64 (slot g va) 0 k = (Ret (), k') ∧ ok k' root (del_leaf uvpn (vkey 0 va) e g) ∧
    evolves (λ v, v ≠ vkey 0 va) k g k' (del_leaf uvpn (vkey 0 va) e g).
Proof using Hend.
  intros Hok He Hv. pose proof (v_tables _ _ _ _ _ Hok) as Ht.
  pose proof (tables_unmap _ _ Hend _ _ _ _ _ Ht He) as Ht'.
  destruct (t_leaf _ _ _ _ _ Ht _ _ He) as (_ & [q Hq] & _). rewrite <-vkey_S in Hq.
  destruct (slot_pos _ _ Hend _ _ _ _ _ Ht Hq) as [Es _]. rewrite Es in *.
  assert (Eo : own (del_leaf uvpn (vkey 0 va) e g) = own g) by (cbn; by rewrite decide_False by lia).
  destruct (store_ok (λ v, v ≠ vkey 0 va) k root g _ _ q (PX 0 va) 0 Hok Hq (px_range _ _) Ht') as (k' & E & H1 & H2 & _).
  - done.
  - apply (v_hand _ _ _ _ _ Hok).
  - apply (v_nodup _ _ _ _ _ Hok).
  - rewrite Eo. apply (v_apart _ _ _ _ _ Hok).
  - intros p. unfold pool. by rewrite Eo.
  - intros v e' Hne Hl. cbn. by rewrite lookup_delete_ne.
  - by exists k'.
Qed.

(** A user page is freed, then its entry is cleared. *)
Lemma reclaim_ok k root g va e :
  ok k root g → leaf g !! vkey 0 va = Some e → vkey 0 va < uvpn →
  let g' := set_pages (PTE2PA e :: fr g) (hand g) (del_leaf uvpn (vkey 0 va) e g) in
  ∃ k', (free_page kend (PTE2PA e);; put64 (slot g va) 0) k = (Ret (), k') ∧ ok k' root g' ∧
    evolves (λ v, v ≠ vkey 0 va) k g k' g'.
Proof using Hend.
  intros Hok He Hv g'. pose proof (v_tables _ _ _ _ _ Hok) as Ht. destruct (leaf_page _ _ _ _ _ Hok He Hv) as [Ho Hp].
  assert (Hnf : PTE2PA e ∉ hand g ++ fr g) by (intros H; apply (v_apart _ _ _ _ _ Hok) in H; congruence).
  destruct (kfree_spec kend Hend (PTE2PA e) k _ (v_free _ _ _ _ _ Hok) Hp) as (k1 & Ef & Hf1 & Hm1).
  { intros H. apply Hnf, elem_of_app. by right. }
  assert (Ht1 : tables kend uvpn (phys k1) root g).
  { eapply tables_ext; [|exact Ht]. intros n q x Hq Hx. apply Hm1.
    apply (pages_apart kend q (PTE2PA e) x); [by eapply node_page|done| |done]. intros ->.
    apply (t_dir _ _ _ _ _ Ht) in Hq. congruence. }
  pose proof (tables_unmap _ _ Hend _ _ _ _ _ Ht1 He) as Ht2.
  destruct (t_leaf _ _ _ _ _ Ht _ _ He) as (_ & [q Hq] & _). rewrite <-vkey_S in Hq.
  destruct (slot_pos _ _ Hend _ _ _ _ _ Ht Hq) as [Es _]. pose proof (px_range 0 va) as Hpx.
  pose proof (node_page _ _ _ _ _ _ _ Ht Hq) as Hqp. apply (t_dir _ _ _ _ _ Ht) in Hq.
  assert (Hm2 : ∀ x, ¬ in_page q x → store64 (phys k1) (slot g va) 0 x = phys k1 x).
  { intros x Hx. apply store_out. rewrite Es. unfold in_page, PGSIZE in Hx. lia. }
  exists {| freelist := freelist k1; phys := store64 (phys k1) (slot g va) 0 |}. split; [|split].
  - unfold mbind, M_bind, free_page. by rewrite Ef.
  - split; cbn [phys].
    + by destruct Ht2; split.
    + apply (free_pages_ext k1); [done| |exact Hf1]. intros p x Hp' Hx. apply Hm2.
      apply (pages_apart kend p q x); [|done| |done].
      * destruct Hf1 as [_ Hf1 _]. rewrite Forall_forall in Hf1. by apply Hf1.
      * intros ->. cbn [fr g' set_pages] in Hp'. apply elem_of_cons in Hp' as [->|Hp']; [congruence|].
        rewrite (v_apart _ _ _ _ _ Hok) in Hq; [done|]. apply elem_of_app. by right.
    + apply (v_hand _ _ _ _ _ Hok).
    + cbn [hand fr g' set_pages]. rewrite <-Permutation_middle. constructor; [done|apply (v_nodup _ _ _ _ _ Hok)].
    + cbn [hand fr own g' set_pages del_leaf]. rewrite decide_True by done. intros p. rewrite <-Permutation_middle.
      intros [->|Hp']%elem_of_cons; [by rewrite lookup_delete_eq|].
      rewrite lookup_delete_ne by (intros E; by rewrite <-E in Hp'). by apply (v_apart _ _ _ _ _ Hok).
  - split; cbn [phys].
    + intros p. unfold pool. cbn [hand fr own g' set_pages del_leaf]. rewrite decide_True by done.
      rewrite <-Permutation_middle, elem_of_cons. destruct (decide (p = PTE2PA e)) as [->|Hne].
      * rewrite lookup_delete_eq, Ho. split; [by left|]. intros _. right. by left.
      * rewrite lookup_delete_ne by done. naive_solver.
    + intros x Hx. rewrite Hm2, Hm1; [done| |]; apply Hx; [left; by rewrite Ho|left; by rewrite Hq].
    + intros v e' Hne Hl. split; [cbn; by rewrite lookup_delete_ne|]. intros Hu x Hx.
      destruct (leaf_page _ _ _ _ _ Hok Hl Hu) as [Ho' Hp']. rewrite Hm2, Hm1; [done| |].
      * apply (pages_apart kend (PTE2PA e') (PTE2PA e) x); [done|done|congruence|done].
      * apply (pages_apart kend (PTE2PA e') q x); [done|done|congruence|done].
Qed.

(** *** A range of pages *)
Definition in_range (v0 n v : Z) : Prop := v0 ≤ v < v0 + n.

Lemma va_page v : 0 ≤ v → vkey 0 (v * PGSIZE) = v.
Proof using Type. intros Hv. rewrite vkey_0. by apply Z.div_mul. Qed.

(** The loop over [n] pages from number [v] on: every page of the table in the range is given back. *)
Lemma uvmunmap_loop_ok n k root g v (do_free : bool) :
  ok k root g → 0 ≤ v → (v + Z.of_nat n) * PGSIZE ≤ MAXVA →
  (∀ w, in_range v (Z.of_nat n) w → is_Some (leaf g !! w) → do_free = bool_decide (w < uvpn)) →
  ∃ k' g', uvmunmap_loop kend n root (v * PGSIZE) ((v + Z.of_nat n) * PGSIZE) do_free k = (Ret (), k') ∧
    ok k' root g' ∧ evolves (λ w, ¬ in_range v (Z.of_nat n) w) k g k' g' ∧ hand g' = hand g ∧ dir g' = dir g ∧
    ∀ w, leaf g' !! w = if decide (in_range v (Z.of_nat n) w) then None else leaf g !! w.
Proof using Hend.
  revert k g v. induction n as [|n IH]; intros k g v Hok Hv Hmax Hfree; cbn [uvmunmap_loop].
  { rewrite (proj2 (Z.ltb_ge _ _)) by lia. exists k, g. split; [done|]. split; [done|]. split; [apply evolves_refl|].
    split; [done|]. split; [done|]. intros w. rewrite decide_False; [done|]. unfold in_range. lia. }
  rewrite (proj2 (Z.ltb_lt _ _)) by (unfold PGSIZE; lia).
  assert (Hva : 0 ≤ v * PGSIZE < MAXVA) by (unfold PGSIZE in *; lia).
  rewrite (bind_run _ _ _ _ _ (walk_get _ _ Hend _ _ _ _ (v_tables _ _ _ _ _ Hok) Hva)).
  assert (Hstep : ∃ k1 g1,
    (if slot g (v * PGSIZE) =? 0 then mret ()
     else
       e ← get64 (slot g (v * PGSIZE));
       if negb (has e PTE_V) then mret ()
       else (if do_free then free_page kend (PTE2PA e) else mret ());; put64 (slot g (v * PGSIZE)) 0) k = (Ret (), k1) ∧
    ok k1 root g1 ∧ evolves (λ w, w ≠ v) k g k1 g1 ∧ hand g1 = hand g ∧ dir g1 = dir g ∧ leaf g1 = delete v (leaf g)).
  { destruct (slot g (v * PGSIZE) =? 0) eqn:Es.
    { apply Z.eqb_eq in Es. exists k, g. split; [done|]. split; [done|]. split; [apply evolves_refl|]. split; [done|].
      split; [done|]. symmetry. apply delete_id. destruct (leaf g !! v) as [e|] eqn:E; [exfalso|done].
      apply (slot_leaf _ _ Hend (phys k) root g (v * PGSIZE) e (v_tables _ _ _ _ _ Hok)); [|done]. by rewrite va_page. }
    apply Z.eqb_neq in Es.
    assert (Er : get64 (slot g (v * PGSIZE)) k = (Ret (default 0 (leaf g !! v)), k)).
    { unfold get64, gets. by rewrite (slot_read _ _ Hend _ _ _ _ (v_tables _ _ _ _ _ Hok) Es), va_page. }
    rewrite (bind_run _ _ _ _ _ Er). rewrite (leaf_valid _ _ _ _ _ _ (v_tables _ _ _ _ _ Hok)).
    destruct (leaf g !! v) as [e|] eqn:E.
    2: { rewrite bool_decide_false by (by intros [? ?]). exists k, g. split; [done|]. split; [done|].
         split; [apply evolves_refl|]. split; [done|]. split; [done|]. by rewrite delete_id. }
    rewrite bool_decide_true by done. cbn [negb default from_option id].
    assert (Hd : do_free = bool_decide (v < uvpn)) by (apply Hfree; [unfold in_range; lia|by rewrite E]).
    destruct (decide (v < uvpn)) as [Hlt|Hge].
    - rewrite bool_decide_true in Hd by done. rewrite Hd.
      destruct (reclaim_ok k root g (v * PGSIZE) e Hok) as (k1 & E1 & Hok1 & Hev1); [by rewrite va_page..|].
      rewrite E1. rewrite !va_page in * by done. eexists _, _. split; [done|]. split; [exact Hok1|]. done.
    - rewrite bool_decide_false in Hd by done. rewrite Hd.
      destruct (drop_ok k root g (v * PGSIZE) e Hok) as (k1 & E1 & Hok1 & Hev1); [rewrite va_page by done; (done || lia)..|].
      rewrite !va_page in * by done. exists k1, (del_leaf uvpn v e g). split; [exact E1|]. done. }
  destruct Hstep as (k1 & g1 & E1 & Hok1 & Hev1 & Hh1 & Hd1 & Hl1). rewrite (bind_run _ _ _ _ _ E1).
  replace (u64 (v * PGSIZE + PGSIZE)) with ((v + 1) * PGSIZE)
    by (rewrite u64_small; [lia|change MAXVA with (2 ^ 38) in Hmax; unfold PGSIZE in *; lia]).
  replace ((v + Z.of_nat (S n)) * PGSIZE) with ((v + 1 + Z.of_nat n) * PGSIZE) in * by lia.
  destruct (IH k1 g1 (v + 1) Hok1) as (k2 & g2 & E2 & Hok2 & Hev2 & Hh2 & Hd2 & Hl2); [lia|done| |].
  { intros w Hw. rewrite Hl1, lookup_delete_ne by (unfold in_range in Hw; lia). apply Hfree. unfold in_range in *. lia. }
  rewrite E2. exists k2, g2. split; [done|]. split; [done|]. split; [|split; [congruence|split; [congruence|]]].
  - eapply evolves_trans; (eapply evolves_mono; [|eassumption]); intros w Hw; cbn; unfold in_range in *; lia.
  - intros w. rewrite Hl2, Hl1. destruct (decide (w = v)) as [->|Hne].
    + rewrite lookup_delete_eq. rewrite (decide_True (P := in_range v _ v)) by (unfold in_range; lia). by case_decide.
    + rewrite lookup_delete_ne by done. apply decide_ext. unfold in_range. lia.
Qed.
End Map.
