(* ===== verification/VmFree.v ===== *)
(** * Freeing a page table

    [freewalk] gives back every page of a table whose mappings are gone. *)

From stdpp Require Import gmap.
From S2P Require Export VmMap.

#[local] Set Warnings "-clear-no-such-hyp".
#[local] Set Default Proof Using "Type".
Local Open Scope Z_scope.

(** [q] is a node of the subtree at [(l, j)]. *)
Definition under (g : ghost) (l : nat) (j q : Z) : Prop :=
  ∃ l' j', dir g !! (l', j') = Some q ∧ (l' ≤ l)%nat ∧ j' / 512 ^ Z.of_nat (l - l') = j.

Lemma node_flags q : Z.land (pte_of q 0) (Z.lor (Z.lor PTE_R PTE_W) PTE_X) = 0.
Proof.
  apply Z.bits_inj'. intros n Hn. rewrite Z.land_spec, Z.bits_0. change (Z.lor _ PTE_X) with 14.
  destruct (decide (n < 4)) as [Hn4|Hn4]; [|replace (Z.testbit 14 n) with false; [apply andb_false_r|]].
  - rewrite pte_bit by lia. rewrite Z.bits_0. assert (n = 0 ∨ n = 1 ∨ n = 2 ∨ n = 3) as [->|[->|[->| ->]]] by lia; done.
  - symmetry. apply Z.bits_above_log2; [done|]. change (Z.log2 14) with 3. lia.
Qed.

Section Free.
Context (kend uvpn : Z) (Hend : 0 < kend < PHYSTOP).
Context (m0 : mem) (root : Z) (g : ghost) (Ht : tables kend uvpn m0 root g) (Hempty : leaf g = ∅).

Lemma under_page l j q : under g l j q → page kend q.
Proof using Ht. intros (l' & j' & H & _). by eapply node_page. Qed.

Lemma under_self l j p : dir g !! (l, j) = Some p → under g l j p.
Proof using Type. intros H. exists l, j. split; [done|]. split; [lia|]. rewrite Nat.sub_diag. apply Z.div_1_r. Qed.

Lemma under_child l j p i : dir g !! (l, j * 512 + i) = Some p → 0 ≤ i < 512 → ∀ q, under g l (j * 512 + i) q → under g (S l) j q.
Proof using Type.
  intros _ Hi q (l' & j' & H & Hl & E). exists l', j'. split; [done|]. split; [lia|].
  replace (S l - l')%nat with (S (l - l')) by lia. rewrite Nat2Z.inj_succ, Z.pow_succ_r, Z.mul_comm by lia.
  rewrite <-Z.div_div, E by (try apply Z.pow_nonzero; lia). rewrite Z.div_add_l, Z.div_small by lia. lia.
Qed.

Lemma under_S l j q p :
  dir g !! (S l, j) = Some p →
  (under g (S l) j q ↔ q = p ∨ ∃ i, 0 ≤ i < 512 ∧ is_Some (dir g !! (l, j * 512 + i)) ∧ under g l (j * 512 + i) q).
Proof using Ht.
  intros Hp. split.
  - intros (l' & j' & H & Hl & E). destruct (decide (l' = S l)) as [->|Hne].
    { left. rewrite Nat.sub_diag, Z.div_1_r in E. subst. congruence. }
    right. replace (S l - l')%nat with (S (l - l')) in E by lia.
    rewrite Nat2Z.inj_succ, Z.pow_succ_r, Z.mul_comm in E by lia.
    rewrite <-Z.div_div in E by (try apply Z.pow_nonzero; lia).
    set (c := j' / 512 ^ Z.of_nat (l - l')) in *. exists (c mod 512). pose proof (Z.mod_pos_bound c 512 ltac:(lia)).
    pose proof (Z.div_mod c 512 ltac:(lia)) as Ec. rewrite E in Ec. replace (j * 512 + c mod 512) with c by lia.
    split; [done|]. split; [|exists l', j'; split; [done|]; split; [lia|done]].
    assert (Hup : ∀ n, (l' + n ≤ l)%nat → is_Some (dir g !! ((l' + n)%nat, j' / 512 ^ Z.of_nat n))).
    { intros n. induction n as [|n IH]; intros Hn.
      - rewrite Nat.add_0_r, Z.div_1_r. by rewrite H.
      - destruct (t_range _ _ _ _ _ Ht _ _ (IH ltac:(lia))) as [[_ Hs]|[Hs Hz]].
        + rewrite Nat2Z.inj_succ, Z.pow_succ_r, (Z.mul_comm 512), <-Z.div_div by (try apply Z.pow_nonzero; lia).
          by replace (l' + S n)%nat with (S (l' + n)) by lia.
        + destruct (t_range _ _ _ _ _ Ht _ _ (ex_intro _ _ Hp)); lia. }
    specialize (Hup (l - l')%nat ltac:(lia)). by replace (l' + (l - l'))%nat with l in Hup by lia.
  - intros [->|(i & Hi & [r Hr] & Hu)]; [by apply under_self|by eapply under_child].
Qed.

Lemma under_disjoint l j j' q : under g l j q → under g l j' q → j = j'.
Proof using Ht.
  intros (l1 & j1 & H1 & _ & <-) (l2 & j2 & H2 & _ & <-). by injection (node_inj _ _ _ _ _ _ _ _ Ht H1 H2) as -> ->.
Qed.

Lemma under_proper l j p i q :
  dir g !! (S l, j) = Some p → under g l i q → q ≠ p.
Proof using Ht.
  intros Hp (l' & j' & H & Hl & _) ->. injection (node_inj _ _ _ _ _ _ _ _ Ht Hp H) as <- _. lia.
Qed.

(** What is free, and what memory is untouched, after the subtrees satisfying [U] were freed. *)
Definition freed (U : Z → Prop) (f : list Z) (k : kmem) (f' : list Z) (k' : kmem) : Prop :=
  free_pages kend k' f' ∧ (∀ q, q ∈ f' ↔ q ∈ f ∨ U q) ∧
  ∀ x, (∀ q, U q → ¬ in_page q x) → phys k' x = phys k x.

Definition intact (U : Z → Prop) (f : list Z) (k : kmem) : Prop :=
  free_pages kend k f ∧ ∀ q, U q → (q ∉ f) ∧ ∀ x, in_page q x → phys k x = m0 x.

Lemma free_node_ok f k p :
  free_pages kend k f → page kend p → p ∉ f →
  ∃ k', free_page kend p k = (Ret (), k') ∧ freed (λ q, q = p) f k (p :: f) k'.
Proof using Hend.
  intros Hf Hp Hn. destruct (kfree_spec kend Hend p k f Hf Hp Hn) as (k' & E & Hf' & Hm). exists k'.
  unfold free_page. rewrite E. split; [done|]. split; [done|]. split.
  - intros q. rewrite elem_of_cons. naive_solver.
  - intros x Hx. apply Hm. by apply Hx.
Qed.

Abbreviation children := (λ (l : nat) (j : Z) (idx : list nat) (q : Z),
  ∃ i, i ∈ idx ∧ is_Some (dir g !! (l, j * 512 + Z.of_nat i)) ∧ under g l (j * 512 + Z.of_nat i) q).

Lemma freewalk_loop_ok child l j p idx f k :
  dir g !! (S l, j) = Some p → NoDup idx → Forall (λ i, (i < 512)%nat) idx → page kend p → p ∉ f →
  (∀ i q f k, dir g !! (l, j * 512 + i) = Some q → intact (under g l (j * 512 + i)) f k →
    ∃ k' f', child q k = (Ret (), k') ∧ freed (under g l (j * 512 + i)) f k f' k') →
  intact (children l j idx) f k →
  (∀ i, i ∈ idx → load64 (phys k) (p + 8 * Z.of_nat i) = entry g (S l) (j * 512 + Z.of_nat i)) →
  ∃ k' f', freewalk_loop child p idx k = (Ret (), k') ∧ free_pages kend k' f' ∧
    (∀ q, q ∈ f' ↔ q ∈ f ∨ children l j idx q) ∧
    ∀ x, ¬ in_page p x → (∀ q, children l j idx q → ¬ in_page q x) → phys k' x = phys k x.
Proof using Hend Ht.
  intros Hp Hnd Hlt Hpp Hpf Hchild. revert f k Hpf. induction idx as [|i idx IH]; intros f k Hpf Hin Hent.
  { exists k, f. split; [done|]. split; [apply Hin|]. split; [|done]. intros q. split; [by left|].
    intros [?|(i & Hi & _)]; [done|]. by apply not_elem_of_nil in Hi. }
  apply NoDup_cons in Hnd as [Hni Hnd]. apply Forall_cons in Hlt as [Hi Hlt]. cbn [freewalk_loop].
  assert (Er : get64 (p + 8 * Z.of_nat i) k = (Ret (entry g (S l) (j * 512 + Z.of_nat i)), k)).
  { unfold get64, gets. rewrite Hent; [done|by left]. }
  rewrite (bind_run _ _ _ _ _ Er). clear Er. set (e := entry g (S l) (j * 512 + Z.of_nat i)).
  assert (Ee : e = match dir g !! (l, j * 512 + Z.of_nat i) with Some q => pte_of q 0 | None => 0 end) by done.
  clearbody e. destruct (dir g !! (l, j * 512 + Z.of_nat i)) as [q|] eqn:Eq; subst e.
  - change PTE_V with (2 ^ 0). rewrite has_bit, pte_valid by done. cbn [andb]. change (2 ^ 0) with PTE_V.
    assert (Hqp : page kend q) by by eapply node_page.
    rewrite node_flags. cbn [Z.eqb]. rewrite pte_pa by (try done; by apply (page_aligned kend Hend)).
    destruct (Hchild (Z.of_nat i) q f k Eq) as (k1 & f1 & E1 & Hf1 & Hq1 & Hm1).
    { destruct Hin as [Hf Hin]. split; [done|]. intros r Hr. apply Hin. exists i. split; [by left|]. by rewrite Eq. }
    set (k2 := {| freelist := freelist k1; phys := store64 (phys k1) (p + 8 * Z.of_nat i) 0 |}).
    assert (E2 : (child q;; put64 (p + 8 * Z.of_nat i) 0) k = (Ret (), k2)) by by rewrite (bind_run _ _ _ _ _ E1).
    rewrite (bind_run _ _ _ _ _ E2).
    assert (Hm2 : ∀ x, ¬ in_page p x → phys k2 x = phys k1 x).
    { intros x Hx. apply store_out. unfold in_page, PGSIZE in Hx. lia. }
    assert (Hpf1 : p ∉ f1) by (rewrite Hq1; intros [?|Hu]; [done|by apply (under_proper _ _ _ _ _ Hp Hu)]).
    assert (Hsib : ∀ r x, r = p ∨ children l j idx r → in_page r x → phys k1 x = phys k x).
    { intros r x Hr Hx. apply Hm1. intros r' Hr'.
      assert (Hrp : page kend r) by (destruct Hr as [->|(i' & _ & _ & Hr)]; [done|by eapply under_page]).
      apply (pages_apart kend r r' x); [done|by eapply under_page| |done]. intros <-. destruct Hr as [->|(i' & Hi' & _ & Hr)].
      - by apply (under_proper _ _ _ _ _ Hp Hr').
      - pose proof (under_disjoint _ _ _ _ Hr Hr'). assert (i' = i) as -> by lia. done. }
    destruct (IH Hnd Hlt f1 k2 Hpf1) as (k' & f' & E' & Hf' & Hq' & Hm').
    + split.
      * apply (free_pages_ext kend k1); [done| |exact Hf1]. intros r x Hr Hx. apply Hm2.
        apply (pages_apart kend r p x); [|done|by intros ->|done]. destruct Hf1 as [_ H _]. rewrite Forall_forall in H. by apply H.
      * intros r Hr. destruct Hr as (i' & Hi' & Hs & Hr).
        assert (Hr0 : children l j (i :: idx) r) by (exists i'; split; [by right|done]).
        destruct (proj2 Hin r Hr0) as [Hrf Hrm]. split.
        -- rewrite Hq1. intros [?|Hu]; [done|]. pose proof (under_disjoint _ _ _ _ Hr Hu). assert (i' = i) as -> by lia. done.
        -- intros x Hx. rewrite Hm2; [rewrite (Hsib r); [by apply Hrm|right; by exists i'|done]|].
           apply (pages_apart kend r p x); [by eapply under_page|done|by eapply under_proper|done].
    + intros i' Hi'. cbn [phys k2]. rewrite load_store_ne.
      * rewrite <-Hent by by right. apply load_ext. intros x Hx. apply (Hsib p); [by left|].
        rewrite Forall_forall in Hlt. specialize (Hlt i' Hi'). unfold in_page, PGSIZE. lia.
      * assert (i' ≠ i) by congruence. lia.
    + exists k', f'. split; [done|]. split; [done|]. split.
      * intros r. rewrite Hq', Hq1. split.
        -- intros [[?|Hu]|(i' & Hi' & H)]; [by left| |].
           ++ right. exists i. split; [by left|]. by rewrite Eq.
           ++ right. exists i'. split; [by right|done].
        -- intros [?|(i' & [->|Hi']%elem_of_cons & H & Hu)]; [by left; left|by left; right|]. right. by exists i'.
      * intros x Hx Hc. rewrite Hm'; [|done|intros r (i' & Hi' & H); apply Hc; exists i'; by split; [right|]].
        rewrite Hm2 by done. apply Hm1. intros r Hr. apply Hc. exists i. split; [by left|]. by rewrite Eq.
  - change (has 0 PTE_V) with false. cbn [andb].
    destruct (IH Hnd Hlt f k Hpf) as (k' & f' & E' & Hf' & Hq' & Hm').
    { destruct Hin as [Hf Hin]. split; [done|]. intros r (i' & Hi' & H). apply Hin. exists i'. split; [by right|done]. }
    { intros i' Hi'. apply Hent. by right. }
    exists k', f'. split; [exact E'|]. split; [done|]. split.
    + intros r. rewrite Hq'. split.
      * intros [?|(i' & Hi' & H)]; [by left|]. right. exists i'. split; [by right|done].
      * intros [?|(i' & [->|Hi']%elem_of_cons & H & Hu)]; [by left|by rewrite Eq in H; destruct H|]. right. by exists i'.
    + intros x Hx Hc. apply Hm'; [done|]. intros r (i' & Hi' & H). apply Hc. exists i'. split; [by right|done].
Qed.

Lemma freewalk_ok l : ∀ j p f k,
  dir g !! (l, j) = Some p → intact (under g l j) f k →
  ∃ k' f', freewalk kend (S l) p k = (Ret (), k') ∧ freed (under g l j) f k f' k'.
Proof using Hend Ht Hempty.
  induction l as [|l IH]; intros j p f k Hp [Hf Hin]; pose proof (node_page _ _ _ _ _ _ _ Ht Hp) as Hpp;
    destruct (Hin p (under_self _ _ _ Hp)) as [Hpf Hpm]; cbn [freewalk].
  - assert (Hloop : ∀ idx, Forall (λ i, (i < 512)%nat) idx → freewalk_loop (freewalk kend 0) p idx k = (Ret (), k)).
    { intros idx. induction idx as [|i idx IH]; intros Hidx; [done|]. apply Forall_cons in Hidx as [Hi Hidx].
      cbn [freewalk_loop]. assert (Er : get64 (p + 8 * Z.of_nat i) k = (Ret 0, k)).
      { unfold get64, gets. do 2 f_equal. rewrite (load_ext _ m0) by (intros x Hx; apply Hpm; unfold in_page, PGSIZE; lia).
        rewrite (t_entry _ _ _ _ _ Ht _ _ _ _ Hp) by lia. unfold entry. by rewrite Hempty, lookup_empty. }
      rewrite (bind_run _ _ _ _ _ Er). change (has 0 PTE_V) with false. cbn [andb]. by apply IH. }
    rewrite (bind_run _ _ _ _ _ (Hloop (seq 0 512) ltac:(apply Forall_seq; lia))).
    destruct (free_node_ok f k p Hf Hpp Hpf) as (k' & E & H1 & H2 & H3). exists k', (p :: f). split; [done|].
    split; [done|]. assert (Hu : ∀ q, under g 0 j q ↔ q = p).
    { intros q. split; [|intros ->; by apply under_self]. intros (l' & j' & H & Hl & E'). assert (l' = 0%nat) as -> by lia.
      cbn in E'. rewrite Z.div_1_r in E'. subst. congruence. }
    split; [intros q; by rewrite H2, Hu|]. intros x Hx. apply H3. intros q Hq. apply Hx. by apply Hu.
  - destruct (freewalk_loop_ok (freewalk kend (S l)) l j p (seq 0 512) f k) as (k1 & f1 & E1 & Hf1 & Hq1 & Hm1);
      [done|apply NoDup_seq|apply Forall_seq; lia|done|done| | | |].
    + intros i q f' k'. apply IH.
    + split; [done|]. intros q (i & Hi & Hs & Hu). apply Hin. apply elem_of_seq in Hi. rewrite (under_S _ _ _ _ Hp). right.
      exists (Z.of_nat i). split; [lia|done].
    + intros i Hi. apply elem_of_seq in Hi. rewrite (load_ext _ m0) by (intros x Hx; apply Hpm; unfold in_page, PGSIZE; lia).
      apply (t_entry _ _ _ _ _ Ht); [done|lia].
    + rewrite (bind_run _ _ _ _ _ E1).
      assert (Hc : ∀ q, under g (S l) j q ↔ q = p ∨ children l j (seq 0 512) q).
      { intros q. rewrite (under_S _ _ _ _ Hp). split; (intros [?|(i & Hi & H)]; [by left|right]).
        - exists (Z.to_nat i). rewrite Z2Nat.id by lia. split; [|done]. apply elem_of_seq. lia.
        - apply elem_of_seq in Hi. exists (Z.of_nat i). split; [lia|done]. }
      destruct (free_node_ok f1 k1 p Hf1 Hpp) as (k' & E & H1 & H2 & H3).
      { rewrite Hq1. intros [?|(i & _ & _ & Hu)]; [done|]. by apply (under_proper _ _ _ _ _ Hp Hu). }
      exists k', (p :: f1). split; [done|]. split; [done|]. split.
      * intros q. rewrite H2, Hq1, Hc. tauto.
      * intros x Hx. rewrite H3 by (intros q ->; apply Hx, Hc; by left). apply Hm1; [apply Hx, Hc; by left|].
        intros q Hq. apply Hx, Hc. by right.
Qed.
End Free.
