(* ===== verification/VmSpace.v ===== *)
(** * The address spaces of processes

    The user part of a table is the [npg sz] pages below the size [sz] of the
    process, those that were touched; the trapframe and the trampoline are above
    them. *)

From stdpp Require Import gmap.
From S2P Require Export VmFree.

#[local] Set Warnings "-clear-no-such-hyp".
#[local] Set Default Proof Using "Type".
Local Open Scope Z_scope.

(** User pages have numbers below this one, the trapframe's. *)
Definition UVPN : Z := TRAPFRAME / PGSIZE.
Definition npg (sz : Z) : Z := (sz + PGSIZE - 1) / PGSIZE.

Lemma round_land x : Z.land x (Z.lnot (PGSIZE - 1)) = x / PGSIZE * PGSIZE.
Proof.
  change (PGSIZE - 1) with (Z.ones 12). rewrite <-Z.ldiff_land, Z.ldiff_ones_r by done.
  by rewrite Z.shiftr_div_pow2, Z.shiftl_mul_pow2.
Qed.

Lemma pgroundup_npg sz : PGROUNDUP sz = npg sz * PGSIZE.
Proof. apply round_land. Qed.
Lemma pgrounddown_div a : PGROUNDDOWN a = a / PGSIZE * PGSIZE.
Proof. apply round_land. Qed.

Lemma npg_bounds sz : sz ≤ npg sz * PGSIZE < sz + PGSIZE.
Proof. rewrite <-pgroundup_npg. by destruct (pgroundup_spec sz). Qed.

Lemma npg_mono a b : a ≤ b → npg a ≤ npg b.
Proof. intros H. apply Z.div_le_mono; [done|lia]. Qed.

Lemma npg_mul v : npg (v * PGSIZE) = v.
Proof. unfold npg. rewrite <-Z.add_sub_assoc, Z.div_add_l by done. rewrite Z.div_small by done. lia. Qed.

Lemma uvpn_val : UVPN * PGSIZE = TRAPFRAME. Proof. done. Qed.
Lemma trapframe_val : TRAPFRAME = 2 ^ 38 - 8192. Proof. done. Qed.
Lemma maxva_val : MAXVA = 2 ^ 38. Proof. done. Qed.

Lemma npg_le sz : 0 ≤ sz ≤ TRAPFRAME → 0 ≤ npg sz ≤ UVPN.
Proof.
  intros H. split; [apply Z.div_pos; [unfold PGSIZE; lia|done]|].
  transitivity (npg TRAPFRAME); [apply npg_mono; lia|by vm_compute].
Qed.

Lemma u64_round sz : 0 ≤ sz ≤ TRAPFRAME → u64 (PGROUNDUP sz) = npg sz * PGSIZE.
Proof.
  intros H. rewrite pgroundup_npg. apply u64_small. pose proof (npg_bounds sz). rewrite trapframe_val in H.
  unfold PGSIZE in *. lia.
Qed.

Lemma lor_range a b : 0 ≤ a < 1024 → 0 ≤ b < 1024 → 0 ≤ Z.lor a b < 1024.
Proof.
  intros Ha Hb. change 1024 with (2 ^ 10). assert (E : Z.lor a b = Z.lor a b mod 2 ^ 10).
  { rewrite <-Z.land_ones, Z.land_lor_distr_l, !Z.land_ones by done. by rewrite !Z.mod_small. }
  rewrite E. by apply Z.mod_pos_bound.
Qed.

Section Space.
Context (kend : Z) (Hend : 0 < kend < PHYSTOP).
Abbreviation ok := (vm_ok kend UVPN).
Abbreviation evolves := (evolves UVPN).
Abbreviation all := (λ _ : Z, True).

(** *** Shrinking *)
Lemma uvmunmap_ok k root g v n (do_free : bool) :
  ok k root g → 0 ≤ v → 0 ≤ n → (v + n) * PGSIZE ≤ MAXVA →
  (∀ w, in_range v n w → is_Some (leaf g !! w) → do_free = bool_decide (w < UVPN)) →
  ∃ k' g', uvmunmap kend root (v * PGSIZE) n do_free k = (Ret (), k') ∧
    ok k' root g' ∧ evolves (λ w, ¬ in_range v n w) k g k' g' ∧ hand g' = hand g ∧
    ∀ w, leaf g' !! w = if decide (in_range v n w) then None else leaf g !! w.
Proof using Hend.
  intros Hok Hv Hn Hmax Hf. unfold uvmunmap. rewrite Z.mod_mul by done. cbn [Z.eqb negb].
  replace (u64 (v * PGSIZE + n * PGSIZE)) with ((v + n) * PGSIZE)
    by (rewrite u64_small; [lia|rewrite maxva_val in Hmax; unfold PGSIZE in *; lia]).
  destruct (uvmunmap_loop_ok kend UVPN Hend (Z.to_nat n) k root g v do_free) as (k' & g' & E & H1 & H2 & H3 & _ & H4);
    rewrite ?Z2Nat.id in * by done; try done. by exists k', g'.
Qed.

Lemma uvmdealloc_ok k root g oldsz newsz :
  ok k root g → 0 ≤ oldsz ≤ TRAPFRAME → 0 ≤ newsz →
  let rm := λ w, npg newsz ≤ w < npg oldsz in
  ∃ k' g', uvmdealloc kend root oldsz newsz k = (Ret (Z.min oldsz newsz), k') ∧
    ok k' root g' ∧ evolves (λ w, ¬ rm w) k g k' g' ∧ hand g' = hand g ∧
    ∀ w, leaf g' !! w = if decide (rm w) then None else leaf g !! w.
Proof using Hend.
  intros Hok Ho Hn rm. unfold uvmdealloc.
  assert (Hsame : npg oldsz ≤ npg newsz → ∃ g', ok k root g' ∧ evolves (λ w, ¬ rm w) k g k g' ∧ hand g' = hand g ∧
    ∀ w, leaf g' !! w = if decide (rm w) then None else leaf g !! w).
  { intros Hle. exists g. split; [done|]. split; [apply evolves_refl|]. split; [done|]. intros w.
    rewrite decide_False; [done|]. unfold rm. lia. }
  destruct (oldsz <=? newsz) eqn:E.
  { apply Z.leb_le in E. destruct (Hsame (npg_mono _ _ E)) as [g' H]. exists k, g'. by rewrite Z.min_l. }
  apply Z.leb_gt in E. rewrite Z.min_r by lia. rewrite !u64_round by lia.
  destruct (npg newsz * PGSIZE <? npg oldsz * PGSIZE) eqn:El.
  - apply Z.ltb_lt in El. pose proof (npg_le oldsz Ho). pose proof (npg_le newsz ltac:(lia)).
    assert (En : u64 (i32 ((npg oldsz * PGSIZE - npg newsz * PGSIZE) / PGSIZE)) = npg oldsz - npg newsz).
    { rewrite <-Z.mul_sub_distr_r, Z.div_mul by done. assert (UVPN < 2 ^ 26) by done. unfold PGSIZE in *.
      unfold i32. rewrite Z.mod_small by lia. rewrite u64_small; lia. }
    rewrite En. destruct (uvmunmap_ok k root g (npg newsz) (npg oldsz - npg newsz) true Hok) as (k' & g' & Er & H1 & H2 & H3 & H4);
      [lia|unfold PGSIZE in *; lia| | |].
    + pose proof uvpn_val. rewrite trapframe_val, maxva_val in *. unfold PGSIZE in *. lia.
    + intros w Hw _. rewrite bool_decide_true; [done|]. unfold in_range in Hw. lia.
    + rewrite (bind_run _ _ _ _ _ Er). exists k', g'. split; [done|]. split; [done|]. split; [|split; [done|]].
      * eapply evolves_mono; [|exact H2]. intros w Hw. unfold in_range, rm in *. lia.
      * intros w. rewrite H4. apply decide_ext. unfold in_range, rm. lia.
  - apply Z.ltb_ge in El. destruct (Hsame ltac:(unfold PGSIZE in *; lia)) as [g' H]. by exists k, g'.
Qed.

(** *** Growing *)
Definition zero_page (k : kmem) (g : ghost) (perm v : Z) : Prop :=
  ∃ p, leaf g !! v = Some (pte_of p perm) ∧ page kend p ∧ ∀ x, in_page p x → phys k x = 0.

(** A page is taken, filled and mapped; if it cannot be, nothing changes for the user. *)
Definition map_fresh (fill : Z → V ()) (root va perm : Z) : V Z :=
  mem ← alloc_page;
  if mem =? 0 then mret 0
  else
    fill mem;;
    r ← mappages root va PGSIZE mem perm;
    if negb (r =? 0) then free_page kend mem;; mret 0 else mret mem.

(** [fill] gives a page the bytes [c] in any memory that agrees with [k] outside the pool. *)
Definition fills (fill : Z → V ()) (k : kmem) (g : ghost) (c : Z → Z) : Prop := ∀ k1 p,
  page kend p → pool g p → (∀ x, (∀ q, pool g q → ¬ in_page q x) → phys k1 x = phys k x) →
  ∃ m, fill p k1 = (Ret (), {| freelist := freelist k1; phys := m |}) ∧
    (∀ x, ¬ in_page p x → m x = phys k1 x) ∧ ∀ x, in_page p x → m x = c (x - p).

Definition map_zero : Z → Z → Z → V Z := map_fresh (λ p, set_bytes p 0).

Lemma fills_zero k g : fills (λ p, set_bytes p 0) k g (λ _, 0).
Proof using Type.
  intros k1 p _ _ _. eexists. split; [reflexivity|]. split; intros x Hx; rewrite memset_page_spec.
  - by rewrite decide_False.
  - by rewrite decide_True.
Qed.

Lemma map_fresh_ok fill c k root g v perm :
  ok k root g → 0 ≤ v < UVPN → leaf g !! v = None → 0 ≤ perm < 1024 → fills fill k g c →
  ∃ p k' g', map_fresh fill root (v * PGSIZE) perm k = (Ret p, k') ∧ ok k' root g' ∧ evolves all k g k' g' ∧
    hand g' = hand g ∧
    (p = 0 ∧ leaf g' = leaf g ∨
     p ≠ 0 ∧ page kend p ∧ leaf g' = <[v := pte_of p perm]> (leaf g) ∧ ∀ x, in_page p x → phys k' x = c (x - p)).
Proof using Hend.
  intros Hok Hv Hn Hperm Hfill. unfold map_fresh. destruct (fr g) as [|p f] eqn:Ef.
  { rewrite (bind_run _ _ _ _ _ (alloc_none _ _ Hend _ _ _ Hok Ef)). exists 0, k, g. split; [done|]. split; [done|].
    split; [apply evolves_refl|]. split; [done|]. by left. }
  destruct (alloc_ok _ _ Hend _ _ _ _ _ Hok Ef) as (k1 & E1 & Hok1 & Hev1 & Hp & _). rewrite (bind_run _ _ _ _ _ E1).
  rewrite (proj2 (Z.eqb_neq p 0)) by done. set (g1 := set_pages f (p :: hand g) g) in *.
  assert (Hpg : page kend p) by (eapply fr_page; [exact Hok|rewrite Ef; by left]).
  assert (Hin : p ∈ hand g1) by by left. assert (Ho : own g1 !! p = None).
  { apply (v_apart _ _ _ _ _ Hok1), elem_of_app. by left. }
  destruct (Hfill k1 p Hpg) as (m & E2 & Hm1 & Hm2);
    [right; apply elem_of_app; right; rewrite Ef; by left|apply (ev_frame _ _ _ _ _ _ Hev1)|].
  rewrite (bind_run _ _ _ _ _ E2). set (k2 := {| freelist := freelist k1; phys := m |}) in *.
  destruct (touch_ok _ _ k1 root g1 p m Hok1 (or_introl Hin) Hm1) as [Hok2 Hev2]. fold k2 in Hok2, Hev2.
  assert (Hev2' : evolves all k1 g1 k2 g1) by (eapply evolves_mono; [|exact Hev2]; intros w _; cbv beta; by rewrite Ho). clear Hev2.
  assert (Ev : vkey 0 (v * PGSIZE) = v) by (apply va_page; lia).
  destruct (mappages_page kend UVPN Hend k2 root _ (v * PGSIZE) p perm (hand g) Hok2) as (r & k3 & g3 & E3 & Hok3 & Hev3 & Hk3 & Hr).
  - pose proof uvpn_val. rewrite trapframe_val, maxva_val in *. unfold PGSIZE in *. lia.
  - by apply Z.mod_mul.
  - by rewrite Ev.
  - done.
  - by apply (page_aligned kend Hend).
  - rewrite Ev. lia.
  - unfold mapped. rewrite Ev, decide_True by lia. done.
  - rewrite (bind_run _ _ _ _ _ E3). rewrite Ev in Hr. destruct Hr as [(-> & Hl & Hh & _)|(-> & Hl & Hh)]; cbn [Z.eqb negb].
    + destruct (free_ok _ _ Hend _ _ _ p (hand g) Hok3 Hh) as (k4 & E4 & Hok4 & Hev4 & _). rewrite (bind_run _ _ _ _ _ E4).
      eexists 0, k4, _. split; [done|]. split; [exact Hok4|]. split; [|split; [done|left; split; [done|exact Hl]]].
      eapply evolves_trans; [exact Hev1|]. eapply evolves_trans; [exact Hev2'|]. by eapply evolves_trans.
    + exists p, k3, g3. split; [done|]. split; [done|]. split; [|split; [done|right]].
      * eapply evolves_trans; [exact Hev1|]. by eapply evolves_trans.
      * split; [done|]. split; [done|]. split; [done|]. intros x Hx. rewrite (Hk3 p x); [by apply Hm2|done|done].
Qed.

Lemma map_zero_ok k root g v perm :
  ok k root g → 0 ≤ v < UVPN → leaf g !! v = None → 0 ≤ perm < 1024 →
  ∃ p k' g', map_zero root (v * PGSIZE) perm k = (Ret p, k') ∧ ok k' root g' ∧ evolves all k g k' g' ∧ hand g' = hand g ∧
    (p = 0 ∧ leaf g' = leaf g ∨
     p ≠ 0 ∧ page kend p ∧ leaf g' = <[v := pte_of p perm]> (leaf g) ∧ ∀ x, in_page p x → phys k' x = 0).
Proof using Hend. intros Hok Hv Hn Hperm. by apply (map_fresh_ok _ (λ _, 0)); [..|apply fills_zero]. Qed.

(** The code's turn, with [map_fresh]. *)
Lemma map_fresh_turn {A} (fill : Z → V ()) root va perm (fail : V A) (next : Z → V A) k :
  (mem ← alloc_page;
   if mem =? 0 then fail
   else
     fill mem;;
     r ← mappages root va PGSIZE mem perm;
     if negb (r =? 0) then free_page kend mem;; fail else next mem) k
  = (p ← map_fresh fill root va perm; if p =? 0 then fail else next p) k.
Proof using Type.
  unfold map_fresh, mbind, M_bind. destruct (alloc_page k) as [[p|e|] k1]; [|done..].
  destruct (p =? 0) eqn:Ep; [by cbn|]. destruct (fill p k1) as [[[]|e|] k2]; [|done..].
  destruct (mappages root va PGSIZE p perm k2) as [[r|e|] k3]; [|done..]. destruct (r =? 0); cbn [negb].
  - cbn. by rewrite Ep.
  - by destruct (free_page kend p k3) as [[[]|e|] k4].
Qed.

Lemma uvmalloc_loop_ok n root v0 newsz xperm k g v :
  ok k root g → 0 ≤ v0 ≤ v → 0 ≤ newsz ≤ TRAPFRAME → 0 ≤ xperm < 1024 → (Z.to_nat (npg newsz - v) ≤ n)%nat →
  v = v0 ∨ v ≤ npg newsz → (∀ w, v ≤ w < npg newsz → leaf g !! w = None) →
  let perm := Z.lor (Z.lor PTE_R PTE_U) xperm in
  ∃ r k' g', uvmalloc_loop kend n root (v0 * PGSIZE) (v * PGSIZE) newsz xperm k = (Ret r, k') ∧
    ok k' root g' ∧ hand g' = hand g ∧
    (r = newsz ∧ evolves all k g k' g' ∧
       (∀ w, ¬ v ≤ w < npg newsz → leaf g' !! w = leaf g !! w) ∧
       (∀ w, v ≤ w < npg newsz → zero_page k' g' perm w) ∨
     r = 0 ∧ evolves (λ w, ¬ v0 ≤ w < v) k g k' g' ∧
       (∀ w, leaf g' !! w = if decide (v0 ≤ w < v) then None else leaf g !! w)).
Proof using Hend.
  intros Hok Hv Hsz Hx. revert k g v Hok Hv. induction n as [|n IH]; intros k g v Hok Hv Hn Hle Hfree perm;
    cbn [uvmalloc_loop]; pose proof (npg_bounds newsz) as Hb;
    (destruct (v * PGSIZE <? newsz) eqn:El; [apply Z.ltb_lt in El|apply Z.ltb_ge in El]).
  1: unfold PGSIZE in *; lia.
  1,3: exists newsz, k, g; split; [done|]; split; [done|]; split; [done|]; left; split; [done|];
    split; [apply evolves_refl|]; split; [done|]; intros w Hw; unfold PGSIZE in *; lia.
  assert (Hlt : v < npg newsz) by (unfold PGSIZE in *; lia). pose proof (npg_le newsz Hsz) as Hm.
  rewrite (map_fresh_turn (λ p, set_bytes p 0) root (v * PGSIZE) perm). fold map_zero.
  destruct (map_zero_ok k root g v perm) as (p & k1 & g1 & E1 & Hok1 & Hev1 & Hh1 & Hp); [done|lia|apply Hfree; lia| |].
  { apply lor_range; [by vm_compute|done]. }
  rewrite (bind_run _ _ _ _ _ E1). destruct Hp as [[-> Hl1]|(Hp & Hpg & Hl1 & Hz)].
  - cbn [Z.eqb]. destruct (uvmdealloc_ok k1 root g1 (v * PGSIZE) (v0 * PGSIZE) Hok1) as (k2 & g2 & E2 & Hok2 & Hev2 & Hh2 & Hl2).
    { pose proof uvpn_val. unfold PGSIZE in *. lia. }
    { unfold PGSIZE. lia. }
    rewrite (bind_run _ _ _ _ _ E2). rewrite !npg_mul in *. exists 0, k2, g2. split; [done|]. split; [done|].
    split; [congruence|]. right. split; [done|]. split.
    + eapply evolves_trans; [|exact Hev2]. eapply evolves_mono; [|exact Hev1]. done.
    + intros w. by rewrite Hl2, Hl1.
  - rewrite (proj2 (Z.eqb_neq p 0)) by done.
    replace (u64 (v * PGSIZE + PGSIZE)) with ((v + 1) * PGSIZE).
    2: { rewrite u64_small; [lia|]. pose proof uvpn_val. rewrite trapframe_val in *. unfold PGSIZE in *. lia. }
    destruct (IH k1 g1 (v + 1) Hok1) as (r & k2 & g2 & E2 & Hok2 & Hh2 & Hr); [lia|lia|lia| |].
    { intros w Hw. rewrite Hl1, lookup_insert_ne by lia. apply Hfree. lia. }
    rewrite E2. exists r, k2, g2. split; [done|]. split; [done|]. split; [congruence|].
    destruct Hr as [(-> & Hev2 & Hl2 & Hz2)|(-> & Hev2 & Hl2)].
    + left. split; [done|]. split; [by eapply evolves_trans|]. split.
      * intros w Hw. rewrite Hl2 by lia. rewrite Hl1, lookup_insert_ne by lia. done.
      * intros w Hw. destruct (decide (w = v)) as [->|Hne]; [|apply Hz2; lia].
        destruct (ev_keep _ _ _ _ _ _ Hev2 v (pte_of p perm) I) as [Hlv Hpv]; [by rewrite Hl1, lookup_insert_eq|].
        exists p. split; [done|]. split; [done|]. intros x Hxp. rewrite <-(Hz x Hxp). apply Hpv; [lia|].
        rewrite pte_pa; [done|by apply (page_aligned kend Hend)|]. apply lor_range; [by vm_compute|done].
    + right. split; [done|]. split.
      * eapply evolves_seq; [exact Hev1|exact Hev2|]. intros w Hw Hs. split; [done|]. cbn.
        destruct (decide (w = v)) as [->|Hne]; [|lia]. rewrite Hfree in Hs by lia. by destruct Hs.
      * intros w. rewrite Hl2, Hl1. destruct (decide (w = v)) as [->|Hne].
        -- rewrite lookup_insert_eq, decide_True by lia. rewrite Hfree by lia. by case_decide.
        -- rewrite lookup_insert_ne by done. apply decide_ext. lia.
Qed.

Lemma uvmalloc_ok k root g oldsz newsz xperm :
  ok k root g → 0 ≤ oldsz ≤ newsz → newsz ≤ TRAPFRAME → 0 ≤ xperm < 1024 →
  (∀ w, npg oldsz ≤ w < npg newsz → leaf g !! w = None) →
  let perm := Z.lor (Z.lor PTE_R PTE_U) xperm in
  ∃ r k' g', uvmalloc kend root oldsz newsz xperm k = (Ret r, k') ∧ ok k' root g' ∧ hand g' = hand g ∧
    evolves all k g k' g' ∧
    (r = newsz ∧ (∀ w, ¬ npg oldsz ≤ w < npg newsz → leaf g' !! w = leaf g !! w) ∧
       (∀ w, npg oldsz ≤ w < npg newsz → zero_page k' g' perm w) ∨
     r = 0 ∧ leaf g' = leaf g).
Proof using Hend.
  intros Hok Ho Hn Hx Hfree perm. unfold uvmalloc. rewrite (proj2 (Z.ltb_ge _ _)) by lia. rewrite u64_round by lia.
  pose proof (npg_mono oldsz newsz ltac:(lia)) as Hm. pose proof (npg_le oldsz ltac:(lia)) as Hl.
  destruct (uvmalloc_loop_ok (Z.to_nat ((newsz - npg oldsz * PGSIZE) / PGSIZE + 1)) root (npg oldsz) newsz xperm k g (npg oldsz) Hok)
    as (r & k' & g' & E & Hok' & Hh & H); [lia|lia|done| |by left|done|].
  { replace (newsz - npg oldsz * PGSIZE) with (newsz + - npg oldsz * PGSIZE) by lia. rewrite Z.div_add by done.
    assert (H1 : npg newsz ≤ (newsz + 1 * PGSIZE) / PGSIZE) by (apply Z.div_le_mono; [done|unfold PGSIZE; lia]).
    rewrite Z.div_add in H1 by done. lia. }
  exists r, k', g'. split; [exact E|]. split; [done|]. split; [done|].
  destruct H as [(-> & Hev & H1 & H2)|(-> & Hev & H1)].
  - split; [done|]. by left.
  - split; [eapply evolves_mono; [|exact Hev]; cbn; lia|]. right. split; [done|]. apply map_eq. intros w. rewrite H1.
    rewrite decide_False by lia. done.
Qed.
End Space.
