(* ===== verification/VmCopy.v ===== *)
(** * Copies between the kernel and the user

    A process sees its memory as a function from addresses to bytes ([umem]), in
    which a page that was never touched reads as zeros: bringing a page in does
    not change it.  [copyout] writes this memory, [copyin] reads it. *)

From stdpp Require Import gmap.
From S2P Require Export VmSpace.

#[local] Set Warnings "-clear-no-such-hyp".
#[local] Set Default Proof Using "Type".
Local Open Scope Z_scope.

Definition umem (k : kmem) (g : ghost) (va : Z) : Z :=
  if decide (va < TRAPFRAME) then
    match leaf g !! (va / PGSIZE) with
    | Some e => phys k (PTE2PA e + va mod PGSIZE)
    | None => 0
    end
  else 0.

(** The bytes [bs] written at [a]. *)
Definition write (a : Z) (bs : list Z) (f : Z → Z) : Z → Z := λ x,
  if decide (a ≤ x < a + Z.of_nat (length bs)) then default (f x) (bs !! Z.to_nat (x - a)) else f x.

(** [n] bytes from [a]. *)
Definition read (a : Z) (n : nat) (f : Z → Z) : list Z := (λ i, f (a + Z.of_nat i)) <$> seq 0 n.

Lemma write_nil a f x : write a [] f x = f x.
Proof. unfold write. by case_decide. Qed.

Lemma write_app a b1 b2 f x : write a (b1 ++ b2) f x = write (a + Z.of_nat (length b1)) b2 (write a b1 f) x.
Proof.
  unfold write. rewrite length_app. destruct (decide (a ≤ x < a + Z.of_nat (length b1))) as [H1|H1].
  - rewrite decide_True, decide_False by lia. by rewrite lookup_app_l by lia.
  - case_decide as H2.
    + rewrite decide_True by lia. rewrite lookup_app_r by lia. do 2 f_equal. lia.
    + by rewrite decide_False by lia.
Qed.

Lemma write_out a bs f x : ¬ (a ≤ x < a + Z.of_nat (length bs)) → write a bs f x = f x.
Proof. intros H. unfold write. by rewrite decide_False by done. Qed.

Lemma write_shift a b bs f f' x y : x - a = y - b → f x = f' y → write a bs f x = write b bs f' y.
Proof.
  intros E H. unfold write. rewrite H. destruct (decide (a ≤ x < a + Z.of_nat (length bs))).
  - rewrite decide_True by lia. by rewrite E.
  - by rewrite decide_False by lia.
Qed.

Lemma write_ext a bs f f' x : f x = f' x → write a bs f x = write a bs f' x.
Proof. intros H. unfold write. by rewrite H. Qed.

Lemma read_app a n m f : read a (n + m) f = read a n f ++ read (a + Z.of_nat n) m f.
Proof.
  unfold read. rewrite seq_app, fmap_app. f_equal. replace (0 + n)%nat with (n + 0)%nat by lia. rewrite <-(fmap_add_seq n 0 m), <-list_fmap_compose.
  apply list_fmap_ext. intros i x _. unfold compose. f_equal. lia.
Qed.

Section Copy.
Context (kend : Z) (Hend : 0 < kend < PHYSTOP).
Abbreviation ok := (vm_ok kend UVPN).
Abbreviation evolves := (evolves UVPN).
Abbreviation all := (λ _ : Z, True).

Definition same_umem (k : kmem) (g : ghost) (k' : kmem) (g' : ghost) : Prop :=
  ∀ va, umem k' g' va = umem k g va.

(** Pages below [psz] may have been brought in. *)
Record faulted (psz : Z) (k : kmem) (g : ghost) (k' : kmem) (g' : ghost) : Prop := {
  fl_evolves : evolves all k g k' g';
  fl_new v : leaf g !! v = None → leaf g' !! v = None ∨ v * PGSIZE < psz ∧ ∃ perm, 0 ≤ perm < 1024 ∧ zero_page kend k' g' perm v
}.

Lemma page_div va v : v * PGSIZE ≤ va < v * PGSIZE + PGSIZE → va / PGSIZE = v ∧ va mod PGSIZE = va - v * PGSIZE.
Proof using Type.
  intros H. pose proof (Z.div_mod va PGSIZE ltac:(done)). pose proof (Z.mod_pos_bound va PGSIZE ltac:(done)).
  unfold PGSIZE in *. lia.
Qed.

Lemma va_uvpn va : va < TRAPFRAME → va / PGSIZE < UVPN.
Proof using Type. intros H. apply Z.div_lt_upper_bound; [done|]. rewrite Z.mul_comm, uvpn_val. done. Qed.

Lemma mod_in_page p va : in_page p (p + va mod PGSIZE).
Proof using Type. pose proof (Z.mod_pos_bound va PGSIZE ltac:(done)). unfold in_page. lia. Qed.

Lemma faulted_umem psz k g k' g' : faulted psz k g k' g' → same_umem k g k' g'.
Proof using Hend.
  intros [Hev Hnew] va. unfold umem. case_decide as Hva; [|done]. pose proof (va_uvpn va Hva) as Hv.
  destruct (leaf g !! (va / PGSIZE)) as [e|] eqn:E.
  - destruct (ev_keep _ _ _ _ _ _ Hev _ _ I E) as [-> H]. apply (H Hv). apply mod_in_page.
  - destruct (Hnew _ E) as [->|(_ & perm & Hperm & p & -> & Hp & Hz)]; [done|].
    rewrite pte_pa by (try done; by apply (page_aligned kend Hend)). apply Hz, mod_in_page.
Qed.

Lemma ismapped_ok k root g v :
  ok k root g → 0 ≤ v < UVPN → ismapped root (v * PGSIZE) k = (Ret (bool_decide (is_Some (leaf g !! v))), k).
Proof using Hend.
  intros Hok Hv. unfold ismapped. pose proof (v_tables _ _ _ _ _ Hok) as Ht. pose proof uvpn_val.
  rewrite (bind_run _ _ _ _ _ (walk_get _ _ Hend _ _ _ (v * PGSIZE) Ht ltac:(rewrite trapframe_val, maxva_val in *; unfold PGSIZE in *; lia))).
  destruct (slot g (v * PGSIZE) =? 0) eqn:Es.
  - apply Z.eqb_eq in Es. rewrite bool_decide_false; [done|]. intros [e He].
    apply (slot_leaf _ _ Hend (phys k) root g (v * PGSIZE) e Ht); [by rewrite va_page by lia|done].
  - apply Z.eqb_neq in Es.
    assert (Er : get64 (slot g (v * PGSIZE)) k = (Ret (default 0 (leaf g !! v)), k)).
    { unfold get64, gets. by rewrite (slot_read _ _ Hend _ _ _ _ Ht Es), va_page by lia. }
    rewrite (bind_run _ _ _ _ _ Er). by rewrite (leaf_valid _ _ _ _ _ _ Ht).
Qed.

(** The user page at [v], 0 if there is none. *)
Definition user_pa (g : ghost) (v : Z) : Z :=
  match leaf g !! v with Some e => if Z.testbit e 4 then PTE2PA e else 0 | None => 0 end.

Lemma walkaddr_ok k root g v :
  ok k root g → 0 ≤ v → v * PGSIZE < MAXVA → walkaddr root (v * PGSIZE) k = (Ret (user_pa g v), k).
Proof using Hend.
  intros Hok Hv Hm. unfold walkaddr, user_pa. pose proof (v_tables _ _ _ _ _ Hok) as Ht.
  rewrite (proj2 (Z.leb_gt _ _)) by lia.
  rewrite (bind_run _ _ _ _ _ (walk_get _ _ Hend _ _ _ (v * PGSIZE) Ht ltac:(unfold PGSIZE in *; lia))).
  destruct (slot g (v * PGSIZE) =? 0) eqn:Es.
  - apply Z.eqb_eq in Es. destruct (leaf g !! v) as [e|] eqn:E; [exfalso|done].
    apply (slot_leaf _ _ Hend (phys k) root g (v * PGSIZE) e Ht); [by rewrite va_page by lia|done].
  - apply Z.eqb_neq in Es.
    assert (Er : get64 (slot g (v * PGSIZE)) k = (Ret (default 0 (leaf g !! v)), k)).
    { unfold get64, gets. by rewrite (slot_read _ _ Hend _ _ _ _ Ht Es), va_page by lia. }
    rewrite (bind_run _ _ _ _ _ Er). rewrite (leaf_valid _ _ _ _ _ _ Ht). change PTE_U with (2 ^ 4). rewrite has_bit by done.
    destruct (leaf g !! v) as [e|]; [|done]. rewrite bool_decide_true by done. cbn [negb default from_option id].
    by destruct (Z.testbit e 4).
Qed.

Lemma vmfault_ok k root g psz va :
  ok k root g → 0 ≤ va → psz ≤ TRAPFRAME →
  ∃ p k' g', vmfault kend root psz va k = (Ret p, k') ∧ ok k' root g' ∧ hand g' = hand g ∧ faulted psz k g k' g' ∧
    (p = 0 ∧ leaf g' = leaf g ∨
     p ≠ 0 ∧ leaf g !! (va / PGSIZE) = None ∧
       leaf g' = <[va / PGSIZE := pte_of p (Z.lor (Z.lor PTE_W PTE_U) PTE_R)]> (leaf g) ∧ page kend p).
Proof using Hend.
  intros Hok Hva Hpsz. unfold vmfault.
  assert (H0 : ∃ p k' g', (Ret (E:=string) 0, k) = (Ret p, k') ∧ ok k' root g' ∧ hand g' = hand g ∧ faulted psz k g k' g' ∧
    (p = 0 ∧ leaf g' = leaf g ∨ p ≠ 0 ∧ leaf g !! (va / PGSIZE) = None ∧
       leaf g' = <[va / PGSIZE := pte_of p (Z.lor (Z.lor PTE_W PTE_U) PTE_R)]> (leaf g) ∧ page kend p)).
  { exists 0, k, g. split; [done|]. split; [done|]. split; [done|]. split; [|by left]. split; [apply evolves_refl|by left]. }
  destruct (psz <=? va) eqn:E; [exact H0|]. apply Z.leb_gt in E. rewrite pgrounddown_div.
  set (v := va / PGSIZE) in *. assert (Hv : 0 ≤ v < UVPN) by (split; [by apply Z.div_pos|apply va_uvpn; lia]).
  rewrite (bind_run _ _ _ _ _ (ismapped_ok k root g v Hok Hv)). destruct (leaf g !! v) as [e|] eqn:El; [by rewrite bool_decide_true by done|].
  rewrite bool_decide_false by (by intros [? ?]). clear H0.
  rewrite (map_fresh_turn kend (λ p, set_bytes p 0) root (v * PGSIZE) (Z.lor (Z.lor PTE_W PTE_U) PTE_R) (mret 0) mret). fold (map_zero kend).
  destruct (map_zero_ok kend Hend k root g v (Z.lor (Z.lor PTE_W PTE_U) PTE_R) Hok Hv El ltac:(by vm_compute))
    as (p & k1 & g1 & E1 & Hok1 & Hev1 & Hh1 & Hp). rewrite (bind_run _ _ _ _ _ E1).
  destruct Hp as [[-> Hl]|(Hp & Hpg & Hl & Hz)].
  - exists 0, k1, g1. split; [done|]. split; [done|]. split; [done|]. split; [|by left]. split; [done|]. rewrite Hl. by left.
  - rewrite (proj2 (Z.eqb_neq p 0)) by done. exists p, k1, g1. split; [done|]. split; [done|]. split; [done|]. split; [|by right].
    split; [done|]. intros w Hw. destruct (decide (w = v)) as [->|Hne]; [right|left; by rewrite Hl, lookup_insert_ne].
    split; [pose proof (Z.mul_div_le va PGSIZE ltac:(done)); lia|]. eexists. split; [|exists p; split; [by rewrite Hl, lookup_insert_eq|done]]. by vm_compute.
Qed.

Lemma faulted_refl psz k g : faulted psz k g k g.
Proof using Type. split; [apply evolves_refl|by left]. Qed.

Lemma faulted_trans psz k1 g1 k2 g2 k3 g3 :
  faulted psz k1 g1 k2 g2 → faulted psz k2 g2 k3 g3 → (∀ v, is_Some (leaf g2 !! v) → leaf g1 !! v = None → v < UVPN) →
  faulted psz k1 g1 k3 g3.
Proof using Hend.
  intros [A1 A2] [B1 B2] Hu. split; [by eapply evolves_trans|]. intros v Hv.
  destruct (A2 v Hv) as [H|(Hlt & perm & Hperm & p & Hl & Hp & Hz)]; [by apply B2|].
  right. split; [done|]. exists perm. split; [done|].
  destruct (ev_keep _ _ _ _ _ _ B1 v _ I Hl) as [Hl' Hm]. exists p. split; [done|]. split; [done|]. intros x Hx.
  rewrite <-(Hz x Hx). apply Hm; [by apply Hu; [rewrite Hl|]|].
  by rewrite pte_pa by (try done; by apply (page_aligned kend Hend)).
Qed.

Lemma faulted_low psz k g k' g' v : psz ≤ TRAPFRAME → faulted psz k g k' g' → is_Some (leaf g' !! v) → leaf g !! v = None → v < UVPN.
Proof using Type.
  intros Hp [_ H] Hs Hn. destruct (H v Hn) as [E|[Hlt _]]; [rewrite E in Hs; by destruct Hs|].
  rewrite <-uvpn_val in Hp. unfold PGSIZE in *. lia.
Qed.

Lemma user_pa_page k root g v : ok k root g → user_pa g v ≠ 0 →
  ∃ e, leaf g !! v = Some e ∧ PTE2PA e = user_pa g v ∧ v < UVPN ∧ own g !! user_pa g v = Some (User v) ∧ page kend (user_pa g v).
Proof using Type.
  unfold user_pa. intros Hok. destruct (leaf g !! v) as [e|] eqn:E; [|done]. destruct (Z.testbit e 4) eqn:E4; [|done]. intros _.
  exists e. split; [done|]. split; [done|]. destruct (t_leaf _ _ _ _ _ (v_tables _ _ _ _ _ Hok) _ _ E) as (_ & _ & H).
  specialize (H E4). split; [done|]. by eapply leaf_page.
Qed.

Lemma user_page_ok k root g psz v :
  ok k root g → 0 ≤ v → psz ≤ TRAPFRAME →
  ∃ k' g', user_page kend root psz (v * PGSIZE) k = (Ret (user_pa g' v), k') ∧ ok k' root g' ∧ hand g' = hand g ∧
    faulted psz k g k' g' ∧ (user_pa g v ≠ 0 → k' = k ∧ g' = g).
Proof using Hend.
  intros Hok Hv Hpsz. unfold user_page. pose proof uvpn_val as Hu. rewrite trapframe_val in Hu.
  assert (Hw : walkaddr root (v * PGSIZE) k = (Ret (user_pa g v), k)).
  { destruct (decide (v * PGSIZE < MAXVA)) as [Hm|Hm]; [by apply walkaddr_ok|].
    unfold walkaddr. rewrite (proj2 (Z.leb_le _ _)) by lia. replace (user_pa g v) with 0; [done|]. symmetry.
    destruct (decide (user_pa g v = 0)) as [|Hne]; [done|]. destruct (user_pa_page _ _ _ _ Hok Hne) as (_ & _ & _ & Hlt & _).
    rewrite maxva_val in Hm. unfold PGSIZE in *. lia. }
  rewrite (bind_run _ _ _ _ _ Hw). destruct (user_pa g v =? 0) eqn:E.
  - apply Z.eqb_eq in E. destruct (vmfault_ok k root g psz (v * PGSIZE) Hok) as (p & k' & g' & E' & Hok' & Hh & Hf & Hp);
      [unfold PGSIZE; lia|done|]. rewrite Z.div_mul in Hp by done. exists k', g'. rewrite E'.
    split; [|split; [done|split; [done|split; [done|by rewrite E]]]]. do 2 f_equal.
    destruct Hp as [[-> Hl]|(Hp & Hn & Hl & Hpg)]; unfold user_pa in *.
    + by rewrite Hl.
    + rewrite Hl, lookup_insert_eq. rewrite pte_bit by done. cbn [orb].
      rewrite pte_pa; [done|by apply (page_aligned kend Hend)|by vm_compute].
  - apply Z.eqb_neq in E. exists k, g. split; [done|]. split; [done|]. split; [done|]. split; [apply faulted_refl|done].
Qed.

(** The bytes of a page of the user. *)
Lemma umem_page k root g v va :
  ok k root g → user_pa g v ≠ 0 → v * PGSIZE ≤ va < v * PGSIZE + PGSIZE → umem k g va = phys k (user_pa g v + (va - v * PGSIZE)).
Proof using Type.
  intros Hok Hv Hva. destruct (user_pa_page _ _ _ _ Hok Hv) as (e & He & Ep & Hlt & _). destruct (page_div va v Hva) as [E1 E2].
  unfold umem. rewrite decide_True by (rewrite <-uvpn_val; unfold PGSIZE in *; lia). by rewrite E1, He, E2, Ep.
Qed.

(** [r] pages at most hold [len] bytes from [va]. *)
Definition fits (r : nat) (va : Z) (len : nat) : Prop := len = 0%nat ∨ Z.of_nat len + va mod PGSIZE ≤ Z.of_nat r * PGSIZE.

Lemma fits_next r va len v :
  0 ≤ va → v = va / PGSIZE → fits (S r) va len →
  let n := Nat.min (Z.to_nat (PGSIZE - (va - v * PGSIZE))) len in
  fits r ((v + 1) * PGSIZE) (len - n) ∧ va + Z.of_nat n ≤ (v + 1) * PGSIZE ∧ (n = len ∨ va + Z.of_nat n = (v + 1) * PGSIZE) ∧
  v * PGSIZE ≤ va < v * PGSIZE + PGSIZE ∧ (0 < len → 0 < n)%nat.
Proof using Type.
  intros Hva -> Hf n. pose proof (Z.div_mod va PGSIZE ltac:(done)). pose proof (Z.mod_pos_bound va PGSIZE ltac:(done)).
  unfold fits in *. rewrite Z.mod_mul by done. unfold n, PGSIZE in *. lia.
Qed.

Lemma fits_enough va len : fits (Z.to_nat (Z.of_nat len / PGSIZE + 2)) va len.
Proof using Type.
  right. pose proof (Z.div_mod (Z.of_nat len) PGSIZE ltac:(done)). pose proof (Z.mod_pos_bound (Z.of_nat len) PGSIZE ltac:(done)).
  pose proof (Z.mod_pos_bound va PGSIZE ltac:(done)). unfold PGSIZE in *. lia.
Qed.

Definition pages_of (va : Z) (len : nat) (v : Z) : Prop :=
  (0 < len)%nat ∧ va / PGSIZE ≤ v ∧ v * PGSIZE < va + Z.of_nat len.

Lemma copyin_loop_ok root psz fuel : ∀ k g srcva len,
  ok k root g → 0 ≤ srcva → psz ≤ TRAPFRAME → fits fuel srcva len →
  ∃ r bs k' g', copyin_loop kend fuel root psz srcva len k = (Ret (r, bs), k') ∧ ok k' root g' ∧ hand g' = hand g ∧
    faulted psz k g k' g' ∧
    (r = 0 ∧ bs = read srcva len (umem k g) ∨
     r = -1 ∧ (∃ n, (n < len)%nat ∧ bs = read srcva n (umem k g)) ∧ ∃ v, pages_of srcva len v ∧ user_pa g v = 0).
Proof using Hend.
  induction fuel as [|fuel IH]; intros k g srcva len Hok Hva Hpsz Hf; cbn [copyin_loop].
  all: destruct len as [|len']; [exists 0, [], k, g; split; [done|]; split; [done|]; split; [done|];
    split; [apply faulted_refl|by left]|].
  { exfalso. destruct Hf as [?|Hf]; [done|]. pose proof (Z.mod_pos_bound srcva PGSIZE ltac:(done)). lia. }
  set (len := S len') in *. rewrite pgrounddown_div. set (v := srcva / PGSIZE) in *.
  destruct (fits_next fuel srcva len v Hva eq_refl Hf) as (Hf' & Hn1 & Hn2 & Hin & Hn0).
  set (n := Nat.min (Z.to_nat (PGSIZE - (srcva - v * PGSIZE))) len) in *.
  assert (Hv : 0 ≤ v) by by apply Z.div_pos.
  assert (Hself : pages_of srcva len v) by (unfold pages_of; fold v; unfold len; lia).
  destruct (user_page_ok k root g psz v Hok Hv Hpsz) as (k1 & g1 & E1 & Hok1 & Hh1 & Hf1 & Hsame). rewrite (bind_run _ _ _ _ _ E1).
  destruct (user_pa g1 v =? 0) eqn:Ep.
  { apply Z.eqb_eq in Ep. exists (-1), [], k1, g1. split; [done|]. split; [done|]. split; [done|]. split; [done|]. right. split; [done|].
    split; [exists 0%nat; split; [unfold len; lia|done]|]. exists v. split; [done|].
    destruct (decide (user_pa g v = 0)) as [|Hne]; [done|]. destruct (Hsame Hne) as [_ ->]. done. }
  apply Z.eqb_neq in Ep. destruct (user_pa_page _ _ _ _ Hok1 Ep) as (e & He & _ & Hvu & _).
  assert (Hb : (λ i, phys k1 (user_pa g1 v + (srcva - v * PGSIZE) + Z.of_nat i)) <$> seq 0 n = read srcva n (umem k g)).
  { unfold read. apply list_fmap_ext. intros i x Hi. apply lookup_seq in Hi as [-> Hi].
    rewrite <-(faulted_umem _ _ _ _ _ Hf1). rewrite (umem_page k1 root g1 v _ Hok1 Ep) by lia. f_equal. lia. }
  unfold load_bytes, mbind at 1, M_bind at 1, gets at 1. cbn [fst snd]. rewrite Hb.
  replace (u64 (v * PGSIZE + PGSIZE)) with ((v + 1) * PGSIZE).
  2: { rewrite u64_small; [lia|]. pose proof uvpn_val as Hu. rewrite trapframe_val in Hu. unfold PGSIZE in *. lia. }
  destruct (IH k1 g1 ((v + 1) * PGSIZE) (len - n)%nat Hok1) as (r & bs & k2 & g2 & E2 & Hok2 & Hh2 & Hf2 & Hr);
    [unfold PGSIZE; lia|done|done|]. rewrite (bind_run _ _ _ _ _ E2).
  exists r, (read srcva n (umem k g) ++ bs), k2, g2. split; [done|]. split; [done|]. split; [congruence|].
  split; [eapply faulted_trans; [exact Hf1|exact Hf2|]; intros w; by eapply faulted_low|].
  assert (Hrd : ∀ m, (m ≤ len - n)%nat → read srcva n (umem k g) ++ read ((v + 1) * PGSIZE) m (umem k1 g1) = read srcva (n + m) (umem k g)).
  { intros m Hm. rewrite read_app. f_equal. unfold read. apply list_fmap_ext. intros i x Hi. apply lookup_seq in Hi as [-> Hi].
    destruct Hn2 as [Hn2|Hn2]; [lia|]. rewrite <-Hn2. apply (faulted_umem _ _ _ _ _ Hf1). }
  destruct Hr as [[-> ->]|(-> & (m & Hm & ->) & w & Hw & Hwp)].
  - left. split; [done|]. rewrite Hrd by lia. f_equal. lia.
  - right. split; [done|]. split; [exists (n + m)%nat; split; [lia|]; apply Hrd; lia|]. exists w. split.
    + destruct Hw as (Hw0 & Hw1 & Hw2). rewrite Z.div_mul in Hw1 by done. destruct Hn2 as [Hn2|Hn2]; [lia|]. unfold pages_of. fold v. lia.
    + unfold user_pa in *. destruct (leaf g !! w) as [e'|] eqn:El; [|done].
      destruct (ev_keep _ _ _ _ _ _ (fl_evolves _ _ _ _ _ Hf1) w e' I El) as [El' _]. by rewrite El' in Hwp.
Qed.

Lemma copyin_ok root psz k g srcva len :
  ok k root g → 0 ≤ srcva → psz ≤ TRAPFRAME →
  ∃ r bs k' g', copyin kend root psz srcva len k = (Ret (r, bs), k') ∧ ok k' root g' ∧ hand g' = hand g ∧
    faulted psz k g k' g' ∧
    (r = 0 ∧ bs = read srcva len (umem k g) ∨
     r = -1 ∧ (∃ n, (n < len)%nat ∧ bs = read srcva n (umem k g)) ∧ ∃ v, pages_of srcva len v ∧ user_pa g v = 0).
Proof using Hend. intros Hok Hva Hpsz. apply copyin_loop_ok; [done|done|done|apply fits_enough]. Qed.

(** ** Writing *)

(** What a copy to the user does beside changing its memory: it may bring pages in. *)
Record stored (psz : Z) (k : kmem) (g : ghost) (k' : kmem) (g' : ghost) : Prop := {
  st_evolves : evolves (λ v, UVPN ≤ v) k g k' g';
  st_keep v e : leaf g !! v = Some e → leaf g' !! v = Some e;
  st_new v : leaf g !! v = None → leaf g' !! v = None ∨ v * PGSIZE < psz
}.

Lemma stored_trans psz k1 g1 k2 g2 k3 g3 : stored psz k1 g1 k2 g2 → stored psz k2 g2 k3 g3 → stored psz k1 g1 k3 g3.
Proof using Type.
  intros [A1 A2 A3] [B1 B2 B3]. split; [by eapply evolves_trans|by eauto|]. intros v Hv. destruct (A3 v Hv); [by apply B3|by right].
Qed.

Lemma faulted_stored psz k g k' g' : faulted psz k g k' g' → stored psz k g k' g'.
Proof using Type.
  intros [A1 A2]. split; [by eapply evolves_mono; [|exact A1]| |].
  - intros v e He. by destruct (ev_keep _ _ _ _ _ _ A1 v e I He).
  - intros v Hv. destruct (A2 v Hv) as [|[]]; [by left|by right].
Qed.

(** Bytes stored in one page. *)
Lemma store_page_ok k root g v va bs psz :
  ok k root g → user_pa g v ≠ 0 → v * PGSIZE ≤ va → va + Z.of_nat (length bs) ≤ (v + 1) * PGSIZE →
  ∃ k', store_bytes (user_pa g v + (va - v * PGSIZE)) bs k = (Ret (), k') ∧ ok k' root g ∧ stored psz k g k' g ∧
    ∀ x, umem k' g x = write va bs (umem k g) x.
Proof using Type.
  intros Hok Hp Hva Hlen. destruct (user_pa_page _ _ _ _ Hok Hp) as (e & He & Ep & Hv & Ho & Hpg).
  set (a := user_pa g v + (va - v * PGSIZE)). unfold PGSIZE in *.
  destruct (touch_ok kend UVPN k root g (user_pa g v) (write a bs (phys k)) Hok) as [H1 H2].
  - right. by exists v.
  - intros x Hx. rewrite write_out; [done|]. unfold in_page, PGSIZE, a in *. lia.
  - eexists. split; [reflexivity|]. fold (write a bs (phys k)). split; [exact H1|]. split.
    + split; [|done|by left]. eapply evolves_mono; [|exact H2]. cbn. intros w Hw E. rewrite Ho in E. injection E as ->. lia.
    + intros x. pose proof (Z.div_mod x PGSIZE ltac:(done)) as Hdm. pose proof (Z.mod_pos_bound x PGSIZE ltac:(done)) as Hmb.
      pose proof uvpn_val as Huv. unfold PGSIZE in *. destruct (decide (x / 4096 = v)) as [Ev|Ev].
      * assert (Hx : x < TRAPFRAME) by lia. unfold umem at 1. rewrite decide_True by done. unfold PGSIZE. cbn [phys].
        rewrite Ev, He, Ep. apply write_shift; [unfold a; lia|]. unfold umem. rewrite decide_True by done. unfold PGSIZE.
        by rewrite Ev, He, Ep.
      * rewrite write_out by lia. unfold umem. destruct (decide (x < TRAPFRAME)) as [Hx|Hx]; [|done]. unfold PGSIZE. cbn [phys].
        destruct (leaf g !! (x / 4096)) as [e'|] eqn:El; [|done]. assert (Hq : x / 4096 < UVPN) by (by apply va_uvpn).
        destruct (ev_keep _ _ _ _ _ _ H2 _ _ ltac:(cbn; intros E; rewrite Ho in E; by injection E) El) as [_ H].
        apply (H Hq). unfold in_page, PGSIZE. lia.
Qed.

Lemma user_pa_kept psz k g k' g' v : stored psz k g k' g' → user_pa g v ≠ 0 → user_pa g' v = user_pa g v.
Proof using Type.
  intros [_ H _]. unfold user_pa. destruct (leaf g !! v) as [e|] eqn:E; [|done]. by rewrite (H v e E).
Qed.

Lemma copyout_loop_ok root psz fuel : ∀ k g dstva src,
  ok k root g → 0 ≤ dstva → psz ≤ TRAPFRAME → fits fuel dstva (length src) →
  ∃ r k' g', copyout_loop kend fuel root psz dstva src k = (Ret r, k') ∧ ok k' root g' ∧ hand g' = hand g ∧
    stored psz k g k' g' ∧
    (r = 0 ∧ (∀ x, umem k' g' x = write dstva src (umem k g) x) ∧ (∀ v, pages_of dstva (length src) v → user_pa g' v ≠ 0) ∨
     r = -1 ∧ ∃ n, (n < length src)%nat ∧ ∀ x, umem k' g' x = write dstva (take n src) (umem k g) x).
Proof using Hend.
  induction fuel as [|fuel IH]; intros k g dstva src Hok Hva Hpsz Hf; cbn [copyout_loop].
  all: destruct src as [|b src'].
  1,3: exists 0, k, g; split; [done|]; split; [done|]; split; [done|];
    split; [apply faulted_stored, faulted_refl|]; left; split; [done|]; split; [intros x; by rewrite write_nil|];
    intros v [Hv1 _]; cbn in Hv1; lia.
  { exfalso. destruct Hf as [?|Hf]; [done|]. pose proof (Z.mod_pos_bound dstva PGSIZE ltac:(done)). cbn [length] in Hf. lia. }
  set (src := b :: src') in *. assert (Hlen : (0 < length src)%nat) by (unfold src; cbn; lia). clearbody src. clear b src'.
  rewrite pgrounddown_div. set (v := dstva / PGSIZE) in *.
  destruct (fits_next fuel dstva (length src) v Hva eq_refl Hf) as (Hf' & Hn1 & Hn2 & Hin & Hn0).
  set (n := Nat.min (Z.to_nat (PGSIZE - (dstva - v * PGSIZE))) (length src)) in *.
  assert (Hv : 0 ≤ v) by by apply Z.div_pos. specialize (Hn0 Hlen).
  assert (Hfail : ∀ k1 g1, faulted psz k g k1 g1 → ok k1 root g1 → hand g1 = hand g →
    ∃ r k' g', (Ret (E:=string) (-1), k1) = (Ret r, k') ∧ ok k' root g' ∧ hand g' = hand g ∧ stored psz k g k' g' ∧
      (r = 0 ∧ (∀ x, umem k' g' x = write dstva src (umem k g) x) ∧ (∀ v, pages_of dstva (length src) v → user_pa g' v ≠ 0) ∨
       r = -1 ∧ ∃ n, (n < length src)%nat ∧ ∀ x, umem k' g' x = write dstva (take n src) (umem k g) x)).
  { intros k1 g1 Hf1 Hok1 Hh1. exists (-1), k1, g1. split; [done|]. split; [done|]. split; [done|].
    split; [by apply faulted_stored|]. right. split; [done|]. exists 0%nat. split; [done|]. intros x.
    cbn [take]. rewrite write_nil. by apply (faulted_umem psz). }
  destruct (MAXVA <=? v * PGSIZE) eqn:Em; [apply (Hfail k g); [apply faulted_refl|done|done]|]. apply Z.leb_gt in Em.
  destruct (user_page_ok k root g psz v Hok Hv Hpsz) as (k1 & g1 & E1 & Hok1 & Hh1 & Hf1 & _). rewrite (bind_run _ _ _ _ _ E1).
  destruct (user_pa g1 v =? 0) eqn:Ep; [by apply (Hfail k1 g1)|]. apply Z.eqb_neq in Ep.
  destruct (user_pa_page _ _ _ _ Hok1 Ep) as (e & He & _ & Hvu & _). pose proof (v_tables _ _ _ _ _ Hok1) as Ht1.
  rewrite (bind_run _ _ _ _ _ (walk_get _ _ Hend _ _ _ (v * PGSIZE) Ht1 ltac:(unfold PGSIZE in *; lia))).
  assert (Hs : slot g1 (v * PGSIZE) ≠ 0) by (eapply (slot_leaf kend UVPN Hend); [exact Ht1|by rewrite va_page by lia]).
  assert (Er : get64 (slot g1 (v * PGSIZE)) k1 = (Ret e, k1)).
  { unfold get64, gets. by rewrite (slot_read _ _ Hend _ _ _ _ Ht1 Hs), va_page, He by lia. }
  rewrite (bind_run _ _ _ _ _ Er). destruct (has e PTE_W); cbn [negb]; [|by apply (Hfail k1 g1)].
  destruct (store_page_ok k1 root g1 v dstva (take n src) psz Hok1 Ep) as (k2 & E2 & Hok2 & Hst2 & Hm2);
    [lia|rewrite length_take; lia|]. rewrite (bind_run _ _ _ _ _ E2).
  replace (u64 (v * PGSIZE + PGSIZE)) with ((v + 1) * PGSIZE).
  2: { rewrite u64_small; [lia|]. pose proof uvpn_val as Hu. rewrite trapframe_val in Hu. unfold PGSIZE in *. lia. }
  destruct (IH k2 g1 ((v + 1) * PGSIZE) (drop n src) Hok2) as (r & k3 & g3 & E3 & Hok3 & Hh3 & Hst3 & Hr);
    [unfold PGSIZE; lia|done|by rewrite length_drop|]. rewrite E3.
  exists r, k3, g3. split; [done|]. split; [done|]. split; [congruence|].
  split; [eapply stored_trans; [by apply faulted_stored|]; by eapply stored_trans|].
  assert (Hw : ∀ m x, (m ≤ length (drop n src))%nat →
    write ((v + 1) * PGSIZE) (take m (drop n src)) (umem k2 g1) x = write dstva (take (n + m) src) (umem k g) x).
  { intros m x Hm. rewrite <-(take_take_drop src n m), write_app. rewrite length_take, Nat.min_l by lia.
    destruct Hn2 as [Hn2|Hn2].
    - rewrite length_drop in Hm. assert (m = 0)%nat as -> by lia. cbn [take]. rewrite !write_nil, Hm2.
      apply write_ext. apply (faulted_umem psz), Hf1.
    - rewrite Hn2. apply write_ext. rewrite Hm2. apply write_ext. apply (faulted_umem psz), Hf1. }
  rewrite length_drop in *. destruct Hr as [(-> & Hm3 & Hpg3)|(-> & m & Hm & Hm3)].
  - left. split; [done|]. split.
    + intros x. rewrite Hm3. rewrite <-(firstn_all (drop n src)). rewrite Hw by (rewrite length_drop; lia).
      by rewrite length_drop, firstn_all2 by lia.
    + intros w (Hw0 & Hw1 & Hw2). fold v in Hw1. destruct (decide (w = v)) as [->|Hne].
      * rewrite (user_pa_kept _ _ _ _ _ _ (stored_trans _ _ _ _ _ _ _ Hst2 Hst3) Ep). done.
      * apply Hpg3. unfold pages_of. rewrite Z.div_mul by done. destruct Hn2 as [Hn2|Hn2]; unfold PGSIZE in *; lia.
  - right. split; [done|]. exists (n + m)%nat. split; [lia|]. intros x. rewrite Hm3. apply Hw. lia.
Qed.

Lemma copyout_ok root psz k g dstva src :
  ok k root g → 0 ≤ dstva → psz ≤ TRAPFRAME →
  ∃ r k' g', copyout kend root psz dstva src k = (Ret r, k') ∧ ok k' root g' ∧ hand g' = hand g ∧
    stored psz k g k' g' ∧
    (r = 0 ∧ (∀ x, umem k' g' x = write dstva src (umem k g) x) ∧ (∀ v, pages_of dstva (length src) v → user_pa g' v ≠ 0) ∨
     r = -1 ∧ ∃ n, (n < length src)%nat ∧ ∀ x, umem k' g' x = write dstva (take n src) (umem k g) x).
Proof using Hend. intros Hok Hva Hpsz. apply copyout_loop_ok; [done|done|done|apply fits_enough]. Qed.
End Copy.
