(* ===== verification/VmFork.v ===== *)
(** * The copy of an address space

    [uvmcopy] gives a child the memory of its parent, page by page, with the same
    permissions; if memory runs out it takes the pages back. *)

From stdpp Require Import gmap.
From S2P Require Export VmCopy.

#[local] Set Warnings "-clear-no-such-hyp".
#[local] Set Default Proof Using "Type".
Local Open Scope Z_scope.

Lemma flags_range e : 0 ≤ PTE_FLAGS e < 1024.
Proof. unfold PTE_FLAGS. change 0x3FF with (Z.ones 10). rewrite Z.land_ones by done. by apply Z.mod_pos_bound. Qed.

Lemma flags_bit e n : 0 ≤ n < 10 → Z.testbit (PTE_FLAGS e) n = Z.testbit e n.
Proof.
  intros H. unfold PTE_FLAGS. change 0x3FF with (Z.ones 10). rewrite Z.land_spec, Z.ones_spec_low by lia. by rewrite andb_true_r.
Qed.

Lemma flags_pte pa e : Z.testbit e 0 = true → PTE_FLAGS (pte_of pa (PTE_FLAGS e)) = PTE_FLAGS e.
Proof.
  intros H0. apply Z.bits_inj'. intros n Hn. destruct (decide (n < 10)) as [Hl|Hl].
  - rewrite !flags_bit, pte_bit, flags_bit by lia. destruct (n =? 0) eqn:E; [apply Z.eqb_eq in E; by rewrite E, H0|apply orb_false_r].
  - unfold PTE_FLAGS. change 0x3FF with (Z.ones 10). by rewrite !Z.land_spec, Z.ones_spec_high, !andb_false_r by lia.
Qed.

Section Fork.
Context (kend : Z) (Hend : 0 < kend < PHYSTOP).
Abbreviation ok := (vm_ok kend UVPN).
Abbreviation evolves := (evolves UVPN).
Abbreviation all := (λ _ : Z, True).
(** The parent's table, which shares no page with the child's pool. *)
Context (root0 : Z) (g0 : ghost).

Definition apart (g : ghost) : Prop := ∀ p, is_Some (own g0 !! p) → ¬ pool g p.

Lemma parent_page m p x : tables kend UVPN m root0 g0 → is_Some (own g0 !! p) → in_page p x →
  ∀ k root g, ok k root g → apart g → ∀ q, pool g q → ¬ in_page q x.
Proof using Type.
  intros Ht Hp Hx k root g Hok Ha q Hq. apply (pages_apart kend p q x); [by apply (t_page _ _ _ _ _ Ht)|by eapply pool_page| |done].
  intros ->. by apply (Ha q).
Qed.

Lemma parent_leaf m v e : tables kend UVPN m root0 g0 → leaf g0 !! v = Some e → v < UVPN → is_Some (own g0 !! PTE2PA e).
Proof using Type. intros Ht He Hv. exists (User v). apply (t_user _ _ _ _ _ Ht). by exists e. Qed.

(** The parent does not notice. *)
Lemma parent_kept K k root g k' g' :
  ok k root g → apart g → evolves K k g k' g' → tables kend UVPN (phys k) root0 g0 →
  tables kend UVPN (phys k') root0 g0 ∧ apart g' ∧
  (∀ v e x, leaf g0 !! v = Some e → v < UVPN → in_page (PTE2PA e) x → phys k' x = phys k x) ∧ ∀ x, umem k' g0 x = umem k g0 x.
Proof using Type.
  intros Hok Ha Hev Ht. assert (Hm : ∀ p x, is_Some (own g0 !! p) → in_page p x → phys k' x = phys k x).
  { intros p x Hp Hx. apply (ev_frame _ _ _ _ _ _ Hev). by eapply parent_page. }
  assert (Hl : ∀ v e x, leaf g0 !! v = Some e → v < UVPN → in_page (PTE2PA e) x → phys k' x = phys k x).
  { intros v e x He Hv. apply Hm. by eapply parent_leaf. }
  split; [|split; [|split; [done|]]].
  - eapply tables_ext; [|exact Ht]. intros n p x Hp Hx. apply (Hm p); [|done]. apply (t_dir _ _ _ _ _ Ht) in Hp. by rewrite Hp.
  - intros p Hp Hpool. apply (Ha p Hp). by apply (ev_pool _ _ _ _ _ _ Hev).
  - intros x. unfold umem. case_decide as Hx; [|done]. destruct (leaf g0 !! (x / PGSIZE)) as [e|] eqn:El; [|done].
    apply (Hl _ _ _ El); [by apply va_uvpn|apply mod_in_page].
Qed.

Lemma fills_copy k root g v e :
  ok k root g → apart g → tables kend UVPN (phys k) root0 g0 → leaf g0 !! v = Some e → v < UVPN →
  fills kend (λ mem, modify (λ k, {| freelist := freelist k; phys := memmove (phys k) mem (PTE2PA e) (Z.to_nat PGSIZE) |}))
    k g (λ i, phys k (PTE2PA e + i)).
Proof using Type.
  intros Hok Ha Ht He Hv k1 p Hp Hpool Hm. eexists. split; [reflexivity|].
  split; intros x Hx; rewrite memmove_spec; unfold in_page, PGSIZE in *.
  - by rewrite decide_False by lia.
  - rewrite decide_True by lia. apply Hm. intros q Hq. apply (parent_page (phys k) (PTE2PA e) _ Ht) with k root g; try done.
    + by eapply parent_leaf.
    + unfold in_page, PGSIZE. lia.
Qed.

(** The child's page [w] is a copy of the parent's. *)
Definition copied (k : kmem) (g : ghost) (w : Z) : Prop :=
  match leaf g0 !! w with
  | Some e => ∃ p, leaf g !! w = Some (pte_of p (PTE_FLAGS e)) ∧ page kend p ∧
      ∀ i, 0 ≤ i < PGSIZE → phys k (p + i) = phys k (PTE2PA e + i)
  | None => leaf g !! w = None
  end.

Lemma copied_kept k root g k' g' w :
  ok k root g → apart g → tables kend UVPN (phys k) root0 g0 → evolves all k g k' g' → w < UVPN → leaf g' !! w = leaf g !! w →
  copied k g w → copied k' g' w.
Proof using Hend.
  intros Hok Ha Ht Hev Hw Hl. unfold copied. rewrite Hl. destruct (leaf g0 !! w) as [e|] eqn:El; [|done].
  intros (p & Hlp & Hp & Hm). exists p. split; [done|]. split; [done|]. intros i Hi.
  destruct (parent_kept _ _ _ _ _ _ Hok Ha Hev Ht) as (_ & _ & Hpar & _).
  rewrite (Hpar w e (PTE2PA e + i)) by (try done; unfold in_page; lia). rewrite <-Hm by done.
  destruct (ev_keep _ _ _ _ _ _ Hev w _ I Hlp) as [_ H]. apply (H Hw).
  rewrite pte_pa by (try apply flags_range; by apply (page_aligned kend Hend)). unfold in_page. lia.
Qed.

Lemma uvmcopy_loop_ok n root sz : ∀ k g v,
  ok k root g → apart g → tables kend UVPN (phys k) root0 g0 → 0 ≤ v → 0 ≤ sz ≤ TRAPFRAME →
  (Z.to_nat (npg sz - v) ≤ n)%nat → (∀ w, v ≤ w < npg sz → leaf g !! w = None) →
  ∃ r k' g', uvmcopy_loop kend n root0 root (v * PGSIZE) sz k = (Ret r, k') ∧ ok k' root g' ∧ hand g' = hand g ∧
    evolves all k g k' g' ∧
    match r with
    | None => (∀ w, ¬ v ≤ w < npg sz → leaf g' !! w = leaf g !! w) ∧ ∀ w, v ≤ w < npg sz → copied k' g' w
    | Some i => ∃ w, i = w * PGSIZE ∧ v ≤ w < npg sz ∧ ∀ u, ¬ v ≤ u < w → leaf g' !! u = leaf g !! u
    end.
Proof using Hend.
  induction n as [|n IH]; intros k g v Hok Ha Ht Hv Hsz Hn Hfree; cbn [uvmcopy_loop]; pose proof (npg_bounds sz) as Hb;
    (destruct (v * PGSIZE <? sz) eqn:El; [apply Z.ltb_lt in El|apply Z.ltb_ge in El]).
  1: unfold PGSIZE in *; lia.
  1,3: exists None, k, g; split; [done|]; split; [done|]; split; [done|]; split; [apply evolves_refl|]; split; [done|];
    intros w Hw; unfold PGSIZE in *; lia.
  assert (Hlt : v < npg sz) by (unfold PGSIZE in *; lia). pose proof (npg_le sz Hsz) as Hm.
  pose proof uvpn_val as Hu. rewrite trapframe_val in Hu.
  replace (u64 (v * PGSIZE + PGSIZE)) with ((v + 1) * PGSIZE) by (rewrite u64_small; unfold PGSIZE in *; lia).
  (* the rest of the loop, from a state in which page [v] is settled *)
  assert (Hnext : ∀ k1 g1, ok k1 root g1 → hand g1 = hand g → evolves all k g k1 g1 →
    (∀ u, u ≠ v → leaf g1 !! u = leaf g !! u) → copied k1 g1 v →
    ∃ r k' g', uvmcopy_loop kend n root0 root ((v + 1) * PGSIZE) sz k1 = (Ret r, k') ∧ ok k' root g' ∧ hand g' = hand g ∧
      evolves all k g k' g' ∧
      match r with
      | None => (∀ w, ¬ v ≤ w < npg sz → leaf g' !! w = leaf g !! w) ∧ ∀ w, v ≤ w < npg sz → copied k' g' w
      | Some i => ∃ w, i = w * PGSIZE ∧ v ≤ w < npg sz ∧ ∀ u, ¬ v ≤ u < w → leaf g' !! u = leaf g !! u
      end).
  { intros k1 g1 Hok1 Hh1 Hev1 Hl1 Hc1. destruct (parent_kept _ _ _ _ _ _ Hok Ha Hev1 Ht) as (Ht1 & Ha1 & _).
    destruct (IH k1 g1 (v + 1) Hok1 Ha1 Ht1) as (r & k' & g' & E & Hok' & Hh' & Hev' & Hr); [lia|done|lia| |].
    { intros w Hw. rewrite Hl1 by lia. apply Hfree. lia. }
    exists r, k', g'. split; [done|]. split; [done|]. split; [congruence|]. split; [by eapply evolves_trans|].
    destruct r as [i|].
    - destruct Hr as (w & -> & Hw & Hr). exists w. split; [done|]. split; [lia|]. intros u Hu'. rewrite Hr by lia. apply Hl1. lia.
    - destruct Hr as [Hr1 Hr2]. split.
      + intros w Hw. rewrite Hr1 by lia. apply Hl1. lia.
      + intros w Hw. destruct (decide (w = v)) as [->|Hne]; [|apply Hr2; lia].
        apply (copied_kept k1 root g1 _ _ _ Hok1 Ha1 Ht1 Hev'); [lia|apply Hr1; lia|done]. }
  assert (Hva : 0 ≤ v * PGSIZE < MAXVA) by (rewrite maxva_val; unfold PGSIZE in *; lia).
  rewrite (bind_run _ _ _ _ _ (walk_get _ _ Hend _ _ _ _ Ht Hva)).
  assert (Hskip : leaf g0 !! v = None → copied k g v) by (unfold copied; intros ->; apply Hfree; lia).
  destruct (slot g0 (v * PGSIZE) =? 0) eqn:Es.
  { apply Z.eqb_eq in Es. apply (Hnext k g); try done. apply Hskip.
    destruct (leaf g0 !! v) as [e|] eqn:E; [exfalso|done].
    apply (slot_leaf _ _ Hend (phys k) root0 g0 (v * PGSIZE) e Ht); [by rewrite va_page by lia|done]. }
  apply Z.eqb_neq in Es.
  assert (Er : get64 (slot g0 (v * PGSIZE)) k = (Ret (default 0 (leaf g0 !! v)), k)).
  { unfold get64, gets. by rewrite (slot_read _ _ Hend _ _ _ _ Ht Es), va_page by lia. }
  rewrite (bind_run _ _ _ _ _ Er). rewrite (leaf_valid _ _ _ _ _ _ Ht).
  destruct (leaf g0 !! v) as [e|] eqn:E0.
  2: { rewrite bool_decide_false by (by intros [? ?]). apply (Hnext k g); try done. by apply Hskip. }
  rewrite bool_decide_true by done. cbn [negb default from_option id].
  rewrite (map_fresh_turn kend (λ mem, modify (λ k, {| freelist := freelist k; phys := memmove (phys k) mem (PTE2PA e) (Z.to_nat PGSIZE) |}))
    root (v * PGSIZE) (PTE_FLAGS e) (mret (Some (v * PGSIZE))) (λ _, uvmcopy_loop kend n root0 root ((v + 1) * PGSIZE) sz)).
  destruct (map_fresh_ok kend Hend _ _ k root g v (PTE_FLAGS e) Hok ltac:(lia) ltac:(apply Hfree; lia) (flags_range e)
    (fills_copy k root g v e Hok Ha Ht E0 ltac:(lia))) as (p & k1 & g1 & E1 & Hok1 & Hev1 & Hh1 & Hp).
  rewrite (bind_run _ _ _ _ _ E1). destruct Hp as [[-> Hl]|(Hp & Hpg & Hl & Hc)].
  - cbn [Z.eqb]. exists (Some (v * PGSIZE)), k1, g1. split; [done|]. split; [done|]. split; [done|]. split; [done|].
    exists v. split; [done|]. split; [lia|]. intros u _. by rewrite Hl.
  - rewrite (proj2 (Z.eqb_neq p 0)) by done. apply (Hnext k1 g1); try done.
    + intros u Hne. by rewrite Hl, lookup_insert_ne.
    + unfold copied. rewrite E0. exists p. split; [by rewrite Hl, lookup_insert_eq|]. split; [done|]. intros i Hi.
      destruct (parent_kept _ _ _ _ _ _ Hok Ha Hev1 Ht) as (_ & _ & Hpar & _).
      rewrite (Hpar v e (PTE2PA e + i)); [|done|lia|unfold in_page; lia]. rewrite Hc by (unfold in_page; lia). f_equal. lia.
Qed.

(** The child's memory is a copy, with the same permissions, and the parent's does not change; when memory runs out
    the pages taken for the child are free again or pages of its table. *)
Lemma uvmcopy_copies root sz k g :
  ok k root g → apart g → tables kend UVPN (phys k) root0 g0 → 0 ≤ sz ≤ TRAPFRAME →
  (∀ w, w < npg sz → leaf g !! w = None) →
  ∃ r k' g', uvmcopy kend root0 root sz k = (Ret r, k') ∧ ok k' root g' ∧ hand g' = hand g ∧
    tables kend UVPN (phys k') root0 g0 ∧ (∀ x, umem k' g0 x = umem k g0 x) ∧ evolves (λ _, False) k g k' g' ∧
    (r = 0 ∧ (∀ x, 0 ≤ x < npg sz * PGSIZE → umem k' g' x = umem k g0 x) ∧
       (∀ w, 0 ≤ w < npg sz → PTE_FLAGS <$> leaf g' !! w = PTE_FLAGS <$> leaf g0 !! w) ∧
       (∀ w, npg sz ≤ w → leaf g' !! w = leaf g !! w) ∨
     r = -1 ∧ leaf g' = leaf g).
Proof using Hend.
  intros Hok Ha Ht Hsz Hfree. unfold uvmcopy. pose proof (npg_le sz Hsz) as Hm.
  destruct (uvmcopy_loop_ok (Z.to_nat (sz / PGSIZE + 1)) root sz k g 0 Hok Ha Ht) as (r & k1 & g1 & E1 & Hok1 & Hh1 & Hev1 & Hr);
    [done|done| |intros w Hw; apply Hfree; lia|].
  { assert (H1 : npg sz ≤ (sz + 1 * PGSIZE) / PGSIZE) by (apply Z.div_le_mono; [done|unfold PGSIZE; lia]).
    rewrite Z.div_add in H1 by done. lia. }
  rewrite (bind_run _ _ _ _ _ E1). destruct (parent_kept _ _ _ _ _ _ Hok Ha Hev1 Ht) as (Ht1 & Ha1 & _ & Hu1).
  destruct r as [i|].
  - destruct Hr as (w & -> & Hw & Hl1). rewrite Z.div_mul by done.
    destruct (uvmunmap_ok kend Hend k1 root g1 0 w true Hok1) as (k2 & g2 & E2 & Hok2 & Hev2 & Hh2 & Hl2);
      [done|lia| | |].
    { pose proof uvpn_val. rewrite trapframe_val, maxva_val in *. unfold PGSIZE in *. lia. }
    { intros u Hu _. rewrite bool_decide_true; [done|]. unfold in_range in Hu. lia. }
    rewrite Z.mul_0_l in E2. rewrite (bind_run _ _ _ _ _ E2). exists (-1), k2, g2.
    destruct (parent_kept _ _ _ _ _ _ Hok1 Ha1 Hev2 Ht1) as (Ht2 & Ha2 & _ & Hu2).
    split; [done|]. split; [done|]. split; [congruence|]. split; [done|]. split; [intros x; by rewrite Hu2|].
    split; [eapply evolves_trans; (eapply evolves_mono; [|eassumption]); done|]. right. split; [done|].
    apply map_eq. intros u. rewrite Hl2. unfold in_range. destruct (decide (0 ≤ u < 0 + w)) as [Hu|Hu].
    + symmetry. apply Hfree. lia.
    + apply Hl1. lia.
  - destruct Hr as [Hr1 Hr2]. exists 0, k1, g1. split; [done|]. split; [done|]. split; [done|]. split; [done|]. split; [done|].
    split; [by eapply evolves_mono; [|exact Hev1]|]. left. split; [done|]. split; [|split].
    + intros x Hx. rewrite <-Hu1. unfold umem.
      destruct (decide (x < TRAPFRAME)) as [Hlt|]; [|done].
      assert (Hxv : 0 ≤ x / PGSIZE < npg sz).
      { split; [apply Z.div_pos; [lia|done]|]. apply Z.div_lt_upper_bound; [done|lia]. }
      specialize (Hr2 _ Hxv). unfold copied in Hr2. destruct (leaf g0 !! (x / PGSIZE)) as [e|]; [|by rewrite Hr2].
      destruct Hr2 as (p & -> & Hp & Hc). rewrite pte_pa by (try apply flags_range; by apply (page_aligned kend Hend)).
      apply Hc. by apply Z.mod_pos_bound.
    + intros w Hw. specialize (Hr2 w Hw). unfold copied in Hr2. destruct (leaf g0 !! w) as [e|] eqn:E0; [|by rewrite Hr2].
      destruct Hr2 as (p & -> & _). cbn. f_equal. apply flags_pte. by destruct (t_leaf _ _ _ _ _ Ht _ _ E0).
    + intros w Hw. apply Hr1. lia.
Qed.
End Fork.
