(* ===== verification/VmProc.v ===== *)
(** * The life of an address space

    How [proc_pagetable] makes an address space and how [proc_freepagetable] gives
    its pages back; [space] is what holds in between. *)

From stdpp Require Import gmap.
From S2P Require Export VmFork.

#[local] Set Warnings "-clear-no-such-hyp".
#[local] Set Default Proof Using "Type".
Local Open Scope Z_scope.

Definition new_ghost (p : Z) (l : list Z) : ghost :=
  {| dir := {[ (2%nat, 0) := p ]}; leaf := ∅; own := {[ p := Node (2%nat, 0) ]}; fr := l; hand := [] |}.

Section Proc.
Context (kend : Z) (Hend : 0 < kend < PHYSTOP).
Abbreviation ok := (vm_ok kend UVPN).
Abbreviation evolves := (evolves UVPN).
Abbreviation all := (λ _ : Z, True).

(** Memory that is in no page of [f] is as it was. *)
Definition framed (f : list Z) (k k' : kmem) : Prop := ∀ x, (∀ p, p ∈ f → ¬ in_page p x) → phys k' x = phys k x.

Lemma uvmcreate_ok k f :
  free_pages kend k f →
  match f with
  | [] => uvmcreate k = (Ret 0, k)
  | p :: l => p ≠ 0 ∧ ∃ k', uvmcreate k = (Ret p, k') ∧ ok k' p (new_ghost p l) ∧ framed f k k'
  end.
Proof using Hend.
  intros Hf. pose proof (kalloc_spec kend Hend k f Hf) as H. unfold uvmcreate. destruct f as [|p l].
  { assert (E : alloc_page k = (Ret 0, k)) by (unfold alloc_page; by rewrite H). by rewrite (bind_run _ _ _ _ _ E). }
  destruct H as (k1 & E & Hf1 & _ & Hm1). pose proof (fp_page _ _ _ Hf) as Hpg. apply Forall_cons in Hpg as [Hp Hpl].
  pose proof (fp_nodup _ _ _ Hf) as Hnd. apply NoDup_cons in Hnd as [Hn Hnd].
  assert (Hp0 : p ≠ 0) by (pose proof (page_range _ Hend p Hp); lia). split; [done|].
  assert (E1 : alloc_page k = (Ret p, k1)) by (unfold alloc_page; by rewrite E). rewrite (bind_run _ _ _ _ _ E1).
  rewrite (proj2 (Z.eqb_neq p 0)) by done.
  set (k2 := {| freelist := freelist k1; phys := memset_page (phys k1) p 0 |}).
  exists k2. split; [done|].
  assert (Hm2 : ∀ x, ¬ in_page p x → phys k2 x = phys k1 x) by (intros x Hx; cbn; rewrite memset_page_spec; by rewrite decide_False).
  split.
  - split; cbn [dir leaf own fr hand new_ghost app].
    + split; cbn [dir leaf own fr hand new_ghost].
      * apply lookup_singleton_eq.
      * intros n q. rewrite !lookup_singleton_Some. split; [by intros [<- <-]|by intros [<- [= <-]]].
      * intros v q. split; [intros (e & He & _); by rewrite lookup_empty in He|].
        intros H. apply lookup_singleton_Some in H as [_ [=]].
      * intros q [r H]. apply lookup_singleton_Some in H as [<- _]. done.
      * intros l0 j [q H]. apply lookup_singleton_Some in H as [H _]. injection H as <- <-. by right.
      * intros l0 j q i H Hi. apply lookup_singleton_Some in H as [H <-]. injection H as <- <-.
        unfold entry. cbn [dir new_ghost]. rewrite lookup_singleton_ne by (intros H; injection H; lia).
        apply load_zero. intros x Hx. cbn. rewrite memset_page_spec. rewrite decide_True; [done|]. unfold PGSIZE. lia.
      * intros v e H. by rewrite lookup_empty in H.
    + apply (free_pages_ext kend k1); [done| |done]. intros q x Hq Hx. apply Hm2.
      rewrite Forall_forall in Hpl. apply (pages_apart kend q p x); [by apply Hpl|done|by intros ->|done].
    + done.
    + done.
    + intros q Hq. apply lookup_singleton_ne. by intros ->.
  - intros x Hx. rewrite Hm2, Hm1; [done| |]; apply Hx; by left.
Qed.

(** The table's pages and the free ones are all the pages it works with. *)
Lemma node_key k root g l j q :
  ok k root g → dir g !! (l, j) = Some q → (l ≤ 2)%nat ∧ j / 512 ^ Z.of_nat (2 - l) = 0.
Proof using Type.
  intros Hok Hq. pose proof (v_tables _ _ _ _ _ Hok) as Ht.
  destruct (t_range _ _ _ _ _ Ht _ _ (ex_intro _ _ Hq)) as [[H1 H2]|[-> ->]]; [|done].
  destruct l as [|[|l]]; [| |lia].
  - destruct (t_range _ _ _ _ _ Ht _ _ H2) as [[_ H3]|[? _]]; [|done].
    destruct (t_range _ _ _ _ _ Ht _ _ H3) as [[? _]|[_ H4]]; [lia|]. rewrite Z.div_div in H4 by done. by split; [lia|].
  - destruct (t_range _ _ _ _ _ Ht _ _ H2) as [[? _]|[_ H4]]; [lia|]. by split; [lia|].
Qed.

Lemma leaf_nonneg k root g v : ok k root g → is_Some (leaf g !! v) → 0 ≤ v.
Proof using Type.
  intros Hok [e He]. destruct (t_leaf _ _ _ _ _ (v_tables _ _ _ _ _ Hok) _ _ He) as (_ & [q Hq] & _).
  destruct (node_key _ _ _ _ _ _ Hok Hq) as [_ H]. change (512 ^ Z.of_nat (2 - 0)) with 262144 in H. rewrite Z.div_div in H by done.
  pose proof (Z.div_mod v (512 * 262144) ltac:(done)). pose proof (Z.mod_pos_bound v (512 * 262144) ltac:(done)). lia.
Qed.

Lemma uvmfree_ok k root g sz :
  ok k root g → hand g = [] → 0 ≤ sz ≤ TRAPFRAME → (∀ v, is_Some (leaf g !! v) → v < npg sz) →
  ∃ k' f, uvmfree kend root sz k = (Ret (), k') ∧ free_pages kend k' f ∧ (∀ q, q ∈ f ↔ pool g q) ∧
    ∀ x, (∀ p, pool g p → ¬ in_page p x) → phys k' x = phys k x.
Proof using Hend.
  intros Hok Hh Hsz Hlow. unfold uvmfree. pose proof (npg_le sz Hsz) as Hm.
  assert (H1 : ∃ k1 g1, (if 0 <? sz then uvmunmap kend root 0 (u64 (PGROUNDUP sz) / PGSIZE) true else mret ()) k = (Ret (), k1) ∧
    ok k1 root g1 ∧ evolves (λ _, False) k g k1 g1 ∧ hand g1 = [] ∧ leaf g1 = ∅).
  { assert (Hno : ∀ w, ¬ 0 ≤ w < npg sz → leaf g !! w = None).
    { intros w Hw. destruct (leaf g !! w) as [e|] eqn:El; [exfalso|done]. assert (Hs : is_Some (leaf g !! w)) by by rewrite El.
      pose proof (Hlow w Hs). pose proof (leaf_nonneg _ _ _ _ Hok Hs). lia. }
    destruct (0 <? sz) eqn:E.
    - rewrite u64_round by done. rewrite Z.div_mul by done.
      destruct (uvmunmap_ok kend Hend k root g 0 (npg sz) true Hok) as (k1 & g1 & E1 & Hok1 & Hev1 & Hh1 & Hl1); [done|lia| | |].
      { pose proof uvpn_val. rewrite trapframe_val, maxva_val in *. unfold PGSIZE in *. lia. }
      { intros w Hw _. rewrite bool_decide_true; [done|]. unfold in_range in Hw. lia. }
      exists k1, g1. split; [exact E1|]. split; [done|]. split; [by eapply evolves_mono; [|exact Hev1]|]. split; [congruence|].
      apply map_eq. intros w. rewrite Hl1, lookup_empty. unfold in_range. case_decide as Hw; [done|]. apply Hno. lia.
    - apply Z.ltb_ge in E. exists k, g. split; [done|]. split; [done|]. split; [apply evolves_refl|]. split; [done|].
      apply map_eq. intros w. rewrite lookup_empty. apply Hno. replace sz with 0 by lia. change (npg 0) with 0. lia. }
  destruct H1 as (k1 & g1 & E1 & Hok1 & Hev1 & Hh1 & Hl1). rewrite (bind_run _ _ _ _ _ E1).
  pose proof (v_tables _ _ _ _ _ Hok1) as Ht1. pose proof (v_apart _ _ _ _ _ Hok1) as Hap. rewrite Hh1 in Hap. cbn [app] in Hap.
  destruct (freewalk_ok kend UVPN Hend (phys k1) root g1 Ht1 Hl1 2 0 root (fr g1) k1 (t_root _ _ _ _ _ Ht1))
    as (k2 & f2 & E2 & Hf2 & Hq2 & Hm2).
  { split; [apply (v_free _ _ _ _ _ Hok1)|]. intros q (l & j & Hq & _). split; [|done]. intros Hin.
    apply (t_dir _ _ _ _ _ Ht1) in Hq. rewrite Hap in Hq by done. done. }
  assert (Hpool : ∀ q, q ∈ fr g1 ∨ under g1 2 0 q ↔ pool g1 q).
  { intros q. unfold pool. rewrite Hh1. cbn [app]. split.
    - intros [H|(l & j & H & _)]; [by right|left]. apply (t_dir _ _ _ _ _ Ht1) in H. by rewrite H.
    - intros [[[[l j]|v] H]|H]; [right| |by left].
      + apply (t_dir _ _ _ _ _ Ht1) in H. exists l, j. split; [done|]. by apply (node_key _ _ _ _ _ _ Hok1 H).
      + apply (t_user _ _ _ _ _ Ht1) in H as (e & He & _). by rewrite Hl1, lookup_empty in He. }
  exists k2, f2. split; [exact E2|]. split; [done|]. split.
  - intros q. by rewrite Hq2, Hpool, (ev_pool _ _ _ _ _ _ Hev1).
  - intros x Hx. rewrite Hm2; [by apply (ev_frame _ _ _ _ _ _ Hev1)|]. intros q Hq. apply Hx.
    apply (ev_pool _ _ _ _ _ _ Hev1), Hpool. by right.
Qed.

(** ** Address spaces *)
Context (trampoline trapframe : Z) (Htramp : aligned trampoline) (Htrap : aligned trapframe).

(** What is mapped above the user. *)
Definition high (v : Z) : option Z :=
  if decide (v = UVPN + 1) then Some (pte_of trampoline (Z.lor PTE_R PTE_X))
  else if decide (v = UVPN) then Some (pte_of trapframe (Z.lor PTE_R PTE_W)) else None.

Record space (k : kmem) (root : Z) (g : ghost) (sz : Z) : Prop := {
  s_ok : ok k root g;
  s_hand : hand g = [];
  s_sz : 0 ≤ sz ≤ TRAPFRAME;
  s_low v : v < UVPN → is_Some (leaf g !! v) → v < npg sz;
  s_high v : UVPN ≤ v → leaf g !! v = high v
}.

Lemma tramp_va : TRAMPOLINE = (UVPN + 1) * PGSIZE. Proof using Type. done. Qed.
Lemma trap_va : TRAPFRAME = UVPN * PGSIZE. Proof using Type. done. Qed.

(** One page of others is mapped above the user. *)
Lemma map_high_ok k root g v pa perm :
  ok k root g → UVPN ≤ v → v * PGSIZE < MAXVA → leaf g !! v = None → 0 ≤ perm < 16 → aligned pa →
  ∃ r k' g', mappages root (v * PGSIZE) PGSIZE pa perm k = (Ret r, k') ∧ ok k' root g' ∧ evolves all k g k' g' ∧ hand g' = hand g ∧
    (r = -1 ∧ leaf g' = leaf g ∨ r = 0 ∧ leaf g' = <[v := pte_of pa perm]> (leaf g)).
Proof using Hend.
  intros Hok Hv Hmax Hn Hperm Hpa. assert (Hu : 0 < UVPN) by done. assert (Ev : vkey 0 (v * PGSIZE) = v) by (apply va_page; lia).
  destruct (mappages_page kend UVPN Hend k root g (v * PGSIZE) pa perm (hand g) Hok) as (r & k' & g' & E & Hok' & Hev & _ & Hr).
  - unfold PGSIZE in *. lia.
  - by apply Z.mod_mul.
  - by rewrite Ev.
  - lia.
  - done.
  - intros H. exfalso. rewrite Z.bits_above_log2 in H; [done|lia|]. destruct (decide (perm = 0)) as [->|]; [done|].
    apply Z.log2_lt_pow2; [lia|]. change (2 ^ 4) with 16. lia.
  - unfold mapped. rewrite Ev. by rewrite decide_False by lia.
  - rewrite Ev in Hr. exists r, k', g'. split; [done|]. split; [done|]. split; [done|].
    destruct Hr as [(-> & Hl & Hh & _)|(-> & Hl & Hh)]; (split; [done|]); [by left|by right].
Qed.

Lemma pool_new p l q : pool (new_ghost p l) q ↔ q ∈ p :: l.
Proof using Type.
  unfold pool. cbn [own hand fr new_ghost app]. rewrite elem_of_cons. split.
  - intros [[r H]|H]; [left|by right]. by apply lookup_singleton_Some in H as [-> _].
  - intros [->|H]; [left|by right]. by rewrite lookup_singleton_eq.
Qed.

(** All is given back: a list of the free pages, no other memory changed. *)
Definition restored (f : list Z) (k k' : kmem) : Prop := ∃ f', free_pages kend k' f' ∧ f' ≡ₚ f ∧ framed f k k'.

Lemma restored_intro f k g k1 k2 f2 :
  free_pages kend k f → (∀ p, pool g p ↔ p ∈ f) → framed f k k1 → free_pages kend k2 f2 → (∀ q, q ∈ f2 ↔ pool g q) →
  (∀ x, (∀ p, pool g p → ¬ in_page p x) → phys k2 x = phys k1 x) → restored f k k2.
Proof using Type.
  intros Hf Hp Hfr Hf2 Hq2 Hm2. exists f2. split; [done|]. split.
  - apply NoDup_Permutation; [apply (fp_nodup _ _ _ Hf2)|apply (fp_nodup _ _ _ Hf)|]. intros q. by rewrite Hq2, Hp.
  - intros x Hx. rewrite Hm2; [by apply Hfr|]. intros p Hpp. apply Hx. by apply Hp.
Qed.

Lemma drop_high_ok k root g v :
  ok k root g → UVPN ≤ v → (v + 1) * PGSIZE ≤ MAXVA →
  ∃ k' g', uvmunmap kend root (v * PGSIZE) 1 false k = (Ret (), k') ∧ ok k' root g' ∧
    evolves (λ w, w ≠ v) k g k' g' ∧ hand g' = hand g ∧ leaf g' = delete v (leaf g).
Proof using Hend.
  intros Hok Hv Hm. assert (Hu : 0 < UVPN) by done.
  destruct (uvmunmap_ok kend Hend k root g v 1 false Hok) as (k' & g' & E & Hok' & Hev & Hh & Hl); [lia|done|done| |].
  { intros w Hw _. rewrite bool_decide_false; [done|]. unfold in_range in Hw. lia. }
  exists k', g'. split; [done|]. split; [done|]. split; [|split; [done|]].
  - eapply evolves_mono; [|exact Hev]. intros w Hw. unfold in_range. cbn in *. lia.
  - apply map_eq. intros w. rewrite Hl. destruct (decide (w = v)) as [->|Hne].
    + rewrite lookup_delete_eq. rewrite decide_True; [done|]. unfold in_range. lia.
    + rewrite lookup_delete_ne by done. rewrite decide_False; [done|]. unfold in_range. lia.
Qed.

Lemma proc_pagetable_ok k f :
  free_pages kend k f →
  ∃ r k', proc_pagetable kend trampoline trapframe k = (Ret r, k') ∧
    (r = 0 ∧ restored f k k' ∨
     r ≠ 0 ∧ framed f k k' ∧ ∃ g, space k' r g 0 ∧ ∀ p, pool g p ↔ p ∈ f).
Proof using Hend Htramp Htrap.
  intros Hf. unfold proc_pagetable. pose proof (uvmcreate_ok k f Hf) as Hc. destruct f as [|p l].
  { rewrite (bind_run _ _ _ _ _ Hc). exists 0, k. split; [done|]. left. split; [done|]. by exists []. }
  destruct Hc as (Hp0 & k1 & E1 & Hok1 & Hfr1). rewrite (bind_run _ _ _ _ _ E1).
  rewrite (proj2 (Z.eqb_neq p 0)) by done. set (g1 := new_ghost p l) in *.
  assert (Hpool1 : ∀ q, pool g1 q ↔ q ∈ p :: l) by apply pool_new.
  assert (Hfree : ∀ k2 g2 , ok k2 p g2 → hand g2 = [] → leaf g2 = ∅ → evolves (λ _, False) k1 g1 k2 g2 →
    ∃ r k', (uvmfree kend p 0;; mret 0) k2 = (Ret r, k') ∧ (r = 0 ∧ restored (p :: l) k k' ∨
     r ≠ 0 ∧ framed (p :: l) k k' ∧ ∃ g, space k' r g 0 ∧ ∀ q, pool g q ↔ q ∈ p :: l)).
  { intros k2 g2 Hok2 Hh2 Hl2 Hev2. destruct (uvmfree_ok k2 p g2 0 Hok2 Hh2) as (k3 & f3 & E3 & Hf3 & Hq3 & Hm3).
    { by rewrite trapframe_val. }
    { intros v [e Hv]. by rewrite Hl2, lookup_empty in Hv. }
    rewrite (bind_run _ _ _ _ _ E3). exists 0, k3. split; [done|]. left. split; [done|].
    apply (restored_intro _ _ g2 k2 _ f3); try done.
    - intros q. by rewrite (ev_pool _ _ _ _ _ _ Hev2), Hpool1.
    - intros x Hx. rewrite (ev_frame _ _ _ _ _ _ Hev2); [by apply Hfr1|]. intros q Hq. apply Hx. by apply Hpool1. }
  rewrite tramp_va, trap_va.
  destruct (map_high_ok k1 p g1 (UVPN + 1) trampoline (Z.lor PTE_R PTE_X) Hok1) as (r2 & k2 & g2 & E2 & Hok2 & Hev2 & Hh2 & Hr2);
    [lia|done|apply lookup_empty|by vm_compute|done|]. rewrite (bind_run _ _ _ _ _ E2).
  destruct Hr2 as [[-> Hl2]|[-> Hl2]]; cbn [Z.ltb Z.compare].
  { apply (Hfree k2 g2); try done. by eapply evolves_mono; [|exact Hev2]. }
  destruct (map_high_ok k2 p g2 UVPN trapframe (Z.lor PTE_R PTE_W) Hok2) as (r3 & k3 & g3 & E3 & Hok3 & Hev3 & Hh3 & Hr3);
    [lia|done| |by vm_compute|done|].
  { rewrite Hl2, lookup_insert_ne by lia. apply lookup_empty. }
  rewrite (bind_run _ _ _ _ _ E3). destruct Hr3 as [[-> Hl3]|[-> Hl3]]; cbn [Z.ltb Z.compare].
  - destruct (drop_high_ok k3 p g3 (UVPN + 1) Hok3) as (k4 & g4 & E4 & Hok4 & Hev4 & Hh4 & Hl4); [lia|by vm_compute|].
    rewrite (bind_run _ _ _ _ _ E4). apply (Hfree k4 g4); [done|by rewrite Hh4, Hh3, Hh2| |].
    + rewrite Hl4, Hl3, Hl2. by rewrite delete_insert_id by apply lookup_empty.
    + eapply evolves_trans; [by eapply evolves_mono; [|exact Hev2]|]. eapply evolves_trans; [by eapply evolves_mono; [|exact Hev3]|].
      by eapply evolves_mono; [|exact Hev4].
  - exists p, k3. split; [done|]. right. split; [done|]. assert (Hev : evolves all k1 g1 k3 g3) by by eapply evolves_trans.
    split.
    { intros x Hx. rewrite (ev_frame _ _ _ _ _ _ Hev); [by apply Hfr1|]. intros q Hq. apply Hx. by apply Hpool1. }
    exists g3. split; [|intros q; by rewrite (ev_pool _ _ _ _ _ _ Hev), Hpool1]. split; [done|by rewrite Hh3, Hh2|by rewrite trapframe_val| |].
    + intros v Hv [e He]. rewrite Hl3, Hl2, !lookup_insert_ne in He by lia. cbn in He. by rewrite lookup_empty in He.
    + intros v Hv. rewrite Hl3, Hl2. unfold high. destruct (decide (v = UVPN + 1)) as [->|Hne].
      * by rewrite lookup_insert_ne, lookup_insert_eq by lia.
      * destruct (decide (v = UVPN)) as [->|Hne']; [by rewrite lookup_insert_eq|]. rewrite !lookup_insert_ne by lia. apply lookup_empty.
Qed.

Lemma proc_freepagetable_ok k root g sz :
  space k root g sz →
  ∃ k' f, proc_freepagetable kend root sz k = (Ret (), k') ∧ free_pages kend k' f ∧ (∀ q, q ∈ f ↔ pool g q) ∧
    ∀ x, (∀ p, pool g p → ¬ in_page p x) → phys k' x = phys k x.
Proof using Hend.
  intros [Hok Hh Hsz Hlow Hhigh]. unfold proc_freepagetable. rewrite tramp_va, trap_va.
  destruct (drop_high_ok k root g (UVPN + 1) Hok) as (k1 & g1 & E1 & Hok1 & Hev1 & Hh1 & Hl1); [lia|by vm_compute|].
  rewrite (bind_run _ _ _ _ _ E1).
  destruct (drop_high_ok k1 root g1 UVPN Hok1) as (k2 & g2 & E2 & Hok2 & Hev2 & Hh2 & Hl2); [lia|by vm_compute|].
  rewrite (bind_run _ _ _ _ _ E2).
  destruct (uvmfree_ok k2 root g2 sz Hok2) as (k3 & f & E3 & Hf3 & Hq3 & Hm3); [congruence|done| |].
  { intros v Hs. rewrite Hl2, Hl1 in Hs. destruct (decide (v < UVPN)) as [Hv|Hv].
    - rewrite !lookup_delete_ne in Hs by lia. by apply Hlow.
    - exfalso. destruct Hs as [e He]. apply lookup_delete_Some in He as [H1 He]. apply lookup_delete_Some in He as [H2 He].
      rewrite Hhigh in He by lia. unfold high in He. rewrite decide_False, decide_False in He by lia. done. }
  assert (Hev : evolves (λ _, False) k g k2 g2).
  { eapply evolves_trans; [by eapply evolves_mono; [|exact Hev1]|]. by eapply evolves_mono; [|exact Hev2]. }
  exists k3, f. split; [done|]. split; [done|]. split.
  - intros q. by rewrite Hq3, (ev_pool _ _ _ _ _ _ Hev).
  - intros x Hx. rewrite Hm3; [by apply (ev_frame _ _ _ _ _ _ Hev)|]. intros p Hp. apply Hx. by apply (ev_pool _ _ _ _ _ _ Hev).
Qed.
End Proc.
