(* ===== verification/VmLife.v ===== *)
(** * What a process sees of its memory

    The theorems about address spaces: [sbrk], the copies of the kernel, and the
    balance of pages over the life of a process. *)

From stdpp Require Import gmap.
From S2P Require Export VmProc.

#[local] Set Warnings "-clear-no-such-hyp".
#[local] Set Default Proof Using "Type".
Local Open Scope Z_scope.

Lemma length_read a n f : length (read a n f) = n.
Proof. unfold read. by rewrite length_fmap, length_seq. Qed.

Lemma read_lookup a n f i : (i < n)%nat → read a n f !! i = Some (f (a + Z.of_nat i)).
Proof. intros H. unfold read. rewrite list_lookup_fmap, lookup_seq_lt by done. done. Qed.

Lemma read_write a bs f : read a (length bs) (write a bs f) = bs.
Proof.
  apply list_eq. intros i. destruct (decide (i < length bs)%nat) as [Hi|Hi].
  - rewrite read_lookup by done. unfold write. rewrite decide_True by lia.
    replace (Z.to_nat (a + Z.of_nat i - a)) with i by lia.
    destruct (lookup_lt_is_Some_2 bs i Hi) as [b ->]. done.
  - rewrite !lookup_ge_None_2; [done|lia|rewrite length_read; lia].
Qed.

Lemma read_ext a n f f' : (∀ x, f x = f' x) → read a n f = read a n f'.
Proof. intros H. unfold read. apply list_fmap_ext. intros i x _. apply H. Qed.

(** [s] is the string at [a], of less than [max] bytes. *)
Definition cstring (f : Z → Z) (a : Z) (max : nat) (s : list Z) : Prop :=
  ∃ n, (n < max)%nat ∧ s = read a (S n) f ∧ f (a + Z.of_nat n) = 0 ∧ ∀ i, (i < n)%nat → f (a + Z.of_nat i) ≠ 0.

Definition no_nul (f : Z → Z) (a : Z) (n : nat) : Prop := ∀ i, (i < n)%nat → f (a + Z.of_nat i) ≠ 0.

Lemma upto_nul_read f a n :
  match upto_nul (read a n f) with
  | (true, s) => cstring f a n s
  | (false, s) => s = read a n f ∧ no_nul f a n
  end.
Proof.
  revert a. induction n as [|n IH]; intros a; [split; [done|intros i Hi; lia]|].
  replace (S n) with (1 + n)%nat by lia. rewrite read_app. cbn [read seq fmap list_fmap app upto_nul Z.of_nat].
  rewrite Z.add_0_r. specialize (IH (a + Z.of_nat 1)). destruct (f a =? 0) eqn:E.
  - apply Z.eqb_eq in E. exists 0%nat. split; [lia|]. split; [unfold read; cbn; by rewrite Z.add_0_r, E|].
    split; [by rewrite Z.add_0_r|]. lia.
  - apply Z.eqb_neq in E.
    assert (Hshift : ∀ i, f (a + Z.of_nat 1 + Z.of_nat i) = f (a + Z.of_nat (S i))) by (intros i; f_equal; lia).
    assert (Hfirst : ∀ m, no_nul f (a + Z.of_nat 1) m → no_nul f a (S m)).
    { intros m H [|i] Hi; [by rewrite Z.add_0_r|]. rewrite <-Hshift. apply H. lia. }
    change (Z.of_nat 1) with 1 in *. destruct (upto_nul (read (a + 1) n f)) as [[] s].
    + destruct IH as (m & Hm & -> & Hz & Hn). exists (S m). split; [lia|]. split; [|split; [by rewrite <-Hshift|]].
      * replace (S (S m)) with (1 + S m)%nat by lia. rewrite (read_app a 1 (S m)). by replace (read a 1 f) with [f a] by (unfold read; cbn; by rewrite Z.add_0_r).
      * by apply Hfirst.
    + destruct IH as [-> Hn]. split; [done|]. by apply Hfirst.
Qed.

Section Life.
Context (kend : Z) (Hend : 0 < kend < PHYSTOP).
Context (trampoline trapframe : Z) (Htramp : aligned trampoline) (Htrap : aligned trapframe).
Abbreviation space := (space kend trampoline trapframe).
Abbreviation evolves := (evolves UVPN).
Abbreviation none := (λ _ : Z, False).

Lemma page_of_lt x n : x / PGSIZE < n ↔ x < n * PGSIZE.
Proof using Type.
  pose proof (Z.div_mod x PGSIZE ltac:(done)). pose proof (Z.mod_pos_bound x PGSIZE ltac:(done)). unfold PGSIZE in *. lia.
Qed.

(** Above the process there is nothing. *)
Lemma umem_above k root g sz x : space k root g sz → npg sz * PGSIZE ≤ x → umem k g x = 0.
Proof using Type.
  intros Hs Hx. unfold umem. case_decide as Hlt; [|done]. pose proof (va_uvpn x Hlt) as Hv.
  destruct (leaf g !! (x / PGSIZE)) as [e|] eqn:E; [exfalso|done].
  pose proof (s_low _ _ _ _ _ _ _ Hs _ Hv ltac:(by rewrite E)) as H. apply page_of_lt in H. lia.
Qed.

Lemma umem_kept K k g k' g' x :
  evolves K k g k' g' → K (x / PGSIZE) → leaf g' !! (x / PGSIZE) = leaf g !! (x / PGSIZE) → umem k' g' x = umem k g x.
Proof using Type.
  intros Hev HK Hl. unfold umem. case_decide as Hlt; [|done]. rewrite Hl.
  destruct (leaf g !! (x / PGSIZE)) as [e|] eqn:E; [|done].
  destruct (ev_keep _ _ _ _ _ _ Hev _ _ HK E) as [_ H]. apply (H (va_uvpn x Hlt)), mod_in_page.
Qed.

(** The memory of a process whose size changed. *)
Definition resized (sz' : Z) (k : kmem) (g : ghost) (k' : kmem) (g' : ghost) : Prop :=
  ∀ x, umem k' g' x = if decide (x < npg sz' * PGSIZE) then umem k g x else 0.

Lemma resized_same k root g sz : space k root g sz → resized sz k g k g.
Proof using Type. intros Hs x. case_decide; [done|]. apply (umem_above _ _ _ _ _ Hs). lia. Qed.

Lemma space_grow_any k root g sz newsz xperm :
  space k root g sz → sz ≤ newsz ≤ TRAPFRAME → 0 ≤ xperm < 1024 →
  ∃ r k' g', uvmalloc kend root sz newsz xperm k = (Ret r, k') ∧ evolves (λ _, True) k g k' g' ∧
    (r = newsz ∧ space k' root g' newsz ∧ resized newsz k g k' g' ∧
       (∀ w, ¬ npg sz ≤ w < npg newsz → leaf g' !! w = leaf g !! w) ∧
       (∀ w, npg sz ≤ w < npg newsz → zero_page kend k' g' (Z.lor (Z.lor PTE_R PTE_U) xperm) w) ∨
     r = 0 ∧ space k' root g' sz ∧ resized sz k g k' g' ∧ leaf g' = leaf g).
Proof using Hend.
  intros Hs Hn Hx. pose proof Hs as [Hok Hh Hsz Hlow Hhigh]. pose proof (npg_le newsz ltac:(lia)) as Hm.
  pose proof (npg_mono sz newsz ltac:(lia)) as Hmono.
  destruct (uvmalloc_ok kend Hend k root g sz newsz xperm Hok) as (r & k' & g' & E & Hok' & Hh' & Hev & Hr);
    [lia|lia|done| |].
  { intros w Hw. destruct (leaf g !! w) as [e|] eqn:El; [exfalso|done].
    specialize (Hlow w ltac:(lia) ltac:(by rewrite El)). lia. }
  exists r, k', g'. split; [done|]. split; [done|].
  destruct Hr as [(-> & Hout & Hzero)|(-> & Hl)]; [left|right]; (split; [done|]); split.
  - split; [done|congruence|lia| |].
    + intros v Hv Hsv. destruct (decide (npg sz ≤ v < npg newsz)); [lia|]. rewrite Hout in Hsv by done.
      specialize (Hlow v Hv Hsv). lia.
    + intros v Hv. rewrite Hout by lia. by apply Hhigh.
  - split; [|done]. intros x. destruct (decide (x < npg newsz * PGSIZE)) as [Hx'|Hx']; apply page_of_lt in Hx' || idtac.
    + destruct (decide (npg sz ≤ x / PGSIZE)) as [Hp|Hp].
      * rewrite (umem_above k root g sz x Hs).
        2: { destruct (decide (npg sz * PGSIZE ≤ x)) as [|Hc]; [done|]. assert (x < npg sz * PGSIZE) as Hc' by lia.
             apply page_of_lt in Hc'. lia. }
        unfold umem. case_decide; [|done]. destruct (Hzero (x / PGSIZE) ltac:(lia)) as (p & -> & Hpg & Hz).
        rewrite pte_pa; [apply Hz, mod_in_page|by apply (page_aligned kend Hend)|]. apply lor_range; [by vm_compute|done].
      * apply (umem_kept _ _ _ _ _ _ Hev I). apply Hout. lia.
    + rewrite <-page_of_lt in Hx'. destruct (decide (x / PGSIZE < UVPN)) as [Hu|Hu].
      * transitivity (umem k g x).
        -- apply (umem_kept _ _ _ _ _ _ Hev I). apply Hout. lia.
        -- apply (umem_above k root g sz x Hs). rewrite page_of_lt in Hx'. unfold PGSIZE in *. lia.
      * unfold umem. rewrite decide_False; [done|]. rewrite <-uvpn_val, <-page_of_lt. done.
  - split; [done|congruence|done| |]; rewrite Hl; done.
  - split; [|done]. intros x. rewrite (umem_kept _ _ _ _ _ _ Hev I) by by rewrite Hl. apply (resized_same _ _ _ _ Hs).
Qed.

Lemma space_grow_ok k root g sz newsz :
  space k root g sz → sz < newsz ≤ TRAPFRAME →
  ∃ r k' g', uvmalloc kend root sz newsz PTE_W k = (Ret r, k') ∧ evolves none k g k' g' ∧
    (r = newsz ∧ space k' root g' newsz ∧ resized newsz k g k' g' ∨
     r = 0 ∧ space k' root g' sz ∧ resized sz k g k' g').
Proof using Hend.
  intros Hs Hn. destruct (space_grow_any k root g sz newsz PTE_W Hs ltac:(lia) ltac:(by vm_compute)) as (r & k' & g' & E & Hev & Hr).
  exists r, k', g'. split; [done|]. split; [by eapply evolves_mono; [|exact Hev]|]. naive_solver.
Qed.

Lemma shrink_ok k root g sz newsz :
  space k root g sz → 0 ≤ newsz ≤ sz →
  ∃ k' g', uvmdealloc kend root sz newsz k = (Ret newsz, k') ∧ evolves none k g k' g' ∧ space k' root g' newsz ∧
    resized newsz k g k' g'.
Proof using Hend.
  intros Hs Hn. pose proof Hs as [Hok Hh Hsz Hlow Hhigh]. pose proof (npg_le sz ltac:(lia)) as Hm.
  destruct (uvmdealloc_ok kend Hend k root g sz newsz Hok) as (k' & g' & E & Hok' & Hev & Hh' & Hl); [lia|lia|].
  rewrite Z.min_r in E by lia. exists k', g'. split; [done|]. split; [by eapply evolves_mono; [|exact Hev]|]. split.
  - split; [done|congruence|lia| |].
    + intros v Hv Hsv. rewrite Hl in Hsv. case_decide as Hrm; [by destruct Hsv|]. specialize (Hlow v Hv Hsv). lia.
    + intros v Hv. rewrite Hl, decide_False by lia. by apply Hhigh.
  - intros x. destruct (decide (x < npg newsz * PGSIZE)) as [Hx|Hx].
    + apply page_of_lt in Hx. apply (umem_kept _ _ _ _ _ _ Hev); [cbn; lia|]. rewrite Hl, decide_False by lia. done.
    + rewrite <-page_of_lt in Hx. destruct (decide (x / PGSIZE < npg sz)) as [Hp|Hp].
      * unfold umem. case_decide; [|done]. rewrite Hl, decide_True by lia. done.
      * transitivity (umem k g x).
        -- apply (umem_kept _ _ _ _ _ _ Hev); [cbn; lia|]. rewrite Hl, decide_False by lia. done.
        -- rewrite page_of_lt in Hp. apply (umem_above k root g sz x Hs). lia.
Qed.

Lemma sz_u64 sz n : 0 ≤ sz ≤ TRAPFRAME → - 2 ^ 31 ≤ n < 2 ^ 31 →
  u64 (sz + n) = if decide (0 ≤ sz + n) then sz + n else sz + n + 2 ^ 64.
Proof using Type.
  intros Hs Hn. rewrite trapframe_val in Hs. unfold u64. case_decide; [by rewrite Z.mod_small by lia|].
  rewrite <-(Z_mod_plus_full _ 1). rewrite Z.mod_small; lia.
Qed.

Lemma growproc_ok k root g sz n :
  space k root g sz → - 2 ^ 31 ≤ n < 2 ^ 31 →
  ∃ r sz' k' g', growproc kend root sz n k = (Ret (r, sz'), k') ∧ evolves none k g k' g' ∧ space k' root g' sz' ∧
    resized sz' k g k' g' ∧ (r = 0 ∧ sz' = (if decide (0 ≤ sz + n) then sz + n else sz) ∨ r = -1 ∧ sz' = sz ∧ 0 < n).
Proof using Hend.
  intros Hs Hn. pose proof (s_sz _ _ _ _ _ _ _ Hs) as Hsz. unfold growproc. rewrite sz_u64 by done.
  assert (H0 : evolves none k g k g) by apply evolves_refl. pose proof (resized_same _ _ _ _ Hs) as Hr0.
  destruct (0 <? n) eqn:E1; [apply Z.ltb_lt in E1|apply Z.ltb_ge in E1].
  - rewrite decide_True by lia. destruct (TRAPFRAME <? sz + n) eqn:E2.
    { exists (-1), sz, k, g. do 4 (split; [done|]). by right. }
    apply Z.ltb_ge in E2. destruct (space_grow_ok k root g sz (sz + n) Hs ltac:(lia)) as (r & k' & g' & E & Hev & Hr).
    rewrite (bind_run _ _ _ _ _ E). destruct Hr as [(-> & Hs' & Hre)|(-> & Hs' & Hre)].
    + rewrite (proj2 (Z.eqb_neq _ 0)) by lia. exists 0, (sz + n), k', g'. do 4 (split; [done|]). left. by rewrite decide_True by lia.
    + exists (-1), sz, k', g'. do 4 (split; [done|]). by right.
  - destruct (n <? 0) eqn:E2; [apply Z.ltb_lt in E2|apply Z.ltb_ge in E2].
    + case_decide as Hpos.
      * destruct (shrink_ok k root g sz (sz + n) Hs ltac:(lia)) as (k' & g' & E & Hev & Hs' & Hre).
        rewrite (bind_run _ _ _ _ _ E). exists 0, (sz + n), k', g'. do 4 (split; [done|]). by left.
      * assert (E : uvmdealloc kend root sz (sz + n + 2 ^ 64) k = (Ret sz, k)).
        { unfold uvmdealloc. rewrite (proj2 (Z.leb_le _ _)); [done|]. rewrite trapframe_val in Hsz. lia. }
        rewrite (bind_run _ _ _ _ _ E). exists 0, sz, k, g. do 4 (split; [done|]). by left.
    + assert (n = 0) as -> by lia. exists 0, sz, k, g. do 4 (split; [done|]). left. split; [done|].
      rewrite decide_True by lia. lia.
Qed.

Lemma lazy_ok k root g sz newsz : space k root g sz → sz ≤ newsz ≤ TRAPFRAME → space k root g newsz ∧ resized newsz k g k g.
Proof using Type.
  intros Hs Hn. pose proof (npg_mono sz newsz ltac:(lia)). split.
  - destruct Hs as [H1 H2 H3 H4 H5]. split; [done|done|lia| |done]. intros v Hv Hsv. specialize (H4 v Hv Hsv). lia.
  - intros x. case_decide; [done|]. apply (umem_above k root g sz x Hs). unfold PGSIZE in *. lia.
Qed.

(** [sbrk(n)] returns the old size and changes it by [n], at once or lazily, or returns -1 and leaves it; the
    memory below the new size stays as it was, memory that is new reads as zeros, and no page is lost. *)
Theorem sbrk_memory k root g sz n t :
  space k root g sz → - 2 ^ 31 ≤ n < 2 ^ 31 →
  ∃ r sz' k' g', sys_sbrk kend root sz n t k = (Ret (r, sz'), k') ∧ space k' root g' sz' ∧ (∀ p, pool g' p ↔ pool g p) ∧
    (∀ x, umem k' g' x = if decide (x < npg sz' * PGSIZE) then umem k g x else 0) ∧
    (r = sz ∧ sz' = (if decide (0 ≤ sz + n) then sz + n else sz) ∨ r = -1 ∧ sz' = sz ∧ 0 < n).
Proof using Hend.
  intros Hs Hn. pose proof (s_sz _ _ _ _ _ _ _ Hs) as Hsz. unfold sys_sbrk. pose proof (resized_same _ _ _ _ Hs) as Hr0.
  destruct ((t =? SBRK_EAGER) || (n <? 0)) eqn:Et.
  - destruct (growproc_ok k root g sz n Hs Hn) as (r & sz' & k' & g' & E & Hev & Hs' & Hre & Hr).
    rewrite (bind_run _ _ _ _ _ E). destruct Hr as [[-> ->]|(-> & -> & Hpos)]; cbn [Z.ltb Z.compare].
    + eexists _, _, k', g'. split; [done|]. split; [done|]. split; [apply (ev_pool _ _ _ _ _ _ Hev)|]. split; [done|by left].
    + eexists _, _, k', g'. split; [done|]. split; [done|]. split; [apply (ev_pool _ _ _ _ _ _ Hev)|]. split; [done|by right].
  - apply orb_false_iff in Et as [_ Et]. apply Z.ltb_ge in Et. rewrite sz_u64, decide_True by (try done; lia).
    rewrite (proj2 (Z.ltb_ge _ _)) by lia. destruct (TRAPFRAME <? sz + n) eqn:E.
    + exists (-1), sz, k, g. split; [done|]. split; [done|]. split; [done|]. split; [done|]. right.
      apply Z.ltb_lt in E. split; [done|]. split; [done|lia].
    + apply Z.ltb_ge in E. destruct (lazy_ok k root g sz (sz + n) Hs ltac:(lia)) as [H1 H2].
      exists sz, (sz + n), k, g. do 4 (split; [done|]). left. by rewrite decide_True by lia.
Qed.

(** ** Copies *)
Lemma stored_space k root g k' g' sz :
  space k root g sz → vm_ok kend UVPN k' root g' → hand g' = hand g → stored sz k g k' g' → space k' root g' sz.
Proof using Type.
  intros [H1 H2 H3 H4 H5] Hok Hh [S1 S2 S3]. split; [done|congruence|done| |].
  - intros v Hv Hs. destruct (leaf g !! v) as [e|] eqn:E; [apply H4; [done|by rewrite E]|].
    destruct (S3 v E) as [En|Hlt]; [rewrite En in Hs; by destruct Hs|]. pose proof (npg_bounds sz). unfold PGSIZE in *. lia.
  - intros v Hv. rewrite <-H5 by done. destruct (leaf g !! v) as [e|] eqn:E; [by apply S2|].
    destruct (S3 v E) as [En|Hlt]; [done|]. exfalso. rewrite <-uvpn_val in H3. unfold PGSIZE in *. lia.
Qed.

Lemma copyinstr_loop_ok root psz fuel : ∀ k g srcva max,
  vm_ok kend UVPN k root g → 0 ≤ srcva → psz ≤ TRAPFRAME → fits fuel srcva max →
  ∃ r s k' g', copyinstr_loop kend fuel root psz srcva max k = (Ret (r, s), k') ∧ vm_ok kend UVPN k' root g' ∧
    hand g' = hand g ∧ faulted kend psz k g k' g' ∧
    (r = 0 ∧ cstring (umem k g) srcva max s ∨
     r = -1 ∧ (no_nul (umem k g) srcva max ∨ ∃ v, pages_of srcva max v ∧ user_pa g v = 0)).
Proof using Hend.
  induction fuel as [|fuel IH]; intros k g srcva max Hok Hva Hpsz Hf; cbn [copyinstr_loop].
  all: destruct max as [|max']; [exists (-1), [], k, g; split; [done|]; split; [done|]; split; [done|];
    split; [apply faulted_refl|right; split; [done|left; intros i Hi; lia]]|].
  { exfalso. destruct Hf as [?|Hf]; [done|]. pose proof (Z.mod_pos_bound srcva PGSIZE ltac:(done)). lia. }
  set (max := S max') in *. rewrite pgrounddown_div. set (v := srcva / PGSIZE) in *.
  destruct (fits_next fuel srcva max v Hva eq_refl Hf) as (Hf' & Hn1 & Hn2 & Hin & Hn0).
  set (n := Nat.min (Z.to_nat (PGSIZE - (srcva - v * PGSIZE))) max) in *.
  assert (Hv : 0 ≤ v) by by apply Z.div_pos.
  assert (Hself : pages_of srcva max v) by (unfold pages_of; fold v; unfold max; lia).
  destruct (user_page_ok kend Hend k root g psz v Hok Hv Hpsz) as (k1 & g1 & E1 & Hok1 & Hh1 & Hf1 & Hsame). rewrite (bind_run _ _ _ _ _ E1).
  destruct (user_pa g1 v =? 0) eqn:Ep.
  { apply Z.eqb_eq in Ep. exists (-1), [], k1, g1. do 4 (split; [done|]). right. split; [done|]. right. exists v. split; [done|].
    destruct (decide (user_pa g v = 0)) as [|Hne]; [done|]. destruct (Hsame Hne) as [_ ->]. done. }
  apply Z.eqb_neq in Ep. destruct (user_pa_page kend _ _ _ _ Hok1 Ep) as (e & He & _ & Hvu & _).
  assert (Hb : (λ i, phys k1 (user_pa g1 v + (srcva - v * PGSIZE) + Z.of_nat i)) <$> seq 0 n = read srcva n (umem k g)).
  { unfold read. apply list_fmap_ext. intros i x Hi. apply lookup_seq in Hi as [-> Hi].
    rewrite <-(faulted_umem kend Hend _ _ _ _ _ Hf1). rewrite (umem_page kend k1 root g1 v _ Hok1 Ep) by lia. f_equal. lia. }
  unfold load_bytes, mbind at 1, M_bind at 1, gets at 1. cbn [fst snd]. rewrite Hb.
  pose proof (upto_nul_read (umem k g) srcva n) as Hup. destruct (upto_nul (read srcva n (umem k g))) as [[] s].
  { exists 0, s, k1, g1. do 4 (split; [done|]). left. split; [done|]. destruct Hup as (m & Hm & H). exists m. split; [lia|done]. }
  destruct Hup as [-> Hnn].
  replace (u64 (v * PGSIZE + PGSIZE)) with ((v + 1) * PGSIZE).
  2: { rewrite u64_small; [lia|]. pose proof uvpn_val as Hu. rewrite trapframe_val in Hu. unfold PGSIZE in *. lia. }
  destruct (IH k1 g1 ((v + 1) * PGSIZE) (max - n)%nat Hok1) as (r & s & k2 & g2 & E2 & Hok2 & Hh2 & Hf2 & Hr);
    [unfold PGSIZE; lia|done|done|]. rewrite (bind_run _ _ _ _ _ E2).
  exists r, (read srcva n (umem k g) ++ s), k2, g2. split; [done|]. split; [done|]. split; [congruence|].
  split; [eapply (faulted_trans kend Hend); [exact Hf1|exact Hf2|]; intros w; by eapply faulted_low|].
  assert (Hsh : ∀ i, (n + i < max)%nat → umem k1 g1 ((v + 1) * PGSIZE + Z.of_nat i) = umem k g (srcva + Z.of_nat (n + i))).
  { intros i Hi. rewrite (faulted_umem kend Hend _ _ _ _ _ Hf1). f_equal. destruct Hn2 as [Hn2|Hn2]; lia. }
  assert (Hjoin : ∀ m, (n + m ≤ max)%nat → no_nul (umem k1 g1) ((v + 1) * PGSIZE) m → no_nul (umem k g) srcva (n + m)).
  { intros m Hm H i Hi. destruct (decide (i < n)%nat); [by apply Hnn|]. replace i with (n + (i - n))%nat by lia.
    rewrite <-Hsh by lia. apply H. lia. }
  destruct Hr as [(-> & m & Hm & -> & Hz & Hnz)|(-> & Hr)].
  - left. split; [done|]. exists (n + m)%nat. split; [lia|]. rewrite <-Hsh by lia. split; [|split; [done|]].
    + replace (S (n + m)) with (n + S m)%nat by lia. rewrite read_app. f_equal. unfold read. apply list_fmap_ext. intros i x Hi.
      apply lookup_seq in Hi as [-> Hi]. cbn [Nat.add]. rewrite Hsh by lia. f_equal. lia.
    + apply Hjoin; [lia|]. exact Hnz.
  - right. split; [done|]. destruct Hr as [Hr|(w & (Hw0 & Hw1 & Hw2) & Hwp)].
    + left. replace max with (n + (max - n))%nat by lia. apply Hjoin; [lia|done].
    + right. exists w. rewrite Z.div_mul in Hw1 by done. destruct Hn2 as [Hn2|Hn2]; [lia|]. split; [unfold pages_of; fold v; lia|].
      unfold user_pa in *. destruct (leaf g !! w) as [e'|] eqn:El; [|done].
      destruct (ev_keep _ _ _ _ _ _ (fl_evolves _ _ _ _ _ _ Hf1) w e' I El) as [El' _]. by rewrite El' in Hwp.
Qed.

Lemma copyinstr_ok root psz k g srcva max :
  vm_ok kend UVPN k root g → 0 ≤ srcva → psz ≤ TRAPFRAME →
  ∃ r s k' g', copyinstr kend root psz srcva max k = (Ret (r, s), k') ∧ vm_ok kend UVPN k' root g' ∧
    hand g' = hand g ∧ faulted kend psz k g k' g' ∧
    (r = 0 ∧ cstring (umem k g) srcva max s ∨
     r = -1 ∧ (no_nul (umem k g) srcva max ∨ ∃ v, pages_of srcva max v ∧ user_pa g v = 0)).
Proof using Hend. intros Hok Hva Hpsz. apply copyinstr_loop_ok; [done|done|done|apply fits_enough]. Qed.

Lemma faulted_space k root g k' g' sz :
  space k root g sz → vm_ok kend UVPN k' root g' → hand g' = hand g → faulted kend sz k g k' g' → space k' root g' sz.
Proof using Type. intros Hs Hok Hh Hf. apply (stored_space k root g); [done|done|done|by apply (faulted_stored kend)]. Qed.

(** C16: what [copyout] stores at a user address, across pages and in pages never touched before, [copyin] reads back,
    and every other byte of the process is as it was; when it returns -1 it stored a part from the start. *)
Theorem copyout_copyin k root g sz va src :
  space k root g sz → 0 ≤ va →
  ∃ r k' g', copyout kend root sz va src k = (Ret r, k') ∧ space k' root g' sz ∧ (∀ p, pool g' p ↔ pool g p) ∧
    (r = 0 ∧ (∀ x, umem k' g' x = write va src (umem k g) x) ∧
       (∃ k'', copyin kend root sz va (length src) k' = (Ret (0, src), k'')) ∨
     r = -1 ∧ ∃ n, (n < length src)%nat ∧ ∀ x, umem k' g' x = write va (take n src) (umem k g) x).
Proof using Hend.
  intros Hs Hva. pose proof Hs as [Hok Hh Hsz _ _].
  destruct (copyout_ok kend Hend root sz k g va src Hok Hva ltac:(lia)) as (r & k' & g' & E & Hok' & Hh' & Hst & Hr).
  exists r, k', g'. split; [done|]. split; [by eapply stored_space|]. split; [apply (ev_pool _ _ _ _ _ _ (st_evolves _ _ _ _ _ Hst))|].
  destruct Hr as [(-> & Hm & Hp)|Hr]; [left|by right]. split; [done|]. split; [done|].
  destruct (copyin_ok kend Hend root sz k' g' va (length src) Hok' Hva ltac:(lia)) as (r & bs & k2 & g2 & E2 & _ & _ & _ & Hr).
  exists k2. rewrite E2. destruct Hr as [[-> ->]|(_ & _ & v & Hv & H0)]; [|by destruct (Hp v Hv)].
  do 2 f_equal. rewrite (read_ext _ _ _ _ Hm). by rewrite read_write.
Qed.

(** [copyinstr] returns 0 with the string at the address when it ends before [max] bytes, and -1 only when it
    does not or when a page is missing; the memory of the process stays as it was. *)
Theorem copyinstr_reads k root g sz va max :
  space k root g sz → 0 ≤ va →
  ∃ r s k' g', copyinstr kend root sz va max k = (Ret (r, s), k') ∧ space k' root g' sz ∧
    (∀ x, umem k' g' x = umem k g x) ∧ (∀ p, pool g' p ↔ pool g p) ∧
    (r = 0 ∧ cstring (umem k g) va max s ∨
     r = -1 ∧ (no_nul (umem k g) va max ∨ ∃ v, pages_of va max v ∧ user_pa g v = 0)).
Proof using Hend.
  intros Hs Hva. pose proof Hs as [Hok Hh Hsz _ _].
  destruct (copyinstr_ok root sz k g va max Hok Hva ltac:(lia)) as (r & s & k' & g' & E & Hok' & Hh' & Hf & Hr).
  exists r, s, k', g'. split; [done|]. split; [by eapply faulted_space|]. split; [by apply (faulted_umem kend Hend sz)|].
  split; [apply (ev_pool _ _ _ _ _ _ (fl_evolves _ _ _ _ _ _ Hf))|done].
Qed.

(** ** From creation to the end *)

(** What changes an address space: system calls, faults, and the copies of the kernel. *)
Inductive space_op :=
  | Sbrk (n t : Z)
  | Fault (va : Z)
  | CopyOut (va : Z) (src : list Z)
  | CopyIn (va : Z) (len : nat)
  | CopyInStr (va : Z) (max : nat).

Definition op_ok (op : space_op) : Prop :=
  match op with
  | Sbrk n _ => - 2 ^ 31 ≤ n < 2 ^ 31
  | Fault va | CopyOut va _ | CopyIn va _ | CopyInStr va _ => 0 ≤ va
  end.

(** The new [p->sz]. *)
Definition space_step (root : Z) (op : space_op) (sz : Z) : V Z :=
  match op with
  | Sbrk n t => r ← sys_sbrk kend root sz n t; mret (snd r)
  | Fault va => vmfault kend root sz va;; mret sz
  | CopyOut va src => copyout kend root sz va src;; mret sz
  | CopyIn va len => copyin kend root sz va len;; mret sz
  | CopyInStr va max => copyinstr kend root sz va max;; mret sz
  end.

Fixpoint space_run (root : Z) (ops : list space_op) (sz : Z) : V Z :=
  match ops with
  | [] => mret sz
  | op :: ops => sz ← space_step root op sz; space_run root ops sz
  end.

Lemma space_step_ok root op k g sz :
  space k root g sz → op_ok op →
  ∃ sz' k' g', space_step root op sz k = (Ret sz', k') ∧ space k' root g' sz' ∧ evolves none k g k' g'.
Proof using Hend.
  intros Hs Hop. pose proof Hs as [Hok Hh Hsz _ _]. destruct op as [n t|va|va src|va len|va max]; cbn [space_step op_ok] in *.
  - unfold sys_sbrk. destruct ((t =? SBRK_EAGER) || (n <? 0)) eqn:Et.
    + destruct (growproc_ok k root g sz n Hs Hop) as (r & sz' & k' & g' & E & Hev & Hs' & _).
      exists sz', k', g'. unfold mbind, M_bind. rewrite E. done.
    + apply orb_false_iff in Et as [_ Et]. apply Z.ltb_ge in Et. rewrite sz_u64, decide_True by (try done; lia).
      rewrite (proj2 (Z.ltb_ge _ _)) by lia. destruct (TRAPFRAME <? sz + n) eqn:E.
      * exists sz, k, g. split; [done|]. split; [done|apply evolves_refl].
      * apply Z.ltb_ge in E. exists (sz + n), k, g. split; [done|]. split; [by apply (lazy_ok k root g sz); [|lia]|apply evolves_refl].
  - destruct (vmfault_ok kend Hend k root g sz va Hok Hop ltac:(lia)) as (p & k' & g' & E & Hok' & Hh' & Hf & _).
    rewrite (bind_run _ _ _ _ _ E). exists sz, k', g'. split; [done|]. split; [by eapply faulted_space|].
    eapply evolves_mono; [|apply Hf]. done.
  - destruct (copyout_ok kend Hend root sz k g va src Hok Hop ltac:(lia)) as (r & k' & g' & E & Hok' & Hh' & Hst & _).
    rewrite (bind_run _ _ _ _ _ E). exists sz, k', g'. split; [done|]. split; [by eapply stored_space|].
    eapply evolves_mono; [|apply Hst]. done.
  - destruct (copyin_ok kend Hend root sz k g va len Hok Hop ltac:(lia)) as (r & bs & k' & g' & E & Hok' & Hh' & Hf & _).
    rewrite (bind_run _ _ _ _ _ E). exists sz, k', g'. split; [done|]. split; [by eapply faulted_space|].
    eapply evolves_mono; [|apply Hf]. done.
  - destruct (copyinstr_ok root sz k g va max Hok Hop ltac:(lia)) as (r & s & k' & g' & E & Hok' & Hh' & Hf & _).
    rewrite (bind_run _ _ _ _ _ E). exists sz, k', g'. split; [done|]. split; [by eapply faulted_space|].
    eapply evolves_mono; [|apply Hf]. done.
Qed.

Lemma space_run_ok root ops : ∀ k g sz,
  space k root g sz → Forall op_ok ops →
  ∃ sz' k' g', space_run root ops sz k = (Ret sz', k') ∧ space k' root g' sz' ∧ evolves none k g k' g'.
Proof using Hend.
  induction ops as [|op ops IH]; intros k g sz Hs Hops; cbn [space_run].
  - exists sz, k, g. split; [done|]. split; [done|apply evolves_refl].
  - apply Forall_cons in Hops as [Hop Hops]. destruct (space_step_ok root op k g sz Hs Hop) as (sz1 & k1 & g1 & E1 & Hs1 & Hev1).
    rewrite (bind_run _ _ _ _ _ E1). destruct (IH k1 g1 sz1 Hs1 Hops) as (sz2 & k2 & g2 & E2 & Hs2 & Hev2).
    exists sz2, k2, g2. split; [done|]. split; [done|]. by eapply evolves_trans.
Qed.

(** C7: an address space can be made, grown, shrunk, faulted and copied in any order, and freed, without a panic,
    even when memory runs out; in the end the free pages are those there were at the start and no other memory
    was changed. *)
Theorem address_space_balanced k f ops :
  free_pages kend k f → Forall op_ok ops →
  ∃ r k1, proc_pagetable kend trampoline trapframe k = (Ret r, k1) ∧
    (r = 0 ∧ restored kend f k k1 ∨
     r ≠ 0 ∧ ∃ sz k2 k3, space_run r ops 0 k1 = (Ret sz, k2) ∧ proc_freepagetable kend r sz k2 = (Ret (), k3) ∧
       restored kend f k k3).
Proof using Hend Htramp Htrap.
  intros Hf Hops. destruct (proc_pagetable_ok kend Hend trampoline trapframe Htramp Htrap k f Hf) as (r & k1 & E1 & Hr).
  exists r, k1. split; [done|]. destruct Hr as [Hr|(Hr & Hfr & g & Hs & Hp)]; [by left|right]. split; [done|].
  destruct (space_run_ok r ops k1 g 0 Hs Hops) as (sz & k2 & g2 & E2 & Hs2 & Hev2).
  destruct (proc_freepagetable_ok kend Hend trampoline trapframe k2 r g2 sz Hs2) as (k3 & f3 & E3 & Hf3 & Hq3 & Hm3).
  exists sz, k2, k3. split; [done|]. split; [done|].
  apply (restored_intro kend f k g2 k2 k3 f3); [done| | |done|done|done].
  - intros p. by rewrite (ev_pool _ _ _ _ _ _ Hev2).
  - intros x Hx. rewrite (ev_frame _ _ _ _ _ _ Hev2); [by apply Hfr|]. intros p Hp'. apply Hx. by apply Hp.
Qed.
End Life.

(** ** Witnesses *)
Lemma end_ok : 0 < 0x80021000 < PHYSTOP. Proof. done. Qed.
Lemma tramp_ok : aligned 0x80020000. Proof. done. Qed.

Lemma trap_ok : aligned 0x87fff000. Proof. done. Qed.
Lemma kinit_ok : PGROUNDUP 0x80021000 ≤ PHYSTOP. Proof. done. Qed.
Definition some_ops : list space_op := [Sbrk 10000 1; CopyOut 4090 [1; 2; 3]; Sbrk (-5000) 1; Fault 0].
Lemma some_ops_ok : Forall op_ok some_ops. Proof. repeat constructor; cbn; lia. Qed.

Theorem address_space_balanced_witness :
  ∃ k0 r k1, kinit 0x80021000 (λ _, 0) = Some k0 ∧ proc_pagetable 0x80021000 0x80020000 0x87fff000 k0 = (Ret r, k1) ∧
    (r = 0 ∨ ∃ sz k2 k3, space_run 0x80021000 r some_ops 0 k1 = (Ret sz, k2) ∧
       proc_freepagetable 0x80021000 r sz k2 = (Ret (), k3) ∧ restored 0x80021000 (all_pages 0x80021000) k0 k3).
Proof.
  destruct (kinit_spec 0x80021000 end_ok (λ _, 0) kinit_ok) as (k0 & E0 & Hf).
  destruct (address_space_balanced 0x80021000 end_ok 0x80020000 0x87fff000 tramp_ok trap_ok k0 (all_pages 0x80021000)
    some_ops Hf some_ops_ok) as (r & k1 & E1 & Hr).
  exists k0, r, k1. split; [exact E0|]. split; [exact E1|]. destruct Hr as [[Hr _]|(_ & sz & k2 & k3 & H)]; [left; exact Hr|right].
  exists sz, k2, k3. exact H.
Defined.
