(* ===== verification/VmSpawn.v ===== *)
(** * The memory of a new process

    [kfork] gives the child a page table of its own and a copy of the parent's
    memory; the witnesses of the theorems about address spaces are here too. *)

From stdpp Require Import gmap.
From S2P Require Export VmLife.

#[local] Set Warnings "-clear-no-such-hyp".
#[local] Set Default Proof Using "Type".
Local Open Scope Z_scope.

Section Spawn.
Context (kend : Z) (Hend : 0 < kend < PHYSTOP).
Context (trampoline trapframe trapframe' : Z) (Htramp : aligned trampoline) (Htrap' : aligned trapframe').

(** The parent's table and user pages, without the free pages. *)
Definition alone (g : ghost) : ghost := set_pages [] [] g.

Lemma alone_tables m root g : tables kend UVPN m root g → tables kend UVPN m root (alone g).
Proof using Type. intros H. destruct H. by split. Qed.

Lemma child_apart k root g sz g' :
  space kend trampoline trapframe k root g sz → (∀ p, pool g' p ↔ p ∈ fr g) → apart (alone g) g'.
Proof using Type.
  intros [Hok Hh _ _ _] Hp p Hs Hpool. apply Hp in Hpool. rewrite (v_apart _ _ _ _ _ Hok) in Hs; [by destruct Hs|].
  by rewrite Hh.
Qed.

(** The free pages are the child's to work with: its table is a space of its own. *)
Lemma child_pagetable_ok k root g sz :
  space kend trampoline trapframe k root g sz →
  ∃ r k1, proc_pagetable kend trampoline trapframe' k = (Ret r, k1) ∧
    tables kend UVPN (phys k1) root (alone g) ∧ (∀ x, umem k1 g x = umem k g x) ∧
    (r = 0 ∧ restored kend (fr g) k k1 ∨
     r ≠ 0 ∧ framed (fr g) k k1 ∧ ∃ g1, space kend trampoline trapframe' k1 r g1 0 ∧ apart (alone g) g1 ∧
       ∀ p, pool g1 p ↔ p ∈ fr g).
Proof using Hend Htramp Htrap'.
  intros Hs. pose proof Hs as [Hok Hh _ _ _]. pose proof (v_tables _ _ _ _ _ Hok) as Ht.
  destruct (proc_pagetable_ok kend Hend trampoline trapframe' Htramp Htrap' k (fr g) (v_free _ _ _ _ _ Hok)) as (r & k1 & E & Hr).
  assert (Hfr : framed (fr g) k k1) by (destruct Hr as [(_ & f' & _ & _ & H)|(_ & H & _)]; exact H).
  assert (Hkeep : ∀ p x, is_Some (own g !! p) → in_page p x → phys k1 x = phys k x).
  { intros p x Hp Hx. apply Hfr. intros q Hq. apply (pages_apart kend p q x); [by apply (t_page _ _ _ _ _ Ht)|by eapply fr_page| |done].
    intros ->. rewrite (v_apart _ _ _ _ _ Hok) in Hp; [by destruct Hp|]. apply elem_of_app. by right. }
  exists r, k1. split; [done|]. split; [|split].
  - apply alone_tables. eapply tables_ext; [|exact Ht]. intros n p x Hp Hx. apply (Hkeep p); [|done].
    apply (t_dir _ _ _ _ _ Ht) in Hp. by rewrite Hp.
  - intros x. unfold umem. case_decide as Hx; [|done]. destruct (leaf g !! (x / PGSIZE)) as [e|] eqn:E1; [|done].
    apply (Hkeep (PTE2PA e)); [|apply mod_in_page]. destruct (leaf_page _ _ _ _ _ _ _ Hok E1 (va_uvpn x Hx)) as [Ho _]. by rewrite Ho.
  - destruct Hr as [Hr|(Hr & H1 & g1 & Hs1 & Hp1)]; [by left|right]. split; [done|]. split; [done|]. exists g1.
    split; [done|]. split; [|done]. by eapply child_apart.
Qed.

(** C9: [kfork]'s work on memory: the child gets a table of its own in which every byte below the parent's size reads
    as the parent's, with the parent's permissions, or the copy fails and freeing the child's table gives every page
    back; the parent's memory does not change. *)
Theorem fork_copies_memory k root g sz :
  space kend trampoline trapframe k root g sz →
  ∃ r k1, proc_pagetable kend trampoline trapframe' k = (Ret r, k1) ∧
    (r = 0 ∧ restored kend (fr g) k k1 ∨
     r ≠ 0 ∧ ∃ c k2 g2, uvmcopy kend root r sz k1 = (Ret c, k2) ∧
       tables kend UVPN (phys k2) root (alone g) ∧ (∀ x, umem k2 g x = umem k g x) ∧
       (c = 0 ∧ space kend trampoline trapframe' k2 r g2 sz ∧ (∀ x, 0 ≤ x → umem k2 g2 x = umem k g x) ∧
          (∀ w, 0 ≤ w < npg sz → PTE_FLAGS <$> leaf g2 !! w = PTE_FLAGS <$> leaf g !! w) ∨
        c = -1 ∧ ∃ k3, proc_freepagetable kend r 0 k2 = (Ret (), k3) ∧ restored kend (fr g) k k3)).
Proof using Hend Htramp Htrap'.
  intros Hs. pose proof Hs as [Hok Hh Hsz Hlow _]. pose proof (npg_le sz Hsz) as Hm.
  destruct (child_pagetable_ok k root g sz Hs) as (r & k1 & E1 & Ht1 & Hu1 & Hr).
  exists r, k1. split; [done|]. destruct Hr as [Hr|(Hr & Hfr1 & g1 & Hs1 & Ha1 & Hp1)]; [by left|right]. split; [done|].
  pose proof Hs1 as [Hok1 Hh1 _ Hlow1 Hhigh1].
  assert (Hnone : ∀ w, w < UVPN → leaf g1 !! w = None).
  { intros w Hw. destruct (leaf g1 !! w) as [e|] eqn:El; [exfalso|done].
    pose proof (Hlow1 w Hw ltac:(by rewrite El)) as H. change (npg 0) with 0 in H.
    pose proof (leaf_nonneg kend k1 r g1 w Hok1 ltac:(by rewrite El)). lia. }
  destruct (uvmcopy_copies kend Hend root (alone g) r sz k1 g1 Hok1 Ha1 Ht1 Hsz) as (c & k2 & g2 & E2 & Hok2 & Hh2 & Ht2 & Hu2 & Hev2 & Hc).
  { intros w Hw. apply Hnone. lia. }
  exists c, k2, g2. split; [done|]. split; [done|]. split; [intros x; rewrite <-Hu1; apply (Hu2 x)|].
  destruct Hc as [(-> & Hm2 & Hfl & Hhi)|(-> & Hl2)]; [left|right]; (split; [done|]).
  - assert (Hs2 : space kend trampoline trapframe' k2 r g2 sz).
    { split; [done|congruence|done| |].
      - intros v Hv Hsv. destruct (decide (v < npg sz)); [done|]. rewrite Hhi, Hnone in Hsv by lia. by destruct Hsv.
      - intros v Hv. rewrite Hhi by lia. by apply Hhigh1. }
    split; [done|]. split; [|done]. intros x Hx. destruct (decide (x < npg sz * PGSIZE)) as [Hlt|Hge].
    + rewrite Hm2 by lia. apply Hu1.
    + rewrite (umem_above kend trampoline trapframe' k2 r g2 sz x Hs2) by lia.
      by rewrite (umem_above kend trampoline trapframe k root g sz x Hs) by lia.
  - assert (Hs2 : space kend trampoline trapframe' k2 r g2 0).
    { split; [done|congruence|by rewrite trapframe_val| |].
      - intros v Hv Hsv. rewrite Hl2, Hnone in Hsv by done. by destruct Hsv.
      - intros v Hv. rewrite Hl2. by apply Hhigh1. }
    destruct (proc_freepagetable_ok kend Hend trampoline trapframe' k2 r g2 0 Hs2) as (k3 & f3 & E3 & Hf3 & Hq3 & Hm3).
    exists k3. split; [done|]. apply (restored_intro kend (fr g) k g2 k2 k3 f3); try done.
    + apply (v_free _ _ _ _ _ Hok).
    + intros p. by rewrite (ev_pool _ _ _ _ _ _ Hev2), Hp1.
    + intros x Hx. rewrite (ev_frame _ _ _ _ _ _ Hev2); [by apply Hfr1|]. intros p Hp. apply Hx. by apply Hp1.
Qed.
End Spawn.

(** ** Witnesses

    A machine with sixteen pages. *)
Definition small_end : Z := PHYSTOP - 16 * PGSIZE.
Lemma small_ok : 0 < small_end < PHYSTOP. Proof. done. Qed.
Lemma small_kinit : PGROUNDUP small_end ≤ PHYSTOP. Proof. done. Qed.
Lemma page_a : aligned 0x80020000. Proof. done. Qed.
Lemma page_b : aligned 0x80021000. Proof. done. Qed.
Lemma page_c : aligned 0x80022000. Proof. done. Qed.

Lemma small_pagetable :
  match kinit small_end (λ _, 0) with
  | Some k => match fst (proc_pagetable small_end 0x80020000 0x80021000 k) with Ret r => negb (r =? 0) | _ => false end
  | None => false
  end = true.
Proof. vm_compute. reflexivity. Qed.

Lemma small_space : ∃ k root g, space small_end 0x80020000 0x80021000 k root g 0.
Proof.
  destruct (kinit_spec small_end small_ok (λ _, 0) small_kinit) as (k0 & E0 & Hf).
  destruct (proc_pagetable_ok small_end small_ok _ _ page_a page_b k0 (all_pages small_end) Hf) as (r & k1 & E1 & Hr).
  pose proof small_pagetable as H. rewrite E0, E1 in H. cbn [fst] in H. destruct Hr as [[-> _]|(_ & _ & g & Hs & _)]; [done|].
  by exists k1, r, g.
Qed.

Theorem sbrk_memory_witness :
  ∃ k root g sz' k' g', space small_end 0x80020000 0x80021000 k root g 0 ∧ space small_end 0x80020000 0x80021000 k' root g' sz' ∧
    ∀ x, umem k' g' x = if decide (x < npg sz' * PGSIZE) then umem k g x else 0.
Proof.
  destruct small_space as (k & root & g & Hs).
  destruct (sbrk_memory small_end small_ok 0x80020000 0x80021000 k root g 0 5000 1 Hs ltac:(lia)) as (r & sz' & k' & g' & _ & Hs' & _ & Hm & _).
  exists k, root, g, sz', k', g'. split; [exact Hs|]. split; [exact Hs'|exact Hm].
Defined.

Theorem copyout_copyin_witness :
  ∃ k root g k' g', space small_end 0x80020000 0x80021000 k root g 8000 ∧ space small_end 0x80020000 0x80021000 k' root g' 8000 ∧
    ((∃ k'', copyin small_end root 8000 4094 4 k' = (Ret (0, [1; 2; 3; 4]), k'')) ∨
     ∃ n, (n < 4)%nat ∧ ∀ x, umem k' g' x = write 4094 (take n [1; 2; 3; 4]) (umem k g) x).
Proof.
  destruct small_space as (k & root & g & Hs0).
  assert (Hs : space small_end 0x80020000 0x80021000 k root g 8000)
    by (apply (lazy_ok _ _ _ k root g 0 8000 Hs0); rewrite trapframe_val; lia).
  destruct (copyout_copyin small_end small_ok 0x80020000 0x80021000 k root g 8000 4094 [1; 2; 3; 4] Hs ltac:(lia))
    as (r & k' & g' & _ & Hs' & _ & Hr).
  exists k, root, g, k', g'. split; [exact Hs|]. split; [exact Hs'|].
  destruct Hr as [(_ & _ & H)|(_ & H)]; [left; exact H|right; exact H].
Defined.

Theorem copyinstr_reads_witness :
  ∃ k root g s k' r, space small_end 0x80020000 0x80021000 k root g 8000 ∧ copyinstr small_end root 8000 4094 10 k = (Ret (r, s), k').
Proof.
  destruct small_space as (k & root & g & Hs0).
  assert (Hs : space small_end 0x80020000 0x80021000 k root g 8000)
    by (apply (lazy_ok _ _ _ k root g 0 8000 Hs0); rewrite trapframe_val; lia).
  destruct (copyinstr_reads small_end small_ok 0x80020000 0x80021000 k root g 8000 4094 10 Hs ltac:(lia)) as (r & s & k' & g' & E & _).
  exists k, root, g, s, k', r. split; [exact Hs|exact E].
Defined.

Theorem fork_copies_memory_witness :
  ∃ k root g r k1, space small_end 0x80020000 0x80021000 k root g 8000 ∧
    proc_pagetable small_end 0x80020000 0x80022000 k = (Ret r, k1) ∧
    (r = 0 ∨ ∃ c k2 g2, uvmcopy small_end root r 8000 k1 = (Ret c, k2) ∧ (c = 0 → ∀ x, 0 ≤ x → umem k2 g2 x = umem k g x)).
Proof.
  destruct small_space as (k & root & g & Hs0).
  assert (Hs : space small_end 0x80020000 0x80021000 k root g 8000)
    by (apply (lazy_ok _ _ _ k root g 0 8000 Hs0); rewrite trapframe_val; lia).
  destruct (fork_copies_memory small_end small_ok 0x80020000 0x80021000 0x80022000 page_a page_c k root g 8000 Hs) as (r & k1 & E1 & Hr).
  exists k, root, g, r, k1. split; [exact Hs|]. split; [exact E1|]. destruct Hr as [[Hr _]|(_ & c & k2 & g2 & E2 & _ & _ & Hc)]; [left; exact Hr|].
  right. exists c, k2, g2. split; [exact E2|]. intros E. destruct Hc as [(_ & _ & H & _)|(H & _)]; [exact H|congruence].
Defined.
