(* ===== verification/File.v ===== *)
(** * Open files (xv6/kernel/file.c, pipe.c)

    The table of open files over the file system ([Fs] to [Dir]) and the pipes
    ([Pipe]).  A file, an inode and a pipe are named by their index in their
    table.  [k_ops] counts the transactions the process has open:
    [begin_op] and [end_op] themselves are in [Log].

    A call takes what it gets from the user as functions: [ucopyin t m] is what
    is stored of the [m] bytes at [addr + t] and whether all could be read,
    [ucopyout t m] whether [m] bytes can be stored at [addr + t].  [killed] is
    what [killed] says at each turn of a loop; [devsw] is the table of devices,
    with the drivers' functions as the code installs them. *)

From S2P Require Export Dir Pipe.

#[local] Set Warnings "-clear-no-such-hyp".
#[local] Set Default Proof Using "Type".
Local Open Scope Z_scope.

Definition NFILE : nat := 100.
Definition NOFILE : nat := 16.
Definition NDEV : Z := 10.
Definition MAXOPBLOCKS : Z := 10.

Inductive file_type := FD_NONE | FD_PIPE | FD_INODE | FD_DEVICE.

Record file := {
  f_type : file_type; f_ref : Z; f_readable : bool; f_writable : bool; f_pipe : nat; f_ip : nat;
  f_off : Z; f_major : Z
}.

Record kernel := {
  k_fs : fs; k_files : list file; k_pipes : list (option pipe); k_ofile : list (option nat); k_cwd : nat;
  k_ops : Z
}.

Definition set_fs (x : fs) (k : kernel) : kernel :=
  {| k_fs := x; k_files := k_files k; k_pipes := k_pipes k; k_ofile := k_ofile k; k_cwd := k_cwd k; k_ops := k_ops k |}.
Definition set_files (x : list file) (k : kernel) : kernel :=
  {| k_fs := k_fs k; k_files := x; k_pipes := k_pipes k; k_ofile := k_ofile k; k_cwd := k_cwd k; k_ops := k_ops k |}.
Definition set_pipes (x : list (option pipe)) (k : kernel) : kernel :=
  {| k_fs := k_fs k; k_files := k_files k; k_pipes := x; k_ofile := k_ofile k; k_cwd := k_cwd k; k_ops := k_ops k |}.
Definition set_ofile (x : list (option nat)) (k : kernel) : kernel :=
  {| k_fs := k_fs k; k_files := k_files k; k_pipes := k_pipes k; k_ofile := x; k_cwd := k_cwd k; k_ops := k_ops k |}.
Definition set_cwd (x : nat) (k : kernel) : kernel :=
  {| k_fs := k_fs k; k_files := k_files k; k_pipes := k_pipes k; k_ofile := k_ofile k; k_cwd := x; k_ops := k_ops k |}.
Definition set_ops (x : Z) (k : kernel) : kernel :=
  {| k_fs := k_fs k; k_files := k_files k; k_pipes := k_pipes k; k_ofile := k_ofile k; k_cwd := k_cwd k; k_ops := x |}.

Abbreviation K A := (M kernel stop A).

(** A function of the file system. *)
Definition fsop {A} (m : F A) : K A := λ k, let (r, x) := m (k_fs k) in (r, set_fs x k).

Definition begin_op : K () := modify (λ k, set_ops (k_ops k + 1) k).
Definition end_op : K () := modify (λ k, set_ops (k_ops k - 1) k).

Definition get_file (f : nat) : K file := λ k,
  match k_files k !! f with Some x => (Ret x, k) | None => (Err (Panic "wild pointer"), k) end.
Definition upd_file (f : nat) (g : file → file) : K () :=
  modify (λ k, set_files (alter g f (k_files k)) k).

Definition f_set_ref (n : Z) (f : file) : file :=
  {| f_type := f_type f; f_ref := n; f_readable := f_readable f; f_writable := f_writable f; f_pipe := f_pipe f;
     f_ip := f_ip f; f_off := f_off f; f_major := f_major f |}.
Definition f_set_type (t : file_type) (f : file) : file :=
  {| f_type := t; f_ref := f_ref f; f_readable := f_readable f; f_writable := f_writable f; f_pipe := f_pipe f;
     f_ip := f_ip f; f_off := f_off f; f_major := f_major f |}.
Definition f_set_off (o : Z) (f : file) : file :=
  {| f_type := f_type f; f_ref := f_ref f; f_readable := f_readable f; f_writable := f_writable f; f_pipe := f_pipe f;
     f_ip := f_ip f; f_off := o; f_major := f_major f |}.
Definition f_set_pipe (r w : bool) (p : nat) (f : file) : file :=
  {| f_type := FD_PIPE; f_ref := f_ref f; f_readable := r; f_writable := w; f_pipe := p;
     f_ip := f_ip f; f_off := f_off f; f_major := f_major f |}.

(** The file and its entry; [None]: 0. *)
Definition filealloc : K (option nat) :=
  k ← gets id;
  match list_find (λ f, f_ref f = 0) (k_files k) with
  | Some (f, _) => upd_file f (f_set_ref 1);; mret (Some f)
  | None => mret None
  end.

Definition filedup (f : nat) : K nat :=
  x ← get_file f;
  if f_ref x <? 1 then throw (Panic "filedup")
  else upd_file f (f_set_ref (f_ref x + 1));; mret f.

(** *** Pipes as files *)
Definition get_pipe (p : nat) : K pipe := λ k,
  match k_pipes k !! p with Some (Some x) => (Ret x, k) | _ => (Err (Panic "wild pointer"), k) end.
Definition put_pipe (p : nat) (x : option pipe) : K () := modify (λ k, set_pipes (<[p := x]> (k_pipes k)) k).

Definition close_pipe (p : nat) (writable : bool) : K () :=
  x ← get_pipe p;
  let '(x, _, freed) := pipeclose writable x in
  put_pipe p (if freed then None else Some x).

Section Calls.
Context (me : Z) (killed : nat → bool) (devsw : Z → option (K (Z * list Z)) * option (K Z)).

Definition fileclose (f : nat) : K () :=
  x ← get_file f;
  if f_ref x <? 1 then throw (Panic "fileclose")
  else if 0 <? f_ref x - 1 then upd_file f (f_set_ref (f_ref x - 1))
  else
    upd_file f (λ x, f_set_type FD_NONE (f_set_ref 0 x));;
    match f_type x with
    | FD_PIPE => close_pipe (f_pipe x) (f_writable x)
    | FD_INODE | FD_DEVICE => begin_op;; fsop (iput me (f_ip x));; end_op
    | FD_NONE => mret ()
    end.

(** [None]: -1.  [page]: what [kalloc] gives, the bytes of a new page or nothing. *)
Definition pipealloc (page : option (list Z)) : K (option (nat * nat)) :=
  f0 ← filealloc;
  match f0 with
  | None => mret None
  | Some f0 =>
      f1 ← filealloc;
      match f1 with
      | None => fileclose f0;; mret None
      | Some f1 =>
          match page with
          | None => fileclose f0;; fileclose f1;; mret None
          | Some junk =>
              k ← gets id;
              let p := length (k_pipes k) in
              modify (λ k, set_pipes (k_pipes k ++ [Some (new_pipe junk)]) k);;
              upd_file f0 (f_set_pipe true false p);;
              upd_file f1 (f_set_pipe false true p);;
              mret (Some (f0, f1))
          end
      end
  end.

(** [None]: -1; otherwise the [struct stat] stored. *)
Definition filestat (ucopyout : Z → Z → bool) (f : nat) : K (option stat) :=
  x ← get_file f;
  match f_type x with
  | FD_INODE | FD_DEVICE =>
      fsop (ilock me (Some (f_ip x)));;
      i ← fsop (get_ip (f_ip x));
      let st := stati i in
      fsop (iunlock me (Some (f_ip x)));;
      if ucopyout 0 24 then mret (Some st) else mret None
  | _ => mret None
  end.

(** The result and the bytes stored. *)
Definition fileread (ucopyout : Z → Z → bool) (f : nat) (n : Z) : K (Z * list Z) :=
  x ← get_file f;
  if negb (f_readable x) || (n <? 0) then mret (-1, [])
  else
    match f_type x with
    | FD_PIPE =>
        pi ← get_pipe (f_pipe x);
        let '(t, bs, _, pi) := piperead (killed 0%nat) (λ i, ucopyout (Z.of_nat i) 1) (Z.to_nat n) pi in
        put_pipe (f_pipe x) (Some pi);;
        match t with Asleep => throw Sleeps | Returns r => mret (r, bs) end
    | FD_DEVICE =>
        if (f_major x <? 0) || (NDEV <=? f_major x) then mret (-1, [])
        else match fst (devsw (f_major x)) with Some rd => rd | None => mret (-1, []) end
    | FD_INODE =>
        fsop (ilock me (Some (f_ip x)));;
        '(r, bs) ← fsop (readi ucopyout (f_ip x) (f_off x) n);
        (if 0 <? r then upd_file f (f_set_off (u32 (f_off x + r))) else mret ());;
        fsop (iunlock me (Some (f_ip x)));;
        mret (r, bs)
    | FD_NONE => throw (Panic "fileread")
    end.

Definition max_write : Z := (MAXOPBLOCKS - 1 - 1 - 2) / 2 * BSIZEz.

(** The number of bytes written. *)
Fixpoint filewrite_loop (fuel : nat) (ucopyin : Z → Z → list Z * bool) (f : nat) (i n : Z) : K Z :=
  if i <? n then
    match fuel with
    | O => nofuel
    | S fuel =>
        let n1 := if max_write <? n - i then max_write else n - i in
        begin_op;;
        x ← get_file f;
        fsop (ilock me (Some (f_ip x)));;
        r ← fsop (writei (λ t m, ucopyin (i + t) m) (f_ip x) (f_off x) n1);
        (if 0 <? r then upd_file f (f_set_off (u32 (f_off x + r))) else mret ());;
        fsop (iunlock me (Some (f_ip x)));;
        end_op;;
        if negb (r =? n1) then mret i else filewrite_loop fuel ucopyin f (i + r) n
    end
  else mret i.

Definition filewrite (ucopyin : Z → Z → list Z * bool) (f : nat) (n : Z) : K Z :=
  x ← get_file f;
  if negb (f_writable x) || (n <? 0) then mret (-1)
  else
    match f_type x with
    | FD_PIPE =>
        pi ← get_pipe (f_pipe x);
        let '(t, _, _, pi) :=
          pipewrite killed (λ i, match ucopyin (Z.of_nat i) 1 with ([ch], true) => Some ch | _ => None end)
            (Z.to_nat n) 0 pi in
        put_pipe (f_pipe x) (Some pi);;
        match t with Asleep => throw Sleeps | Returns r => mret r end
    | FD_DEVICE =>
        if (f_major x <? 0) || (NDEV <=? f_major x) then mret (-1)
        else match snd (devsw (f_major x)) with Some wr => wr | None => mret (-1) end
    | FD_INODE =>
        i ← filewrite_loop (S (Z.to_nat n)) ucopyin f 0 n;
        mret (if i =? n then n else -1)
    | FD_NONE => throw (Panic "filewrite")
    end.
End Calls.
