(* ===== verification/Sysfile.v ===== *)
(** * The file system calls (xv6/kernel/sysfile.c)

    Each call is a function of its arguments as the kernel fetches them: a
    descriptor or a number is a [Z], a path what [argstr] gives, [None] when it
    fails.  [junk] is what the local arrays for names hold at first. *)

From S2P Require Export File.

#[local] Set Warnings "-clear-no-such-hyp".
#[local] Set Default Proof Using "Type".
Local Open Scope Z_scope.

Definition O_RDONLY : Z := 0x000.
Definition O_WRONLY : Z := 0x001.
Definition O_RDWR : Z := 0x002.
Definition O_CREATE : Z := 0x200.
Definition O_TRUNC : Z := 0x400.
Definition T_FILE : Z := 2.
Definition T_DEVICE : Z := 3.
Definition NLINK_MAX : Z := 32767.

(** A flag of the mode. *)
Definition flag (omode b : Z) : bool := negb (Z.land omode b =? 0).

Abbreviation path := (list Z).
Definition DOT : path := [46].
Definition DOTDOT : path := [46; 46].

(** *** Descriptors *)
Definition argfd (fd : Z) : K (option nat) :=
  k ← gets id;
  if (fd <? 0) || (Z.of_nat NOFILE <=? fd) then mret None
  else mret (default None (k_ofile k !! Z.to_nat fd)).

Definition fdalloc (f : nat) : K Z :=
  k ← gets id;
  match list_find (λ o, o = None) (k_ofile k) with
  | Some (fd, _) => modify (λ k, set_ofile (<[fd := Some f]> (k_ofile k)) k);; mret (Z.of_nat fd)
  | None => mret (-1)
  end.

(** [myproc()->ofile[fd] = 0] *)
Definition clear_fd (fd : Z) : K () :=
  modify (λ k, set_ofile (<[Z.to_nat fd := None]> (k_ofile k)) k).

Section Calls.
Context (me : Z) (killed : nat → bool) (devsw : Z → option (K (Z * list Z)) * option (K Z)).
Context (junk : list Z).

Definition sys_dup (fd : Z) : K Z :=
  f ← argfd fd;
  match f with
  | None => mret (-1)
  | Some f =>
      fd ← fdalloc f;
      if fd <? 0 then mret (-1) else filedup f;; mret fd
  end.

Definition sys_read (fd : Z) (ucopyout : Z → Z → bool) (n : Z) : K (Z * list Z) :=
  f ← argfd fd;
  match f with None => mret (-1, []) | Some f => fileread me killed devsw ucopyout f n end.

Definition sys_write (fd : Z) (ucopyin : Z → Z → list Z * bool) (n : Z) : K Z :=
  f ← argfd fd;
  match f with None => mret (-1) | Some f => filewrite me killed devsw ucopyin f n end.

Definition sys_close (fd : Z) : K Z :=
  f ← argfd fd;
  match f with
  | None => mret (-1)
  | Some f => clear_fd fd;; fileclose me f;; mret 0
  end.

Definition sys_fstat (fd : Z) (ucopyout : Z → Z → bool) : K (option stat) :=
  f ← argfd fd;
  match f with None => mret None | Some f => filestat me ucopyout f end.

(** *** Links *)
Definition ipath (p : path) : K (option nat) := k ← gets id; fsop (namei me (k_cwd k) junk p).
Definition iparent (p : path) : K (option nat * list Z) := k ← gets id; fsop (nameiparent me (k_cwd k) p junk).

Definition add_nlink (ip : nat) (d : Z) : K () :=
  fsop (set_ip ip (λ i, with_nlink (i16 (i_nlink i + d)) i));; fsop (iupdate ip).

(** [bad:] of [sys_link] *)
Definition link_bad (ip : nat) : K Z :=
  fsop (ilock me (Some ip));; add_nlink ip (-1);; fsop (iunlockput me ip);; end_op;; mret (-1).

Definition sys_link (old new : option path) : K Z :=
  match old, new with
  | Some old, Some new =>
      begin_op;;
      ip ← ipath old;
      match ip with
      | None => end_op;; mret (-1)
      | Some ip =>
          fsop (ilock me (Some ip));;
          i ← fsop (get_ip ip);
          if i_type i =? T_DIR then fsop (iunlockput me ip);; end_op;; mret (-1)
          else if NLINK_MAX <=? i_nlink i then fsop (iunlockput me ip);; end_op;; mret (-1)
          else
            add_nlink ip 1;;
            fsop (iunlock me (Some ip));;
            '(dp, name) ← iparent new;
            match dp with
            | None => link_bad ip
            | Some dp =>
                fsop (ilock me (Some dp));;
                d ← fsop (get_ip dp);
                if i_nlink d =? 0 then fsop (iunlockput me dp);; link_bad ip
                else
                  i ← fsop (get_ip ip);
                  r ← (if negb (i_dev d =? i_dev i) then mret (-1)
                       else fsop (dirlink me dp (ptr name) (i_inum i)));
                  if r <? 0 then fsop (iunlockput me dp);; link_bad ip
                  else fsop (iunlockput me dp);; fsop (iput me ip);; end_op;; mret 0
            end
      end
  | _, _ => mret (-1)
  end.

Fixpoint isdirempty_loop (fuel : nat) (dp : nat) (off : Z) : F bool :=
  i ← get_ip dp;
  if off <? i_size i then
    match fuel with
    | O => nofuel
    | S fuel =>
        '(r, de) ← readi to_kernel dp off DESIZE;
        if negb (r =? DESIZE) then throw (Panic "isdirempty: readi")
        else if negb (de_inum de =? 0) then mret false
        else isdirempty_loop fuel dp (off + DESIZE)
    end
  else mret true.

Definition isdirempty (dp : nat) : F bool :=
  i ← get_ip dp; isdirempty_loop (S (Z.to_nat (i_size i))) dp (2 * DESIZE).

(** [bad:] of [sys_unlink] *)
Definition unlink_bad (dp : nat) : K Z := fsop (iunlockput me dp);; end_op;; mret (-1).

Definition sys_unlink (p : option path) : K Z :=
  match p with
  | None => mret (-1)
  | Some p =>
      begin_op;;
      '(dp, name) ← iparent p;
      match dp with
      | None => end_op;; mret (-1)
      | Some dp =>
          fsop (ilock me (Some dp));;
          if (namecmp (ptr name) (ptr DOT) =? 0) || (namecmp (ptr name) (ptr DOTDOT) =? 0) then unlink_bad dp
          else
            r ← fsop (dirlookup dp (ptr name));
            match r with
            | None => unlink_bad dp
            | Some (ip, off) =>
                fsop (ilock me (Some ip));;
                i ← fsop (get_ip ip);
                if i_nlink i <? 1 then throw (Panic "unlink: nlink < 1")
                else
                  e ← (if i_type i =? T_DIR then fsop (isdirempty ip) else mret true);
                  if negb e then fsop (iunlockput me ip);; unlink_bad dp
                  else
                    r ← fsop (writei (copy_from (replicate 16 0)) dp off DESIZE);
                    if negb (r =? DESIZE) then throw (Panic "unlink: writei")
                    else
                      (if i_type i =? T_DIR then add_nlink dp (-1) else mret ());;
                      fsop (iunlockput me dp);;
                      add_nlink ip (-1);;
                      fsop (iunlockput me ip);;
                      end_op;;
                      mret 0
            end
      end
  end.

(** *** Creation *)

(** [fail:] of [create] *)
Definition create_fail (dp ip : nat) : K (option nat) :=
  fsop (set_ip ip (with_nlink 0));;
  fsop (iupdate ip);;
  fsop (iunlockput me ip);;
  fsop (iunlockput me dp);;
  mret None.

Definition create (p : path) (type major minor : Z) : K (option nat) :=
  '(dp, name) ← iparent p;
  match dp with
  | None => mret None
  | Some dp =>
      fsop (ilock me (Some dp));;
      d ← fsop (get_ip dp);
      if i_nlink d =? 0 then fsop (iunlockput me dp);; mret None
      else if (type =? T_DIR) && (NLINK_MAX <=? i_nlink d) then fsop (iunlockput me dp);; mret None
      else
        r ← fsop (dirlookup dp (ptr name));
        match r with
        | Some (ip, _) =>
            fsop (iunlockput me dp);;
            fsop (ilock me (Some ip));;
            i ← fsop (get_ip ip);
            if (type =? T_FILE) && ((i_type i =? T_FILE) || (i_type i =? T_DEVICE)) then mret (Some ip)
            else fsop (iunlockput me ip);; mret None
        | None =>
            ip ← fsop (ialloc (i_dev d) type);
            match ip with
            | None => fsop (iunlockput me dp);; mret None
            | Some ip =>
                fsop (ilock me (Some ip));;
                fsop (set_ip ip (λ i,
                  {| i_dev := i_dev i; i_inum := i_inum i; i_ref := i_ref i; i_lock := i_lock i;
                     i_valid := i_valid i; i_type := i_type i; i_major := i16 major; i_minor := i16 minor;
                     i_nlink := 1; i_size := i_size i; i_addrs := i_addrs i |}));;
                fsop (iupdate ip);;
                i ← fsop (get_ip ip);
                r ← (if type =? T_DIR then
                       r ← fsop (dirlink me ip (ptr DOT) (i_inum i));
                       if r <? 0 then mret r else fsop (dirlink me ip (ptr DOTDOT) (i_inum d))
                     else mret 0);
                if r <? 0 then create_fail dp ip
                else
                  r ← fsop (dirlink me dp (ptr name) (i_inum i));
                  if r <? 0 then create_fail dp ip
                  else
                    (if type =? T_DIR then add_nlink dp 1 else mret ());;
                    fsop (iunlockput me dp);;
                    mret (Some ip)
            end
        end
  end.

(** The inode to open, locked. *)
Definition open_inode (p : path) (omode : Z) : K (option nat) :=
  if flag omode O_CREATE then create p T_FILE 0 0
  else
    ip ← ipath p;
    match ip with
    | None => mret None
    | Some ip =>
        fsop (ilock me (Some ip));;
        i ← fsop (get_ip ip);
        if (i_type i =? T_DIR) && negb (omode =? O_RDONLY) then fsop (iunlockput me ip);; mret None
        else mret (Some ip)
    end.

(** A file and its descriptor; what was allocated is given back when one is missing. *)
Definition open_file : K (option (nat * Z)) :=
  f ← filealloc;
  match f with
  | None => mret None
  | Some f =>
      fd ← fdalloc f;
      if fd <? 0 then fileclose me f;; mret None else mret (Some (f, fd))
  end.

Definition sys_open (p : option path) (omode : Z) : K Z :=
  match p with
  | None => mret (-1)
  | Some p =>
      begin_op;;
      ip ← open_inode p omode;
      match ip with
      | None => end_op;; mret (-1)
      | Some ip =>
          i ← fsop (get_ip ip);
          if (i_type i =? T_DEVICE) && ((i_major i <? 0) || (NDEV <=? i_major i)) then
            fsop (iunlockput me ip);; end_op;; mret (-1)
          else
            r ← open_file;
            match r with
            | None => fsop (iunlockput me ip);; end_op;; mret (-1)
            | Some (f, fd) =>
                upd_file f (λ x,
                  {| f_type := if i_type i =? T_DEVICE then FD_DEVICE else FD_INODE; f_ref := f_ref x;
                     f_readable := negb (flag omode O_WRONLY);
                     f_writable := flag omode O_WRONLY || flag omode O_RDWR; f_pipe := f_pipe x; f_ip := ip;
                     f_off := if i_type i =? T_DEVICE then f_off x else 0;
                     f_major := if i_type i =? T_DEVICE then i_major i else f_major x |});;
                (if flag omode O_TRUNC && (i_type i =? T_FILE) then fsop (itrunc ip) else mret ());;
                fsop (iunlock me (Some ip));;
                end_op;;
                mret fd
            end
      end
  end.

(** [sys_mkdir] and [sys_mknod] *)
Definition make_node (p : option path) (type major minor : Z) : K Z :=
  begin_op;;
  ip ← match p with None => mret None | Some p => create p type major minor end;
  match ip with
  | None => end_op;; mret (-1)
  | Some ip => fsop (iunlockput me ip);; end_op;; mret 0
  end.

Definition sys_mkdir (p : option path) : K Z := make_node p T_DIR 0 0.
Definition sys_mknod (p : option path) (major minor : Z) : K Z := make_node p T_DEVICE major minor.

Definition sys_chdir (p : option path) : K Z :=
  begin_op;;
  ip ← match p with None => mret None | Some p => ipath p end;
  match ip with
  | None => end_op;; mret (-1)
  | Some ip =>
      fsop (ilock me (Some ip));;
      i ← fsop (get_ip ip);
      if negb (i_type i =? T_DIR) then fsop (iunlockput me ip);; end_op;; mret (-1)
      else
        fsop (iunlock me (Some ip));;
        k ← gets id;
        fsop (iput me (k_cwd k));;
        end_op;;
        modify (set_cwd ip);;
        mret 0
  end.

(** The two descriptors stored, or [None]: -1.  [stored] says whether both [copyout]s succeed. *)
Definition sys_pipe (page : option (list Z)) (stored : bool) : K (option (Z * Z)) :=
  r ← pipealloc me page;
  match r with
  | None => mret None
  | Some (rf, wf) =>
      fd0 ← fdalloc rf;
      fd1 ← (if fd0 <? 0 then mret (-1) else fdalloc wf);
      if (fd0 <? 0) || (fd1 <? 0) then
        (if 0 <=? fd0 then clear_fd fd0 else mret ());;
        fileclose me rf;; fileclose me wf;; mret None
      else if stored then mret (Some (fd0, fd1))
      else clear_fd fd0;; clear_fd fd1;; fileclose me rf;; fileclose me wf;; mret None
  end.
End Calls.
