(* ===== verification/Balance.v ===== *)
(** * System calls give back what they take (xv6/kernel/fs.c, file.c, sysfile.c)

    A system call that returns has released every buffer and every sleep-lock of
    an inode that it acquired, and closed every transaction it opened, on each
    of its paths, errors included.  The rules follow the code: [quiet] code takes
    nothing over, [eats bn] code releases the buffer of [bn]; [ht] and [kt] say
    how the sleep-locks of the process change. *)

From S2P Require Export Sysfile.

#[local] Set Warnings "-clear-no-such-hyp".
#[local] Set Default Proof Using "Type".
Local Open Scope Z_scope.

(** If the code returns, [Q] holds. *)
Definition part {S E A} (m : M S E A) (Q : A → S → Prop) (s : S) : Prop :=
  match m s with (Ret a, s') => Q a s' | _ => True end.

Lemma part_bind {S E A B} (m : M S E A) (k : A → M S E B) Q s :
  part m (λ a, part (k a) Q) s → part (mbind k m) Q s.
Proof. unfold part, mbind, M_bind. by destruct (m s) as [[] ?]. Qed.

Lemma part_mono {S E A} (m : M S E A) (Q Q' : A → S → Prop) s :
  part m Q s → (∀ a s', Q a s' → Q' a s') → part m Q' s.
Proof. unfold part. destruct (m s) as [[] ?]; eauto. Qed.

Section Balance.
Context (me : Z).

(** Which inodes of the table the process has locked. *)
Definition lock_of (i : inode) : bool := holdingsleep me (i_lock i).
Definition locks (s : fs) : list bool := lock_of <$> itable s.

(** *** The rules for the file system *)
Definition ht {A} (L : list bool) (m : F A) (Q : A → list bool → Prop) : Prop :=
  ∀ s, locks s = L → part m (λ a s', held s' = held s ∧ Q a (locks s')) s.

Definition quiet {A} (m : F A) : Prop := ∀ L, ht L m (λ _ L', L' = L).

Definition eats {A} (bn : Z) (m : F A) : Prop :=
  ∀ s h, held s = bn :: h → bn ∉ h → part m (λ _ s', held s' = h ∧ locks s' = locks s) s.

Lemma ht_bind {A B} L (m : F A) (k : A → F B) Q R :
  ht L m Q → (∀ a L', Q a L' → ht L' (k a) R) → ht L (mbind k m) R.
Proof.
  intros Hm Hk s Hs. apply part_bind. eapply part_mono; [by apply Hm|]. intros a s1 [H1 H2]. cbn beta.
  eapply part_mono; [by apply (Hk a (locks s1))|]. intros b s2 [H3 H4]. split; [congruence|done].
Qed.

Lemma ht_conseq {A} L (m : F A) (Q Q' : A → list bool → Prop) :
  ht L m Q → (∀ a L', Q a L' → Q' a L') → ht L m Q'.
Proof. intros Hm HQ s Hs. eapply part_mono; [by apply Hm|]. intros a s' [H1 H2]. split; [done|by apply HQ]. Qed.

Lemma ht_ret {A} L (a : A) (Q : A → list bool → Prop) : Q a L → ht L (mret a) Q.
Proof. intros H s Hs. split; [done|by rewrite Hs]. Qed.

Lemma ht_quiet {A} L (m : F A) : quiet m → ht L m (λ _ L', L' = L).
Proof. intros H. apply H. Qed.

Lemma quiet_bind {A B} (m : F A) (k : A → F B) : quiet m → (∀ a, quiet (k a)) → quiet (mbind k m).
Proof. intros Hm Hk L. eapply ht_bind; [apply Hm|]. intros a L' ->. apply Hk. Qed.

Lemma quiet_ret {A} (a : A) : quiet (mret a : F A).
Proof. intros L. by apply ht_ret. Qed.

Lemma quiet_throw {A} e : quiet (throw e : F A).
Proof. intros L s Hs. done. Qed.

Lemma quiet_nofuel {A} : quiet (nofuel : F A).
Proof. intros L s Hs. done. Qed.

Lemma quiet_gets {A} (f : fs → A) : quiet (gets f : F A).
Proof. intros L s Hs. done. Qed.

Lemma quiet_get_ip ip : quiet (get_ip ip).
Proof. intros L s Hs. unfold part, get_ip. by destruct (itable s !! ip). Qed.

Lemma quiet_bp_data bn : quiet (bp_data bn).
Proof. intros L s Hs. done. Qed.

Lemma quiet_bp_store bn f : quiet (bp_store bn f).
Proof. intros L s Hs. done. Qed.

Lemma quiet_set_sb x : quiet (modify (set_sb x)).
Proof. intros L s Hs. done. Qed.

Lemma locks_alter f ip s : (∀ i, lock_of (f i) = lock_of i) → lock_of <$> alter f ip (itable s) = locks s.
Proof.
  intros Hf. unfold locks. apply list_eq. intros k. rewrite !list_lookup_fmap.
  destruct (decide (k = ip)) as [->|Hne].
  - rewrite list_lookup_alter_eq. destruct (itable s !! ip) as [i|]; [|done]. cbn. by rewrite Hf.
  - by rewrite list_lookup_alter_ne.
Qed.

Lemma quiet_set_ip ip f : (∀ i, i_lock (f i) = i_lock i) → quiet (set_ip ip f).
Proof.
  intros Hf L s Hs. split; [done|]. unfold locks. cbn [itable set_itable].
  rewrite locks_alter; [done|]. intros i. unfold lock_of. by rewrite Hf.
Qed.

Lemma eats_relse bn : eats bn (bp_relse bn).
Proof.
  intros s h Hs Hn. unfold part, bp_relse. msimpl. split; [|done]. cbn [held set_held]. rewrite Hs.
  by apply release_cons.
Qed.

Lemma eats_after {A B} bn (m : F A) (k : A → F B) : eats bn m → (∀ a, quiet (k a)) → eats bn (mbind k m).
Proof.
  intros Hm Hk s h Hs Hn. apply part_bind. eapply part_mono; [by apply (Hm s h)|]. intros a s1 [H1 H2]. cbn beta.
  eapply part_mono; [by apply (Hk a (locks s1))|]. intros b s2 [H3 H4]. split; congruence.
Qed.

Lemma eats_bind {A B} bn (m : F A) (k : A → F B) : quiet m → (∀ a, eats bn (k a)) → eats bn (mbind k m).
Proof.
  intros Hm Hk s h Hs Hn. apply part_bind. eapply part_mono; [by apply (Hm (locks s))|]. intros a s1 [H1 H2]. cbn beta.
  eapply part_mono; [apply (Hk a s1 h); [congruence|done]|]. intros b s2 [H3 H4]. split; congruence.
Qed.

Lemma eats_throw {A} bn e : eats bn (throw e : F A).
Proof. intros s h Hs Hn. done. Qed.

Lemma quiet_read {A} bn (k : () → F A) : eats bn (k ()) → quiet (mbind k (bp_read bn)).
Proof.
  intros Hk L s Hs. apply part_bind. unfold part at 1. unfold bp_read. msimpl.
  destruct (decide (bn ∈ held s)) as [?|Hn]; [done|].
  eapply part_mono; [apply (Hk (set_held (bn :: held s) s) (held s)); [done|exact Hn]|].
  intros a s' [H1 H2]. split; [done|]. by rewrite H2.
Qed.
End Balance.

Create HintDb quiet discriminated.
#[export] Hint Resolve quiet_ret quiet_throw quiet_nofuel quiet_gets quiet_get_ip quiet_bp_data quiet_bp_store
  quiet_set_sb : quiet.

(** Follow the code, taking its conditionals apart. *)
Ltac quiet_step :=
  first
    [ solve [auto with quiet]
    | apply eats_relse
    | apply eats_throw
    | apply quiet_read; cbv beta
    | apply quiet_set_ip; by intros
    | match goal with
      | |- quiet _ (mbind _ (if ?b then _ else _)) => apply quiet_bind; [|intros ?; cbv beta]
      | |- quiet _ (mbind _ _) => apply quiet_bind; [|intros ?; cbv beta]
      | |- eats _ _ (mbind _ (bp_relse _)) => apply eats_after; [apply eats_relse|intros ?; cbv beta]
      | |- eats _ _ (mbind _ _) => apply eats_bind; [|intros ?; cbv beta]
      | |- quiet _ (let x := ?e in _) => cbv zeta
      | |- eats _ _ (let x := ?e in _) => cbv zeta
      | |- quiet _ (if ?b then _ else _) => destruct b
      | |- eats _ _ (if ?b then _ else _) => destruct b
      | |- quiet _ (match ?x with _ => _ end) => destruct x
      | |- eats _ _ (match ?x with _ => _ end) => destruct x
      end ].
Ltac quiet := repeat quiet_step.

Section Quiet.
Context (me : Z).
Local Abbreviation quiet := (quiet me).

Lemma quiet_bzero bno : quiet (bzero bno).
Proof. unfold bzero. quiet. Qed.
Hint Resolve quiet_bzero : quiet.

Lemma quiet_balloc : quiet balloc.
Proof.
  unfold balloc. apply quiet_bind; [apply quiet_gets|]. intros s. generalize (Z.to_nat (sb_size (sb s) / BPB + 1)) 0.
  intros n. induction n as [|n IH]; intros b; cbn [balloc_loop]; quiet.
Qed.
Hint Resolve quiet_balloc : quiet.

Lemma quiet_bfree b : quiet (bfree b).
Proof. unfold bfree. quiet. Qed.
Hint Resolve quiet_bfree : quiet.

Lemma quiet_iupdate ip : quiet (iupdate ip).
Proof. unfold iupdate. quiet. Qed.
Hint Resolve quiet_iupdate : quiet.

Lemma quiet_iget dev inum : quiet (iget dev inum).
Proof. unfold iget. quiet. Qed.
Hint Resolve quiet_iget : quiet.

Lemma quiet_idup ip : quiet (idup ip).
Proof. unfold idup. quiet. Qed.
Hint Resolve quiet_idup : quiet.

Lemma quiet_ialloc dev type : quiet (ialloc dev type).
Proof.
  unfold ialloc. apply quiet_bind; [apply quiet_gets|]. intros s. generalize (Z.to_nat (sb_ninodes (sb s))) 1.
  intros n. induction n as [|n IH]; intros i; cbn [ialloc_loop]; quiet.
Qed.
Hint Resolve quiet_ialloc : quiet.

Lemma quiet_ifree inum : quiet (ifree inum).
Proof. unfold ifree. quiet. Qed.
Hint Resolve quiet_ifree : quiet.

Lemma quiet_bmap ip bn : quiet (bmap ip bn).
Proof. unfold bmap, bmap_indirect, bmap_entry. quiet. Qed.
Hint Resolve quiet_bmap : quiet.

Lemma quiet_ffor k n f : (∀ j, quiet (f j)) → quiet (ffor k n f).
Proof.
  intros Hf. revert k. induction n as [|n IH]; intros k; cbn [ffor]; [apply quiet_ret|].
  apply quiet_bind; [apply Hf|]. intros ?. apply IH.
Qed.

Lemma quiet_itrunc ip : quiet (itrunc ip).
Proof.
  unfold itrunc. apply quiet_bind; [apply quiet_ffor; intros k; quiet|intros _].
  apply quiet_bind; [apply quiet_get_ip|intros i]. cbv zeta. apply quiet_bind; [|intros _; quiet].
  destruct (_ =? 0); [apply quiet_ret|]. apply quiet_read. apply eats_bind; [apply quiet_ffor; intros j; quiet|].
  intros _. quiet.
Qed.
Hint Resolve quiet_itrunc : quiet.

Lemma quiet_readi copyout ip off n : quiet (readi copyout ip off n).
Proof.
  unfold readi. quiet. cbv zeta. generalize (if i_size a <? u32 (off + n) then i_size a - off else n).
  intros n'. generalize (S (Z.to_nat n')) off 0 (@nil Z). intros fuel.
  induction fuel as [|fuel IH]; intros o t dst; cbn [readi_loop]; quiet.
Qed.
Hint Resolve quiet_readi : quiet.

Lemma quiet_writei copyin ip off n : quiet (writei copyin ip off n).
Proof.
  unfold writei. quiet. generalize (S (Z.to_nat n)) off 0. intros fuel.
  induction fuel as [|fuel IH]; intros o t; cbn [writei_loop]; quiet.
Qed.
Hint Resolve quiet_writei : quiet.

Lemma quiet_dirlookup dp name : quiet (dirlookup dp name).
Proof.
  unfold dirlookup. quiet. generalize (S (Z.to_nat (i_size a))) 0. intros fuel.
  induction fuel as [|fuel IH]; intros o; cbn [dirlookup_loop]; quiet.
Qed.
Hint Resolve quiet_dirlookup : quiet.

Lemma quiet_isdirempty dp : quiet (isdirempty dp).
Proof.
  unfold isdirempty. quiet. generalize (S (Z.to_nat (i_size a))) (2 * DESIZE). intros fuel.
  induction fuel as [|fuel IH]; intros o; cbn [isdirempty_loop]; quiet.
Qed.
Hint Resolve quiet_isdirempty : quiet.
End Quiet.

#[export] Hint Resolve quiet_bzero quiet_balloc quiet_bfree quiet_iupdate quiet_iget quiet_idup quiet_ialloc
  quiet_ifree quiet_bmap quiet_itrunc quiet_readi quiet_writei quiet_dirlookup quiet_isdirempty : quiet.

(** ** Sleep-locks *)
Section Locks.
Context (me : Z).

Lemma ht_set_lock L ip f b :
  (∀ i, lock_of me (f i) = b) → ht me L (set_ip ip f) (λ _ L', L' = <[ip := b]> L).
Proof.
  intros Hf s Hs. split; [done|]. rewrite <-Hs. unfold locks. cbn [itable set_itable].
  apply list_eq. intros k. rewrite list_lookup_fmap. destruct (decide (k = ip)) as [->|Hne].
  - rewrite list_lookup_alter_eq. destruct (itable s !! ip) as [i|] eqn:Ei.
    + rewrite list_lookup_insert_eq by (rewrite length_fmap; by eapply lookup_lt_Some). cbn. by rewrite Hf.
    + symmetry. apply lookup_ge_None_2. rewrite length_insert, length_fmap. by apply lookup_ge_None.
  - rewrite list_lookup_alter_ne, list_lookup_insert_ne by done. by rewrite list_lookup_fmap.
Qed.

Lemma lookup_locks s ip i : itable s !! ip = Some i → locks me s !! ip = Some (lock_of me i).
Proof. intros H. unfold locks. by rewrite list_lookup_fmap, H. Qed.

(** The entry read is the one in the table. *)
Lemma ht_get_ip L ip :
  ht me L (get_ip ip) (λ i L', L' = L ∧ L !! ip = Some (lock_of me i)).
Proof.
  intros s Hs. unfold part, get_ip. destruct (itable s !! ip) as [i|] eqn:Ei; [|done].
  split; [done|]. split; [done|]. rewrite <-Hs. by apply lookup_locks.
Qed.

Lemma acquired_lock lk lk' : acquiresleep me lk = Some lk' → holdingsleep me lk = false ∧ holdingsleep me lk' = true.
Proof.
  unfold acquiresleep, holdingsleep. destruct (locked lk); [done|]. intros [= <-]. cbn. by rewrite Z.eqb_refl.
Qed.

Lemma ht_throw {A} L e (Q : A → list bool → Prop) : ht me L (throw e) Q.
Proof. intros s Hs. done. Qed.

Lemma ht_ilock L ip :
  ht me L (ilock me (Some ip)) (λ _ L', L !! ip = Some false ∧ L' = <[ip := true]> L).
Proof.
  unfold ilock. eapply ht_bind; [apply quiet_gets|]. intros s _ ->. eapply ht_bind; [apply ht_get_ip|].
  intros i _ [-> Hi]. destruct (i_ref i <? 1); [apply ht_throw|]. destruct (acquiresleep me (i_lock i)) as [lk|] eqn:El;
    [|apply ht_throw].
  apply acquired_lock in El as [E1 E2]. unfold lock_of in Hi. rewrite E1 in Hi.
  eapply ht_bind; [apply (ht_set_lock _ _ _ true); intros j; exact E2|]. intros _ _ ->.
  eapply (ht_conseq me _ _ (λ _ L', L' = <[ip := true]> L)); [|by intros _ _ ->].
  apply ht_quiet. quiet.
Qed.

Lemma ht_iunlock L ip :
  ht me L (iunlock me (Some ip)) (λ _ L', L !! ip = Some true ∧ L' = <[ip := false]> L).
Proof.
  unfold iunlock. eapply ht_bind; [apply ht_get_ip|]. intros i _ [-> Hi]. unfold lock_of in Hi.
  destruct (holdingsleep me (i_lock i)); cbn [negb orb]; [|apply ht_throw].
  destruct (i_ref i <? 1); [apply ht_throw|].
  eapply ht_conseq; [by apply (ht_set_lock _ _ _ false)|]. by intros _ _ ->.
Qed.

Lemma lock_back (L : list bool) ip : L !! ip = Some false → <[ip := false]> (<[ip := true]> L) = L.
Proof. intros H. rewrite list_insert_insert_eq. by apply list_insert_id. Qed.

Lemma quiet_iput ip : quiet me (iput me ip).
Proof.
  intros L. unfold iput. eapply ht_bind; [apply ht_get_ip|]. intros i _ [-> Hi]. cbv zeta.
  eapply ht_bind with (Q := λ _ L', L' = L).
  - destruct (_ && _ && _); [|by apply ht_ret]. destruct (acquiresleep me (i_lock i)) as [lk|] eqn:El; [|apply ht_throw].
    apply acquired_lock in El as [E1 E2]. unfold lock_of in Hi. rewrite E1 in Hi.
    eapply ht_bind; [apply (ht_set_lock _ _ _ true); intros j; exact E2|]. intros _ _ ->.
    eapply ht_bind; [apply quiet_itrunc|]. intros _ _ ->.
    eapply ht_bind; [apply quiet_set_ip; by intros|]. intros _ _ ->.
    eapply ht_conseq; [by apply (ht_set_lock _ _ _ false)|]. intros _ _ ->. by apply lock_back.
  - intros _ _ ->. apply ht_quiet. quiet.
Qed.

Lemma ht_iunlockput L ip :
  ht me L (iunlockput me ip) (λ _ L', L !! ip = Some true ∧ L' = <[ip := false]> L).
Proof.
  unfold iunlockput. eapply ht_bind; [apply ht_iunlock|]. intros _ _ [H ->].
  eapply ht_conseq; [apply quiet_iput|]. by intros _ _ ->.
Qed.
End Locks.
#[export] Hint Resolve quiet_iput : quiet.

Section Paths.
Context (me : Z).

Lemma quiet_dirlink dp name inum : quiet me (dirlink me dp name inum).
Proof.
  unfold dirlink. quiet. generalize (S (Z.to_nat (i_size a))) 0. intros fuel.
  induction fuel as [|fuel IH]; intros o; cbn [dirlink_scan]; quiet.
Qed.

(** Lock, work without a trace, unlock. *)
Lemma ht_locked {A} L ip (m : F A) Q :
  (L !! ip = Some false → ht me (<[ip := true]> L) m Q) → ht me L (ilock me (Some ip);; m) Q.
Proof. intros H. eapply ht_bind; [apply ht_ilock|]. intros _ _ [H1 ->]. by apply H. Qed.

Lemma ht_unlockput {A} L ip (m : F A) Q :
  L !! ip = Some false → ht me L m Q → ht me (<[ip := true]> L) (iunlockput me ip;; m) Q.
Proof. intros H Hm. eapply ht_bind; [apply ht_iunlockput|]. intros _ _ [_ ->]. by rewrite lock_back. Qed.

Lemma ht_unlock {A} L ip (m : F A) Q :
  L !! ip = Some false → ht me L m Q → ht me (<[ip := true]> L) (iunlock me (Some ip);; m) Q.
Proof. intros H Hm. eapply ht_bind; [apply ht_iunlock|]. intros _ _ [_ ->]. by rewrite lock_back. Qed.

Lemma ht_skip {A B} L (m : F A) (k : A → F B) Q : quiet me m → (∀ a, ht me L (k a) Q) → ht me L (mbind k m) Q.
Proof. intros Hm Hk. eapply ht_bind; [apply Hm|]. intros a _ ->. apply Hk. Qed.

Lemma quiet_namex cwd path parent name : quiet me (namex me cwd path parent name).
Proof.
  unfold namex. apply quiet_bind; [destruct path as [|c path]; [|destruct (c =? SLASH)]; quiet|].
  generalize (S (length path)). intros fuel. revert path name. induction fuel as [|fuel IH]; intros path name ip;
    cbn [namex_loop]; destruct (skipelem path name) as [[p nm]|]; try solve [quiet].
  intros L. apply ht_locked. intros Hf. apply ht_skip; [apply quiet_get_ip|]. intros i.
  destruct (negb _); [by apply ht_unlockput; [|apply ht_ret]|].
  destruct (_ =? 0); [by apply ht_unlockput; [|apply ht_ret]|].
  destruct (_ && _); [by apply ht_unlock; [|apply ht_ret]|].
  apply ht_skip; [apply quiet_dirlookup|]. intros [[next off]|].
  - apply ht_unlockput; [done|]. apply IH.
  - by apply ht_unlockput; [|apply ht_ret].
Qed.
End Paths.
#[export] Hint Resolve quiet_dirlink quiet_namex : quiet.

(** ** System calls *)
Section Kernel.
Context (me : Z).

Definition kt {A} (L : list bool) (n : Z) (m : K A) (Q : A → list bool → Z → Prop) : Prop :=
  ∀ k, locks me (k_fs k) = L → k_ops k = n →
    part m (λ a k', held (k_fs k') = held (k_fs k) ∧ Q a (locks me (k_fs k')) (k_ops k')) k.

Definition kquiet {A} (m : K A) : Prop := ∀ L n, kt L n m (λ _ L' n', L' = L ∧ n' = n).

Lemma kt_bind {A B} L n (m : K A) (k : A → K B) Q R :
  kt L n m Q → (∀ a L' n', Q a L' n' → kt L' n' (k a) R) → kt L n (mbind k m) R.
Proof.
  intros Hm Hk s Hs Hn. apply part_bind. eapply part_mono; [by apply Hm|]. intros a s1 [H1 H2]. cbn beta.
  eapply part_mono; [by apply (Hk a _ _ H2)|]. intros b s2 [H3 H4]. split; [congruence|done].
Qed.

Lemma kt_conseq {A} L n (m : K A) (Q Q' : A → list bool → Z → Prop) :
  kt L n m Q → (∀ a L' n', Q a L' n' → Q' a L' n') → kt L n m Q'.
Proof. intros Hm HQ s Hs Hn. eapply part_mono; [by apply Hm|]. intros a s' [H1 H2]. split; [done|by apply HQ]. Qed.

Lemma kt_ret {A} L n (a : A) (Q : A → list bool → Z → Prop) : Q a L n → kt L n (mret a) Q.
Proof. intros H s Hs Hn. split; [done|by rewrite Hs, Hn]. Qed.

Lemma kt_throw {A} L n e (Q : A → list bool → Z → Prop) : kt L n (throw e) Q.
Proof. intros s Hs Hn. done. Qed.

Lemma kt_nofuel {A} L n (Q : A → list bool → Z → Prop) : kt L n nofuel Q.
Proof. intros s Hs Hn. done. Qed.

Lemma kt_skip {A B} L n (m : K A) (k : A → K B) Q :
  kquiet m → (∀ a, kt L n (k a) Q) → kt L n (mbind k m) Q.
Proof. intros Hm Hk. eapply kt_bind; [apply Hm|]. intros a L' n' [-> ->]. apply Hk. Qed.

Lemma kt_fsop {A} L n (m : F A) Q : ht me L m Q → kt L n (fsop m) (λ a L' n', Q a L' ∧ n' = n).
Proof.
  intros Hm k Hk Hn. specialize (Hm (k_fs k) Hk). unfold part, fsop in *.
  destruct (m (k_fs k)) as [[a|e|] x]; [|done..]. destruct Hm as [H1 H2]. by split.
Qed.

Lemma kt_lock {A} L n ip (m : K A) Q :
  (L !! ip = Some false → kt (<[ip := true]> L) n m Q) → kt L n (fsop (ilock me (Some ip));; m) Q.
Proof.
  intros H. eapply kt_bind; [apply kt_fsop, ht_ilock|]. intros _ L' n' [[H1 ->] ->]. by apply H.
Qed.

Lemma kt_unlock {A} L n ip (m : K A) Q :
  L !! ip = Some false → kt L n m Q → kt (<[ip := true]> L) n (fsop (iunlock me (Some ip));; m) Q.
Proof.
  intros H Hm. eapply kt_bind; [apply kt_fsop, ht_iunlock|]. intros _ L' n' [[_ ->] ->]. by rewrite lock_back.
Qed.

Lemma kt_unlockput {A} L n ip (m : K A) Q :
  L !! ip = Some false → kt L n m Q → kt (<[ip := true]> L) n (fsop (iunlockput me ip);; m) Q.
Proof.
  intros H Hm. eapply kt_bind; [apply kt_fsop, ht_iunlockput|]. intros _ L' n' [[_ ->] ->]. by rewrite lock_back.
Qed.

(** Two inodes are locked: the first locked is released first. *)
Lemma locked_twice (L : list bool) dp ip :
  <[dp := true]> L !! ip = Some false →
  <[ip := true]> (<[dp := true]> L) = <[dp := true]> (<[ip := true]> L) ∧ L !! ip = Some false ∧
  (L !! dp = Some false → <[ip := true]> L !! dp = Some false).
Proof.
  intros H. assert (Hne : ip ≠ dp).
  { intros ->. destruct (decide (dp < length L)%nat).
    - by rewrite list_lookup_insert_eq in H.
    - rewrite lookup_ge_None_2 in H; [done|]. rewrite length_insert. lia. }
  split; [by apply list_insert_insert_ne|]. rewrite list_lookup_insert_ne in H by done. split; [done|].
  intros Hd. by rewrite list_lookup_insert_ne.
Qed.

Lemma kt_begin {A} L n (m : K A) Q : kt L (n + 1) m Q → kt L n (begin_op;; m) Q.
Proof. intros Hm k Hk Hn. apply (Hm (set_ops (k_ops k + 1) k)); [done|]. cbn. by rewrite Hn. Qed.

Lemma kt_end {A} L n (m : K A) Q : kt L n m Q → kt L (n + 1) (end_op;; m) Q.
Proof. intros Hm k Hk Hn. apply (Hm (set_ops (k_ops k - 1) k)); [done|]. cbn. rewrite Hn. lia. Qed.

Lemma kt_end_last L n (Q : () → list bool → Z → Prop) : Q () L n → kt L (n + 1) end_op Q.
Proof. intros H k Hk Hn. unfold part, end_op. msimpl. split; [done|]. cbn. rewrite Hk, Hn. by rewrite Z.add_simpl_r. Qed.

(** *** Code that takes nothing *)
Lemma kquiet_bind {A B} (m : K A) (k : A → K B) : kquiet m → (∀ a, kquiet (k a)) → kquiet (mbind k m).
Proof. intros Hm Hk L n. eapply kt_skip; [done|]. intros a. apply Hk. Qed.

Lemma kquiet_ret {A} (a : A) : kquiet (mret a).
Proof. intros L n. by apply kt_ret. Qed.

Lemma kquiet_throw {A} e : kquiet (throw e : K A).
Proof. intros L n. apply kt_throw. Qed.

Lemma kquiet_gets {A} (f : kernel → A) : kquiet (gets f).
Proof. intros L n k Hk Hn. by split. Qed.

Lemma kquiet_fsop {A} (m : F A) : quiet me m → kquiet (fsop m).
Proof. intros Hm L n. eapply kt_conseq; [apply kt_fsop, Hm|]. by intros a L' n' [-> ->]. Qed.

Lemma kquiet_modify f : (∀ k, k_fs (f k) = k_fs k ∧ k_ops (f k) = k_ops k) → kquiet (modify f : K ()).
Proof. intros Hf L n k Hk Hn. destruct (Hf k) as [E1 E2]. unfold part. msimpl. by rewrite E1, E2. Qed.

Lemma kquiet_get_file f : kquiet (get_file f).
Proof. intros L n k Hk Hn. unfold part, get_file. by destruct (k_files k !! f). Qed.

Lemma kquiet_get_pipe p : kquiet (get_pipe p).
Proof. intros L n k Hk Hn. unfold part, get_pipe. by destruct (k_pipes k !! p) as [[?|]|]. Qed.

Lemma kquiet_upd_file f g : kquiet (upd_file f g).
Proof. by apply kquiet_modify. Qed.

Lemma kquiet_put_pipe p x : kquiet (put_pipe p x).
Proof. by apply kquiet_modify. Qed.
End Kernel.

Create HintDb kquiet discriminated.
#[export] Hint Resolve kquiet_ret kquiet_throw kquiet_gets kquiet_get_file kquiet_get_pipe kquiet_upd_file
  kquiet_put_pipe : kquiet.

Ltac kstep :=
  first
    [ solve [auto with kquiet]
    | apply kquiet_fsop; solve [auto with quiet]
    | apply kquiet_modify; by intros
    | match goal with
      | |- kquiet _ (mbind _ _) => apply kquiet_bind; [|intros ?; cbv beta]
      | |- kquiet _ (let x := ?e in _) => cbv zeta
      | |- kquiet _ (if ?b then _ else _) => destruct b
      | |- kquiet _ (match ?x with _ => _ end) => destruct x
      | |- kt _ _ _ (mret _) _ => apply kt_ret; cbv beta; done
      | |- kt _ _ _ (throw _) _ => apply kt_throw
      | |- kt _ _ _ nofuel _ => apply kt_nofuel
      | |- kt _ _ _ (mbind _ begin_op) _ => apply kt_begin
      | |- kt _ _ _ (mbind _ end_op) _ => apply kt_end
      | |- kt _ _ _ end_op _ => apply kt_end_last; cbv beta; done
      | |- kt ?me _ _ ?m _ => solve [let H := fresh in assert (H : kquiet me m) by (auto with kquiet); apply H]
      | |- kt _ _ _ (mbind _ (fsop (ilock _ _))) _ => apply kt_lock; intros ?
      | |- kt _ _ _ (mbind _ (fsop (iunlock _ _))) _ => apply kt_unlock; [done|]
      | |- kt _ _ _ (mbind _ (fsop (iunlockput _ _))) _ => apply kt_unlockput; [done|]
      | |- kt _ _ _ (mbind _ ?m) _ => apply kt_skip; [solve [repeat kstep]|intros ?; cbv beta]
      | |- kt _ _ _ (let x := ?e in _) _ => cbv zeta
      | |- kt _ _ _ (if ?b then _ else _) _ => destruct b
      | |- kt _ _ _ (match ?x with _ => _ end) _ => destruct x
      end ].
Ltac kwalk := repeat kstep.
Ltac kskip := apply kt_skip; [solve [kwalk]|].

Section Files.
Context (me : Z) (killed : nat → bool) (devsw : Z → option (K (Z * list Z)) * option (K Z)) (junk : list Z).
Local Abbreviation kquiet := (kquiet me).

(** The drivers of the devices take nothing over. *)
Context (Hread : ∀ d rd, fst (devsw d) = Some rd → kquiet rd).
Context (Hwrite : ∀ d wr, snd (devsw d) = Some wr → kquiet wr).

Lemma kquiet_filealloc : kquiet filealloc.
Proof. unfold filealloc. kwalk. Qed.
Lemma kquiet_filedup f : kquiet (filedup f).
Proof. unfold filedup. kwalk. Qed.
Lemma kquiet_close_pipe p w : kquiet (close_pipe p w).
Proof. unfold close_pipe. kwalk. Qed.
Hint Resolve kquiet_filealloc kquiet_filedup kquiet_close_pipe : kquiet.

Lemma kquiet_fileclose f : kquiet (fileclose me f).
Proof. intros L n. unfold fileclose. kwalk. Qed.
Hint Resolve kquiet_fileclose : kquiet.

Lemma kquiet_pipealloc page : kquiet (pipealloc me page).
Proof. unfold pipealloc. kwalk. Qed.
Hint Resolve kquiet_pipealloc : kquiet.

Lemma kquiet_filestat out f : kquiet (filestat me out f).
Proof. intros L n. unfold filestat. kwalk. Qed.

Lemma kquiet_fileread out f n : kquiet (fileread me killed devsw out f n).
Proof using Hread.
  intros L m. unfold fileread. apply kt_skip; [apply kquiet_get_file|]. intros x. kstep; [kwalk|].
  destruct (f_type x).
  - kwalk.
  - apply kt_skip; [apply kquiet_get_pipe|]. intros pi. destruct (piperead _ _ _ _) as [[[t bs] w] pi']. kwalk.
  - kwalk.
  - kstep; [kwalk|]. destruct (fst (devsw (f_major x))) as [rd|] eqn:E; [by eapply Hread|kwalk].
Qed.

Lemma kquiet_filewrite inn f n : kquiet (filewrite me killed devsw inn f n).
Proof using Hwrite.
  unfold filewrite. apply kquiet_bind; [apply kquiet_get_file|]. intros x. kstep; [kwalk|].
  destruct (f_type x).
  - kwalk.
  - apply kquiet_bind; [apply kquiet_get_pipe|]. intros pi. destruct (pipewrite _ _ _ _ _) as [[[t i'] w] pi']. kwalk.
  - apply kquiet_bind; [|intros ?; kwalk]. generalize (S (Z.to_nat n)) 0. intros fuel.
    induction fuel as [|fuel IH]; intros i L m; cbn [filewrite_loop]; kwalk.
  - kstep; [kwalk|]. destruct (snd (devsw (f_major x))) as [wr|] eqn:E; [by eapply Hwrite|kwalk].
Qed.

(** *** The calls *)
Lemma kquiet_argfd fd : kquiet (argfd fd).
Proof. unfold argfd. kwalk. Qed.
Lemma kquiet_fdalloc f : kquiet (fdalloc f).
Proof. unfold fdalloc. kwalk. Qed.
Lemma kquiet_clear_fd fd : kquiet (clear_fd fd).
Proof. by apply kquiet_modify. Qed.
Lemma kquiet_ipath p : kquiet (ipath me junk p).
Proof.
  unfold ipath. apply kquiet_bind; [apply kquiet_gets|]. intros k. apply kquiet_fsop. unfold namei. quiet.
Qed.
Lemma kquiet_iparent p : kquiet (iparent me junk p).
Proof.
  unfold iparent. apply kquiet_bind; [apply kquiet_gets|]. intros k. apply kquiet_fsop, quiet_namex.
Qed.
Lemma kquiet_add_nlink ip d : kquiet (add_nlink ip d).
Proof.
  unfold add_nlink. apply kquiet_bind; [apply kquiet_fsop, quiet_set_ip; by intros|]. intros _. kwalk.
Qed.
Hint Resolve kquiet_argfd kquiet_fdalloc kquiet_clear_fd kquiet_ipath kquiet_iparent kquiet_add_nlink : kquiet.

Lemma kquiet_sys_dup fd : kquiet (sys_dup fd).
Proof. unfold sys_dup. kwalk. Qed.
Lemma kquiet_sys_read fd out n : kquiet (sys_read me killed devsw fd out n).
Proof using Hread.
  unfold sys_read. apply kquiet_bind; [apply kquiet_argfd|]. intros [f|]; [by apply kquiet_fileread|kwalk].
Qed.
Lemma kquiet_sys_write fd inn n : kquiet (sys_write me killed devsw fd inn n).
Proof using Hwrite.
  unfold sys_write. apply kquiet_bind; [apply kquiet_argfd|]. intros [f|]; [by apply kquiet_filewrite|kwalk].
Qed.
Lemma kquiet_sys_close fd : kquiet (sys_close me fd).
Proof. unfold sys_close. kwalk. Qed.
Lemma kquiet_sys_fstat fd out : kquiet (sys_fstat me fd out).
Proof. unfold sys_fstat. apply kquiet_bind; [apply kquiet_argfd|]. intros [f|]; [apply kquiet_filestat|kwalk]. Qed.

Lemma kt_link_bad L n ip (Q : Z → list bool → Z → Prop) : Q (-1) L n → kt me L (n + 1) (link_bad me ip) Q.
Proof. intros H. unfold link_bad. kwalk. Qed.

Lemma kquiet_sys_link old new : kquiet (sys_link me junk old new).
Proof.
  unfold sys_link. destruct old as [old|]; [|kwalk]. destruct new as [new|]; [|kwalk]. intros L n. kstep.
  kskip. intros [ip|]; [|kwalk]. kstep. kskip. intros i. kstep; [kwalk|]. kstep; [kwalk|]. kskip. intros _. kstep.
  kskip. intros [[dp|] name]; [|by apply kt_link_bad]. kstep. kskip. intros d. kstep.
  { kstep. by apply kt_link_bad. }
  kskip. intros i'. apply kt_skip; [destruct (negb _); kwalk|]. intros r. kstep.
  - kstep. by apply kt_link_bad.
  - kwalk.
Qed.

(** The first of two locks is released. *)
Lemma kt_unlockput_first {A} L n dp ip (m : K A) Q :
  L !! dp = Some false → <[dp := true]> L !! ip = Some false →
  kt me (<[ip := true]> L) n m Q → kt me (<[ip := true]> (<[dp := true]> L)) n (fsop (iunlockput me dp);; m) Q.
Proof.
  intros Hd Hi Hm. destruct (locked_twice L dp ip Hi) as (-> & H1 & H2). apply kt_unlockput; [by apply H2|done].
Qed.

Lemma lock_apart (L : list bool) dp ip :
  <[dp := true]> L !! ip = Some false → L !! ip = Some false.
Proof. intros H. by apply locked_twice in H as (_ & ? & _). Qed.

Lemma kt_unlink_bad L n dp (Q : Z → list bool → Z → Prop) :
  L !! dp = Some false → Q (-1) L n → kt me (<[dp := true]> L) (n + 1) (unlink_bad me dp) Q.
Proof. intros Hd H. unfold unlink_bad. kwalk. Qed.

Lemma kquiet_sys_unlink p : kquiet (sys_unlink me junk p).
Proof.
  unfold sys_unlink. destruct p as [p|]; [|kwalk]. intros L n. kstep. kskip. intros [[dp|] name]; [|kwalk].
  apply kt_lock. intros Hd. kstep; [by apply kt_unlink_bad|]. kskip. intros [[ip off]|]; [|by apply kt_unlink_bad].
  apply kt_lock. intros Hp. kskip. intros i. kstep; [kwalk|]. kskip. intros e. kstep.
  { kstep. by apply kt_unlink_bad. }
  kskip. intros r. kstep; [kwalk|]. kskip. intros _. apply kt_unlockput_first; [done|done|].
  apply lock_apart in Hp. kwalk.
Qed.

(** [create] gives the inode locked. *)
Definition gives_locked (L : list bool) (n : Z) (r : option nat) (L' : list bool) (n' : Z) : Prop :=
  n' = n ∧ match r with None => L' = L | Some ip => L !! ip = Some false ∧ L' = <[ip := true]> L end.

Lemma kt_create_fail L n dp ip Q :
  L !! dp = Some false → <[dp := true]> L !! ip = Some false → Q None L n →
  kt me (<[ip := true]> (<[dp := true]> L)) n (create_fail me dp ip) Q.
Proof.
  intros Hd Hi H. unfold create_fail. apply kt_skip; [apply kquiet_fsop, quiet_set_ip; by intros|]. intros _. kwalk.
Qed.

Lemma kt_create L n p type major minor :
  kt me L n (create me junk p type major minor) (gives_locked L n).
Proof.
  unfold create. kskip. intros [[dp|] name]; [|by apply kt_ret]. apply kt_lock. intros Hd. kskip. intros d.
  kstep; [kstep; by apply kt_ret|]. kstep; [kstep; by apply kt_ret|]. kskip. intros [[ip off]|].
  { kstep. apply kt_lock. intros Hi. kskip. intros i. kstep; [by apply kt_ret|]. kstep. by apply kt_ret. }
  kskip. intros [ip|]; [|kstep; by apply kt_ret]. apply kt_lock. intros Hi.
  apply kt_skip; [apply kquiet_fsop, quiet_set_ip; by intros|]. intros _. kskip. intros _. kskip. intros i. kskip.
  intros r. kstep; [by apply kt_create_fail|]. kskip. intros r'. kstep; [by apply kt_create_fail|]. kskip. intros _.
  apply kt_unlockput_first; [done|done|]. apply kt_ret. split; [done|]. split; [by eapply lock_apart|done].
Qed.

Lemma kt_open_inode L n p omode : kt me L n (open_inode me junk p omode) (gives_locked L n).
Proof.
  unfold open_inode. kstep; [apply kt_create|]. kskip. intros [ip|]; [|by apply kt_ret].
  apply kt_lock. intros Hi. kskip. intros i. kstep; [kstep; by apply kt_ret|by apply kt_ret].
Qed.

Lemma kquiet_open_file : kquiet (open_file me).
Proof. unfold open_file. kwalk. Qed.
Hint Resolve kquiet_open_file : kquiet.

Lemma kquiet_sys_open p omode : kquiet (sys_open me junk p omode).
Proof.
  intros L n. unfold sys_open. destruct p as [p|]; [|kwalk]. kstep. eapply kt_bind; [apply kt_open_inode|].
  intros r L' n' [-> H]. destruct r as [ip|]; [|subst L'; kwalk]. destruct H as [Hi ->]. kwalk.
Qed.

Lemma kquiet_make_node p type major minor : kquiet (make_node me junk p type major minor).
Proof.
  intros L n. unfold make_node. kstep. eapply (kt_bind _ _ _ _ _ (gives_locked L (n + 1))).
  { destruct p as [p|]; [apply kt_create|by apply kt_ret]. }
  intros r L' n' [-> H]. destruct r as [ip|]; [|subst L'; kwalk]. destruct H as [Hi ->]. kwalk.
Qed.

Lemma kquiet_sys_chdir p : kquiet (sys_chdir me junk p).
Proof. intros L n. unfold sys_chdir. destruct p as [p|]; kwalk. Qed.

Lemma kquiet_sys_pipe page stored : kquiet (sys_pipe me page stored).
Proof. unfold sys_pipe. kwalk. Qed.

(** *** All of them *)
Inductive syscall :=
  | Dup (fd : Z)
  | Read (fd : Z) (ucopyout : Z → Z → bool) (n : Z)
  | Write (fd : Z) (ucopyin : Z → Z → list Z * bool) (n : Z)
  | CloseFd (fd : Z)
  | Fstat (fd : Z) (ucopyout : Z → Z → bool)
  | Link (old new : option path)
  | Unlink (p : option path)
  | Open (p : option path) (omode : Z)
  | Mkdir (p : option path)
  | Mknod (p : option path) (major minor : Z)
  | Chdir (p : option path)
  | MkPipe (page : option (list Z)) (stored : bool).

Definition syscall_run (c : syscall) : K () :=
  match c with
  | Dup fd => sys_dup fd;; mret ()
  | Read fd out n => sys_read me killed devsw fd out n;; mret ()
  | Write fd inn n => sys_write me killed devsw fd inn n;; mret ()
  | CloseFd fd => sys_close me fd;; mret ()
  | Fstat fd out => sys_fstat me fd out;; mret ()
  | Link old new => sys_link me junk old new;; mret ()
  | Unlink p => sys_unlink me junk p;; mret ()
  | Open p omode => sys_open me junk p omode;; mret ()
  | Mkdir p => sys_mkdir me junk p;; mret ()
  | Mknod p major minor => sys_mknod me junk p major minor;; mret ()
  | Chdir p => sys_chdir me junk p;; mret ()
  | MkPipe page stored => sys_pipe me page stored;; mret ()
  end.

Lemma kquiet_unit {A} (m : K A) : kquiet m → kquiet (m;; mret ()).
Proof. intros H. apply kquiet_bind; [done|]. intros _. apply kquiet_ret. Qed.

Lemma kquiet_syscall c : kquiet (syscall_run c).
Proof using Hread Hwrite.
  destruct c; apply kquiet_unit.
  - apply kquiet_sys_dup.
  - apply kquiet_sys_read.
  - apply kquiet_sys_write.
  - apply kquiet_sys_close.
  - apply kquiet_sys_fstat.
  - apply kquiet_sys_link.
  - apply kquiet_sys_unlink.
  - apply kquiet_sys_open.
  - apply kquiet_make_node.
  - apply kquiet_make_node.
  - apply kquiet_sys_chdir.
  - apply kquiet_sys_pipe.
Qed.

(** C8: every system call on files that returns, on success as on any error, has released each buffer and
    each inode's sleep-lock it acquired, and closed each transaction it began: what the process holds of
    these is what it held before. *)
Theorem syscalls_balanced c k k' :
  syscall_run c k = (Ret (), k') →
  held (k_fs k') = held (k_fs k) ∧ locks me (k_fs k') = locks me (k_fs k) ∧ k_ops k' = k_ops k.
Proof using Hread Hwrite.
  intros Hr. pose proof (kquiet_syscall c (locks me (k_fs k)) (k_ops k) k eq_refl eq_refl) as H.
  unfold part in H. by rewrite Hr in H.
Qed.
End Files.

(** Opening the root directory. *)
Definition no_file : file :=
  {| f_type := FD_NONE; f_ref := 0; f_readable := false; f_writable := false; f_pipe := 0; f_ip := 0; f_off := 0;
     f_major := 0 |}.
Definition small_kernel : kernel :=
  {| k_fs := dir_fs; k_files := replicate 2 no_file; k_pipes := []; k_ofile := replicate 2 None; k_cwd := 0; k_ops := 0 |}.

Theorem syscalls_balanced_witness :
  ∃ k', sys_open 1 (replicate DIRSIZ 0) (Some [47]) 0 small_kernel = (Ret 0, k') ∧
    held (k_fs k') = held (k_fs small_kernel) ∧ k_ops k' = k_ops small_kernel.
Proof.
  eexists. split; [reflexivity|].
  match goal with |- held (k_fs ?k') = _ ∧ _ =>
    destruct (syscalls_balanced 1 (λ _, false) (λ _, (None, None)) (replicate DIRSIZ 0)
      ltac:(done) ltac:(done) (Open (Some [47]) 0) small_kernel k' eq_refl) as (H1 & _ & H2) end.
  split; [exact H1|exact H2].
Defined.
