(* ===== verification/Grep.v ===== *)
(** * The pattern matcher of grep (xv6/user/grep.c)

    A C string is the list of its bytes and the bytes behind it: the matcher
    reads [re[1]] only when [re[0]] is not the NUL.  The reference is the language
    of a pattern. *)

From S2P Require Import Prelude.

#[local] Set Warnings "-clear-no-such-hyp".
#[local] Set Default Proof Using "Type".
Local Open Scope nat_scope.

Definition CARET : ascii := "^".
Definition DOLLAR : ascii := "$".
Definition STAR : ascii := "*".
Definition DOT : ascii := ".".

(** [matchstar] calls [matchhere] on a shorter pattern and goes on with a shorter text. *)
Section Star.
Context (matchhere : cstr → bool).

(** The turns of the loop of [matchstar]. *)
Fixpoint star_loop (c : ascii) (text : cstr) : bool :=
  matchhere text ||
  match text with
  | t :: text' => ((t =c? c)%c || (c =c? DOT)%c) && star_loop c text'
  | [] => false
  end.
End Star.

(** By recursion on the pattern, two characters at a time for a star. *)
Fixpoint matchhere (re text : cstr) {struct re} : bool :=
  match re with
  | [] => true
  | c :: re1 =>
      match re1 with
      | s :: re2 =>
          if (s =c? STAR)%c then star_loop (matchhere re2) c text
          else
            match text with
            | t :: text' => ((c =c? DOT)%c || (c =c? t)%c) && matchhere re1 text'
            | [] => false
            end
      | [] =>
          if (c =c? DOLLAR)%c then match text with [] => true | _ => false end
          else
            match text with
            | t :: text' => ((c =c? DOT)%c || (c =c? t)%c) && matchhere re1 text'
            | [] => false
            end
      end
  end.

Definition matchstar (c : ascii) (re text : cstr) : bool := star_loop (matchhere re) c text.

Fixpoint match_loop (re text : cstr) : bool :=
  matchhere re text || match text with _ :: text' => match_loop re text' | [] => false end.

Definition match_ (re text : cstr) : bool :=
  match re with
  | c :: re' => if (c =c? CARET)%c then matchhere re' text else match_loop re text
  | [] => match_loop re text
  end.

(** ** Reading lines

    The file is the bytes not read yet; [sizes] says how many bytes each [read]
    returns, at least one before the end of the file and at most the room. *)
Definition BUF : nat := 1024.

Definition read_file (room size : nat) (file : cstr) : cstr * cstr :=
  let n := Nat.min room (Nat.max 1 size) in (take n file, drop n file).

(** The text up to the first newline and what is behind it; [None]: [strchr] finds none before a NUL. *)
Fixpoint find_line (p : cstr) : option (cstr * cstr) :=
  match p with
  | [] => None
  | c :: p =>
      if (c =c? NUL)%c then None
      else if (c =c? NL)%c then Some ([], p)
      else '(line, rest) ← find_line p; Some (c :: line, rest)
  end.

(** The inner loop: what is written and what is left from [p] on. *)
Fixpoint grep_lines (fuel : nat) (pattern p : cstr) : cstr * cstr :=
  match fuel with
  | O => ([], p)
  | S fuel =>
      match find_line p with
      | None => ([], p)
      | Some (line, rest) =>
          let (out, left) := grep_lines fuel pattern rest in
          ((if match_ pattern line then line ++ [NL] else []) ++ out, left)
      end
  end.

(** [buf] has the [m] bytes kept from the turns before. *)
Fixpoint grep (sizes : list nat) (pattern buf file : cstr) : cstr :=
  match sizes with
  | [] => []
  | size :: sizes =>
      match read_file (BUF - length buf - 1) size file with
      | ([], _) => []
      | (bytes, file) =>
          let (out, left) := grep_lines (S (length (buf ++ bytes))) pattern (buf ++ bytes) in
          out ++ grep sizes pattern left file
      end
  end.

(** ** The language of a pattern *)

(** A character of the pattern, and whether a star follows. *)
Definition item : Type := ascii * bool.

(** The items, and whether the pattern ends with a dollar. *)
Fixpoint items (re : cstr) : list item * bool :=
  match re with
  | [] => ([], false)
  | c :: re1 =>
      match re1 with
      | s :: re2 =>
          if (s =c? STAR)%c then let (l, e) := items re2 in ((c, true) :: l, e)
          else let (l, e) := items re1 in ((c, false) :: l, e)
      | [] => if (c =c? DOLLAR)%c then ([], true) else ([(c, false)], false)
      end
  end.

Definition atom (c t : ascii) : Prop := c = DOT ∨ c = t.

Inductive lang : list item → cstr → Prop :=
  | lang_nil : lang [] []
  | lang_one c l t w : atom c t → lang l w → lang ((c, false) :: l) (t :: w)
  | lang_star c l w1 w2 : Forall (atom c) w1 → lang l w2 → lang ((c, true) :: l) (w1 ++ w2).

(** A prefix of [text] is in the language; all of it, if the pattern ends with a dollar. *)
Definition here (p : list item * bool) (text : cstr) : Prop :=
  ∃ w v, text = w ++ v ∧ lang p.1 w ∧ (p.2 = true → v = []).

(** Some part of [text] is in the language of the pattern. *)
Definition matches (re text : cstr) : Prop :=
  ∃ u w v l e,
    text = u ++ w ++ v ∧ lang l w ∧ (e = true → v = []) ∧
    match re with
    | c :: re' => if (c =c? CARET)%c then items re' = (l, e) ∧ u = [] else items re = (l, e)
    | [] => items re = (l, e)
    end.

Lemma atom_spec c t : ((c =c? DOT)%c || (c =c? t)%c) = true ↔ atom c t.
Proof. unfold atom. rewrite orb_true_iff, !Ascii.eqb_eq. done. Qed.

Lemma star_spec (m : cstr → bool) (p : list item * bool) c text :
  (∀ t, m t = true ↔ here p t) →
  star_loop m c text = true ↔ here ((c, true) :: p.1, p.2) text.
Proof.
  intros Hm. revert c. induction text as [|t text IH]; intros c; cbn [star_loop]; rewrite orb_true_iff, Hm.
  - split.
    + intros [H|H]; [|done]. destruct H as (w & v & E & Hl & He). exists w, v. split; [done|]. split; [|done].
      by apply (lang_star c _ [] w).
    + intros (w & v & E & Hl & He). left. cbn [fst snd] in *. inversion Hl as [| |? ? w1 w2 Hf Hl2]; subst.
      symmetry in E. apply app_nil in E as [E ->]. apply app_nil in E as [-> ->]. by exists [], [].
  - rewrite andb_true_iff, IH, orb_comm. rewrite (Ascii.eqb_sym t c).
    rewrite atom_spec. split.
    + intros [H|[Ht H]].
      * destruct H as (w & v & E & Hl & He). exists w, v. split; [done|]. split; [|done]. by apply (lang_star c _ [] w).
      * destruct H as (w & v & -> & Hl & He). cbn [fst snd] in *. inversion Hl as [| |? ? w1 w2 Hf Hl2]; subst.
        exists (t :: w1 ++ w2), v. split; [done|]. split; [|done]. apply (lang_star c _ (t :: w1) w2); [by constructor|done].
    + intros (w & v & E & Hl & He). cbn [fst snd] in *. inversion Hl as [| |? ? w1 w2 Hf Hl2]; subst.
      destruct w1 as [|x w1]; cbn [app] in E.
      * left. by exists w2, v.
      * right. injection E as <- ->. apply Forall_cons in Hf as [Ht Hf]. split; [done|]. exists (w1 ++ w2), v.
        split; [done|]. split; [by apply lang_star|done].
Qed.

Lemma one_spec c l e text :
  here ((c, false) :: l, e) text ↔ ∃ t text', text = t :: text' ∧ atom c t ∧ here (l, e) text'.
Proof.
  split.
  - intros (w & v & -> & Hl & He). cbn [fst snd] in *. inversion Hl as [|? ? t w' Ha Hl2|]; subst. exists t, (w' ++ v).
    split; [done|]. split; [done|]. by exists w', v.
  - intros (t & text' & -> & Ha & w & v & -> & Hl & He). exists (t :: w), v. split; [done|]. split; [by constructor|done].
Qed.

Lemma matchhere_spec n : ∀ re text, length re ≤ n → matchhere re text = true ↔ here (items re) text.
Proof.
  induction n as [|n IH]; intros [|c re1] text Hn; cbn [length] in Hn; try lia.
  1,2: cbn; split; [intros _; exists [], text; by split; [|split; [constructor|]]|done].
  assert (Hone : ∀ l e, items re1 = (l, e) →
    (match text with t :: text' => ((c =c? DOT)%c || (c =c? t)%c) && matchhere re1 text' | [] => false end = true
     ↔ here ((c, false) :: l, e) text)).
  { intros l e E. rewrite one_spec. destruct text as [|t text'].
    - split; [done|]. by intros (? & ? & ? & _).
    - rewrite andb_true_iff, atom_spec, IH, E by lia. split; [intros []; by exists t, text'|].
      by intros (? & ? & [= <- <-] & ?). }
  cbn [matchhere items]. destruct re1 as [|s re2].
  - destruct (c =c? DOLLAR)%c eqn:Ed.
    + destruct text as [|t text].
      * split; [|done]. intros _. exists [], []. by split; [|split; [constructor|]].
      * split; [done|]. intros (w & v & E & Hl & He). cbn [fst snd] in *. inversion Hl; subst. by rewrite He in E.
    + by apply Hone.
  - destruct (s =c? STAR)%c eqn:Es.
    + destruct (items re2) as [l e] eqn:E. apply (star_spec _ (l, e)). intros t. rewrite <-E. apply IH. cbn in Hn. lia.
    + destruct (items (s :: re2)) as [l e] eqn:E. by apply Hone.
Qed.

(** C39: [match] answers whether some part of the line is in the language of the pattern, where [.] is any character,
    [*] repeats the character before it, [^] at the start and [$] at the end bind the match to the ends of the line. *)
Theorem match_language re text : match_ re text = true ↔ matches re text.
Proof.
  assert (Hloop : ∀ re text, match_loop re text = true ↔
    ∃ u w v l e, text = u ++ w ++ v ∧ lang l w ∧ (e = true → v = []) ∧ items re = (l, e)).
  { clear. intros re text. destruct (items re) as [l e] eqn:Ei.
    assert (Hh : ∀ t, matchhere re t = true ↔ here (l, e) t) by (intros t; rewrite <-Ei; by apply (matchhere_spec (length re))).
    induction text as [|t text IH]; cbn [match_loop]; rewrite orb_true_iff, Hh.
    - split.
      + intros [(w & v & E & Hl & He)|]; [|done]. by exists [], w, v, l, e.
      + intros (u & w & v & l' & e' & E & Hl & He & [= <- <-]). left. symmetry in E. apply app_nil in E as [-> E]. by exists w, v.
    - rewrite IH. split.
      + intros [(w & v & E & Hl & He)|(u & w & v & l' & e' & -> & H)]; [by exists [], w, v, l, e|]. by exists (t :: u), w, v, l', e'.
      + intros (u & w & v & l' & e' & E & Hl & He & [= <- <-]). destruct u as [|x u]; [left; by exists w, v|right].
        injection E as _ ->. by exists u, w, v, l, e. }
  unfold match_, matches. destruct re as [|c re]; [apply Hloop|]. destruct (c =c? CARET)%c; [|apply Hloop].
  rewrite (matchhere_spec (length re)) by done. split.
  - intros (w & v & E & Hl & He). exists [], w, v, (items re).1, (items re).2. split; [done|]. split; [done|]. split; [done|].
    split; [by destruct (items re)|done].
  - intros (u & w & v & l & e & E & Hl & He & Ei & ->). exists w, v. rewrite Ei. done.
Qed.

(** ** The lines of a file *)

(** The lines that end with a newline, without it, and the text behind the last newline. *)
Fixpoint split_lines (p : cstr) : list cstr * cstr :=
  match p with
  | [] => ([], [])
  | c :: p =>
      let (ls, r) := split_lines p in
      if (c =c? NL)%c then ([] :: ls, r)
      else match ls with [] => ([], c :: r) | l :: ls => ((c :: l) :: ls, r) end
  end.

Definition matching (pattern : cstr) (ls : list cstr) : cstr :=
  concat ((λ l, if match_ pattern l then l ++ [NL] else []) <$> ls).

Lemma split_lines_app p q :
  split_lines (p ++ q)
  = ((split_lines p).1 ++ (split_lines ((split_lines p).2 ++ q)).1, (split_lines ((split_lines p).2 ++ q)).2).
Proof.
  induction p as [|c p IH]; cbn [split_lines app fst snd]; [by destruct (split_lines q)|].
  rewrite IH. destruct (split_lines p) as [[|l ls] r]; cbn [fst snd]; destruct (c =c? NL)%c eqn:E; cbn [fst snd app]; try done.
  cbn [split_lines]. rewrite E. by destruct (split_lines (r ++ q)) as [[|l ls] r'].
Qed.

Lemma find_line_spec p :
  NUL ∉ p → match find_line p with
  | None => split_lines p = ([], p)
  | Some (line, rest) => split_lines p = (line :: (split_lines rest).1, (split_lines rest).2) ∧ p = line ++ NL :: rest
  end.
Proof.
  induction p as [|c p IH]; intros Hn; cbn [find_line split_lines]; [done|]. apply not_elem_of_cons in Hn as [Hc Hn].
  rewrite (proj2 (Ascii.eqb_neq c NUL)) by done. destruct (c =c? NL)%c eqn:E.
  - apply Ascii.eqb_eq in E. subst. by destruct (split_lines p).
  - specialize (IH Hn). destruct (find_line p) as [[line rest]|]; cbn [mbind option_bind].
    + destruct IH as [-> ->]. done.
    + by rewrite IH.
Qed.

Lemma grep_lines_spec fuel pattern p :
  NUL ∉ p → length p < fuel → grep_lines fuel pattern p = (matching pattern (split_lines p).1, (split_lines p).2).
Proof.
  revert p. induction fuel as [|fuel IH]; intros p Hn Hf; [lia|]. cbn [grep_lines]. pose proof (find_line_spec p Hn) as H.
  destruct (find_line p) as [[line rest]|]; [|by rewrite H]. destruct H as [-> ->]. rewrite length_app in Hf. cbn [length] in Hf.
  rewrite IH by (try lia; intros ?; apply Hn; apply elem_of_app; right; by right). done.
Qed.

Lemma split_rest p : (split_lines (split_lines p).2).1 = [] ∧ (split_lines (split_lines p).2).2 = (split_lines p).2.
Proof.
  induction p as [|c p IH]; cbn [split_lines]; [done|]. destruct (split_lines p) as [[|l ls] r]; cbn [fst snd] in *;
    destruct (c =c? NL)%c eqn:E; try done. cbn [snd split_lines]. destruct (split_lines r) as [ls' r'], IH; cbn in *. subst. by rewrite E.
Qed.

Lemma split_sub p x : x ∈ (split_lines p).2 → x ∈ p.
Proof.
  induction p as [|c p IH]; cbn [split_lines]; [done|]. destruct (split_lines p) as [[|l ls] r]; cbn [snd] in *;
    destruct (c =c? NL)%c; cbn [snd]; rewrite ?elem_of_cons; naive_solver.
Qed.

(** The first line behind a text without a newline. *)
Lemma split_first r q l ls :
  (split_lines r).1 = [] → (split_lines (r ++ q)).1 = l :: ls → length r ≤ length l.
Proof.
  revert l. induction r as [|c r IH]; intros l Hr Hl; cbn [app split_lines length] in *; [lia|].
  destruct (split_lines r) as [[|l1 ls1] r1]; destruct (c =c? NL)%c; cbn [fst] in *; try done.
  destruct (split_lines (r ++ q)) as [[|l2 ls2] r2]; cbn [fst] in *; [done|]. injection Hl as <- <-. cbn [length].
  specialize (IH l2 eq_refl eq_refl). lia.
Qed.

Lemma grep_spec sizes pattern : ∀ buf file,
  NUL ∉ buf ++ file → (split_lines buf).1 = [] → Forall (λ l, length l < BUF - 1) (split_lines (buf ++ file)).1 →
  length file < length sizes → grep sizes pattern buf file = matching pattern (split_lines (buf ++ file)).1.
Proof.
  induction sizes as [|size sizes IH]; intros buf file Hnul Hbuf Hshort Hlen; [cbn in Hlen; lia|]. cbn [grep].
  unfold read_file. set (n := Nat.min (BUF - length buf - 1) (Nat.max 1 size)).
  destruct (take n file) as [|b bytes] eqn:Et.
  - destruct file as [|x file]; [rewrite app_nil_r, Hbuf; done|].
    assert (n = 0) as Hn0 by (destruct n; [done|discriminate]).
    destruct (split_lines (buf ++ x :: file)).1 as [|l ls] eqn:El; [done|]. exfalso.
    pose proof (split_first _ _ _ _ Hbuf El). apply Forall_cons in Hshort as [Hl _]. unfold n in Hn0. lia.
  - rewrite <-Et. assert (Hfile : file = take n file ++ drop n file) by (by rewrite take_drop).
    assert (Hpos : length (drop n file) < length file).
    { rewrite length_drop. destruct n; [discriminate|]. destruct file; [discriminate|]. cbn. lia. }
    assert (Hnul1 : NUL ∉ buf ++ take n file).
    { intros H. apply Hnul. rewrite Hfile, app_assoc. apply elem_of_app. by left. }
    rewrite grep_lines_spec by (done || lia).
    assert (Es : split_lines (buf ++ file) = split_lines ((buf ++ take n file) ++ drop n file)).
    { by rewrite <-app_assoc, take_drop. }
    set (p := buf ++ take n file) in *. rewrite Es, (split_lines_app p (drop n file)) in Hshort |- *. cbn [fst] in *.
    apply Forall_app in Hshort as [_ Hshort]. rewrite IH.
    + unfold matching. by rewrite fmap_app, concat_app.
    + rewrite not_elem_of_app. split; [intros H; by apply Hnul1, split_sub|].
      intros H. apply Hnul. rewrite Hfile. rewrite app_assoc. apply elem_of_app. by right.
    + apply split_rest.
    + done.
    + cbn [length] in Hlen. lia.
Qed.

(** for a text file whose lines fit the buffer, [grep] prints exactly the lines that match, in order, however
    [read] cuts the file; what follows the last newline is not looked at. *)
Theorem grep_prints_matching_lines sizes pattern file :
  NUL ∉ file → Forall (λ l, length l < BUF - 1) (split_lines file).1 → length file < length sizes →
  grep sizes pattern [] file = matching pattern (split_lines file).1.
Proof. intros Hn Hs Hl. by apply grep_spec. Qed.

Theorem grep_prints_matching_lines_witness :
  grep (replicate 20 4) (lit "^a.*c$") [] (lit "abbc" ++ [NL] ++ lit "xac" ++ [NL] ++ lit "ac") = lit "abbc" ++ [NL].
Proof.
  rewrite (grep_prints_matching_lines (replicate 20 4) (lit "^a.*c$") (lit "abbc" ++ [NL] ++ lit "xac" ++ [NL] ++ lit "ac")).
  - reflexivity.
  - apply (bool_decide_eq_true_1 (NUL ∉ _)). reflexivity.
  - repeat constructor; apply Nat.ltb_lt; reflexivity.
  - apply Nat.ltb_lt. reflexivity.
Defined.
