(* ===== verification/Umalloc.v ===== *)
(** * The allocator of user memory (xv6/user/umalloc.c)

    Blocks are counted in units of 16 bytes, the size of a header; a block starts
    with its header.  Memory is here the two fields of the headers, as functions of
    their address.  The free blocks are a ring through [ptr] from [base], in the
    order of their addresses.  [sbrk] is the system call: [memory_ok] says whether
    the kernel has the memory for a size of the process ([Vm.sys_sbrk]). *)

From Stdlib Require Import Sorted.
From stdpp Require Import functions sorting.
From S2P Require Import Prelude.

#[local] Set Warnings "-clear-no-such-hyp".
#[local] Set Default Proof Using "Type".
Local Open Scope Z_scope.
#[local] Arguments Z.mul : simpl never.
#[local] Arguments Z.add : simpl never.

Definition HEADER : Z := 16.

Record heap := { ptr : Z → Z; size : Z → Z; freep : Z; brk : Z }.

Definition set_ptr (a v : Z) (h : heap) : heap :=
  {| ptr := <[a := v]> (ptr h); size := size h; freep := freep h; brk := brk h |}.
Definition set_size (a v : Z) (h : heap) : heap :=
  {| ptr := ptr h; size := <[a := u32 v]> (size h); freep := freep h; brk := brk h |}.
Definition set_freep (a : Z) (h : heap) : heap :=
  {| ptr := ptr h; size := size h; freep := a; brk := brk h |}.
Definition set_brk (a : Z) (h : heap) : heap :=
  {| ptr := ptr h; size := size h; freep := freep h; brk := a |}.

Section Malloc.
Context (base : Z) (memory_ok : Z → bool).

(** The loop of [free]; [None]: no more fuel. *)
Fixpoint find_place (fuel : nat) (bp p : Z) (h : heap) : option Z :=
  if (p <? bp) && (bp <? ptr h p) then Some p
  else if (ptr h p <=? p) && ((p <? bp) || (bp <? ptr h p)) then Some p
  else match fuel with O => None | S fuel => find_place fuel bp (ptr h p) h end.

(** The block [bp] is put behind [p] and joined to its neighbours. *)
Definition insert_block (bp p : Z) (h : heap) : heap :=
  let next := ptr h p in
  let h :=
    if bp + HEADER * size h bp =? next then
      set_ptr bp (ptr h next) (set_size bp (size h bp + size h next) h)
    else set_ptr bp next h in
  let h :=
    if p + HEADER * size h p =? bp then
      set_ptr p (ptr h bp) (set_size p (size h p + size h bp) h)
    else set_ptr p bp h in
  set_freep p h.

Definition free (fuel : nat) (ap : Z) (h : heap) : option heap :=
  let bp := ap - HEADER in
  p ← find_place fuel bp (freep h) h; Some (insert_block bp p h).

(** -1: no memory. *)
Definition sbrk (n : Z) (h : heap) : Z * heap :=
  if (0 <? n) && negb (memory_ok (brk h + n)) then (-1, h)
  else (brk h, if 0 <=? brk h + n then set_brk (brk h + n) h else h).

(** [Some (0, _)]: no memory. *)
Definition morecore (fuel : nat) (nu : Z) (h : heap) : option (Z * heap) :=
  let nu := if nu <? 4096 then 4096 else nu in
  let (p, h) := sbrk (i32 (nu * HEADER)) h in
  if p =? -1 then Some (0, h)
  else
    h ← free fuel (p + HEADER) (set_size p nu h); Some (freep h, h).

Definition take_block (prevp p nunits : Z) (h : heap) : Z * heap :=
  if size h p =? nunits then (p + HEADER, set_freep prevp (set_ptr prevp (ptr h p) h))
  else
    let h := set_size p (size h p - nunits) h in
    let p := p + HEADER * size h p in
    (p + HEADER, set_freep prevp (set_size p nunits h)).

(** The loop of [malloc]; [nfuel] is for the loop of [free]. *)
Fixpoint malloc_loop (fuel nfuel : nat) (prevp p nunits : Z) (h : heap) : option (Z * heap) :=
  match fuel with
  | O => None
  | S fuel =>
      if nunits <=? size h p then Some (take_block prevp p nunits h)
      else if p =? freep h then
        '(p, h) ← morecore nfuel nunits h;
        if p =? 0 then Some (0, h) else malloc_loop fuel nfuel p (ptr h p) nunits h
      else malloc_loop fuel nfuel p (ptr h p) nunits h
  end.

Definition malloc (fuel : nat) (nbytes : Z) (h : heap) : option (Z * heap) :=
  let nunits := u32 ((nbytes + HEADER - 1) / HEADER + 1) in
  let h :=
    if freep h =? 0 then set_size base 0 (set_ptr base base (set_freep base h)) else h in
  malloc_loop fuel fuel (freep h) (ptr h (freep h)) nunits h.
End Malloc.

(** *** A program that calls them

    It has the pointers it was given, with the bytes it asked for. *)
Inductive call := Malloc (nbytes : Z) | Free (i : nat).

Section Run.
Context (base : Z) (memory_ok : Z → bool) (fuel : nat).

Definition do_call (c : call) (st : heap * list (Z * Z)) : option (heap * list (Z * Z)) :=
  let (h, live) := st in
  match c with
  | Malloc n =>
      '(r, h) ← malloc base memory_ok fuel n h;
      Some (h, if r =? 0 then live else (r, n) :: live)
  | Free i =>
      match live !! i with
      | Some (ap, _) => h ← free fuel ap h; Some (h, delete i live)
      | None => Some st
      end
  end.

Fixpoint run (cs : list call) (st : heap * list (Z * Z)) : option (heap * list (Z * Z)) :=
  match cs with [] => Some st | c :: cs => st ← do_call c st; run cs st end.
End Run.

(** ** The heap as a sequence of blocks

    From its start to the break the heap is a sequence of blocks, each with its units and whether it is free. *)
Abbreviation block := (Z * bool)%type.

Fixpoint total (s : list block) : Z := match s with [] => 0 | (n, _) :: s => n + total s end.

(** The addresses of the free blocks, and the allocated ones with their units, of blocks laid out from [a] on. *)
Fixpoint frees (a : Z) (s : list block) : list Z :=
  match s with
  | [] => []
  | (n, f) :: s => (if (f : bool) then [a] else []) ++ frees (a + HEADER * n) s
  end.

Fixpoint lives (a : Z) (s : list block) : list (Z * Z) :=
  match s with
  | [] => []
  | (n, f) :: s => (if (f : bool) then [] else [(a, n)]) ++ lives (a + HEADER * n) s
  end.

Fixpoint laid (h : heap) (a : Z) (s : list block) : Prop :=
  match s with
  | [] => True
  | (n, _) :: s => 0 < n ∧ size h a = n ∧ laid h (a + HEADER * n) s
  end.

(** No two free blocks are neighbours. *)
Fixpoint joined (s : list block) : Prop :=
  match s with
  | (_, f) :: s => match s with (_, g) :: _ => f && g = false | [] => True end ∧ joined s
  | [] => True
  end.

(** From [x] the pointers lead through [l] to [y]. *)
Fixpoint path (h : heap) (x : Z) (l : list Z) (y : Z) : Prop :=
  match l with
  | [] => ptr h x = y
  | q :: l => ptr h x = q ∧ path h q l y
  end.

Lemma total_app s1 s2 : total (s1 ++ s2) = total s1 + total s2.
Proof. induction s1 as [|[n f] s1 IH]; cbn [app total]; lia. Qed.

Lemma frees_app a s1 s2 : frees a (s1 ++ s2) = frees a s1 ++ frees (a + HEADER * total s1) s2.
Proof.
  revert a. induction s1 as [|[n f] s1 IH]; intros a; cbn [app frees total]; [by rewrite Z.mul_0_r, Z.add_0_r|].
  by rewrite IH, <-app_assoc, Z.mul_add_distr_l, Z.add_assoc.
Qed.

Lemma lives_app a s1 s2 : lives a (s1 ++ s2) = lives a s1 ++ lives (a + HEADER * total s1) s2.
Proof.
  revert a. induction s1 as [|[n f] s1 IH]; intros a; cbn [app lives total]; [by rewrite Z.mul_0_r, Z.add_0_r|].
  by rewrite IH, <-app_assoc, Z.mul_add_distr_l, Z.add_assoc.
Qed.

Lemma laid_app h a s1 s2 : laid h a (s1 ++ s2) ↔ laid h a s1 ∧ laid h (a + HEADER * total s1) s2.
Proof.
  revert a. induction s1 as [|[n f] s1 IH]; intros a; cbn [app laid total].
  - rewrite Z.mul_0_r, Z.add_0_r. tauto.
  - rewrite IH. replace (a + HEADER * n + HEADER * total s1) with (a + HEADER * (n + total s1)) by lia. tauto.
Qed.

Lemma laid_total h a s : laid h a s → 0 ≤ total s.
Proof. revert a. induction s as [|[n f] s IH]; intros a; cbn; [done|]. intros (H & _ & Hs). apply IH in Hs. lia. Qed.

Lemma frees_range h a s q : laid h a s → q ∈ frees a s → a ≤ q < a + HEADER * total s.
Proof.
  revert a. induction s as [|[n f] s IH]; intros a Hl Hq; cbn in *; [by apply not_elem_of_nil in Hq|].
  destruct Hl as (Hn & _ & Hl). pose proof (laid_total _ _ _ Hl). unfold HEADER in *. apply elem_of_app in Hq as [Hq|Hq].
  - destruct f; [|by apply not_elem_of_nil in Hq]. apply list_elem_of_singleton in Hq. lia.
  - apply IH in Hq; [|done]. lia.
Qed.

Lemma frees_end h a s q : laid h a s → q ∈ frees a s → 0 < size h q ∧ q + HEADER * size h q ≤ a + HEADER * total s.
Proof.
  revert a. induction s as [|[n f] s IH]; intros a Hl Hq; cbn in *; [by apply not_elem_of_nil in Hq|].
  destruct Hl as (Hn & Hs & Hl). pose proof (laid_total _ _ _ Hl). unfold HEADER in *. apply elem_of_app in Hq as [Hq|Hq].
  - destruct f; [|by apply not_elem_of_nil in Hq]. apply list_elem_of_singleton in Hq as ->. lia.
  - apply IH in Hq; [|done]. lia.
Qed.

Lemma laid_ext h h' a s :
  (∀ x, a ≤ x < a + HEADER * total s → size h' x = size h x) → laid h a s → laid h' a s.
Proof.
  revert a. induction s as [|[n f] s IH]; intros a He; cbn; [done|]. intros (Hn & Hs & Hl). cbn [total] in He.
  pose proof (laid_total _ _ _ Hl). unfold HEADER in *. split; [done|]. split; [rewrite He; [done|lia]|].
  apply IH; [|done]. intros x Hx. apply He. lia.
Qed.

Lemma frees_sorted h a s : laid h a s → StronglySorted Z.lt (frees a s).
Proof.
  revert a. induction s as [|[n f] s IH]; intros a; cbn; [constructor|]. intros (Hn & _ & Hl). destruct f; [|by apply IH].
  constructor; [by apply IH|]. apply Forall_forall. intros q Hq. pose proof (frees_range _ _ _ _ Hl Hq). unfold HEADER in *. lia.
Qed.

Lemma sorted_nodup l : StronglySorted Z.lt l → NoDup l.
Proof.
  induction 1 as [|x l Hs IH Hx]; constructor; [|done]. intros Hin. rewrite Forall_forall in Hx. pose proof (Hx _ Hin). lia.
Qed.

Lemma frees_nodup h a s : laid h a s → NoDup (frees a s).
Proof. intros H. by eapply sorted_nodup, frees_sorted. Qed.

(** *** Paths *)
Lemma path_app h x a q b y : path h x (a ++ q :: b) y ↔ path h x a q ∧ path h q b y.
Proof. revert x. induction a as [|p a IH]; intros x; cbn; [done|]. rewrite IH. tauto. Qed.

(** The last node before [y]. *)
Definition end_of (x : Z) (l : list Z) : Z := default x (last l).

Lemma end_of_cons x q l : end_of x (q :: l) = end_of q l.
Proof. unfold end_of. rewrite last_cons. by destruct (last l). Qed.

Lemma end_of_app x C p D : end_of x (C ++ p :: D) = end_of p D.
Proof. unfold end_of. rewrite last_app_cons, last_cons. by destruct (last D). Qed.

Lemma end_of_in x l : end_of x l ∈ x :: l.
Proof. revert x. induction l as [|q l IH]; intros x; [by left|]. rewrite end_of_cons. right. apply IH. Qed.

Lemma path_split h x a b y :
  path h x (a ++ b) y → path h x a (ptr h (end_of x a)) ∧ path h (end_of x a) b y.
Proof. revert x. induction a as [|q a IH]; intros x; [done|]. cbn [app path]. rewrite end_of_cons. intros [Hq Hp]. naive_solver. Qed.

Lemma path_concat h x a b y z : path h x a z → path h (end_of x a) b y → path h x (a ++ b) y.
Proof. revert x. induction a as [|q a IH]; intros x; [done|]. cbn [app path]. rewrite end_of_cons. intros [Hq Hp] Hb. auto. Qed.

Lemma path_ext h h' x l y : (∀ z, z ∈ x :: l → ptr h' z = ptr h z) → path h x l y → path h' x l y.
Proof.
  revert x. induction l as [|q l IH]; intros x He; cbn; [rewrite He; [done|by left]|].
  intros [H1 H2]. split; [rewrite He; [done|by left]|]. apply IH; [|done]. intros z Hz. apply He. by right.
Qed.

Lemma path_end h x l y : path h x l y → ptr h (end_of x l) = y.
Proof. revert x. induction l as [|q l IH]; intros x; cbn [path]; [done|]. intros [_ H]. rewrite end_of_cons. by apply IH. Qed.

Lemma path_set h h' x l y y' :
  NoDup (x :: l) → (∀ z, z ∈ x :: l → z ≠ end_of x l → ptr h' z = ptr h z) → ptr h' (end_of x l) = y' →
  path h x l y → path h' x l y'.
Proof.
  revert x. induction l as [|q l IH]; intros x Hnd He Hy; cbn [path]; [done|]. intros [H1 H2]. rewrite end_of_cons in *.
  apply NoDup_cons in Hnd as [Hx Hnd]. split.
  - rewrite He; [done|by left|]. intros ->. apply Hx, end_of_in.
  - apply IH; [done| |done|done]. intros z Hz. apply He. by right.
Qed.

Lemma path_same h x x' l y : ptr h x = ptr h x' → path h x l y → path h x' l y.
Proof. destruct l; cbn; intros E; rewrite E; done. Qed.

Lemma path_inj h x l y a b :
  path h x l y → NoDup (l ++ [y]) → a ∈ x :: l → b ∈ x :: l → ptr h a = ptr h b → a = b.
Proof.
  assert (Hin : ∀ l x c, path h x l y → c ∈ x :: l → ptr h c ∈ l ++ [y]).
  { induction l0 as [|q l0 IH]; intros z c; cbn [path app].
    - intros Hp ->%list_elem_of_singleton. rewrite Hp. by left.
    - intros [Hq Hp] [->|Hc]%elem_of_cons; [rewrite Hq; by left|]. right. by eapply IH. }
  revert x. induction l as [|q l IH]; intros x Hp Hnd Ha Hb E.
  - apply list_elem_of_singleton in Ha, Hb. congruence.
  - cbn [path app] in *. destruct Hp as [Hq Hp]. apply NoDup_cons in Hnd as [Hn Hnd].
    apply elem_of_cons in Ha as [->|Ha], Hb as [->|Hb]; [done| | |by eapply IH].
    + destruct Hn. rewrite <-Hq, E. by eapply Hin.
    + destruct Hn. rewrite <-Hq, <-E. by eapply Hin.
Qed.

(** A ring may be entered anywhere. *)
Lemma path_rotate h base F x :
  path h base F base → x ∈ base :: F → ∃ L, path h x L x ∧ x :: L ≡ₚ base :: F.
Proof.
  intros Hp [->|Hx]%elem_of_cons; [by exists F|]. apply list_elem_of_split in Hx as (C & D & ->).
  apply path_app in Hp as [HC HD]. exists (D ++ base :: C). split; [by apply path_app|]. solve_Permutation.
Qed.

(** ** The place of a block in the ring *)
Section Ring.
Context (base : Z) (h : heap) (bp : Z) (Hbp : base < bp).

Lemma find_up fuel p A B :
  base ≤ p → p < bp → StronglySorted Z.lt (p :: A ++ B) → Forall (λ q, q < bp) A → Forall (λ q, bp < q) B →
  path h p (A ++ B) base → (length A ≤ fuel)%nat → find_place fuel bp p h = Some (end_of p A).
Proof using Hbp.
  revert fuel p. induction A as [|q A IH]; intros fuel p Hb Hp Hs HA HB Hpath Hf; cbn [app path length] in *.
  - destruct B as [|q B]; cbn [path] in Hpath.
    + destruct fuel; cbn [find_place]; rewrite Hpath; destruct (Z.ltb_spec p bp), (Z.ltb_spec bp base), (Z.leb_spec base p); done || lia.
    + destruct Hpath as [Hpath _]. apply Forall_inv in HB.
      destruct fuel; cbn [find_place]; rewrite Hpath; destruct (Z.ltb_spec p bp), (Z.ltb_spec bp q); done || lia.
  - destruct Hpath as [Hq Hpath]. apply StronglySorted_inv in Hs as [Hs Hlt]. apply Forall_inv in Hlt.
    apply Forall_cons in HA as [Hqb HA]. destruct fuel as [|fuel]; [lia|]. cbn [find_place]. rewrite Hq, end_of_cons.
    destruct (Z.ltb_spec bp q), (Z.leb_spec q p); [lia..|]. rewrite andb_false_r. cbn [andb]. apply IH; try done; lia.
Qed.

Lemma find_wrap fuel p l :
  base ≤ p → bp < p → StronglySorted Z.lt (p :: l) → path h p l base →
  find_place (S (length l + fuel)) bp p h = find_place fuel bp base h.
Proof using Hbp.
  revert p. induction l as [|q l IH]; intros p Hb Hp Hs Hpath; cbn [path length Nat.add] in *.
  - cbn [find_place]. rewrite Hpath. destruct (Z.ltb_spec p bp), (Z.ltb_spec bp base); [lia..|]. cbn [andb orb]. by rewrite andb_false_r.
  - destruct Hpath as [Hq Hpath]. apply StronglySorted_inv in Hs as [Hs Hlt]. apply Forall_inv in Hlt.
    rewrite <-(IH q); [|lia|lia|done|done]. cbn [find_place]. rewrite Hq.
    destruct (Z.ltb_spec p bp), (Z.leb_spec q p); [lia..|]. done.
Qed.

Lemma find_place_spec fuel p A B :
  StronglySorted Z.lt (base :: A ++ B) → Forall (λ q, q < bp) A → Forall (λ q, bp < q) B →
  path h base (A ++ B) base → p ∈ base :: A ++ B → (2 * length (A ++ B) + 2 ≤ fuel)%nat →
  find_place fuel bp p h = Some (end_of base A).
Proof using Hbp.
  intros Hs HA HB Hpath Hp Hf. rewrite length_app in Hf. apply elem_of_cons in Hp as [->|[Hp|Hp]%elem_of_app].
  - apply find_up with B; [lia..|done|done|done|done|lia].
  - apply list_elem_of_split in Hp as (C & D & ->). rewrite <-app_assoc in Hs, Hpath. cbn [app] in Hs, Hpath.
    apply path_app in Hpath as [_ Hpath]. pose proof (proj2 (StronglySorted_inv Hs)) as Hlt.
    apply StronglySorted_inv in Hs as [Hs _]. apply StronglySorted_app_1_r in Hs as Hs'.
    apply Forall_app in HA as [_ [HC HD]%Forall_cons]. rewrite Forall_app, Forall_cons in Hlt. rewrite length_app in Hf. cbn [length] in Hf.
    rewrite end_of_app. apply find_up with B; [lia|lia|done|done|done|done|lia].
  - apply list_elem_of_split in Hp as (C & D & ->). rewrite app_assoc in Hpath.
    apply path_app in Hpath as Hpath'. destruct Hpath' as [_ Hpath']. rewrite <-app_assoc in Hpath.
    apply Forall_app in HB as HB'. destruct HB' as [_ HB']. apply Forall_inv in HB'.
    rewrite length_app in Hf. cbn [length] in Hf.
    replace fuel with (S (length D + (fuel - S (length D))))%nat by lia.
    rewrite find_wrap; [|lia|done| |done].
    + apply find_up with (C ++ p :: D); [lia..|done|done|done|done|lia].
    + apply StronglySorted_inv in Hs as [Hs _]. rewrite app_assoc in Hs. by apply StronglySorted_app_1_r in Hs.
Qed.
End Ring.

(** ** Joining a block with its neighbours *)
Definition join_right (bp next : Z) (h : heap) : heap :=
  if bp + HEADER * size h bp =? next then set_ptr bp (ptr h next) (set_size bp (size h bp + size h next) h)
  else set_ptr bp next h.

Definition join_left (p bp : Z) (h : heap) : heap :=
  if p + HEADER * size h p =? bp then set_ptr p (ptr h bp) (set_size p (size h p + size h bp) h)
  else set_ptr p bp h.

Lemma insert_block_joins bp p h : insert_block bp p h = set_freep p (join_left p bp (join_right bp (ptr h p) h)).
Proof. done. Qed.

(** Headers other than that of [a] are the same. *)
Definition same_but (a : Z) (h h' : heap) : Prop :=
  (∀ x, x ≠ a → ptr h' x = ptr h x ∧ size h' x = size h x) ∧ freep h' = freep h ∧ brk h' = brk h.

Lemma frees_first h a s q : laid h a s → head (frees a s) = Some q → (q = a ∧ ∃ n s', s = (n, true) :: s') ∨ a < q.
Proof.
  destruct s as [|[n [|]] s]; cbn; [done|..].
  - intros _ [= ->]. eauto.
  - intros (Hn & _ & Hl) Hq. right. apply head_Some_elem_of in Hq.
    pose proof (frees_range _ _ _ _ Hl Hq). unfold HEADER in *. lia.
Qed.

Lemma laid_ext_but h h' a s x :
  laid h a s → (∀ y, y ≠ x → ptr h' y = ptr h y ∧ size h' y = size h y) → x < a ∨ a + HEADER * total s ≤ x → laid h' a s.
Proof. intros Hl Hx Ha. eapply laid_ext; [|done]. intros y Hy. apply Hx. lia. Qed.

Lemma join_right_spec h base bp p n s :
  0 < n → size h bp = n → laid h (bp + HEADER * n) s → joined s → n + total s < 2 ^ 32 →
  base < bp → path h p (frees (bp + HEADER * n) s) base →
  let h' := join_right bp (ptr h p) h in
  ∃ n' s', (n' = n ∧ s' = s ∨ ∃ m, s = (m, true) :: s' ∧ n' = n + m) ∧
    same_but bp h h' ∧ size h' bp = n' ∧ laid h' (bp + HEADER * n') s' ∧ joined ((n', true) :: s') ∧
    path h' bp (frees (bp + HEADER * n') s') base.
Proof.
  intros Hn Hsz Hl Hj Htot Hb Hpath. cbv zeta. unfold join_right. rewrite Hsz.
  assert (Hbut : ∀ h1 h2 v w, (h2 = set_ptr bp v (set_size bp w h1) ∨ h2 = set_ptr bp v h1) → same_but bp h1 h2).
  { intros h1 h2 v w [-> | ->]; (split; [|done]); intros x Hx; cbn; by rewrite ?fn_lookup_insert_ne by done. }
  assert (Hrest : ∀ h2 a s', same_but bp h h2 → bp < a → laid h a s' → ∀ x y, ptr h2 bp = ptr h x →
    path h x (frees a s') y → laid h2 a s' ∧ path h2 bp (frees a s') y).
  { intros h2 a s' (Hsame & _) Ha Hl' x y Hx Hp. split; [apply laid_ext_but with h bp; auto with lia|].
    assert (Hnin : ∀ z, z ∈ frees a s' → z ≠ bp) by (intros z Hz ->; pose proof (frees_range _ _ _ _ Hl' Hz); lia).
    destruct (frees a s') as [|q l]; cbn [path] in *; [congruence|]. destruct Hp as [Hq Hp]. split; [congruence|].
    eapply path_ext; [|exact Hp]. intros z Hz. apply Hsame. auto. }
  assert (H16 : bp < bp + HEADER * n) by (unfold HEADER; lia).
  destruct s as [|[m f] s]; [|destruct f].
  - exists n, []. cbn [frees path] in *. rewrite Hpath. destruct (Z.eqb_spec (bp + HEADER * n) base); [lia|].
    split; [by left|]. split; [by eapply (Hbut _ _ _ 0); right|]. cbn. by rewrite fn_lookup_insert.
  - cbn [frees app path] in Hpath. destruct Hpath as [Hq Hpath]. cbn [laid total] in Hl, Htot. destruct Hl as (Hm & Hsm & Hl).
    rewrite Hq, Z.eqb_refl, Hsm. exists (n + m), s. pose proof (laid_total _ _ _ Hl).
    set (h' := set_ptr _ _ _).
    assert (Hbut' : same_but bp h h') by (eapply Hbut; by left).
    destruct (Hrest h' (bp + HEADER * (n + m)) s Hbut' ltac:(unfold HEADER; lia)) with (x := bp + HEADER * n) (y := base) as [Hl' Hp'].
    { by rewrite Z.mul_add_distr_l, Z.add_assoc. }
    { cbn. by rewrite fn_lookup_insert. }
    { by rewrite Z.mul_add_distr_l, Z.add_assoc. }
    split; [right; by exists m|]. split; [done|]. split; [cbn; rewrite fn_lookup_insert; apply Z.mod_small; lia|]. done.
  - exists n, ((m, false) :: s). assert (ptr h p ≠ bp + HEADER * n) as Hne.
    { cbn [laid frees app] in Hl, Hpath. destruct Hl as (Hm & _ & Hl).
      destruct (frees _ s) as [|q l] eqn:E; cbn [path] in Hpath; [lia|]. destruct Hpath as [-> _].
      assert (q ∈ frees (bp + HEADER * n + HEADER * m) s) as Hq by (rewrite E; by left).
      pose proof (frees_range _ _ _ _ Hl Hq). unfold HEADER in *. lia. }
    destruct (Z.eqb_spec (bp + HEADER * n) (ptr h p)); [congruence|].
    assert (Hbut' : same_but bp h (set_ptr bp (ptr h p) h)) by (eapply (Hbut h _ _ 0); by right).
    destruct (Hrest _ _ _ Hbut' H16 Hl p base) as [Hl' Hp']; [cbn; by rewrite fn_lookup_insert|done|].
    split; [by left|]. done.
Qed.

Lemma path_move h h' x x' l y :
  path h x l y → ptr h' x' = ptr h x → (∀ z, z ∈ l → ptr h' z = ptr h z) → path h' x' l y.
Proof.
  destruct l as [|q l]; cbn [path]; [congruence|]. intros [Hq Hp] E He. split; [congruence|].
  eapply path_ext; [|exact Hp]. auto.
Qed.

Lemma joined_app s1 b s2 : joined (s1 ++ b :: s2) ↔ joined (s1 ++ [b]) ∧ joined (b :: s2).
Proof.
  induction s1 as [|[n f] s1 IH]; cbn [app]; [destruct b; cbn; tauto|].
  destruct s1 as [|[m g] s1]; cbn [app joined] in *; [destruct b; cbn; tauto|]. tauto.
Qed.

Lemma joined_snoc s n m f : joined (s ++ [(n, f)]) → joined (s ++ [(m, f)]).
Proof.
  induction s as [|[k g] s IH]; cbn [app joined]; [done|]. intros [H1 H2]. split; [|by apply IH].
  by destruct s as [|[k' g'] s].
Qed.

Lemma joined_snoc_live s n : joined s → joined (s ++ [(n, false)]).
Proof.
  induction s as [|[k g] s IH]; cbn [app joined]; [done|]. intros [H1 H2]. split; [|by apply IH].
  destruct s as [|[k' g'] s]; cbn [app]; [apply andb_false_r|done].
Qed.

Lemma joined_prefix s1 s2 : joined (s1 ++ s2) → joined s1.
Proof.
  induction s1 as [|[n f] s1 IH]; cbn [app joined]; [done|]. intros [H1 H2]. split; [|by apply IH]. by destruct s1 as [|[m g] s1].
Qed.

Lemma joined_suffix s1 s2 : joined (s1 ++ s2) → joined s2.
Proof. induction s1 as [|[n f] s1 IH]; cbn [app joined]; [done|]. intros [_ H]. auto. Qed.

Section Left.
Context (h : heap) (base start : Z) (s : list block) (s2 : list block) (bp n : Z).
Context (Hbase : base + HEADER <= start) (Hsb : size h base = 0) (Hbp : bp = start + HEADER * total s).
Context (Hl : laid h start s) (Hn : 0 < n) (Hsz : size h bp = n).
Context (Hl2 : laid h (bp + HEADER * n) s2) (Hp2 : path h bp (frees (bp + HEADER * n) s2) base).
Context (Hj : joined s) (Hj2 : joined ((n, true) :: s2)).

Lemma put_behind y :
  let p := end_of base (frees start s) in
  path h base (frees start s) y → joined (s ++ [(n, true)]) →
  let h' := set_ptr p bp h in
  laid h' start (s ++ (n, true) :: s2) ∧ joined (s ++ (n, true) :: s2) ∧
    path h' base (frees start (s ++ (n, true) :: s2)) base.
Proof using Hl Hn Hsz Hl2 Hp2 Hj Hj2 Hbp Hbase.
  intros p Hp Hjs h'. pose proof (laid_total _ _ _ Hl). unfold HEADER in Hbase.
  assert (Hin : ∀ q, q ∈ base :: frees start s → q < bp).
  { intros q [->|Hq]%elem_of_cons; [unfold HEADER in *; lia|]. pose proof (frees_range _ _ _ _ Hl Hq). lia. }
  assert (Hout : ∀ q, q ∈ bp :: frees (bp + HEADER * n) s2 → q ≠ p).
  { intros q Hq ->. assert (p < bp) by apply Hin, end_of_in. apply elem_of_cons in Hq as [->|Hq]; [lia|].
    pose proof (frees_range _ _ _ _ Hl2 Hq). unfold HEADER in *. lia. }
  split; [|split].
  - apply laid_app. split; [by apply laid_ext with h|]. cbn [laid]. rewrite <-Hbp. split; [done|]. split; [done|]. by apply laid_ext with h.
  - by apply joined_app.
  - rewrite frees_app. cbn [frees app]. rewrite <-Hbp. apply path_app. split.
    + apply path_set with h y; [|intros z _ Hz; cbn; by rewrite fn_lookup_insert_ne by (intros E; by apply Hz)|cbn; by rewrite fn_lookup_insert|done].
      apply NoDup_cons. split; [intros Hb; pose proof (frees_range _ _ _ _ Hl Hb); lia|].
      by eapply frees_nodup.
    + eapply path_ext; [|done]. intros z Hz. cbn. rewrite fn_lookup_insert_ne; [done|]. intros E. by apply (Hout z).
Qed.
End Left.

(** The node before a block is its free neighbour, or does not touch it. *)
Lemma left_neighbour h base start s n :
  base + HEADER <= start → size h base = 0 → laid h start s → joined s →
  let p := end_of base (frees start s) in
  (∃ s0 k, s = s0 ++ [(k, true)] ∧ p = start + HEADER * total s0 ∧ size h p = k ∧ 0 < k) ∨
  (joined (s ++ [(n, true)]) ∧ p + HEADER * size h p ≠ start + HEADER * total s).
Proof.
  intros Hb Hsb Hl Hj p. subst p. unfold HEADER in Hb. destruct s as [|[k f] s _] using rev_ind.
  { right. split; [done|]. cbn. rewrite Hsb. unfold HEADER. lia. }
  apply laid_app in Hl as [Hl Hk]. cbn [laid] in Hk. destruct Hk as (Hk & Hsk & _). pose proof (laid_total _ _ _ Hl).
  rewrite frees_app, total_app. cbn [frees total app]. destruct f; cbn [app].
  { left. exists s, k. by rewrite end_of_app. }
  right. split; [rewrite <-app_assoc; apply joined_app; split; [done|by split]|].
  rewrite app_nil_r. pose proof (end_of_in base (frees start s)) as [Heq|Hin]%elem_of_cons.
  { rewrite Heq, Hsb. unfold HEADER. lia. }
  pose proof (frees_end _ _ _ _ Hl Hin). unfold HEADER in *. lia.
Qed.

Lemma join_left_spec h base start s s2 bp n y :
  base + HEADER <= start → size h base = 0 → bp = start + HEADER * total s → laid h start s → 0 < n → size h bp = n →
  laid h (bp + HEADER * n) s2 → path h bp (frees (bp + HEADER * n) s2) base → joined s → joined ((n, true) :: s2) →
  let p := end_of base (frees start s) in
  path h base (frees start s) y → total s + n < 2 ^ 32 →
  let h' := join_left p bp h in
  ∃ s' n', (s' = s ∧ n' = n ∨ ∃ k, s = s' ++ [(k, true)] ∧ n' = k + n) ∧
    laid h' start (s' ++ (n', true) :: s2) ∧ joined (s' ++ (n', true) :: s2) ∧
    path h' base (frees start (s' ++ (n', true) :: s2)) base ∧ size h' base = 0 ∧ freep h' = freep h ∧ brk h' = brk h.
Proof.
  intros Hbase Hsb Hbp Hl Hn Hsz Hl2 Hp2 Hj Hj2 p Hp Htot. cbv zeta. unfold join_left.
  destruct (left_neighbour h base start s n Hbase Hsb Hl Hj) as [(s0 & k & -> & Ha & Hsk & Hk)|[Hj3 Hne]]; fold p in Ha || fold p in Hne.
  2: { destruct (Z.eqb_spec (p + HEADER * size h p) bp); [congruence|]. exists s, n. split; [by left|].
    destruct (put_behind h base start s s2 bp n Hbase Hbp Hl Hn Hsz Hl2 Hp2 Hj Hj2 y Hp Hj3) as (H1 & H2 & H3). done. }
  fold p in Hsk. rewrite total_app in *. cbn [total] in *.
  assert (Hend : p + HEADER * size h p = bp) by (rewrite Hsk, Ha, Hbp; unfold HEADER; lia).
  apply laid_app in Hl as [Hl _]. pose proof (laid_total _ _ _ Hl). unfold HEADER in Hbase.
  rewrite Hend, Z.eqb_refl, Hsk, Hsz. exists s0, (k + n). split; [right; by exists k|].
  set (h' := set_ptr p _ _). assert (Hsame : ∀ x, x ≠ p → ptr h' x = ptr h x ∧ size h' x = size h x).
  { intros x Hx. cbn. by rewrite !fn_lookup_insert_ne by done. }
  assert (Hpp : start <= p) by (unfold HEADER in *; lia).
  assert (Hend2 : p + HEADER * (k + n) = bp + HEADER * n) by (rewrite <-Hend, Hsk; unfold HEADER; lia).
  rewrite frees_app in *. cbn [frees app] in *. rewrite <-Ha in *.
  split; [|split; [|split; [|split; [|done]]]].
  - apply laid_app. rewrite <-Ha. split; [apply laid_ext_but with h p; auto; lia|]. cbn [laid]. split; [lia|]. split.
    + cbn. rewrite fn_lookup_insert. apply Z.mod_small. lia.
    + rewrite Hend2. apply laid_ext_but with h p; [done|done|]. unfold HEADER in *. lia.
  - apply joined_app in Hj as Hj'. apply joined_app. split; [by apply joined_snoc with k|]. by destruct s2 as [|[m f] s2].
  - apply path_app. apply path_app in Hp as [Hp _]. split.
    + eapply path_ext; [|exact Hp]. intros z Hz. apply Hsame. intros ->. apply elem_of_cons in Hz as [->|Hz]; [lia|].
      pose proof (frees_range _ _ _ _ Hl Hz). lia.
    + rewrite Hend2. eapply path_move; [exact Hp2|cbn; by rewrite fn_lookup_insert|].
      intros z Hz. apply Hsame. intros ->. pose proof (frees_range _ _ _ _ Hl2 Hz). unfold HEADER in *. lia.
  - destruct (Hsame base) as [_ ->]; [lia|done].
Qed.

Lemma frees_inv h a s q :
  laid h a s → q ∈ frees a s → ∃ s1 s2, s = s1 ++ (size h q, true) :: s2 ∧ q = a + HEADER * total s1.
Proof.
  revert a. induction s as [|[n f] s IH]; intros a Hl Hq; cbn [frees laid] in *; [by apply not_elem_of_nil in Hq|].
  destruct Hl as (Hn & Hs & Hl). apply elem_of_app in Hq as [Hq|Hq].
  - destruct f; [|by apply not_elem_of_nil in Hq]. apply list_elem_of_singleton in Hq as ->.
    exists [], s. rewrite Hs. cbn [total app]. split; [done|]. by rewrite Z.mul_0_r, Z.add_0_r.
  - destruct (IH _ Hl Hq) as (s1 & s2 & -> & Hq'). exists ((n, f) :: s1), s2. split; [done|]. rewrite Hq'. cbn [total].
    unfold HEADER. lia.
Qed.

Lemma lives_inv a s x : x ∈ lives a s → ∃ s1 s2, s = s1 ++ (x.2, false) :: s2 ∧ x.1 = a + HEADER * total s1.
Proof.
  revert a. induction s as [|[n f] s IH]; intros a Hx; cbn [lives] in *; [by apply not_elem_of_nil in Hx|].
  apply elem_of_app in Hx as [Hx|Hx].
  - destruct f; [by apply not_elem_of_nil in Hx|]. apply list_elem_of_singleton in Hx as ->.
    exists [], s. split; [done|]. cbn. by rewrite Z.add_0_r.
  - destruct (IH _ Hx) as (s1 & s2 & -> & Hx'). exists ((n, f) :: s1), s2. split; [done|]. rewrite Hx'. cbn [total].
    unfold HEADER. lia.
Qed.

Lemma frees_of_block h a s n : laid h a s → (n, true) ∈ s → ∃ q, q ∈ frees a s ∧ size h q = n.
Proof.
  intros Hl (s1 & s2 & ->)%list_elem_of_split. apply laid_app in Hl as [_ Hl]. cbn [laid] in Hl.
  exists (a + HEADER * total s1). split; [|tauto]. rewrite frees_app. cbn [frees app]. set_solver.
Qed.

Section Scan.
Context (memory_ok : Z → bool).

(** One round through the ring from [freep]: the first block that is big enough, or more memory. *)
Lemma scan_fit fuel nf h nunits prevp L :
  path h prevp L (freep h) → freep h ∉ L → Exists (λ q, nunits ≤ size h q) (L ++ [freep h]) → (length L < fuel)%nat →
  ∃ prev p, prev ∈ prevp :: L ∧ p ∈ L ++ [freep h] ∧ ptr h prev = p ∧ nunits ≤ size h p ∧
    malloc_loop memory_ok fuel nf prevp (ptr h prevp) nunits h = Some (take_block prev p nunits h).
Proof.
  revert prevp fuel. induction L as [|q L IH]; intros prevp fuel Hp Hn He Hf; (destruct fuel as [|fuel]; [cbn [length] in Hf; lia|]);
    cbn [path app length malloc_loop] in *.
  - apply Exists_cons in He as [He|He]; [|by apply Exists_nil in He]. exists prevp, (freep h). rewrite Hp.
    destruct (Z.leb_spec nunits (size h (freep h))); [|lia]. set_solver.
  - destruct Hp as [Hq Hp]. rewrite Hq. destruct (Z.leb_spec nunits (size h q)).
    { exists prevp, q. set_solver. }
    apply Exists_cons in He as [He|He]; [lia|]. apply not_elem_of_cons in Hn as [Hn1 Hn2].
    destruct (Z.eqb_spec q (freep h)); [congruence|].
    destruct (IH q fuel Hp Hn2 He ltac:(lia)) as (prev & p & H1 & H2 & H3). exists prev, p. set_solver.
Qed.

Lemma scan_none fuel nf h nunits prevp L :
  path h prevp L (freep h) → freep h ∉ L → Forall (λ q, size h q < nunits) (L ++ [freep h]) →
  malloc_loop memory_ok (length L + S fuel) nf prevp (ptr h prevp) nunits h =
    ('(p, h) ← morecore memory_ok nf nunits h; if p =? 0 then Some (0, h) else malloc_loop memory_ok fuel nf p (ptr h p) nunits h).
Proof.
  revert prevp. induction L as [|q L IH]; intros prevp Hp Hn He; cbn [path app length Nat.add malloc_loop] in *.
  - rewrite Hp. apply Forall_cons in He as [He _]. destruct (Z.leb_spec nunits (size h (freep h))); [lia|]. by rewrite Z.eqb_refl.
  - destruct Hp as [Hq Hp]. rewrite Hq. apply Forall_cons in He as [He1 He2]. destruct (Z.leb_spec nunits (size h q)); [lia|].
    apply not_elem_of_cons in Hn as [Hn1 Hn2]. destruct (Z.eqb_spec q (freep h)); [congruence|]. by apply IH.
Qed.
End Scan.

(** ** The invariant *)
Section Heap.
Context (base start : Z) (Hpos : 0 < base) (Hstart : base + HEADER <= start).

Record inv (h : heap) (s : list block) : Prop := {
  inv_laid : laid h start s;
  inv_base : size h base = 0;
  inv_path : path h base (frees start s) base;
  inv_joined : joined s;
  inv_freep : freep h ∈ base :: frees start s;
  inv_brk : brk h = start + HEADER * total s;
  inv_int : brk h < 2 ^ 31;
}.

(** Given back, an allocated block is in the ring. *)
Lemma insert_block_spec h s1 n s2 :
  inv h (s1 ++ (n, false) :: s2) →
  let bp := start + HEADER * total s1 in
  ∃ s', inv (insert_block bp (end_of base (frees start s1)) h) s' ∧
    lives start s' = lives start s1 ++ lives (bp + HEADER * n) s2 ∧ (length s' <= S (length s1 + length s2))%nat ∧
    brk (insert_block bp (end_of base (frees start s1)) h) = brk h ∧ ∃ m, n ≤ m ∧ (m, true) ∈ s'.
Proof using Hpos Hstart.
  intros [Hl Hb Hp Hj Hf Hbrk Hint] bp. rewrite insert_block_joins. set (p := end_of _ _).
  apply laid_app in Hl as [Hl1 Hl2]. cbn [laid] in Hl2. destruct Hl2 as (Hn & Hsz & Hl2). fold bp in Hsz, Hl2.
  pose proof (laid_total _ _ _ Hl1). pose proof (laid_total _ _ _ Hl2).
  rewrite frees_app in Hp. cbn [frees app] in Hp. fold bp in Hp. rewrite total_app in Hbrk. cbn [total] in Hbrk.
  apply path_split in Hp as [Hp1 Hp2]. fold p in Hp1, Hp2.
  assert (Htot : total s1 + (n + total s2) < 2 ^ 32) by (unfold HEADER in *; lia).
  pose proof (joined_prefix _ _ Hj) as Hj1. pose proof (joined_suffix (s1 ++ [(n, false)]) s2) as Hj2.
  rewrite <-app_assoc in Hj2. specialize (Hj2 Hj).
  assert (Hout : ∀ z, z ∈ base :: frees start s1 → z ≠ bp).
  { intros z [->|Hz]%elem_of_cons; [unfold HEADER in *; lia|]. pose proof (frees_range _ _ _ _ Hl1 Hz). lia. }
  destruct (join_right_spec h base bp p n s2) as (n' & s2' & Hs2 & (Hsame & Hf1 & Hb1) & Hsz1 & Hl2' & Hj2' & Hp2');
    [done|done|done|done|lia|unfold bp, HEADER in *; lia|done|].
  set (h1 := join_right bp (ptr h p) h) in *.
  assert (Hn' : n' = n + total s2 - total s2' ∧ 0 < n') by
    (destruct Hs2 as [[-> ->]|(m & -> & ->)]; [lia|]; cbn [laid total] in *; lia).
  destruct (join_left_spec h1 base start s1 s2' bp n' (ptr h p)) as (s1' & n2 & Hs1 & Hl' & Hj' & Hp' & Hb' & Hf' & Hbrk');
    [done|destruct (Hsame base) as [_ ->]; [by apply Hout; left|done]|done|by apply laid_ext_but with h bp; auto; lia|lia|done..|
     |pose proof (laid_total _ _ _ Hl2'); lia|].
  { eapply path_ext; [|exact Hp1]. intros z Hz. by apply Hsame, Hout. }
  fold p in Hl', Hp', Hb', Hf', Hbrk'. exists (s1' ++ (n2, true) :: s2').
  assert (Htot' : total s1' + n2 = total s1 + n').
  { destruct Hs1 as [[-> ->]|(k & -> & ->)]; [done|]. rewrite total_app. cbn [total]. lia. }
  assert (Hlv : lives start s1' = lives start s1).
  { destruct Hs1 as [[-> ->]|(k & -> & ->)]; [done|]. rewrite lives_app. cbn [lives app]. by rewrite app_nil_r. }
  split; [constructor|split; [|split; [|split]]].
  - apply laid_ext with (join_left p bp h1); [|exact Hl']. done.
  - done.
  - apply path_ext with (join_left p bp h1); [|exact Hp']. done.
  - done.
  - cbn. rewrite frees_app. cbn [frees app]. pose proof (end_of_in base (frees start s1)) as Hin. fold p in Hin.
    destruct Hs1 as [[-> ->]|(k & -> & ->)]; [set_solver|]. rewrite frees_app in Hin. cbn [frees app] in Hin. set_solver.
  - cbn. rewrite Hbrk', Hb1, Hbrk, total_app. cbn [total]. unfold HEADER. lia.
  - cbn. rewrite Hbrk', Hb1. done.
  - rewrite lives_app. cbn [lives app]. rewrite Hlv. f_equal.
    replace (start + HEADER * total s1' + HEADER * n2) with (bp + HEADER * n') by (unfold bp, HEADER; lia).
    destruct Hs2 as [[-> ->]|(m & -> & ->)]; [done|]. cbn [lives app]. by rewrite Z.mul_add_distr_l, Z.add_assoc.
  - rewrite length_app. cbn [length]. assert (length s1' <= length s1)%nat.
    { destruct Hs1 as [[-> ->]|(k & -> & ->)]; [done|]. rewrite length_app. lia. }
    destruct Hs2 as [[-> ->]|(m & -> & ->)]; cbn [length]; lia.
  - cbn. by rewrite Hbrk', Hb1.
  - exists n2. split; [|set_solver]. pose proof (laid_total _ _ _ Hl2').
    assert (n ≤ n') by (destruct Hs2 as [[-> ->]|(m & -> & ->)]; cbn [laid] in Hl2; lia).
    destruct Hs1 as [[-> ->]|(k & -> & ->)]; [done|]. apply laid_app in Hl1 as [_ Hk]. cbn [laid] in Hk. lia.
Qed.

Lemma ring_sorted h s : laid h start s → StronglySorted Z.lt (base :: frees start s).
Proof using Hpos Hstart.
  intros Hl. constructor; [by eapply frees_sorted|]. apply Forall_forall. intros q Hq.
  pose proof (frees_range _ _ _ _ Hl Hq). unfold HEADER in *. lia.
Qed.

Lemma length_frees a s : (length (frees a s) <= length s)%nat.
Proof. revert a. induction s as [|[n [|]] s IH]; intros a; cbn [frees app length]; [done| |]; specialize (IH (a + HEADER * n)); lia. Qed.

Lemma free_spec fuel h s1 n s2 :
  inv h (s1 ++ (n, false) :: s2) → (2 * length (s1 ++ (n, false) :: s2) + 2 <= fuel)%nat →
  let bp := start + HEADER * total s1 in
  ∃ h' s', free fuel (bp + HEADER) h = Some h' ∧ inv h' s' ∧
    lives start s' = lives start s1 ++ lives (bp + HEADER * n) s2 ∧ (length s' <= S (length s1 + length s2))%nat ∧
    brk h' = brk h ∧ ∃ m, n ≤ m ∧ (m, true) ∈ s'.
Proof using Hpos Hstart.
  intros Hi Hf bp. destruct (insert_block_spec h s1 n s2 Hi) as (s' & H1 & H2 & H3 & H4 & H5).
  exists (insert_block bp (end_of base (frees start s1)) h), s'. split; [|done]. unfold free.
  replace (bp + HEADER - HEADER) with bp by lia.
  destruct Hi as [Hl Hb Hp Hj Hfp _ _]. pose proof (ring_sorted _ _ Hl) as Hs. pose proof (length_frees start (s1 ++ (n, false) :: s2)) as Hlen.
  rewrite frees_app in *. cbn [frees app] in *. fold bp in Hp, Hfp, Hs, Hlen. apply laid_app in Hl as [Hl1 Hl2]. cbn [laid] in Hl2.
  destruct Hl2 as (Hn & _ & Hl2). pose proof (laid_total _ _ _ Hl1).
  rewrite (find_place_spec base h bp) with (A := frees start s1) (B := frees (bp + HEADER * n) s2); [done|..]; try done.
  - unfold bp, HEADER in *. lia.
  - apply Forall_forall. intros q Hq. pose proof (frees_range _ _ _ _ Hl1 Hq). unfold bp. lia.
  - apply Forall_forall. intros q Hq. pose proof (frees_range _ _ _ _ Hl2 Hq). unfold HEADER in *. lia.
  - lia.
Qed.

(** Taking a block, whole or its end. *)
Section Take.
Context (h : heap) (s1 s2 : list block) (n p prevp : Z).
Context (Hi : inv h (s1 ++ (n, true) :: s2)) (Hpe : p = start + HEADER * total s1).
Context (Hprev : prevp ∈ base :: frees start (s1 ++ (n, true) :: s2)).

Lemma frees_at m f : frees start (s1 ++ (m, f) :: s2) = frees start s1 ++ (if f : bool then [p] else []) ++ frees (p + HEADER * m) s2.
Proof using Hpe. by rewrite frees_app, Hpe. Qed.

Lemma taken_parts : laid h start s1 ∧ 0 < n ∧ size h p = n ∧ laid h (p + HEADER * n) s2 ∧ 0 <= total s1 ∧ 0 <= total s2.
Proof using Hi Hpe.
  pose proof (inv_laid _ _ Hi) as [H1 H2]%laid_app. rewrite <-Hpe in H2. cbn [laid] in H2.
  pose proof (laid_total _ _ _ H1). destruct H2 as (? & ? & H2). pose proof (laid_total _ _ _ H2). done.
Qed.

Lemma taken_whole : ptr h prevp = p → inv (set_freep prevp (set_ptr prevp (ptr h p) h)) (s1 ++ (n, false) :: s2).
Proof using Hpos Hstart Hi Hpe Hprev.
  intros Hpp. destruct taken_parts as (Hl1 & Hn & Hsz & Hl2 & ? & ?). destruct Hi as [Hl Hb Hp Hj Hf Hbrk Hint].
  pose proof (sorted_nodup _ (ring_sorted _ _ Hl)) as Hnd. rewrite frees_at in *. cbn [app] in *.
  assert (Hprev' : prevp = end_of base (frees start s1)).
  { eapply path_inj; [exact Hp| |done| |].
    - by rewrite (Permutation_app_comm _ [base]).
    - pose proof (end_of_in base (frees start s1)). set_solver.
    - rewrite Hpp. apply path_app in Hp as [Hp _]. by apply path_end in Hp. }
  pose proof (end_of_in base (frees start s1)) as Hin. rewrite <-Hprev' in Hin. apply path_app in Hp as [Hp1 Hp2].
  constructor; rewrite ?frees_at; cbn [app].
  - eapply laid_ext; [|apply laid_app; split; [exact Hl1|]]; [done|]. cbn [laid]. by rewrite <-Hpe.
  - done.
  - apply path_concat with (ptr h p).
    + eapply path_set; [| | |exact Hp1]; [rewrite app_comm_cons in Hnd; by apply NoDup_app in Hnd as [Hnd _]| |].
      * intros z _ Hz. cbn. rewrite fn_lookup_insert_ne; congruence.
      * cbn. by rewrite <-Hprev', fn_lookup_insert.
    + rewrite <-Hprev'. eapply path_move; [exact Hp2|cbn; by rewrite fn_lookup_insert|].
      intros z Hz. cbn. rewrite fn_lookup_insert_ne; [done|]. intros ->. pose proof (frees_range _ _ _ _ Hl2 Hz).
      apply elem_of_cons in Hin as [->|Hin]; [|pose proof (frees_range _ _ _ _ Hl1 Hin)]; unfold HEADER in *; lia.
  - apply joined_app in Hj as [Hj1 Hj2]. apply joined_app. split; [by eapply joined_snoc_live, joined_prefix|].
    destruct s2 as [|[m f] s2']; [done|]. by destruct Hj2.
  - cbn. set_solver.
  - cbn. rewrite Hbrk, !total_app. done.
  - done.
Qed.

Lemma taken_end k :
  0 < k < n → let p' := p + HEADER * (n - k) in
  inv (set_freep prevp (set_size p' k (set_size p (n - k) h))) (s1 ++ (n - k, true) :: (k, false) :: s2).
Proof using Hpos Hstart Hi Hpe Hprev.
  intros Hk p'. destruct taken_parts as (Hl1 & Hn & Hsz & Hl2 & ? & ?). destruct Hi as [Hl Hb Hp Hj Hf Hbrk Hint].
  rewrite frees_at in *. rewrite total_app in Hbrk. cbn [app total] in *. set (h' := set_freep _ _).
  assert (Hsame : ∀ x, x ≠ p → x ≠ p' → size h' x = size h x) by (intros x H1 H2; cbn; by rewrite !fn_lookup_insert_ne by done).
  assert (Hp' : p' + HEADER * k = p + HEADER * n) by (unfold p', HEADER; lia).
  assert (Hfr : frees start (s1 ++ (n - k, true) :: (k, false) :: s2) = frees start s1 ++ p :: frees (p + HEADER * n) s2).
  { rewrite frees_app. cbn [frees app]. rewrite <-Hpe. fold p'. by rewrite Hp'. }
  constructor; rewrite ?Hfr.
  - apply laid_app. rewrite <-Hpe. split; [|cbn [laid]; fold p'; rewrite Hp'; split; [lia|split; [|split; [lia|split]]]].
    + eapply laid_ext; [|exact Hl1]. intros x Hx. apply Hsame; unfold p', HEADER in *; lia.
    + cbn. rewrite fn_lookup_insert_ne by (unfold p', HEADER; lia). rewrite fn_lookup_insert.
      unfold u32, HEADER in *. rewrite Z.mod_small; lia.
    + cbn. rewrite fn_lookup_insert. unfold u32, HEADER in *. rewrite Z.mod_small; lia.
    + eapply laid_ext; [|exact Hl2]. intros x Hx. apply Hsame; unfold p', HEADER in *; lia.
  - rewrite Hsame; [done|unfold p', HEADER in *; lia..].
  - eapply path_ext; [|exact Hp]. done.
  - apply joined_app in Hj as [Hj1 [_ Hj2]]. apply joined_app. split; [by eapply joined_snoc|]. cbn [joined].
    split; [done|]. split; [|done]. by destruct s2 as [|[m f] s2'].
  - exact Hprev.
  - cbn. rewrite total_app. cbn [total]. unfold HEADER in *. lia.
  - done.
Qed.
End Take.

(** Taking the block [p] behind [prevp]. *)
Lemma take_block_spec h s prevp p nunits :
  inv h s → 0 < nunits → prevp ∈ base :: frees start s → ptr h prevp = p → nunits ≤ size h p → p ∈ base :: frees start s →
  let (r, h') := take_block prevp p nunits h in
  ∃ s', inv h' s' ∧ lives start s' ≡ₚ (r - HEADER, nunits) :: lives start s ∧ (length s' <= S (length s))%nat ∧ 0 < r.
Proof using Hpos Hstart.
  intros Hi Hn Hprev Hpp Hfit Hin. pose proof (inv_base _ _ Hi). pose proof (inv_laid _ _ Hi) as Hl.
  apply elem_of_cons in Hin as [->|Hin]; [lia|].
  destruct (frees_inv _ _ _ _ Hl Hin) as (s1 & s2 & -> & Hpe). unfold take_block.
  destruct (taken_parts _ _ _ _ _ Hi Hpe) as (_ & _ & _ & _ & ? & ?).
  destruct (Z.eqb_spec (size h p) nunits) as [E|Hne].
  - rewrite E in *. exists (s1 ++ (nunits, false) :: s2). split; [by apply taken_whole|].
    rewrite !lives_app, !length_app. cbn [lives app length]. rewrite <-Hpe. replace (p + HEADER - HEADER) with p by lia.
    split; [solve_Permutation|]. unfold HEADER in *. lia.
  - cbn [size set_size]. rewrite fn_lookup_insert.
    assert (Hs : size h p < 2 ^ 32).
    { pose proof (inv_brk _ _ Hi) as Hb. pose proof (inv_int _ _ Hi). rewrite total_app in Hb. cbn [total] in Hb. unfold HEADER in *. lia. }
    replace (u32 (size h p - nunits)) with (size h p - nunits) by (unfold u32; rewrite Z.mod_small; lia).
    exists (s1 ++ (size h p - nunits, true) :: (nunits, false) :: s2). split; [apply taken_end; [done..|lia]|].
    rewrite !lives_app, !length_app. cbn [lives app length]. rewrite <-Hpe.
    replace (p + HEADER * (size h p - nunits) + HEADER * nunits) with (p + HEADER * size h p) by (unfold HEADER; lia).
    rewrite <-(Z.add_sub_assoc _ HEADER HEADER), Z.sub_diag, Z.add_0_r.
    split; [solve_Permutation|]. unfold HEADER in *. lia.
Qed.

(** *** The search of malloc *)
Context (memory_ok : Z → bool) (Hmem : ∀ x, memory_ok x = true → x < 2 ^ 31).

Lemma morecore_spec fuel nu h s :
  inv h s → 0 < nu → nu * HEADER < 2 ^ 31 → (2 * length s + 4 <= fuel)%nat →
  let n := Z.max nu 4096 in
  (memory_ok (brk h + n * HEADER) = false ∧ morecore memory_ok fuel nu h = Some (0, h)) ∨
  ∃ h' s', morecore memory_ok fuel nu h = Some (freep h', h') ∧ inv h' s' ∧ lives start s' = lives start s ∧
    (length s' <= S (length s))%nat ∧ ∃ m, n ≤ m ∧ (m, true) ∈ s'.
Proof using Hpos Hstart Hmem.
  intros Hi Hnu Hint Hf n. unfold morecore. replace (if nu <? 4096 then 4096 else nu) with n by (subst n; destruct (Z.ltb_spec nu 4096); lia).
  assert (Hn : 4096 ≤ n ∧ nu ≤ n ∧ n * HEADER < 2 ^ 31) by (subst n; unfold HEADER in *; lia).
  replace (i32 (n * HEADER)) with (n * HEADER) by (unfold i32, HEADER in *; rewrite Z.mod_small; lia).
  pose proof (laid_total _ _ _ (inv_laid _ _ Hi)). pose proof (inv_brk _ _ Hi) as Hb.
  unfold sbrk. destruct (Z.ltb_spec 0 (n * HEADER)); [|unfold HEADER in *; lia]. cbn [andb].
  destruct (memory_ok _) eqn:Hok; cbn [negb]; [right|by left].
  destruct (Z.leb_spec 0 (brk h + n * HEADER)); [|unfold HEADER in *; lia].
  destruct (Z.eqb_spec (brk h) (-1)); [unfold HEADER in *; lia|].
  set (h1 := set_size (brk h) n (set_brk (brk h + n * HEADER) h)).
  assert (Hi1 : inv h1 (s ++ [(n, false)])).
  { destruct Hi as [Hl Hb0 Hp Hj Hfp _ Hlt]. unfold HEADER in *. constructor.
    - apply laid_app. split.
      + apply laid_ext with h; [|done]. intros x Hx. cbn. rewrite fn_lookup_insert_ne; [done|]. unfold HEADER in *. lia.
      + cbn [laid]. unfold HEADER. rewrite <-Hb. split; [lia|]. split; [|done]. cbn. rewrite fn_lookup_insert. apply Z.mod_small. lia.
    - cbn. rewrite fn_lookup_insert_ne by lia. done.
    - rewrite frees_app. cbn [frees app]. rewrite app_nil_r. apply path_ext with h; [done|exact Hp].
    - by apply joined_snoc_live.
    - rewrite frees_app. cbn [frees app]. by rewrite app_nil_r.
    - cbn. rewrite Hb, total_app. cbn [total]. unfold HEADER. lia.
    - cbn. by apply Hmem. }
  destruct (free_spec fuel h1 s n [] Hi1) as (h' & s' & Hfr & Hi' & Hlv & Hlen & _ & Hm); [rewrite length_app; cbn [length]; lia|].
  exists h', s'. rewrite <-Hb in Hfr. rewrite Hfr. cbn [mbind option_bind]. cbn [lives] in Hlv. rewrite app_nil_r in Hlv.
  cbn [length] in Hlen. split; [done|]. split; [done|]. split; [done|]. split; [lia|done].
Qed.


Definition found (h : heap) (s : list block) (nunits r : Z) (h' : heap) : Prop :=
  ∃ s', inv h' s' ∧ lives start s' ≡ₚ (r - HEADER, nunits) :: lives start s ∧ (length s' <= S (length s))%nat ∧ 0 < r.

Lemma search_ring h s : inv h s → ∃ L, path h (freep h) L (freep h) ∧ (freep h ∉ L) ∧ freep h :: L ≡ₚ base :: frees start s ∧ (length L <= length s)%nat.
Proof using Hpos Hstart.
  intros Hi. destruct (path_rotate _ _ _ (freep h) (inv_path _ _ Hi) (inv_freep _ _ Hi)) as (L & Hp & HL). exists L.
  pose proof (sorted_nodup _ (ring_sorted _ _ (inv_laid _ _ Hi))) as Hnd. rewrite <-HL in Hnd. apply NoDup_cons in Hnd as [Hn _].
  pose proof (Permutation_length HL) as Hlen. cbn [length] in Hlen. pose proof (length_frees start s). repeat split; [done..|lia].
Qed.

Lemma search_fit fuel nf h s nunits q :
  inv h s → 0 < nunits → q ∈ base :: frees start s → nunits ≤ size h q → (length s < fuel)%nat →
  ∃ r h', malloc_loop memory_ok fuel nf (freep h) (ptr h (freep h)) nunits h = Some (r, h') ∧ found h s nunits r h'.
Proof using Hpos Hstart.
  intros Hi Hn Hq Hfit Hf. destruct (search_ring h s Hi) as (L & Hp & HnL & HL & Hlen).
  assert (HL' : L ++ [freep h] ≡ₚ base :: frees start s) by (rewrite <-HL; solve_Permutation).
  destruct (scan_fit memory_ok fuel nf h nunits (freep h) L Hp HnL) as (prev & p & Hprev & Hp' & Hpp & Hsz & E).
  { apply Exists_exists. exists q. by rewrite HL'. }
  { lia. }
  rewrite E. pose proof (take_block_spec h s prev p nunits Hi Hn) as Ht. rewrite HL in Hprev. rewrite HL' in Hp'.
  specialize (Ht Hprev Hpp Hsz Hp'). destruct (take_block prev p nunits h) as [r h']. eauto.
Qed.

Lemma search_spec fuel h s nunits :
  inv h s → 0 < nunits → nunits * HEADER < 2 ^ 31 → (2 * length s + 5 <= fuel)%nat →
  (memory_ok (brk h + Z.max nunits 4096 * HEADER) = false ∧
    malloc_loop memory_ok fuel fuel (freep h) (ptr h (freep h)) nunits h = Some (0, h)) ∨
  ∃ r h' s', malloc_loop memory_ok fuel fuel (freep h) (ptr h (freep h)) nunits h = Some (r, h') ∧ inv h' s' ∧
    lives start s' ≡ₚ (r - HEADER, nunits) :: lives start s ∧ (length s' <= length s + 2)%nat ∧ 0 < r.
Proof using Hpos Hstart Hmem.
  intros Hi Hn Hint Hf.
  destruct (decide (Exists (λ q, nunits ≤ size h q) (base :: frees start s))) as [He|He].
  { right. apply Exists_exists in He as (q & Hq & Hfit).
    destruct (search_fit fuel fuel h s nunits q) as (r & h' & E & s' & H1 & H2 & H3 & H4); [done..|lia|].
    exists r, h', s'. split; [done|]. split; [done|]. split; [done|]. lia. }
  destruct (search_ring h s Hi) as (L & Hp & HnL & HL & Hlen).
  assert (HL' : L ++ [freep h] ≡ₚ base :: frees start s) by (rewrite <-HL; solve_Permutation).
  assert (Hnone : Forall (λ q, size h q < nunits) (L ++ [freep h])).
  { rewrite HL'. apply not_Exists_Forall in He; [|intros q; apply _]. eapply Forall_impl; [exact He|]. cbn. lia. }
  pose proof (scan_none memory_ok (fuel - S (length L)) fuel h nunits (freep h) L Hp HnL Hnone) as Hscan.
  replace (length L + S (fuel - S (length L)))%nat with fuel in Hscan by lia. rewrite Hscan.
  destruct (morecore_spec fuel nunits h s Hi Hn Hint ltac:(lia)) as [[Hok ->]|(h1 & s1 & E & Hi1 & Hlv & Hlen1 & m & Hm & Hin)].
  { by left. }
  right. rewrite E. cbn [mbind option_bind]. destruct (Z.eqb_spec (freep h1) 0) as [Hz|_].
  { pose proof (inv_freep _ _ Hi1) as Hfp. rewrite Hz in Hfp. apply elem_of_cons in Hfp as [Hfp|Hfp]; [lia|].
    pose proof (frees_range _ _ _ _ (inv_laid _ _ Hi1) Hfp). unfold HEADER in *. lia. }
  destruct (frees_of_block _ _ _ _ (inv_laid _ _ Hi1) Hin) as (q & Hq & Hsz).
  destruct (search_fit (fuel - S (length L)) fuel h1 s1 nunits q) as (r & h' & E' & s' & H1 & H2 & H3 & H4); [done|done|by right|lia|lia|].
  exists r, h', s'. split; [done|]. split; [done|]. split; [by rewrite <-Hlv|]. lia.
Qed.

(** *** The calls *)
Definition heap_state (h : heap) (s : list block) : Prop :=
  inv h s ∨ s = [] ∧ freep h = 0 ∧ brk h = start ∧ start < 2 ^ 31.

Definition units (nbytes : Z) : Z := (nbytes + HEADER - 1) / HEADER + 1.

Lemma units_range n : 0 ≤ n ≤ 2 ^ 31 - 32 → n + HEADER ≤ units n * HEADER < 2 ^ 31.
Proof using. unfold units, HEADER. intros H. pose proof (Z.div_mod (n + 16 - 1) 16). pose proof (Z.mod_pos_bound (n + 16 - 1) 16). lia. Qed.

Lemma malloc_spec fuel h s n :
  heap_state h s → 0 ≤ n ≤ 2 ^ 31 - 32 → (2 * length s + 5 <= fuel)%nat →
  ∃ r h' s', malloc base memory_ok fuel n h = Some (r, h') ∧ inv h' s' ∧ (length s' <= length s + 2)%nat ∧
    (r = 0 ∧ lives start s' = lives start s ∧ memory_ok (brk h + Z.max (units n) 4096 * HEADER) = false ∨
     0 < r ∧ lives start s' ≡ₚ (r - HEADER, units n) :: lives start s).
Proof using Hpos Hstart Hmem.
  intros Hs Hn Hf. pose proof (units_range n Hn). unfold malloc. fold (units n).
  replace (u32 (units n)) with (units n) by (unfold u32, HEADER in *; rewrite Z.mod_small; lia).
  set (h0 := if freep h =? 0 then _ else h). assert (Hi : inv h0 s ∧ brk h0 = brk h).
  { subst h0. destruct Hs as [Hi|(-> & Hz & Hb & Hlt)].
    - destruct (Z.eqb_spec (freep h) 0) as [Hz|]; [|done]. pose proof (inv_freep _ _ Hi) as Hfp. rewrite Hz in Hfp.
      apply elem_of_cons in Hfp as [Hfp|Hfp]; [lia|].
      pose proof (frees_range _ _ _ _ (inv_laid _ _ Hi) Hfp). unfold HEADER in *. lia.
    - rewrite Hz. split; [|done]. constructor; cbn; rewrite ?fn_lookup_insert; try done; [by left|unfold HEADER; lia|lia]. }
  destruct Hi as [Hi Hb]. destruct (search_spec fuel h0 s (units n) Hi) as [[Hok E]|(r & h' & s' & E & Hi' & Hlv & Hlen & Hr)];
    [unfold HEADER in *; lia|lia|done|..].
  - exists 0, h0, s. split; [done|]. split; [done|]. split; [lia|]. left. by rewrite <-Hb.
  - exists r, h', s'. split; [done|]. split; [done|]. split; [lia|]. by right.
Qed.

Definition block_of (x : Z * Z) : Z * Z := (x.1 - HEADER, units x.2).

Definition state_ok (st : heap * list (Z * Z)) (s : list block) : Prop :=
  heap_state st.1 s ∧ lives start s ≡ₚ block_of <$> st.2.

Definition call_ok (c : call) : Prop := match c with Malloc n => 0 ≤ n ≤ 2 ^ 31 - 32 | Free _ => True end.

Lemma do_call_spec fuel c st s :
  state_ok st s → call_ok c → (2 * length s + 5 <= fuel)%nat →
  ∃ st' s', do_call base memory_ok fuel c st = Some st' ∧ state_ok st' s' ∧ (length s' <= length s + 2)%nat.
Proof using Hpos Hstart Hmem.
  destruct st as [h live]. intros [Hs Hlv] Hc Hf. cbn [fst snd] in *. destruct c as [n|i]; cbn [do_call call_ok] in *.
  - destruct (malloc_spec fuel h s n Hs Hc Hf) as (r & h' & s' & E & Hi & Hlen & Hr). rewrite E. cbn [mbind option_bind].
    eexists _, s'. split; [done|]. split; [|done]. split; [by left|]. cbn [snd].
    destruct Hr as [(-> & Hl & _)|[Hr Hl]]; rewrite Hl; [done|]. destruct (Z.eqb_spec r 0); [lia|]. by rewrite Hlv.
  - destruct (live !! i) as [[ap n]|] eqn:Ei; [|eexists _, s; split; [done|]; split; [done|lia]].
    pose proof (delete_Permutation _ _ _ Ei) as Hd. rewrite Hd in Hlv. cbn [fmap list_fmap] in Hlv.
    assert (Hin : (ap - HEADER, units n) ∈ lives start s) by (rewrite Hlv; by left).
    destruct Hs as [Hi|(-> & _)]; [|by apply not_elem_of_nil in Hin].
    destruct (lives_inv _ _ _ Hin) as (s1 & s2 & -> & Hap). cbn [fst snd] in *.
    destruct (free_spec fuel h s1 (units n) s2 Hi ltac:(lia)) as (h' & s' & E & Hi' & Hl & Hlen & _).
    rewrite <-Hap in E. replace (ap - HEADER + HEADER) with ap in E by lia. rewrite E. cbn [mbind option_bind].
    eexists _, s'. split; [done|]. split; [split; [by left|]|rewrite length_app; cbn [length]; lia]. cbn [snd].
    rewrite lives_app in Hlv. cbn [lives app] in Hlv. rewrite <-Hap in *. rewrite <-Permutation_middle in Hlv.
    apply Permutation.Permutation_cons_inv in Hlv. by rewrite Hl.
Qed.

Lemma calls_run_ok fuel cs st s :
  state_ok st s → Forall call_ok cs → (2 * length s + 4 * length cs + 5 <= fuel)%nat →
  ∃ st' s', run base memory_ok fuel cs st = Some st' ∧ state_ok st' s'.
Proof using Hpos Hstart Hmem.
  revert st s. induction cs as [|c cs IH]; intros st s Hst Hc Hf; cbn [run length] in *; [by exists st, s|].
  apply Forall_cons in Hc as [Hc Hcs]. destruct (do_call_spec fuel c st s Hst Hc ltac:(lia)) as (st1 & s1 & E & H1 & Hlen).
  rewrite E. cbn [mbind option_bind]. by apply (IH _ s1); [..|lia].
Qed.
End Heap.

(** ** What the allocator promises *)
Lemma lives_range h a s x : laid h a s → x ∈ lives a s → a ≤ x.1 ∧ 0 < x.2 ∧ x.1 + HEADER * x.2 ≤ a + HEADER * total s.
Proof.
  intros Hl Hx. destruct (lives_inv _ _ _ Hx) as (s1 & s2 & -> & E). apply laid_app in Hl as [H1 H2]. cbn [laid] in H2.
  destruct H2 as (Hn & _ & H2). pose proof (laid_total _ _ _ H1). pose proof (laid_total _ _ _ H2).
  rewrite total_app, E. cbn [total]. unfold HEADER. lia.
Qed.

Lemma lives_apart h a s : laid h a s → NoDup (lives a s) ∧
  ∀ x y, x ∈ lives a s → y ∈ lives a s → x ≠ y → x.1 + HEADER * x.2 ≤ y.1 ∨ y.1 + HEADER * y.2 ≤ x.1.
Proof.
  revert a. induction s as [|[n f] s IH]; intros a; cbn [laid lives].
  - intros _. split; [constructor|]. by intros x y Hx%not_elem_of_nil.
  - intros (Hn & _ & Hl). destruct (IH _ Hl) as [Hnd Hap]. destruct f; [by split|]. cbn [app]. split.
    + constructor; [|done]. intros Hx. pose proof (lives_range _ _ _ _ Hl Hx) as H. cbn [fst snd] in H. unfold HEADER in *. lia.
    + intros x y [->|Hx]%elem_of_cons [->|Hy]%elem_of_cons Hne; [done|left|right|by apply Hap];
        cbn [fst snd]; eapply lives_range; eassumption.
Qed.

Lemma all_free_joined a s : lives a s = [] → joined s → s = [] ∨ ∃ n, s = [(n, true)].
Proof.
  destruct s as [|[n [|]] s]; cbn [lives app]; [by left| |done]. intros Hl Hj. right. exists n. f_equal.
  destruct s as [|[m [|]] s]; [done| |done]. by destruct Hj.
Qed.

(** C20: for requests of at most [2^31 - 32] bytes ([call_ok]) and a break below [2^31], malloc and free always return: a
    program that makes any calls of them, freeing what it was given, runs through with fuel linear in the number of calls
    (a larger request wraps around to a small block, lemma [huge_request]). Every block it holds has the room it asked for inside the heap, the blocks and their
    headers do not overlap, and when it has freed everything the heap is again one free block. *)
Theorem allocator_run base memory_ok cs h fuel :
  0 < base → base + HEADER <= brk h < 2 ^ 31 → (∀ x, memory_ok x = true → x < 2 ^ 31) →
  freep h = 0 → Forall call_ok cs → (4 * length cs + 5 <= fuel)%nat →
  ∃ h' live, run base memory_ok fuel cs (h, []) = Some (h', live) ∧ brk h <= brk h' < 2 ^ 31 ∧
    (∀ i ap n, live !! i = Some (ap, n) → brk h + HEADER <= ap ∧ ap + n <= brk h') ∧
    (∀ i j ap n ap' n', i ≠ j → live !! i = Some (ap, n) → live !! j = Some (ap', n') →
       ap + n <= ap' - HEADER ∨ ap' + n' <= ap - HEADER) ∧
    (live = [] → brk h' = brk h ∨
       ptr h' base = brk h ∧ ptr h' (brk h) = base ∧ brk h + HEADER * size h' (brk h) = brk h').
Proof.
  intros Hpos [Hstart Hlt] Hmem Hz Hc Hf.
  destruct (calls_run_ok base (brk h) Hpos Hstart memory_ok Hmem fuel cs (h, []) []) as ([h' live] & s & E & Hs & Hlv);
    [split; [by right|done]|done|cbn [length]; lia|].
  exists h', live. split; [done|]. cbn [fst snd] in Hs, Hlv.
  assert (Hl : laid h' (brk h) s ∧ brk h' = brk h + HEADER * total s ∧ brk h' < 2 ^ 31).
  { destruct Hs as [[]|(-> & _ & Hb & _)]; [done|]. cbn. split; [done|]. lia. }
  destruct Hl as (Hl & Hb & Hint). pose proof (laid_total _ _ _ Hl).
  assert (Hin : ∀ i ap n, live !! i = Some (ap, n) → (ap - HEADER, units n) ∈ lives (brk h) s).
  { intros i ap n Hi. rewrite Hlv. apply list_elem_of_fmap. exists (ap, n). split; [done|]. by apply list_elem_of_lookup_2 in Hi. }
  assert (Hu : ∀ n, n + HEADER <= HEADER * units n).
  { intros n. unfold units, HEADER. pose proof (Z.div_mod (n + 16 - 1) 16). pose proof (Z.mod_pos_bound (n + 16 - 1) 16). lia. }
  destruct (lives_apart _ _ _ Hl) as [Hnd Hap].
  split; [unfold HEADER in *; lia|]. split; [|split].
  - intros i ap n Hi. pose proof (lives_range _ _ _ _ Hl (Hin _ _ _ Hi)) as Hr. cbn [fst snd] in Hr. specialize (Hu n). lia.
  - intros i j ap n ap' n' Hij Hi Hj. pose proof (Hu n). pose proof (Hu n').
    destruct (Hap (ap - HEADER, units n) (ap' - HEADER, units n')) as [Ha|Ha]; [by eapply Hin..| | |]; [|cbn [fst snd] in Ha; lia..].
    intros Heq. rewrite Hlv in Hnd. apply Hij. eapply NoDup_lookup; [exact Hnd| |];
      rewrite list_lookup_fmap; [rewrite Hi|rewrite Hj]; [done|]. change (Some (ap' - HEADER, units n') = Some (ap - HEADER, units n)); by rewrite Heq.
  - intros ->. cbn in Hlv. apply Permutation_nil_r in Hlv. destruct Hs as [Hi|(-> & _)]; [|left; rewrite Hb; cbn; lia].
    destruct (all_free_joined _ _ Hlv (inv_joined _ _ _ _ Hi)) as [->|(n & ->)]; [left; rewrite Hb; cbn; lia|right].
    pose proof (inv_path _ _ _ _ Hi) as Hp. cbn [frees app path] in Hp. destruct Hp as [Hp1 Hp2].
    cbn [laid total] in *. destruct Hl as (_ & -> & _). rewrite Hb, Z.add_0_r. done.
Qed.

Definition no_heap : heap := {| ptr := λ _, 0; size := λ _, 0; freep := 0; brk := 20480 |}.
Definition some_calls : list call := [Malloc 10; Malloc 100000; Free 1; Malloc 5; Malloc 2000; Free 2; Free 1; Free 0].

Lemma allocator_run_witness : ∃ h' live,
  run 4096 (λ x, x <? 1000000) 37 some_calls (no_heap, []) = Some (h', live) ∧ 20480 <= brk h' < 2 ^ 31.
Proof.
  destruct (allocator_run 4096 (λ x, x <? 1000000) some_calls no_heap 37) as (h' & live & H1 & H2 & _);
    [lia|by split|intros x Hx%Z.ltb_lt; lia|done|unfold some_calls; repeat constructor; cbn; lia|cbn; lia|].
  exists h', live. split; [exact H1|exact H2].
Defined.

(** The product in [morecore] is truncated to the int of [sbrk]: a request of 2^32-1 bytes succeeds and gets a header only. *)
Example huge_request : ∃ h', malloc 4096 (λ x, x <? 1000000) 10 (2 ^ 32 - 1) no_heap = Some (20496, h') ∧ brk h' = 20496.
Proof. eexists. split; [vm_compute; reflexivity|reflexivity]. Qed.

Example first_malloc : fst <$> malloc 4096 (λ x, x <? 1000000) 10 10 no_heap = Some (20480 + 16 * 4095 - 16 + 16).
Proof. vm_compute. reflexivity. Qed.
