(* ===== verification/Sh.v ===== *)
(** * The command parser of the xv6 shell (xv6/user/sh.c)

    A command line is a buffer without NUL and the NUL behind it.  The parser
    keeps pointers into the buffer, here indices: a word of the tree is where it
    starts and where it ends; [nulterminate] then writes a NUL at every end.
    Memory for the tree is never exhausted. *)

From S2P Require Import Prelude.

#[local] Set Warnings "-clear-no-such-hyp".
#[local] Set Default Proof Using "Type".
Local Open Scope nat_scope.

Definition MAXARGS : nat := 10.
Definition O_RDONLY : Z := 0x000.
Definition O_WRONLY : Z := 0x001.
Definition O_CREATE : Z := 0x200.
Definition O_TRUNC : Z := 0x400.

(** [W] is what a word is: a pair of indices, or its text. *)
Inductive cmd (W : Type) : Type :=
  | EXEC (argv : list W)
  | REDIR (c : cmd W) (file : W) (mode fd : Z)
  | PIPE (left right : cmd W)
  | LIST (left right : cmd W)
  | BACK (c : cmd W).
Arguments EXEC {W}.
Arguments REDIR {W}.
Arguments PIPE {W}.
Arguments LIST {W}.
Arguments BACK {W}.

Abbreviation word := (nat * nat)%type.

(** What a function of the parser leaves behind; [Panic]: what is written on descriptor 2. *)
Inductive parsed (A : Type) : Type :=
  | Done (a : A)
  | Panic (out : cstr)
  | NoFuel.
Arguments Done {A}.
Arguments Panic {A}.
Arguments NoFuel {A}.

#[global] Instance parsed_bind : MBind parsed := λ A B f r,
  match r with Done a => f a | Panic out => Panic out | NoFuel => NoFuel end.

Definition panic {A} (s : string) : parsed A := Panic (lit s ++ [NL]).

Definition whitespace : cstr := [SP; TAB; CR; NL; "011"%char].
Definition symbols : cstr := lit "<|>&;()".

Definition strchr (s : cstr) (c : ascii) : bool := existsb (Ascii.eqb c) s.

Definition is_space (c : ascii) : bool := strchr whitespace c.
Definition is_word (c : ascii) : bool := negb (strchr whitespace c) && negb (strchr symbols c).

(** How many characters at the head of [l] satisfy [p]. *)
Fixpoint span (p : ascii → bool) (l : cstr) : nat :=
  match l with
  | c :: l => if p c then S (span p l) else 0
  | [] => 0
  end.

Section Parser.
Context (buf : cstr).

(** [s[0]]: the NUL at the end of the buffer. *)
Definition char_at (s : nat) : ascii := default NUL (buf !! s).

Definition skip (p : ascii → bool) (s : nat) : nat := s + span p (drop s buf).

(** The token, its word, and the place behind it. *)
Definition gettoken (s : nat) : ascii * word * nat :=
  let s := skip is_space s in
  let q := s in
  let c := char_at s in
  let '(ret, s) :=
    if (c =? NUL)%char then (c, s)
    else if strchr (lit "|();&<") c then (c, S s)
    else if (c =? ">")%char then
      if (char_at (S s) =? ">")%char then ("+"%char, S (S s)) else (c, S s)
    else ("a"%char, skip is_word s) in
  (ret, (q, s), skip is_space s).

Definition peek (toks : cstr) (s : nat) : bool * nat :=
  let s := skip is_space s in
  (negb (char_at s =? NUL)%char && strchr toks (char_at s), s).

Fixpoint parseredirs (fuel : nat) (c : cmd word) (s : nat) : parsed (cmd word * nat) :=
  match fuel with
  | O => NoFuel
  | S fuel =>
      let '(b, s) := peek (lit "<>") s in
      if b then
        let '(tok, _, s) := gettoken s in
        let '(tok2, w, s) := gettoken s in
        if negb (tok2 =? "a")%char then panic "missing file for redirection"
        else
          let c :=
            if (tok =? "<")%char then REDIR c w O_RDONLY 0
            else if (tok =? ">")%char then REDIR c w (Z.lor (Z.lor O_WRONLY O_CREATE) O_TRUNC) 1
            else if (tok =? "+")%char then REDIR c w (Z.lor O_WRONLY O_CREATE) 1
            else c in
          parseredirs fuel c s
      else Done (c, s)
  end.

(** The words go into [argv] of the command inside the redirections. *)
Fixpoint add_word (w : word) (c : cmd word) : cmd word :=
  match c with
  | EXEC argv => EXEC (argv ++ [w])
  | REDIR c f mode fd => REDIR (add_word w c) f mode fd
  | _ => c
  end.

Fixpoint args_loop (fuel argc : nat) (ret : cmd word) (s : nat) : parsed (cmd word * nat) :=
  match fuel with
  | O => NoFuel
  | S fuel =>
      let '(b, s) := peek (lit "|)&;") s in
      if b then Done (ret, s)
      else
        let '(tok, w, s) := gettoken s in
        if (tok =? NUL)%char then Done (ret, s)
        else if negb (tok =? "a")%char then panic "syntax"
        else
          let ret := add_word w ret in
          let argc := S argc in
          if MAXARGS <=? argc then panic "too many args"
          else '(ret, s) ← parseredirs fuel ret s; args_loop fuel argc ret s
  end.

Fixpoint back_loop (fuel : nat) (c : cmd word) (s : nat) : parsed (cmd word * nat) :=
  match fuel with
  | O => NoFuel
  | S fuel =>
      let '(b, s) := peek (lit "&") s in
      if b then let '(_, _, s) := gettoken s in back_loop fuel (BACK c) s
      else Done (c, s)
  end.

Fixpoint parseline (fuel : nat) (s : nat) : parsed (cmd word * nat) :=
  match fuel with
  | O => NoFuel
  | S fuel =>
      '(c, s) ← parsepipe fuel s;
      '(c, s) ← back_loop fuel c s;
      let '(b, s) := peek (lit ";") s in
      if b then
        let '(_, _, s) := gettoken s in
        '(r, s) ← parseline fuel s; Done (LIST c r, s)
      else Done (c, s)
  end
with parsepipe (fuel : nat) (s : nat) : parsed (cmd word * nat) :=
  match fuel with
  | O => NoFuel
  | S fuel =>
      '(c, s) ← parseexec fuel s;
      let '(b, s) := peek (lit "|") s in
      if b then
        let '(_, _, s) := gettoken s in
        '(r, s) ← parsepipe fuel s; Done (PIPE c r, s)
      else Done (c, s)
  end
with parseexec (fuel : nat) (s : nat) : parsed (cmd word * nat) :=
  match fuel with
  | O => NoFuel
  | S fuel =>
      let '(b, s) := peek (lit "(") s in
      if b then parseblock fuel s
      else
        '(ret, s) ← parseredirs fuel (EXEC []) s;
        args_loop fuel 0 ret s
  end
with parseblock (fuel : nat) (s : nat) : parsed (cmd word * nat) :=
  match fuel with
  | O => NoFuel
  | S fuel =>
      let '(b, s) := peek (lit "(") s in
      if negb b then panic "parseblock"
      else
        let '(_, _, s) := gettoken s in
        '(c, s) ← parseline fuel s;
        let '(b, s) := peek (lit ")") s in
        if negb b then panic "syntax - missing )"
        else
          let '(_, _, s) := gettoken s in
          parseredirs fuel c s
  end.

Definition parse_all (fuel : nat) : parsed (cmd word) :=
  '(c, s) ← parseline fuel 0;
  let '(_, s) := peek [] s in
  if negb (s =? length buf) then
    Panic (lit "leftovers: " ++ drop s buf ++ [NL] ++ lit "syntax" ++ [NL])
  else Done c.
End Parser.

(** The buffer is behind the tree. *)
Fixpoint nulterminate (c : cmd word) (mem : cstr) : cstr :=
  match c with
  | EXEC argv => foldl (λ mem w, <[w.2 := NUL]> mem) mem argv
  | REDIR c f _ _ => <[f.2 := NUL]> (nulterminate c mem)
  | PIPE l r => nulterminate r (nulterminate l mem)
  | LIST l r => nulterminate r (nulterminate l mem)
  | BACK c => nulterminate c mem
  end.

(** The calls nest at most four deep for every parenthesis. *)
Definition parsecmd (buf : cstr) : parsed (cmd word * cstr) :=
  c ← parse_all buf (4 * length buf + 8);
  Done (c, nulterminate c (buf ++ [NUL])).

(** ** The texts of the words *)
Fixpoint cmd_map {V W} (f : V → W) (c : cmd V) : cmd W :=
  match c with
  | EXEC argv => EXEC (f <$> argv)
  | REDIR c w mode fd => REDIR (cmd_map f c) (f w) mode fd
  | PIPE l r => PIPE (cmd_map f l) (cmd_map f r)
  | LIST l r => LIST (cmd_map f l) (cmd_map f r)
  | BACK c => BACK (cmd_map f c)
  end.

Definition slice (buf : cstr) (w : word) : cstr := take (w.2 - w.1) (drop w.1 buf).

(** The C string that starts at a word of the tree. *)
Definition string_at (mem : cstr) (w : word) : cstr :=
  take (span (λ c, negb (c =? NUL)%char) (drop w.1 mem)) (drop w.1 mem).

(** ** Printing a command *)
Definition redir_op (mode fd : Z) : cstr :=
  if (fd =? 0)%Z then lit " < " else if Z.testbit mode 10 then lit " > " else lit " >> ".

Definition paren (b : bool) (t : cstr) : cstr := if b then lit "(" ++ t ++ lit ")" else t.

(** Level 0 is a line, 1 what may stand before [&], 2 a pipeline, 3 a command of one. *)
Fixpoint print (lvl : nat) (c : cmd cstr) : cstr :=
  match c with
  | EXEC argv => concat ((λ w, SP :: w) <$> argv)
  | REDIR c f mode fd => print 3 c ++ redir_op mode fd ++ f
  | PIPE l r => paren (2 <? lvl) (print 3 l ++ lit "|" ++ print 2 r)
  | BACK c => paren (1 <? lvl) (print 1 c ++ lit "&")
  | LIST l r => paren (0 <? lvl) (print 1 l ++ lit ";" ++ print 0 r)
  end.

Definition word_ok (w : cstr) : bool :=
  negb (bool_decide (w = [])) && forallb (λ c, is_word c && negb (c =? NUL)%char) w.

Definition redir_ok (mode fd : Z) : bool :=
  (fd =? 0)%Z && (mode =? O_RDONLY)%Z ||
  (fd =? 1)%Z && ((mode =? 0x601)%Z || (mode =? 0x201)%Z).

Fixpoint cmd_ok (c : cmd cstr) : bool :=
  match c with
  | EXEC argv => (length argv <? MAXARGS) && forallb word_ok argv
  | REDIR c f mode fd => cmd_ok c && word_ok f && redir_ok mode fd
  | PIPE l r => cmd_ok l && cmd_ok r
  | LIST l r => cmd_ok l && cmd_ok r
  | BACK c => cmd_ok c
  end.

Definition sample : cmd cstr :=
  LIST (BACK (PIPE (REDIR (EXEC [lit "cat"; lit "x"]) (lit "in") 0 0) (REDIR (LIST (EXEC [lit "wc"]) (EXEC [lit "ls"])) (lit "out") 0x201 1)))
       (EXEC [lit "echo"]).

Definition read_back (p : parsed (cmd word * cstr)) : parsed (cmd cstr) :=
  '(c, mem) ← p; Done (cmd_map (string_at mem) c).

Example print_sample : print 0 sample = lit " cat x < in|( wc; ls) >> out&; echo".
Proof. vm_compute. reflexivity. Qed.

Example parse_sample : read_back (parsecmd (print 0 sample)) = Done sample.
Proof. vm_compute. reflexivity. Qed.

(** ** Places in the buffer *)
Definition strip (p : ascii → bool) (l : cstr) : cstr := drop (span p l) l.

Lemma span_le p l : span p l ≤ length l.
Proof. induction l as [|c l IH]; cbn; [lia|]. destruct (p c); lia. Qed.

Lemma span_app p l x r : forallb p l = true → p x = false → span p (l ++ x :: r) = length l.
Proof. intros Hl Hx. induction l as [|c l IH]; cbn in *; [by rewrite Hx|]. apply andb_true_iff in Hl as [-> Hl]. by rewrite IH. Qed.

Lemma span_all p l : forallb p l = true → span p l = length l.
Proof. intros Hl. induction l as [|c l IH]; cbn in *; [done|]. apply andb_true_iff in Hl as [-> Hl]. by rewrite IH. Qed.

Lemma span_lookup p l i c : i < span p l → l !! i = Some c → p c = true.
Proof.
  revert i. induction l as [|d l IH]; intros i; cbn; [lia|]. destruct (p d) eqn:E; [|lia].
  destruct i as [|i]; cbn; [by intros _ [= ->]|]. intros Hi. apply IH. lia.
Qed.

Lemma span_stop p l c : l !! span p l = Some c → p c = false.
Proof. induction l as [|d l IH]; cbn; [done|]. destruct (p d) eqn:E; cbn; [done|]. by intros [= ->]. Qed.

Section Places.
Context (buf : cstr).
Local Abbreviation len := (length buf).

Lemma skip_le p s : s ≤ len → s ≤ skip buf p s ≤ len.
Proof. intros Hs. unfold skip. pose proof (span_le p (drop s buf)). rewrite length_drop in *. lia. Qed.

Lemma skip_drop p s : drop (skip buf p s) buf = strip p (drop s buf).
Proof. unfold skip, strip. by rewrite drop_drop. Qed.

Lemma char_at_drop s : char_at buf s = default NUL (head (drop s buf)).
Proof. unfold char_at. rewrite <-(Nat.add_0_r s) at 1. rewrite <-lookup_drop. by destruct (drop s buf). Qed.

Lemma skip_range p s i c : s ≤ i < skip buf p s → buf !! i = Some c → p c = true.
Proof.
  unfold skip. intros Hi Hc. apply (span_lookup p (drop s buf) (i - s)); [lia|]. rewrite lookup_drop. by replace (s + (i - s)) with i by lia.
Qed.

Lemma skip_stop p s c : buf !! skip buf p s = Some c → p c = false.
Proof. unfold skip. rewrite <-lookup_drop. apply span_stop. Qed.

(** A word of the tree: a stretch of word characters up to the next other character. *)
Definition good_word (w : word) : Prop :=
  w.1 < w.2 ≤ len ∧ (∀ i c, w.1 ≤ i < w.2 → buf !! i = Some c → is_word c = true) ∧
  (∀ c, buf !! w.2 = Some c → is_word c = false).

Context (Hnul : NUL ∉ buf).

Lemma char_at_nul s : char_at buf s = NUL ↔ len ≤ s.
Proof using Hnul.
  unfold char_at. destruct (buf !! s) as [c|] eqn:E; cbn.
  - split; [intros ->; destruct Hnul; by eapply list_elem_of_lookup_2|]. apply lookup_lt_Some in E. lia.
  - apply lookup_ge_None in E. done.
Qed.

Lemma gettoken_spec s tok w s' :
  s ≤ len → gettoken buf s = (tok, w, s') →
  s ≤ s' ≤ len ∧ (tok ≠ NUL → s < s') ∧ (tok = "a"%char → good_word w) ∧ (skip buf is_space s < len → s < s').
Proof using Hnul.
  intros Hs. unfold gettoken. pose proof (skip_le is_space s Hs) as Hq. set (q := skip buf is_space s) in *.
  destruct (Ascii.eqb_spec (char_at buf q) NUL) as [En|Hn].
  { intros [= <- <- <-]. apply char_at_nul in En as Hge. pose proof (skip_le is_space q (proj2 Hq)). rewrite En.
    split; [lia|]. split; [congruence|]. split; [done|lia]. }
  assert (Hlt : q < len) by (destruct (decide (len ≤ q)) as [Hge|]; [by apply char_at_nul in Hge|lia]).
  assert (Hgo : ∀ e, q < e ≤ len → s ≤ skip buf is_space e ≤ len ∧ s < skip buf is_space e).
  { intros e He. pose proof (skip_le is_space e (proj2 He)). lia. }
  destruct (strchr (lit "|();&<") _) eqn:Esym; [|destruct (Ascii.eqb_spec (char_at buf q) ">"%char) as [Egt|Hgt]].
  - intros [= <- <- <-]. destruct (Hgo (S q)) as [H1 H2]; [lia|]. split_and!; try (intros; lia). intros E. by rewrite E in Esym.
  - destruct (Ascii.eqb_spec (char_at buf (S q)) ">"%char) as [Egt2|_].
    + assert (S q < len) by (destruct (decide (len ≤ S q)) as [Hge|]; [|lia]; apply char_at_nul in Hge; by rewrite Hge in Egt2).
      intros [= <- <- <-]. destruct (Hgo (S (S q))) as [H1 H2]; [lia|]. split_and!; try (intros; lia). done.
    + intros [= <- <- <-]. destruct (Hgo (S q)) as [H1 H2]; [lia|]. split_and!; try (intros; lia). intros E. by rewrite E in Egt.
  - intros [= <- <- <-]. pose proof (skip_le is_word q ltac:(lia)) as He.
    assert (Hfirst : is_word (char_at buf q) = true).
    { destruct (buf !! q) as [c|] eqn:Ec; [|apply lookup_ge_None in Ec; lia].
      assert (Hc : char_at buf q = c) by (unfold char_at; by rewrite Ec). rewrite Hc in *.
      unfold is_word. apply andb_true_iff. split; apply negb_true_iff; [by apply (skip_stop is_space s)|].
      apply Ascii.eqb_neq in Hgt. unfold strchr, lit in *. unfold symbols, lit; cbn [existsb String.list_ascii_of_string] in *.
      rewrite !orb_false_iff in *. naive_solver. }
    assert (Hq1 : q < skip buf is_word q).
    { unfold skip. unfold char_at in Hfirst. destruct (buf !! q) as [c|] eqn:Ec; [|apply lookup_ge_None in Ec; lia].
      rewrite (drop_S _ _ _ Ec). cbn. cbn in Hfirst. rewrite Hfirst. lia. }
    destruct (Hgo (skip buf is_word q)) as [H1 H2]; [lia|]. split; [done|]. split; [done|]. split; [|done].
    intros _. split; [cbn; lia|]. split; cbn; [intros i c; apply skip_range|intros c; apply skip_stop].
Qed.

Lemma peek_spec toks s b s' :
  s ≤ len → peek buf toks s = (b, s') → s ≤ s' ≤ len ∧ skip buf is_space s' = s' ∧ (b = true → s' < len).
Proof using Hnul.
  intros Hs [= <- <-]. pose proof (skip_le is_space s Hs) as Hq. split; [done|]. split.
  - pose proof (skip_stop is_space s) as Hst. set (q := skip buf is_space s) in *. unfold skip.
    destruct (drop q buf) as [|c l] eqn:E; cbn [span]; [lia|]. rewrite (Hst c); [lia|].
    apply (f_equal head) in E. cbn in E. rewrite <-E, <-(Nat.add_0_r q), <-lookup_drop, Nat.add_0_r. by destruct (drop q buf).
  - intros [H _]%andb_true_iff. apply negb_true_iff, Ascii.eqb_neq in H.
    destruct (decide (len ≤ skip buf is_space s)) as [Hge|]; [|lia]. by apply char_at_nul in Hge.
Qed.

Fixpoint words (c : cmd word) : list word :=
  match c with
  | EXEC argv => argv
  | REDIR c w _ _ => words c ++ [w]
  | PIPE l r | LIST l r => words l ++ words r
  | BACK c => words c
  end.

Definition good (c : cmd word) : Prop := Forall good_word (words c).

(** A part of the parser started at [s] ends, in the line behind [s] and with good words. *)
Definition ends (s : nat) (r : parsed (cmd word * nat)) : Prop :=
  match r with
  | Done (c, s') => s ≤ s' ≤ len ∧ good c
  | Panic _ => True
  | NoFuel => False
  end.

Lemma ends_weaken s1 s2 r : s1 ≤ s2 → ends s2 r → ends s1 r.
Proof. destruct r as [[c s']| |]; cbn; [|done..]. intros. intuition lia. Qed.

Lemma ends_bind s r f :
  ends s r → (∀ c s', s ≤ s' ≤ len → good c → ends s' (f (c, s'))) → ends s (r ≫= f).
Proof. destruct r as [[c s']| |]; cbn; [|done..]. intros [H1 H2] Hf. apply ends_weaken with s'; [lia|]. by apply Hf. Qed.

Lemma parseredirs_ends fuel c s : s ≤ len → len - s < fuel → good c → ends s (parseredirs buf fuel c s).
Proof using Hnul.
  revert c s. induction fuel as [|fuel IH]; intros c s Hs Hf Hc; [lia|]. cbn [parseredirs].
  destruct (peek buf (lit "<>") s) as [b s1] eqn:E1. destruct (peek_spec _ _ _ _ Hs E1) as (H1 & Hsk & Hb).
  destruct b; [|by split]. destruct (gettoken buf s1) as [[tok w1] s2] eqn:E2.
  destruct (gettoken_spec s1 _ _ _ ltac:(lia) E2) as (H2 & _ & _ & H2'). rewrite Hsk in H2'. specialize (Hb eq_refl).
  destruct (gettoken buf s2) as [[tok2 w] s3] eqn:E3. destruct (gettoken_spec s2 _ _ _ ltac:(lia) E3) as (H3 & _ & Hw & _).
  destruct (Ascii.eqb_spec tok2 "a"%char) as [->|_]; cbn [negb]; [|done]. specialize (Hw eq_refl).
  apply ends_weaken with s3; [lia|]. apply IH; [lia|lia|].
  assert (Hr : ∀ m fd, good (REDIR c w m fd)) by (intros; apply Forall_app; by split; [|constructor]).
  by repeat case_match.
Qed.

Lemma good_add_word w c : good_word w → good c → good (add_word w c).
Proof.
  intros Hw. unfold good. induction c as [argv|c IH f m fd|l _ r _|l _ r _|c _]; cbn; [|rewrite !Forall_app|done..].
  - intros Hc. apply Forall_app. by split; [|constructor].
  - intros [H1 H2]. auto.
Qed.

Lemma args_loop_ends fuel argc c s : s ≤ len → len - s < fuel → good c → ends s (args_loop buf fuel argc c s).
Proof using Hnul.
  revert argc c s. induction fuel as [|fuel IH]; intros argc c s Hs Hf Hc; [lia|]. cbn [args_loop].
  destruct (peek buf (lit "|)&;") s) as [b s1] eqn:E1. destruct (peek_spec _ _ _ _ Hs E1) as (H1 & _ & _).
  destruct b; [by split|]. destruct (gettoken buf s1) as [[tok w] s2] eqn:E2.
  destruct (gettoken_spec s1 _ _ _ ltac:(lia) E2) as (H2 & Hlt & Hw & _).
  destruct (Ascii.eqb_spec tok NUL) as [_|Hne]; [split; [lia|done]|]. specialize (Hlt Hne).
  destruct (Ascii.eqb_spec tok "a"%char) as [->|_]; cbn [negb]; [|done]. specialize (Hw eq_refl).
  destruct (MAXARGS <=? S argc); [done|]. apply ends_weaken with s2; [lia|].
  apply ends_bind; [apply parseredirs_ends; [lia..|by apply good_add_word]|]. intros c' s' Hs' Hc'. apply IH; [lia..|done].
Qed.

Lemma back_loop_ends fuel c s : s ≤ len → len - s < fuel → good c → ends s (back_loop buf fuel c s).
Proof using Hnul.
  revert c s. induction fuel as [|fuel IH]; intros c s Hs Hf Hc; [lia|]. cbn [back_loop].
  destruct (peek buf (lit "&") s) as [b s1] eqn:E1. destruct (peek_spec _ _ _ _ Hs E1) as (H1 & Hsk & Hb).
  destruct b; [|by split]. destruct (gettoken buf s1) as [[tok w1] s2] eqn:E2. specialize (Hb eq_refl).
  destruct (gettoken_spec s1 _ _ _ ltac:(lia) E2) as (H2 & _ & _ & H2'). rewrite Hsk in H2'.
  apply ends_weaken with s2; [lia|]. apply IH; [lia|lia|done].
Qed.

Lemma parsers_end fuel :
  (∀ s, s ≤ len → 4 * (len - s) + 4 ≤ fuel → ends s (parseline buf fuel s)) ∧
  (∀ s, s ≤ len → 4 * (len - s) + 3 ≤ fuel → ends s (parsepipe buf fuel s)) ∧
  (∀ s, s ≤ len → 4 * (len - s) + 2 ≤ fuel → ends s (parseexec buf fuel s)) ∧
  (∀ s, s ≤ len → 4 * (len - s) + 1 ≤ fuel → ends s (parseblock buf fuel s)).
Proof using Hnul.
  induction fuel as [|fuel (IHl & IHp & IHe & IHb)]; [split_and!; intros; lia|].
  assert (Hg : ∀ P Q, good P → good Q → good (LIST P Q) ∧ good (PIPE P Q)) by (intros; split; apply Forall_app; by split).
  split_and!; intros s Hs Hf.
  - cbn [parseline]. apply ends_bind; [apply IHp; lia|]. intros c s1 H1 Hc.
    apply ends_bind; [apply back_loop_ends; [lia..|done]|]. intros c' s2 H2 Hc'.
    destruct (peek buf (lit ";") s2) as [b s3] eqn:E3. destruct (peek_spec _ s2 _ _ ltac:(lia) E3) as (H3 & Hsk & Hb).
    destruct b; [|by split]. specialize (Hb eq_refl). destruct (gettoken buf s3) as [[tok w] s4] eqn:E4.
    destruct (gettoken_spec s3 _ _ _ ltac:(lia) E4) as (H4 & _ & _ & H4'). rewrite Hsk in H4'.
    apply ends_weaken with s4; [lia|]. apply ends_bind; [apply IHl; lia|]. intros r s5 H5 Hr. split; [lia|by apply Hg].
  - cbn [parsepipe]. apply ends_bind; [apply IHe; lia|]. intros c s1 H1 Hc.
    destruct (peek buf (lit "|") s1) as [b s3] eqn:E3. destruct (peek_spec _ s1 _ _ ltac:(lia) E3) as (H3 & Hsk & Hb).
    destruct b; [|by split]. specialize (Hb eq_refl). destruct (gettoken buf s3) as [[tok w] s4] eqn:E4.
    destruct (gettoken_spec s3 _ _ _ ltac:(lia) E4) as (H4 & _ & _ & H4'). rewrite Hsk in H4'.
    apply ends_weaken with s4; [lia|]. apply ends_bind; [apply IHp; lia|]. intros r s5 H5 Hr. split; [lia|by apply Hg].
  - cbn [parseexec]. destruct (peek buf (lit "(") s) as [b s1] eqn:E1.
    destruct (peek_spec _ s _ _ Hs E1) as (H1 & Hsk & Hb). apply ends_weaken with s1; [lia|].
    destruct b; [apply IHb; lia|]. apply ends_bind; [apply parseredirs_ends; [lia..|by constructor]|].
    intros c s2 H2 Hc. apply args_loop_ends; [lia..|done].
  - cbn [parseblock]. destruct (peek buf (lit "(") s) as [b s1] eqn:E1.
    destruct (peek_spec _ s _ _ Hs E1) as (H1 & Hsk & Hb). destruct b; cbn [negb]; [|done]. specialize (Hb eq_refl).
    destruct (gettoken buf s1) as [[tok w] s2] eqn:E2.
    destruct (gettoken_spec s1 _ _ _ ltac:(lia) E2) as (H2 & _ & _ & H2'). rewrite Hsk in H2'.
    apply ends_weaken with s2; [lia|]. apply ends_bind; [apply IHl; lia|]. intros c s3 H3 Hc.
    destruct (peek buf (lit ")") s3) as [b s4] eqn:E4. destruct (peek_spec _ s3 _ _ ltac:(lia) E4) as (H4 & _ & _).
    destruct b; cbn [negb]; [|done]. destruct (gettoken buf s4) as [[tok' w'] s5] eqn:E5.
    destruct (gettoken_spec s4 _ _ _ ltac:(lia) E5) as (H5 & _). apply ends_weaken with s5; [lia|].
    apply parseredirs_ends; [lia..|done].
Qed.
End Places.

(** ** What [nulterminate] writes *)
Definition write_nul (mem : cstr) (w : word) : cstr := <[w.2 := NUL]> mem.

Lemma nulterminate_words c mem : nulterminate c mem = foldl write_nul mem (words c).
Proof.
  revert mem. induction c as [argv|c IH f m fd|l IHl r IHr|l IHl r IHr|c IH]; intros mem; cbn; [done|..].
  - by rewrite foldl_app, IH.
  - by rewrite foldl_app, IHl, IHr.
  - by rewrite foldl_app, IHl, IHr.
  - apply IH.
Qed.

Lemma write_nuls_length l mem : length (foldl write_nul mem l) = length mem.
Proof. revert mem. induction l as [|w l IH]; intros mem; cbn; [done|]. rewrite IH. apply length_insert. Qed.

Lemma write_nuls_other l mem i : (∀ w, w ∈ l → w.2 ≠ i) → foldl write_nul mem l !! i = mem !! i.
Proof.
  revert mem. induction l as [|w l IH]; intros mem Hi; cbn; [done|]. rewrite IH; [|intros; apply Hi; by right].
  apply list_lookup_insert_ne. apply Hi. by left.
Qed.

Lemma write_nuls_at l mem w : w ∈ l → w.2 < length mem → foldl write_nul mem l !! w.2 = Some NUL.
Proof.
  revert mem w. induction l as [|v l IH]; intros mem w Hw Hlt; [by apply not_elem_of_nil in Hw|]. cbn.
  destruct (decide (Exists (λ v, v.2 = w.2) l)) as [He|He].
  - apply Exists_exists in He as (u & Hu & E). rewrite <-E. apply IH; [done|]. unfold write_nul. by rewrite length_insert, E.
  - rewrite write_nuls_other; [|intros u Hu E; apply He, Exists_exists; by exists u].
    apply elem_of_cons in Hw as [<-|Hw]; [by apply list_lookup_insert_eq|].
    destruct He. apply Exists_exists. by exists w.
Qed.

Lemma take_span p l1 x l2 : forallb p l1 = true → p x = false → take (span p (l1 ++ x :: l2)) (l1 ++ x :: l2) = l1.
Proof. intros H1 H2. by rewrite span_app, take_app_length. Qed.

Lemma word_slice_lookup buf w i : slice buf w !! i = if decide (i < w.2 - w.1) then buf !! (w.1 + i) else None.
Proof. unfold slice. rewrite lookup_take, lookup_drop. done. Qed.

(** Every word of the tree is the string that starts there, once [nulterminate] is through. *)
Lemma string_of_word buf l w :
  NUL ∉ buf → Forall (good_word buf) l → w ∈ l →
  string_at (foldl write_nul (buf ++ [NUL]) l) w = slice buf w ∧ word_ok (slice buf w) = true.
Proof.
  intros Hnul Hl Hw. rewrite Forall_forall in Hl. destruct (Hl w Hw) as ((Hlt & Hle) & Hin & Hend).
  set (mem := foldl write_nul (buf ++ [NUL]) l).
  assert (Hc : ∀ c, c ∈ slice buf w → is_word c = true ∧ c ≠ NUL).
  { intros c (i & Hi)%list_elem_of_lookup. rewrite word_slice_lookup in Hi. case_decide; [|done]. split; [by eapply Hin; [|exact Hi]; lia|].
    intros ->. apply Hnul. by eapply list_elem_of_lookup_2. }
  assert (Hsplit : drop w.1 mem = slice buf w ++ NUL :: drop (S w.2) mem).
  { rewrite <-(take_drop_middle (drop w.1 mem) (w.2 - w.1) NUL).
    - f_equal.
      + apply list_eq. intros i. rewrite word_slice_lookup, lookup_take, lookup_drop. case_decide as Hi; [|done].
        destruct (buf !! (w.1 + i)) as [c|] eqn:E; [|apply lookup_ge_None in E; lia].
        unfold mem. rewrite write_nuls_other; [by apply lookup_app_l_Some|].
        intros u Hu Eu. destruct (Hl u Hu) as (_ & _ & Hue). rewrite Eu in Hue. specialize (Hue c E). specialize (Hin (w.1 + i) c ltac:(lia) E). congruence.
      + f_equal. rewrite drop_drop. f_equal. lia.
    - rewrite lookup_drop. replace (w.1 + (w.2 - w.1)) with w.2 by lia. unfold mem. apply write_nuls_at; [done|].
      rewrite length_app. cbn. lia. }
  split.
  - unfold string_at. rewrite Hsplit. apply take_span; [|done]. apply forallb_forall. intros c Hin'%list_elem_of_In.
    apply negb_true_iff, Ascii.eqb_neq. by apply Hc.
  - unfold word_ok. apply andb_true_iff. split.
    + apply negb_true_iff, bool_decide_eq_false. intros E. apply (f_equal length) in E. unfold slice in E.
      rewrite length_take, length_drop in E. cbn in E. lia.
    + apply forallb_forall. intros c Hin'%list_elem_of_In. destruct (Hc c Hin') as [-> Hne]. by apply negb_true_iff, Ascii.eqb_neq.
Qed.

Lemma cmd_map_ext {W} (f g : word → W) c : (∀ w, w ∈ words c → f w = g w) → cmd_map f c = cmd_map g c.
Proof.
  induction c as [argv|c IH w m fd|l IHl r IHr|l IHl r IHr|c IH]; cbn; intros H.
  - f_equal. apply list_fmap_ext. intros i w Hw. apply H. by eapply list_elem_of_lookup_2.
  - rewrite IH, H; [done|set_solver..].
  - rewrite IHl, IHr; [done|set_solver..].
  - rewrite IHl, IHr; [done|set_solver..].
  - by rewrite IH.
Qed.

(** C32: the parser ends on every line, with an error message or a tree; in the tree's buffer every word, redirection files
    included, is a NUL-terminated string of its own: the text it has in the line, not empty and without blanks and symbols. *)
Theorem parsecmd_ends line :
  NUL ∉ line →
  match parsecmd line with
  | Done (c, mem) =>
      cmd_map (string_at mem) c = cmd_map (slice line) c ∧
      ∀ w, w ∈ words c → w.1 < w.2 ≤ length line ∧ word_ok (slice line w) = true
  | Panic _ => True
  | NoFuel => False
  end.
Proof.
  intros Hnul. unfold parsecmd, parse_all. destruct (parsers_end line Hnul (4 * length line + 8)) as (Hl & _).
  specialize (Hl 0 ltac:(lia) ltac:(lia)). destruct (parseline _ _ _) as [[c s]| |]; cbn in *; [|done..].
  destruct Hl as [_ Hc]. destruct (negb _); cbn; [done|]. rewrite nulterminate_words. split.
  - apply cmd_map_ext. intros w Hw. by apply string_of_word.
  - intros w Hw. split; [|by eapply (string_of_word line)]. unfold good in Hc. rewrite Forall_forall in Hc. by apply Hc.
Qed.

(** ** Parsing what [print] prints *)
Lemma strip_cons p c l : strip p (c :: l) = if p c then strip p l else c :: l.
Proof. unfold strip. cbn [span]. by destruct (p c). Qed.

Lemma strip_idemp p l : strip p (strip p l) = strip p l.
Proof. induction l as [|c l IH]; [done|]. rewrite strip_cons. destruct (p c) eqn:E; [done|]. by rewrite strip_cons, E. Qed.

Lemma strip_head p l c r : strip p l = c :: r → p c = false.
Proof. induction l as [|d l IH]; [done|]. rewrite strip_cons. destruct (p d) eqn:E; [done|]. by intros [= <- _]. Qed.

Abbreviation blanks := (strip is_space).

Lemma blanks_sp l : blanks (SP :: l) = blanks l.
Proof. done. Qed.

(** The characters that may come next. *)
Definition follow (toks r : cstr) : Prop := match r with c :: _ => c ∈ toks | [] => True end.

(** The text [r] does not go on with a word, and its next character is one of [toks]. *)
Definition after (toks r : cstr) : Prop :=
  follow toks (blanks r) ∧ match r with c :: _ => is_word c = false | [] => True end.

Lemma strchr_elem toks c : strchr toks c = true ↔ c ∈ toks.
Proof. unfold strchr. rewrite existsb_exists, list_elem_of_In. split; [intros (x & Hx & ->%Ascii.eqb_eq); done|]. intros H. exists c. by rewrite Ascii.eqb_refl. Qed.

Section Print.
Context (buf : cstr) (Hnul : NUL ∉ buf).
Local Abbreviation rest s := (blanks (drop s buf)).

Lemma rest_skip s : drop (skip buf is_space s) buf = rest s.
Proof. apply skip_drop. Qed.

Lemma rest_of_skip s : rest (skip buf is_space s) = rest s.
Proof. by rewrite rest_skip, strip_idemp. Qed.

Lemma rest_char s : char_at buf (skip buf is_space s) = default NUL (head (rest s)).
Proof. by rewrite char_at_drop, rest_skip. Qed.

Lemma rest_nul s c r : rest s = c :: r → c ≠ NUL.
Proof using Hnul.
  intros E ->. apply Hnul. rewrite <-(take_drop (skip buf is_space s) buf), rest_skip, E. set_solver.
Qed.

Lemma peek_at toks s :
  ∃ s', peek buf toks s = (match rest s with c :: _ => strchr toks c | [] => false end, s') ∧ rest s' = rest s.
Proof using Hnul.
  exists (skip buf is_space s). split; [|rewrite rest_skip; apply strip_idemp]. unfold peek. f_equal. rewrite rest_char.
  destruct (rest s) as [|c r] eqn:E; [done|]. apply rest_nul in E. cbn. by apply Ascii.eqb_neq in E as ->.
Qed.

Lemma rest_after s c r : rest s = c :: r → drop (S (skip buf is_space s)) buf = r.
Proof. intros E. replace (S (skip buf is_space s)) with (skip buf is_space s + 1) by lia. by rewrite <-drop_drop, rest_skip, E. Qed.

Lemma gettoken_end s : rest s = [] → ∃ w s', gettoken buf s = (NUL, w, s') ∧ rest s' = [].
Proof.
  intros E. unfold gettoken. rewrite rest_char, E. cbn [default id head].
  eexists _, _. split; [reflexivity|]. by rewrite !rest_of_skip.
Qed.

Lemma gettoken_symbol s c r :
  rest s = c :: r → c ∈ lit "|();&<" → ∃ w s', gettoken buf s = (c, w, s') ∧ rest s' = blanks r.
Proof using Hnul.
  intros E Hc. unfold gettoken. rewrite rest_char, E. cbn [default id head]. pose proof (rest_nul _ _ _ E) as Hn.
  apply Ascii.eqb_neq in Hn as ->. apply strchr_elem in Hc as ->. eexists _, _. split; [reflexivity|].
  by rewrite rest_of_skip, (rest_after _ _ _ E).
Qed.

Lemma gettoken_great s r :
  rest s = ">"%char :: r → head r ≠ Some ">"%char → ∃ w s', gettoken buf s = (">"%char, w, s') ∧ rest s' = blanks r.
Proof.
  intros E Hr. unfold gettoken. rewrite rest_char, E. cbn [default id head Ascii.eqb Bool.eqb strchr lit String.list_ascii_of_string existsb orb].
  rewrite char_at_drop, (rest_after _ _ _ E).
  destruct (Ascii.eqb_spec (default NUL (head r)) ">"%char) as [E2|_]; [destruct r as [|d r]; unfold id in E2; cbn in E2, Hr; [discriminate E2|subst; done]|].
  eexists _, _. split; [reflexivity|]. by rewrite rest_of_skip, (rest_after _ _ _ E).
Qed.

Lemma gettoken_greatgreat s r :
  rest s = ">"%char :: ">"%char :: r → ∃ w s', gettoken buf s = ("+"%char, w, s') ∧ rest s' = blanks r.
Proof.
  intros E. unfold gettoken. rewrite rest_char, E. cbn [default id head Ascii.eqb Bool.eqb strchr lit String.list_ascii_of_string existsb orb].
  rewrite char_at_drop, (rest_after _ _ _ E). cbn [default id head Ascii.eqb Bool.eqb].
  eexists _, _. split; [reflexivity|]. rewrite rest_of_skip. replace (S (S (skip buf is_space s))) with (S (skip buf is_space s) + 1) by lia.
  by rewrite <-drop_drop, (rest_after _ _ _ E).
Qed.

Lemma word_ok_cons w : word_ok w = true → ∃ c w', w = c :: w' ∧ is_word c = true ∧ c ≠ NUL ∧ forallb is_word w = true ∧ NUL ∉ w.
Proof.
  unfold word_ok. intros [H1 H2]%andb_true_iff. destruct w as [|c w']; [done|]. exists c, w'. split; [done|].
  rewrite forallb_forall in H2. assert (H3 : ∀ x, x ∈ c :: w' → is_word x = true ∧ x ≠ NUL).
  { intros x Hx%list_elem_of_In. apply H2 in Hx. apply andb_true_iff in Hx as [-> Hx]. by apply negb_true_iff, Ascii.eqb_neq in Hx. }
  split; [by apply H3; left|]. split; [apply H3; by left|]. split; [apply forallb_forall; intros x Hx%list_elem_of_In; by apply H3|].
  intros Hin. by apply H3 in Hin as [_ ?].
Qed.

Lemma is_word_chars c : is_word c = true → is_space c = false ∧ ∀ t, (∀ x, x ∈ t → x ∈ symbols) → strchr t c = false.
Proof.
  unfold is_word. intros [H1 H2]%andb_true_iff. apply negb_true_iff in H1, H2. split; [done|]. intros t Ht.
  destruct (strchr t c) eqn:E; [|done]. apply strchr_elem, Ht, strchr_elem in E. congruence.
Qed.

Lemma gettoken_word s w r :
  rest s = w ++ r → word_ok w = true → match r with c :: _ => is_word c = false | [] => True end →
  ∃ v s', gettoken buf s = ("a"%char, v, s') ∧ slice buf v = w ∧ rest s' = blanks r.
Proof using Hnul.
  intros E Hw Hr. destruct (word_ok_cons _ Hw) as (c & w' & -> & Hc & Hn & Hall & _). destruct (is_word_chars c Hc) as [_ Hsym].
  unfold gettoken. rewrite rest_char, E. cbn [app default id head]. apply Ascii.eqb_neq in Hn as ->. rewrite Hsym by set_solver.
  pose proof (Hsym (lit ">") ltac:(set_solver)) as Hgt. cbn in Hgt. rewrite orb_false_r in Hgt. rewrite Hgt.
  assert (Hspan : skip buf is_word (skip buf is_space s) = skip buf is_space s + length (c :: w')).
  { unfold skip at 1. rewrite rest_skip, E. f_equal. destruct r as [|d r]; [rewrite app_nil_r; by apply span_all|by apply span_app]. }
  eexists _, _. split; [reflexivity|]. rewrite Hspan. split.
  - unfold slice. cbn [fst snd]. rewrite rest_skip, E. rewrite Nat.add_comm, Nat.add_sub. apply take_app_length.
  - by rewrite rest_of_skip, <-drop_drop, rest_skip, E, drop_app_length.
Qed.

(** [f] reads from the text in front of [r] a tree with the texts of [c], with any fuel from some point on. *)
Definition reads (f : nat → nat → parsed (cmd word * nat)) (s : nat) (c : cmd cstr) (r : cstr) : Prop :=
  ∃ N c' s', (∀ fuel, N ≤ fuel → f fuel s = Done (c', s')) ∧ cmd_map (slice buf) c' = c ∧ rest s' = r.

Definition add_redir (c : cmd cstr) (x : cstr * Z * Z) : cmd cstr := let '(f, m, fd) := x in REDIR c f m fd.

Fixpoint print_redirs (rs : list (cstr * Z * Z)) : cstr :=
  match rs with
  | [] => []
  | (f, m, fd) :: rs => redir_op m fd ++ f ++ print_redirs rs
  end.

Definition redirs_ok (rs : list (cstr * Z * Z)) : Prop :=
  Forall (λ x, word_ok x.1.1 = true ∧ redir_ok x.1.2 x.2 = true) rs.

(** What may stand behind a command of a pipeline. *)
Definition behind : cstr := lit "|)&;".

Lemma behind_redir c : c ∈ behind → strchr (lit "<>") c = false.
Proof. intros Hc. repeat (apply elem_of_cons in Hc as [->|Hc]; [done|]). by apply not_elem_of_nil in Hc. Qed.

Lemma behind_paren c : c ∈ behind → strchr (lit "(") c = false.
Proof. intros Hc. repeat (apply elem_of_cons in Hc as [->|Hc]; [done|]). by apply not_elem_of_nil in Hc. Qed.

Lemma follow_redir r : follow behind r → match r with c :: _ => strchr (lit "<>") c | [] => false end = false.
Proof. destruct r; [done|]. apply behind_redir. Qed.

Lemma redir_op_space m fd t : ∃ t', redir_op m fd ++ t = SP :: t'.
Proof. unfold redir_op. repeat case_match; by eexists. Qed.

Lemma redirs_not_word rs r :
  match r with c :: _ => is_word c = false | [] => True end →
  match print_redirs rs ++ r with c :: _ => is_word c = false | [] => True end.
Proof.
  intros Hr. destruct rs as [|[[f m] fd] rs]; [done|]. cbn [print_redirs]. rewrite <-!app_assoc.
  by destruct (redir_op_space m fd (f ++ print_redirs rs ++ r)) as [t' ->].
Qed.

(** One redirection. *)
Lemma redir_token s m fd f r :
  rest s = blanks (redir_op m fd ++ f ++ r) → (∀ t, blanks (f ++ t) = f ++ t) → head f ≠ Some ">"%char → redir_ok m fd = true →
  ∃ tok w s2, gettoken buf s = (tok, w, s2) ∧ rest s2 = f ++ r ∧
    match rest s with c :: _ => strchr (lit "<>") c | [] => false end = true ∧
    ∀ (c : cmd word) v, (if (tok =? "<")%char then REDIR c v O_RDONLY 0
      else if (tok =? ">")%char then REDIR c v (Z.lor (Z.lor O_WRONLY O_CREATE) O_TRUNC) 1
      else if (tok =? "+")%char then REDIR c v (Z.lor O_WRONLY O_CREATE) 1 else c) = REDIR c v m fd.
Proof using Hnul.
  intros E Hfr Hgt Hm. unfold redir_ok in Hm. apply orb_true_iff in Hm as [Hm|Hm].
  - apply andb_true_iff in Hm as [->%Z.eqb_eq ->%Z.eqb_eq]. cbn in E.
    destruct (gettoken_symbol s "<"%char (SP :: f ++ r) E) as (w & s2 & H1 & H2); [set_solver|].
    eexists _, w, s2. rewrite H2, E. split; [exact H1|]. split; [apply Hfr|done].
  - apply andb_true_iff in Hm as [->%Z.eqb_eq Hm]. apply orb_true_iff in Hm as [->%Z.eqb_eq | ->%Z.eqb_eq]; cbn in E.
    + destruct (gettoken_great s (SP :: f ++ r) E) as (w & s2 & H1 & H2); [done|].
      eexists _, w, s2. rewrite H2, E. split; [exact H1|]. split; [apply Hfr|done].
    + destruct (gettoken_greatgreat s (SP :: f ++ r) E) as (w & s2 & H1 & H2).
      eexists _, w, s2. rewrite H2, E. split; [exact H1|]. split; [apply Hfr|done].
Qed.

Lemma one_redir c s f m fd r :
  rest s = blanks (redir_op m fd ++ f ++ r) → word_ok f = true → redir_ok m fd = true →
  match r with c :: _ => is_word c = false | [] => True end →
  ∃ v s', (∀ fuel, parseredirs buf (S fuel) c s = parseredirs buf fuel (REDIR c v m fd) s') ∧ slice buf v = f ∧ rest s' = blanks r.
Proof using Hnul.
  intros E Hf Hm Hr. destruct (word_ok_cons _ Hf) as (c0 & f' & Ef & Hc0 & _). destruct (is_word_chars _ Hc0) as [Hsp _].
  assert (Hfr : ∀ t, blanks (f ++ t) = f ++ t) by (intros t; rewrite Ef; cbn [app]; by rewrite strip_cons, Hsp).
  destruct (peek_at (lit "<>") s) as (s1 & Hpk & E1). rewrite <-E1 in E.
  destruct (redir_token s1 m fd f r E Hfr) as (tok & w & s2 & H1 & H2 & H3 & H4); [rewrite Ef; cbn; intros [= ->]; done|done|].
  destruct (gettoken_word s2 f r H2 Hf Hr) as (v & s3 & H5 & H6 & H7).
  exists v, s3. split; [|done]. intros fuel. cbn [parseredirs]. rewrite Hpk, <-E1, H3, H1, H5. cbn [Ascii.eqb Bool.eqb negb]. by rewrite H4.
Qed.

Lemma no_redirs c s :
  match rest s with c :: _ => strchr (lit "<>") c | [] => false end = false →
  ∃ s', (∀ fuel, parseredirs buf (S fuel) c s = Done (c, s')) ∧ rest s' = rest s.
Proof using Hnul.
  intros H. destruct (peek_at (lit "<>") s) as (s1 & Hp & E1). exists s1. split; [|done]. intros fuel. cbn [parseredirs]. by rewrite Hp, H.
Qed.

Lemma redirs_run rs c s r :
  rest s = blanks (print_redirs rs ++ r) → redirs_ok rs → match r with c :: _ => is_word c = false | [] => True end →
  match blanks r with c :: _ => strchr (lit "<>") c | [] => false end = false →
  reads (λ fuel s, parseredirs buf fuel c s) s (foldl add_redir (cmd_map (slice buf) c) rs) (blanks r).
Proof using Hnul.
  revert c s. induction rs as [|[[f m] fd] rs IH]; intros c s E Hrs Hr Hpk; cbn [print_redirs app foldl] in *.
  - rewrite <-E in Hpk. destruct (no_redirs c s Hpk) as (s1 & H1 & H2).
    exists 1, c, s1. split; [|by rewrite H2]. intros [|fuel] Hf; [lia|done].
  - apply Forall_cons in Hrs as [[Hw Hok] Hrs]. cbn [fst snd] in *. rewrite <-!app_assoc in E.
    destruct (one_redir c s f m fd _ E Hw Hok (redirs_not_word rs r Hr)) as (v & s1 & Hrun & Hv & E1).
    destruct (IH (REDIR c v m fd) s1 E1 Hrs Hr Hpk) as (N & c' & s' & HN & H2 & H3). cbn [cmd_map] in H2. rewrite Hv in H2.
    exists (S N), c', s'. split; [|done]. intros [|fuel] Hf; [lia|]. rewrite Hrun. apply HN. lia.
Qed.

(** The loop over the words ends where no word comes. *)
Lemma args_end argc c s r :
  rest s = r → follow behind r → ∃ s', (∀ fuel, args_loop buf (S fuel) argc c s = Done (c, s')) ∧ rest s' = r.
Proof using Hnul.
  intros E Hr. destruct (peek_at (lit "|)&;") s) as (s1 & Hp & E1). rewrite E in *. destruct r as [|c1 r].
  - destruct (gettoken_end s1 E1) as (w & s2 & Hg & E2). exists s2. split; [|done]. intros fuel. cbn [args_loop]. by rewrite Hp, Hg.
  - apply strchr_elem in Hr. unfold behind in Hr. exists s1. split; [|done]. intros fuel. cbn [args_loop]. by rewrite Hp, Hr.
Qed.

Lemma one_word argc c s w t :
  rest s = w ++ t → word_ok w = true → match t with c :: _ => is_word c = false | [] => True end → S argc < MAXARGS →
  ∃ v s', (∀ fuel, args_loop buf (S fuel) argc c s =
      ('(c, s) ← parseredirs buf fuel (add_word v c) s'; args_loop buf fuel (S argc) c s)) ∧
    slice buf v = w ∧ rest s' = blanks t.
Proof using Hnul.
  intros E Hw Ht Hargc. destruct (peek_at (lit "|)&;") s) as (s1 & Hp & E1). rewrite <-E1 in E.
  destruct (word_ok_cons _ Hw) as (c0 & w' & Ew & Hc0 & _). destruct (is_word_chars _ Hc0) as [_ Hsym].
  destruct (gettoken_word s1 w t E Hw Ht) as (v & s2 & Hg & Hv & E2). exists v, s2. split; [|done].
  intros fuel. cbn [args_loop]. rewrite Hp, <-E1, E, Ew. cbn [app]. rewrite Hsym by set_solver. rewrite Hg.
  cbn [Ascii.eqb Bool.eqb negb NUL]. destruct (Nat.leb_spec MAXARGS (S argc)); [lia|done].
Qed.

(** The words of a command and the redirections behind them. *)
Lemma args_run w ws rs a s r argc :
  rest s = w ++ concat ((λ w, SP :: w) <$> ws) ++ print_redirs rs ++ r →
  word_ok w = true → Forall (λ w, word_ok w = true) ws → redirs_ok rs → after behind r → argc + S (length ws) < MAXARGS →
  reads (λ fuel s, args_loop buf fuel argc (EXEC a) s) s (foldl add_redir (EXEC ((slice buf <$> a) ++ w :: ws)) rs) (blanks r).
Proof using Hnul.
  intros E Hw Hws Hrs [Hr Hr'] Hargc. pose proof (redirs_not_word rs r Hr') as Hnw.
  revert w a s argc E Hw Hargc. induction Hws as [|w2 ws Hw2 Hws IH]; intros w a s argc E Hw Hargc; cbn [fmap list_fmap concat app length] in *.
  - destruct (one_word argc (EXEC a) s w _ E Hw Hnw ltac:(lia)) as (v & s2 & Hrun & Hv & E2).
    destruct (redirs_run rs (EXEC (a ++ [v])) s2 r E2 Hrs Hr' (follow_redir _ Hr)) as (N & c' & s3 & HN & H2 & E3).
    destruct (args_end (S argc) c' s3 _ E3 Hr) as (s4 & H4 & E4).
    exists (S (S N)), c', s4. split; [|split; [|done]].
    + intros [|[|fuel]] Hf; [lia..|]. rewrite Hrun. cbn [add_word]. rewrite HN by lia. apply H4.
    + rewrite H2. cbn [cmd_map]. by rewrite fmap_app, <-Hv.
  - destruct (one_word argc (EXEC a) s w _ E Hw) as (v & s2 & Hrun & Hv & E2); [done|lia|].
    destruct (word_ok_cons _ Hw2) as (c0 & w' & Ew & Hc0 & _). destruct (is_word_chars _ Hc0) as [Hsp Hsym].
    assert (E3 : rest s2 = w2 ++ concat ((λ w, SP :: w) <$> ws) ++ print_redirs rs ++ r).
    { rewrite E2, <-app_assoc. cbn [app]. rewrite strip_cons. cbn [is_space]. rewrite Ew. cbn [app]. by rewrite strip_cons, Hsp. }
    assert (Hnr : match rest s2 with c :: _ => strchr (lit "<>") c | [] => false end = false).
    { rewrite E3, Ew. cbn [app]. apply Hsym. set_solver. }
    destruct (no_redirs (EXEC (a ++ [v])) s2 Hnr) as (s3 & Hno & E4). rewrite E3 in E4.
    destruct (IH w2 (a ++ [v]) s3 (S argc) E4 Hw2 ltac:(lia)) as (N & c' & s4 & HN & H2 & E5).
    exists (S (S N)), c', s4. split; [|split; [|done]].
    + intros [|[|fuel]] Hf; [lia..|]. rewrite Hrun. cbn [add_word]. rewrite Hno. apply HN. lia.
    + by rewrite H2, fmap_app, <-Hv, <-app_assoc.
Qed.

(** *** Levels *)
Definition E0 (c : cmd cstr) : Prop := ∀ s r, rest s = blanks (print 0 c ++ r) → after (lit ")") r → reads (parseline buf) s c (blanks r).
Definition E1 (c : cmd cstr) : Prop := ∀ s r, rest s = blanks (print 1 c ++ r) → after (lit ")&;") r →
  ∃ k N c0 s0 c' s', (∀ fuel, N ≤ fuel → parsepipe buf fuel s = Done (c0, s0)) ∧
    (∀ fuel, back_loop buf (k + fuel) c0 s0 = back_loop buf fuel c' s') ∧ cmd_map (slice buf) c' = c ∧ rest s' = blanks r.
Definition E2 (c : cmd cstr) : Prop := ∀ s r, rest s = blanks (print 2 c ++ r) → after (lit ")&;") r → reads (parsepipe buf) s c (blanks r).
Definition E3 (c : cmd cstr) : Prop := ∀ rs s r, rest s = blanks (print 3 c ++ print_redirs rs ++ r) → redirs_ok rs → after behind r →
  reads (parseexec buf) s (foldl add_redir c rs) (blanks r).

Lemma after_weaken t1 t2 r : (∀ c, c ∈ t1 → c ∈ t2) → after t1 r → after t2 r.
Proof. intros Ht [H1 H2]. split; [|done]. destruct (blanks r); [done|]. cbn in *. auto. Qed.

Lemma peek_follow t toks s r :
  rest s = r → follow t r → (∀ c, c ∈ t → strchr toks c = false) → ∃ s', peek buf toks s = (false, s') ∧ rest s' = r.
Proof using Hnul.
  intros E Hr Ht. destruct (peek_at toks s) as (s' & Hp & E'). exists s'. rewrite Hp, E in *. split; [|done].
  f_equal. destruct r as [|c r]; [done|]. by apply Ht.
Qed.

(** One symbol is looked at and taken. *)
Lemma take_symbol c s r :
  rest s = c :: r → c ∈ lit "|();&<" → ∃ s1 w s2, peek buf [c] s = (true, s1) ∧ gettoken buf s1 = (c, w, s2) ∧ rest s2 = blanks r.
Proof using Hnul.
  intros E Hc. destruct (peek_at [c] s) as (s1 & Hp & E'). rewrite E in *. cbn in Hp. rewrite Ascii.eqb_refl in Hp.
  destruct (gettoken_symbol s1 c r E' Hc) as (w & s2 & Hg & E''). by exists s1, w, s2.
Qed.

Ltac chars := intros ? ?; repeat match goal with
  | H : ?c ∈ lit _ |- _ => unfold lit in H; cbn [String.list_ascii_of_string] in H
  | H : _ ∈ _ :: _ |- _ => apply elem_of_cons in H as [->|H]
  | H : _ ∈ [] |- _ => by apply not_elem_of_nil in H
  end; try done; set_solver.

Lemma e3_e2 c : print 2 c = print 3 c → E3 c → E2 c.
Proof using Hnul.
  intros Hpr H3 s r E Hr. rewrite Hpr in E.
  destruct (H3 [] s r E) as (N & c' & s1 & HN & H2 & E1'); [constructor|revert Hr; apply after_weaken; chars|].
  destruct (peek_follow _ (lit "|") s1 _ E1' (proj1 Hr)) as (s2 & Hp & E2'); [chars|].
  exists (S N), c', s2. split; [|done]. intros [|fuel] Hf; [lia|]. cbn [parsepipe]. rewrite HN by lia.
  cbn [mbind parsed_bind]. by rewrite Hp.
Qed.

Lemma e2_e1 c : print 1 c = print 2 c → E2 c → E1 c.
Proof.
  intros Hpr H2 s r E Hr. rewrite Hpr in E. destruct (H2 s r E Hr) as (N & c' & s' & HN & H).
  exists 0, N, c', s', c', s'. done.
Qed.

(** The loop over [&] ends where none comes. *)
Lemma back_end c s t r : rest s = r → follow t r → (∀ c, c ∈ t → strchr (lit "&") c = false) →
  ∃ s', (∀ fuel, back_loop buf (S fuel) c s = Done (c, s')) ∧ rest s' = r.
Proof using Hnul.
  intros E Hr Ht. destruct (peek_follow _ (lit "&") s r E Hr Ht) as (s' & Hp & E'). exists s'. split; [|done].
  intros fuel. cbn [back_loop]. by rewrite Hp.
Qed.

Lemma e1_e0 c : print 0 c = print 1 c → E1 c → E0 c.
Proof using Hnul.
  intros Hpr H1 s r E Hr. rewrite Hpr in E.
  destruct (H1 s r E) as (k & N & c0 & s0 & c' & s1 & HN & Hb & Hc & Hs1); [revert Hr; apply after_weaken; chars|].
  destruct (back_end c' s1 _ _ Hs1 (proj1 Hr)) as (s2 & Hend & Hs2); [chars|].
  destruct (peek_follow _ (lit ";") s2 _ Hs2 (proj1 Hr)) as (s3 & Hp & Hs3); [chars|].
  exists (S (N + S k)), c', s3. split; [|done]. intros [|fuel] Hf; [lia|].
  cbn [parseline]. rewrite HN by lia. cbn [mbind parsed_bind]. replace fuel with (k + S (fuel - S k)) at 1 by lia.
  rewrite Hb, Hend. cbn [mbind parsed_bind]. by rewrite Hp.
Qed.

Lemma e0_list l r : E1 l → E0 r → E0 (LIST l r).
Proof using Hnul.
  intros Hl Hr s t E Ht. cbn [print] in E. cbn [Nat.ltb Nat.leb paren] in E. rewrite <-!app_assoc in E.
  destruct (Hl s _ E) as (k & N & c0 & s0 & c' & s1 & HN & Hb & Hc & Hs1); [split; [cbn; set_solver|done]|].
  destruct (back_end c' s1 (lit ";") _ Hs1) as (s2 & Hend & Hs2); [cbn; set_solver|chars|].
  destruct (take_symbol ";"%char s2 _ Hs2) as (s3 & w & s4 & Hp & Hg & Hs4); [set_solver|].
  destruct (Hr s4 t Hs4 Ht) as (N2 & c2 & s5 & HN2 & Hc2 & Hs5).
  exists (S (N + S k + N2)), (LIST c' c2), s5. split; [|cbn [cmd_map]; by rewrite Hc, Hc2]. intros [|fuel] Hf; [lia|].
  cbn [parseline]. rewrite HN by lia. cbn [mbind parsed_bind]. replace fuel with (k + S (fuel - S k)) at 1 by lia.
  rewrite Hb, Hend. cbn [mbind parsed_bind]. change (lit ";") with [";"%char]. by rewrite Hp, Hg, HN2 by lia.
Qed.

Lemma e1_back c : E1 c → E1 (BACK c).
Proof using Hnul.
  intros H1 s r E Hr. cbn [print] in E. cbn [Nat.ltb Nat.leb paren] in E. rewrite <-!app_assoc in E.
  destruct (H1 s _ E) as (k & N & c0 & s0 & c' & s1 & HN & Hb & Hc & Hs1); [split; [cbn; set_solver|done]|].
  destruct (take_symbol "&"%char s1 _ Hs1) as (s2 & w & s3 & Hp & Hg & Hs3); [set_solver|].
  exists (k + 1), N, c0, s0, (BACK c'), s3. split; [done|]. split; [|split; [cbn [cmd_map]; by rewrite Hc|]].
  - intros fuel. rewrite <-Nat.add_assoc, Hb. cbn [Nat.add back_loop]. change (lit "&") with ["&"%char]. by rewrite Hp, Hg.
  - done.
Qed.

Lemma e2_pipe l r : E3 l → E2 r → E2 (PIPE l r).
Proof using Hnul.
  intros Hl Hr s t E Ht. cbn [print] in E. cbn [Nat.ltb Nat.leb paren] in E. rewrite <-!app_assoc in E.
  destruct (Hl [] s _ E) as (N & c' & s1 & HN & Hc & Hs1); [constructor|split; [cbn; set_solver|done]|].
  destruct (take_symbol "|"%char s1 _ Hs1) as (s3 & w & s4 & Hp & Hg & Hs4); [set_solver|].
  destruct (Hr s4 t Hs4 Ht) as (N2 & c2 & s5 & HN2 & Hc2 & Hs5).
  exists (S (N + N2)), (PIPE c' c2), s5. split; [|cbn [cmd_map]; by rewrite Hc, Hc2]. intros [|fuel] Hf; [lia|].
  cbn [parsepipe]. rewrite HN by lia. cbn [mbind parsed_bind]. change (lit "|") with ["|"%char]. by rewrite Hp, Hg, HN2 by lia.
Qed.

Lemma e0_e3 c : print 3 c = lit "(" ++ print 0 c ++ lit ")" → E0 c → E3 c.
Proof using Hnul.
  intros Hpr H0 rs s r E Hrs Hr. rewrite Hpr in E. rewrite <-!app_assoc in E.
  destruct Hr as [Hr Hnw].
  destruct (take_symbol "("%char s _ E) as (s1 & w1 & s2 & Hp1 & _ & _); [set_solver|].
  destruct (peek_at ["("%char] s) as (s1' & Hp1' & Hs1). rewrite Hp1 in Hp1'. injection Hp1' as _ <-. rewrite E in Hs1.
  destruct (take_symbol "("%char s1 _ Hs1) as (s3 & w3 & s4 & Hp3 & Hg3 & Hs4); [set_solver|].
  destruct (H0 s4 _ Hs4) as (N & c' & s5 & HN & Hc & Hs5); [split; [cbn; set_solver|done]|].
  destruct (take_symbol ")"%char s5 _ Hs5) as (s6 & w6 & s7 & Hp6 & Hg6 & Hs7); [set_solver|].
  destruct (redirs_run rs c' s7 r Hs7 Hrs Hnw (follow_redir _ Hr)) as (N2 & c2 & s8 & HN2 & Hc2 & Hs8).
  exists (S (S (N + N2))), c2, s8. rewrite Hc in Hc2. split; [|done]. intros [|[|fuel]] Hf; [lia..|].
  cbn [parseexec]. change (lit "(") with ["("%char]. rewrite Hp1. cbn [parseblock]. change (lit "(") with ["("%char]. rewrite Hp3. cbn [negb].
  rewrite Hg3, HN by lia. cbn [mbind parsed_bind]. change (lit ")") with [")"%char]. rewrite Hp6. cbn [negb]. by rewrite Hg6, HN2 by lia.
Qed.

Lemma e3_exec argv : length argv < MAXARGS → Forall (λ w, word_ok w = true) argv → E3 (EXEC argv).
Proof using Hnul.
  intros Hlen Hargv rs s r E Hrs Ha. pose proof Ha as [Hr Hnw]. cbn [print] in E.
  assert (Hpar : match rest s with c :: _ => strchr (lit "(") c | [] => false end = false).
  { rewrite E. destruct Hargv as [|w ws Hw _]; cbn [fmap list_fmap concat app].
    - destruct rs as [|[[f m] fd] rs]; cbn [print_redirs app].
      + destruct (blanks r) as [|c r']; [done|]. by apply behind_paren.
      + unfold redir_op. destruct (fd =? 0)%Z; [done|]. by destruct (Z.testbit m 10).
    - destruct (word_ok_cons _ Hw) as (c0 & w' & -> & Hc0 & _). destruct (is_word_chars _ Hc0) as [Hsp Hsym].
      rewrite blanks_sp. cbn [app]. rewrite strip_cons, Hsp. apply Hsym. set_solver. }
  destruct (peek_at (lit "(") s) as (s1 & Hp & Hs1). rewrite Hpar in Hp. rewrite E in Hs1.
  destruct Hargv as [|w ws Hw Hws]; cbn [fmap list_fmap concat app length] in *.
  - destruct (redirs_run rs (EXEC []) s1 r Hs1 Hrs Hnw (follow_redir _ Hr)) as (N & c' & s2 & HN & Hc & Hs2).
    destruct (args_end 0 c' s2 _ Hs2 Hr) as (s3 & Hend & Hs3).
    exists (S (S N)), c', s3. split; [|done]. intros [|[|fuel]] Hf; [lia..|]. cbn [parseexec]. rewrite Hp, HN by lia.
    cbn [mbind parsed_bind]. apply Hend.
  - destruct (word_ok_cons _ Hw) as (c0 & w' & Ew & Hc0 & _). destruct (is_word_chars _ Hc0) as [Hsp Hsym].
    assert (Hs1' : rest s1 = w ++ concat ((λ w, SP :: w) <$> ws) ++ print_redirs rs ++ r).
    { rewrite Hs1, <-app_assoc, blanks_sp, Ew. cbn [app]. by rewrite strip_cons, Hsp. }
    destruct (no_redirs (EXEC []) s1) as (s2 & Hno & Hs2); [rewrite Hs1', Ew; apply Hsym; set_solver|]. rewrite Hs1' in Hs2.
    destruct (args_run w ws rs [] s2 r 0 Hs2 Hw Hws Hrs Ha ltac:(lia)) as (N & c' & s3 & HN & Hc & Hs3).
    exists (S (S N)), c', s3. split; [|done]. intros [|[|fuel]] Hf; [lia..|]. cbn [parseexec]. rewrite Hp, Hno.
    cbn [mbind parsed_bind]. apply HN. lia.
Qed.

Lemma e3_redir c f m fd : word_ok f = true → redir_ok m fd = true → E3 c → E3 (REDIR c f m fd).
Proof.
  intros Hf Hm H3 rs s r E Hrs Hr. apply (H3 ((f, m, fd) :: rs) s r); [|by constructor|done].
  rewrite E. cbn [print print_redirs]. by rewrite <-!app_assoc.
Qed.

Lemma levels c : cmd_ok c = true → E0 c ∧ E1 c ∧ E2 c ∧ E3 c.
Proof using Hnul.
  induction c as [argv|c IH f m fd|l IHl r IHr|l IHl r IHr|c IH]; cbn [cmd_ok]; rewrite ?andb_true_iff; intros Hok.
  - destruct Hok as [Hlen Hargv]. apply Nat.ltb_lt in Hlen. rewrite forallb_forall in Hargv.
    assert (H3 : E3 (EXEC argv)) by (apply e3_exec; [done|]; apply Forall_forall; intros w Hw%list_elem_of_In; by apply Hargv).
    assert (H2 : E2 (EXEC argv)) by by apply e3_e2. assert (H1 : E1 (EXEC argv)) by by apply e2_e1. by split; [apply e1_e0|].
  - destruct Hok as [[Hc Hf] Hm]. destruct (IH Hc) as (_ & _ & _ & H3'). pose proof (e3_redir c f m fd Hf Hm H3') as H3.
    assert (H2 : E2 (REDIR c f m fd)) by by apply e3_e2. assert (H1 : E1 (REDIR c f m fd)) by by apply e2_e1. by split; [apply e1_e0|].
  - destruct Hok as [Hl Hr]. destruct (IHl Hl) as (_ & _ & _ & H3l). destruct (IHr Hr) as (_ & _ & H2r & _).
    pose proof (e2_pipe l r H3l H2r) as H2. assert (H1 : E1 (PIPE l r)) by by apply e2_e1.
    assert (H0 : E0 (PIPE l r)) by by apply e1_e0. do 3 (split; [done|]). by apply e0_e3.
  - destruct Hok as [Hl Hr]. destruct (IHl Hl) as (_ & H1l & _). destruct (IHr Hr) as (H0r & _).
    pose proof (e0_list l r H1l H0r) as H0. assert (H3 : E3 (LIST l r)) by by apply e0_e3.
    assert (H2 : E2 (LIST l r)) by by apply e3_e2. split; [done|]. split; [by apply e2_e1|done].
  - destruct (IH Hok) as (_ & H1' & _). pose proof (e1_back c H1') as H1. assert (H0 : E0 (BACK c)) by by apply e1_e0.
    assert (H3 : E3 (BACK c)) by by apply e0_e3. split; [done|]. split; [done|]. split; [by apply e3_e2|done].
Qed.
End Print.

(** *** More fuel *)
Definition le_parsed {A} (r r' : parsed A) : Prop := r = NoFuel ∨ r = r'.

Lemma le_bind {A B} (r r' : parsed A) (f f' : A → parsed B) :
  le_parsed r r' → (∀ a, le_parsed (f a) (f' a)) → le_parsed (r ≫= f) (r' ≫= f').
Proof. intros [-> | ->] Hf; [by left|]. destruct r'; cbn; [apply Hf|by right|by left]. Qed.

Section Fuel.
Context (buf : cstr).

Lemma parseredirs_more fuel fuel' c s : fuel ≤ fuel' → le_parsed (parseredirs buf fuel c s) (parseredirs buf fuel' c s).
Proof.
  revert fuel' c s. induction fuel as [|fuel IH]; intros [|fuel'] c s Hf; [by left|by left|lia|]. cbn [parseredirs].
  repeat case_match; try (by right); (apply IH; lia).
Qed.

Lemma args_loop_more fuel fuel' argc c s : fuel ≤ fuel' → le_parsed (args_loop buf fuel argc c s) (args_loop buf fuel' argc c s).
Proof.
  revert fuel' argc c s. induction fuel as [|fuel IH]; intros [|fuel'] argc c s Hf; [by left|by left|lia|]. cbn [args_loop].
  repeat case_match; try (by right). apply le_bind; [apply parseredirs_more; lia|]. intros [c' s']. apply IH. lia.
Qed.

Lemma back_loop_more fuel fuel' c s : fuel ≤ fuel' → le_parsed (back_loop buf fuel c s) (back_loop buf fuel' c s).
Proof.
  revert fuel' c s. induction fuel as [|fuel IH]; intros [|fuel'] c s Hf; [by left|by left|lia|]. cbn [back_loop].
  repeat case_match; try (by right); (apply IH; lia).
Qed.

Lemma parsers_more fuel : ∀ fuel' s, fuel ≤ fuel' →
  le_parsed (parseline buf fuel s) (parseline buf fuel' s) ∧ le_parsed (parsepipe buf fuel s) (parsepipe buf fuel' s) ∧
  le_parsed (parseexec buf fuel s) (parseexec buf fuel' s) ∧ le_parsed (parseblock buf fuel s) (parseblock buf fuel' s).
Proof.
  induction fuel as [|fuel IH]; intros [|fuel'] s Hf; [split_and!; by left|split_and!; by left|lia|].
  cbn [parseline parsepipe parseexec parseblock]. split_and!.
  - apply le_bind; [apply IH; lia|]. intros [c s1]. apply le_bind; [apply back_loop_more; lia|]. intros [c' s2].
    repeat case_match; try (by right). apply le_bind; [apply IH; lia|]. intros [r s3]. by right.
  - apply le_bind; [apply IH; lia|]. intros [c s1].
    repeat case_match; try (by right). apply le_bind; [apply IH; lia|]. intros [r s3]. by right.
  - repeat case_match; [apply IH; lia|]. apply le_bind; [apply parseredirs_more; lia|]. intros [c s1]. apply args_loop_more. lia.
  - repeat case_match; try (by right). apply le_bind; [apply IH; lia|]. intros [c s3].
    repeat case_match; try (by right). apply parseredirs_more. lia.
Qed.
End Fuel.

(** *** Round trip *)
(** What a printed line does not have. *)
Definition plain (x : ascii) : Prop := x ∉ [NUL; NL; CR; TAB].

Lemma print_plain c lvl x : cmd_ok c = true → x ∈ print lvl c → plain x.
Proof.
  assert (Hl : ∀ s, forallb (λ x, negb (strchr [NUL; NL; CR; TAB] x)) (lit s) = true → x ∈ lit s → plain x).
  { intros s Hs Hx%list_elem_of_In. rewrite forallb_forall in Hs. apply Hs in Hx. apply negb_true_iff in Hx.
    intros Hin%strchr_elem. congruence. }
  assert (Hp : ∀ b t, (x ∈ t → plain x) → x ∈ paren b t → plain x).
  { intros b t Ht. unfold paren. destruct b; [|done]. rewrite !elem_of_app. intros [H|[H|H]]; [exact (Hl "(" eq_refl H)|auto|exact (Hl ")" eq_refl H)]. }
  assert (Hw : ∀ w, word_ok w = true → x ∈ w → plain x).
  { intros w Hw Hx. destruct (word_ok_cons w Hw) as (? & ? & _ & _ & _ & Hall & Hn). rewrite forallb_forall in Hall.
    apply list_elem_of_In in Hx as Hx'. destruct (is_word_chars _ (Hall x Hx')) as [Hs _].
    unfold plain. rewrite !not_elem_of_cons. repeat split; try (intros ->; done). apply not_elem_of_nil. }
  revert lvl. induction c as [argv|c IH f m fd|l IHl r IHr|l IHl r IHr|c IH]; intros lvl; cbn [cmd_ok print]; rewrite ?andb_true_iff; intros Hok.
  - destruct Hok as [_ Hok]. induction argv as [|w ws IH]; cbn in *; [by intros ?%not_elem_of_nil|].
    apply andb_true_iff in Hok as [H1 H2]. intros [H|[H|H]%elem_of_app]%elem_of_cons; [subst; apply (Hl " " eq_refl); by left|by apply (Hw w)|by apply IH].
  - destruct Hok as [[Hc Hf] _]. rewrite !elem_of_app. intros [H|[H|H]]; [by apply (IH 3 Hc)| |by apply (Hw f)].
    unfold redir_op in H. destruct (fd =? 0)%Z; [exact (Hl " < " eq_refl H)|]. destruct (Z.testbit m 10); [exact (Hl " > " eq_refl H)|exact (Hl " >> " eq_refl H)].
  - destruct Hok as [H1 H2]. apply Hp. rewrite !elem_of_app. intros [H|[H|H]]; [by apply (IHl 3 H1)|exact (Hl "|" eq_refl H)|by apply (IHr 2 H2)].
  - destruct Hok as [H1 H2]. apply Hp. rewrite !elem_of_app. intros [H|[H|H]]; [by apply (IHl 1 H1)|exact (Hl ";" eq_refl H)|by apply (IHr 0 H2)].
  - apply Hp. rewrite !elem_of_app. intros [H|H]; [by apply (IH 1 Hok)|exact (Hl "&" eq_refl H)].
Qed.

Lemma blanks_all t : forallb is_space t = true → blanks t = [] ∧ (NUL ∉ t) ∧ match t with c :: _ => is_word c = false | [] => True end.
Proof.
  intros Ht. split; [unfold strip; by rewrite span_all, drop_all|]. rewrite forallb_forall in Ht. split.
  - intros Hin%list_elem_of_In. by apply Ht in Hin.
  - destruct t as [|c t]; [done|]. unfold is_word. specialize (Ht c (or_introl eq_refl)). unfold is_space in Ht. by rewrite Ht.
Qed.

Lemma parse_read c t buf :
  cmd_ok c = true → forallb is_space t = true → NUL ∉ buf → blanks buf = blanks (print 0 c ++ t) → read_back (parsecmd buf) = Done c.
Proof.
  intros Hok Ht Hnul Hbuf. destruct (blanks_all t Ht) as (Hb & Hnt & Hw).
  destruct (levels buf Hnul c Hok) as (H0 & _).
  destruct (H0 0 t) as (N & c' & s' & HN & Hc & Hs'); [done|split; [by rewrite Hb|done]|]. rewrite Hb in Hs'.
  destruct (parsers_end buf Hnul (4 * length buf + 8)) as (Hend & _). specialize (Hend 0 ltac:(lia) ltac:(lia)).
  destruct (parsers_more buf (4 * length buf + 8) (N + (4 * length buf + 8)) 0 ltac:(lia)) as ([Hno|Heq] & _); [by rewrite Hno in Hend|].
  unfold parsecmd, parse_all. rewrite Heq in *. rewrite HN in * by lia. cbn [mbind parsed_bind ends] in *. destruct Hend as [Hle Hgood].
  destruct (peek buf [] s') as [b s2] eqn:E2. injection E2 as _ <-.
  pose proof (skip_le buf is_space s' (proj2 Hle)) as Hsk.
  assert (Hlen : length (drop (skip buf is_space s') buf) = 0) by (by rewrite rest_skip, Hs').
  rewrite length_drop in Hlen. replace (skip buf is_space s') with (length buf) by lia. rewrite Nat.eqb_refl.
  cbn [negb mbind parsed_bind read_back]. f_equal. rewrite <-Hc, nulterminate_words. apply cmd_map_ext. intros w Hin.
  by apply string_of_word.
Qed.

Lemma print_line_no_nul c t : cmd_ok c = true → forallb is_space t = true → NUL ∉ print 0 c ++ t.
Proof. intros Hok Ht. destruct (blanks_all t Ht) as (_ & Hnt & _). intros [H|H]%elem_of_app; [|done]. apply (print_plain c 0 _ Hok H). by left. Qed.

(** C21: parsing undoes printing: for every command tree whose words have no blanks, symbols and NULs, with at most nine
    words in a command and the three kinds of redirection, the parser reads the printed line, with parentheses where the
    tree needs them and a newline or other blanks behind it, as this tree: every pointer it leaves is to the text of the
    word, NUL-terminated. *)
Theorem parse_print c t :
  cmd_ok c = true → forallb is_space t = true → read_back (parsecmd (print 0 c ++ t)) = Done c.
Proof. intros Hok Ht. by apply (parse_read c t); [..|apply print_line_no_nul|]. Qed.

Lemma parse_print_witness :
  cmd_ok sample = true ∧ print 0 sample ++ [NL] = lit " cat x < in|( wc; ls) >> out&; echo" ++ [NL] ∧
  read_back (parsecmd (print 0 sample ++ [NL])) = Done sample.
Proof. split; [reflexivity|]. split; [reflexivity|]. apply (parse_print sample [NL]); reflexivity. Defined.

Lemma parsecmd_ends_witness :
  match parsecmd (lit "ls|wc>out&") with
  | Done (c, mem) => cmd_map (string_at mem) c = cmd_map (slice (lit "ls|wc>out&")) c
  | _ => False
  end.
Proof.
  pose proof (parsecmd_ends (lit "ls|wc>out&") ltac:(apply (bool_decide_unpack _); vm_compute; exact I)) as H.
  destruct (parsecmd (lit "ls|wc>out&")) as [[c mem]|out|] eqn:E; [exact (proj1 H)|vm_compute in E; discriminate E|exact H].
Defined.
