(* ===== verification/Shrun.v ===== *)
(** * How the xv6 shell runs a command (xv6/user/sh.c, gets of xv6/user/ulib.c)

    A process is the sequence of what it does until it execs or exits; a fork
    has the whole life of the child.  The descriptors are its own.  What may fail
    is asked of [env], by the place of the process in the tree of processes. *)

From S2P Require Import Prelude Sh.

#[local] Set Warnings "-clear-no-such-hyp".
#[local] Set Default Proof Using "Type".
Local Open Scope nat_scope.

(** An open file; a pipe is called by the process that made it. *)
Inductive ofile :=
  | Shared (n : nat)
  | Opened (path : cstr) (mode : Z)
  | PipeRead (by_ : list nat)
  | PipeWrite (by_ : list nat).

(** The descriptors of a process. *)
Definition table : Type := list (option ofile).

Definition close (fd : nat) (t : table) : table := <[fd := None]> t.

Fixpoint lowest_free (t : table) : option nat :=
  match t with
  | [] => None
  | None :: _ => Some 0
  | Some _ :: t => S <$> lowest_free t
  end.

Definition install (f : ofile) (t : table) : option (nat * table) :=
  fd ← lowest_free t; Some (fd, <[fd := Some f]> t).

(** The results of [dup] and [close] are not looked at. *)
Definition dup (fd : nat) (t : table) : table :=
  match t !! fd with
  | Some (Some f) => match install f t with Some (_, t) => t | None => t end
  | _ => t
  end.

Inductive process :=
  | Run (argv : list cstr) (t : table)
  | Exit (status : Z) (out : cstr)
  | Fork (child rest : process)
  | Wait (rest : process).

Record env := { fork_ok : list nat → nat → bool; pipe_ok : list nat → bool; open_ok : list nat → cstr → Z → bool; exec_ok : list nat → cstr → bool }.

Section Run.
Context (e : env).

(** [fork1]: the [n]-th fork of the process [p]; the child is [n :: p]. *)
Definition fork1 (p : list nat) (n : nat) (child rest : process) : process :=
  if fork_ok e p n then Fork child rest else Exit 1 (lit "fork" ++ [NL]).

Definition pipe (p : list nat) (t : table) : option (nat * nat * table) :=
  if pipe_ok e p then
    '(fd0, t) ← install (PipeRead p) t;
    '(fd1, t) ← install (PipeWrite p) t;
    Some (fd0, fd1, t)
  else None.

Definition exec (p : list nat) (argv : list cstr) (t : table) : process :=
  match argv with
  | [] => Exit 1 []
  | prog :: _ =>
      if exec_ok e p prog then Run argv t
      else Exit 0 (lit "exec " ++ prog ++ lit " failed" ++ [NL])
  end.

Definition open_file (p : list nat) (path : cstr) (mode : Z) (t : table) : option table :=
  if open_ok e p path mode then snd <$> install (Opened path mode) t else None.

(** [REDIR]: a file of no known descriptor would be closed at [Z.to_nat]; the parser makes 0 and 1. *)
Fixpoint runcmd (p : list nat) (c : cmd cstr) (t : table) : process :=
  match c with
  | EXEC argv => exec p argv t
  | REDIR c file mode fd =>
      match open_file p file mode (close (Z.to_nat fd) t) with
      | Some t => runcmd p c t
      | None => Exit 1 (lit "open " ++ file ++ lit " failed" ++ [NL])
      end
  | LIST l r =>
      fork1 p 0 (runcmd (0 :: p) l t) (Wait (runcmd (1 :: p) r t))
  | PIPE l r =>
      match pipe p t with
      | None => Exit 1 (lit "pipe" ++ [NL])
      | Some (fd0, fd1, t) =>
          fork1 p 0 (runcmd (0 :: p) l (close fd1 (close fd0 (dup fd1 (close 1 t)))))
            (fork1 p 1 (runcmd (1 :: p) r (close fd1 (close fd0 (dup fd0 (close 0 t)))))
              (Wait (Wait (Exit 0 []))))
      end
  | BACK c => fork1 p 0 (runcmd (0 :: p) c t) (Exit 0 [])
  end.
End Run.

(** ** The loop of main *)
Definition LINE : nat := 100.

(** One byte at a time, up to a newline or a carriage return; the second: what is not read yet. *)
Fixpoint gets (room : nat) (input : cstr) : cstr * cstr :=
  match room with
  | O | 1 => ([], input)
  | S room =>
      match input with
      | [] => ([], [])
      | c :: input =>
          if (c =? NL)%char || (c =? CR)%char then ([c], input)
          else let (l, rest) := gets room input in (c :: l, rest)
      end
  end.

(** The C string in the buffer; [None]: it is empty, the end of the input. *)
Definition getcmd (input : cstr) : option cstr * cstr :=
  let (buf, rest) := gets LINE input in
  let s := take (span (λ c, negb (c =? NUL)%char) buf) buf in
  (if bool_decide (s = []) then None else Some s, rest).

Inductive action :=
  | Blank
  | Chdir (dir : cstr)
  | Command (c : parsed (cmd word * cstr)).

Definition main_line (buf : cstr) : action :=
  let cmd := drop (span (λ c, (c =? SP)%char || (c =? TAB)%char) buf) buf in
  if bool_decide (head cmd = Some NL) then Blank
  else if bool_decide (take 3 cmd = lit "cd ") then Chdir (drop 3 (take (length cmd - 1) cmd))
  else Command (parsecmd cmd).

Fixpoint main_loop (fuel : nat) (input : cstr) : list action :=
  match fuel with
  | O => []
  | S fuel =>
      match getcmd input with
      | (Some buf, rest) => main_line buf :: main_loop fuel rest
      | (None, _) => []
      end
  end.

(** The child of a command: an error of the parser ends it. *)
Definition start_command (e : env) (c : parsed (cmd word * cstr)) (t : table) : process :=
  match c with
  | Done (c, mem) => runcmd e [] (cmd_map (string_at mem) c) t
  | Panic out => Exit 1 out
  | NoFuel => Exit 1 []
  end.

(** ** What is started

    The programs of a process and of its children, with their descriptors. *)
Fixpoint programs (p : process) : list (list cstr * table) :=
  match p with
  | Run argv t => [(argv, t)]
  | Exit _ _ => []
  | Fork child rest => programs child ++ programs rest
  | Wait rest => programs rest
  end.

(** What a command means: the programs with their standard input and output. *)
Fixpoint plumb (p : list nat) (c : cmd cstr) (i o : ofile) : list (list cstr * (ofile * ofile)) :=
  match c with
  | EXEC [] => []
  | EXEC argv => [(argv, (i, o))]
  | REDIR c file mode fd =>
      if (fd =? 0)%Z then plumb p c (Opened file mode) o else plumb p c i (Opened file mode)
  | LIST l r => plumb (0 :: p) l i o ++ plumb (1 :: p) r i o
  | PIPE l r => plumb (0 :: p) l i (PipeWrite p) ++ plumb (1 :: p) r (PipeRead p) o
  | BACK c => plumb (0 :: p) c i o
  end.

(** Descriptors 0 and 1 on [i] and [o], the others as the shell has them. *)
Definition wired (rest : table) (x : list cstr * (ofile * ofile)) : list cstr * table :=
  (x.1, Some x.2.1 :: Some x.2.2 :: rest).

(** The redirections that the parser makes. *)
Fixpoint redirs_fine (c : cmd cstr) : Prop :=
  match c with
  | EXEC _ => True
  | REDIR c _ _ fd => (fd = 0 ∨ fd = 1)%Z ∧ redirs_fine c
  | PIPE l r => redirs_fine l ∧ redirs_fine r
  | LIST l r => redirs_fine l ∧ redirs_fine r
  | BACK c => redirs_fine c
  end.

(** Two free descriptors are enough for the pipes, however deep they nest. *)
Definition two_free (rest : table) : Prop := ∃ a b d, rest = (Some <$> a) ++ None :: (Some <$> b) ++ None :: d.

Lemma lowest_free_app a t : lowest_free ((Some <$> a) ++ None :: t) = Some (length a).
Proof. induction a as [|x a IH]; [done|]. cbn. by rewrite IH. Qed.

Lemma insert_at (a : list ofile) (x v : option ofile) t : <[length a := v]> ((Some <$> a) ++ x :: t) = (Some <$> a) ++ v :: t.
Proof. induction a as [|y a IH]; [done|]. cbn. f_equal. apply IH. Qed.

Lemma lookup_at (a : list ofile) (x : option ofile) t : ((Some <$> a) ++ x :: t) !! length a = Some x.
Proof. induction a as [|y a IH]; [done|]. apply IH. Qed.

Lemma install_app f a t : install f ((Some <$> a) ++ None :: t) = Some (length a, (Some <$> a) ++ Some f :: t).
Proof. unfold install. rewrite lowest_free_app. cbn [mbind option_bind]. by rewrite insert_at. Qed.

Section Wiring.
Context (e : env).

Lemma pipe_spec p i o rest :
  two_free rest → pipe_ok e p = true →
  ∃ fd0 fd1 t, pipe e p (Some i :: Some o :: rest) = Some (fd0, fd1, t) ∧
    close fd1 (close fd0 (dup fd1 (close 1 t))) = Some i :: Some (PipeWrite p) :: rest ∧
    close fd1 (close fd0 (dup fd0 (close 0 t))) = Some (PipeRead p) :: Some o :: rest.
Proof.
  intros (a & b & d & ->) Hok. set (r := (Some <$> a) ++ Some (PipeRead p) :: (Some <$> b) ++ Some (PipeWrite p) :: d).
  set (fd0 := S (S (length a))). set (fd1 := S (S (length a + S (length b)))).
  exists fd0, fd1, (Some i :: Some o :: r).
  assert (Er : r = (Some <$> a ++ PipeRead p :: b) ++ Some (PipeWrite p) :: d) by (unfold r; by rewrite fmap_app, <-app_assoc).
  assert (Hlen : length a + S (length b) = length (a ++ PipeRead p :: b)) by by rewrite length_app.
  assert (H0 : r !! length a = Some (Some (PipeRead p))) by apply lookup_at.
  assert (H1 : r !! (length a + S (length b)) = Some (Some (PipeWrite p))) by (rewrite Er, Hlen; apply lookup_at).
  assert (Hclose : <[length a + S (length b) := None]> (<[length a := None]> r) = (Some <$> a) ++ None :: (Some <$> b) ++ None :: d).
  { rewrite list_insert_insert_ne by lia. rewrite Er, Hlen, insert_at. rewrite fmap_app, <-app_assoc. cbn [fmap list_fmap app]. apply insert_at. }
  split; [|split].
  - unfold pipe. rewrite Hok.
    change (Some i :: Some o :: (Some <$> a) ++ None :: (Some <$> b) ++ None :: d) with ((Some <$> i :: o :: a) ++ None :: (Some <$> b) ++ None :: d).
    rewrite install_app. cbn [mbind option_bind length].
    replace ((Some <$> i :: o :: a) ++ Some (PipeRead p) :: (Some <$> b) ++ None :: d)
      with ((Some <$> i :: o :: a ++ PipeRead p :: b) ++ None :: d) by (cbn; by rewrite fmap_app, <-app_assoc).
    rewrite install_app. cbn [mbind option_bind length]. rewrite length_app. cbn [length]. unfold r. cbn. by rewrite fmap_app, <-app_assoc.
  - unfold dup, close. change (<[1 := None]> (Some i :: Some o :: r)) with (Some i :: None :: r).
    change ((Some i :: None :: r) !! fd1) with (r !! (length a + S (length b))). rewrite H1.
    change (install (PipeWrite p) (Some i :: None :: r)) with (Some (1, Some i :: Some (PipeWrite p) :: r)).
    rewrite <-Hclose. reflexivity.
  - unfold dup, close. change (<[0 := None]> (Some i :: Some o :: r)) with (None :: Some o :: r).
    change ((None :: Some o :: r) !! fd0) with (r !! length a). rewrite H0.
    change (install (PipeRead p) (None :: Some o :: r)) with (Some (0, Some (PipeRead p) :: Some o :: r)).
    rewrite <-Hclose. reflexivity.
Qed.

Lemma pipe_wired p i o rest :
  two_free rest →
  match pipe e p (Some i :: Some o :: rest) with
  | Some (fd0, fd1, t) =>
      pipe_ok e p = true ∧ close fd1 (close fd0 (dup fd1 (close 1 t))) = Some i :: Some (PipeWrite p) :: rest ∧
      close fd1 (close fd0 (dup fd0 (close 0 t))) = Some (PipeRead p) :: Some o :: rest
  | None => pipe_ok e p = false
  end.
Proof.
  intros H. destruct (pipe_ok e p) eqn:Hok.
  - destruct (pipe_spec p i o rest H Hok) as (fd0 & fd1 & t & -> & H1 & H2). done.
  - unfold pipe. by rewrite Hok.
Qed.

Lemma open_wired p path mode fd i o rest :
  (fd = 0 ∨ fd = 1)%Z →
  open_file e p path mode (close (Z.to_nat fd) (Some i :: Some o :: rest)) =
    if open_ok e p path mode then
      Some (if (fd =? 0)%Z then Some (Opened path mode) :: Some o :: rest else Some i :: Some (Opened path mode) :: rest)
    else None.
Proof. intros [-> | ->]; unfold open_file; by destruct (open_ok e p path mode). Qed.

(** Everything the environment is asked succeeds. *)
Definition all_ok : Prop :=
  (∀ p n, fork_ok e p n = true) ∧ (∀ p, pipe_ok e p = true) ∧ (∀ p path mode, open_ok e p path mode = true) ∧ (∀ p prog, exec_ok e p prog = true).

Lemma programs_fork p n child rest :
  ∃ b, programs (fork1 e p n child rest) = (if b : bool then programs child ++ programs rest else []) ∧ (all_ok → b = true).
Proof.
  exists (fork_ok e p n). unfold fork1. split; [by destruct (fork_ok e p n)|]. intros (H & _). apply H.
Qed.

Lemma runcmd_wired p c i o rest :
  redirs_fine c → two_free rest →
  programs (runcmd e p c (Some i :: Some o :: rest)) `sublist_of` (wired rest <$> plumb p c i o) ∧
  (all_ok → programs (runcmd e p c (Some i :: Some o :: rest)) = wired rest <$> plumb p c i o).
Proof.
  intros Hc Hr. revert p i o Hc. induction c as [argv|c IH f m fd|l IHl r IHr|l IHl r IHr|c IH]; intros p i o Hc; cbn [runcmd plumb redirs_fine] in *.
  - unfold exec. destruct argv as [|prog argv]; [done|]. destruct (exec_ok e p prog) eqn:E; [done|]. split; [apply sublist_nil_l|].
    intros (_ & _ & _ & H). by rewrite H in E.
  - destruct Hc as [Hfd Hc]. rewrite open_wired by done. destruct (open_ok e p f m) eqn:E.
    + destruct (fd =? 0)%Z; by apply IH.
    + split; [apply sublist_nil_l|]. intros (_ & _ & H & _). by rewrite H in E.
  - destruct Hc as [Hl Hr']. pose proof (pipe_wired p i o rest Hr) as Hp. destruct (pipe e p _) as [[[fd0 fd1] t]|].
    2: { split; [apply sublist_nil_l|]. intros (_ & H & _). by rewrite H in Hp. }
    destruct Hp as (_ & -> & ->). destruct (IHl (0 :: p) i (PipeWrite p) Hl) as [Hl1 Hl2]. destruct (IHr (1 :: p) (PipeRead p) o Hr') as [Hr1 Hr2].
    rewrite fmap_app. match goal with |- context [fork1 e p 0 ?ch ?re] => destruct (programs_fork p 0 ch re) as ([|] & -> & H0) end.
    2: { split; [apply sublist_nil_l|]. intros H. by specialize (H0 H). }
    match goal with |- context [fork1 e p 1 ?ch ?re] => destruct (programs_fork p 1 ch re) as ([|] & -> & H1) end; cbn [programs].
    + rewrite app_nil_r. split; [by apply sublist_app|]. intros H. by rewrite Hl2, Hr2.
    + split; [|intros H; by specialize (H1 H)]. apply sublist_app; [done|apply sublist_nil_l].
  - destruct Hc as [Hl Hr']. destruct (IHl (0 :: p) i o Hl) as [Hl1 Hl2]. destruct (IHr (1 :: p) i o Hr') as [Hr1 Hr2]. rewrite fmap_app.
    match goal with |- context [fork1 e p 0 ?ch ?re] => destruct (programs_fork p 0 ch re) as ([|] & -> & H0) end; cbn [programs].
    + split; [by apply sublist_app|]. intros H. by rewrite Hl2, Hr2.
    + split; [apply sublist_nil_l|]. intros H. by specialize (H0 H).
  - destruct (IH (0 :: p) i o Hc) as [H1 H2].
    match goal with |- context [fork1 e p 0 ?ch ?re] => destruct (programs_fork p 0 ch re) as ([|] & -> & H0) end; cbn [programs].
    + by rewrite app_nil_r.
    + split; [apply sublist_nil_l|]. intros H. by specialize (H0 H).
Qed.

(** C22: every program of a command line starts with exactly its descriptors: standard input and output are what the
    redirections and pipes of the command say, and of the pipes nothing else stays open in it, so a reader sees the end of
    its pipe. Whatever forks, pipes, files and programs fail, only programs of the command are started, with these
    descriptors and in this order; all of them are when nothing fails. *)
Theorem runcmd_wiring p c i o rest :
  redirs_fine c → two_free rest →
  programs (runcmd e p c (Some i :: Some o :: rest)) `sublist_of` (wired rest <$> plumb p c i o) ∧
  (all_ok → programs (runcmd e p c (Some i :: Some o :: rest)) = wired rest <$> plumb p c i o).
Proof. apply runcmd_wired. Qed.
End Wiring.

(** ** From the bytes read to the programs *)
Lemma gets_line room l input : length l < room - 1 → NL ∉ l → CR ∉ l → gets room (l ++ NL :: input) = (l ++ [NL], input).
Proof.
  revert room. induction l as [|c l IH]; intros room Hlen Hnl Hcr; (destruct room as [|[|room]]; [cbn in Hlen; lia..|]); cbn [app].
  - done.
  - apply not_elem_of_cons in Hnl as [Hc1 Hnl], Hcr as [Hc2 Hcr]. cbn [gets].
    destruct (Ascii.eqb_spec c NL); [congruence|]. destruct (Ascii.eqb_spec c CR); [congruence|]. cbn [orb].
    change (match room with O => ([], l ++ NL :: input) | S _ => _ end) with (gets (S room) (l ++ NL :: input)).
    rewrite IH; [done|cbn in *; lia|done|done].
Qed.

Lemma getcmd_line l input :
  length l < LINE - 1 → NL ∉ l → CR ∉ l → NUL ∉ l → getcmd (l ++ NL :: input) = (Some (l ++ [NL]), input).
Proof.
  intros Hlen Hnl Hcr Hnul. unfold getcmd. rewrite gets_line by done.
  rewrite span_all; [rewrite take_ge by done|].
  - by rewrite bool_decide_eq_false_2 by by destruct l.
  - apply forallb_forall. intros c Hc%list_elem_of_In. apply negb_true_iff, Ascii.eqb_neq. intros ->.
    apply elem_of_app in Hc as [Hc|Hc]; [done|]. by apply list_elem_of_singleton in Hc.
Qed.

Lemma span_app_stop p l x : drop (span p l) l ≠ [] → span p (l ++ [x]) = span p l.
Proof. induction l as [|c l IH]; cbn; [done|]. destruct (p c); [|done]. intros H. by rewrite IH. Qed.

Lemma cmd_ok_fine c : cmd_ok c = true → redirs_fine c.
Proof.
  induction c as [argv|c IH f m fd|l IHl r IHr|l IHl r IHr|c IH]; cbn [cmd_ok redirs_fine]; rewrite ?andb_true_iff; [done|..|done].
  - intros [[H1 _] H2]. split; [|auto]. unfold redir_ok in H2. destruct (Z.eqb_spec fd 0); [by left|].
    destruct (Z.eqb_spec fd 1); [by right|]. done.
  - intros [H1 H2]; auto.
  - intros [H1 H2]; auto.
Qed.

(** Leading spaces and tabs change nothing for the parser. *)
Lemma blanks_skip l : blanks (drop (span (λ c, (c =? SP)%char || (c =? TAB)%char) l) l) = blanks l.
Proof.
  induction l as [|c l IH]; [done|]. cbn [span]. destruct ((c =? SP)%char || (c =? TAB)%char) eqn:E; [|done].
  cbn [drop]. rewrite IH, strip_cons. replace (is_space c) with true; [done|].
  apply orb_true_iff in E as [->%Ascii.eqb_eq | ->%Ascii.eqb_eq]; done.
Qed.

(** the shell from its input to its programs: when the next line is a printed command tree, not blank and not a [cd],
    of fewer than 100 bytes, the loop of main takes exactly this line, parses it as the tree, and the child it forks starts
    the programs of the tree with the descriptors the tree says. *)
Theorem shell_line e c input fuel i o rest :
  let line := print 0 c in
  let cmd := drop (span (λ c, (c =? SP)%char || (c =? TAB)%char) line) line in
  cmd_ok c = true → length line < LINE - 1 → cmd ≠ [] → take 3 cmd ≠ lit "cd " → two_free rest → all_ok e →
  ∃ p, main_loop (S fuel) (line ++ NL :: input) = Command p :: main_loop fuel input ∧
    programs (start_command e p (Some i :: Some o :: rest)) = wired rest <$> plumb [] c i o.
Proof.
  intros line cmd Hok Hlen Hne Hcd Hrest He. assert (Hpl : ∀ x, x ∈ line → plain x) by (intros x; by apply print_plain).
  assert (Hno : ∀ x, x ∈ [NUL; NL; CR; TAB] → x ∉ line) by (intros x Hx Hin; by apply (Hpl x Hin)).
  cbn [main_loop]. rewrite getcmd_line by (done || (apply Hno; set_solver)).
  set (buf := line ++ [NL]). assert (Hcmd : drop (span (λ c, (c =? SP)%char || (c =? TAB)%char) buf) buf = cmd ++ [NL]).
  { unfold buf, cmd. rewrite span_app_stop by exact Hne. rewrite drop_app_le; [done|apply span_le]. }
  assert (Hsub : ∀ x, x ∈ cmd → x ∈ line) by (intros x; unfold cmd; rewrite <-(take_drop (span (λ c, (c =? SP)%char || (c =? TAB)%char) line) line) at 3; intros Hx; apply elem_of_app; by right).
  unfold main_line. rewrite Hcmd, !bool_decide_eq_false_2.
  - eexists. split; [reflexivity|]. assert (Hrd : read_back (parsecmd (cmd ++ [NL])) = Done c).
    { apply (parse_read c [NL]); [done|done| |].
      - intros [Hin|Hin]%elem_of_app; [|by apply list_elem_of_singleton in Hin]. apply Hsub in Hin. revert Hin. apply Hno. by left.
      - rewrite <-Hcmd. apply blanks_skip. }
    destruct (parsecmd (cmd ++ [NL])) as [[c' mem]|out|]; [|done..]. cbn in Hrd. injection Hrd as Hrd. cbn [start_command].
    rewrite Hrd. apply runcmd_wired; [by apply cmd_ok_fine|done|done].
  - intros Ht. apply Hcd. destruct (decide (3 <= length cmd)); [by rewrite take_app_le in Ht|].
    destruct cmd as [|a [|b [|d cmd']]]; [done|by injection Ht|by injection Ht|cbn in *; lia].
  - destruct cmd as [|x cmd']; [done|]. cbn. intros [= ->]. apply (Hno NL); [set_solver|]. apply Hsub. by left.
Qed.

Definition quiet_env : env :=
  {| fork_ok := λ _ _, true; pipe_ok := λ _, true; open_ok := λ _ _ _, true; exec_ok := λ _ _, true |}.

Definition shell_table : table := replicate 13 None.

Lemma shell_table_free : two_free (Some (Shared 0) :: shell_table).
Proof. by exists [Shared 0], [], (replicate 11 None). Qed.

Lemma runcmd_wiring_witness :
  redirs_fine sample ∧
  programs (runcmd quiet_env [] sample (Some (Shared 0) :: Some (Shared 0) :: Some (Shared 0) :: shell_table)) =
    wired (Some (Shared 0) :: shell_table) <$> plumb [] sample (Shared 0) (Shared 0).
Proof.
  split; [cbn; tauto|]. apply (runcmd_wiring quiet_env [] sample (Shared 0) (Shared 0)); [cbn; tauto|apply shell_table_free|done].
Defined.

Lemma shell_line_witness : ∃ p,
  main_loop 2 (lit " cat x < in|( wc; ls) >> out&; echo" ++ NL :: lit "ls") = Command p :: main_loop 1 (lit "ls") ∧
  length (programs (start_command quiet_env p (Some (Shared 0) :: Some (Shared 0) :: Some (Shared 0) :: shell_table))) = 4.
Proof.
  destruct (shell_line quiet_env sample (lit "ls") 1 (Shared 0) (Shared 0) (Some (Shared 0) :: shell_table)) as (p & H1 & H2);
    [reflexivity|apply Nat.ltb_lt; reflexivity|discriminate|discriminate|apply shell_table_free|done|].
  exists p. split; [exact H1|]. rewrite H2. reflexivity.
Defined.
