(* ===== verification/Exec.v ===== *)
(** * Running a program (xv6/kernel/exec.c)

    [kexec] reads a file through the inode layer and makes an address space: its
    state is physical memory, the files and the fields of the process that it
    sets.  The structs of elf.h are read from the bytes that [readi] gives.  The
    arguments are the C strings of [argv] without their NULs, fewer than [MAXARG]
    of them. *)

From S2P Require Export Vm.
From S2P Require Import Sysfile.
From S2P Require KString.

#[local] Set Warnings "-clear-no-such-hyp".
#[local] Set Default Proof Using "Type".
Local Open Scope Z_scope.

Definition ELF_MAGIC : Z := 0x464C457F.
Definition ELF_PROG_LOAD : Z := 1.
Definition USERSTACK : Z := 1.
Definition MAXARG : nat := 32.
Definition ELFHDR : Z := 64.
Definition PROGHDR : Z := 56.

(** The process. *)
Record xproc := { x_pagetable : Z; x_sz : Z; x_trapframe : Z; x_name : list Z; x_epc : Z; x_sp : Z; x_a1 : Z }.

Record machine := { m_mem : kmem; m_files : kernel; m_proc : xproc }.

Definition m_set_mem (k : kmem) (s : machine) : machine := {| m_mem := k; m_files := m_files s; m_proc := m_proc s |}.
Definition m_set_files (f : kernel) (s : machine) : machine := {| m_mem := m_mem s; m_files := f; m_proc := m_proc s |}.
Definition m_set_proc (p : xproc) (s : machine) : machine := {| m_mem := m_mem s; m_files := m_files s; m_proc := p |}.

Abbreviation X A := (M machine stop A).

Definition in_mem {A} (m : V A) : X A := λ s,
  match m (m_mem s) with
  | (Ret a, k) => (Ret a, m_set_mem k s)
  | (Err e, k) => (Err (Panic e), m_set_mem k s)
  | (NoFuel, k) => (NoFuel, m_set_mem k s)
  end.

Definition in_files {A} (m : K A) : X A := λ s, let (r, f) := m (m_files s) in (r, m_set_files f s).

(** ** The structs of an ELF file *)
Definition field (off n : nat) (bs : list Z) : Z := le_value (take n (drop off bs)).

Definition elf_magic : list Z → Z := field 0 4.
Definition elf_entry : list Z → Z := field 24 8.
Definition elf_phoff : list Z → Z := field 32 8.
Definition elf_phnum : list Z → Z := field 56 2.

Definition ph_type : list Z → Z := field 0 4.
Definition ph_flags : list Z → Z := field 4 4.
Definition ph_off : list Z → Z := field 8 8.
Definition ph_vaddr : list Z → Z := field 16 8.
Definition ph_filesz : list Z → Z := field 32 8.
Definition ph_memsz : list Z → Z := field 40 8.

Definition flags2perm (flags : Z) : Z :=
  let perm := if has flags 1 then PTE_X else 0 in
  if has flags 2 then Z.lor perm PTE_W else perm.

(** The array of pointers, as bytes. *)
Definition words (l : list Z) : list Z := concat (le_bytes 8 <$> l).

Section Exec.
Context (me : Z) (junk : list Z) (kend trampoline : Z).

Definition kread (ip : nat) (off n : Z) : X (Z * list Z) := in_files (fsop (readi to_kernel ip off n)).

Fixpoint loadseg_loop (fuel : nat) (pagetable va : Z) (ip : nat) (offset sz i : Z) : X Z :=
  if i <? sz then
    match fuel with
    | O => nofuel
    | S fuel =>
        pa ← in_mem (walkaddr pagetable (u64 (va + i)));
        if pa =? 0 then throw (Panic "loadseg: address should exist")
        else
          let n := if sz - i <? PGSIZE then sz - i else PGSIZE in
          '(r, bs) ← kread ip (u32 (offset + i)) n;
          in_mem (store_bytes pa bs);;
          if negb (r =? n) then mret (-1)
          else loadseg_loop fuel pagetable va ip offset sz (u32 (i + PGSIZE))
    end
  else mret 0.

Definition loadseg (pagetable va : Z) (ip : nat) (offset sz : Z) : X Z :=
  loadseg_loop (Z.to_nat (sz / PGSIZE + 1)) pagetable va ip offset sz 0.

(** The headers from [off] on; the result: whether all is well, and [sz]. *)
Fixpoint load_segments (phnum : nat) (pagetable : Z) (ip : nat) (off sz : Z) : X (bool * Z) :=
  match phnum with
  | O => mret (true, sz)
  | S phnum =>
      '(r, ph) ← kread ip (u32 off) PROGHDR;
      if negb (r =? PROGHDR) then mret (false, sz)
      else if negb (ph_type ph =? ELF_PROG_LOAD) then load_segments phnum pagetable ip (i32 (off + PROGHDR)) sz
      else if ph_memsz ph <? ph_filesz ph then mret (false, sz)
      else if u64 (ph_vaddr ph + ph_memsz ph) <? ph_vaddr ph then mret (false, sz)
      else if negb (ph_vaddr ph mod PGSIZE =? 0) then mret (false, sz)
      else
        sz1 ← in_mem (uvmalloc kend pagetable sz (u64 (ph_vaddr ph + ph_memsz ph)) (flags2perm (ph_flags ph)));
        if sz1 =? 0 then mret (false, sz)
        else
          r ← loadseg pagetable (ph_vaddr ph) ip (u32 (ph_off ph)) (u32 (ph_filesz ph));
          if r <? 0 then mret (false, sz1)
          else load_segments phnum pagetable ip (i32 (off + PROGHDR)) sz1
  end.

(** The strings of [argv] go on the stack; the result: [sp] and [ustack]. *)
Fixpoint push_args (pagetable sz stackbase : Z) (argv : list (list Z)) (sp : Z) : X (option (Z * list Z)) :=
  match argv with
  | [] => mret (Some (sp, []))
  | s :: argv =>
      let sp := u64 (sp - (Z.of_nat (length s) + 1)) in
      let sp := sp - sp mod 16 in
      if sp <? stackbase then mret None
      else
        r ← in_mem (copyout kend pagetable sz sp (s ++ [0]));
        if r <? 0 then mret None
        else
          rest ← push_args pagetable sz stackbase argv sp;
          mret (match rest with Some (sp', l) => Some (sp', sp :: l) | None => None end)
  end.

(** [last] after the loop over [path]. *)
Fixpoint last_part (s last : list Z) : list Z :=
  match s with
  | [] => last
  | c :: s => last_part s (if c =? 47 then s else last)
  end.

Definition set_name (new old : list Z) : list Z := new ++ drop (length new) old.

(** [bad:] *)
Definition exec_bad (pagetable sz : Z) (ip : option nat) : X Z :=
  (if pagetable =? 0 then mret () else in_mem (proc_freepagetable kend pagetable sz));;
  match ip with
  | Some ip => in_files (fsop (iunlockput me ip));; in_files end_op;; mret (-1)
  | None => mret (-1)
  end.

(** From the stack to the end. *)
Definition exec_stack (path : list Z) (argv : list (list Z)) (elf : list Z) (pagetable sz : Z) : X Z :=
  p ← gets m_proc;
  let oldsz := x_sz p in
  let sz := u64 (PGROUNDUP sz) in
  sz1 ← in_mem (uvmalloc kend pagetable sz (u64 (sz + (USERSTACK + 1) * PGSIZE)) PTE_W);
  if sz1 =? 0 then exec_bad pagetable sz None
  else
    let sz := sz1 in
    in_mem (uvmclear pagetable (u64 (sz - (USERSTACK + 1) * PGSIZE)));;
    let stackbase := u64 (sz - USERSTACK * PGSIZE) in
    r ← push_args pagetable sz stackbase argv sz;
    match r with
    | None => exec_bad pagetable sz None
    | Some (sp, ustack) =>
        let argc := Z.of_nat (length argv) in
        let sp := u64 (sp - (argc + 1) * 8) in
        let sp := sp - sp mod 16 in
        if sp <? stackbase then exec_bad pagetable sz None
        else
          r ← in_mem (copyout kend pagetable sz sp (words (ustack ++ [0])));
          if r <? 0 then exec_bad pagetable sz None
          else
            let last := last_part path path in
            modify (m_set_proc {| x_pagetable := pagetable; x_sz := sz; x_trapframe := x_trapframe p;
              x_name := set_name (KString.safestrcpy (λ i, default 0 (last !! i)) 16) (x_name p);
              x_epc := elf_entry elf; x_sp := sp; x_a1 := sp |});;
            in_mem (proc_freepagetable kend (x_pagetable p) oldsz);;
            mret argc
    end.

Definition exec_image (path : list Z) (argv : list (list Z)) (ip : nat) : X Z :=
  '(r, elf) ← kread ip 0 ELFHDR;
  if negb (r =? ELFHDR) then exec_bad 0 0 (Some ip)
  else if negb (elf_magic elf =? ELF_MAGIC) then exec_bad 0 0 (Some ip)
  else
    p ← gets m_proc;
    pagetable ← in_mem (proc_pagetable kend trampoline (x_trapframe p));
    if pagetable =? 0 then exec_bad 0 0 (Some ip)
    else
      '(fine, sz) ← load_segments (Z.to_nat (elf_phnum elf)) pagetable ip (i32 (elf_phoff elf)) 0;
      if negb fine then exec_bad pagetable sz (Some ip)
      else
        in_files (fsop (iunlockput me ip));;
        in_files end_op;;
        exec_stack path argv elf pagetable sz.

Definition kexec (path : list Z) (argv : list (list Z)) : X Z :=
  in_files begin_op;;
  ip ← in_files (ipath me junk path);
  match ip with
  | None => in_files end_op;; mret (-1)
  | Some ip =>
      in_files (fsop (ilock me (Some ip)));;
      exec_image path argv ip
  end.
End Exec.
