(* ===== verification/ExecVm.v ===== *)
(** * Address spaces under construction

    What [kexec] needs of page tables beyond the life of a process: growing to a
    size nobody checked, a guard page, and two address spaces at once. *)

From stdpp Require Import gmap.
From S2P Require Export VmSpawn.

#[local] Set Warnings "-clear-no-such-hyp".
#[local] Set Default Proof Using "Type".
Local Open Scope Z_scope.

Section Build.
Context (kend : Z) (Hend : 0 < kend < PHYSTOP).
Context (trampoline trapframe : Z) (Htramp : aligned trampoline) (Htrap : aligned trapframe).
Abbreviation space := (space kend trampoline trapframe).
Abbreviation ok := (vm_ok kend UVPN).
Abbreviation evolves := (evolves UVPN).
Abbreviation all := (λ _ : Z, True).

(** All pages below [n] are there, for the user. *)
Definition full (g : ghost) (n : Z) : Prop :=
  ∀ w, 0 ≤ w < n → ∃ e, leaf g !! w = Some e ∧ Z.testbit e 4 = true.

(** The machine has so many pages. *)
Lemma full_bound k root g n : ok k root g → full g n → n ≤ UVPN → n ≤ 557056.
Proof using Hend.
  intros Hok Hf Hn. destruct (decide (n ≤ 0)) as [|Hpos]; [lia|]. set (page_no := λ w, PTE2PA (default 0 (leaf g !! w)) / PGSIZE).
  assert (Hpg : ∀ w, 0 ≤ w < n → ∃ e, leaf g !! w = Some e ∧ own g !! PTE2PA e = Some (User w) ∧ page kend (PTE2PA e)).
  { intros w Hw. destruct (Hf w Hw) as (e & He & _). destruct (leaf_page kend UVPN k root g w e Hok He ltac:(lia)) as [H1 H2]. eauto. }
  assert (Hnd : NoDup (page_no <$> seqZ 0 n)).
  { apply NoDup_fmap_2_strong; [|apply NoDup_seqZ]. intros v w Hv%elem_of_seqZ Hw%elem_of_seqZ E.
    destruct (Hpg v ltac:(lia)) as (e & He & Ho & [Hm _]). destruct (Hpg w ltac:(lia)) as (e' & He' & Ho' & [Hm' _]).
    unfold page_no in E. rewrite He, He' in E. cbn in E.
    assert (PTE2PA e = PTE2PA e') as Ee.
    { rewrite (Z.div_mod (PTE2PA e) PGSIZE), (Z.div_mod (PTE2PA e') PGSIZE) by done. by rewrite E, Hm, Hm'. }
    rewrite Ee in Ho. rewrite Ho in Ho'. by injection Ho'. }
  assert (Hsub : (page_no <$> seqZ 0 n) ⊆+ seqZ 0 557056).
  { apply NoDup_submseteq; [done|]. intros x (w & -> & Hw%elem_of_seqZ)%list_elem_of_fmap. apply elem_of_seqZ.
    destruct (Hpg w ltac:(lia)) as (e & He & _ & [_ Hr]). unfold page_no. rewrite He. cbn.
    change PHYSTOP with (557056 * PGSIZE) in Hr. split; [apply Z.div_pos; [lia|done]|apply Z.div_lt_upper_bound; [done|lia]]. }
  apply submseteq_length in Hsub. rewrite length_fmap, !length_seqZ in Hsub. lia.
Qed.

(** A loop of [uvmalloc] that gives up does so for every larger size. *)
Lemma uvmalloc_loop_gives_up n n' root o a t newsz xperm k k' :
  uvmalloc_loop kend n root o a t xperm k = (Ret 0, k') → 0 < t ≤ newsz → (n ≤ n')%nat →
  uvmalloc_loop kend n' root o a newsz xperm k = (Ret 0, k').
Proof using Type.
  revert n' a k. induction n as [|n IH]; intros n' a k E Ht Hn; cbn [uvmalloc_loop] in E.
  { destruct (a <? t); [done|]. injection E as E _. lia. }
  destruct (a <? t) eqn:Ea; [|injection E as E _; lia]. apply Z.ltb_lt in Ea. destruct n' as [|n']; [lia|].
  cbn [uvmalloc_loop]. rewrite (proj2 (Z.ltb_lt _ _)) by lia. unfold mbind, M_bind in *.
  destruct (alloc_page k) as [[m|e|] k1]; [|done..]. destruct (m =? 0); [done|].
  destruct (set_bytes m 0 k1) as [[[]|e|] k2]; [|done..].
  destruct (mappages root a PGSIZE m _ k2) as [[r|e|] k3]; [|done..]. destruct (negb (r =? 0)); [done|].
  apply IH; [done|done|lia].
Qed.

Lemma resized_umem k root g sz k' g' n :
  space k root g sz → sz ≤ n → resized n k g k' g' → ∀ x, umem k' g' x = umem k g x.
Proof using Type.
  intros Hs Hn Hr x. rewrite Hr. case_decide as Hx; [done|]. symmetry. apply (umem_above kend trampoline trapframe k root g sz x Hs).
  pose proof (npg_mono sz n Hn). unfold PGSIZE in *. lia.
Qed.

Lemma zero_page_user k g xperm w :
  0 ≤ xperm < 1024 → zero_page kend k g (Z.lor (Z.lor PTE_R PTE_U) xperm) w → ∃ e, leaf g !! w = Some e ∧ Z.testbit e 4 = true.
Proof using Type.
  intros Hx (p & Hl & _). eexists. split; [exact Hl|]. rewrite pte_bit by done. by rewrite Z.lor_spec.
Qed.

(** [uvmalloc] of an address space under construction, to a size nobody checked: it is there in full, with zeros,
    or there is no memory for it. *)
Lemma uvmalloc_any k root g sz newsz xperm :
  space k root g sz → full g (npg sz) → 0 ≤ newsz < 2 ^ 64 → 0 ≤ xperm < 1024 →
  ∃ r k' g', uvmalloc kend root sz newsz xperm k = (Ret r, k') ∧ evolves all k g k' g' ∧ (∀ x, umem k' g' x = umem k g x) ∧
    (r = Z.max sz newsz ∧ newsz ≤ TRAPFRAME ∧ space k' root g' r ∧ full g' (npg r) ∧
       (∀ w, npg sz ≤ w < npg r → zero_page kend k' g' (Z.lor (Z.lor PTE_R PTE_U) xperm) w) ∨
     r = 0 ∧ space k' root g' sz ∧ full g' (npg sz)).
Proof using Hend.
  intros Hs Hf Hn Hx. pose proof Hs as [Hok Hh Hsz Hlow Hhigh].
  destruct (decide (newsz < sz)) as [Hlt|Hge].
  { exists sz, k, g. unfold uvmalloc. rewrite (proj2 (Z.ltb_lt _ _)) by done. split; [done|]. split; [apply evolves_refl|].
    split; [done|]. left. rewrite Z.max_l by lia. split; [done|]. split; [lia|]. split; [done|]. split; [done|]. lia. }
  rewrite Z.max_r by lia.
  assert (Hcommon : ∀ t, sz ≤ t ≤ TRAPFRAME → ∃ r k' g', uvmalloc kend root sz t xperm k = (Ret r, k') ∧ evolves all k g k' g' ∧
    (∀ x, umem k' g' x = umem k g x) ∧
    (r = t ∧ space k' root g' r ∧ full g' (npg r) ∧ (∀ w, npg sz ≤ w < npg r → zero_page kend k' g' (Z.lor (Z.lor PTE_R PTE_U) xperm) w) ∨
     r = 0 ∧ space k' root g' sz ∧ full g' (npg sz))).
  { intros t Ht. destruct (space_grow_any kend Hend trampoline trapframe k root g sz t xperm Hs Ht Hx) as (r & k' & g' & E & Hev & Hr).
    exists r, k', g'. split; [done|]. split; [done|]. destruct Hr as [(-> & Hs' & Hre & Hl & Hz)|(-> & Hs' & Hre & Hl)].
    - split; [by apply (resized_umem k root g sz k' g' t Hs); [lia|]|]. left. split; [done|]. split; [done|]. split; [|done].
      intros w Hw. destruct (decide (npg sz ≤ w)) as [Hge'|Hlt']; [by apply (zero_page_user k' g' xperm w Hx), Hz; lia|].
      rewrite Hl by lia. apply Hf. lia.
    - split; [by apply (resized_umem k root g sz k' g' sz Hs)|]. right. split; [done|]. split; [done|].
      intros w Hw. rewrite Hl. by apply Hf. }
  destruct (decide (newsz ≤ TRAPFRAME)) as [Hle|Hbig].
  { destruct (Hcommon newsz ltac:(lia)) as (r & k' & g' & E & Hev & Hm & Hr). exists r, k', g'.
    split; [done|]. split; [done|]. split; [done|]. destruct Hr as [(-> & H)|H]; [left|by right]. done. }
  destruct (Hcommon TRAPFRAME ltac:(lia)) as (r & k' & g' & E & Hev & Hm & Hr). exists r, k', g'. destruct Hr as [(-> & Hs' & Hf' & _)|(-> & Hs' & Hf')].
  { exfalso. assert (Hp : npg TRAPFRAME = UVPN) by done. rewrite Hp in Hf'.
    pose proof (full_bound k' root g' UVPN (s_ok _ _ _ _ _ _ _ Hs') Hf' ltac:(lia)) as Hb. by vm_compute in Hb. }
  split; [|split; [done|split; [done|by right]]].
  unfold uvmalloc in *. rewrite (proj2 (Z.ltb_ge newsz sz)) by lia. rewrite (proj2 (Z.ltb_ge TRAPFRAME sz)) in E by lia.
  eapply uvmalloc_loop_gives_up; [exact E|rewrite trapframe_val in *; lia|].
  pose proof (Z.div_le_mono (TRAPFRAME - u64 (PGROUNDUP sz)) (newsz - u64 (PGROUNDUP sz)) PGSIZE ltac:(done) ltac:(lia)). lia.
Qed.

(** *** The guard page *)
Lemma clear_leaf m root g va p perm perm' :
  tables kend UVPN m root g → leaf g !! vkey 0 va = Some (pte_of p perm) → vkey 0 va < UVPN → aligned p →
  0 ≤ perm < 1024 → 0 ≤ perm' < 1024 →
  tables kend UVPN (store64 m (slot g va) (pte_of p perm')) root
    {| dir := dir g; leaf := <[vkey 0 va := pte_of p perm']> (leaf g); own := own g; fr := fr g; hand := hand g |}.
Proof using Hend.
  intros Ht Hl Hv Hp Hr Hr'. destruct (t_leaf _ _ _ _ _ Ht _ _ Hl) as (_ & [q Hq] & _).
  assert (Hq' : dir g !! (0%nat, vkey 1 va) = Some q) by (by rewrite vkey_S).
  split; cbn [dir leaf own fr hand].
  - apply Ht.
  - apply Ht.
  - intros v x. destruct (decide (v = vkey 0 va)) as [->|Hne].
    + rewrite lookup_insert_eq. rewrite <-(t_user _ _ _ _ _ Ht), Hl. split; intros (e & [= <-] & Hlt & <-); eexists; (split; [done|]);
        (split; [done|]); by rewrite !pte_pa.
    + rewrite lookup_insert_ne by done. apply Ht.
  - apply Ht.
  - apply Ht.
  - apply (entry_leaf _ _ _ _ _ _ _ _ _ _ Ht Hq'); [by apply pte_range|]. intros v. case_decide as Hd; [by rewrite Hd, lookup_insert_eq|].
    by rewrite lookup_insert_ne.
  - intros v e He. destruct (decide (v = vkey 0 va)) as [->|Hne].
    + rewrite lookup_insert_eq in He. injection He as <-. split; [apply pte_valid|]. split; [|done].
      by apply (t_leaf _ _ _ _ _ Ht _ _ Hl).
    + rewrite lookup_insert_ne in He by done. by apply (t_leaf _ _ _ _ _ Ht).
Qed.

Lemma pte_high pa perm i : 0 ≤ perm < 1024 → 10 ≤ i → Z.testbit (pte_of pa perm) i = Z.testbit (PA2PTE pa) i.
Proof using Type.
  intros Hp Hi. unfold pte_of. rewrite !Z.lor_spec. replace perm with (perm mod 2 ^ 10) by (apply Z.mod_small; lia).
  rewrite Z.mod_pow2_bits_high by lia. change PTE_V with (2 ^ 0). rewrite Z.pow2_bits_eqb by done.
  rewrite (proj2 (Z.eqb_neq 0 i)) by lia. by rewrite !orb_false_r.
Qed.

(** The stack's guard page: [PTE_U] is cleared. *)
Lemma clear_user p : aligned p → Z.land (pte_of p 22) (u64 (Z.lnot PTE_U)) = pte_of p 6.
Proof using Type.
  intros Hp. apply Z.bits_inj'. intros i Hi. rewrite Z.land_spec. destruct (decide (i < 10)) as [Hlow|Hhigh].
  - rewrite !pte_bit by lia. assert (i = 0 ∨ i = 1 ∨ i = 2 ∨ i = 3 ∨ i = 4 ∨ i = 5 ∨ i = 6 ∨ i = 7 ∨ i = 8 ∨ i = 9) as Hc by lia.
    repeat (destruct Hc as [->|Hc]; [done|]). by rewrite Hc.
  - destruct (decide (i < 64)) as [Hm|Hm].
    + rewrite !pte_high by lia. unfold u64. rewrite Z.mod_pow2_bits_low, Z.lnot_spec by lia.
      change PTE_U with (2 ^ 4). rewrite Z.pow2_bits_eqb by done. rewrite (proj2 (Z.eqb_neq 4 i)) by lia. by rewrite andb_true_r.
    + assert (Hz : ∀ q, 0 ≤ q < 1024 → Z.testbit (pte_of p q) i = false).
      { intros q Hq. pose proof (pte_range p q Hq) as Hr. rewrite <-(Z.mod_small (pte_of p q) (2 ^ 64)) by lia.
        apply Z.mod_pow2_bits_high. lia. }
      by rewrite !Hz by lia.
Qed.

Lemma uvmclear_ok k root g sz v p :
  space k root g sz → 0 ≤ v < npg sz → leaf g !! v = Some (pte_of p 22) → page kend p →
  ∃ k' g', uvmclear root (v * PGSIZE) k = (Ret (), k') ∧ space k' root g' sz ∧ evolves (λ w, w ≠ v) k g k' g' ∧
    leaf g' = <[v := pte_of p 6]> (leaf g) ∧ ∀ x, umem k' g' x = umem k g x.
Proof using Hend.
  intros Hs Hv Hl Hpg. pose proof Hs as [Hok Hh Hsz Hlow Hhigh]. pose proof (v_tables _ _ _ _ _ Hok) as Ht.
  pose proof (npg_le sz Hsz) as Hm. pose proof (page_aligned kend Hend p Hpg) as Hp.
  assert (Hk : vkey 0 (v * PGSIZE) = v) by (apply va_page; lia).
  assert (Hmax : 0 ≤ v * PGSIZE < MAXVA) by (pose proof uvpn_val; rewrite trapframe_val, maxva_val in *; unfold PGSIZE in *; lia).
  destruct (t_leaf _ _ _ _ _ Ht _ _ Hl) as (_ & [q Hq] & _).
  assert (Hq' : dir g !! (0%nat, vkey 1 (v * PGSIZE)) = Some q) by (by rewrite vkey_S, Hk).
  destruct (slot_pos kend UVPN Hend (phys k) root g (v * PGSIZE) q Ht Hq') as [Es Hs0].
  unfold uvmclear. rewrite (bind_run _ _ _ _ _ (walk_get kend UVPN Hend k root g (v * PGSIZE) Ht Hmax)).
  rewrite (proj2 (Z.eqb_neq _ 0)) by done.
  assert (Er : get64 (slot g (v * PGSIZE)) k = (Ret (pte_of p 22), k)).
  { unfold get64, gets. by rewrite (slot_read kend UVPN Hend (phys k) root g _ Ht Hs0), Hk, Hl. }
  rewrite (bind_run _ _ _ _ _ Er), clear_user, Es by done.
  set (g' := {| dir := dir g; leaf := <[v := pte_of p 6]> (leaf g); own := own g; fr := fr g; hand := hand g |}).
  destruct (store_ok kend UVPN (λ w, w ≠ v) k root g g' (0%nat, vkey 1 (v * PGSIZE)) q (PX 0 (v * PGSIZE)) (pte_of p 6) Hok Hq' (px_range _ _))
    as (k' & E & Hok' & Hev & _).
  - rewrite <-Es. pose proof (clear_leaf (phys k) root g (v * PGSIZE) p 22 6 Ht) as Hc. rewrite Hk in Hc. apply Hc; done || lia.
  - done.
  - apply (v_hand _ _ _ _ _ Hok).
  - apply (v_nodup _ _ _ _ _ Hok).
  - apply (v_apart _ _ _ _ _ Hok).
  - done.
  - intros w e Hw He. cbn. by rewrite lookup_insert_ne.
  - exists k', g'. split; [exact E|]. split; [|split; [done|split; [done|]]].
    + split; [done|done|done| |].
      * intros w Hw Hsw. cbn in Hsw. destruct (decide (w = v)) as [->|Hne]; [lia|]. rewrite lookup_insert_ne in Hsw by done. by apply Hlow.
      * intros w Hw. cbn. rewrite lookup_insert_ne by lia. by apply Hhigh.
    + intros x. unfold umem. case_decide as Hx; [|done]. cbn [leaf g']. destruct (decide (x / PGSIZE = v)) as [Ev|Ev].
      * rewrite Ev, lookup_insert_eq, Hl. rewrite !pte_pa by (done || lia).
        unfold put64, modify in E. injection E as <-. cbn [phys]. apply store_out. intros Hin.
        pose proof (px_range 0 (v * PGSIZE)) as Hpx.
        apply (pages_apart kend q p (p + x mod PGSIZE)); [by eapply node_page|done| |unfold in_page, PGSIZE in *; lia|apply mod_in_page].
        intros ->. apply (t_dir _ _ _ _ _ Ht) in Hq'. destruct (leaf_page kend UVPN k root g v _ Hok Hl ltac:(lia)) as [Ho _].
        rewrite pte_pa in Ho by (done || lia). congruence.
      * rewrite lookup_insert_ne by done. destruct (leaf g !! (x / PGSIZE)) as [e|] eqn:El; [|done].
        destruct (ev_keep _ _ _ _ _ _ Hev (x / PGSIZE) e Ev El) as [_ H]. apply H; [by apply va_uvpn|apply mod_in_page].
Qed.

(** *** Two address spaces

    The free pages of the old one are all that the new one is made of. *)
Definition with_free (f : list Z) (g : ghost) : ghost := set_pages f [] g.

Lemma own_apart k root g p q x :
  ok k root g → is_Some (own g !! p) → page kend q → own g !! q = None → in_page p x → ¬ in_page q x.
Proof using Type.
  intros Hok Hp Hq Hn Hx. apply (pages_apart kend p q x); [by apply (t_page _ _ _ _ _ (v_tables _ _ _ _ _ Hok))|done| |done].
  intros ->. rewrite Hn in Hp. by destruct Hp.
Qed.

Lemma space_moves k root g sz k' f :
  space k root g sz → free_pages kend k' f → (∀ p, p ∈ f → own g !! p = None) →
  (∀ p x, is_Some (own g !! p) → in_page p x → phys k' x = phys k x) →
  space k' root (with_free f g) sz ∧ ∀ x, umem k' (with_free f g) x = umem k g x.
Proof using Type.
  intros Hs Hf Hap Hm. pose proof Hs as [Hok Hh Hsz Hlow Hhigh]. split.
  - split; [|done|done|done|done]. split; cbn [fr hand own with_free set_pages app].
    + assert (Ht : tables kend UVPN (phys k') root g).
      { eapply tables_ext; [|apply (v_tables _ _ _ _ _ Hok)]. intros n p x Hp Hx. apply (Hm p); [|done].
        apply (t_dir _ _ _ _ _ (v_tables _ _ _ _ _ Hok)) in Hp. by rewrite Hp. }
      destruct Ht. by split.
    + done.
    + constructor.
    + apply (fp_nodup _ _ _ Hf).
    + done.
  - intros x. unfold umem. case_decide as Hx; [|done]. cbn [leaf with_free set_pages].
    destruct (leaf g !! (x / PGSIZE)) as [e|] eqn:El; [|done]. apply (Hm (PTE2PA e)); [|apply mod_in_page].
    destruct (leaf_page kend UVPN k root g _ e Hok El (va_uvpn x Hx)) as [-> _]. done.
Qed.

(** Nothing came of the new address space: the old one is as it was. *)
Lemma old_restored k root g sz k' :
  space k root g sz → restored kend (fr g) k k' →
  ∃ g', space k' root g' sz ∧ (∀ p, pool g' p ↔ pool g p) ∧ ∀ x, umem k' g' x = umem k g x.
Proof using Type.
  intros Hs (f & Hf & Hp & Hfr). pose proof Hs as [Hok Hh _ _ _]. exists (with_free f g).
  destruct (space_moves k root g sz k' f Hs Hf) as [H1 H2].
  - intros p Hin. apply (v_apart _ _ _ _ _ Hok). rewrite Hh. cbn. by rewrite <-Hp.
  - intros p x Ho Hx. apply Hfr. intros q Hq. apply (own_apart k root g p q x Hok Ho); [by eapply fr_page| |done].
    apply (v_apart _ _ _ _ _ Hok). by rewrite Hh.
  - split; [done|]. split; [|done]. intros p. unfold pool. cbn [own hand fr with_free set_pages app]. rewrite Hh. cbn [app]. by rewrite Hp.
Qed.

(** The new address space stays when the old one is freed, and no page is lost. *)
Lemma old_freed k root g sz k1 root1 g1 sz1 :
  space k root g sz → space k1 root1 g1 sz1 → (∀ p, pool g1 p ↔ p ∈ fr g) → framed (fr g) k k1 →
  ∃ k2 g2, proc_freepagetable kend root sz k1 = (Ret (), k2) ∧ space k2 root1 g2 sz1 ∧
    (∀ p, pool g2 p ↔ pool g p) ∧ leaf g2 = leaf g1 ∧ ∀ x, umem k2 g2 x = umem k1 g1 x.
Proof using Hend.
  intros Hs Hs1 Hp1 Hfr. pose proof Hs as [Hok Hh _ _ _]. pose proof Hs1 as [Hok1 Hh1 _ _ _].
  assert (Hpool1 : ∀ p, p ∈ fr g ↔ is_Some (own g1 !! p) ∨ p ∈ fr g1) by (intros p; rewrite <-Hp1; unfold pool; by rewrite Hh1).
  assert (Hapart : ∀ p, p ∈ fr g → own g !! p = None) by (intros p Hp; apply (v_apart _ _ _ _ _ Hok); by rewrite Hh).
  destruct (space_moves k root g sz k1 (fr g1) Hs (v_free _ _ _ _ _ Hok1)) as [Hs' _].
  { intros p Hp. apply Hapart, Hpool1. by right. }
  { intros p x Ho Hx. apply Hfr. intros q Hq. apply (own_apart k root g p q x Hok Ho); [exact (fr_page _ _ _ _ _ _ Hok Hq)|by apply Hapart|done]. }
  destruct (proc_freepagetable_ok kend Hend trampoline trapframe k1 root _ sz Hs') as (k2 & f & E & Hf & Hq & Hm).
  assert (Hq' : ∀ q, q ∈ f ↔ is_Some (own g !! q) ∨ q ∈ fr g1) by (intros q; rewrite Hq; done).
  destruct (space_moves k1 root1 g1 sz1 k2 f Hs1 Hf) as [Hs2 Hu2].
  { intros p [Ho|Hin]%Hq'; [|apply (v_apart _ _ _ _ _ Hok1); by rewrite Hh1]. destruct (own g1 !! p) as [r|] eqn:E1; [exfalso|done].
    rewrite Hapart in Ho; [by destruct Ho|]. apply Hpool1. by left. }
  { intros p x Ho Hx. apply Hm. intros q Hqp. apply (own_apart k1 root1 g1 p q x Hok1 Ho); [|  |done].
    - assert (Hin : q ∈ f) by by apply Hq. pose proof (fp_page _ _ _ Hf) as Hall. rewrite Forall_forall in Hall. by apply Hall.
    - apply Hq, Hq' in Hqp as [Ho'|Hin]; [|apply (v_apart _ _ _ _ _ Hok1); by rewrite Hh1].
      destruct (own g1 !! q) as [r|] eqn:E1; [exfalso|done]. rewrite Hapart in Ho'; [by destruct Ho'|]. apply Hpool1. by left. }
  exists k2, (with_free f g1). split; [done|]. split; [done|]. split; [|done].
  intros p. unfold pool. cbn [own hand fr with_free set_pages app]. rewrite Hq', Hh. cbn [app]. rewrite Hpool1. tauto.
Qed.
End Build.
