(* ===== verification/ExecLoad.v ===== *)
(** * Loading the segments of a program

    [segments] reads the program headers of a file's contents as pure data;
    [load_segments] makes exactly that memory, or fails with the address space
    still well formed. *)

From stdpp Require Import gmap.
From S2P Require Import Sysfile.
From S2P Require Export ExecVm Exec.

#[local] Set Warnings "-clear-no-such-hyp".
#[local] Set Default Proof Using "Type".
#[local] Arguments Z.mul : simpl never.
#[local] Arguments Z.add : simpl never.
Local Open Scope Z_scope.

(** ** What a file says *)
Definition chunk (content : list Z) (off n : Z) : list Z := take (Z.to_nat n) (drop (Z.to_nat off) content).

(** The bytes to be put at which addresses, and the size of the program. *)
Fixpoint segments (content : list Z) (phnum : nat) (off sz : Z) : option (list (Z * list Z) * Z) :=
  match phnum with
  | O => Some ([], sz)
  | S phnum =>
      let ph := chunk content (u32 off) PROGHDR in
      if negb (Z.of_nat (length ph) =? PROGHDR) then None
      else if negb (ph_type ph =? ELF_PROG_LOAD) then segments content phnum (i32 (off + PROGHDR)) sz
      else
        let top := ph_vaddr ph + ph_memsz ph in
        let bs := chunk content (u32 (ph_off ph)) (u32 (ph_filesz ph)) in
        if (ph_memsz ph <? ph_filesz ph) || (2 ^ 64 <=? top) || negb (ph_vaddr ph mod PGSIZE =? 0)
           || (Z.max sz top =? 0) || negb (Z.of_nat (length bs) =? u32 (ph_filesz ph))
        then None
        else
          match segments content phnum (i32 (off + PROGHDR)) (Z.max sz top) with
          | Some (l, sz') => Some ((ph_vaddr ph, bs) :: l, sz')
          | None => None
          end
  end.

Definition writes (l : list (Z * list Z)) (f : Z → Z) : Z → Z := foldl (λ f s, write s.1 s.2 f) f l.

Lemma writes_ext l : ∀ f f', (∀ x, f x = f' x) → ∀ x, writes l f x = writes l f' x.
Proof.
  induction l as [|[a bs] l IH]; intros f f' H x; [apply H|]. cbn. apply IH. intros y. by apply write_ext.
Qed.

Lemma length_chunk content off n : 0 ≤ n → Z.of_nat (length (chunk content off n)) ≤ n.
Proof. intros Hn. unfold chunk. rewrite length_take. lia. Qed.

(** A part of a part. *)
Lemma chunk_chunk content off n i m :
  0 ≤ off → 0 ≤ i → 0 ≤ m → i + m ≤ n → chunk content (off + i) m = take (Z.to_nat m) (drop (Z.to_nat i) (chunk content off n)).
Proof.
  intros Ho Hi Hm Hn. unfold chunk. rewrite skipn_firstn_comm, firstn_firstn, drop_drop. f_equal; [|f_equal]; lia.
Qed.

Lemma write_more a bs f i m x :
  (i + m ≤ length bs)%nat →
  write (a + Z.of_nat i) (take m (drop i bs)) (write a (take i bs) f) x = write a (take (i + m) bs) f x.
Proof.
  intros H. rewrite <-(take_take_drop bs i m), write_app. by rewrite length_take, Nat.min_l by lia.
Qed.

(** ** The fields of a struct *)
Lemma field_range off n bs : Forall is_byte bs → 0 ≤ field off n bs < 256 ^ Z.of_nat n.
Proof.
  intros H. unfold field. assert (Hf : Forall is_byte (take n (drop off bs))) by by apply Forall_take, Forall_drop.
  destruct (le_value_range _ Hf) as [H1 H2]. split; [done|]. eapply Z.lt_le_trans; [exact H2|].
  apply Z.pow_le_mono_r; [done|]. rewrite length_take. lia.
Qed.

Section Load.
Context (kend : Z) (Hend : 0 < kend < PHYSTOP).
Context (trampoline trapframe : Z) (Htramp : aligned trampoline) (Htrap : aligned trapframe).
Abbreviation space := (space kend trampoline trapframe).
Abbreviation evolves := (evolves UVPN).
Abbreviation none := (λ _ : Z, False).

(** The file [ip] reads as [content]. *)
Definition reads (f : kernel) (ip : nat) (content : list Z) : Prop := ∀ off n, 0 ≤ off < 2 ^ 32 → 0 ≤ n ≤ PGSIZE →
  fsop (readi to_kernel ip off n) f = (Ret (Z.of_nat (length (chunk content off n)), chunk content off n), f).

Lemma in_mem_run {A} (m : V A) s (a : A) k' : m (m_mem s) = (Ret a, k') → in_mem m s = (Ret a, m_set_mem k' s).
Proof using Type. intros E. unfold in_mem. by rewrite E. Qed.

Lemma set_files_same s : m_set_files (m_files s) s = s.
Proof using Type. by destruct s. Qed.

Lemma kread_run s ip content off n :
  reads (m_files s) ip content → 0 ≤ off < 2 ^ 32 → 0 ≤ n ≤ PGSIZE →
  kread ip off n s = (Ret (Z.of_nat (length (chunk content off n)), chunk content off n), s).
Proof using Type. intros Hr Ho Hn. unfold kread, in_files. rewrite (Hr off n Ho Hn). by rewrite set_files_same. Qed.

Lemma full_user_pa k root g sz v :
  space k root g sz → full g (npg sz) → 0 ≤ v < npg sz → user_pa g v ≠ 0.
Proof using Hend.
  intros Hs Hf Hv. pose proof Hs as [Hok _ Hsz _ _]. pose proof (npg_le sz Hsz). destruct (Hf v Hv) as (e & He & Hu).
  unfold user_pa. rewrite He, Hu. destruct (leaf_page kend UVPN k root g v e Hok He ltac:(lia)) as [_ [_ Hp]].
  intros E. rewrite E in Hp. unfold PGSIZE in *. pose proof (pgroundup_spec kend). unfold PGSIZE in *. lia.
Qed.

(** One page of a segment. *)
Lemma load_page k root g sz v bs :
  space k root g sz → full g (npg sz) → 0 ≤ v < npg sz → Z.of_nat (length bs) ≤ PGSIZE →
  ∃ k', store_bytes (user_pa g v) bs k = (Ret (), k') ∧ space k' root g sz ∧ evolves none k g k' g ∧
    ∀ x, umem k' g x = write (v * PGSIZE) bs (umem k g) x.
Proof using Hend.
  intros Hs Hf Hv Hb. pose proof Hs as [Hok Hh _ _ _].
  destruct (store_page_ok kend k root g v (v * PGSIZE) bs sz Hok (full_user_pa k root g sz v Hs Hf Hv)) as (k' & E & Hok' & Hst & Hm);
    [lia|lia|]. rewrite Z.sub_diag, Z.add_0_r in E. exists k'. split; [exact E|].
  split; [by apply (stored_space kend trampoline trapframe k root g k' g sz)|]. split; [|exact Hm].
  eapply evolves_mono; [|apply (st_evolves _ _ _ _ _ Hst)]. done.
Qed.

Lemma loadseg_loop_ok ip content fuel : ∀ s root g sz va off n j u0,
  reads (m_files s) ip content → space (m_mem s) root g sz → full g (npg sz) →
  0 ≤ va → va mod PGSIZE = 0 → 0 ≤ n → va + n ≤ npg sz * PGSIZE → 0 ≤ off < 2 ^ 32 → 0 ≤ j →
  Z.min (j * PGSIZE) n ≤ Z.of_nat (length (chunk content off n)) →
  Z.of_nat (length content) < 2 ^ 31 → n < j * PGSIZE + Z.of_nat fuel * PGSIZE →
  (∀ x, umem (m_mem s) g x = write va (take (Z.to_nat (j * PGSIZE)) (chunk content off n)) u0 x) →
  ∃ r k', loadseg_loop fuel root va ip off n (j * PGSIZE) s = (Ret r, m_set_mem k' s) ∧ space k' root g sz ∧
    evolves none (m_mem s) g k' g ∧
    (r = 0 ∧ Z.of_nat (length (chunk content off n)) = n ∧ (∀ x, umem k' g x = write va (chunk content off n) u0 x) ∨ r = -1).
Proof using Hend.
  induction fuel as [|fuel IH]; intros s root g sz va off n j u0 Hrd Hs Hf Hva Hal Hn Htop Hoff Hj Hlen Hc Hfuel Hu; cbn [loadseg_loop].
  { rewrite (proj2 (Z.ltb_ge _ _)) by lia. exists 0, (m_mem s). split; [by destruct s|]. split; [done|]. split; [apply evolves_refl|].
    left. split; [done|]. pose proof (length_chunk content off n Hn). split; [lia|]. intros x. rewrite Hu, firstn_all2; [done|lia]. }
  destruct (j * PGSIZE <? n) eqn:E.
  2: { apply Z.ltb_ge in E. exists 0, (m_mem s). split; [by destruct s|]. split; [done|]. split; [apply evolves_refl|].
    left. split; [done|]. pose proof (length_chunk content off n Hn). split; [lia|]. intros x. rewrite Hu, firstn_all2; [done|lia]. }
  apply Z.ltb_lt in E. rewrite Z.min_l in Hlen by lia. pose proof Hs as [Hok _ Hsz _ _]. pose proof (npg_le sz Hsz) as Hm.
  pose proof (full_bound kend Hend (m_mem s) root g (npg sz) Hok Hf ltac:(lia)) as Hfb.
  set (v := va / PGSIZE). assert (Ev : va = v * PGSIZE) by (unfold v; pose proof (Z.div_mod va PGSIZE ltac:(done)); lia).
  assert (Hv : 0 ≤ v + j < npg sz) by (unfold PGSIZE in *; lia).
  assert (Ea : u64 (va + j * PGSIZE) = (v + j) * PGSIZE) by (rewrite u64_small; unfold PGSIZE in *; lia).
  assert (Hmax : (v + j) * PGSIZE < MAXVA) by (rewrite maxva_val; unfold PGSIZE in *; lia).
  rewrite Ea. rewrite (bind_run _ _ _ _ _ (in_mem_run _ s _ _ (walkaddr_ok kend Hend (m_mem s) root g (v + j) Hok ltac:(lia) Hmax))).
  pose proof (full_user_pa _ root g sz (v + j) Hs Hf Hv) as Hpa. rewrite (proj2 (Z.eqb_neq _ 0)) by done.
  replace (m_set_mem (m_mem s) s) with s by (by destruct s). cbv zeta.
  set (m := if n - j * PGSIZE <? PGSIZE then n - j * PGSIZE else PGSIZE).
  assert (Em : m = Z.min (n - j * PGSIZE) PGSIZE) by (unfold m; case_match eqn:E'; lia). clearbody m.
  assert (Eo : u32 (off + j * PGSIZE) = off + j * PGSIZE).
  { apply Z.mod_small. destruct (decide (j = 0)) as [->|Hj0]; [lia|]. unfold chunk in Hlen. rewrite length_take, length_drop in Hlen.
    unfold PGSIZE in *. lia. }
  rewrite (bind_run _ _ _ _ _ (kread_run s ip content (u32 (off + j * PGSIZE)) m Hrd ltac:(apply Z.mod_pos_bound; lia) ltac:(unfold PGSIZE in *; lia))).
  rewrite Eo. rewrite (chunk_chunk content off n) by (unfold PGSIZE in *; lia).
  set (bs := chunk content off n) in *. set (part := take (Z.to_nat m) (drop (Z.to_nat (j * PGSIZE)) bs)).
  assert (Hpl : Z.of_nat (length part) = Z.min m (Z.of_nat (length bs) - j * PGSIZE)).
  { unfold part. rewrite length_take, length_drop. unfold PGSIZE in *. lia. }
  destruct (load_page (m_mem s) root g sz (v + j) part Hs Hf Hv ltac:(lia)) as (k1 & E1 & Hs1 & Hev1 & Hm1).
  rewrite (bind_run _ _ _ _ _ (in_mem_run _ s _ _ E1)). destruct (Z.of_nat (length part) =? m) eqn:El; cbn [negb].
  2: { exists (-1), k1. split; [done|]. split; [done|]. split; [done|by right]. }
  apply Z.eqb_eq in El. assert (Ej : u32 (j * PGSIZE + PGSIZE) = (j + 1) * PGSIZE).
  { unfold u32. rewrite Z.mod_small; unfold PGSIZE in *; lia. }
  rewrite Ej. destruct (IH (m_set_mem k1 s) root g sz va off n (j + 1) u0) as (r & k2 & E2 & Hs2 & Hev2 & Hr); try done.
  - lia.
  - fold bs. lia.
  - unfold PGSIZE in *. lia.
  - intros x. cbn [m_mem m_set_mem]. rewrite Hm1. rewrite (write_ext _ _ _ _ x (Hu x)).
    replace ((v + j) * PGSIZE) with (va + Z.of_nat (Z.to_nat (j * PGSIZE))) by (unfold PGSIZE in *; lia).
    assert (H0 : 0 ≤ j * PGSIZE ∧ 0 ≤ m) by (unfold PGSIZE in *; lia). unfold part. rewrite write_more by lia. fold bs. destruct (decide (n - j * PGSIZE < PGSIZE)) as [Hlast|Hmid].
    + rewrite !firstn_all2; [done| |]; pose proof (length_chunk content off n Hn) as Hlc; fold bs in Hlc; lia.
    + do 2 f_equal. lia.
  - exists r, k2. split; [exact E2|]. split; [done|]. split; [by eapply evolves_trans|exact Hr].
Qed.
Lemma loadseg_ok ip content s root g sz va off n :
  reads (m_files s) ip content → space (m_mem s) root g sz → full g (npg sz) → Z.of_nat (length content) < 2 ^ 31 →
  0 ≤ va → va mod PGSIZE = 0 → 0 ≤ n → va + n ≤ npg sz * PGSIZE → 0 ≤ off < 2 ^ 32 →
  ∃ r k', loadseg root va ip off n s = (Ret r, m_set_mem k' s) ∧ space k' root g sz ∧ evolves none (m_mem s) g k' g ∧
    (r = 0 ∧ Z.of_nat (length (chunk content off n)) = n ∧ (∀ x, umem k' g x = write va (chunk content off n) (umem (m_mem s) g) x) ∨ r = -1).
Proof using Hend.
  intros Hrd Hs Hf Hc Hva Hal Hn Htop Hoff. unfold loadseg.
  apply (loadseg_loop_ok ip content _ s root g sz va off n 0 (umem (m_mem s) g)); try done.
  - rewrite Z.mul_0_l. lia.
  - pose proof (Z.div_mod n PGSIZE ltac:(done)). pose proof (Z.mod_pos_bound n PGSIZE ltac:(done)).
    pose proof (Z.div_pos n PGSIZE ltac:(lia) ltac:(done)). unfold PGSIZE in *. lia.
  - intros x. cbn. by rewrite write_nil.
Qed.

Lemma perm_range fl : 0 ≤ flags2perm fl < 1024.
Proof using Type. unfold flags2perm. by repeat case_match. Qed.

(** A header that [segments] takes. *)
Lemma load_segments_ok ip content n : ∀ s root g off sz,
  reads (m_files s) ip content → Forall is_byte content → Z.of_nat (length content) < 2 ^ 31 →
  space (m_mem s) root g sz → full g (npg sz) →
  ∃ b sz' k' g', load_segments kend n root ip off sz s = (Ret (b, sz'), m_set_mem k' s) ∧ space k' root g' sz' ∧
    evolves none (m_mem s) g k' g' ∧ full g' (npg sz') ∧
    (b = true → ∃ l, segments content n off sz = Some (l, sz') ∧ ∀ x, umem k' g' x = writes l (umem (m_mem s) g) x).
Proof using Hend.
  induction n as [|n IH]; intros s root g off sz Hrd Hby Hc Hs Hf; cbn [load_segments segments].
  { exists true, sz, (m_mem s), g. split; [by destruct s|]. split; [done|]. split; [apply evolves_refl|]. split; [done|].
    intros _. by exists []. }
  assert (Hstop : ∃ b sz' k' g', (Ret (E:=stop) (false, sz), s) = (Ret (b, sz'), m_set_mem k' s) ∧ space k' root g' sz' ∧
    evolves none (m_mem s) g k' g' ∧ full g' (npg sz') ∧ (b = true → ∃ l, segments content (S n) off sz = Some (l, sz') ∧ ∀ x, umem k' g' x = writes l (umem (m_mem s) g) x)).
  { exists false, sz, (m_mem s), g. split; [by destruct s|]. split; [done|]. split; [apply evolves_refl|]. done. }
  cbn [segments] in Hstop.
  rewrite (bind_run _ _ _ _ _ (kread_run s ip content (u32 off) PROGHDR Hrd ltac:(apply Z.mod_pos_bound; lia) ltac:(done))).
  set (ph := chunk content (u32 off) PROGHDR) in *. assert (Hph : Forall is_byte ph) by by apply Forall_take, Forall_drop.
  destruct (negb (Z.of_nat (length ph) =? PROGHDR)); [exact Hstop|].
  destruct (negb (ph_type ph =? ELF_PROG_LOAD)); [by apply IH|].
  pose proof (field_range 16 8 ph Hph) as Hva. fold ph_vaddr in Hva. pose proof (field_range 40 8 ph Hph) as Hms. fold ph_memsz in Hms.
  pose proof (field_range 32 8 ph Hph) as Hfs. fold ph_filesz in Hfs. change (256 ^ Z.of_nat 8) with (2 ^ 64) in *.
  destruct (ph_memsz ph <? ph_filesz ph) eqn:E1; [exact Hstop|]. apply Z.ltb_ge in E1.
  destruct (u64 (ph_vaddr ph + ph_memsz ph) <? ph_vaddr ph) eqn:E2; [exact Hstop|]. apply Z.ltb_ge in E2.
  assert (E2' : (2 ^ 64 <=? ph_vaddr ph + ph_memsz ph) = false).
  { apply Z.leb_gt. destruct (decide (ph_vaddr ph + ph_memsz ph < 2 ^ 64)) as [|Hge]; [done|exfalso].
    assert (u64 (ph_vaddr ph + ph_memsz ph) = ph_vaddr ph + ph_memsz ph - 2 ^ 64) as Eu by (symmetry; apply (Z.mod_unique _ _ 1); lia). lia. }
  rewrite E2' in *. apply Z.leb_gt in E2'. rewrite u64_small by lia.
  destruct (ph_vaddr ph mod PGSIZE =? 0) eqn:E3; cbn [negb orb] in *; [|exact Hstop]. apply Z.eqb_eq in E3.
  destruct (uvmalloc_any kend Hend trampoline trapframe (m_mem s) root g sz (ph_vaddr ph + ph_memsz ph) (flags2perm (ph_flags ph)) Hs Hf
    ltac:(lia) (perm_range _)) as (r & k1 & g1 & Eg & Hev1 & Hm1 & Hr).
  assert (Hev1' : evolves none (m_mem s) g k1 g1) by (by eapply evolves_mono; [|exact Hev1]).
  rewrite (bind_run _ _ _ _ _ (in_mem_run _ s _ _ Eg)). pose proof (s_sz _ _ _ _ _ _ _ Hs) as Hsz.
  destruct (r =? 0) eqn:Er.
  { apply Z.eqb_eq in Er. exists false, sz, k1, g1. split; [done|]. destruct Hr as [(Er' & Hle & Hs1 & Hf1 & _)|(_ & Hs1 & Hf1)]; [|by split_and!].
    assert (sz = 0) as -> by lia. rewrite Er in Hs1, Hf1. by split_and!. }
  apply Z.eqb_neq in Er. destruct Hr as [(Er' & Hle & Hs1 & Hf1 & _)|(H & _)]; [|done]. rewrite <-Er'.
  rewrite (proj2 (Z.eqb_neq r 0)) by done. rewrite trapframe_val in Hle.
  set (fsz := u32 (ph_filesz ph)). set (foff := u32 (ph_off ph)).
  assert (Hfsz : 0 ≤ fsz ≤ ph_filesz ph).
  { unfold fsz, u32. split; [apply Z.mod_pos_bound; lia|]. apply Z.mod_le; lia. }
  destruct (loadseg_ok ip content (m_set_mem k1 s) root g1 r (ph_vaddr ph) foff fsz) as (q & k2 & E4 & Hs2 & Hev2 & Hq); try done.
  - lia.
  - lia.
  - pose proof (npg_bounds r). unfold PGSIZE in *. lia.
  - apply Z.mod_pos_bound. lia.
  - rewrite (bind_run _ _ _ _ _ E4). cbn [m_mem m_set_mem] in Hev2, Hq. destruct Hq as [(-> & El & Hm2) | ->]; cbn [Z.ltb Z.compare].
    2: { exists false, r, k2, g1. split; [done|]. split; [done|]. split; [by eapply evolves_trans|]. by split. }
    rewrite El, Z.eqb_refl. cbn [negb].
    destruct (IH (m_set_mem k2 (m_set_mem k1 s)) root g1 (i32 (off + PROGHDR)) r Hrd Hby Hc Hs2 Hf1) as (b & sz' & k3 & g3 & E5 & Hs3 & Hev3 & Hf3 & Hb).
    rewrite E5. exists b, sz', k3, g3. split; [done|]. split; [done|]. split; [eapply evolves_trans; [exact Hev1'|by eapply evolves_trans]|].
    split; [done|]. intros Eb. destruct (Hb Eb) as (l & -> & Hm3). eexists. split; [done|]. intros x. cbn. rewrite Hm3.
    apply writes_ext. intros y. cbn [m_mem m_set_mem]. rewrite Hm2. by apply write_ext.
Qed.
End Load.
