(* ===== verification/ExecSpec.v ===== *)
(** * What exec promises

    [kexec] either leaves the process, its memory and the number of free pages as
    they were, or replaces its memory by the image that the file describes, with
    the arguments on a stack above a page that the user cannot touch. *)

From stdpp Require Import gmap.
From S2P Require Import Sysfile.
From S2P Require Export ExecLoad.
From S2P Require KString.

#[local] Set Warnings "-clear-no-such-hyp".
#[local] Set Default Proof Using "Type".
#[local] Arguments Z.mul : simpl never.
#[local] Arguments Z.add : simpl never.
#[local] Arguments Z.sub : simpl never.
Local Open Scope Z_scope.

(** ** The stack of a new program *)
Definition push (sp n : Z) : Z := sp - n - (sp - n) mod 16.

Fixpoint arg_addrs (argv : list (list Z)) (sp : Z) : list Z :=
  match argv with
  | [] => []
  | s :: argv => let a := push sp (Z.of_nat (length s) + 1) in a :: arg_addrs argv a
  end.

Fixpoint args_end (argv : list (list Z)) (sp : Z) : Z :=
  match argv with
  | [] => sp
  | s :: argv => args_end argv (push sp (Z.of_nat (length s) + 1))
  end.

Fixpoint with_args (argv : list (list Z)) (sp : Z) (f : Z → Z) : Z → Z :=
  match argv with
  | [] => f
  | s :: argv => let a := push sp (Z.of_nat (length s) + 1) in with_args argv a (write a (s ++ [0]) f)
  end.

(** What [main] finds: [argc + 1] pointers at [a], to the strings [argv] and a last 0. *)
Definition main_args (f : Z → Z) (a : Z) (argv : list (list Z)) : Prop := ∃ ps,
  read a (8 * S (length argv)) f = words (ps ++ [0]) ∧
  Forall2 (λ p s, a < p ∧ read p (S (length s)) f = s ++ [0]) ps argv.

Lemma push_le sp n : 0 ≤ n → push sp n + n ≤ sp ∧ push sp n mod 16 = 0.
Proof.
  intros Hn. unfold push. pose proof (Z.mod_pos_bound (sp - n) 16 ltac:(lia)). split; [lia|].
  pose proof (Z.div_mod (sp - n) 16 ltac:(lia)). replace (sp - n - (sp - n) mod 16) with ((sp - n) / 16 * 16) by lia.
  by apply Z.mod_mul.
Qed.

Lemma args_end_le argv : ∀ sp, args_end argv sp ≤ sp.
Proof.
  induction argv as [|s argv IH]; intros sp; cbn; [lia|]. specialize (IH (push sp (Z.of_nat (length s) + 1))).
  destruct (push_le sp (Z.of_nat (length s) + 1)); lia.
Qed.

Lemma length_arg_addrs argv : ∀ sp, length (arg_addrs argv sp) = length argv.
Proof. induction argv as [|s argv IH]; intros sp; [done|]. cbn. by rewrite IH. Qed.

Lemma with_args_ext argv : ∀ sp f f', (∀ x, f x = f' x) → ∀ x, with_args argv sp f x = with_args argv sp f' x.
Proof.
  induction argv as [|s argv IH]; intros sp f f' H x; [apply H|]. cbn. apply IH. intros y. by apply write_ext.
Qed.

(** Strings are stored between [args_end] and [sp]. *)
Lemma with_args_out argv : ∀ sp f x, ¬ args_end argv sp ≤ x < sp → with_args argv sp f x = f x.
Proof.
  induction argv as [|s argv IH]; intros sp f x Hx; cbn in *; [done|]. set (a := push sp (Z.of_nat (length s) + 1)) in *.
  destruct (push_le sp (Z.of_nat (length s) + 1)) as [Hp _]; [lia|]. fold a in Hp. pose proof (args_end_le argv a).
  rewrite IH by lia. rewrite write_out; [done|]. rewrite length_app. cbn. lia.
Qed.

Lemma read_within a n f f' : (∀ x, a ≤ x < a + Z.of_nat n → f x = f' x) → read a n f = read a n f'.
Proof. intros H. unfold read. apply list_fmap_ext. intros i x Hi. apply lookup_seq in Hi as [-> Hi]. apply H. lia. Qed.

Lemma with_args_read argv : ∀ sp f,
  Forall2 (λ p s, args_end argv sp ≤ p ∧ read p (S (length s)) (with_args argv sp f) = s ++ [0]) (arg_addrs argv sp) argv.
Proof.
  induction argv as [|s argv IH]; intros sp f; cbn [arg_addrs args_end with_args]; constructor; [|apply IH].
  split; [apply args_end_le|]. set (a := push sp (Z.of_nat (length s) + 1)).
  rewrite (read_within a _ _ (write a (s ++ [0]) f)).
  - replace (S (length s)) with (length (s ++ [0])) by (rewrite length_app; cbn; lia). apply read_write.
  - intros x Hx. apply with_args_out. lia.
Qed.

Lemma length_pointers l : length (words l) = (8 * length l)%nat.
Proof.
  unfold words. induction l as [|x l IH]; [done|]. rewrite fmap_cons. cbn [concat]. rewrite length_app, IH, length_le_bytes. cbn [length]. lia.
Qed.

Lemma stack_args argv sp a f :
  a + Z.of_nat (8 * S (length argv)) ≤ args_end argv sp →
  main_args (write a (words (arg_addrs argv sp ++ [0])) (with_args argv sp f)) a argv.
Proof.
  intros Ha. exists (arg_addrs argv sp). set (w := words (arg_addrs argv sp ++ [0])).
  assert (Hl : length w = (8 * S (length argv))%nat) by (unfold w; rewrite length_pointers, length_app, length_arg_addrs; cbn; lia).
  split; [rewrite <-Hl; apply read_write|]. eapply Forall2_impl; [apply (with_args_read argv sp f)|]. intros p s [Hp Hr].
  split; [lia|]. etrans; [|exact Hr]. apply read_within. intros x Hx. apply write_out. lia.
Qed.

(** ** Building an address space beside the old one *)
Section Build.
Context (kend : Z) (Hend : 0 < kend < PHYSTOP).
Context (trampoline trapframe : Z) (Htramp : aligned trampoline) (Htrap : aligned trapframe).
Abbreviation space := (space kend trampoline trapframe).
Abbreviation evolves := (evolves UVPN).
Abbreviation none := (λ _ : Z, False).

(** From the free pages [f] of [k0]. *)
Record building (k0 : kmem) (f : list Z) (k : kmem) (root : Z) (g : ghost) (sz : Z) : Prop := {
  bd_space : space k root g sz;
  bd_frame : framed f k0 k;
  bd_pool p : pool g p ↔ p ∈ f
}.

Lemma building_step k0 f k root g sz k' g' sz' :
  building k0 f k root g sz → evolves none k g k' g' → space k' root g' sz' → building k0 f k' root g' sz'.
Proof using Type.
  intros [Hs Hf Hp] Hev Hs'. split; [done| |].
  - intros x Hx. rewrite (ev_frame _ _ _ _ _ _ Hev); [by apply Hf|]. intros p Hpp. apply Hx. by apply Hp.
  - intros p. by rewrite (ev_pool _ _ _ _ _ _ Hev).
Qed.

Lemma exec_bad_ok me k0 f s root g sz :
  free_pages kend k0 f → building k0 f (m_mem s) root g sz → root ≠ 0 →
  ∃ k', exec_bad me kend root sz None s = (Ret (-1), m_set_mem k' s) ∧ restored kend f k0 k'.
Proof using Hend.
  intros Hf [Hs Hfr Hp] Hr. unfold exec_bad. rewrite (proj2 (Z.eqb_neq root 0)) by done.
  destruct (proc_freepagetable_ok kend Hend trampoline trapframe (m_mem s) root g sz Hs) as (k' & f' & E & Hf' & Hq & Hm).
  rewrite (bind_run _ _ _ _ _ (in_mem_run _ s _ _ E)). exists k'. split; [done|].
  by apply (restored_intro kend f k0 g (m_mem s) k' f').
Qed.

(** *** The arguments *)
Lemma push_args_ok argv : ∀ s root g sz base sp,
  space (m_mem s) root g sz → PGSIZE ≤ base ≤ sp → sp ≤ sz → Forall (λ a, Z.of_nat (length a) < PGSIZE) argv →
  ∃ r k' g', push_args kend root sz base argv sp s = (Ret r, m_set_mem k' s) ∧ space k' root g' sz ∧
    evolves none (m_mem s) g k' g' ∧ (∀ v e, leaf g !! v = Some e → leaf g' !! v = Some e) ∧
    match r with
    | None => True
    | Some (sp', l) => l = arg_addrs argv sp ∧ sp' = args_end argv sp ∧ base ≤ sp' ∧
                       ∀ x, umem k' g' x = with_args argv sp (umem (m_mem s) g) x
    end.
Proof using Hend.
  induction argv as [|a argv IH]; intros s root g sz base sp Hs Hb Hsp Hlen; cbn [push_args].
  { exists (Some (sp, [])), (m_mem s), g. split; [by destruct s|]. split; [done|]. split; [apply evolves_refl|]. split; [done|].
    split; [done|]. split; [done|]. split; [lia|]. done. }
  apply Forall_cons in Hlen as [Ha Hlen]. pose proof Hs as [Hok Hh Hsz _ _]. rewrite trapframe_val in Hsz.
  rewrite u64_small by lia. fold (push sp (Z.of_nat (length a) + 1)). cbv zeta. cbn [arg_addrs args_end with_args].
  set (p := push sp (Z.of_nat (length a) + 1)). destruct (push_le sp (Z.of_nat (length a) + 1)) as [Hp _]; [lia|]. fold p in Hp.
  destruct (p <? base) eqn:E.
  { exists None, (m_mem s), g. split; [by destruct s|]. split; [done|]. split; [apply evolves_refl|]. done. }
  apply Z.ltb_ge in E.
  destruct (copyout_ok kend Hend root sz (m_mem s) g p (a ++ [0]) Hok ltac:(unfold PGSIZE in *; lia) ltac:(rewrite trapframe_val; lia))
    as (r & k1 & g1 & E1 & Hok1 & Hh1 & Hst & Hr).
  rewrite (bind_run _ _ _ _ _ (in_mem_run _ s _ _ E1)).
  assert (Hs1 : space k1 root g1 sz) by (apply (stored_space kend trampoline trapframe (m_mem s) root g); done).
  assert (Hev1 : evolves none (m_mem s) g k1 g1) by (eapply evolves_mono; [|apply (st_evolves _ _ _ _ _ Hst)]; done).
  destruct Hr as [(-> & Hm & _)|(-> & _)]; cbn [Z.ltb Z.compare].
  2: { exists None, k1, g1. split; [done|]. split; [done|]. split; [done|]. split; [apply (st_keep _ _ _ _ _ Hst)|done]. }
  destruct (IH (m_set_mem k1 s) root g1 sz base p Hs1 ltac:(lia) ltac:(lia) Hlen) as (r & k2 & g2 & E2 & Hs2 & Hev2 & Hl2 & Hr2).
  rewrite (bind_run _ _ _ _ _ E2). eexists _, k2, g2. split; [done|]. split; [done|]. split; [by eapply evolves_trans|].
  split; [intros v e He; by apply Hl2, (st_keep _ _ _ _ _ Hst)|].
  destruct r as [[sp' l]|]; [|done]. destruct Hr2 as (-> & -> & Hle & Hm2). split; [done|]. split; [done|]. split; [done|].
  intros x. rewrite Hm2. apply with_args_ext. exact Hm.
Qed.

(** *** The stack and the end *)
Definition new_proc (path : list Z) (p : xproc) (root sz entry sp : Z) : xproc :=
  {| x_pagetable := root; x_sz := sz; x_trapframe := x_trapframe p;
     x_name := set_name (KString.safestrcpy (λ i, default 0 (last_part path path !! i)) 16) (x_name p);
     x_epc := entry; x_sp := sp; x_a1 := sp |}.

(** A program of [n] pages and a stack above it; below the stack its memory is [f]. *)
Record started (k : kmem) (g : ghost) (n : Z) (sp : Z) (argv : list (list Z)) (f : Z → Z) : Prop := {
  st_guard : user_pa g n = 0;
  st_sp : (n + 1) * PGSIZE ≤ sp ∧ sp mod 16 = 0;
  st_args : main_args (umem k g) sp argv;
  st_rest x : x < (n + 1) * PGSIZE → umem k g x = f x
}.

(** The two pages of the stack, the lower one closed to the user. *)
Lemma stack_pages_ok k root g sz :
  space k root g sz → full g (npg sz) →
  ∃ r k' g', uvmalloc kend root (npg sz * PGSIZE) (u64 (npg sz * PGSIZE + (USERSTACK + 1) * PGSIZE)) PTE_W k = (Ret r, k') ∧
    evolves none k g k' g' ∧
    (r = 0 ∧ space k' root g' (npg sz * PGSIZE) ∨
     r = (npg sz + 2) * PGSIZE ∧ ∃ k2 g2, uvmclear root (u64 (r - (USERSTACK + 1) * PGSIZE)) k' = (Ret (), k2) ∧
       space k2 root g2 r ∧ evolves none k g k2 g2 ∧ (∃ p, leaf g2 !! npg sz = Some (pte_of p 6) ∧ aligned p) ∧
       ∀ x, umem k2 g2 x = umem k g x).
Proof using Hend.
  intros Hs Hf. pose proof (s_sz _ _ _ _ _ _ _ Hs) as Hsz. pose proof (npg_le sz Hsz) as Hm. pose proof (npg_bounds sz) as Hb.
  pose proof uvpn_val as Hu. rewrite trapframe_val in Hsz, Hu. unfold USERSTACK.
  destruct (lazy_ok kend trampoline trapframe k root g sz (npg sz * PGSIZE) Hs ltac:(rewrite trapframe_val; unfold PGSIZE in *; lia)) as [Hs1 _].
  assert (Hf1 : full g (npg (npg sz * PGSIZE))) by by rewrite npg_mul.
  rewrite u64_small by (unfold PGSIZE in *; lia).
  destruct (uvmalloc_any kend Hend trampoline trapframe k root g (npg sz * PGSIZE) (npg sz * PGSIZE + (1 + 1) * PGSIZE) PTE_W Hs1 Hf1
    ltac:(unfold PGSIZE in *; lia) ltac:(done)) as (r & k' & g' & E & Hev & Hmem & Hr).
  assert (Hev' : evolves none k g k' g') by (by eapply evolves_mono; [|exact Hev]).
  exists r, k', g'. split; [done|]. split; [done|]. destruct Hr as [(Er & Hle & Hs' & Hf' & Hz)|(-> & Hs' & _)]; [right|by left].
  rewrite npg_mul in Hz. assert (r = (npg sz + 2) * PGSIZE) as -> by (unfold PGSIZE in *; lia). rewrite npg_mul in Hz.
  split; [done|]. replace (u64 _) with (npg sz * PGSIZE) by (rewrite trapframe_val in Hle; rewrite u64_small; unfold PGSIZE in *; lia).
  destruct (Hz (npg sz) ltac:(lia)) as (p & Hl & Hp & _). change (Z.lor (Z.lor PTE_R PTE_U) PTE_W) with 22 in Hl.
  destruct (uvmclear_ok kend Hend trampoline trapframe k' root g' ((npg sz + 2) * PGSIZE) (npg sz) p Hs' ltac:(rewrite npg_mul; lia) Hl Hp)
    as (k2 & g2 & E2 & Hs2 & Hev2 & Hl2 & Hm2).
  exists k2, g2. split; [done|]. split; [done|]. split; [|split].
  - eapply evolves_trans; [exact Hev'|]. by eapply evolves_mono; [|exact Hev2].
  - exists p. rewrite Hl2, lookup_insert_eq. split; [done|]. by apply (page_aligned kend Hend).
  - intros x. by rewrite Hm2.
Qed.

Section Stack.
Context (me : Z) (k0 : kmem) (root0 : Z) (g0 : ghost).
Context (path : list Z) (argv : list (list Z)) (elf : list Z).
Context (Hargs : Forall (λ a, Z.of_nat (length a) < PGSIZE) argv) (Hargc : (length argv < MAXARG)%nat).
Abbreviation argc := (Z.of_nat (length argv)).

(** What [exec_stack] ends with. *)
Definition stack_result (s : machine) (root : Z) (g : ghost) (sz : Z) (r : Z) (k' : kmem) (p' : xproc) : Prop :=
  r = -1 ∧ p' = m_proc s ∧ restored kend (fr g0) k0 k' ∨
  r = argc ∧ ∃ sp g', p' = new_proc path (m_proc s) root ((npg sz + 2) * PGSIZE) (elf_entry elf) sp ∧
    space k' root g' ((npg sz + 2) * PGSIZE) ∧ (∀ p, pool g' p ↔ pool g0 p) ∧
    started k' g' (npg sz) sp argv (umem (m_mem s) g).

Lemma exec_stack_ok s root g sz :
  root0 = x_pagetable (m_proc s) → x_trapframe (m_proc s) = trapframe → space k0 root0 g0 (x_sz (m_proc s)) →
  building k0 (fr g0) (m_mem s) root g sz → full g (npg sz) → root ≠ 0 →
  ∃ r k' p', exec_stack me kend path argv elf root sz s = (Ret r, {| m_mem := k'; m_files := m_files s; m_proc := p' |}) ∧
    stack_result s root g sz r k' p'.
Proof using Hend Hargs Hargc.
  intros -> Htf Hs0 Hbd Hf Hr0. pose proof (bd_space _ _ _ _ _ _ Hbd) as Hs. pose proof Hs0 as [Hok0 _ _ _ _].
  pose proof (v_free _ _ _ _ _ Hok0) as Hfree. pose proof (s_sz _ _ _ _ _ _ _ Hs) as Hsz. pose proof (npg_le sz Hsz) as Hm.
  assert (Hbad : ∀ s1 g1 sz1, m_files s1 = m_files s → m_proc s1 = m_proc s → building k0 (fr g0) (m_mem s1) root g1 sz1 →
    ∃ r k' p', exec_bad me kend root sz1 None s1 = (Ret r, {| m_mem := k'; m_files := m_files s; m_proc := p' |}) ∧
    stack_result s root g sz r k' p').
  { intros s1 g1 sz1 Ef Ep Hb1. destruct (exec_bad_ok me k0 (fr g0) s1 root g1 sz1 Hfree Hb1 Hr0) as (k' & E & Hre).
    exists (-1), k', (m_proc s). rewrite E. unfold m_set_mem. rewrite Ef, Ep. split; [done|]. by left. }
  unfold exec_stack, mbind at 1, M_bind at 1, gets at 1. rewrite u64_round by done.
  destruct (stack_pages_ok (m_mem s) root g sz Hs Hf) as (r & k1 & g1 & E1 & Hev1 & Hr).
  rewrite (bind_run _ _ _ _ _ (in_mem_run _ s _ _ E1)). destruct Hr as [(-> & Hs1)|(-> & k2 & g2 & E2 & Hs2 & Hev2 & (gp & Hg2 & Hga) & Hm2)].
  { cbn [Z.eqb]. apply Hbad with (g1 := g1); [done|done|]. by eapply building_step. }
  assert (Hu : UVPN * PGSIZE = 2 ^ 38 - 8192) by done. pose proof (s_sz _ _ _ _ _ _ _ Hs2) as Hsz2. rewrite trapframe_val in Hsz2.
  rewrite (proj2 (Z.eqb_neq _ 0)) by (unfold PGSIZE; lia).
  rewrite (bind_run _ _ _ _ _ (in_mem_run _ (m_set_mem k1 s) _ _ E2)).
  replace (u64 ((npg sz + 2) * PGSIZE - USERSTACK * PGSIZE)) with ((npg sz + 1) * PGSIZE)
    by (unfold USERSTACK; rewrite u64_small; unfold PGSIZE in *; lia).
  destruct (push_args_ok argv (m_set_mem k2 (m_set_mem k1 s)) root g2 ((npg sz + 2) * PGSIZE) ((npg sz + 1) * PGSIZE) ((npg sz + 2) * PGSIZE)
    Hs2 ltac:(unfold PGSIZE in *; lia) ltac:(lia) Hargs) as (r & k3 & g3 & E3 & Hs3 & Hev3 & Hl3 & Hr3).
  rewrite (bind_run _ _ _ _ _ E3). cbn [m_mem m_set_mem] in Hev3, Hr3.
  assert (Hb3 : building k0 (fr g0) k3 root g3 ((npg sz + 2) * PGSIZE)).
  { eapply building_step; [eapply building_step; [exact Hbd|exact Hev2|exact Hs2]|exact Hev3|exact Hs3]. }
  destruct r as [[sp l]|]; [|by apply Hbad with (g1 := g3)]. destruct Hr3 as (-> & -> & Hle & Hm3). cbv zeta.
  pose proof (args_end_le argv ((npg sz + 2) * PGSIZE)) as Hae. set (e := args_end argv ((npg sz + 2) * PGSIZE)) in *.
  unfold MAXARG in Hargc. rewrite u64_small by (unfold PGSIZE in *; lia).
  change (e - (argc + 1) * 8 - (e - (argc + 1) * 8) mod 16) with (push e ((argc + 1) * 8)).
  destruct (push_le e ((argc + 1) * 8) ltac:(lia)) as [Hpl Hpm]. set (sp := push e ((argc + 1) * 8)) in *.
  destruct (sp <? (npg sz + 1) * PGSIZE) eqn:Esp; [by apply Hbad with (g1 := g3)|]. apply Z.ltb_ge in Esp.
  pose proof Hs3 as [Hok3 Hh3 _ _ _].
  set (w := words (arg_addrs argv ((npg sz + 2) * PGSIZE) ++ [0])).
  destruct (copyout_ok kend Hend root ((npg sz + 2) * PGSIZE) k3 g3 sp w Hok3 ltac:(unfold PGSIZE in *; lia) ltac:(rewrite trapframe_val; lia))
    as (r & k4 & g4 & E4 & Hok4 & Hh4 & Hst4 & Hr4).
  rewrite (bind_run _ _ _ _ _ (in_mem_run _ (m_set_mem k3 _) _ _ E4)).
  assert (Hs4 : space k4 root g4 ((npg sz + 2) * PGSIZE)) by (apply (stored_space kend trampoline trapframe k3 root g3); done).
  assert (Hev4 : evolves none k3 g3 k4 g4) by (eapply evolves_mono; [|apply (st_evolves _ _ _ _ _ Hst4)]; done).
  assert (Hb4 : building k0 (fr g0) k4 root g4 ((npg sz + 2) * PGSIZE)) by by eapply building_step.
  destruct Hr4 as [(-> & Hm4 & _)|(-> & _)]; cbn [Z.ltb Z.compare]; [|by apply Hbad with (g1 := g4)].
  unfold mbind at 1, M_bind at 1, modify at 1.
  destruct (old_freed kend Hend trampoline trapframe k0 (x_pagetable (m_proc s)) g0 (x_sz (m_proc s)) k4 root g4 ((npg sz + 2) * PGSIZE)
    Hs0 Hs4 (bd_pool _ _ _ _ _ _ Hb4) (bd_frame _ _ _ _ _ _ Hb4)) as (k5 & g5 & E5 & Hs5 & Hp5 & Hl5 & Hm5).
  match goal with |- context [m_set_proc ?p ?t] => set (s5 := m_set_proc p t) end.
  rewrite (bind_run _ _ _ _ _ (in_mem_run _ s5 _ _ E5)).
  exists argc, k5, (new_proc path (m_proc s) root ((npg sz + 2) * PGSIZE) (elf_entry elf) sp). split; [done|].
  right. split; [done|]. exists sp, g5. split; [done|]. split; [done|]. split; [done|].
  assert (Hall : ∀ x, umem k5 g5 x = write sp w (with_args argv ((npg sz + 2) * PGSIZE) (umem (m_mem s) g)) x).
  { intros x. rewrite Hm5, Hm4. apply write_ext. rewrite Hm3. by apply with_args_ext. }
  split; [|done| |].
  - unfold user_pa. rewrite Hl5, (st_keep _ _ _ _ _ Hst4 _ _ (Hl3 _ _ Hg2)). by rewrite pte_bit by done.
  - destruct (stack_args argv ((npg sz + 2) * PGSIZE) sp (umem (m_mem s) g)) as (ps & H1 & H2); [fold e; lia|].
    exists ps. fold w in H1, H2. split; [by rewrite (read_ext _ _ _ _ Hall)|]. eapply Forall2_impl; [exact H2|].
    intros p a [Hp Hrd]. split; [done|]. by rewrite (read_ext _ _ _ _ Hall).
  - intros x Hx. rewrite Hall, write_out by lia. apply with_args_out. fold e. lia.
Qed.
End Stack.
End Build.

(** ** The whole call *)
Lemma reads_contents f ip i :
  fs_wf (k_fs f) → itable (k_fs f) !! ip = Some i → i_valid i = true → reads f ip (contents (k_fs f) i).
Proof.
  intros Hw Hi Hv off n Hoff Hn. pose proof (wf_inode _ Hw ip i Hi Hv) as [W1 W2 W3 W4 W5].
  assert (Hs : i_size i < 2 ^ 32) by (rewrite max_bytes_val in W2; lia). unfold fsop, PGSIZE in *.
  rewrite (readi_run (k_fs f) ip i to_kernel Hi (wf_layout _ Hw) (wf_held _ Hw) W1 W2 W3 (λ _ _, eq_refl) off n Hoff) by lia.
  replace (set_fs (k_fs f) f) with f by (by destruct f).
  pose proof (length_contents (k_fs f) i) as Hl. unfold read_len. destruct (i_size i <? off) eqn:E; cbn [orb].
  { apply Z.ltb_lt in E. unfold chunk. rewrite drop_ge by lia. by rewrite take_nil. }
  apply Z.ltb_ge in E. rewrite max_bytes_val in W2. rewrite (proj2 (Z.leb_gt _ _)) by lia.
  rewrite <-slice_contents by lia. unfold slice, chunk.
  assert (Ec : take (Z.to_nat (Z.min n (i_size i - off))) (drop (Z.to_nat off) (contents (k_fs f) i)) =
               take (Z.to_nat n) (drop (Z.to_nat off) (contents (k_fs f) i))).
  { destruct (decide (n ≤ i_size i - off)); [by rewrite Z.min_l by lia|]. rewrite !firstn_all2; [done| |]; rewrite length_drop; lia. }
  rewrite Ec. do 3 f_equal. rewrite length_take, length_drop. lia.
Qed.

Lemma contents_size f ip i :
  fs_wf (k_fs f) → itable (k_fs f) !! ip = Some i → i_valid i = true → Z.of_nat (length (contents (k_fs f) i)) < 2 ^ 31.
Proof.
  intros Hw Hi Hv. pose proof (iw_size _ _ (wf_inode _ Hw ip i Hi Hv)) as W. rewrite max_bytes_val in W. rewrite length_contents. lia.
Qed.

(** The calls on files that [kexec] makes: [path] is found and locked, which gives [f2]; its bytes are [content]; it is
    put back. *)
Record opened (me : Z) (junk path : list Z) (f : kernel) (ip : nat) (f2 : kernel) (content : list Z) (f' : kernel) : Prop := {
  op_walk : ∃ f1, ipath me junk path (set_ops (k_ops f + 1) f) = (Ret (Some ip), f1) ∧
                  fsop (ilock me (Some ip)) f1 = (Ret (), f2);
  op_file : ∃ i, fs_wf (k_fs f2) ∧ itable (k_fs f2) !! ip = Some i ∧ i_valid i = true ∧ content = contents (k_fs f2) i;
  op_bytes : Forall is_byte content;
  op_put : ∃ f3, fsop (iunlockput me ip) f2 = (Ret (), f3) ∧ f' = set_ops (k_ops f3 - 1) f3
}.

Lemma opened_reads me junk path f ip f2 content f' :
  opened me junk path f ip f2 content f' → reads f2 ip content ∧ Z.of_nat (length content) < 2 ^ 31.
Proof. intros [_ (i & H1 & H2 & H3 & ->) _ _]. split; [by apply reads_contents|by eapply contents_size]. Qed.

Section Exec.
Context (kend : Z) (Hend : 0 < kend < PHYSTOP).
Context (trampoline trapframe : Z) (Htramp : aligned trampoline) (Htrap : aligned trapframe).
Abbreviation space := (space kend trampoline trapframe).
Abbreviation none := (λ _ : Z, False).
Lemma restored_refl k f : free_pages kend k f → restored kend f k k.
Proof using Type. intros H. by exists f. Qed.

Lemma umem_fresh k root g x : space k root g 0 → umem k g x = 0.
Proof using Type.
  intros Hs. destruct (decide (0 ≤ x)) as [Hx|Hx]; [by apply (umem_above kend trampoline trapframe k root g 0 x Hs)|].
  unfold umem. rewrite decide_True by (rewrite trapframe_val; lia). destruct (leaf g !! (x / PGSIZE)) as [e|] eqn:E; [exfalso|done].
  pose proof (leaf_nonneg kend k root g _ (s_ok _ _ _ _ _ _ _ Hs) ltac:(by rewrite E)).
  pose proof (Z.div_lt_upper_bound x PGSIZE 0 ltac:(done) ltac:(lia)). lia.
Qed.

Context (me : Z) (junk path : list Z) (argv : list (list Z)) (ip : nat) (content : list Z).
Context (Hargs : Forall (λ a, Z.of_nat (length a) < PGSIZE) argv) (Hargc : (length argv < MAXARG)%nat).

Lemma exec_bad_file k0 f s root g sz f3 :
  fsop (iunlockput me ip) (m_files s) = (Ret (), f3) → free_pages kend k0 f →
  (root = 0 ∧ restored kend f k0 (m_mem s) ∨ root ≠ 0 ∧ building kend trampoline trapframe k0 f (m_mem s) root g sz) →
  ∃ k', exec_bad me kend root sz (Some ip) s =
    (Ret (-1), {| m_mem := k'; m_files := set_ops (k_ops f3 - 1) f3; m_proc := m_proc s |}) ∧ restored kend f k0 k'.
Proof using Hend.
  intros Hput Hf Hr. unfold exec_bad.
  assert (Hfree : ∃ k', (if root =? 0 then mret () else in_mem (proc_freepagetable kend root sz)) s = (Ret (), m_set_mem k' s) ∧
    restored kend f k0 k').
  { destruct Hr as [(-> & Hr)|(Hr & [Hs Hfr Hp])].
    - exists (m_mem s). split; [by destruct s|done].
    - rewrite (proj2 (Z.eqb_neq root 0)) by done.
      destruct (proc_freepagetable_ok kend Hend trampoline trapframe (m_mem s) root g sz Hs) as (k' & f' & E & Hf' & Hq & Hm).
      exists k'. split; [by apply in_mem_run|]. by apply (restored_intro kend f k0 g (m_mem s) k' f'). }
  destruct Hfree as (k' & E & Hre). rewrite (bind_run _ _ _ _ _ E). exists k'. split; [|done].
  assert (E1 : in_files (fsop (iunlockput me ip)) (m_set_mem k' s) = (Ret (), m_set_files f3 (m_set_mem k' s)))
    by (unfold in_files; cbn [m_files m_set_mem]; by rewrite Hput).
  by rewrite (bind_run _ _ _ _ _ E1).
Qed.

(** What [kexec] ends with, from the process [p] with the memory [k] and the pages [g]. *)
Definition exec_result (p : xproc) (k : kmem) (g : ghost) (r : Z) (k' : kmem) (p' : xproc) : Prop :=
  (r = -1 ∧ p' = p ∧ ∃ g', space k' (x_pagetable p) g' (x_sz p) ∧ (∀ q, pool g' q ↔ pool g q) ∧ ∀ x, umem k' g' x = umem k g x) ∨
  (r = Z.of_nat (length argv) ∧ ∃ l sz root sp g',
     let elf := chunk content 0 ELFHDR in
     elf_magic elf = ELF_MAGIC ∧ segments content (Z.to_nat (elf_phnum elf)) (i32 (elf_phoff elf)) 0 = Some (l, sz) ∧
     p' = new_proc path p root ((npg sz + 2) * PGSIZE) (elf_entry elf) sp ∧
     space k' root g' (x_sz p') ∧ (∀ q, pool g' q ↔ pool g q) ∧ started k' g' (npg sz) sp argv (writes l (λ _, 0))).

Lemma exec_failed p k g k' :
  space k (x_pagetable p) g (x_sz p) → restored kend (fr g) k k' → exec_result p k g (-1) k' p.
Proof using Type.
  intros Hs Hr. left. split; [done|]. split; [done|]. by apply (old_restored kend trampoline trapframe k).
Qed.

Lemma exec_image_ok s g f3 :
  reads (m_files s) ip content → Z.of_nat (length content) < 2 ^ 31 → Forall is_byte content →
  fsop (iunlockput me ip) (m_files s) = (Ret (), f3) →
  space (m_mem s) (x_pagetable (m_proc s)) g (x_sz (m_proc s)) → x_trapframe (m_proc s) = trapframe →
  ∃ r k' p', exec_image me kend trampoline path argv ip s =
    (Ret r, {| m_mem := k'; m_files := set_ops (k_ops f3 - 1) f3; m_proc := p' |}) ∧
    exec_result (m_proc s) (m_mem s) g r k' p'.
Proof using Hend Htramp Htrap Hargs Hargc.
  intros Hrd Hlen Hby Hput Hs Htf. pose proof (v_free _ _ _ _ _ (s_ok _ _ _ _ _ _ _ Hs)) as Hfree.
  unfold exec_image. rewrite (bind_run _ _ _ _ _ (kread_run s ip content 0 ELFHDR Hrd ltac:(lia) ltac:(done))).
  set (elf := chunk content 0 ELFHDR).
  assert (Hbad : ∀ s1 root1 g1 sz1, m_files s1 = m_files s → m_proc s1 = m_proc s →
    (root1 = 0 ∧ restored kend (fr g) (m_mem s) (m_mem s1) ∨ root1 ≠ 0 ∧ building kend trampoline trapframe (m_mem s) (fr g) (m_mem s1) root1 g1 sz1) →
    ∃ r k' p', exec_bad me kend root1 sz1 (Some ip) s1 =
      (Ret r, {| m_mem := k'; m_files := set_ops (k_ops f3 - 1) f3; m_proc := p' |}) ∧ exec_result (m_proc s) (m_mem s) g r k' p').
  { intros s1 root1 g1 sz1 Ef Ep Hb. destruct (exec_bad_file (m_mem s) (fr g) s1 root1 g1 sz1 f3) as (k' & E & Hre); [by rewrite Ef|done|done|].
    exists (-1), k', (m_proc s). rewrite E, Ep. split; [done|]. by apply exec_failed. }
  assert (Hsame : restored kend (fr g) (m_mem s) (m_mem s)) by by apply restored_refl.
  destruct (Z.of_nat (length elf) =? ELFHDR); cbn [negb]; [|apply (Hbad s 0 g 0); auto].
  destruct (elf_magic elf =? ELF_MAGIC) eqn:Em; cbn [negb]; [|apply (Hbad s 0 g 0); auto]. apply Z.eqb_eq in Em.
  unfold mbind at 1, M_bind at 1, gets at 1. rewrite Htf.
  destruct (proc_pagetable_ok kend Hend trampoline trapframe Htramp Htrap (m_mem s) (fr g) Hfree) as (root & k1 & E1 & Hr).
  rewrite (bind_run _ _ _ _ _ (in_mem_run _ s _ _ E1)). destruct Hr as [(-> & Hre)|(Hr & Hfr & g1 & Hs1 & Hp1)].
  { cbn [Z.eqb]. apply (Hbad (m_set_mem k1 s) 0 g 0); auto. }
  rewrite (proj2 (Z.eqb_neq root 0)) by done.
  assert (Hbd1 : building kend trampoline trapframe (m_mem s) (fr g) k1 root g1 0) by by split.
  destruct (load_segments_ok kend Hend trampoline trapframe ip content (Z.to_nat (elf_phnum elf)) (m_set_mem k1 s) root g1
    (i32 (elf_phoff elf)) 0 Hrd Hby Hlen Hs1 ltac:(intros w Hw; change (npg 0) with 0 in Hw; lia)) as (b & sz & k2 & g2 & E2 & Hs2 & Hev2 & Hf2 & Hb).
  rewrite (bind_run _ _ _ _ _ E2). cbn [m_mem m_set_mem] in Hev2, Hb.
  assert (Hbd2 : building kend trampoline trapframe (m_mem s) (fr g) k2 root g2 sz) by by eapply building_step.
  destruct b; cbn [negb]; [|apply (Hbad (m_set_mem k2 (m_set_mem k1 s)) root g2 sz); auto].
  destruct (Hb eq_refl) as (l & Hl & Hm2). set (s2 := m_set_mem k2 (m_set_mem k1 s)).
  assert (E3 : in_files (fsop (iunlockput me ip)) s2 = (Ret (), m_set_files f3 s2)) by (unfold in_files; cbn [m_files m_set_mem s2]; by rewrite Hput).
  rewrite (bind_run _ _ _ _ _ E3). set (s3 := m_set_files (set_ops (k_ops f3 - 1) f3) s2).
  assert (E4 : in_files end_op (m_set_files f3 s2) = (Ret (), s3)) by done. rewrite (bind_run _ _ _ _ _ E4).
  destruct (exec_stack_ok kend Hend trampoline trapframe me (m_mem s) (x_pagetable (m_proc s)) g path argv elf Hargs Hargc s3 root g2 sz
    eq_refl Htf Hs Hbd2 Hf2 Hr) as (r & k' & p' & E5 & Hres).
  exists r, k', p'. split; [exact E5|]. destruct Hres as [(-> & -> & Hre)|(-> & sp & g' & -> & Hs' & Hp' & Hst)]; [by apply exec_failed|].
  right. split; [done|]. exists l, sz, root, sp, g'. cbv zeta. fold elf. split; [done|]. split; [done|]. split; [done|]. split; [done|].
  split; [done|]. destruct Hst as [H1 H2 H3 H4]. split; [done|done|done|]. intros x Hx. rewrite H4 by done. cbn [m_mem s3 s2 m_set_files m_set_mem].
  rewrite Hm2. apply writes_ext. intros y. by apply (umem_fresh k1 root g1).
Qed.

Lemma kexec_ok s g f2 f' :
  opened me junk path (m_files s) ip f2 content f' →
  space (m_mem s) (x_pagetable (m_proc s)) g (x_sz (m_proc s)) → x_trapframe (m_proc s) = trapframe →
  ∃ r k' p', kexec me junk kend trampoline path argv s = (Ret r, {| m_mem := k'; m_files := f'; m_proc := p' |}) ∧
    exec_result (m_proc s) (m_mem s) g r k' p'.
Proof using Hend Htramp Htrap Hargs Hargc.
  intros Ho Hs Htf. destruct (opened_reads _ _ _ _ _ _ _ _ Ho) as [Hrd Hlen]. destruct Ho as [(f1 & Hw & Hk) _ Hby (f3 & Hput & ->)].
  unfold kexec. assert (E0 : in_files begin_op s = (Ret (), m_set_files (set_ops (k_ops (m_files s) + 1) (m_files s)) s)) by done.
  rewrite (bind_run _ _ _ _ _ E0).
  assert (E1 : in_files (ipath me junk path) (m_set_files (set_ops (k_ops (m_files s) + 1) (m_files s)) s) = (Ret (Some ip), m_set_files f1 s))
    by (unfold in_files; cbn [m_files m_set_files]; by rewrite Hw).
  rewrite (bind_run _ _ _ _ _ E1).
  assert (E2 : in_files (fsop (ilock me (Some ip))) (m_set_files f1 s) = (Ret (), m_set_files f2 s))
    by (unfold in_files; cbn [m_files m_set_files]; by rewrite Hk).
  rewrite (bind_run _ _ _ _ _ E2). by apply (exec_image_ok (m_set_files f2 s)).
Qed.

(** C10: [kexec] of a file that can be opened and put back: it ends; it returns -1 and the process has its page table,
    its memory and its size as before, or it returns [argc] and the process has a new address space: the segments of
    the file with zeros around them, a page the user cannot touch, and a stack that holds [argv] as [main] expects it,
    at an aligned [sp]; the other fields of the process are set from the file and the path.  Either way no page is lost
    and the inode is put back. *)
Theorem exec_replaces s g f2 f' :
  opened me junk path (m_files s) ip f2 content f' →
  space (m_mem s) (x_pagetable (m_proc s)) g (x_sz (m_proc s)) → x_trapframe (m_proc s) = trapframe →
  ∃ r k' p', kexec me junk kend trampoline path argv s = (Ret r, {| m_mem := k'; m_files := f'; m_proc := p' |}) ∧
    exec_result (m_proc s) (m_mem s) g r k' p'.
Proof using Hend Htramp Htrap Hargs Hargc. apply kexec_ok. Qed.
End Exec.
