(* ===== verification/ExecRun.v ===== *)
(** * Running a small program

    A disk with one program on it, and a machine with sixteen pages: [kexec]
    succeeds there. *)

From stdpp Require Import gmap.
From S2P Require Import Sysfile.
From S2P Require Export ExecSpec.

#[local] Set Warnings "-clear-no-such-hyp".
#[local] Set Default Proof Using "Type".
#[local] Arguments Z.mul : simpl never.
#[local] Arguments Z.add : simpl never.
Local Open Scope Z_scope.

(** ** Files of one block *)
Definition one_block (b : Z) : list Z := b :: replicate NDIRECT 0.

Lemma one_block_addr B b n : addr_of B (one_block b) n = if (n =? 0)%nat then b else 0.
Proof.
  assert (Hz : ∀ k, (k ≠ 0)%nat → addr_at (one_block b) k = 0).
  { intros [|k] Hk; [done|]. unfold addr_at, one_block. cbn [lookup list_lookup]. destruct (replicate NDIRECT 0 !! k) eqn:E; [|done].
    by apply lookup_replicate_1 in E as [-> _]. }
  unfold addr_of. destruct (n <? NDIRECT)%nat eqn:E.
  - destruct n as [|n]; [done|]. by rewrite Hz.
  - rewrite (Hz NDIRECT) by done. destruct n; done.
Qed.

Lemma one_block_ok s b : owned s b → b ≠ 0 → file_ok s (one_block b).
Proof.
  intros Ho Hb. assert (He : addr_at (one_block b) NDIRECT = 0) by done. split.
  - done.
  - intros n _. rewrite one_block_addr. by destruct (n =? 0)%nat.
  - by rewrite He.
  - intros n m _ _. rewrite !one_block_addr. destruct n, m; done.
  - intros n _. rewrite He. done.
Qed.

Lemma one_block_filled B b size : b ≠ 0 → (size ≤ BSIZE)%nat → filled B (one_block b) size.
Proof. intros Hb Hs [|n] Hn; rewrite one_block_addr; [done|]. unfold BSIZE in *. lia. Qed.

(** ** The disk *)
Definition prog_elf : list Z :=
  le_bytes 4 ELF_MAGIC ++ replicate 20 0 ++ le_bytes 8 0 ++ le_bytes 8 64 ++ replicate 16 0 ++ le_bytes 2 1 ++ replicate 6 0 ++
  le_bytes 4 1 ++ le_bytes 4 5 ++ le_bytes 8 120 ++ le_bytes 8 0 ++ le_bytes 8 0 ++ le_bytes 8 4 ++ le_bytes 8 4 ++ le_bytes 8 4096 ++
  [19; 0; 0; 0].

Definition pad (bs : list Z) : list Z := bs ++ replicate (BSIZE - length bs) 0.

Definition prog_blocks (b : Z) : list Z :=
  if b =? 3 then pad [63] else if b =? 4 then pad ([2; 0; 112] ++ replicate 13 0) else if b =? 5 then pad prog_elf else replicate BSIZE 0.

Definition root_inode (ref : Z) (lk : sleeplock) : inode :=
  {| i_dev := 1; i_inum := 1; i_ref := ref; i_lock := lk; i_valid := true; i_type := T_DIR;
     i_major := 0; i_minor := 0; i_nlink := 1; i_size := 16; i_addrs := one_block 4 |}.
Definition prog_inode (ref : Z) (lk : sleeplock) : inode :=
  {| i_dev := 1; i_inum := 2; i_ref := ref; i_lock := lk; i_valid := true; i_type := 2;
     i_major := 0; i_minor := 0; i_nlink := 1; i_size := Z.of_nat (length prog_elf); i_addrs := one_block 5 |}.

Definition prog_fs (r1 : Z) (l1 : sleeplock) (r2 : Z) (l2 : sleeplock) : fs :=
  {| blocks := prog_blocks; held := []; sb := small_sb; itable := [root_inode r1 l1; prog_inode r2 l2] |}.

Definition prog_files : kernel :=
  {| k_fs := prog_fs 1 initsleeplock 1 initsleeplock; k_files := []; k_pipes := []; k_ofile := []; k_cwd := 0; k_ops := 0 |}.

Lemma prog_layout r1 l1 r2 l2 : layout_ok (prog_fs r1 l1 r2 l2).
Proof.
  split; try done.
  - intros b Hb. change (0 ≤ b ≤ 3) in Hb. assert (b = 0 ∨ b = 1 ∨ b = 2 ∨ b = 3) as [-> |[-> |[-> | ->]]] by lia; done.
  - intros b. cbn [blocks prog_fs]. unfold prog_blocks. by repeat case_match.
Qed.

Lemma prog_owned r1 l1 r2 l2 b : b = 4 ∨ b = 5 → owned (prog_fs r1 l1 r2 l2) b.
Proof. intros [-> | ->]; (split; [split; done|done|apply not_elem_of_nil]). Qed.

Lemma prog_wf r1 l1 r2 l2 : fs_wf (prog_fs r1 l1 r2 l2).
Proof.
  split.
  - apply prog_layout.
  - split; [constructor|]. intros x Hx. by apply not_elem_of_nil in Hx.
  - intros [|[|[|ip]]] i [= <-] _; split; cbn [i_addrs root_inode prog_inode].
    1,6: apply one_block_ok; [apply prog_owned; by auto|done].
    2,6: apply one_block_filled; [done|by apply Nat.leb_le].
    1,4: done.
    1,3: split; try done; cbn; repeat constructor; lia.
    all: done.
  - assert (H : ∀ ip i x, itable (prog_fs r1 l1 r2 l2) !! ip = Some i → file_block (prog_fs r1 l1 r2 l2) (i_addrs i) x → x = 4 + Z.of_nat ip).
    { intros [|[|[|ip]]] i x [= <-] [Hx [Hy|(n & _ & Hy)]]; cbn [i_addrs root_inode prog_inode] in Hy;
        try rewrite one_block_addr in Hy; try (by rewrite Hy in Hx); destruct (n =? 0)%nat; rewrite Hy; done || by rewrite Hy in Hx. }
    intros ip jp i j x Hne Hi Hj _ _ H1 H2. apply (H ip i x Hi) in H1. apply (H jp j x Hj) in H2. lia.
Qed.

(** [prog_files] with the program locked. *)
Definition prog_locked : kernel :=
  {| k_fs := prog_fs 1 initsleeplock 2 {| locked := true; lk_pid := 1 |}; k_files := []; k_pipes := []; k_ofile := []; k_cwd := 0;
     k_ops := 1 |}.

(** "/p" *)
Lemma prog_opened : opened 1 (replicate DIRSIZ 0) [47; 112] prog_files 1 prog_locked prog_elf prog_files.
Proof.
  split.
  - eexists. split; reflexivity.
  - eexists. split; [apply prog_wf|]. split; [reflexivity|]. split; [reflexivity|]. by vm_compute.
  - repeat (constructor; [done|]). constructor.
  - eexists. split; reflexivity.
Qed.

(** ** The machine *)
Definition boot_mem : option (Z * kmem) :=
  match kinit small_end (λ _, 0) with
  | Some k => match proc_pagetable small_end 0x80020000 0x80021000 k with (Ret r, k) => Some (r, k) | _ => None end
  | None => None
  end.

Lemma boot_space : ∃ root k g, boot_mem = Some (root, k) ∧ space small_end 0x80020000 0x80021000 k root g 0.
Proof.
  unfold boot_mem. pose proof small_pagetable as H.
  destruct (kinit_spec small_end small_ok (λ _, 0) small_kinit) as (k0 & E0 & Hf). rewrite E0 in *.
  destruct (proc_pagetable_ok small_end small_ok _ _ page_a page_b k0 (all_pages small_end) Hf) as (r & k1 & E1 & Hr).
  rewrite E1 in *. cbn [fst] in H. destruct Hr as [[-> _]|(_ & _ & g & Hs & _)]; [done|]. by exists r, k1, g.
Qed.

Definition boot_machine (root : Z) (k : kmem) : machine :=
  {| m_mem := k; m_files := prog_files;
     m_proc := {| x_pagetable := root; x_sz := 0; x_trapframe := 0x80021000; x_name := replicate 16 0; x_epc := 0; x_sp := 0; x_a1 := 0 |} |}.

Definition prog_args : list (list Z) := [[112]; [45; 120]].

(** What the call returns. *)
Definition returned {A B} (x : outcome stop A * B) : option A := match x with (Ret r, _) => Some r | _ => None end.

Definition run_prog (b : option (Z * kmem)) : option Z :=
  rk ← b; returned (kexec 1 (replicate DIRSIZ 0) small_end 0x80020000 [47; 112] prog_args (boot_machine rk.1 rk.2)).

Example run_prog_argc : run_prog boot_mem = Some 2.
Proof. vm_compute. reflexivity. Qed.

Lemma run_prog_ret root k r m :
  boot_mem = Some (root, k) →
  kexec 1 (replicate DIRSIZ 0) small_end 0x80020000 [47; 112] prog_args (boot_machine root k) = (Ret r, m) → r = 2.
Proof.
  intros E1 E2. pose proof run_prog_argc as H. rewrite E1 in H. change (returned (kexec 1 (replicate DIRSIZ 0) small_end 0x80020000 [47; 112]
    prog_args (boot_machine root k)) = Some 2) in H. rewrite E2 in H. by injection H.
Qed.

Lemma prog_args_ok : Forall (λ a, Z.of_nat (length a) < PGSIZE) prog_args.
Proof. by repeat constructor. Qed.
Lemma prog_argc_ok : (length prog_args < MAXARG)%nat.
Proof. by apply Nat.ltb_lt. Qed.

Theorem exec_replaces_witness :
  ∃ root k g k' p' l sz sp g', space small_end 0x80020000 0x80021000 k root g 0 ∧
    kexec 1 (replicate DIRSIZ 0) small_end 0x80020000 [47; 112] prog_args (boot_machine root k) =
      (Ret 2, {| m_mem := k'; m_files := prog_files; m_proc := p' |}) ∧
    segments prog_elf 1 64 0 = Some (l, sz) ∧ space small_end 0x80020000 0x80021000 k' (x_pagetable p') g' (x_sz p') ∧
    started k' g' (npg sz) sp prog_args (writes l (λ _, 0)).
Proof.
  destruct boot_space as (root & k & g & Eb & Hs).
  destruct (exec_replaces small_end small_ok 0x80020000 0x80021000 page_a page_b 1 (replicate DIRSIZ 0) [47; 112] prog_args 1 prog_elf
    prog_args_ok prog_argc_ok (boot_machine root k) g prog_locked prog_files prog_opened Hs eq_refl) as (r & k' & p' & E & Hr).
  pose proof (run_prog_ret root k r _ Eb E) as ->. destruct Hr as [[H _]|(_ & l & sz & root' & sp & g' & _ & Hl & Ep & Hs' & _ & Hst)]; [discriminate H|].
  exists root, k, g, k', p', l, sz, sp, g'.
  split; [exact Hs|]. split; [exact E|]. split; [exact Hl|]. split; [|exact Hst]. rewrite Ep. rewrite Ep in Hs'. exact Hs'.
Defined.
