(* ===== verification/SysExec.v ===== *)
(** * The exec system call (xv6/kernel/syscall.c, sysfile.c)

    Fetching a system call's arguments from the registers and the memory of the
    process, and [sys_exec], which copies the strings to pages of the kernel. *)

From stdpp Require Import gmap.
From S2P Require Import Sysfile.
From S2P Require Export ExecSpec.

#[local] Set Warnings "-clear-no-such-hyp".
#[local] Set Default Proof Using "Type".
#[local] Arguments Z.mul : simpl never.
#[local] Arguments Z.add : simpl never.
#[local] Arguments Z.sub : simpl never.
Local Open Scope Z_scope.

(** ** The arguments of a system call *)

(** The registers of the trap frame that hold them. *)
Record regs := { a0 : Z; a1 : Z; a2 : Z; a3 : Z; a4 : Z; a5 : Z; a7 : Z }.

(** [None]: panic. *)
Definition argraw (n : nat) (t : regs) : option Z :=
  match n with
  | 0 => Some (a0 t) | 1 => Some (a1 t) | 2 => Some (a2 t) | 3 => Some (a3 t) | 4 => Some (a4 t) | 5 => Some (a5 t)
  | _ => None
  end%nat.

Definition argint (n : nat) (t : regs) : option Z := i32 <$> argraw n t.
Definition argaddr (n : nat) (t : regs) : option Z := argraw n t.

Definition MAXPATH : nat := 128.

Section Fetch.
Context (kend : Z).

Definition fetchaddr (root psz addr : Z) : V (Z * Z) :=
  if (psz <=? addr) || (psz <? u64 (addr + 8)) then mret (-1, 0)
  else
    '(r, bs) ← copyin kend root psz addr 8;
    if negb (r =? 0) then mret (-1, 0) else mret (0, le_value bs).

(** The length, and what is in the buffer. *)
Definition fetchstr (root psz addr : Z) (max : nat) : V (Z * list Z) :=
  '(r, s) ← copyinstr kend root psz addr max;
  if r <? 0 then mret (-1, s) else mret (Z.of_nat (length s) - 1, s).

(** The loop of [sys_exec] over the pointers at [uargv], with [n] places left in [argv]; the result: whether all is
    well, and the pages with their strings. *)
Fixpoint fetch_args (n : nat) (root psz uargv i : Z) : V (bool * list (Z * list Z)) :=
  match n with
  | O => mret (false, [])
  | S n =>
      '(r, uarg) ← fetchaddr root psz (u64 (uargv + 8 * i));
      if r <? 0 then mret (false, [])
      else if uarg =? 0 then mret (true, [])
      else
        p ← alloc_page;
        if p =? 0 then mret (false, [])
        else
          '(r, s) ← fetchstr root psz uarg (Z.to_nat PGSIZE);
          store_bytes p s;;
          if r <? 0 then mret (false, [(p, s)])
          else
            '(fine, l) ← fetch_args n root psz uargv (i + 1);
            mret (fine, (p, take (Z.to_nat r) s) :: l)
  end.

Fixpoint free_args (l : list (Z * list Z)) : V () :=
  match l with
  | [] => mret ()
  | (p, _) :: l => free_page kend p;; free_args l
  end.
End Fetch.

Definition sys_exec (me : Z) (junk : list Z) (kend trampoline : Z) (t : regs) : X Z :=
  p ← gets m_proc;
  '(r, s) ← in_mem (fetchstr kend (x_pagetable p) (x_sz p) (a0 t) MAXPATH);
  if r <? 0 then mret (-1)
  else
    '(fine, l) ← in_mem (fetch_args kend MAXARG (x_pagetable p) (x_sz p) (a1 t) 0);
    if (fine : bool) then
      ret ← kexec me junk kend trampoline (take (Z.to_nat r) s) (snd <$> l);
      in_mem (free_args kend l);;
      mret ret
    else in_mem (free_args kend l);; mret (-1).

(** ** What the user passed *)
Definition word_at (f : Z → Z) (a : Z) : Z := le_value (read a 8 f).

Fixpoint user_argv (f : Z → Z) (uargv i : Z) (argv : list (list Z)) : Prop :=
  let p := word_at f (u64 (uargv + 8 * i)) in
  match argv with
  | [] => p = 0
  | s :: argv => p ≠ 0 ∧ cstring f p (Z.to_nat PGSIZE) (s ++ [0]) ∧ user_argv f uargv (i + 1) argv
  end.

(** ** Pages beside an address space *)
Section Beside.
Context (kend : Z) (Hend : 0 < kend < PHYSTOP).
Context (trampoline trapframe : Z) (Htramp : aligned trampoline) (Htrap : aligned trapframe).
Abbreviation space := (space kend trampoline trapframe).

(** The pages [A] are not of the address space. *)
Record beside (k : kmem) (root : Z) (g : ghost) (sz : Z) (A : list Z) : Prop := {
  be_space : space k root g sz;
  be_nodup : NoDup A;
  be_page : Forall (page kend) A;
  be_apart p : p ∈ A → ¬ pool g p
}.

(** Since [g], with the pages [A] taken. *)
Record since (k : kmem) (g : ghost) (k' : kmem) (root : Z) (g' : ghost) (sz : Z) (A : list Z) : Prop := {
  si_beside : beside k' root g' sz A;
  si_pool p : pool g' p ∨ p ∈ A ↔ pool g p;
  si_umem x : umem k' g' x = umem k g x
}.

Lemma since_refl k root g sz : space k root g sz → since k g k root g sz [].
Proof using Hend.
  intros Hs. split; [|intros p; rewrite elem_of_nil; tauto|done]. split; [done|constructor|done|]. intros p Hp. by apply not_elem_of_nil in Hp.
Qed.

Lemma faulted_since k root g sz A k0 g0 k' g' :
  since k0 g0 k root g sz A → vm_ok kend UVPN k' root g' → hand g' = hand g → faulted kend sz k g k' g' → since k0 g0 k' root g' sz A.
Proof using Hend.
  intros [[Hs Hn Hp Ha] Hpool Hm] Hok Hh Hf. pose proof (ev_pool _ _ _ _ _ _ (fl_evolves _ _ _ _ _ _ Hf)) as Hp'.
  split; [|intros p; by rewrite Hp'|intros x; rewrite <-Hm; by apply (faulted_umem kend Hend sz)].
  split; [by eapply faulted_space|done|done|]. intros p Hin. rewrite Hp'. by apply Ha.
Qed.

Lemma alloc_since k0 g0 k root g sz A :
  since k0 g0 k root g sz A →
  ∃ p k' g', alloc_page k = (Ret p, k') ∧ (p = 0 ∧ k' = k ∧ since k0 g0 k root g sz A ∨ p ≠ 0 ∧ since k0 g0 k' root g' sz (p :: A)).
Proof using Hend.
  intros [[Hs Hn Hp Ha] Hpool Hm]. pose proof Hs as [Hok Hh _ _ _]. pose proof (v_free _ _ _ _ _ Hok) as Hf.
  destruct (fr g) as [|p l] eqn:El.
  { exists 0, k, g. split; [by apply (alloc_none kend UVPN Hend k root g)|]. left. by split_and!. }
  destruct (kalloc_spec kend Hend k _ Hf) as (k' & Ea & Hf' & _ & Hk).
  assert (Hpf : p ∈ fr g) by (rewrite El; by left). pose proof (fr_page _ _ _ _ _ _ Hok Hpf) as Hpp.
  assert (Hown : ∀ q, q ∈ fr g → own g !! q = None) by (intros q Hq; apply (v_apart _ _ _ _ _ Hok), elem_of_app; by right).
  destruct (space_moves kend trampoline trapframe k root g sz k' l Hs Hf') as [Hs' Hm'].
  { intros q Hq. apply Hown. rewrite El. by right. }
  { intros q x Ho Hx. apply Hk. apply (own_apart kend k root g q p x Hok Ho); [done|by apply Hown|done]. }
  pose proof (fp_nodup _ _ _ Hf) as Hnd. apply NoDup_cons in Hnd as [Hpl _].
  exists p, k', (with_free l g). split; [unfold alloc_page; by rewrite Ea|]. right.
  split; [pose proof (page_range _ Hend p Hpp); lia|].
  assert (Hnp : ¬ pool (with_free l g) p).
  { intros [H|H]; cbn in H; [|done]. rewrite (Hown p Hpf) in H. by destruct H. }
  assert (Hpool' : ∀ q, pool g q ↔ q = p ∨ pool (with_free l g) q).
  { intros q. unfold pool. rewrite Hh, El. cbn. rewrite elem_of_cons. tauto. }
  split; [split|..].
  - done.
  - constructor; [|done]. intros Hin. apply (Ha p Hin). apply Hpool'. by left.
  - by constructor.
  - intros q [->|Hq]%elem_of_cons; [done|]. intros Hq'. apply (Ha q Hq). apply Hpool'. by right.
  - intros q. rewrite <-Hpool, Hpool', elem_of_cons. tauto.
  - intros x. by rewrite Hm'.
Qed.

(** A page beside is written. *)
Lemma store_since k0 g0 k root g sz A p s :
  since k0 g0 k root g sz (p :: A) → Z.of_nat (length s) ≤ PGSIZE →
  ∃ k' g', store_bytes p s k = (Ret (), k') ∧ since k0 g0 k' root g' sz (p :: A).
Proof using Hend.
  intros [[Hs Hn Hp Ha] Hpool Hm] Hl. pose proof Hs as [Hok Hh _ _ _].
  set (k' := {| freelist := freelist k; phys := write p s (phys k) |}).
  assert (Hk : ∀ x, ¬ in_page p x → phys k' x = phys k x) by (intros x Hx; apply write_out; unfold in_page in Hx; lia).
  assert (Hpn : ¬ pool g p) by (apply Ha; by left). apply Forall_cons in Hp as [Hpp Hp].
  destruct (space_moves kend trampoline trapframe k root g sz k' (fr g) Hs) as [Hs' Hm'].
  { apply (free_pages_ext kend k); [done| |apply (v_free _ _ _ _ _ Hok)]. intros q x Hq Hx. apply Hk.
    apply (pages_apart kend q p x); [exact (fr_page _ _ _ _ _ _ Hok Hq)|done| |done]. intros ->. apply Hpn. right. apply elem_of_app. by right. }
  { intros q Hq. apply (v_apart _ _ _ _ _ Hok), elem_of_app. by right. }
  { intros q x Ho Hx. apply Hk. apply (own_apart kend k root g q p x Hok Ho); [done| |done].
    destruct (own g !! p) eqn:E; [|done]. exfalso. apply Hpn. left. by rewrite E. }
  assert (Hsame : ∀ q, pool (with_free (fr g) g) q ↔ pool g q) by (intros q; unfold pool; cbn; by rewrite Hh).
  exists k', (with_free (fr g) g). split; [done|]. split; [split|..].
  - done.
  - done.
  - by constructor.
  - intros q Hq. rewrite Hsame. by apply Ha.
  - intros q. by rewrite Hsame.
  - intros x. by rewrite Hm'.
Qed.

Lemma free_args_since k0 g0 root sz l : ∀ k g,
  since k0 g0 k root g sz l.*1 →
  ∃ k' g', free_args kend l k = (Ret (), k') ∧ since k0 g0 k' root g' sz [] ∧ leaf g' = leaf g.
Proof using Hend.
  induction l as [|[p s] l IH]; intros k g Hsi; cbn [free_args fmap list_fmap fst].
  { exists k, g. by split. }
  destruct Hsi as [[Hs Hn Hp Ha] Hpool Hm]. pose proof Hs as [Hok Hh _ _ _]. cbn in Hn, Hp, Ha, Hpool.
  apply NoDup_cons in Hn as [Hpl Hn]. apply Forall_cons in Hp as [Hpp Hp]. assert (Hpn : ¬ pool g p) by (apply Ha; by left).
  destruct (kfree_spec kend Hend p k (fr g) (v_free _ _ _ _ _ Hok) Hpp) as (k' & Ek & Hf' & Hk).
  { intros Hin. apply Hpn. right. apply elem_of_app. by right. }
  destruct (space_moves kend trampoline trapframe k root g sz k' (p :: fr g) Hs Hf') as [Hs' Hm'].
  { intros q [->|Hq]%elem_of_cons; [|apply (v_apart _ _ _ _ _ Hok), elem_of_app; by right].
    destruct (own g !! p) eqn:E; [|done]. exfalso. apply Hpn. left. by rewrite E. }
  { intros q x Ho Hx. apply Hk. apply (own_apart kend k root g q p x Hok Ho); [done| |done].
    destruct (own g !! p) eqn:E; [|done]. exfalso. apply Hpn. left. by rewrite E. }
  assert (Hpool' : ∀ q, pool (with_free (p :: fr g) g) q ↔ q = p ∨ pool g q).
  { intros q. unfold pool. cbn. rewrite Hh, elem_of_cons. cbn. tauto. }
  assert (E : free_page kend p k = (Ret (), k')) by (unfold free_page; by rewrite Ek). rewrite (bind_run _ _ _ _ _ E).
  destruct (IH k' (with_free (p :: fr g) g)) as (k2 & g2 & E2 & Hsi2 & Hl2).
  - split; [split|..]; try done.
    + intros q Hq [->|Hq']%Hpool'; [done|]. apply (Ha q); [by right|done].
    + intros q. rewrite <-Hpool, Hpool', elem_of_cons. tauto.
    + intros x. by rewrite Hm'.
  - exists k2, g2. by split_and!.
Qed.
End Beside.

(** ** Fetching *)
Lemma upto_nul_length bs : (length (upto_nul bs).2 ≤ length bs)%nat.
Proof.
  induction bs as [|b bs IH]; cbn; [lia|]. destruct (b =? 0); [cbn; lia|]. destruct (upto_nul bs) as [f l]. cbn in *. lia.
Qed.

Lemma copyinstr_loop_length kend fuel root psz : ∀ a max k r s k',
  copyinstr_loop kend fuel root psz a max k = (Ret (r, s), k') → (length s ≤ max)%nat.
Proof.
  induction fuel as [|fuel IH]; intros a max k r s k' E; destruct max as [|max]; cbn [copyinstr_loop] in E; try (injection E as _ <- _; cbn; lia).
  { discriminate E. }
  apply bind_ret_inv in E as (pa & k1 & _ & E). destruct (pa =? 0); [injection E as _ <- _; cbn; lia|]. cbv zeta in E.
  apply bind_ret_inv in E as (bs & k2 & Eb & E). injection Eb as Eb _.
  assert (Hl : (length bs ≤ S max)%nat) by (rewrite <-Eb, length_fmap, length_seq; lia).
  assert (Hl' : (length bs ≤ Nat.min (Z.to_nat (PGSIZE - (a - PGROUNDDOWN a))) (S max))%nat) by (by rewrite <-Eb, length_fmap, length_seq).
  pose proof (upto_nul_length bs) as Hu. destruct (upto_nul bs) as [[] l]; cbn in Hu.
  - injection E as _ <- _. lia.
  - apply bind_ret_inv in E as ([r' s'] & k3 & E3 & E). injection E as _ <- _. apply IH in E3. cbn. rewrite length_app. lia.
Qed.

Section Fetched.
Context (kend : Z) (Hend : 0 < kend < PHYSTOP).
Context (trampoline trapframe : Z).
Abbreviation since := (since kend trampoline trapframe).
Context (k0 : kmem) (g0 : ghost) (root sz : Z) (Hbytes : ∀ x, is_byte (umem k0 g0 x)) (Hsz : sz ≤ TRAPFRAME).

Lemma fetchaddr_ok k g A addr :
  since k0 g0 k root g sz A → 0 ≤ addr →
  ∃ r v k' g', fetchaddr kend root sz addr k = (Ret (r, v), k') ∧ since k0 g0 k' root g' sz A ∧
    (r = 0 ∧ v = word_at (umem k0 g0) addr ∨ r = -1).
Proof using Hend Hsz.
  intros Hs Ha. unfold fetchaddr. destruct ((sz <=? addr) || (sz <? u64 (addr + 8))).
  { exists (-1), 0, k, g. split; [done|]. split; [done|by right]. }
  destruct (copyin_ok kend Hend root sz k g addr 8 (s_ok _ _ _ _ _ _ _ (be_space _ _ _ _ _ _ _ _ (si_beside _ _ _ _ _ _ _ _ _ _ Hs))) Ha Hsz)
    as (r & bs & k' & g' & E & Hok' & Hh' & Hf & Hr).
  rewrite (bind_run _ _ _ _ _ E). pose proof (faulted_since kend Hend trampoline trapframe k root g sz A k0 g0 k' g' Hs Hok' Hh' Hf) as Hs'.
  destruct Hr as [[-> ->]|(-> & _)]; cbn [Z.eqb negb].
  - eexists _, _, k', g'. split; [done|]. split; [done|]. left. split; [done|]. unfold word_at. f_equal. apply read_ext.
    apply (si_umem _ _ _ _ _ _ _ _ _ _ Hs).
  - eexists _, _, k', g'. split; [done|]. split; [done|by right].
Qed.

Lemma cstring_ext f f' a max s : (∀ x, f x = f' x) → cstring f a max s → cstring f' a max s.
Proof using Type.
  intros H (n & Hn & -> & Hz & Hnz). exists n. split; [done|]. split; [by apply read_ext|]. split; [by rewrite <-H|].
  intros i Hi. rewrite <-H. by apply Hnz.
Qed.

Lemma fetchstr_ok k g A addr max :
  since k0 g0 k root g sz A → 0 ≤ addr →
  ∃ r s k' g', fetchstr kend root sz addr max k = (Ret (r, s), k') ∧ since k0 g0 k' root g' sz A ∧ (length s ≤ max)%nat ∧
    (0 ≤ r ∧ (Z.to_nat r < max)%nat ∧ cstring (umem k0 g0) addr max (take (Z.to_nat r) s ++ [0]) ∨ r = -1).
Proof using Hend Hsz.
  intros Hs Ha. unfold fetchstr.
  destruct (copyinstr_ok kend Hend root sz k g addr max (s_ok _ _ _ _ _ _ _ (be_space _ _ _ _ _ _ _ _ (si_beside _ _ _ _ _ _ _ _ _ _ Hs))) Ha Hsz)
    as (r & s & k' & g' & E & Hok' & Hh' & Hf & Hr).
  pose proof (copyinstr_loop_length _ _ _ _ _ _ _ _ _ _ E) as Hl.
  rewrite (bind_run _ _ _ _ _ E). pose proof (faulted_since kend Hend trampoline trapframe k root g sz A k0 g0 k' g' Hs Hok' Hh' Hf) as Hs'.
  destruct Hr as [[-> Hc]|(-> & _)]; cbn [Z.ltb Z.compare].
  - apply (cstring_ext _ _ _ _ _ (si_umem _ _ _ _ _ _ _ _ _ _ Hs)) in Hc. eexists _, s, k', g'. split; [done|]. split; [done|]. split; [done|]. left.
    pose proof Hc as (n & Hn & Es & Hz & _). assert (Hls : length s = S n) by (by rewrite Es, length_read).
    rewrite Hls. replace (Z.to_nat (Z.of_nat (S n) - 1)) with n by lia. split; [lia|]. split; [done|].
    assert (Et : take n s ++ [0] = s); [|by rewrite Et]. rewrite Es at 1. replace (S n) with (n + 1)%nat by lia.
    rewrite Es. replace (S n) with (n + 1)%nat by lia. rewrite !read_app. rewrite take_app_le, firstn_all2 by (rewrite length_read; lia).
    f_equal. cbn. by rewrite Z.add_0_r, Hz.
  - eexists _, s, k', g'. split; [done|]. split; [done|]. split; [done|by right].
Qed.

Lemma word_at_range f a : (∀ x, is_byte (f x)) → 0 ≤ word_at f a < 2 ^ 64.
Proof using Type.
  intros H. assert (Hb : Forall is_byte (read a 8 f)) by (apply Forall_forall; intros b (i & -> & _)%list_elem_of_fmap; apply H).
  destruct (le_value_range _ Hb) as [H1 H2]. by rewrite length_read in H2.
Qed.

Lemma fetch_args_ok n : ∀ k g A uargv i,
  since k0 g0 k root g sz A →
  ∃ fine l k' g', fetch_args kend n root sz uargv i k = (Ret (fine, l), k') ∧ since k0 g0 k' root g' sz (reverse l.*1 ++ A) ∧
    (fine = true → (length l < n)%nat ∧ user_argv (umem k0 g0) uargv i l.*2 ∧ Forall (λ s, Z.of_nat (length s) < PGSIZE) l.*2).
Proof using Hend Hsz Hbytes.
  induction n as [|n IH]; intros k g A uargv i Hs; cbn [fetch_args].
  { exists false, [], k, g. by split_and!. }
  destruct (fetchaddr_ok k g A (u64 (uargv + 8 * i)) Hs ltac:(apply Z.mod_pos_bound; lia)) as (r & v & k1 & g1 & E1 & Hs1 & Hr).
  rewrite (bind_run _ _ _ _ _ E1). destruct Hr as [[-> Ev] | ->]; cbn [Z.ltb Z.compare].
  2: { exists false, [], k1, g1. by split_and!. }
  destruct (v =? 0) eqn:E0.
  { apply Z.eqb_eq in E0. exists true, [], k1, g1. split; [done|]. split; [done|]. intros _. split; [cbn; lia|]. split; [|constructor]. rewrite Ev in E0. exact E0. }
  apply Z.eqb_neq in E0. destruct (alloc_since kend Hend trampoline trapframe k0 g0 k1 root g1 sz A Hs1) as (p & k2 & g2 & E2 & Hp).
  rewrite (bind_run _ _ _ _ _ E2). destruct Hp as [(-> & -> & Hs2)|[Hp Hs2]].
  { exists false, [], k1, g1. by split_and!. }
  rewrite (proj2 (Z.eqb_neq p 0)) by done. pose proof (word_at_range _ (u64 (uargv + 8 * i)) Hbytes) as Hw. rewrite <-Ev in Hw.
  destruct (fetchstr_ok k2 g2 (p :: A) v (Z.to_nat PGSIZE) Hs2 ltac:(lia)) as (r & s & k3 & g3 & E3 & Hs3 & Hl & Hr).
  rewrite (bind_run _ _ _ _ _ E3). destruct (store_since kend Hend trampoline trapframe k0 g0 k3 root g3 sz A p s Hs3) as (k4 & g4 & E4 & Hs4).
  { unfold PGSIZE in *. lia. }
  rewrite (bind_run _ _ _ _ _ E4). destruct Hr as [(Hr & Hlt & Hc) | ->].
  - rewrite (proj2 (Z.ltb_ge r 0)) by lia. destruct (IH k4 g4 (p :: A) uargv (i + 1) Hs4) as (fine & l & k5 & g5 & E5 & Hs5 & Hf).
    rewrite (bind_run _ _ _ _ _ E5). eexists _, _, k5, g5. split; [done|]. cbn [fmap list_fmap fst snd]. split.
    { rewrite reverse_cons, <-app_assoc. done. }
    intros Ef. destruct (Hf Ef) as (H1 & H2 & H3). split; [cbn; lia|]. split.
    + cbn [user_argv]. rewrite <-Ev. by split_and!.
    + constructor; [|done]. rewrite length_take. unfold PGSIZE in *. lia.
  - exists false, [(p, s)], k4, g4. by split_and!.
Qed.
End Fetched.

(** ** The whole call *)
Section Exec.
Context (kend : Z) (Hend : 0 < kend < PHYSTOP).
Context (trampoline trapframe : Z) (Htramp : aligned trampoline) (Htrap : aligned trapframe).
Abbreviation space := (space kend trampoline trapframe).
Abbreviation beside := (beside kend trampoline trapframe).
Abbreviation since := (since kend trampoline trapframe).
Abbreviation exec_result := (exec_result kend trampoline trapframe).

Lemma free_args_beside k root g sz l A :
  beside k root g sz A → A ≡ₚ l.*1 →
  ∃ k' g', free_args kend l k = (Ret (), k') ∧ space k' root g' sz ∧ (∀ p, pool g' p ↔ pool g p ∨ p ∈ A) ∧
    leaf g' = leaf g ∧ ∀ x, umem k' g' x = umem k g x.
Proof using Hend.
  intros [Hs Hn Hp Ha] Hperm. set (gb := with_free (A ++ fr g) g). pose proof (s_hand _ _ _ _ _ _ _ Hs) as Hh.
  assert (Hpb : ∀ p, pool gb p ↔ pool g p ∨ p ∈ A).
  { intros p. unfold pool, gb. cbn. rewrite Hh. cbn. rewrite elem_of_app. tauto. }
  destruct (free_args_since kend Hend trampoline trapframe k gb root sz l k g) as (k' & g' & E & Hsi & Hl).
  { split; [split|..].
    - done.
    - by rewrite <-Hperm.
    - by rewrite <-Hperm.
    - intros p Hin. apply Ha. by rewrite Hperm.
    - intros p. by rewrite Hpb, Hperm.
    - done. }
  exists k', g'. split; [done|]. split; [apply (be_space _ _ _ _ _ _ _ _ (si_beside _ _ _ _ _ _ _ _ _ _ Hsi))|].
  split; [|split; [done|apply (si_umem _ _ _ _ _ _ _ _ _ _ Hsi)]]. intros p. rewrite <-Hpb.
  pose proof (si_pool _ _ _ _ _ _ _ _ _ _ Hsi p) as H. rewrite elem_of_nil in H. tauto.
Qed.

Lemma started_ext k g k' g' n sp argv f :
  leaf g' = leaf g → (∀ x, umem k' g' x = umem k g x) → started k g n sp argv f → started k' g' n sp argv f.
Proof using Type.
  intros Hl Hm [H1 H2 (ps & H3 & H4) H5]. split.
  - unfold user_pa in *. by rewrite Hl.
  - done.
  - exists ps. split; [by rewrite (read_ext _ _ _ _ Hm)|]. eapply Forall2_impl; [exact H4|]. intros p s [Hp Hr].
    split; [done|]. by rewrite (read_ext _ _ _ _ Hm).
  - intros x Hx. rewrite Hm. by apply H5.
Qed.

(** The pages of the arguments are freed after [kexec], which did not touch them. *)
Lemma result_freed path argv content p k g k1 g1 A l r k2 p2 :
  since k g k1 (x_pagetable p) g1 (x_sz p) A → A ≡ₚ l.*1 → exec_result path argv content p k1 g1 r k2 p2 →
  ∃ k3, free_args kend l k2 = (Ret (), k3) ∧ exec_result path argv content p k g r k3 p2.
Proof using Hend.
  intros [[Hs Hn Hp Ha] Hpool Hm] Hperm Hr.
  assert (Hpost : ∀ root g' sz, space k2 root g' sz → (∀ q, pool g' q ↔ pool g1 q) →
    ∃ k3 g3, free_args kend l k2 = (Ret (), k3) ∧ space k3 root g3 sz ∧ (∀ q, pool g3 q ↔ pool g q) ∧ leaf g3 = leaf g' ∧
      ∀ x, umem k3 g3 x = umem k2 g' x).
  { intros root g' sz Hs' Hp'. destruct (free_args_beside k2 root g' sz l A) as (k3 & g3 & E & Hs3 & Hp3 & Hl3 & Hm3); [|done|].
    - split; [done|done|done|]. intros q Hq. rewrite Hp'. by apply Ha.
    - exists k3, g3. split; [done|]. split; [done|]. split; [|done]. intros q. rewrite Hp3, Hp'. apply Hpool. }
  destruct Hr as [(-> & -> & g' & Hs' & Hp' & Hm')|(-> & lw & sz & root & sp & g' & Hmag & Hseg & -> & Hs' & Hp' & Hst)].
  - destruct (Hpost _ g' _ Hs' Hp') as (k3 & g3 & E & Hs3 & Hp3 & _ & Hm3). exists k3. split; [done|]. left. split; [done|]. split; [done|].
    exists g3. split; [done|]. split; [done|]. intros x. by rewrite Hm3, Hm', Hm.
  - destruct (Hpost _ g' _ Hs' Hp') as (k3 & g3 & E & Hs3 & Hp3 & Hl3 & Hm3). exists k3. split; [done|]. right. split; [done|].
    exists lw, sz, root, sp, g3. split; [done|]. split; [done|]. split; [done|]. split; [done|]. split; [done|].
    by apply (started_ext k2 g').
Qed.

(** C11: [sys_exec], from a process whose registers point to a path and to an array of pointers, wherever they point:
    it ends; it returns -1 with the process as before, or with the strings [path] and [argv] that the process's memory
    has at these addresses it does what [kexec] promises; the pages of the copied strings are freed in every case. *)
Theorem sys_exec_spec me junk t s g ip content f2 f' :
  let p := m_proc s in
  space (m_mem s) (x_pagetable p) g (x_sz p) → x_trapframe p = trapframe → (∀ x, is_byte (umem (m_mem s) g x)) →
  0 ≤ a0 t →
  (∀ path, cstring (umem (m_mem s) g) (a0 t) MAXPATH (path ++ [0]) → opened me junk path (m_files s) ip f2 content f') →
  ∃ r k' p' ff, sys_exec me junk kend trampoline t s = (Ret r, {| m_mem := k'; m_files := ff; m_proc := p' |}) ∧
    (r = -1 ∧ ff = m_files s ∧ p' = p ∧ (∃ g', space k' (x_pagetable p) g' (x_sz p) ∧ (∀ q, pool g' q ↔ pool g q) ∧
       ∀ x, umem k' g' x = umem (m_mem s) g x) ∨
     ff = f' ∧ ∃ path argv, cstring (umem (m_mem s) g) (a0 t) MAXPATH (path ++ [0]) ∧ user_argv (umem (m_mem s) g) (a1 t) 0 argv ∧
       exec_result path argv content p (m_mem s) g r k' p').
Proof using Hend Htramp Htrap.
  intros p Hs Htf Hby Ha0 Hopen. pose proof (s_sz _ _ _ _ _ _ _ Hs) as Hsz.
  assert (Hdone : ∀ k' g', since (m_mem s) g k' (x_pagetable p) g' (x_sz p) [] →
    space k' (x_pagetable p) g' (x_sz p) ∧ (∀ q, pool g' q ↔ pool g q) ∧ ∀ x, umem k' g' x = umem (m_mem s) g x).
  { intros k' g' [[H1 _ _ _] H2 H3]. split; [done|]. split; [|done]. intros q. rewrite <-H2, elem_of_nil. tauto. }
  unfold sys_exec, mbind at 1, M_bind at 1, gets at 1. fold p.
  destruct (fetchstr_ok kend Hend trampoline trapframe (m_mem s) g (x_pagetable p) (x_sz p) ltac:(lia) (m_mem s) g [] (a0 t) MAXPATH
    (since_refl kend Hend trampoline trapframe _ _ _ _ Hs) Ha0) as (r & str & k1 & g1 & E1 & Hs1 & _ & Hr).
  rewrite (bind_run _ _ _ _ _ (in_mem_run _ s _ _ E1)). destruct Hr as [(Hr & _ & Hc) | ->]; cbn [Z.ltb Z.compare].
  2: { exists (-1), k1, p, (m_files s). split; [done|]. left. split; [done|]. split; [done|]. split; [done|]. exists g1. by apply Hdone. }
  rewrite (proj2 (Z.ltb_ge r 0)) by done.
  destruct (fetch_args_ok kend Hend trampoline trapframe (m_mem s) g (x_pagetable p) (x_sz p) Hby ltac:(lia) MAXARG k1 g1 [] (a1 t) 0 Hs1)
    as (fine & l & k2 & g2 & E2 & Hs2 & Hf). rewrite app_nil_r in Hs2.
  rewrite (bind_run _ _ _ _ _ (in_mem_run _ (m_set_mem k1 s) _ _ E2)).
  destruct fine.
  - destruct (Hf eq_refl) as (Hlen & Hargv & Hshort). set (path := take (Z.to_nat r) str) in *.
    destruct (kexec_ok kend Hend trampoline trapframe Htramp Htrap me junk path l.*2 ip content Hshort ltac:(by rewrite length_fmap)
      (m_set_mem k2 (m_set_mem k1 s)) g2 f2 f' (Hopen path Hc) (be_space _ _ _ _ _ _ _ _ (si_beside _ _ _ _ _ _ _ _ _ _ Hs2)) Htf)
      as (q & k3 & p3 & E3 & Hres). rewrite (bind_run _ _ _ _ _ E3).
    destruct (result_freed path l.*2 content p (m_mem s) g k2 g2 (reverse l.*1) l q k3 p3 Hs2 (reverse_Permutation _) Hres) as (k4 & E4 & Hres4).
    match goal with |- context [in_mem ?m] => assert (E5 : in_mem m {| m_mem := k3; m_files := f'; m_proc := p3 |} = (Ret (), m_set_mem k4 {| m_mem := k3; m_files := f'; m_proc := p3 |}))
      by (by apply in_mem_run) end.
    rewrite (bind_run _ _ _ _ _ E5). exists q, k4, p3, f'. split; [done|]. right. split; [done|]. exists path, l.*2. by split_and!.
  - destruct (free_args_beside k2 (x_pagetable p) g2 (x_sz p) l (reverse l.*1) (si_beside _ _ _ _ _ _ _ _ _ _ Hs2) (reverse_Permutation _))
      as (k3 & g3 & E3 & Hs3 & Hp3 & _ & Hm3).
    rewrite (bind_run _ _ _ _ _ (in_mem_run _ (m_set_mem k2 _) _ _ E3)).
    exists (-1), k3, p, (m_files s). split; [done|]. left. split; [done|]. split; [done|]. split; [done|]. exists g3. split; [done|].
    split; [intros q; rewrite Hp3; apply (si_pool _ _ _ _ _ _ _ _ _ _ Hs2)|]. intros x. by rewrite Hm3, (si_umem _ _ _ _ _ _ _ _ _ _ Hs2).
Qed.
End Exec.
