(* ===== verification/SysExecRun.v ===== *)
(** * Running a small program from user memory

    The process of a machine with thirty-two pages has "/p" and the arguments
    "p", "-x" in its memory, and makes the system call. *)

From stdpp Require Import gmap.
From S2P Require Import Sysfile.
From S2P Require Export ExecRun SysExec.

#[local] Set Warnings "-clear-no-such-hyp".
#[local] Set Default Proof Using "Type".
#[local] Arguments Z.mul : simpl never.
#[local] Arguments Z.add : simpl never.
Local Open Scope Z_scope.

Definition mid_end : Z := PHYSTOP - 32 * PGSIZE.
Lemma mid_ok : 0 < mid_end < PHYSTOP. Proof. done. Qed.
Lemma mid_kinit : PGROUNDUP mid_end ≤ PHYSTOP. Proof. done. Qed.

(** The strings, and the pointers at 8. *)
Definition user_bytes : list Z := [47; 112; 0; 112; 0; 45; 120; 0] ++ le_bytes 8 3 ++ le_bytes 8 5 ++ le_bytes 8 0.

Definition user_start (k : kmem) : option (Z * kmem) :=
  match proc_pagetable mid_end 0x80020000 0x80021000 k with
  | (Ret r, k) => match copyout mid_end r 8000 0 user_bytes k with (Ret 0, k) => Some (r, k) | _ => None end
  | _ => None
  end.

Definition user_mem : option (Z * kmem) := match kinit mid_end (λ _, 0) with Some k => user_start k | None => None end.

Definition user_ready (m : option (Z * kmem)) : bool := match m with Some (r, _) => negb (r =? 0) | None => false end.

Example user_mem_ready : user_ready user_mem = true.
Proof. vm_compute. reflexivity. Qed.

Lemma user_start_ok k0 :
  free_pages mid_end k0 (all_pages mid_end) → user_ready (user_start k0) = true →
  ∃ root k g, user_start k0 = Some (root, k) ∧ space mid_end 0x80020000 0x80021000 k root g 8000 ∧
    ∀ x, umem k g x = write 0 user_bytes (λ _, 0) x.
Proof.
  intros Hf H. unfold user_start in *.
  destruct (proc_pagetable_ok mid_end mid_ok _ _ page_a page_b k0 (all_pages mid_end) Hf) as (r & k1 & E1 & Hr). rewrite E1 in *.
  assert (Hs0 : r = 0 ∨ ∃ g, space mid_end 0x80020000 0x80021000 k1 r g 0).
  { destruct Hr as [[-> _]|(_ & _ & g & Hs & _)]; [by left|right]. by exists g. }
  destruct (copyout mid_end r 8000 0 user_bytes k1) as [[q|e|] k2] eqn:E2; [|discriminate H|discriminate H].
  destruct q; [|discriminate H|discriminate H].
  destruct Hs0 as [->|(g & Hs0)]; [discriminate H|]. clear H.
  assert (Hs1 : space mid_end 0x80020000 0x80021000 k1 r g 8000) by (apply (lazy_ok _ _ _ k1 r g 0 8000 Hs0); rewrite trapframe_val; lia).
  destruct (copyout_ok mid_end mid_ok r 8000 k1 g 0 user_bytes (s_ok _ _ _ _ _ _ _ Hs1) ltac:(lia) ltac:(rewrite trapframe_val; lia))
    as (q & k3 & g3 & E3 & Hok3 & Hh3 & Hst & Hq).
  rewrite E2 in E3. injection E3 as <- <-. destruct Hq as [(_ & Hm & _)|[? _]]; [|done].
  exists r, k2, g3. split; [reflexivity|]. split; [by apply (stored_space _ _ _ k1 r g)|]. intros x. rewrite Hm. apply write_ext.
  by apply (umem_fresh mid_end 0x80020000 0x80021000 k1 r g).
Qed.

Lemma user_space : ∃ root k g, user_mem = Some (root, k) ∧ space mid_end 0x80020000 0x80021000 k root g 8000 ∧
  ∀ x, umem k g x = write 0 user_bytes (λ _, 0) x.
Proof.
  pose proof user_mem_ready as H. destruct (kinit_spec mid_end mid_ok (λ _, 0) mid_kinit) as (k0 & E0 & Hf).
  assert (E : user_mem = user_start k0) by (unfold user_mem; by rewrite E0). rewrite E in *. by apply user_start_ok.
Qed.

(** There is one string at an address. *)
Lemma cstring_unique f a n m s s' : cstring f a n s → cstring f a m s' → s = s'.
Proof.
  intros (i & _ & -> & Hi & Hi') (j & _ & -> & Hj & Hj'). destruct (decide (i = j)) as [->|Hne]; [done|exfalso].
  destruct (decide (i < j)%nat); [by apply (Hj' i)|]. apply (Hi' j); [lia|done].
Qed.

Definition user_regs : regs := {| a0 := 0; a1 := 8; a2 := 0; a3 := 0; a4 := 0; a5 := 0; a7 := 7 |}.

Definition user_machine (root : Z) (k : kmem) : machine :=
  {| m_mem := k; m_files := prog_files;
     m_proc := {| x_pagetable := root; x_sz := 8000; x_trapframe := 0x80021000; x_name := replicate 16 0; x_epc := 0; x_sp := 0; x_a1 := 0 |} |}.

Definition run_user (b : option (Z * kmem)) : option Z :=
  rk ← b; returned (sys_exec 1 (replicate DIRSIZ 0) mid_end 0x80020000 user_regs (user_machine rk.1 rk.2)).

Example run_user_argc : run_user user_mem = Some 2.
Proof. vm_compute. reflexivity. Qed.

Lemma run_user_ret root k r m :
  user_mem = Some (root, k) →
  sys_exec 1 (replicate DIRSIZ 0) mid_end 0x80020000 user_regs (user_machine root k) = (Ret r, m) → r = 2.
Proof.
  intros E1 E2. pose proof run_user_argc as H. rewrite E1 in H. change (returned (sys_exec 1 (replicate DIRSIZ 0) mid_end 0x80020000 user_regs
    (user_machine root k)) = Some 2) in H. rewrite E2 in H. by injection H.
Qed.

Lemma user_path f : (∀ x, f x = write 0 user_bytes (λ _, 0) x) → ∀ path, cstring f 0 MAXPATH (path ++ [0]) → path = [47; 112].
Proof.
  intros Hf path Hc. apply (app_inj_tail path [47; 112] 0 0). apply (cstring_unique f 0 MAXPATH 3); [done|].
  exists 2%nat. split; [lia|]. split; [by rewrite (read_ext _ _ _ _ Hf)|]. rewrite !Hf. split; [done|].
  intros [|[|i]] Hi; rewrite Hf; [done|done|lia].
Qed.

Lemma user_byte f : (∀ x, f x = write 0 user_bytes (λ _, 0) x) → ∀ x, is_byte (f x).
Proof.
  intros Hf x. rewrite Hf. unfold write. case_decide as Hx; [|done].
  destruct (user_bytes !! Z.to_nat (x - 0)) as [b|] eqn:E; [|done]. cbn.
  assert (H : Forall is_byte user_bytes) by (repeat (constructor; [done|]); constructor). rewrite Forall_lookup in H. by eapply H.
Qed.

Theorem sys_exec_spec_witness :
  ∃ root k g k' p' argv, space mid_end 0x80020000 0x80021000 k root g 8000 ∧
    sys_exec 1 (replicate DIRSIZ 0) mid_end 0x80020000 user_regs (user_machine root k) =
      (Ret 2, {| m_mem := k'; m_files := prog_files; m_proc := p' |}) ∧
    user_argv (umem k g) 8 0 argv ∧ length argv = 2%nat.
Proof.
  destruct user_space as (root & k & g & Eu & Hs & Hm).
  destruct (sys_exec_spec mid_end mid_ok 0x80020000 0x80021000 page_a page_b 1 (replicate DIRSIZ 0) user_regs (user_machine root k) g 1
    prog_elf prog_locked prog_files Hs eq_refl (user_byte _ Hm) ltac:(cbn; lia)) as (r & k' & p' & ff & E & Hr).
  { intros path Hc. rewrite (user_path _ Hm path Hc). exact prog_opened. }
  pose proof (run_user_ret root k r _ Eu E) as ->. destruct Hr as [[H _]|(-> & path & argv & _ & Hargv & Hr)]; [discriminate H|].
  exists root, k, g, k', p', argv. split; [exact Hs|]. split; [exact E|]. split; [exact Hargv|].
  destruct Hr as [[H _]|[H _]]; [discriminate H|]. apply Nat2Z.inj. rewrite <-H. reflexivity.
Defined.
