(* ===== verification/Mkfs.v ===== *)
(** * The first disk (xv6/mkfs/mkfs.c)

    mkfs is a program of the host: it writes an image with the super block, an
    empty log, the inodes, the bitmap and the files it is given.  The image is a
    function from block numbers to blocks; reads and writes of the image file do
    not fail, and its machine is little-endian, so [xint] and [xshort] are the
    identity.  [None]: an assertion failed. *)

From S2P Require Export Dir.

#[local] Set Warnings "-clear-no-such-hyp".
#[local] Set Default Proof Using "Type".
#[local] Arguments Z.mul : simpl never.
#[local] Arguments Z.add : simpl never.
#[local] Arguments Z.sub : simpl never.
Local Open Scope Z_scope.

Definition FSSIZE : Z := 2000.
Definition LOGBLOCKS : Z := 30.
Definition NINODES : Z := 200.
Definition T_FILE : Z := 2.

Definition nbitmap : Z := FSSIZE / BPB + 1.
Definition ninodeblocks : Z := NINODES / IPB + 1.
Definition nlog : Z := LOGBLOCKS + 1.
Definition nmeta : Z := 2 + nlog + ninodeblocks + nbitmap.

Definition mksb : superblock :=
  {| sb_magic := FSMAGIC; sb_size := FSSIZE; sb_nblocks := FSSIZE - nmeta; sb_ninodes := NINODES; sb_nlog := nlog;
     sb_logstart := 2; sb_inodestart := 2 + nlog; sb_bmapstart := 2 + nlog + ninodeblocks |}.

Record mk := { img : Z → block; freeinode : Z; freeblock : Z }.

Definition wsect (b : Z) (d : block) (s : mk) : mk :=
  {| img := <[b := d]> (img s); freeinode := freeinode s; freeblock := freeblock s |}.
Definition set_freeblock (b : Z) (s : mk) : mk := {| img := img s; freeinode := freeinode s; freeblock := b |}.
Definition set_freeinode (i : Z) (s : mk) : mk := {| img := img s; freeinode := i; freeblock := freeblock s |}.
Definition rsect (b : Z) (s : mk) : block := img s b.

Definition winode (inum : Z) (d : dinode) (s : mk) : mk :=
  let bn := IBLOCK inum mksb in wsect bn (put_dinode inum d (rsect bn s)) s.
Definition rinode (inum : Z) (s : mk) : dinode := get_dinode inum (rsect (IBLOCK inum mksb) s).

Definition set_addr (k : nat) (a : Z) (d : dinode) : dinode :=
  {| d_type := d_type d; d_major := d_major d; d_minor := d_minor d; d_nlink := d_nlink d; d_size := d_size d;
     d_addrs := <[k := a]> (d_addrs d) |}.
Definition set_dsize (n : Z) (d : dinode) : dinode :=
  {| d_type := d_type d; d_major := d_major d; d_minor := d_minor d; d_nlink := d_nlink d; d_size := n; d_addrs := d_addrs d |}.

Definition new_dinode (type : Z) : dinode :=
  {| d_type := type; d_major := 0; d_minor := 0; d_nlink := 1; d_size := 0; d_addrs := replicate (S NDIRECT) 0 |}.

Definition ialloc (type : Z) (s : mk) : Z * mk :=
  let inum := freeinode s in (inum, winode inum (new_dinode type) (set_freeinode (inum + 1) s)).

(** The block of the file that has its block [fbn]: the address, the inode, the disk. *)
Definition direct_block (fbn : nat) (din : dinode) (s : mk) : Z * dinode * mk :=
  if addr_at (d_addrs din) fbn =? 0 then
    (freeblock s, set_addr fbn (freeblock s) din, set_freeblock (freeblock s + 1) s)
  else (addr_at (d_addrs din) fbn, din, s).

Definition indirect_block (fbn : nat) (din : dinode) (s : mk) : Z * dinode * mk :=
  let '(ind, din, s) := direct_block NDIRECT din s in
  let k := (fbn - NDIRECT)%nat in
  let indirect := rsect ind s in
  if indirect_at indirect k =? 0 then
    let b := freeblock s in (b, din, wsect ind (le_put 4 (4 * k) b indirect) (set_freeblock (b + 1) s))
  else (indirect_at indirect k, din, s).

Definition file_at (fbn : nat) (din : dinode) (s : mk) : Z * dinode * mk :=
  if (fbn <? NDIRECT)%nat then direct_block fbn din s else indirect_block fbn din s.

(** The loop of [iappend]; [off] is the size so far. *)
Fixpoint iappend_loop (fuel : nat) (din : dinode) (off : nat) (p : list Z) (s : mk) : option (dinode * nat * mk) :=
  match p with
  | [] => Some (din, off, s)
  | _ =>
      match fuel with
      | O => None
      | S fuel =>
          let fbn := (off / BSIZE)%nat in
          if MAXFILE <=? Z.of_nat fbn then None
          else
            let '(x, din, s) := file_at fbn din s in
            let n1 := Nat.min (length p) ((fbn + 1) * BSIZE - off) in
            let s := wsect x (splice (off - fbn * BSIZE) (take n1 p) (rsect x s)) s in
            iappend_loop fuel din (off + n1) (drop n1 p) s
      end
  end.

Definition iappend (inum : Z) (p : list Z) (s : mk) : option mk :=
  let din := rinode inum s in
  '(din, off, s) ← iappend_loop (length p) din (Z.to_nat (d_size din)) p s;
  Some (winode inum (set_dsize (Z.of_nat off) din) s).

(** The bits of the first [n] blocks. *)
Fixpoint mark_used (n : nat) (i : Z) (d : block) : block :=
  match n with
  | O => d
  | S n => mark_used n (i + 1) (mark_bit i d)
  end.

Definition balloc (used : Z) (s : mk) : option mk :=
  if BPB <=? used then None else Some (wsect (sb_bmapstart mksb) (mark_used (Z.to_nat used) 0 zero_block) s).

(** ** The files *)

(** The name of a file in the image: without "user/" and a leading "_". *)
Definition short_name (argv : list Z) : option (list Z) :=
  let s := if decide (take 5 argv = [117; 115; 101; 114; 47]) then drop 5 argv else argv in
  if decide (47 ∈ s) then None
  else
    let s := match s with 95 :: s' => s' | _ => s end in
    if (DIRSIZ <? length s)%nat then None else Some s.

Definition dirent (inum : Z) (name : list Z) : list Z := mk_dirent inum (strncpy (ptr name) DIRSIZ).

(** The chunks that [read] gives of a file. *)
Fixpoint append_chunks (inum : Z) (chunks : list (list Z)) (s : mk) : option mk :=
  match chunks with
  | [] => Some s
  | c :: chunks => s ← iappend inum c s; append_chunks inum chunks s
  end.

Definition add_file (rootino : Z) (file : list Z * list (list Z)) (s : mk) : option mk :=
  name ← short_name file.1;
  let '(inum, s) := ialloc T_FILE s in
  s ← iappend rootino (dirent inum name) s;
  append_chunks inum file.2 s.

Fixpoint add_files (rootino : Z) (files : list (list Z * list (list Z))) (s : mk) : option mk :=
  match files with
  | [] => Some s
  | f :: files => s ← add_file rootino f s; add_files rootino files s
  end.

Definition sb_bytes (x : superblock) : list Z :=
  concat (le_bytes 4 <$> [sb_magic x; sb_size x; sb_nblocks x; sb_ninodes x; sb_nlog x; sb_logstart x; sb_inodestart x; sb_bmapstart x]).

(** All blocks are zeros, then the super block is written. *)
Definition empty_image : mk :=
  wsect 1 (splice 0 (sb_bytes mksb) zero_block) {| img := λ _, zero_block; freeinode := 1; freeblock := nmeta |}.

Definition fix_root (rootino : Z) (s : mk) : mk :=
  let din := rinode rootino s in
  let off := d_size din in
  winode rootino (set_dsize ((off / BSIZEz + 1) * BSIZEz) din) s.

Definition mkfs (files : list (list Z * list (list Z))) : option mk :=
  let '(rootino, s) := ialloc T_DIR empty_image in
  s ← iappend rootino (dirent rootino [46]) s;
  s ← iappend rootino (dirent rootino [46; 46]) s;
  s ← add_files rootino files s;
  let s := fix_root rootino s in
  balloc (freeblock s) s.

(** "user/_a" with two chunks. *)
Definition a_file : list Z * list (list Z) := ([117; 115; 101; 114; 47; 95; 97], [[1; 2]; [3]]).

Example mkfs_a :
  match mkfs [a_file] with
  | Some s => rinode 2 s = {| d_type := T_FILE; d_major := 0; d_minor := 0; d_nlink := 1; d_size := 3;
                              d_addrs := 48 :: replicate NDIRECT 0 |} ∧ take 4 (img s 48) = [1; 2; 3; 0] ∧
              d_size (rinode 1 s) = 1024 ∧ freeblock s = 49 ∧ take 8 (img s 46) = [255; 255; 255; 255; 255; 255; 1; 0]
  | None => False
  end.
Proof. vm_compute. repeat split. Qed.
