(* ===== verification/MkfsFile.v ===== *)
(** * Files of the first disk

    What [iappend] does to one file: its bytes grow, its blocks are the old ones
    and the first free ones, and no other block changes. *)

From S2P Require Export Mkfs.

#[local] Set Warnings "-clear-no-such-hyp".
#[local] Set Default Proof Using "Type".
#[local] Arguments Z.mul : simpl never.
#[local] Arguments Z.add : simpl never.
#[local] Arguments Z.sub : simpl never.
#[local] Arguments Nat.mul : simpl never.
Local Open Scope Z_scope.

(** The blocks of a file: of its data, and the indirect one. *)
Definition own (data : list Z) (ind : option Z) : list Z := data ++ match ind with Some i => [i] | None => [] end.

(** Inode [d] on disk [B] has the blocks [data] and [ind], with the bytes [bs] and zeros behind them. *)
Record file_rep (B : Z → block) (d : dinode) (data : list Z) (ind : option Z) (bs : list Z) : Prop := {
  fr_ok : dinode_ok d;
  fr_addr k : (k < NFILE_BLOCKS)%nat → addr_of B (d_addrs d) k = default 0 (data !! k);
  fr_ind : addr_at (d_addrs d) NDIRECT = default 0 ind;
  fr_has : (NDIRECT < length data)%nat → is_Some ind;
  fr_len : (length data ≤ NFILE_BLOCKS)%nat;
  fr_size : (length bs ≤ length data * BSIZE)%nat;
  fr_bytes k x j : data !! k = Some x → (j < BSIZE)%nat → B x !! j = Some (default 0 (bs !! (k * BSIZE + j)%nat))
}.

Lemma file_rep_frame B B' d data ind bs :
  file_rep B d data ind bs → (∀ b, b ∈ own data ind → B' b = B b) → file_rep B' d data ind bs.
Proof.
  intros [H1 H2 H3 H4 H5 H6 H7] HB. split; try done.
  - intros k Hk. rewrite <-H2 by done. symmetry. apply addr_of_ext; [done|]. rewrite H3. intros Hi. symmetry. apply HB.
    destruct ind as [i|]; [|done]. apply elem_of_app. right. by left.
  - intros k x j Hx Hj. rewrite HB; [by apply H7|]. apply elem_of_app. left. by eapply list_elem_of_lookup_2.
Qed.

Lemma dinode_set_addr k a d : dinode_ok d → 0 ≤ a < 2 ^ 32 → dinode_ok (set_addr k a d).
Proof. intros [H1 H2 H3 H4 H5 H6 H7] Ha. split; try done; cbn; [by rewrite length_insert|by apply Forall_insert]. Qed.

Section Step.
Context (s : mk) (d : dinode) (data : list Z) (ind : option Z) (bs : list Z).
Abbreviation f := (freeblock s).
Context (Hrep : file_rep (img s) d data ind bs) (Hf : 0 < f < 2 ^ 31).
Context (Hnd : NoDup (own data ind)) (Hown : Forall (λ x, 0 < x < f) (own data ind)).
Context (Hzero : ∀ b, f ≤ b → img s b = zero_block) (Hlen : ∀ b, length (img s b) = BSIZE).

Lemma own_data x : x ∈ data → 0 < x < f.
Proof using All. intros Hx. rewrite Forall_forall in Hown. apply Hown, elem_of_app. by left. Qed.
Lemma own_ind i : ind = Some i → 0 < i < f.
Proof using All. intros ->. rewrite Forall_forall in Hown. apply Hown, elem_of_app. right. by left. Qed.

Lemma zero_byte j : (j < BSIZE)%nat → zero_block !! j = Some 0.
Proof using Type. intros Hj. unfold zero_block. by apply lookup_replicate_2. Qed.

Lemma data_zero k : (length data ≤ k < NFILE_BLOCKS)%nat → addr_of (img s) (d_addrs d) k = 0.
Proof using All. intros Hk. rewrite (fr_addr _ _ _ _ _ Hrep) by lia. by rewrite lookup_ge_None_2 by lia. Qed.

(** The block of new data is zeros. *)
Lemma new_block_bytes k x j : (data ++ [f]) !! k = Some x → (j < BSIZE)%nat → (length bs ≤ length data * BSIZE)%nat →
  img s x !! j = Some (default 0 (bs !! (k * BSIZE + j)%nat)).
Proof using All.
  intros Hx Hj Hl. destruct (decide (k < length data)%nat) as [Hk|Hk].
  - rewrite lookup_app_l in Hx by done. by apply (fr_bytes _ _ _ _ _ Hrep).
  - rewrite lookup_app_r in Hx by lia. destruct (k - length data)%nat as [|m] eqn:E; [|done]. injection Hx as <-.
    rewrite Hzero, zero_byte by (done || lia). rewrite lookup_ge_None_2; [done|]. assert (k = length data) as -> by lia. lia.
Qed.

(** What allocating a block for position [length data] gives. *)
Record grown_by (x : Z) (d' : dinode) (s' : mk) (data' : list Z) (ind' : option Z) : Prop := {
  gb_rep : file_rep (img s') d' data' ind' bs;
  gb_own : own data' ind' ≡ₚ own data ind ++ seqZ f (freeblock s' - f);
  gb_free : f ≤ freeblock s';
  gb_inode : freeinode s' = freeinode s;
  gb_img b : b ∉ own data' ind' → img s' b = img s b;
  gb_len b : length (img s' b) = BSIZE
}.

Lemma seqZ_none : seqZ f (f - f) = [].
Proof using Type. by rewrite Z.sub_diag. Qed.
Lemma seqZ_one : seqZ f (f + 1 - f) = [f].
Proof using Type. replace (f + 1 - f) with 1 by lia. done. Qed.

Lemma grown_same x : x ∈ data → grown_by x d s data ind.
Proof using All. intros _. split; try done. by rewrite seqZ_none, app_nil_r. Qed.

Lemma direct_ok fbn :
  (fbn < NDIRECT)%nat → (fbn ≤ length data ≤ S fbn)%nat →
  let '(x, d', s') := direct_block fbn d s in
  ∃ data' ind', data' !! fbn = Some x ∧ length data' = S fbn ∧ grown_by x d' s' data' ind'.
Proof using All.
  intros Hn Hl. unfold direct_block.
  assert (Ea : addr_at (d_addrs d) fbn = default 0 (data !! fbn)).
  { rewrite <-(fr_addr _ _ _ _ _ Hrep) by (unfold NFILE_BLOCKS, NDIRECT, NINDIRECT in *; lia). unfold addr_of.
    by rewrite (proj2 (Nat.ltb_lt _ _)). }
  rewrite Ea. destruct (data !! fbn) as [x|] eqn:Ex; cbn [default from_option id].
  { assert (Hx : x ∈ data) by (by eapply list_elem_of_lookup_2). rewrite (proj2 (Z.eqb_neq x 0)) by (pose proof (own_data x Hx); lia).
    exists data, ind. split; [done|]. apply lookup_lt_Some in Ex. split; [lia|]. by apply grown_same. }
  cbn [Z.eqb]. apply lookup_ge_None_1 in Ex. assert (El : length data = fbn) by lia. pose proof (fr_ok _ _ _ _ _ Hrep) as Hd.
  pose proof (dk_len _ Hd) as Hdl. unfold NDIRECT in *.
  exists (data ++ [f]), ind. split; [by rewrite lookup_app_r, El, Nat.sub_diag by lia|]. split; [rewrite length_app; cbn; lia|]. split.
  - split; cbn [img set_freeblock set_addr d_addrs].
    + apply dinode_set_addr; [done|lia].
    + intros k Hk. unfold addr_of. rewrite !addr_at_insert by lia. destruct (k <? NDIRECT)%nat eqn:Ek.
      * apply Nat.ltb_lt in Ek. case_decide as E; [by rewrite E, lookup_app_r, El, Nat.sub_diag by lia|].
        pose proof (fr_addr _ _ _ _ _ Hrep k Hk) as H. unfold addr_of in H. rewrite (proj2 (Nat.ltb_lt _ _)) in H by done. rewrite H.
        destruct (decide (k < fbn)%nat); [by rewrite lookup_app_l by lia|]. by rewrite !lookup_ge_None_2 by (rewrite ?length_app; cbn; lia).
      * rewrite decide_False by (unfold NDIRECT; lia). apply Nat.ltb_ge in Ek.
        pose proof (fr_addr _ _ _ _ _ Hrep k Hk) as H. unfold addr_of in H. rewrite (proj2 (Nat.ltb_ge _ _)) in H by done. rewrite H.
        unfold NDIRECT in Ek. by rewrite !lookup_ge_None_2 by (rewrite ?length_app; cbn; lia).
    + rewrite addr_at_insert, decide_False by (unfold NDIRECT; lia). apply (fr_ind _ _ _ _ _ Hrep).
    + rewrite length_app. cbn. unfold NDIRECT. lia.
    + rewrite length_app. cbn. unfold NFILE_BLOCKS, NDIRECT, NINDIRECT. lia.
    + pose proof (fr_size _ _ _ _ _ Hrep). rewrite length_app. cbn. lia.
    + intros k x j Hx Hj. apply new_block_bytes; [done|done|]. apply (fr_size _ _ _ _ _ Hrep).
  - cbn [freeblock set_freeblock]. rewrite seqZ_one. unfold own. rewrite <-!app_assoc. apply Permutation_app_head.
    apply Permutation_app_comm.
  - cbn. lia.
  - done.
  - done.
  - done.
Qed.

(** The indirect block, when the data has come to it. *)
Lemma ind_ok :
  (NDIRECT ≤ length data)%nat →
  let '(i, d', s') := direct_block NDIRECT d s in
  file_rep (img s') d' data (Some i) bs ∧ own data (Some i) ≡ₚ own data ind ++ seqZ f (freeblock s' - f) ∧
  f ≤ freeblock s' ≤ f + 1 ∧ freeinode s' = freeinode s ∧ img s' = img s.
Proof using All.
  intros Hl. pose proof own_ind as Hoi. unfold direct_block. rewrite (fr_ind _ _ _ _ _ Hrep). destruct ind as [i|] eqn:Ei; cbn [default from_option id].
  { rewrite (proj2 (Z.eqb_neq i 0)) by (pose proof (Hoi i eq_refl); lia). split; [done|]. rewrite seqZ_none, app_nil_r. split_and!; done || lia. }
  cbn [Z.eqb]. assert (El : length data = NDIRECT).
  { destruct (decide (NDIRECT < length data)%nat) as [H|H]; [|lia]. apply (fr_has _ _ _ _ _ Hrep) in H. by destruct H. }
  pose proof (fr_ok _ _ _ _ _ Hrep) as Hd. pose proof (dk_len _ Hd) as Hdl.
  split; [|split; [|cbn; split_and!; done || lia]].
  - split; cbn [img set_freeblock set_addr d_addrs].
    + apply dinode_set_addr; [done|lia].
    + intros k Hk. unfold addr_of. rewrite !addr_at_insert by lia. rewrite (decide_True (P := NDIRECT = NDIRECT)) by done.
      pose proof (fr_addr _ _ _ _ _ Hrep k Hk) as H. unfold addr_of in H. destruct (k <? NDIRECT)%nat eqn:Ek.
      * apply Nat.ltb_lt in Ek. by rewrite decide_False by lia.
      * apply Nat.ltb_ge in Ek. rewrite (proj2 (Z.eqb_neq f 0)) by lia. rewrite Hzero by lia.
        rewrite indirect_zero by (unfold NFILE_BLOCKS in *; lia). by rewrite lookup_ge_None_2 by lia.
    + rewrite addr_at_insert by lia. by rewrite decide_True.
    + done.
    + apply Hrep.
    + apply Hrep.
    + apply Hrep.
  - cbn [freeblock set_freeblock]. rewrite seqZ_one. unfold own. by rewrite app_nil_r.
Qed.

(** An entry of the indirect block. *)
Lemma entry_ok i fbn :
  ind = Some i → (NDIRECT ≤ fbn < NFILE_BLOCKS)%nat → (fbn ≤ length data ≤ S fbn)%nat →
  let k := (fbn - NDIRECT)%nat in
  let '(x, d', s') :=
    if indirect_at (img s i) k =? 0 then (f, d, wsect i (le_put 4 (4 * k) f (img s i)) (set_freeblock (f + 1) s))
    else (indirect_at (img s i) k, d, s) in
  ∃ data', data' !! fbn = Some x ∧ length data' = S fbn ∧ grown_by x d' s' data' ind.
Proof using All.
  intros Ei Hn Hl k. pose proof (own_ind i Ei) as Hi.
  assert (Hat : ∀ m, (NDIRECT ≤ m < NFILE_BLOCKS)%nat → indirect_at (img s i) (m - NDIRECT) = default 0 (data !! m)).
  { intros m Hm. rewrite <-(fr_addr _ _ _ _ _ Hrep) by lia. unfold addr_of. rewrite (proj2 (Nat.ltb_ge _ _)) by lia.
    rewrite (fr_ind _ _ _ _ _ Hrep), Ei. cbn [default from_option id]. by rewrite (proj2 (Z.eqb_neq i 0)) by lia. }
  unfold k. rewrite (Hat fbn) by lia. destruct (data !! fbn) as [x|] eqn:Ex; cbn [default from_option id].
  { assert (Hx : x ∈ data) by (by eapply list_elem_of_lookup_2). rewrite (proj2 (Z.eqb_neq x 0)) by (pose proof (own_data x Hx); lia).
    exists data. split; [done|]. apply lookup_lt_Some in Ex. split; [lia|]. by apply grown_same. }
  cbn [Z.eqb]. apply lookup_ge_None_1 in Ex. assert (El : length data = fbn) by lia.
  assert (Hil : length (le_put 4 (4 * (fbn - NDIRECT)) f (img s i)) = BSIZE).
  { rewrite length_le_put; [done|]. rewrite Hlen. unfold NFILE_BLOCKS, NINDIRECT, BSIZE in *. lia. }
  assert (Hnotin : i ∉ data).
  { intros Hin. unfold own in Hnd. rewrite Ei in Hnd. apply NoDup_app in Hnd as (_ & H & _). apply (H i Hin). by left. }
  set (s' := wsect i (le_put 4 (4 * (fbn - NDIRECT)) f (img s i)) (set_freeblock (f + 1) s)).
  assert (Him : ∀ b, b ≠ i → img s' b = img s b) by (intros b Hb; by apply fn_lookup_insert_ne).
  assert (Himi : img s' i = le_put 4 (4 * (fbn - NDIRECT)) f (img s i)) by apply fn_lookup_insert.
  exists (data ++ [f]). split; [by rewrite lookup_app_r, El, Nat.sub_diag by lia|]. split; [rewrite length_app; cbn; lia|]. split.
  - split.
    + apply Hrep.
    + intros m Hm. unfold addr_of. rewrite (fr_ind _ _ _ _ _ Hrep), Ei. cbn [default from_option id].
      destruct (m <? NDIRECT)%nat eqn:Em.
      * apply Nat.ltb_lt in Em. pose proof (fr_addr _ _ _ _ _ Hrep m Hm) as H. unfold addr_of in H.
        rewrite (proj2 (Nat.ltb_lt _ _)) in H by done. rewrite H, lookup_app_l by lia. done.
      * apply Nat.ltb_ge in Em. rewrite (proj2 (Z.eqb_neq i 0)) by lia. rewrite Himi.
        rewrite indirect_put by (rewrite ?Hlen; unfold NFILE_BLOCKS in *; lia || done). case_decide as E.
        -- assert (m = fbn) as -> by lia. by rewrite lookup_app_r, El, Nat.sub_diag by lia.
        -- rewrite Hat by lia. destruct (decide (m < fbn)%nat); [by rewrite lookup_app_l by lia|].
           by rewrite !lookup_ge_None_2 by (rewrite ?length_app; cbn; lia).
    + apply Hrep.
    + intros _. by rewrite Ei.
    + rewrite length_app. cbn [length]. lia.
    + pose proof (fr_size _ _ _ _ _ Hrep). rewrite length_app. cbn. lia.
    + intros m x j Hx Hj. rewrite Him; [apply new_block_bytes; [done|done|]; apply (fr_size _ _ _ _ _ Hrep)|].
      apply list_elem_of_lookup_2 in Hx. intros ->. apply elem_of_app in Hx as [Hx|Hx]; [done|]. apply list_elem_of_singleton in Hx. lia.
  - cbn [freeblock set_freeblock wsect s']. rewrite seqZ_one. unfold own. rewrite <-!app_assoc. apply Permutation_app_head.
    apply Permutation_app_comm.
  - cbn. lia.
  - done.
  - intros b Hb. apply Him. intros ->. apply Hb. unfold own. rewrite Ei. apply elem_of_app. right. by left.
  - intros b. destruct (decide (b = i)) as [->|Hne]; [by rewrite Himi|by rewrite Him].
Qed.
End Step.

(** *** The block of the next byte *)
Section Block.
Context (s : mk) (d : dinode) (data : list Z) (ind : option Z) (bs : list Z).
Abbreviation f := (freeblock s).
Context (Hrep : file_rep (img s) d data ind bs) (Hf : 0 < f < 2 ^ 31).
Context (Hnd : NoDup (own data ind)) (Hown : Forall (λ x, 0 < x < f) (own data ind)).
Context (Hzero : ∀ b, f ≤ b → img s b = zero_block) (Hlen : ∀ b, length (img s b) = BSIZE).

(** Blocks that are the old ones and new ones are apart and below the free ones. *)
Lemma own_grown (l : list Z) f' :
  l ≡ₚ own data ind ++ seqZ f (f' - f) → f ≤ f' → NoDup l ∧ Forall (λ x, 0 < x < f') l.
Proof using All.
  intros Hp Hle. split.
  - rewrite Hp. apply NoDup_app. split; [done|]. split; [|apply NoDup_seqZ]. intros x Hx Hs%elem_of_seqZ.
    rewrite Forall_forall in Hown. specialize (Hown x Hx). lia.
  - rewrite Hp. apply Forall_app. split.
    + eapply Forall_impl; [exact Hown|]. cbn. lia.
    + apply Forall_forall. intros x Hx%elem_of_seqZ. lia.
Qed.

Lemma file_at_ok fbn :
  (fbn < NFILE_BLOCKS)%nat → (fbn ≤ length data ≤ S fbn)%nat → f + 2 < 2 ^ 31 →
  let '(x, d', s') := file_at fbn d s in
  ∃ data' ind', data' !! fbn = Some x ∧ length data' = S fbn ∧ grown_by s data ind bs x d' s' data' ind'.
Proof using All.
  intros Hn Hl Hf2. unfold file_at. destruct (fbn <? NDIRECT)%nat eqn:E.
  { apply Nat.ltb_lt in E. by apply direct_ok. }
  apply Nat.ltb_ge in E. unfold indirect_block.
  pose proof (ind_ok s d data ind bs Hrep Hf Hnd Hown Hzero Hlen ltac:(lia)) as H1.
  destruct (direct_block NDIRECT d s) as [[i d1] s1]. destruct H1 as (Hrep1 & Hp1 & Hf1 & Hi1 & Him1). unfold rsect.
  destruct (own_grown _ _ Hp1 ltac:(lia)) as [Hnd1 Hown1].
  pose proof (entry_ok s1 d1 data (Some i) bs Hrep1 ltac:(lia) Hnd1 Hown1
    ltac:(intros b Hb; rewrite Him1; apply Hzero; lia) ltac:(by rewrite Him1) i fbn eq_refl ltac:(lia) Hl) as H2. cbv zeta in H2.
  destruct (if indirect_at (img s1 i) (fbn - NDIRECT) =? 0 then _ else _) as [[x d2] s2]. destruct H2 as (data' & Hx & Hdl & [G1 G2 G3 G4 G5 G6]).
  exists data', (Some i). split; [done|]. split; [done|]. split.
  - done.
  - rewrite G2, Hp1, <-app_assoc. apply Permutation_app_head.
    replace (freeblock s2 - f) with ((freeblock s1 - f) + (freeblock s2 - freeblock s1)) by lia.
    rewrite seqZ_app by lia. by replace (f + (freeblock s1 - f)) with (freeblock s1) by lia.
  - lia.
  - by rewrite G4.
  - intros b Hb. by rewrite G5, Him1.
  - done.
Qed.
End Block.

(** ** Appending *)
Lemma div_block n : ((n / BSIZE) * BSIZE ≤ n < (n / BSIZE) * BSIZE + BSIZE)%nat.
Proof.
  pose proof (Nat.div_mod n BSIZE ltac:(done)). pose proof (Nat.mod_upper_bound n BSIZE ltac:(done)). lia.
Qed.

(** A part of a block is written. *)
Lemma write_block_rep s d data ind bs c fbn x :
  file_rep (img s) d data ind bs → NoDup (own data ind) → (∀ b, length (img s b) = BSIZE) →
  data !! fbn = Some x → length data = S fbn → (fbn * BSIZE ≤ length bs)%nat → (length bs + length c ≤ S fbn * BSIZE)%nat →
  file_rep (<[x := splice (length bs - fbn * BSIZE) c (img s x)]> (img s)) d data ind (bs ++ c).
Proof.
  intros [H1 H2 H3 H4 H5 H6 H7] Hnd Hlen Hx Hl Hb1 Hb2. set (B := <[x := _]> (img s)).
  assert (Hne : ∀ b, b ≠ x → B b = img s b) by (intros b Hb; by apply fn_lookup_insert_ne).
  assert (Hxi : match ind with Some i => i ≠ x | None => True end).
  { destruct ind as [i|]; [|done]. apply NoDup_app in Hnd as (_ & H & _). intros ->. apply (H x); [by eapply list_elem_of_lookup_2|by left]. }
  split; try done.
  - intros k Hk. rewrite <-H2 by done. symmetry. apply addr_of_ext; [done|]. rewrite H3. intros Hi. symmetry.
    destruct ind as [i|]; [|done]. by apply Hne.
  - rewrite length_app. lia.
  - intros k y j Hy Hj. destruct (decide (k = fbn)) as [->|Hk].
    + rewrite Hx in Hy. injection Hy as <-. unfold B. rewrite fn_lookup_insert.
      destruct (decide (length bs - fbn * BSIZE ≤ j < length bs - fbn * BSIZE + length c)%nat) as [Hin|Hout].
      * rewrite splice_lookup_in by (rewrite ?Hlen; lia). rewrite lookup_app_r by lia.
        replace (fbn * BSIZE + j - length bs)%nat with (j - (length bs - fbn * BSIZE))%nat by lia.
        destruct (lookup_lt_is_Some_2 c (j - (length bs - fbn * BSIZE))) as [v ->]; [lia|]. done.
      * rewrite splice_lookup_out by (rewrite ?Hlen; lia). rewrite (H7 fbn x j Hx Hj). f_equal. f_equal.
        destruct (decide (j < length bs - fbn * BSIZE)%nat); [by rewrite lookup_app_l by lia|].
        rewrite !lookup_ge_None_2; [done|rewrite length_app; lia|lia].
    + rewrite Hne.
      * rewrite (H7 k y j Hy Hj). f_equal. f_equal. rewrite lookup_app_l; [done|]. apply lookup_lt_Some in Hy. unfold BSIZE in *. nia.
      * intros ->. apply NoDup_app in Hnd as (Hnd & _). apply Hk. by eapply NoDup_lookup.
Qed.

Definition same_meta (d d' : dinode) : Prop :=
  d_type d' = d_type d ∧ d_major d' = d_major d ∧ d_minor d' = d_minor d ∧ d_nlink d' = d_nlink d ∧ d_size d' = d_size d.

Lemma direct_mono n d s : let '(_, d', s') := direct_block n d s in freeblock s ≤ freeblock s' ∧ same_meta d d'.
Proof. unfold direct_block. destruct (_ =? 0); cbn; [|by split_and!]. split; [lia|done]. Qed.

Lemma file_at_mono n d s : let '(_, d', s') := file_at n d s in freeblock s ≤ freeblock s' ∧ same_meta d d'.
Proof.
  unfold file_at. destruct (n <? NDIRECT)%nat; [apply direct_mono|]. unfold indirect_block.
  pose proof (direct_mono NDIRECT d s) as H. destruct (direct_block NDIRECT d s) as [[i d1] s1].
  destruct (_ =? 0); cbn; destruct H as [H1 H2]; (split; [lia|done]).
Qed.

Lemma iappend_loop_mono fuel : ∀ d off p s d' off' s',
  iappend_loop fuel d off p s = Some (d', off', s') → freeblock s ≤ freeblock s' ∧ same_meta d d' ∧ off' = (off + length p)%nat.
Proof.
  induction fuel as [|fuel IH]; intros d off p s d' off' s' E; destruct p as [|c p]; cbn [iappend_loop] in E;
    try (injection E as <- <- <-; split; [lia|split; [by split_and!|cbn; lia]]); [done|].
  destruct (MAXFILE <=? _); [done|]. pose proof (file_at_mono (off / BSIZE) d s) as H.
  destruct (file_at (off / BSIZE) d s) as [[x d1] s1]. destruct H as (H1 & H2 & H3 & H4 & H5 & H6).
  apply IH in E as (E1 & (E2 & E3 & E4 & E5 & E6) & ->). cbn in E1. split; [lia|]. split; [by split_and!; etrans|].
  rewrite length_drop. lia.
Qed.

(** [iappend] fails only when the file would be too large. *)
Lemma iappend_loop_none fuel : ∀ d off p s,
  (length p ≤ fuel)%nat → iappend_loop fuel d off p s = None → (NFILE_BLOCKS * BSIZE < off + length p)%nat.
Proof.
  induction fuel as [|fuel IH]; intros d off p s Hl E; destruct p as [|c p]; cbn [iappend_loop] in E; try done; [cbn in Hl; lia|].
  pose proof (div_block off) as Hd. destruct (MAXFILE <=? Z.of_nat (off / BSIZE)) eqn:Em.
  { apply Z.leb_le in Em. unfold MAXFILE, NFILE_BLOCKS, NDIRECT, NINDIRECT, BSIZE in *. cbn [length]. lia. }
  destruct (file_at (off / BSIZE) d s) as [[x d1] s1]. cbn [length] in Hl, E. apply IH in E; rewrite length_drop in *; cbn [length] in *; lia.
Qed.

(** What appending does to the disk, beside the bytes. *)
Record extends (s : mk) (data : list Z) (ind : option Z) (s' : mk) (data' : list Z) (ind' : option Z) : Prop := {
  ex_own : own data' ind' ≡ₚ own data ind ++ seqZ (freeblock s) (freeblock s' - freeblock s);
  ex_free : freeblock s ≤ freeblock s';
  ex_inode : freeinode s' = freeinode s;
  ex_img b : b ∉ own data' ind' → img s' b = img s b;
  ex_len b : length (img s' b) = BSIZE
}.

Lemma extends_trans s data ind s1 data1 ind1 s2 data2 ind2 :
  extends s data ind s1 data1 ind1 → extends s1 data1 ind1 s2 data2 ind2 → extends s data ind s2 data2 ind2.
Proof.
  intros [A1 A2 A3 A4 A5] [B1 B2 B3 B4 B5]. split; [|lia|congruence| |done].
  - rewrite B1, A1, <-app_assoc. apply Permutation_app_head.
    replace (freeblock s2 - freeblock s) with ((freeblock s1 - freeblock s) + (freeblock s2 - freeblock s1)) by lia.
    rewrite seqZ_app by lia. by replace (freeblock s + (freeblock s1 - freeblock s)) with (freeblock s1) by lia.
  - intros b Hb. rewrite B4 by done. apply A4. intros Hin. apply Hb. rewrite B1. apply elem_of_app. by left.
Qed.

(** A file on a disk whose free blocks are zeros. *)
Record growing (s : mk) (d : dinode) (data : list Z) (ind : option Z) (bs : list Z) : Prop := {
  gr_rep : file_rep (img s) d data ind bs;
  gr_tight : (length data * BSIZE < length bs + BSIZE)%nat;
  gr_nodup : NoDup (own data ind);
  gr_own : Forall (λ x, 0 < x < freeblock s) (own data ind);
  gr_free : 0 < freeblock s;
  gr_zero b : freeblock s ≤ b → img s b = zero_block;
  gr_len b : length (img s b) = BSIZE
}.

(** One turn of the loop. *)
Lemma append_turn s d data ind bs c x d1 s1 :
  growing s d data ind bs → file_at (length bs / BSIZE) d s = (x, d1, s1) → (length bs / BSIZE < NFILE_BLOCKS)%nat →
  freeblock s ≤ FSSIZE → (0 < length c)%nat → (length bs + length c ≤ S (length bs / BSIZE) * BSIZE)%nat →
  let s2 := wsect x (splice (length bs - (length bs / BSIZE) * BSIZE) c (rsect x s1)) s1 in
  ∃ data' ind', growing s2 d1 data' ind' (bs ++ c) ∧ extends s data ind s2 data' ind'.
Proof.
  intros [G1 G2 G3 G4 G5 G6 G7] E Hn Hfs Hc Hfit s2. pose proof (div_block (length bs)) as Hd. set (fbn := (length bs / BSIZE)%nat) in *.
  pose proof (fr_size _ _ _ _ _ G1) as Hsz. unfold FSSIZE in Hfs.
  assert (Hl : (fbn ≤ length data ≤ S fbn)%nat) by (unfold BSIZE in *; nia).
  pose proof (file_at_ok s d data ind bs G1 ltac:(lia) G3 G4 G6 G7 fbn Hn Hl ltac:(lia)) as H. rewrite E in H.
  destruct H as (data' & ind' & Hx & Hdl & [B1 B2 B3 B4 B5 B6]).
  destruct (own_grown s d data ind bs G1 ltac:(lia) G3 G4 G6 G7 _ _ B2 B3) as [Hnd' Hown'].
  assert (Hxin : x ∈ own data' ind') by (apply elem_of_app; left; by eapply list_elem_of_lookup_2).
  pose proof (write_block_rep s1 d1 data' ind' bs c fbn x B1 Hnd' B6 Hx Hdl ltac:(lia) Hfit) as Hw.
  exists data', ind'.
  assert (Hbl : ∀ b, length (img s2 b) = BSIZE).
  { intros b. unfold s2. cbn [img wsect]. destruct (decide (b = x)) as [->|Hne]; [|by rewrite fn_lookup_insert_ne].
    rewrite fn_lookup_insert. unfold rsect. rewrite length_splice; rewrite B6; lia. }
  assert (Himg : ∀ b, b ∉ own data' ind' → img s2 b = img s b).
  { intros b Hb. unfold s2. cbn [img wsect]. rewrite fn_lookup_insert_ne; [by apply B5|]. by intros <-. }
  split; split; try done.
  - rewrite length_app, Hdl. unfold BSIZE in *. lia.
  - cbn. lia.
  - intros b Hb. rewrite Himg; [apply G6; cbn in Hb; lia|]. rewrite Forall_forall in Hown'. intros Hin. specialize (Hown' b Hin). cbn in Hb. lia.
Qed.

Lemma extends_refl s d data ind bs : growing s d data ind bs → extends s data ind s data ind.
Proof. intros H. split; try done; [by rewrite Z.sub_diag, app_nil_r|apply H]. Qed.

Lemma iappend_loop_ok fuel : ∀ p d s data ind bs d' off s',
  growing s d data ind bs → (length p ≤ fuel)%nat → iappend_loop fuel d (length bs) p s = Some (d', off, s') → freeblock s' ≤ FSSIZE →
  ∃ data' ind', growing s' d' data' ind' (bs ++ p) ∧ extends s data ind s' data' ind'.
Proof.
  induction fuel as [|fuel IH]; intros p d s data ind bs d' off s' Hg Hl E Hfs.
  all: destruct p as [|c0 p0]; cbn [iappend_loop] in E.
  1,3: injection E as <- <- <-; exists data, ind; rewrite app_nil_r; split; [done|by eapply extends_refl].
  { cbn in Hl. lia. }
  pose proof (iappend_loop_mono (S fuel) d (length bs) (c0 :: p0) s d' off s') as Hmono.
  assert (Hmono' : freeblock s ≤ FSSIZE) by (destruct (Hmono E) as [H _]; lia). clear Hmono.
  set (p := c0 :: p0) in *. assert (Hp : (0 < length p)%nat) by (unfold p; cbn; lia). clearbody p. clear c0 p0.
  destruct (MAXFILE <=? Z.of_nat (length bs / BSIZE)) eqn:Em; [done|]. apply Z.leb_gt in Em.
  assert (Hn : (length bs / BSIZE < NFILE_BLOCKS)%nat) by (unfold MAXFILE, NFILE_BLOCKS in *; lia).
  pose proof (div_block (length bs)) as Hd.
  destruct (file_at (length bs / BSIZE) d s) as [[x d1] s1] eqn:Ef. cbv zeta in E.
  set (n1 := Nat.min (length p) ((length bs / BSIZE + 1) * BSIZE - length bs)) in *.
  assert (Hn1 : (0 < n1 ≤ length p ∧ length bs + n1 ≤ S (length bs / BSIZE) * BSIZE)%nat) by (unfold n1; unfold BSIZE in *; lia).
  assert (Htl : length (take n1 p) = n1) by (rewrite length_take; lia).
  destruct (append_turn s d data ind bs (take n1 p) x d1 s1 Hg Ef Hn Hmono' ltac:(lia) ltac:(lia)) as (data1 & ind1 & Hg1 & Hex1).
  replace (length bs + n1)%nat with (length (bs ++ take n1 p)) in E by (rewrite length_app; lia).
  destruct (IH (drop n1 p) d1 _ data1 ind1 (bs ++ take n1 p) d' off s' Hg1 ltac:(rewrite length_drop; lia) E Hfs) as (data2 & ind2 & Hg2 & Hex2).
  exists data2, ind2. rewrite <-app_assoc, take_drop in Hg2. split; [done|]. by eapply extends_trans.
Qed.
