(* ===== verification/MkfsDisk.v ===== *)
(** * The whole of the first disk

    The table of the files of the image, and that every step of mkfs keeps it: an
    inode on the disk for each file, with blocks of its own. *)

From S2P Require Export MkfsFile.

#[local] Set Warnings "-clear-no-such-hyp".
#[local] Set Default Proof Using "Type".
#[local] Arguments Z.mul : simpl never.
#[local] Arguments Z.add : simpl never.
#[local] Arguments Z.sub : simpl never.
#[local] Arguments Nat.mul : simpl never.
Local Open Scope Z_scope.

(** A file of the image, by what is on the disk and by its bytes. *)
Record mfile := { f_din : dinode; f_data : list Z; f_ind : option Z; f_bs : list Z }.

Abbreviation f_own f := (own (f_data f) (f_ind f)).

Record mfile_ok (s : mk) (f : mfile) : Prop := {
  mf_rep : file_rep (img s) (f_din f) (f_data f) (f_ind f) (f_bs f);
  mf_size : d_size (f_din f) = Z.of_nat (length (f_bs f));
  mf_tight : (length (f_data f) * BSIZE < length (f_bs f) + BSIZE)%nat;
  mf_nodup : NoDup (f_own f);
  mf_own : Forall (λ x, nmeta ≤ x < freeblock s) (f_own f);
  mf_link : d_nlink (f_din f) = 1
}.

Definition inode_block (b : Z) : Prop := sb_inodestart mksb ≤ b < sb_bmapstart mksb.

(** File [k] of the table is inode [k + 1]. *)
Record disk_rep (s : mk) (t : list mfile) : Prop := {
  dr_inode : freeinode s = Z.of_nat (S (length t));
  dr_few : Z.of_nat (length t) < NINODES;
  dr_din k f : t !! k = Some f → rinode (Z.of_nat (S k)) s = f_din f;
  dr_file k f : t !! k = Some f → mfile_ok s f;
  dr_apart j k f g x : j ≠ k → t !! j = Some f → t !! k = Some g → x ∈ f_own f → x ∉ f_own g;
  dr_free : nmeta ≤ freeblock s;
  dr_zero b : freeblock s ≤ b → img s b = zero_block;
  dr_len b : length (img s b) = BSIZE;
  dr_meta b : b < nmeta → ¬ inode_block b → img s b = img empty_image b
}.

(** What a reader sees of a file. *)
Definition view (f : mfile) : Z * list Z := (d_type (f_din f), f_bs f).

(** ** The inode blocks *)
Lemma nmeta_val : nmeta = 47.
Proof. done. Qed.

Lemma iblock_range k : (Z.of_nat k < NINODES) → inode_block (IBLOCK (Z.of_nat (S k)) mksb).
Proof.
  intros Hk. unfold inode_block, IBLOCK, NINODES, IPB in *. change (sb_inodestart mksb) with 33. change (sb_bmapstart mksb) with 46.
  pose proof (Z.div_pos (Z.of_nat (S k)) 16). assert (Z.of_nat (S k) / 16 < 13) by (apply Z.div_lt_upper_bound; lia). lia.
Qed.

Lemma iblock_low k : Z.of_nat k < NINODES → IBLOCK (Z.of_nat (S k)) mksb < nmeta.
Proof. intros Hk. destruct (iblock_range k Hk) as [_ H]. change (sb_bmapstart mksb) with 46 in H. rewrite nmeta_val. lia. Qed.

Lemma winode_frame k d s b :
  Z.of_nat k < NINODES → (nmeta ≤ b ∨ ¬ inode_block b) → img (winode (Z.of_nat (S k)) d s) b = img s b.
Proof.
  intros Hk Hb. unfold winode, wsect. cbn [img]. apply fn_lookup_insert_ne. intros <-. pose proof (iblock_low k Hk). pose proof (iblock_range k Hk).
  destruct Hb; [lia|done].
Qed.

Lemma winode_len k d s :
  length (d_addrs d) = S NDIRECT → (∀ b, length (img s b) = BSIZE) → ∀ b, length (img (winode k d s) b) = BSIZE.
Proof.
  intros Hd Hs b. unfold winode, wsect. cbn [img]. destruct (decide (b = IBLOCK k mksb)) as [->|Hne].
  - rewrite fn_lookup_insert. apply length_put_dinode; [apply Hs|done].
  - by rewrite fn_lookup_insert_ne.
Qed.

Lemma rinode_winode k d s : dinode_ok d → (∀ b, length (img s b) = BSIZE) → rinode k (winode k d s) = d.
Proof.
  intros Hd Hs. unfold rinode, winode, wsect, rsect. cbn [img]. rewrite fn_lookup_insert. apply get_put_dinode; [apply Hs|done].
Qed.

Lemma rinode_winode_ne j k d s :
  length (d_addrs d) = S NDIRECT → (∀ b, length (img s b) = BSIZE) → j ≠ k → rinode j (winode k d s) = rinode j s.
Proof.
  intros Hd Hs Hne. unfold rinode, winode, wsect, rsect. cbn [img]. destruct (decide (IBLOCK j mksb = IBLOCK k mksb)) as [E|E].
  - rewrite E, fn_lookup_insert. apply get_put_dinode_ne; [apply Hs|done|]. intros Em. apply Hne. unfold IBLOCK in E.
    rewrite (Z.div_mod j IPB), (Z.div_mod k IPB) by done. rewrite Em. f_equal. f_equal. lia.
  - by rewrite fn_lookup_insert_ne by done.
Qed.

Lemma rinode_img k s s' : img s' (IBLOCK k mksb) = img s (IBLOCK k mksb) → rinode k s' = rinode k s.
Proof. intros H. unfold rinode, rsect. by rewrite H. Qed.

Lemma set_dsize_ok n d : dinode_ok d → 0 ≤ n < 2 ^ 32 → dinode_ok (set_dsize n d).
Proof. intros [H1 H2 H3 H4 H5 H6 H7] Hn. by split. Qed.

Lemma set_dsize_rep B n d data ind bs : file_rep B d data ind bs → 0 ≤ n < 2 ^ 32 → file_rep B (set_dsize n d) data ind bs.
Proof. intros [H1 H2 H3 H4 H5 H6 H7] Hn. split; try done. by apply set_dsize_ok. Qed.

(** ** Writing one inode of the table *)
Lemma mfile_growing s t k f :
  disk_rep s t → t !! k = Some f → growing s (f_din f) (f_data f) (f_ind f) (f_bs f).
Proof.
  intros D Hk. destruct (dr_file s t D k f Hk) as [M1 M2 M3 M4 M5 M6]. pose proof (dr_free s t D) as Hf. rewrite nmeta_val in *.
  split; try done; [|lia|apply D|apply D]. eapply Forall_impl; [exact M5|]. cbn. lia.
Qed.

Lemma in_table s t k f : disk_rep s t → t !! k = Some f → Z.of_nat k < NINODES.
Proof. intros D Hk%lookup_lt_Some. pose proof (dr_few s t D). lia. Qed.

(** A file has grown on the disk [s'] and its inode is written. *)
Lemma disk_rep_update s t k f s' f' :
  disk_rep s t → t !! k = Some f → mfile_ok s' f' →
  extends s (f_data f) (f_ind f) s' (f_data f') (f_ind f') → (∀ b, freeblock s' ≤ b → img s' b = zero_block) →
  disk_rep (winode (Z.of_nat (S k)) (f_din f') s') (<[k := f']> t).
Proof.
  intros D Hk M [X1 X2 X3 X4 X5] Hz. pose proof (in_table s t k f D Hk) as Hkn. pose proof (fr_ok _ _ _ _ _ (mf_rep _ _ M)) as Hd.
  pose proof (dk_len _ Hd) as Hdl. pose proof (dr_free s t D) as Hfree.
  assert (Hfr : ∀ b, nmeta ≤ b ∨ ¬ inode_block b → img (winode (Z.of_nat (S k)) (f_din f') s') b = img s' b) by (intros b; by apply winode_frame).
  assert (Hin : ∀ x, x ∈ f_own f' → nmeta ≤ x < freeblock s') by (apply Forall_forall, M).
  assert (Hlow : ∀ b, b < nmeta → img s' b = img s b) by (intros b Hb; apply X4; intros Hx%Hin; lia).
  assert (Hnew : ∀ j g x, j ≠ k → t !! j = Some g → x ∈ f_own g → x ∉ f_own f').
  { intros j g x Hj Hg Hx. rewrite X1, elem_of_app. intros [Hy|Hy%elem_of_seqZ]; [by eapply (dr_apart s t D j k g f)|].
    pose proof (mf_own _ _ (dr_file s t D j g Hg)) as Ho. rewrite Forall_forall in Ho. specialize (Ho x Hx). lia. }
  assert (Hothers : ∀ j g, j ≠ k → t !! j = Some g → mfile_ok s' g).
  { intros j g Hj Hg. destruct (dr_file s t D j g Hg) as [M1 M2 M3 M4 M5 M6]. split; try done.
    - eapply file_rep_frame; [exact M1|]. intros b Hb. apply X4. by eapply Hnew.
    - eapply Forall_impl; [exact M5|]. cbn. lia. }
  assert (Hwr : ∀ g, mfile_ok s' g → mfile_ok (winode (Z.of_nat (S k)) (f_din f') s') g).
  { intros g [M1 M2 M3 M4 M5 M6]. split; try done. eapply file_rep_frame; [exact M1|]. intros b Hb. apply Hfr. left.
    rewrite Forall_forall in M5. by apply M5. }
  assert (Hlook : ∀ j g, <[k := f']> t !! j = Some g → (j = k ∧ g = f') ∨ (j ≠ k ∧ t !! j = Some g)).
  { intros j g. rewrite list_lookup_insert_Some. naive_solver. }
  split.
  - rewrite length_insert. cbn. by rewrite X3, (dr_inode s t D).
  - rewrite length_insert. apply D.
  - intros j g [[-> ->] | [Hj Hg]]%Hlook; [by apply rinode_winode|]. rewrite rinode_winode_ne by (done || lia).
    rewrite <-(dr_din s t D j g Hg). apply rinode_img, Hlow. by eapply iblock_low, in_table.
  - intros j g [[-> ->] | [Hj Hg]]%Hlook; apply Hwr; [done|by eapply Hothers].
  - intros j i g h x Hne [[-> ->] | [Hj Hg]]%Hlook [[-> ->] | [Hi Hh]]%Hlook Hx; [done|intros Hy; by eapply Hnew|by eapply Hnew|].
    by eapply (dr_apart s t D j i).
  - cbn. lia.
  - cbn [freeblock winode wsect]. intros b Hb. rewrite Hfr; [by apply Hz|]. left. lia.
  - by apply winode_len.
  - intros b Hb Hi. rewrite Hfr by by right. rewrite Hlow by done. by apply (dr_meta s t D).
Qed.

(** ** The operations *)
Definition new_mfile (type : Z) : mfile := {| f_din := new_dinode type; f_data := []; f_ind := None; f_bs := [] |}.

Lemma new_dinode_ok type : 0 ≤ type < 2 ^ 15 → dinode_ok (new_dinode type).
Proof. intros Ht. split; cbn; try lia; [done|]. repeat constructor; done. Qed.

Lemma new_dinode_addr type k : addr_at (d_addrs (new_dinode type)) k = 0.
Proof.
  unfold addr_at. cbn [d_addrs new_dinode]. destruct (replicate _ _ !! k) as [x|] eqn:E; [|done].
  by apply lookup_replicate in E as [-> _].
Qed.

Lemma new_mfile_rep B type : 0 ≤ type < 2 ^ 15 → file_rep B (new_dinode type) [] None [].
Proof.
  intros Ht. split.
  - by apply new_dinode_ok.
  - intros k _. unfold addr_of. by rewrite !new_dinode_addr, lookup_nil; destruct (k <? NDIRECT)%nat.
  - apply new_dinode_addr.
  - cbn. lia.
  - cbn. lia.
  - cbn. lia.
  - intros k x j Hx. by rewrite lookup_nil in Hx.
Qed.

Lemma ialloc_rep s t type :
  disk_rep s t → Z.of_nat (S (length t)) < NINODES → 0 ≤ type < 2 ^ 15 →
  let '(inum, s') := ialloc type s in
  inum = Z.of_nat (S (length t)) ∧ freeblock s' = freeblock s ∧ disk_rep s' (t ++ [new_mfile type]).
Proof.
  intros D Hn Ht. unfold ialloc. rewrite (dr_inode s t D). split; [done|]. split; [done|].
  set (s0 := set_freeinode _ s). set (k := length t).
  assert (Hd : dinode_ok (new_dinode type)) by by apply new_dinode_ok.
  assert (Hk : Z.of_nat k < NINODES) by apply D.
  assert (Hs0 : ∀ b, length (img s0 b) = BSIZE) by apply D.
  assert (Hfr : ∀ b, nmeta ≤ b ∨ ¬ inode_block b → img (winode (Z.of_nat (S k)) (new_dinode type) s0) b = img s b).
  { intros b Hb. by rewrite winode_frame. }
  assert (Hwr : ∀ g, mfile_ok s g → mfile_ok (winode (Z.of_nat (S k)) (new_dinode type) s0) g).
  { intros g [M1 M2 M3 M4 M5 M6]. split; try done. eapply file_rep_frame; [exact M1|]. intros b Hb. apply Hfr. left.
    rewrite Forall_forall in M5. by apply M5. }
  assert (Hlook : ∀ j g, (t ++ [new_mfile type]) !! j = Some g → (j = k ∧ g = new_mfile type) ∨ (j ≠ k ∧ t !! j = Some g)).
  { intros j g [Hj|[Hj Hg]]%lookup_app_Some; [right; split; [|done]; apply lookup_lt_Some in Hj; unfold k; lia|]. left.
    apply list_lookup_singleton_Some in Hg as [? <-]. split; [unfold k; lia|done]. }
  split.
  - cbn. rewrite length_app. cbn. unfold k. lia.
  - rewrite length_app. cbn [length]. lia.
  - intros j g [[-> ->] | [Hj Hg]]%Hlook; [by apply rinode_winode|]. rewrite rinode_winode_ne by (done || lia).
    by apply (dr_din s t D).
  - intros j g [[-> ->] | [Hj Hg]]%Hlook; [|by eapply Hwr, (dr_file s t D)]. split; cbn; try done; [by apply new_mfile_rep|unfold BSIZE; lia|apply NoDup_nil_2].
  - intros j i g h x Hne [[-> ->] | [Hj Hg]]%Hlook [[-> ->] | [Hi Hh]]%Hlook Hx; [done|by apply elem_of_nil in Hx|by intros ?%elem_of_nil|].
    by eapply (dr_apart s t D j i).
  - apply D.
  - intros b Hb. rewrite Hfr; [by apply (dr_zero s t D)|]. left. pose proof (dr_free s t D). cbn in Hb. lia.
  - by apply winode_len.
  - intros b Hb Hi. rewrite Hfr by by right. by apply (dr_meta s t D).
Qed.

Lemma iappend_mono inum p s s' : iappend inum p s = Some s' → freeblock s ≤ freeblock s'.
Proof.
  unfold iappend. intros ([[d off] s1] & E & [= <-])%bind_Some. apply iappend_loop_mono in E as [E _]. done.
Qed.

Lemma iappend_rep s t k f p s' :
  disk_rep s t → t !! k = Some f → iappend (Z.of_nat (S k)) p s = Some s' → freeblock s' ≤ FSSIZE →
  ∃ f', disk_rep s' (<[k := f']> t) ∧ view f' = (d_type (f_din f), f_bs f ++ p).
Proof.
  intros D Hk E Hfs. unfold iappend in E. rewrite (dr_din s t D k f Hk) in E. pose proof (dr_file s t D k f Hk) as M.
  rewrite (mf_size s f M), Nat2Z.id in E. apply bind_Some in E as ([[d off] s1] & E & [= <-]).
  pose proof (iappend_loop_mono _ _ _ _ _ _ _ _ E) as (E1 & (T1 & T2 & T3 & T4 & T5) & ->).
  destruct (iappend_loop_ok _ p (f_din f) s (f_data f) (f_ind f) (f_bs f) d _ s1 (mfile_growing s t k f D Hk) (le_n _) E Hfs)
    as (data & ind & [G1 G2 G3 G4 G5 G6 G7] & X).
  set (n := Z.of_nat (length (f_bs f) + length p)). pose proof (fr_size _ _ _ _ _ G1) as Hsz. pose proof (fr_len _ _ _ _ _ G1) as Hln.
  assert (Hn : 0 ≤ n < 2 ^ 32). { rewrite length_app in Hsz. unfold NFILE_BLOCKS, NDIRECT, NINDIRECT, BSIZE, n in *. lia. }
  set (f' := {| f_din := set_dsize n d; f_data := data; f_ind := ind; f_bs := f_bs f ++ p |}).
  exists f'. split; [|unfold view; cbn; by rewrite T1].
  refine (disk_rep_update s t k f s1 f' D Hk _ X G6). split; cbn; try done.
  - by apply set_dsize_rep.
  - rewrite length_app. done.
  - pose proof (dr_free s t D). apply Forall_forall. intros x Hx. rewrite Forall_forall in G4. specialize (G4 x Hx). split; [|lia].
    change (x ∈ own data ind) in Hx. rewrite (ex_own _ _ _ _ _ _ X) in Hx. apply elem_of_app in Hx as [Hx|Hx%elem_of_seqZ]; [|lia].
    pose proof (mf_own s f M) as Ho. rewrite Forall_forall in Ho. by apply Ho.
  - rewrite T4. apply M.
Qed.
