(* ===== verification/MkfsSpec.v ===== *)
(** * The image that mkfs makes

    The kernel's super block, bitmap, inodes and file contents, read from the image
    that [mkfs] returns: a well-formed file system with the given files. *)

From S2P Require Export MkfsDisk.

#[local] Set Warnings "-clear-no-such-hyp".
#[local] Set Default Proof Using "Type".
#[local] Arguments Z.mul : simpl never.
#[local] Arguments Z.add : simpl never.
#[local] Arguments Z.sub : simpl never.
#[local] Arguments Nat.mul : simpl never.
Local Open Scope Z_scope.

Abbreviation input := (list Z * list (list Z))%type.

(** ** What the image is to hold *)

(** The entries of the files, from inode [inum] on. *)
Fixpoint dirents (inum : Z) (files : list input) : list Z :=
  match files with
  | [] => []
  | f :: files => dirent inum (default [] (short_name f.1)) ++ dirents (inum + 1) files
  end.

Definition root_bytes (files : list input) : list Z :=
  dirent ROOTINO [46] ++ dirent ROOTINO [46; 46] ++ dirents (ROOTINO + 1) files.

(** The root directory has a whole number of blocks. *)
Definition pad (bs : list Z) : list Z := bs ++ replicate ((length bs / BSIZE + 1) * BSIZE - length bs) 0.

(** Type and bytes of each inode from 1 on. *)
Definition spec_files (files : list input) : list (Z * list Z) :=
  (T_DIR, pad (root_bytes files)) :: ((λ f, (T_FILE, concat f.2)) <$> files).

(** ** Adding files *)
Lemma view_insert k f (t : list mfile) : view <$> (<[k := f]> t) = <[k := view f]> (view <$> t).
Proof. apply list_fmap_insert. Qed.

Lemma append_chunks_mono inum cs : ∀ s s', append_chunks inum cs s = Some s' → freeblock s ≤ freeblock s'.
Proof.
  induction cs as [|c cs IH]; cbn; intros s s' E; [by injection E as ->|].
  apply bind_Some in E as (s1 & E1 & E2). apply iappend_mono in E1. apply IH in E2. lia.
Qed.

Lemma append_chunks_rep k cs : ∀ s t f s',
  disk_rep s t → t !! k = Some f → append_chunks (Z.of_nat (S k)) cs s = Some s' → freeblock s' ≤ FSSIZE →
  ∃ f', disk_rep s' (<[k := f']> t) ∧ view f' = (d_type (f_din f), f_bs f ++ concat cs).
Proof.
  induction cs as [|c cs IH]; cbn; intros s t f s' D Hk E Hfs.
  - injection E as <-. exists f. rewrite list_insert_id by done. by rewrite app_nil_r.
  - apply bind_Some in E as (s1 & E1 & E2). pose proof (append_chunks_mono _ _ _ _ E2) as Hm.
    destruct (iappend_rep s t k f c s1 D Hk E1 ltac:(lia)) as (f1 & D1 & V1). injection V1 as T1 B1.
    assert (Hk1 : <[k := f1]> t !! k = Some f1) by (apply list_lookup_insert_eq; by eapply lookup_lt_Some).
    destruct (IH s1 _ f1 s' D1 Hk1 E2 Hfs) as (f' & D' & V'). exists f'. rewrite list_insert_insert_eq in D'. split; [done|].
    by rewrite V', T1, B1, app_assoc.
Qed.

Lemma add_file_rep root rest s t file s' :
  disk_rep s t → view <$> t = root :: rest → add_file 1 file s = Some s' → freeblock s' ≤ FSSIZE →
  Z.of_nat (S (length t)) < NINODES →
  ∃ t', disk_rep s' t' ∧
    view <$> t' = (root.1, root.2 ++ dirent (Z.of_nat (S (length t))) (default [] (short_name file.1))) :: rest ++ [(T_FILE, concat file.2)].
Proof.
  intros D V E Hfs Hn. unfold add_file in E. apply bind_Some in E as (name & En & E). rewrite En. cbn [default from_option id].
  pose proof (ialloc_rep s t T_FILE D Hn ltac:(done)) as Ha. destruct (ialloc T_FILE s) as [inum s1]. destruct Ha as (-> & Hf1 & D1).
  apply bind_Some in E as (s2 & E2 & E3). pose proof (append_chunks_mono _ _ _ _ E3) as Hm.
  destruct t as [|r t0]; [done|]. cbn in V. injection V as Vr V0. set (k := S (length t0)).
  destruct (iappend_rep s1 _ 0 r _ s2 D1 eq_refl E2 ltac:(lia)) as (r' & D2 & Vr'). cbn [app insert list_insert] in D2.
  assert (Hk : (r' :: t0 ++ [new_mfile T_FILE]) !! k = Some (new_mfile T_FILE)).
  { change ((t0 ++ [new_mfile T_FILE]) !! length t0 = Some (new_mfile T_FILE)). by apply list_lookup_middle. }
  destruct (append_chunks_rep k file.2 s2 _ _ s' D2 Hk E3 Hfs) as (f' & D3 & V3). eexists. split; [exact D3|].
  assert (El : <[k := f']> (r' :: t0 ++ [new_mfile T_FILE]) = r' :: t0 ++ [f']).
  { change (r' :: <[length t0 := f']> (t0 ++ [new_mfile T_FILE]) = r' :: t0 ++ [f']). f_equal. by rewrite insert_app_r_alt, Nat.sub_diag by done. }
  rewrite El, fmap_cons, fmap_app, V0, Vr'. cbn [fmap list_fmap]. by rewrite V3, <-Vr.
Qed.

Lemma add_file_mono file s s' : add_file 1 file s = Some s' → freeblock s ≤ freeblock s'.
Proof.
  unfold add_file. intros (name & _ & E)%bind_Some. unfold ialloc in E. cbn zeta iota in E. apply bind_Some in E as (s2 & E2 & E3).
  apply iappend_mono in E2. apply append_chunks_mono in E3. cbn in E2. lia.
Qed.

Lemma add_files_mono files : ∀ s s', add_files 1 files s = Some s' → freeblock s ≤ freeblock s'.
Proof.
  induction files as [|f files IH]; cbn; intros s s' E; [by injection E as ->|].
  apply bind_Some in E as (s1 & E1 & E2). apply add_file_mono in E1. apply IH in E2. lia.
Qed.

Lemma add_files_rep files : ∀ root rest s t s',
  disk_rep s t → view <$> t = root :: rest → add_files 1 files s = Some s' → freeblock s' ≤ FSSIZE →
  Z.of_nat (length t + length files) < NINODES →
  ∃ t', disk_rep s' t' ∧
    view <$> t' = (root.1, root.2 ++ dirents (Z.of_nat (S (length t))) files) :: rest ++ ((λ f, (T_FILE, concat f.2)) <$> files).
Proof.
  induction files as [|f files IH]; cbn [add_files dirents fmap list_fmap]; intros root rest s t s' D V E Hfs Hn.
  - injection E as <-. exists t. rewrite !app_nil_r. split; [done|]. by rewrite V, <-surjective_pairing.
  - apply bind_Some in E as (s1 & E1 & E2). pose proof (add_files_mono _ _ _ E2) as Hm. cbn [length] in Hn.
    destruct (add_file_rep root rest s t f s1 D V E1 ltac:(lia) ltac:(lia)) as (t1 & D1 & V1).
    assert (Hl : length t1 = S (length t)).
    { apply (f_equal length) in V1, V. cbn [length] in V1, V. rewrite length_fmap, length_app in V1. rewrite length_fmap in V. cbn in V1. lia. }
    destruct (IH _ _ s1 t1 s' D1 V1 E2 Hfs ltac:(lia)) as (t' & D' & V'). exists t'. split; [done|]. rewrite V', Hl. cbn [fst snd].
    rewrite <-!app_assoc. replace (Z.of_nat (S (length t)) + 1) with (Z.of_nat (S (S (length t)))) by lia. done.
Qed.

(** ** The root directory's size *)
Lemma length_pad bs : length (pad bs) = ((length bs / BSIZE + 1) * BSIZE)%nat.
Proof. unfold pad. rewrite length_app, length_replicate. pose proof (div_block (length bs)). lia. Qed.

Lemma pad_default bs i : default 0 (pad bs !! i) = default 0 (bs !! i).
Proof.
  unfold pad. destruct (decide (i < length bs)%nat) as [H|H]; [by rewrite lookup_app_l|].
  rewrite lookup_app_r by lia. rewrite (lookup_ge_None_2 bs) by lia. destruct (replicate _ _ !! _) as [x|] eqn:E; [|done].
  by apply lookup_replicate in E as [-> _].
Qed.

Lemma fix_root_run s t r :
  disk_rep s (r :: t) →
  fix_root 1 s = winode (Z.of_nat 1) (set_dsize (Z.of_nat ((length (f_bs r) / BSIZE + 1) * BSIZE)) (f_din r)) s.
Proof.
  intros D. unfold fix_root. pose proof (dr_din s _ D 0 r eq_refl) as E. change (Z.of_nat 1) with 1 in E. rewrite E.
  rewrite (mf_size s r (dr_file s _ D 0 r eq_refl)). do 2 f_equal. change BSIZEz with (Z.of_nat BSIZE).
  rewrite Nat2Z.inj_mul, Nat2Z.inj_add, Nat2Z.inj_div. done.
Qed.

Lemma fix_root_rep s t r rest :
  disk_rep s (r :: t) → (length (f_bs r) mod BSIZE ≠ 0)%nat → view <$> (r :: t) = (T_DIR, f_bs r) :: rest →
  ∃ t', disk_rep (fix_root 1 s) t' ∧ view <$> t' = (T_DIR, pad (f_bs r)) :: rest.
Proof.
  intros D Hm V. pose proof (dr_file s _ D 0 r eq_refl) as M. rewrite (fix_root_run s t r D).
  set (n := length (f_bs r)) in *. pose proof (div_block n) as Hd. pose proof (Nat.div_mod n BSIZE ltac:(done)) as Hdm.
  set (m := ((n / BSIZE + 1) * BSIZE)%nat) in *. pose proof (mf_rep s r M) as [H1 H2 H3 H4 H5 H6 H7].
  pose proof (mf_tight s r M) as Ht. fold n in H6, Ht.
  assert (Hdl : (length (f_data r) * BSIZE = m)%nat) by (unfold m, BSIZE in *; nia).
  assert (Hm32 : 0 ≤ Z.of_nat m < 2 ^ 32) by (unfold NFILE_BLOCKS, NDIRECT, NINDIRECT, BSIZE in *; lia).
  set (r' := {| f_din := set_dsize (Z.of_nat m) (f_din r); f_data := f_data r; f_ind := f_ind r; f_bs := pad (f_bs r) |}).
  assert (Hpl : length (pad (f_bs r)) = m) by apply length_pad.
  exists (r' :: t). split.
  - refine (disk_rep_update s (r :: t) 0 r s r' D eq_refl _ _ _); [|exact (extends_refl s _ _ _ _ (mfile_growing s (r :: t) 0 r D eq_refl))|apply D].
    split; cbn; try apply M; [|by rewrite Hpl|rewrite Hpl, Hdl; unfold BSIZE; lia].
    apply set_dsize_rep; [|done]. split; try done; [rewrite Hpl; lia|]. intros k x j Hx Hj. rewrite pad_default. by apply H7.
  - cbn [fmap list_fmap] in *. injection V as V1 V2. by rewrite <-V1, V2.
Qed.

(** When the entries fill their blocks, the size goes one block further: the inode has no block for those bytes. *)
Lemma fix_root_hole s t r :
  disk_rep s (r :: t) → (length (f_bs r) mod BSIZE = 0)%nat → (length (f_bs r) < NFILE_BLOCKS * BSIZE)%nat →
  d_size (rinode 1 (fix_root 1 s)) = Z.of_nat (length (f_bs r) + BSIZE) ∧
  addr_of (img s) (d_addrs (rinode 1 (fix_root 1 s))) (length (f_bs r) / BSIZE) = 0.
Proof.
  intros D Hm Hlt. pose proof (dr_file s _ D 0 r eq_refl) as M. rewrite (fix_root_run s t r D). set (n := length (f_bs r)) in *.
  pose proof (Nat.div_mod n BSIZE ltac:(done)) as Hdm. rewrite Hm in Hdm.
  replace ((n / BSIZE + 1) * BSIZE)%nat with (n + BSIZE)%nat by lia. pose proof (mf_rep s r M) as [H1 H2 H3 H4 H5 H6 H7]. pose proof (mf_tight s r M) as Ht. fold n in H6, Ht.
  change 1 with (Z.of_nat 1). rewrite rinode_winode; [|apply set_dsize_ok; [done|]; unfold NFILE_BLOCKS, NDIRECT, NINDIRECT, BSIZE in *; lia|apply D].
  split; [done|]. cbn [d_addrs set_dsize]. rewrite H2 by (unfold BSIZE in *; nia). rewrite lookup_ge_None_2; [done|]. unfold BSIZE in *. nia.
Qed.

(** ** The bitmap *)
Lemma bit_of_mark_used n : ∀ i d b,
  length d = BSIZE → 0 ≤ i → i + Z.of_nat n ≤ BPB → 0 ≤ b < BPB →
  bit_of (mark_used n i d) b = bool_decide (i ≤ b < i + Z.of_nat n) || bit_of d b.
Proof.
  induction n as [|n IH]; intros i d b Hd Hi Hn Hb; cbn [mark_used].
  - by rewrite bool_decide_eq_false_2 by lia.
  - rewrite IH by (rewrite ?length_mark_bit; lia || done). rewrite bit_of_mark by (done || lia). case_decide as E.
    + rewrite orb_true_r. by rewrite bool_decide_eq_true_2 by lia.
    + f_equal. apply bool_decide_ext. lia.
Qed.

Lemma length_mark_used n : ∀ i d, length (mark_used n i d) = length d.
Proof. induction n as [|n IH]; intros i d; [done|]. cbn. by rewrite IH, length_mark_bit. Qed.

Lemma bit_zero_block b : bit_of zero_block b = false.
Proof.
  unfold bit_of, byte_at, zero_block. destruct (replicate _ _ !! _) as [x|] eqn:E; [apply lookup_replicate in E as [-> _]|]; apply Z.bits_0.
Qed.

(** ** The first image *)
Lemma length_sb_block b : length (img empty_image b) = BSIZE.
Proof.
  cbn [img empty_image wsect]. destruct (decide (b = 1)) as [->|Hne]; [by rewrite fn_lookup_insert|]. by rewrite fn_lookup_insert_ne.
Qed.

Lemma empty_image_rep : disk_rep empty_image [].
Proof.
  split; try done.
  - intros b Hb. cbn [img empty_image wsect]. rewrite fn_lookup_insert_ne; [done|]. intros <-. cbn in Hb. by rewrite nmeta_val in Hb.
  - apply length_sb_block.
Qed.

(** ** The kernel's view of the image *)
Definition mkfs_fs (s : mk) (it : list inode) : fs := {| blocks := img s; held := []; sb := mksb; itable := it |}.

(** The valid inodes of the table [it] are ones of the first [n] of the disk, as [ilock] reads them. *)
Record loaded (s : mk) (n : nat) (it : list inode) : Prop := {
  ld_inum ip i : it !! ip = Some i → i_valid i = true → 1 ≤ i_inum i ≤ Z.of_nat n;
  ld_disk ip i : it !! ip = Some i → i_valid i = true → dinode_of i = get_dinode (i_inum i) (img s (IBLOCK (i_inum i) mksb));
  ld_one ip jp i j : ip ≠ jp → it !! ip = Some i → it !! jp = Some j → i_valid i = true → i_valid j = true → i_inum i ≠ i_inum j
}.

(** The image [s] is the disk [s0] with its bitmap. *)
Record bitmapped (s0 s : mk) : Prop := {
  bm_free : freeblock s = freeblock s0;
  bm_img b : b ≠ 46 → img s b = img s0 b;
  bm_bits b : 0 ≤ b < BPB → bit_of (img s 46) b = bool_decide (b < freeblock s0);
  bm_len : length (img s 46) = BSIZE
}.

Lemma balloc_bitmapped s s' : 0 ≤ freeblock s → balloc (freeblock s) s = Some s' → bitmapped s s'.
Proof.
  intros Hf E. unfold balloc in E. destruct (BPB <=? freeblock s) eqn:Eb; [done|]. apply Z.leb_gt in Eb. injection E as <-.
  change (sb_bmapstart mksb) with 46. split.
  - done.
  - intros b Hb. by apply fn_lookup_insert_ne.
  - intros b Hb. cbn [img wsect]. rewrite fn_lookup_insert, bit_of_mark_used by (done || lia). rewrite bit_zero_block, orb_false_r.
    apply bool_decide_ext. lia.
  - cbn [img wsect]. by rewrite fn_lookup_insert, length_mark_used.
Qed.

Section Image.
Context (s0 s : mk) (t : list mfile) (it : list inode).
Context (D : disk_rep s0 t) (B : bitmapped s0 s) (Hfs : freeblock s0 ≤ FSSIZE) (L : loaded s (length t) it).
Abbreviation k := (mkfs_fs s it).

Lemma image_used b : 0 ≤ b < FSSIZE → used k b = bool_decide (b < freeblock s).
Proof using B.
  intros Hb. unfold FSSIZE in Hb. unfold used, BBLOCK. cbn [blocks mkfs_fs Fs.sb]. change (sb_bmapstart mksb) with 46.
  rewrite Z.div_small, Z.mod_small by (unfold BPB; lia). rewrite (bm_free _ _ B). apply (bm_bits _ _ B). unfold BPB. lia.
Qed.

Lemma image_layout : layout_ok k.
Proof using D B.
  split; cbn [mkfs_fs Fs.sb blocks]; try done.
  - intros b Hb. change (BBLOCK (sb_size mksb - 1) mksb) with 46 in Hb. rewrite image_used by (unfold FSSIZE; lia).
    apply bool_decide_eq_true_2. rewrite (bm_free _ _ B). pose proof (dr_free _ _ D). rewrite nmeta_val in *. lia.
  - intros b. destruct (decide (b = 46)) as [->|Hb]; [apply B|]. rewrite (bm_img _ _ B) by done. apply D.
Qed.

(** The inode of a valid entry of the table. *)
Lemma image_file ip i :
  it !! ip = Some i → i_valid i = true →
  ∃ j f, i_inum i = Z.of_nat (S j) ∧ t !! j = Some f ∧ dinode_of i = f_din f ∧ mfile_ok s f.
Proof using D B L.
  intros Hi Hv. pose proof (ld_inum _ _ _ L ip i Hi Hv) as Hn. pose proof (ld_disk _ _ _ L ip i Hi Hv) as Hd.
  exists (Z.to_nat (i_inum i - 1)). destruct (lookup_lt_is_Some_2 t (Z.to_nat (i_inum i - 1))) as [f Hf]; [lia|]. exists f.
  assert (En : i_inum i = Z.of_nat (S (Z.to_nat (i_inum i - 1)))) by lia. split; [done|]. split; [done|].
  pose proof (in_table _ _ _ _ D Hf) as Hk. split.
  - rewrite Hd, En, <-(dr_din _ _ D _ _ Hf). unfold rinode, rsect. rewrite (bm_img _ _ B); [done|].
    destruct (iblock_range _ Hk) as [_ H]. change (sb_bmapstart mksb) with 46 in H. lia.
  - destruct (dr_file _ _ D _ _ Hf) as [M1 M2 M3 M4 M5 M6]. split; try done; [|by rewrite (bm_free _ _ B)].
    eapply file_rep_frame; [exact M1|]. intros b Hb. apply (bm_img _ _ B). rewrite Forall_forall in M5. specialize (M5 b Hb).
    rewrite nmeta_val in M5. lia.
Qed.

Lemma own_is_owned f x : mfile_ok s f → x ∈ f_own f → owned k x.
Proof using D B Hfs.
  intros M Hx. pose proof (mf_own _ _ M) as Ho. rewrite Forall_forall in Ho. specialize (Ho x Hx). rewrite nmeta_val in Ho.
  rewrite (bm_free _ _ B) in Ho. unfold FSSIZE in Hfs. split.
  - unfold is_data. cbn [mkfs_fs Fs.sb]. change (BBLOCK (sb_size mksb - 1) mksb) with 46. change (sb_size mksb) with 2000. lia.
  - rewrite image_used by (unfold FSSIZE; lia). apply bool_decide_eq_true_2. rewrite (bm_free _ _ B). lia.
  - by intros ?%elem_of_nil.
Qed.

(** The blocks of the inode, and that they are not 0. *)
Lemma own_addr i f n :
  mfile_ok s f → dinode_of i = f_din f → (n < NFILE_BLOCKS)%nat → addr_of (img s) (i_addrs i) n = default 0 (f_data f !! n).
Proof using Type. intros M E Hn. rewrite <-(fr_addr _ _ _ _ _ (mf_rep _ _ M)) by done. by rewrite <-E. Qed.

Lemma own_ind_addr i f : mfile_ok s f → dinode_of i = f_din f → addr_at (i_addrs i) NDIRECT = default 0 (f_ind f).
Proof using Type. intros M E. rewrite <-(fr_ind _ _ _ _ _ (mf_rep _ _ M)). by rewrite <-E. Qed.

Lemma own_data_pos f n x : mfile_ok s f → f_data f !! n = Some x → x ∈ f_own f ∧ x ≠ 0.
Proof using Type.
  intros M Hx. assert (Hin : x ∈ f_own f) by (apply elem_of_app; left; by eapply list_elem_of_lookup_2). split; [done|].
  pose proof (mf_own _ _ M) as Ho. rewrite Forall_forall in Ho. specialize (Ho x Hin). rewrite nmeta_val in Ho. lia.
Qed.

Lemma image_file_ok i f : mfile_ok s f → dinode_of i = f_din f → file_ok k (i_addrs i).
Proof using D B Hfs.
  intros M E. pose proof (mf_nodup _ _ M) as Hnd. unfold own in Hnd. apply NoDup_app in Hnd as (Hnd & Hni & _).
  split; cbn [mkfs_fs blocks].
  - change (i_addrs i) with (d_addrs (dinode_of i)). rewrite E. apply (fr_ok _ _ _ _ _ (mf_rep _ _ M)).
  - intros n Hn. rewrite (own_addr i f n M E Hn). destruct (f_data f !! n) as [x|] eqn:Ex; [|done]. intros _. cbn.
    apply (own_is_owned f); [done|]. by eapply own_data_pos.
  - rewrite (own_ind_addr i f M E). destruct (f_ind f) as [x|] eqn:Ex; [|done]. intros _. cbn. apply (own_is_owned f); [done|].
    unfold own. rewrite Ex. apply elem_of_app. right. by left.
  - intros n m Hn Hm. rewrite !(own_addr i f _ M E) by done. destruct (f_data f !! n) as [x|] eqn:Ex; [|done]. intros _. cbn.
    destruct (own_data_pos f n x M Ex) as [_ Hx0]. destruct (f_data f !! m) as [y|] eqn:Ey; [|done]. cbn. intros ->. by eapply NoDup_lookup.
  - intros n Hn. rewrite (own_addr i f n M E Hn), (own_ind_addr i f M E). destruct (f_data f !! n) as [x|] eqn:Ex; [|done].
    destruct (f_ind f) as [y|] eqn:Ey; [|done]. cbn. intros _ ->. apply (Hni y); [by eapply list_elem_of_lookup_2|by left].
Qed.

Lemma image_inode_wf ip i f : it !! ip = Some i → i_valid i = true → mfile_ok s f → dinode_of i = f_din f → inode_wf k i.
Proof using D B Hfs L.
  intros Hi Hv M E. pose proof (mf_rep _ _ M) as R. assert (Es : i_size i = Z.of_nat (length (f_bs f))).
  { rewrite <-(mf_size _ _ M), <-E. done. }
  pose proof (fr_size _ _ _ _ _ R) as Hsz. pose proof (fr_len _ _ _ _ _ R) as Hl. split.
  - by eapply image_file_ok.
  - rewrite Es, max_bytes_val. unfold NFILE_BLOCKS, NDIRECT, NINDIRECT, BSIZE in *. lia.
  - rewrite Es, Nat2Z.id. intros n Hn. cbn [mkfs_fs blocks]. assert (Hln : (n < length (f_data f))%nat) by (unfold BSIZE in *; nia).
    rewrite (own_addr i f n M E) by lia. destruct (lookup_lt_is_Some_2 _ _ Hln) as [x Hx]. rewrite Hx. cbn. by eapply own_data_pos.
  - rewrite E. apply R.
  - pose proof (ld_inum _ _ _ L ip i Hi Hv) as Hn. cbn [mkfs_fs Fs.sb]. pose proof (dr_few _ _ D) as Hfew.
    replace (i_inum i) with (Z.of_nat (S (Z.to_nat (i_inum i - 1)))) by lia. apply iblock_range. lia.
Qed.

Lemma image_file_block i f x : mfile_ok s f → dinode_of i = f_din f → file_block k (i_addrs i) x → x ∈ f_own f.
Proof using Type.
  intros M E [H0 [->|(n & Hn & ->)]]; cbn [mkfs_fs blocks] in *.
  - rewrite (own_ind_addr i f M E) in *. destruct (f_ind f) as [y|] eqn:Ey; [|done]. apply elem_of_app. right. by left.
  - rewrite (own_addr i f n M E Hn) in *. destruct (f_data f !! n) as [y|] eqn:Ey; [|done]. by eapply own_data_pos.
Qed.

Lemma image_wf : fs_wf k.
Proof using D B Hfs L.
  split.
  - apply image_layout.
  - split; [apply NoDup_nil_2|by intros ? ?%elem_of_nil].
  - intros ip i Hi Hv. destruct (image_file ip i Hi Hv) as (j & f & _ & _ & E & M). by eapply image_inode_wf.
  - intros ip jp i j x Hne Hi Hj Hvi Hvj Hx Hy. destruct (image_file ip i Hi Hvi) as (a & f & Ea & Hf & E & M).
    destruct (image_file jp j Hj Hvj) as (b & g & Eb & Hg & E' & M'). pose proof (ld_one _ _ _ L ip jp i j Hne Hi Hj Hvi Hvj) as Hab.
    refine (dr_apart _ _ D a b f g x _ Hf Hg _ _); [|by eapply image_file_block|by eapply image_file_block]. intros ->. by rewrite <-Eb in Ea.
Qed.

Lemma image_contents i f : mfile_ok s f → dinode_of i = f_din f → contents k i = f_bs f.
Proof using Type.
  intros M E. pose proof (mf_rep _ _ M) as R. assert (Es : i_size i = Z.of_nat (length (f_bs f))).
  { rewrite <-(mf_size _ _ M), <-E. done. }
  pose proof (fr_size _ _ _ _ _ R) as Hsz. pose proof (fr_len _ _ _ _ _ R) as Hl.
  apply list_eq. intros o. destruct (decide (o < length (f_bs f))%nat) as [Ho|Ho].
  - rewrite contents_lookup by lia. unfold byte_of. cbn [mkfs_fs blocks]. pose proof (div_block o) as Hd. pose proof (Nat.div_mod o BSIZE ltac:(done)).
    assert (Hln : (o / BSIZE < length (f_data f))%nat) by (unfold BSIZE in *; nia). rewrite (own_addr i f _ M E) by lia.
    destruct (lookup_lt_is_Some_2 _ _ Hln) as [x Hx]. rewrite Hx. cbn [default from_option id].
    rewrite (fr_bytes _ _ _ _ _ R _ _ _ Hx) by by apply Nat.mod_upper_bound. replace (o / BSIZE * BSIZE + o mod BSIZE)%nat with o by lia.
    destruct (lookup_lt_is_Some_2 _ _ Ho) as [y ->]. done.
  - rewrite !lookup_ge_None_2; [done|lia|]. rewrite length_contents. lia.
Qed.
End Image.

(** ** The theorem *)
Lemma length_dirent inum name : length (dirent inum name) = 16%nat.
Proof. unfold dirent, mk_dirent. by rewrite length_app, length_le_bytes, length_strncpy. Qed.

Lemma length_dirents files : ∀ inum, length (dirents inum files) = (16 * length files)%nat.
Proof. induction files as [|f files IH]; intros inum; [done|]. cbn [dirents length]. rewrite length_app, length_dirent, IH. lia. Qed.

Lemma length_root_bytes files : length (root_bytes files) = (16 * (2 + length files))%nat.
Proof. unfold root_bytes. rewrite !length_app, !length_dirent, length_dirents. lia. Qed.

Lemma iappend_root s r rest p s' :
  disk_rep s (r :: rest) → iappend 1 p s = Some s' → freeblock s' ≤ FSSIZE →
  ∃ r', disk_rep s' (r' :: rest) ∧ view r' = (d_type (f_din r), f_bs r ++ p).
Proof. intros D E Hfs. exact (iappend_rep s _ 0 r p s' D eq_refl E Hfs). Qed.

(** The disk before its bitmap. *)
Lemma mkfs_disk files s :
  mkfs files = Some s → freeblock s ≤ FSSIZE → Z.of_nat (S (length files)) < NINODES → ((2 + length files) mod 64 ≠ 0)%nat →
  ∃ s0 t, disk_rep s0 t ∧ bitmapped s0 s ∧ view <$> t = spec_files files.
Proof.
  intros E Hfs Hn Hm. unfold mkfs in E.
  pose proof (ialloc_rep empty_image [] T_DIR empty_image_rep ltac:(done) ltac:(done)) as Ha.
  destruct (ialloc T_DIR empty_image) as [root s1]. destruct Ha as (-> & Hf1 & D1). change (Z.of_nat (S (length (@nil mfile)))) with 1 in E.
  apply bind_Some in E as (s2 & E2 & E). apply bind_Some in E as (s3 & E3 & E). apply bind_Some in E as (s4 & E4 & E).
  assert (Hff : freeblock (fix_root 1 s4) = freeblock s4) by done.
  pose proof (iappend_mono _ _ _ _ E2) as Hm2. pose proof (iappend_mono _ _ _ _ E3) as Hm3. pose proof (add_files_mono _ _ _ E4) as Hm4.
  assert (Hff0 : freeblock s1 = nmeta) by (by rewrite Hf1). rewrite nmeta_val in Hff0.
  pose proof (balloc_bitmapped (fix_root 1 s4) s ltac:(lia) E) as B. pose proof (bm_free _ _ B) as Hfb. rewrite Hff in Hfb.
  destruct (iappend_root s1 _ [] _ s2 D1 E2 ltac:(lia)) as (r2 & D2 & V2). injection V2 as T2 B2.
  destruct (iappend_root s2 r2 [] _ s3 D2 E3 ltac:(lia)) as (r3 & D3 & V3). injection V3 as T3 B3.
  destruct (add_files_rep files (view r3) [] s3 [r3] s4 D3 eq_refl E4 ltac:(lia) ltac:(cbn [length]; lia)) as (t4 & D4 & V4).
  destruct t4 as [|r4 t4]; [done|]. cbn [fmap list_fmap app] in V4. injection V4 as V4 V5 V6.
  assert (Hr : f_bs r4 = root_bytes files).
  { rewrite V5. cbn [view snd]. rewrite B3, B2. change (f_bs (new_mfile T_DIR)) with (@nil Z). cbn [app length].
    unfold root_bytes. rewrite <-app_assoc. done. }
  assert (Hl : (length (f_bs r4) mod BSIZE ≠ 0)%nat).
  { rewrite Hr, length_root_bytes. intros H0. apply Hm. unfold BSIZE in H0. change 1024%nat with (16 * 64)%nat in H0.
    rewrite Nat.Div0.mul_mod_distr_l in H0. lia. }
  destruct (fix_root_rep s4 t4 r4 (view <$> t4) D4 Hl) as (t & D & V).
  { cbn [fmap list_fmap]. f_equal. unfold view. f_equal. rewrite V4. cbn [view fst]. by rewrite T3, T2. }
  exists (fix_root 1 s4), t. split; [done|]. split; [done|]. rewrite V, Hr, V6. done.
Qed.

Definition sb_words (d : block) : superblock :=
  let w i := le_get 4 (4 * i) d in
  {| sb_magic := w 0%nat; sb_size := w 1%nat; sb_nblocks := w 2%nat; sb_ninodes := w 3%nat; sb_nlog := w 4%nat;
     sb_logstart := w 5%nat; sb_inodestart := w 6%nat; sb_bmapstart := w 7%nat |}.

Lemma sb_words_image : sb_words (img empty_image 1) = mksb.
Proof. vm_compute. reflexivity. Qed.

Lemma readsb_image s it b :
  img s 1 = img empty_image 1 →
  readsb {| blocks := img s; held := []; sb := b; itable := it |} = (Ret (), mkfs_fs s it).
Proof.
  intros E. unfold mkfs_fs. rewrite <-sb_words_image, <-E. reflexivity.
Qed.

(** C12: mkfs makes the file system it is asked for. If it succeeds for at most 198 files whose blocks fit the disk, and the
    root directory does not fill its last block ([2 +] the number of files is not a multiple of 64; with 62, 126 or 190 files
    its size is wrong, lemma [fix_root_hole]), the kernel reads its constants from block 1, the log header is zero, exactly the blocks below the first free one are marked
    in use, and every table of inodes loaded from the image is a well-formed file system in which inode 1 is the root
    directory (".", "..", an entry for each file, zeros up to a whole block) and inode [k + 2] is the [k]-th file with its bytes. *)
Theorem mkfs_image files s it b :
  mkfs files = Some s → freeblock s ≤ FSSIZE → Z.of_nat (S (length files)) < NINODES → ((2 + length files) mod 64 ≠ 0)%nat →
  loaded s (S (length files)) it →
  readsb {| blocks := img s; held := []; sb := b; itable := it |} = (Ret (), mkfs_fs s it) ∧
  le_get 4 0 (img s (sb_logstart mksb)) = 0 ∧
  (∀ x, 0 ≤ x < FSSIZE → used (mkfs_fs s it) x = bool_decide (x < freeblock s)) ∧
  fs_wf (mkfs_fs s it) ∧
  ∀ ip i, it !! ip = Some i → i_valid i = true →
    i_nlink i = 1 ∧ spec_files files !! Z.to_nat (i_inum i - 1) = Some (i_type i, contents (mkfs_fs s it) i).
Proof.
  intros E Hfs Hn Hm L. destruct (mkfs_disk files s E Hfs Hn Hm) as (s0 & t & D & B & V).
  assert (Hl : length t = S (length files)).
  { apply (f_equal length) in V. rewrite length_fmap in V. rewrite V. unfold spec_files. cbn [length]. by rewrite length_fmap. }
  rewrite <-Hl in L. rewrite (bm_free _ _ B) in Hfs.
  assert (Hmeta : ∀ x, x < nmeta → x ≠ 46 → ¬ inode_block x → img s x = img empty_image x).
  { intros x Hx H46 Hi. rewrite (bm_img _ _ B) by done. by apply (dr_meta _ _ D). }
  split; [|split; [|split; [|split]]].
  - apply readsb_image, Hmeta; [done|done|]. intros [H _]. done.
  - change (sb_logstart mksb) with 2. rewrite Hmeta; [done|done|done|]. intros [H _]. done.
  - intros x Hx. by eapply image_used.
  - by eapply image_wf.
  - intros ip i Hi Hv. destruct (image_file s0 s t it D B L ip i Hi Hv) as (j & f & Ej & Hf & Ed & M).
    split; [rewrite <-(mf_link _ _ M), <-Ed; done|]. rewrite <-V, Ej, list_lookup_fmap.
    replace (Z.to_nat (Z.of_nat (S j) - 1)) with j by lia. rewrite Hf. cbn. unfold view. f_equal. f_equal; [by rewrite <-Ed|].
    symmetry. by apply image_contents.
Qed.

(** ** An image with one file *)
Definition a_image : mk := match mkfs [a_file] with Some s => s | None => empty_image end.

Definition load (s : mk) (inum : Z) : inode :=
  with_dinode (get_dinode inum (img s (IBLOCK inum mksb)))
    {| i_dev := ROOTDEV; i_inum := inum; i_ref := 1; i_lock := i_lock zero_inode; i_valid := true; i_type := 0; i_major := 0; i_minor := 0;
       i_nlink := 0; i_size := 0; i_addrs := [] |}.

Definition a_table : list inode := [load a_image 1; load a_image 2].

Lemma a_image_made : mkfs [a_file] = Some a_image.
Proof.
  assert (H : match mkfs [a_file] with Some _ => true | None => false end = true) by (vm_compute; reflexivity).
  unfold a_image. destruct (mkfs [a_file]); [reflexivity|discriminate].
Qed.

Lemma a_image_fits : (freeblock a_image <=? FSSIZE) = true.
Proof. vm_compute. reflexivity. Qed.

Lemma load_dinode s n : dinode_of (load s n) = get_dinode n (img s (IBLOCK n mksb)).
Proof. unfold load. generalize (get_dinode n (img s (IBLOCK n mksb))). intros d. by destruct d. Qed.

Lemma a_table_loaded : loaded a_image 2 a_table.
Proof.
  assert (H : ∀ ip i, a_table !! ip = Some i → (ip < 2)%nat ∧ i = load a_image (Z.of_nat (S ip))).
  { intros [|[|ip]] i; unfold a_table; cbn [lookup list_lookup]; [intros [= <-]; split; [lia|reflexivity]..|]. intros [=]. }
  split.
  - intros ip i [Hl ->]%H _. unfold load. cbn [i_inum with_dinode]. lia.
  - intros ip i [Hl ->]%H _. apply load_dinode.
  - intros ip jp i j Hne [Hi ->]%H [Hj ->]%H _ _. unfold load. cbn [i_inum with_dinode]. lia.
Qed.

Theorem mkfs_image_witness :
  fs_wf (mkfs_fs a_image a_table) ∧
  ∀ ip i, a_table !! ip = Some i → i_valid i = true →
    i_nlink i = 1 ∧ spec_files [a_file] !! Z.to_nat (i_inum i - 1) = Some (i_type i, contents (mkfs_fs a_image a_table) i).
Proof.
  pose proof (mkfs_image [a_file] a_image a_table mksb a_image_made (proj1 (Z.leb_le _ _) a_image_fits) ltac:(reflexivity)
    ltac:(discriminate) a_table_loaded) as (_ & _ & _ & H1 & H2).
  split; [exact H1|exact H2].
Defined.
