(* ===== verification/Virtio.v ===== *)
(** * The disk driver (xv6/kernel/virtio_disk.c, virtio.h)

    The memory that the driver shares with the disk, the functions of the driver on
    it, and the calls of [virtio_disk_rw] by several threads together with the
    interrupt handler and the disk as one labelled step relation.

    An array has [NUM] entries and is a function from indices; the code reads it
    only below [NUM].  A pointer is the object it points to.  [None]: the kernel
    panics.  [sleep] is modelled by a thread that may look again at any time
    when the lock is free; [wakeup] has no effect on the memory. *)

From stdpp Require Export gmap.
From S2P Require Export Bio.

#[local] Set Warnings "-clear-no-such-hyp".
#[local] Set Default Proof Using "Type".
Local Open Scope Z_scope.

(** ** virtio.h *)
Definition VIRTIO_MMIO_MAGIC_VALUE : Z := 0x000.
Definition VIRTIO_MMIO_VERSION : Z := 0x004.
Definition VIRTIO_MMIO_DEVICE_ID : Z := 0x008.
Definition VIRTIO_MMIO_VENDOR_ID : Z := 0x00c.
Definition VIRTIO_MMIO_DEVICE_FEATURES : Z := 0x010.
Definition VIRTIO_MMIO_DRIVER_FEATURES : Z := 0x020.
Definition VIRTIO_MMIO_QUEUE_SEL : Z := 0x030.
Definition VIRTIO_MMIO_QUEUE_NUM_MAX : Z := 0x034.
Definition VIRTIO_MMIO_QUEUE_NUM : Z := 0x038.
Definition VIRTIO_MMIO_QUEUE_READY : Z := 0x044.
Definition VIRTIO_MMIO_STATUS : Z := 0x070.
Definition VIRTIO_MMIO_QUEUE_DESC_LOW : Z := 0x080.
Definition VIRTIO_MMIO_QUEUE_DESC_HIGH : Z := 0x084.
Definition VIRTIO_MMIO_DRIVER_DESC_LOW : Z := 0x090.
Definition VIRTIO_MMIO_DRIVER_DESC_HIGH : Z := 0x094.
Definition VIRTIO_MMIO_DEVICE_DESC_LOW : Z := 0x0a0.
Definition VIRTIO_MMIO_DEVICE_DESC_HIGH : Z := 0x0a4.

Definition VIRTIO_CONFIG_S_ACKNOWLEDGE : Z := 1.
Definition VIRTIO_CONFIG_S_DRIVER : Z := 2.
Definition VIRTIO_CONFIG_S_DRIVER_OK : Z := 4.
Definition VIRTIO_CONFIG_S_FEATURES_OK : Z := 8.

Definition VIRTIO_BLK_F_RO : Z := 5.
Definition VIRTIO_BLK_F_SCSI : Z := 7.
Definition VIRTIO_BLK_F_FLUSH : Z := 9.
Definition VIRTIO_BLK_F_CONFIG_WCE : Z := 11.
Definition VIRTIO_BLK_F_MQ : Z := 12.
Definition VIRTIO_F_ANY_LAYOUT : Z := 27.
Definition VIRTIO_RING_F_INDIRECT_DESC : Z := 28.
Definition VIRTIO_RING_F_EVENT_IDX : Z := 29.

Definition NUM : nat := 8.
Definition VRING_DESC_F_NEXT : Z := 1.
Definition VRING_DESC_F_WRITE : Z := 2.
Definition VIRTIO_BLK_T_IN : Z := 0.
Definition VIRTIO_BLK_T_OUT : Z := 1.

(** The entry of a ring for a 16-bit counter. *)
Definition slot (i : Z) : nat := Z.to_nat (i mod Z.of_nat NUM).

(** ** The shared memory *)

(** 0, [&disk.ops[i]], [b->data] and [&disk.info[i].status]. *)
Inductive dptr := Null | OpAt (i : nat) | DataOf (b : nat) | StatusAt (i : nat).

Record virtq_desc := { d_addr : dptr; d_len : Z; d_flags : Z; d_next : nat }.
Record virtio_blk_req := { q_type : Z; q_reserved : Z; q_sector : Z }.

(** [struct disk], the queues it points to, and of the buffers [disk], [data] and [blockno]. *)
Record vdisk := {
  v_desc : nat → virtq_desc;
  v_avail_idx : Z;
  v_avail : nat → nat;
  v_used_idx : Z;
  v_used : nat → nat;
  v_free : nat → bool;
  v_seen : Z;
  v_info_b : nat → option nat;
  v_status : nat → Z;
  v_ops : nat → virtio_blk_req;
  b_disk : nat → Z;
  b_bytes : nat → block;
  b_number : nat → Z
}.

Definition set_avail (i : Z) (r : nat → nat) (v : vdisk) : vdisk :=
  {| v_desc := v_desc v; v_avail_idx := i; v_avail := r; v_used_idx := v_used_idx v; v_used := v_used v;
     v_free := v_free v; v_seen := v_seen v; v_info_b := v_info_b v; v_status := v_status v; v_ops := v_ops v;
     b_disk := b_disk v; b_bytes := b_bytes v; b_number := b_number v |}.
Definition set_used (i : Z) (r : nat → nat) (v : vdisk) : vdisk :=
  {| v_desc := v_desc v; v_avail_idx := v_avail_idx v; v_avail := v_avail v; v_used_idx := i; v_used := r;
     v_free := v_free v; v_seen := v_seen v; v_info_b := v_info_b v; v_status := v_status v; v_ops := v_ops v;
     b_disk := b_disk v; b_bytes := b_bytes v; b_number := b_number v |}.
Definition set_free (i : nat) (x : bool) (v : vdisk) : vdisk :=
  {| v_desc := v_desc v; v_avail_idx := v_avail_idx v; v_avail := v_avail v; v_used_idx := v_used_idx v; v_used := v_used v;
     v_free := <[i := x]> (v_free v); v_seen := v_seen v; v_info_b := v_info_b v; v_status := v_status v; v_ops := v_ops v;
     b_disk := b_disk v; b_bytes := b_bytes v; b_number := b_number v |}.
Definition set_seen (i : Z) (v : vdisk) : vdisk :=
  {| v_desc := v_desc v; v_avail_idx := v_avail_idx v; v_avail := v_avail v; v_used_idx := v_used_idx v; v_used := v_used v;
     v_free := v_free v; v_seen := i; v_info_b := v_info_b v; v_status := v_status v; v_ops := v_ops v;
     b_disk := b_disk v; b_bytes := b_bytes v; b_number := b_number v |}.
Definition set_info_b (i : nat) (b : option nat) (v : vdisk) : vdisk :=
  {| v_desc := v_desc v; v_avail_idx := v_avail_idx v; v_avail := v_avail v; v_used_idx := v_used_idx v; v_used := v_used v;
     v_free := v_free v; v_seen := v_seen v; v_info_b := <[i := b]> (v_info_b v); v_status := v_status v; v_ops := v_ops v;
     b_disk := b_disk v; b_bytes := b_bytes v; b_number := b_number v |}.
Definition set_status (i : nat) (x : Z) (v : vdisk) : vdisk :=
  {| v_desc := v_desc v; v_avail_idx := v_avail_idx v; v_avail := v_avail v; v_used_idx := v_used_idx v; v_used := v_used v;
     v_free := v_free v; v_seen := v_seen v; v_info_b := v_info_b v; v_status := <[i := x]> (v_status v); v_ops := v_ops v;
     b_disk := b_disk v; b_bytes := b_bytes v; b_number := b_number v |}.
Definition set_op (i : nat) (q : virtio_blk_req) (v : vdisk) : vdisk :=
  {| v_desc := v_desc v; v_avail_idx := v_avail_idx v; v_avail := v_avail v; v_used_idx := v_used_idx v; v_used := v_used v;
     v_free := v_free v; v_seen := v_seen v; v_info_b := v_info_b v; v_status := v_status v; v_ops := <[i := q]> (v_ops v);
     b_disk := b_disk v; b_bytes := b_bytes v; b_number := b_number v |}.
Definition set_b_disk (b : nat) (x : Z) (v : vdisk) : vdisk :=
  {| v_desc := v_desc v; v_avail_idx := v_avail_idx v; v_avail := v_avail v; v_used_idx := v_used_idx v; v_used := v_used v;
     v_free := v_free v; v_seen := v_seen v; v_info_b := v_info_b v; v_status := v_status v; v_ops := v_ops v;
     b_disk := <[b := x]> (b_disk v); b_bytes := b_bytes v; b_number := b_number v |}.
Definition set_b_bytes (b : nat) (x : block) (v : vdisk) : vdisk :=
  {| v_desc := v_desc v; v_avail_idx := v_avail_idx v; v_avail := v_avail v; v_used_idx := v_used_idx v; v_used := v_used v;
     v_free := v_free v; v_seen := v_seen v; v_info_b := v_info_b v; v_status := v_status v; v_ops := v_ops v;
     b_disk := b_disk v; b_bytes := <[b := x]> (b_bytes v); b_number := b_number v |}.
Definition set_b_number (b : nat) (x : Z) (v : vdisk) : vdisk :=
  {| v_desc := v_desc v; v_avail_idx := v_avail_idx v; v_avail := v_avail v; v_used_idx := v_used_idx v; v_used := v_used v;
     v_free := v_free v; v_seen := v_seen v; v_info_b := v_info_b v; v_status := v_status v; v_ops := v_ops v;
     b_disk := b_disk v; b_bytes := b_bytes v; b_number := <[b := x]> (b_number v) |}.
Definition set_desc (i : nat) (x : virtq_desc) (v : vdisk) : vdisk :=
  {| v_desc := <[i := x]> (v_desc v); v_avail_idx := v_avail_idx v; v_avail := v_avail v; v_used_idx := v_used_idx v; v_used := v_used v;
     v_free := v_free v; v_seen := v_seen v; v_info_b := v_info_b v; v_status := v_status v; v_ops := v_ops v;
     b_disk := b_disk v; b_bytes := b_bytes v; b_number := b_number v |}.

(** ** Descriptors *)
Fixpoint first_free (free : nat → bool) (l : list nat) : option nat :=
  match l with
  | [] => None
  | i :: l => if free i then Some i else first_free free l
  end.

(** [None]: -1. *)
Definition alloc_desc (v : vdisk) : option nat * vdisk :=
  match first_free (v_free v) (seq 0 NUM) with
  | Some i => (Some i, set_free i false v)
  | None => (None, v)
  end.

Definition zero_desc : virtq_desc := {| d_addr := Null; d_len := 0; d_flags := 0; d_next := 0 |}.

Definition free_desc (i : nat) (v : vdisk) : option vdisk :=
  if (NUM <=? i)%nat then None
  else if v_free v i then None
  else Some (set_free i true (set_desc i zero_desc v)).

(** The loop ends when a descriptor has no next one; [fuel] only matters if it would not. *)
Fixpoint free_chain (fuel i : nat) (v : vdisk) : option vdisk :=
  match fuel with
  | O => None
  | S fuel =>
      let flag := d_flags (v_desc v i) in
      let nxt := d_next (v_desc v i) in
      v ← free_desc i v;
      if Z.land flag VRING_DESC_F_NEXT =? 0 then Some v else free_chain fuel nxt v
  end.

Fixpoint free_descs (l : list nat) (v : vdisk) : option vdisk :=
  match l with
  | [] => Some v
  | i :: l => v ← free_desc i v; free_descs l v
  end.

Fixpoint alloc_loop (n : nat) (idx : list nat) (v : vdisk) : option (option (list nat) * vdisk) :=
  match n with
  | O => Some (Some idx, v)
  | S n =>
      match alloc_desc v with
      | (Some i, v) => alloc_loop n (idx ++ [i]) v
      | (None, v) => v ← free_descs idx v; Some (None, v)
      end
  end.

Definition alloc3_desc : vdisk → option (option (list nat) * vdisk) := alloc_loop 3 [].

(** ** [virtio_disk_rw] between its sleeps *)
Abbreviation idx3 := (nat * nat * nat)%type.

(** The descriptors are filled in and the head is put in the ring. *)
Definition rw_format (b : nat) (write : bool) (idx : idx3) (v : vdisk) : vdisk :=
  let '(i0, i1, i2) := idx in
  let sector := b_number v b * (Z.of_nat BSIZE / 512) in
  let v := set_op i0 {| q_type := if write then VIRTIO_BLK_T_OUT else VIRTIO_BLK_T_IN; q_reserved := 0; q_sector := sector |} v in
  let v := set_desc i0 {| d_addr := OpAt i0; d_len := 16; d_flags := VRING_DESC_F_NEXT; d_next := i1 |} v in
  let v := set_desc i1 {| d_addr := DataOf b; d_len := Z.of_nat BSIZE;
                          d_flags := Z.lor (if write then 0 else VRING_DESC_F_WRITE) VRING_DESC_F_NEXT; d_next := i2 |} v in
  let v := set_status i0 0xff v in
  let v := set_desc i2 {| d_addr := StatusAt i0; d_len := 1; d_flags := VRING_DESC_F_WRITE; d_next := 0 |} v in
  let v := set_b_disk b 1 v in
  let v := set_info_b i0 (Some b) v in
  set_avail (v_avail_idx v) (<[slot (v_avail_idx v) := i0]> (v_avail v)) v.

(** After the fence, the entry is announced. *)
Definition rw_publish (v : vdisk) : vdisk := set_avail ((v_avail_idx v + 1) mod 2 ^ 16) (v_avail v) v.

Definition rw_finish (i0 : nat) (v : vdisk) : option vdisk := free_chain (S NUM) i0 (set_info_b i0 None v).

(** ** [virtio_disk_intr]: one turn of its loop.  [false]: the loop ends. *)
Definition intr_turn (v : vdisk) : option (bool * vdisk) :=
  if v_seen v =? v_used_idx v then Some (false, v)
  else
    let id := v_used v (slot (v_seen v)) in
    if (NUM <=? id)%nat then None
    else if negb (v_status v id =? 0) then None
    else
      match v_info_b v id with
      | Some b => Some (true, set_seen ((v_seen v + 1) mod 2 ^ 16) (set_b_disk b 0 v))
      | None => None
      end.

(** ** Initialisation *)

(** The driver's writes to the registers, and what a register reads after them. *)
Abbreviation R A := (M (list (Z * Z)) string A).

Section Init.
Context (reg : list (Z * Z) → Z → Z).

Definition rd (r : Z) : R Z := gets (λ w, reg w r).
Definition wr (r x : Z) : R () := modify (λ w, w ++ [(r, u32 x)]).

Definition clear_features (features : Z) : Z :=
  foldl (λ f k, Z.land f (Z.lnot (Z.shiftl 1 k))) features
    [VIRTIO_BLK_F_RO; VIRTIO_BLK_F_SCSI; VIRTIO_BLK_F_FLUSH; VIRTIO_BLK_F_CONFIG_WCE; VIRTIO_BLK_F_MQ; VIRTIO_F_ANY_LAYOUT;
     VIRTIO_RING_F_EVENT_IDX; VIRTIO_RING_F_INDIRECT_DESC].

Definition check (b : bool) (msg : string) : R () := if b then throw msg else mret ().

(** [desc], [avail], [used]: what the three calls of [kalloc] return. *)
Definition virtio_disk_init (desc avail used : Z) : R () :=
  magic ← rd VIRTIO_MMIO_MAGIC_VALUE;
  version ← rd VIRTIO_MMIO_VERSION;
  id ← rd VIRTIO_MMIO_DEVICE_ID;
  vendor ← rd VIRTIO_MMIO_VENDOR_ID;
  check (negb (magic =? 0x74726976) || negb (version =? 2) || negb (id =? 2) || negb (vendor =? 0x554d4551)) "could not find virtio disk";;
  wr VIRTIO_MMIO_STATUS 0;;
  let status := Z.lor 0 VIRTIO_CONFIG_S_ACKNOWLEDGE in
  wr VIRTIO_MMIO_STATUS status;;
  let status := Z.lor status VIRTIO_CONFIG_S_DRIVER in
  wr VIRTIO_MMIO_STATUS status;;
  features ← rd VIRTIO_MMIO_DEVICE_FEATURES;
  wr VIRTIO_MMIO_DRIVER_FEATURES (clear_features features);;
  let status := Z.lor status VIRTIO_CONFIG_S_FEATURES_OK in
  wr VIRTIO_MMIO_STATUS status;;
  status ← rd VIRTIO_MMIO_STATUS;
  check (Z.land status VIRTIO_CONFIG_S_FEATURES_OK =? 0) "virtio disk FEATURES_OK unset";;
  wr VIRTIO_MMIO_QUEUE_SEL 0;;
  ready ← rd VIRTIO_MMIO_QUEUE_READY;
  check (negb (ready =? 0)) "virtio disk should not be ready";;
  max ← rd VIRTIO_MMIO_QUEUE_NUM_MAX;
  check (max =? 0) "virtio disk has no queue 0";;
  check (max <? Z.of_nat NUM) "virtio disk max queue too short";;
  check ((desc =? 0) || (avail =? 0) || (used =? 0)) "virtio disk kalloc";;
  wr VIRTIO_MMIO_QUEUE_NUM (Z.of_nat NUM);;
  wr VIRTIO_MMIO_QUEUE_DESC_LOW desc;;
  wr VIRTIO_MMIO_QUEUE_DESC_HIGH (Z.shiftr desc 32);;
  wr VIRTIO_MMIO_DRIVER_DESC_LOW avail;;
  wr VIRTIO_MMIO_DRIVER_DESC_HIGH (Z.shiftr avail 32);;
  wr VIRTIO_MMIO_DEVICE_DESC_LOW used;;
  wr VIRTIO_MMIO_DEVICE_DESC_HIGH (Z.shiftr used 32);;
  wr VIRTIO_MMIO_QUEUE_READY 0x1;;
  wr VIRTIO_MMIO_STATUS (Z.lor status VIRTIO_CONFIG_S_DRIVER_OK).
End Init.

(** The memory after it: the queues are zeros and every descriptor is free.  The rest is zeros since the kernel was loaded. *)
Definition initial_vdisk (bytes : nat → block) : vdisk :=
  {| v_desc := λ _, zero_desc; v_avail_idx := 0; v_avail := λ _, 0%nat; v_used_idx := 0; v_used := λ _, 0%nat;
     v_free := λ i, (i <? NUM)%nat; v_seen := 0; v_info_b := λ _, None; v_status := λ _, 0;
     v_ops := λ _, {| q_type := 0; q_reserved := 0; q_sector := 0 |}; b_disk := λ _, 0; b_bytes := bytes; b_number := λ _, 0 |}.

(** ** The disk *)

(** Sectors have 512 bytes. *)
Definition get_sectors (s n : Z) (img : Z → list Z) : list Z := concat (img <$> seqZ s n).
Definition put_sectors (s : Z) (data : list Z) (img : Z → list Z) : Z → list Z := λ x,
  if bool_decide (s ≤ x < s + Z.of_nat (length data) / 512) then slice (512 * Z.to_nat (x - s)) 512 data else img x.

(** The request whose chain starts at [h] (virtio 1.1, section 5.2.6): whether it is a write, its sector, buffer and place for
    the status; [None]: it is not a request. *)
Definition request (h : nat) (v : vdisk) : option (bool * Z * nat * nat) :=
  let d0 := v_desc v h in
  let d1 := v_desc v (d_next d0) in
  let d2 := v_desc v (d_next d1) in
  match d_addr d0, d_addr d1, d_addr d2 with
  | OpAt i, DataOf b, StatusAt j =>
      let q := v_ops v i in
      if negb (d_flags d0 =? VRING_DESC_F_NEXT) || negb (d_len d0 =? 16) || negb (d_flags d2 =? VRING_DESC_F_WRITE) || negb (d_len d2 =? 1)
        || negb (d_len d1 =? Z.of_nat (length (b_bytes v b)))
      then None
      else if (q_type q =? VIRTIO_BLK_T_OUT) && (d_flags d1 =? VRING_DESC_F_NEXT) then Some (true, q_sector q, b, j)
      else if (q_type q =? VIRTIO_BLK_T_IN) && (d_flags d1 =? Z.lor VRING_DESC_F_WRITE VRING_DESC_F_NEXT) then Some (false, q_sector q, b, j)
      else None
  | _, _, _ => None
  end.

(** How many sectors a buffer has. *)
Definition sectors (b : nat) (v : vdisk) : Z := Z.of_nat (length (b_bytes v b)) / 512.

(** What a disk does with it when all goes well. *)
Definition serve (h : nat) (v : vdisk) (img : Z → list Z) : option (vdisk * (Z → list Z)) :=
  match request h v with
  | Some (true, s, b, j) => Some (set_status j 0 v, put_sectors s (b_bytes v b) img)
  | Some (false, s, b, j) => Some (set_status j 0 (set_b_bytes b (get_sectors s (sectors b v) img) v), img)
  | None => None
  end.

(** The completed request is put in the used ring, then announced. *)
Definition push_used (h : nat) (v : vdisk) : vdisk :=
  set_used ((v_used_idx v + 1) mod 2 ^ 16) (<[slot (v_used_idx v) := h]> (v_used v)) v.

(** What a disk [D] may do to the memory: [image] is its contents, [next] the counter of the available entries it has taken,
    [taken] the requests it has not completed. *)
Section May.
Context {D : Type} (image : D → Z → list Z) (next : D → Z) (taken : D → list nat).

(** [true]: it reports an error, VIRTIO_BLK_S_IOERR or VIRTIO_BLK_S_UNSUPP; what a read left in the buffer and a write in its
    sectors is then unknown. *)
Inductive dev_may (v : vdisk) (d : D) : bool → vdisk → D → Prop :=
  | dev_take d' :
      next d ≠ v_avail_idx v → next d' = (next d + 1) mod 2 ^ 16 → taken d' ≡ₚ v_avail v (slot (next d)) :: taken d →
      (∀ x, image d' x = image d x) → dev_may v d false v d'
  | dev_complete h v1 img d' :
      taken d ≡ₚ h :: taken d' → serve h v (image d) = Some (v1, img) → (∀ x, image d' x = img x) → next d' = next d →
      dev_may v d false (push_used h v1) d'
  | dev_error h (w : bool) s b j x st d' :
      taken d ≡ₚ h :: taken d' → request h v = Some (w, s, b, j) → st = 1 ∨ st = 2 → length x = length (b_bytes v b) →
      (∀ y, w = false ∨ ¬ s ≤ y < s + sectors b v → image d' y = image d y) → next d' = next d →
      dev_may v d true (push_used h (set_status j st (if w then v else set_b_bytes b x v))) d'
  | dev_undefined h v' d' :
      h ∈ taken d → serve h v (image d) = None → dev_may v d false v' d'.
End May.

(** A disk: what it does, when it is given requests, is what the standard says. *)
Class BlockDevice (D : Type) := {
  image : D → Z → list Z;
  next : D → Z;
  taken : D → list nat;
  dev_step : vdisk → D → bool → vdisk → D → Prop;
  sector_length d x : length (image d x) = 512%nat;
  dev_law v d e v' d' : dev_step v d e v' d' → dev_may image next taken v d e v' d'
}.

(** ** The driver and the disk *)
Inductive pc :=
  | Enter                  (* no descriptors yet *)
  | Filled (idx : idx3)    (* the ring entry is written but not announced *)
  | Wait (idx : idx3).     (* in the second loop *)

Record thread := { t_buf : nat; t_write : bool; t_pc : pc }.
Definition at_pc (c : pc) (th : thread) : thread := {| t_buf := t_buf th; t_write := t_write th; t_pc := c |}.

Inductive holder := HThread (t : nat) | HIntr.

(** What is seen of a run from outside of the driver: the holders of the buffers, the calls and returns of [virtio_disk_rw], and
    the errors that the disk reports. *)
Inductive event :=
  | Client (b : nat) (x : block) (n : Z)
  | Call (t b : nat) (w : bool)
  | Return (t : nat)
  | DiskError.

(** The lock is [vdisk_lock]. *)
Record sys (D : Type) := { mem : vdisk; dev : D; thr : gmap nat thread; lock : option holder }.
Arguments mem {D} _.
Arguments dev {D} _.
Arguments thr {D} _.
Arguments lock {D} _.

Definition buf_idle (b : nat) (m : gmap nat thread) : Prop := ∀ t th, m !! t = Some th → t_buf th ≠ b.

(** [rw_check]: the test of the second loop. *)
Definition rw_check (t : nat) (th : thread) (i0 : nat) (v : vdisk) (m : gmap nat thread) : option (vdisk * gmap nat thread) :=
  if b_disk v (t_buf th) =? 1 then Some (v, m)
  else v ← rw_finish i0 v; Some (v, delete t m).

Section System.
Context {D : Type} `{BlockDevice D}.

Definition rw_enter (t : nat) (th : thread) (s : sys D) : option (sys D) :=
  '(r, v) ← alloc3_desc (mem s);
  match r with
  | Some [i0; i1; i2] =>
      let idx := (i0, i1, i2) in
      Some {| mem := rw_format (t_buf th) (t_write th) idx v; dev := dev s; thr := <[t := at_pc (Filled idx) th]> (thr s);
              lock := Some (HThread t) |}
  | _ => Some {| mem := v; dev := dev s; thr := thr s; lock := None |}
  end.

Definition rw_again (t : nat) (th : thread) (i0 : nat) (s : sys D) : option (sys D) :=
  '(v, m) ← rw_check t th i0 (mem s) (thr s);
  Some {| mem := v; dev := dev s; thr := m; lock := None |}.

Definition intr_again (s : sys D) : option (sys D) :=
  '(more, v) ← intr_turn (mem s);
  Some {| mem := v; dev := dev s; thr := thr s; lock := if (more : bool) then Some HIntr else None |}.

(** A step of thread [t] to [r] is its return from [virtio_disk_rw] when it leaves [thr]. *)
Definition returned (t : nat) (r : option (sys D)) : list event :=
  match r with
  | Some s => if decide (thr s !! t = None) then [Return t] else []
  | None => []
  end.

Inductive step (s : sys D) : list event → option (sys D) → Prop :=
  | s_client b x n :                     (* the holder of a buffer that is not being transferred *)
      buf_idle b (thr s) → length x = BSIZE →
      step s [Client b x n]
        (Some {| mem := set_b_number b n (set_b_bytes b x (mem s)); dev := dev s; thr := thr s; lock := lock s |})
  | s_call t b w :                       (* virtio_disk_rw(b, w) *)
      thr s !! t = None → buf_idle b (thr s) →
      step s [Call t b w]
        (Some {| mem := mem s; dev := dev s; thr := <[t := {| t_buf := b; t_write := w; t_pc := Enter |}]> (thr s); lock := lock s |})
  | s_enter t th :
      lock s = None → thr s !! t = Some th → t_pc th = Enter →
      step s (returned t (rw_enter t th s)) (rw_enter t th s)
  | s_publish t th idx :
      thr s !! t = Some th → t_pc th = Filled idx → lock s = Some (HThread t) →
      step s [] (Some {| mem := rw_publish (mem s); dev := dev s; thr := <[t := at_pc (Wait idx) th]> (thr s); lock := lock s |})
  | s_check t th i0 i1 i2 :
      thr s !! t = Some th → t_pc th = Wait (i0, i1, i2) → lock s = Some (HThread t) ∨ lock s = None →
      step s (returned t (rw_again t th i0 s)) (rw_again t th i0 s)
  | s_intr :
      lock s = None → step s [] (Some {| mem := mem s; dev := dev s; thr := thr s; lock := Some HIntr |})
  | s_intr_turn :
      lock s = Some HIntr →
      step s [] (intr_again s)
  | s_device e v d :
      dev_step (mem s) (dev s) e v d →
      step s (if e then [DiskError] else []) (Some {| mem := v; dev := d; thr := thr s; lock := lock s |}).

(** The states that [s] can come to, and what is seen on the way; [None] after a panic. *)
Inductive reach (s : sys D) : list event → option (sys D) → Prop :=
  | r_start : reach s [] (Some s)
  | r_step tr s1 ev r : reach s tr (Some s1) → step s1 ev r → reach s (tr ++ ev) r.

(** The disk has taken nothing yet. *)
Definition initial (s : sys D) : Prop :=
  ∃ bytes, mem s = initial_vdisk bytes ∧ (∀ b, length (bytes b) = BSIZE) ∧ thr s = ∅ ∧ lock s = None ∧ next (dev s) = 0 ∧ taken (dev s) = [].
End System.
