(* ===== verification/VirtioSpec.v ===== *)
(** * The disk driver refines an atomic disk

    The specification is a disk whose transfers are single steps.  The invariant of
    the driver and its refinement: no panic unless the disk reports an error, the
    same calls and returns, and each call is one transfer of its own buffer and
    block between the two. *)

From S2P Require Export Virtio.

#[local] Set Warnings "-clear-no-such-hyp".
#[local] Set Default Proof Using "Type".
#[local] Arguments Z.mul : simpl never.
#[local] Arguments Z.add : simpl never.
#[local] Arguments Z.sub : simpl never.
Local Open Scope Z_scope.

(** ** The specification *)

(** A request: its buffer, its direction and whether the transfer was made. *)
Record adisk := { a_disk : Z → block; a_bytes : nat → block; a_number : nat → Z; a_req : gmap nat (nat * bool * bool) }.

Definition transfer (b : nat) (w : bool) (a : adisk) : adisk :=
  if w then {| a_disk := <[a_number a b := a_bytes a b]> (a_disk a); a_bytes := a_bytes a; a_number := a_number a; a_req := a_req a |}
  else {| a_disk := a_disk a; a_bytes := <[b := a_disk a (a_number a b)]> (a_bytes a); a_number := a_number a; a_req := a_req a |}.

Definition set_req (m : gmap nat (nat * bool * bool)) (a : adisk) : adisk :=
  {| a_disk := a_disk a; a_bytes := a_bytes a; a_number := a_number a; a_req := m |}.

Definition no_req (b : nat) (a : adisk) : Prop := ∀ t b' w x, a_req a !! t = Some (b', w, x) → b' ≠ b.

(** Its steps and what is seen of them: a transfer is not. *)
Inductive astep (a : adisk) : list event → adisk → Prop :=
  | as_client b x n :
      no_req b a → length x = BSIZE →
      astep a [Client b x n]
        {| a_disk := a_disk a; a_bytes := <[b := x]> (a_bytes a); a_number := <[b := n]> (a_number a); a_req := a_req a |}
  | as_call t b w :
      a_req a !! t = None → no_req b a → astep a [Call t b w] (set_req (<[t := (b, w, false)]> (a_req a)) a)
  | as_transfer t b w :
      a_req a !! t = Some (b, w, false) → astep a [] (set_req (<[t := (b, w, true)]> (a_req a)) (transfer b w a))
  | as_return t b w :
      a_req a !! t = Some (b, w, true) → astep a [Return t] (set_req (delete t (a_req a)) a).

Inductive aruns (a : adisk) : list event → adisk → Prop :=
  | ar_start : aruns a [] a
  | ar_step tr a1 ev a2 : aruns a tr a1 → astep a1 ev a2 → aruns a (tr ++ ev) a2.

Lemma aruns_once a ev a' : astep a ev a' → aruns a ev a'.
Proof. intros H. exact (ar_step a [] a ev a' (ar_start a) H). Qed.

Lemma aruns_trans a1 a2 a3 tr1 tr2 : aruns a1 tr1 a2 → aruns a2 tr2 a3 → aruns a1 (tr1 ++ tr2) a3.
Proof.
  intros H1. induction 1 as [|tr a ev a' H IH Hs]; [by rewrite app_nil_r|]. rewrite app_assoc. by apply (ar_step a1 _ a).
Qed.

(** ** Counters of 16 bits *)
Lemma slot_mod i k : slot (i mod 2 ^ 16 + k) = slot (i + k).
Proof. unfold slot. f_equal. change (Z.of_nat NUM) with 8. change (2 ^ 16) with 65536. Z.to_euclidean_division_equations. lia. Qed.

Lemma slot_inj i k j : 0 ≤ k < 8 → 0 ≤ j < 8 → slot (i + k) = slot (i + j) → k = j.
Proof.
  unfold slot. change (Z.of_nat NUM) with 8. intros Hk Hj E. apply Z2Nat.inj in E; [|by apply Z.mod_pos_bound..].
  Z.to_euclidean_division_equations. lia.
Qed.

Lemma counter_next i n : (i mod 2 ^ 16 + n) mod 2 ^ 16 = (i + n) mod 2 ^ 16.
Proof. by rewrite Z.add_mod_idemp_l. Qed.

(** Heads of requests: at most [NUM]. *)
Lemma heads_bound (l : list nat) : NoDup l → (∀ h, h ∈ l → (h < NUM)%nat) → (length l ≤ NUM)%nat.
Proof.
  intros Hnd Hl. rewrite <-(length_seq NUM 0). apply submseteq_length, NoDup_submseteq; [done|].
  intros h Hh%Hl. apply elem_of_seq. lia.
Qed.

(** A ring holds the queue [q] from the counter [i] on. *)
Definition ring_holds (ring : nat → nat) (i : Z) (q : list nat) : Prop := ∀ k h, q !! k = Some h → ring (slot (i + Z.of_nat k)) = h.

Lemma ring_push ring i q h :
  ring_holds ring i q → (length q < NUM)%nat → ring_holds (<[slot (i + Z.of_nat (length q)) := h]> ring) i (q ++ [h]).
Proof.
  intros Hr Hl k x Hk. unfold NUM in Hl. apply lookup_app_Some in Hk as [Hk|[Hk Hx]].
  - rewrite fn_lookup_insert_ne; [by apply Hr|]. apply lookup_lt_Some in Hk. intros E. apply slot_inj in E; lia.
  - apply list_lookup_singleton_Some in Hx as [Hx <-]. replace k with (length q) by lia. apply fn_lookup_insert.
Qed.

Lemma ring_pop ring i q h : ring_holds ring i (h :: q) → ring (slot i) = h ∧ ring_holds ring ((i + 1) mod 2 ^ 16) q.
Proof.
  intros Hr. split; [rewrite <-(Hr 0%nat h eq_refl); by rewrite Z.add_0_r|].
  intros k x Hk. rewrite slot_mod. rewrite <-(Hr (S k) x Hk). do 2 f_equal. lia.
Qed.

(** ** Descriptors *)
Definition rest (v : vdisk) :=
  (v_avail_idx v, v_avail v, v_used_idx v, v_used v, v_seen v, v_info_b v, v_status v, v_ops v, b_disk v, b_bytes v, b_number v).

(** [v] is [v0] but for which descriptors are free and what is in the ones that were free. *)
Record but_free (v0 v : vdisk) (free : nat → Prop) : Prop := {
  bf_rest : rest v = rest v0;
  bf_desc i : v_free v0 i = false → v_desc v i = v_desc v0 i;
  bf_free i : v_free v i = true ↔ free i
}.

Lemma first_free_Some f l i : first_free f l = Some i → i ∈ l ∧ f i = true.
Proof.
  induction l as [|j l IH]; cbn; [done|]. destruct (f j) eqn:E; [intros [= ->]; split; [by left|done]|].
  intros [H1 H2]%IH. split; [by right|done].
Qed.

Lemma alloc_desc_Some v i v' : alloc_desc v = (Some i, v') → (i < NUM)%nat ∧ v_free v i = true ∧ v' = set_free i false v.
Proof.
  unfold alloc_desc. destruct (first_free _ _) as [j|] eqn:E; [|done]. intros [= -> <-]. apply first_free_Some in E as [Hi Hf].
  apply elem_of_seq in Hi. split; [lia|done].
Qed.

Lemma alloc_desc_None v v' : alloc_desc v = (None, v') → v' = v.
Proof. unfold alloc_desc. destruct (first_free _ _); [done|]. by intros [= <-]. Qed.

Lemma free_desc_ok i v : (i < NUM)%nat → v_free v i = false → free_desc i v = Some (set_free i true (set_desc i zero_desc v)).
Proof. intros Hi Hf. unfold free_desc. rewrite (proj2 (Nat.leb_gt _ _)) by done. by rewrite Hf. Qed.

Lemma set_free_lookup i x v j : v_free (set_free i x v) j = if decide (j = i) then x else v_free v j.
Proof. cbn. case_decide as E; [subst; by rewrite fn_lookup_insert|by rewrite fn_lookup_insert_ne]. Qed.

(** Freeing what was allocated from [v0]. *)
Lemma free_descs_ok v0 l : ∀ v,
  NoDup l → (∀ i, i ∈ l → (i < NUM)%nat ∧ v_free v0 i = true) → but_free v0 v (λ i, v_free v0 i = true ∧ i ∉ l) →
  ∃ v', free_descs l v = Some v' ∧ but_free v0 v' (λ i, v_free v0 i = true).
Proof.
  induction l as [|i l IH]; cbn [free_descs]; intros v Hnd Hl [B1 B2 B3].
  - exists v. split; [done|]. split; [done|done|]. intros j. rewrite B3. split; [by intros [? _]|]. intros ?. split; [done|apply not_elem_of_nil].
  - apply NoDup_cons in Hnd as [Hi Hnd]. destruct (Hl i) as [Hin Hif]; [by left|]. rewrite free_desc_ok; [|done|].
    2: { apply not_true_is_false. rewrite B3. intros [_ H]. apply H. by left. }
    cbn [mbind option_bind]. apply IH; [done|intros j Hj; apply Hl; by right|]. split; [done| |].
    + intros j Hj. cbn. rewrite fn_lookup_insert_ne; [by apply B2|]. intros <-. congruence.
    + intros j. rewrite set_free_lookup. case_decide as E; [subst j; by split|]. cbn. rewrite B3. set_solver.
Qed.

Lemma alloc_loop_ok v0 n : ∀ idx v,
  NoDup idx → (∀ i, i ∈ idx → (i < NUM)%nat ∧ v_free v0 i = true) → but_free v0 v (λ i, v_free v0 i = true ∧ i ∉ idx) →
  ∃ r v', alloc_loop n idx v = Some (r, v') ∧
    match r with
    | Some idx' => length idx' = (length idx + n)%nat ∧ NoDup idx' ∧ (∀ i, i ∈ idx' → (i < NUM)%nat ∧ v_free v0 i = true) ∧
        but_free v0 v' (λ i, v_free v0 i = true ∧ i ∉ idx')
    | None => but_free v0 v' (λ i, v_free v0 i = true)
    end.
Proof.
  induction n as [|n IH]; cbn [alloc_loop]; intros idx v Hnd Hl B.
  - exists (Some idx), v. split; [done|]. by rewrite Nat.add_0_r.
  - destruct (alloc_desc v) as [[i|] v1] eqn:E.
    + apply alloc_desc_Some in E as (Hi & Hf & ->). destruct B as [B1 B2 B3]. apply B3 in Hf as [Hf Hni].
      destruct (IH (idx ++ [i]) (set_free i false v)) as (r & v' & E & R).
      * apply NoDup_app. split; [done|]. split; [|apply NoDup_singleton]. intros j Hj Hji. apply list_elem_of_singleton in Hji as ->. done.
      * intros j [Hj|Hj%list_elem_of_singleton]%elem_of_app; [by apply Hl|by subst].
      * split; [done|done|]. intros j. rewrite set_free_lookup, not_elem_of_app, list_elem_of_singleton. case_decide as Ej; [subst; naive_solver|].
        rewrite B3. naive_solver.
      * exists r, v'. split; [done|]. destruct r as [idx'|]; [|done]. rewrite length_app in R. cbn in R.
        by replace (length idx + S n)%nat with (length idx + 1 + n)%nat by lia.
    + apply alloc_desc_None in E as ->. destruct (free_descs_ok v0 idx v Hnd Hl B) as (v' & E & B'). exists None, v'. by rewrite E.
Qed.

Lemma alloc3_ok v :
  (∃ i0 i1 i2 v', alloc3_desc v = Some (Some [i0; i1; i2], v') ∧ NoDup [i0; i1; i2] ∧
     (∀ i, i ∈ [i0; i1; i2] → (i < NUM)%nat ∧ v_free v i = true) ∧ but_free v v' (λ i, v_free v i = true ∧ i ∉ [i0; i1; i2])) ∨
  (∃ v', alloc3_desc v = Some (None, v') ∧ but_free v v' (λ i, v_free v i = true)).
Proof.
  destruct (alloc_loop_ok v 3 [] v) as (r & v' & E & R).
  - apply NoDup_nil_2.
  - by intros i ?%elem_of_nil.
  - split; [done|done|]. intros i. split; [intros ?; split; [done|apply not_elem_of_nil]|by intros [? _]].
  - destruct r as [[|i0 [|i1 [|i2 [|? ?]]]]|]; try (by destruct R as [? _]); [left|right].
    + exists i0, i1, i2, v'. split; [done|]. by destruct R as (_ & ? & ? & ?).
    + by exists v'.
Qed.

(** ** Chains *)
Abbreviation head_of idx := (idx.1.1 : nat).
Definition descs (idx : idx3) : list nat := [idx.1.1; idx.1.2; idx.2].

(** The request for buffer [b] is laid out at [idx]. *)
Record chain (v : vdisk) (idx : idx3) (b : nat) (w : bool) : Prop := {
  ch_0 : v_desc v (head_of idx) = {| d_addr := OpAt (head_of idx); d_len := 16; d_flags := VRING_DESC_F_NEXT; d_next := idx.1.2 |};
  ch_1 : v_desc v idx.1.2 = {| d_addr := DataOf b; d_len := Z.of_nat BSIZE;
                               d_flags := Z.lor (if w then 0 else VRING_DESC_F_WRITE) VRING_DESC_F_NEXT; d_next := idx.2 |};
  ch_2 : v_desc v idx.2 = {| d_addr := StatusAt (head_of idx); d_len := 1; d_flags := VRING_DESC_F_WRITE; d_next := 0 |};
  ch_op : v_ops v (head_of idx) = {| q_type := if w then VIRTIO_BLK_T_OUT else VIRTIO_BLK_T_IN; q_reserved := 0; q_sector := b_number v b * 2 |};
  ch_info : v_info_b v (head_of idx) = Some b
}.

Lemma chain_frame v v' idx b w :
  chain v idx b w → (∀ i, i ∈ descs idx → v_desc v' i = v_desc v i) → v_ops v' (head_of idx) = v_ops v (head_of idx) →
  v_info_b v' (head_of idx) = v_info_b v (head_of idx) → b_number v' b = b_number v b → chain v' idx b w.
Proof.
  intros [C0 C1 C2 C3 C4] Hd Ho Hi Hn. split; [rewrite Hd by (by left)|rewrite Hd by (by right; left)|rewrite Hd by (by do 2 right; left)| |]; try done.
  - by rewrite Ho, Hn.
  - by rewrite Hi.
Qed.

Lemma rw_format_chain b w i0 i1 i2 v : NoDup [i0; i1; i2] → chain (rw_format b w (i0, i1, i2) v) (i0, i1, i2) b w.
Proof.
  intros [H0 [H1 H2]%NoDup_cons]%NoDup_cons. rewrite !not_elem_of_cons in H0. rewrite !not_elem_of_cons in H1. destruct H0 as (Ha & Hb & _), H1 as (Hc & _).
  split; cbn [rw_format fst snd set_op set_desc set_status set_b_disk set_info_b set_avail v_desc v_ops v_info_b b_number].
  - rewrite !fn_lookup_insert_ne by done. by rewrite fn_lookup_insert.
  - rewrite fn_lookup_insert_ne by done. by rewrite fn_lookup_insert.
  - by rewrite fn_lookup_insert.
  - by rewrite fn_lookup_insert.
  - by rewrite fn_lookup_insert.
Qed.

Lemma rw_format_fields b w i0 i1 i2 v v2 : v2 = rw_format b w (i0, i1, i2) v →
  v_avail_idx v2 = v_avail_idx v ∧ v_avail v2 = <[slot (v_avail_idx v) := i0]> (v_avail v) ∧ v_used_idx v2 = v_used_idx v ∧ v_used v2 = v_used v ∧
  v_free v2 = v_free v ∧ v_seen v2 = v_seen v ∧ v_info_b v2 = <[i0 := Some b]> (v_info_b v) ∧ v_status v2 = <[i0 := 0xff]> (v_status v) ∧
  (∀ i, i ≠ i0 → v_ops v2 i = v_ops v i) ∧ b_disk v2 = <[b := 1]> (b_disk v) ∧ b_bytes v2 = b_bytes v ∧ b_number v2 = b_number v ∧
  (∀ i, i ∉ [i0; i1; i2] → v_desc v2 i = v_desc v i).
Proof.
  intros ->. split_and!; try done.
  - intros i Hi. cbn. by rewrite fn_lookup_insert_ne.
  - intros i Hi. rewrite !not_elem_of_cons in Hi. destruct Hi as (Ha & Hb & Hc & _). cbn. by rewrite !fn_lookup_insert_ne.
Qed.

(** ** The invariant *)
Definition idx_of (th : thread) : option idx3 := match t_pc th with Enter => None | Filled idx | Wait idx => Some idx end.
Definition owned_by (th : thread) : list nat := match idx_of th with Some idx => descs idx | None => [] end.

Lemma insert_cases {A} t (x : A) (m : gmap nat A) t' x' : <[t := x]> m !! t' = Some x' → (t' = t ∧ x' = x) ∨ (t' ≠ t ∧ m !! t' = Some x').
Proof. rewrite lookup_insert_Some. naive_solver. Qed.

Lemma rest_eq v v' : rest v' = rest v →
  v_avail_idx v' = v_avail_idx v ∧ v_avail v' = v_avail v ∧ v_used_idx v' = v_used_idx v ∧ v_used v' = v_used v ∧ v_seen v' = v_seen v ∧
  v_info_b v' = v_info_b v ∧ v_status v' = v_status v ∧ v_ops v' = v_ops v ∧ b_disk v' = b_disk v ∧ b_bytes v' = b_bytes v ∧ b_number v' = b_number v.
Proof. unfold rest. intros E. by injection E. Qed.

Section Refinement.
Context {D : Type} `{BlockDevice D}.

(** [q1]: announced, not taken by the disk; [q3]: completed, not seen by the interrupt handler. *)
Abbreviation inflight q1 s q3 := (q1 ++ taken (dev s) ++ q3).

Record inv (s : sys D) (q1 q3 : list nat) : Prop := {
  iv_own t th : thr s !! t = Some th → NoDup (owned_by th) ∧ ∀ i, i ∈ owned_by th → (i < NUM)%nat ∧ v_free (mem s) i = false;
  iv_apart t t' th th' i : t ≠ t' → thr s !! t = Some th → thr s !! t' = Some th' → i ∈ owned_by th → i ∉ owned_by th';
  iv_bufs t t' th th' : t ≠ t' → thr s !! t = Some th → thr s !! t' = Some th' → t_buf th ≠ t_buf th';
  iv_chain t th idx : thr s !! t = Some th → idx_of th = Some idx → chain (mem s) idx (t_buf th) (t_write th);
  iv_filled t th idx : thr s !! t = Some th → t_pc th = Filled idx → lock s = Some (HThread t) ∧
    v_avail (mem s) (slot (v_avail_idx (mem s))) = head_of idx ∧ b_disk (mem s) (t_buf th) = 1;
  iv_wait t th idx : thr s !! t = Some th → t_pc th = Wait idx →
    b_disk (mem s) (t_buf th) = if decide (head_of idx ∈ inflight q1 s q3) then 1 else 0;
  iv_queue h : h ∈ inflight q1 s q3 → ∃ t th idx, thr s !! t = Some th ∧ t_pc th = Wait idx ∧ head_of idx = h;
  iv_nodup : NoDup (inflight q1 s q3);
  iv_next : 0 ≤ next (dev s) < 2 ^ 16;
  iv_seen : 0 ≤ v_seen (mem s) < 2 ^ 16;
  iv_avail : v_avail_idx (mem s) = (next (dev s) + Z.of_nat (length q1)) mod 2 ^ 16 ∧ ring_holds (v_avail (mem s)) (next (dev s)) q1;
  iv_used : v_used_idx (mem s) = (v_seen (mem s) + Z.of_nat (length q3)) mod 2 ^ 16 ∧ ring_holds (v_used (mem s)) (v_seen (mem s)) q3;
  iv_status h : h ∈ q3 → v_status (mem s) h = 0;
  iv_bytes b : length (b_bytes (mem s) b) = BSIZE
}.

(** ** What the driver stands for *)
Definition disk_block (d : D) (n : Z) : block := get_sectors (n * 2) 2 (image d).

(** The transfer of a request was made when it has been completed. *)
Definition made (q1 : list nat) (s : sys D) (th : thread) : bool :=
  match t_pc th with Wait idx => bool_decide (head_of idx ∉ q1 ++ taken (dev s)) | _ => false end.

Record refines (s : sys D) (q1 : list nat) (a : adisk) : Prop := {
  rf_disk n : a_disk a n = disk_block (dev s) n;
  rf_bytes b : a_bytes a b = b_bytes (mem s) b;
  rf_number b : a_number a b = b_number (mem s) b;
  rf_req t : a_req a !! t = (λ th, (t_buf th, t_write th, made q1 s th)) <$> thr s !! t
}.

Definition related (s : sys D) (a : adisk) : Prop := ∃ q1 q3, inv s q1 q3 ∧ refines s q1 a.

Section Facts.
Context (s : sys D) (q1 q3 : list nat) (I : inv s q1 q3).

Lemma head_owned t th idx : thr s !! t = Some th → idx_of th = Some idx → head_of idx ∈ owned_by th.
Proof using Type. intros _ Hi. unfold owned_by. rewrite Hi. by left. Qed.

Lemma queue_head h : h ∈ inflight q1 s q3 → (h < NUM)%nat ∧ v_free (mem s) h = false.
Proof using I.
  intros (t & th & idx & Ht & Hpc & <-)%(iv_queue _ _ _ I). apply (iv_own _ _ _ I t th Ht). apply (head_owned t); [done|].
  unfold idx_of. by rewrite Hpc.
Qed.

(** The thread of a request. *)
Lemma queue_thread h :
  h ∈ inflight q1 s q3 → ∃ t th idx, thr s !! t = Some th ∧ t_pc th = Wait idx ∧ head_of idx = h ∧ chain (mem s) idx (t_buf th) (t_write th).
Proof using I.
  intros (t & th & idx & Ht & Hpc & Hh)%(iv_queue _ _ _ I). exists t, th, idx. split_and!; try done. apply (iv_chain _ _ _ I t); [done|].
  unfold idx_of. by rewrite Hpc.
Qed.

(** Two threads with one head are one thread. *)
Lemma head_inj t t' th th' idx idx' :
  thr s !! t = Some th → thr s !! t' = Some th' → idx_of th = Some idx → idx_of th' = Some idx' → head_of idx = head_of idx' → t = t'.
Proof using I.
  intros Ht Ht' Hi Hi' E. destruct (decide (t = t')) as [|Hne]; [done|]. exfalso.
  apply (iv_apart _ _ _ I t t' th th' (head_of idx) Hne Ht Ht'); [by apply (head_owned t)|]. rewrite E. by apply (head_owned t').
Qed.

Lemma queue_length : (length (inflight q1 s q3) ≤ NUM)%nat.
Proof using I. apply heads_bound; [apply I|]. intros h Hh. by apply queue_head. Qed.

Lemma no_filled t th : lock s ≠ Some (HThread t) → thr s !! t = Some th → ∀ idx, t_pc th ≠ Filled idx.
Proof using I. intros Hl Ht idx Hpc. by destruct (iv_filled _ _ _ I t th idx Ht Hpc) as [? _]. Qed.
End Facts.

(** A buffer that no thread uses has no request. *)
Lemma idle_req s q1 a b : refines s q1 a → buf_idle b (thr s) → no_req b a.
Proof.
  intros R Hb t b' w x E. rewrite (rf_req _ _ _ R) in E. destruct (thr s !! t) as [th|] eqn:Et; [|done]. injection E as <- _ _. by eapply Hb.
Qed.

(** *** The client *)
Lemma client_step s q1 q3 a b x n :
  inv s q1 q3 → refines s q1 a → buf_idle b (thr s) → length x = BSIZE →
  let s' := {| mem := set_b_number b n (set_b_bytes b x (mem s)); dev := dev s; thr := thr s; lock := lock s |} in
  ∃ a', astep a [Client b x n] a' ∧ inv s' q1 q3 ∧ refines s' q1 a'.
Proof.
  intros I R Hb Hx s'. eexists. split; [by eapply as_client; [eapply idle_req|]|]. split.
  - destruct I as [I1 I2 I3 I4 I5 I6 I7 I8 I9 I10 I11 I12 I13 I14]. split; try done; cbn.
    + intros t th idx Ht Hi. pose proof (I4 t th idx Ht Hi) as C. eapply chain_frame; [exact C|done..|]. cbn.
      rewrite fn_lookup_insert_ne; [done|]. intros ->. by eapply Hb.
    + intros c. destruct (decide (c = b)) as [->|Hc]; [by rewrite fn_lookup_insert|by rewrite fn_lookup_insert_ne].
  - destruct R as [R1 R2 R3 R4]. split; cbn; try done.
    + intros c. destruct (decide (c = b)) as [->|Hc]; [by rewrite !fn_lookup_insert|by rewrite !fn_lookup_insert_ne].
    + intros c. destruct (decide (c = b)) as [->|Hc]; [by rewrite !fn_lookup_insert|by rewrite !fn_lookup_insert_ne].
Qed.

(** *** Threads come and change *)
Lemma refines_insert s q1 a t th (s' : sys D) q1' :
  refines s q1 a → mem s' = mem s → dev s' = dev s → thr s' = <[t := th]> (thr s) →
  (∀ t' th', t' ≠ t → thr s !! t' = Some th' → made q1' s' th' = made q1 s th') →
  refines s' q1' (set_req (<[t := (t_buf th, t_write th, made q1' s' th)]> (a_req a)) a).
Proof.
  intros [R1 R2 R3 R4] Em Ed Et Hm. split; cbn; rewrite ?Em, ?Ed; try done. intros t'. rewrite Et.
  destruct (decide (t = t')) as [->|Hne]; [by rewrite !lookup_insert_eq|]. rewrite !lookup_insert_ne, R4 by done.
  destruct (thr s !! t') as [th'|] eqn:Et'; cbn; [|done]. by rewrite (Hm t' th') by done.
Qed.

Lemma call_step s q1 q3 a t b w :
  inv s q1 q3 → refines s q1 a → thr s !! t = None → buf_idle b (thr s) →
  let s' := {| mem := mem s; dev := dev s; thr := <[t := {| t_buf := b; t_write := w; t_pc := Enter |}]> (thr s); lock := lock s |} in
  ∃ a', astep a [Call t b w] a' ∧ inv s' q1 q3 ∧ refines s' q1 a'.
Proof.
  intros I R Ht Hb s'. eexists. split; [by eapply (as_call a t b w); [rewrite (rf_req _ _ _ R), Ht|eapply idle_req]|]. split.
  - destruct I as [I1 I2 I3 I4 I5 I6 I7 I8 I9 I10 I11 I12 I13 I14].
    pose proof (insert_cases t {| t_buf := b; t_write := w; t_pc := Enter |} (thr s)) as Hlook. split; try done.
    + intros t' th' [[-> ->] | [Hne Ht']]%Hlook; [|by eapply I1]. split; [apply NoDup_nil_2|by intros i ?%elem_of_nil].
    + intros t1 t2 th1 th2 i Hne [[-> ->] | [Hne1 Ht1]]%Hlook [[-> ->] | [Hne2 Ht2]]%Hlook Hi; [done|by apply elem_of_nil in Hi|apply not_elem_of_nil|by eapply (I2 t1 t2)].
    + intros t1 t2 th1 th2 Hne [[-> ->] | [Hne1 Ht1]]%Hlook [[-> ->] | [Hne2 Ht2]]%Hlook; [done|intros E; by eapply Hb|by eapply Hb|by eapply (I3 t1 t2)].
    + intros t' th' idx [[-> ->] | [Hne Ht']]%Hlook Hi; [done|by eapply I4].
    + intros t' th' idx [[-> ->] | [Hne Ht']]%Hlook Hi; [done|by eapply I5].
    + intros t' th' idx [[-> ->] | [Hne Ht']]%Hlook Hi; [done|by eapply I6].
    + intros h Hh. destruct (I7 h Hh) as (t' & th' & idx & Ht' & Hpc). exists t', th', idx. split; [|done].
      cbn. rewrite lookup_insert_ne; [done|]. intros <-. by rewrite Ht in Ht'.
  - exact (refines_insert s q1 a t _ s' q1 R eq_refl eq_refl eq_refl (λ _ _ _ _, eq_refl)).
Qed.

(** *** Entering *)

(** Threads without descriptors do not mind what is in free ones. *)
Lemma chain_but_free v v' f idx b w :
  chain v idx b w → but_free v v' f → (∀ i, i ∈ descs idx → v_free v i = false) → chain v' idx b w.
Proof.
  intros C [B1 B2 B3] Hf. apply rest_eq in B1 as (E1 & E2 & E3 & E4 & E5 & E6 & E7 & E8 & E9 & E10 & E11).
  eapply chain_frame; [exact C| |by rewrite E8|by rewrite E6|by rewrite E11]. intros i Hi. by apply B2, Hf.
Qed.

Lemma owned_descs th idx : idx_of th = Some idx → owned_by th = descs idx.
Proof. unfold owned_by. by intros ->. Qed.

Lemma enter_sleeps s q1 q3 a v :
  inv s q1 q3 → refines s q1 a → lock s = None → but_free (mem s) v (λ i, v_free (mem s) i = true) →
  let s' := {| mem := v; dev := dev s; thr := thr s; lock := None |} in inv s' q1 q3 ∧ refines s' q1 a.
Proof.
  intros I R Hl B s'. pose proof B as [B1 B2 B3]. apply rest_eq in B1 as (E1 & E2 & E3 & E4 & E5 & E6 & E7 & E8 & E9 & E10 & E11). split.
  - assert (Hf : ∀ i, v_free (mem s) i = false → v_free v i = false).
    { intros i Hi. apply not_true_is_false. rewrite B3. congruence. }
    pose proof I as [I1 I2 I3 I4 I5 I6 I7 I8 I9 I10 I11 I12 I13 I14].
    split; cbn [mem dev thr lock s']; rewrite ?E1, ?E2, ?E3, ?E4, ?E5, ?E7, ?E9, ?E10; try done.
    + intros t th Ht. destruct (I1 t th Ht) as [O1 O2]. split; [done|]. intros i Hi. destruct (O2 i Hi) as [Hn Hi']. split; [done|]. by apply Hf.
    + intros t th idx Ht Hi. eapply chain_but_free; [by eapply I4|exact B|]. intros i Hd. apply (I1 t th Ht). by rewrite (owned_descs _ _ Hi).
    + intros t th idx Ht Hpc. destruct (I5 t th idx Ht Hpc) as (F1 & _). by rewrite Hl in F1.
  - destruct R as [R1 R2 R3 R4]. split; cbn [mem dev thr lock s']; rewrite ?E10, ?E11; done.
Qed.

Lemma ring_prefix ring i q h : ring_holds ring i (q ++ [h]) → ring_holds ring i q.
Proof. intros Hr k x Hk. apply Hr. by apply lookup_app_l_Some. Qed.

Lemma enter_fills s q1 q3 a t th i0 i1 i2 v :
  inv s q1 q3 → refines s q1 a → lock s = None → thr s !! t = Some th → t_pc th = Enter → NoDup [i0; i1; i2] →
  (∀ i, i ∈ [i0; i1; i2] → (i < NUM)%nat ∧ v_free (mem s) i = true) →
  but_free (mem s) v (λ i, v_free (mem s) i = true ∧ i ∉ [i0; i1; i2]) →
  let s' := {| mem := rw_format (t_buf th) (t_write th) (i0, i1, i2) v; dev := dev s; thr := <[t := at_pc (Filled (i0, i1, i2)) th]> (thr s);
               lock := Some (HThread t) |} in
  inv s' q1 q3 ∧ refines s' q1 a.
Proof.
  intros I R Hl Ht Hpc Hnd Hidx B s'. remember (rw_format (t_buf th) (t_write th) (i0, i1, i2) v) as v2 eqn:Ev2.
  destruct (rw_format_fields _ _ _ _ _ _ _ Ev2) as (F1 & F2 & F3 & F4 & F5 & F6 & F7 & F8 & F9 & F10 & F11 & F12 & F13). pose proof B as [B1 B2 B3]. apply rest_eq in B1 as (E1 & E2 & E3 & E4 & E5 & E6 & E7 & E8 & E9 & E10 & E11).
  pose proof I as [I1 I2 I3 I4 I5 I6 I7 I8 I9 I10 I11 I12 I13 I14]. pose proof (insert_cases t (at_pc (Filled (i0, i1, i2)) th) (thr s)) as Hlook.
  assert (Hf : ∀ i, v_free (mem s) i = false → v_free v i = false).
  { intros i Hi. apply not_true_is_false. rewrite B3. intros [? _]. congruence. }
  assert (Hin : ∀ t' th' i, thr s !! t' = Some th' → i ∈ owned_by th' → i ∉ [i0; i1; i2]).
  { intros t' th' i Ht' Hi Hi'. apply (I1 t' th' Ht') in Hi as [_ Hi]. apply Hidx in Hi' as [_ Hi']. congruence. }
  assert (Hq : ∀ h, h ∈ inflight q1 s q3 → h ≠ i0).
  { intros h Hh ->. apply (queue_head s q1 q3 I) in Hh as [_ Hh]. destruct (Hidx i0) as [_ H0]; [by left|]. congruence. }
  assert (Hlen : (length q1 < NUM)%nat).
  { assert (Hb : (length (i0 :: inflight q1 s q3) ≤ NUM)%nat).
    { apply heads_bound; [apply NoDup_cons; split; [intros Hh; by eapply Hq|done]|].
      intros h [->|Hh]%elem_of_cons; [apply Hidx; by left|by eapply queue_head]. }
    cbn [length] in Hb. rewrite length_app in Hb. lia. }
  assert (Hslot : slot (v_avail_idx v) = slot (next (dev s) + Z.of_nat (length q1))).
  { rewrite E1, (proj1 I11). rewrite <-(Z.add_0_r ((_ + _) mod _)), slot_mod. by rewrite Z.add_0_r. }
  split.
  - split; cbn [mem dev thr lock s']; rewrite ?F1, ?F2, ?F3, ?F4, ?F5, ?F6, ?F8, ?F10, ?F11, ?E1, ?E2, ?E3, ?E4, ?E5, ?E7, ?E9, ?E10; try done.
    + intros t' th' [[-> ->] | [Hne Ht']]%Hlook.
      * split; [done|]. intros i Hi. change (i ∈ [i0; i1; i2]) in Hi. split; [by apply Hidx|]. apply not_true_is_false. rewrite B3. by intros [_ ?].
      * destruct (I1 t' th' Ht') as [O1 O2]. split; [done|]. intros i Hi. destruct (O2 i Hi) as [Hn Hi']. split; [done|]. by apply Hf.
    + intros t1 t2 th1 th2 i Hne [[-> ->] | [Hne1 Ht1]]%Hlook [[-> ->] | [Hne2 Ht2]]%Hlook Hi; [done| | |by eapply (I2 t1 t2)].
      * intros Hi'. by eapply Hin.
      * by eapply Hin.
    + intros t1 t2 th1 th2 Hne [[-> ->] | [Hne1 Ht1]]%Hlook [[-> ->] | [Hne2 Ht2]]%Hlook; [done|exact (I3 t t2 th th2 Hne Ht Ht2)|exact (I3 t1 t th1 th Hne Ht1 Ht)|by eapply (I3 t1 t2)].
    + intros t' th' idx [[-> ->] | [Hne Ht']]%Hlook Hi; [injection Hi as <-; rewrite Ev2; by apply rw_format_chain|].
      assert (C : chain v idx (t_buf th') (t_write th')).
      { eapply chain_but_free; [by eapply I4|exact B|]. intros i Hd. apply (I1 t' th' Ht'). by rewrite (owned_descs _ _ Hi). }
      assert (Hd : ∀ i, i ∈ descs idx → i ∉ [i0; i1; i2]) by (intros i Hd; eapply Hin; [done|by rewrite (owned_descs _ _ Hi)]).
      assert (Hh : head_of idx ≠ i0) by (intros E; apply (Hd (head_of idx)); [by left|rewrite E; by left]).
      eapply chain_frame; [exact C|intros i Hi'; by apply F13, Hd|by apply F9|by rewrite F7, fn_lookup_insert_ne|by rewrite F12].
    + intros t' th' idx [[-> ->] | [Hne Ht']]%Hlook Hpc'; [injection Hpc' as <-; split; [done|split; by rewrite fn_lookup_insert]|].
      destruct (I5 t' th' idx Ht' Hpc') as [Hl' _]. congruence.
    + intros t' th' idx [[-> ->] | [Hne Ht']]%Hlook Hpc'; [done|]. rewrite fn_lookup_insert_ne by (exact (I3 t t' th th' (not_eq_sym Hne) Ht Ht')). by eapply I6.
    + intros h Hh. destruct (I7 h Hh) as (t' & th' & idx & Ht' & Hpc' & Eh). exists t', th', idx. split; [|done].
      rewrite lookup_insert_ne; [done|]. intros <-. congruence.
    + split; [apply I11|]. rewrite <-E1, Hslot. eapply ring_prefix, ring_push; [apply I11|done].
    + intros h Hh. rewrite fn_lookup_insert_ne; [by apply I13|]. intros <-. apply (Hq i0); [|done]. rewrite !elem_of_app. auto.
  - destruct R as [R1 R2 R3 R4]. split; cbn [mem dev thr lock s']; rewrite ?F11, ?F12, ?E10, ?E11; try done.
    intros t'. rewrite R4. destruct (decide (t = t')) as [<-|Hne]; [|by rewrite lookup_insert_ne].
    rewrite lookup_insert_eq, Ht. cbn. unfold made. by rewrite Hpc.
Qed.

(** *** Announcing *)
Lemma wait_not_filled s q1 q3 t th idx :
  inv s q1 q3 → thr s !! t = Some th → t_pc th = Filled idx → head_of idx ∉ inflight q1 s q3.
Proof.
  intros I Ht Hpc Hh. destruct (iv_queue _ _ _ I _ Hh) as (t' & th' & idx' & Ht' & Hpc' & E).
  assert (t' = t) as ->; [|congruence]. eapply (head_inj s q1 q3 I t' t th' th idx' idx); try done; unfold idx_of; [by rewrite Hpc'|by rewrite Hpc].
Qed.

(** The other threads' heads. *)
Lemma other_head s q1 q3 t t' th th' idx idx' :
  inv s q1 q3 → t' ≠ t → thr s !! t = Some th → thr s !! t' = Some th' → idx_of th = Some idx → idx_of th' = Some idx' →
  head_of idx' ≠ head_of idx.
Proof. intros I Hne Ht Ht' Hi Hi' E. apply Hne. by eapply (head_inj s q1 q3 I t' t th' th idx' idx). Qed.

Lemma idx_wait th idx : t_pc th = Wait idx → idx_of th = Some idx.
Proof. unfold idx_of. by intros ->. Qed.
Lemma idx_filled th idx : t_pc th = Filled idx → idx_of th = Some idx.
Proof. unfold idx_of. by intros ->. Qed.

Lemma publish_step s q1 q3 a t th idx :
  inv s q1 q3 → refines s q1 a → thr s !! t = Some th → t_pc th = Filled idx →
  let s' := {| mem := rw_publish (mem s); dev := dev s; thr := <[t := at_pc (Wait idx) th]> (thr s); lock := lock s |} in
  inv s' (q1 ++ [head_of idx]) q3 ∧ refines s' (q1 ++ [head_of idx]) a.
Proof.
  intros I R Ht Hpc s'. pose proof (wait_not_filled s q1 q3 t th idx I Ht Hpc) as Hnew. pose proof (idx_filled _ _ Hpc) as Hio.
  pose proof I as [I1 I2 I3 I4 I5 I6 I7 I8 I9 I10 I11 I12 I13 I14]. pose proof (insert_cases t (at_pc (Wait idx) th) (thr s)) as Hlook.
  assert (Hperm : (q1 ++ [head_of idx]) ++ taken (dev s) ++ q3 ≡ₚ head_of idx :: inflight q1 s q3).
  { rewrite <-app_assoc. symmetry. apply Permutation_middle. }
  assert (Hown : owned_by (at_pc (Wait idx) th) = owned_by th) by (by rewrite (owned_descs th idx Hio)).
  destruct (I5 t th idx Ht Hpc) as (F1 & F2 & F3).
  assert (Hd : ∀ t' th' idx', t' ≠ t → thr s !! t' = Some th' → t_pc th' = Wait idx' → head_of idx' ≠ head_of idx).
  { intros t' th' idx' Hne Ht' Hpc'. eapply (other_head s q1 q3 t t'); try done. by apply idx_wait. }
  split.
  - split; cbn [mem dev thr lock s']; try done.
    + intros t' th' [[-> ->] | [Hne Ht']]%Hlook; [rewrite Hown|]; by eapply I1.
    + intros t1 t2 th1 th2 i Hne [[-> ->] | [Hne1 Ht1]]%Hlook [[-> ->] | [Hne2 Ht2]]%Hlook; rewrite ?Hown; [done|by eapply (I2 t t2)|by eapply (I2 t1 t)|by eapply (I2 t1 t2)].
    + intros t1 t2 th1 th2 Hne [[-> ->] | [Hne1 Ht1]]%Hlook [[-> ->] | [Hne2 Ht2]]%Hlook; [done|exact (I3 t t2 th th2 Hne Ht Ht2)|exact (I3 t1 t th1 th Hne Ht1 Ht)|by eapply (I3 t1 t2)].
    + intros t' th' idx' [[-> ->] | [Hne Ht']]%Hlook Hi.
      * injection Hi as <-. eapply chain_frame; [exact (I4 t th idx Ht Hio)|done..].
      * eapply chain_frame; [exact (I4 t' th' idx' Ht' Hi)|done..].
    + intros t' th' idx' [[-> ->] | [Hne Ht']]%Hlook Hpc'; [done|]. exfalso. destruct (I5 t' th' idx' Ht' Hpc') as [Hl' _]. congruence.
    + intros t' th' idx' [[-> ->] | [Hne Ht']]%Hlook Hpc'.
      * injection Hpc' as <-. rewrite decide_True; [exact F3|]. rewrite Hperm. by left.
      * change (b_disk (rw_publish (mem s))) with (b_disk (mem s)). rewrite (I6 t' th' idx' Ht' Hpc'). apply decide_ext. rewrite Hperm, elem_of_cons.
        split; [by right|]. intros [E|]; [|done]. by eapply Hd in E.
    + intros h Hh. rewrite Hperm in Hh. apply elem_of_cons in Hh as [->|Hh].
      * exists t, (at_pc (Wait idx) th), idx. by rewrite lookup_insert_eq.
      * destruct (I7 h Hh) as (t' & th' & idx' & Ht' & Hpc' & Eh). exists t', th', idx'. split; [|done]. rewrite lookup_insert_ne; [done|]. intros <-. congruence.
    + rewrite Hperm. by apply NoDup_cons.
    + destruct I11 as [A1 A2]. split.
      * cbn. rewrite A1, counter_next, length_app. cbn. f_equal. lia.
      * cbn. intros k h Hk. apply lookup_app_Some in Hk as [Hk|[Hk Hx]]; [by apply A2|]. apply list_lookup_singleton_Some in Hx as [Hx <-].
        rewrite <-F2, A1. f_equal. rewrite <-(Z.add_0_r ((_ + _) mod _)), slot_mod. f_equal. lia.
  - destruct R as [R1 R2 R3 R4]. split; try done. intros t'. rewrite R4. cbn [thr s']. destruct (decide (t = t')) as [<-|Hne].
    + rewrite lookup_insert_eq, Ht. cbn. f_equal. unfold made. rewrite Hpc. cbn. symmetry. f_equal. apply bool_decide_eq_false_2.
      rewrite !elem_of_app. intros H0. apply H0. left. right. by left.
    + rewrite lookup_insert_ne by done. destruct (thr s !! t') as [th'|] eqn:Ht'; [|done]. cbn. do 2 f_equal. unfold made.
      destruct (t_pc th') as [|idx'|idx'] eqn:Hpc'; [done|done|]. apply bool_decide_ext. cbn [dev s'].
      pose proof (Hd t' th' idx' (not_eq_sym Hne) Ht' Hpc') as Hx. clear -Hx. set_solver.
Qed.

(** *** The return *)
Lemma finish_ok v idx b w :
  chain v idx b w → NoDup (descs idx) → (∀ i, i ∈ descs idx → (i < NUM)%nat ∧ v_free v i = false) →
  ∃ v', rw_finish (head_of idx) v = Some v' ∧ rest v' = rest (set_info_b (head_of idx) None v) ∧
    (∀ i, i ∉ descs idx → v_desc v' i = v_desc v i ∧ v_free v' i = v_free v i).
Proof.
  intros [C0 C1 C2 C3 C4] Hnd Hi. destruct idx as [[i0 i1] i2]. unfold descs in *. cbn [fst snd] in *.
  destruct (Hi i0) as [N0 L0]; [by left|]. destruct (Hi i1) as [N1 L1]; [right; by left|]. destruct (Hi i2) as [N2 L2]; [do 2 right; by left|].
  apply NoDup_cons in Hnd as [H0 [H1 _]%NoDup_cons]. rewrite !not_elem_of_cons in H0. rewrite !not_elem_of_cons in H1.
  destruct H0 as (Ha & Hb & _), H1 as (Hc & _).
  unfold rw_finish. change (S NUM) with 9%nat. cbn [free_chain]. change (v_desc (set_info_b i0 None v)) with (v_desc v). rewrite C0.
  rewrite free_desc_ok by done. cbn [mbind option_bind d_flags d_next]. change (Z.land VRING_DESC_F_NEXT VRING_DESC_F_NEXT =? 0) with false. cbn iota.
  assert (G1 : v_desc (set_free i0 true (set_desc i0 zero_desc (set_info_b i0 None v))) i1 = v_desc v i1) by (cbn; by rewrite fn_lookup_insert_ne).
  rewrite G1, C1. rewrite free_desc_ok; [|done|rewrite set_free_lookup, decide_False by congruence; exact L1]. cbn [mbind option_bind d_flags d_next].
  assert (G2 : (Z.land (Z.lor (if w then 0 else VRING_DESC_F_WRITE) VRING_DESC_F_NEXT) VRING_DESC_F_NEXT =? 0) = false) by (by destruct w).
  rewrite G2. set (v1 := set_free i1 true _).
  assert (G3 : v_desc v1 i2 = v_desc v i2) by (unfold v1; cbn; by rewrite !fn_lookup_insert_ne). rewrite G3, C2.
  rewrite free_desc_ok; [|done|unfold v1; cbn; by rewrite !fn_lookup_insert_ne]. cbn [mbind option_bind d_flags].
  change (Z.land VRING_DESC_F_WRITE VRING_DESC_F_NEXT =? 0) with true. cbn iota. eexists. split; [done|]. split; [done|].
  intros i Hni. rewrite !not_elem_of_cons in Hni. destruct Hni as (Na & Nb & Nc & _).
  cbn. split; by rewrite !fn_lookup_insert_ne.
Qed.

Lemma return_step s q1 q3 a t th idx v :
  inv s q1 q3 → refines s q1 a → thr s !! t = Some th → t_pc th = Wait idx → b_disk (mem s) (t_buf th) ≠ 1 → lock s = Some (HThread t) ∨ lock s = None →
  rest v = rest (set_info_b (head_of idx) None (mem s)) →
  (∀ i, i ∉ descs idx → v_desc v i = v_desc (mem s) i ∧ v_free v i = v_free (mem s) i) →
  let s' := {| mem := v; dev := dev s; thr := delete t (thr s); lock := None |} in
  ∃ a', astep a [Return t] a' ∧ inv s' q1 q3 ∧ refines s' q1 a'.
Proof.
  intros I R Ht Hpc Hb Hlk Hr Hv s'. apply rest_eq in Hr as (E1 & E2 & E3 & E4 & E5 & E6 & E7 & E8 & E9 & E10 & E11).
  cbn [set_info_b v_avail_idx v_avail v_used_idx v_used v_seen v_info_b v_status v_ops b_disk b_bytes b_number] in *.
  pose proof I as [I1 I2 I3 I4 I5 I6 I7 I8 I9 I10 I11 I12 I13 I14]. pose proof (idx_wait _ _ Hpc) as Hio.
  assert (Hnq : head_of idx ∉ inflight q1 s q3) by (intros Hh; apply Hb; rewrite (I6 t th idx Ht Hpc); by rewrite decide_True).
  assert (Hlook : ∀ t' th', delete t (thr s) !! t' = Some th' → t' ≠ t ∧ thr s !! t' = Some th') by (intros t' th'; rewrite lookup_delete_Some; naive_solver).
  assert (Hout : ∀ t' th' i, t' ≠ t → thr s !! t' = Some th' → i ∈ owned_by th' → i ∉ descs idx).
  { intros t' th' i Hne Ht' Hi. rewrite <-(owned_descs th idx Hio). by eapply (I2 t' t). }
  eexists. split; [|split].
  - apply (as_return a t (t_buf th) (t_write th)). rewrite (rf_req _ _ _ R), Ht. cbn. do 2 f_equal. unfold made. rewrite Hpc.
    apply bool_decide_eq_true_2. intros Hh. apply Hnq. apply elem_of_app in Hh as [Hh|Hh]; rewrite !elem_of_app; auto.
  - split; cbn [mem dev thr lock s']; rewrite ?E1, ?E2, ?E3, ?E4, ?E5, ?E7, ?E9, ?E10; try done.
    + intros t' th' [Hne Ht']%Hlook. destruct (I1 t' th' Ht') as [O1 O2]. split; [done|]. intros i Hi. destruct (O2 i Hi) as [O3 O4]. split; [done|].
      rewrite (proj2 (Hv i (Hout t' th' i Hne Ht' Hi))). done.
    + intros t1 t2 th1 th2 i Hne [_ Ht1]%Hlook [_ Ht2]%Hlook. by eapply (I2 t1 t2).
    + intros t1 t2 th1 th2 Hne [_ Ht1]%Hlook [_ Ht2]%Hlook. by eapply (I3 t1 t2).
    + intros t' th' idx' [Hne Ht']%Hlook Hi. eapply chain_frame; [exact (I4 t' th' idx' Ht' Hi)|..].
      * intros i Hd. apply Hv. eapply Hout; [exact Hne|exact Ht'|]. by rewrite (owned_descs th' idx' Hi).
      * by rewrite E8.
      * rewrite E6. rewrite fn_lookup_insert_ne; [done|]. intros E. symmetry in E. revert E. by eapply (other_head s q1 q3 t t').
      * by rewrite E11.
    + intros t' th' idx' [Hne Ht']%Hlook Hpc'. exfalso. destruct (I5 t' th' idx' Ht' Hpc') as [Hl' _]. destruct Hlk as [Hlk|Hlk]; rewrite Hlk in Hl'; [|done]. by injection Hl' as ->.
    + intros t' th' idx' [Hne Ht']%Hlook Hpc'. by apply (I6 t').
    + intros h Hh. destruct (I7 h Hh) as (t' & th' & idx' & Ht' & Hpc' & Eh). exists t', th', idx'. split; [|done].
      apply lookup_delete_Some. split; [|done]. intros <-. assert (idx' = idx) as -> by congruence. by rewrite Eh in Hnq.
  - destruct R as [R1 R2 R3 R4]. split; cbn [mem dev thr lock s' set_req a_disk a_bytes a_number a_req]; rewrite ?E10, ?E11; try done.
    intros t'. destruct (decide (t = t')) as [<-|Hne]; [by rewrite !lookup_delete_eq|]. by rewrite !lookup_delete_ne.
Qed.

Lemma relock s q1 q3 a l :
  inv s q1 q3 → refines s q1 a → (∀ t th idx, thr s !! t = Some th → t_pc th = Filled idx → l = Some (HThread t)) →
  let s' := {| mem := mem s; dev := dev s; thr := thr s; lock := l |} in inv s' q1 q3 ∧ refines s' q1 a.
Proof.
  intros [I1 I2 I3 I4 I5 I6 I7 I8 I9 I10 I11 I12 I13 I14] [R1 R2 R3 R4] Hl s'. split; split; try done.
  intros t th idx Ht Hpc. split; [by eapply Hl|]. by apply (I5 t th idx Ht Hpc).
Qed.

(** *** The interrupt handler *)
Lemma intr_turn_step s q1 q3 a :
  inv s q1 q3 → refines s q1 a → lock s = Some HIntr →
  ∃ s' q3', intr_again s = Some s' ∧ inv s' q1 q3' ∧ refines s' q1 a.
Proof.
  intros I R Hl. unfold intr_again, intr_turn. pose proof I as [I1 I2 I3 I4 I5 I6 I7 I8 I9 I10 I11 I12 I13 I14].
  assert (Hnf : ∀ t th idx, thr s !! t = Some th → t_pc th ≠ Filled idx).
  { intros t th idx Ht Hpc. destruct (I5 t th idx Ht Hpc) as [Hl' _]. congruence. }
  destruct (v_seen (mem s) =? v_used_idx (mem s)) eqn:E.
  { eexists _, q3. split; [done|]. apply (relock s q1 q3 a None I R). intros t th idx Ht Hpc. by destruct (Hnf t th idx Ht). }
  apply Z.eqb_neq in E. destruct I12 as [U1 U2]. destruct q3 as [|h q3].
  { exfalso. apply E. rewrite U1. cbn. by rewrite Z.add_0_r, Z.mod_small. }
  apply ring_pop in U2 as [U2 U3]. rewrite U2. assert (Hin : h ∈ inflight q1 s (h :: q3)) by (rewrite !elem_of_app; right; right; by left).
  destruct (queue_head s q1 (h :: q3) I h Hin) as [Hh _]. rewrite (proj2 (Nat.leb_gt _ _)) by done. rewrite I13 by (by left). cbn [Z.eqb negb].
  destruct (queue_thread s q1 (h :: q3) I h Hin) as (t & th & idx & Ht & Hpc & Eh & C). rewrite <-Eh, (ch_info _ _ _ _ C). cbn [mbind option_bind].
  assert (Hperm : inflight q1 s (h :: q3) ≡ₚ h :: inflight q1 s q3) by (rewrite !app_assoc; symmetry; apply Permutation_middle).
  rewrite Hperm in I8. apply NoDup_cons in I8 as [N1 N2].
  eexists _, q3. split; [done|]. split; [|by destruct R].
  split; cbn [mem dev thr lock set_seen set_b_disk v_desc v_avail_idx v_avail v_used_idx v_used v_free v_seen v_info_b v_status v_ops b_disk b_bytes b_number]; try done.
  - intros t' th' idx' Ht' Hi. eapply chain_frame; [exact (I4 t' th' idx' Ht' Hi)|done..].
  - intros t' th' idx' Ht' Hpc'. by destruct (Hnf t' th' idx' Ht').
  - intros t' th' idx' Ht' Hpc'. destruct (decide (t' = t)) as [->|Hne].
    + assert (th' = th) as -> by congruence. assert (idx' = idx) as -> by congruence. rewrite fn_lookup_insert, decide_False; [done|]. by rewrite Eh.
    + rewrite fn_lookup_insert_ne by (by eapply (I3 t t')). rewrite (I6 t' th' idx' Ht' Hpc'). apply decide_ext. rewrite Hperm, elem_of_cons.
      split; [|by right]. intros [Ec|]; [|done]. exfalso. revert Ec. rewrite <-Eh.
      exact (other_head s q1 (h :: q3) t t' th th' idx idx' I Hne Ht Ht' (idx_wait _ _ Hpc) (idx_wait _ _ Hpc')).
  - intros h' Hh'. apply I7. rewrite Hperm. by right.
  - apply Z.mod_pos_bound. lia.
  - split; [|done]. rewrite U1, counter_next. f_equal. cbn. lia.
  - intros h' Hh'. apply I13. by right.
Qed.

(** *** The disk *)
Lemma take_step s q1 q3 a d :
  inv s q1 q3 → refines s q1 a → next (dev s) ≠ v_avail_idx (mem s) → next d = (next (dev s) + 1) mod 2 ^ 16 →
  taken d ≡ₚ v_avail (mem s) (slot (next (dev s))) :: taken (dev s) → (∀ x, image d x = image (dev s) x) →
  let s' := {| mem := mem s; dev := d; thr := thr s; lock := lock s |} in
  ∃ q1', inv s' q1' q3 ∧ refines s' q1' a.
Proof.
  intros I R Hne En Et Ei s'. pose proof I as [I1 I2 I3 I4 I5 I6 I7 I8 I9 I10 I11 I12 I13 I14]. destruct I11 as [A1 A2].
  destruct q1 as [|h q1].
  { exfalso. apply Hne. rewrite A1. cbn. by rewrite Z.add_0_r, Z.mod_small. }
  apply ring_pop in A2 as [A2 A3]. rewrite A2 in Et.
  assert (Hp1 : q1 ++ taken d ≡ₚ (h :: q1) ++ taken (dev s)) by (rewrite Et; symmetry; apply Permutation_middle).
  assert (Hp : q1 ++ taken d ++ q3 ≡ₚ (h :: q1) ++ taken (dev s) ++ q3) by (rewrite !app_assoc; by rewrite Hp1).
  exists q1. split.
  - split; cbn [mem dev thr lock s']; try done.
    + intros t th idx Ht Hpc. rewrite (I6 t th idx Ht Hpc). apply decide_ext. by rewrite Hp.
    + intros x Hx. apply I7. by rewrite <-Hp.
    + by rewrite Hp.
    + rewrite En. apply Z.mod_pos_bound. lia.
    + rewrite En. split; [|done]. rewrite A1, counter_next. f_equal. cbn. lia.
  - destruct R as [R1 R2 R3 R4]. split; cbn [mem dev thr lock s']; try done.
    + intros n. rewrite R1. unfold disk_block, get_sectors. f_equal. apply list_fmap_ext. intros k x _. by rewrite Ei.
    + intros t. rewrite R4. destruct (thr s !! t) as [th|]; [|done]. cbn. do 2 f_equal. unfold made. destruct (t_pc th); [done..|].
      apply bool_decide_ext. cbn [dev s']. by rewrite Hp1.
Qed.

(** The sectors of a block. *)
Lemma get_block n img : get_sectors (n * 2) 2 img = img (n * 2) ++ img (n * 2 + 1).
Proof. unfold get_sectors. change (seqZ (n * 2) 2) with [0 + n * 2; 1 + n * 2]. cbn [fmap list_fmap concat]. rewrite app_nil_r, Z.add_0_l, (Z.add_comm 1). done. Qed.

Lemma get_put_block m n (data : block) img :
  length data = BSIZE → get_sectors (m * 2) 2 (put_sectors (n * 2) data img) = if decide (m = n) then data else get_sectors (m * 2) 2 img.
Proof.
  intros Hl. rewrite !get_block. unfold put_sectors. rewrite Hl. change (Z.of_nat BSIZE / 512) with 2. case_decide as E.
  - subst m. rewrite !bool_decide_eq_true_2 by lia. replace (Z.to_nat (n * 2 - n * 2)) with 0%nat by lia.
    replace (Z.to_nat (n * 2 + 1 - n * 2)) with 1%nat by lia. unfold slice. rewrite drop_0. change (512 * 1)%nat with 512%nat.
    rewrite (take_ge (drop 512 data)) by (rewrite length_drop, Hl; unfold BSIZE; lia). apply take_drop.
  - by rewrite !bool_decide_eq_false_2 by lia.
Qed.

(** A request of the driver is one that a disk can serve. *)
Lemma request_chain v idx b w :
  chain v idx b w → length (b_bytes v b) = BSIZE →
  request (head_of idx) v = Some (w, b_number v b * 2, b, head_of idx).
Proof.
  intros [C0 C1 C2 C3 C4] Hl. unfold request. rewrite C0. cbn [d_next]. rewrite C1. cbn [d_next]. rewrite C2. cbn [d_addr d_flags d_len]. rewrite C3, Hl.
  by destruct w.
Qed.

Lemma serve_chain v idx b w img :
  chain v idx b w → length (b_bytes v b) = BSIZE →
  serve (head_of idx) v img =
    Some (if w then (set_status (head_of idx) 0 v, put_sectors (b_number v b * 2) (b_bytes v b) img)
          else (set_status (head_of idx) 0 (set_b_bytes b (get_sectors (b_number v b * 2) 2 img) v), img)).
Proof.
  intros C Hl. unfold serve. rewrite (request_chain v idx b w C Hl). unfold sectors. rewrite Hl. by destruct w.
Qed.

Section Complete.
Context (s : sys D) (q1 q3 : list nat) (a : adisk) (h : nat) (d : D) (v1 : vdisk) (img : Z → list Z).
Context (I : inv s q1 q3) (R : refines s q1 a) (Et : taken (dev s) ≡ₚ h :: taken d) (Es : serve h (mem s) (image (dev s)) = Some (v1, img)).
Context (Ei : ∀ x, image d x = img x) (En : next d = next (dev s)).
Context (t : nat) (th : thread) (idx : idx3).
Context (Ht : thr s !! t = Some th) (Hpc : t_pc th = Wait idx) (Eh : head_of idx = h) (C : chain (mem s) idx (t_buf th) (t_write th)).
Abbreviation s' := {| mem := push_used h v1; dev := d; thr := thr s; lock := lock s |}.

Lemma complete_perm : q1 ++ taken d ++ (q3 ++ [h]) ≡ₚ inflight q1 s q3.
Proof using Et.
  rewrite Et. cbn. rewrite (app_assoc (taken d)). rewrite (Permutation_app_comm (taken d ++ q3)). done.
Qed.

Lemma serve_result :
  v1 = (if t_write th then set_status h 0 (mem s)
        else set_status h 0 (set_b_bytes (t_buf th) (get_sectors (b_number (mem s) (t_buf th) * 2) 2 (image (dev s))) (mem s))) ∧
  img = (if t_write th then put_sectors (b_number (mem s) (t_buf th) * 2) (b_bytes (mem s) (t_buf th)) (image (dev s)) else image (dev s)).
Proof using I Es C Eh.
  pose proof (serve_chain _ _ _ _ (image (dev s)) C (iv_bytes _ _ _ I _)) as E. rewrite Eh, Es in E. destruct (t_write th); injection E; auto.
Qed.

(** The fields that the disk leaves. *)
Lemma served_fields :
  v_desc v1 = v_desc (mem s) ∧ v_avail_idx v1 = v_avail_idx (mem s) ∧ v_avail v1 = v_avail (mem s) ∧ v_used_idx v1 = v_used_idx (mem s) ∧
  v_used v1 = v_used (mem s) ∧ v_free v1 = v_free (mem s) ∧ v_seen v1 = v_seen (mem s) ∧ v_info_b v1 = v_info_b (mem s) ∧
  v_status v1 = <[h := 0]> (v_status (mem s)) ∧ v_ops v1 = v_ops (mem s) ∧ b_disk v1 = b_disk (mem s) ∧ b_number v1 = b_number (mem s).
Proof using I Es C Eh. destruct serve_result as [-> _]. by destruct (t_write th). Qed.

Lemma served_length b : length (b_bytes v1 b) = BSIZE.
Proof using I Es C Eh.
  destruct serve_result as [-> _]. destruct (t_write th); cbn; [apply I|]. destruct (decide (b = t_buf th)) as [->|Hb].
  - rewrite fn_lookup_insert, get_block, length_app, !sector_length. done.
  - rewrite fn_lookup_insert_ne by done. apply I.
Qed.

Lemma complete_inv : inv s' q1 (q3 ++ [h]).
Proof using I Et Es En C Eh Ht Hpc.
  destruct served_fields as (E1 & E2 & E3 & E4 & E5 & E6 & E7 & E8 & E9 & E10 & E11 & E12).
  pose proof (queue_length s q1 q3 I) as Hql. rewrite !length_app, Et in Hql. cbn [length] in Hql.
  pose proof I as [I1 I2 I3 I4 I5 I6 I7 I8 I9 I10 I11 I12 I13 I14]. pose proof complete_perm as Hp. destruct I12 as [U1 U2].
  split; cbn [mem dev thr lock push_used set_used v_desc v_avail_idx v_avail v_used_idx v_used v_free v_seen v_info_b v_status v_ops b_disk b_bytes b_number];
    rewrite ?E2, ?E3, ?E4, ?E5, ?E6, ?E7, ?E9, ?E11, ?En; try done.
  - intros t' th' idx' Ht' Hi. eapply chain_frame; [exact (I4 t' th' idx' Ht' Hi)|..]; cbn; [by rewrite E1|by rewrite E10|by rewrite E8|by rewrite E12].
  - intros t' th' idx' Ht' Hpc'. rewrite (I6 t' th' idx' Ht' Hpc'). apply decide_ext. by rewrite Hp.
  - intros x Hx. apply I7. by rewrite <-Hp.
  - by rewrite Hp.
  - split.
    + rewrite U1, counter_next, length_app. cbn. f_equal. lia.
    + rewrite U1. replace (slot _) with (slot (v_seen (mem s) + Z.of_nat (length q3))); [apply ring_push; [done|lia]|].
      rewrite <-(Z.add_0_r ((_ + _) mod _)), slot_mod. by rewrite Z.add_0_r.
  - intros x [Hx|Hx%list_elem_of_singleton]%elem_of_app; [|subst x; apply fn_lookup_insert].
    destruct (decide (x = h)) as [->|Hxh]; [by rewrite fn_lookup_insert|]. rewrite fn_lookup_insert_ne by done. by apply I13.
  - apply served_length.
Qed.

Lemma complete_refines :
  refines s' q1 (set_req (<[t := (t_buf th, t_write th, true)]> (a_req a)) (transfer (t_buf th) (t_write th) a)).
Proof using I R Et Es Ei C Eh Ht Hpc.
  destruct served_fields as (_ & _ & _ & _ & _ & _ & _ & _ & _ & _ & _ & E12). destruct serve_result as [Ev Eg].
  pose proof (iv_nodup _ _ _ I) as Hnd. rewrite <-complete_perm in Hnd. rewrite !app_assoc in Hnd. destruct R as [R1 R2 R3 R4]. split; cbn.
  - intros n. unfold disk_block. replace (get_sectors (n * 2) 2 (image d)) with (get_sectors (n * 2) 2 img) by (rewrite !get_block; by rewrite !Ei).
    rewrite Eg. destruct (t_write th); cbn; [|apply R1]. rewrite get_put_block by apply I. rewrite R3, R2.
    case_decide as E; [subst; by rewrite fn_lookup_insert|]. rewrite fn_lookup_insert_ne by done. apply R1.
  - intros b. rewrite Ev. destruct (t_write th); cbn; [apply R2|]. destruct (decide (b = t_buf th)) as [->|Hb].
    + rewrite !fn_lookup_insert, R1, R3. done.
    + rewrite !fn_lookup_insert_ne by done. apply R2.
  - intros b. rewrite E12. destruct (t_write th); cbn; apply R3.
  - intros t'. destruct (decide (t = t')) as [<-|Hne].
    + rewrite lookup_insert_eq, Ht. cbn. do 2 f_equal. unfold made. rewrite Hpc. symmetry. apply bool_decide_eq_true_2. cbn [dev]. rewrite Eh.
      apply NoDup_app in Hnd as (_ & Hnd & _). intros Hx. apply (Hnd h); [|by left]. rewrite elem_of_app. by left.
    + rewrite lookup_insert_ne, R4 by done. destruct (thr s !! t') as [th'|] eqn:Ht'; [|done]. cbn. do 2 f_equal. unfold made.
      destruct (t_pc th') as [|idx'|idx'] eqn:Hpc'; [done..|]. apply bool_decide_ext. cbn [dev].
      assert (Hx : head_of idx' ≠ h).
      { rewrite <-Eh. exact (other_head s q1 q3 t t' th th' idx idx' I (not_eq_sym Hne) Ht Ht' (idx_wait _ _ Hpc) (idx_wait _ _ Hpc')). }
      rewrite Et. clear -Hx. set_solver.
Qed.
End Complete.

Lemma device_step s q1 q3 a v d :
  inv s q1 q3 → refines s q1 a → dev_step (mem s) (dev s) false v d →
  let s' := {| mem := v; dev := d; thr := thr s; lock := lock s |} in ∃ a', aruns a [] a' ∧ related s' a'.
Proof.
  intros I R Hs s'. apply dev_law in Hs. remember false as e eqn:He.
  destruct Hs as [d Hne En Et Ei|h v1 img d Et Es Ei En|h w s0 b j x st d Et Eq Hst Hx Ei En|h v d Hh Es]; [| |done|].
  - destruct (take_step s q1 q3 a d I R Hne En Et Ei) as (q1' & I' & R'). exists a. split; [constructor|]. by exists q1', q3.
  - assert (Hin : h ∈ inflight q1 s q3) by (rewrite !elem_of_app, Et; right; left; by left).
    destruct (queue_thread s q1 q3 I h Hin) as (t & th & idx & Ht & Hpc & Eh & C). eexists. split.
    + apply aruns_once, (as_transfer a t (t_buf th) (t_write th)). rewrite (rf_req _ _ _ R), Ht. cbn. do 2 f_equal. unfold made. rewrite Hpc.
      apply bool_decide_eq_false_2. intros H0. apply H0. rewrite Eh, elem_of_app, Et. right. by left.
    + exists q1, (q3 ++ [h]). split; [by eapply complete_inv|by eapply complete_refines].
  - exfalso. assert (Hin : h ∈ inflight q1 s q3) by (rewrite !elem_of_app; auto).
    destruct (queue_thread s q1 q3 I h Hin) as (t & th & idx & Ht & Hpc & Eh & C).
    pose proof (serve_chain _ _ _ _ (image (dev s)) C (iv_bytes _ _ _ I _)) as E. by rewrite Eh, Es in E.
Qed.

Lemma not_returned t (s' : sys D) : is_Some (thr s' !! t) → returned t (Some s') = [].
Proof. intros [th E]. unfold returned. by rewrite decide_False by (rewrite E; done). Qed.

Lemma enter_step s q1 q3 a t th :
  inv s q1 q3 → refines s q1 a → lock s = None → thr s !! t = Some th → t_pc th = Enter →
  ∃ s', rw_enter t th s = Some s' ∧ returned t (Some s') = [] ∧ related s' a.
Proof.
  intros I R Hl Ht Hpc. unfold rw_enter. destruct (alloc3_ok (mem s)) as [(i0 & i1 & i2 & v & E & Hnd & Hi & B)|(v & E & B)]; rewrite E; cbn [mbind option_bind].
  - eexists. split; [done|]. split; [apply not_returned; cbn [thr]; rewrite lookup_insert_eq; by eexists|]. exists q1, q3. by eapply enter_fills.
  - eexists. split; [done|]. split; [apply not_returned; by eexists|]. exists q1, q3. by eapply enter_sleeps.
Qed.

Lemma check_step s q1 q3 a t th i0 i1 i2 :
  inv s q1 q3 → refines s q1 a → thr s !! t = Some th → t_pc th = Wait (i0, i1, i2) → lock s = Some (HThread t) ∨ lock s = None →
  ∃ s' a', rw_again t th i0 s = Some s' ∧ aruns a (returned t (Some s')) a' ∧ related s' a'.
Proof.
  intros I R Ht Hpc Hl. unfold rw_again, rw_check. destruct (b_disk (mem s) (t_buf th) =? 1) eqn:E; cbn [mbind option_bind].
  - eexists _, a. split; [done|]. split; [rewrite not_returned by (by eexists); constructor|]. exists q1, q3. apply relock; [done|done|]. intros t' th' idx Ht' Hpc'.
    destruct (iv_filled _ _ _ I t' th' idx Ht' Hpc') as [Hl' _]. destruct Hl as [Hl|Hl]; [|congruence].
    assert (t' = t) as -> by congruence. assert (th' = th) as -> by congruence. by rewrite Hpc in Hpc'.
  - apply Z.eqb_neq in E. pose proof (idx_wait _ _ Hpc) as Hi. destruct (iv_own _ _ _ I t th Ht) as [O1 O2]. rewrite (owned_descs _ _ Hi) in O1, O2.
    destruct (finish_ok (mem s) (i0, i1, i2) (t_buf th) (t_write th) (iv_chain _ _ _ I t th _ Ht Hi) O1 O2) as (v & Ev & Hr & Hv). cbn [fst] in Ev. rewrite Ev.
    cbn [mbind option_bind]. destruct (return_step s q1 q3 a t th (i0, i1, i2) v I R Ht Hpc E Hl Hr Hv) as (a' & Ha & I' & R').
    eexists _, a'. split; [done|]. split; [|by exists q1, q3]. unfold returned. cbn [thr].
    rewrite decide_True by apply lookup_delete_eq. by apply aruns_once.
Qed.

(** Every step of the driver and the disk that is not an error of the disk is a step of the atomic disk that looks the same, or
    none; it is not a panic. *)
Lemma driver_step s a ev r :
  related s a → step s ev r → DiskError ∉ ev → ∃ s' a', r = Some s' ∧ aruns a ev a' ∧ related s' a'.
Proof.
  intros (q1 & q3 & I & R) Hs He. destruct Hs as [b x n Hb Hx|t b w Ht Hb|t th Hl Ht Hpc|t th idx Ht Hpc Hl|t th i0 i1 i2 Ht Hpc Hl|Hl|Hl|e v d Hs].
  - destruct (client_step s q1 q3 a b x n I R Hb Hx) as (a' & Ha & I' & R'). eexists _, a'. split; [done|]. split; [by apply aruns_once|]. by exists q1, q3.
  - destruct (call_step s q1 q3 a t b w I R Ht Hb) as (a' & Ha & I' & R'). eexists _, a'. split; [done|]. split; [by apply aruns_once|]. by exists q1, q3.
  - destruct (enter_step s q1 q3 a t th I R Hl Ht Hpc) as (s' & E & Ev & Hr). exists s', a. rewrite E, Ev. split; [done|]. split; [constructor|done].
  - eexists _, a. split; [done|]. split; [constructor|]. eexists _, q3. by apply publish_step.
  - destruct (check_step s q1 q3 a t th i0 i1 i2 I R Ht Hpc Hl) as (s' & a' & E & Ha & Hr). exists s', a'. by rewrite E.
  - eexists _, a. split; [done|]. split; [constructor|]. exists q1, q3. apply relock; [done|done|]. intros t th idx Ht Hpc.
    destruct (iv_filled _ _ _ I t th idx Ht Hpc) as [Hl' _]. congruence.
  - destruct (intr_turn_step s q1 q3 a I R Hl) as (s' & q3' & E & I' & R'). exists s', a. split; [done|]. split; [constructor|]. by exists q1, q3'.
  - destruct e; [exfalso; apply He; by left|].
    destruct (device_step s q1 q3 a v d I R Hs) as (a' & Ha & Hr). by exists {| mem := v; dev := d; thr := thr s; lock := lock s |}, a'.
Qed.

(** The atomic disk at the start. *)
Definition atomic_start (s : sys D) : adisk :=
  {| a_disk := disk_block (dev s); a_bytes := b_bytes (mem s); a_number := b_number (mem s); a_req := ∅ |}.

Lemma initial_related s : initial s → related s (atomic_start s).
Proof.
  intros (bytes & Em & Hb & Et & El & En & Etk). exists [], []. split; [|by split; rewrite ?Et].
  split; rewrite ?Et, ?En, ?Etk, ?Em; try done; try (by intros; rewrite lookup_empty in *); try (by intros h Hh; apply elem_of_nil in Hh).
  apply NoDup_nil_2.
Qed.

End Refinement.

(** ** Initialisation *)

(** The features that the driver accepts are those offered but the eight it cannot use. *)
Lemma clear_features_bit f k :
  0 ≤ k → Z.testbit (clear_features f) k = Z.testbit f k && negb (bool_decide (k ∈ [5; 7; 9; 11; 12; 27; 29; 28])).
Proof.
  intros Hk. unfold clear_features, VIRTIO_BLK_F_RO, VIRTIO_BLK_F_SCSI, VIRTIO_BLK_F_FLUSH, VIRTIO_BLK_F_CONFIG_WCE, VIRTIO_BLK_F_MQ,
    VIRTIO_F_ANY_LAYOUT, VIRTIO_RING_F_EVENT_IDX, VIRTIO_RING_F_INDIRECT_DESC.
  assert (H : ∀ l g, Z.testbit (foldl (λ f k, Z.land f (Z.lnot (Z.shiftl 1 k))) g l) k = Z.testbit g k && negb (bool_decide (k ∈ l)) ∨ ¬ Forall (λ j, 0 ≤ j) l).
  { induction l as [|j l IH]; intros g; [left; cbn; by rewrite andb_true_r|]. cbn [foldl].
    destruct (decide (Forall (λ j, 0 ≤ j) (j :: l))) as [[Hj Hl]%Forall_cons|]; [left|by right].
    destruct (IH (Z.land g (Z.lnot (Z.shiftl 1 j)))) as [E|]; [|done]. rewrite E, Z.land_spec, Z.lnot_spec by done.
    rewrite Z.shiftl_1_l, Z.pow2_bits_eqb by done. rewrite <-andb_assoc. f_equal. rewrite Z.eqb_sym.
    destruct (k =? j) eqn:Ekj; [apply Z.eqb_eq in Ekj|apply Z.eqb_neq in Ekj]; cbn [negb andb].
    - subst. symmetry. rewrite bool_decide_eq_true_2; [done|by left].
    - f_equal. apply bool_decide_ext. rewrite elem_of_cons. naive_solver. }
  destruct (H [5; 7; 9; 11; 12; 27; 29; 28] f) as [E|E]; [exact E|]. exfalso. apply E. repeat constructor; lia.
Qed.

Lemma rd_run reg r w : rd reg r w = (Ret (reg w r), w).
Proof. done. Qed.
Lemma check_run b msg w : b = false → check b msg w = (Ret (), w).
Proof. by intros ->. Qed.

(** On a disk that answers as it should, initialisation ends with the queue ready and the driver running. *)
Lemma virtio_disk_init_ok reg desc avail used st :
  (∀ w, reg w VIRTIO_MMIO_MAGIC_VALUE = 0x74726976) → (∀ w, reg w VIRTIO_MMIO_VERSION = 2) → (∀ w, reg w VIRTIO_MMIO_DEVICE_ID = 2) →
  (∀ w, reg w VIRTIO_MMIO_VENDOR_ID = 0x554d4551) → (∀ w, reg w VIRTIO_MMIO_STATUS = st) → Z.testbit st 3 = true →
  (∀ w, reg w VIRTIO_MMIO_QUEUE_READY = 0) → (∀ w, Z.of_nat NUM ≤ reg w VIRTIO_MMIO_QUEUE_NUM_MAX) → desc ≠ 0 → avail ≠ 0 → used ≠ 0 →
  ∃ w, virtio_disk_init reg desc avail used [] =
    (Ret (), w ++ [(VIRTIO_MMIO_QUEUE_READY, 1); (VIRTIO_MMIO_STATUS, u32 (Z.lor st VIRTIO_CONFIG_S_DRIVER_OK))]).
Proof.
  intros H1 H2 H3 H4 H5 Hst H6 H7 Hd Ha Hu.
  assert (Hf : (Z.land st VIRTIO_CONFIG_S_FEATURES_OK =? 0) = false).
  { apply Z.eqb_neq. intros E. apply (f_equal (λ z, Z.testbit z 3)) in E. rewrite Z.land_spec, Hst in E. done. }
  assert (Hmax : ∀ w, (reg w VIRTIO_MMIO_QUEUE_NUM_MAX =? 0) = false ∧ (reg w VIRTIO_MMIO_QUEUE_NUM_MAX <? Z.of_nat NUM) = false).
  { intros w. specialize (H7 w). unfold NUM in *. split; [apply Z.eqb_neq|apply Z.ltb_ge]; lia. }
  unfold virtio_disk_init.
  do 4 (erewrite bind_run; [|apply rd_run]; cbv beta). rewrite H1, H2, H3, H4.
  erewrite bind_run; [|by apply check_run]. cbv beta zeta. do 3 (erewrite bind_run; [|reflexivity]; cbv beta).
  erewrite bind_run; [|apply rd_run]. cbv beta. do 2 (erewrite bind_run; [|reflexivity]; cbv beta).
  erewrite bind_run; [|apply rd_run]. cbv beta. rewrite H5. erewrite bind_run; [|by apply check_run]. cbv beta.
  erewrite bind_run; [|reflexivity]. cbv beta. erewrite bind_run; [|apply rd_run]. cbv beta. rewrite H6.
  erewrite bind_run; [|by apply check_run]. cbv beta. erewrite bind_run; [|apply rd_run]. cbv beta.
  erewrite bind_run; [|apply check_run, Hmax]. cbv beta. erewrite bind_run; [|apply check_run, Hmax]. cbv beta.
  erewrite bind_run; [|apply check_run; by rewrite (proj2 (Z.eqb_neq desc 0)), (proj2 (Z.eqb_neq avail 0)), (proj2 (Z.eqb_neq used 0)) by done]. cbv beta.
  do 8 (erewrite bind_run; [|reflexivity]; cbv beta). eexists. unfold wr, modify. rewrite <-app_assoc. reflexivity.
Qed.
