(* ===== verification/VirtioRun.v ===== *)
(** * A run of the disk driver

    A disk that takes a request when there is one and completes the oldest
    otherwise, with success or with an error, a program for runs of
    [Virtio.step], two requests at once, and a request that fails. *)

From S2P Require Export VirtioSpec.

#[local] Set Warnings "-clear-no-such-hyp".
#[local] Set Default Proof Using "Type".
Local Open Scope Z_scope.

(** ** A disk *)
Record sdev := { sd_img : Z → list Z; sd_next : Z; sd_taken : list nat }.

Definition full_sector (l : list Z) : list Z := take 512 (l ++ replicate 512 0).
Definition sd_image (d : sdev) (x : Z) : list Z := full_sector (sd_img d x).

Definition sd_act (v : vdisk) (d : sdev) : option (vdisk * sdev) :=
  if negb (sd_next d =? v_avail_idx v) then
    Some (v, {| sd_img := sd_img d; sd_next := (sd_next d + 1) mod 2 ^ 16; sd_taken := sd_taken d ++ [v_avail v (slot (sd_next d))] |})
  else
    match sd_taken d with
    | [] => None
    | h :: l => '(v1, img) ← serve h v (sd_image d); Some (push_used h v1, {| sd_img := img; sd_next := sd_next d; sd_taken := l |})
    end.

Lemma length_full_sector l : length (full_sector l) = 512%nat.
Proof. unfold full_sector. rewrite length_take, length_app, length_replicate. lia. Qed.

Lemma full_sector_id l : length l = 512%nat → full_sector l = l.
Proof. intros H. unfold full_sector. rewrite take_app_le by lia. by rewrite take_ge by lia. Qed.

Lemma put_sectors_length s data img x : (∀ x, length (img x) = 512%nat) → length (put_sectors s data img x) = 512%nat.
Proof.
  intros H. unfold put_sectors. case_bool_decide as E; [|done]. unfold slice. rewrite length_take, length_drop.
  assert (512 * (x - s) + 512 ≤ Z.of_nat (length data)); [|lia].
  pose proof (Z.mul_div_le (Z.of_nat (length data)) 512 ltac:(lia)). lia.
Qed.

(** The oldest request fails; nothing is transferred. *)
Definition sd_fail (v : vdisk) (d : sdev) : option (vdisk * sdev) :=
  match sd_taken d with
  | [] => None
  | h :: l =>
      '(w, s, b, j) ← request h v;
      Some (push_used h (set_status j 1 (if (w : bool) then v else set_b_bytes b (b_bytes v b) v)),
            {| sd_img := sd_img d; sd_next := sd_next d; sd_taken := l |})
  end.

Lemma serve_length h v img v1 img1 :
  (∀ x, length (img x) = 512%nat) → serve h v img = Some (v1, img1) → ∀ x, length (img1 x) = 512%nat.
Proof.
  intros H E x. unfold serve in E. repeat case_match; try done; injection E as <- <-; [by apply put_sectors_length|done].
Qed.

Lemma sd_law v d v' d' : sd_act v d = Some (v', d') → dev_may sd_image sd_next sd_taken v d false v' d'.
Proof.
  unfold sd_act. destruct (sd_next d =? v_avail_idx v) eqn:En; cbn [negb].
  - destruct (sd_taken d) as [|h l] eqn:Et; [done|]. intros ([v1 img] & Es & [= <- <-])%bind_Some. apply (dev_complete sd_image sd_next sd_taken v d h v1 img); cbn.
    + by rewrite Et.
    + done.
    + intros x. apply full_sector_id. eapply serve_length; [|exact Es]. intros y. apply length_full_sector.
    + done.
  - apply Z.eqb_neq in En. intros [= <- <-]. apply dev_take; [done|done| |done]. symmetry. apply Permutation_cons_append.
Qed.

Lemma sd_fail_law v d v' d' : sd_fail v d = Some (v', d') → dev_may sd_image sd_next sd_taken v d true v' d'.
Proof.
  unfold sd_fail. destruct (sd_taken d) as [|h l] eqn:Et; [done|]. intros ([[[w s] b] j] & Eq & [= <- <-])%bind_Some.
  eapply (dev_error sd_image sd_next sd_taken v d h w s b j (b_bytes v b) 1); cbn; [by rewrite Et|done|by left|done|done|done].
Qed.

Definition sd_step (v : vdisk) (d : sdev) (e : bool) (v' : vdisk) (d' : sdev) : Prop :=
  (if e then sd_fail v d else sd_act v d) = Some (v', d').

Lemma sd_step_law v d e v' d' : sd_step v d e v' d' → dev_may sd_image sd_next sd_taken v d e v' d'.
Proof. destruct e; [apply sd_fail_law|apply sd_law]. Qed.

#[export] Instance sdev_device : BlockDevice sdev := {|
  image := sd_image;
  next := sd_next;
  taken := sd_taken;
  dev_step := sd_step;
  sector_length d x := length_full_sector (sd_img d x);
  dev_law := sd_step_law
|}.

(** ** Runs *)
Inductive op :=
  | OClient (b : nat) (x : block) (n : Z)
  | OCall (t b : nat) (w : bool)
  | OEnter (t : nat)
  | OPublish (t : nat)
  | OCheck (t : nat)
  | OIntr
  | OTurn
  | ODev
  | OFail.

Abbreviation S := (sys sdev).

Definition with_mem (v : vdisk) (s : S) : S := {| mem := v; dev := dev s; thr := thr s; lock := lock s |}.

Definition play1 (o : op) (s : S) : option S :=
  match o with
  | OClient b x n =>
      if decide (map_Forall (λ _ th, t_buf th ≠ b) (thr s) ∧ length x = BSIZE) then Some (with_mem (set_b_number b n (set_b_bytes b x (mem s))) s) else None
  | OCall t b w =>
      if decide (thr s !! t = None ∧ map_Forall (λ _ th, t_buf th ≠ b) (thr s)) then
        Some {| mem := mem s; dev := dev s; thr := <[t := {| t_buf := b; t_write := w; t_pc := Enter |}]> (thr s); lock := lock s |}
      else None
  | OEnter t =>
      match lock s, thr s !! t with
      | None, Some th => match t_pc th with Enter => rw_enter t th s | _ => None end
      | _, _ => None
      end
  | OPublish t =>
      match lock s, thr s !! t with
      | Some (HThread t'), Some th =>
          match t_pc th with
          | Filled idx =>
              if decide (t' = t) then Some {| mem := rw_publish (mem s); dev := dev s; thr := <[t := at_pc (Wait idx) th]> (thr s); lock := lock s |} else None
          | _ => None
          end
      | _, _ => None
      end
  | OCheck t =>
      match thr s !! t with
      | Some th =>
          match t_pc th, lock s with
          | Wait (i0, _, _), None => rw_again t th i0 s
          | Wait (i0, _, _), Some (HThread t') => if decide (t' = t) then rw_again t th i0 s else None
          | _, _ => None
          end
      | None => None
      end
  | OIntr => match lock s with None => Some {| mem := mem s; dev := dev s; thr := thr s; lock := Some HIntr |} | Some _ => None end
  | OTurn => match lock s with Some HIntr => intr_again s | _ => None end
  | ODev => '(v, d) ← sd_act (mem s) (dev s); Some {| mem := v; dev := d; thr := thr s; lock := lock s |}
  | OFail => '(v, d) ← sd_fail (mem s) (dev s); Some {| mem := v; dev := d; thr := thr s; lock := lock s |}
  end.

(** What is seen of it when it leads to [s']. *)
Definition seen1 (o : op) (s' : S) : list event :=
  match o with
  | OClient b x n => [Client b x n]
  | OCall t b w => [Call t b w]
  | OEnter t | OCheck t => returned t (Some s')
  | OFail => [DiskError]
  | OPublish _ | OIntr | OTurn | ODev => []
  end.

Fixpoint play (os : list op) (tr : list event) (s : S) : option (list event * S) :=
  match os with
  | [] => Some (tr, s)
  | o :: os => s ← play1 o s; play os (tr ++ seen1 o s) s
  end.

Lemma play1_step o s s' : play1 o s = Some s' → step s (seen1 o s') (Some s').
Proof.
  destruct o as [b x n|t b w|t|t|t| | | |]; cbn [play1 seen1].
  - case_decide as E; [|done]. intros [= <-]. destruct E. by apply s_client.
  - case_decide as E; [|done]. intros [= <-]. destruct E. by apply s_call.
  - destruct (lock s) eqn:El; [done|]. destruct (thr s !! t) as [th|] eqn:Et; [|done]. destruct (t_pc th) eqn:Ep; [|done..].
    intros E. rewrite <-E. by apply s_enter.
  - destruct (lock s) as [[t'|]|] eqn:El; [|done..]. destruct (thr s !! t) as [th|] eqn:Et; [|done]. destruct (t_pc th) as [|idx|] eqn:Ep; [done| |done].
    case_decide; [|done]. subst t'. intros [= <-]. rewrite <-El. by apply s_publish.
  - destruct (thr s !! t) as [th|] eqn:Et; [|done]. destruct (t_pc th) as [| |[[i0 i1] i2]] eqn:Ep; [done..|].
    destruct (lock s) as [[t'|]|] eqn:El; [case_decide; [subst t'|done]|done|]; intros E; rewrite <-E; eapply s_check; eauto.
  - destruct (lock s) eqn:El; [done|]. intros [= <-]. by apply s_intr.
  - destruct (lock s) as [[|]|] eqn:El; [done| |done]. intros <-. by apply s_intr_turn.
  - intros ([v d] & E & [= <-])%bind_Some. by apply (s_device s false).
  - intros ([v d] & E & [= <-])%bind_Some. by apply (s_device s true).
Qed.

Lemma play_reach os : ∀ s0 tr s tr' s', reach s0 tr (Some s) → play os tr s = Some (tr', s') → reach s0 tr' (Some s').
Proof.
  induction os as [|o os IH]; cbn; intros s0 tr s tr' s' Hr E; [by injection E as <- <-|].
  apply bind_Some in E as (s1 & E1 & E2). eapply IH; [|exact E2]. eapply r_step; [exact Hr|]. exact (play1_step _ _ _ E1).
Qed.

(** ** Two requests: a write and a read of other blocks, completed together; the second thread's return is first. *)
Definition start_sys : S :=
  {| mem := initial_vdisk (λ _, replicate BSIZE 0);
     dev := {| sd_img := λ x, replicate 512 (x mod 256); sd_next := 0; sd_taken := [] |}; thr := ∅; lock := None |}.

Definition script : list op :=
  [OClient 3 (replicate BSIZE 7) 5; OClient 4 (replicate BSIZE 0) 6; OCall 0 3 true; OCall 1 4 false; OEnter 0; OPublish 0; OCheck 0; ODev; OEnter 1;
   OPublish 1; OCheck 1; ODev; ODev; ODev; OIntr; OTurn; OTurn; OTurn; OCheck 1; OCheck 0].

Definition final_of (os : list op) : list event * S := default ([], start_sys) (play os [] start_sys).
Definition seen_of (os : list op) : list event := (final_of os).1.
Definition final_sys : S := (final_of script).2.

Lemma play_runs os : is_Some (play os [] start_sys) → play os [] start_sys = Some (seen_of os, (final_of os).2).
Proof. intros [[tr s] E]. unfold seen_of, final_of. by rewrite E. Qed.

Definition plays (os : list op) : bool := match play os [] start_sys with Some _ => true | None => false end.

Lemma plays_reach os : plays os = true → reach start_sys (seen_of os) (Some (final_of os).2).
Proof.
  intros H. eapply (play_reach os start_sys []); [constructor|]. apply play_runs. unfold plays in H.
  destruct (play os [] start_sys); [by eexists|discriminate].
Qed.

Lemma script_runs : plays script = true.
Proof. vm_compute. reflexivity. Qed.

(** Both have returned; block 5 has the bytes written and buffer 4 those of block 6. *)
Example script_result :
  (bool_decide (size (thr final_sys) = 0%nat), bool_decide (disk_block (dev final_sys) 5 = replicate BSIZE 7),
   bool_decide (b_bytes (mem final_sys) 4 = replicate 512 12 ++ replicate 512 13)) = (true, true, true).
Proof. vm_compute. reflexivity. Qed.

(** The second call returned before the first. *)
Example script_seen :
  drop 2 (seen_of script) = [Call 0 3 true; Call 1 4 false; Return 1; Return 0].
Proof. vm_compute. reflexivity. Qed.

Lemma start_initial : initial start_sys.
Proof. exists (λ _, replicate BSIZE 0). split_and!; reflexivity. Qed.

(** A disk that reports an error: the interrupt handler panics. *)
Definition error_script : list op :=
  [OClient 3 (replicate BSIZE 7) 5; OCall 0 3 true; OEnter 0; OPublish 0; OCheck 0; ODev; OFail; OIntr].

Lemma disk_error_panics :
  reach start_sys (seen_of error_script ++ []) None ∧ DiskError ∈ seen_of error_script.
Proof.
  split.
  - eapply r_step; [apply plays_reach; vm_compute; reflexivity|].
    assert (E : intr_again (final_of error_script).2 = None) by (vm_compute; reflexivity).
    rewrite <-E. apply s_intr_turn. vm_compute. reflexivity.
  - assert (E : last (seen_of error_script) = Some DiskError) by (vm_compute; reflexivity).
    apply last_Some in E as [l ->]. rewrite elem_of_app. right. by left.
Qed.

Definition is_error (e : event) : bool := match e with DiskError => true | _ => false end.

Lemma no_error tr : existsb is_error tr = false → DiskError ∉ tr.
Proof.
  intros H Hin. assert (existsb is_error tr = true); [|congruence]. apply existsb_exists.
  exists DiskError. split; [by apply list_elem_of_In|done].
Qed.

