(* ===== verification/Printf.v ===== *)
(** * Formatted output (xv6/user/printf.c, xv6/kernel/printk.c)

    The bytes that [printf] and [printk] put out.  The variable arguments are a list
    of 64-bit words and strings ([Str None] is the null pointer).  [None]: the
    behaviour is undefined, because [buf] of [printint] overflows or an argument is
    missing or of the other kind. *)

From S2P Require Export Prelude.

#[local] Set Warnings "-clear-no-such-hyp".
#[local] Set Default Proof Using "Type".
Local Open Scope Z_scope.

Definition u64 (x : Z) : Z := x mod 2 ^ 64.
Definition i64 (x : Z) : Z := (x + 2 ^ 63) mod 2 ^ 64 - 2 ^ 63.

Definition digits : cstr := lit "0123456789ABCDEF".
Definition kernel_digits : cstr := lit "0123456789abcdef".
Definition digit_of (ds : cstr) (k : Z) : ascii := default NUL (ds !! Z.to_nat k).

(** ** Numbers *)
Definition BUFLEN : nat := 20.

(** [buf[i++] = c] *)
Definition put_buf (c : ascii) (buf : cstr) : option cstr := if (length buf <? BUFLEN)%nat then Some (buf ++ [c]) else None.

(** The do-while loop; it fills [buf] at the latest. *)
Fixpoint digit_loop (fuel : nat) (ds : cstr) (x base : Z) (buf : cstr) : option cstr :=
  match fuel with
  | O => None
  | S fuel =>
      buf ← put_buf (digit_of ds (x mod base)) buf;
      let x := x / base in
      if x =? 0 then Some buf else digit_loop fuel ds x base buf
  end.

Definition printint_with (ds : cstr) (xx base : Z) (sgn : bool) : option cstr :=
  let neg := sgn && (xx <? 0) in
  let x := if neg then u64 (- xx) else u64 xx in
  buf ← digit_loop (S BUFLEN) ds x base [];
  buf ← if neg then put_buf "-" buf else Some buf;
  Some (rev buf).

Definition printint : Z → Z → bool → option cstr := printint_with digits.

(** [sign] is the argument and then whether there is one. *)
Definition kprintint (xx base : Z) (sign : bool) : option cstr :=
  let sign := if sign then xx <? 0 else false in
  let x := if sign then u64 (- xx) else u64 xx in
  buf ← digit_loop (S BUFLEN) kernel_digits x base [];
  buf ← if sign then put_buf "-" buf else Some buf;
  Some (rev buf).

Fixpoint ptr_loop (n : nat) (ds : cstr) (x : Z) : cstr :=
  match n with
  | O => []
  | S n => digit_of ds (Z.shiftr x 60) :: ptr_loop n ds (u64 (Z.shiftl x 4))
  end.

Definition printptr (ds : cstr) (x : Z) : cstr := "0"%char :: "x"%char :: ptr_loop 16 ds x.

(** ** Arguments *)
Inductive varg :=
  | Word (x : Z)
  | Str (s : option cstr).

Definition next_word (ap : list varg) : option (Z * list varg) :=
  match ap with Word x :: ap => Some (x, ap) | _ => None end.
Definition next_str (ap : list varg) : option (option cstr * list varg) :=
  match ap with Str s :: ap => Some (s, ap) | _ => None end.

(** ** One conversion

    After a '%': [c0], [c1] and [c2] are the next characters.  The text, how far [i] goes on, the arguments left. *)
Section Conversion.
Context (printint : Z → Z → bool → option cstr) (printptr : Z → cstr).

Definition print_word (f : Z → Z) (base : Z) (sgn : bool) (skip : nat) (ap : list varg) : option (cstr * nat * list varg) :=
  '(x, ap) ← next_word ap;
  out ← printint (f x) base sgn;
  Some (out, skip, ap).

Definition conversion (c0 c1 c2 : ascii) (ap : list varg) : option (cstr * nat * list varg) :=
  (if c0 =c? "d" then print_word i32 10 true 0 ap
   else if (c0 =c? "l") && (c1 =c? "d") then print_word i64 10 true 1 ap
   else if (c0 =c? "l") && (c1 =c? "l") && (c2 =c? "d") then print_word i64 10 true 2 ap
   else if c0 =c? "u" then print_word u32 10 false 0 ap
   else if (c0 =c? "l") && (c1 =c? "u") then print_word i64 10 false 1 ap
   else if (c0 =c? "l") && (c1 =c? "l") && (c2 =c? "u") then print_word i64 10 false 2 ap
   else if c0 =c? "x" then print_word u32 16 false 0 ap
   else if (c0 =c? "l") && (c1 =c? "x") then print_word i64 16 false 1 ap
   else if (c0 =c? "l") && (c1 =c? "l") && (c2 =c? "x") then print_word i64 16 false 2 ap
   else if c0 =c? "p" then '(x, ap) ← next_word ap; Some (printptr (u64 x), 0%nat, ap)
   else if c0 =c? "c" then '(x, ap) ← next_word ap; Some ([ascii_of_N (Z.to_N (x mod 256))], 0%nat, ap)
   else if c0 =c? "s" then '(s, ap) ← next_str ap; Some (default (lit "(null)") s, 0%nat, ap)
   else if c0 =c? "%" then Some (["%"%char], 0%nat, ap)
   else Some (["%"%char; c0], 0%nat, ap))%c.

(** [vprintf]: [state] is whether a '%' was read; [skip]: characters that [i] has passed. *)
Fixpoint vprintf_loop (fmt : cstr) (state : bool) (skip : nat) (ap : list varg) : option cstr :=
  match fmt with
  | [] => Some []
  | c0 :: fmt =>
      match skip with
      | S skip => vprintf_loop fmt state skip ap
      | O =>
          if state then
            '(out, skip, ap) ← conversion c0 (hd NUL fmt) (hd NUL (tl fmt)) ap;
            more ← vprintf_loop fmt false skip ap;
            Some (out ++ more)
          else if (c0 =c? "%")%c then vprintf_loop fmt true 0 ap
          else more ← vprintf_loop fmt false 0 ap; Some (c0 :: more)
      end
  end.

(** The loop of [printk], which reads the character after the '%' in the same turn and ends at a NUL there. *)
Fixpoint printk_loop (fmt : cstr) (skip : nat) (ap : list varg) : option cstr :=
  match fmt with
  | [] => Some []
  | cx :: fmt =>
      match skip with
      | S skip => printk_loop fmt skip ap
      | O =>
          if (cx =c? "%")%c then
            match fmt with
            | [] => Some []
            | c0 :: fmt =>
                '(out, skip, ap) ← conversion c0 (hd NUL fmt) (hd NUL (tl fmt)) ap;
                more ← printk_loop fmt skip ap;
                Some (out ++ more)
            end
          else more ← printk_loop fmt 0 ap; Some (cx :: more)
      end
  end.
End Conversion.

Definition vprintf (fmt : cstr) (ap : list varg) : option cstr := vprintf_loop printint (printptr digits) fmt false 0 ap.
Definition printk (fmt : cstr) (ap : list varg) : option cstr := printk_loop kprintint (printptr kernel_digits) fmt 0 ap.

(** What [panic] puts out before it stops. *)
Definition panic_text (s : cstr) : option cstr :=
  a ← printk (lit "panic: ") [];
  b ← printk (lit "%s" ++ [NL]) [Str (Some s)];
  Some (a ++ b).

Example printf_example :
  vprintf (lit "%d %x %lu %s%%|%z") [Word (2 ^ 64 - 5); Word 255; Word (2 ^ 64 - 1); Str None] = Some (lit "-5 FF 18446744073709551615 (null)%|%z").
Proof. vm_compute. reflexivity. Qed.

(** ** The numerals *)

(** The value of a numeral, most significant digit first. *)
Definition digit_value (ds : cstr) (c : ascii) : Z :=
  match list_find (λ d, d = c) ds with Some (k, _) => Z.of_nat k | None => 0 end.
Definition value (ds : cstr) (base : Z) (s : cstr) : Z := foldl (λ n c, n * base + digit_value ds c) 0 s.

(** No leading zero, but for 0 itself. *)
Definition canonical (ds : cstr) (s : cstr) : Prop := s ≠ [] ∧ (hd_error s = ds !! 0%nat → length s = 1%nat).

Section Numerals.
Context (ds : cstr) (base : Z) (Hnd : NoDup ds) (Hbase : 2 ≤ base ≤ Z.of_nat (length ds)).

Lemma digit_of_lookup k : 0 ≤ k < base → ds !! Z.to_nat k = Some (digit_of ds k).
Proof using Hbase.
  intros Hk. unfold digit_of. destruct (lookup_lt_is_Some_2 ds (Z.to_nat k)) as [c Hc]; [lia|]. by rewrite Hc.
Qed.

Lemma digit_value_of k : 0 ≤ k < base → digit_value ds (digit_of ds k) = k.
Proof using Hnd Hbase.
  intros Hk. pose proof (digit_of_lookup k Hk) as Hl. unfold digit_value.
  rewrite (proj2 (list_find_Some (λ d, d = digit_of ds k) ds (Z.to_nat k) (digit_of ds k))).
  - lia.
  - split; [done|]. split; [done|]. intros j y Hj Hlt ->. pose proof (NoDup_lookup _ _ _ _ Hnd Hj Hl). lia.
Qed.

Lemma value_app s c : value ds base (s ++ [c]) = value ds base s * base + digit_value ds c.
Proof using Type. unfold value. by rewrite foldl_app. Qed.

(** The loop puts the numeral of [x] behind [buf], its last digit first. *)
Lemma digit_loop_ok fuel : ∀ x buf n,
  0 ≤ x < base ^ Z.of_nat n → (0 < n ≤ fuel)%nat → (length buf + n ≤ BUFLEN)%nat →
  ∃ s, digit_loop fuel ds x base buf = Some (buf ++ rev s) ∧ value ds base s = x ∧ (0 < length s ≤ n)%nat ∧
    (x ≠ 0 → hd_error s ≠ ds !! 0%nat) ∧ Forall (λ c, ∃ k, 0 ≤ k < base ∧ c = digit_of ds k) s ∧ (x = 0 → length s = 1%nat).
Proof using Hnd Hbase.
  induction fuel as [|fuel IH]; intros x buf n Hx Hn Hb; [lia|]. cbn [digit_loop].
  pose proof (Z.mod_pos_bound x base ltac:(lia)) as Hm. set (c := digit_of ds (x mod base)).
  assert (Hc : digit_value ds c = x mod base) by by apply digit_value_of.
  unfold put_buf. rewrite (proj2 (Nat.ltb_lt _ _)) by lia. cbn [mbind option_bind].
  pose proof (Z.div_mod x base ltac:(lia)) as Hdm. pose proof (Z.div_pos x base ltac:(lia) ltac:(lia)) as Hdp.
  assert (Hfa : ∃ k, 0 ≤ k < base ∧ c = digit_of ds k) by by exists (x mod base).
  destruct (x / base =? 0) eqn:E.
  - apply Z.eqb_eq in E. exists [c]. split; [done|]. split; [unfold value; cbn; lia|]. split; [cbn; lia|]. split; [|split; [by repeat constructor|done]].
    intros Hx0 H0. cbn in H0. pose proof (digit_of_lookup (x mod base) Hm) as Hl. fold c in Hl.
    symmetry in H0. pose proof (NoDup_lookup _ _ _ _ Hnd H0 Hl). lia.
  - apply Z.eqb_neq in E. destruct n as [|n]; [lia|]. rewrite Nat2Z.inj_succ, Z.pow_succ_r in Hx by lia.
    destruct n as [|n]; [exfalso; apply E, Z.div_small; lia|].
    destruct (IH (x / base) (buf ++ [c]) (S n)) as (s & E1 & E2 & E3 & E4 & E5 & E6).
    + split; [done|]. apply Z.div_lt_upper_bound; lia.
    + lia.
    + rewrite length_app. cbn. lia.
    + exists (s ++ [c]). rewrite rev_app_distr. cbn [rev app]. rewrite E1, <-app_assoc. split; [done|]. rewrite value_app, E2, Hc. split; [lia|].
      rewrite length_app. cbn. split; [lia|]. split; [|split; [apply Forall_app; split; [done|by repeat constructor]|intros ->; by rewrite Z.div_0_l in E by lia]].
      intros _ H0. apply (E4 E). destruct s; [cbn in E3; lia|done].
Qed.

Lemma digit_loop_num x : 
  0 ≤ x < 2 ^ 64 → 2 ^ 64 ≤ base ^ 20 →
  ∃ s, digit_loop (S BUFLEN) ds x base [] = Some (rev s) ∧ value ds base s = x ∧ canonical ds s ∧
    (length s ≤ 20)%nat ∧ Forall (λ c, ∃ k, 0 ≤ k < base ∧ c = digit_of ds k) s ∧ (x < 2 ^ 63 + 1 → 2 ^ 63 < base ^ 19 → (length s ≤ 19)%nat).
Proof using Hnd Hbase.
  intros Hx H20. destruct (decide (x < 2 ^ 63 + 1 ∧ 2 ^ 63 < base ^ 19)) as [[Hs H19]|Hs].
  - destruct (digit_loop_ok (S BUFLEN) x [] 19) as (s & E1 & E2 & E3 & E4 & E5 & E6).
    + change (Z.of_nat 19) with 19. lia.
    + unfold BUFLEN. lia.
    + unfold BUFLEN. cbn. lia.
    + exists s. split_and!; try done; [|lia|lia]. split; [destruct s; [cbn in E3; lia|done]|]. intros H0. destruct (decide (x = 0)) as [->|Hx0]; [by apply E6|by apply E4 in H0].
  - destruct (digit_loop_ok (S BUFLEN) x [] 20) as (s & E1 & E2 & E3 & E4 & E5 & E6).
    + change (Z.of_nat 20) with 20. lia.
    + unfold BUFLEN. lia.
    + unfold BUFLEN. cbn. lia.
    + exists s. split_and!; try done; [|lia|intros A B; exfalso; apply Hs; by split]. split; [destruct s; [cbn in E3; lia|done]|]. intros H0. destruct (decide (x = 0)) as [->|Hx0]; [by apply E6|by apply E4 in H0].
Qed.
End Numerals.

Lemma digits_nodup : NoDup digits.
Proof. apply (bool_decide_unpack _). vm_compute. exact I. Qed.
Lemma kernel_digits_nodup : NoDup kernel_digits.
Proof. apply (bool_decide_unpack _). vm_compute. exact I. Qed.

(** [printint] of either: the sign, and the canonical numeral of the absolute value; [buf] is long enough. *)
Lemma printint_with_numeral ds xx base sgn :
  NoDup ds → length ds = 16%nat → base = 10 ∨ base = 16 → - 2 ^ 63 ≤ xx < 2 ^ 63 →
  ∃ s, printint_with ds xx base sgn = Some ((if sgn && (xx <? 0) then ["-"%char] else []) ++ s) ∧ canonical ds s ∧
    value ds base s = (if sgn then Z.abs xx else u64 xx) ∧ Forall (λ c, ∃ k, 0 ≤ k < base ∧ c = digit_of ds k) s.
Proof.
  intros Hnd Hl Hb Hx. unfold printint_with. set (neg := sgn && (xx <? 0)).
  assert (Hbase : 2 ≤ base ≤ Z.of_nat (length ds)) by (rewrite Hl; lia).
  assert (H20 : 2 ^ 64 ≤ base ^ 20 ∧ 2 ^ 63 < base ^ 19) by (destruct Hb as [-> | ->]; split; vm_compute; done). destruct H20 as [H20 H19].
  set (x := if neg then u64 (- xx) else u64 xx).
  assert (Hx64 : 0 ≤ x < 2 ^ 64) by (unfold x, u64; destruct neg; apply Z.mod_pos_bound; done).
  destruct (digit_loop_num ds base Hnd Hbase x Hx64 H20) as (s & E & Ev & Hc & Hlen & Hfa & H19').
  exists s. rewrite E. cbn [mbind option_bind].
  assert (Hval : x = if sgn then Z.abs xx else u64 xx).
  { unfold x, neg. destruct sgn; cbn [andb]; [|done]. destruct (xx <? 0) eqn:En; [apply Z.ltb_lt in En|apply Z.ltb_ge in En]; unfold u64; rewrite Z.mod_small; lia. }
  split; [|split_and!; [done|by rewrite Ev|done]].
  destruct neg eqn:En; cbn [mbind option_bind app].
  - assert (Hn : xx < 0 ∧ sgn = true) by (unfold neg in En; apply andb_true_iff in En as [-> En]; split; [by apply Z.ltb_lt|done]).
    unfold put_buf. rewrite length_rev, (proj2 (Nat.ltb_lt _ _)).
    + cbn [mbind option_bind]. by rewrite rev_app_distr, rev_involutive.
    + unfold BUFLEN. destruct Hn as [Hn ->]. assert (length s ≤ 19)%nat; [|lia]. apply H19'; [rewrite Hval|done]. lia.
  - by rewrite rev_involutive.
Qed.

Lemma kprintint_eq xx base sgn : kprintint xx base sgn = printint_with kernel_digits xx base sgn.
Proof. by destruct sgn. Qed.

(** ** Pointers *)
Lemma value_from ds base s : ∀ n, foldl (λ n c, n * base + digit_value ds c) n s = n * base ^ Z.of_nat (length s) + value ds base s.
Proof.
  unfold value. induction s as [|c s IH]; intros n; cbn [foldl length]; [change (Z.of_nat 0) with 0; rewrite Z.pow_0_r; lia|].
  rewrite IH, (IH (0 * base + _)). rewrite Nat2Z.inj_succ, Z.pow_succ_r by lia. lia.
Qed.

Lemma length_ptr_loop n ds : ∀ x, length (ptr_loop n ds x) = n.
Proof. induction n as [|n IH]; intros x; [done|]. cbn. by rewrite IH. Qed.

Lemma ptr_loop_value ds n : ∀ x,
  NoDup ds → length ds = 16%nat → (n ≤ 16)%nat → 0 ≤ x < 2 ^ 64 → value ds 16 (ptr_loop n ds x) = x / 2 ^ (64 - 4 * Z.of_nat n).
Proof.
  induction n as [|n IH]; intros x Hnd Hl Hn Hx; [cbn; by rewrite Z.div_small|]. cbn [ptr_loop].
  unfold value. cbn [foldl]. rewrite value_from, IH, length_ptr_loop; [|done|done|lia|apply Z.mod_pos_bound; done].
  rewrite Z.shiftr_div_pow2, Z.shiftl_mul_pow2 by lia. change (2 ^ 4) with 16.
  assert (Hd : 0 ≤ x / 2 ^ 60 < 16) by (split; [apply Z.div_pos; lia|apply Z.div_lt_upper_bound; [lia|exact (proj2 Hx)]]).
  rewrite (digit_value_of ds 16 Hnd) by (rewrite ?Hl; lia).
  set (k := 64 - 4 * Z.of_nat (S n)). assert (Hk : 0 ≤ k) by (unfold k; lia).
  replace (64 - 4 * Z.of_nat n) with (k + 4) by (unfold k; lia).
  assert (H16 : 16 ^ Z.of_nat n * 2 ^ k = 2 ^ 60).
  { change 16 with (2 ^ 4). rewrite <-Z.pow_mul_r, <-Z.pow_add_r by lia. f_equal. unfold k. lia. }
  assert (Hu : u64 (x * 16) = x * 16 - 2 ^ 64 * (x / 2 ^ 60)).
  { unfold u64. rewrite Z.mod_eq by done. do 2 f_equal. change (2 ^ 64) with (2 ^ 60 * 16). by rewrite Z.div_mul_cancel_r. }
  rewrite Hu, Z.pow_add_r by lia. change (2 ^ 4) with 16. change (2 ^ 64) with (2 ^ 60 * 16).
  replace (x * 16 - 2 ^ 60 * 16 * (x / 2 ^ 60)) with ((x - 2 ^ 60 * (x / 2 ^ 60)) * 16) by lia. rewrite Z.div_mul_cancel_r by lia.
  generalize (x / 2 ^ 60). intros d. rewrite <-H16. replace (x - 16 ^ Z.of_nat n * 2 ^ k * d) with (x + - (16 ^ Z.of_nat n * d) * 2 ^ k) by lia.
  rewrite Z.div_add by lia. lia.
Qed.

(** ** [printk] is [vprintf] *)
Lemma printk_loop_vprintf p q n : ∀ fmt skip ap,
  (length fmt ≤ n)%nat → printk_loop p q fmt skip ap = vprintf_loop p q fmt false skip ap.
Proof.
  induction n as [|n IH]; intros fmt skip ap Hl; (destruct fmt as [|c fmt]; [done|]); cbn [length] in Hl; [lia|].
  cbn [printk_loop vprintf_loop]. destruct skip as [|skip]; [|by apply IH; lia].
  destruct (c =c? "%")%c eqn:Ec; [|rewrite IH by lia; done].
  destruct fmt as [|c0 fmt]; [done|]. cbn [vprintf_loop]. destruct (conversion _ _ _ _ _ _) as [[[out skip] ap']|]; [|done].
  cbn [mbind option_bind]. cbn [length] in Hl. by rewrite IH by lia.
Qed.

(** [printk] of the kernel and [vprintf] of the user library put out the same text for every format, malformed ones
    included, and all arguments, but for the case of the hexadecimal digits, though one reads the conversion in the turn of
    its '%' and the other keeps a state. *)
Theorem printk_is_printf fmt ap :
  printk fmt ap = vprintf_loop (printint_with kernel_digits) (printptr kernel_digits) fmt false 0 ap.
Proof.
  unfold printk. rewrite (printk_loop_vprintf _ _ (length fmt)) by done.
  assert (Hc : ∀ c0 c1 c2 ap, conversion kprintint (printptr kernel_digits) c0 c1 c2 ap = conversion (printint_with kernel_digits) (printptr kernel_digits) c0 c1 c2 ap).
  { intros. unfold conversion, print_word. repeat case_match; try done; destruct (next_word _) as [[x ap']|]; cbn; by rewrite ?kprintint_eq. }
  generalize false, 0%nat. revert ap. induction fmt as [|c fmt IH]; intros ap b k; [done|]. cbn [vprintf_loop].
  destruct k as [|k]; [|apply IH]. destruct b; [|destruct (c =c? "%")%c; [apply IH|by rewrite IH]].
  rewrite Hc. destruct (conversion _ _ _ _ _ _) as [[[out skip] ap']|]; [|done]. cbn. by rewrite IH.
Qed.

(** ** A format of whole pieces *)
Inductive width := Short | Long | LongLong.
Inductive radix := Dec | Uns | Hex.

Inductive piece :=
  | PLit (c : ascii)
  | PPercent
  | PNum (w : width) (r : radix) (x : Z)
  | PPtr (x : Z)
  | PChar (x : Z)
  | PStr (s : option cstr).

Definition width_text (w : width) : cstr := match w with Short => [] | Long => lit "l" | LongLong => lit "ll" end.
Definition radix_text (r : radix) : cstr := match r with Dec => lit "d" | Uns => lit "u" | Hex => lit "x" end.

Definition piece_format (p : piece) : cstr :=
  match p with
  | PLit c => [c]
  | PPercent => lit "%%"
  | PNum w r _ => lit "%" ++ width_text w ++ radix_text r
  | PPtr _ => lit "%p"
  | PChar _ => lit "%c"
  | PStr _ => lit "%s"
  end.

Definition piece_args (p : piece) : list varg :=
  match p with
  | PNum _ _ x | PPtr x | PChar x => [Word x]
  | PStr s => [Str s]
  | _ => []
  end.

(** The number that a conversion prints. *)
Definition meant (w : width) (r : radix) (x : Z) : Z :=
  match w, r with
  | Short, Dec => i32 x
  | Short, _ => u32 x
  | _, Dec => i64 x
  | _, _ => u64 x
  end.
Definition base_of (r : radix) : Z := match r with Hex => 16 | _ => 10 end.

(** The text of a piece. *)
Definition shows (p : piece) (t : cstr) : Prop :=
  match p with
  | PLit c => t = [c]
  | PPercent => t = ["%"%char]
  | PNum w r x => let n := meant w r x in
      ∃ s, t = (if n <? 0 then ["-"%char] else []) ++ s ∧ canonical digits s ∧ value digits (base_of r) s = Z.abs n
  | PPtr x => ∃ s, t = "0"%char :: "x"%char :: s ∧ length s = 16%nat ∧ value digits 16 s = u64 x
  | PChar x => t = [ascii_of_N (Z.to_N (x mod 256))]
  | PStr s => t = default (lit "(null)") s
  end.

Lemma i64_range x : - 2 ^ 63 ≤ i64 x < 2 ^ 63.
Proof. unfold i64. pose proof (Z.mod_pos_bound (x + 2 ^ 63) (2 ^ 64) ltac:(done)). lia. Qed.

Lemma u64_i64 x : u64 (i64 x) = u64 x.
Proof. unfold u64, i64. rewrite Zminus_mod, Z.mod_mod, <-Zminus_mod by done. f_equal. lia. Qed.

(** A number is printed. *)
Lemma print_word_ok w r x sk ap f :
  f = match w, r with Short, Dec => i32 | Short, _ => u32 | _, _ => i64 end →
  ∃ t, print_word printint f (base_of r) (match r with Dec => true | _ => false end) sk (Word x :: ap) = Some (t, sk, ap) ∧ shows (PNum w r x) t.
Proof.
  intros ->. unfold print_word. cbn [next_word mbind option_bind]. set (xx := (match w, r with Short, Dec => i32 | Short, _ => u32 | _, _ => i64 end) x).
  assert (Hi : - 2 ^ 31 ≤ i32 x < 2 ^ 31) by (unfold i32; pose proof (Z.mod_pos_bound (x + 2 ^ 31) (2 ^ 32) ltac:(done)); lia).
  assert (Hu : 0 ≤ u32 x < 2 ^ 32) by (apply Z.mod_pos_bound; done).
  assert (H64 : 0 ≤ u64 x < 2 ^ 64) by (apply Z.mod_pos_bound; done).
  pose proof (i64_range x) as Hl.
  assert (Hxx : - 2 ^ 63 ≤ xx < 2 ^ 63) by (unfold xx; destruct w, r; lia).
  destruct (printint_with_numeral digits xx (base_of r) (match r with Dec => true | _ => false end) digits_nodup eq_refl
    ltac:(destruct r; cbn; auto) Hxx) as (s & E & Hc & Hv & _).
  unfold printint. rewrite E. cbn [mbind option_bind]. eexists. split; [done|]. exists s.
  assert (Hneg : (meant w r x <? 0) = (match r with Dec => true | _ => false end) && (xx <? 0)).
  { unfold xx; destruct w, r; cbn [andb meant]; try done; apply Z.ltb_ge; lia. }
  rewrite Hneg. split; [done|]. split; [done|]. rewrite Hv.
  assert (Hs : u64 (u32 x) = Z.abs (u32 x)) by (rewrite Z.abs_eq by lia; apply Z.mod_small; lia).
  assert (Hw : u64 (i64 x) = Z.abs (u64 x)) by (rewrite u64_i64, Z.abs_eq; lia).
  unfold xx. by destruct w, r.
Qed.

(** Piece by piece. *)
Lemma vprintf_text ps more :
  Forall (λ p, p ≠ PLit "%") ps →
  ∃ ts, vprintf (concat (piece_format <$> ps)) (concat (piece_args <$> ps) ++ more) = Some (concat ts) ∧ Forall2 shows ps ts.
Proof.
  intros Hps. unfold vprintf. revert more. induction Hps as [|p ps Hp Hps IH]; intros more; [by exists []|].
  cbn [fmap list_fmap concat]. rewrite <-!app_assoc. destruct (IH more) as (ts & E & Hts).
  set (fmt := concat _) in *. set (ap := concat _ ++ more) in *. clearbody fmt ap.
  assert (Hconv : ∀ c0 cs args t, (∀ c1 c2 : ascii, hd NUL (cs ++ fmt) = c1 → hd NUL (tl (cs ++ fmt)) = c2 →
      conversion printint (printptr digits) c0 c1 c2 args = Some (t, length cs, ap)) → shows p t →
      ∃ ts, vprintf_loop printint (printptr digits) ("%"%char :: c0 :: cs ++ fmt) false 0 args = Some (concat ts) ∧ Forall2 shows (p :: ps) ts).
  { intros c0 cs args t Hc Ht. exists (t :: ts). cbn [vprintf_loop Ascii.eqb Bool.eqb]. rewrite (Hc _ _ eq_refl eq_refl). cbn [mbind option_bind].
    assert (Hskip : ∀ cs, vprintf_loop printint (printptr digits) (cs ++ fmt) false (length cs) ap = vprintf_loop printint (printptr digits) fmt false 0 ap).
    { intros l. induction l as [|c l IHl]; [done|]. exact IHl. }
    rewrite Hskip, E. cbn. split; [done|by constructor]. }
  destruct p as [c| |w r x|x|x|s]; cbn [piece_format piece_args app].
  - exists ([c] :: ts). cbn [vprintf_loop]. rewrite (proj2 (Ascii.eqb_neq _ _)) by congruence. rewrite E. cbn. split; [done|by constructor].
  - apply (Hconv "%"%char []%list ap ["%"%char]); [|done]. by intros c1 c2 _ _.
  - destruct (print_word_ok w r x (length (width_text w)) ap _ eq_refl) as (t & Et & Ht).
    destruct w, r; (eapply (Hconv _ _ _ t); [|exact Ht]); cbn [app hd tl]; intros c1 c2 <- <-; exact Et.
  - eapply (Hconv "p"%char []%list); [by intros c1 c2 _ _|]. cbn. eexists. split; [done|]. split; [apply length_ptr_loop|].
    rewrite ptr_loop_value; [by rewrite Z.div_1_r|apply digits_nodup|done|done|]. apply Z.mod_pos_bound. done.
  - eapply (Hconv "c"%char []%list); [by intros c1 c2 _ _|done].
  - eapply (Hconv "s"%char []%list); [by intros c1 c2 _ _|done].
Qed.

(** C33: a format made of whole pieces (a C string: without a NUL) prints, piece after piece, what each one means: literal characters, the canonical decimal
    or hexadecimal numeral of the argument at its width and sign, 16 digits of a pointer, a character, a string or "(null)". The
    20 bytes of [buf] are enough for every number. *)
Theorem vprintf_pieces ps more :
  Forall (λ p, p ≠ PLit "%") ps →
  ∃ ts, vprintf (concat (piece_format <$> ps)) (concat (piece_args <$> ps) ++ more) = Some (concat ts) ∧ Forall2 shows ps ts.
Proof. apply vprintf_text. Qed.

(** A signed and a hexadecimal number. *)
Theorem vprintf_pieces_witness :
  ∃ ts, vprintf (lit "%d %x%%") [Word (2 ^ 32 - 3); Word 255] = Some (concat ts) ∧
    Forall2 shows [PNum Short Dec (2 ^ 32 - 3); PLit " "; PNum Short Hex 255; PPercent] ts.
Proof. apply (vprintf_pieces [PNum Short Dec (2 ^ 32 - 3); PLit " "; PNum Short Hex 255; PPercent] []). by repeat constructor. Defined.
