(* ===== verification/Ulib.v ===== *)
(** * The user library (xv6/user/ulib.c)

    String functions on C strings (lists of bytes), the memory functions on the
    memory of [KString].  A function that fills an object returns its bytes. *)

From S2P Require Export Printf KString.

#[local] Set Warnings "-clear-no-such-hyp".
#[local] Set Default Proof Using "Type".
Local Open Scope Z_scope.

Definition uchar (c : ascii) : Z := Z.of_N (N_of_ascii c).

(** What is stored, the NUL included. *)
Fixpoint strcpy (t : cstr) : cstr :=
  match t with
  | [] => [NUL]
  | c :: t => c :: strcpy t
  end.

Fixpoint strcmp (p q : cstr) : Z :=
  match p with
  | [] => match q with [] => 0 | d :: _ => 0 - uchar d end
  | c :: p =>
      match q with
      | [] => uchar c - 0
      | d :: q => if (c =c? d)%c then strcmp p q else uchar c - uchar d
      end
  end.

Fixpoint strlen_loop (s : cstr) (n : Z) : Z :=
  match s with
  | [] => n
  | _ :: s => strlen_loop s (n + 1)
  end.
Definition ustrlen (s : cstr) : Z := strlen_loop s 0.

(** The string from the first [c] on; [None]: 0. *)
Fixpoint strchr (s : cstr) (c : ascii) : option cstr :=
  match s with
  | [] => None
  | d :: s' => if (d =c? c)%c then Some s else strchr s' c
  end.

(** [input]: the bytes that [read] gives before it returns 0 or less.  The line stored, without its NUL, and the input left. *)
Fixpoint gets_loop (room : nat) (input : cstr) : cstr * cstr :=
  match room with
  | O => ([], input)
  | S room =>
      match input with
      | [] => ([], [])
      | c :: input =>
          if (c =c? NL)%c || (c =c? CR)%c then ([c], input)
          else let '(line, rest) := gets_loop room input in (c :: line, rest)
      end
  end.

Definition gets (max : nat) (input : cstr) : cstr * cstr := gets_loop (max - 1) input.

Definition is_digit (c : ascii) : bool := (uchar "0" <=? uchar c) && (uchar c <=? uchar "9").

Fixpoint atoi_loop (n : Z) (s : cstr) : Z :=
  match s with
  | [] => n
  | c :: s => if is_digit c then atoi_loop (i32 (n * 10 + uchar c - uchar "0")) s else n
  end.
Definition atoi (s : cstr) : Z := atoi_loop 0 s.

(** ** Memory *)
Definition umemset (m : mem) (dst c n : Z) : mem := memset_loop m dst c (Z.to_nat n).

Definition umemmove (m : mem) (vdst vsrc n : Z) : mem :=
  if vdst <? vsrc then move_fwd m vdst vsrc (Z.to_nat n) else move_back m (vdst + n) (vsrc + n) (Z.to_nat n).

Fixpoint umemcmp (m : mem) (p1 p2 : Z) (n : nat) : Z :=
  match n with
  | O => 0
  | S n => if negb (m p1 =? m p2) then m p1 - m p2 else umemcmp m (p1 + 1) (p2 + 1) n
  end.

Definition umemcpy (m : mem) (dst src n : Z) : mem := umemmove m dst src n.

(** ** Lemmas *)
Lemma uchar_range c : 0 ≤ uchar c < 256.
Proof.
  unfold uchar. pose proof (N_ascii_bounded c). change 256 with (Z.of_N 256). split; [lia|]. by apply N2Z.inj_lt.
Qed.

Lemma uchar_inj c d : uchar c = uchar d → c = d.
Proof. unfold uchar. intros E%N2Z.inj. by rewrite <-(ascii_N_embedding c), E, ascii_N_embedding. Qed.

(** [strcmp] is 0 on equal strings only, and its sign is antisymmetric. *)
Lemma strcmp_zero p : ∀ q, Forall (λ c, c ≠ NUL) p → Forall (λ c, c ≠ NUL) q → strcmp p q = 0 ↔ p = q.
Proof.
  assert (Hnul : ∀ c, c ≠ NUL → 0 < uchar c).
  { intros c Hc. pose proof (uchar_range c). assert (uchar c ≠ 0); [|lia]. intros E. apply Hc, uchar_inj. by rewrite E. }
  induction p as [|c p IH]; intros [|d q] Hp Hq; cbn [strcmp].
  - done.
  - apply Forall_cons in Hq as [Hd _]. apply Hnul in Hd. split; [lia|done].
  - apply Forall_cons in Hp as [Hc _]. apply Hnul in Hc. split; [lia|done].
  - apply Forall_cons in Hp as [_ Hp]. apply Forall_cons in Hq as [_ Hq]. destruct (Ascii.eqb_spec c d) as [->|Hne].
    + rewrite IH by done. split; [by intros ->|by intros [= ->]].
    + split; [|congruence]. intros E. exfalso. apply Hne, uchar_inj. lia.
Qed.

Lemma strcmp_antisym p : ∀ q, strcmp q p = - strcmp p q.
Proof.
  induction p as [|c p IH]; intros [|d q]; cbn [strcmp]; try lia. rewrite Ascii.eqb_sym. destruct (c =c? d)%c; [apply IH|lia].
Qed.

Lemma strlen_loop_length s : ∀ n, strlen_loop s n = n + Z.of_nat (length s).
Proof. induction s as [|c s IH]; intros n; cbn [strlen_loop length]; [lia|]. rewrite IH. lia. Qed.

Lemma ustrlen_length s : ustrlen s = Z.of_nat (length s).
Proof. apply strlen_loop_length. Qed.

Lemma strchr_spec s c :
  strchr s c = match list_find (λ d, d = c) s with Some (k, _) => Some (drop k s) | None => None end.
Proof.
  induction s as [|d s IH]; [done|]. cbn [strchr list_find]. destruct (Ascii.eqb_spec d c) as [->|Hne].
  - by rewrite decide_True.
  - rewrite decide_False by done. rewrite IH. by destruct (list_find _ s) as [[k x]|].
Qed.

(** [gets] stops behind the first newline, or when the buffer is full, or at the end of the input. *)
Lemma gets_loop_spec room : ∀ input line rest,
  gets_loop room input = (line, rest) →
  input = line ++ rest ∧ (length line ≤ room)%nat ∧
  (∀ l c r, line = l ++ c :: r → c = NL ∨ c = CR → r = []) ∧
  (length line = room ∨ rest = [] ∨ ∃ l c, line = l ++ [c] ∧ (c = NL ∨ c = CR)).
Proof.
  induction room as [|room IH]; intros input line rest E; cbn [gets_loop] in E.
  { injection E as <- <-. split_and!; [done|done|intros [|? l] c r; [done|done]|by left]. }
  destruct input as [|c input]; [injection E as <- <-; split_and!; [done|cbn; lia|intros [|? l] ? r; done|right; by left]|].
  destruct ((c =c? NL)%c || (c =c? CR)%c) eqn:Ec.
  - injection E as <- <-. assert (Hc : c = NL ∨ c = CR) by (apply orb_true_iff in Ec as [Ec|Ec]; apply Ascii.eqb_eq in Ec; auto).
    split_and!; [done|cbn; lia| |right; right; by exists [], c]. intros [|x l] d r E _; [by injection E|]. injection E as _ E. by destruct l.
  - destruct (gets_loop room input) as [l1 r1] eqn:E1. injection E as <- <-. destruct (IH _ _ _ E1) as (-> & H2 & H3 & H4).
    split_and!; [done|cbn; lia| |].
    + intros [|x l] d r E Hd; [|injection E as _ E; by eapply H3]. injection E as <- <-. exfalso. apply orb_false_iff in Ec as [E1' E2'].
      destruct Hd as [-> | ->]; [by rewrite Ascii.eqb_refl in E1'|by rewrite Ascii.eqb_refl in E2'].
    + destruct H4 as [H4|[H4|(l & d & -> & Hd)]]; [left; cbn; by rewrite H4|right; by left|right; right; by exists (c :: l), d].
Qed.

(** [memmove] of the user library, which chooses its direction by the pointers alone, is the kernel's. *)
Lemma umemmove_spec m dst src n x :
  0 ≤ n → umemmove m dst src n x = if decide (dst ≤ x < dst + n) then m (src + (x - dst)) else m x.
Proof.
  intros Hn. rewrite <-(Z2Nat.id n) by done. generalize (Z.to_nat n). clear. intros n. unfold umemmove. rewrite Nat2Z.id. destruct (dst <? src) eqn:E.
  - apply Z.ltb_lt in E. rewrite move_fwd_spec by lia. done.
  - apply Z.ltb_ge in E. rewrite move_back_spec by lia. repeat case_decide; try lia; try done. f_equal. lia.
Qed.

(** the two [memmove]s, of the user library and of the kernel, are the same function on memory, overlapping objects included. *)
Theorem memmove_user_kernel m dst src n x : umemmove m dst src (Z.of_nat n) x = KString.memmove m dst src n x.
Proof. by rewrite umemmove_spec, memmove_spec by lia. Qed.

(** ** Numbers *)
Lemma i32_in_range x : 0 ≤ x < 2 ^ 31 → i32 x = x.
Proof. intros H. unfold i32. rewrite Z.mod_small by lia. lia. Qed.

Lemma udigit_char k : 0 ≤ k < 10 → is_digit (digit_of digits k) = true ∧ uchar (digit_of digits k) = uchar "0" + k.
Proof.
  intros Hk. assert (Hc : k ∈ seqZ 0 10) by (apply elem_of_seqZ; lia). revert k Hc Hk.
  assert (H : Forall (λ k, is_digit (digit_of digits k) = true ∧ uchar (digit_of digits k) = uchar "0" + k) (seqZ 0 10)).
  { repeat (constructor; [done|]). constructor. }
  intros k Hc _. rewrite Forall_forall in H. by apply H.
Qed.

Lemma atoi_digits s rest : ∀ n,
  Forall (λ c, ∃ k, 0 ≤ k < 10 ∧ c = digit_of digits k) s → 0 ≤ n → foldl (λ n c, n * 10 + digit_value digits c) n s < 2 ^ 31 →
  atoi_loop n (s ++ rest) = atoi_loop (foldl (λ n c, n * 10 + digit_value digits c) n s) rest.
Proof.
  induction s as [|c s IH]; intros n Hs Hn Hv; [done|]. apply Forall_cons in Hs as [(k & Hk & ->) Hs]. cbn [app atoi_loop foldl] in *.
  destruct (udigit_char k Hk) as [E1 E2]. rewrite E1, E2. rewrite (digit_value_of digits 10 digits_nodup) in * by (cbn; lia).
  pose proof (value_from digits 10 s (n * 10 + k)) as Hf. rewrite Hf in Hv.
  assert (Hpow : 0 < 10 ^ Z.of_nat (length s)) by (apply Z.pow_pos_nonneg; lia).
  assert (Hval : 0 ≤ value digits 10 s).
  { clear -Hs. unfold value. assert (H : ∀ m, 0 ≤ m → 0 ≤ foldl (λ n c, n * 10 + digit_value digits c) m s); [|by apply H].
    induction Hs as [|c s (k & Hk & ->) Hs IH]; intros m Hm; [done|]. cbn. apply IH. rewrite (digit_value_of digits 10 digits_nodup) by (cbn; lia). lia. }
  replace (n * 10 + (uchar "0" + k) - uchar "0") with (n * 10 + k) by lia. rewrite i32_in_range by nia.
  apply IH; [done|lia|]. rewrite Hf. done.
Qed.

(** [atoi] reads back what [printf] prints with "%d": for every number that an [int] can hold and that is not negative, whatever
    follows the digits. *)
Theorem atoi_printint n rest :
  0 ≤ n < 2 ^ 31 → (∀ c, hd_error rest = Some c → is_digit c = false) →
  ∃ s, printint n 10 true = Some s ∧ atoi (s ++ rest) = n.
Proof.
  intros Hn Hr. destruct (printint_with_numeral digits n 10 true digits_nodup eq_refl (or_introl eq_refl) ltac:(lia)) as (s & E & _ & Hv & Hs).
  rewrite (proj2 (Z.ltb_ge _ _)) in E by lia. exists s. split; [done|]. rewrite Z.abs_eq in Hv by lia. unfold atoi.
  rewrite atoi_digits; [|done|done|unfold value in Hv; rewrite Hv; lia]. unfold value in Hv. rewrite Hv.
  destruct rest as [|c rest]; [done|]. cbn. by rewrite (Hr c eq_refl).
Qed.

Theorem atoi_printint_witness : ∃ s, printint 2147483647 10 true = Some s ∧ atoi (s ++ lit " ticks") = 2147483647.
Proof. apply (atoi_printint 2147483647 (lit " ticks")); [split; [discriminate|reflexivity]|]. intros c [= <-]. reflexivity. Defined.
