(* ===== verification/Utils.v ===== *)
(** * User programs (xv6/user/wc.c, cat.c, ls.c)

    What a program reads is the list of the chunks that [read] returns and its last
    result, 0 or negative; what it puts out is its text and its exit status. *)

From S2P Require Export Ulib.

#[local] Set Warnings "-clear-no-such-hyp".
#[local] Set Default Proof Using "Type".
Local Open Scope Z_scope.

(** Text on the output, text on the error output; [Some]: the program has exited. *)
Record run := { out : cstr; err : cstr; status : option Z }.

(** ** wc *)
Record counts := { n_l : Z; n_w : Z; n_c : Z; inword : bool }.

Definition wc_space : cstr := lit " " ++ [CR; TAB; NL; "011"%char].

Definition wc_byte (k : counts) (b : ascii) : counts :=
  let c := i32 (n_c k + 1) in
  let l := if (b =c? NL)%c then i32 (n_l k + 1) else n_l k in
  match strchr wc_space b with
  | Some _ => {| n_l := l; n_w := n_w k; n_c := c; inword := false |}
  | None =>
      if negb (inword k) then {| n_l := l; n_w := i32 (n_w k + 1); n_c := c; inword := true |}
      else {| n_l := l; n_w := n_w k; n_c := c; inword := inword k |}
  end.

(** One turn of the outer loop for each chunk. *)
Definition wc_chunks (chunks : list cstr) : counts :=
  foldl (λ k chunk, foldl wc_byte k chunk) {| n_l := 0; n_w := 0; n_c := 0; inword := false |} chunks.

(** [last]: the result of the last [read]. [None]: see [Printf]. *)
Definition wc (chunks : list cstr) (last : Z) (name : cstr) : option run :=
  let k := wc_chunks chunks in
  if last <? 0 then
    text ← vprintf (lit "wc: read error" ++ [NL]) [];
    Some {| out := text; err := []; status := Some 1 |}
  else
    text ← vprintf (lit "%d %d %d %s" ++ [NL]) [Word (n_l k); Word (n_w k); Word (n_c k); Str (Some name)];
    Some {| out := text; err := []; status := None |}.

(** ** cat *)

(** [wrote]: the results of the writes, in turn. *)
Fixpoint cat (chunks : list cstr) (last : Z) (wrote : list Z) : run :=
  match chunks with
  | [] => if last <? 0 then {| out := []; err := lit "cat: read error" ++ [NL]; status := Some 1 |} else {| out := []; err := []; status := None |}
  | c :: chunks =>
      let w := hd 0 wrote in
      if negb (w =? Z.of_nat (length c)) then {| out := take (Z.to_nat w) c; err := lit "cat: write error" ++ [NL]; status := Some 1 |}
      else let r := cat chunks last (tl wrote) in {| out := c ++ out r; err := err r; status := status r |}
  end.

(** ** ls *)
Definition DIRSIZ : nat := 14.
Definition T_DIR : Z := 1.
Definition T_FILE : Z := 2.
Definition T_DEVICE : Z := 3.

(** Back from the end of the path to the last slash. *)
Fixpoint after_slash (rpath p : cstr) : cstr :=
  match rpath with
  | [] => p
  | c :: rpath => if (c =c? "/")%c then p else after_slash rpath (c :: p)
  end.

Definition fmtname (path : cstr) : cstr :=
  let p := after_slash (rev path) [] in
  if (DIRSIZ <=? length p)%nat then p else p ++ replicate (DIRSIZ - length p) " "%char.

Record ustat := { u_type : Z; u_ino : Z; u_size : Z }.

Definition ls_line (path : cstr) (st : ustat) : option cstr :=
  vprintf (lit "%s %d %d %d" ++ [NL]) [Str (Some (fmtname path)); Word (u_type st); Word (u_ino st); Word (i32 (u_size st))].

(** The string in an array of [DIRSIZ] bytes. *)
Fixpoint until_nul (name : cstr) : cstr :=
  match name with
  | [] => []
  | c :: name => if (c =c? NUL)%c then [] else c :: until_nul name
  end.

Section Ls.
Context (stat : cstr → option ustat).

(** The entries that [read] gives: inode number and name field. *)
Fixpoint ls_entries (path : cstr) (entries : list (Z * cstr)) : option cstr :=
  match entries with
  | [] => Some []
  | (inum, name) :: entries =>
      if inum =? 0 then ls_entries path entries
      else
        let buf := path ++ lit "/" ++ until_nul (take DIRSIZ name) in
        text ← match stat buf with
               | None => vprintf (lit "ls: cannot stat %s" ++ [NL]) [Str (Some buf)]
               | Some st => ls_line buf st
               end;
        more ← ls_entries path entries;
        Some (text ++ more)
  end.

(** [fd]: [open] succeeded; [fst]: what [fstat] gives. *)
Definition ls (path : cstr) (fd : bool) (fst : option ustat) (entries : list (Z * cstr)) : option run :=
  if negb fd then text ← vprintf (lit "ls: cannot open %s" ++ [NL]) [Str (Some path)]; Some {| out := []; err := text; status := None |}
  else
    match fst with
    | None => text ← vprintf (lit "ls: cannot stat %s" ++ [NL]) [Str (Some path)]; Some {| out := []; err := text; status := None |}
    | Some st =>
        if (u_type st =? T_DEVICE) || (u_type st =? T_FILE) then text ← ls_line path st; Some {| out := text; err := []; status := None |}
        else if u_type st =? T_DIR then
          if (512 <? length path + 1 + DIRSIZ + 1)%nat then
            text ← vprintf (lit "ls: path too long" ++ [NL]) []; Some {| out := text; err := []; status := None |}
          else text ← ls_entries path entries; Some {| out := text; err := []; status := None |}
        else Some {| out := []; err := []; status := None |}
    end.
End Ls.

(** ** wc counts *)
Definition is_space (b : ascii) : bool := match strchr wc_space b with Some _ => true | None => false end.

(** The maximal runs of bytes that are not white space, empty ones between two of them included. *)
Fixpoint runs (s : cstr) : list cstr :=
  match s with
  | [] => [[]]
  | b :: s => if is_space b then [] :: runs s else match runs s with r :: rs => (b :: r) :: rs | [] => [[b]] end
  end.

Definition words (s : cstr) : list cstr := filter (λ r, r ≠ []) (runs s).
Definition lines (s : cstr) : nat := length (filter (λ b, b = NL) s).

Lemma runs_cons s : ∃ r rs, runs s = r :: rs.
Proof. destruct s as [|b s]; [by eexists _, _|]. cbn. destruct (is_space b); [by eexists _, _|]. destruct (runs s); by eexists _, _. Qed.

(** Words that begin in [s]; [inw]: the byte before it is in a word. *)
Fixpoint starts (inw : bool) (s : cstr) : nat :=
  match s with
  | [] => 0
  | b :: s => if is_space b then starts false s else ((if inw then 0 else 1) + starts true s)%nat
  end.

Lemma starts_words s : ∀ inw, starts inw s = (length (words s) - match runs s with [] :: _ => 0 | _ => if inw then 1 else 0 end)%nat.
Proof.
  unfold words. induction s as [|b s IH]; intros inw; [done|]. cbn [starts runs]. destruct (is_space b) eqn:Eb.
  - rewrite IH. rewrite filter_cons_False by (intros H; by apply H). destruct (runs s) as [|[|]]; lia.
  - rewrite IH. destruct (runs_cons s) as (r & rs & ->). rewrite !(filter_cons_True _ (b :: r)) by done. cbn [length].
    destruct r as [|x r]; [rewrite filter_cons_False by (intros H; by apply H)|rewrite filter_cons_True by done]; cbn [length]; destruct inw; lia.
Qed.

Lemma starts_length inw s : (starts inw s ≤ length s)%nat.
Proof. revert inw. induction s as [|b s IH]; intros inw; [done|]. cbn. pose proof (IH true). pose proof (IH false). destruct (is_space b), inw; lia. Qed.

Lemma lines_length s : (lines s ≤ length s)%nat.
Proof. apply length_filter. Qed.

Lemma wc_bytes_ok s : ∀ k,
  0 ≤ n_l k → 0 ≤ n_w k → 0 ≤ n_c k → n_l k + Z.of_nat (length s) < 2 ^ 31 → n_w k + Z.of_nat (length s) < 2 ^ 31 → n_c k + Z.of_nat (length s) < 2 ^ 31 →
  let k' := foldl wc_byte k s in
  n_l k' = n_l k + Z.of_nat (lines s) ∧ n_w k' = n_w k + Z.of_nat (starts (inword k) s) ∧ n_c k' = n_c k + Z.of_nat (length s).
Proof.
  induction s as [|b s IH]; intros k Hl Hw Hc Bl Bw Bc; [cbn; lia|]. cbn [foldl length] in *.
  assert (El : Z.of_nat (lines (b :: s)) = (if (b =c? NL)%c then 1 else 0) + Z.of_nat (lines s)).
  { unfold lines. destruct (Ascii.eqb_spec b NL); [rewrite filter_cons_True by done|rewrite filter_cons_False by done]; cbn [length]; lia. }
  rewrite El. cbn [starts]. unfold is_space, wc_byte at 2 4 6. rewrite !i32_in_range by lia.
  destruct (strchr wc_space b) eqn:Es; [|destruct (inword k) eqn:Ei]; cbn [negb];
    (match goal with |- context [foldl wc_byte ?k1 s] => specialize (IH k1); cbn [n_l n_w n_c inword] in IH end);
    destruct (b =c? NL)%c; destruct IH as (I1 & I2 & I3); try lia; rewrite I1, I2, I3; try lia.
Qed.

(** C34: wc counts the newlines, the words (the maximal runs of bytes that are not white space) and the bytes of what it reads, when
    these are fewer than [2^31], wherever [read] cuts it into chunks, and prints the three numbers and the name. *)
Theorem wc_counts chunks name :
  let s := concat chunks in
  Z.of_nat (length s) < 2 ^ 31 →
  ∃ tl tw tc, wc chunks 0 name = Some {| out := tl ++ lit " " ++ tw ++ lit " " ++ tc ++ lit " " ++ name ++ [NL]; err := []; status := None |} ∧
    canonical digits tl ∧ value digits 10 tl = Z.of_nat (lines s) ∧
    canonical digits tw ∧ value digits 10 tw = Z.of_nat (length (words s)) ∧
    canonical digits tc ∧ value digits 10 tc = Z.of_nat (length s).
Proof.
  intros s Hs. unfold wc. assert (Ek : wc_chunks chunks = foldl wc_byte {| n_l := 0; n_w := 0; n_c := 0; inword := false |} s).
  { unfold wc_chunks, s. generalize {| n_l := 0; n_w := 0; n_c := 0; inword := false |}. clear. induction chunks as [|c cs IH]; intros k; [done|]. cbn. by rewrite IH, foldl_app. }
  destruct (wc_bytes_ok s {| n_l := 0; n_w := 0; n_c := 0; inword := false |}) as (E1 & E2 & E3); cbn [n_l n_w n_c inword]; try lia.
  rewrite <-Ek in E1, E2, E3. cbn [n_l n_w n_c inword] in E1, E2, E3. rewrite starts_words in E2.
  replace (match runs s with [] :: _ => 0%nat | _ => 0%nat end) with 0%nat in E2 by (by destruct (runs s) as [|[|]]). rewrite Nat.sub_0_r in E2.
  pose proof (lines_length s) as Hl. pose proof (starts_length false s) as Hw. rewrite starts_words in Hw.
  replace (match runs s with [] :: _ => 0%nat | _ => 0%nat end) with 0%nat in Hw by (by destruct (runs s) as [|[|]]).
  change (0 <? 0) with false. cbn iota.
  destruct (vprintf_text [PNum Short Dec (n_l (wc_chunks chunks)); PLit " "; PNum Short Dec (n_w (wc_chunks chunks)); PLit " ";
    PNum Short Dec (n_c (wc_chunks chunks)); PLit " "; PStr (Some name); PLit NL] []) as (ts & E & Hts); [by repeat constructor|].
  change (concat (piece_format <$> _)) with (lit "%d %d %d %s" ++ [NL]) in E. cbn [fmap list_fmap concat piece_args app] in E. rewrite E. cbn [mbind option_bind].
  repeat match goal with H : Forall2 shows (_ :: _) _ |- _ => apply Forall2_cons_inv_l in H as (? & ? & ? & H & ->) end. apply Forall2_nil_inv_l in Hts as ->.
  repeat match goal with H : shows _ _ |- _ => unfold shows, meant in H end. subst.
  repeat match goal with H : ∃ s, _ |- _ => destruct H as (? & -> & ? & ?) end.
  rewrite E1, E2, E3 in *. rewrite !i32_in_range in * by lia. rewrite !(proj2 (Z.ltb_ge _ _)) by lia. cbn [app concat default from_option id].
  eexists _, _, _. split; [done|]. rewrite !Z.abs_eq in * by lia. auto 10.
Qed.

Theorem wc_counts_witness :
  ∃ tl tw tc, wc [lit "a b"; lit "c" ++ [NL] ++ lit " d"] 0 (lit "f") =
      Some {| out := tl ++ lit " " ++ tw ++ lit " " ++ tc ++ lit " " ++ lit "f" ++ [NL]; err := []; status := None |} ∧
    canonical digits tl ∧ value digits 10 tl = 1 ∧ canonical digits tw ∧ value digits 10 tw = 3 ∧ canonical digits tc ∧ value digits 10 tc = 7.
Proof. apply (wc_counts [lit "a b"; lit "c" ++ [NL] ++ lit " d"] (lit "f")). reflexivity. Defined.

(** ** cat copies, ls names *)

(** When every write is complete, what was read is on the output. *)
Lemma cat_copies chunks last : ∀ wrote,
  Forall2 (λ c w, w = Z.of_nat (length c)) chunks wrote →
  cat chunks last wrote = {| out := concat chunks; err := if last <? 0 then lit "cat: read error" ++ [NL] else []; status := if last <? 0 then Some 1 else None |}.
Proof.
  induction chunks as [|c chunks IH]; intros wrote H; cbn [cat]; [by destruct (last <? 0)|].
  apply Forall2_cons_inv_l in H as (w & wrote' & -> & H & ->). cbn [hd tl]. rewrite Z.eqb_refl. cbn [negb]. by rewrite (IH _ H).
Qed.

Lemma after_slash_app l : ∀ p, "/"%char ∉ l → ∀ r, after_slash (rev l ++ "/"%char :: r) p = l ++ p.
Proof.
  induction l as [|c l IH] using rev_ind; intros p Hl r; [done|]. rewrite rev_app_distr. cbn [rev app after_slash].
  apply not_elem_of_app in Hl as [Hl Hc]. rewrite (proj2 (Ascii.eqb_neq _ _)) by (intros ->; apply Hc; by left). rewrite IH by done. by rewrite <-app_assoc.
Qed.

(** The name of a file in a directory, padded to the width of a directory entry. *)
Lemma fmtname_spec d base :
  "/"%char ∉ base → fmtname (d ++ lit "/" ++ base) = base ++ replicate (DIRSIZ - length base) " "%char.
Proof.
  intros Hb. unfold fmtname. cbn [lit String.list_ascii_of_string app]. rewrite rev_app_distr. cbn [rev]. rewrite <-app_assoc. cbn [app].
  rewrite after_slash_app, app_nil_r by done. destruct (DIRSIZ <=? length base)%nat eqn:E; [|done].
  apply Nat.leb_le in E. replace (DIRSIZ - length base)%nat with 0%nat by lia. by rewrite app_nil_r.
Qed.
