(* ===== verification/Spinlock.v ===== *)
(** * Spin locks on several CPUs (xv6/kernel/spinlock.c)

    Each CPU goes through [acquire] and [release] in steps that other CPUs can come
    between: the accesses to the lock are steps of their own, while [push_off]
    and [pop_off], which only touch the CPU's own data with interrupts off, are
    single steps.  [holding] is one step: its answer depends only on the CPU's own
    writes.  [None]: a panic. *)

From stdpp Require Import functions.
From S2P Require Export Prelude.

#[local] Set Warnings "-clear-no-such-hyp".
#[local] Set Default Proof Using "Type".
Local Open Scope Z_scope.

Record spinlock := { locked : bool; lk_cpu : option nat }.
Definition initlock : spinlock := {| locked := false; lk_cpu := None |}.

(** Where a CPU is. *)
Inductive pc :=
  | Idle
  | AcqCheck (l : nat)   (* after push_off *)
  | AcqSpin (l : nat)    (* in the loop *)
  | AcqOwn (l : nat)     (* the exchange returned 0 *)
  | RelStore (l : nat)   (* lk->cpu is 0 *)
  | RelPop.              (* the lock is free *)

(** [sie]: interrupts are on.  The last three are not in the code: the locks between the exchange and the store, the calls
    of [push_off] on their own that are open, and what the interrupts were before the first. *)
Record cpu := { sie : bool; noff : Z; intena : bool; at_ : pc; own : list nat; pushes : nat; base : bool }.

Definition go (p : pc) (c : cpu) : cpu :=
  {| sie := sie c; noff := noff c; intena := intena c; at_ := p; own := own c; pushes := pushes c; base := base c |}.
Definition with_own (l : list nat) (c : cpu) : cpu :=
  {| sie := sie c; noff := noff c; intena := intena c; at_ := at_ c; own := l; pushes := pushes c; base := base c |}.
Definition with_pushes (n : nat) (c : cpu) : cpu :=
  {| sie := sie c; noff := noff c; intena := intena c; at_ := at_ c; own := own c; pushes := n; base := base c |}.
Definition with_sie (b : bool) (c : cpu) : cpu :=
  {| sie := b; noff := noff c; intena := intena c; at_ := at_ c; own := own c; pushes := pushes c; base := b |}.

Definition push_off (c : cpu) : cpu :=
  let old := sie c in
  {| sie := false; noff := noff c + 1; intena := if noff c =? 0 then old else intena c; at_ := at_ c; own := own c; pushes := pushes c;
     base := base c |}.

Definition pop_off (c : cpu) : option cpu :=
  if sie c then None
  else if noff c <? 1 then None
  else
    let n := noff c - 1 in
    Some {| sie := (n =? 0) && intena c; noff := n; intena := intena c; at_ := at_ c; own := own c; pushes := pushes c; base := base c |}.

Definition holding (me : nat) (lk : spinlock) : bool := locked lk && bool_decide (lk_cpu lk = Some me).

Record smp := { cpus : nat → cpu; locks : nat → spinlock }.

Definition set_cpu (c : nat) (x : cpu) (s : smp) : smp := {| cpus := <[c := x]> (cpus s); locks := locks s |}.
Definition set_lock (l : nat) (x : spinlock) (s : smp) : smp := {| cpus := cpus s; locks := <[l := x]> (locks s) |}.

(** What a CPU can do between calls. *)
Inductive call :=
  | Acquire (l : nat)
  | Release (l : nat)
  | PushOff
  | PopOff
  | SetIntr (b : bool).   (* intr_on, intr_off *)

Definition start (c : nat) (k : call) (s : smp) : option smp :=
  let x := cpus s c in
  match k with
  | Acquire l => Some (set_cpu c (go (AcqCheck l) (push_off x)) s)
  | Release l =>
      if negb (holding c (locks s l)) then None
      else Some (set_cpu c (go (RelStore l) x) (set_lock l {| locked := locked (locks s l); lk_cpu := None |} s))
  | PushOff => Some (set_cpu c (with_pushes (S (pushes x)) (push_off x)) s)
  | PopOff => x ← pop_off x; Some (set_cpu c (with_pushes (pushes x - 1) x) s)
  | SetIntr b => Some (set_cpu c (with_sie b x) s)
  end.

(** One step inside a call. *)
Definition continue (c : nat) (s : smp) : option smp :=
  let x := cpus s c in
  match at_ x with
  | Idle => Some s
  | AcqCheck l => if holding c (locks s l) then None else Some (set_cpu c (go (AcqSpin l) x) s)
  | AcqSpin l =>                       (* the atomic exchange *)
      if locked (locks s l) then Some s
      else Some (set_cpu c (go (AcqOwn l) (with_own (l :: own x) x)) (set_lock l {| locked := true; lk_cpu := lk_cpu (locks s l) |} s))
  | AcqOwn l => Some (set_cpu c (go Idle x) (set_lock l {| locked := locked (locks s l); lk_cpu := Some c |} s))
  | RelStore l =>                      (* the atomic store *)
      Some (set_cpu c (go RelPop (with_own (filter (λ l', l' ≠ l) (own x)) x)) (set_lock l {| locked := false; lk_cpu := lk_cpu (locks s l) |} s))
  | RelPop => x ← pop_off x; Some (set_cpu c (go Idle x) s)
  end.

(** What the callers keep to: [pop_off] undoes a [push_off] of their own, and interrupts are only switched outside of all of them. *)
Definition allowed (x : cpu) (k : call) : Prop :=
  match k with
  | PopOff => (0 < pushes x)%nat
  | SetIntr _ => noff x = 0
  | _ => True
  end.

Inductive step (s : smp) : option smp → Prop :=
  | s_start c k : at_ (cpus s c) = Idle → allowed (cpus s c) k → step s (start c k s)
  | s_continue c : at_ (cpus s c) ≠ Idle → step s (continue c s).

Inductive reach (s : smp) : option smp → Prop :=
  | r_here : reach s (Some s)
  | r_step s1 r : reach s (Some s1) → step s1 r → reach s r.

(** All locks free, all CPUs outside of calls. *)
Definition fresh (s : smp) : Prop :=
  (∀ l, locks s l = initlock) ∧
  ∀ c, noff (cpus s c) = 0 ∧ at_ (cpus s c) = Idle ∧ own (cpus s c) = [] ∧ pushes (cpus s c) = 0%nat ∧ base (cpus s c) = sie (cpus s c).

(** ** The invariant *)

(** A [push_off] whose lock is not held yet, or not any more. *)
Definition pending (p : pc) : nat := match p with AcqCheck _ | AcqSpin _ | RelPop => 1 | _ => 0 end.

Record cpu_ok (x : cpu) : Prop := {
  co_noff : noff x = Z.of_nat (length (own x) + pushes x + pending (at_ x));
  co_sie : sie x = (noff x =? 0) && base x;
  co_intena : noff x ≠ 0 → intena x = base x;
  co_nodup : NoDup (own x);
  co_own l : at_ x = AcqOwn l ∨ at_ x = RelStore l → l ∈ own x;
  co_spin l : at_ x = AcqSpin l → l ∉ own x
}.

Record smp_ok (s : smp) : Prop := {
  so_cpu c : cpu_ok (cpus s c);
  so_apart c c' l : l ∈ own (cpus s c) → l ∈ own (cpus s c') → c = c';
  so_locked l : locked (locks s l) = true ↔ ∃ c, l ∈ own (cpus s c);
  so_holder l c : lk_cpu (locks s l) = Some c ↔ l ∈ own (cpus s c) ∧ at_ (cpus s c) ≠ AcqOwn l ∧ at_ (cpus s c) ≠ RelStore l
}.

Lemma holding_own s c l :
  smp_ok s → holding c (locks s l) = true ↔ l ∈ own (cpus s c) ∧ at_ (cpus s c) ≠ AcqOwn l ∧ at_ (cpus s c) ≠ RelStore l.
Proof.
  intros I. unfold holding. rewrite andb_true_iff, bool_decide_eq_true, (so_holder _ I). split; [tauto|]. intros H. split; [|done].
  apply (so_locked _ I). exists c. tauto.
Qed.

Lemma push_off_ok x p : cpu_ok x → pending p = S (pending (at_ x)) → (∀ l, p ≠ AcqOwn l ∧ p ≠ RelStore l ∧ p ≠ AcqSpin l) → cpu_ok (go p (push_off x)).
Proof.
  intros [C1 C2 C3 C4 C5 C6] Hp Hn. split; cbn.
  - rewrite C1, Hp. lia.
  - rewrite (proj2 (Z.eqb_neq _ 0)) by lia. done.
  - intros _. destruct (noff x =? 0) eqn:E; [by rewrite C2|]. apply C3. by apply Z.eqb_neq.
  - done.
  - intros l [H|H]; by destruct (Hn l) as (? & ? & ?).
  - intros l H. by destruct (Hn l) as (? & ? & ?).
Qed.

(** [pop_off] is allowed whenever one is open, and gives back what the first [push_off] found. *)
Lemma pop_off_ok x : cpu_ok x → 0 < noff x → ∃ y, pop_off x = Some y ∧ noff y = noff x - 1 ∧ sie y = (noff y =? 0) && base y ∧
  (noff y ≠ 0 → intena y = base y) ∧ at_ y = at_ x ∧ own y = own x ∧ pushes y = pushes x ∧ base y = base x.
Proof.
  intros [C1 C2 C3 C4 C5 C6] Hn. unfold pop_off. rewrite C2, (proj2 (Z.eqb_neq _ 0)) by lia. cbn [andb].
  rewrite (proj2 (Z.ltb_ge _ _)) by lia. eexists. split; [done|]. cbn. rewrite C3 by lia. by split_and!.
Qed.

Section Update.
Context (s : smp) (c : nat) (x : cpu) (I : smp_ok s) (Hx : cpu_ok x).

Lemma set_cpu_lookup c' : cpus (set_cpu c x s) c' = if decide (c' = c) then x else cpus s c'.
Proof using Type. cbn. case_decide as E; [subst; by rewrite fn_lookup_insert|by rewrite fn_lookup_insert_ne]. Qed.

(** The CPU moves, its locks and those it has just taken or will free stay. *)
Lemma set_cpu_ok :
  own x = own (cpus s c) → (∀ l, (at_ x = AcqOwn l ∨ at_ x = RelStore l) ↔ (at_ (cpus s c) = AcqOwn l ∨ at_ (cpus s c) = RelStore l)) →
  smp_ok (set_cpu c x s).
Proof using I Hx.
  intros Ho Hp. destruct I as [S1 S2 S3 S4]. assert (Hown : ∀ c', own (cpus (set_cpu c x s) c') = own (cpus s c')).
  { intros c'. rewrite set_cpu_lookup. by case_decide; subst. }
  split.
  - intros c'. rewrite set_cpu_lookup. by case_decide.
  - intros c1 c2 l. rewrite !Hown. apply S2.
  - intros l. cbn [locks set_cpu]. rewrite S3. by setoid_rewrite Hown.
  - intros l c'. cbn [locks set_cpu]. rewrite S4, Hown, set_cpu_lookup. case_decide as E; [subst c'|done].
    specialize (Hp l). clear -Hp. tauto.
Qed.
End Update.

Lemma cpu_go x p :
  cpu_ok x → pending p = pending (at_ x) → (∀ l, p = AcqOwn l ∨ p = RelStore l → l ∈ own x) → (∀ l, p = AcqSpin l → l ∉ own x) → cpu_ok (go p x).
Proof. intros [C1 C2 C3 C4 C5 C6] Hp Ho Hs. split; cbn; try done. by rewrite Hp. Qed.

Lemma start_ok s c k :
  smp_ok s → at_ (cpus s c) = Idle → allowed (cpus s c) k →
  match start c k s with Some s' => smp_ok s' | None => ∃ l, k = Release l ∧ l ∉ own (cpus s c) end.
Proof.
  intros I Hi Ha. pose proof (so_cpu _ I c) as C. destruct k as [l|l| | |b]; cbn [start].
  - apply set_cpu_ok; [done|apply push_off_ok; [done|by rewrite Hi|done]|done|]. intros l'. cbn. rewrite Hi. split; by intros [|].
  - destruct (holding c (locks s l)) eqn:Eh; cbn [negb].
    + apply (holding_own s c l I) in Eh as (Ho & _). destruct I as [S1 S2 S3 S4].
      assert (Hown : ∀ c', own (cpus (set_cpu c (go (RelStore l) (cpus s c)) s) c') = own (cpus s c')).
      { intros c'. rewrite set_cpu_lookup. by case_decide; subst. }
      split; cbn [locks set_cpu set_lock cpus] in *.
      * intros c'. destruct (decide (c' = c)) as [->|Hne]; [rewrite fn_lookup_insert|by rewrite fn_lookup_insert_ne].
        apply cpu_go; [done|by rewrite Hi| |done]. intros l' [|[= <-]]; done.
      * intros c1 c2 l'. rewrite !Hown. apply S2.
      * intros l'. setoid_rewrite Hown. rewrite <-S3. destruct (decide (l' = l)) as [->|Hl]; [by rewrite fn_lookup_insert|by rewrite fn_lookup_insert_ne].
      * intros l' c'. rewrite Hown. destruct (decide (l' = l)) as [->|Hl].
        -- rewrite fn_lookup_insert. cbn. split; [done|]. intros (Hc' & _ & Hr). destruct (decide (c' = c)) as [->|Hne]; [|by destruct Hne; apply (S2 c' c l)].
           by rewrite fn_lookup_insert in Hr.
        -- rewrite fn_lookup_insert_ne, S4 by done. destruct (decide (c' = c)) as [->|Hne]; [|by rewrite fn_lookup_insert_ne]. rewrite fn_lookup_insert, Hi. cbn.
           split; intros (H1 & H2 & H3); (split; [done|split; congruence]).
    + exists l. split; [done|]. intros Ho. assert (Ht : holding c (locks s l) = true); [|congruence]. apply holding_own; [done|]. rewrite Hi. done.
  - apply set_cpu_ok; [done| |done|done].
    pose proof (push_off_ok _ (AcqCheck 0) C ltac:(by rewrite Hi) ltac:(done)) as [C1 C2 C3 C4 C5 C6].
    split; cbn in *; try done; rewrite ?Hi in *; cbn in *; try done; [lia|]; intros l' H; by destruct H.
  - cbn in Ha. assert (Hn : 0 < noff (cpus s c)) by (rewrite (co_noff _ C); lia).
    destruct (pop_off_ok _ C Hn) as (y & E & E1 & E2 & E3 & E4 & E5 & E6 & E7). rewrite E. cbn [mbind option_bind].
    apply set_cpu_ok; [done| |done|cbn; by rewrite E4]. destruct C as [C1 C2 C3 C4 C5 C6].
    split; cbn; rewrite ?E4, ?E5, ?E6; try done. rewrite E1, C1. lia.
  - apply set_cpu_ok; [done| |done|done]. destruct C as [C1 C2 C3 C4 C5 C6]. cbn in Ha. split; cbn; try done. by rewrite Ha.
Qed.

Lemma filter_absent (l : nat) (k : list nat) : l ∉ k → filter (λ l', l' ≠ l) k = k.
Proof.
  induction k as [|x k IH]; [done|]. intros [Hx Hk]%not_elem_of_cons. rewrite filter_cons_True by done. by rewrite IH.
Qed.

Lemma continue_ok s c :
  smp_ok s → match continue c s with Some s' => smp_ok s' | None => ∃ l, at_ (cpus s c) = AcqCheck l ∧ l ∈ own (cpus s c) end.
Proof.
  intros I. pose proof (so_cpu _ I c) as C. unfold continue. destruct (at_ (cpus s c)) as [|l|l|l|l|] eqn:Ep.
  - done.
  - destruct (holding c (locks s l)) eqn:Eh.
    + exists l. split; [done|]. by apply (holding_own s c l I) in Eh as [? _].
    + apply set_cpu_ok; [done| |done|cbn; rewrite Ep; intros l'; split; by intros [|]].
      apply cpu_go; [done|by rewrite Ep|by intros l' [|]|]. intros l' [= <-] Ho. assert (holding c (locks s l) = true); [|congruence].
      apply holding_own; [done|]. by rewrite Ep.
  - destruct (locked (locks s l)) eqn:El; [done|]. pose proof I as [S1 S2 S3 S4].
    assert (Hfree : ∀ c', l ∉ own (cpus s c')).
    { intros c' Hc'. assert (locked (locks s l) = true); [|congruence]. apply S3. by exists c'. }
    set (x := go (AcqOwn l) (with_own (l :: own (cpus s c)) (cpus s c))).
    assert (Hown : ∀ c' l', l' ∈ own (<[c := x]> (cpus s) c') ↔ (c' = c ∧ l' = l) ∨ l' ∈ own (cpus s c')).
    { intros c' l'. destruct (decide (c' = c)) as [->|Hne]; [rewrite fn_lookup_insert|rewrite fn_lookup_insert_ne by done]; cbn; rewrite ?elem_of_cons; naive_solver. }
    split; cbn [locks set_cpu set_lock cpus].
    + intros c'. destruct (decide (c' = c)) as [->|Hne]; [rewrite fn_lookup_insert|by rewrite fn_lookup_insert_ne].
      destruct C as [C1 C2 C3 C4 C5 C6]. rewrite Ep in C1. split; cbn; try done; [rewrite C1; cbn; lia|by apply NoDup_cons|intros l' [[= <-]|]; [by left|done]].
    + intros c1 c2 l'. rewrite !Hown. intros [[-> ->]|H1] [[-> ?]|H2]; [done|by apply Hfree in H2|subst; by apply Hfree in H1|by apply (S2 c1 c2 l')].
    + intros l'. setoid_rewrite Hown. destruct (decide (l' = l)) as [->|Hl]; [rewrite fn_lookup_insert|rewrite fn_lookup_insert_ne, S3 by done]; cbn; naive_solver.
    + intros l' c'. rewrite Hown. assert (Hlk : lk_cpu (<[l := {| locked := true; lk_cpu := lk_cpu (locks s l) |}]> (locks s) l') = lk_cpu (locks s l')).
      { destruct (decide (l' = l)) as [->|Hl]; [by rewrite fn_lookup_insert|by rewrite fn_lookup_insert_ne]. }
      rewrite Hlk, S4. destruct (decide (c' = c)) as [->|Hne]; [rewrite fn_lookup_insert|rewrite fn_lookup_insert_ne by done; naive_solver]. cbn. rewrite Ep.
      destruct (decide (l' = l)) as [->|Hl]; [|clear -Hl; naive_solver]. split; [intros (H1 & _); by apply Hfree in H1|]. intros (_ & H1 & _). by destruct H1.
  - destruct I as [S1 S2 S3 S4]. pose proof (co_own _ C l (or_introl Ep)) as Ho.
    assert (Hown : ∀ c', own (cpus (set_cpu c (go Idle (cpus s c)) s) c') = own (cpus s c')).
    { intros c'. rewrite set_cpu_lookup. by case_decide; subst. }
    split; cbn [locks set_cpu set_lock cpus] in *.
    + intros c'. destruct (decide (c' = c)) as [->|Hne]; [rewrite fn_lookup_insert|by rewrite fn_lookup_insert_ne].
      apply cpu_go; [done|by rewrite Ep|by intros l' [|]|done].
    + intros c1 c2 l'. rewrite !Hown. apply S2.
    + intros l'. setoid_rewrite Hown. rewrite <-S3. destruct (decide (l' = l)) as [->|Hl]; [by rewrite fn_lookup_insert|by rewrite fn_lookup_insert_ne].
    + intros l' c'. rewrite Hown. destruct (decide (l' = l)) as [->|Hl].
      * rewrite fn_lookup_insert. cbn. destruct (decide (c' = c)) as [->|Hne]; [by rewrite fn_lookup_insert|]. rewrite fn_lookup_insert_ne by done.
        split; [intros [= ->]; done|]. intros (H1 & _). by destruct Hne; apply (S2 c' c l).
      * rewrite fn_lookup_insert_ne, S4 by done. destruct (decide (c' = c)) as [->|Hne]; [|by rewrite fn_lookup_insert_ne]. rewrite fn_lookup_insert, Ep. cbn.
        split; intros (H1 & H2 & H3); (split; [done|split; congruence]).
  - pose proof I as [S1 S2 S3 S4]. pose proof (co_own _ C l (or_intror Ep)) as Ho.
    set (x := go RelPop (with_own (filter (λ l', l' ≠ l) (own (cpus s c))) (cpus s c))).
    assert (Hown : ∀ c' l', l' ∈ own (<[c := x]> (cpus s) c') ↔ l' ≠ l ∧ l' ∈ own (cpus s c')).
    { intros c' l'. destruct (decide (c' = c)) as [->|Hne].
      - rewrite fn_lookup_insert. cbn. by rewrite list_elem_of_filter.
      - rewrite fn_lookup_insert_ne by done. split; [|tauto]. intros H1. split; [|done]. intros ->. by apply Hne, (S2 c' c l). }
    split; cbn [locks set_cpu set_lock cpus].
    + intros c'. destruct (decide (c' = c)) as [->|Hne]; [rewrite fn_lookup_insert|by rewrite fn_lookup_insert_ne].
      destruct C as [C1 C2 C3 C4 C5 C6]. rewrite Ep in C1. split; cbn; try done; [|by apply NoDup_filter|by intros l' [|]].
      rewrite C1. cbn. apply list_elem_of_split in Ho as (l1 & l2 & Eo). rewrite Eo in C4 |- *. apply NoDup_app in C4 as (_ & Hn1 & Hn2).
      apply NoDup_cons in Hn2 as [Hn2 _]. rewrite filter_app, filter_cons_False by tauto.
      rewrite !filter_absent; [rewrite !length_app; cbn; lia|done|]. intros H1. apply (Hn1 l H1). by left.
    + intros c1 c2 l'. rewrite !Hown. intros [_ H1] [_ H2]. by apply (S2 c1 c2 l').
    + intros l'. setoid_rewrite Hown. destruct (decide (l' = l)) as [->|Hl]; [rewrite fn_lookup_insert|rewrite fn_lookup_insert_ne, S3 by done]; cbn; naive_solver.
    + intros l' c'. rewrite Hown. assert (Hlk : lk_cpu (<[l := {| locked := false; lk_cpu := lk_cpu (locks s l) |}]> (locks s) l') = lk_cpu (locks s l')).
      { destruct (decide (l' = l)) as [->|Hl]; [by rewrite fn_lookup_insert|by rewrite fn_lookup_insert_ne]. }
      rewrite Hlk, S4. destruct (decide (l' = l)) as [->|Hl].
      * split; [|tauto]. intros (H1 & H2 & H3). exfalso. assert (c' = c) as -> by by apply (S2 c' c l). by rewrite Ep in H3.
      * destruct (decide (c' = c)) as [->|Hne]; [rewrite fn_lookup_insert|rewrite fn_lookup_insert_ne by done; tauto]. cbn. rewrite Ep. clear -Hl. naive_solver.
  - assert (Hn : 0 < noff (cpus s c)) by (rewrite (co_noff _ C), Ep; cbn; lia).
    destruct (pop_off_ok _ C Hn) as (y & E & E1 & E2 & E3 & E4 & E5 & E6 & E7). rewrite E. cbn [mbind option_bind].
    apply set_cpu_ok; [done| |done|cbn; rewrite Ep; intros l'; split; by intros [|]]. destruct C as [C1 C2 C3 C4 C5 C6]. rewrite Ep in C1.
    split; cbn; rewrite ?E5, ?E6; try done; [rewrite E1, C1; cbn; lia|by intros l [|]].
Qed.

Lemma fresh_ok s : fresh s → smp_ok s.
Proof.
  intros [Hl Hc]. split.
  - intros c. destruct (Hc c) as (H1 & H2 & H3 & H4 & H5). split; rewrite ?H1, ?H2, ?H3, ?H4; try done; [apply NoDup_nil_2|by intros l [|]].
  - intros c c' l H1. destruct (Hc c) as (_ & _ & H3 & _). rewrite H3 in H1. by apply elem_of_nil in H1.
  - intros l. rewrite Hl. cbn. split; [done|]. intros (c & H1). destruct (Hc c) as (_ & _ & H3 & _). rewrite H3 in H1. by apply elem_of_nil in H1.
  - intros l c. rewrite Hl. cbn. split; [done|]. intros (H1 & _). destruct (Hc c) as (_ & _ & H3 & _). rewrite H3 in H1. by apply elem_of_nil in H1.
Qed.

Lemma reach_ok s r : fresh s → reach s r → match r with Some s' => smp_ok s' | None =>
    ∃ s1 c l, reach s (Some s1) ∧ ((at_ (cpus s1 c) = AcqCheck l ∧ l ∈ own (cpus s1 c)) ∨ (start c (Release l) s1 = None ∧ l ∉ own (cpus s1 c))) end.
Proof.
  intros Hf Hr. induction Hr as [|s1 r Hr IH Hs]; [by apply fresh_ok|]. destruct Hs as [c k Hi Ha|c Hi].
  - pose proof (start_ok s1 c k IH Hi Ha) as H. destruct (start c k s1) as [s2|] eqn:E; [done|]. destruct H as (l & -> & Hl). exists s1, c, l. auto.
  - pose proof (continue_ok s1 c IH) as H. destruct (continue c s1) as [s2|]; [done|]. destruct H as (l & H). exists s1, c, l. auto.
Qed.

(** C14: on any number of CPUs, in every interleaving of calls of [acquire], [release], [push_off] and [pop_off]: a lock is never held by
    two CPUs; a CPU that holds a lock has its interrupts off, at every nesting and in any order of releases; when it has
    released all and undone its [push_off]s, they are as they were before the first; and nothing panics but an [acquire] of a
    lock that the CPU already holds and a [release] of one that it does not hold. *)
Theorem locks_exclude s r :
  fresh s → reach s r →
  match r with
  | Some s' =>
      (∀ l c c', l ∈ own (cpus s' c) → l ∈ own (cpus s' c') → c = c') ∧
      (∀ c, own (cpus s' c) ≠ [] → sie (cpus s' c) = false) ∧
      (∀ c, own (cpus s' c) = [] → pushes (cpus s' c) = 0%nat → at_ (cpus s' c) = Idle → noff (cpus s' c) = 0 ∧ sie (cpus s' c) = base (cpus s' c))
  | None =>
      ∃ s1 c l, reach s (Some s1) ∧ ((at_ (cpus s1 c) = AcqCheck l ∧ l ∈ own (cpus s1 c)) ∨ (start c (Release l) s1 = None ∧ l ∉ own (cpus s1 c)))
  end.
Proof.
  intros Hf Hr. pose proof (reach_ok s r Hf Hr) as H. destruct r as [s'|]; [|exact H]. split_and!.
  - intros l c c'. apply (so_apart _ H).
  - intros c Ho. pose proof (so_cpu _ H c) as [C1 C2 C3 C4 C5 C6]. rewrite C2, (proj2 (Z.eqb_neq _ 0)); [done|]. rewrite C1. destruct (own _); [done|]. cbn. lia.
  - intros c Ho Hp Hi. pose proof (so_cpu _ H c) as [C1 C2 C3 C4 C5 C6]. rewrite Ho, Hp, Hi in C1. cbn in C1. split; [done|]. by rewrite C2, C1.
Qed.

(** CPU 0 holds lock 3 and CPU 1 spins for it. *)
Definition quiet : smp :=
  {| cpus := λ _, {| sie := true; noff := 0; intena := false; at_ := Idle; own := []; pushes := 0; base := true |}; locks := λ _, initlock |}.

Definition contended : smp :=
  default quiet (s1 ← start 0 (Acquire 3) quiet; s2 ← continue 0 s1; s3 ← continue 0 s2; s4 ← continue 0 s3; s5 ← start 1 (Acquire 3) s4; s6 ← continue 1 s5; continue 1 s6).

Theorem locks_exclude_witness :
  own (cpus contended 0) = [3%nat] ∧ at_ (cpus contended 1) = AcqSpin 3 ∧
  (∀ l c c', l ∈ own (cpus contended c) → l ∈ own (cpus contended c') → c = c') ∧ sie (cpus contended 0) = false.
Proof.
  assert (Hf : fresh quiet) by (split; [reflexivity|intros c; split_and!; reflexivity]).
  assert (Hr : reach quiet (Some contended)).
  { assert (R1 : reach quiet (start 0 (Acquire 3) quiet)) by (eapply r_step; [apply r_here|apply s_start; [reflexivity|exact I]]).
    do 3 (eapply r_step in R1; [|apply (s_continue _ 0); vm_compute; discriminate]).
    eapply r_step in R1; [|apply (s_start _ 1 (Acquire 3)); [reflexivity|exact I]].
    do 2 (eapply r_step in R1; [|apply (s_continue _ 1); vm_compute; discriminate]).
    exact R1. }
  destruct (locks_exclude quiet (Some contended) Hf Hr) as (H1 & H2 & _).
  split; [vm_compute; reflexivity|]. split; [vm_compute; reflexivity|]. split; [exact H1|]. apply H2. vm_compute. discriminate.
Defined.
