(* ===== verification/Trap.v ===== *)
(** * Traps and system call dispatch (xv6/kernel/trap.c, trampoline.S, kernelvec.S, syscall.c)

    A hart that runs one process: registers, control registers, the words of memory
    that the entry code uses.  The entry code is a list of instructions; the functions
    of trap.c run on the same state.  [Traps] is what they call: the devices, the
    page faults of [Vm], the system calls, and what happens while the process has given
    up the CPU. *)

From stdpp Require Import functions.
From S2P Require Export Proc Sched.
From S2P Require Import Vm.

#[local] Set Default Proof Using "Type".
Local Open Scope Z_scope.

(** ** Registers *)
Module R.
Inductive reg :=
  | ra | sp | gp | tp | t0 | t1 | t2 | s0 | s1 | a0 | a1 | a2 | a3 | a4 | a5 | a6 | a7
  | s2 | s3 | s4 | s5 | s6 | s7 | s8 | s9 | s10 | s11 | t3 | t4 | t5 | t6.
#[export] Instance reg_eq_dec : EqDecision reg.
Proof. solve_decision. Defined.
End R.
Export (hints) R.
Abbreviation reg := R.reg.

Inductive csr := SSTATUS | SEPC | SCAUSE | STVAL | STVEC | SATP | SSCRATCH | STIMECMP.
#[export] Instance csr_eq_dec : EqDecision csr.
Proof. solve_decision. Defined.

Definition SSTATUS_SPP : Z := Z.shiftl 1 8.
Definition SSTATUS_SPIE : Z := Z.shiftl 1 5.
Definition SSTATUS_SIE : Z := Z.shiftl 1 1.

Definition SATP_SV39 : Z := Z.shiftl 8 60.
Definition MAKE_SATP (pagetable : Z) : Z := Z.lor SATP_SV39 (Z.shiftr pagetable 12).

Definition UART0_IRQ : Z := 10.
Definition VIRTIO0_IRQ : Z := 1.

(** ** The trap frame *)
Inductive field := kernel_satp | kernel_sp | kernel_trap | epc | kernel_hartid | saved (r : reg).
#[export] Instance field_eq_dec : EqDecision field.
Proof. solve_decision. Defined.

Definition offset (f : field) : Z :=
  match f with
  | kernel_satp => 0 | kernel_sp => 8 | kernel_trap => 16 | epc => 24 | kernel_hartid => 32
  | saved r =>
      match r with
      | R.ra => 40 | R.sp => 48 | R.gp => 56 | R.tp => 64 | R.t0 => 72 | R.t1 => 80 | R.t2 => 88 | R.s0 => 96 | R.s1 => 104
      | R.a0 => 112 | R.a1 => 120 | R.a2 => 128 | R.a3 => 136 | R.a4 => 144 | R.a5 => 152 | R.a6 => 160 | R.a7 => 168
      | R.s2 => 176 | R.s3 => 184 | R.s4 => 192 | R.s5 => 200 | R.s6 => 208 | R.s7 => 216 | R.s8 => 224 | R.s9 => 232
      | R.s10 => 240 | R.s11 => 248 | R.t3 => 256 | R.t4 => 264 | R.t5 => 272 | R.t6 => 280
      end
  end.

(** ** System calls *)
Inductive sysname :=
  | sys_fork | sys_exit | sys_wait | sys_pipe | sys_read | sys_kill | sys_exec | sys_fstat | sys_chdir | sys_dup | sys_getpid
  | sys_sbrk | sys_pause | sys_uptime | sys_open | sys_write | sys_mknod | sys_unlink | sys_link | sys_mkdir | sys_close
  | sys_sync | sys_waitx.

(** The array, without its empty entry 0. *)
Definition syscalls : list sysname :=
  [sys_fork; sys_exit; sys_wait; sys_pipe; sys_read; sys_kill; sys_exec; sys_fstat; sys_chdir; sys_dup; sys_getpid; sys_sbrk;
   sys_pause; sys_uptime; sys_open; sys_write; sys_mknod; sys_unlink; sys_link; sys_mkdir; sys_close; sys_sync; sys_waitx].

Definition syscall_fn (num : Z) : option sysname :=
  if (0 <? num) && (num <? 1 + Z.of_nat (length syscalls)) then syscalls !! Z.to_nat (num - 1) else None.

(** ** The state *)

(** What is printed. *)
Inductive msg :=
  | UnexpectedIrq (irq : Z)
  | UnexpectedCause (cause pid pc val : Z)
  | KernelCause (cause pc val : Z)
  | UnknownCall (pid num : Z).

(** The process: [me] is its entry of the table, [None] on a hart that is idle; [kstack_pa] is where the page table of the kernel
    maps its stack.  [dev] is the rest: devices, other memory, other processes. *)
Record world D := {
  kern : kernel;
  me : option nat;
  pagetable : Z;
  sz : Z;
  kstack : Z;
  kstack_pa : Z;
  trapframe : Z;
  dev : D
}.
Arguments kern {D}. Arguments me {D}. Arguments pagetable {D}. Arguments sz {D}. Arguments kstack {D}. Arguments kstack_pa {D}.
Arguments trapframe {D}. Arguments dev {D}.

(** [ram] has 64-bit words, at addresses that are multiples of 8. *)
Record mach D := {
  user : bool;
  pc : Z;
  x : reg → Z;
  csrs : csr → Z;
  hart : Z;
  ram : Z → Z;
  w : world D;
  out : list msg
}.
Arguments user {D}. Arguments pc {D}. Arguments x {D}. Arguments csrs {D}. Arguments hart {D}. Arguments ram {D}. Arguments w {D}.
Arguments out {D}.

Section Setters.
Context {D : Type}.
Implicit Types (m : mach D) (v : world D).

Definition set_mode (b : bool) (a : Z) m : mach D :=
  {| user := b; pc := a; x := x m; csrs := csrs m; hart := hart m; ram := ram m; w := w m; out := out m |}.
Definition set_x (y : reg → Z) m : mach D :=
  {| user := user m; pc := pc m; x := y; csrs := csrs m; hart := hart m; ram := ram m; w := w m; out := out m |}.
Definition set_csrs (y : csr → Z) m : mach D :=
  {| user := user m; pc := pc m; x := x m; csrs := y; hart := hart m; ram := ram m; w := w m; out := out m |}.
Definition set_ram (y : Z → Z) m : mach D :=
  {| user := user m; pc := pc m; x := x m; csrs := csrs m; hart := hart m; ram := y; w := w m; out := out m |}.
Definition set_w (v : world D) m : mach D :=
  {| user := user m; pc := pc m; x := x m; csrs := csrs m; hart := hart m; ram := ram m; w := v; out := out m |}.
Definition add_out (l : msg) m : mach D :=
  {| user := user m; pc := pc m; x := x m; csrs := csrs m; hart := hart m; ram := ram m; w := w m; out := out m ++ [l] |}.
Definition set_kern (k : kernel) v : world D :=
  {| kern := k; me := me v; pagetable := pagetable v; sz := sz v; kstack := kstack v; kstack_pa := kstack_pa v;
     trapframe := trapframe v; dev := dev v |}.
Definition set_dev (d : D) v : world D :=
  {| kern := kern v; me := me v; pagetable := pagetable v; sz := sz v; kstack := kstack v; kstack_pa := kstack_pa v;
     trapframe := trapframe v; dev := d |}.
End Setters.

(** How a trap can end but by a return: the process exits, the kernel panics, the entry code itself traps. *)
Inductive stop := Exits | Panics (why : string) | Faults.

Abbreviation T D := (M (mach D) stop).

(** The parts of the kernel that trap.c calls. *)
Class Traps (D : Type) := {
  plic_claim : D → Z * D;
  plic_complete : Z → D → D;
  uartintr : D → D;
  virtio_disk_intr : D → D;
  r_time : D → Z;
  vmfault : (Z * Z * Z * bool) → D → Z * D;      (* pagetable, sz, va, read *)
  sys : sysname → T D Z;
  resched : mach D → mach D;                     (* from sched to the return from it *)
  forkret_init : T D ()                          (* fsinit and kexec of init *)
}.

(** ** The processor *)
Inductive instr :=
  | Li (rd : reg) (v : Z)
  | Addi (rd rs : reg) (v : Z)
  | Sd (rs : reg) (off : Z) (base : reg)
  | Ld (rd : reg) (off : Z) (base : reg)
  | Csrw (c : csr) (rs : reg)
  | Csrr (rd : reg) (c : csr)
  | Fence.                           (* sfence.vma, fence.i *)

Section Machine.
Context {D : Type} `{!Traps D} (pol : policy).

(** Addresses from the linker: of [uservec] in the trampoline page, of [kernelvec] and [usertrap], and the
    page table of the kernel. *)
Context (uservec kernelvec usertrap_entry kernel_pagetable : Z).
Implicit Types (m : mach D).

Definition ksatp : Z := MAKE_SATP kernel_pagetable.
Definition usatp (v : world D) : Z := MAKE_SATP (pagetable v).

(** The kernel's page table maps the stack of the process and all other memory as it is; the user's, for the kernel, the trap
    frame only. *)
Definition translate (m : mach D) (va : Z) : option Z :=
  if csrs m SATP =? ksatp then
    Some (if (kstack (w m) <=? va) && (va <? kstack (w m) + PGSIZE) then kstack_pa (w m) + (va - kstack (w m)) else va)
  else if csrs m SATP =? usatp (w m) then
    if (TRAPFRAME <=? va) && (va <? TRAPFRAME + PGSIZE) then Some (trapframe (w m) + (va - TRAPFRAME)) else None
  else None.

Definition run_instr (i : instr) : T D () := λ m,
  match i with
  | Li rd v => (Ret (), set_x (<[rd := v]> (x m)) m)
  | Addi rd rs v => (Ret (), set_x (<[rd := u64 (x m rs + v)]> (x m)) m)
  | Sd rs off base =>
      match translate m (u64 (x m base + off)) with
      | Some a => (Ret (), set_ram (<[a := x m rs]> (ram m)) m)
      | None => (Err Faults, m)
      end
  | Ld rd off base =>
      match translate m (u64 (x m base + off)) with
      | Some a => (Ret (), set_x (<[rd := ram m a]> (x m)) m)
      | None => (Err Faults, m)
      end
  | Csrw c rs => (Ret (), set_csrs (<[c := x m rs]> (csrs m)) m)
  | Csrr rd c => (Ret (), set_x (<[rd := csrs m c]> (x m)) m)
  | Fence => (Ret (), m)
  end.

Fixpoint run (l : list instr) : T D () :=
  match l with
  | [] => mret ()
  | i :: l => run_instr i;; run l
  end.

(** A trap: the mode and the interrupt flag go to SPP and SPIE. *)
Definition trap_status (b : bool) (s : Z) : Z :=
  Z.lor (Z.ldiff s (Z.lor SSTATUS_SPP (Z.lor SSTATUS_SPIE SSTATUS_SIE)))
    (Z.lor (if b then 0 else SSTATUS_SPP) (if Z.testbit s 1 then SSTATUS_SPIE else 0)).

Definition hw_trap (cause val : Z) : T D () :=
  modify (λ m, set_mode false (csrs m STVEC)
    (set_csrs (<[SEPC := pc m]> (<[SCAUSE := cause]> (<[STVAL := val]> (<[SSTATUS := trap_status (user m) (csrs m SSTATUS)]> (csrs m))))) m)).

Definition sret_status (s : Z) : Z :=
  Z.lor (Z.ldiff s (Z.lor SSTATUS_SPP SSTATUS_SIE)) (Z.lor SSTATUS_SPIE (if Z.testbit s 5 then SSTATUS_SIE else 0)).

Definition sret : T D () :=
  modify (λ m, set_mode (negb (Z.testbit (csrs m SSTATUS) 8)) (csrs m SEPC)
    (set_csrs (<[SSTATUS := sret_status (csrs m SSTATUS)]> (csrs m)) m)).

(** ** trampoline.S, kernelvec.S *)
Definition uservec_code : list instr :=
  [Csrw SSCRATCH R.a0; Li R.a0 TRAPFRAME;
   Sd R.ra 40 R.a0; Sd R.sp 48 R.a0; Sd R.gp 56 R.a0; Sd R.tp 64 R.a0; Sd R.t0 72 R.a0; Sd R.t1 80 R.a0; Sd R.t2 88 R.a0;
   Sd R.s0 96 R.a0; Sd R.s1 104 R.a0; Sd R.a1 120 R.a0; Sd R.a2 128 R.a0; Sd R.a3 136 R.a0; Sd R.a4 144 R.a0; Sd R.a5 152 R.a0;
   Sd R.a6 160 R.a0; Sd R.a7 168 R.a0; Sd R.s2 176 R.a0; Sd R.s3 184 R.a0; Sd R.s4 192 R.a0; Sd R.s5 200 R.a0; Sd R.s6 208 R.a0;
   Sd R.s7 216 R.a0; Sd R.s8 224 R.a0; Sd R.s9 232 R.a0; Sd R.s10 240 R.a0; Sd R.s11 248 R.a0; Sd R.t3 256 R.a0; Sd R.t4 264 R.a0;
   Sd R.t5 272 R.a0; Sd R.t6 280 R.a0;
   Csrr R.t0 SSCRATCH; Sd R.t0 112 R.a0;
   Ld R.sp 8 R.a0; Ld R.tp 32 R.a0; Ld R.t0 16 R.a0; Ld R.t1 0 R.a0;
   Fence; Csrw SATP R.t1; Fence].

Definition userret_code : list instr :=
  [Fence; Fence; Csrw SATP R.a0; Fence; Li R.a0 TRAPFRAME;
   Ld R.ra 40 R.a0; Ld R.sp 48 R.a0; Ld R.gp 56 R.a0; Ld R.tp 64 R.a0; Ld R.t0 72 R.a0; Ld R.t1 80 R.a0; Ld R.t2 88 R.a0;
   Ld R.s0 96 R.a0; Ld R.s1 104 R.a0; Ld R.a1 120 R.a0; Ld R.a2 128 R.a0; Ld R.a3 136 R.a0; Ld R.a4 144 R.a0; Ld R.a5 152 R.a0;
   Ld R.a6 160 R.a0; Ld R.a7 168 R.a0; Ld R.s2 176 R.a0; Ld R.s3 184 R.a0; Ld R.s4 192 R.a0; Ld R.s5 200 R.a0; Ld R.s6 208 R.a0;
   Ld R.s7 216 R.a0; Ld R.s8 224 R.a0; Ld R.s9 232 R.a0; Ld R.s10 240 R.a0; Ld R.s11 248 R.a0; Ld R.t3 256 R.a0; Ld R.t4 264 R.a0;
   Ld R.t5 272 R.a0; Ld R.t6 280 R.a0;
   Ld R.a0 112 R.a0].

Definition kernelvec_save : list instr :=
  [Addi R.sp R.sp (-256);
   Sd R.ra 0 R.sp; Sd R.gp 16 R.sp; Sd R.t0 32 R.sp; Sd R.t1 40 R.sp; Sd R.t2 48 R.sp; Sd R.a0 72 R.sp; Sd R.a1 80 R.sp; Sd R.a2 88 R.sp;
   Sd R.a3 96 R.sp; Sd R.a4 104 R.sp; Sd R.a5 112 R.sp; Sd R.a6 120 R.sp; Sd R.a7 128 R.sp; Sd R.t3 216 R.sp; Sd R.t4 224 R.sp;
   Sd R.t5 232 R.sp; Sd R.t6 240 R.sp].

Definition kernelvec_restore : list instr :=
  [Ld R.ra 0 R.sp; Ld R.gp 16 R.sp; Ld R.t0 32 R.sp; Ld R.t1 40 R.sp; Ld R.t2 48 R.sp; Ld R.a0 72 R.sp; Ld R.a1 80 R.sp; Ld R.a2 88 R.sp;
   Ld R.a3 96 R.sp; Ld R.a4 104 R.sp; Ld R.a5 112 R.sp; Ld R.a6 120 R.sp; Ld R.a7 128 R.sp; Ld R.t3 216 R.sp; Ld R.t4 224 R.sp;
   Ld R.t5 232 R.sp; Ld R.t6 240 R.sp;
   Addi R.sp R.sp 256].

(** ** trap.c *)
Definition r_csr (c : csr) : T D Z := gets (λ m, csrs m c).
Definition w_csr (c : csr) (v : Z) : T D () := modify (λ m, set_csrs (<[c := v]> (csrs m)) m).
Definition intr_on : T D () := modify (λ m, set_csrs (<[SSTATUS := Z.lor (csrs m SSTATUS) SSTATUS_SIE]> (csrs m)) m).
Definition intr_off : T D () := modify (λ m, set_csrs (<[SSTATUS := Z.ldiff (csrs m SSTATUS) SSTATUS_SIE]> (csrs m)) m).
Definition intr_get : T D bool := gets (λ m, has (csrs m SSTATUS) SSTATUS_SIE).

Definition trapinithart : T D () := w_csr STVEC kernelvec.

(** The trap frame, through [p->trapframe]. *)
Definition frame m (f : field) : Z := ram m (trapframe (w m) + offset f).
Definition set_frame (f : field) (v : Z) : T D () := modify (λ m, set_ram (<[trapframe (w m) + offset f := v]> (ram m)) m).

Definition when (b : bool) (c : T D ()) : T D () := if b then c else mret ().
Definition printk (f : mach D → msg) : T D () := modify (λ m, add_out (f m) m).
Definition on_dev (f : D → D) : T D () := modify (λ m, set_w (set_dev (f (dev (w m))) (w m)) m).
Definition ask_dev {A} (f : D → A * D) : T D A := λ m, let (a, d) := f (dev (w m)) in (Ret a, set_w (set_dev d (w m)) m).

Definition is_killed (v : world D) : bool := match me v with Some i => killed i (kern v) | None => false end.
Definition my_pid (v : world D) : Z := match me v with Some i => default 0 (pid <$> procs (kern v) !! i) | None => 0 end.
Definition set_killed : T D () :=
  modify (λ m, match me (w m) with Some i => set_w (set_kern (setkilled i (kern (w m))) (w m)) m | None => m end).

Definition clockintr : T D () :=
  cpuid ← gets (λ m, x m R.tp);
  when (cpuid =? 0) (modify (λ m, set_w (set_kern (Sched.clockintr pol (kern (w m))) (w m)) m));;
  now ← gets (λ m, r_time (dev (w m)));
  w_csr STIMECMP (u64 (now + 1000000)).

Definition devintr : T D Z :=
  scause ← r_csr SCAUSE;
  if scause =? 0x8000000000000009 then
    irq ← ask_dev plic_claim;
    (if irq =? UART0_IRQ then on_dev uartintr
     else if irq =? VIRTIO0_IRQ then on_dev virtio_disk_intr
     else when (negb (irq =? 0)) (printk (λ _, UnexpectedIrq irq)));;
    when (negb (irq =? 0)) (on_dev (plic_complete irq));;
    mret 1
  else if scause =? 0x8000000000000005 then clockintr;; mret 2
  else mret 0.

(** The end of a timer interrupt: [timer_preempt] and, when it gives up the CPU, the time until the process has it again. *)
Definition preempt : T D () := λ m,
  match me (w m) with
  | None => (Ret (), m)
  | Some i =>
      let (k, off) := timer_preempt pol i (kern (w m)) in
      let m := set_w (set_kern k (w m)) m in
      (Ret (), if off then resched m else m)
  end.

Definition syscall : T D () :=
  num ← gets (λ m, i32 (frame m (saved R.a7)));
  match syscall_fn num with
  | Some n => v ← sys n; set_frame (saved R.a0) (u64 v)
  | None =>
      printk (λ m, UnknownCall (my_pid (w m)) num);;
      set_frame (saved R.a0) (u64 (-1))
  end.

Definition prepare_return : T D () :=
  intr_off;;
  w_csr STVEC uservec;;
  satp ← r_csr SATP; set_frame kernel_satp satp;;
  stack ← gets (λ m, kstack (w m)); set_frame kernel_sp (stack + PGSIZE);;
  set_frame kernel_trap usertrap_entry;;
  tp ← gets (λ m, x m R.tp); set_frame kernel_hartid tp;;
  s ← r_csr SSTATUS;
  w_csr SSTATUS (Z.lor (Z.ldiff s SSTATUS_SPP) SSTATUS_SPIE);;
  e ← gets (λ m, frame m epc); w_csr SEPC e.

Definition usertrap : T D Z :=
  s ← r_csr SSTATUS;
  when (has s SSTATUS_SPP) (throw (Panics "usertrap: not from user mode"));;
  w_csr STVEC kernelvec;;
  e ← r_csr SEPC; set_frame epc e;;
  scause ← r_csr SCAUSE;
  which_dev ←
    (if scause =? 8 then
       k ← gets (λ m, is_killed (w m)); when k (throw Exits);;
       e ← gets (λ m, frame m epc); set_frame epc (u64 (e + 4));;
       intr_on;;
       syscall;;
       mret 0
     else
       which_dev ← devintr;
       if negb (which_dev =? 0) then mret which_dev
       else
         stval ← r_csr STVAL;
         mapped ← (if (scause =? 15) || (scause =? 13) then
                     v ← gets w; ask_dev (vmfault (pagetable v, sz v, stval, scause =? 13))
                   else mret 0);
         if negb (mapped =? 0) then mret which_dev
         else
           printk (λ m, UnexpectedCause scause (my_pid (w m)) (csrs m SEPC) stval);;
           set_killed;;
           mret which_dev);
  k ← gets (λ m, is_killed (w m)); when k (throw Exits);;
  when (which_dev =? 2) preempt;;
  prepare_return;;
  gets (λ m, MAKE_SATP (pagetable (w m))).

Definition kerneltrap : T D () :=
  sepc ← r_csr SEPC;
  sstatus ← r_csr SSTATUS;
  scause ← r_csr SCAUSE;
  when (negb (has sstatus SSTATUS_SPP)) (throw (Panics "kerneltrap: not from supervisor mode"));;
  i ← intr_get; when i (throw (Panics "kerneltrap: interrupts enabled"));;
  which_dev ← devintr;
  when (which_dev =? 0)
    (printk (λ m, KernelCause scause (csrs m SEPC) (csrs m STVAL));; throw (Panics "kerneltrap"));;
  when (which_dev =? 2) preempt;;
  w_csr SEPC sepc;;
  w_csr SSTATUS sstatus.

(** [first] is the static variable of [forkret]. *)
Definition forkret (first : bool) : T D Z :=
  when first forkret_init;;
  prepare_return;;
  gets (λ m, MAKE_SATP (pagetable (w m))).

(** ** The whole way of a trap *)

(** What the calling convention lets compiled code do to the registers. *)
Definition callee_saved (r : reg) : bool :=
  match r with
  | R.sp | R.gp | R.tp | R.s0 | R.s1 | R.s2 | R.s3 | R.s4 | R.s5 | R.s6 | R.s7 | R.s8 | R.s9 | R.s10 | R.s11 => true
  | _ => false
  end.

Definition clobber (junk : reg → Z) : T D () := modify (λ m, set_x (λ r, if callee_saved r then x m r else junk r) m).

(** An indirect jump to code that is only known at [a]. *)
Definition jump (f : mach D → Z) (a : Z) : T D () := t ← gets f; when (negb (t =? a)) (throw Faults).

Definition to_user (junk : reg → Z) (satp : Z) : T D () :=
  clobber junk;;
  run_instr (Li R.a0 satp);;         (* the value that the C function returns, or its argument *)
  run userret_code;;
  sret.

(** A trap in user mode, until the user's code goes on. *)
Definition trap_in_user (junk : reg → Z) (cause val : Z) : T D () :=
  hw_trap cause val;;
  jump pc uservec;;
  run uservec_code;;
  jump (λ m, x m R.t0) usertrap_entry;;
  satp ← usertrap;
  to_user junk satp.

(** A trap in the kernel. *)
Definition trap_in_kernel (junk : reg → Z) (cause val : Z) : T D () :=
  hw_trap cause val;;
  jump pc kernelvec;;
  run kernelvec_save;;
  kerneltrap;;
  clobber junk;;
  run kernelvec_restore;;
  sret.

(** The first return of a new process. *)
Definition first_return (first : bool) (junk : reg → Z) : T D () := satp ← forkret first; to_user junk satp.
End Machine.
