(* ===== verification/TrapSpec.v ===== *)
(** * Traps: proofs

    A trap is invisible to the user's code: every register comes back but for what a
    system call does on purpose; a trap in the kernel is invisible to the kernel.  At the
    end, an instance of the interface and the theorems on it. *)

From stdpp Require Import functions.
From S2P Require Import Vm.
From S2P Require Export Trap.

#[local] Set Default Proof Using "Type".
#[local] Arguments Z.mul : simpl never.
#[local] Arguments Z.add : simpl never.
#[local] Arguments Z.lor : simpl never.
#[local] Arguments Z.ldiff : simpl never.
#[local] Arguments offset !_ / : simpl nomatch.
Local Open Scope Z_scope.

(** ** Bits of sstatus *)
Lemma has_testbit s n : 0 ≤ n → has s (Z.shiftl 1 n) = Z.testbit s n.
Proof.
  intros Hn. unfold has. rewrite Z.shiftl_1_l. destruct (Z.testbit s n) eqn:E.
  - apply negb_true_iff, Z.eqb_neq. intros H. apply (f_equal (λ y, Z.testbit y n)) in H.
    rewrite Z.land_spec, E, Z.pow2_bits_true, Z.bits_0 in H by done. done.
  - apply negb_false_iff, Z.eqb_eq. apply Z.bits_inj'. intros i Hi. rewrite Z.land_spec, Z.bits_0, Z.pow2_bits_eqb by done.
    destruct (Z.eqb_spec n i) as [<-|]; [by rewrite E|apply andb_false_r].
Qed.

Ltac status_bit := rewrite ?Z.lor_spec, ?Z.ldiff_spec, ?Z.lor_spec; repeat case_if; try done.

Lemma trap_status_spp b s : Z.testbit (trap_status b s) 8 = negb b.
Proof. unfold trap_status. status_bit; cbn; rewrite ?andb_false_r; by destruct b. Qed.

Lemma trap_status_spie b s : Z.testbit (trap_status b s) 5 = Z.testbit s 1.
Proof. unfold trap_status. destruct (Z.testbit s 1) eqn:E; status_bit; cbn; rewrite ?andb_false_r; by destruct b. Qed.

Lemma trap_status_sie b s : Z.testbit (trap_status b s) 1 = false.
Proof. unfold trap_status. status_bit; cbn; rewrite ?andb_false_r; by destruct b. Qed.

Lemma sret_status_sie s : Z.testbit (sret_status s) 1 = Z.testbit s 5.
Proof. unfold sret_status. status_bit; cbn; rewrite ?andb_false_r; done. Qed.

(** ** Memory *)
Lemma offset_inj f g : offset f = offset g → f = g.
Proof. destruct f as [| | | | |[]], g as [| | | | |[]]; cbn; intros H; first [reflexivity|exfalso; discriminate H]. Qed.

Lemma offset_range f : 0 ≤ offset f ≤ 280.
Proof. destruct f as [| | | | |[]]; cbn; lia. Qed.

Section Memory.
Context {D : Type} `{!Traps D} (kernel_pagetable : Z).
Implicit Types (m : mach D).

Lemma frame_set m f v g :
  frame (set_ram (<[trapframe (w m) + offset f := v]> (ram m)) m) g = if decide (g = f) then v else frame m g.
Proof.
  unfold frame. cbn [ram w set_ram]. case_decide as E; [subst; by rewrite fn_lookup_insert|].
  rewrite fn_lookup_insert_ne; [done|]. intros H. apply E, offset_inj. lia.
Qed.

Definition puts (f : Z → Z) (y : reg → Z) (l : list (reg * Z)) (g : Z → Z) : Z → Z := foldl (λ g p, <[f p.2 := y p.1]> g) g l.
Definition takes (f : Z → Z) (h : Z → Z) (l : list (reg * Z)) (y : reg → Z) : reg → Z := foldl (λ y p, <[p.1 := h (f p.2)]> y) y l.

#[local] Arguments puts : simpl never.
#[local] Arguments takes : simpl never.

Lemma run_saves l b f : ∀ m, (∀ p, p ∈ l → translate kernel_pagetable m (u64 (x m b + p.2)) = Some (f p.2)) →
  run kernel_pagetable ((λ p, Sd p.1 p.2 b) <$> l) m = (Ret (), set_ram (puts f (x m) l (ram m)) m).
Proof.
  induction l as [|[r o] l IH]; intros m Hl; [by destruct m|]. cbn [fmap list_fmap run].
  pose proof (Hl (r, o) ltac:(by left)) as H. cbn in H. erewrite bind_run; [|cbn; by rewrite H]. rewrite IH; [done|]. intros p Hp. cbn. apply Hl. by right.
Qed.

Lemma run_loads l b f : ∀ m, b ∉ l.*1 → (∀ p, p ∈ l → translate kernel_pagetable m (u64 (x m b + p.2)) = Some (f p.2)) →
  run kernel_pagetable ((λ p, Ld p.1 p.2 b) <$> l) m = (Ret (), set_x (takes f (ram m) l (x m)) m).
Proof.
  induction l as [|[r o] l IH]; intros m Hb Hl; [by destruct m|]. cbn [fmap list_fmap run fst] in Hb |- *. apply not_elem_of_cons in Hb as [Hb Hbl].
  pose proof (Hl (r, o) ltac:(by left)) as H. cbn in H. erewrite bind_run; [|cbn; by rewrite H]. rewrite IH; [done|done|]. intros p Hp. cbn.
  rewrite fn_lookup_insert_ne by done. apply Hl. by right.
Qed.

Lemma puts_other f y l : ∀ g a, (∀ p, p ∈ l → f p.2 ≠ a) → puts f y l g a = g a.
Proof.
  induction l as [|p l IH]; intros g a H; [done|]. change (puts f y (p :: l) g a) with (puts f y l (<[f p.2 := y p.1]> g) a).
  rewrite IH by (intros q Hq; apply H; by right). rewrite fn_lookup_insert_ne; [done|]. apply H. by left.
Qed.

Lemma puts_at f y l : ∀ g p, NoDup (f <$> l.*2) → p ∈ l → puts f y l g (f p.2) = y p.1.
Proof.
  induction l as [|q l IH]; intros g p Hn Hp; [by apply elem_of_nil in Hp|]. cbn in Hn. apply NoDup_cons in Hn as [Hq Hn].
  change (puts f y (q :: l) g (f p.2)) with (puts f y l (<[f q.2 := y q.1]> g) (f p.2)). apply elem_of_cons in Hp as [->|Hp]; [|by apply IH].
  rewrite puts_other; [by rewrite fn_lookup_insert|]. intros q' Hq' E. apply Hq. rewrite <-E. by do 2 apply list_elem_of_fmap_2.
Qed.

Lemma run_app l1 l2 m m' : run kernel_pagetable l1 m = (Ret (), m') → run kernel_pagetable (l1 ++ l2) m = run kernel_pagetable l2 m'.
Proof.
  revert m. induction l1 as [|i l1 IH]; intros m H; cbn in *; [unfold mret, M_ret in H; by simplify_eq|]. apply bind_ret_inv in H as ([] & m1 & E1 & E2).
  erewrite bind_run by exact E1. by apply IH.
Qed.

(** ** The layout *)
Record placed (v : world D) : Prop := {
  pl_tables : usatp v ≠ ksatp kernel_pagetable;
  pl_apart : trapframe v + PGSIZE ≤ kstack_pa v ∨ kstack_pa v + PGSIZE ≤ trapframe v;
  pl_stack : 0 ≤ kstack v ∧ kstack v + PGSIZE < 2 ^ 64;
  pl_me : is_Some (me v)
}.

(** What the process keeps while others run. *)
Definition same_place (v v' : world D) : Prop :=
  me v' = me v ∧ pagetable v' = pagetable v ∧ kstack v' = kstack v ∧ kstack_pa v' = kstack_pa v ∧ trapframe v' = trapframe v.

(** The words of the trap frame and the stack. *)
Definition own_word (v : world D) (a : Z) : Prop :=
  trapframe v ≤ a < trapframe v + PGSIZE ∨ kstack_pa v ≤ a < kstack_pa v + PGSIZE.

Lemma same_placed v v' : same_place v v' → placed v → placed v'.
Proof. intros (E1 & E2 & E3 & E4 & E5) [H1 H2 H3 H4]. split; unfold usatp in *; rewrite ?E1, ?E2, ?E3, ?E4, ?E5; done. Qed.

Lemma frame_own v f : own_word v (trapframe v + offset f).
Proof. left. pose proof (offset_range f). unfold PGSIZE. lia. Qed.

(** The code of the kernel runs for a process. *)
Record in_kernel (kernelvec : Z) m : Prop := {
  ik_mode : user m = false;
  ik_stvec : csrs m STVEC = kernelvec;
  ik_satp : csrs m SATP = ksatp kernel_pagetable;
  ik_tp : x m R.tp = hart m;
  ik_placed : placed (w m)
}.

(** The user's code runs. *)
Record ready (uservec usertrap_entry : Z) m : Prop := {
  rd_mode : user m = true;
  rd_stvec : csrs m STVEC = uservec;
  rd_satp : csrs m SATP = usatp (w m);
  rd_ksatp : frame m kernel_satp = ksatp kernel_pagetable;
  rd_ksp : frame m kernel_sp = kstack (w m) + PGSIZE;
  rd_ktrap : frame m kernel_trap = usertrap_entry;
  rd_khart : frame m kernel_hartid = hart m;
  rd_placed : placed (w m)
}.
End Memory.

(** What the rest of the kernel promises.  [sys_keeps], [forkret_keeps]: a function that is called in the kernel comes back in the kernel, or
    the process exits or the kernel panics.  [resched_keeps]: a process that gets a CPU again finds its registers, stack, trap frame and interrupt flag
    as they were, maybe on another hart. *)
Class TrapsOk (D : Type) `{!Traps D} (kernelvec kernel_pagetable : Z) : Prop := {
  sys_keeps n m : in_kernel kernel_pagetable kernelvec m → wp (sys n) (λ _, in_kernel kernel_pagetable kernelvec) (λ _ _, True) m;
  forkret_keeps m : in_kernel kernel_pagetable kernelvec m → wp forkret_init (λ _, in_kernel kernel_pagetable kernelvec) (λ _ _, True) m;
  resched_keeps (m : mach D) : in_kernel kernel_pagetable kernelvec m →
    in_kernel kernel_pagetable kernelvec (resched m) ∧ same_place (w m) (w (resched m)) ∧
    (∀ r, r ≠ R.tp → x (resched m) r = x m r) ∧ (∀ a, own_word (w m) a → ram (resched m) a = ram m a) ∧
    Z.testbit (csrs (resched m) SSTATUS) 1 = Z.testbit (csrs m SSTATUS) 1
}.

#[local] Arguments puts : simpl never.
#[local] Arguments takes : simpl never.

Section Proofs.
Context {D : Type} `{!Traps D} (pol : policy) (uservec kernelvec usertrap_entry kernel_pagetable : Z).
Context (Ok : TrapsOk D kernelvec kernel_pagetable).
Implicit Types (m : mach D).

Abbreviation in_kernel := (in_kernel kernel_pagetable kernelvec).
Abbreviation ready := (ready kernel_pagetable uservec usertrap_entry).
Abbreviation placed := (placed kernel_pagetable).
Abbreviation run := (run kernel_pagetable).
Abbreviation usertrap := (usertrap pol uservec kernelvec usertrap_entry).
Abbreviation kerneltrap := (kerneltrap pol).
Abbreviation prepare_return := (prepare_return uservec usertrap_entry).
Abbreviation trap_in_user := (trap_in_user pol uservec kernelvec usertrap_entry kernel_pagetable).
Abbreviation trap_in_kernel := (trap_in_kernel pol kernelvec kernel_pagetable).

(** ** The entry code *)
Definition slots (l : list reg) : list (reg * Z) := (λ r, (r, offset (saved r))) <$> l.
Definition but_a0 : list reg :=
  [R.ra; R.sp; R.gp; R.tp; R.t0; R.t1; R.t2; R.s0; R.s1; R.a1; R.a2; R.a3; R.a4; R.a5; R.a6; R.a7; R.s2; R.s3; R.s4; R.s5; R.s6; R.s7;
   R.s8; R.s9; R.s10; R.s11; R.t3; R.t4; R.t5; R.t6].

#[local] Arguments slots : simpl never.
#[local] Arguments but_a0 : simpl never.

Lemma uservec_parts :
  uservec_code = [Csrw SSCRATCH R.a0; Li R.a0 TRAPFRAME] ++ ((λ p, Sd p.1 p.2 R.a0) <$> slots but_a0) ++
    [Csrr R.t0 SSCRATCH; Sd R.t0 112 R.a0] ++ ((λ p, Ld p.1 p.2 R.a0) <$> [(R.sp, 8); (R.tp, 32); (R.t0, 16); (R.t1, 0)]) ++ [Fence; Csrw SATP R.t1; Fence].
Proof. reflexivity. Qed.

Lemma userret_parts :
  userret_code = [Fence; Fence; Csrw SATP R.a0; Fence; Li R.a0 TRAPFRAME] ++ ((λ p, Ld p.1 p.2 R.a0) <$> slots but_a0) ++ [Ld R.a0 112 R.a0].
Proof. reflexivity. Qed.

Lemma but_a0_spec r : r ≠ R.a0 → r ∈ but_a0.
Proof. intros H. destruct r; try (by destruct H); unfold but_a0; rewrite !elem_of_cons; clear; tauto. Qed.

Lemma slot_in l r : r ∈ l → (r, offset (saved r)) ∈ slots l.
Proof. intros H. unfold slots. by apply (list_elem_of_fmap_2 (λ r, (r, offset (saved r)))). Qed.

Lemma slot_range l p : p ∈ slots l → 0 ≤ p.2 ≤ 280.
Proof. intros H. apply list_elem_of_fmap in H as (r & -> & _). apply offset_range. Qed.

Lemma slots_nodup l (f : Z → Z) : NoDup l → (∀ a b, f a = f b → a = b) → NoDup (f <$> (slots l).*2).
Proof.
  intros Hl Hf. unfold slots. rewrite <-list_fmap_compose, <-list_fmap_compose. apply NoDup_fmap_2_strong; [|done].
  intros r1 r2 _ _ E. cbn in E. apply Hf, offset_inj in E. congruence.
Qed.

Lemma but_a0_nodup : NoDup but_a0.
Proof. apply (bool_decide_unpack _). vm_compute. exact I. Qed.

Lemma translate_frame m o :
  placed (w m) → csrs m SATP = usatp (w m) → 0 ≤ o ≤ 280 → translate kernel_pagetable m (u64 (TRAPFRAME + o)) = Some (trapframe (w m) + o).
Proof.
  intros [Ht _ _ _] Hs Ho. unfold translate. rewrite Hs, (proj2 (Z.eqb_neq _ _) Ht), Z.eqb_refl.
  assert (E : u64 (TRAPFRAME + o) = TRAPFRAME + o) by (unfold u64; rewrite Z.mod_small; [done|change TRAPFRAME with 274877898752; lia]).
  rewrite E. rewrite (proj2 (Z.leb_le _ _)), (proj2 (Z.ltb_lt _ _)) by (unfold PGSIZE; lia). cbn [andb]. f_equal. lia.
Qed.

(** The registers are in the trap frame and the kernel's are loaded. *)
Lemma uservec_spec m :
  placed (w m) → csrs m SATP = usatp (w m) →
  ∃ m', run uservec_code m = (Ret (), m') ∧
    user m' = user m ∧ w m' = w m ∧ hart m' = hart m ∧ out m' = out m ∧
    (∀ r, frame m' (saved r) = x m r) ∧ (∀ f, (∀ r, f ≠ saved r) → frame m' f = frame m f) ∧
    x m' R.sp = frame m kernel_sp ∧ x m' R.tp = frame m kernel_hartid ∧ x m' R.t0 = frame m kernel_trap ∧
    csrs m' SATP = frame m kernel_satp ∧ (∀ c, c ≠ SATP → c ≠ SSCRATCH → csrs m' c = csrs m c).
Proof.
  intros Hp Hs. rewrite uservec_parts.
  set (m1 := set_x (<[R.a0 := TRAPFRAME]> (x m)) (set_csrs (<[SSCRATCH := x m R.a0]> (csrs m)) m)).
  set (to := Z.add (trapframe (w m))).
  assert (Hf : ∀ k, w k = w m → csrs k SATP = usatp (w m) → x k R.a0 = TRAPFRAME → ∀ o, 0 ≤ o ≤ 280 → translate kernel_pagetable k (u64 (x k R.a0 + o)) = Some (to o)).
  { intros k Ew Es Ea o Ho. rewrite Ea. unfold to. rewrite <-Ew. apply translate_frame; [by rewrite Ew|by rewrite Ew|done]. }
  rewrite (run_app kernel_pagetable _ _ m m1) by reflexivity.
  assert (Hs1 : csrs m1 SATP = usatp (w m)) by exact Hs.
  erewrite run_app by (apply (run_saves kernel_pagetable _ _ to); intros p Hp'; apply slot_range in Hp'; by apply Hf).
  set (m2 := set_ram (puts to (x m1) (slots but_a0) (ram m1)) m1).
  set (m3 := set_ram (<[to 112 := x m R.a0]> (ram m2)) (set_x (<[R.t0 := x m R.a0]> (x m1)) m2)).
  rewrite (run_app kernel_pagetable _ _ m2 m3).
  2: { cbn [Trap.run app]. erewrite bind_run by reflexivity. cbn [run_instr]. unfold mbind, M_bind. cbn [run_instr].
       change (x (set_x (<[R.t0:=csrs m2 SSCRATCH]> (x m2)) m2) R.t0) with (x m R.a0).
       rewrite (Hf (set_x (<[R.t0:=csrs m2 SSCRATCH]> (x m2)) m2) eq_refl Hs1 eq_refl 112) by lia. reflexivity. }
  erewrite run_app.
  2: { apply (run_loads kernel_pagetable _ _ to); [apply (bool_decide_unpack _); vm_compute; exact I|]. intros p Hp'. apply Hf; try done.
       unfold fmap in Hp'. rewrite !elem_of_cons, elem_of_nil in Hp'. destruct Hp' as [->|[->|[->|[->|[]]]]]; cbn; lia. }
  eexists. split; [reflexivity|]. cbn [user w hart out set_x set_csrs set_ram x csrs ram].
  assert (Hold : ∀ f, (∀ r, f ≠ saved r) → ram m3 (to (offset f)) = frame m f).
  { intros f Hr. cbn. rewrite fn_lookup_insert_ne by (intros E; unfold to in E; apply (Hr R.a0), offset_inj; cbn; lia).
    rewrite puts_other; [done|]. intros p Hp' E. apply list_elem_of_fmap in Hp' as (r & -> & _). cbn in E. apply (Hr r), offset_inj. unfold to in E. lia. }
  split_and!; try done.
  - intros r. unfold frame. cbn. fold (to (offset (saved r))). destruct (decide (r = R.a0)) as [->|Hr].
    { change (trapframe (w m) + 112) with (to 112). by rewrite fn_lookup_insert. }
    rewrite fn_lookup_insert_ne by (intros E; unfold to in E; apply Hr; assert (saved r = saved R.a0) as [=] by (apply offset_inj; cbn; lia); done).
    etransitivity; [apply (puts_at to _ _ _ (r, offset (saved r)))|].
    + apply slots_nodup; [apply but_a0_nodup|unfold to; lia].
    + by apply slot_in, but_a0_spec.
    + cbn. by rewrite fn_lookup_insert_ne.
  - exact (Hold kernel_sp ltac:(done)).
  - exact (Hold kernel_hartid ltac:(done)).
  - exact (Hold kernel_trap ltac:(done)).
  - exact (Hold kernel_satp ltac:(done)).
  - intros c H1 H2. rewrite fn_lookup_insert_ne by done. cbn. by rewrite fn_lookup_insert_ne.
Qed.

Lemma saved_range r : 40 ≤ offset (saved r).
Proof. by destruct r. Qed.

(** Back to the user's registers. *)
Lemma to_user_spec junk m :
  placed (w m) →
  ∃ m', to_user kernel_pagetable junk (usatp (w m)) m = (Ret (), m') ∧
    user m' = negb (Z.testbit (csrs m SSTATUS) 8) ∧ pc m' = csrs m SEPC ∧ (∀ r, x m' r = frame m (saved r)) ∧
    csrs m' SATP = usatp (w m) ∧ csrs m' STVEC = csrs m STVEC ∧ Z.testbit (csrs m' SSTATUS) 1 = Z.testbit (csrs m SSTATUS) 5 ∧
    ram m' = ram m ∧ w m' = w m ∧ hart m' = hart m ∧ out m' = out m.
Proof.
  intros Hp. unfold to_user. do 2 (erewrite bind_run by reflexivity). rewrite userret_parts.
  set (m1 := set_x (<[R.a0 := TRAPFRAME]> (<[R.a0 := usatp (w m)]> (λ r, if callee_saved r then x m r else junk r)))
    (set_csrs (<[SATP := usatp (w m)]> (csrs m)) m)).
  set (to := Z.add (trapframe (w m))).
  assert (Ht : ∀ o, 0 ≤ o ≤ 280 → translate kernel_pagetable m1 (u64 (TRAPFRAME + o)) = Some (to o)).
  { intros o Ho. apply (translate_frame m1); [done|done|lia]. }
  erewrite bind_run.
  2: { erewrite run_app by reflexivity. change (set_x _ _) with m1. erewrite run_app.
       2: { apply (run_loads kernel_pagetable _ _ to); [apply (bool_decide_unpack _); vm_compute; exact I|]. intros p Hp'. apply slot_range in Hp'. by apply Ht. }
       cbn [Trap.run]. erewrite bind_run; [reflexivity|]. cbn [run_instr].
       change (x (set_x (takes to (ram m1) (slots but_a0) (x m1)) m1) R.a0) with TRAPFRAME.
       change (translate kernel_pagetable (set_x _ m1)) with (translate kernel_pagetable m1). rewrite Ht by lia. reflexivity. }
  eexists. split; [reflexivity|]. cbn. split_and!; try done.
  - by destruct r.
  - apply sret_status_sie.
Qed.

(** ** trap.c *)

(** The trap frame and the registers are set for the way back. *)
Record leaving m : Prop := {
  lv_stvec : csrs m STVEC = uservec;
  lv_sepc : csrs m SEPC = frame m epc;
  lv_spp : Z.testbit (csrs m SSTATUS) 8 = false;
  lv_spie : Z.testbit (csrs m SSTATUS) 5 = true;
  lv_ksatp : frame m kernel_satp = ksatp kernel_pagetable;
  lv_ksp : frame m kernel_sp = kstack (w m) + PGSIZE;
  lv_ktrap : frame m kernel_trap = usertrap_entry;
  lv_khart : frame m kernel_hartid = hart m;
  lv_placed : placed (w m)
}.

(** The user's part of the trap frame. *)
Definition same_user m m' : Prop := (∀ r, frame m' (saved r) = frame m (saved r)) ∧ frame m' epc = frame m epc.

Lemma prepare_return_spec m :
  in_kernel m → ∃ m', prepare_return m = (Ret (), m') ∧ leaving m' ∧ same_user m m' ∧ w m' = w m ∧ out m' = out m.
Proof.
  intros [H1 H2 H3 H4 H5]. eexists. split; [reflexivity|].
  split_and!; [|split|done|done].
  - split; unfold frame; cbn -[Z.testbit];
      repeat first [rewrite fn_lookup_insert | rewrite fn_lookup_insert_ne by (first [done|lia])]; try done.
    + status_bit; cbn; by rewrite ?andb_false_r.
    + status_bit; cbn; by rewrite ?orb_true_r.
  - intros r. pose proof (saved_range r). unfold frame. cbn. by rewrite !fn_lookup_insert_ne by (cbn; lia).
  - unfold frame. cbn. by rewrite !fn_lookup_insert_ne by (cbn; lia).
Qed.

(** An interrupt's work leaves the registers and the process's words alone. *)
Definition quiet m m' : Prop :=
  user m' = user m ∧ pc m' = pc m ∧ x m' = x m ∧ hart m' = hart m ∧ ram m' = ram m ∧ same_place (w m) (w m') ∧ sz (w m') = sz (w m) ∧
  ∀ c, c ≠ STIMECMP → csrs m' c = csrs m c.

Definition known_irq (cause : Z) : Prop := cause = 0x8000000000000009 ∨ cause = 0x8000000000000005.

Lemma devintr_spec m :
  ∃ d m', devintr pol m = (Ret d, m') ∧ quiet m m' ∧ (d ≠ 0 ↔ known_irq (csrs m SCAUSE)) ∧ (d = 0 → m' = m).
Proof.
  assert (Hset : ∀ P : csr → Prop, (∀ c, c ≠ STIMECMP → P c) → ∀ c, c ≠ STIMECMP → P c) by auto.
  unfold devintr, known_irq. erewrite bind_run by reflexivity. destruct (Z.eqb_spec (csrs m SCAUSE) 0x8000000000000009) as [E1|E1].
  { unfold ask_dev, mbind, M_bind. destruct (plic_claim (dev (w m))) as [irq d]. unfold when, printk, on_dev, modify, mret, M_ret.
    repeat case_if; do 2 eexists; (split; [reflexivity|]); (split; [unfold quiet, same_place; cbn; by split_and!|]); (split; [|done]); (split; [by left|done]). }
  destruct (Z.eqb_spec (csrs m SCAUSE) 0x8000000000000005) as [E2|E2].
  - unfold clockintr, mbind, M_bind, gets, when, w_csr, modify, mret, M_ret.
    case_if; do 2 eexists; (split; [reflexivity|]); (split; [unfold quiet, same_place; cbn; split_and!; try done; intros c Hc; by rewrite fn_lookup_insert_ne|]);
      (split; [|done]); (split; [by right|done]).
  - do 2 eexists. split; [reflexivity|]. split; [unfold quiet, same_place; by split_and!|]. split; [|done]. split; [done|by intros [|]].
Qed.

Lemma quiet_in_kernel m m' : quiet m m' → in_kernel m → in_kernel m'.
Proof.
  intros (E1 & E2 & E3 & E4 & E5 & E6 & E7 & E8) [H1 H2 H3 H4 H5].
  split; rewrite ?E1, ?E3, ?E4, ?E8 by done; try done. by eapply same_placed.
Qed.

Lemma quiet_frame m m' f : quiet m m' → frame m' f = frame m f.
Proof. intros (E1 & E2 & E3 & E4 & E5 & (_ & _ & _ & _ & E6) & E7 & E8). unfold frame. by rewrite E5, E6. Qed.

(** The timer's part: as [resched_keeps]. *)
Definition kept m m' : Prop :=
  same_place (w m) (w m') ∧ (∀ r, r ≠ R.tp → x m' r = x m r) ∧ (∀ a, own_word (w m) a → ram m' a = ram m a) ∧
  Z.testbit (csrs m' SSTATUS) 1 = Z.testbit (csrs m SSTATUS) 1.

Lemma quiet_kept m m' : quiet m m' → kept m m'.
Proof.
  intros (E1 & E2 & E3 & E4 & E5 & E6 & E7 & E8). split; [done|]. split; [by rewrite E3|]. split; [by rewrite E5|]. by rewrite E8.
Qed.

Lemma kept_frame m m' f : kept m m' → frame m' f = frame m f.
Proof. intros ((_ & _ & _ & _ & E) & _ & H & _). unfold frame. rewrite E. apply H. apply frame_own. Qed.

Lemma set_w_in_kernel v m : same_place (w m) v → in_kernel m → in_kernel (set_w v m).
Proof. intros Hv [H1 H2 H3 H4 H5]. split; try done. by eapply same_placed. Qed.

Lemma preempt_spec m : in_kernel m → ∃ m', preempt pol m = (Ret (), m') ∧ in_kernel m' ∧ kept m m'.
Proof using Ok.
  intros H. unfold preempt. destruct (me (w m)) as [i|]; [|by exists m]. destruct (timer_preempt pol i (kern (w m))) as [k off].
  set (m1 := set_w (set_kern k (w m)) m). assert (H1 : in_kernel m1) by by apply set_w_in_kernel.
  eexists. split; [reflexivity|]. destruct off; [|split; [exact H1|unfold kept, same_place; by split_and!]].
  destruct (resched_keeps m1 H1) as (G1 & G2 & G3 & G4 & G5). exact (conj G1 (conj G2 (conj G3 (conj G4 G5)))).
Qed.

(** What a system call did: the function of the table ran on [m] and its result is in [a0], or there is none and -1 is. *)
Definition called m m' : Prop :=
  match syscall_fn (i32 (frame m (saved R.a7))) with
  | Some n => ∃ v ms, sys n m = (Ret v, ms) ∧ frame m' epc = frame ms epc ∧
      ∀ r, frame m' (saved r) = if decide (r = R.a0) then u64 v else frame ms (saved r)
  | None => frame m' epc = frame m epc ∧ ∀ r, frame m' (saved r) = if decide (r = R.a0) then u64 (-1) else frame m (saved r)
  end.

Lemma wp_step {A B} (c : T D A) (k : A → T D B) a m m' Q R : c m = (Ret a, m') → wp (k a) Q R m' → wp (mbind k c) Q R m.
Proof. intros E H. unfold wp. by erewrite bind_run. Qed.

Ltac step := eapply wp_step; [reflexivity|cbv beta].

Lemma set_frame_in_kernel f v m : in_kernel m → in_kernel (set_ram (<[trapframe (w m) + offset f := v]> (ram m)) m).
Proof. by intros []. Qed.


Lemma syscall_spec m :
  in_kernel m → wp syscall (λ _ m', in_kernel m' ∧ called m m') (λ why m', ∃ n, sys n m = (Err why, m')) m.
Proof using Ok.
  intros H. unfold syscall, called. step. destruct (syscall_fn _) as [n|].
  - pose proof (sys_keeps n m H) as Hs. apply wp_bind. unfold wp in Hs |- *. destruct (sys n m) as [[v|why|] ms] eqn:E; [|by exists n|done].
    split; [exact (set_frame_in_kernel (saved R.a0) _ _ Hs)|]. exists v, ms. split; [done|]. split; [exact (frame_set ms (saved R.a0) _ epc)|].
    intros r. etransitivity; [exact (frame_set ms (saved R.a0) _ (saved r))|]. repeat case_decide; congruence.
  - step. set (m1 := add_out _ m). assert (H1 : in_kernel m1) by by destruct H.
    split; [exact (set_frame_in_kernel (saved R.a0) _ _ H1)|]. split; [exact (frame_set m1 (saved R.a0) _ epc)|]. intros r. change (frame m (saved r)) with (frame m1 (saved r)).
    etransitivity; [exact (frame_set m1 (saved R.a0) _ (saved r))|]. repeat case_decide; congruence.
Qed.

(** In [usertrap], from [uservec]. *)
Record entered m : Prop := {
  en_mode : user m = false;
  en_satp : csrs m SATP = ksatp kernel_pagetable;
  en_tp : x m R.tp = hart m;
  en_spp : Z.testbit (csrs m SSTATUS) 8 = false;
  en_placed : placed (w m)
}.

(** What the user's part of the trap frame becomes. *)
Definition handled m m' : Prop :=
  if csrs m SCAUSE =? 8 then
    ∃ mc ms, in_kernel mc ∧ Z.testbit (csrs mc SSTATUS) 1 = true ∧
      (∀ r, frame mc (saved r) = frame m (saved r)) ∧ frame mc epc = u64 (csrs m SEPC + 4) ∧
      called mc ms ∧ same_user ms m'
  else (∀ r, frame m' (saved r) = frame m (saved r)) ∧ frame m' epc = csrs m SEPC.

Definition stopped (cause : Z) (why : stop) m' : Prop :=
  (why = Exits ∧ is_killed (w m') = true) ∨ ∃ n mc, cause = 8 ∧ sys n mc = (Err why, m').

(** The end of [usertrap]. *)
Definition finish (which_dev : Z) : T D Z :=
  k ← gets (λ m, is_killed (w m)); when k (throw Exits);;
  when (which_dev =? 2) (preempt pol);;
  prepare_return;;
  gets (λ m, MAKE_SATP (pagetable (w m))).

Lemma finish_spec d m :
  in_kernel m → wp (finish d) (λ satp m', satp = usatp (w m') ∧ leaving m' ∧ same_user m m') (λ why m', why = Exits ∧ is_killed (w m') = true) m.
Proof using Ok.
  intros H. unfold finish. step. destruct (is_killed (w m)) eqn:Ek; [by cbn|]. step.
  assert (Hp : ∃ m1, when (d =? 2) (preempt pol) m = (Ret (), m1) ∧ in_kernel m1 ∧ same_user m m1).
  { unfold when. case_if; [|by exists m]. destruct (preempt_spec m H) as (m1 & E & H1 & H2). exists m1. split; [done|]. split; [done|].
    split; [intros r|]; by apply kept_frame. }
  destruct Hp as (m1 & E & H1 & Hf). eapply wp_step; [exact E|]. destruct (prepare_return_spec m1 H1) as (m2 & E2 & Hl & Hu & Hw & _).
  eapply wp_step; [exact E2|]. cbv beta. apply wp_gets. split; [done|]. split; [done|]. destruct Hf as [F1 F2], Hu as [U1 U2].
  split; [intros r; by rewrite U1|by rewrite U2].
Qed.

Lemma usertrap_spec m :
  entered m → wp usertrap (λ satp m', satp = usatp (w m') ∧ leaving m' ∧ handled m m') (stopped (csrs m SCAUSE)) m.
Proof using Ok.
  intros [H1 H2 H3 H4 H5]. unfold Trap.usertrap. step.
  eapply wp_step; [unfold SSTATUS_SPP; rewrite (has_testbit _ 8) by done; rewrite H4; reflexivity|].
  do 4 step. set (m1 := set_ram _ _).
  assert (I1 : in_kernel m1) by (split; [exact H1|reflexivity|exact H2|exact H3|exact H5]).
  assert (F1 : ∀ r, frame m1 (saved r) = frame m (saved r)).
  { intros r. exact (frame_set (set_csrs (<[STVEC:=kernelvec]> (csrs m)) m) epc (csrs m SEPC) (saved r)). }
  assert (F2 : frame m1 epc = csrs m SEPC) by exact (frame_set (set_csrs (<[STVEC:=kernelvec]> (csrs m)) m) epc (csrs m SEPC) epc).
  apply (wp_mono (mbind finish _) (λ satp m', satp = usatp (w m') ∧ leaving m' ∧ handled m m') _ (stopped (csrs m SCAUSE))); [|done|done].
  apply wp_bind. unfold handled. change (csrs m1 SCAUSE) with (csrs m SCAUSE). destruct (Z.eqb_spec (csrs m SCAUSE) 8) as [E8|E8].
  - step. destruct (is_killed (w m1)) eqn:Ek; [by left|]. do 4 step. set (mc := set_csrs _ _).
    assert (Ic : in_kernel mc) by (destruct I1; split; [done..|done]).
    apply wp_bind. eapply wp_mono; [by apply syscall_spec|..].
    + intros [] ms [Hs Hc]. eapply wp_step; [reflexivity|]. cbv beta.
      eapply wp_mono; [by apply finish_spec| |by left].
      intros satp m' (G1 & G2 & G3). split; [done|]. split; [done|]. exists mc, ms. split; [done|].
      split; [cbn -[Z.testbit]; rewrite fn_lookup_insert; status_bit; by rewrite orb_true_r|].
      split; [intros r; rewrite <-F1; exact (frame_set m1 epc _ (saved r))|]. split; [|done].
      rewrite <-F2. exact (frame_set m1 epc _ epc).
    + intros why m' (n & E). right. by exists n, mc.
  - assert (Hsame : ∀ k, in_kernel k → (∀ f, frame k f = frame m1 f) → ∀ d,
      wp (finish d) (λ satp m', satp = usatp (w m') ∧ leaving m' ∧ (∀ r, frame m' (saved r) = frame m (saved r)) ∧ frame m' epc = csrs m SEPC)
        (stopped (csrs m SCAUSE)) k).
    { intros k Hk Hf d. eapply wp_mono; [by apply finish_spec| |by left]. intros satp m' (G1 & G2 & G3 & G4). split; [done|]. split; [done|].
      split; [intros r; by rewrite G3, Hf|by rewrite G4, Hf]. }
    destruct (devintr_spec m1) as (d & m2 & E & Hq & Hd & Hn). eapply wp_step; [exact E|]. cbv beta.
    pose proof (quiet_in_kernel _ _ Hq I1) as I2. pose proof (λ f, quiet_frame _ _ f Hq) as Hf2.
    destruct (d =? 0) eqn:Ed; cbn [negb]; [|by apply wp_ret, Hsame].
    apply Z.eqb_eq in Ed. step.
    eapply (wp_bind _ _ _ _ m2). apply (wp_mono _ (λ _ k, in_kernel k ∧ ∀ f, frame k f = frame m1 f) _ (λ _ _, False)); [|intros v k [Hk Hfk]|done].
    + case_if; [|by apply wp_ret]. step. unfold ask_dev, wp. destruct (vmfault _ _) as [v d']. split; [by apply set_w_in_kernel|done].
    + case_if; [by apply wp_ret, Hsame|]. do 2 step. apply wp_ret. apply Hsame.
      * cbn. destruct (me (w k)) eqn:Em; [apply set_w_in_kernel; [unfold same_place; cbn; by rewrite Em|]|]; by destruct Hk.
      * intros f. rewrite <-Hfk. cbn. by destruct (me (w k)).
Qed.

(** ** The whole way *)

(** What the user's code sees of a trap that returns. *)
Definition returned (cause : Z) m m' : Prop :=
  if cause =? 8 then
    ∃ mc ms, in_kernel mc ∧ Z.testbit (csrs mc SSTATUS) 1 = true ∧
      (∀ r, frame mc (saved r) = x m r) ∧ frame mc epc = u64 (pc m + 4) ∧
      called mc ms ∧ (∀ r, x m' r = frame ms (saved r)) ∧ pc m' = frame ms epc
  else (∀ r, x m' r = x m r) ∧ pc m' = pc m.

Lemma leaving_to_user junk m :
  leaving m → ∃ m', to_user kernel_pagetable junk (usatp (w m)) m = (Ret (), m') ∧ ready m' ∧ Z.testbit (csrs m' SSTATUS) 1 = true ∧
    (∀ r, x m' r = frame m (saved r)) ∧ pc m' = frame m epc.
Proof.
  intros [L1 L2 L3 L4 L5 L6 L7 L8 L9]. destruct (to_user_spec junk m L9) as (m' & E & G1 & G2 & G3 & G4 & G5 & G6 & G7 & G8 & G9 & _).
  exists m'. split; [done|]. unfold frame in *. split_and!; [|by rewrite G6|done|by rewrite G2].
  split; unfold frame; rewrite ?G1, ?G5, ?G4, ?G7, ?G8, ?G9, ?L3; done.
Qed.

Lemma enter_spec cause val m :
  ready m → ∃ m', (hw_trap cause val;; jump pc uservec;; run uservec_code;; jump (λ m, x m R.t0) usertrap_entry) m = (Ret (), m') ∧
    entered m' ∧ csrs m' SCAUSE = cause ∧ csrs m' SEPC = pc m ∧ csrs m' STVAL = val ∧ (∀ r, frame m' (saved r) = x m r) ∧ w m' = w m ∧ out m' = out m.
Proof.
  intros [R1 R2 R3 R4 R5 R6 R7 R8]. erewrite bind_run by reflexivity. cbv beta. set (m1 := set_mode _ _ _).
  assert (Ej : jump pc uservec m1 = (Ret (), m1)) by (unfold jump; erewrite bind_run by reflexivity; cbn; by rewrite R2, Z.eqb_refl).
  erewrite bind_run by exact Ej. cbv beta.
  destruct (uservec_spec m1 R8 R3) as (m2 & E & U1 & U2 & U3 & U4 & U5 & U6 & U7 & U8 & U9 & U10 & U11). erewrite bind_run by exact E. cbv beta.
  exists m2. split.
  { unfold jump. erewrite bind_run by reflexivity. rewrite U9. change (frame m1 kernel_trap) with (frame m kernel_trap). by rewrite R6, Z.eqb_refl. }
  split_and!; try (rewrite U11 by done; reflexivity); try done.
  split.
  - by rewrite U1.
  - by rewrite U10.
  - by rewrite U8, U3.
  - rewrite U11 by done. cbn -[Z.testbit]. rewrite fn_lookup_insert_ne, fn_lookup_insert_ne, fn_lookup_insert_ne, fn_lookup_insert by done. by rewrite trap_status_spp, R1.
  - by rewrite U2.
Qed.

Lemma enter_run junk cause val m m1 :
  (hw_trap cause val;; jump pc uservec;; run uservec_code;; jump (λ m, x m R.t0) usertrap_entry) m = (Ret (), m1) →
  trap_in_user junk cause val m = (satp ← usertrap; to_user kernel_pagetable junk satp) m1.
Proof.
  unfold Trap.trap_in_user, mbind, M_bind. intros E. destruct (hw_trap cause val m) as [[?|?|] k1]; [|done..].
  destruct (jump pc uservec k1) as [[?|?|] k2]; [|done..]. destruct (run uservec_code k2) as [[?|?|] k3]; [|done..]. by rewrite E.
Qed.

(** The states in which the user's code of a process runs: from [forkret], through any code of its own, and after traps. *)
Inductive alive : mach D → Prop :=
  | al_first first junk m m' : in_kernel m → first_return uservec usertrap_entry kernel_pagetable first junk m = (Ret (), m') → alive m'
  | al_user m m' : alive m → user m' = user m → csrs m' = csrs m → hart m' = hart m → ram m' = ram m → same_place (w m) (w m') → alive m'
  | al_trap junk cause val m m' : alive m → trap_in_user junk cause val m = (Ret (), m') → alive m'.

Lemma trap_in_user_spec junk cause val m :
  ready m → wp (trap_in_user junk cause val) (λ _ m', ready m' ∧ Z.testbit (csrs m' SSTATUS) 1 = true ∧ returned cause m m') (stopped cause) m.
Proof using Ok.
  intros H. destruct (enter_spec cause val m H) as (m1 & E & He & Hc & Hp & _ & Hr & _).
  pose proof (enter_run junk _ _ _ _ E) as Et.
  unfold wp. rewrite Et. change (wp (satp ← usertrap; to_user kernel_pagetable junk satp)
    (λ _ m', ready m' ∧ Z.testbit (csrs m' SSTATUS) 1 = true ∧ returned cause m m') (stopped cause) m1).
  apply wp_bind. eapply wp_mono; [by apply usertrap_spec| |by rewrite Hc].
  intros satp m2 (-> & Hl & Hh). destruct (leaving_to_user junk m2 Hl) as (m3 & E3 & G1 & G2 & G3 & G4). unfold wp. rewrite E3.
  split; [done|]. split; [done|]. revert Hh. unfold handled, returned. rewrite Hc, Hp. case_if.
  - intros (mc & ms & I1 & I2 & I3 & I4 & I5 & [I6 I7]). exists mc, ms. split_and!; try done.
    + intros r. by rewrite I3, Hr.
    + intros r. by rewrite G3, I6.
    + by rewrite G4, I7.
  - intros [I1 I2]. split; [intros r; by rewrite G3, I1, Hr|by rewrite G4, I2].
Qed.

Lemma first_return_spec first junk m :
  in_kernel m → wp (first_return uservec usertrap_entry kernel_pagetable first junk) (λ _ m', ready m' ∧ Z.testbit (csrs m' SSTATUS) 1 = true ∧
    (first = false → (∀ r, x m' r = frame m (saved r)) ∧ pc m' = frame m epc)) (λ _ _, True) m.
Proof using Ok.
  intros H. unfold first_return. apply wp_bind. unfold forkret. apply wp_bind.
  apply (wp_mono _ (λ _ k, in_kernel k ∧ (first = false → k = m)) _ (λ _ _, True)); [|intros [] k [Hk Hf]|done].
  - destruct first; cbn; [|done]. eapply wp_mono; [by apply forkret_keeps|by intros|done].
  - destruct (prepare_return_spec k Hk) as (k1 & E & Hl & [U1 U2] & Hw & _). eapply wp_step; [exact E|]. cbv beta. apply wp_gets.
    change (MAKE_SATP (pagetable (w k1))) with (usatp (w k1)).
    destruct (leaving_to_user junk k1 Hl) as (m3 & E3 & G1 & G2 & G3 & G4). unfold wp. rewrite E3. split; [done|]. split; [done|].
    intros ->. rewrite (Hf eq_refl) in U1, U2. split; [intros r; by rewrite G3, U1|by rewrite G4, U2].
Qed.

Lemma alive_ready m : alive m → ready m.
Proof using Ok.
  induction 1 as [first junk m m' H E|m m' Ha [R1 R2 R3 R4 R5 R6 R7 R8] E1 E2 E3 E4 E5|junk cause val m m' Ha IH E].
  - pose proof (first_return_spec first junk m H) as Hw. unfold wp in Hw. rewrite E in Hw. tauto.
  - destruct E5 as (F1 & F2 & F3 & F4 & F5). unfold frame, usatp in *.
    split; unfold frame, usatp; rewrite ?E1, ?E2, ?E3, ?E4, ?F1, ?F2, ?F3, ?F5; try done. by eapply same_placed.
  - pose proof (trap_in_user_spec junk cause val m IH) as Hw. unfold wp in Hw. rewrite E in Hw. tauto.
Qed.

(** C13: in every state that the user's code of a process reaches, a trap of any cause comes back with all registers and the pc as they were, in
    user mode and with interrupts on - but for an [ecall], which goes on behind it, after the function that the table has for [a7] ran with interrupts
    on, with its result in [a0], or -1 there when the number has none - or it ends because the process was killed, or in the system call
    itself.  [usertrap] is never entered wrongly, and the entry code never traps itself. *)
Theorem user_traps_transparent junk cause val m :
  alive m → wp (trap_in_user junk cause val) (λ _ m', alive m' ∧ user m' = true ∧ Z.testbit (csrs m' SSTATUS) 1 = true ∧ returned cause m m') (stopped cause) m.
Proof using Ok.
  intros H. pose proof (trap_in_user_spec junk cause val m (alive_ready m H)) as Hw. unfold wp in Hw |- *.
  destruct (trap_in_user junk cause val m) as [[[]|why|] m'] eqn:E; [|done..]. destruct Hw as ([R1 _ _ _ _ _ _ _] & G2 & G3). split; [|done].
  by eapply al_trap.
Qed.

(** ** Traps that nothing handles *)


(** ** Traps in the kernel *)
Definition kslots : list (reg * Z) :=
  [(R.ra, 0); (R.gp, 16); (R.t0, 32); (R.t1, 40); (R.t2, 48); (R.a0, 72); (R.a1, 80); (R.a2, 88); (R.a3, 96); (R.a4, 104); (R.a5, 112);
   (R.a6, 120); (R.a7, 128); (R.t3, 216); (R.t4, 224); (R.t5, 232); (R.t6, 240)].

Lemma kernelvec_parts :
  kernelvec_save = [Addi R.sp R.sp (-256)] ++ ((λ p, Sd p.1 p.2 R.sp) <$> kslots) ∧
  kernelvec_restore = ((λ p, Ld p.1 p.2 R.sp) <$> kslots) ++ [Addi R.sp R.sp 256].
Proof. split; reflexivity. Qed.

Lemma kslot_range p : p ∈ kslots → 0 ≤ p.2 ≤ 240.
Proof.
  assert (H : Forall (λ p : reg * Z, 0 ≤ p.2 ≤ 240) kslots) by (repeat constructor; done). rewrite Forall_forall in H. apply H.
Qed.

Lemma kslots_nodup (f : Z → Z) : (∀ a b, f a = f b → a = b) → NoDup (f <$> kslots.*2).
Proof. intros Hf. apply NoDup_fmap_2_strong; [by intros ????; apply Hf|]. apply (bool_decide_unpack _). vm_compute. exact I. Qed.

#[local] Arguments kslots : simpl never.

Lemma translate_stack m a o :
  placed (w m) → csrs m SATP = ksatp kernel_pagetable → kstack (w m) ≤ a → a + 256 ≤ kstack (w m) + PGSIZE → 0 ≤ o ≤ 240 →
  translate kernel_pagetable m (u64 (a + o)) = Some (kstack_pa (w m) + (a - kstack (w m)) + o).
Proof.
  intros [_ _ Hk _] Hs H1 H2 Ho. unfold translate. rewrite Hs, Z.eqb_refl. unfold u64. rewrite Z.mod_small by lia.
  rewrite (proj2 (Z.leb_le _ _)), (proj2 (Z.ltb_lt _ _)) by lia. cbn [andb]. f_equal. lia.
Qed.

(** What of a trap a kernel thread sees: nothing, but that it may be on another hart. *)
Definition unseen m m' : Prop :=
  in_kernel m' ∧ pc m' = pc m ∧ (∀ r, r ≠ R.tp → x m' r = x m r) ∧
  Z.testbit (csrs m' SSTATUS) 1 = Z.testbit (csrs m SSTATUS) 1 ∧ same_place (w m) (w m') ∧
  (∀ f, frame m' f = frame m f) ∧
  let low := kstack_pa (w m) + (x m R.sp - kstack (w m)) - 256 in
  ∀ a, own_word (w m) a → ¬ (low ≤ a < low + 256) → ram m' a = ram m a.

Lemma kerneltrap_spec m :
  in_kernel m → Z.testbit (csrs m SSTATUS) 8 = true → Z.testbit (csrs m SSTATUS) 1 = false →
  if decide (known_irq (csrs m SCAUSE)) then
    ∃ m', kerneltrap m = (Ret (), m') ∧ in_kernel m' ∧ same_place (w m) (w m') ∧ (∀ r, r ≠ R.tp → x m' r = x m r) ∧
      (∀ a, own_word (w m) a → ram m' a = ram m a) ∧ csrs m' SEPC = csrs m SEPC ∧ csrs m' SSTATUS = csrs m SSTATUS
  else ∃ m', kerneltrap m = (Err (Panics "kerneltrap"), m').
Proof using Ok.
  intros H H8 H1. unfold Trap.kerneltrap. do 3 (erewrite bind_run by reflexivity; cbv beta).
  erewrite bind_run by (unfold SSTATUS_SPP; rewrite (has_testbit _ 8) by done; rewrite H8; reflexivity). cbv beta.
  erewrite bind_run by reflexivity. cbv beta. unfold SSTATUS_SIE. rewrite (has_testbit _ 1), H1 by done. erewrite bind_run by reflexivity. cbv beta.
  destruct (devintr_spec m) as (d & m1 & E & Hq & Hd & Hn). erewrite bind_run by exact E. cbv beta. case_decide as Hc.
  - rewrite (proj2 (Z.eqb_neq d 0)) by tauto. erewrite bind_run by reflexivity. cbv beta.
    pose proof (quiet_in_kernel _ _ Hq H) as I1. pose proof (quiet_kept _ _ Hq) as (P1 & P2 & P3 & P4).
    assert (Hp : ∃ m2, when (d =? 2) (preempt pol) m1 = (Ret (), m2) ∧ in_kernel m2 ∧ kept m1 m2).
    { unfold when. case_if; [by apply preempt_spec|]. exists m1. unfold kept, same_place. by split_and!. }
    destruct Hp as (m2 & E2 & I2 & (Q1 & Q2 & Q3 & Q4)). erewrite bind_run by exact E2. cbv beta. erewrite bind_run by reflexivity. cbv beta.
    eexists. split; [reflexivity|]. cbn. split; [by destruct I2|]. unfold same_place in *. split; [clear -P1 Q1; intuition congruence|].
    split; [intros r Hr; by rewrite Q2, P2|]. split; [|by rewrite fn_lookup_insert_ne, fn_lookup_insert].
    intros a Ha. rewrite Q3; [by apply P3|]. unfold own_word in *. by rewrite (proj1 (proj2 (proj2 (proj2 P1)))), (proj2 (proj2 (proj2 (proj2 P1)))).
  - assert (d = 0) as -> by (destruct (Z.eq_dec d 0); tauto). eexists. reflexivity.
Qed.

Lemma kept_words m m' :
  placed (w m) → same_place (w m) (w m') → kstack (w m) ≤ x m R.sp - 256 → x m R.sp ≤ kstack (w m) + PGSIZE →
  (let low := kstack_pa (w m) + (x m R.sp - kstack (w m)) - 256 in ∀ a, own_word (w m) a → ¬ (low ≤ a < low + 256) → ram m' a = ram m a) →
  ∀ f, frame m' f = frame m f.
Proof.
  intros [_ Ha _ _] (_ & _ & _ & _ & E) H1 H2 H f. unfold frame. rewrite E. apply H; [apply frame_own|]. pose proof (offset_range f). unfold PGSIZE in *. lia.
Qed.

Lemma takes_other f h l r : ∀ y, r ∉ l.*1 → takes f h l y r = y r.
Proof.
  induction l as [|p l IH]; intros y H; [done|]. change (takes f h (p :: l) y r) with (takes f h l (<[p.1 := h (f p.2)]> y) r).
  cbn in H. apply not_elem_of_cons in H as [H1 H2]. rewrite IH by done. by rewrite fn_lookup_insert_ne.
Qed.

Lemma takes_at f h l p : ∀ y, NoDup l.*1 → p ∈ l → takes f h l y p.1 = h (f p.2).
Proof.
  induction l as [|q l IH]; intros y Hn Hp; [by apply elem_of_nil in Hp|]. cbn in Hn. apply NoDup_cons in Hn as [Hq Hn].
  change (takes f h (q :: l) y p.1) with (takes f h l (<[q.1 := h (f q.2)]> y) p.1). apply elem_of_cons in Hp as [->|Hp]; [|by apply IH].
  rewrite takes_other by done. by rewrite fn_lookup_insert.
Qed.

Lemma kslot_or_saved r : callee_saved r = true ∧ r ∉ kslots.*1 ∨ ∃ p, p ∈ kslots ∧ p.1 = r.
Proof.
  destruct (decide (r ∈ kslots.*1)) as [H|H]; [right; apply list_elem_of_fmap in H as (p & -> & Hp); by exists p|].
  left. split; [|done]. destruct r; first [reflexivity|exfalso; apply H; apply (bool_decide_unpack _); vm_compute; exact I].
Qed.

(** C37: an interrupt in the kernel, whatever it does and even if the thread gives up the CPU for it, is not seen by the code it interrupts: it goes on
    at the same pc, with the same registers, stack, trap frame and interrupt flag, maybe on another hart, whose number [tp] has; any
    other trap in the kernel is a panic. *)
Theorem kernel_traps_transparent junk cause val m :
  in_kernel m → kstack (w m) ≤ x m R.sp - 256 → x m R.sp ≤ kstack (w m) + PGSIZE →
  if decide (known_irq cause) then ∃ m', trap_in_kernel junk cause val m = (Ret (), m') ∧ unseen m m'
  else ∃ m', trap_in_kernel junk cause val m = (Err (Panics "kerneltrap"), m').
Proof using Ok.
  intros H Hlo Hhi. pose proof H as [H1 H2 H3 H4 H5]. unfold Trap.trap_in_kernel. erewrite bind_run by reflexivity. cbv beta.
  set (m0 := set_mode _ _ _). set (sp := x m R.sp) in *.
  assert (Ej : jump pc kernelvec m0 = (Ret (), m0)) by (unfold jump; erewrite bind_run by reflexivity; cbn; by rewrite H2, Z.eqb_refl).
  erewrite bind_run by exact Ej. cbv beta.
  set (m1 := set_x (<[R.sp := sp - 256]> (x m)) m0). set (to := Z.add (kstack_pa (w m) + (sp - 256 - kstack (w m)))).
  set (m2 := set_ram (puts to (x m1) kslots (ram m1)) m1).
  assert (Hto : ∀ k, w k = w m ∨ same_place (w m) (w k) → placed (w k) → csrs k SATP = ksatp kernel_pagetable → ∀ o, 0 ≤ o ≤ 240 →
    translate kernel_pagetable k (u64 (sp - 256 + o)) = Some (to o)).
  { intros k Hw Hk Hs o Ho. assert (E : kstack (w k) = kstack (w m) ∧ kstack_pa (w k) = kstack_pa (w m)) by (destruct Hw as [->|(? & ? & ? & ? & ?)]; done).
    destruct E as [E1 E2]. unfold to. rewrite <-E1, <-E2. apply translate_stack; [done|done|rewrite E1; lia|rewrite E1; lia|done]. }
  assert (Esave : run kernelvec_save m0 = (Ret (), m2)).
  { rewrite (proj1 kernelvec_parts). destruct (pl_stack _ _ H5) as [Hk1 Hk2]. rewrite (run_app kernel_pagetable _ _ m0 m1).
    - apply run_saves. intros p Hp. apply (Hto m1); [by left|exact H5|exact H3|by apply kslot_range].
    - transitivity (Ret () : outcome stop (), set_x (<[R.sp := u64 (sp + -256)]> (x m)) m0); [reflexivity|].
      unfold m1, u64. rewrite Z.mod_small by lia. by replace (sp + -256) with (sp - 256) by lia. }
  erewrite bind_run by exact Esave. cbv beta.
  assert (I2 : in_kernel m2) by (split; [reflexivity|exact H2|exact H3|exact H4|exact H5]).
  assert (Es2 : csrs m2 SSTATUS = trap_status (user m) (csrs m SSTATUS)) by reflexivity.
  pose proof (kerneltrap_spec m2 I2 ltac:(by rewrite Es2, trap_status_spp, H1) ltac:(by rewrite Es2, trap_status_sie)) as Hkt.
  change (csrs m2 SCAUSE) with cause in Hkt. destruct (decide (known_irq cause)) as [Hc|Hc].
  2: { destruct Hkt as (m' & E). exists m'. unfold mbind at 1, M_bind at 1. by rewrite E. }
  destruct Hkt as (m3 & E3 & I3 & S3 & X3 & W3 & P3 & T3). erewrite bind_run by exact E3. cbv beta.
  erewrite bind_run by reflexivity. cbv beta. set (m4 := set_x _ m3).
  assert (Hsp : x m4 R.sp = sp - 256) by (cbn; rewrite X3; done).
  assert (Ewm : w m2 = w m) by done. rewrite Ewm in S3, W3. pose proof I3 as [J1 J2 J3 J4 J5].
  set (m5 := set_x (<[R.sp := sp]> (takes to (ram m4) kslots (x m4))) m4).
  assert (Eload : run kernelvec_restore m4 = (Ret (), m5)).
  { rewrite (proj2 kernelvec_parts). destruct (pl_stack _ _ H5) as [Hk1 Hk2]. erewrite run_app.
    2: { apply (run_loads kernel_pagetable _ _ to); [apply (bool_decide_unpack _); vm_compute; exact I|]. intros p Hp. rewrite Hsp.
         apply (Hto m4); [by right|exact J5|exact J3|by apply kslot_range]. }
    set (y := takes to (ram m4) kslots (x m4)).
    transitivity (Ret () : outcome stop (), set_x (<[R.sp := u64 (y R.sp + 256)]> y) m4); [reflexivity|].
    unfold m5, y. rewrite takes_other by (apply (bool_decide_unpack _); vm_compute; exact I). rewrite Hsp. unfold u64. rewrite Z.mod_small by lia.
    by replace (sp - 256 + 256) with sp by lia. }
  erewrite bind_run by exact Eload. cbv beta. eexists. split; [reflexivity|].
  assert (Hx : ∀ r, r ≠ R.tp → x m5 r = x m r).
  { intros r Hr. cbn. destruct (decide (r = R.sp)) as [->|Hr']; [by rewrite fn_lookup_insert|]. rewrite fn_lookup_insert_ne by done.
    destruct (kslot_or_saved r) as [[Hc1 Hc2]|(p & Hp & <-)].
    - rewrite takes_other by done. cbn. rewrite Hc1, X3 by done. cbn. by rewrite fn_lookup_insert_ne.
    - rewrite takes_at by (first [done|apply (bool_decide_unpack _); vm_compute; exact I]). change (ram m4) with (ram m3). rewrite W3.
      + cbn. rewrite puts_at by (first [done|apply kslots_nodup; unfold to; lia]). cbn. by rewrite fn_lookup_insert_ne.
      + right. apply kslot_range in Hp. unfold to. lia. }
  assert (Hram : let low := kstack_pa (w m) + (x m R.sp - kstack (w m)) - 256 in ∀ a, own_word (w m) a → ¬ (low ≤ a < low + 256) → ram m5 a = ram m a).
  { intros low a Ha Hl. change (ram m5) with (ram m3). rewrite W3 by done. cbn. rewrite puts_other; [done|].
    intros p Hp E. apply kslot_range in Hp. unfold to in E. subst low. fold sp in Hl. lia. }
  unfold unseen. split_and!.
  - split; cbn -[Z.testbit]; [by rewrite T3, Es2, trap_status_spp, H1|exact J2|exact J3| |exact J5].
    rewrite fn_lookup_insert_ne by done. rewrite takes_other by (apply (bool_decide_unpack _); vm_compute; exact I). exact J4.
  - cbn. by rewrite P3.
  - exact Hx.
  - cbn -[Z.testbit]. rewrite fn_lookup_insert, sret_status_sie, T3, Es2. apply trap_status_spie.
  - exact S3.
  - apply (kept_words m m5); [done|exact S3|done|done|exact Hram].
  - exact Hram.
Qed.
End Proofs.

(** ** A kernel to run them on

    One process, devices that do nothing, and system calls that return the pid. *)
#[export] Instance plain : Traps () := {
  plic_claim d := (UART0_IRQ, d);
  plic_complete _ d := d;
  uartintr d := d;
  virtio_disk_intr d := d;
  r_time _ := 100;
  vmfault _ d := (0, d);
  sys _ := gets (λ m, my_pid (w m));
  resched m := m;
  forkret_init := mret ()
}.

Definition UVEC : Z := TRAMPOLINE.
Definition KVEC : Z := 0x80005000.
Definition UTRAP : Z := 0x80002000.
Definition KPT : Z := 0x87fff000.

#[export] Instance plain_ok : TrapsOk () KVEC KPT.
Proof.
  split.
  - intros n m H. exact H.
  - intros m H. exact H.
  - intros m H. split; [exact H|]. unfold same_place. by split_and!.
Qed.

(** Process 5 in the kernel, on hart 0, with an empty stack and interrupts on. *)
Definition proc5 : proc :=
  {| state := RUNNING; chan := None; killed_flag := false; xstate := 0; pid := 5; parent := None; has_memory := true; queue := 0; ticks_in_slice := 0;
     enter_time := 0; ctime := 0; ttime := 0; rtime := 0; wtime := 0; stime := 0; first_run_time := 0; has_run := true |}.

Definition world5 : world () :=
  {| kern := {| procs := [proc5]; nextpid := 6; initproc := 0; ticks := 0 |}; me := Some 0%nat; pagetable := 0x87f00000; sz := 4096;
     kstack := KSTACK 0; kstack_pa := 0x87e00000; trapframe := 0x87d00000; dev := () |}.

Definition zeros : reg → Z := λ _, 0.

Definition inside : mach () :=
  {| user := false; pc := 0x80001000; x := <[R.sp := KSTACK 0 + PGSIZE]> (<[R.s1 := 9]> zeros);
     csrs := <[STVEC := KVEC]> (<[SATP := ksatp KPT]> (<[SSTATUS := SSTATUS_SIE]> (λ _, 0)));
     hart := 0; ram := λ _, 0; w := world5; out := [] |}.

(** In user mode, before any code of its own and before an [ecall] of [getpid]. *)
Definition outside : mach () := (first_return UVEC UTRAP KPT false zeros inside).2.
Definition at_ecall : mach () := set_mode true 64 (set_x (<[R.a7 := 11]> (<[R.s1 := 42]> (x outside))) outside).

Definition returns {E A S} (r : outcome E A * S) : bool := match r.1 with Ret _ => true | _ => false end.

Lemma returns_eq {S E} (r : outcome E () * S) : returns r = true → r = (Ret (), r.2).
Proof. by destruct r as [[[]|?|] ?]. Qed.

Lemma inside_ok : in_kernel KPT KVEC inside.
Proof.
  split; [reflexivity..|]. split; cbn.
  - apply Z.eqb_neq. vm_compute. reflexivity.
  - left. apply Z.leb_le. vm_compute. reflexivity.
  - split; [apply Z.leb_le|apply Z.ltb_lt]; vm_compute; reflexivity.
  - by eexists.
Qed.

Abbreviation alive5 := (alive MLFQ UVEC KVEC UTRAP KPT).

Lemma outside_alive : alive5 outside.
Proof.
  assert (H : returns (first_return UVEC UTRAP KPT false zeros inside) = true) by (vm_compute; reflexivity).
  apply returns_eq in H. exact (al_first _ _ _ _ _ false zeros inside _ inside_ok H).
Qed.

Lemma user_code_alive m p y : alive5 m → alive5 (set_mode true p (set_x y m)).
Proof.
  intros H. apply (al_user _ _ _ _ _ m); try done.
  symmetry. apply (rd_mode _ _ _ _ (alive_ready MLFQ UVEC KVEC UTRAP KPT plain_ok m H)).
Qed.

Lemma at_ecall_alive : alive5 at_ecall.
Proof. apply user_code_alive, outside_alive. Qed.

Theorem user_traps_transparent_witness :
  (let m' := (trap_in_user MLFQ UVEC KVEC UTRAP KPT zeros 8 0 at_ecall).2 in
   (x m' R.a0, x m' R.s1, x m' R.a7, pc m') = (5, 42, 11, 68)) ∧
  wp (trap_in_user MLFQ UVEC KVEC UTRAP KPT zeros 8 0)
    (λ _ m', alive5 m' ∧ user m' = true ∧ Z.testbit (csrs m' SSTATUS) 1 = true ∧ returned KVEC KPT 8 at_ecall m') (stopped 8) at_ecall.
Proof. split; [vm_compute; reflexivity|]. exact (user_traps_transparent MLFQ UVEC KVEC UTRAP KPT plain_ok zeros 8 0 at_ecall at_ecall_alive). Defined.


Theorem kernel_traps_transparent_witness :
  (∃ m', trap_in_kernel MLFQ KVEC KPT zeros 0x8000000000000005 0 inside = (Ret (), m') ∧ pc m' = pc inside ∧ x m' R.s1 = 9) ∧
  csrs (trap_in_kernel MLFQ KVEC KPT zeros 0x8000000000000005 0 inside).2 STIMECMP = 1000100.
Proof.
  split; [|vm_compute; reflexivity].
  destruct (kernel_traps_transparent MLFQ KVEC KPT plain_ok zeros 0x8000000000000005 0 inside inside_ok) as (m' & E & _ & Hp & Hx & _);
    [apply Z.leb_le; vm_compute; reflexivity|apply Z.leb_le; vm_compute; reflexivity|].
  exists m'. split; [exact E|]. split; [exact Hp|]. rewrite Hx by discriminate. reflexivity.
Defined.
