(* ===== verification/Uart.v ===== *)
(** * The serial port (xv6/kernel/uart.c)

    Threads in [uartwrite], the interrupt handler [uartintr] with the echo of the
    console, and the device, interleaved step by step on several CPUs: a step is one
    access to the device or one critical section.  [wakeup] is one step, because one thread
    at a time waits on [tx_chan]; the sleep-lock is taken in one step when it is
    free.  Not in the model: output of [printk] at the same time, and a panic. *)

From stdpp Require Import functions.
From S2P Require Export Proc.
From S2P Require Import Console.

Local Open Scope Z_scope.

Definition RHR : Z := 0.
Definition THR : Z := 0.
Definition IER : Z := 1.
Definition IER_RX_ENABLE : Z := Z.shiftl 1 0.
Definition IER_TX_ENABLE : Z := Z.shiftl 1 1.
Definition FCR : Z := 2.
Definition FCR_FIFO_ENABLE : Z := Z.shiftl 1 0.
Definition FCR_FIFO_CLEAR : Z := Z.shiftl 3 1.
Definition LCR : Z := 3.
Definition LCR_EIGHT_BITS : Z := Z.shiftl 3 0.
Definition LCR_BAUD_LATCH : Z := Z.shiftl 1 7.

(** The writes to the registers. *)
Definition uartinit : list (Z * Z) :=
  [(IER, 0); (LCR, LCR_BAUD_LATCH); (0, 3); (1, 0); (LCR, LCR_EIGHT_BITS); (FCR, Z.lor FCR_FIFO_ENABLE FCR_FIFO_CLEAR);
   (IER, Z.lor IER_TX_ENABLE IER_RX_ENABLE)].

(** A 16550 with its FIFO on: what it has to send, what it has received, and whether the interrupt for an empty FIFO is pending. *)
Class Uart (U : Type) := {
  fifo : U → list Z;
  received : U → list Z;
  thre : U → bool;
  write_thr : Z → U → U;
  read_isr : U → U;
  read_rhr : U → Z * U;
  drain : U → U;             (* a byte leaves *)
  arrive : Z → U → U
}.

(** What its manual promises: 16 bytes fit in each direction, and a byte that arrives when 16 are waiting is lost; the interrupt comes when the FIFO gets empty, and is taken back when a byte is written or when reading
    ISR reports it, which it does if there is no received byte to report. *)
Class UartOk (U : Type) `{!Uart U} : Prop := {
  write_fifo c (u : U) : (length (fifo u) < 16)%nat → fifo (write_thr c u) = fifo u ++ [c];
  write_received c (u : U) : received (write_thr c u) = received u;
  write_thre c (u : U) : thre (write_thr c u) = false;
  isr_fifo (u : U) : fifo (read_isr u) = fifo u;
  isr_received (u : U) : received (read_isr u) = received u;
  isr_thre (u : U) : thre (read_isr u) = true → thre u = true ∧ received u ≠ [];
  rhr_spec (u : U) c l : received u = c :: l → (read_rhr u).1 = c ∧ received (read_rhr u).2 = l;
  rhr_fifo (u : U) : fifo (read_rhr u).2 = fifo u;
  rhr_thre (u : U) : thre (read_rhr u).2 = thre u;
  drain_fifo (u : U) c l : fifo u = c :: l → fifo (drain u) = l;
  drain_received (u : U) : received (drain u) = received u;
  drain_thre (u : U) c l : fifo u = c :: l → thre (drain u) = thre u || bool_decide (l = []);
  arrive_spec c (u : U) :
    received (arrive c u) = (if (length (received u) <? 16)%nat then received u ++ [c] else received u) ∧
    fifo (arrive c u) = fifo u ∧ thre (arrive c u) = thre u
}.

(** LSR_TX_IDLE, LSR_RX_READY *)
Definition tx_idle {U} `{!Uart U} (u : U) : bool := match fifo u with [] => true | _ => false end.
Definition rx_ready {U} `{!Uart U} (u : U) : bool := match received u with [] => false | _ => true end.

(** Where a thread in [uartwrite] is, at byte [i]. *)
Inductive wpc :=
  | Start               (* at acquiresleep *)
  | Prep (i : nat)      (* at the test of the loop *)
  | Poll (i : nat)      (* after sleep_prepare *)
  | Put (i : nat)       (* LSR said idle *)
  | ToSleep (i : nat)   (* LSR said busy *)
  | Slept (i : nat)     (* in sleep *)
  | Finished.

(** Where [uartintr] is: [Echo l] has the bytes that [consoleintr] still sends with [uartputc_sync], [EchoPut] after its wait. *)
Inductive hpc := NoIntr | Acked | Waking | Receiving | Echo (l : list Z) | EchoPut (c : Z) (l : list Z).

Definition tx_chan : chan_addr := OtherAddr 0.

(** [log], [wire] and [order] are not in the code: who wrote what ([None]: the echo), what left, and the order of the calls. *)
Record port (U : Type) := {
  threads : nat → proc;
  at_ : nat → wpc;
  tx_lock : option nat;
  intr : hpc;
  console : cons;
  dev : U;
  log : list (option nat * Z);
  wire : list Z;
  order : list nat
}.
Arguments threads {U}. Arguments at_ {U}. Arguments tx_lock {U}. Arguments intr {U}. Arguments console {U}. Arguments dev {U}.
Arguments log {U}. Arguments wire {U}. Arguments order {U}.

Section Steps.
Context {U : Type} `{!Uart U} (pol : policy) (now : Z).
(** The buffer that a thread passes. *)
Context (bufs : nat → list Z).
Implicit Types (s : port U).

Definition set_thread (p : nat) (f : proc → proc) (a : wpc) s : port U :=
  {| threads := <[p := f (threads s p)]> (threads s); at_ := <[p := a]> (at_ s); tx_lock := tx_lock s; intr := intr s; console := console s; dev := dev s;
     log := log s; wire := wire s; order := order s |}.
Definition set_lock (l : option nat) (o : list nat) s : port U :=
  {| threads := threads s; at_ := at_ s; tx_lock := l; intr := intr s; console := console s; dev := dev s; log := log s; wire := wire s; order := o |}.
Definition set_intr (h : hpc) (u : U) s : port U :=
  {| threads := threads s; at_ := at_ s; tx_lock := tx_lock s; intr := h; console := console s; dev := u; log := log s; wire := wire s; order := order s |}.
Definition put_byte (who : option nat) (c : Z) s : port U :=
  {| threads := threads s; at_ := at_ s; tx_lock := tx_lock s; intr := intr s; console := console s; dev := write_thr c (dev s);
     log := log s ++ [(who, c)]; wire := wire s; order := order s |}.

(** A step of thread [p] in [uartwrite]; [None]: it waits. *)
Definition uartwrite (p : nat) s : option (port U) :=
  match at_ s p with
  | Start => match tx_lock s with None => Some (set_lock (Some p) (order s) (set_thread p id (Prep 0) s)) | Some _ => None end
  | Prep i =>
      if (i <? length (bufs p))%nat then Some (set_thread p (with_chan (Some tx_chan)) (Poll i) s)
      else Some (set_lock None (order s ++ [p]) (set_thread p id Finished s))
  | Poll i => Some (set_thread p id (if tx_idle (dev s) then Put i else ToSleep i) s)
  | Put i => Some (set_thread p id (Prep (S i)) (put_byte (Some p) (nth i (bufs p) 0) s))
  | ToSleep i =>
      let (q, off) := sleep_proc pol (threads s p) in
      Some (set_thread p (λ _, q) (if off : bool then Slept i else Prep i) s)
  | Slept i => if decide (state (threads s p) = SLEEPING) then None else Some (set_thread p id (Prep i) s)
  | Finished => None
  end.

(** [uartgetc] and the call of [consoleintr] for its byte, without the echo. *)
Definition receive s : port U :=
  if rx_ready (dev s) then
    let (c, u) := read_rhr (dev s) in
    let '(k, out, _) := consoleintr c (console s) in
    {| threads := threads s; at_ := at_ s; tx_lock := tx_lock s; intr := Echo out; console := k; dev := u; log := log s; wire := wire s; order := order s |}
  else set_intr NoIntr (dev s) s.

(** [uartputc_sync]: the wait for the device, and the write. *)
Definition uartputc_wait (c : Z) (l : list Z) s : option (port U) := if tx_idle (dev s) then Some (set_intr (EchoPut c l) (dev s) s) else None.
Definition uartputc_put (c : Z) (l : list Z) s : port U := let s := put_byte None c s in set_intr (Echo l) (dev s) s.

(** A step of the interrupt handler; it starts when the device asks for it. *)
Definition uartintr s : option (port U) :=
  match intr s with
  | NoIntr => if thre (dev s) || rx_ready (dev s) then Some (set_intr Acked (read_isr (dev s)) s) else None
  | Acked => Some (set_intr (if tx_idle (dev s) then Waking else Receiving) (dev s) s)
  | Waking =>
      Some {| threads := λ p, wake_proc pol (Some tx_chan) now (threads s p); at_ := at_ s; tx_lock := tx_lock s; intr := Receiving; console := console s;
              dev := dev s; log := log s; wire := wire s; order := order s |}
  | Receiving => Some (receive s)
  | Echo [] => Some (set_intr Receiving (dev s) s)
  | Echo (c :: l) => uartputc_wait c l s
  | EchoPut c l => Some (uartputc_put c l s)
  end.

Definition uart_send s : option (port U) :=
  match fifo (dev s) with
  | [] => None
  | c :: _ => Some {| threads := threads s; at_ := at_ s; tx_lock := tx_lock s; intr := intr s; console := console s; dev := drain (dev s); log := log s;
                      wire := wire s ++ [c]; order := order s |}
  end.

(** What the port does by itself. *)
Inductive step s : port U → Prop :=
  | s_write p s' : uartwrite p s = Some s' → step s s'
  | s_intr s' : uartintr s = Some s' → step s s'
  | s_send s' : uart_send s = Some s' → step s s'.

(** What comes from outside: a key, and [kkill] of a thread. *)
Inductive outside s : port U → Prop :=
  | o_key c : outside s (set_intr (intr s) (arrive c (dev s)) s)
  | o_kill p : outside s (set_thread p (kill_proc pol now) (at_ s p) s).

Inductive reach s : port U → Prop :=
  | r_here : reach s s
  | r_step s1 s2 : reach s s1 → step s1 s2 ∨ outside s1 s2 → reach s s2.

(** [n] threads that call [uartwrite], nothing sent yet. *)
Definition fresh (n : nat) s : Prop :=
  (∀ p, at_ s p = if (p <? n)%nat then Start else Finished) ∧ tx_lock s = None ∧ intr s = NoIntr ∧
  fifo (dev s) = [] ∧ log s = [] ∧ wire s = [] ∧ order s = [].
End Steps.
