(* ===== verification/UartSpec.v ===== *)
(** * The serial port: proofs

    Every byte that is passed to [uartwrite] leaves, in order; no wakeup is lost and
    no byte overruns the FIFO. *)

From stdpp Require Import functions.
From S2P Require Import Console.
From S2P Require Export Uart.

Local Open Scope Z_scope.

(** ** The invariant *)
Definition active (a : wpc) : bool := match a with Start | Finished => false | _ => true end.
Definition pos (a : wpc) : nat := match a with Prep i | Poll i | Put i | ToSleep i | Slept i => i | _ => 0 end.
Definition is_put (a : wpc) : nat := match a with Put _ => 1 | _ => 0 end.
Definition is_echo (h : hpc) : nat := match h with EchoPut _ _ => 1 | _ => 0 end.

Definition chan_ok (q : proc) : Prop := chan q = None ∨ chan q = Some tx_chan.

(** [alarm]: a wakeup will come. *)
Definition th_ok (alarm : Prop) (len : nat) (q : proc) (a : wpc) : Prop :=
  match a with
  | Start | Finished => True
  | Prep i => (i ≤ len)%nat
  | Poll i => (i < len)%nat ∧ chan_ok q
  | Put i => (i < len)%nat
  | ToSleep i => (i < len)%nat ∧ chan_ok q ∧ (chan q ≠ None → alarm)
  | Slept i => (i < len)%nat ∧ chan_ok q ∧ (chan q ≠ None → alarm) ∧ (state q = SLEEPING → chan q ≠ None)
  end.

Section Invariant.
Context {U : Type} `{!Uart U} `{!UartOk U} (pol : policy) (now : Z) (bufs : nat → list Z) (n : nat).
Implicit Types (s : port U).

Definition alarm s : Prop := fifo (dev s) ≠ [] ∨ thre (dev s) = true ∨ intr s = Acked ∨ intr s = Waking.
Definition putting s : nat := match tx_lock s with Some p => is_put (at_ s p) | None => 0 end.
Definition call (p : nat) (bs : list Z) : list (nat * Z) := pair p <$> bs.
Definition partial s : list (nat * Z) := match tx_lock s with Some p => call p (take (pos (at_ s p)) (bufs p)) | None => [] end.
Definition of_threads (l : list (option nat * Z)) : list (nat * Z) := omap (λ e, (λ p, (p, e.2)) <$> e.1) l.
Definition calls (l : list nat) : list (nat * Z) := mjoin ((λ p, call p (bufs p)) <$> l).

Record inv s : Prop := {
  v_lock p : tx_lock s = Some p ↔ active (at_ s p) = true;
  v_th p : th_ok (alarm s) (length (bufs p)) (threads s p) (at_ s p);
  v_room : (length (fifo (dev s)) + putting s + is_echo (intr s) ≤ 2)%nat;
  v_wire : (log s).*2 = wire s ++ fifo (dev s);
  v_log : of_threads (log s) = calls (order s) ++ partial s;
  v_order p : p ∈ order s ↔ (p < n)%nat ∧ at_ s p = Finished;
  v_nodup : NoDup (order s);
  v_n p : (n ≤ p)%nat → at_ s p = Finished
}.

Lemma th_ok_mono (A B : Prop) len q a : (A → B) → th_ok A len q a → th_ok B len q a.
Proof. destruct a; cbn; tauto. Qed.

Lemma of_threads_app l1 l2 : of_threads (l1 ++ l2) = of_threads l1 ++ of_threads l2.
Proof. apply omap_app. Qed.

Lemma calls_snoc l p : calls (l ++ [p]) = calls l ++ call p (bufs p).
Proof. unfold calls. rewrite fmap_app, join_app. cbn. by rewrite app_nil_r. Qed.

Lemma fresh_inv s : fresh n s → inv s.
Proof.
  intros (Ha & Hl & Hi & Hf & Hg & Hw & Ho). split; unfold putting, partial; rewrite ?Hl, ?Hi, ?Hf, ?Hg, ?Hw, ?Ho; try done.
  - intros p. rewrite Ha. by destruct (p <? n)%nat.
  - intros p. rewrite Ha. by destruct (p <? n)%nat.
  - cbn. lia.
  - intros p. rewrite Ha. split; [by intros ?%elem_of_nil|]. intros [H1 H2]. by rewrite (proj2 (Nat.ltb_lt _ _) H1) in H2.
  - constructor.
  - intros p Hp. rewrite Ha. by rewrite (proj2 (Nat.ltb_ge _ _) Hp).
Qed.

(** The holder of the lock moves on. *)
Lemma set_thread_inv s p f a :
  inv s → active (at_ s p) = true → active a = true → pos a = pos (at_ s p) →
  th_ok (alarm s) (length (bufs p)) (f (threads s p)) a →
  (length (fifo (dev s)) + is_put a + is_echo (intr s) ≤ 2)%nat →
  inv (set_thread p f a s).
Proof.
  intros [V1 V2 V3 V4 V5 V6 V7 V8] H1 H2 H3 H4 H5. pose proof (proj2 (V1 p) H1) as Hl.
  split; unfold putting, partial in *; cbn [set_thread threads at_ tx_lock intr dev log wire order] in *; rewrite ?Hl in *; try done.
  - intros q. destruct (decide (q = p)) as [->|Hq]; [rewrite fn_lookup_insert; by split|]. rewrite fn_lookup_insert_ne by done. apply V1.
  - intros q. destruct (decide (q = p)) as [->|Hq]; [by rewrite !fn_lookup_insert|]. rewrite !fn_lookup_insert_ne by done. apply V2.
  - by rewrite fn_lookup_insert.
  - by rewrite fn_lookup_insert, H3.
  - intros q. rewrite V6. destruct (decide (q = p)) as [->|Hq]; [|by rewrite fn_lookup_insert_ne]. rewrite fn_lookup_insert.
    split; intros [? E]; [by rewrite E in H1|by subst].
  - intros q Hq. destruct (decide (q = p)) as [->|]; [by rewrite (V8 p Hq) in H1|]. rewrite fn_lookup_insert_ne by done. by apply V8.
Qed.

Lemma sleep_proc_chan q : chan (sleep_proc pol q).1 = chan q ∧ (sleep_proc pol q).2 = bool_decide (chan q ≠ None) ∧ (chan q = None → (sleep_proc pol q).1 = q).
Proof.
  unfold sleep_proc, if_mlfq. destruct (chan q) eqn:E; [|done]. case_decide; cbn; by rewrite ?E.
Qed.

Lemma sleep_proc_state q : chan q ≠ None → state (sleep_proc pol q).1 = SLEEPING.
Proof. unfold sleep_proc, if_mlfq. destruct (chan q); [|done]. intros _. by case_decide. Qed.

Lemma idle_fifo (u : U) : tx_idle u = true ↔ fifo u = [].
Proof. unfold tx_idle. by destruct (fifo u). Qed.

Lemma nth_take (l : list Z) i : (i < length l)%nat → take (S i) l = take i l ++ [nth i l 0].
Proof. intros H. rewrite (take_S_r l i (nth i l 0)); [done|]. destruct (lookup_lt_is_Some_2 l i H) as [v E]. rewrite E. by rewrite (nth_lookup_Some _ _ _ _ E). Qed.

(** A byte of the holder goes to the device. *)
Lemma put_inv s p i : inv s → at_ s p = Put i → inv (set_thread p id (Prep (S i)) (put_byte (Some p) (nth i (bufs p) 0) s)).
Proof.
  intros [V1 V2 V3 V4 V5 V6 V7 V8] Ep. assert (Hl : tx_lock s = Some p) by (apply V1; by rewrite Ep).
  pose proof (V2 p) as Hi. rewrite Ep in Hi. cbn in Hi. unfold putting in V3. rewrite Hl, Ep in V3. cbn in V3.
  split; unfold putting, partial in *; cbn [set_thread put_byte threads at_ tx_lock intr dev log wire order] in *; rewrite ?Hl in *; try done.
  - intros q. destruct (decide (q = p)) as [->|Hq]; [rewrite fn_lookup_insert; by split|]. rewrite fn_lookup_insert_ne by done. apply V1.
  - intros q. destruct (decide (q = p)) as [->|Hq]; [rewrite !fn_lookup_insert; cbn; lia|]. rewrite !fn_lookup_insert_ne by done.
    eapply th_ok_mono; [|apply V2]. intros _. left. cbn. rewrite write_fifo by lia. by destruct (fifo (dev s)).
  - rewrite fn_lookup_insert, write_fifo, length_app by lia. cbn. lia.
  - rewrite write_fifo, fmap_app, V4 by lia. by rewrite <-app_assoc.
  - rewrite of_threads_app, V5, fn_lookup_insert, Ep. cbn [pos]. rewrite (nth_take (bufs p) i) by done. unfold call. rewrite fmap_app. by rewrite <-app_assoc.
  - intros q. rewrite V6. destruct (decide (q = p)) as [->|Hq]; [|by rewrite fn_lookup_insert_ne]. rewrite fn_lookup_insert, Ep. by split; intros [].
  - intros q Hq. destruct (decide (q = p)) as [->|]; [by rewrite (V8 p Hq) in Ep|]. rewrite fn_lookup_insert_ne by done. by apply V8.
Qed.

Lemma acquire_inv s p : inv s → at_ s p = Start → tx_lock s = None → inv (set_lock (Some p) (order s) (set_thread p id (Prep 0) s)).
Proof.
  intros [V1 V2 V3 V4 V5 V6 V7 V8] Ep Hl.
  split; unfold putting, partial in *; cbn [set_thread set_lock threads at_ tx_lock intr dev log wire order] in *; rewrite ?Hl in *; try done.
  - intros q. destruct (decide (q = p)) as [->|Hq]; [rewrite fn_lookup_insert; by split|]. rewrite fn_lookup_insert_ne, <-V1 by done. by split; [intros [=]|].
  - intros q. destruct (decide (q = p)) as [->|Hq]; [rewrite !fn_lookup_insert; cbn; lia|]. rewrite !fn_lookup_insert_ne by done. apply V2.
  - by rewrite fn_lookup_insert.
  - by rewrite fn_lookup_insert.
  - intros q. rewrite V6. destruct (decide (q = p)) as [->|Hq]; [|by rewrite fn_lookup_insert_ne]. rewrite fn_lookup_insert, Ep. by split; intros [].
  - intros q Hq. destruct (decide (q = p)) as [->|]; [by rewrite (V8 p Hq) in Ep|]. rewrite fn_lookup_insert_ne by done. by apply V8.
Qed.

Lemma release_inv s p i : inv s → at_ s p = Prep i → (length (bufs p) ≤ i)%nat → inv (set_lock None (order s ++ [p]) (set_thread p id Finished s)).
Proof.
  intros [V1 V2 V3 V4 V5 V6 V7 V8] Ep Hi. assert (Hl : tx_lock s = Some p) by (apply V1; by rewrite Ep).
  split; unfold putting, partial in *; cbn [set_thread set_lock threads at_ tx_lock intr dev log wire order] in *; rewrite ?Hl in *; try done.
  - intros q. destruct (decide (q = p)) as [->|Hq]; [by rewrite fn_lookup_insert|]. rewrite fn_lookup_insert_ne by done. rewrite <-V1. split; [done|by intros [= ->]].
  - intros q. destruct (decide (q = p)) as [->|Hq]; [by rewrite !fn_lookup_insert|]. rewrite !fn_lookup_insert_ne by done. apply V2.
  - rewrite Ep in V3. exact V3.
  - rewrite V5, Ep, calls_snoc, app_nil_r. cbn [pos]. by rewrite take_ge by done.
  - intros q. rewrite elem_of_app, list_elem_of_singleton, V6. destruct (decide (q = p)) as [->|Hq].
    + rewrite fn_lookup_insert. split; [|tauto]. intros _. split; [|done]. destruct (decide (p < n)%nat); [done|]. rewrite (V8 p) in Ep by lia. done.
    + rewrite fn_lookup_insert_ne by done. tauto.
  - apply NoDup_app. split; [done|]. split; [|apply NoDup_singleton]. intros q Hq ->%list_elem_of_singleton. apply V6 in Hq as [_ Hq]. by rewrite Ep in Hq.
  - intros q Hq. destruct (decide (q = p)) as [->|]; [by rewrite fn_lookup_insert|]. rewrite fn_lookup_insert_ne by done. by apply V8.
Qed.

Lemma uartwrite_inv s p s' : inv s → uartwrite pol bufs p s = Some s' → inv s'.
Proof.
  intros H E. pose proof (v_th s H p) as Hp. pose proof (v_room s H) as Hroom. unfold uartwrite in E. destruct (at_ s p) as [|i|i|i|i|i|] eqn:Ep; cbn in Hp.
  - destruct (tx_lock s) eqn:El; [done|]. injection E as <-. by apply acquire_inv.
  - destruct (Nat.ltb_spec i (length (bufs p))); injection E as <-; [|by eapply release_inv].
    apply set_thread_inv; rewrite ?Ep; try done; [split; [done|by right]|]. cbn. lia.
  - injection E as <-. destruct Hp as [Hi Hc]. destruct (tx_idle (dev s)) eqn:Ei.
    + apply set_thread_inv; rewrite ?Ep; try done. apply idle_fifo in Ei. rewrite Ei. cbn. destruct (intr s); cbn; lia.
    + apply set_thread_inv; rewrite ?Ep; try done; [|cbn; lia]. split; [done|]. split; [done|]. intros _. left. intros Hf. apply idle_fifo in Hf. congruence.
  - injection E as <-. by apply put_inv.
  - destruct Hp as (Hi & Hc & Ha). destruct (sleep_proc_chan (threads s p)) as (E1 & E2 & E3). destruct (sleep_proc pol (threads s p)) as [q off]. cbn in E1, E2, E3.
    injection E as <-. rewrite E2. case_bool_decide as Ec; apply set_thread_inv; rewrite ?Ep; try done; try (cbn; lia).
    unfold th_ok, chan_ok. rewrite E1. by split_and!.
  - case_decide; [done|]. injection E as <-. apply set_thread_inv; rewrite ?Ep; try done; cbn; [lia|lia].
  - done.
Qed.

Lemma same_threads_inv s s' :
  inv s → threads s' = threads s → at_ s' = at_ s → tx_lock s' = tx_lock s → order s' = order s → of_threads (log s') = of_threads (log s) →
  (log s').*2 = wire s' ++ fifo (dev s') → (length (fifo (dev s')) + putting s + is_echo (intr s') ≤ 2)%nat → (alarm s → alarm s') → inv s'.
Proof.
  intros [V1 V2 V3 V4 V5 V6 V7 V8] E1 E2 E3 E4 E5 H1 H2 H3. split; unfold putting, partial in *; rewrite ?E1, ?E2, ?E3, ?E4, ?E5; try done.
  intros p. eapply th_ok_mono; [exact H3|apply V2].
Qed.

Lemma wake_chan q : chan (wake_proc pol (Some tx_chan) now q) = (if decide (chan q = Some tx_chan) then None else chan q).
Proof. unfold wake_proc. case_decide; [|done]. unfold make_runnable, if_mlfq. by repeat case_decide. Qed.

Lemma wake_state q : chan q = Some tx_chan → state (wake_proc pol (Some tx_chan) now q) ≠ SLEEPING.
Proof.
  intros E. unfold wake_proc. rewrite decide_True by done. unfold make_runnable, if_mlfq. repeat case_decide; cbn; try done.
Qed.

Lemma wake_other q : chan q ≠ Some tx_chan → wake_proc pol (Some tx_chan) now q = q.
Proof. intros E. unfold wake_proc. by rewrite decide_False. Qed.

Lemma wake_th_ok A B len q a : th_ok A len q a → th_ok B len (wake_proc pol (Some tx_chan) now q) a.
Proof.
  assert (Hc : chan_ok q → chan (wake_proc pol (Some tx_chan) now q) = None) by (intros [E|E]; rewrite wake_chan, E; by case_decide).
  destruct a as [|i|i|i|i|i|]; cbn; try done.
  - intros [H1 H2%Hc]. split; [done|by left].
  - intros (H1 & H2%Hc & _). split; [done|]. split; [by left|]. congruence.
  - intros (H1 & H2 & _ & H4). split; [done|]. split; [left; by apply Hc|]. split; [intros H; by apply Hc in H2|].
    intros Hs _. destruct H2 as [E|E]; [rewrite wake_other in Hs by congruence; by apply H4|by apply (wake_state q E)].
Qed.

Lemma uartintr_inv s s' : inv s → uartintr pol now s = Some s' → inv s'.
Proof.
  intros H E. pose proof (v_room s H) as Hroom. pose proof (v_wire s H) as Hwire. unfold uartintr, uartputc_wait, uartputc_put in E. destruct (intr s) as [| | | |l|c l] eqn:Ei; cbn in Hroom.
  - destruct (thre (dev s) || rx_ready (dev s)); [|done]. injection E as <-.
    apply (same_threads_inv s); try done; cbn; rewrite ?isr_fifo; [done|lia|]. intros _. right. right. by left.
  - injection E as <-. apply (same_threads_inv s); try done; cbn; [destruct (tx_idle (dev s)); cbn; lia|].
    intros _. unfold alarm. cbn. destruct (tx_idle (dev s)) eqn:Ed; [tauto|]. left. intros Hf. apply idle_fifo in Hf. congruence.
  - injection E as <-. destruct H as [V1 V2 V3 V4 V5 V6 V7 V8]. split; try done. intros p. cbn. eapply wake_th_ok. apply V2.
  - injection E as <-. unfold receive. destruct (rx_ready (dev s)) eqn:Er.
    + pose proof (rhr_fifo (dev s)) as Hf. pose proof (rhr_thre (dev s)) as Ht. destruct (read_rhr (dev s)) as [c u]. cbn in Hf, Ht.
      destruct (consoleintr c (console s)) as [[k out] wk].
      apply (same_threads_inv s); try done; cbn; rewrite ?Hf; [done|lia|]. unfold alarm. cbn. rewrite Hf, Ht, Ei. intros [?|[?|[?|?]]]; [tauto|tauto|done|done].
    + apply (same_threads_inv s); try done; cbn; try done; try lia. unfold alarm. cbn. rewrite Ei. intros [?|[?|[?|?]]]; [tauto|tauto|done|done].
  - destruct l as [|c l].
    + injection E as <-. apply (same_threads_inv s); try done; cbn; try done; try lia. unfold alarm. cbn. rewrite Ei. intros [?|[?|[?|?]]]; [tauto|tauto|done|done].
    + destruct (tx_idle (dev s)) eqn:Ed; [|done]. injection E as <-. apply idle_fifo in Ed.
      apply (same_threads_inv s); try done; cbn; [rewrite Ed; cbn; unfold putting; destruct (tx_lock s) as [q|]; [destruct (at_ s q)|]; cbn; lia|].
      unfold alarm. cbn. rewrite Ei. intros [?|[?|[?|?]]]; [tauto|tauto|done|done].
  - injection E as <-. apply (same_threads_inv s); try done; cbn.
    + rewrite of_threads_app. cbn. by rewrite app_nil_r.
    + rewrite write_fifo, fmap_app, Hwire by lia. by rewrite <-app_assoc.
    + rewrite write_fifo, length_app by lia. cbn. lia.
    + intros _. left. cbn. rewrite write_fifo by lia. by destruct (fifo (dev s)).
Qed.

Lemma send_inv s s' : inv s → uart_send s = Some s' → inv s'.
Proof.
  intros H E. pose proof (v_room s H) as Hroom. pose proof (v_wire s H) as Hwire. unfold uart_send in E. destruct (fifo (dev s)) as [|c l] eqn:Ef; [done|]. injection E as <-.
  pose proof (drain_fifo (dev s) c l Ef) as Hf. apply (same_threads_inv s); try done; cbn.
  - rewrite Hf, Hwire. by rewrite <-app_assoc.
  - rewrite Hf. cbn in Hroom. lia.
  - unfold alarm. cbn. rewrite Hf, (drain_thre _ c l) by done. intros [_|[H1|H1]]; [|rewrite H1; tauto|tauto].
    destruct l; [right; left; by rewrite orb_true_r|by left].
Qed.

Lemma kill_chan q : chan (kill_proc pol now q) = chan q.
Proof. unfold kill_proc, make_runnable, if_mlfq. by repeat case_decide. Qed.

Lemma kill_state q : state (kill_proc pol now q) ≠ SLEEPING.
Proof. unfold kill_proc, make_runnable, if_mlfq. repeat case_decide; cbn in *; try done. Qed.

Lemma outside_inv s s' : inv s → outside pol now s s' → inv s'.
Proof.
  intros H [c|p].
  - destruct (arrive_spec c (dev s)) as (E1 & E2 & E3). apply (same_threads_inv s); try done; cbn; rewrite ?E2; [by apply v_wire|by apply v_room|].
    unfold alarm. cbn. by rewrite E2, E3.
  - destruct H as [V1 V2 V3 V4 V5 V6 V7 V8].
    assert (Ea : ∀ q, at_ (set_thread p (kill_proc pol now) (at_ s p) s) q = at_ s q).
    { intros q. cbn. destruct (decide (q = p)) as [->|]; [by rewrite fn_lookup_insert|by rewrite fn_lookup_insert_ne]. }
    split; unfold putting, partial in *; try setoid_rewrite Ea; try done.
    + intros q. rewrite ?Ea. change (alarm (set_thread p (kill_proc pol now) (at_ s p) s)) with (alarm s). specialize (V2 q). revert V2. cbn.
      destruct (decide (q = p)) as [->|]; [rewrite fn_lookup_insert|by rewrite fn_lookup_insert_ne].
      unfold th_ok, chan_ok. rewrite kill_chan. destruct (at_ s p); try done. intros (H1 & H2 & H3 & _). split_and!; try done. intros Hs. by apply kill_state in Hs.
    + cbn [tx_lock set_thread intr dev]. destruct (tx_lock s); [by rewrite Ea|done].
    + cbn [tx_lock set_thread log order]. destruct (tx_lock s); [by rewrite Ea|done].
Qed.

Lemma reach_inv s s' : inv s → reach pol now bufs s s' → inv s'.
Proof.
  intros H. induction 1 as [|s1 s2 _ IH [[p s3 E|s3 E|s3 E]|Ho]]; [done|by eapply uartwrite_inv|by eapply uartintr_inv|by eapply send_inv|by eapply outside_inv].
Qed.

(** ** Termination *)
Definition weight (len : nat) (q : proc) (a : wpc) : nat :=
  match a with
  | Start => 20 * len + 10
  | Prep i => 20 * (len - i) + 5
  | Poll i => 20 * (len - i) + if decide (chan q = Some tx_chan) then 4 else 7
  | Put i => 20 * (len - i) + 2
  | ToSleep i => 20 * (len - i) + if decide (chan q = Some tx_chan) then 3 else 6
  | Slept i => 20 * (len - i) + if decide (state q = SLEEPING) then 2 else 6
  | Finished => 0
  end.

Definition intr_weight s : nat :=
  match intr s with
  | NoIntr => if rx_ready (dev s) then 8 else 0
  | Acked => 7
  | Waking => 6
  | Receiving => 1
  | Echo l => 12 * length l + 2
  | EchoPut _ l => 12 * length l + 12
  end.

Definition threads_weight s : nat := sum_list ((λ p, weight (length (bufs p)) (threads s p) (at_ s p)) <$> seq 0 n).
Definition port_weight s : nat := 9 * length (fifo (dev s)) + (if thre (dev s) then 8 else 0) + intr_weight s.

Lemma sum_change (f g : nat → nat) p l :
  NoDup l → p ∈ l → (∀ q, q ≠ p → g q = f q) → (sum_list (g <$> l) + f p = sum_list (f <$> l) + g p)%nat.
Proof.
  intros Hn Hp Hq. induction l as [|x l IH]; [by apply elem_of_nil in Hp|]. apply NoDup_cons in Hn as [Hx Hn]. cbn.
  apply elem_of_cons in Hp as [->|Hp].
  - assert (E : g <$> l = f <$> l); [|rewrite E; lia]. apply list_fmap_ext. intros i y Hy. apply Hq. intros ->. by apply list_elem_of_lookup_2 in Hy.
  - specialize (IH Hn Hp). rewrite (Hq x) by (intros ->; done). lia.
Qed.

Lemma threads_weight_step s s' p :
  inv s → (p < n)%nat → (∀ q, q ≠ p → weight (length (bufs q)) (threads s' q) (at_ s' q) = weight (length (bufs q)) (threads s q) (at_ s q)) →
  (threads_weight s' + weight (length (bufs p)) (threads s p) (at_ s p) = threads_weight s + weight (length (bufs p)) (threads s' p) (at_ s' p))%nat.
Proof.
  intros H Hp Hq. apply (sum_change (λ p, weight (length (bufs p)) (threads s p) (at_ s p)) (λ p, weight (length (bufs p)) (threads s' p) (at_ s' p))); [apply NoDup_seq| |done].
  apply elem_of_seq. lia.
Qed.

Lemma busy_lt s p : inv s → at_ s p ≠ Finished → (p < n)%nat.
Proof. intros H Hp. destruct (decide (p < n)%nat); [done|]. destruct Hp. apply (v_n s H). lia. Qed.

Lemma weight_set s p f a l o :
  inv s → (p < n)%nat → (weight (length (bufs p)) (f (threads s p)) a < weight (length (bufs p)) (threads s p) (at_ s p))%nat →
  (threads_weight (set_lock l o (set_thread p f a s)) < threads_weight s)%nat.
Proof.
  intros H Hp Hw. pose proof (threads_weight_step s (set_lock l o (set_thread p f a s)) p H Hp) as E. cbn in E. rewrite !fn_lookup_insert in E.
  assert (E' := E ltac:(intros q Hq; by rewrite !fn_lookup_insert_ne)). lia.
Qed.

Lemma uartwrite_weight s p s' :
  inv s → uartwrite pol bufs p s = Some s' → received (dev s') = received (dev s) ∧ (threads_weight s' + port_weight s' < threads_weight s + port_weight s)%nat.
Proof.
  intros H E. assert (Hlt : (p < n)%nat).
  { apply (busy_lt s p H). intros Ef. unfold uartwrite in E. by rewrite Ef in E. }
  pose proof (v_th s H p) as Hp. pose proof (v_room s H) as Hroom.
  assert (Hset : ∀ f a l o, (weight (length (bufs p)) (f (threads s p)) a < weight (length (bufs p)) (threads s p) (at_ s p))%nat →
    received (dev (set_lock l o (set_thread p f a s))) = received (dev s) ∧
    (threads_weight (set_lock l o (set_thread p f a s)) + port_weight (set_lock l o (set_thread p f a s)) < threads_weight s + port_weight s)%nat).
  { intros f a l o Hw. split; [done|]. pose proof (weight_set s p f a l o H Hlt Hw). change (port_weight (set_lock l o (set_thread p f a s))) with (port_weight s). lia. }
  unfold uartwrite in E. destruct (at_ s p) as [|i|i|i|i|i|] eqn:Ep; cbn in Hp.
  - destruct (tx_lock s); [done|]. injection E as <-. apply Hset. cbn. lia.
  - destruct (i <? length (bufs p))%nat; injection E as <-; [|apply Hset; cbn; lia].
    apply (Hset _ _ (tx_lock s) (order s)). cbn. case_decide; [lia|done].
  - injection E as <-. apply (Hset _ _ (tx_lock s) (order s)). cbn. destruct (tx_idle (dev s)); cbn; case_decide; lia.
  - injection E as <-. split; [apply write_received|].
    pose proof (threads_weight_step s (set_thread p id (Prep (S i)) (put_byte (Some p) (nth i (bufs p) 0) s)) p H Hlt) as Es. cbn in Es. rewrite !fn_lookup_insert, Ep in Es.
    assert (Es' := Es ltac:(intros q Hq; by rewrite !fn_lookup_insert_ne)). cbn in Es'. unfold port_weight, intr_weight, rx_ready. cbn.
    rewrite write_fifo, write_thre, write_received, length_app by lia. cbn. destruct (thre (dev s)); lia.
  - destruct Hp as (Hi & Hc & _). destruct (sleep_proc_chan (threads s p)) as (E1 & E2 & E3). pose proof (sleep_proc_state (threads s p)) as E4.
    destruct (sleep_proc pol (threads s p)) as [q off]. cbn in E1, E2, E3, E4. injection E as <-. apply (Hset _ _ (tx_lock s) (order s)).
    rewrite E2. destruct Hc as [Ec|Ec]; rewrite Ec in *; cbn [weight].
    + rewrite bool_decide_false by (by intros []). cbn [weight]. case_decide; [congruence|lia].
    + assert (Hn : Some tx_chan ≠ None) by discriminate. rewrite bool_decide_true by exact Hn. cbn [weight]. rewrite (decide_True _ _ (E4 Hn)). rewrite (decide_True _ _ Ec). lia.
  - case_decide as Ed; [done|]. injection E as <-. apply (Hset _ _ (tx_lock s) (order s)). cbn. rewrite decide_False by done. lia.
  - done.
Qed.

Lemma weight_wake len q q' a : (weight len q' a ≤ weight len q a + if active a then 4 else 0)%nat.
Proof. destruct a; cbn [weight active]; repeat case_decide; lia. Qed.

Lemma one_active s p q : inv s → tx_lock s = Some p → q ≠ p → active (at_ s q) = false.
Proof. intros H Hp Hq. apply not_true_is_false. intros Ha. apply (v_lock s H) in Ha. congruence. Qed.

Lemma threads_weight_wake s s' : inv s → at_ s' = at_ s → (threads_weight s' ≤ threads_weight s + 4)%nat.
Proof.
  intros H Ea. destruct (tx_lock s) as [p|] eqn:El.
  - pose proof (proj1 (v_lock s H p) El) as Hact. assert (Hp : (p < n)%nat) by (apply (busy_lt s p H); intros E; by rewrite E in Hact).
    pose proof (threads_weight_step s s' p H Hp) as E. rewrite Ea in E. pose proof (weight_wake (length (bufs p)) (threads s p) (threads s' p) (at_ s p)) as Hw.
    rewrite Hact in Hw. assert (E' := E ltac:(intros q Hq; pose proof (one_active s p q H El Hq); by destruct (at_ s q))). lia.
  - assert (E : threads_weight s' = threads_weight s); [|lia]. unfold threads_weight. f_equal. apply list_fmap_ext. intros _ q _. rewrite Ea.
    assert (Hq : active (at_ s q) ≠ true) by (intros Hq; apply (v_lock s H) in Hq; congruence). by destruct (at_ s q).
Qed.

Lemma same_threads_weight s s' : threads s' = threads s → at_ s' = at_ s → threads_weight s' = threads_weight s.
Proof. intros E1 E2. unfold threads_weight. by rewrite E1, E2. Qed.

Definition smaller s' s : Prop :=
  (length (received (dev s')) < length (received (dev s)))%nat ∨
  received (dev s') = received (dev s) ∧ (threads_weight s' + port_weight s' < threads_weight s + port_weight s)%nat.

Lemma uartintr_smaller s s' : inv s → uartintr pol now s = Some s' → smaller s' s.
Proof.
  intros H E. pose proof (v_room s H) as Hroom. unfold uartintr, uartputc_wait, uartputc_put in E. destruct (intr s) as [| | | |l|c l] eqn:Ei; cbn in Hroom.
  - destruct (thre (dev s) || rx_ready (dev s)) eqn:Et; [|done]. injection E as <-. right. cbn. split; [apply isr_received|].
    rewrite (same_threads_weight s) by done. unfold port_weight, intr_weight. rewrite Ei. cbn. rewrite isr_fifo. pose proof (isr_thre (dev s)) as Hi.
    unfold rx_ready in *. destruct (thre (read_isr (dev s))); [destruct (Hi eq_refl) as [-> Hr]; destruct (received (dev s)); [done|lia]|].
    destruct (thre (dev s)), (received (dev s)); cbn in *; try done; lia.
  - injection E as <-. right. split; [done|]. rewrite (same_threads_weight s) by done. unfold port_weight, intr_weight. rewrite Ei. cbn. destruct (tx_idle (dev s)); lia.
  - injection E as <-. right. split; [done|]. match goal with |- (threads_weight ?s' + _ < _)%nat => pose proof (threads_weight_wake s s' H eq_refl) end.
    unfold port_weight, intr_weight. rewrite Ei. cbn. lia.
  - injection E as <-. unfold receive. destruct (rx_ready (dev s)) eqn:Er.
    + left. unfold rx_ready in Er. destruct (received (dev s)) as [|c l] eqn:El; [done|]. destruct (rhr_spec (dev s) c l El) as [_ E2].
      destruct (read_rhr (dev s)) as [c' u]. cbn in E2. destruct (consoleintr c' (console s)) as [[k out] wk]. cbn. rewrite E2. lia.
    + right. split; [done|]. rewrite (same_threads_weight s) by done. unfold port_weight, intr_weight. rewrite Ei. cbn. rewrite Er. lia.
  - destruct l as [|c l].
    + injection E as <-. right. split; [done|]. rewrite (same_threads_weight s) by done. unfold port_weight, intr_weight. rewrite Ei. cbn. lia.
    + destruct (tx_idle (dev s)); [|done]. injection E as <-. right. split; [done|]. rewrite (same_threads_weight s) by done.
      unfold port_weight, intr_weight. rewrite Ei. cbn. lia.
  - injection E as <-. right. split; [apply write_received|]. rewrite (same_threads_weight s) by done. unfold port_weight, intr_weight. rewrite Ei. cbn.
    rewrite write_fifo, write_thre, length_app by lia. cbn. destruct (thre (dev s)); lia.
Qed.

Lemma send_smaller s s' : uart_send s = Some s' → smaller s' s.
Proof.
  intros E. unfold uart_send in E. destruct (fifo (dev s)) as [|c l] eqn:Ef; [done|]. injection E as <-. right. cbn. split; [apply drain_received|].
  rewrite (same_threads_weight s) by done. unfold port_weight, intr_weight, rx_ready. cbn. rewrite (drain_fifo _ c l Ef), drain_received, Ef. cbn.
  destruct (thre (drain (dev s))), (thre (dev s)); lia.
Qed.

Lemma step_smaller s s' : inv s → step pol now bufs s s' → smaller s' s.
Proof. intros H [p s1 E|s1 E|s1 E]; [right; by eapply uartwrite_weight|by eapply uartintr_smaller|by eapply send_smaller]. Qed.

Lemma port_step_inv s s' : inv s → step pol now bufs s s' → inv s'.
Proof. intros H [p s1 E|s1 E|s1 E]; [by eapply uartwrite_inv|by eapply uartintr_inv|by eapply send_inv]. Qed.

Lemma step_acc s : inv s → Acc (λ s2 s1, step pol now bufs s1 s2) s.
Proof.
  remember (length (received (dev s))) as a eqn:Ea. remember (threads_weight s + port_weight s)%nat as b eqn:Eb. revert b s Ea Eb.
  induction a as [a IHa] using lt_wf_ind. intros b. induction b as [b IHb] using lt_wf_ind. intros s -> -> H. constructor. intros s' Hs.
  pose proof (port_step_inv s s' H Hs) as H'. destruct (step_smaller s s' H Hs) as [Hl|[El Hl]]; [by eapply IHa|]. eapply IHb; [exact Hl|by rewrite El|done|done].
Qed.

(** When the port has come to rest, all is sent. *)
Lemma stuck_done s : inv s → (∀ s', ¬ step pol now bufs s s') → order s ≡ₚ seq 0 n ∧ fifo (dev s) = [] ∧ tx_lock s = None.
Proof.
  intros H Hs. assert (Hf : fifo (dev s) = []).
  { destruct (fifo (dev s)) as [|c l] eqn:Ef; [done|]. exfalso. eapply Hs. apply s_send. unfold uart_send. by rewrite Ef. }
  assert (Hi : intr s = NoIntr ∧ thre (dev s) = false).
  { destruct (uartintr pol now s) as [s'|] eqn:E; [exfalso; by eapply Hs, s_intr|]. unfold uartintr, uartputc_wait, uartputc_put in E.
    assert (Hidle : tx_idle (dev s) = true) by by apply idle_fifo.
    destruct (intr s) as [| | | |l|]; try done; [|destruct l; [done|by rewrite Hidle in E]]. split; [done|]. by destruct (thre (dev s)). }
  destruct Hi as [Hi Ht].
  assert (Hw : ∀ p, uartwrite pol bufs p s = None).
  { intros p. destruct (uartwrite pol bufs p s) eqn:E; [exfalso; by eapply Hs, s_write|done]. }
  assert (Hl : tx_lock s = None).
  { destruct (tx_lock s) as [p|] eqn:El; [|done]. exfalso. pose proof (proj1 (v_lock s H p) El) as Ha. specialize (Hw p). pose proof (v_th s H p) as Hp.
    unfold uartwrite in Hw. destruct (at_ s p) eqn:Ep; try done; [by destruct (i <? length (bufs p))%nat|by destruct (sleep_proc pol (threads s p))|].
    case_decide as Ed; [|done]. destruct Hp as (_ & _ & Hal & Hsl). destruct (Hal (Hsl Ed)) as [Ha1|[Ha1|[Ha1|Ha1]]]; congruence. }
  split; [|done]. apply NoDup_Permutation; [by apply v_nodup|apply NoDup_seq|]. intros p. rewrite (v_order s H), elem_of_seq. split; [lia|].
  intros [_ Hp]. split; [lia|]. specialize (Hw p). unfold uartwrite in Hw.
  assert (Ha : active (at_ s p) = false) by (apply not_true_is_false; intros Ha; apply (v_lock s H) in Ha; congruence).
  destruct (at_ s p); try done. by rewrite Hl in Hw.
Qed.

(** C15: in every interleaving of threads in [uartwrite], keys that come in, kills, the interrupt handler with its echo, and the device: the FIFO never has
    more than two bytes to send, so none is lost; the threads' bytes go out in the order of their calls, each whole, and what left and what is in
    the FIFO is what was written; the port always comes to rest when nothing comes from outside, and then every call has returned
    and every byte has left: no wakeup is lost. *)
Theorem uart_delivers s0 s :
  fresh n s0 → reach pol now bufs s0 s →
  (length (fifo (dev s)) ≤ 2)%nat ∧ (log s).*2 = wire s ++ fifo (dev s) ∧ of_threads (log s) = calls (order s) ++ partial s ∧
  Acc (λ s2 s1, step pol now bufs s1 s2) s ∧
  ((∀ s', ¬ step pol now bufs s s') → order s ≡ₚ seq 0 n ∧ (log s).*2 = wire s ∧ of_threads (log s) = calls (order s)).
Proof.
  intros Hf Hr. pose proof (reach_inv s0 s (fresh_inv s0 Hf) Hr) as H. split; [pose proof (v_room s H); lia|].
  split; [by apply v_wire|]. split; [by apply v_log|]. split; [by apply step_acc|]. intros Hs. destruct (stuck_done s H Hs) as (E1 & E2 & E3).
  split; [done|]. rewrite (v_wire s H), (v_log s H), E2, app_nil_r. split; [done|]. unfold partial. by rewrite E3, app_nil_r.
Qed.
End Invariant.

(** ** A port *)
Record chip := { c_fifo : list Z; c_received : list Z; c_thre : bool }.

#[export] Instance chip_uart : Uart chip := {
  fifo := c_fifo; received := c_received; thre := c_thre;
  write_thr c u := {| c_fifo := if (length (c_fifo u) <? 16)%nat then c_fifo u ++ [c] else c_fifo u; c_received := c_received u; c_thre := false |};
  read_isr u := {| c_fifo := c_fifo u; c_received := c_received u; c_thre := match c_received u with [] => false | _ => c_thre u end |};
  read_rhr u := (hd 0 (c_received u), {| c_fifo := c_fifo u; c_received := tl (c_received u); c_thre := c_thre u |});
  drain u := {| c_fifo := tl (c_fifo u); c_received := c_received u; c_thre := c_thre u || bool_decide (tl (c_fifo u) = []) |};
  arrive c u := {| c_fifo := c_fifo u;
                   c_received := if (length (c_received u) <? 16)%nat then c_received u ++ [c] else c_received u; c_thre := c_thre u |}
}.

#[export] Instance chip_ok : UartOk chip.
Proof.
  split; try done.
  - intros c u H. transitivity (if (length (c_fifo u) <? 16)%nat then c_fifo u ++ [c] else c_fifo u); [done|]. destruct (Nat.ltb_spec (length (c_fifo u)) 16) as [_|H']; [done|]. cbn in H. lia.
  - intros u. cbn. destruct (c_received u); [done|]. by split.
  - intros u c l H. cbn in *. by rewrite H.
  - intros u c l H. cbn in *. by rewrite H.
  - intros u c l H. cbn in *. by rewrite H.
Qed.

Definition two_calls (p : nat) : list Z := match p with 0%nat => [104; 105] | 1%nat => [33] | _ => [] end.

Definition quiet_port : port chip :=
  {| threads := λ _, zero_proc; at_ := λ p, if (p <? 2)%nat then Start else Finished; tx_lock := None; intr := NoIntr; console := new_console [];
     dev := {| c_fifo := []; c_received := []; c_thre := false |}; log := []; wire := []; order := [] |}.

Definition thread_steps (k p : nat) (s : port chip) : port chip := Nat.iter k (λ s, default s (uartwrite MLFQ two_calls p s)) s.

(** Thread 0 sleeps for its second byte, the first has just left. *)
Definition sleeping_port : port chip := default quiet_port (uart_send (thread_steps 7 0 quiet_port)).

Lemma thread_steps_reach k p s0 s : reach MLFQ 0 two_calls s0 s → reach MLFQ 0 two_calls s0 (thread_steps k p s).
Proof.
  intros H. induction k as [|k IH]; [done|]. change (thread_steps (S k) p s) with (default (thread_steps k p s) (uartwrite MLFQ two_calls p (thread_steps k p s))).
  destruct (uartwrite MLFQ two_calls p (thread_steps k p s)) as [s'|] eqn:E; [|done]. eapply r_step; [exact IH|]. left. by eapply s_write.
Qed.

Theorem uart_delivers_witness :
  (at_ sleeping_port 0, wire sleeping_port, c_thre (dev sleeping_port)) = (Slept 1, [104], true) ∧
  state (threads sleeping_port 0) = SLEEPING ∧
  (length (fifo (dev sleeping_port)) ≤ 2)%nat ∧ Acc (λ s2 s1, step MLFQ 0 two_calls s1 s2) sleeping_port.
Proof.
  split; [vm_compute; reflexivity|]. split; [vm_compute; reflexivity|].
  assert (Hf : fresh 2 quiet_port) by (unfold fresh; split_and!; reflexivity).
  assert (Hr : reach MLFQ 0 two_calls quiet_port sleeping_port).
  { pose proof (thread_steps_reach 7 0 quiet_port quiet_port (r_here _ _ _ _)) as H. unfold sleeping_port.
    destruct (uart_send (thread_steps 7 0 quiet_port)) as [s'|] eqn:E; [|apply r_here]. eapply r_step; [exact H|]. left. by apply s_send. }
  destruct (uart_delivers MLFQ 0 two_calls 2 quiet_port sleeping_port Hf Hr) as (H1 & _ & _ & H2 & _). split; [exact H1|exact H2].
Defined.
